(* ===== verification/_CoqProject ===== *)
-Q . S2P
Prelude.v
Text.v
Bytes.v
Float.v
Address.v
Member.v
Gossip.v
GossipFacts.v
Detector.v
Contact.v
Head.v
HeadFacts.v
Atomic.v
Owned.v
Breaker.v
Policy.v
Ring.v
Tree.v
Evict.v
EvictFacts.v
CacheAware.v
Json.v
Errors.v
Output.v
Reference.v
Retry.v
Pool.v
PoolFacts.v
Watch.v
Supervise.v
Naming.v
Directory.v
Resolve.v
ResolveFacts.v
Behavior.v
Runtime.v
RuntimeFacts.v
Message.v
Frames.v
Http.v
Exchange.v
Handler.v
HandlerFacts.v
Connect.v
Patch.v
PatchFacts.v
Edit.v
EditFacts.v
Files.v
Apply.v
ApplyFacts.v
Tools.v
ToolsFacts.v
ExecPolicy.v
Approval.v
ApprovalFacts.v
Exec.v
ExecFacts.v
Session.v
SessionFacts.v
Bench.v
Scheduler.v
SchedulerFacts.v
Worker.v
Coordinator.v
CoordinatorFacts.v
Registry.v
Mcp.v
Telemetry.v
Forge.v
Llm.v
Agent.v
McpConfig.v
Bm25.v
Discovery.v
Catalog.v
HostTools.v
Shm.v
SystemActor.v
