(* ===== verification/Prelude.v ===== *)
(** * Pulsing: verification of the actor runtime and its tools

    This library models the core of the Pulsing repository: the actor runtime
    [crates/pulsing-actor], the agent tool runtime [crates/pulsing-forge] and the
    benchmark [crates/pulsing-bench]. Paths below are under [src/crates].

    ** The program

    Nodes form a cluster. [cluster/gossip.rs] keeps, on every node, a table of
    nodes with status and epoch, a table of named actors with their instances
    and a table of actors; nodes exchange partial views by ping, pong and meet
    messages, detect failures by silence and spread verdicts. Alternatively
    [cluster/backends/head.rs] keeps these tables on one head node and lets
    workers copy them and send their registrations. Both implement the trait of
    [cluster/naming.rs], through which [system/resolve.rs] turns an address
    ([actor/address.rs]) into a reference, choosing an instance with one of the
    policies of [policies/]. [circuit_breaker.rs] guards calls to a failing peer.
    On a node, [system/spawn.rs] and [system/lifecycle.rs] create and stop actors,
    [system/runtime.rs] runs and supervises them, [watch.rs] tells watchers; calls
    to other nodes are framed by [transport/http2/stream.rs] and
    [transport/tensor.rs]. [pulsing-forge] runs an agent's tools: it applies
    patches ([patch/]), decides which commands may run ([execpolicy/],
    [approval/]), keeps the turns of a session as a log of events ([session/]),
    finds and calls tools ([registry.rs], [mcp/], [discovery/]) and talks to the
    model that asks for them ([agent/], [llm/]). [pulsing-bench] measures a server
    with actors on the same runtime.

    ** The files

    - [Prelude] (this file): 64- and 32-bit arithmetic with wrap-around, text,
      the decisions left to the environment ([Oracle]), shared lemmas and
      tactics, the hint database [pulsing]. [Text]: Rust's string functions.
      [Bytes]: integers in both byte orders and UTF-8. [Float]: [f64] and [f32].
    - [Address]: [actor/address.rs]. [path_new], [child], the URI parser [parse]
      and printer [to_uri], with the text functions they call.
    - [Member]: [cluster/member.rs]. Node and member records and their
      precedence, named-actor records, and the operations on the table of named
      actors that both backends share, with the invariant [table_wf].
    - [Gossip]: [cluster/gossip.rs] and [members_store.rs]. [ClusterState] is the
      state behind the locks; one definition per handler, call and background
      round; what a call sends is part of its result.
    - [GossipFacts]: the invariant [cluster_inv], the relation [step] of one
      critical section of one node, and a cluster of nodes and messages in
      flight ([World], [wstep]: delivery in any order, loss, duplication, calls
      and timer rounds on any node at any time). C1 is the invariant of every
      reachable world.
    - [Detector]: failure detection and the merging of views; [Swim] in it, the
      ping bookkeeping of [cluster/swim.rs], which nothing in the runtime calls.
    - [Contact]: contact, named actors and verdicts between two nodes.
    - [Head]: [cluster/backends/head.rs], head and worker. [HeadFacts]: a sync
      copies the head's view, the queue of pending operations loses nothing,
      stale nodes leave no trace, and the order that is lost on a retry.
    - [Atomic]: operations as trees of atomic accesses ([prog]), run alone
      ([run]) or interleaved in a pool ([pstep]), with rules for invariants,
      counters and termination. [Breaker]: [circuit_breaker.rs] in it: its
      life and a three-state machine when it is run alone, and its counters and a
      race when it is run by many threads.
    - [Policy]: [policies/mod.rs] and the random, round-robin and
      power-of-two policies; [PolicySound] is the law all policies obey.
    - [Ring]: [policies/consistent_hash.rs]. [Tree]:
      insertion and matching of [policies/tree.rs]; [Evict], [EvictFacts]: its
      eviction and the removal of a tenant, with nodes named by their path.
    - [CacheAware]: [policies/cache_aware.rs], a policy with a radix tree per
      model.
    - [Watch]: [watch.rs] as a relation. [Supervise]:
      [supervision.rs] and [system/runtime.rs], with the clock, the draws and the
      actor's own code as arguments.
    - [Naming], [Directory]: the trait of the backends as two classes with laws
      and two implementations of each. [Resolve], [ResolveFacts]:
      [system/resolve.rs], [system/load_balancer.rs] and the maps of
      [system/registry.rs], proved against [NamingLaws] and [PolicySound] only.
    - [Runtime], [RuntimeFacts]: spawning, stopping and shutting down, as [prog]s
      over the state [Node] of [system/mod.rs], so that calls interleave; the
      states of a node ([system_actor/lifecycle.rs]); dispatch by path.
    - [Message]: tensor messages of [actor/traits.rs] and their
      packed form. [Frames]: stream frames and their parser, raw
      tensor frames, the vectored writer and the reader.
    - [Errors]: [error.rs]. [Reference]: the lazy reference of
      [actor/reference.rs], a state machine of the tasks that share it. [Retry]: [transport/http2/retry.rs]. [Pool]:
      [transport/http2/pool.rs] as [prog]s over the pool's locks and counters;
      [PoolFacts] counts permits, slots and connections under all interleavings
      with the ownership rule of [Owned].
    - [Http]: the request handler of [transport/http2/server.rs] and the calls of
      [client.rs], with the headers and bodies they exchange; [Handler] is what
      the server asks of the node. A call over the wire is the handler's call,
      and it is shown where it is not. [Exchange]: raw tensor connections, and the
      transport behind a reference, which is the client behind the circuit
      breaker. [Handler], [HandlerFacts]: [system/handler.rs], the handler of a
      real node: from a target on another node to the mailbox, and from a
      worker's call to the head's registry.
    - [Connect]: [connect/], a client outside the cluster that resolves and sends
      through a gateway, with the defects of its failing over. [Behavior]:
      [behavior/] and [actor/context.rs], actors that are functions of messages,
      under the loops of [Supervise]. [Telemetry]: [tracing/mod.rs] and the row
      stores, the trace context and what is recorded of spans and actors.
    - [Shm]: [system_actor/shm.rs], leases on shared memory as a state machine.
      [SystemActor]: the rest of [system_actor/] and [performance_store.rs]: the
      registry of system services with its lifecycle and routing, the built-in
      services and their host, and the actor in front of them.
    - [Patch], [PatchFacts]: [pulsing-forge/src/patch], the streaming parser.
      [Edit], [EditFacts]: where chunks go and the new contents. [Files]: paths,
      directories and links. [Apply], [ApplyFacts]: the hunks applied to files.
    - [ExecPolicy]: prefix rules. [Json]: values. [Approval], [ApprovalFacts]:
      the approval cache, the gate and permission profiles.
    - [Session], [SessionFacts]: the reducer, the event store and the service as
      a step relation of critical sections.
    - [Output]: [exec_output.rs], the rolling buffer and the decoder of a
      command's output. [Tools], [ToolsFacts]: the tools of [handlers/] that read,
      write, edit and search files, on [Files]. [Exec], [ExecFacts]:
      [unified_exec.rs], the table of commands that go on running, with the thread
      of [pty_session.rs] and the reader of a pipe as step functions; and
      [handlers/shell_exec.rs], a command that is waited for, behind [Approval].
    - [Registry], [Forge]: [registry.rs], [executor.rs] and [runtime.rs], the
      tools by their names and a call of one; [Mcp], [McpConfig]: [mcp/], the
      names and the calls of tools on other servers, and where the servers are
      configured. [Llm], [Agent]: [llm/] and [agent/], messages and answers in the
      forms of two providers, and the loop between the model and the tools.
    - [Bm25], [Discovery], [Catalog]: [discovery/] and [handlers/discovery.rs],
      scores, plugins and the catalog that is searched and installed from.
      [HostTools]: [context.rs], [session_input.rs] and the tools for plans and
      questions.
    - [Bench], [Scheduler], [SchedulerFacts], [Worker], [Coordinator],
      [CoordinatorFacts]: [pulsing-bench/src/actors], the statistics and the
      phases of a benchmark, its scheduler as [prog]s over the counters its tasks
      share, the worker's reading of a streamed answer, and the run of all phases.

    ** How state and effects are modelled

    A lock-protected state is a record threaded through the calls; a method
    that locks several times in one call is the composition of its critical
    sections, and [step] lets another task run between calls. In [Breaker] and
    [Runtime] the interleaving is at every access. Clock readings, fresh ids, the
    position of a random generator and the results of network calls are
    arguments. Text is a list of Unicode scalar values; integers are [Z] with
    the wrap-around of the release profile written out; a panic is [None] where
    a caller could see one. Third-party code is a class with its documented laws
    and an instance that shows they can hold: [Oracle] (hash-map order,
    shuffling, drawing), [Unicode], [Lowercase], [Uuid], [Codec] (bincode),
    [Rng], [HttpRules] (what hyper takes for a header), [Tokio] (the limit of a
    semaphore), [ErrorTexts] and [Limits] (texts and sizes the code only passes
    on).

    ** What the theorems show

    Invariants of every reachable state (cluster tables, node states, the session
    against its log); exact results of failure detection, contact,
    registration, withdrawal, head sync, resolution, selection, spawning and
    stopping, on every branch; round trips of addresses and frames, with exactly the ones
    that come back, of packed tensors, and of patches by the grammar they are
    documented with; independence of the order of merging and of how bytes are cut;
    the life of a breaker; refinement of the watch registry to a relation; stability of the hash ring, longest-prefix matching and eviction
    in the radix tree; bounds on the rate of restarts and on output kept; confinement of
    patches and file tools and of what runs unasked; sessions of commands
    accounted for, their two streams apart and whole; every named tool call of a
    model answered once and by the tool it names; requests of a benchmark asked once and attributed
    to their phase; services of a node started and stopped in order, leases on
    shared memory valid exactly as long as they should be. Theorems that describe a defect say so: a silent node that
    comes back, a registration that outlives its withdrawal, an actor unlisted by
    the stop of its predecessor, a frame that panics its reader, a cancellation
    that wedges a session.

    ** Bounds and fuel

    [display_u128] has fuel 40: a [u128] has at most 39 digits. [redraw] has one
    more than the generator's patience, shown to suffice ([redraw_some]).
    [insert_below] and [match_below] have the length of the text, and every
    round consumes a character ([insert_below_spec], [match_below_matched]).
    [evict_loop] has twice the number of marks and one: every round drops a mark
    or an entry ([evict_loop_ends]); [remove_loop] has the number of marks.
    [parse_frames] has the buffer's length, as a frame takes four bytes;
    [write_all_vectored] the number of bytes. [supervise] is given fuel by its
    caller and gives the trace so far when there is none left, so what holds of every
    fuel holds of an actor that is restarted for ever; [max_restarts] and one is
    enough for the end without a window. [execute] has
    [max_retries] and one, so that its last round is the last attempt
    ([execute_spec]); [acquire] is given the number of times the semaphore is
    looked at before the timeout. [transition] and
    [shutdown] retry a compare-and-swap, and one round is enough alone.
    [create_dirs] has the path's length, and the walk through links the
    kernel's limit; [walk_dir] is given the depth it may go. [lossy] and
    [valid_bytes] have the number of bytes, of which a round takes one. All other recursion is structural. Overflow is excluded by
    hypotheses only where stated (an incarnation or a counter below its last
    value).

    ** What is not modelled

    Logging, the select loops that call the rounds and ticks, HTTP/2 and TLS,
    serialization formats, poisoned locks and the inside of processes are left out.
    Of the runtime, the configuration's builders and defaults, TLS set-up and the
    conversions from third-party errors are left out: they only fill in values.
    The set-up of tracing and the counters of the metrics page are not modelled;
    nor are the workspace journal, the terminal and graphical interfaces and the
    Python bindings, which are input, output and glue. *)
From stdpp Require Export base tactics numbers list gmap sets strings fin_maps fin_sets relations.
From Stdlib Require Export Lia ZArith.

#[export] Set Default Goal Selector "!".

Declare Scope pulsing_scope.
Delimit Scope pulsing_scope with pulsing.
#[global] Open Scope Z_scope.

(** ** Machine integers

    A [u64] or [usize] is a [Z] kept in range by writing its wrap-around out.
    The release profile has no overflow checks, so [+] wraps. *)
Definition two64 : Z := 2 ^ 64.
Definition u64 (z : Z) : Z := z mod two64.
Definition is_u64 (z : Z) : Prop := 0 <= z < two64.
Definition u64_add (a b : Z) : Z := u64 (a + b).
Definition two128 : Z := 2 ^ 128.
Definition is_u128 (z : Z) : Prop := 0 <= z < two128.
Definition two32 : Z := 2 ^ 32.
Definition u32 (z : Z) : Z := z mod two32.
Definition is_u32 (z : Z) : Prop := 0 <= z < two32.
Definition saturating_sub (a b : Z) : Z := Z.max 0 (a - b).

Notation "a '+w' b" := (u64_add a b) (at level 50, left associativity) : pulsing_scope.
#[global] Open Scope pulsing_scope.

Create HintDb pulsing discriminated.
#[global] Hint Constants Opaque : pulsing.

Lemma u64_range z : is_u64 (u64 z).
Proof. apply Z.mod_pos_bound. reflexivity. Qed.

Lemma u32_range z : is_u32 (u32 z).
Proof. apply Z.mod_pos_bound. reflexivity. Qed.

Lemma u32_small z : is_u32 z → u32 z = z.
Proof. intros H. by apply Z.mod_small. Qed.

Lemma u64_small z : is_u64 z → u64 z = z.
Proof. intros H. by apply Z.mod_small. Qed.

Lemma u64_add_range a b : is_u64 (a +w b).
Proof. apply u64_range. Qed.

Lemma u64_add_small a b : is_u64 (a + b) → a +w b = a + b.
Proof. apply u64_small. Qed.

Lemma u64_succ a : is_u64 a → a + 1 < two64 → a +w 1 = a + 1.
Proof. intros Ha Hlt. apply u64_add_small. unfold is_u64 in *. lia. Qed.

Lemma u64_max a b : is_u64 a → is_u64 b → is_u64 (Z.max a b).
Proof. unfold is_u64. lia. Qed.

Lemma is_u64_0 : is_u64 0.
Proof. by split; [|reflexivity]. Qed.

Lemma is_u64_1 : is_u64 1.
Proof. by split; [|reflexivity]. Qed.

#[export] Hint Resolve u32_range u64_range u64_add_range u64_max is_u64_0 is_u64_1 : pulsing.

(** ** Text

    A Rust [String] is the list of its Unicode scalar values. [lit] turns an
    ASCII literal into one; [utf8_len] is what [str::len] counts, in bytes. *)
Notation str := (list Z) (only parsing).

Fixpoint lit (s : string) : list Z :=
  match s with
  | EmptyString => []
  | String a s' => Z.of_N (Ascii.N_of_ascii a) :: lit s'
  end.
Coercion lit : string >-> list.

Definition utf8_width (c : Z) : Z :=
  if c <? 128 then 1 else if c <? 2048 then 2 else if c <? 65536 then 3 else 4.
Definition utf8_len (s : str) : Z := foldr (λ c n, utf8_width c + n) 0 s.
Arguments utf8_len : simpl never.

(** ** What the environment decides

    Rust's [HashMap] promises no iteration order and [rand] promises no
    particular draw. An [Oracle] is one set of such decisions; an operation
    that iterates or draws takes one, so a theorem about it holds for all of
    them, and two calls may be given different ones. *)
Class Oracle : Type := {
  hm_iter : ∀ {K V} `{Countable K}, gmap K V → list (K * V);
  hm_iter_perm : ∀ {K V} `{Countable K} (m : gmap K V), hm_iter m ≡ₚ map_to_list m;
  shuffle : ∀ {A}, list A → list A;
  shuffle_perm : ∀ {A} (l : list A), shuffle l ≡ₚ l;
  choose : ∀ {A}, list A → option A;
  choose_elem : ∀ {A} (l : list A) x, choose l = Some x → x ∈ l;
  choose_none : ∀ {A} (l : list A), choose l = None → l = []
}.

(** The oracle used by the concrete examples: ascending order, first element. *)
#[export] Program Instance first_oracle : Oracle := {
  hm_iter _ _ _ _ m := map_to_list m;
  shuffle _ l := l;
  choose _ l := head l
}.
Next Obligation. done. Qed.
Next Obligation. done. Qed.
Next Obligation. intros A [|a l] x [= <-]. apply list_elem_of_here. Qed.
Next Obligation. by intros A [|a l]. Qed.

Section HashMap.
Context `{Countable K} {V : Type} {O : Oracle}.
Implicit Types m : gmap K V.

(** [HashMap::values], [HashMap::retain]: the latter is order-free. *)
Definition hm_values m : list V := (hm_iter m).*2.

Lemma elem_of_hm_iter m k v : (k, v) ∈ hm_iter m ↔ m !! k = Some v.
Proof. rewrite hm_iter_perm. apply elem_of_map_to_list. Qed.

Lemma elem_of_hm_values m v : v ∈ hm_values m ↔ ∃ k, m !! k = Some v.
Proof.
  unfold hm_values. rewrite list_elem_of_fmap. split.
  - intros [[k w] [-> Hin]]. exists k. by apply elem_of_hm_iter.
  - intros [k Hk]. exists (k, v). split; [done|]. by apply elem_of_hm_iter.
Qed.

Lemma NoDup_hm_keys m : NoDup (hm_iter m).*1.
Proof. rewrite hm_iter_perm. apply NoDup_fst_map_to_list. Qed.

Lemma hm_values_length m : length (hm_values m) = size m.
Proof.
  unfold hm_values. by rewrite length_fmap, hm_iter_perm, length_map_to_list.
Qed.
End HashMap.

(** ** Fallible calls *)
Inductive Result (A E : Type) := Ok (a : A) | Err (e : E).
Arguments Ok {A E} _.
Arguments Err {A E} _.
(** The [?] operator. *)
Definition and_then {A B E} (r : Result A E) (k : A → Result B E) : Result B E :=
  match r with Ok a => k a | Err e => Err e end.
Notation "'let?' x := r 'in' k" := (and_then r (λ x, k))
  (at level 200, x pattern, r at level 100, k at level 200) : pulsing_scope.

Lemma and_then_Ok {A B E} (r : Result A E) (k : A → Result B E) b :
  and_then r k = Ok b ↔ ∃ a, r = Ok a ∧ k a = Ok b.
Proof. destruct r; naive_solver. Qed.

(** ** Tactics *)
(** Closed equations, evaluated without reading the normal form back. *)
Ltac vm_eq := lazymatch goal with |- ?x = ?y => vm_cast_no_check (@eq_refl _ y) end.

Ltac simp_match :=
  repeat (case_match || case_decide); simplify_eq/=.

Ltac lookup_cases :=
  repeat match goal with
  | H : context [<[?i := _]> _ !! ?j] |- _ => rewrite lookup_insert in H
  | |- context [<[?i := _]> _ !! ?j] => rewrite lookup_insert
  | H : context [delete ?i _ !! ?j] |- _ => rewrite lookup_delete in H
  | |- context [delete ?i _ !! ?j] => rewrite lookup_delete
  end; repeat case_decide; simplify_eq/=.

(** Folds over a list of state transformers preserve what each step does. *)
Lemma foldl_invariant {S A} (P : S → Prop) (f : S → A → S) l s :
  P s → (∀ s a, a ∈ l → P s → P (f s a)) → P (foldl f s l).
Proof.
  revert s. induction l as [|a l IH]; intros s Hs Hf; [done|]. simpl.
  apply IH.
  - apply Hf; [apply list_elem_of_here|done].
  - intros s' a' Hin. apply Hf. by apply list_elem_of_further.
Qed.
