(* ===== verification/Text.v ===== *)
(** * Text

    The functions of Rust's [str] and [String] the program calls, on lists of
    Unicode scalar values: trimming, splitting and joining, lines, prefixes and
    suffixes, decimal and hexadecimal numbers, with their lemmas. *)
From S2P Require Import Prelude.

(** ** Characters *)
Definition slash : Z := 47.
Definition at_sign : Z := 64.

(** The characters with the Unicode property White_Space. *)
Definition is_whitespace (c : Z) : bool :=
  ((9 <=? c) && (c <=? 13)) || (c =? 32) || (c =? 133) || (c =? 160) || (c =? 5760)
  || ((8192 <=? c) && (c <=? 8202)) || (c =? 8232) || (c =? 8233) || (c =? 8239)
  || (c =? 8287) || (c =? 12288).

Definition is_digit (c : Z) : bool := (48 <=? c) && (c <=? 57).
Definition is_ascii_alphanumeric (c : Z) : bool :=
  is_digit c || ((65 <=? c) && (c <=? 90)) || ((97 <=? c) && (c <=? 122)).

(** ** Functions *)
Fixpoint drop_while (f : Z → bool) (s : str) : str :=
  match s with
  | c :: s' => if f c then drop_while f s' else s
  | [] => []
  end.

(** [str::trim_matches] and [str::trim]. *)
Definition trim_matches (f : Z → bool) (s : str) : str :=
  reverse (drop_while f (reverse (drop_while f s))).
Definition trim (s : str) : str := trim_matches is_whitespace s.

(** [str::split] on one character: always at least one piece. *)
Fixpoint split (sep : Z) (s : str) : list str :=
  match s with
  | [] => [[]]
  | c :: s' =>
      if c =? sep then [] :: split sep s'
      else match split sep s' with
           | p :: ps => (c :: p) :: ps
           | [] => [[c]]
           end
  end.

(** [[String]::join]. *)
Fixpoint join (sep : Z) (ps : list str) : str :=
  match ps with
  | [] => []
  | [p] => p
  | p :: ps' => p ++ sep :: join sep ps'
  end.

Fixpoint strip_prefix (p s : str) : option str :=
  match p, s with
  | [], _ => Some s
  | a :: p', b :: s' => if a =? b then strip_prefix p' s' else None
  | _, [] => None
  end.

(** [str::trim_end], [str::starts_with], [str::strip_suffix], [str::ends_with]. *)
Definition trim_end (s : str) : str := reverse (drop_while is_whitespace (reverse s)).
Definition starts_with (p s : str) : bool := bool_decide (is_Some (strip_prefix p s)).
Definition strip_suffix (p s : str) : option str := reverse <$> strip_prefix (reverse p) (reverse s).
Definition ends_with (p s : str) : bool := bool_decide (is_Some (strip_suffix p s)).

(** [str::lines]: a line ends in [\n] or [\r\n]; text after the last line
    break is a line when there is some, and keeps a carriage return. *)
Definition newline : Z := 10.
Definition carriage_return : Z := 13.
Definition chomp (s : str) : str := default s (strip_suffix [carriage_return] s).
Definition lines (s : str) : list str :=
  match reverse (split newline s) with
  | [] => []
  | l :: ls => (chomp <$> reverse ls) ++ (if bool_decide (l = []) then [] else [l])
  end.

(** [str::contains]. *)
Fixpoint contains (p s : str) : bool :=
  starts_with p s || match s with [] => false | _ :: s => contains p s end.

Definition to_ascii_lowercase (s : str) : str := (λ c, if (65 <=? c) && (c <=? 90) then c + 32 else c) <$> s.

(** Lines, each with its line break. *)
Definition unlines (ls : list str) : str := ls ≫= λ l, l ++ [newline].

Fixpoint split_once (sep : Z) (s : str) : option (str * str) :=
  match s with
  | [] => None
  | c :: s' =>
      if c =? sep then Some ([], s')
      else '(a, b) ← split_once sep s'; Some (c :: a, b)
  end.

Definition rsplit_once (sep : Z) (s : str) : option (str * str) :=
  '(b, a) ← split_once sep (reverse s); Some (reverse a, reverse b).

(** [str::parse] at an unsigned type: an optional [+], then decimal digits,
    failing on overflow. *)
Fixpoint dec_value (acc : Z) (s : str) : option Z :=
  match s with
  | [] => Some acc
  | c :: s' => if is_digit c then dec_value (10 * acc + (c - 48)) s' else None
  end.
Definition strip_plus (s : str) : str :=
  match s with c :: _ :: _ => if c =? 43 then tail s else s | _ => s end.
Definition parse_unsigned (bound : Z) (s : str) : option Z :=
  match strip_plus s with
  | [] => None
  | digits => v ← dec_value 0 digits; if v <? bound then Some v else None
  end.

(** Decimal [Display]. A [u128] has at most 39 digits, so 40 rounds suffice. *)
Fixpoint dec_digits (fuel : nat) (n : Z) (acc : str) : str :=
  match fuel with
  | O => acc
  | S fuel' =>
      let acc' := 48 + n mod 10 :: acc in
      if n <? 10 then acc' else dec_digits fuel' (n / 10) acc'
  end.
Definition display_u128 (n : Z) : str := dec_digits 40 n [].

(** Hexadecimal text, most significant digit first. *)
Definition is_hex (c : Z) : bool :=
  is_digit c || ((97 <=? c) && (c <=? 102)) || ((65 <=? c) && (c <=? 70)).
Definition hex_digit (c : Z) : Z :=
  if is_digit c then c - 48 else if 97 <=? c then c - 87 else c - 55.
Definition hex_value (s : str) : Z := foldl (λ acc c, 16 * acc + hex_digit c) 0 s.
Definition hex_char (d : Z) : Z := if d <? 10 then 48 + d else 87 + d.
Fixpoint hex_digits (k : nat) (n : Z) : str :=
  match k with O => [] | S k' => hex_digits k' (n / 16) ++ [hex_char (n mod 16)] end.

(** ** Lemmas on text *)
Lemma utf8_width_pos c : 1 <= utf8_width c.
Proof. unfold utf8_width. simp_match; lia. Qed.

Lemma utf8_len_app s t : utf8_len (s ++ t) = utf8_len s + utf8_len t.
Proof.
  induction s as [|c s IH]; [done|]. unfold utf8_len in *. simpl in *. lia.
Qed.

Lemma utf8_len_cons c s : utf8_len (c :: s) = utf8_width c + utf8_len s.
Proof. done. Qed.

Lemma utf8_len_nonneg s : 0 <= utf8_len s.
Proof.
  induction s as [|c s IH]; [done|]. rewrite utf8_len_cons.
  pose proof (utf8_width_pos c). lia.
Qed.

Lemma utf8_len_reverse s : utf8_len (reverse s) = utf8_len s.
Proof.
  induction s as [|c s IH]; [done|].
  rewrite reverse_cons, utf8_len_app, IH, !utf8_len_cons. unfold utf8_len at 2. simpl. lia.
Qed.

Lemma drop_while_le f s : utf8_len (drop_while f s) <= utf8_len s.
Proof.
  induction s as [|c s IH]; simpl; [done|]. case_match; [|done].
  rewrite utf8_len_cons. pose proof (utf8_width_pos c). lia.
Qed.

Lemma trim_le f s : utf8_len (trim_matches f s) <= utf8_len s.
Proof.
  unfold trim_matches. rewrite utf8_len_reverse.
  pose proof (drop_while_le f (reverse (drop_while f s))) as H1.
  rewrite utf8_len_reverse in H1. pose proof (drop_while_le f s). lia.
Qed.

Lemma drop_while_head f c s : f c = false → drop_while f (c :: s) = c :: s.
Proof. simpl. by intros ->. Qed.

(** Trimming leaves a text alone when neither end matches. *)
Lemma trim_matches_id f s c d :
  head s = Some c → last s = Some d → f c = false → f d = false → trim_matches f s = s.
Proof.
  intros Hh Hl Hc Hd. unfold trim_matches.
  destruct s as [|c' s]; simplify_eq/=. rewrite Hc.
  rewrite last_cons in Hl.
  destruct s as [|e s _] using rev_ind; simplify_eq/=.
  - by rewrite Hc.
  - rewrite last_snoc in Hl. simplify_eq.
    rewrite app_comm_cons, reverse_snoc. simpl. rewrite Hd.
    by rewrite reverse_cons, reverse_involutive.
Qed.

Lemma trim_matches_none f s : (∀ c, c ∈ s → f c = false) → trim_matches f s = s.
Proof.
  intros Hf. destruct s as [|c s]; [done|].
  destruct (last (c :: s)) as [d|] eqn:Hl; [|by apply last_None in Hl].
  eapply trim_matches_id; [done|done| |]; apply Hf.
  - apply list_elem_of_here.
  - apply last_Some in Hl as [l ->]. set_solver.
Qed.

Lemma split_not_nil sep s : split sep s ≠ [].
Proof. destruct s as [|c s]; simpl; [done|]. repeat case_match; done. Qed.

Lemma join_cons sep p ps : ps ≠ [] → join sep (p :: ps) = p ++ sep :: join sep ps.
Proof. by destruct ps. Qed.

Lemma join_split sep s : join sep (split sep s) = s.
Proof.
  induction s as [|c s IH]; [done|]. cbn [split].
  destruct (Z.eqb_spec c sep) as [->|Hne].
  - rewrite join_cons by apply split_not_nil. by rewrite IH.
  - destruct (split sep s) as [|p ps] eqn:E; [by apply split_not_nil in E|].
    rewrite <- IH. by destruct ps.
Qed.

Lemma split_no_sep sep p : sep ∉ p → split sep p = [p].
Proof.
  induction p as [|c p IH]; [done|]. intros Hp. simpl.
  destruct (Z.eqb_spec c sep) as [->|]; [set_solver|]. rewrite IH; [done|set_solver].
Qed.

Lemma split_app sep p s : sep ∉ p → split sep (p ++ sep :: s) = p :: split sep s.
Proof.
  induction p as [|c p IH]; intros Hp; simpl.
  - by rewrite Z.eqb_refl.
  - destruct (Z.eqb_spec c sep) as [->|]; [set_solver|]. rewrite IH; [done|set_solver].
Qed.

Lemma split_join sep ps : ps ≠ [] → Forall (λ p, sep ∉ p) ps → split sep (join sep ps) = ps.
Proof.
  intros Hne Hps. induction Hps as [|p ps Hp Hps IH]; [done|].
  destruct ps as [|q ps]; [by apply split_no_sep|].
  rewrite join_cons by done. rewrite split_app by done. by rewrite IH.
Qed.

Lemma join_trim_le sep ps : utf8_len (join sep (trim <$> ps)) <= utf8_len (join sep ps).
Proof.
  induction ps as [|p ps IH]; [done|].
  pose proof (trim_le is_whitespace p). destruct ps as [|q ps]; [done|].
  rewrite fmap_cons, !join_cons by done. rewrite !utf8_len_app, !utf8_len_cons.
  unfold trim in *. lia.
Qed.

Lemma strip_prefix_app p s : strip_prefix p (p ++ s) = Some s.
Proof. induction p as [|c p IH]; [done|]. simpl. by rewrite Z.eqb_refl. Qed.

Lemma drop_while_none f s : (∀ c, head s = Some c → f c = false) → drop_while f s = s.
Proof. destruct s as [|c s]; [done|]. intros Hc. simpl. by rewrite (Hc c). Qed.

Lemma trim_end_id s d : last s = Some d → is_whitespace d = false → trim_end s = s.
Proof.
  intros Hl Hd. unfold trim_end. rewrite drop_while_none; [apply reverse_involutive|].
  intros c Hc. rewrite head_reverse in Hc. congruence.
Qed.

Lemma trim_end_snoc s c : is_whitespace c = true → trim_end (s ++ [c]) = trim_end s.
Proof. intros Hc. unfold trim_end. rewrite reverse_snoc. simpl. by rewrite Hc. Qed.

Lemma trim_trim_end s : trim s = trim_end (drop_while is_whitespace s).
Proof. done. Qed.

Lemma strip_prefix_spec p s t : strip_prefix p s = Some t ↔ s = p ++ t.
Proof.
  split; [|intros ->; apply strip_prefix_app].
  revert s. induction p as [|a p IH]; intros s; [by intros [= ->]|].
  destruct s as [|b s]; simpl; [done|]. destruct (Z.eqb_spec a b); [|done]. subst. intros Hs. by rewrite (IH s).
Qed.

(** The form a name of the text has: not blank at either end. *)
Definition trimmed (s : str) : Prop :=
  match head s, last s with Some c, Some d => is_whitespace c = false ∧ is_whitespace d = false | _, _ => False end.
#[export] Instance trimmed_dec s : Decision (trimmed s).
Proof. unfold trimmed. destruct (head s), (last s); apply _. Defined.

Lemma trimmed_id s : trimmed s → trim s = s ∧ trim_end s = s ∧ s ≠ [].
Proof.
  unfold trimmed. destruct (head s) as [c|] eqn:Hc, (last s) as [d|] eqn:Hd; try done. intros [Hwc Hwd]. split_and!.
  - by eapply trim_matches_id.
  - by eapply trim_end_id.
  - by destruct s.
Qed.

Lemma trimmed_app a s c :
  head a = Some c → is_whitespace c = false → trimmed s → trimmed (a ++ s).
Proof.
  unfold trimmed. destruct a as [|c' a]; [done|]. intros [= ->] Hc. rewrite last_app.
  destruct (head s), (last s); try done. simpl. naive_solver.
Qed.

(** ** Lines *)
Lemma unlines_cons l ls : unlines (l :: ls) = l ++ newline :: unlines ls.
Proof. unfold unlines. simpl. by rewrite <- app_assoc. Qed.

Lemma unlines_app ls ls' : unlines (ls ++ ls') = unlines ls ++ unlines ls'.
Proof. unfold unlines. by rewrite bind_app. Qed.

Lemma unlines_join ls l : join newline (ls ++ [l]) = unlines ls ++ l.
Proof.
  induction ls as [|m ls IH]; [done|]. rewrite unlines_cons, <- app_comm_cons, join_cons.
  - rewrite IH. by rewrite <- app_assoc.
  - by destruct ls.
Qed.

(** A line that reading by lines gives back. *)
Definition line_ok (l : str) : Prop := newline ∉ l ∧ last l ≠ Some carriage_return.
#[export] Instance line_ok_dec l : Decision (line_ok l).
Proof. unfold line_ok. apply _. Defined.

Lemma chomp_id l : last l ≠ Some carriage_return → chomp l = l.
Proof.
  intros Hl. unfold chomp, strip_suffix. change (reverse [carriage_return]) with [carriage_return].
  destruct (reverse l) as [|c r] eqn:E; [done|]. cbn [strip_prefix].
  assert (Hc : head (reverse l) = Some c) by by rewrite E. rewrite head_reverse in Hc.
  destruct (Z.eqb_spec carriage_return c); [|done]. by subst.
Qed.

Lemma split_unlines ls : Forall (λ l, newline ∉ l) ls → split newline (unlines ls) = ls ++ [[]].
Proof.
  induction 1 as [|l ls Hl Hls IH]; [done|]. rewrite unlines_cons, split_app by done. by rewrite IH.
Qed.

Lemma fmap_chomp_id ls : Forall line_ok ls → chomp <$> ls = ls.
Proof. induction 1 as [|l ls [_ Hl] _ IH]; [done|]. by rewrite fmap_cons, chomp_id, IH. Qed.

Lemma lines_unlines ls : Forall line_ok ls → lines (unlines ls) = ls.
Proof.
  intros Hls. unfold lines. rewrite split_unlines by (eapply Forall_impl; [done|]; by intros ? [? _]).
  rewrite reverse_snoc. rewrite reverse_involutive, bool_decide_true by done.
  by rewrite app_nil_r, fmap_chomp_id.
Qed.

Lemma lines_join ls l : Forall line_ok ls → newline ∉ l → l ≠ [] → lines (join newline (ls ++ [l])) = ls ++ [l].
Proof.
  intros Hls Hl Hne. unfold lines. rewrite split_join; [|by destruct ls|].
  - rewrite reverse_snoc, reverse_involutive, bool_decide_false by done. by rewrite fmap_chomp_id.
  - apply Forall_app. split; [|by constructor]. eapply Forall_impl; [done|]. by intros ? [? _].
Qed.

Lemma split_once_none sep s : sep ∉ s → split_once sep s = None.
Proof.
  induction s as [|c s IH]; [done|]. intros Hs. simpl.
  destruct (Z.eqb_spec c sep) as [->|]; [set_solver|]. rewrite IH; [done|set_solver].
Qed.

Lemma split_once_app sep a b : sep ∉ a → split_once sep (a ++ sep :: b) = Some (a, b).
Proof.
  induction a as [|c a IH]; intros Ha; simpl.
  - by rewrite Z.eqb_refl.
  - destruct (Z.eqb_spec c sep) as [->|]; [set_solver|]. rewrite IH; [done|set_solver].
Qed.

Lemma rsplit_once_none sep s : sep ∉ s → rsplit_once sep s = None.
Proof. intros Hs. unfold rsplit_once. rewrite split_once_none; [done|]. by rewrite elem_of_reverse. Qed.

Lemma rsplit_once_app sep a b : sep ∉ b → rsplit_once sep (a ++ sep :: b) = Some (a, b).
Proof.
  intros Hb. unfold rsplit_once.
  rewrite reverse_app, reverse_cons, <- app_assoc. simpl.
  rewrite split_once_app by by rewrite elem_of_reverse. simpl.
  by rewrite !reverse_involutive.
Qed.

(** ** Decimal numbers *)
Lemma dec_value_digits fuel n acc k :
  0 <= n → n < 10 ^ Z.of_nat fuel →
  dec_value k (dec_digits fuel n acc) = dec_value (k * 10 ^ Z.of_nat (length (dec_digits fuel n acc) - length acc) + n) acc.
Proof.
  revert n acc k. induction fuel as [|fuel IH]; intros n acc k Hn Hf.
  { simpl in *. assert (n = 0) as -> by lia. rewrite Nat.sub_diag. f_equal. lia. }
  cbn [dec_digits]. set (acc' := 48 + n mod 10 :: acc).
  assert (Hm : 0 <= n mod 10 < 10) by (apply Z.mod_pos_bound; lia).
  assert (Hd : is_digit (48 + n mod 10) = true) by (unfold is_digit; lia).
  assert (Hstep : ∀ j, dec_value j acc' = dec_value (10 * j + n mod 10) acc).
  { intros j. unfold acc'. cbn [dec_value]. rewrite Hd. f_equal. lia. }
  destruct (Z.ltb_spec n 10) as [Hlt|Hge].
  - rewrite Hstep. f_equal. unfold acc'. cbn [length].
    rewrite Nat.sub_succ_l, Nat.sub_diag by lia. rewrite Z.mod_small; lia.
  - rewrite IH; [|apply Z.div_pos; lia|].
    2:{ apply Z.div_lt_upper_bound; [lia|]. rewrite Nat2Z.inj_succ, Z.pow_succ_r in Hf; lia. }
    rewrite Hstep. f_equal.
    assert (Hlen : ∀ f m a, (length a <= length (dec_digits f m a))%nat).
    { clear. induction f as [|f IH]; intros m a; simpl; [lia|]. case_match; simpl; [lia|].
      etrans; [|apply IH]. simpl. lia. }
    pose proof (Hlen fuel (n / 10) acc') as Hl. unfold acc' in Hl |- *. cbn [length] in *.
    set (l := length (dec_digits fuel _ _)) in *.
    replace (l - length acc)%nat with (S (l - S (length acc)))%nat by lia.
    rewrite Nat2Z.inj_succ, Z.pow_succ_r by lia.
    pose proof (Z.div_mod n 10). lia.
Qed.

Lemma dec_digits_all fuel n acc :
  0 <= n → Forall (λ c, is_digit c = true) acc → Forall (λ c, is_digit c = true) (dec_digits fuel n acc).
Proof.
  revert n acc. induction fuel as [|fuel IH]; intros n acc Hn Hacc; [done|]. cbn [dec_digits].
  assert (0 <= n mod 10 < 10) by (apply Z.mod_pos_bound; lia).
  assert (is_digit (48 + n mod 10) = true) by (unfold is_digit; lia).
  case_match; [by constructor|]. apply IH; [apply Z.div_pos; lia|by constructor].
Qed.

Lemma display_u128_digits n : 0 <= n → Forall (λ c, is_digit c = true) (display_u128 n).
Proof. intros Hn. by apply dec_digits_all. Qed.

Lemma dec_digits_not_nil fuel n acc : acc ≠ [] ∨ fuel ≠ O → dec_digits fuel n acc ≠ [].
Proof.
  revert n acc. induction fuel as [|fuel IH]; intros n acc Hne; [by destruct Hne|].
  cbn [dec_digits]. case_match; [done|]. apply IH. by left.
Qed.

Lemma dec_value_display n : is_u128 n → dec_value 0 (display_u128 n) = Some n.
Proof.
  intros [Hn Hb]. unfold display_u128. rewrite dec_value_digits; [done|done|]. unfold two128 in Hb.
  eapply Z.lt_trans; [done|]. reflexivity.
Qed.

(** Digits read as hexadecimal are worth more than read as decimal, unless there
    is one of them only. *)
Lemma hex_value_digits s a b v :
  dec_value a s = Some v → 0 <= a <= b →
  v <= foldl (λ acc c, 16 * acc + hex_digit c) b s ∧
  (foldl (λ acc c, 16 * acc + hex_digit c) b s = v → s = [] ∨ (a = 0 ∧ b = 0 ∧ v <= 9)).
Proof.
  revert a b. induction s as [|c s IH]; intros a b Hv Hab; cbn [dec_value foldl] in *.
  { injection Hv as ->. split; [lia|]. by left. }
  destruct (is_digit c) eqn:Hc; [|done].
  assert (Hd : hex_digit c = c - 48 ∧ 0 <= c - 48 <= 9) by (unfold hex_digit; rewrite Hc; unfold is_digit in Hc; lia).
  destruct Hd as [Hd Hr]. rewrite Hd.
  destruct (IH (10 * a + (c - 48)) (16 * b + (c - 48)) Hv) as [Hle Heq]; [lia|]. split; [done|].
  intros E. right. destruct (Heq E) as [->|?]; [|lia]. cbn [dec_value foldl] in *. injection Hv as <-. lia.
Qed.

Lemma hex_value_display n : is_u128 n → 10 <= n → hex_value (display_u128 n) ≠ n.
Proof.
  intros Hn H10 E. destruct (hex_value_digits _ 0 0 n (dec_value_display n Hn)) as [_ Hx]; [lia|].
  destruct (Hx E) as [Hnil|]; [|lia]. pose proof (dec_value_display n Hn) as Hv. rewrite Hnil in Hv.
  injection Hv. lia.
Qed.

(** Printing in decimal and parsing back is the identity on [u128]. *)
Lemma parse_display_u128 n : is_u128 n → parse_unsigned two128 (display_u128 n) = Some n.
Proof.
  intros [Hn Hb]. unfold parse_unsigned.
  pose proof (display_u128_digits n Hn) as Hd.
  pose proof (dec_value_display n (conj Hn Hb)) as Hv.
  assert (Hne : display_u128 n ≠ []) by (apply dec_digits_not_nil; by right).
  assert (Hs : strip_plus (display_u128 n) = display_u128 n).
  { destruct Hd as [|c s Hc _]; [done|]. destruct s as [|c' s]; [done|]. cbn [strip_plus].
    replace (c =? 43) with false; [done|]. unfold is_digit in Hc. lia. }
  rewrite Hs. destruct (display_u128 n) as [|c s]; [done|]. rewrite Hv. simpl.
  by replace (n <? two128) with true by lia.
Qed.
Lemma parse_display_u64 n : 0 <= n < two64 → parse_unsigned two64 (display_u128 n) = Some n.
Proof.
  intros Hn. assert (Hp : parse_unsigned two128 (display_u128 n) = Some n) by (apply parse_display_u128; split; [lia|unfold two64, two128 in *; lia]).
  unfold parse_unsigned in *. destruct (strip_plus _) as [|c l]; [done|]. destruct (dec_value 0 (c :: l)) as [v|]; [|done]. cbn in *.
  destruct (v <? two128); [|done]. injection Hp as ->. by replace (n <? two64) with true by lia.
Qed.

(** ** Hexadecimal numbers *)
Lemma hex_char_ok d : 0 <= d < 16 → is_hex (hex_char d) = true ∧ hex_digit (hex_char d) = d.
Proof.
  intros Hd. unfold hex_char, hex_digit, is_hex, is_digit.
  destruct (Z.ltb_spec d 10); split; repeat case_match; lia.
Qed.

Lemma hex_digits_ok k n :
  0 <= n → length (hex_digits k n) = k ∧ forallb is_hex (hex_digits k n) = true ∧
  hex_value (hex_digits k n) = n mod 16 ^ Z.of_nat k.
Proof.
  revert n. induction k as [|k IH]; intros n Hn; [by rewrite Z.mod_1_r|].
  destruct (IH (n / 16)) as (Hl & Hh & Hv); [by apply Z.div_pos|].
  pose proof (Z.mod_pos_bound n 16) as Hm. destruct (hex_char_ok (n mod 16)) as [Hc Hd]; [lia|].
  cbn [hex_digits]. split_and!.
  - rewrite length_app, Hl. simpl. lia.
  - rewrite forallb_app, Hh. simpl. by rewrite Hc.
  - unfold hex_value in *. rewrite foldl_app, Hv. simpl. rewrite Hd.
    rewrite Nat2Z.inj_succ, Z.pow_succ_r by lia. rewrite Z.rem_mul_r by lia. lia.
Qed.

(** ** Texts within texts *)
Lemma starts_with_spec p s : starts_with p s = true ↔ ∃ t, s = p ++ t.
Proof.
  unfold starts_with. rewrite bool_decide_eq_true. split; [intros [t Ht]|intros [t ->]]; exists t; by apply strip_prefix_spec.
Qed.
Lemma contains_spec p s : contains p s = true ↔ ∃ a b, s = a ++ p ++ b.
Proof.
  induction s as [|c s IH]; cbn [contains]; rewrite orb_true_iff, starts_with_spec.
  - split; [intros [[t ->]|?]; [by exists [], t|done]|]. intros (a & b & Hab). left. symmetry in Hab.
    apply app_nil in Hab as [-> Hab]. by exists b.
  - rewrite IH. split.
    + intros [[t ->]|(a & b & ->)]; [by exists [], t|by exists (c :: a), b].
    + intros ([|d a] & b & Hab); [left; by exists b|]. right. injection Hab as -> ->. by exists a, b.
Qed.
Lemma contains_app p a b c : contains p b = true → contains p (a ++ b ++ c) = true.
Proof. rewrite !contains_spec. intros (x & y & ->). exists (a ++ x), (y ++ c). by rewrite <- !app_assoc. Qed.

Definition is_ascii (c : Z) : bool := c <? 128.
(** [str::to_lowercase], by its documentation: the mapping of every character,
    which depends on the letters around it only for a Greek final sigma; so a
    part in ASCII is lowered in place. *)
Class Lowercase : Type := {
  to_lowercase : str → str;
  lowercase_part a b c : forallb is_ascii b = true →
    ∃ a' c', to_lowercase (a ++ b ++ c) = a' ++ to_ascii_lowercase b ++ c';
  lowercase_ascii s : forallb is_ascii s = true → to_lowercase s = to_ascii_lowercase s }.
#[export] Program Instance ascii_lowercase : Lowercase := {| to_lowercase := to_ascii_lowercase |}.
Next Obligation. intros a b c _. exists (to_ascii_lowercase a), (to_ascii_lowercase c). unfold to_ascii_lowercase. by rewrite !fmap_app. Qed.
Next Obligation. done. Qed.

Lemma lowercase_contains `{Lowercase} p s :
  forallb is_ascii p = true → contains p s = true → contains (to_ascii_lowercase p) (to_lowercase s) = true.
Proof. intros Hp (a & b & ->)%contains_spec. destruct (lowercase_part a p b Hp) as (a' & c' & ->). apply contains_spec. eauto. Qed.
