(* ===== verification/Bytes.v ===== *)
(** * Bytes

    A byte is a [Z] below 256 and a buffer is a list of bytes: integers in both
    byte orders, and texts as UTF-8. *)
From S2P Require Import Prelude Text.

Definition is_byte (b : Z) : Prop := 0 <= b < 256.

(** ** Integers *)

(** [from_le_bytes] and [to_le_bytes], of any width. *)
Definition from_le_bytes (bs : list Z) : Z := foldr (λ b n, b + 256 * n) 0 bs.
Fixpoint to_le_bytes (k : nat) (n : Z) : list Z :=
  match k with O => [] | S k => n mod 256 :: to_le_bytes k (n / 256) end.
Definition from_be_bytes (bs : list Z) : Z := from_le_bytes (reverse bs).
Definition to_be_bytes (k : nat) (n : Z) : list Z := reverse (to_le_bytes k n).

Lemma to_le_bytes_length k n : length (to_le_bytes k n) = k.
Proof. revert n. induction k as [|k IH]; intros n; simpl; auto. Qed.
Lemma to_be_bytes_length k n : length (to_be_bytes k n) = k.
Proof. unfold to_be_bytes. by rewrite length_reverse, to_le_bytes_length. Qed.

Lemma from_to_le k n : from_le_bytes (to_le_bytes k n) = n mod 256 ^ Z.of_nat k.
Proof.
  revert n. induction k as [|k IH]; intros n; [by rewrite Z.mod_1_r|].
  change (from_le_bytes (to_le_bytes (S k) n)) with (n mod 256 + 256 * from_le_bytes (to_le_bytes k (n / 256))).
  rewrite IH, Nat2Z.inj_succ, Z.pow_succ_r, Z.rem_mul_r by lia. done.
Qed.
Lemma from_to_be k n : from_be_bytes (to_be_bytes k n) = n mod 256 ^ Z.of_nat k.
Proof. unfold from_be_bytes, to_be_bytes. by rewrite reverse_involutive, from_to_le. Qed.

Lemma to_le_is_byte k n : Forall is_byte (to_le_bytes k n).
Proof. revert n. induction k as [|k IH]; intros n; constructor; [by apply Z.mod_pos_bound|apply IH]. Qed.
Lemma to_be_is_byte k n : Forall is_byte (to_be_bytes k n).
Proof. apply Forall_reverse, to_le_is_byte. Qed.

Lemma to_from_le bs : Forall is_byte bs → to_le_bytes (length bs) (from_le_bytes bs) = bs.
Proof.
  induction 1 as [|b bs Hb _ IH]; [done|]. simpl. change (foldr _ 0 bs) with (from_le_bytes bs).
  unfold is_byte in Hb. rewrite (Z.mul_comm 256), Z.mod_add, Z.mod_small, Z.div_add, Z.div_small by lia.
  by rewrite Z.add_0_l, IH.
Qed.
Lemma from_le_range bs : Forall is_byte bs → 0 <= from_le_bytes bs < 256 ^ Z.of_nat (length bs).
Proof.
  induction 1 as [|b bs Hb _ IH]; [done|]. simpl length. rewrite Nat2Z.inj_succ, Z.pow_succ_r by lia.
  change (from_le_bytes (b :: bs)) with (b + 256 * from_le_bytes bs). unfold is_byte in Hb. lia.
Qed.
Lemma from_be_range bs : Forall is_byte bs → 0 <= from_be_bytes bs < 256 ^ Z.of_nat (length bs).
Proof. intros Hb. rewrite <- length_reverse. by apply from_le_range, Forall_reverse. Qed.

(** ** UTF-8 *)
Definition utf8_char (c : Z) : list Z :=
  if c <? 128 then [c]
  else if c <? 2048 then [192 + c / 64; 128 + c mod 64]
  else if c <? 65536 then [224 + c / 4096; 128 + (c / 64) mod 64; 128 + c mod 64]
  else [240 + c / 262144; 128 + (c / 4096) mod 64; 128 + (c / 64) mod 64; 128 + c mod 64].
(** [str::as_bytes]. *)
Definition as_bytes (s : str) : list Z := s ≫= utf8_char.

(** A Unicode scalar value: a code point that is no surrogate. *)
Definition scalarb (c : Z) : bool := (0 <=? c) && (c <? 1114112) && negb ((55296 <=? c) && (c <? 57344)).
Definition is_scalar (c : Z) : Prop := scalarb c = true.
Definition continuation (b : Z) : bool := (128 <=? b) && (b <? 192).

(** [String::from_utf8]: the shortest form of scalar values only. *)
Fixpoint from_utf8 (bs : list Z) : option str :=
  match bs with
  | [] => Some []
  | b0 :: r0 =>
      if b0 <? 128 then cons b0 <$> from_utf8 r0
      else match r0 with
      | [] => None
      | b1 :: r1 =>
          let c := (b0 - 192) * 64 + (b1 - 128) in
          if (192 <=? b0) && (b0 <? 224) then
            if continuation b1 && (128 <=? c) then cons c <$> from_utf8 r1 else None
          else match r1 with
          | [] => None
          | b2 :: r2 =>
              let c := (b0 - 224) * 4096 + (b1 - 128) * 64 + (b2 - 128) in
              if (224 <=? b0) && (b0 <? 240) then
                if continuation b1 && continuation b2 && (2048 <=? c) && scalarb c then cons c <$> from_utf8 r2 else None
              else match r2 with
              | [] => None
              | b3 :: r3 =>
                  let c := (b0 - 240) * 262144 + (b1 - 128) * 4096 + (b2 - 128) * 64 + (b3 - 128) in
                  if (240 <=? b0) && (b0 <? 248) && continuation b1 && continuation b2 && continuation b3 && (65536 <=? c) && scalarb c
                  then cons c <$> from_utf8 r3 else None
              end
          end
      end
  end.

Lemma scalarb_range c : scalarb c = true ↔ (0 <= c < 55296 ∨ 57344 <= c < 1114112).
Proof. unfold scalarb. rewrite !andb_true_iff, negb_true_iff, andb_false_iff, !Z.leb_le, !Z.ltb_lt, Z.leb_gt, Z.ltb_ge. lia. Qed.

Ltac bool_cond :=
  repeat match goal with
  | |- context [?a <? ?b] => first [rewrite (proj2 (Z.ltb_lt a b)) by lia | rewrite (proj2 (Z.ltb_ge a b)) by lia]
  | |- context [?a <=? ?b] => first [rewrite (proj2 (Z.leb_le a b)) by lia | rewrite (proj2 (Z.leb_gt a b)) by lia]
  end.

Lemma from_utf8_char c bs : is_scalar c → from_utf8 (utf8_char c ++ bs) = cons c <$> from_utf8 bs.
Proof.
  intros Hc. pose proof (proj1 (scalarb_range c) Hc) as Hr. unfold utf8_char.
  destruct (c <? 128) eqn:E1; [apply Z.ltb_lt in E1|apply Z.ltb_ge in E1].
  { simpl. by rewrite (proj2 (Z.ltb_lt c 128)). }
  destruct (c <? 2048) eqn:E2; [apply Z.ltb_lt in E2|apply Z.ltb_ge in E2].
  { pose proof (Z.mod_pos_bound c 64 eq_refl). pose proof (Z.div_mod c 64 ltac:(done)).
    pose proof (Z.div_le_lower_bound c 64 2 eq_refl ltac:(lia)). pose proof (Z.div_lt_upper_bound c 64 32 eq_refl ltac:(lia)).
    cbn [app from_utf8]. unfold continuation. cbv zeta.
    assert (Heq : (192 + c / 64 - 192) * 64 + (128 + c mod 64 - 128) = c) by lia. rewrite Heq. bool_cond. done. }
  pose proof (Z.mod_pos_bound c 64 eq_refl). pose proof (Z.div_mod c 64 ltac:(done)).
  pose proof (Z.mod_pos_bound (c / 64) 64 eq_refl). pose proof (Z.div_mod (c / 64) 64 ltac:(done)).
  assert (Hd : c / 64 / 64 = c / 4096) by by rewrite Z.div_div. rewrite Hd in *.
  destruct (c <? 65536) eqn:E3; [apply Z.ltb_lt in E3|apply Z.ltb_ge in E3].
  { pose proof (Z.div_lt_upper_bound c 4096 16 eq_refl ltac:(lia)). pose proof (Z.div_pos c 4096 ltac:(lia) eq_refl).
    cbn [app from_utf8]. unfold continuation. cbv zeta.
    set (d := (c / 64) mod 64) in *. set (e := c mod 64) in *. set (f := c / 4096) in *.
    assert (Heq : (224 + f - 224) * 4096 + (128 + d - 128) * 64 + (128 + e - 128) = c) by lia.
    rewrite Heq, Hc. bool_cond. done. }
  pose proof (Z.mod_pos_bound (c / 4096) 64 eq_refl). pose proof (Z.div_mod (c / 4096) 64 ltac:(done)).
  assert (Hd' : c / 4096 / 64 = c / 262144) by by rewrite Z.div_div. rewrite Hd' in *.
  pose proof (Z.div_lt_upper_bound c 262144 5 eq_refl ltac:(lia)). pose proof (Z.div_pos c 262144 ltac:(lia) eq_refl).
  cbn [app from_utf8]. unfold continuation. cbv zeta.
  set (d := (c / 64) mod 64) in *. set (e := c mod 64) in *. set (f := (c / 4096) mod 64) in *. set (g := c / 262144) in *.
  assert (Heq : (240 + g - 240) * 262144 + (128 + f - 128) * 4096 + (128 + d - 128) * 64 + (128 + e - 128) = c) by lia.
  rewrite Heq, Hc. bool_cond. done.
Qed.

Lemma from_utf8_as_bytes s : Forall is_scalar s → from_utf8 (as_bytes s) = Some s.
Proof.
  induction 1 as [|c s Hc _ IH]; [done|]. change (as_bytes (c :: s)) with (utf8_char c ++ as_bytes s).
  by rewrite from_utf8_char, IH.
Qed.

(** ** Slices *)
Notation bytes := (list Z) (only parsing).
Definition size_of {A} (l : list A) : Z := Z.of_nat (length l).
(** [&buf[a..b]]; [None] is the panic of a range that is not in the buffer. *)
Definition slice (a b : Z) (l : bytes) : option bytes :=
  if (0 <=? a) && (a <=? b) && (b <=? size_of l) then Some (take (Z.to_nat (b - a)) (drop (Z.to_nat a) l)) else None.

Lemma size_of_app {A} (k l : list A) : size_of (k ++ l) = size_of k + size_of l.
Proof. unfold size_of. rewrite length_app. lia. Qed.
Lemma size_of_nonneg {A} (l : list A) : 0 <= size_of l.
Proof. unfold size_of. lia. Qed.

Lemma slice_mid x y z a b : a = size_of x → b = a + size_of y → slice a b (x ++ y ++ z) = Some y.
Proof.
  intros -> ->. unfold slice. rewrite !size_of_app. pose proof (size_of_nonneg x). pose proof (size_of_nonneg y). pose proof (size_of_nonneg z).
  bool_cond. simpl. unfold size_of in *. f_equal. replace (Z.to_nat (Z.of_nat (length x))) with (length x) by lia.
  rewrite drop_app_length. by replace (Z.to_nat _) with (length y) by lia; rewrite take_app_length.
Qed.

Lemma slice_head y z b : b = size_of y → slice 0 b (y ++ z) = Some y.
Proof. intros ->. by apply (slice_mid []). Qed.

Lemma slice_Some a b l y : slice a b l = Some y → ∃ x z, l = x ++ y ++ z ∧ size_of x = a ∧ size_of y = b - a.
Proof.
  unfold slice. destruct (_ && _) eqn:E; [|done]. intros [= <-].
  apply andb_true_iff in E as [E E3%Z.leb_le]. apply andb_true_iff in E as [E1%Z.leb_le E2%Z.leb_le].
  exists (take (Z.to_nat a) l), (drop (Z.to_nat (b - a)) (drop (Z.to_nat a) l)).
  rewrite !take_drop. unfold size_of in *. rewrite !length_take, length_drop. split_and!; [done|lia..].
Qed.

Lemma slice_in_range a b l : 0 <= a <= b → b <= size_of l → is_Some (slice a b l).
Proof. intros Hab Hb. unfold slice. bool_cond. simpl. eauto. Qed.

(** Checked arithmetic on [usize]. *)
Definition checked (n : Z) : option Z := if n <? two64 then Some n else None.
Lemma checked_Some n m : checked n = Some m ↔ m = n ∧ n < two64.
Proof. unfold checked. destruct (n <? two64) eqn:E; [apply Z.ltb_lt in E|apply Z.ltb_ge in E]; split; try done; [by intros [= ->]|by intros [-> _]|lia]. Qed.
