(* ===== verification/Float.v ===== *)
(** * Floating-point numbers

    [f64] and [f32] as the standard library's specification floats, with the
    operations the code uses: arithmetic rounded to the nearest even, [powi],
    conversions, comparison, sorting and printing, and durations in seconds. *)
From S2P Require Import Prelude Text.
From Stdlib Require Export Floats.SpecFloat Sorting.Sorted.

Notation float := spec_float (only parsing).

Section Format.
Context (prec emax : Z).
Definition f_of_Z (z : Z) : float := binary_normalize prec emax z 0 false.
Definition f_add : float → float → float := SFadd prec emax.
Definition f_mul : float → float → float := SFmul prec emax.
Definition f_div : float → float → float := SFdiv prec emax.
Definition f_sub : float → float → float := SFsub prec emax.
Definition f_sqrt : float → float := SFsqrt prec emax.

(** [powi]: squaring and multiplying, as the compiler's runtime does. *)
Fixpoint pow_pos (a r : float) (n : positive) : float :=
  match n with
  | xH => f_mul r a
  | xO n => pow_pos (f_mul a a) r n
  | xI n => pow_pos (f_mul a a) (f_mul r a) n
  end.
Definition f_one : float := f_of_Z 1.
Definition powi (a : float) (n : Z) : float :=
  match n with Z0 => f_one | Zpos n => pow_pos a f_one n | Zneg n => f_div f_one (pow_pos a f_one n) end.
End Format.

(** The integer part of a finite float, towards zero. *)
Definition magnitude (m : positive) (e : Z) : Z := if 0 <=? e then Zpos m * 2 ^ e else Zpos m / 2 ^ (- e).
(** [x as u64]: saturating, and [0] for no number. *)
Definition f_to_u64 (x : float) : Z :=
  match x with
  | S754_finite false m e => Z.min (magnitude m e) (two64 - 1)
  | S754_infinity false => two64 - 1
  | _ => 0
  end.

(** [x as i32] of a [u32]. *)
Definition as_i32 (n : Z) : Z := if n <? 2 ^ 31 then n else n - two32.
(** [f64::min] and [max]: of a number and no number, the number. *)
Definition f_min (x y : float) : float :=
  match x, y with S754_nan, _ => y | _, S754_nan => x | _, _ => if SFltb y x then y else x end.
Definition f_max (x y : float) : float :=
  match x, y with S754_nan, _ => y | _, S754_nan => x | _, _ => if SFltb x y then y else x end.

Definition f64_of_Z := f_of_Z 53 1024.
Definition f64_add := f_add 53 1024.
Definition f64_mul := f_mul 53 1024.
Definition f64_div := f_div 53 1024.
Definition f64_sub := f_sub 53 1024.
Definition f64_sqrt := f_sqrt 53 1024.
Definition f64_powi := powi 53 1024.
Definition f32_of_Z := f_of_Z 24 128.
Definition f32_div := f_div 24 128.
Definition f32_mul := f_mul 24 128.
(** A decimal literal: the nearest float to [n / 10^d]; exact below 2^53. *)
Definition f64_lit (n : Z) (d : Z) : float := f64_div (f64_of_Z n) (f64_of_Z (10 ^ d)).
Definition f32_lit (n : Z) (d : Z) : float := f32_div (f32_of_Z n) (f32_of_Z (10 ^ d)).

(** ** Durations, in nanoseconds *)
Definition nanos_per_sec : Z := 1000000000.
(** [Duration::as_secs_f64]. *)
Definition as_secs_f64 (d : Z) : float :=
  f64_add (f64_of_Z (d / nanos_per_sec)) (f64_div (f64_of_Z (d mod nanos_per_sec)) (f64_of_Z nanos_per_sec)).
(** [n / 2^k] to the nearest integer, ties to even. *)
Definition round_shift (n k : Z) : Z :=
  let q := n / 2 ^ k in
  let r := n mod 2 ^ k in
  if (2 ^ k <? 2 * r) || ((2 * r =? 2 ^ k) && Z.odd q) then q + 1 else q.
(** [Duration::from_secs_f64]; [None] is its panic. *)
Definition from_secs_f64 (x : float) : option Z :=
  match x with
  | S754_zero _ => Some 0
  | S754_finite false m e =>
      let nanos := if 0 <=? e then Zpos m * 2 ^ e * nanos_per_sec else round_shift (Zpos m * nanos_per_sec) (- e) in
      if nanos / nanos_per_sec <? two64 then Some nanos else None
  | _ => None
  end.

(** [f64::round] and [f64::ceil] of a value at least zero: halves go up. *)
Definition f64_round (x : float) : float :=
  match x with
  | S754_finite false m e => if 0 <=? e then x else f64_of_Z ((2 * Zpos m + 2 ^ (- e)) / 2 ^ (1 - e))
  | _ => x
  end.
Definition f64_ceil (x : float) : float :=
  match x with
  | S754_finite false m e => if 0 <=? e then x else f64_of_Z ((Zpos m + 2 ^ (- e) - 1) / 2 ^ (- e))
  | _ => x
  end.
(** [Iterator::sum]. It starts from minus zero, which no sum of results shows. *)
Definition f64_sum (l : list float) : float := foldl f64_add (S754_zero true) l.

(** ** Printing with [d] digits after the point: the exact value, to the
    nearest, ties to even. *)
Definition zero_pad (w : nat) (s : str) : str := replicate (w - length s) 48 ++ s.
Definition display_fixed (d : nat) (x : float) : str :=
  let num (sign : bool) (n : Z) : str :=
    (if sign then [45] else []) ++ dec_digits 400 (n / 10 ^ Z.of_nat d) [] ++
    match d with O => [] | _ => 46 :: zero_pad d (dec_digits 400 (n mod 10 ^ Z.of_nat d) []) end in
  match x with
  | S754_nan => lit "NaN"
  | S754_infinity sign => (if sign then [45] else []) ++ lit "inf"
  | S754_zero sign => num sign 0
  | S754_finite sign m e =>
      let v := Zpos m * 10 ^ Z.of_nat d in
      num sign (if 0 <=? e then v * 2 ^ e else round_shift v (- e))
  end.

(** ** Sorting with [partial_cmp]

    The comparison has no answer for NaN, and unwrapping it panics; with two
    values or more every one of them is compared. *)
Definition is_nan (x : float) : bool := match x with S754_nan => true | _ => false end.
Fixpoint f_insert (x : float) (l : list float) : list float :=
  match l with [] => [x] | y :: l' => if SFleb x y then x :: l else y :: f_insert x l' end.
(** A stable sort has one result; inserting from the right finds it. *)
Definition f_sort (l : list float) : option (list float) :=
  if (2 <=? Z.of_nat (length l)) && existsb is_nan l then None else Some (foldr f_insert [] l).

(** Numbers are ordered as these triples are. *)
Definition f_key (x : float) : Z * Z * Z :=
  match x with
  | S754_infinity true => (-2, 0, 0)
  | S754_finite true m e => (-1, - e, - Zpos m)
  | S754_finite false m e => (1, e, Zpos m)
  | S754_infinity false => (2, 0, 0)
  | _ => (0, 0, 0)
  end.
Definition key_le (a b : Z * Z * Z) : Prop :=
  a.1.1 < b.1.1 ∨ a.1.1 = b.1.1 ∧ (a.1.2 < b.1.2 ∨ a.1.2 = b.1.2 ∧ a.2 <= b.2).

Lemma SFleb_key x y : is_nan x = false → is_nan y = false → SFleb x y = true ↔ key_le (f_key x) (f_key y).
Proof.
  intros Hx Hy. unfold SFleb, SFcompare, key_le.
  destruct x as [[]|[]| |[] m e]; destruct y as [[]|[]| |[] n f]; try done; simpl;
    try (split; [intros _; lia|done]); try (split; [done|lia]);
    change (Pos.compare_cont Eq m n) with (Pos.compare m n);
    destruct (Z.compare_spec e f), (Pos.compare_spec m n); simpl; (split; [intros Hc; try done; lia|intros Hc; try done; lia]).
Qed.
Lemma SFleb_trans x y z :
  is_nan x = false → is_nan y = false → is_nan z = false → SFleb x y = true → SFleb y z = true → SFleb x z = true.
Proof. intros Hx Hy Hz. rewrite !SFleb_key by done. unfold key_le. lia. Qed.
Lemma SFleb_total x y : is_nan x = false → is_nan y = false → SFleb x y = false → SFleb y x = true.
Proof. intros Hx Hy H. apply SFleb_key; [done..|]. apply not_true_iff_false in H. rewrite SFleb_key in H by done. unfold key_le in *. lia. Qed.
Lemma SFleb_refl x : is_nan x = false → SFleb x x = true.
Proof. intros Hx. apply SFleb_key; [done..|]. unfold key_le. lia. Qed.

Notation numbers l := (Forall (λ x, is_nan x = false) l).
Notation ascending := (StronglySorted (λ x y, SFleb x y = true)).
Lemma f_insert_perm x l : f_insert x l ≡ₚ x :: l.
Proof. induction l as [|y l IH]; simpl; [done|]. destruct (SFleb x y); [done|]. rewrite IH. apply Permutation_swap. Qed.
Lemma f_insert_sorted x l : is_nan x = false → numbers l → ascending l → ascending (f_insert x l).
Proof.
  intros Hx. induction l as [|y l IH]; intros Hl Hs; simpl; [repeat constructor|].
  apply Forall_cons in Hl as [Hy Hl]. apply StronglySorted_inv in Hs as [Hs Hyl].
  destruct (SFleb x y) eqn:Hxy.
  - constructor; [by constructor|]. constructor; [done|]. rewrite Forall_forall in Hyl, Hl |- *.
    intros z Hz. apply (SFleb_trans x y z); auto.
  - constructor; [by apply IH|]. rewrite f_insert_perm. constructor; [by apply SFleb_total|done].
Qed.
Lemma sorted_perm l : foldr f_insert [] l ≡ₚ l.
Proof. induction l as [|x l IH]; [done|]. simpl. by rewrite f_insert_perm, IH. Qed.
Lemma sorted_ascending l : numbers l → ascending (foldr f_insert [] l).
Proof.
  induction l as [|x l IH]; intros Hl; simpl; [constructor|]. apply Forall_cons in Hl as [Hx Hl].
  apply f_insert_sorted; [done| |by apply IH]. by rewrite sorted_perm.
Qed.
(** Sorting rearranges, and puts numbers in order. *)
Lemma f_sort_perm l l' : f_sort l = Some l' → l' ≡ₚ l.
Proof. unfold f_sort. case_match; intros [= <-]. apply sorted_perm. Qed.
Lemma f_sort_numbers l : numbers l → f_sort l = Some (foldr f_insert [] l) ∧ ascending (foldr f_insert [] l).
Proof.
  intros Hl. split; [|by apply sorted_ascending]. unfold f_sort. replace (existsb is_nan l) with false; [by rewrite andb_false_r|].
  symmetry. apply not_true_iff_false. rewrite existsb_exists. intros (x & Hin & Hx). rewrite Forall_forall in Hl.
  rewrite (Hl x) in Hx; [done|]. by apply list_elem_of_In.
Qed.

Example as_secs_ex : from_secs_f64 (as_secs_f64 100000000) = Some 100000000.
Proof. by vm_compute. Qed.
Example powi_ex : f64_powi (f64_of_Z 2) 10 = f64_of_Z 1024.
Proof. by vm_compute. Qed.
