(* ===== verification/Address.v ===== *)
(** * Actor addresses

    [actor/address.rs]: validated actor paths, the [actor://] URI syntax and
    its parser and printer. Text is a list of Unicode scalar values; the
    [uuid] crate and the Unicode alphabetic and numeric tables are parameters. *)
From S2P Require Import Prelude Text.

(** [NodeId] and [ActorId] wrap a [u128]. *)
Notation NodeId := Z (only parsing).
Notation ActorId := Z (only parsing).

(** Whether a character outside ASCII is alphabetic or numeric: a table of the
    Unicode database, where no such character is white space. *)
Class Unicode : Type := {
  alphanumeric_table : Z → bool;
  alphanumeric_not_space : ∀ c, 128 <= c → is_whitespace c = true → alphanumeric_table c = false
}.

(** The [uuid] crate, by its documentation: [parse_str] reads 32 hexadecimal
    digits (the simple format) as the number they write, and its only other
    formats, hyphenated, braced and urn, hold a hyphen; [simple] prints the 32
    lower-case digits of the number. *)
Class Uuid : Type := {
  parse_str : str → option Z;
  simple : Z → str;
  parse_str_formats : ∀ s n, parse_str s = Some n → length s = 32%nat ∨ 45 ∈ s;
  parse_str_hex : ∀ s, length s = 32%nat → forallb is_hex s = true → parse_str s = Some (hex_value s);
  simple_digits : ∀ n, is_u128 n → simple n = hex_digits 32 n
}.

(** src: crates/pulsing-actor/src/actor/address.rs 8-27 AddressParseError *)
Inductive AddressParseError :=
  | InvalidScheme | InvalidFormat | MissingNamespace | EmptySegment
  | InvalidCharacter | PathTooLong | SegmentTooLong | ReservedNamespace.

(** src: crates/pulsing-actor/src/actor/address.rs 59-64 ActorPath *)
Record ActorPath := mk_path { segments : list str }.
#[export] Instance ActorPath_eq_dec : EqDecision ActorPath.
Proof. solve_decision. Defined.

Section Paths.
Context `{Unicode}.

Definition is_alphanumeric (c : Z) : bool :=
  if c <? 128 then is_ascii_alphanumeric c else alphanumeric_table c.

(** src: crates/pulsing-actor/src/actor/address.rs 67-68 SYSTEM_NAMESPACES *)
Definition SYSTEM_NAMESPACES : list str := [lit "system"].
(** src: crates/pulsing-actor/src/actor/address.rs 70-71 MAX_PATH_LENGTH *)
Definition MAX_PATH_LENGTH : Z := 256.
(** src: crates/pulsing-actor/src/actor/address.rs 73-74 MAX_SEGMENT_LENGTH *)
Definition MAX_SEGMENT_LENGTH : Z := 64.

(** src: crates/pulsing-actor/src/actor/address.rs 109-114 is_valid_segment *)
Definition is_valid_segment (s : str) : bool :=
  negb (bool_decide (s = [])) && forallb (λ c, is_alphanumeric c || (c =? 95) || (c =? 45)) s.

(** The loop over the segments, which returns at the first bad one.
    src: crates/pulsing-actor/src/actor/address.rs 90-100 validate_path_components (loop) *)
Fixpoint check_segments (ps : list str) : Result unit AddressParseError :=
  match ps with
  | [] => Ok tt
  | p :: ps' =>
      if bool_decide (p = []) then Err EmptySegment
      else if MAX_SEGMENT_LENGTH <? utf8_len p then Err SegmentTooLong
      else if negb (is_valid_segment p) then Err InvalidCharacter
      else check_segments ps'
  end.

(** src: crates/pulsing-actor/src/actor/address.rs 76-107 validate_path_components *)
Definition validate_path_components (path : str) : Result (list str) AddressParseError :=
  let path := trim_matches (λ c, c =? slash) path in
  if MAX_PATH_LENGTH <? utf8_len path then Err PathTooLong
  else if bool_decide (path = []) then Err MissingNamespace
  else
    let segs := trim <$> split slash path in
    let? _ := check_segments segs in
    if (length segs <? 2)%nat then Err MissingNamespace else Ok segs.

(** src: crates/pulsing-actor/src/actor/address.rs 140-149 ActorPath::new *)
Definition path_new (path : str) : Result ActorPath AddressParseError :=
  let? segs := validate_path_components path in
  match segs with
  | s :: _ => if bool_decide (s ∈ SYSTEM_NAMESPACES) then Err ReservedNamespace else Ok (mk_path segs)
  | [] => Err MissingNamespace
  end.

(** src: crates/pulsing-actor/src/actor/address.rs 161-164 ActorPath::new_system *)
Definition path_new_system (path : str) : Result ActorPath AddressParseError :=
  let? segs := validate_path_components path in Ok (mk_path segs).

(** The accessors index [segments] and panic where there is nothing to
    index; [None] is that panic.
    src: crates/pulsing-actor/src/actor/address.rs 167-169 namespace *)
Definition namespace (p : ActorPath) : option str := head (segments p).
(** src: crates/pulsing-actor/src/actor/address.rs 175-179 name *)
Definition name (p : ActorPath) : option str := last (segments p).
(** src: crates/pulsing-actor/src/actor/address.rs 187-189 as_str *)
Definition as_str (p : ActorPath) : str := join slash (segments p).
(** src: crates/pulsing-actor/src/actor/address.rs 192-194 is_system *)
Definition is_system (p : ActorPath) : bool :=
  match namespace p with Some n => bool_decide (n ∈ SYSTEM_NAMESPACES) | None => false end.
(** src: crates/pulsing-actor/src/actor/address.rs 197-203 parent *)
Definition parent (p : ActorPath) : option str :=
  if (2 <? length (segments p))%nat
  then Some (join slash (take (length (segments p) - 1) (segments p))) else None.
(** src: crates/pulsing-actor/src/actor/address.rs 206-216 child *)
Definition child (p : ActorPath) (n : str) : Result ActorPath AddressParseError :=
  if negb (is_valid_segment n) then Err InvalidCharacter
  else Ok (mk_path (segments p ++ [n])).
End Paths.

(** src: crates/pulsing-actor/src/actor/address.rs 285-302 ActorAddress *)
Inductive ActorAddress :=
  | Named (path : ActorPath) (instance : option NodeId)
  | Global (actor_id : ActorId).

Section Addresses.
Context `{Unicode, Uuid}.

Definition scheme : str := lit "actor://".

(** [rsplit_once] finds the instance; a node id is read as a UUID first and
    in decimal only when that fails.
    src: crates/pulsing-actor/src/actor/address.rs 336-355 ActorAddress::parse (named) *)
Definition parse_named (path_part : str) : Result ActorAddress AddressParseError :=
  match rsplit_once at_sign path_part with
  | Some (path, node) =>
      match (match parse_str node with
             | Some u => Some u
             | None => parse_unsigned two128 node
             end) with
      | Some node_id => let? p := path_new path in Ok (Named p (Some node_id))
      | None => Err InvalidFormat
      end
  | None => let? p := path_new path_part in Ok (Named p None)
  end.

(** [fresh] is the draw of [Uuid::new_v4] on the legacy branch.
    src: crates/pulsing-actor/src/actor/address.rs 356-386 ActorAddress::parse (global) *)
Definition parse_global (fresh : Z) (rest : str) : Result ActorAddress AddressParseError :=
  match split_once slash rest with
  | Some (node_id_str, actor_id_str) =>
      match parse_str actor_id_str with
      | Some u => Ok (Global u)
      | None =>
          match parse_unsigned two128 node_id_str, parse_unsigned two64 actor_id_str with
          | Some _, Some _ => Ok (Global fresh)
          | _, _ => Err InvalidFormat
          end
      end
  | None =>
      match parse_str rest with
      | Some u => Ok (Global u)
      | None => Err InvalidFormat
      end
  end.

(** src: crates/pulsing-actor/src/actor/address.rs 323-387 ActorAddress::parse *)
Definition parse (fresh : Z) (uri : str) : Result ActorAddress AddressParseError :=
  match strip_prefix scheme uri with
  | None => Err InvalidScheme
  | Some rest =>
      match strip_prefix [slash] rest with
      | Some path_part =>
          if bool_decide (path_part = []) then Err MissingNamespace else parse_named path_part
      | None => parse_global fresh rest
      end
  end.

(** src: crates/pulsing-actor/src/actor/address.rs 415-434 to_uri *)
Definition to_uri (a : ActorAddress) : str :=
  match a with
  | Named path None => scheme ++ slash :: as_str path
  | Named path (Some node) => scheme ++ slash :: as_str path ++ at_sign :: display_u128 node
  | Global actor_id => scheme ++ simple actor_id
  end.

(** src: crates/pulsing-actor/src/actor/address.rs 460-468 with_instance *)
Definition with_instance (a : ActorAddress) (node_id : NodeId) : ActorAddress :=
  match a with Named path _ => Named path (Some node_id) | other => other end.
(** src: crates/pulsing-actor/src/actor/address.rs 471-476 path *)
Definition address_path (a : ActorAddress) : option ActorPath :=
  match a with Named path _ => Some path | _ => None end.
(** src: crates/pulsing-actor/src/actor/address.rs 479-484 node_id *)
Definition address_node_id (a : ActorAddress) : option NodeId :=
  match a with Named _ instance => instance | Global _ => None end.
(** src: crates/pulsing-actor/src/actor/address.rs 487-492 actor_id *)
Definition address_actor_id (a : ActorAddress) : option ActorId :=
  match a with Global actor_id => Some actor_id | _ => None end.
End Addresses.

Lemma parse_simple `{Uuid} n :
  is_u128 n → parse_str (simple n) = Some n ∧ slash ∉ simple n ∧ length (simple n) = 32%nat.
Proof.
  intros [Hn Hb]. rewrite simple_digits by done.
  destruct (hex_digits_ok 32 n Hn) as (Hl & Hh & Hv). split_and!; [| |done].
  - rewrite parse_str_hex by done. f_equal. rewrite Hv. by apply Z.mod_small.
  - intros Hin. rewrite forallb_forall in Hh. apply list_elem_of_In, Hh in Hin. done.
Qed.

(** ** Valid paths *)
Section PathLemmas.
Context `{Unicode}.

Definition segment_ok (s : str) : Prop :=
  is_valid_segment s = true ∧ utf8_len s <= MAX_SEGMENT_LENGTH.

(** What [ActorPath::new_system] establishes; [ActorPath::new] adds that the
    namespace is not reserved. *)
Record path_wf (p : ActorPath) : Prop := {
  wf_segments : Forall segment_ok (segments p);
  wf_two : (2 <= length (segments p))%nat;
  wf_length : utf8_len (as_str p) <= MAX_PATH_LENGTH
}.

Definition valid_char (c : Z) : bool := is_alphanumeric c || (c =? 95) || (c =? 45).

Lemma valid_char_not_space c : valid_char c = true → is_whitespace c = false.
Proof.
  unfold valid_char, is_alphanumeric. destruct (Z.ltb_spec c 128) as [Hc|Hc].
  - unfold is_ascii_alphanumeric, is_digit, is_whitespace. lia.
  - intros Hv. destruct (is_whitespace c) eqn:E; [|done].
    rewrite alphanumeric_not_space in Hv by done. lia.
Qed.

Lemma valid_char_not c d :
  valid_char c = true → d < 128 → valid_char d = false → c ≠ d.
Proof. intros Hc _ Hd ->. congruence. Qed.

Lemma segment_chars s : is_valid_segment s = true → ∀ c, c ∈ s → valid_char c = true.
Proof.
  unfold is_valid_segment. intros [_ Hs]%andb_true_iff c Hc.
  rewrite forallb_forall in Hs. apply Hs. by apply list_elem_of_In.
Qed.

Lemma segment_not_nil s : is_valid_segment s = true → s ≠ [].
Proof. unfold is_valid_segment. intros [Hs _]%andb_true_iff ->. done. Qed.

Lemma segment_not_sep d s :
  is_valid_segment s = true → d < 128 → valid_char d = false → d ∉ s.
Proof.
  intros Hs Hd Hv Hin. apply (segment_chars _ Hs) in Hin. congruence.
Qed.

Lemma segment_trim s : is_valid_segment s = true → trim s = s.
Proof.
  intros Hs. apply trim_matches_none. intros c Hc.
  eapply valid_char_not_space, segment_chars; done.
Qed.

Lemma check_segments_ok ps : check_segments ps = Ok tt ↔ Forall segment_ok ps.
Proof.
  induction ps as [|p ps IH]; simpl; [done|]. rewrite Forall_cons, <- IH.
  unfold segment_ok. case_bool_decide as Hnil.
  { split; [done|]. intros [[Hv _] _]. subst. done. }
  destruct (Z.ltb_spec MAX_SEGMENT_LENGTH (utf8_len p)); [split; [done|lia]|].
  destruct (is_valid_segment p); simpl; [tauto|]. by split; [|intros [[? _] _]].
Qed.

Lemma check_segments_tt ps u : check_segments ps = Ok u → check_segments ps = Ok tt.
Proof. by destruct u. Qed.

(** [validate_path_components] inverted: the segments are the trimmed pieces
    of the trimmed text. *)
Lemma validate_inv s segs :
  validate_path_components s = Ok segs →
  segs = trim <$> split slash (trim_matches (λ c, c =? slash) s) ∧
  utf8_len (trim_matches (λ c, c =? slash) s) <= MAX_PATH_LENGTH ∧
  Forall segment_ok segs ∧ (2 <= length segs)%nat.
Proof.
  unfold validate_path_components. set (t := trim_matches _ s).
  destruct (Z.ltb_spec MAX_PATH_LENGTH (utf8_len t)); [done|].
  case_bool_decide; [done|]. unfold and_then.
  destruct (check_segments _) as [u|] eqn:Hc; [|done].
  apply check_segments_tt, check_segments_ok in Hc.
  destruct (Nat.ltb_spec (length (trim <$> split slash t)) 2); [done|]. naive_solver.
Qed.

Lemma validate_wf s segs : validate_path_components s = Ok segs → path_wf (mk_path segs).
Proof.
  intros (-> & Hlen & Hok & Htwo)%validate_inv. split; [done|done|].
  unfold as_str. cbn [segments]. etrans; [apply join_trim_le|]. by rewrite join_split.
Qed.

Lemma slash_not_in s : is_valid_segment s = true → slash ∉ s.
Proof. intros Hs. by apply segment_not_sep. Qed.

(** The printed path starts and ends inside a segment. *)
Lemma join_ends ps :
  ps ≠ [] → Forall segment_ok ps →
  ∃ c d, head (join slash ps) = Some c ∧ last (join slash ps) = Some d ∧
         valid_char c = true ∧ valid_char d = true.
Proof.
  intros Hne Hps. induction Hps as [|p ps [Hp _] Hps IH]; [done|].
  pose proof (segment_chars p Hp) as Hch. apply segment_not_nil in Hp.
  destruct ps as [|q ps].
  - destruct p as [|c p]; [done|]. cbn [join].
    destruct (last (c :: p)) as [d|] eqn:Hl; [|by apply last_None in Hl].
    exists c, d. repeat split; [|].
    + apply Hch. apply list_elem_of_here.
    + apply Hch. apply last_Some in Hl as [l ->]. set_solver.
  - destruct IH as (c & d & Hh & Hl & _ & Hd); [done|].
    destruct p as [|a p]; [done|]. exists a, d. rewrite join_cons by done.
    repeat split; [| |done].
    + rewrite last_app, last_cons, Hl. done.
    + apply Hch. apply list_elem_of_here.
Qed.

Lemma validate_as_str p : path_wf p → validate_path_components (as_str p) = Ok (segments p).
Proof.
  intros [Hok Htwo Hlen]. unfold validate_path_components, as_str in *.
  destruct (segments p) as [|s0 ss] eqn:Hs; [simpl in Htwo; lia|]. rewrite <- Hs in *.
  assert (Hne : segments p ≠ []) by (by rewrite Hs).
  destruct (join_ends _ Hne Hok) as (c & d & Hh & Hl & Hc & Hd).
  rewrite (trim_matches_id _ _ c d Hh Hl); cycle 1.
  { apply Z.eqb_neq. by eapply valid_char_not. }
  { apply Z.eqb_neq. by eapply valid_char_not. }
  destruct (Z.ltb_spec MAX_PATH_LENGTH (utf8_len (join slash (segments p)))); [lia|].
  rewrite bool_decide_false by (intros E; by rewrite E in Hh).
  rewrite split_join; [|done|]; cycle 1.
  { eapply Forall_impl; [done|]. intros s [? _]. by apply slash_not_in. }
  assert (Htrim : trim <$> segments p = segments p).
  { clear -Hok. induction Hok as [|s ss [Hv _] _ IH]; [done|].
    by rewrite fmap_cons, IH, segment_trim. }
  rewrite Htrim. apply check_segments_ok in Hok. rewrite Hok. simpl.
  destruct (Nat.ltb_spec (length (segments p)) 2); [lia|done].
Qed.
End PathLemmas.

(** ** Theorems *)
Section Theorems.
Context `{Unicode}.

Lemma path_new_wf s p : path_new s = Ok p → path_wf p ∧ is_system p = false.
Proof.
  unfold path_new, and_then.
  destruct (validate_path_components s) as [segs|] eqn:Hv; [|done].
  apply validate_wf in Hv. destruct segs as [|s0 ss]; [done|].
  case_bool_decide as Hr; [done|]. intros [= <-]. split; [done|].
  unfold is_system. simpl. by apply bool_decide_false.
Qed.

Lemma path_new_as_str p : path_wf p → is_system p = false → path_new (as_str p) = Ok p.
Proof.
  intros Hwf Hsys. unfold path_new. rewrite validate_as_str by done. simpl.
  destruct p as [[|s ss]]; simpl in *; [by destruct Hwf; simpl in *; lia|].
  unfold is_system in Hsys. simpl in Hsys. by rewrite Hsys.
Qed.

(** [ActorPath::new] only builds paths of at least two segments, each
    non-empty, made of letters, digits, [_] and [-] and at most 64 bytes
    long, whose printed form is at most 256 bytes, outside the reserved
    namespaces; and it accepts every such path from its printed form, giving
    it back. In particular the text it accepts has a canonical form. *)
Theorem path_new_correct s p :
  (path_new s = Ok p → path_new (as_str p) = Ok p) ∧
  (path_new (as_str p) = Ok p ↔ path_wf p ∧ is_system p = false).
Proof.
  split.
  - intros [??]%path_new_wf. by apply path_new_as_str.
  - split; [apply path_new_wf|]. intros [??]. by apply path_new_as_str.
Qed.

(** A child is appended without the length limits of [ActorPath::new]:
    it keeps the segments valid, its parent text is the old path, but it can
    be a path that [ActorPath::new] refuses to read back. *)
Theorem child_correct p n q :
  path_wf p → child p n = Ok q →
  Forall (λ s, is_valid_segment s = true) (segments q) ∧
  name q = Some n ∧ namespace q = namespace p ∧ parent q = Some (as_str p) ∧
  (path_wf q ↔ utf8_len n <= MAX_SEGMENT_LENGTH ∧ utf8_len (as_str q) <= MAX_PATH_LENGTH).
Proof.
  intros [Hok Htwo Hlen]. unfold child. destruct (is_valid_segment n) eqn:Hn; [|done].
  intros [= <-]. split_and!; [| | | |split; [intros Hq; split; revert Hq|]].
  - simpl. apply Forall_app. split; [|by apply Forall_singleton].
    eapply Forall_impl; [exact Hok|]. by intros ? [? _].
  - unfold name. simpl. apply last_snoc.
  - unfold namespace. destruct p as [[|s ss]]; simpl in *; [lia|done].
  - unfold parent. simpl. rewrite length_app. simpl.
    destruct (Nat.ltb_spec 2 (length (segments p) + 1)); [|lia].
    rewrite Nat.add_sub, take_app_length. done.
  - intros [Hs _ _]. apply Forall_app in Hs as [_ Hs].
    by apply Forall_singleton in Hs as [_ ?].
  - by intros [_ _ ?].
  - intros [Hln Hlq]. split; [|simpl; rewrite length_app; lia|done].
    apply Forall_app. split; [done|]. apply Forall_singleton. by split.
Qed.

Context `{Uuid}.

(** The paths the program builds: from a text, with or without the check of the
    namespace, and as the child of another. *)
Inductive built : ActorPath → Prop :=
  | built_new s p : path_new s = Ok p → built p
  | built_system s p : path_new_system s = Ok p → built p
  | built_child p n q : built p → child p n = Ok q → built q.

(** What they have in common: at least two segments of valid characters. *)
Lemma built_segments p : built p → Forall (λ s, is_valid_segment s = true) (segments p) ∧ (2 <= length (segments p))%nat.
Proof.
  assert (Hwf : ∀ p, path_wf p → Forall (λ s, is_valid_segment s = true) (segments p) ∧ (2 <= length (segments p))%nat).
  { clear p. intros p [Hok Htwo _]. split; [|done]. eapply Forall_impl; [exact Hok|]. by intros ? [? _]. }
  induction 1 as [s p Hp|s p Hp|p n q _ [IH Htwo] Hq].
  - by apply path_new_wf in Hp as [Hp%Hwf _].
  - unfold path_new_system, and_then in Hp. destruct (validate_path_components s) as [segs|] eqn:Hv; [|done].
    injection Hp as <-. by apply Hwf, (validate_wf s).
  - unfold child in Hq. destruct (is_valid_segment n) eqn:Hn; [|done]. injection Hq as <-. simpl. split.
    + apply Forall_app. by rewrite Forall_singleton.
    + rewrite length_app. lia.
Qed.

(** The addresses of the program, and those whose text names them: the path
    keeps the documented limits and is outside the reserved namespace, and the
    node id has not 32 digits. *)
Definition address_built (a : ActorAddress) : Prop :=
  match a with
  | Named p inst => built p ∧ match inst with Some n => is_u128 n | None => True end
  | Global id => is_u128 id
  end.
Definition address_readable (a : ActorAddress) : Prop :=
  match a with
  | Named p inst =>
      Forall (λ s, utf8_len s <= MAX_SEGMENT_LENGTH) (segments p) ∧ utf8_len (as_str p) <= MAX_PATH_LENGTH ∧
      is_system p = false ∧ match inst with Some n => length (display_u128 n) ≠ 32%nat | None => True end
  | Global id => True
  end.

Lemma as_str_no_at p : Forall (λ s, is_valid_segment s = true) (segments p) → at_sign ∉ as_str p.
Proof.
  intros Hok. unfold as_str. induction Hok as [|s ss Hs Hss IH]; [set_solver|].
  assert (Hns : at_sign ∉ s) by (by apply segment_not_sep).
  destruct ss as [|t ts]; [done|]. rewrite join_cons by done.
  rewrite elem_of_app, elem_of_cons. intros [?|[[=]|?]]; done.
Qed.

Lemma display_no d n : 0 <= n → is_digit d = false → d ∉ display_u128 n.
Proof.
  intros Hn Hd Hin. pose proof (display_u128_digits n Hn) as Hall.
  rewrite Forall_forall in Hall. apply Hall in Hin. congruence.
Qed.

Lemma parse_named_uri fresh part :
  part ≠ [] → parse fresh (scheme ++ slash :: part) = parse_named part.
Proof.
  intros Hne. unfold parse. rewrite strip_prefix_app. cbn [strip_prefix].
  rewrite Z.eqb_refl. by rewrite bool_decide_false.
Qed.

Lemma as_str_not_nil p :
  Forall (λ s, is_valid_segment s = true) (segments p) → (2 <= length (segments p))%nat → as_str p ≠ [].
Proof.
  intros Hok Htwo. unfold as_str. destruct Hok as [|s ss Hs Hss]; [simpl in Htwo; lia|].
  apply segment_not_nil in Hs. destruct ss; [done|]. rewrite join_cons by done. by destruct s.
Qed.

Lemma built_wf p :
  built p → Forall (λ s, utf8_len s <= MAX_SEGMENT_LENGTH) (segments p) → utf8_len (as_str p) <= MAX_PATH_LENGTH → path_wf p.
Proof.
  intros [Hok Htwo]%built_segments Hlen Hall. split; [|done|done]. apply Forall_and. by split.
Qed.

(** A path is read back from its text exactly when it keeps the limits. *)
Lemma path_read_back p :
  built p →
  path_new (as_str p) = Ok p ↔
    Forall (λ s, utf8_len s <= MAX_SEGMENT_LENGTH) (segments p) ∧ utf8_len (as_str p) <= MAX_PATH_LENGTH ∧ is_system p = false.
Proof.
  intros Hb. split.
  - intros [[Hok _ Hlen] Hsys]%path_new_wf. split_and!; [|done..]. eapply Forall_impl; [exact Hok|]. by intros ? [_ ?].
  - intros (Hs & Hl & Hsys). apply path_new_as_str; [by apply built_wf|done].
Qed.

(** The text after the path: an id of 32 digits is another id. *)
Lemma parse_node_display n :
  is_u128 n →
  (match parse_str (display_u128 n) with Some u => Some u | None => parse_unsigned two128 (display_u128 n) end) =
    Some (if bool_decide (length (display_u128 n) = 32%nat) then hex_value (display_u128 n) else n).
Proof.
  intros Hn. pose proof Hn as [Hn0 _]. case_bool_decide as H32.
  - rewrite parse_str_hex; [done..|]. apply forallb_forall. intros c Hc. apply list_elem_of_In in Hc.
    pose proof (display_u128_digits n Hn0) as Hall. rewrite Forall_forall in Hall. unfold is_hex. by rewrite Hall.
  - destruct (parse_str (display_u128 n)) as [u|] eqn:Hps; [|by apply parse_display_u128].
    apply parse_str_formats in Hps as [?|Hps]; [done|]. by apply display_no in Hps.
Qed.

Lemma digits_32 n : is_u128 n → length (display_u128 n) = 32%nat → hex_value (display_u128 n) ≠ n.
Proof.
  intros Hn H32. apply hex_value_display; [done|]. destruct (Z.lt_ge_cases n 10) as [Hlt|]; [|done].
  unfold display_u128 in H32. cbn [dec_digits] in H32. by rewrite (proj2 (Z.ltb_lt n 10) Hlt) in H32.
Qed.

(** C7: An address whose path was built by ActorPath's constructors (new,
    new_system and child) is read back from its URI exactly when its path keeps the
    documented limits (64 bytes a segment, 256 in all), is not in the reserved
    namespace, and its instance's node id, if it has one, has not exactly 32
    decimal digits; a global id is always read back. *)
Theorem address_roundtrip fresh a :
  address_built a → parse fresh (to_uri a) = Ok a ↔ address_readable a.
Proof.
  destruct a as [p inst|id]; cbn [to_uri address_built address_readable].
  - intros [Hp Hi]. destruct (built_segments p Hp) as [Hok Htwo]. pose proof (path_read_back p Hp) as Hr.
    destruct inst as [n|].
    + rewrite parse_named_uri by by destruct (as_str p). unfold parse_named.
      rewrite rsplit_once_app by (apply display_no; [by destruct Hi|done]). rewrite parse_node_display by done.
      case_bool_decide as H32.
      * split; [|naive_solver]. destruct (path_new (as_str p)) as [q|]; [|done]. intros [= _ E]. by apply digits_32 in E.
      * unfold and_then. destruct (path_new (as_str p)) as [q|] eqn:E; naive_solver.
    + rewrite parse_named_uri by by apply as_str_not_nil. unfold parse_named.
      rewrite rsplit_once_none by by apply as_str_no_at. unfold and_then.
      destruct (path_new (as_str p)) as [q|] eqn:E; naive_solver.
  - intros Hid. split; [done|]. intros _. destruct (parse_simple id Hid) as (Hps & Hns & Hl).
    unfold parse. rewrite strip_prefix_app.
    assert (strip_prefix [slash] (simple id) = None) as ->.
    { destruct (simple id) as [|c s]; [done|]. cbn [strip_prefix].
      destruct (Z.eqb_spec slash c) as [<-|]; [|done].
      destruct Hns. apply list_elem_of_here. }
    unfold parse_global. by rewrite split_once_none, Hps.
Qed.

(** An instance address whose node id is written with exactly 32 decimal
    digits is read back with the digits taken as hexadecimal, so it names
    another node. *)
Theorem address_roundtrip_32_digits fresh p n :
  path_wf p → is_system p = false → is_u128 n → length (display_u128 n) = 32%nat →
  parse fresh (to_uri (Named p (Some n))) = Ok (Named p (Some (hex_value (display_u128 n)))).
Proof.
  intros Hp Hsys Hn H32. cbn [to_uri].
  rewrite parse_named_uri by by destruct (as_str p). unfold parse_named.
  rewrite rsplit_once_app by (apply display_no; [by destruct Hn|done]).
  by rewrite parse_node_display, bool_decide_true, path_new_as_str.
Qed.
End Theorems.

(** ** Concrete instances and witnesses *)
#[export] Program Instance ascii_unicode : Unicode := { alphanumeric_table _ := false }.
Next Obligation. done. Qed.

#[export] Program Instance simple_uuid : Uuid := {
  parse_str s := if bool_decide (length s = 32%nat) && forallb is_hex s then Some (hex_value s) else None;
  simple := hex_digits 32
}.
Next Obligation. intros s n. simpl. case_bool_decide; [by left|done]. Qed.
Next Obligation. intros s Hl Hh. simpl. by rewrite bool_decide_true, Hh. Qed.
Next Obligation. done. Qed.

Definition router_path : ActorPath := mk_path [lit "services"; lit "llm"; lit "router"].

Lemma router_path_wf : path_wf router_path.
Proof. by apply (path_new_wf (lit "services/llm/router")). Qed.

Lemma path_new_example :
  path_new (lit "/services/ llm /router/") = Ok router_path ∧
  path_new (lit "services") = Err MissingNamespace ∧
  path_new (lit "services//router") = Err EmptySegment ∧
  path_new (lit "services/a.b") = Err InvalidCharacter ∧
  path_new (lit "system/core") = Err ReservedNamespace.
Proof. split_and!; vm_compute; reflexivity. Qed.

Lemma child_correct_witness :
  ∃ q, child router_path (lit "a-1") = Ok q ∧ parent q = Some (as_str router_path) ∧ path_wf q.
Proof.
  eexists. split; [reflexivity|].
  destruct (child_correct router_path (lit "a-1") _ router_path_wf eq_refl) as (_ & _ & _ & Hp & Hw).
  split; [exact Hp|]. apply Hw. split; vm_compute; discriminate.
Defined.

(** A child with an over-long name is printed to a text that is refused. *)
Lemma address_roundtrip_witness :
  parse 0 (to_uri (Named router_path (Some 123))) = Ok (Named router_path (Some 123)) ∧
  ∃ q, child router_path (repeat 97 65) = Ok q ∧ parse 0 (to_uri (Named q None)) ≠ Ok (Named q None).
Proof.
  assert (Hb : built router_path) by by apply (built_new (lit "services/llm/router")).
  split.
  - apply (address_roundtrip 0 (Named router_path (Some 123))).
    + split; [exact Hb|]. by split.
    + split_and!; [|by vm_compute..]. by apply (bool_decide_unpack _); vm_compute.
  - eexists. split; [reflexivity|]. intros Hp. apply address_roundtrip in Hp.
    + destruct Hp as (Hs & _). rewrite Forall_forall in Hs. by apply (Hs (repeat 97 65)); [apply elem_of_app; right; apply list_elem_of_here|].
    + split; [|done]. by eapply (built_child router_path (repeat 97 65)).
Defined.

Lemma address_roundtrip_32_digits_witness :
  parse 0 (to_uri (Named router_path (Some (10 ^ 31)))) = Ok (Named router_path (Some (16 ^ 31))).
Proof.
  apply (address_roundtrip_32_digits 0 router_path (10 ^ 31)); [exact router_path_wf|reflexivity| |].
  - split; vm_compute; [discriminate|reflexivity].
  - vm_compute. reflexivity.
Defined.
