(* ===== verification/Member.v ===== *)
(** * Cluster member types

    [cluster/member.rs]: node and member states with their precedence orders,
    and the record of a named actor's instances with its merge. The map from
    path to record that the gossip and head-node backends both keep, and the
    steps both take on it, are here too. *)
From S2P Require Import Prelude Text Address.

(** [SocketAddr]: an IPv4 or IPv6 address and a port. *)
Inductive IpAddr := V4 (bits : Z) | V6 (bits : Z).
Record SocketAddr := mk_addr { ip : IpAddr; port : Z }.
Definition is_unspecified (a : IpAddr) : bool :=
  match a with V4 b | V6 b => b =? 0 end.
#[export] Instance IpAddr_eq_dec : EqDecision IpAddr.
Proof. solve_decision. Defined.
#[export] Instance SocketAddr_eq_dec : EqDecision SocketAddr.
Proof. solve_decision. Defined.

(** ** Node status *)

(** src: crates/pulsing-actor/src/cluster/member.rs 9-17 NodeStatus *)
Inductive NodeStatus := Online | PFail | Fail | Handshake | Tombstone.
#[export] Instance NodeStatus_eq_dec : EqDecision NodeStatus.
Proof. solve_decision. Defined.

(** The derived order compares discriminants. *)
Definition discriminant (s : NodeStatus) : Z :=
  match s with Online => 0 | PFail => 1 | Fail => 2 | Handshake => 3 | Tombstone => 4 end.
Definition status_gtb (a b : NodeStatus) : bool := discriminant b <? discriminant a.

(** src: crates/pulsing-actor/src/cluster/member.rs 20-22 is_online *)
Definition is_online (s : NodeStatus) : bool := bool_decide (s = Online).
(** src: crates/pulsing-actor/src/cluster/member.rs 24-26 is_failed *)
Definition is_failed (s : NodeStatus) : bool := match s with PFail | Fail => true | _ => false end.
(** src: crates/pulsing-actor/src/cluster/member.rs 28-30 is_tombstoned *)
Definition is_tombstoned (s : NodeStatus) : bool := bool_decide (s = Tombstone).
(** src: crates/pulsing-actor/src/cluster/member.rs 32-34 can_recover *)
Definition can_recover (s : NodeStatus) : bool :=
  match s with PFail | Fail | Tombstone => true | _ => false end.

(** src: crates/pulsing-actor/src/cluster/member.rs 37-45 ClusterNode *)
Record ClusterNode := mk_node {
  node_id : NodeId; addr : SocketAddr; status : NodeStatus; epoch : Z; last_seen : Z }.

(** src: crates/pulsing-actor/src/cluster/member.rs 48-59 ClusterNode::new *)
Definition ClusterNode_new (now : Z) (id : NodeId) (a : SocketAddr) (e : Z) : ClusterNode :=
  mk_node id a Online e now.

(** src: crates/pulsing-actor/src/cluster/member.rs 61-66 ClusterNode::supersedes *)
Definition node_supersedes (self other : ClusterNode) : bool :=
  if negb (epoch self =? epoch other) then epoch other <? epoch self
  else status_gtb (status self) (status other).

(** src: crates/pulsing-actor/src/cluster/member.rs 69-76 FailureInfo *)
Record FailureInfo := mk_failure {
  f_node_id : NodeId; f_status : NodeStatus; f_epoch : Z; reported_by : NodeId }.

(** ** SWIM member status *)

(** src: crates/pulsing-actor/src/cluster/member.rs 78-85 MemberStatus *)
Inductive MemberStatus := Alive | Suspect | Dead | Leaving.
#[export] Instance MemberStatus_eq_dec : EqDecision MemberStatus.
Proof. solve_decision. Defined.
(** src: crates/pulsing-actor/src/cluster/member.rs 88-90 is_alive *)
Definition is_alive (s : MemberStatus) : bool := bool_decide (s = Alive).
(** src: crates/pulsing-actor/src/cluster/member.rs 92-94 is_reachable *)
Definition is_reachable (s : MemberStatus) : bool := match s with Alive | Suspect => true | _ => false end.

(** src: crates/pulsing-actor/src/cluster/member.rs 97-107 MemberInfo *)
Record MemberInfo := mk_member {
  m_node_id : NodeId; m_addr : SocketAddr; gossip_addr : SocketAddr;
  m_status : MemberStatus; incarnation : Z; last_update : option Z }.

(** src: crates/pulsing-actor/src/cluster/member.rs 110-119 MemberInfo::new *)
Definition MemberInfo_new (now : Z) (id : NodeId) (a g : SocketAddr) : MemberInfo :=
  mk_member id a g Alive 0 (Some now).

(** src: crates/pulsing-actor/src/cluster/member.rs 121-125 refute *)
Definition refute (now : Z) (m : MemberInfo) : MemberInfo :=
  mk_member (m_node_id m) (m_addr m) (gossip_addr m) Alive (incarnation m +w 1) (Some now).

(** src: crates/pulsing-actor/src/cluster/member.rs 127-132 suspect *)
Definition suspect (now : Z) (m : MemberInfo) : MemberInfo :=
  if bool_decide (m_status m = Alive)
  then mk_member (m_node_id m) (m_addr m) (gossip_addr m) Suspect (incarnation m) (Some now)
  else m.

(** src: crates/pulsing-actor/src/cluster/member.rs 134-137 mark_dead *)
Definition mark_dead (now : Z) (m : MemberInfo) : MemberInfo :=
  mk_member (m_node_id m) (m_addr m) (gossip_addr m) Dead (incarnation m) (Some now).

(** src: crates/pulsing-actor/src/cluster/member.rs 139-147 MemberInfo::supersedes *)
Definition member_supersedes (self other : MemberInfo) : bool :=
  if negb (incarnation self =? incarnation other) then incarnation other <? incarnation self
  else match m_status self, m_status other with
       | Dead, _ | Suspect, Alive => true
       | _, _ => false
       end.

(** ** Named actors *)

(** src: crates/pulsing-actor/src/cluster/member.rs 165-175 ActorLocation *)
Record ActorLocation := mk_location { l_actor_id : ActorId; l_node_id : NodeId; l_version : Z }.
(** src: crates/pulsing-actor/src/cluster/member.rs 178-184 ActorLocation::new *)
Definition ActorLocation_new (a : ActorId) (n : NodeId) : ActorLocation := mk_location a n 0.

(** src: crates/pulsing-actor/src/cluster/member.rs 187-197 NamedActorInstance *)
Record NamedActorInstance := mk_instance {
  i_node_id : NodeId; i_actor_id : ActorId; metadata : gmap (list Z) (list Z) }.
(** src: crates/pulsing-actor/src/cluster/member.rs 201-207 NamedActorInstance::new *)
Definition NamedActorInstance_new (n : NodeId) (a : ActorId) : NamedActorInstance := mk_instance n a ∅.
(** src: crates/pulsing-actor/src/cluster/member.rs 210-220 with_metadata *)
Definition with_metadata (n : NodeId) (a : ActorId) (md : gmap (list Z) (list Z)) : NamedActorInstance :=
  mk_instance n a md.

(** src: crates/pulsing-actor/src/cluster/member.rs 227-241 NamedActorInfo *)
Record NamedActorInfo := mk_info {
  path : ActorPath; instances : gmap Z NamedActorInstance; instance_nodes : gset Z; version : Z }.

(** src: crates/pulsing-actor/src/cluster/member.rs 245-252 NamedActorInfo::new *)
Definition NamedActorInfo_new (p : ActorPath) : NamedActorInfo := mk_info p ∅ ∅ 0.
(** src: crates/pulsing-actor/src/cluster/member.rs 255-264 NamedActorInfo::with_instance *)
Definition info_with_instance (p : ActorPath) (n : NodeId) : NamedActorInfo := mk_info p ∅ {[n]} 1.
(** src: crates/pulsing-actor/src/cluster/member.rs 267-279 with_full_instance *)
Definition with_full_instance (p : ActorPath) (i : NamedActorInstance) : NamedActorInfo :=
  mk_info p {[i_node_id i := i]} {[i_node_id i]} 1.

(** src: crates/pulsing-actor/src/cluster/member.rs 282-286 add_instance *)
Definition add_instance (n : NodeId) (info : NamedActorInfo) : NamedActorInfo :=
  if bool_decide (n ∈ instance_nodes info) then info
  else mk_info (path info) (instances info) ({[n]} ∪ instance_nodes info) (version info +w 1).

(** src: crates/pulsing-actor/src/cluster/member.rs 289-294 add_full_instance *)
Definition add_full_instance (i : NamedActorInstance) (info : NamedActorInfo) : NamedActorInfo :=
  mk_info (path info) (<[i_node_id i := i]> (instances info))
    ({[i_node_id i]} ∪ instance_nodes info) (version info +w 1).

(** src: crates/pulsing-actor/src/cluster/member.rs 297-306 remove_instance *)
Definition remove_instance (n : NodeId) (info : NamedActorInfo) : bool * NamedActorInfo :=
  let removed_node := bool_decide (n ∈ instance_nodes info) in
  let removed_instance := bool_decide (is_Some (instances info !! n)) in
  let info' v := mk_info (path info) (delete n (instances info)) (instance_nodes info ∖ {[n]}) v in
  if removed_node || removed_instance then (true, info' (version info +w 1))
  else (false, info' (version info)).

(** src: crates/pulsing-actor/src/cluster/member.rs 309-311 is_empty *)
Definition is_empty (info : NamedActorInfo) : bool :=
  bool_decide (instance_nodes info = ∅) && bool_decide (instances info = ∅).
(** src: crates/pulsing-actor/src/cluster/member.rs 314-317 instance_count *)
Definition instance_count (info : NamedActorInfo) : nat := size (instance_nodes info).
(** src: crates/pulsing-actor/src/cluster/member.rs 325-327 get_instance *)
Definition get_instance (info : NamedActorInfo) (n : NodeId) : option NamedActorInstance :=
  instances info !! n.

(** The two loops insert one entry at a time.
    src: crates/pulsing-actor/src/cluster/member.rs 330-338 merge *)
Definition merge_info (self other : NamedActorInfo) : NamedActorInfo :=
  mk_info (path self)
    (map_fold (λ n i acc, <[n := i]> acc) (instances self) (instances other))
    (set_fold (λ n acc, {[n]} ∪ acc) (instance_nodes self) (instance_nodes other))
    (Z.max (version self) (version other) +w 1).

(** [choose] on an iterator draws one element of the set.
    src: crates/pulsing-actor/src/cluster/member.rs 341-345 select_instance *)
Definition select_instance `{Oracle} (info : NamedActorInfo) : option NodeId :=
  choose (elements (instance_nodes info)).

(** ** The table of named actors

    Both backends keep a [HashMap] from the printed path to the record, and
    change it by the same inline code. *)
Notation NamedTable := (gmap (list Z) NamedActorInfo) (only parsing).

(** [entry(key).and_modify(add_full_instance).or_insert_with(with_full_instance)].
    src: crates/pulsing-actor/src/cluster/gossip.rs 583-589 NamedActorRegistered (full) *)
Definition register_full (p : ActorPath) (i : NamedActorInstance) (t : NamedTable) : NamedTable :=
  match t !! as_str p with
  | Some info => <[as_str p := add_full_instance i info]> t
  | None => <[as_str p := with_full_instance p i]> t
  end.

(** [entry(key).and_modify(add_instance).or_insert_with(with_instance)].
    src: crates/pulsing-actor/src/cluster/gossip.rs 590-596 NamedActorRegistered (legacy) *)
Definition register_legacy (p : ActorPath) (n : NodeId) (t : NamedTable) : NamedTable :=
  match t !! as_str p with
  | Some info => <[as_str p := add_instance n info]> t
  | None => <[as_str p := info_with_instance p n]> t
  end.

(** Drop one node's instance, and the record when nothing is left.
    src: crates/pulsing-actor/src/cluster/gossip.rs 599-609 NamedActorUnregistered *)
Definition unregister (p : ActorPath) (n : NodeId) (t : NamedTable) : NamedTable :=
  match t !! as_str p with
  | Some info =>
      let info' := (remove_instance n info).2 in
      if is_empty info' then delete (as_str p) t else <[as_str p := info']> t
  | None => t
  end.

(** Remove a node from every record, then drop the empty ones.
    src: crates/pulsing-actor/src/cluster/gossip.rs 1185-1187 detect_failures (values_mut) *)
Definition remove_node_everywhere (n : NodeId) (t : NamedTable) : NamedTable :=
  (λ info, (remove_instance n info).2) <$> t.
(** src: crates/pulsing-actor/src/cluster/gossip.rs 1191-1191 detect_failures (retain) *)
Definition retain_non_empty (t : NamedTable) : NamedTable :=
  filter (λ kv, is_empty kv.2 = false) t.

(** ** Precedence *)

(** Between two reports on a node the higher epoch wins and, at equal
    epochs, the later status in the order Online, PFail, Fail, Handshake,
    Tombstone: a strict order in which two reports are unordered only when they
    agree on both. *)
Lemma node_supersedes_strict_total :
  (∀ a, node_supersedes a a = false) ∧
  (∀ a b c, node_supersedes a b = true → node_supersedes b c = true → node_supersedes a c = true) ∧
  (∀ a b, node_supersedes a b = true ∨ node_supersedes b a = true ∨
          (epoch a = epoch b ∧ status a = status b)).
Proof.
  assert (Hinj : ∀ s t, discriminant s = discriminant t → s = t) by (by intros [] []).
  unfold node_supersedes, status_gtb. split_and!.
  - intros a. rewrite Z.eqb_refl. simpl. lia.
  - intros a b c. repeat case_match; lia.
  - intros a b. destruct (Z.eqb_spec (epoch a) (epoch b)) as [->|]; simpl.
    + rewrite Z.eqb_refl. simpl.
      destruct (Ztrichotomy_inf (discriminant (status a)) (discriminant (status b))) as [[|]|];
        [lia| |lia]. right; right. split; [done|]. by apply Hinj.
    + destruct (Z.eqb_spec (epoch b) (epoch a)); simpl; [lia|]. lia.
Qed.

(** A member that refutes a suspicion outranks every report about it at its
    old incarnation, a death report included, and is alive again; while a
    suspicion or a death report keeps the incarnation and outranks the member
    it was made from. *)
Theorem refute_outranks now m other :
  is_u64 (incarnation m) → incarnation m + 1 < two64 →
  incarnation other = incarnation m →
  member_supersedes (refute now m) other = true ∧
  member_supersedes other (refute now m) = false ∧
  is_alive (m_status (refute now m)) = true ∧
  member_supersedes (mark_dead now m) m = true ∧
  (is_alive (m_status m) = true → member_supersedes (suspect now m) m = true).
Proof.
  intros Hu Hlt Ho. unfold member_supersedes, refute, mark_dead, suspect, is_alive. cbn [incarnation m_status].
  rewrite u64_succ by done. rewrite Ho.
  replace (incarnation m + 1 =? incarnation m) with false by lia.
  replace (incarnation m =? incarnation m + 1) with false by lia.
  rewrite Z.eqb_refl. simpl. split_and!; [lia|lia|done|done|].
  intros Ha%bool_decide_eq_true. rewrite Ha. by rewrite bool_decide_true, Z.eqb_refl.
Qed.

Lemma refute_outranks_witness :
  let m := MemberInfo_new 0 1 (mk_addr (V4 1) 80) (mk_addr (V4 1) 80) in
  member_supersedes (refute 5 m) (mark_dead 4 m) = true.
Proof. intros m. apply (refute_outranks 5 m (mark_dead 4 m)); by split || reflexivity. Defined.

(** ** Instances of one named actor *)
Lemma merge_info_instances a b : instances (merge_info a b) = instances b ∪ instances a.
Proof.
  unfold merge_info. simpl. generalize (instances b). intros m.
  refine (map_fold_weak_ind (λ r m, r = m ∪ instances a) _ _ _ _ m).
  - by rewrite (left_id_L ∅ (∪)).
  - intros k x m' r Hk ->. by rewrite insert_union_l.
Qed.

Lemma merge_info_nodes a b : instance_nodes (merge_info a b) = instance_nodes b ∪ instance_nodes a.
Proof.
  unfold merge_info. simpl. generalize (instance_nodes b). intros s.
  refine (set_fold_ind_L (λ r s, r = s ∪ instance_nodes a) _ _ _ _ s).
  - set_solver.
  - intros x X r Hx ->. set_solver.
Qed.

Record info_wf (info : NamedActorInfo) : Prop := {
  wf_dom : dom (instances info) ⊆ instance_nodes info;
  wf_own : map_Forall (λ n i, i_node_id i = n) (instances info);
  wf_version : is_u64 (version info)
}.

Lemma with_instance_wf p n : info_wf (info_with_instance p n).
Proof. split; simpl; [set_solver|apply map_Forall_empty|auto with pulsing]. Qed.

Lemma with_full_instance_wf p i : info_wf (with_full_instance p i).
Proof.
  split; simpl; [set_solver| |auto with pulsing]. by apply map_Forall_singleton.
Qed.

Lemma add_instance_wf n info : info_wf info → info_wf (add_instance n info).
Proof.
  intros [Hd Ho Hv]. unfold add_instance. case_bool_decide; [done|].
  split; simpl; [set_solver|done|auto with pulsing].
Qed.

Lemma add_full_instance_wf i info : info_wf info → info_wf (add_full_instance i info).
Proof.
  intros [Hd Ho Hv]. split; simpl; [set_solver| |auto with pulsing].
  by apply map_Forall_insert_2.
Qed.

Lemma remove_instance_fields n info :
  let info' := (remove_instance n info).2 in
  path info' = path info ∧ instances info' = delete n (instances info) ∧
  instance_nodes info' = instance_nodes info ∖ {[n]}.
Proof. unfold remove_instance. by case_match. Qed.

Lemma remove_instance_wf n info : info_wf info → info_wf (remove_instance n info).2.
Proof.
  intros [Hd Ho Hv]. pose proof (remove_instance_fields n info) as (Hp & Hi & Hn).
  split; rewrite ?Hi, ?Hn.
  - rewrite dom_delete_L. set_solver.
  - by apply map_Forall_delete.
  - unfold remove_instance. case_match; simpl; auto with pulsing.
Qed.

Lemma merge_info_wf a b : info_wf a → info_wf b → info_wf (merge_info a b).
Proof.
  intros [Hd Ho Hv] [Hd' Ho' Hv']. split.
  - rewrite merge_info_instances, merge_info_nodes, dom_union_L. set_solver.
  - rewrite merge_info_instances. intros n i [Hl|[_ Hl]]%lookup_union_Some_raw; eauto.
  - unfold merge_info. simpl. auto with pulsing.
Qed.

(** Merging two records of a named actor joins their node sets: this part
    is associative, commutative and idempotent, so gossip can deliver records
    in any order and any number of times. The details of an instance known to
    both sides are taken from the argument, and the version moves past both,
    even when a record is merged with itself. *)
Theorem merge_info_join a b c :
  instance_nodes (merge_info a (merge_info b c)) = instance_nodes (merge_info (merge_info a b) c) ∧
  instance_nodes (merge_info a b) = instance_nodes (merge_info b a) ∧
  instance_nodes (merge_info a a) = instance_nodes a ∧
  (∀ n, get_instance (merge_info a b) n =
        match get_instance b n with Some i => Some i | None => get_instance a n end) ∧
  (is_u64 (version a) → is_u64 (version b) → Z.max (version a) (version b) + 1 < two64 →
   version a < version (merge_info a b) ∧ version b < version (merge_info a b)).
Proof.
  split_and!; rewrite ?merge_info_nodes; [set_solver|set_solver|set_solver| |].
  - intros n. unfold get_instance. rewrite merge_info_instances, lookup_union.
    destruct (instances b !! n), (instances a !! n); done.
  - intros Ha Hb Hlt. unfold merge_info. simpl. rewrite u64_succ; [lia|by apply u64_max|done].
Qed.

(** ** The table *)
Definition entry_wf (k : list Z) (info : NamedActorInfo) : Prop :=
  k = as_str (path info) ∧ info_wf info ∧ is_empty info = false.
Definition table_wf (t : NamedTable) : Prop := map_Forall entry_wf t.

(** The nodes where a path has an instance, and the details of one. *)
Definition nodes_of (p : ActorPath) (t : NamedTable) : gset Z :=
  from_option instance_nodes ∅ (t !! as_str p).
Definition instance_of (p : ActorPath) (n : NodeId) (t : NamedTable) : option NamedActorInstance :=
  info ← t !! as_str p; get_instance info n.

Lemma is_empty_false n info : n ∈ instance_nodes info → is_empty info = false.
Proof.
  intros Hn. unfold is_empty. rewrite bool_decide_false; [done|]. set_solver.
Qed.

Lemma is_empty_nodes info : info_wf info → is_empty info = bool_decide (instance_nodes info = ∅).
Proof.
  intros [Hd _ _]. unfold is_empty. case_bool_decide as Hn; [simpl|done].
  apply bool_decide_true. apply dom_empty_inv_L. set_solver.
Qed.

Lemma add_instance_nodes n info :
  instance_nodes (add_instance n info) = {[n]} ∪ instance_nodes info ∧
  instances (add_instance n info) = instances info ∧ path (add_instance n info) = path info.
Proof. unfold add_instance. case_bool_decide; split_and!; [set_solver|done..]. Qed.

Lemma table_insert_wf k info t :
  table_wf t → entry_wf k info → table_wf (<[k := info]> t).
Proof. intros Ht He. by apply map_Forall_insert_2. Qed.

Lemma register_full_wf p i t : table_wf t → table_wf (register_full p i t).
Proof.
  intros Ht. unfold register_full. destruct (t !! as_str p) as [info|] eqn:E; (apply table_insert_wf; [exact Ht|]).
  - destruct (Ht _ _ E) as (Hk & Hw & _). split_and!; [done|by apply add_full_instance_wf|].
    apply (is_empty_false (i_node_id i)). simpl. set_solver.
  - split_and!; [done|apply with_full_instance_wf|]. apply (is_empty_false (i_node_id i)). simpl. set_solver.
Qed.

Lemma register_legacy_wf p n t : table_wf t → table_wf (register_legacy p n t).
Proof.
  intros Ht. unfold register_legacy. destruct (t !! as_str p) as [info|] eqn:E; (apply table_insert_wf; [exact Ht|]).
  - destruct (Ht _ _ E) as (Hk & Hw & _). destruct (add_instance_nodes n info) as (Hn & _ & Hp).
    split_and!; [by rewrite Hp|by apply add_instance_wf|]. apply (is_empty_false n). rewrite Hn. set_solver.
  - split_and!; [done|apply with_instance_wf|]. apply (is_empty_false n). simpl. set_solver.
Qed.

Lemma unregister_wf p n t : table_wf t → table_wf (unregister p n t).
Proof.
  intros Ht. unfold unregister. destruct (t !! as_str p) as [info|] eqn:E; [|done].
  destruct (Ht _ _ E) as (Hk & Hw & _). case_match eqn:Hem; [by apply map_Forall_delete|].
  apply table_insert_wf; [done|]. pose proof (remove_instance_fields n info) as (Hp & _ & _).
  split_and!; [by rewrite Hp|by apply remove_instance_wf|done].
Qed.

(** Between removing a node and retaining, records may be empty. *)
Definition table_pre (t : NamedTable) : Prop :=
  map_Forall (λ k info, k = as_str (path info) ∧ info_wf info) t.

Lemma table_wf_pre t : table_wf t → table_pre t.
Proof. intros Ht k info Hl. destruct (Ht _ _ Hl) as (? & ? & _). done. Qed.

Lemma remove_node_everywhere_pre n t : table_pre t → table_pre (remove_node_everywhere n t).
Proof.
  intros Ht k info. unfold remove_node_everywhere. rewrite lookup_fmap.
  destruct (t !! k) as [info0|] eqn:E; intros ?; simplify_eq/=. destruct (Ht _ _ E) as (-> & Hw).
  pose proof (remove_instance_fields n info0) as (Hp & _ & _). rewrite Hp.
  split; [done|by apply remove_instance_wf].
Qed.

Lemma retain_non_empty_wf t : table_pre t → table_wf (retain_non_empty t).
Proof. intros Ht k info [Hl Hem]%map_lookup_filter_Some. by destruct (Ht _ _ Hl). Qed.

Lemma nodes_of_register_full p i t q :
  nodes_of q (register_full p i t) =
  if decide (as_str p = as_str q) then {[i_node_id i]} ∪ nodes_of q t else nodes_of q t.
Proof.
  unfold register_full, nodes_of.
  destruct (t !! as_str p) eqn:E; rewrite lookup_insert; case_decide as Hpq; try done;
    rewrite <- Hpq, E; simpl; set_solver.
Qed.

Lemma instance_of_register_full p i t q n :
  instance_of q n (register_full p i t) =
  if decide (as_str p = as_str q ∧ i_node_id i = n) then Some i else instance_of q n t.
Proof.
  unfold register_full, instance_of, get_instance.
  destruct (t !! as_str p) eqn:E; rewrite lookup_insert; repeat case_decide; try naive_solver;
    destruct_and?; simpl; simplify_eq.
  - by rewrite lookup_insert_eq.
  - match goal with H : as_str p = as_str q |- _ => rewrite <- H, E end. simpl.
    rewrite lookup_insert_ne; [done|naive_solver].
  - by rewrite lookup_singleton_eq.
  - match goal with H : as_str p = as_str q |- _ => rewrite <- H, E end. simpl.
    rewrite lookup_singleton_ne; [done|naive_solver].
Qed.

Lemma nodes_of_register_legacy p n t q :
  nodes_of q (register_legacy p n t) =
  if decide (as_str p = as_str q) then {[n]} ∪ nodes_of q t else nodes_of q t.
Proof.
  unfold register_legacy, nodes_of.
  destruct (t !! as_str p) as [info|] eqn:E; rewrite lookup_insert; case_decide as Hpq; try done;
    rewrite <- Hpq, E; simpl; [apply add_instance_nodes|set_solver].
Qed.

Lemma nodes_of_unregister p n t q :
  table_wf t →
  nodes_of q (unregister p n t) =
  if decide (as_str p = as_str q) then nodes_of q t ∖ {[n]} else nodes_of q t.
Proof.
  intros Ht. unfold unregister, nodes_of. destruct (t !! as_str p) as [info|] eqn:E.
  - pose proof (remove_instance_fields n info) as (_ & _ & Hn).
    destruct (Ht _ _ E) as (_ & Hw & _). apply (remove_instance_wf n) in Hw.
    pose proof (is_empty_nodes _ Hw) as Hem. rewrite Hem. case_bool_decide as He.
    + rewrite lookup_delete. case_decide as Hpq; [|done]. rewrite <- Hpq, E. simpl. set_solver.
    + rewrite lookup_insert. case_decide as Hpq; [|done]. rewrite <- Hpq, E. simpl. set_solver.
  - case_decide as Hpq; [|done]. rewrite <- Hpq, E. set_solver.
Qed.

Lemma nodes_of_remove_node n t q :
  table_wf t →
  nodes_of q (retain_non_empty (remove_node_everywhere n t)) = nodes_of q t ∖ {[n]}.
Proof.
  intros Ht. unfold nodes_of, retain_non_empty, remove_node_everywhere.
  rewrite map_lookup_filter, lookup_fmap. destruct (t !! as_str q) as [info|] eqn:E; simpl; [|set_solver].
  pose proof (remove_instance_fields n info) as (_ & _ & Hn).
  destruct (Ht _ _ E) as (_ & Hw & _). apply (remove_instance_wf n) in Hw.
  pose proof (is_empty_nodes _ Hw) as Hem.
  case_guard as Hg; simpl; [done|]. rewrite Hem in Hg. case_bool_decide; [|done]. set_solver.
Qed.
#[export] Hint Resolve register_full_wf register_legacy_wf unregister_wf table_wf_pre remove_node_everywhere_pre
  retain_non_empty_wf : pulsing.
