(* ===== verification/Gossip.v ===== *)
(** * The gossip cluster

    [cluster/gossip.rs]: the state shared by the gossip tasks of one node, the
    handler of incoming messages, the registration and query API, and the
    bodies of the background loops. Clock readings, random draws and the
    network are arguments. Calls to the exposed membership table are logged in
    order in [members_log]. *)
From S2P Require Import Prelude Text Address Member.

(** src: crates/pulsing-actor/src/cluster/gossip.rs 29-36 fix_addr *)
Definition fix_addr (a : SocketAddr) (peer_ip : IpAddr) : SocketAddr :=
  if is_unspecified (ip a) then mk_addr peer_ip (port a) else a.

(** Durations are in milliseconds; [swim] is flattened to the two fields the
    gossip code reads.
    src: crates/pulsing-actor/src/cluster/gossip.rs 38-51 GossipConfig *)
Record GossipConfig := mk_config {
  gossip_interval : Z; fanout : nat; seed_probe_count : nat; seed_probe_interval : Z;
  seed_rejoin_interval : option Z; failure_timeout : Z; cleanup_grace_period : Z;
  tombstone_retention : Z; recovery_observation_window : Z;
  swim_ping_interval : Z; swim_suspicion_timeout : Z }.

(** src: crates/pulsing-actor/src/cluster/gossip.rs 53-68 GossipConfig::default *)
Definition default_config : GossipConfig :=
  mk_config 200 3 3 100 (Some 15000) 15000 60000 300000 30000 500 15000.

(** src: crates/pulsing-actor/src/cluster/gossip.rs 70-118 GossipMessage *)
Inductive GossipMessage :=
  | Meet (from : NodeId) (from_addr : SocketAddr) (current_epoch : Z)
  | Ping (from : NodeId) (current_epoch : Z) (partial_view : list ClusterNode)
         (failures : list FailureInfo) (named_actors : option (list NamedActorInfo))
  | Pong (from : NodeId) (current_epoch : Z) (partial_view : list ClusterNode)
         (failures : list FailureInfo) (named_actors : option (list NamedActorInfo))
  | ActorRegistered (location : ActorLocation)
  | ActorUnregistered (actor_id : ActorId)
  | NamedActorRegistered (p : ActorPath) (node : NodeId) (actor_id : option ActorId)
                         (md : gmap (list Z) (list Z))
  | NamedActorUnregistered (p : ActorPath) (node : NodeId)
  | NamedActorFailed (p : ActorPath) (node : NodeId) (reason : list Z).

(** A call to the membership table of [members_store.rs].
    src: crates/pulsing-actor/src/members_store.rs 41-58 upsert_member, remove_member *)
Inductive MemberCall :=
  | Upsert (id : NodeId) (a : SocketAddr) (s : NodeStatus) (e : Z)
  | RemoveMember (id : NodeId).

(** src: crates/pulsing-actor/src/cluster/gossip.rs 120-129 ClusterState *)
Record ClusterState := mk_state {
  local_node : NodeId;
  local_addr : SocketAddr;
  cluster_nodes : gmap Z ClusterNode;
  named_actors : gmap (list Z) NamedActorInfo;
  actors : gmap Z Z;
  seed_addrs : list SocketAddr;
  current_epoch : Z;
  members_log : list MemberCall }.

(** src: crates/pulsing-actor/src/cluster/gossip.rs 132-145 ClusterState::new *)
Definition ClusterState_new (now : Z) (id : NodeId) (a : SocketAddr) : ClusterState :=
  mk_state id a {[id := ClusterNode_new now id a 0]} ∅ ∅ [] 0 [].

Definition set_nodes (ns : gmap Z ClusterNode) (st : ClusterState) : ClusterState :=
  mk_state (local_node st) (local_addr st) ns (named_actors st) (actors st) (seed_addrs st)
    (current_epoch st) (members_log st).
Definition set_named (t : gmap (list Z) NamedActorInfo) (st : ClusterState) : ClusterState :=
  mk_state (local_node st) (local_addr st) (cluster_nodes st) t (actors st) (seed_addrs st)
    (current_epoch st) (members_log st).
Definition set_actors (m : gmap Z Z) (st : ClusterState) : ClusterState :=
  mk_state (local_node st) (local_addr st) (cluster_nodes st) (named_actors st) m (seed_addrs st)
    (current_epoch st) (members_log st).
Definition set_seeds (l : list SocketAddr) (st : ClusterState) : ClusterState :=
  mk_state (local_node st) (local_addr st) (cluster_nodes st) (named_actors st) (actors st) l
    (current_epoch st) (members_log st).
Definition log_member (c : MemberCall) (st : ClusterState) : ClusterState :=
  mk_state (local_node st) (local_addr st) (cluster_nodes st) (named_actors st) (actors st)
    (seed_addrs st) (current_epoch st) (members_log st ++ [c]).
Definition put_node (n : ClusterNode) (st : ClusterState) : ClusterState :=
  set_nodes (<[node_id n := n]> (cluster_nodes st)) st.

(** src: crates/pulsing-actor/src/cluster/gossip.rs 151-153 increment_epoch *)
Definition increment_epoch (st : ClusterState) : ClusterState * Z :=
  let e := current_epoch st +w 1 in
  (mk_state (local_node st) (local_addr st) (cluster_nodes st) (named_actors st) (actors st)
     (seed_addrs st) e (members_log st), e).

(** The statements every status change made by this node shares: the status is
    set, a fresh epoch is drawn for it and the table is told. [id] is the key
    [n] was found under.
    src: crates/pulsing-actor/src/cluster/gossip.rs 1113-1116 (status change) *)
Definition change_status (id : NodeId) (s : NodeStatus) (n : ClusterNode) (st : ClusterState) : ClusterState :=
  let '(st, e) := increment_epoch st in
  log_member (Upsert id (addr n) s e)
    (set_nodes (<[id := mk_node (node_id n) (addr n) s e (last_seen n)]> (cluster_nodes st)) st).

(** ** Views sent to peers *)

(** src: crates/pulsing-actor/src/cluster/gossip.rs 156-169 get_partial_view *)
Definition get_partial_view `{Oracle} (count : nat) (st : ClusterState) : list ClusterNode :=
  take count (shuffle (filter (λ n, status n ≠ Fail) (hm_values (cluster_nodes st)))).

(** src: crates/pulsing-actor/src/cluster/gossip.rs 172-184 get_failures *)
Definition get_failures `{Oracle} (st : ClusterState) : list FailureInfo :=
  (λ n, mk_failure (node_id n) (status n) (epoch n) (local_node st)) <$>
    filter (λ n, status n = PFail ∨ status n = Fail) (hm_values (cluster_nodes st)).

(** src: crates/pulsing-actor/src/cluster/gossip.rs 187-196 get_partial_named_actors *)
Definition get_partial_named_actors `{Oracle} (count : nat) (st : ClusterState) : list NamedActorInfo :=
  take count (shuffle (hm_values (named_actors st))).

(** ** Merging what peers send *)

(** src: crates/pulsing-actor/src/cluster/gossip.rs 199-249 merge_node *)
Definition merge_node (remote : ClusterNode) (peer_addr : SocketAddr) (st : ClusterState) : ClusterState :=
  let fixed_addr := fix_addr (addr remote) (ip peer_addr) in
  let new := mk_node (node_id remote) fixed_addr (status remote) (epoch remote) (last_seen remote) in
  let call := Upsert (node_id remote) fixed_addr (status remote) (epoch remote) in
  match cluster_nodes st !! node_id remote with
  | Some existing =>
      if (epoch existing <? epoch remote)
         || ((epoch remote =? epoch existing) && status_gtb (status remote) (status existing))
      then
        let st := put_node new st in
        if bool_decide (status existing ≠ status remote) then log_member call st else st
      else st
  | None => log_member call (put_node new st)
  end.

(** src: crates/pulsing-actor/src/cluster/gossip.rs 252-266 handle_failure *)
Definition handle_failure (f : FailureInfo) (st : ClusterState) : ClusterState :=
  match cluster_nodes st !! f_node_id f with
  | Some n =>
      if (epoch n <=? f_epoch f) && status_gtb (f_status f) (status n)
      then
        let n' := mk_node (node_id n) (addr n) (f_status f) (f_epoch f) (last_seen n) in
        log_member (Upsert (f_node_id f) (addr n) (f_status f) (f_epoch f))
          (set_nodes (<[f_node_id f := n']> (cluster_nodes st)) st)
      else st
  | None => st
  end.

(** src: crates/pulsing-actor/src/cluster/gossip.rs 271-278 merge_named_actors (loop body) *)
Definition merge_named_actor (t : NamedTable) (info : NamedActorInfo) : NamedTable :=
  let key := as_str (path info) in
  match t !! key with
  | Some existing => <[key := merge_info existing info]> t
  | None => <[key := info]> t
  end.

(** src: crates/pulsing-actor/src/cluster/gossip.rs 269-279 merge_named_actors *)
Definition merge_named_actors (remote : list NamedActorInfo) (st : ClusterState) : ClusterState :=
  set_named (foldl merge_named_actor (named_actors st) remote) st.

(** src: crates/pulsing-actor/src/cluster/gossip.rs 282-300 touch_node *)
Definition touch_node (now : Z) (id : NodeId) (st : ClusterState) : ClusterState :=
  match cluster_nodes st !! id with
  | Some n =>
      let n := mk_node (node_id n) (addr n) (status n) (epoch n) now in
      let st := set_nodes (<[id := n]> (cluster_nodes st)) st in
      if can_recover (status n) then change_status id Online n st else st
  | None => st
  end.

(** src: crates/pulsing-actor/src/cluster/gossip.rs 303-318 node_to_member *)
Definition node_to_member (n : ClusterNode) : MemberInfo :=
  let s := match status n with
           | Online | Handshake => Alive
           | Tombstone => Dead
           | PFail => Suspect
           | Fail => Dead
           end in
  mk_member (node_id n) (addr n) (addr n) s (epoch n) None.

(** The views and failures of a [Ping] or [Pong] are merged one at a time, each
    under its own lock. *)
Definition merge_nodes (view : list ClusterNode) (peer : SocketAddr) (st : ClusterState) : ClusterState :=
  foldl (λ st n, merge_node n peer st) st view.
Definition handle_failures (fs : list FailureInfo) (st : ClusterState) : ClusterState :=
  foldl (λ st f, handle_failure f st) st fs.

(** src: crates/pulsing-actor/src/cluster/gossip.rs 549-557 handle_gossip (Pong body) *)
Definition merge_views (view : list ClusterNode) (fs : list FailureInfo)
    (named : option (list NamedActorInfo)) (peer : SocketAddr) (st : ClusterState) : ClusterState :=
  let st := merge_nodes view peer st in
  let st := handle_failures fs st in
  match named with Some infos => merge_named_actors infos st | None => st end.

(** ** Handling a message *)

(** src: crates/pulsing-actor/src/cluster/gossip.rs 455-492 handle_gossip (Meet) *)
Definition handle_meet (now : Z) (from : NodeId) (from_addr : SocketAddr) (e : Z)
    (peer_addr : SocketAddr) (st : ClusterState) : ClusterState :=
  let fixed_addr := fix_addr from_addr (ip peer_addr) in
  match cluster_nodes st !! from with
  | Some n =>
      let e' := if epoch n <? e then e else epoch n in
      let n' s := mk_node (node_id n) fixed_addr s e' now in
      if bool_decide (status n ≠ Online)
      then log_member (Upsert from fixed_addr Online e')
             (set_nodes (<[from := n' Online]> (cluster_nodes st)) st)
      else set_nodes (<[from := n' (status n)]> (cluster_nodes st)) st
  | None =>
      log_member (Upsert from fixed_addr Online e)
        (set_nodes (<[from := mk_node from fixed_addr Online e now]> (cluster_nodes st)) st)
  end.

(** src: crates/pulsing-actor/src/cluster/gossip.rs 531-537 handle_gossip (Ping reply) *)
Definition pong `{Oracle} (named : list NamedActorInfo) (st : ClusterState) : GossipMessage :=
  Pong (local_node st) (current_epoch st) (get_partial_view 10 st) (get_failures st) (Some named).

(** The table change of a [NamedActorRegistered].
    src: crates/pulsing-actor/src/cluster/gossip.rs 575-598 handle_gossip (NamedActorRegistered) *)
Definition handle_named_registered (p : ActorPath) (node : NodeId) (actor_id : option ActorId)
    (md : gmap (list Z) (list Z)) (st : ClusterState) : ClusterState :=
  match actor_id with
  | Some aid => set_named (register_full p (with_metadata node aid md) (named_actors st)) st
  | None => set_named (register_legacy p node (named_actors st)) st
  end.

(** src: crates/pulsing-actor/src/cluster/gossip.rs 444-627 handle_gossip *)
Definition handle_gossip `{Oracle} (now : Z) (msg : GossipMessage) (peer_addr : SocketAddr)
    (st : ClusterState) : ClusterState * option GossipMessage :=
  match msg with
  | Meet from from_addr e =>
      let st := handle_meet now from from_addr e peer_addr st in
      (st, Some (pong (hm_values (named_actors st)) st))
  | Ping from _ view fs named =>
      let st := touch_node now from st in
      let st := merge_views view fs named peer_addr st in
      (st, Some (pong (get_partial_named_actors 10 st) st))
  | Pong from _ view fs named =>
      let st := touch_node now from st in
      (merge_views view fs named peer_addr st, None)
  | ActorRegistered loc => (set_actors (<[l_actor_id loc := l_node_id loc]> (actors st)) st, None)
  | ActorUnregistered aid => (set_actors (delete aid (actors st)) st, None)
  | NamedActorRegistered p node aid md => (handle_named_registered p node aid md st, None)
  | NamedActorUnregistered p node => (set_named (unregister p node (named_actors st)) st, None)
  | NamedActorFailed p node _ => (set_named (unregister p node (named_actors st)) st, None)
  end.

(** ** Member queries *)

(** src: crates/pulsing-actor/src/cluster/gossip.rs 819-827 all_members *)
Definition all_members `{Oracle} (st : ClusterState) : list MemberInfo :=
  node_to_member <$> hm_values (cluster_nodes st).
(** src: crates/pulsing-actor/src/cluster/gossip.rs 829-838 alive_members *)
Definition alive_members `{Oracle} (st : ClusterState) : list MemberInfo :=
  node_to_member <$>
    filter (λ n, status n = Online ∧ node_id n ≠ local_node st) (hm_values (cluster_nodes st)).
(** src: crates/pulsing-actor/src/cluster/gossip.rs 840-847 get_member *)
Definition get_member (id : NodeId) (st : ClusterState) : option MemberInfo :=
  node_to_member <$> cluster_nodes st !! id.

(** ** Sending

    [encode] and [decode] are [bincode]; [send] is [transport.send_gossip]:
    given how many sends came before it, an address and a payload, it yields
    the peer's response if there is one. *)
Definition payload := list Z.
Class Codec : Type := {
  encode : GossipMessage → option payload;
  decode : payload → option GossipMessage;
  decode_encode : ∀ m b, encode m = Some b → decode b = Some m
}.
Definition Network : Type := nat → SocketAddr → payload → option payload.

(** The sends a call makes, in order.
    src: crates/pulsing-actor/src/cluster/gossip.rs 933-949 broadcast *)
Definition broadcast `{Oracle, Codec} (cfg : GossipConfig) (msg : GossipMessage) (st : ClusterState)
    : list (SocketAddr * payload) :=
  match encode msg with
  | Some b =>
      let members := alive_members st in
      (λ m, (m_addr m, b)) <$> take (Nat.min (fanout cfg) (length members)) (shuffle members)
  | None => []
  end.

(** ** Actor registry *)

(** src: crates/pulsing-actor/src/cluster/gossip.rs 633-643 register_actor *)
Definition register_actor `{Oracle, Codec} (cfg : GossipConfig) (a : ActorId) (st : ClusterState) :=
  let st := set_actors (<[a := local_node st]> (actors st)) st in
  (st, broadcast cfg (ActorRegistered (ActorLocation_new a (local_node st))) st).

(** src: crates/pulsing-actor/src/cluster/gossip.rs 645-651 unregister_actor *)
Definition unregister_actor `{Oracle, Codec} (cfg : GossipConfig) (a : ActorId) (st : ClusterState) :=
  let st := set_actors (delete a (actors st)) st in
  (st, broadcast cfg (ActorUnregistered a) st).

(** src: crates/pulsing-actor/src/cluster/gossip.rs 653-656 lookup_actor *)
Definition lookup_actor (a : ActorId) (st : ClusterState) : option MemberInfo :=
  n ← actors st !! a; get_member n st.

(** src: crates/pulsing-actor/src/cluster/gossip.rs 663-686 register_named_actor_full *)
Definition register_named_actor_full `{Oracle, Codec} (cfg : GossipConfig) (p : ActorPath)
    (a : ActorId) (md : gmap (list Z) (list Z)) (st : ClusterState) :=
  let instance := with_metadata (local_node st) a md in
  let st := set_named (register_full p instance (named_actors st)) st in
  (st, broadcast cfg (NamedActorRegistered p (local_node st) (Some a) md) st).

(** src: crates/pulsing-actor/src/cluster/gossip.rs 689-707 register_named_actor *)
Definition register_named_actor `{Oracle, Codec} (cfg : GossipConfig) (p : ActorPath) (st : ClusterState) :=
  let st := set_named (register_legacy p (local_node st) (named_actors st)) st in
  (st, broadcast cfg (NamedActorRegistered p (local_node st) None ∅) st).

(** src: crates/pulsing-actor/src/cluster/gossip.rs 709-735 unregister_named_actor *)
Definition unregister_named_actor `{Oracle, Codec} (cfg : GossipConfig) (p : ActorPath) (st : ClusterState) :=
  let actor_id := i_actor_id <$> instance_of p (local_node st) (named_actors st) in
  let st := set_named (unregister p (local_node st) (named_actors st)) st in
  let '(st, out) := match actor_id with Some a => unregister_actor cfg a st | None => (st, []) end in
  (st, out ++ broadcast cfg (NamedActorUnregistered p (local_node st)) st).

(** src: crates/pulsing-actor/src/cluster/gossip.rs 737-744 broadcast_named_actor_failed *)
Definition broadcast_named_actor_failed `{Oracle, Codec} (cfg : GossipConfig) (p : ActorPath)
    (reason : list Z) (st : ClusterState) :=
  broadcast cfg (NamedActorFailed p (local_node st) reason) st.

(** src: crates/pulsing-actor/src/cluster/gossip.rs 746-753 lookup_named_actor *)
Definition lookup_named_actor (p : ActorPath) (st : ClusterState) : option NamedActorInfo :=
  named_actors st !! as_str p.

(** src: crates/pulsing-actor/src/cluster/gossip.rs 755-761 select_named_actor_instance *)
Definition select_named_actor_instance `{Oracle} (p : ActorPath) (st : ClusterState) : option MemberInfo :=
  info ← named_actors st !! as_str p;
  n ← select_instance info;
  get_member n st.

(** src: crates/pulsing-actor/src/cluster/gossip.rs 763-777 get_named_actor_instances *)
Definition get_named_actor_instances (p : ActorPath) (st : ClusterState) : list MemberInfo :=
  match named_actors st !! as_str p with
  | Some info => omap (λ n, get_member n st) (elements (instance_nodes info))
  | None => []
  end.

(** src: crates/pulsing-actor/src/cluster/gossip.rs 780-803 get_named_actor_instances_detailed *)
Definition get_named_actor_instances_detailed (p : ActorPath) (st : ClusterState)
    : list (MemberInfo * option NamedActorInstance) :=
  match named_actors st !! as_str p with
  | Some info =>
      omap (λ n, (λ m, (m, instances info !! n)) <$> get_member n st) (elements (instance_nodes info))
  | None => []
  end.

(** src: crates/pulsing-actor/src/cluster/gossip.rs 805-813 all_named_actors *)
Definition all_named_actors `{Oracle} (st : ClusterState) : list NamedActorInfo :=
  hm_values (named_actors st).

(** ** Marking failures by hand *)

(** src: crates/pulsing-actor/src/cluster/gossip.rs 878-889 mark_pfail *)
Definition mark_pfail (id : NodeId) (st : ClusterState) : ClusterState :=
  match cluster_nodes st !! id with
  | Some n => if bool_decide (status n = Online) then change_status id PFail n st else st
  | None => st
  end.

(** src: crates/pulsing-actor/src/cluster/gossip.rs 891-902 mark_fail *)
Definition mark_fail (id : NodeId) (st : ClusterState) : ClusterState :=
  match cluster_nodes st !! id with
  | Some n => if bool_decide (status n ≠ Fail) then change_status id Fail n st else st
  | None => st
  end.

(** src: crates/pulsing-actor/src/cluster/gossip.rs 904-923 check_pfail_to_fail *)
Definition check_pfail_to_fail `{Oracle} (cfg : GossipConfig) (now : Z) (st : ClusterState) : ClusterState :=
  let pfail_nodes := (λ n, (node_id n, last_seen n)) <$>
                       filter (λ n, status n = PFail) (hm_values (cluster_nodes st)) in
  foldl (λ st '(id, seen),
           if swim_suspicion_timeout cfg <? saturating_sub now seen then mark_fail id st else st)
    st pfail_nodes.

(** ** The failure detector *)

(** What the scan of [detect_failures] decides for one node, by the list it
    pushes the node on. *)
Inductive Verdict := ToPFail | ToFail | ToTombstone | ToRemove | ToRecover | Keep.
#[export] Instance Verdict_eq_dec : EqDecision Verdict.
Proof. solve_decision. Defined.

(** src: crates/pulsing-actor/src/cluster/gossip.rs 1073-1103 detect_failures (match) *)
Definition classify (cfg : GossipConfig) (now : Z) (n : ClusterNode) : Verdict :=
  let elapsed := saturating_sub now (last_seen n) in
  match status n with
  | Online => if failure_timeout cfg <? elapsed then ToPFail else Keep
  | PFail => if swim_suspicion_timeout cfg <? elapsed then ToFail else Keep
  | Fail =>
      if elapsed <=? recovery_observation_window cfg then ToRecover
      else if cleanup_grace_period cfg <? elapsed then ToTombstone else Keep
  | Tombstone =>
      if elapsed <=? recovery_observation_window cfg then ToRecover
      else if tombstone_retention cfg <? elapsed then ToRemove else Keep
  | Handshake => Keep
  end.

(** src: crates/pulsing-actor/src/cluster/gossip.rs 1060-1105 detect_failures (scan) *)
Definition scan `{Oracle} (cfg : GossipConfig) (now : Z) (v : Verdict) (st : ClusterState) : list NodeId :=
  node_id <$> filter (λ n, node_id n ≠ local_node st ∧ classify cfg now n = v)
                (hm_values (cluster_nodes st)).

(** src: crates/pulsing-actor/src/cluster/gossip.rs 1108-1125 detect_failures (recover) *)
Definition recover_node (id : NodeId) (st : ClusterState) : ClusterState :=
  match cluster_nodes st !! id with
  | Some n => if can_recover (status n) then change_status id Online n st else st
  | None => st
  end.

(** src: crates/pulsing-actor/src/cluster/gossip.rs 1128-1143 detect_failures (mark PFail) *)
Definition suspect_node (id : NodeId) (st : ClusterState) : ClusterState := mark_pfail id st.

(** src: crates/pulsing-actor/src/cluster/gossip.rs 1146-1161 detect_failures (mark Fail) *)
Definition fail_node (id : NodeId) (st : ClusterState) : ClusterState :=
  match cluster_nodes st !! id with
  | Some n => if bool_decide (status n = PFail) then change_status id Fail n st else st
  | None => st
  end.

(** src: crates/pulsing-actor/src/cluster/gossip.rs 1168-1190 detect_failures (tombstone) *)
Definition tombstone_node (id : NodeId) (st : ClusterState) : ClusterState :=
  match cluster_nodes st !! id with
  | Some n =>
      if bool_decide (status n = Fail)
      then let st := change_status id Tombstone n st in
           set_named (remove_node_everywhere id (named_actors st)) st
      else st
  | None => st
  end.

(** The locks are held over the whole block.
    src: crates/pulsing-actor/src/cluster/gossip.rs 1163-1192 detect_failures (tombstone block) *)
Definition tombstone_block (ids : list NodeId) (st : ClusterState) : ClusterState :=
  match ids with
  | [] => st
  | _ =>
      let st := foldl (λ st id, tombstone_node id st) st ids in
      set_named (retain_non_empty (named_actors st)) st
  end.

(** src: crates/pulsing-actor/src/cluster/gossip.rs 1198-1209 detect_failures (remove) *)
Definition remove_node (id : NodeId) (st : ClusterState) : ClusterState :=
  match cluster_nodes st !! id with
  | Some n =>
      if bool_decide (status n = Tombstone)
      then set_nodes (delete id (cluster_nodes st)) (log_member (RemoveMember id) st)
      else st
  | None => st
  end.

(** src: crates/pulsing-actor/src/cluster/gossip.rs 1052-1211 detect_failures *)
Definition detect_failures `{Oracle} (cfg : GossipConfig) (now : Z) (st : ClusterState) : ClusterState :=
  let pfail_nodes := scan cfg now ToPFail st in
  let fail_nodes := scan cfg now ToFail st in
  let tombstone_nodes := scan cfg now ToTombstone st in
  let remove_nodes := scan cfg now ToRemove st in
  let recover_nodes := scan cfg now ToRecover st in
  let st := foldl (λ st id, recover_node id st) st recover_nodes in
  let st := foldl (λ st id, suspect_node id st) st pfail_nodes in
  let st := foldl (λ st id, fail_node id st) st fail_nodes in
  let st := tombstone_block tombstone_nodes st in
  foldl (λ st id, remove_node id st) st remove_nodes.

(** ** Rounds that talk to peers *)

(** The message of a round.
    src: crates/pulsing-actor/src/cluster/gossip.rs 996-1002 gossip_round (Ping) *)
Definition ping `{Oracle} (st : ClusterState) : GossipMessage :=
  Ping (local_node st) (current_epoch st) (get_partial_view 10 st) (get_failures st)
    (Some (get_partial_named_actors 10 st)).

(** Send to one target and merge a [Pong]; the sender is not touched.
    src: crates/pulsing-actor/src/cluster/gossip.rs 1008-1029 gossip_round (target) *)
Definition exchange `{Codec} (net : Network) (b : payload) (k : nat) (target : SocketAddr) (st : ClusterState) : ClusterState :=
  match net k target b with
  | Some resp =>
      match decode resp with
      | Some (Pong _ _ view fs named) => merge_views view fs named target st
      | _ => st
      end
  | None => st
  end.

Definition exchange_all `{Codec} (net : Network) (b : payload) (targets : list SocketAddr) (st : ClusterState) : ClusterState :=
  foldl (λ st '(k, t), exchange net b k t st) st (imap pair targets).

(** src: crates/pulsing-actor/src/cluster/gossip.rs 977-1030 gossip_round *)
Definition gossip_round `{Oracle, Codec} (cfg : GossipConfig) (net : Network) (st : ClusterState) : ClusterState :=
  let online := filter (λ n, status n = Online ∧ node_id n ≠ local_node st) (hm_values (cluster_nodes st)) in
  match online with
  | [] => st
  | _ =>
      let targets := take (fanout cfg) (shuffle online) in
      match encode (ping st) with
      | None => st
      | Some b => exchange_all net b (addr <$> targets) st
      end
  end.

(** src: crates/pulsing-actor/src/cluster/gossip.rs 1236-1275 probe_seeds *)
Definition probe_seeds `{Oracle, Codec} (net : Network) (st : ClusterState) : ClusterState :=
  match seed_addrs st with
  | [] => st
  | seeds =>
      match encode (ping st) with
      | None => st
      | Some b => exchange_all net b seeds st
      end
  end.

(** One probe of every seed; [now k] is the clock at the [k]-th send.
    src: crates/pulsing-actor/src/cluster/gossip.rs 388-394 join (seeds) *)
Definition probe_once `{Oracle, Codec} (net : Network) (now : nat → Z) (b : payload) (k0 : nat)
    (seeds : list SocketAddr) (st : ClusterState) : ClusterState :=
  foldl (λ st '(i, a),
           match net (k0 + i)%nat a b with
           | Some resp =>
               match decode resp with
               | Some m => (handle_gossip (now (k0 + i)%nat) m a st).1
               | None => st
               end
           | None => st
           end)
    st (imap pair seeds).

(** The probes, until enough nodes are known.
    src: crates/pulsing-actor/src/cluster/gossip.rs 387-403 join (probes) *)
Fixpoint probe_loop `{Oracle, Codec} (cfg : GossipConfig) (net : Network) (now : nat → Z) (b : payload)
    (seeds : list SocketAddr) (probes : nat) (k : nat) (st : ClusterState) : ClusterState :=
  match probes with
  | O => st
  | S probes' =>
      let st := probe_once net now b k seeds st in
      if (fanout cfg <=? size (cluster_nodes st))%nat then st
      else probe_loop cfg net now b seeds probes' (k + length seeds) st
  end.

(** [None] is the serialisation error.
    src: crates/pulsing-actor/src/cluster/gossip.rs 369-408 join *)
Definition join `{Oracle, Codec} (cfg : GossipConfig) (net : Network) (now : nat → Z)
    (seeds : list SocketAddr) (st : ClusterState) : option ClusterState :=
  match seeds with
  | [] => Some st
  | _ =>
      let st := set_seeds seeds st in
      b ← encode (Meet (local_node st) (local_addr st) (current_epoch st));
      Some (probe_loop cfg net now b seeds (Nat.max (seed_probe_count cfg) 1) 0 st)
  end.
