(* ===== verification/GossipFacts.v ===== *)
(** * Properties of the gossip cluster

    The atomic steps of a node as a relation, the invariants every
    interleaving of them keeps, and the functional behaviour of merging and of
    the failure detector. *)
From S2P Require Import Prelude Text Address Member Gossip.

(** ** The membership table as the log leaves it *)
Definition apply_call (t : gmap Z NodeStatus) (c : MemberCall) : gmap Z NodeStatus :=
  match c with Upsert id _ s _ => <[id := s]> t | RemoveMember id => delete id t end.
Definition exposed (log : list MemberCall) : gmap Z NodeStatus := foldl apply_call ∅ log.

Lemma exposed_snoc log c : exposed (log ++ [c]) = apply_call (exposed log) c.
Proof. unfold exposed. by rewrite foldl_app. Qed.

(** ** Invariants *)
Record nodes_inv (l : NodeId) (ns : gmap Z ClusterNode) (log : list MemberCall) : Prop := {
  inv_keys : map_Forall (λ id n, node_id n = id) ns;
  inv_local : is_Some (ns !! l);
  inv_mirror : ∀ id, id ≠ l → exposed log !! id = status <$> ns !! id;
  inv_mirror_local : ∀ s, exposed log !! l = Some s → status <$> ns !! l = Some s
}.

Record cluster_inv (st : ClusterState) : Prop := {
  inv_nodes : nodes_inv (local_node st) (cluster_nodes st) (members_log st);
  inv_named : table_wf (named_actors st);
  inv_epoch : is_u64 (current_epoch st)
}.

Lemma nodes_inv_upsert l ns log id n a s e :
  nodes_inv l ns log → node_id n = id → status n = s →
  nodes_inv l (<[id := n]> ns) (log ++ [Upsert id a s e]).
Proof.
  intros [Hk [n0 Hl] Hm Hml] <- <-. split.
  - by apply map_Forall_insert_2.
  - rewrite lookup_insert. case_decide; eauto.
  - intros id Hid. rewrite exposed_snoc. simpl. rewrite !lookup_insert. case_decide; [done|]. by apply Hm.
  - intros s. rewrite exposed_snoc. simpl. rewrite !lookup_insert. case_decide; [naive_solver|]. by apply Hml.
Qed.

Lemma nodes_inv_same l ns log id n0 n :
  nodes_inv l ns log → ns !! id = Some n0 → node_id n = node_id n0 → status n = status n0 →
  nodes_inv l (<[id := n]> ns) log.
Proof.
  intros [Hk [m Hl] Hm Hml] H0 Hid Hs. split.
  - apply map_Forall_insert_2; [|done]. rewrite Hid. by apply Hk.
  - rewrite lookup_insert. case_decide; eauto.
  - intros j Hj. rewrite lookup_insert. case_decide as Hd; [|by apply Hm].
    subst. rewrite Hm, H0 by done. simpl. by rewrite Hs.
  - intros s Hx%Hml. rewrite lookup_insert. case_decide as Hd; [|done].
    subst. rewrite H0 in Hx. simpl in *. by rewrite Hs.
Qed.

Lemma nodes_inv_remove l ns log id :
  nodes_inv l ns log → id ≠ l → nodes_inv l (delete id ns) (log ++ [RemoveMember id]).
Proof.
  intros [Hk Hl Hm Hml] Hid. split.
  - by apply map_Forall_delete.
  - by rewrite lookup_delete_ne.
  - intros j Hj. rewrite exposed_snoc. simpl. rewrite !lookup_delete. case_decide; [done|]. by apply Hm.
  - intros s. rewrite exposed_snoc. simpl. rewrite !lookup_delete_ne by done. apply Hml.
Qed.

Lemma nodes_inv_id l ns log id n : nodes_inv l ns log → ns !! id = Some n → node_id n = id.
Proof. intros [Hk _ _ _] Hl. by apply Hk in Hl. Qed.

Lemma change_status_inv id s n st :
  cluster_inv st → node_id n = id → cluster_inv (change_status id s n st).
Proof.
  intros [Hn Ht He] Hid. split; [|done|apply u64_add_range]. by apply nodes_inv_upsert.
Qed.
#[local] Hint Resolve change_status_inv nodes_inv_id : pulsing.

(** The key a node was found under is its id. *)
Ltac node_key := simpl; first [eapply nodes_inv_id; eassumption | symmetry; eapply nodes_inv_id; eassumption].

Lemma merge_node_inv r peer st : cluster_inv st → cluster_inv (merge_node r peer st).
Proof.
  intros [Hn Ht He]. unfold merge_node. destruct (cluster_nodes st !! node_id r) as [n|] eqn:E.
  - case_match; [|done]. case_bool_decide as Hs; (split; [simpl|done|done]).
    + by apply nodes_inv_upsert.
    + eapply nodes_inv_same; [done|exact E| |by rewrite Hs].
      node_key.
  - split; [|done|done]. by apply nodes_inv_upsert.
Qed.

Lemma handle_failure_inv f st : cluster_inv st → cluster_inv (handle_failure f st).
Proof.
  intros [Hn Ht He]. unfold handle_failure. destruct (cluster_nodes st !! f_node_id f) as [n|] eqn:E; [|done].
  case_match; [|done]. split; [|done|done]. apply nodes_inv_upsert; [done| |done]. node_key.
Qed.

Lemma touch_node_inv now id st : cluster_inv st → cluster_inv (touch_node now id st).
Proof.
  intros Hi. pose proof Hi as [Hn Ht He]. unfold touch_node.
  destruct (cluster_nodes st !! id) as [n|] eqn:E; [|done].
  assert (Hset : cluster_inv (set_nodes (<[id := mk_node (node_id n) (addr n) (status n) (epoch n) now]>
    (cluster_nodes st)) st)).
  { split; [|done|done]. by eapply nodes_inv_same. }
  cbn [status]. case_match; [|done]. apply change_status_inv; [done|]. node_key.
Qed.

Lemma handle_meet_inv now from a e peer st : cluster_inv st → cluster_inv (handle_meet now from a e peer st).
Proof.
  intros [Hn Ht He]. unfold handle_meet. destruct (cluster_nodes st !! from) as [n|] eqn:E.
  - case_bool_decide; (split; [|done|done]).
    + apply nodes_inv_upsert; [done| |done]. node_key.
    + by eapply nodes_inv_same.
  - split; [|done|done]. by apply nodes_inv_upsert.
Qed.

(** A record as a peer sends it: any entry of a well-formed table. *)
Definition info_ok (i : NamedActorInfo) : Prop := entry_wf (as_str (path i)) i.

Lemma merge_named_wf infos t :
  Forall info_ok infos → table_wf t → table_wf (foldl merge_named_actor t infos).
Proof.
  intros Hi Ht. apply foldl_invariant; [done|]. clear t Ht. intros t i Hin Ht.
  rewrite Forall_forall in Hi. apply Hi in Hin as (Hk & Hw & Hem). unfold merge_named_actor.
  destruct (t !! as_str (path i)) as [j|] eqn:E; (apply table_insert_wf; [exact Ht|]); [|done].
  destruct (Ht _ _ E) as (Hkj & Hwj & Hemj). split_and!; [done|by apply merge_info_wf|].
  rewrite is_empty_nodes in Hemj |- * by (try apply merge_info_wf; done).
  rewrite merge_info_nodes. apply bool_decide_eq_false in Hemj.
  apply bool_decide_false. set_solver.
Qed.

Lemma nodes_of_merge info t q :
  nodes_of q (merge_named_actor t info) =
  if decide (as_str (path info) = as_str q) then instance_nodes info ∪ nodes_of q t else nodes_of q t.
Proof.
  unfold merge_named_actor, nodes_of. destruct (t !! as_str (path info)) as [j|] eqn:E;
    rewrite lookup_insert; case_decide as Hq; try done; rewrite <- Hq, E; simpl; [|set_solver].
  apply merge_info_nodes.
Qed.

(** ** Atomic steps

    Each constructor is what one task does while it holds its locks; the tasks
    of a node interleave between them. *)
Inductive step (st : ClusterState) : ClusterState → Prop :=
  | step_merge_node r peer : step st (merge_node r peer st)
  | step_failure f : step st (handle_failure f st)
  | step_named infos : Forall info_ok infos → step st (merge_named_actors infos st)
  | step_touch now id : step st (touch_node now id st)
  | step_meet now from a e peer : step st (handle_meet now from a e peer st)
  | step_actors m : step st (set_actors m st)
  | step_registered p n aid md : step st (handle_named_registered p n aid md st)
  | step_unregister p n : step st (set_named (unregister p n (named_actors st)) st)
  | step_mark_pfail id : step st (mark_pfail id st)
  | step_mark_fail id : step st (mark_fail id st)
  | step_recover id : step st (recover_node id st)
  | step_fail id : step st (fail_node id st)
  | step_tombstone ids : step st (tombstone_block ids st)
  | step_remove id : id ≠ local_node st → step st (remove_node id st)
  | step_seeds l : step st (set_seeds l st).
#[local] Hint Constructors step : core.

Lemma set_named_inv t st : cluster_inv st → table_wf t → cluster_inv (set_named t st).
Proof. by intros [Hn _ He] Ht. Qed.

Lemma tombstone_block_inv ids st : cluster_inv st → cluster_inv (tombstone_block ids st).
Proof.
  intros Hi. unfold tombstone_block. destruct ids as [|id0 ids]; [done|].
  set (pre st := nodes_inv (local_node st) (cluster_nodes st) (members_log st) ∧
                 table_pre (named_actors st) ∧ is_u64 (current_epoch st)).
  assert (Hpre : pre (foldl (λ st id, tombstone_node id st) st (id0 :: ids))).
  { apply foldl_invariant; [destruct Hi; split_and!; auto with pulsing|].
    clear st Hi. intros st id _ (Hn & Ht & He). unfold tombstone_node.
    destruct (cluster_nodes st !! id) as [n|] eqn:E; [|done]. case_bool_decide; [|done].
    split_and!; [|by apply remove_node_everywhere_pre|apply u64_add_range].
    apply nodes_inv_upsert; [done| |done]. node_key. }
  destruct Hpre as (Hn & Ht & He). split; [done|by apply retain_non_empty_wf|done].
Qed.

(** Every atomic step keeps the invariant. *)
Lemma step_inv st st' : step st st' → cluster_inv st → cluster_inv st'.
Proof.
  intros Hs Hi. pose proof Hi as [Hn Ht He].
  destruct Hs; try (first [apply merge_node_inv|apply handle_failure_inv|apply touch_node_inv
    |apply handle_meet_inv|apply tombstone_block_inv|idtac]; done).
  - apply set_named_inv; [done|]. by apply merge_named_wf.
  - unfold handle_named_registered.
    case_match; (apply set_named_inv; [done|auto with pulsing]).
  - apply set_named_inv; [done|auto with pulsing].
  - unfold mark_pfail. repeat case_match; try done. eauto with pulsing.
  - unfold mark_fail. repeat case_match; try done. eauto with pulsing.
  - unfold recover_node. repeat case_match; try done. eauto with pulsing.
  - unfold fail_node. repeat case_match; try done. eauto with pulsing.
  - unfold remove_node. repeat case_match; try done. split; [|done|done]. by apply nodes_inv_remove.
Qed.

Lemma ClusterState_new_inv now id a : cluster_inv (ClusterState_new now id a).
Proof.
  split; simpl; [|apply map_Forall_empty|auto with pulsing]. split.
  - by apply map_Forall_singleton.
  - rewrite lookup_singleton_eq. eauto.
  - intros j Hj. by rewrite lookup_singleton_ne.
  - done.
Qed.

(** ** Handlers are sequences of atomic steps *)
Lemma foldl_rtc {S A} (R : S → S → Prop) (P : S → Prop) (f : S → A → S) l s :
  (∀ s s', R s s' → P s → P s') → P s →
  (∀ s a, a ∈ l → P s → rtc R s (f s a)) → rtc R s (foldl f s l).
Proof.
  intros HP. revert s. induction l as [|a l IH]; intros s Hs Hf; simpl; [done|].
  assert (Ha : rtc R s (f s a)) by (apply Hf; [apply list_elem_of_here|done]).
  etrans; [exact Ha|]. apply IH.
  - clear -HP Hs Ha. induction Ha; eauto.
  - intros s' b Hb. apply Hf. by apply list_elem_of_further.
Qed.

Lemma foldl_steps {A} (f : ClusterState → A → ClusterState) l st :
  (∀ st a, a ∈ l → rtc step st (f st a)) → rtc step st (foldl f st l).
Proof. intros Hf. apply (foldl_rtc _ (λ _, True)); auto. Qed.

Lemma step_once st st' : step st st' → rtc step st st'.
Proof. apply rtc_once. Qed.
#[local] Hint Resolve step_once : core.

Lemma change_status_local id s n st : local_node (change_status id s n st) = local_node st.
Proof. done. Qed.

Lemma tombstone_fold_local ids st :
  local_node (foldl (λ st id, tombstone_node id st) st ids) = local_node st.
Proof.
  revert st. induction ids as [|id ids IH]; intros st; [done|]. simpl. rewrite IH.
  unfold tombstone_node. by repeat case_match.
Qed.

Lemma step_local st st' : step st st' → local_node st' = local_node st.
Proof.
  destruct 1; try done.
  - unfold merge_node. by repeat case_match.
  - unfold handle_failure. by repeat case_match.
  - unfold touch_node. by repeat case_match.
  - unfold handle_meet. by repeat case_match.
  - unfold handle_named_registered. by repeat case_match.
  - unfold mark_pfail. by repeat case_match.
  - unfold mark_fail. by repeat case_match.
  - unfold recover_node. by repeat case_match.
  - unfold fail_node. by repeat case_match.
  - unfold tombstone_block. destruct ids as [|i ids]; [done|].
    apply (tombstone_fold_local (i :: ids)).
  - unfold remove_node. by repeat case_match.
Qed.

Lemma rtc_step_inv st st' :
  rtc step st st' → cluster_inv st → cluster_inv st' ∧ local_node st' = local_node st.
Proof.
  induction 1 as [|st st1 st2 Hs _ IH]; [done|]. intros Hi.
  destruct IH as [H1 H2]; [by eapply step_inv|]. split; [done|].
  rewrite H2. by apply step_local.
Qed.

(** A message whose named-actor records are well-formed. *)
Definition msg_ok (m : GossipMessage) : Prop :=
  match m with
  | Ping _ _ _ _ (Some infos) | Pong _ _ _ _ (Some infos) => Forall info_ok infos
  | _ => True
  end.

Lemma merge_views_steps view fs named peer st :
  (∀ infos, named = Some infos → Forall info_ok infos) →
  rtc step st (merge_views view fs named peer st).
Proof.
  intros Hok. unfold merge_views, merge_nodes, handle_failures.
  etrans; [apply (foldl_steps (λ st n, merge_node n peer st)); auto|].
  etrans; [apply (foldl_steps (λ st f, handle_failure f st)); auto|].
  destruct named; [|done]. apply step_once. constructor. by apply Hok.
Qed.

Lemma handle_gossip_steps `{Oracle} now m peer st :
  msg_ok m → rtc step st (handle_gossip now m peer st).1.
Proof.
  intros Hok. destruct m; simpl; auto.
  - etrans; [apply step_once, step_touch|]. apply merge_views_steps. by intros infos ->.
  - etrans; [apply step_once, step_touch|]. apply merge_views_steps. by intros infos ->.
Qed.

Lemma scan_elem `{Oracle} cfg now v st id :
  cluster_inv st →
  id ∈ scan cfg now v st ↔
  id ≠ local_node st ∧ ∃ n, cluster_nodes st !! id = Some n ∧ classify cfg now n = v.
Proof.
  intros Hi. pose proof (inv_keys _ _ _ (inv_nodes _ Hi)) as Hk. unfold scan.
  rewrite list_elem_of_fmap. setoid_rewrite list_elem_of_filter. setoid_rewrite elem_of_hm_values. split.
  - intros (n & -> & [Hl Hc] & k & Hn). pose proof (Hk _ _ Hn) as Hid. simpl in Hid. subst k. eauto.
  - intros (Hl & n & Hn & Hc). pose proof (Hk _ _ Hn) as Hid. simpl in Hid. subst id. eauto 10.
Qed.

Lemma detect_failures_steps `{Oracle} cfg now st :
  cluster_inv st → rtc step st (detect_failures cfg now st).
Proof.
  intros Hi. unfold detect_failures.
  assert (Hrm : ∀ id, id ∈ scan cfg now ToRemove st → id ≠ local_node st).
  { intros id Hin%scan_elem; [|done]. by destruct Hin. }
  set (st1 := foldl (λ st id, recover_node id st) st _).
  set (st2 := foldl (λ st id, suspect_node id st) st1 _).
  set (st3 := foldl (λ st id, fail_node id st) st2 _).
  assert (Hst : rtc step st (tombstone_block (scan cfg now ToTombstone st) st3)).
  { etrans; [apply (foldl_steps (λ st id, recover_node id st)); auto|]. fold st1.
    etrans; [apply (foldl_steps (λ st id, suspect_node id st)); intros; apply step_once, step_mark_pfail|].
    fold st2. etrans; [apply (foldl_steps (λ st id, fail_node id st)); auto|].
    fold st3. apply step_once, step_tombstone. }
  etrans; [exact Hst|]. apply rtc_step_inv in Hst as [_ Hl]; [|done].
  apply (foldl_rtc _ (λ s, local_node s = local_node st)); [|done|].
  - intros s s' Hs%step_local. by rewrite Hs.
  - intros s id Hin Hs. apply step_once, step_remove. rewrite Hs. by apply Hrm.
Qed.

Lemma api_steps `{Oracle, Codec} cfg p a md st :
  rtc step st (register_actor cfg a st).1 ∧ rtc step st (unregister_actor cfg a st).1 ∧
  rtc step st (register_named_actor_full cfg p a md st).1 ∧
  rtc step st (register_named_actor cfg p st).1 ∧ rtc step st (unregister_named_actor cfg p st).1.
Proof.
  split_and!; simpl; auto.
  - apply step_once. apply (step_registered _ p (local_node st) (Some a) md).
  - apply step_once. apply (step_registered _ p (local_node st) None ∅).
  - unfold unregister_named_actor. destruct (_ <$> _); simpl; [|auto].
    etrans; [apply step_once, (step_unregister _ p (local_node st))|]. auto.
Qed.

(** ** The replies of a well-formed node are well-formed *)
Lemma table_values_ok `{Oracle} t : table_wf t → Forall info_ok (hm_values t).
Proof.
  intros Ht. apply Forall_forall. intros i [k Hk]%elem_of_hm_values.
  destruct (Ht _ _ Hk) as (-> & ? & ?). done.
Qed.

Lemma partial_named_ok `{Oracle} k st : cluster_inv st → Forall info_ok (get_partial_named_actors k st).
Proof.
  intros [_ Ht _]. apply table_values_ok in Ht. unfold get_partial_named_actors.
  apply Forall_take. by rewrite shuffle_perm.
Qed.

Lemma reply_ok `{Oracle} now m peer st r :
  cluster_inv st → msg_ok m → (handle_gossip now m peer st).2 = Some r → msg_ok r.
Proof.
  intros Hi Hok. pose proof (handle_gossip_steps now m peer st Hok) as Hs.
  apply rtc_step_inv in Hs as [Hi' _]; [|done].
  destruct m; simpl in *; intros [= <-]; simpl.
  - apply table_values_ok, Hi'.
  - by apply partial_named_ok.
Qed.

(** ** A cluster of nodes

    Nodes start, exchange messages, register actors and run their failure
    detectors. A message that was ever sent may be delivered to any node, any
    number of times and in any order, or never. *)
Record World := mk_world { w_nodes : gmap Z ClusterState; w_sent : list GossipMessage }.

Definition w_update (id : Z) (st : ClusterState) (ms : list GossipMessage) (w : World) : World :=
  mk_world (<[id := st]> (w_nodes w)) (w_sent w ++ ms).

Inductive wstep (w : World) : World → Prop :=
  | w_start id now a : w_nodes w !! id = None → wstep w (w_update id (ClusterState_new now id a) [] w)
  | w_deliver `{Oracle} id st m now peer :
      w_nodes w !! id = Some st → m ∈ w_sent w →
      wstep w (w_update id (handle_gossip now m peer st).1 (option_list (handle_gossip now m peer st).2) w)
  | w_exchange id st from e view fs named peer :
      w_nodes w !! id = Some st → Pong from e view fs named ∈ w_sent w →
      wstep w (w_update id (merge_views view fs named peer st) [] w)
  | w_ping `{Oracle} id st : w_nodes w !! id = Some st → wstep w (w_update id st [ping st] w)
  | w_meet id st :
      w_nodes w !! id = Some st →
      wstep w (w_update id st [Meet (local_node st) (local_addr st) (current_epoch st)] w)
  | w_detect `{Oracle} id st cfg now :
      w_nodes w !! id = Some st → wstep w (w_update id (detect_failures cfg now st) [] w)
  | w_register `{Oracle, Codec} id st cfg p a md :
      w_nodes w !! id = Some st →
      wstep w (w_update id (register_named_actor_full cfg p a md st).1
                 [NamedActorRegistered p (local_node st) (Some a) md] w)
  | w_register_legacy `{Oracle, Codec} id st cfg p :
      w_nodes w !! id = Some st →
      wstep w (w_update id (register_named_actor cfg p st).1
                 [NamedActorRegistered p (local_node st) None ∅] w)
  | w_unregister `{Oracle, Codec} id st cfg p a :
      w_nodes w !! id = Some st →
      wstep w (w_update id (unregister_named_actor cfg p st).1
                 [ActorUnregistered a; NamedActorUnregistered p (local_node st)] w).

Record world_inv (w : World) : Prop := {
  w_nodes_inv : map_Forall (λ id st, cluster_inv st ∧ local_node st = id) (w_nodes w);
  w_sent_ok : Forall msg_ok (w_sent w)
}.

Lemma w_update_inv id st st' ms w :
  world_inv w → w_nodes w !! id = Some st → rtc step st st' → Forall msg_ok ms →
  world_inv (w_update id st' ms w).
Proof.
  intros [Hn Hs] Hid Hst Hms. destruct (Hn _ _ Hid) as [Hi Hl].
  apply rtc_step_inv in Hst as [Hi' Hl']; [|done]. split; simpl.
  - apply map_Forall_insert_2; [|done]. by rewrite Hl'.
  - by apply Forall_app.
Qed.

Lemma wstep_inv w w' : wstep w w' → world_inv w → world_inv w'.
Proof.
  intros Hw Hi. pose proof Hi as [Hn Hs]. rewrite Forall_forall in Hs.
  destruct Hw as [id now a Hid|O id st m now peer Hid Hm|id st from e view fs named peer Hid Hm
    |O id st Hid|id st Hid|O id st cfg now Hid|O C id st cfg p a md Hid|O C id st cfg p Hid|O C id st cfg p a Hid].
  1:{ split; simpl; [|apply Forall_app; split; [by apply Forall_forall|done]].
      apply map_Forall_insert_2; [|done]. split; [apply ClusterState_new_inv|done]. }
  all: destruct (Hn _ _ Hid) as [Hist Hl]; apply (w_update_inv id st); try done.
  - apply handle_gossip_steps. by apply Hs.
  - destruct (handle_gossip now m peer st).2 as [r|] eqn:E; [|done]. simpl.
    apply Forall_singleton. eapply reply_ok; [done| |exact E]. by apply Hs.
  - apply merge_views_steps. intros infos ->. by apply (Hs _ Hm).
  - apply Forall_singleton. simpl. by apply partial_named_ok.
  - by repeat constructor.
  - by apply detect_failures_steps.
  - by apply (api_steps cfg p a md st).
  - by repeat constructor.
  - by apply (api_steps cfg p 0 ∅ st).
  - by repeat constructor.
  - by apply (api_steps cfg p 0 ∅ st).
  - by repeat constructor.
Qed.

(** C1: In every cluster reachable by starting nodes, exchanging gossip in any
    order with loss and duplication, registering and unregistering actors and
    running failure detection: each node is listed in its own view under its
    own id, every entry of the node table is stored under its node id, the
    exposed membership table agrees in status with the node table, and every
    named-actor record is non-empty, stored under its printed path, with
    instance details only for nodes in its node set. *)
Theorem world_invariant w : rtc wstep (mk_world ∅ []) w → world_inv w.
Proof.
  intros Hw. assert (H0 : world_inv (mk_world ∅ [])) by (split; [apply map_Forall_empty|done]).
  revert H0. induction Hw; eauto using wstep_inv.
Qed.

Lemma world_invariant_witness :
  world_inv (w_update 1 (ClusterState_new 0 1 (mk_addr (V4 1) 80)) [] (mk_world ∅ [])).
Proof. apply world_invariant. apply rtc_once. by apply w_start. Defined.
