(* ===== verification/Detector.v ===== *)
(** * Convergence of views and the failure detector

    What merging does to one entry and why the order of reports does not
    matter, what one run of [detect_failures] does to every node, and how nodes
    travel through the detector's states over several runs. *)
From S2P Require Import Prelude Text Address Member Gossip GossipFacts.

(** ** Reports converge *)
Definition rank (id : NodeId) (st : ClusterState) : option (Z * NodeStatus) :=
  (λ n, (epoch n, status n)) <$> cluster_nodes st !! id.

(** The report that stands after [new] is merged over [old]. *)
Definition newer (old : option (Z * NodeStatus)) (new : Z * NodeStatus) : Z * NodeStatus :=
  match old with
  | None => new
  | Some o =>
      if (o.1 <? new.1) || ((new.1 =? o.1) && status_gtb new.2 o.2) then new else o
  end.

Lemma merge_node_rank r peer st id :
  rank id (merge_node r peer st) =
  if decide (node_id r = id) then Some (newer (rank id st) (epoch r, status r)) else rank id st.
Proof.
  unfold merge_node, rank.
  set (fa := fix_addr (addr r) (ip peer)).
  set (new := mk_node (node_id r) fa (status r) (epoch r) (last_seen r)).
  destruct (decide (node_id r = id)) as [<-|Hid].
  - destruct (cluster_nodes st !! node_id r) as [n|] eqn:E; simpl.
    + unfold newer. simpl. case_match eqn:Hc; simpl; [|by rewrite E].
      case_bool_decide; simpl; by rewrite lookup_insert_eq.
    + by rewrite lookup_insert_eq.
  - destruct (cluster_nodes st !! node_id r) as [n|] eqn:E; [case_match; [case_bool_decide|]|];
      simpl; rewrite ?lookup_insert_ne; done.
Qed.

Lemma newer_comm o x y : newer (Some (newer o x)) y = newer (Some (newer o y)) x.
Proof.
  assert (Hinj : ∀ s t, discriminant s = discriminant t → s = t) by (by intros [] []).
  destruct x as [ex sx], y as [ey sy]. unfold newer, status_gtb.
  destruct o as [[eo so]|]; simpl; repeat (case_match; simpl in * ); try done; try lia;
    f_equal; try lia; apply Hinj; lia.
Qed.

Lemma merge_nodes_rank view peer st id :
  rank id (merge_nodes view peer st) =
  foldl (λ o r, if decide (node_id r = id) then Some (newer o (epoch r, status r)) else o) (rank id st) view.
Proof.
  unfold merge_nodes. revert st. induction view as [|r view IH]; intros st; [done|]. simpl.
  by rewrite IH, merge_node_rank.
Qed.

(** C6: What a node believes about another after merging a list of reports
    depends only on which reports it merged: any reordering of the list leaves
    the same epoch and status everywhere, a report already merged changes
    nothing at all, and merging never replaces a report by a lower one. *)
Theorem merge_order_irrelevant view view' peer peer' st id :
  view ≡ₚ view' →
  rank id (merge_nodes view peer st) = rank id (merge_nodes view' peer' st) ∧
  (∀ r, merge_node r peer (merge_node r peer st) = merge_node r peer st) ∧
  (∀ r e s, rank id st = Some (e, s) →
     ∃ e' s', rank id (merge_node r peer st) = Some (e', s') ∧
              (e < e' ∨ (e = e' ∧ discriminant s <= discriminant s'))).
Proof.
  intros Hp. split_and!.
  - rewrite !merge_nodes_rank. generalize (rank id st). clear st.
    induction Hp as [|r v v' _ IH|r r' v|v1 v2 v3 _ IH1 _ IH2]; intros o; simpl; [done|apply IH| |].
    + repeat case_decide; try done. by rewrite newer_comm.
    + by rewrite IH1, IH2.
  - intros r. set (st' := merge_node r peer st).
    assert (Hr : ∃ n, cluster_nodes st' !! node_id r = Some n ∧
                      (epoch n <? epoch r) || ((epoch r =? epoch n) && status_gtb (status r) (status n)) = false).
    { pose proof (merge_node_rank r peer st (node_id r)) as Hr. fold st' in Hr.
      rewrite decide_True in Hr by done. unfold rank in Hr at 1.
      destruct (cluster_nodes st' !! node_id r) as [n|]; simplify_eq/=. exists n. split; [done|].
      revert Hr. unfold newer, status_gtb. destruct (rank _ _) as [[e s]|]; repeat case_match;
        intros [= -> ->]; simpl in *; lia. }
    destruct Hr as (n & Hn & Hc). unfold merge_node at 1. by rewrite Hn, Hc.
  - intros r e s Hr. rewrite merge_node_rank. case_decide.
    + rewrite Hr. unfold newer, status_gtb. simpl. case_match eqn:Hc; eexists _, _; (split; [done|]); lia.
    + rewrite Hr. eexists _, _. split; [done|lia].
Qed.

Lemma merge_order_irrelevant_witness :
  let a := mk_addr (V4 1) 80 in
  let st := ClusterState_new 0 1 a in
  let x := mk_node 2 a Fail 3 10 in
  let y := mk_node 2 a Online 4 20 in
  rank 2 (merge_nodes [x; y] a st) = rank 2 (merge_nodes [y; x] a st) ∧
  rank 2 (merge_nodes [x; y] a st) = Some (4, Online).
Proof.
  intros a st x y. split; [|reflexivity].
  apply (merge_order_irrelevant [x; y] [y; x] a a st 2). apply perm_swap.
Defined.

(** ** One run of the detector, pass by pass *)

(** What the detector's passes do to an entry, the epoch left out. *)
Definition profile (n : ClusterNode) : NodeId * SocketAddr * NodeStatus * Z :=
  (node_id n, addr n, status n, last_seen n).
Definition entry (st : ClusterState) (id : Z) := profile <$> cluster_nodes st !! id.

Definition set_profile_status (s : NodeStatus) (p : NodeId * SocketAddr * NodeStatus * Z) :=
  let '(i, a, _, t) := p in (i, a, s, t).
Definition becomes (from : NodeStatus → bool) (to : NodeStatus) (e : option (NodeId * SocketAddr * NodeStatus * Z)) :=
  p ← e; Some (if from p.1.2 then set_profile_status to p else p).
Definition vanishes (e : option (NodeId * SocketAddr * NodeStatus * Z)) :=
  p ← e; if bool_decide (p.1.2 = Tombstone) then None else Some p.

Lemma change_status_entry id s n st j :
  entry (change_status id s n st) j =
  if decide (id = j) then Some (set_profile_status s (profile n)) else entry st j.
Proof. unfold entry, change_status. simpl. rewrite lookup_insert. by case_decide. Qed.

Section Passes.
(** A pass that updates one entry by [g] when given its key, run over a list. *)
Context (f : ClusterState → Z → ClusterState).
Context (g : option (NodeId * SocketAddr * NodeStatus * Z) → option (NodeId * SocketAddr * NodeStatus * Z)).
Hypothesis f_entry : ∀ st id j, entry (f st id) j = if decide (id = j) then g (entry st j) else entry st j.
Hypothesis g_idem : ∀ e, g (g e) = g e.

Lemma pass_entry ids st j :
  entry (foldl f st ids) j = if decide (j ∈ ids) then g (entry st j) else entry st j.
Proof.
  revert st. induction ids as [|id ids IH]; intros st; simpl.
  - done.
  - rewrite IH, f_entry.
    destruct (decide (id = j)) as [->|Hne]; repeat case_decide; rewrite ?g_idem; try done; set_solver.
Qed.
End Passes.

Lemma becomes_idem from to e : from to = false → becomes from to (becomes from to e) = becomes from to e.
Proof. intros Hf. destruct e as [[[[i a] s] t]|]; [|done]. simpl. destruct (from s) eqn:E; simpl; [by rewrite Hf|by rewrite E]. Qed.

Lemma vanishes_idem e : vanishes (vanishes e) = vanishes e.
Proof. destruct e as [[[[i a] s] t]|]; [|done]. simpl. case_bool_decide; simpl; [done|]. by rewrite bool_decide_false. Qed.


Lemma recover_entry st id j :
  entry (recover_node id st) j =
  if decide (id = j) then becomes can_recover Online (entry st j) else entry st j.
Proof.
  unfold recover_node. destruct (cluster_nodes st !! id) as [n|] eqn:E; [destruct (can_recover _) eqn:Hc|];
    rewrite ?change_status_entry; case_decide; subst; try done; unfold entry; rewrite E; simpl; by rewrite ?Hc.
Qed.

Lemma suspect_entry st id j :
  entry (suspect_node id st) j =
  if decide (id = j) then becomes is_online PFail (entry st j) else entry st j.
Proof.
  unfold suspect_node, mark_pfail. destruct (cluster_nodes st !! id) as [n|] eqn:E; [case_bool_decide as Hc|];
    rewrite ?change_status_entry; case_decide; subst; try done; unfold entry, is_online; rewrite E; simpl;
    [by rewrite bool_decide_true|by rewrite bool_decide_false|done].
Qed.

Definition is_pfail (s : NodeStatus) : bool := bool_decide (s = PFail).
Definition is_fail (s : NodeStatus) : bool := bool_decide (s = Fail).

Lemma fail_entry st id j :
  entry (fail_node id st) j = if decide (id = j) then becomes is_pfail Fail (entry st j) else entry st j.
Proof.
  unfold fail_node. destruct (cluster_nodes st !! id) as [n|] eqn:E; [case_bool_decide as Hc|];
    rewrite ?change_status_entry; case_decide; subst; try done; unfold entry, is_pfail; rewrite E; simpl;
    [by rewrite bool_decide_true|by rewrite bool_decide_false|done].
Qed.

Lemma tombstone_entry st id j :
  entry (tombstone_node id st) j =
  if decide (id = j) then becomes is_fail Tombstone (entry st j) else entry st j.
Proof.
  unfold tombstone_node. destruct (cluster_nodes st !! id) as [n|] eqn:E; [case_bool_decide as Hc|].
  - transitivity (entry (change_status id Tombstone n st) j); [done|].
    rewrite change_status_entry; case_decide; subst; [|done]. unfold entry, is_fail. rewrite E. simpl.
    by rewrite bool_decide_true.
  - case_decide; subst; [|done]. unfold entry, is_fail. rewrite E. simpl. by rewrite bool_decide_false.
  - case_decide; subst; [|done]. unfold entry. by rewrite E.
Qed.

Lemma remove_entry st id j :
  entry (remove_node id st) j = if decide (id = j) then vanishes (entry st j) else entry st j.
Proof.
  unfold remove_node. destruct (cluster_nodes st !! id) as [n|] eqn:E; [case_bool_decide as Hc|];
    unfold entry; simpl; rewrite ?lookup_delete; case_decide; subst; try done; rewrite E; simpl;
    [by rewrite bool_decide_true|by rewrite bool_decide_false|done].
Qed.

Lemma tombstone_block_entry ids st j :
  entry (tombstone_block ids st) j =
  if decide (j ∈ ids) then becomes is_fail Tombstone (entry st j) else entry st j.
Proof.
  transitivity (entry (foldl (λ st id, tombstone_node id st) st ids) j).
  - unfold tombstone_block. by destruct ids.
  - apply pass_entry; [intros; apply tombstone_entry|intros; by apply becomes_idem].
Qed.

(** ** Named actors of tombstoned nodes *)
Definition failed_at (st : ClusterState) (id : Z) : Prop := ∃ p, entry st id = Some p ∧ p.1.2 = Fail.

Lemma nodes_of_remove_everywhere n t q :
  nodes_of q (remove_node_everywhere n t) = nodes_of q t ∖ {[n]}.
Proof.
  unfold nodes_of, remove_node_everywhere. rewrite lookup_fmap.
  destruct (t !! as_str q) as [info|]; simpl; [|set_solver]. apply remove_instance_fields.
Qed.

Lemma nodes_of_retain t q : table_pre t → nodes_of q (retain_non_empty t) = nodes_of q t.
Proof.
  intros Ht. unfold nodes_of, retain_non_empty. rewrite map_lookup_filter.
  destruct (t !! as_str q) as [info|] eqn:E; simpl; [|done].
  destruct (Ht _ _ E) as [_ Hw]. case_guard as Hg; simpl; [done|].
  rewrite is_empty_nodes in Hg by done. case_bool_decide; [by set_solver|done].
Qed.

Lemma failed_tombstone st id x : failed_at (tombstone_node id st) x ↔ failed_at st x ∧ x ≠ id.
Proof.
  unfold failed_at. rewrite tombstone_entry. case_decide as Hx; [subst|naive_solver].
  unfold becomes, is_fail. destruct (entry st x) as [[[[i a] s] t]|]; simpl; [|naive_solver].
  case_bool_decide; simpl; naive_solver.
Qed.

Lemma tombstone_node_named st id q x :
  x ∈ nodes_of q (named_actors (tombstone_node id st)) ↔
  x ∈ nodes_of q (named_actors st) ∧ ¬ (x = id ∧ failed_at st id).
Proof.
  unfold tombstone_node, failed_at, entry.
  destruct (cluster_nodes st !! id) as [n|] eqn:E; [case_bool_decide as Hc|].
  - simpl. rewrite nodes_of_remove_everywhere, elem_of_difference, elem_of_singleton. naive_solver.
  - simpl. naive_solver.
  - simpl. naive_solver.
Qed.

Lemma tombstone_fold_named ids st q x :
  x ∈ nodes_of q (named_actors (foldl (λ st id, tombstone_node id st) st ids)) ↔
  x ∈ nodes_of q (named_actors st) ∧ ¬ (x ∈ ids ∧ failed_at st x).
Proof.
  revert st. induction ids as [|id ids IH]; intros st; simpl; [set_solver|].
  rewrite IH, tombstone_node_named, failed_tombstone, elem_of_cons.
  destruct (decide (x = id)) as [->|]; naive_solver.
Qed.

Lemma fold_table_pre ids st :
  table_pre (named_actors st) → table_pre (named_actors (foldl (λ st id, tombstone_node id st) st ids)).
Proof.
  intros Ht. apply (foldl_invariant (λ st, table_pre (named_actors st))); [done|].
  intros s id _ Hs. unfold tombstone_node. repeat case_match; try done. by apply remove_node_everywhere_pre.
Qed.

Lemma tombstone_block_named ids st q x :
  table_wf (named_actors st) →
  x ∈ nodes_of q (named_actors (tombstone_block ids st)) ↔
  x ∈ nodes_of q (named_actors st) ∧ ¬ (x ∈ ids ∧ failed_at st x).
Proof.
  intros Ht. rewrite <- tombstone_fold_named. unfold tombstone_block. destruct ids as [|id ids]; [done|].
  simpl. rewrite nodes_of_retain; [done|]. by apply (fold_table_pre (id :: ids)), table_wf_pre.
Qed.

(** The other passes leave the named actors alone. *)
Lemma pass_named (f : Z → ClusterState → ClusterState) ids st :
  (∀ id st, named_actors (f id st) = named_actors st) →
  named_actors (foldl (λ st id, f id st) st ids) = named_actors st.
Proof.
  intros Hf. revert st. induction ids as [|id ids IH]; intros st; [done|]. simpl. by rewrite IH, Hf.
Qed.

Lemma single_named id st :
  named_actors (recover_node id st) = named_actors st ∧ named_actors (suspect_node id st) = named_actors st ∧
  named_actors (fail_node id st) = named_actors st ∧ named_actors (remove_node id st) = named_actors st.
Proof.
  unfold recover_node, suspect_node, mark_pfail, fail_node, remove_node.
  split_and!; by repeat case_match.
Qed.

(** ** One run of the detector *)
Definition verdict_status (v : Verdict) (s : NodeStatus) : option NodeStatus :=
  match v with
  | ToPFail => Some PFail | ToFail => Some Fail | ToTombstone => Some Tombstone
  | ToRecover => Some Online | ToRemove => None | Keep => Some s
  end.

(** The entry a node has after a run: nothing changes but its status. *)
Definition next_entry (cfg : GossipConfig) (now : Z) (n : ClusterNode) :=
  (λ s, set_profile_status s (profile n)) <$> verdict_status (classify cfg now n) (status n).

Section Run.
Context `{Oracle}.

(** Everything before the tombstone block. *)
Definition first_passes cfg now st : ClusterState :=
  let st1 := foldl (λ st id, recover_node id st) st (scan cfg now ToRecover st) in
  let st2 := foldl (λ st id, suspect_node id st) st1 (scan cfg now ToPFail st) in
  foldl (λ st id, fail_node id st) st2 (scan cfg now ToFail st).

Lemma first_passes_entry cfg now st id :
  entry (first_passes cfg now st) id =
  let e1 := if decide (id ∈ scan cfg now ToRecover st) then becomes can_recover Online (entry st id) else entry st id in
  let e2 := if decide (id ∈ scan cfg now ToPFail st) then becomes is_online PFail e1 else e1 in
  if decide (id ∈ scan cfg now ToFail st) then becomes is_pfail Fail e2 else e2.
Proof.
  unfold first_passes. cbv zeta.
  rewrite (pass_entry (λ st id, fail_node id st) (becomes is_pfail Fail))
    by (intros; first [apply fail_entry|by apply becomes_idem]).
  rewrite (pass_entry (λ st id, suspect_node id st) (becomes is_online PFail))
    by (intros; first [apply suspect_entry|by apply becomes_idem]).
  by rewrite (pass_entry (λ st id, recover_node id st) (becomes can_recover Online))
    by (intros; first [apply recover_entry|by apply becomes_idem]).
Qed.

Lemma first_passes_named cfg now st : named_actors (first_passes cfg now st) = named_actors st.
Proof.
  unfold first_passes. rewrite (pass_named fail_node), (pass_named suspect_node), (pass_named recover_node)
    by (intros; apply single_named). done.
Qed.

Lemma detect_entry cfg now st id :
  cluster_inv st →
  entry (detect_failures cfg now st) id =
  n ← cluster_nodes st !! id;
  if decide (id = local_node st) then Some (profile n) else next_entry cfg now n.
Proof.
  intros Hi. unfold detect_failures. fold (first_passes cfg now st).
  rewrite (pass_entry (λ st id, remove_node id st) vanishes) by (intros; first [apply remove_entry|apply vanishes_idem]).
  rewrite tombstone_block_entry, first_passes_entry. cbv zeta.
  pose proof (λ v, scan_elem cfg now v st id Hi) as Hs. unfold entry.
  destruct (cluster_nodes st !! id) as [n|] eqn:E; simpl.
  - destruct (decide (id = local_node st)) as [Hl|Hl].
    + repeat (case_decide as Hd; [by apply Hs in Hd as [? _]|clear Hd]). done.
    + assert (Hin : ∀ v, id ∈ scan cfg now v st ↔ classify cfg now n = v) by (intros v; rewrite Hs; naive_solver).
      clear Hs. unfold next_entry. destruct (classify cfg now n) eqn:Hc;
        repeat (case_decide as Hd; rewrite Hin in Hd; try done; clear Hd);
        unfold classify in Hc; destruct (status n) eqn:Hst; simpl in Hc; try done;
        repeat (case_match; try done);
        unfold profile, becomes, vanishes, is_online, is_pfail, is_fail; simpl; rewrite ?Hst; done.
  - repeat (case_decide as Hd; [apply Hs in Hd as (_ & n & ? & _); done|clear Hd]). done.
Qed.

Lemma detect_named cfg now st q x :
  cluster_inv st →
  x ∈ nodes_of q (named_actors (detect_failures cfg now st)) ↔
  x ∈ nodes_of q (named_actors st) ∧ x ∉ scan cfg now ToTombstone st.
Proof.
  intros Hi. unfold detect_failures. fold (first_passes cfg now st).
  rewrite (pass_named remove_node) by (intros; apply single_named).
  rewrite tombstone_block_named; rewrite first_passes_named; [|apply Hi].
  assert (Hf : x ∈ scan cfg now ToTombstone st → failed_at (first_passes cfg now st) x); [|naive_solver].
  intros Hx. unfold failed_at. rewrite first_passes_entry. cbv zeta.
  apply scan_elem in Hx as (Hl & n & Hn & Hc); [|done].
  repeat (case_decide as Hd; [apply scan_elem in Hd as (_ & n' & Hn' & Hc'); [congruence|done]|clear Hd]).
  unfold entry. rewrite Hn. eexists. split; [done|]. simpl.
  unfold classify in Hc. by destruct (status n); repeat case_match.
Qed.

(** C5: One run of the failure detector moves each remote node by exactly one
    step, decided by its status and the time since it was last seen, whatever
    the order the nodes are visited in: identity, address and last contact
    are kept, the node itself is never judged, a node is dropped only from
    tombstone, and exactly the nodes that become tombstones lose their named
    actors. *)
Theorem detect_failures_spec cfg now st :
  cluster_inv st →
  (∀ id, entry (detect_failures cfg now st) id =
     n ← cluster_nodes st !! id;
     if decide (id = local_node st) then Some (profile n) else next_entry cfg now n) ∧
  (∀ q x, x ∈ nodes_of q (named_actors (detect_failures cfg now st)) ↔
     x ∈ nodes_of q (named_actors st) ∧
     ¬ (x ≠ local_node st ∧ ∃ n, cluster_nodes st !! x = Some n ∧ classify cfg now n = ToTombstone)).
Proof.
  intros Hi. split.
  - intros id. by apply detect_entry.
  - intros q x. rewrite detect_named by done. by rewrite scan_elem.
Qed.
End Run.

(** ** Several runs *)
Definition runs `{Oracle} (cfg : GossipConfig) (times : list Z) (st : ClusterState) : ClusterState :=
  foldl (λ st now, detect_failures cfg now st) st times.
Definition status_at (st : ClusterState) (id : Z) : option NodeStatus := status <$> cluster_nodes st !! id.

Section Runs.
Context `{Oracle}.

(** The state is well-formed and holds a remote node in a known condition. *)
Definition holds (st : ClusterState) (id : Z) (s : NodeStatus) (seen : Z) : Prop :=
  cluster_inv st ∧ id ≠ local_node st ∧
  ∃ n, cluster_nodes st !! id = Some n ∧ status n = s ∧ last_seen n = seen.

Lemma holds_status st id s seen : holds st id s seen → status_at st id = Some s.
Proof. intros (_ & _ & n & Hn & Hs & _). unfold status_at. by rewrite Hn, <- Hs. Qed.

Lemma detect_inv cfg now st :
  cluster_inv st →
  cluster_inv (detect_failures cfg now st) ∧ local_node (detect_failures cfg now st) = local_node st.
Proof. intros Hi. apply rtc_step_inv; [|done]. by apply detect_failures_steps. Qed.

(** One run on a node in a known condition, the verdict given. *)
Lemma holds_step cfg now st id s seen v s' :
  holds st id s seen →
  (∀ n, status n = s → last_seen n = seen → classify cfg now n = v) →
  verdict_status v s = Some s' →
  holds (detect_failures cfg now st) id s' seen.
Proof.
  intros (Hi & Hl & n & Hn & Hs & Ht) Hc Hv.
  destruct (detect_inv cfg now st Hi) as [Hi' Hl']. split; [done|]. split; [by rewrite Hl'|].
  pose proof (detect_entry cfg now st id Hi) as He. rewrite Hn in He. simpl in He.
  rewrite decide_False in He by done. unfold next_entry in He.
  rewrite (Hc n Hs Ht), Hs, Hv in He. unfold entry in He.
  destruct (cluster_nodes (detect_failures cfg now st) !! id) as [n'|]; simplify_eq/=.
  exists n'. split; [done|]. by injection He.
Qed.

Lemma holds_removed cfg now st id s seen :
  holds st id s seen →
  (∀ n, status n = s → last_seen n = seen → classify cfg now n = ToRemove) →
  cluster_nodes (detect_failures cfg now st) !! id = None.
Proof.
  intros (Hi & Hl & n & Hn & Hs & Ht) Hc.
  pose proof (detect_entry cfg now st id Hi) as He. rewrite Hn in He. simpl in He.
  rewrite decide_False in He by done. unfold next_entry in He. rewrite (Hc n Hs Ht) in He.
  unfold entry in He. by destruct (cluster_nodes (detect_failures cfg now st) !! id).
Qed.

(** C39: A node that stays silent past every timeout goes through suspicion,
    failure and tombstone and is gone after four runs of the detector; from
    the third run on no named actor lists it. *)
Theorem dead_node_is_removed cfg st id seen t1 t2 t3 t4 :
  holds st id Online seen →
  (∀ t, t ∈ [t1; t2; t3; t4] → ∀ d,
     d ∈ [failure_timeout cfg; swim_suspicion_timeout cfg; recovery_observation_window cfg;
          cleanup_grace_period cfg; tombstone_retention cfg] → d < saturating_sub t seen) →
  status_at (runs cfg [t1] st) id = Some PFail ∧
  status_at (runs cfg [t1; t2] st) id = Some Fail ∧
  status_at (runs cfg [t1; t2; t3] st) id = Some Tombstone ∧
  (∀ q, id ∉ nodes_of q (named_actors (runs cfg [t1; t2; t3] st))) ∧
  status_at (runs cfg [t1; t2; t3; t4] st) id = None.
Proof.
  intros H0 Hlate. unfold runs; simpl.
  assert (Hd : ∀ t d, t ∈ [t1; t2; t3; t4] →
     d ∈ [failure_timeout cfg; swim_suspicion_timeout cfg; recovery_observation_window cfg;
          cleanup_grace_period cfg; tombstone_retention cfg] → (d <? saturating_sub t seen) = true
          ∧ (saturating_sub t seen <=? d) = false).
  { intros t d Ht Hd. specialize (Hlate t Ht d Hd). split; lia. }
  assert (H1 : holds (detect_failures cfg t1 st) id PFail seen).
  { eapply holds_step; [done| |by instantiate (1 := ToPFail)]. intros n Hs Ht. unfold classify.
    rewrite Hs, Ht. by rewrite (proj1 (Hd t1 (failure_timeout cfg) ltac:(set_solver) ltac:(set_solver))). }
  assert (H2 : holds (detect_failures cfg t2 (detect_failures cfg t1 st)) id Fail seen).
  { eapply holds_step; [done| |by instantiate (1 := ToFail)]. intros n Hs Ht. unfold classify.
    rewrite Hs, Ht. by rewrite (proj1 (Hd t2 (swim_suspicion_timeout cfg) ltac:(set_solver) ltac:(set_solver))). }
  assert (Hc3 : ∀ n, status n = Fail → last_seen n = seen → classify cfg t3 n = ToTombstone).
  { intros n Hs Ht. unfold classify. rewrite Hs, Ht.
    rewrite (proj2 (Hd t3 (recovery_observation_window cfg) ltac:(set_solver) ltac:(set_solver))).
    by rewrite (proj1 (Hd t3 (cleanup_grace_period cfg) ltac:(set_solver) ltac:(set_solver))). }
  assert (H3 : holds (detect_failures cfg t3 (detect_failures cfg t2 (detect_failures cfg t1 st))) id Tombstone seen).
  { eapply holds_step; [done|exact Hc3|done]. }
  split_and!; try by eapply holds_status.
  - intros q. destruct H2 as (Hi & Hl & n & Hn & Hs & Ht). rewrite detect_named, scan_elem by done.
    intros [_ Hno]. apply Hno. eauto.
  - unfold status_at. erewrite holds_removed; [done|exact H3|]. intros n Hs Ht. unfold classify. rewrite Hs, Ht.
    rewrite (proj2 (Hd t4 (recovery_observation_window cfg) ltac:(set_solver) ltac:(set_solver))).
    by rewrite (proj1 (Hd t4 (tombstone_retention cfg) ltac:(set_solver) ltac:(set_solver))).
Qed.

(** With the default configuration a node that nothing was heard from for
    more than 15 and at most 30 seconds is declared failed and then taken
    back as online by the next run, because the recovery window is longer
    than the two timeouts that lead to failure. *)
Theorem silent_node_comes_back st id seen t1 t2 t3 :
  holds st id Online seen →
  (∀ t, t ∈ [t1; t2; t3] → 15000 < saturating_sub t seen <= 30000) →
  status_at (runs default_config [t1; t2] st) id = Some Fail ∧
  status_at (runs default_config [t1; t2; t3] st) id = Some Online.
Proof.
  intros H0 Ht. unfold runs; simpl.
  assert (H1 : holds (detect_failures default_config t1 st) id PFail seen).
  { eapply holds_step; [done| |by instantiate (1 := ToPFail)]. intros n Hs Hn. unfold classify. rewrite Hs, Hn.
    specialize (Ht t1 ltac:(set_solver)). simpl. case_match; [done|lia]. }
  assert (H2 : holds (detect_failures default_config t2 (detect_failures default_config t1 st)) id Fail seen).
  { eapply holds_step; [done| |by instantiate (1 := ToFail)]. intros n Hs Hn. unfold classify. rewrite Hs, Hn.
    specialize (Ht t2 ltac:(set_solver)). simpl. case_match; [done|lia]. }
  split; [by eapply holds_status|]. eapply holds_status, holds_step; [done| |by instantiate (1 := ToRecover)].
  intros n Hs Hn. unfold classify. rewrite Hs, Hn.
  specialize (Ht t3 ltac:(set_solver)). simpl. case_match; [done|lia].
Qed.
End Runs.

(** A node that has met another one. *)
Definition met_state : ClusterState :=
  handle_meet 0 2 (mk_addr (V4 7) 80) 0 (mk_addr (V4 7) 80) (ClusterState_new 0 1 (mk_addr (V4 1) 80)).

Lemma met_state_holds : holds met_state 2 Online 0.
Proof.
  split; [apply handle_meet_inv, ClusterState_new_inv|]. split; [done|].
  eexists. split; [vm_compute; reflexivity|done].
Qed.

Lemma detect_failures_spec_witness :
  entry (detect_failures default_config 15001 met_state) 2 = Some (2, mk_addr (V4 7) 80, PFail, 0).
Proof.
  destruct (detect_failures_spec default_config 15001 met_state) as [He _]; [apply met_state_holds|].
  etransitivity; [exact (He 2)|]. vm_compute. reflexivity.
Defined.

Lemma dead_node_is_removed_witness :
  status_at (runs default_config [400000; 400500; 401000; 401500] met_state) 2 = None.
Proof.
  apply (dead_node_is_removed default_config met_state 2 0 400000 400500 401000 401500 met_state_holds).
  intros t Ht d Hd. unfold saturating_sub. simpl in Hd.
  assert (400000 <= t) by (repeat (apply elem_of_cons in Ht as [->|Ht]; [lia|]); set_solver).
  repeat (apply elem_of_cons in Hd as [->|Hd]; [lia|]). set_solver.
Defined.

Lemma silent_node_comes_back_witness :
  status_at (runs default_config [15500; 16000; 16500] met_state) 2 = Some Online.
Proof.
  apply (silent_node_comes_back met_state 2 0 15500 16000 16500 met_state_holds).
  intros t Ht. unfold saturating_sub.
  repeat (apply elem_of_cons in Ht as [->|Ht]; [lia|]). set_solver.
Defined.

(** ** Ping bookkeeping

    [cluster/swim.rs]: numbers for pings and the pings that wait for an answer.
    Nothing in the runtime calls it; the detection above works on the last
    contact alone. *)
Module Swim.
(** src: crates/pulsing-actor/src/cluster/swim.rs 11-18 SwimConfig *)
Record SwimConfig := mk_config { ping_interval : Z; ping_timeout : Z; indirect_probes : Z; suspicion_timeout : Z }.
(** src: crates/pulsing-actor/src/cluster/swim.rs 21-28 SwimConfig::default *)
Definition SwimConfig_default : SwimConfig := mk_config 500000000 2000000000 3 15000000000.
(** src: crates/pulsing-actor/src/cluster/swim.rs 31-53 SwimMessage *)
Inductive SwimMessage :=
  | Ping (seq : Z) (from : NodeId) | Ack (seq : Z) (from : NodeId)
  | PingReq (seq : Z) (from target : NodeId) (target_addr : SocketAddr) | PingReqAck (seq : Z) (from target : NodeId).
(** src: crates/pulsing-actor/src/cluster/swim.rs 55-58 PendingPing *)
Record PendingPing := mk_pending { target : NodeId; sent_at : Z }.
(** src: crates/pulsing-actor/src/cluster/swim.rs 60-66 SwimDetector *)
Record SwimDetector := mk_detector { local_node : NodeId; config : SwimConfig; seq : Z; pending_pings : gmap Z PendingPing }.
(** src: crates/pulsing-actor/src/cluster/swim.rs 80-87 SwimDetector::new *)
Definition SwimDetector_new (n : NodeId) (c : SwimConfig) : SwimDetector := mk_detector n c 0 ∅.
(** A clone goes on with the number and waits for nothing.
    src: crates/pulsing-actor/src/cluster/swim.rs 69-76 SwimDetector::clone *)
Definition clone (d : SwimDetector) : SwimDetector := mk_detector (local_node d) (config d) (seq d) ∅.
Definition with_pending (p : gmap Z PendingPing) (d : SwimDetector) : SwimDetector := mk_detector (local_node d) (config d) (seq d) p.
(** src: crates/pulsing-actor/src/cluster/swim.rs 93-100 SwimDetector::create_ping *)
Definition create_ping (d : SwimDetector) : SwimDetector * (Z * SwimMessage) :=
  (mk_detector (local_node d) (config d) (seq d +w 1) (pending_pings d), (seq d, Ping (seq d) (local_node d))).
(** src: crates/pulsing-actor/src/cluster/swim.rs 102-107 SwimDetector::create_ack *)
Definition create_ack (n : Z) (d : SwimDetector) : SwimMessage := Ack n (local_node d).
(** src: crates/pulsing-actor/src/cluster/swim.rs 109-118 SwimDetector::ping_sent *)
Definition ping_sent (now n : Z) (t : NodeId) (d : SwimDetector) : SwimDetector := with_pending (<[n := mk_pending t now]> (pending_pings d)) d.
(** src: crates/pulsing-actor/src/cluster/swim.rs 120-123 SwimDetector::ack_received *)
Definition ack_received (n : Z) (d : SwimDetector) : SwimDetector := with_pending (delete n (pending_pings d)) d.
Definition overdue (now : Z) (d : SwimDetector) (p : PendingPing) : bool := ping_timeout (config d) <? now - sent_at p.
(** src: crates/pulsing-actor/src/cluster/swim.rs 125-143 SwimDetector::check_timeouts *)
Definition check_timeouts `{Oracle} (now : Z) (d : SwimDetector) : SwimDetector * list (NodeId * bool) :=
  let timed_out := filter (λ kv, overdue now d kv.2 = true) (hm_iter (pending_pings d)) in
  (with_pending (foldl (λ m kv, delete kv.1 m) (pending_pings d) timed_out) d, (λ kv, (target kv.2, true)) <$> timed_out).

Section Facts.
Context `{Oracle}.
Lemma lookup_delete_all {A} (ks : list (Z * A)) (m : gmap Z A) k : foldl (λ m kv, delete kv.1 m) m ks !! k = if decide (k ∈ ks.*1) then None else m !! k.
Proof.
  revert m. induction ks as [|[x y] ks IH]; intros m; cbn [foldl fmap list_fmap]; [by rewrite decide_False by apply not_elem_of_nil|].
  rewrite IH. cbn. destruct (decide (k = x)) as [->|Hne].
  - rewrite (decide_True (P := x ∈ x :: _)) by by left. by rewrite lookup_delete_eq; destruct (decide _).
  - rewrite lookup_delete_ne by done. destruct (decide (k ∈ ks.*1)) as [Hin|Hin].
    + by rewrite decide_True by by right.
    + rewrite decide_False; [done|]. by rewrite not_elem_of_cons.
Qed.
(** A check reports the target of every ping that has waited for longer than
    the timeout, once for each, and forgets exactly those: what is checked again
    at the same time reports nothing, and no ping that was acknowledged, or is
    not overdue, is reported or lost. *)
Theorem overdue_pings_are_reported now d d' r : check_timeouts now d = (d', r) →
  r ≡ₚ (λ kv, (target kv.2, true)) <$> filter (λ kv, overdue now d kv.2 = true) (map_to_list (pending_pings d)) ∧
  (∀ n, pending_pings d' !! n = p ← pending_pings d !! n; if overdue now d p then None else Some p) ∧
  check_timeouts now d' = (d', []).
Proof.
  unfold check_timeouts. intros [= <- <-]. pose proof (hm_iter_perm (pending_pings d)) as Hp.
  assert (Hl : ∀ n, foldl (λ m kv, delete kv.1 m) (pending_pings d) (filter (λ kv, overdue now d kv.2 = true) (hm_iter (pending_pings d))) !! n =
    p ← pending_pings d !! n; if overdue now d p then None else Some p).
  { intros n. rewrite lookup_delete_all. destruct (decide _) as [Hin|Hin].
    - apply list_elem_of_fmap in Hin as ([k p] & -> & [Ho Hin]%list_elem_of_filter). rewrite Hp, elem_of_map_to_list in Hin. cbn in *. by rewrite Hin; cbn; rewrite Ho.
    - destruct (pending_pings d !! n) as [p|] eqn:Hn; [|done]. cbn. destruct (overdue now d p) eqn:Ho; [|done]. exfalso. apply Hin.
      apply list_elem_of_fmap. exists (n, p). split; [done|]. apply list_elem_of_filter. split; [done|]. by rewrite Hp, elem_of_map_to_list. }
  split_and!; [by rewrite Hp|exact Hl|]. set (m := foldl _ _ _) in *. assert (Hnone : filter (λ kv, overdue now (with_pending m d) kv.2 = true) (hm_iter m) = []).
  { destruct (filter _ (hm_iter m)) as [|[k p] l] eqn:Hf; [done|]. assert (Hin : (k, p) ∈ filter (λ kv, overdue now (with_pending m d) kv.2 = true) (hm_iter m)) by (rewrite Hf; by left).
    apply list_elem_of_filter in Hin as [Ho Hin]. rewrite hm_iter_perm, elem_of_map_to_list, Hl in Hin. apply bind_Some in Hin as (q & _ & Hq).
    destruct (overdue now d q) eqn:Hd; [done|]. injection Hq as ->. change (overdue now d p = true) in Ho. congruence. }
  cbn [pending_pings with_pending]. rewrite Hnone. done.
Qed.
End Facts.
Definition two_pings : SwimDetector := ping_sent 10 1 7 (ping_sent 0 0 5 (SwimDetector_new 1 SwimConfig_default)).
Lemma overdue_pings_are_reported_witness : ∃ d, check_timeouts 2000000005 two_pings = (d, [(5, true)]) ∧ check_timeouts 2000000005 d = (d, []).
Proof.
  destruct (check_timeouts 2000000005 two_pings) as [d r] eqn:Hc. exists d. pose proof (overdue_pings_are_reported 2000000005 two_pings d r Hc) as (_ & _ & Hd).
  split; [|exact Hd]. vm_compute in Hc. injection Hc as <- <-. reflexivity.
Defined.
(** An acknowledged ping is forgotten. *)
Example acknowledged : (check_timeouts 5000000000 (ack_received 0 two_pings)).2 = [(7, true)].
Proof. vm_compute. reflexivity. Qed.
End Swim.
