(* ===== verification/Contact.v ===== *)
(** * Contact and registration

    What hearing from a node does to its entry, what registering and
    unregistering named actors does to the table of this node and of its peers,
    and three situations the protocol does not handle. *)
From S2P Require Import Prelude Text Address Member Gossip GossipFacts.

Lemma elem_of_get_failures `{Oracle} st f :
  f ∈ get_failures st ↔
  ∃ n, (∃ k, cluster_nodes st !! k = Some n) ∧ (status n = PFail ∨ status n = Fail) ∧
       f = mk_failure (node_id n) (status n) (epoch n) (local_node st).
Proof.
  unfold get_failures. rewrite list_elem_of_fmap. setoid_rewrite list_elem_of_filter.
  setoid_rewrite elem_of_hm_values. naive_solver.
Qed.

Lemma elem_of_alive_members `{Oracle} st m :
  m ∈ alive_members st ↔
  ∃ n, m = node_to_member n ∧ (∃ k, cluster_nodes st !! k = Some n) ∧ status n = Online ∧ node_id n ≠ local_node st.
Proof.
  unfold alive_members. rewrite list_elem_of_fmap. setoid_rewrite list_elem_of_filter.
  setoid_rewrite elem_of_hm_values. naive_solver.
Qed.

(** Hearing from a known node brings it back from any failed state under a
    fresh epoch, tells the exposed table so, and makes it alive to callers,
    while an online or joining node keeps its status and epoch; the time of
    contact is recorded and no other entry changes. *)
Theorem touch_node_spec `{Oracle} now id n st :
  cluster_inv st → cluster_nodes st !! id = Some n →
  cluster_nodes (touch_node now id st) =
    <[id := if can_recover (status n)
            then mk_node id (addr n) Online (current_epoch st +w 1) now
            else mk_node id (addr n) (status n) (epoch n) now]> (cluster_nodes st) ∧
  (id ≠ local_node st → status n ≠ Handshake →
   ∃ m, get_member id (touch_node now id st) = Some m ∧ m ∈ alive_members (touch_node now id st)) ∧
  members_log (touch_node now id st) =
    members_log st ++ (if can_recover (status n) then [Upsert id (addr n) Online (current_epoch st +w 1)] else []).
Proof.
  intros Hi Hn. pose proof (inv_keys _ _ _ (inv_nodes _ Hi) _ _ Hn) as Hid. simpl in Hid.
  assert (Hns : cluster_nodes (touch_node now id st) =
    <[id := if can_recover (status n)
            then mk_node id (addr n) Online (current_epoch st +w 1) now
            else mk_node id (addr n) (status n) (epoch n) now]> (cluster_nodes st)).
  { unfold touch_node. rewrite Hn. cbn [status]. rewrite Hid.
    destruct (can_recover (status n)); [|done]. simpl. by rewrite insert_insert_eq. }
  split_and!; [done| |].
  - intros Hl Hh. eexists. unfold get_member. rewrite Hns, lookup_insert_eq. split; [done|].
    apply elem_of_alive_members. eexists. split; [done|].
    split; [exists id; by rewrite Hns, lookup_insert_eq|].
    assert (Hll : local_node (touch_node now id st) = local_node st) by (apply step_local; constructor).
    rewrite Hll. destruct (status n) eqn:Hs; simpl; done.
  - unfold touch_node. rewrite Hn. cbn [status]. destruct (can_recover (status n)); [done|].
    simpl. by rewrite app_nil_r.
Qed.

Lemma touch_node_spec_witness :
  let st := handle_failure (mk_failure 2 Fail 3 1)
              (handle_meet 0 2 (mk_addr (V4 7) 80) 0 (mk_addr (V4 7) 80) (ClusterState_new 0 1 (mk_addr (V4 1) 80))) in
  cluster_nodes (touch_node 9 2 st) !! 2 = Some (mk_node 2 (mk_addr (V4 7) 80) Online 1 9).
Proof.
  intros st.
  destruct (touch_node_spec 9 2 (mk_node 2 (mk_addr (V4 7) 80) Fail 3 0) st) as [Hn _].
  - apply handle_failure_inv, handle_meet_inv, ClusterState_new_inv.
  - vm_compute. reflexivity.
  - rewrite Hn, lookup_insert_eq. vm_compute. reflexivity.
Defined.

(** ** Named actors *)

Lemma named_registered_nodes p n aid md st q :
  nodes_of q (named_actors (handle_named_registered p n aid md st)) =
  if decide (as_str p = as_str q) then {[n]} ∪ nodes_of q (named_actors st) else nodes_of q (named_actors st).
Proof.
  unfold handle_named_registered. destruct aid; simpl.
  - by rewrite nodes_of_register_full.
  - by rewrite nodes_of_register_legacy.
Qed.

(** Registering a named actor adds this node, and its actor id and
    metadata, to the path's record and to no other; a peer that handles the
    message the registration broadcasts learns the same instance. *)
Theorem register_reaches_peers `{Oracle, Codec} cfg p a md st peer_st now peer :
  let st' := (register_named_actor_full cfg p a md st).1 in
  let msg := NamedActorRegistered p (local_node st) (Some a) md in
  let peer_st' := (handle_gossip now msg peer peer_st).1 in
  (∀ q, nodes_of q (named_actors st') =
     if decide (as_str p = as_str q) then {[local_node st]} ∪ nodes_of q (named_actors st)
     else nodes_of q (named_actors st)) ∧
  instance_of p (local_node st) (named_actors st') = Some (mk_instance (local_node st) a md) ∧
  instance_of p (local_node st) (named_actors peer_st') = instance_of p (local_node st) (named_actors st') ∧
  (∀ q n, q ≠ p → n ∈ nodes_of q (named_actors peer_st) → n ∈ nodes_of q (named_actors peer_st')) ∧
  (∀ a', actors st' !! a' = actors st !! a').
Proof.
  simpl. split_and!; [| | | |done].
  - intros q. by rewrite nodes_of_register_full.
  - rewrite instance_of_register_full. by rewrite decide_True.
  - rewrite !instance_of_register_full. by rewrite !decide_True.
  - intros q n _ Hn. rewrite nodes_of_register_full. case_decide; set_solver.
Qed.

Lemma unregister_named_actors `{Oracle, Codec} cfg p st :
  named_actors (unregister_named_actor cfg p st).1 = unregister p (local_node st) (named_actors st).
Proof. unfold unregister_named_actor. by destruct (_ <$> _). Qed.

(** Unregistering a named actor withdraws this node's instance and the
    actor it ran, keeps every other node's instance and every other path, and
    a peer that handles the broadcast withdraws the same instance. *)
Theorem unregister_withdraws `{Oracle, Codec} cfg p st peer_st now peer :
  cluster_inv st → cluster_inv peer_st →
  let st' := (unregister_named_actor cfg p st).1 in
  let peer_st' := (handle_gossip now (NamedActorUnregistered p (local_node st)) peer peer_st).1 in
  (∀ q, nodes_of q (named_actors st') =
     if decide (as_str p = as_str q) then nodes_of q (named_actors st) ∖ {[local_node st]}
     else nodes_of q (named_actors st)) ∧
  (∀ i, instance_of p (local_node st) (named_actors st) = Some i → lookup_actor (i_actor_id i) st' = None) ∧
  (∀ q, nodes_of q (named_actors peer_st') =
     if decide (as_str p = as_str q) then nodes_of q (named_actors peer_st) ∖ {[local_node st]}
     else nodes_of q (named_actors peer_st)).
Proof.
  intros [_ Ht _] [_ Htp _]. simpl. split_and!.
  - intros q. by rewrite unregister_named_actors, nodes_of_unregister.
  - intros i Hin. unfold unregister_named_actor. rewrite Hin. simpl.
    unfold lookup_actor. simpl. by rewrite lookup_delete_eq.
  - intros q. by rewrite nodes_of_unregister.
Qed.

Lemma unregister_withdraws_witness :
  let a := mk_addr (V4 1) 80 in
  let st := set_named (register_legacy router_path 1 (register_legacy router_path 2 ∅)) (ClusterState_new 0 1 a) in
  let peer_st := (handle_gossip 0 (NamedActorUnregistered router_path 1) a st).1 in
  nodes_of router_path (named_actors peer_st) = {[2]}.
Proof.
  intros a st peer_st.
  assert (Hi : cluster_inv st).
  { apply set_named_inv; [apply ClusterState_new_inv|]. apply register_legacy_wf, register_legacy_wf, map_Forall_empty. }
  pose (codec := {| encode := λ _, None; decode := λ _, None; decode_encode := λ _ _ (H : None = Some _), match H with end |}).
  destruct (@unregister_withdraws first_oracle codec default_config router_path st st 0 a Hi Hi) as (_ & _ & Hp).
  etransitivity; [exact (Hp router_path)|]. vm_compute. reflexivity.
Defined.

(** A withdrawn instance comes back: records carry no trace of a removal,
    so merging the record of a peer that has not yet heard of it restores the
    instance, on the very node that withdrew it. *)
Theorem stale_record_restores_instance `{Oracle, Codec} cfg p st info :
  cluster_inv st → info_ok info → as_str (path info) = as_str p →
  local_node st ∈ instance_nodes info →
  let st' := (unregister_named_actor cfg p st).1 in
  local_node st ∉ nodes_of p (named_actors st') ∧
  local_node st ∈ nodes_of p (named_actors (merge_named_actors [info] st')).
Proof.
  intros [_ Ht _] _ Hp Hn st'. subst st'. split.
  - rewrite unregister_named_actors, nodes_of_unregister by done. rewrite decide_True by done. set_solver.
  - unfold merge_named_actors. cbn [foldl named_actors set_named].
    rewrite nodes_of_merge, decide_True by done. set_solver.
Qed.

Lemma stale_record_restores_instance_witness :
  let st := set_named (register_legacy router_path 1 ∅) (ClusterState_new 0 1 (mk_addr (V4 1) 80)) in
  1 ∈ nodes_of router_path
        (named_actors (merge_named_actors [info_with_instance router_path 1]
           (set_named (unregister router_path 1 (named_actors st)) st))).
Proof.
  intros st.
  pose (codec := {| encode := λ _, None; decode := λ _, None; decode_encode := λ _ _ (H : None = Some _), match H with end |}).
  apply (@stale_record_restores_instance first_oracle codec default_config router_path st (info_with_instance router_path 1)).
  - apply set_named_inv; [apply ClusterState_new_inv|]. apply register_legacy_wf, map_Forall_empty.
  - split_and!; [done|apply with_instance_wf|]. apply (is_empty_false 1). simpl. set_solver.
  - done.
  - simpl. set_solver.
Defined.

(** ** Reports about the reporter *)

(** A live node takes a failure report about itself at face value and then
    spreads it: its next ping names itself as failed, and a peer whose own
    epoch counter is not ahead of the report first takes the sender back as
    online and then, from the same ping, marks it failed again. *)
Theorem self_failure_spreads `{Oracle} st f n now' e0 peer peer_st n' :
  cluster_inv st → f_node_id f = local_node st → f_status f = Fail →
  cluster_nodes st !! local_node st = Some n → status n = Online → epoch n <= f_epoch f →
  cluster_nodes peer_st !! local_node st = Some n' → status n' = Fail →
  current_epoch peer_st +w 1 <= f_epoch f →
  let st' := handle_failure f st in
  let report := mk_failure (local_node st) Fail (f_epoch f) (local_node st) in
  report ∈ get_failures st' ∧
  status <$> cluster_nodes (touch_node now' (local_node st) peer_st) !! local_node st = Some Online ∧
  status <$> cluster_nodes (handle_gossip now' (Ping (local_node st) e0 [] [report] None) peer peer_st).1
    !! local_node st = Some Fail.
Proof.
  intros Hi Hf Hs Hn Hon He Hn' Hs' He' st' report. split_and!.
  - apply elem_of_get_failures. subst st'. unfold handle_failure. rewrite Hf, Hn, Hs, Hon.
    replace (epoch n <=? f_epoch f) with true by lia. simpl.
    eexists. split; [exists (local_node st); simpl; by rewrite lookup_insert_eq|]. simpl.
    split; [by right|]. unfold report. f_equal. symmetry.
    by apply (inv_keys _ _ _ (inv_nodes _ Hi)) in Hn.
  - unfold touch_node. rewrite Hn'. cbn [status]. rewrite Hs'. simpl. by rewrite lookup_insert_eq.
  - simpl. unfold handle_failures, handle_failure, merge_nodes. simpl.
    unfold touch_node. rewrite Hn'. cbn [status]. rewrite Hs'. simpl. rewrite lookup_insert_eq. simpl.
    replace (current_epoch peer_st +w 1 <=? f_epoch f) with true by lia. simpl.
    by rewrite lookup_insert_eq.
Qed.

Lemma self_failure_spreads_witness :
  let a := mk_addr (V4 1) 80 in
  let f := mk_failure 1 Fail 5 2 in
  let peer_st := handle_failure f (handle_meet 0 1 a 0 a (ClusterState_new 0 2 a)) in
  status <$> cluster_nodes (handle_gossip 9 (Ping 1 0 [] [mk_failure 1 Fail 5 1] None) a peer_st).1 !! 1 = Some Fail.
Proof.
  intros a f peer_st. set (st := ClusterState_new 0 1 a).
  destruct (self_failure_spreads st f (ClusterNode_new 0 1 a 0) 9 0 a peer_st (mk_node 1 a Fail 5 0)) as (_ & _ & Hp).
  - apply ClusterState_new_inv.
  - done.
  - done.
  - vm_compute. reflexivity.
  - done.
  - simpl. lia.
  - vm_compute. reflexivity.
  - done.
  - vm_compute. discriminate.
  - exact Hp.
Defined.

(** ** Epochs are local *)

(** The epoch put on a verdict is this node's own counter, which received
    epochs never advance: when the judged node's entry carries a higher epoch,
    the verdict lowers it here and is ignored by every peer that holds the
    entry. *)
Theorem late_verdict_is_ignored `{Oracle} id n st peer_st n' peer :
  cluster_inv st → cluster_nodes st !! id = Some n → status n = Online →
  current_epoch st +w 1 < epoch n →
  cluster_nodes peer_st !! id = Some n' → epoch n' = epoch n →
  let st' := mark_pfail id st in
  let e := current_epoch st +w 1 in
  mk_failure id PFail e (local_node st) ∈ get_failures st' ∧ e < epoch n ∧
  handle_failure (mk_failure id PFail e (local_node st)) peer_st = peer_st ∧
  (∀ n1, cluster_nodes st' !! id = Some n1 → epoch n1 = e ∧ merge_node n1 peer peer_st = peer_st).
Proof.
  intros Hi Hn Hon Hlt Hn' He st' e.
  pose proof (inv_keys _ _ _ (inv_nodes _ Hi) _ _ Hn) as Hid. simpl in Hid.
  assert (Hst : cluster_nodes st' !! id = Some (mk_node id (addr n) PFail e (last_seen n))).
  { subst st'. unfold mark_pfail. rewrite Hn, Hon. simpl. rewrite lookup_insert_eq. by rewrite Hid. }
  split_and!; [|done| |].
  - apply elem_of_get_failures. eexists. split; [by exists id|]. split; [by left|]. simpl.
    subst st'. unfold mark_pfail. rewrite Hn, Hon. done.
  - unfold handle_failure. simpl. rewrite Hn'. by replace (epoch n' <=? e) with false by lia.
  - intros n1 Hn1. rewrite Hst in Hn1. simplify_eq. split; [done|]. unfold merge_node. simpl. rewrite Hn'.
    replace (epoch n' <? e) with false by lia. by replace (e =? epoch n') with false by lia.
Qed.

Lemma late_verdict_is_ignored_witness :
  let a := mk_addr (V4 1) 80 in
  let st := handle_meet 0 2 a 40 a (ClusterState_new 0 1 a) in
  let peer_st := handle_meet 0 2 a 40 a (ClusterState_new 0 3 a) in
  handle_failure (mk_failure 2 PFail 1 1) peer_st = peer_st.
Proof.
  intros a st peer_st.
  destruct (late_verdict_is_ignored 2 (mk_node 2 a Online 40 0) st peer_st (mk_node 2 a Online 40 0) a) as (_ & _ & Hp & _).
  - apply handle_meet_inv, ClusterState_new_inv.
  - vm_compute. reflexivity.
  - done.
  - vm_compute. reflexivity.
  - vm_compute. reflexivity.
  - done.
  - exact Hp.
Defined.
