(* ===== verification/Head.v ===== *)
(** * The head-node backend

    [cluster/backends/head.rs]: a head node keeps the registry of nodes, named
    actors and actors; workers forward their registrations to it through a
    queue of pending operations and replace their caches by what it sends.
    Clock readings and the link to the head are arguments. *)
From S2P Require Import Prelude Text Address Member.

(** Durations are in milliseconds.
    src: crates/pulsing-actor/src/cluster/backends/head.rs 19-25 HeadNodeConfig *)
Record HeadNodeConfig := mk_head_config {
  sync_interval : Z; heartbeat_interval : Z; heartbeat_timeout : Z }.
(** src: crates/pulsing-actor/src/cluster/backends/head.rs 27-35 HeadNodeConfig::default *)
Definition default_head_config : HeadNodeConfig := mk_head_config 5000 10000 30000.

(** src: crates/pulsing-actor/src/cluster/backends/head.rs 37-41 NodeMode *)
Inductive NodeMode := HeadMode | WorkerMode (head_addr : SocketAddr).

(** src: crates/pulsing-actor/src/cluster/backends/head.rs 43-48 NodeRegistration *)
Record NodeRegistration := mk_reg { r_node_id : NodeId; r_addr : SocketAddr; last_heartbeat : Z }.

(** ** The head's registry *)

(** src: crates/pulsing-actor/src/cluster/backends/head.rs 50-54 HeadNodeState *)
Record HeadNodeState := mk_head {
  nodes : gmap Z NodeRegistration;
  h_named : gmap (list Z) NamedActorInfo;
  h_actors : gmap Z Z }.

(** src: crates/pulsing-actor/src/cluster/backends/head.rs 57-63 HeadNodeState::new *)
Definition HeadNodeState_new : HeadNodeState := mk_head ∅ ∅ ∅.

(** src: crates/pulsing-actor/src/cluster/backends/head.rs 65-75 register_node *)
Definition register_node (now : Z) (id : NodeId) (a : SocketAddr) (h : HeadNodeState) : HeadNodeState :=
  mk_head (<[id := mk_reg id a now]> (nodes h)) (h_named h) (h_actors h).

(** src: crates/pulsing-actor/src/cluster/backends/head.rs 77-84 update_heartbeat *)
Definition update_heartbeat (now : Z) (id : NodeId) (h : HeadNodeState) : bool * HeadNodeState :=
  match nodes h !! id with
  | Some reg => (true, mk_head (<[id := mk_reg (r_node_id reg) (r_addr reg) now]> (nodes h)) (h_named h) (h_actors h))
  | None => (false, h)
  end.

(** The clean-up after one removed node.
    src: crates/pulsing-actor/src/cluster/backends/head.rs 99-105 remove_stale_nodes (loop) *)
Definition forget_node (h : HeadNodeState) (id : NodeId) : HeadNodeState :=
  mk_head (nodes h) (retain_non_empty (remove_node_everywhere id (h_named h)))
    (filter (λ an, an.2 ≠ id) (h_actors h)).

(** src: crates/pulsing-actor/src/cluster/backends/head.rs 86-108 remove_stale_nodes *)
Definition remove_stale_nodes `{Oracle} (now timeout_ms : Z) (h : HeadNodeState) : list NodeId * HeadNodeState :=
  let stale (reg : NodeRegistration) := timeout_ms < saturating_sub now (last_heartbeat reg) in
  let removed := (filter (λ kr, stale kr.2) (hm_iter (nodes h))).*1 in
  let h := mk_head (filter (λ kr, ¬ stale kr.2) (nodes h)) (h_named h) (h_actors h) in
  (removed, foldl forget_node h removed).

(** src: crates/pulsing-actor/src/cluster/backends/head.rs 110-130 register_named_actor *)
Definition head_register_named (p : ActorPath) (n : NodeId) (aid : option ActorId)
    (md : gmap (list Z) (list Z)) (h : HeadNodeState) : HeadNodeState :=
  match aid with
  | Some a => mk_head (nodes h) (register_full p (with_metadata n a md) (h_named h)) (h_actors h)
  | None => mk_head (nodes h) (register_legacy p n (h_named h)) (h_actors h)
  end.

(** src: crates/pulsing-actor/src/cluster/backends/head.rs 132-140 unregister_named_actor *)
Definition head_unregister_named (p : ActorPath) (n : NodeId) (h : HeadNodeState) : HeadNodeState :=
  mk_head (nodes h) (unregister p n (h_named h)) (h_actors h).

(** src: crates/pulsing-actor/src/cluster/backends/head.rs 142-144 register_actor *)
Definition head_register_actor (a : ActorId) (n : NodeId) (h : HeadNodeState) : HeadNodeState :=
  mk_head (nodes h) (h_named h) (<[a := n]> (h_actors h)).
(** src: crates/pulsing-actor/src/cluster/backends/head.rs 146-148 unregister_actor *)
Definition head_unregister_actor (a : ActorId) (h : HeadNodeState) : HeadNodeState :=
  mk_head (nodes h) (h_named h) (delete a (h_actors h)).

(** The member a registration stands for, always alive.
    src: crates/pulsing-actor/src/cluster/backends/head.rs 153-160 all_members (map) *)
Definition member_of (reg : NodeRegistration) : MemberInfo :=
  mk_member (r_node_id reg) (r_addr reg) (r_addr reg) Alive 0 None.
(** src: crates/pulsing-actor/src/cluster/backends/head.rs 150-162 all_members *)
Definition head_all_members `{Oracle} (h : HeadNodeState) : list MemberInfo := member_of <$> hm_values (nodes h).
(** src: crates/pulsing-actor/src/cluster/backends/head.rs 164-166 all_named_actors *)
Definition head_all_named `{Oracle} (h : HeadNodeState) : list NamedActorInfo := hm_values (h_named h).

(** src: crates/pulsing-actor/src/cluster/backends/head.rs 1274-1283 SyncResponse *)
Record SyncResponse := mk_sync {
  s_members : list MemberInfo; s_named : list NamedActorInfo; s_actors : list (ActorId * NodeId) }.

(** ** A worker's cache *)

(** src: crates/pulsing-actor/src/cluster/backends/head.rs 185-201 SyncOperation *)
Inductive SyncOperation :=
  | RegisterNamed (p : ActorPath) (aid : option ActorId) (md : gmap (list Z) (list Z))
  | UnregisterNamed (p : ActorPath)
  | Register (a : ActorId)
  | Unregister (a : ActorId).

(** src: crates/pulsing-actor/src/cluster/backends/head.rs 174-183 WorkerNodeState *)
Record WorkerNodeState := mk_worker {
  w_members : gmap Z MemberInfo;
  w_named : gmap (list Z) NamedActorInfo;
  w_actors : gmap Z Z;
  pending_sync : list SyncOperation }.

(** src: crates/pulsing-actor/src/cluster/backends/head.rs 204-211 WorkerNodeState::new *)
Definition WorkerNodeState_new : WorkerNodeState := mk_worker ∅ ∅ ∅ [].

(** src: crates/pulsing-actor/src/cluster/backends/head.rs 214-233 update_from_sync *)
Definition update_from_sync (s : SyncResponse) (w : WorkerNodeState) : WorkerNodeState :=
  mk_worker
    (foldl (λ m mem, <[m_node_id mem := mem]> m) ∅ (s_members s))
    (foldl (λ t info, <[as_str (path info) := info]> t) ∅ (s_named s))
    (foldl (λ m an, <[an.1 := an.2]> m) ∅ (s_actors s))
    (pending_sync w).

(** src: crates/pulsing-actor/src/cluster/backends/head.rs 236-238 add_pending_sync *)
Definition add_pending_sync (op : SyncOperation) (w : WorkerNodeState) : WorkerNodeState :=
  mk_worker (w_members w) (w_named w) (w_actors w) (pending_sync w ++ [op]).
(** src: crates/pulsing-actor/src/cluster/backends/head.rs 241-243 take_pending_sync *)
Definition take_pending_sync (w : WorkerNodeState) : list SyncOperation * WorkerNodeState :=
  (pending_sync w, mk_worker (w_members w) (w_named w) (w_actors w) []).
Definition set_w_named (t : NamedTable) (w : WorkerNodeState) : WorkerNodeState :=
  mk_worker (w_members w) t (w_actors w) (pending_sync w).
Definition set_w_actors (m : gmap Z Z) (w : WorkerNodeState) : WorkerNodeState :=
  mk_worker (w_members w) (w_named w) m (pending_sync w).

(** ** The backend *)

(** src: crates/pulsing-actor/src/cluster/backends/head.rs 250-253 BackendState *)
Inductive BackendState := HeadSt (h : HeadNodeState) | WorkerSt (w : WorkerNodeState).

(** The HTTP client exists exactly in worker mode.
    src: crates/pulsing-actor/src/cluster/backends/head.rs 259-268 HeadNodeBackend *)
Record HeadNodeBackend := mk_backend {
  mode : NodeMode; b_local_node : NodeId; b_local_addr : SocketAddr; b_state : BackendState; b_config : HeadNodeConfig }.

(** src: crates/pulsing-actor/src/cluster/backends/head.rs 289-325 with_config *)
Definition with_config (id : NodeId) (a : SocketAddr) (head_addr : option SocketAddr) (cfg : HeadNodeConfig) : HeadNodeBackend :=
  match head_addr with
  | Some ha => mk_backend (WorkerMode ha) id a (WorkerSt WorkerNodeState_new) cfg
  | None => mk_backend HeadMode id a (HeadSt HeadNodeState_new) cfg
  end.

(** src: crates/pulsing-actor/src/cluster/backends/head.rs 336-338 is_head *)
Definition is_head (b : HeadNodeBackend) : bool := match mode b with HeadMode => true | WorkerMode _ => false end.
(** src: crates/pulsing-actor/src/cluster/backends/head.rs 341-346 head_addr *)
Definition backend_head_addr (b : HeadNodeBackend) : option SocketAddr :=
  match mode b with HeadMode => None | WorkerMode a => Some a end.

Definition set_state (s : BackendState) (b : HeadNodeBackend) : HeadNodeBackend :=
  mk_backend (mode b) (b_local_node b) (b_local_addr b) s (b_config b).
(** [if let BackendState::Head(ref mut head) = *state]: no effect otherwise. *)
Definition on_head (f : HeadNodeState → HeadNodeState) (b : HeadNodeBackend) : HeadNodeBackend :=
  match b_state b with HeadSt h => set_state (HeadSt (f h)) b | WorkerSt _ => b end.
Definition on_worker (f : WorkerNodeState → WorkerNodeState) (b : HeadNodeBackend) : HeadNodeBackend :=
  match b_state b with WorkerSt w => set_state (WorkerSt (f w)) b | HeadSt _ => b end.

(** The errors of the backend, by their text. *)
Inductive HeadError :=
  | NotAHeadNode | NodeNotFound (id : NodeId) | InvalidState | IsAHeadNode
  | SerializationError | TransportError.
Notation HResult A := (Result A HeadError).

(** ** Requests a head handles *)

(** The bodies of the HTTP requests.
    src: crates/pulsing-actor/src/cluster/backends/head.rs 1237-1272 RegisterNodeRequest and the other requests *)
Inductive Request :=
  | RegisterNodeRequest (id : NodeId) (a : SocketAddr)
  | HeartbeatRequest (id : NodeId)
  | RegisterNamedActorRequest (p : ActorPath) (n : NodeId) (aid : option ActorId) (md : gmap (list Z) (list Z))
  | UnregisterNamedActorRequest (p : ActorPath) (n : NodeId)
  | RegisterActorRequest (a : ActorId) (n : NodeId)
  | UnregisterActorRequest (a : ActorId) (n : NodeId).

(** src: crates/pulsing-actor/src/cluster/backends/head.rs 349-362 handle_register_node *)
Definition handle_register_node (now : Z) (id : NodeId) (a : SocketAddr) (b : HeadNodeBackend) : HeadNodeBackend * HResult unit :=
  if is_head b then (on_head (register_node now id a) b, Ok tt) else (b, Err NotAHeadNode).

(** src: crates/pulsing-actor/src/cluster/backends/head.rs 365-386 handle_heartbeat *)
Definition handle_heartbeat (now : Z) (id : NodeId) (b : HeadNodeBackend) : HeadNodeBackend * HResult unit :=
  if is_head b then
    match b_state b with
    | HeadSt h =>
        let '(found, h') := update_heartbeat now id h in
        (set_state (HeadSt h') b, if found then Ok tt else Err (NodeNotFound id))
    | WorkerSt _ => (b, Err InvalidState)
    end
  else (b, Err NotAHeadNode).

(** src: crates/pulsing-actor/src/cluster/backends/head.rs 389-408 handle_register_named_actor *)
Definition handle_register_named_actor (p : ActorPath) (n : NodeId) (aid : option ActorId)
    (md : gmap (list Z) (list Z)) (b : HeadNodeBackend) : HeadNodeBackend * HResult unit :=
  if is_head b then (on_head (head_register_named p n aid md) b, Ok tt) else (b, Err NotAHeadNode).

(** src: crates/pulsing-actor/src/cluster/backends/head.rs 411-428 handle_unregister_named_actor *)
Definition handle_unregister_named_actor (p : ActorPath) (n : NodeId) (b : HeadNodeBackend) : HeadNodeBackend * HResult unit :=
  if is_head b then (on_head (head_unregister_named p n) b, Ok tt) else (b, Err NotAHeadNode).

(** src: crates/pulsing-actor/src/cluster/backends/head.rs 431-444 handle_register_actor *)
Definition handle_register_actor (a : ActorId) (n : NodeId) (b : HeadNodeBackend) : HeadNodeBackend * HResult unit :=
  if is_head b then (on_head (head_register_actor a n) b, Ok tt) else (b, Err NotAHeadNode).

(** src: crates/pulsing-actor/src/cluster/backends/head.rs 447-467 handle_unregister_actor *)
Definition handle_unregister_actor (a : ActorId) (n : NodeId) (b : HeadNodeBackend) : HeadNodeBackend * HResult unit :=
  if is_head b then
    (on_head (λ h, if bool_decide (h_actors h !! a = Some n) then head_unregister_actor a h else h) b, Ok tt)
  else (b, Err NotAHeadNode).

(** src: crates/pulsing-actor/src/cluster/backends/head.rs 470-493 handle_sync *)
Definition handle_sync `{Oracle} (b : HeadNodeBackend) : HResult SyncResponse :=
  if is_head b then
    match b_state b with
    | HeadSt h => Ok (mk_sync (head_all_members h) (head_all_named h) (hm_iter (h_actors h)))
    | WorkerSt _ => Err InvalidState
    end
  else Err NotAHeadNode.

(** What the head does with a request. *)
Definition serve (now : Z) (r : Request) (b : HeadNodeBackend) : HeadNodeBackend * HResult unit :=
  match r with
  | RegisterNodeRequest id a => handle_register_node now id a b
  | HeartbeatRequest id => handle_heartbeat now id b
  | RegisterNamedActorRequest p n aid md => handle_register_named_actor p n aid md b
  | UnregisterNamedActorRequest p n => handle_unregister_named_actor p n b
  | RegisterActorRequest a n => handle_register_actor a n b
  | UnregisterActorRequest a n => handle_unregister_actor a n b
  end.

(** ** The worker's side *)

(** What the environment does with the requests a call sends: whether each
    encodes, whether the [k]-th one is delivered, and what a sync returns. *)
Record Link := mk_link {
  encodes : Request → bool;
  delivers : nat → Request → bool;
  sync_reply : option SyncResponse }.

(** src: crates/pulsing-actor/src/cluster/backends/head.rs 521-542 tell_head *)
Definition tell_head (l : Link) (k : nat) (r : Request) (b : HeadNodeBackend) : HResult unit :=
  match backend_head_addr b with
  | None => Err IsAHeadNode
  | Some _ => if delivers l k r then Ok tt else Err TransportError
  end.

(** src: crates/pulsing-actor/src/cluster/backends/head.rs 545-562 sync_from_head *)
Definition sync_from_head (l : Link) (b : HeadNodeBackend) : HeadNodeBackend * HResult unit :=
  if is_head b then (b, Err IsAHeadNode)
  else match sync_reply l with
       | Some s => (on_worker (update_from_sync s) b, Ok tt)
       | None => (b, Err TransportError)
       end.

(** src: crates/pulsing-actor/src/cluster/backends/head.rs 565-589 register_with_head *)
Definition register_with_head (l : Link) (k : nat) (b : HeadNodeBackend) : HResult unit :=
  if is_head b then Err IsAHeadNode
  else let r := RegisterNodeRequest (b_local_node b) (b_local_addr b) in
       if encodes l r then tell_head l k r b else Err SerializationError.

(** src: crates/pulsing-actor/src/cluster/backends/head.rs 592-609 send_heartbeat *)
Definition send_heartbeat (l : Link) (k : nat) (b : HeadNodeBackend) : HResult unit :=
  if is_head b then Err IsAHeadNode
  else let r := HeartbeatRequest (b_local_node b) in
       if encodes l r then tell_head l k r b else Err SerializationError.

Definition request_of (local : NodeId) (op : SyncOperation) : Request :=
  match op with
  | RegisterNamed p aid md => RegisterNamedActorRequest p local aid md
  | UnregisterNamed p => UnregisterNamedActorRequest p local
  | Register a => RegisterActorRequest a local
  | Unregister a => UnregisterActorRequest a local
  end.

(** The loop over the taken operations: an undelivered one is queued again, an
    encoding error ends the loop. Also yields the delivered requests.
    src: crates/pulsing-actor/src/cluster/backends/head.rs 626-730 process_pending_sync (loop) *)
Fixpoint process_ops (l : Link) (k : nat) (ops : list SyncOperation) (b : HeadNodeBackend)
    : HeadNodeBackend * list Request * HResult unit :=
  match ops with
  | [] => (b, [], Ok tt)
  | op :: ops =>
      let r := request_of (b_local_node b) op in
      if encodes l r then
        match tell_head l k r b with
        | Ok _ => let '(b', sent, res) := process_ops l (S k) ops b in (b', r :: sent, res)
        | Err _ => process_ops l (S k) ops (on_worker (add_pending_sync op) b)
        end
      else (b, [], Err SerializationError)
  end.

(** src: crates/pulsing-actor/src/cluster/backends/head.rs 612-733 process_pending_sync *)
Definition process_pending_sync (l : Link) (k : nat) (b : HeadNodeBackend) : HeadNodeBackend * list Request * HResult unit :=
  if is_head b then (b, [], Ok tt)
  else match b_state b with
       | WorkerSt w =>
           let '(ops, w') := take_pending_sync w in
           process_ops l k ops (set_state (WorkerSt w') b)
       | HeadSt _ => (b, [], Ok tt)
       end.

(** ** The naming interface *)

(** src: crates/pulsing-actor/src/cluster/backends/head.rs 746-762 join *)
Definition backend_join (l : Link) (now : Z) (b : HeadNodeBackend) : HeadNodeBackend * HResult unit :=
  if is_head b then (on_head (register_node now (b_local_node b) (b_local_addr b)) b, Ok tt)
  else match register_with_head l 0 b with
       | Ok _ => sync_from_head l b
       | Err e => (b, Err e)
       end.

(** src: crates/pulsing-actor/src/cluster/backends/head.rs 764-780 leave *)
Definition backend_leave (b : HeadNodeBackend) : HeadNodeBackend :=
  if is_head b then on_head (λ _, HeadNodeState_new) b else b.

(** A query reads the head's registry or the worker's cache, by the mode, and
    yields [none] when the state is of the other kind. *)
Definition read_state {A} (none : A) (fh : HeadNodeState → A) (fw : WorkerNodeState → A) (b : HeadNodeBackend) : A :=
  if is_head b then match b_state b with HeadSt h => fh h | WorkerSt _ => none end
  else match b_state b with WorkerSt w => fw w | HeadSt _ => none end.

(** src: crates/pulsing-actor/src/cluster/backends/head.rs 782-799 all_members *)
Definition backend_all_members `{Oracle} (b : HeadNodeBackend) : list MemberInfo :=
  read_state [] head_all_members (λ w, hm_values (w_members w)) b.
(** src: crates/pulsing-actor/src/cluster/backends/head.rs 801-806 alive_members *)
Definition backend_alive_members `{Oracle} (b : HeadNodeBackend) : list MemberInfo :=
  filter (λ m, m_status m = Alive ∧ m_node_id m ≠ b_local_node b) (backend_all_members b).
(** src: crates/pulsing-actor/src/cluster/backends/head.rs 808-832 get_member *)
Definition backend_get_member (id : NodeId) (b : HeadNodeBackend) : option MemberInfo :=
  read_state None (λ h, member_of <$> nodes h !! id) (λ w, w_members w !! id) b.

(** Queue the operation, update the cache, then try to sync at once; the
    result of the attempt is dropped. *)
Definition queue_and_sync (l : Link) (op : SyncOperation) (f : WorkerNodeState → WorkerNodeState)
    (b : HeadNodeBackend) : HeadNodeBackend * list Request :=
  let b := on_worker (λ w, f (add_pending_sync op w)) b in
  (process_pending_sync l 0 b).1.

(** src: crates/pulsing-actor/src/cluster/backends/head.rs 838-873 register_named_actor *)
Definition backend_register_named (l : Link) (p : ActorPath) (b : HeadNodeBackend) : HeadNodeBackend * list Request :=
  if is_head b then (on_head (head_register_named p (b_local_node b) None ∅) b, [])
  else queue_and_sync l (RegisterNamed p None ∅)
         (λ w, set_w_named (register_legacy p (b_local_node b) (w_named w)) w) b.

(** src: crates/pulsing-actor/src/cluster/backends/head.rs 875-917 register_named_actor_full *)
Definition backend_register_named_full (l : Link) (p : ActorPath) (a : ActorId) (md : gmap (list Z) (list Z))
    (b : HeadNodeBackend) : HeadNodeBackend * list Request :=
  if is_head b then (on_head (head_register_named p (b_local_node b) (Some a) md) b, [])
  else queue_and_sync l (RegisterNamed p (Some a) md)
         (λ w, set_w_named (register_full p (with_metadata (b_local_node b) a md) (w_named w)) w) b.

(** src: crates/pulsing-actor/src/cluster/backends/head.rs 919-948 unregister_named_actor *)
Definition backend_unregister_named (l : Link) (p : ActorPath) (b : HeadNodeBackend) : HeadNodeBackend * list Request :=
  if is_head b then (on_head (head_unregister_named p (b_local_node b)) b, [])
  else queue_and_sync l (UnregisterNamed p)
         (λ w, set_w_named (unregister p (b_local_node b) (w_named w)) w) b.

(** src: crates/pulsing-actor/src/cluster/backends/head.rs 950-953 broadcast_named_actor_failed *)
Definition backend_named_failed (l : Link) (p : ActorPath) (b : HeadNodeBackend) : HeadNodeBackend * list Request :=
  backend_unregister_named l p b.

(** src: crates/pulsing-actor/src/cluster/backends/head.rs 959-982 lookup_named_actor *)
Definition backend_lookup_named (p : ActorPath) (b : HeadNodeBackend) : option NamedActorInfo :=
  read_state None (λ h, h_named h !! as_str p) (λ w, w_named w !! as_str p) b.
(** src: crates/pulsing-actor/src/cluster/backends/head.rs 984-988 select_named_actor_instance *)
Definition backend_select `{Oracle} (p : ActorPath) (b : HeadNodeBackend) : option MemberInfo :=
  info ← backend_lookup_named p b; n ← select_instance info; backend_get_member n b.
(** src: crates/pulsing-actor/src/cluster/backends/head.rs 990-1003 get_named_actor_instances *)
Definition backend_instances (p : ActorPath) (b : HeadNodeBackend) : list MemberInfo :=
  match backend_lookup_named p b with
  | Some info => omap (λ n, backend_get_member n b) (elements (instance_nodes info))
  | None => []
  end.
(** src: crates/pulsing-actor/src/cluster/backends/head.rs 1005-1022 get_named_actor_instances_detailed *)
Definition backend_instances_detailed (p : ActorPath) (b : HeadNodeBackend)
    : list (MemberInfo * option NamedActorInstance) :=
  match backend_lookup_named p b with
  | Some info => omap (λ n, (λ m, (m, get_instance info n)) <$> backend_get_member n b) (elements (instance_nodes info))
  | None => []
  end.
(** src: crates/pulsing-actor/src/cluster/backends/head.rs 1024-1041 all_named_actors *)
Definition backend_all_named `{Oracle} (b : HeadNodeBackend) : list NamedActorInfo :=
  read_state [] head_all_named (λ w, hm_values (w_named w)) b.

(** src: crates/pulsing-actor/src/cluster/backends/head.rs 1047-1066 register_actor *)
Definition backend_register_actor (l : Link) (a : ActorId) (b : HeadNodeBackend) : HeadNodeBackend * list Request :=
  if is_head b then (on_head (head_register_actor a (b_local_node b)) b, [])
  else queue_and_sync l (Register a) (λ w, set_w_actors (<[a := b_local_node b]> (w_actors w)) w) b.
(** src: crates/pulsing-actor/src/cluster/backends/head.rs 1068-1089 unregister_actor *)
Definition backend_unregister_actor (l : Link) (a : ActorId) (b : HeadNodeBackend) : HeadNodeBackend * list Request :=
  if is_head b then (on_head (head_unregister_actor a) b, [])
  else queue_and_sync l (Unregister a) (λ w, set_w_actors (delete a (w_actors w)) w) b.
(** src: crates/pulsing-actor/src/cluster/backends/head.rs 1091-1110 lookup_actor *)
Definition backend_lookup_actor (a : ActorId) (b : HeadNodeBackend) : option MemberInfo :=
  n ← read_state None (λ h, h_actors h !! a) (λ w, w_actors w !! a) b; backend_get_member n b.

(** ** Background loops, one tick each *)

(** src: crates/pulsing-actor/src/cluster/backends/head.rs 1166-1175 heartbeat_timeout_loop (tick) *)
Definition heartbeat_timeout_tick `{Oracle} (now : Z) (b : HeadNodeBackend) : HeadNodeBackend :=
  on_head (λ h, (remove_stale_nodes now (heartbeat_timeout (b_config b)) h).2) b.

(** A failed sync ends the loop and cancels the node; [false] is that exit.
    src: crates/pulsing-actor/src/cluster/backends/head.rs 1190-1202 worker_sync_loop (tick) *)
Definition worker_sync_tick (l : Link) (b : HeadNodeBackend) : HeadNodeBackend * list Request * bool :=
  match sync_from_head l b with
  | (b, Err _) => (b, [], false)
  | (b, Ok _) => ((process_pending_sync l 0 b).1, true)
  end.

(** src: crates/pulsing-actor/src/cluster/backends/head.rs 1217-1224 worker_heartbeat_loop (tick) *)
Definition worker_heartbeat_tick (l : Link) (b : HeadNodeBackend) : bool :=
  match send_heartbeat l 0 b with Ok _ => true | Err _ => false end.
