(* ===== verification/HeadFacts.v ===== *)
(** * Properties of the head-node backend

    The registry keeps no reference to a node it dropped, a sync makes a
    worker's view equal to the head's, and the queue of pending operations
    loses nothing. *)
From S2P Require Import Prelude Text Address Member Head.

(** ** Removing stale nodes *)
Definition stale (now timeout : Z) (reg : NodeRegistration) : Prop :=
  timeout < saturating_sub now (last_heartbeat reg).

Lemma forget_nodes_wf ids h : table_wf (h_named h) → table_wf (h_named (foldl forget_node h ids)).
Proof.
  intros Ht. apply (foldl_invariant (λ h, table_wf (h_named h))); [done|].
  intros s id _ Hs. simpl. auto with pulsing.
Qed.

Lemma forget_nodes_nodes ids h : nodes (foldl forget_node h ids) = nodes h.
Proof. revert h. induction ids as [|id ids IH]; intros h; [done|]. simpl. by rewrite IH. Qed.

Lemma forget_nodes_named ids h q x :
  table_wf (h_named h) →
  x ∈ nodes_of q (h_named (foldl forget_node h ids)) ↔ x ∈ nodes_of q (h_named h) ∧ x ∉ ids.
Proof.
  revert h. induction ids as [|id ids IH]; intros h Ht; [set_solver|]. simpl.
  rewrite IH by (simpl; auto with pulsing). simpl. rewrite nodes_of_remove_node by done. set_solver.
Qed.

Lemma forget_nodes_actors ids h a n :
  h_actors (foldl forget_node h ids) !! a = Some n ↔ h_actors h !! a = Some n ∧ n ∉ ids.
Proof.
  revert h. induction ids as [|id ids IH]; intros h; [set_solver|]. simpl.
  rewrite IH. simpl. rewrite map_lookup_filter_Some. set_solver.
Qed.

Lemma removed_elem `{Oracle} now timeout h id :
  id ∈ (remove_stale_nodes now timeout h).1 ↔ ∃ reg, nodes h !! id = Some reg ∧ stale now timeout reg.
Proof.
  unfold remove_stale_nodes. simpl. rewrite list_elem_of_fmap. split.
  - intros ([k reg] & -> & [Hs Hin]%list_elem_of_filter). apply elem_of_hm_iter in Hin. eauto.
  - intros (reg & Hr & Hs). exists (id, reg). split; [done|].
    apply list_elem_of_filter. split; [done|]. by apply elem_of_hm_iter.
Qed.

(** A timeout sweep removes exactly the nodes whose last heartbeat is older
    than the timeout, reports them, and leaves no trace of them: no named actor
    lists one and no actor is placed on one, while every other node, instance
    and actor is kept. *)
Theorem remove_stale_nodes_spec `{Oracle} now timeout h :
  table_wf (h_named h) →
  let '(removed, h') := remove_stale_nodes now timeout h in
  (∀ id, id ∈ removed ↔ ∃ reg, nodes h !! id = Some reg ∧ stale now timeout reg) ∧
  (∀ id reg, nodes h' !! id = Some reg ↔ nodes h !! id = Some reg ∧ ¬ stale now timeout reg) ∧
  (∀ q x, x ∈ nodes_of q (h_named h') ↔ x ∈ nodes_of q (h_named h) ∧ x ∉ removed) ∧
  (∀ a n, h_actors h' !! a = Some n ↔ h_actors h !! a = Some n ∧ n ∉ removed) ∧
  table_wf (h_named h').
Proof.
  intros Ht. destruct (remove_stale_nodes now timeout h) as [removed h'] eqn:E.
  pose proof (removed_elem now timeout h) as Hr. rewrite E in Hr.
  unfold remove_stale_nodes in E. injection E as <- <-. split_and!; [exact Hr| | | |].
  - intros id reg. rewrite forget_nodes_nodes. simpl. by rewrite map_lookup_filter_Some.
  - intros q x. by rewrite forget_nodes_named.
  - intros a n. by rewrite forget_nodes_actors.
  - by apply forget_nodes_wf.
Qed.

Lemma remove_stale_nodes_spec_witness :
  let h := head_register_actor 7 2 (register_node 0 2 (mk_addr (V4 1) 80)
             (register_node 25000 3 (mk_addr (V4 1) 81) HeadNodeState_new)) in
  nodes (remove_stale_nodes 40000 30000 h).2 !! 2 = None ∧ h_actors (remove_stale_nodes 40000 30000 h).2 !! 7 = None.
Proof.
  intros h. pose proof (remove_stale_nodes_spec 40000 30000 h (map_Forall_empty _)) as Hs.
  destruct (remove_stale_nodes 40000 30000 h) as [removed h'] eqn:E. destruct Hs as (Hr & Hn & _ & Ha & _). simpl.
  assert (H2 : 2 ∈ removed) by (apply Hr; eexists; split; [vm_compute; reflexivity|by vm_compute]).
  split; apply eq_None_not_Some; intros [x Hx].
  - apply Hn in Hx as [Hx Hs]. vm_compute in Hx. simplify_eq. apply Hs. by vm_compute.
  - apply Ha in Hx as [Hx Hs]. vm_compute in Hx. by simplify_eq.
Defined.

(** ** The registry's invariant *)
Definition head_wf (h : HeadNodeState) : Prop :=
  table_wf (h_named h) ∧ map_Forall (λ id reg, r_node_id reg = id) (nodes h).
Definition backend_wf (b : HeadNodeBackend) : Prop :=
  match b_state b with HeadSt h => is_head b = true ∧ head_wf h | WorkerSt w => is_head b = false ∧ table_wf (w_named w) end.

Lemma on_head_wf f b :
  (∀ h, head_wf h → head_wf (f h)) → backend_wf b → backend_wf (on_head f b).
Proof. intros Hf. unfold backend_wf, on_head. destruct (b_state b) eqn:E; simpl; [|by rewrite E]. intros [??]. auto. Qed.

Lemma on_worker_wf f b :
  (∀ w, table_wf (w_named w) → table_wf (w_named (f w))) → backend_wf b → backend_wf (on_worker f b).
Proof. intros Hf. unfold backend_wf, on_worker. destruct (b_state b) eqn:E; simpl; [by rewrite E|]. intros [??]. auto. Qed.

Lemma head_ops_wf now id a p n aid md x h :
  head_wf h →
  head_wf (register_node now id a h) ∧ head_wf (update_heartbeat now id h).2 ∧
  head_wf (head_register_named p n aid md h) ∧ head_wf (head_unregister_named p n h) ∧
  head_wf (head_register_actor x n h) ∧ head_wf (head_unregister_actor x h).
Proof.
  intros [Ht Hk]. unfold head_wf, head_register_named, update_heartbeat, register_node. split_and!; simpl; auto with pulsing.
  - by apply map_Forall_insert_2.
  - by destruct (nodes h !! id).
  - destruct (nodes h !! id) as [reg|] eqn:E; [|done]. simpl. apply map_Forall_insert_2; [|done].
    simpl. by apply Hk in E.
  - destruct aid; simpl; auto with pulsing.
  - by destruct aid.
Qed.

Lemma serve_wf now r b : backend_wf b → backend_wf (serve now r b).1.
Proof.
  intros Hb. destruct r; simpl;
    unfold handle_register_node, handle_heartbeat, handle_register_named_actor, handle_unregister_named_actor,
      handle_register_actor, handle_unregister_actor; destruct (is_head b) eqn:Hh; try done; simpl.
  - apply on_head_wf; [|done]. intros h Hw. by destruct (head_ops_wf now id a router_path 0 None ∅ 0 _ Hw) as (?&?&?&?&?&?).
  - destruct (b_state b) as [h|w] eqn:Es; [|done].
    destruct (update_heartbeat now id h) as [found h'] eqn:Eu. simpl. revert Hb. unfold backend_wf. rewrite Es. simpl.
    intros [_ Hw]. split; [done|]. pose proof (head_ops_wf now id (mk_addr (V4 0) 0) router_path 0 None ∅ 0 h Hw) as (_ & H2 & _).
    by rewrite Eu in H2.
  - apply on_head_wf; [|done]. intros h Hw. by destruct (head_ops_wf now 0 (mk_addr (V4 0) 0) p n aid md 0 _ Hw) as (?&?&?&?&?&?).
  - apply on_head_wf; [|done]. intros h Hw. by destruct (head_ops_wf now 0 (mk_addr (V4 0) 0) p n None ∅ 0 _ Hw) as (?&?&?&?&?&?).
  - apply on_head_wf; [|done]. intros h Hw. by destruct (head_ops_wf now 0 (mk_addr (V4 0) 0) router_path n None ∅ a _ Hw) as (?&?&?&?&?&?).
  - apply on_head_wf; [|done]. intros h Hw. case_bool_decide; [|done].
    by destruct (head_ops_wf now 0 (mk_addr (V4 0) 0) router_path n None ∅ a _ Hw) as (?&?&?&?&?&?).
Qed.

Lemma with_config_wf id a ha cfg : backend_wf (with_config id a ha cfg).
Proof.
  unfold with_config, backend_wf, head_wf. destruct ha; simpl; split_and!; try done; apply map_Forall_empty.
Qed.

(** ** A sync copies the head's view *)
Lemma foldl_insert_lookup {A} `{Countable K} {V} (key : A → K) (val : A → V) (l : list A) (m : gmap K V) k :
  NoDup (key <$> l) →
  foldl (λ m x, <[key x := val x]> m) m l !! k =
  match list_find (λ x, key x = k) l with Some (_, x) => Some (val x) | None => m !! k end.
Proof.
  revert m. induction l as [|x l IH]; intros m Hnd; [done|]. simpl in *.
  apply NoDup_cons in Hnd as [Hx Hnd]. rewrite IH by done. case_decide as Hk; simpl.
  - destruct (list_find (λ x, key x = k) l) as [[i y]|] eqn:E; simpl; [|subst; by rewrite lookup_insert_eq].
    apply list_find_Some in E as (Hy & Hk' & _). destruct Hx. rewrite Hk, <- Hk'.
    apply list_elem_of_fmap. exists y. split; [done|]. by eapply list_elem_of_lookup_2.
  - destruct (list_find (λ x, key x = k) l) as [[i y]|] eqn:E; simpl; [done|]. by rewrite lookup_insert_ne.
Qed.

(** Inserting the listed entries of a map one by one gives the map back. *)
Lemma rebuild_map `{Oracle} `{Countable K} {V W} (m : gmap K V) (f : V → W) (key : W → K) :
  (∀ k v, m !! k = Some v → key (f v) = k) →
  foldl (λ acc w, <[key w := w]> acc) ∅ (f <$> hm_values m) = f <$> m.
Proof.
  intros Hkey. apply map_eq. intros k.
  assert (Hnd : NoDup (key <$> (f <$> hm_values m))).
  { assert (Heq : key <$> (f <$> hm_values m) = (hm_iter m).*1); [|rewrite Heq; apply NoDup_hm_keys].
    unfold hm_values. rewrite <- !list_fmap_compose. apply list_fmap_ext. intros i [k' v] Hi. simpl.
    apply Hkey, elem_of_hm_iter. by eapply list_elem_of_lookup_2. }
  rewrite (foldl_insert_lookup key id) by done. rewrite lookup_fmap, lookup_empty.
  destruct (list_find _ _) as [[i w]|] eqn:E.
  - apply list_find_Some in E as (Hw & <- & _). apply list_elem_of_lookup_2 in Hw.
    apply list_elem_of_fmap in Hw as (v & -> & [k' Hk']%elem_of_hm_values).
    rewrite (Hkey _ _ Hk'). by rewrite Hk'.
  - destruct (m !! k) as [v|] eqn:Ek; [|done]. apply list_find_None in E.
    rewrite Forall_forall in E. exfalso. apply (E (f v)); [|by apply Hkey].
    apply list_elem_of_fmap. exists v. split; [done|]. apply elem_of_hm_values. eauto.
Qed.

Lemma rebuild_pairs `{Oracle} `{Countable K} {V} (m : gmap K V) :
  foldl (λ acc kv, <[kv.1 := kv.2]> acc) ∅ (hm_iter m) = m.
Proof.
  apply map_eq. intros k. rewrite (foldl_insert_lookup fst snd) by apply NoDup_hm_keys. rewrite lookup_empty.
  destruct (list_find _ _) as [[i [k' v]]|] eqn:E.
  - apply list_find_Some in E as (Hw & <- & _). apply list_elem_of_lookup_2, elem_of_hm_iter in Hw. done.
  - destruct (m !! k) as [v|] eqn:Ek; [|done]. apply list_find_None in E.
    rewrite Forall_forall in E. exfalso. apply (E (k, v)); [|done]. by apply elem_of_hm_iter.
Qed.

(** After a worker syncs with a well-formed head, whatever order the head
    lists its tables in, every question about members, named actors and actors
    gets the same answer from both; the worker's queue is untouched. *)
Theorem sync_copies_view `{Oracle} l hb wb s :
  backend_wf hb → backend_wf wb → is_head wb = false →
  handle_sync hb = Ok s → sync_reply l = Some s →
  let wb' := (sync_from_head l wb).1 in
  (∀ id, backend_get_member id wb' = backend_get_member id hb) ∧
  (∀ p, backend_lookup_named p wb' = backend_lookup_named p hb) ∧
  (∀ a, backend_lookup_actor a wb' = backend_lookup_actor a hb) ∧
  (∀ p, backend_instances p wb' = backend_instances p hb) ∧
  backend_wf wb'.
Proof.
  intros Hhb Hwb Hw Hs Hl. unfold handle_sync in Hs. destruct (is_head hb) eqn:Hh; [|done].
  unfold backend_wf in Hhb. destruct (b_state hb) as [h|] eqn:Eh; [|done]. destruct Hhb as [_ [Ht Hk]].
  injection Hs as <-. unfold sync_from_head. rewrite Hw, Hl. unfold on_worker.
  unfold backend_wf in Hwb. destruct (b_state wb) as [|w] eqn:Ew; [by destruct Hwb; congruence|].
  set (w' := update_from_sync _ w).
  assert (Hmem : w_members w' = member_of <$> nodes h).
  { unfold w', update_from_sync. cbn [w_members s_members]. unfold head_all_members.
    apply (rebuild_map (nodes h) member_of m_node_id). intros k v Hv. by apply Hk in Hv. }
  assert (Hnamed : w_named w' = h_named h).
  { unfold w', update_from_sync. cbn [w_named s_named]. unfold head_all_named.
    pose proof (rebuild_map (h_named h) id (λ i, as_str (path i))) as Hr.
    rewrite list_fmap_id, map_fmap_id in Hr. apply Hr. intros k v Hv. by destruct (Ht _ _ Hv). }
  assert (Hact : w_actors w' = h_actors h).
  { unfold w', update_from_sync. cbn [w_actors s_actors]. apply rebuild_pairs. }
  clearbody w'. simpl.
  assert (Hgm : ∀ id, backend_get_member id (set_state (WorkerSt w') wb) = backend_get_member id hb).
  { intros id. unfold backend_get_member, read_state, is_head in *. simpl. rewrite Hw, Hh, Eh, Hmem. by rewrite lookup_fmap. }
  assert (Hln : ∀ p, backend_lookup_named p (set_state (WorkerSt w') wb) = backend_lookup_named p hb).
  { intros p. unfold backend_lookup_named, read_state, is_head in *. simpl. by rewrite Hw, Hh, Eh, Hnamed. }
  split_and!; [exact Hgm|exact Hln| | |].
  - intros a. unfold backend_lookup_actor.
    assert (read_state None (λ h, h_actors h !! a) (λ w, w_actors w !! a) (set_state (WorkerSt w') wb) =
            read_state None (λ h, h_actors h !! a) (λ w, w_actors w !! a) hb) as ->.
    { unfold read_state, is_head in *. simpl. by rewrite Hw, Hh, Eh, Hact. }
    destruct (read_state _ _ _ hb); simpl; [apply Hgm|done].
  - intros p. unfold backend_instances. rewrite Hln. destruct (backend_lookup_named p hb); [|done].
    apply list_omap_ext. apply Forall2_same_length_lookup_2; [done|]. intros i x y Hx Hy. simplify_eq. apply Hgm.
  - unfold backend_wf. simpl. by rewrite Hnamed.
Qed.

Lemma sync_copies_view_witness :
  let a := mk_addr (V4 1) 80 in
  let hb := on_head (register_node 5 2 a) (with_config 1 a None default_head_config) in
  let s := mk_sync [member_of (mk_reg 2 a 5)] [] [] in
  let l := mk_link (λ _, true) (λ _ _, true) (Some s) in
  let wb := with_config 2 a (Some a) default_head_config in
  backend_get_member 2 (sync_from_head l wb).1 = backend_get_member 2 hb.
Proof.
  intros a hb s l wb.
  apply (sync_copies_view l hb wb s); [ |apply with_config_wf|reflexivity|vm_compute; reflexivity|reflexivity].
  apply on_head_wf; [|apply with_config_wf]. intros h Hw.
  exact (proj1 (head_ops_wf 5 2 a router_path 0 None ∅ 0 h Hw)).
Defined.

(** ** The queue of pending operations *)
Lemma sublist_same_length {A} (l1 l2 : list A) : l1 `sublist_of` l2 → length l1 = length l2 → l1 = l2.
Proof.
  induction 1 as [|x l1 l2 Hs IH|x l1 l2 Hs IH]; simpl; intros Hl; [done| |].
  - f_equal. apply IH. lia.
  - pose proof (sublist_length _ _ Hs). lia.
Qed.

Lemma tell_head_worker l k r b :
  is_head b = false → tell_head l k r b = if delivers l k r then Ok tt else Err TransportError.
Proof. unfold is_head, tell_head, backend_head_addr. by destruct (mode b). Qed.

Definition set_pending (ops : list SyncOperation) (w : WorkerNodeState) : WorkerNodeState :=
  mk_worker (w_members w) (w_named w) (w_actors w) ops.

Lemma process_ops_spec l k ops b w :
  is_head b = false → b_state b = WorkerSt w → (∀ r, encodes l r = true) →
  ∃ done_ops kept,
    process_ops l k ops b =
      (set_state (WorkerSt (set_pending (pending_sync w ++ kept) w)) b, request_of (b_local_node b) <$> done_ops, Ok tt) ∧
    done_ops `sublist_of` ops ∧ kept `sublist_of` ops ∧ ops ≡ₚ done_ops ++ kept ∧
    ((∀ i r, delivers l i r = true) → kept = []).
Proof.
  intros Hb Hs He. revert k b w Hb Hs. induction ops as [|op ops IH]; intros k b w Hb Hs.
  - exists [], []. simpl. rewrite app_nil_r. destruct b, w. simpl in *. subst. split_and!; done || constructor.
  - simpl. rewrite He, tell_head_worker by done. destruct (delivers l k _) eqn:Ed.
    + destruct (IH (S k) b w Hb Hs) as (dl & kp & -> & Hd & Hk & Hp & Hall).
      exists (op :: dl), kp. split_and!; [done|by constructor|by constructor|by rewrite Hp|done].
    + destruct (IH (S k) (on_worker (add_pending_sync op) b) (add_pending_sync op w)) as (dl & kp & Heq & Hd & Hk & Hp & Hall).
      { unfold on_worker. by rewrite Hs. } { unfold on_worker. by rewrite Hs. }
      exists dl, (op :: kp). rewrite Heq. split_and!.
      * unfold on_worker, set_state, set_pending, add_pending_sync. rewrite Hs. simpl. by rewrite <- app_assoc.
      * by constructor.
      * by constructor.
      * rewrite Hp. by rewrite Permutation_middle.
      * intros Hde. by rewrite Hde in Ed.
Qed.

(** Sending the pending operations loses none and sends none twice: those
    delivered go out in the order they were queued, the others are queued again
    in that order, and nothing else of the worker's cache changes; when every
    request is delivered the queue is empty. *)
Theorem process_pending_sync_spec l k b w :
  is_head b = false → b_state b = WorkerSt w → (∀ r, encodes l r = true) →
  ∃ done_ops kept,
    process_pending_sync l k b =
      (set_state (WorkerSt (set_pending kept w)) b, request_of (b_local_node b) <$> done_ops, Ok tt) ∧
    done_ops `sublist_of` pending_sync w ∧ kept `sublist_of` pending_sync w ∧
    pending_sync w ≡ₚ done_ops ++ kept ∧
    ((∀ i r, delivers l i r = true) → kept = [] ∧ done_ops = pending_sync w).
Proof.
  intros Hb Hs He. unfold process_pending_sync. rewrite Hb, Hs. simpl.
  destruct (process_ops_spec l k (pending_sync w) (set_state (WorkerSt (set_pending [] w)) b) (set_pending [] w))
    as (dl & kp & Heq & Hd & Hk & Hp & Hall); [done..|].
  exists dl, kp. split_and!; [exact Heq|done..|]. intros Hde. specialize (Hall Hde). split; [done|].
  subst kp. rewrite app_nil_r in Hp. by apply sublist_same_length; [|rewrite Hp].
Qed.

Lemma process_pending_sync_spec_witness :
  let a := mk_addr (V4 1) 80 in
  let l := mk_link (λ _, true) (λ _ _, true) None in
  let w := set_pending [Register 7; Unregister 7] WorkerNodeState_new in
  let b := set_state (WorkerSt w) (with_config 2 a (Some a) default_head_config) in
  (process_pending_sync l 0 b).1.2 = [RegisterActorRequest 7 2; UnregisterActorRequest 7 2].
Proof.
  intros a l w b. destruct (process_pending_sync_spec l 0 b w) as (dl & kp & -> & _ & _ & _ & Hall); [reflexivity..|].
  destruct Hall as [_ ->]; reflexivity.
Defined.

(** The head after it served a list of requests. *)
Definition serve_all (now : Z) (rs : list Request) (b : HeadNodeBackend) : HeadNodeBackend :=
  foldl (λ b r, (serve now r b).1) b rs.

(** What the last operation on a path, if any, asks for: registered or not. *)
Fixpoint last_wish (p : ActorPath) (ops : list SyncOperation) : option bool :=
  match ops with
  | [] => None
  | op :: ops =>
      match last_wish p ops with
      | Some w => Some w
      | None =>
          match op with
          | RegisterNamed q _ _ => if decide (as_str q = as_str p) then Some true else None
          | UnregisterNamed q => if decide (as_str q = as_str p) then Some false else None
          | _ => None
          end
      end
  end.

Definition backend_nodes_of (p : ActorPath) (b : HeadNodeBackend) : gset Z :=
  from_option instance_nodes ∅ (backend_lookup_named p b).

Lemma backend_nodes_head p b h : is_head b = true → b_state b = HeadSt h → backend_nodes_of p b = nodes_of p (h_named h).
Proof. intros Hb Hs. unfold backend_nodes_of, backend_lookup_named, read_state. by rewrite Hb, Hs. Qed.

Lemma head_state b : backend_wf b → is_head b = true → ∃ h, b_state b = HeadSt h ∧ head_wf h.
Proof. unfold backend_wf. destruct (b_state b); [naive_solver|]. intros [??]. congruence. Qed.

Lemma serve_nodes now n op b p :
  backend_wf b → is_head b = true →
  let b' := (serve now (request_of n op) b).1 in
  is_head b' = true ∧
  backend_nodes_of p b' =
    match last_wish p [op] with
    | Some true => {[n]} ∪ backend_nodes_of p b
    | Some false => backend_nodes_of p b ∖ {[n]}
    | None => backend_nodes_of p b
    end.
Proof.
  intros Hw Hb. destruct (head_state b Hw Hb) as (h & Hs & Ht & _).
  assert (Hset : ∀ f, is_head (on_head f b) = true ∧ backend_nodes_of p (on_head f b) = nodes_of p (h_named (f h))).
  { intros f. assert (Hh : is_head (on_head f b) = true) by (unfold on_head; by rewrite Hs). split; [done|].
    apply backend_nodes_head; [done|]. unfold on_head. by rewrite Hs. }
  rewrite (backend_nodes_head p b h Hb Hs).
  destruct op as [q aid md|q|a|a]; simpl;
    unfold handle_register_named_actor, handle_unregister_named_actor, handle_register_actor, handle_unregister_actor;
    rewrite Hb; simpl; match goal with |- context [on_head ?f b] => destruct (Hset f) as [? ->] end; (split; [done|]).
  - destruct aid; simpl; [rewrite nodes_of_register_full|rewrite nodes_of_register_legacy]; by case_decide.
  - simpl. rewrite nodes_of_unregister by done. by case_decide.
  - done.
  - by case_bool_decide.
Qed.

(** Once every queued operation is delivered, the head lists the worker
    under a path exactly as the last operation the worker queued for that path
    says, and as before where it queued none; other nodes' instances stay. *)
Theorem delivered_queue_decides now n ops hb p :
  backend_wf hb → is_head hb = true →
  let hb' := serve_all now (request_of n <$> ops) hb in
  (n ∈ backend_nodes_of p hb' ↔
     match last_wish p ops with Some b => b = true | None => n ∈ backend_nodes_of p hb end) ∧
  (∀ m, m ≠ n → m ∈ backend_nodes_of p hb' ↔ m ∈ backend_nodes_of p hb).
Proof.
  simpl. revert hb. induction ops as [|op ops IH]; intros hb Hw Hb; [done|].
  destruct (serve_nodes now n op hb p Hw Hb) as [Hb' Hn]. simpl in Hn.
  destruct (IH (serve now (request_of n op) hb).1) as [H1 H2]; [by apply serve_wf|done|].
  unfold serve_all in *. simpl in *. rewrite H1. split.
  - destruct (last_wish p ops); [done|]. rewrite Hn. destruct op; try done; case_decide; set_solver.
  - intros m Hm. rewrite H2, Hn by done. destruct op; try done; case_decide; set_solver.
Qed.

Lemma delivered_queue_decides_witness :
  let a := mk_addr (V4 1) 80 in
  let hb := with_config 1 a None default_head_config in
  2 ∈ backend_nodes_of router_path
    (serve_all 0 (request_of 2 <$> [UnregisterNamed router_path; RegisterNamed router_path None ∅]) hb).
Proof.
  intros a hb.
  refine (proj2 (proj1 (delivered_queue_decides 0 2 [UnregisterNamed router_path; RegisterNamed router_path None ∅]
    hb router_path _ _)) _); [apply with_config_wf|reflexivity..].
Defined.

(** Delivery order is not kept across attempts: when a registration is not
    delivered and the withdrawal queued after it is, the registration is sent
    again later, and the head ends up listing an instance that the worker has
    withdrawn and will not withdraw again. *)
Theorem retried_registration_survives_withdrawal now n p aid md l l' b w hb :
  backend_wf hb → is_head hb = true → is_head b = false → b_local_node b = n →
  b_state b = WorkerSt w → pending_sync w = [RegisterNamed p aid md; UnregisterNamed p] →
  (∀ r, encodes l r = true) → (∀ r, encodes l' r = true) →
  (∀ i r, delivers l i r = bool_decide (i ≠ 0%nat)) → (∀ i r, delivers l' i r = true) →
  let '(b1, sent1, _) := process_pending_sync l 0 b in
  let '(b2, sent2, _) := process_pending_sync l' 0 b1 in
  last_wish p (pending_sync w) = Some false ∧
  n ∈ backend_nodes_of p (serve_all now (sent1 ++ sent2) hb) ∧
  b_state b2 = WorkerSt (set_pending [] w).
Proof.
  intros Hw Hh Hb Hn Hs Hp He He' Hd Hd'.
  assert (E1 : process_pending_sync l 0 b =
    (set_state (WorkerSt (set_pending [RegisterNamed p aid md] w)) b, [UnregisterNamedActorRequest p n], Ok tt)).
  { unfold process_pending_sync. rewrite Hb, Hs. simpl. rewrite Hp. simpl.
    rewrite He, tell_head_worker, Hd by done. simpl. rewrite He, tell_head_worker, Hd by done. by subst n. }
  assert (E2 : process_pending_sync l' 0 (set_state (WorkerSt (set_pending [RegisterNamed p aid md] w)) b) =
    (set_state (WorkerSt (set_pending [] w)) b, [RegisterNamedActorRequest p n aid md], Ok tt)).
  { unfold process_pending_sync. change (is_head (set_state _ b)) with (is_head b). rewrite Hb. simpl.
    rewrite He', tell_head_worker, Hd' by done. by subst n. }
  rewrite E1, E2, Hp. simpl. split_and!; [| |done].
  - by rewrite decide_True.
  - destruct (serve_nodes now n (UnregisterNamed p) hb p Hw Hh) as [Hh1 _].
    destruct (serve_nodes now n (RegisterNamed p aid md) (serve now (UnregisterNamedActorRequest p n) hb).1 p) as [_ Hn2];
      [by apply serve_wf|done|].
    unfold serve_all. simpl in *. rewrite Hn2. rewrite decide_True by done. set_solver.
Qed.

Lemma retried_registration_survives_withdrawal_witness :
  let a := mk_addr (V4 1) 80 in
  let l := mk_link (λ _, true) (λ i _, bool_decide (i ≠ 0%nat)) None in
  let l' := mk_link (λ _, true) (λ _ _, true) None in
  let hb := with_config 1 a None default_head_config in
  let w := set_pending [RegisterNamed router_path None ∅; UnregisterNamed router_path] WorkerNodeState_new in
  let b := set_state (WorkerSt w) (with_config 2 a (Some a) default_head_config) in
  2 ∈ backend_nodes_of router_path
    (serve_all 0 ((process_pending_sync l 0 b).1.2 ++ (process_pending_sync l' 0 (process_pending_sync l 0 b).1.1).1.2) hb).
Proof.
  intros a l l' hb w b.
  pose proof (retried_registration_survives_withdrawal 0 2 router_path None ∅ l l' b w hb) as Hr.
  destruct (process_pending_sync l 0 b) as [[b1 s1] r1] eqn:E1.
  cbn [fst snd]. destruct (process_pending_sync l' 0 b1) as [[b2 s2] r2] eqn:E2.
  destruct Hr as (_ & Hr & _); [apply with_config_wf|reflexivity..|exact Hr].
Defined.
