(* ===== verification/Atomic.v ===== *)
(** * Programs of atomic accesses

    An operation on state shared between threads is a tree of atomic accesses:
    an access to an atomic counter or a critical section of a lock. Run alone
    it is a function of the state; in a pool of threads it interleaves with the
    others at every access. *)
From S2P Require Import Prelude.

Inductive prog (S A : Type) : Type :=
  | Ret (a : A)
  | Act (f : S → S * prog S A).
Arguments Ret {S A} _.
Arguments Act {S A} _.

Section Prog.
Context {S : Type}.

(** The library's scheme knows nothing of the programs inside the pair. *)
Fixpoint prog_tree_ind {A} (P : prog S A → Prop) (Hret : ∀ a, P (Ret a))
    (Hact : ∀ f, (∀ s, P (f s).2) → P (Act f)) (p : prog S A) : P p :=
  match p with
  | Ret a => Hret a
  | Act f => Hact f (λ s, match f s as r return P r.2 with (_, p') => prog_tree_ind P Hret Hact p' end)
  end.

Fixpoint run {A} (p : prog S A) (s : S) : S * A :=
  match p with
  | Ret a => (s, a)
  | Act f => match f s with (s', p') => run p' s' end
  end.

Fixpoint prog_bind {A B} (k : A → prog S B) (p : prog S A) : prog S B :=
  match p with
  | Ret a => k a
  | Act f => Act (λ s, match f s with (s', p') => (s', prog_bind k p') end)
  end.

(** One access: read, write, or an update that yields a value. *)
Definition read {A} (f : S → A) : prog S A := Act (λ s, (s, Ret (f s))).
Definition write (f : S → S) : prog S unit := Act (λ s, (f s, Ret tt)).
Definition update {A} (f : S → S * A) : prog S A := Act (λ s, ((f s).1, Ret (f s).2)).

Lemma run_bind {A B} (k : A → prog S B) p s :
  run (prog_bind k p) s = run (k (run p s).2) (run p s).1.
Proof.
  revert s. induction p as [a|f IH] using prog_tree_ind; intros s; simpl; [done|].
  specialize (IH s). destruct (f s) as [s' p']. apply IH.
Qed.
End Prog.

#[export] Instance prog_ret S : MRet (prog S) := λ _ a, Ret a.
#[export] Instance prog_mbind S : MBind (prog S) := λ _ _ k p, prog_bind k p.

(** ** Threads *)
Section Pool.
Context {S : Type}.
Implicit Types (ps : list (prog S unit)) (s : S).

(** One access of one thread. *)
Inductive pstep : relation (list (prog S unit) * S) :=
  | pstep_at ps s i f s' p' :
      ps !! i = Some (Act f) → f s = (s', p') → pstep (ps, s) (<[i := p']> ps, s').

Definition finished ps : Prop := Forall (λ p, p = Ret tt) ps.

Lemma run_thread ps i p s :
  ps !! i = Some p → rtc pstep (ps, s) (<[i := Ret tt]> ps, (run p s).1).
Proof.
  revert ps s. induction p as [[]|f IH] using prog_tree_ind; intros ps s Hi; simpl.
  - by rewrite list_insert_id.
  - destruct (f s) as [s' p'] eqn:E. eapply rtc_l; [by eapply pstep_at|].
    specialize (IH s (<[i := p']> ps) s'). rewrite E in IH. rewrite list_insert_insert_eq in IH. apply IH.
    apply list_lookup_insert_eq. by eapply lookup_lt_Some.
Qed.

(** Running the threads one after the other is one of the interleavings. *)
Lemma run_in_turn ps s :
  rtc pstep (ps, s) (replicate (length ps) (Ret tt), foldl (λ s p, (run p s).1) s ps).
Proof.
  assert (H : ∀ pre, rtc pstep (pre ++ ps, s)
    (pre ++ replicate (length ps) (Ret tt), foldl (λ s p, (run p s).1) s ps)); [|apply (H [])].
  revert s. induction ps as [|p ps IH]; intros s pre; [done|]. simpl.
  etrans; [apply (run_thread _ (length pre) p)|].
  - by rewrite list_lookup_middle.
  - rewrite insert_app_r_alt, Nat.sub_diag by done. simpl.
    rewrite !(cons_middle (Ret tt)), !app_assoc. apply IH.
Qed.

(** An invariant that every access of every thread keeps. *)
Inductive keeps (I : S → Prop) {A} : prog S A → Prop :=
  | keeps_ret a : keeps I (Ret a)
  | keeps_act f : (∀ s, I s → I (f s).1) → (∀ s, I s → keeps I (f s).2) → keeps I (Act f).

Lemma pool_keeps I ps s ps' s' :
  rtc pstep (ps, s) (ps', s') → Forall (keeps I) ps → I s → Forall (keeps I) ps' ∧ I s'.
Proof.
  intros Hr. change (let c := (ps, s) in let c' := (ps', s') in
    Forall (keeps I) c.1 → I c.2 → Forall (keeps I) c'.1 ∧ I c'.2).
  induction Hr as [|c1 c2 c3 Hstep _ IH]; [done|]. simpl. intros Hps Hi. apply IH.
  - destruct Hstep as [qs q i f q' p' Hl Hf]. simpl in *. apply Forall_insert; [done|].
    pose proof (Forall_lookup_1 _ _ _ _ Hps Hl) as Hk. inversion Hk as [|? _ Hk']; subst. specialize (Hk' q Hi). by rewrite Hf in Hk'.
  - destruct Hstep as [qs q i f q' p' Hl Hf]. simpl in *.
    pose proof (Forall_lookup_1 _ _ _ _ Hps Hl) as Hk. inversion Hk as [|? Hi' _]; subst. specialize (Hi' q Hi). by rewrite Hf in Hi'.
Qed.

(** What a thread still adds to a 64-bit counter, whatever it observes. *)
Inductive adds (obs : S → Z) {A} : prog S A → Z → Prop :=
  | adds_ret a : adds obs (Ret a) 0
  | adds_quiet f d : (∀ s, obs (f s).1 = obs s) → (∀ s, adds obs (f s).2 d) → adds obs (Act f) d
  | adds_act f c d : (∀ s, obs (f s).1 = u64 (obs s + c)) → (∀ s, adds obs (f s).2 d) → adds obs (Act f) (c + d).

Definition sum_list_Z (l : list Z) : Z := foldr Z.add 0 l.

Lemma sum_list_insert ds i d d' :
  ds !! i = Some d → sum_list_Z (<[i := d']> ds) = sum_list_Z ds - d + d'.
Proof.
  revert i. induction ds as [|x ds IH]; intros [|i] Hi; simpl in *; simplify_eq/=; [lia|]. rewrite (IH _ Hi). lia.
Qed.

Lemma pool_adds obs ps s ps' s' ds :
  rtc pstep (ps, s) (ps', s') → Forall2 (adds obs) ps ds → is_u64 (obs s) →
  is_u64 (obs s') ∧
  ∃ ds', Forall2 (adds obs) ps' ds' ∧ u64 (obs s' + sum_list_Z ds') = u64 (obs s + sum_list_Z ds).
Proof.
  intros Hr. change (let c := (ps, s) in let c' := (ps', s') in Forall2 (adds obs) c.1 ds → is_u64 (obs c.2) →
    is_u64 (obs c'.2) ∧
    ∃ ds', Forall2 (adds obs) c'.1 ds' ∧ u64 (obs c'.2 + sum_list_Z ds') = u64 (obs c.2 + sum_list_Z ds)).
  revert ds. induction Hr as [|c1 c2 c3 Hstep _ IH]; intros ds; simpl; [by eauto|]. intros Hps Hs.
  destruct Hstep as [qs q i f q' p' Hl Hf]. simpl in *.
  destruct (Forall2_lookup_l _ _ _ _ _ Hps Hl) as (d0 & Hd & Ha).
  inversion Ha as [|? d Ho Ha'|? c d Ho Ha']; subst; specialize (Ho q); specialize (Ha' q); rewrite Hf in *; simpl in *;
    rewrite Ho in IH.
  - destruct (IH ds) as (Hu & ds' & Hds & Heq); [|done|by eauto].
    rewrite <- (list_insert_id ds i d0 Hd). by apply Forall2_insert.
  - destruct (IH (<[i := d]> ds)) as (Hu & ds' & Hds & Heq); [by apply Forall2_insert|auto with pulsing|].
    split; [done|]. exists ds'. split; [done|]. rewrite Heq, (sum_list_insert _ _ _ _ Hd).
    unfold u64. rewrite Zplus_mod_idemp_l. f_equal. lia.
Qed.

Lemma pool_finished_adds obs ps s ps' s' ds :
  rtc pstep (ps, s) (ps', s') → Forall2 (adds obs) ps ds → finished ps' → is_u64 (obs s) →
  obs s' = u64 (obs s + sum_list_Z ds).
Proof.
  intros Hr Hps Hf Ho. destruct (pool_adds obs ps s ps' s' ds Hr Hps Ho) as (Hu & ds' & Hds & <-).
  assert (Hz : sum_list_Z ds' = 0).
  { clear -Hds Hf. induction Hds as [|p d ps ds Hp _ IH]; [done|]. inversion Hf; subst. simpl. rewrite IH by done.
    inversion Hp. done. }
  rewrite Hz, Z.add_0_r. by rewrite u64_small.
Qed.

(** A bound on the accesses a thread still makes. *)
Inductive costs {A} : prog S A → nat → Prop :=
  | costs_ret a n : costs (Ret a) n
  | costs_act f n : (∀ s, costs (f s).2 n) → costs (Act f) (Datatypes.S n).

Lemma costs_weaken {A} (p : prog S A) m n : costs p m → (m ≤ n)%nat → costs p n.
Proof.
  intros Hp. revert n. induction Hp as [a m|f m _ IH]; intros n Hn; [apply costs_ret|].
  destruct n as [|n]; [lia|]. apply costs_act. intros s. apply IH. lia.
Qed.

Definition sum_list_nat (l : list nat) : nat := foldr Nat.add 0%nat l.

Lemma sum_list_nat_insert ns i n n' :
  ns !! i = Some (Datatypes.S n) → n' = n → (sum_list_nat (<[i := n']> ns) + 1 = sum_list_nat ns)%nat.
Proof.
  intros Hi ->. revert i Hi. induction ns as [|x ns IH]; intros [|i] Hi; simpl in *; simplify_eq/=; [lia|].
  specialize (IH _ Hi). lia.
Qed.

Lemma pool_costs k ps s c ns : nsteps pstep k (ps, s) c → Forall2 costs ps ns → (k ≤ sum_list_nat ns)%nat.
Proof.
  revert ps s ns. induction k as [|k IH]; intros ps s ns Hr Hps; [lia|].
  inversion Hr as [|? ? [ps1 s1] ? Hstep Hrest]; subst. inversion Hstep as [qs q i f q' p' Hl Hf]; subst.
  destruct (Forall2_lookup_l _ _ _ _ _ Hps Hl) as (n0 & Hn & Hc). inversion Hc as [|? n Hact]; subst.
  specialize (Hact s). rewrite Hf in Hact. simpl in Hact.
  specialize (IH _ _ (<[i := n]> ns) Hrest). pose proof (sum_list_nat_insert ns i n n Hn eq_refl).
  assert (k ≤ sum_list_nat (<[i := n]> ns))%nat by (apply IH; by apply Forall2_insert). lia.
Qed.
End Pool.

(** ** Rules for whole programs *)
Section Rules.
Context {S : Type} (obs : S → Z).

Lemma adds_bind {A B} (k : A → prog S B) p c d :
  adds obs p c → (∀ a, adds obs (k a) d) → adds obs (mbind k p) (c + d).
Proof.
  intros Hp Hk. unfold mbind, prog_mbind. induction Hp as [a|f c Hq _ IH|f c c' Hq _ IH]; simpl; [apply Hk| |].
  - apply adds_quiet; intros s; specialize (Hq s); specialize (IH s); by destruct (f s).
  - rewrite <- Z.add_assoc. apply adds_act; intros s; specialize (Hq s); specialize (IH s); by destruct (f s).
Qed.

Lemma adds_bind_quiet {A B} (k : A → prog S B) p d :
  adds obs p 0 → (∀ a, adds obs (k a) d) → adds obs (mbind k p) d.
Proof. apply (adds_bind k p 0 d). Qed.

Lemma adds_read {A} (f : S → A) : adds obs (read f) 0.
Proof. apply adds_quiet; [done|]. intros s. apply adds_ret. Qed.

Lemma adds_write f : (∀ s, obs (f s) = obs s) → adds obs (write f) 0.
Proof. intros Hf. apply adds_quiet; [done|]. intros s. apply adds_ret. Qed.

Lemma adds_write_one f : (∀ s, obs (f s) = obs s +w 1) → adds obs (write f) 1.
Proof. intros Hf. apply (adds_act obs _ 1 0); [done|]. intros s. apply adds_ret. Qed.

Lemma adds_update {A} (f : S → S * A) : (∀ s, obs (f s).1 = obs s) → adds obs (update f) 0.
Proof. intros Hf. apply adds_quiet; [done|]. intros s. apply adds_ret. Qed.

Lemma costs_bind {A B} (k : A → prog S B) p m n :
  costs p m → (∀ a, costs (k a) n) → costs (mbind k p) (m + n).
Proof.
  intros Hp Hk. unfold mbind, prog_mbind. induction Hp as [a m|f m _ IH]; simpl.
  - apply (costs_weaken _ n); [apply Hk|lia].
  - apply costs_act. intros s. specialize (IH s). by destruct (f s).
Qed.

Lemma costs_one {A} (f : S → S * A) n : costs (update f) (Datatypes.S n).
Proof. apply costs_act. intros s. apply costs_ret. Qed.
Lemma costs_read {A} (f : S → A) n : costs (read f) (Datatypes.S n).
Proof. apply costs_act. intros s. apply costs_ret. Qed.
Lemma costs_write (f : S → S) n : costs (write f) (Datatypes.S n).
Proof. apply costs_act. intros s. apply costs_ret. Qed.
End Rules.

#[export] Hint Resolve adds_ret adds_read adds_write adds_write_one adds_update costs_ret costs_one costs_read costs_write : pulsing.

(** Walks the tree of a quiet program, up to the facts on what its writes keep. *)
Ltac quiet_tree :=
  repeat match goal with
  | |- adds _ (mbind _ _) _ => apply adds_bind_quiet; [|intros ?]
  | |- adds _ (mret _) _ => apply adds_ret
  | |- adds _ (Ret _) _ => apply adds_ret
  | |- adds _ (read _) _ => apply adds_read
  | |- adds _ (write _) _ => apply adds_write; intros []; try done
  | |- adds _ (update _) _ => apply adds_update; intros []; try done
  | |- adds _ (match ?x with _ => _ end) _ => destruct x
  end.

(** ** A program on the left of a pair *)
Section OnLeft.
Context {S W : Type}.
Fixpoint on_left {A} (p : prog S A) : prog (S * W) A :=
  match p with
  | Ret a => Ret a
  | Act f => Act (λ s, match f s.1 with (s', p') => ((s', s.2), on_left p') end)
  end.
Lemma run_on_left {A} (p : prog S A) s w : run (on_left p) (s, w) = (((run p s).1, w), (run p s).2).
Proof.
  revert s. induction p as [a|f IH] using prog_tree_ind; intros s; simpl; [done|].
  specialize (IH s). destruct (f s) as [s' p']. apply IH.
Qed.
End OnLeft.
