(* ===== verification/Owned.v ===== *)
(** * Threads that own things

    A rule for programs of atomic accesses that take and give back things: an
    invariant of the state, the set of what is out, and for every thread the
    part of it that is its own. Others leave that part alone, so what a thread
    owns it still finds at its next access. *)
From S2P Require Import Prelude Atomic.

Section Owned.
Context {S K : Type} `{Countable K} (I : S → Prop) (out : S → gset K).

(** [owns Q T p]: a thread that owns [T] can go on as [p]; it ends with [Q]. *)
Inductive owns {A} (Q : A → gset K → Prop) : gset K → prog S A → Prop :=
  | owns_ret T a : Q a T → owns Q T (Ret a)
  | owns_act T f (g : S → gset K) :
      (∀ s, I s → T ⊆ out s → I (f s).1 ∧ g s ## out s ∖ T ∧ out (f s).1 = g s ∪ out s ∖ T) →
      (∀ s, I s → T ⊆ out s → owns Q (g s) (f s).2) → owns Q T (Act f).

Lemma owns_bind {A B} (Q : B → gset K → Prop) (R : A → gset K → Prop) (k : A → prog S B) T p :
  owns R T p → (∀ a T', R a T' → owns Q T' (k a)) → owns Q T (mbind k p).
Proof.
  intros Hp Hk. unfold mbind, prog_mbind. induction Hp as [T a HR|T f g H1 _ IH]; simpl; [by apply Hk|].
  apply (owns_act Q T _ g); intros s Hs HT; specialize (H1 s Hs HT); specialize (IH s Hs HT); by destruct (f s).
Qed.
Lemma owns_weaken {A} (Q Q' : A → gset K → Prop) T p : owns Q T p → (∀ a T', Q a T' → Q' a T') → owns Q' T p.
Proof. intros Hp HQ. induction Hp as [T a HQa|T f g H1 _ IH]; [apply owns_ret; auto|]. by apply (owns_act Q' T f g). Qed.

(** One access: what it keeps, takes and gives back. *)
Lemma owns_update {A} (Q : A → gset K → Prop) T (f : S → S * A) (g : S → gset K) :
  (∀ s, I s → T ⊆ out s → I (f s).1 ∧ g s ## out s ∖ T ∧ out (f s).1 = g s ∪ out s ∖ T ∧ Q (f s).2 (g s)) → owns Q T (update f).
Proof.
  intros Hf. apply (owns_act Q T _ g); intros s Hs HT; specialize (Hf s Hs HT) as (H1 & H2 & H3 & H4); [done|by apply owns_ret].
Qed.
Lemma owns_keep {A} (Q : A → gset K → Prop) T (f : S → S * A) :
  (∀ s, I s → T ⊆ out s → I (f s).1 ∧ out (f s).1 = out s ∧ Q (f s).2 T) → owns Q T (update f).
Proof.
  intros Hf. apply (owns_update Q T f (λ _, T)). intros s Hs HT. destruct (Hf s Hs HT) as (H1 & H2 & H3).
  split_and!; [done|set_solver|rewrite H2; by apply union_difference_L|done].
Qed.
Lemma owns_write Q T (f : S → S) :
  (∀ s, I s → T ⊆ out s → I (f s) ∧ out (f s) = out s) → Q tt T → owns Q T (write f).
Proof. intros Hf HQ. apply (owns_keep Q T (λ s, (f s, tt))). intros s Hs HT. by destruct (Hf s Hs HT). Qed.
Lemma owns_read {A} (Q : A → gset K → Prop) T (f : S → A) : (∀ s, I s → T ⊆ out s → Q (f s) T) → owns Q T (read f).
Proof. intros Hf. apply (owns_keep Q T (λ s, (s, f s))). intros s Hs HT. split_and!; [done|done|by apply Hf]. Qed.

(** An access that takes what its answer says, and one that gives back [G]. *)
Lemma owns_grab {A} (Q : A → gset K → Prop) T (f : S → S * A) (g : A → gset K) :
  (∀ s, I s → T ⊆ out s → I (f s).1 ∧ g (f s).2 ## out s ∧ out (f s).1 = g (f s).2 ∪ out s ∧ Q (f s).2 (g (f s).2 ∪ T)) →
  owns Q T (update f).
Proof.
  intros Hf. apply (owns_update Q T f (λ s, g (f s).2 ∪ T)). intros s Hs HT. destruct (Hf s Hs HT) as (H1 & H2 & H3 & H4).
  split_and!; [done|set_solver| |done]. rewrite H3, <- (assoc_L (∪)). f_equal. by apply union_difference_L.
Qed.
Lemma owns_give (Q : () → gset K → Prop) T (f : S → S) (G : gset K) :
  (∀ s, I s → T ⊆ out s → I (f s) ∧ out (f s) = out s ∖ G) → G ⊆ T → Q tt (T ∖ G) → owns Q T (write f).
Proof.
  intros Hf HG HQ. apply (owns_update Q T (λ s, (f s, tt)) (λ _, T ∖ G)). intros s Hs HT. destruct (Hf s Hs HT) as (H1 & H2).
  split_and!; [done|set_solver| |done]. simpl. rewrite H2. apply set_eq. intros k. rewrite elem_of_union, !elem_of_difference.
  destruct (decide (k ∈ T)); set_solver.
Qed.

Definition apart (Ts : list (gset K)) : Prop := ∀ i j X Y, i ≠ j → Ts !! i = Some X → Ts !! j = Some Y → X ## Y.

Lemma union_list_insert (Ts : list (gset K)) i X Y :
  apart Ts → Ts !! i = Some X → ⋃ (<[i := Y]> Ts) = Y ∪ (⋃ Ts ∖ X).
Proof.
  intros Ha Hi. apply set_eq. intros k. rewrite elem_of_union, elem_of_difference, !elem_of_union_list. split.
  - intros (Z & (j & Hj)%list_elem_of_lookup & Hk). rewrite list_lookup_insert in Hj.
    destruct (decide (j = i ∧ (j < length Ts)%nat)) as [[-> Hlt]|Hne].
    + rewrite decide_True in Hj by done. injection Hj as <-. by left.
    + assert (j ≠ i) by (intros ->; apply Hne; split; [done|by eapply lookup_lt_Some]).
      rewrite decide_False in Hj by naive_solver. right. split; [exists Z; split; [by eapply list_elem_of_lookup_2|done]|].
      pose proof (Ha j i Z X ltac:(done) Hj Hi). set_solver.
  - intros [Hk|[(Z & (j & Hj)%list_elem_of_lookup & Hk) Hx]].
    + exists Y. split; [|done]. apply (list_elem_of_lookup_2 _ i). apply list_lookup_insert_eq. by eapply lookup_lt_Some.
    + assert (j ≠ i) by (intros ->; congruence). exists Z. split; [|done]. apply (list_elem_of_lookup_2 _ j).
      by rewrite list_lookup_insert_ne.
Qed.

Lemma apart_insert Ts i X Y : apart Ts → Ts !! i = Some X → Y ## (⋃ Ts ∖ X) → apart (<[i := Y]> Ts).
Proof.
  intros Ha Hi HY.
  assert (Hother : ∀ j Z, j ≠ i → Ts !! j = Some Z → Y ## Z).
  { intros j Z Hne Hj k Hk Hz. apply (HY k Hk). apply elem_of_difference. split.
    - apply elem_of_union_list. exists Z. split; [by eapply list_elem_of_lookup_2|done].
    - intros Hx. exact (Ha j i Z X Hne Hj Hi k Hz Hx). }
  pose proof (lookup_lt_Some _ _ _ Hi) as Hlt.
  intros j1 j2 Z1 Z2 Hne H1 H2. destruct (decide (j1 = i)) as [->|Hj1], (decide (j2 = i)) as [->|Hj2]; [done|..].
  - rewrite list_lookup_insert_eq in H1 by done. rewrite list_lookup_insert_ne in H2 by congruence. simplify_eq. by eapply Hother.
  - rewrite list_lookup_insert_eq in H2 by done. rewrite list_lookup_insert_ne in H1 by congruence. simplify_eq. symmetry. by eapply Hother.
  - rewrite list_lookup_insert_ne in H1 by congruence. rewrite list_lookup_insert_ne in H2 by congruence. by eapply (Ha j1 j2).
Qed.

(** In a pool, what is out is the disjoint union of what the threads own. *)
Lemma pool_owns Q ps s ps' s' :
  rtc pstep (ps, s) (ps', s') → ∀ Ts, Forall2 (owns Q) Ts ps → apart Ts → out s = ⋃ Ts → I s →
  ∃ Ts', Forall2 (owns Q) Ts' ps' ∧ apart Ts' ∧ out s' = ⋃ Ts' ∧ I s'.
Proof.
  intros Hr. change (let c := (ps, s) in let c' := (ps', s') in ∀ Ts, Forall2 (owns Q) Ts c.1 → apart Ts → out c.2 = ⋃ Ts → I c.2 →
    ∃ Ts', Forall2 (owns Q) Ts' c'.1 ∧ apart Ts' ∧ out c'.2 = ⋃ Ts' ∧ I c'.2).
  induction Hr as [|c1 c2 c3 Hstep _ IH]; simpl; intros Ts Hps Ha Ho Hi; [by exists Ts|].
  destruct Hstep as [qs q i f q' p' Hl Hf]. simpl in *.
  destruct (Forall2_lookup_r _ _ _ _ _ Hps Hl) as (T & HT & Hown).
  assert (Hsub : T ⊆ out q).
  { rewrite Ho. intros k Hk. apply elem_of_union_list. exists T. split; [by eapply list_elem_of_lookup_2|done]. }
  inversion Hown as [|? ? g H1 H2]; subst. specialize (H1 q Hi Hsub). specialize (H2 q Hi Hsub). rewrite Hf in H1, H2. simpl in *.
  destruct H1 as (HI & Hd & Hout). apply (IH (<[i := g q]> Ts)); [by apply Forall2_insert| | |done].
  - apply (apart_insert Ts i T); [done|done|]. by rewrite <- Ho.
  - rewrite Hout, Ho. symmetry. by apply union_list_insert.
Qed.

(** Threads that start and end with nothing leave nothing out. *)
Lemma pool_returns ps s ps' s' :
  rtc pstep (ps, s) (ps', s') → Forall (owns (λ _ T, T = ∅) ∅) ps → out s = ∅ → I s →
  I s' ∧ (finished ps' → out s' = ∅).
Proof.
  intros Hr Hps Ho Hi.
  assert (HTs : Forall2 (owns (λ _ T, T = ∅)) (replicate (length ps) ∅) ps).
  { clear -Hps. induction Hps; simpl; by constructor. }
  destruct (pool_owns _ _ _ _ _ Hr _ HTs) as (Ts & H1 & H2 & H3 & H4); [| |done|].
  - intros i j X Y _ [-> _]%lookup_replicate _. set_solver.
  - rewrite Ho. symmetry. apply set_eq. intros k. rewrite elem_of_union_list. split; [|set_solver].
    intros (X & [-> _]%elem_of_replicate & Hk). done.
  - split; [done|]. intros Hfin. rewrite H3. apply set_eq. intros k. rewrite elem_of_union_list. split; [|set_solver].
    intros (X & HX & Hk). apply list_elem_of_lookup in HX as [i Hi']. destruct (Forall2_lookup_l _ _ _ _ _ H1 Hi') as (p & Hp & Hown).
    unfold finished in Hfin. rewrite Forall_lookup in Hfin. rewrite (Hfin i p Hp) in Hown. inversion Hown; subst. done.
Qed.
End Owned.
