(* ===== verification/Breaker.v ===== *)
(** * The circuit breaker

    [circuit_breaker.rs]. The breaker is shared by its clones, so every
    operation is a program of atomic accesses ([Atomic.v]): one per counter
    access and one per critical section of a lock. The clock is read once per
    operation and is its argument. *)
From S2P Require Import Prelude Atomic.

(** Durations are in milliseconds.
    src: crates/pulsing-actor/src/circuit_breaker.rs 73-83 CircuitBreakerConfig *)
Record CircuitBreakerConfig := mk_breaker_config {
  failure_threshold : Z; success_threshold : Z; timeout_duration : Z; window_duration : Z }.
(** src: crates/pulsing-actor/src/circuit_breaker.rs 85-94 CircuitBreakerConfig::default *)
Definition default_breaker_config : CircuitBreakerConfig := mk_breaker_config 5 2 30000 60000.

(** src: crates/pulsing-actor/src/circuit_breaker.rs 97-105 CircuitState *)
Inductive CircuitState := Closed | Open | HalfOpen.
#[export] Instance CircuitState_eq_dec : EqDecision CircuitState.
Proof. solve_decision. Defined.
(** src: crates/pulsing-actor/src/circuit_breaker.rs 107-117 CircuitState::fmt *)
Definition show_state (s : CircuitState) : str :=
  match s with Closed => "Closed" | Open => "Open" | HalfOpen => "HalfOpen" end.

(** The cells the clones share; the configuration is an argument of the
    operations.
    src: crates/pulsing-actor/src/circuit_breaker.rs 120-129 CircuitBreaker *)
Record CircuitBreaker := mk_breaker {
  c_state : CircuitState;
  consecutive_failures : Z; consecutive_successes : Z;
  total_failures : Z; total_successes : Z;
  last_failure_time : option Z; last_state_change : Z }.

(** src: crates/pulsing-actor/src/circuit_breaker.rs 138-149 with_config *)
Definition breaker_new (now : Z) : CircuitBreaker := mk_breaker Closed 0 0 0 0 None now.

Definition set_failures (n : Z) (b : CircuitBreaker) : CircuitBreaker :=
  mk_breaker (c_state b) n (consecutive_successes b) (total_failures b) (total_successes b) (last_failure_time b) (last_state_change b).
Definition set_successes (n : Z) (b : CircuitBreaker) : CircuitBreaker :=
  mk_breaker (c_state b) (consecutive_failures b) n (total_failures b) (total_successes b) (last_failure_time b) (last_state_change b).
(** src: crates/pulsing-actor/src/circuit_breaker.rs 206-206 record_failure (count) *)
Definition count_failure (b : CircuitBreaker) : CircuitBreaker :=
  mk_breaker (c_state b) (consecutive_failures b) (consecutive_successes b) (total_failures b +w 1) (total_successes b) (last_failure_time b) (last_state_change b).
Definition count_success (b : CircuitBreaker) : CircuitBreaker :=
  mk_breaker (c_state b) (consecutive_failures b) (consecutive_successes b) (total_failures b) (total_successes b +w 1) (last_failure_time b) (last_state_change b).
Definition note_failure (now : Z) (b : CircuitBreaker) : CircuitBreaker :=
  mk_breaker (c_state b) (consecutive_failures b) (consecutive_successes b) (total_failures b) (total_successes b) (Some now) (last_state_change b).

(** The critical section of the state's write lock, taken as one access.
    src: crates/pulsing-actor/src/circuit_breaker.rs 249-287 transition_to *)
Definition transition (now : Z) (new_state : CircuitState) (b : CircuitBreaker) : CircuitBreaker :=
  if decide (c_state b = new_state) then b
  else mk_breaker new_state
         (match new_state with Open => consecutive_failures b | Closed | HalfOpen => 0 end)
         0 (total_failures b) (total_successes b) (last_failure_time b) now.

Definition transition_to (now : Z) (new_state : CircuitState) : prog CircuitBreaker unit :=
  write (transition now new_state).

(** src: crates/pulsing-actor/src/circuit_breaker.rs 236-245 check_and_update_state *)
Definition check_and_update_state (cfg : CircuitBreakerConfig) (now : Z) : prog CircuitBreaker unit :=
  current ← read c_state;
  if decide (current = Open) then
    last_change ← read last_state_change;
    if timeout_duration cfg <=? saturating_sub now last_change then transition_to now HalfOpen else mret tt
  else mret tt.

(** src: crates/pulsing-actor/src/circuit_breaker.rs 152-162 can_execute *)
Definition can_execute (cfg : CircuitBreakerConfig) (now : Z) : prog CircuitBreaker bool :=
  _ ← check_and_update_state cfg now;
  state ← read c_state;
  mret (match state with Closed => true | Open => false | HalfOpen => true end).

(** src: crates/pulsing-actor/src/circuit_breaker.rs 165-168 state *)
Definition get_state (cfg : CircuitBreakerConfig) (now : Z) : prog CircuitBreaker CircuitState :=
  _ ← check_and_update_state cfg now; read c_state.

(** [fetch_add(1) + 1] on a 32-bit counter. *)
Definition bump_successes : prog CircuitBreaker Z :=
  update (λ b, let n := u32 (consecutive_successes b + 1) in (set_successes n b, n)).
Definition bump_failures : prog CircuitBreaker Z :=
  update (λ b, let n := u32 (consecutive_failures b + 1) in (set_failures n b, n)).

(** src: crates/pulsing-actor/src/circuit_breaker.rs 180-202 record_success *)
Definition record_success (cfg : CircuitBreakerConfig) (now : Z) : prog CircuitBreaker unit :=
  _ ← write count_success;
  _ ← write (set_failures 0);
  successes ← bump_successes;
  current ← read c_state;
  match current with
  | HalfOpen => if success_threshold cfg <=? successes then transition_to now Closed else mret tt
  | Closed | Open => mret tt
  end.

(** src: crates/pulsing-actor/src/circuit_breaker.rs 205-232 record_failure *)
Definition record_failure (cfg : CircuitBreakerConfig) (now : Z) : prog CircuitBreaker unit :=
  _ ← write count_failure;
  _ ← write (set_successes 0);
  failures ← bump_failures;
  _ ← write (note_failure now);
  current ← read c_state;
  match current with
  | Closed => if failure_threshold cfg <=? failures then transition_to now Open else mret tt
  | HalfOpen => transition_to now Open
  | Open => mret tt
  end.

(** src: crates/pulsing-actor/src/circuit_breaker.rs 171-177 record_outcome *)
Definition record_outcome (cfg : CircuitBreakerConfig) (now : Z) (success : bool) : prog CircuitBreaker unit :=
  if success then record_success cfg now else record_failure cfg now.

(** src: crates/pulsing-actor/src/circuit_breaker.rs 328-332 reset *)
Definition reset (now : Z) : prog CircuitBreaker unit :=
  _ ← transition_to now Closed; _ ← write (set_failures 0); write (set_successes 0).
(** src: crates/pulsing-actor/src/circuit_breaker.rs 335-337 force_open *)
Definition force_open (now : Z) : prog CircuitBreaker unit := transition_to now Open.

(** src: crates/pulsing-actor/src/circuit_breaker.rs 323-325 is_half_open *)
Definition is_half_open (cfg : CircuitBreakerConfig) (now : Z) : prog CircuitBreaker bool :=
  s ← get_state cfg now; mret (bool_decide (s = HalfOpen)).
(** src: crates/pulsing-actor/src/circuit_breaker.rs 310-315 time_since_last_failure *)
Definition time_since_last_failure (now : Z) : prog CircuitBreaker (option Z) :=
  read (λ b, saturating_sub now <$> last_failure_time b).
(** src: crates/pulsing-actor/src/circuit_breaker.rs 318-320 time_since_last_state_change *)
Definition time_since_last_state_change (now : Z) : prog CircuitBreaker Z :=
  read (λ b, saturating_sub now (last_state_change b)).

(** src: crates/pulsing-actor/src/circuit_breaker.rs 375-384 CircuitBreakerStats *)
Record CircuitBreakerStats := mk_stats {
  st_state : CircuitState; st_failures : Z; st_successes : Z; st_total_failures : Z; st_total_successes : Z;
  since_failure : option Z; since_change : Z }.

(** Includes the four counter accessors of lines 290-307.
    src: crates/pulsing-actor/src/circuit_breaker.rs 340-350 stats *)
Definition stats (cfg : CircuitBreakerConfig) (now : Z) : prog CircuitBreaker CircuitBreakerStats :=
  s ← get_state cfg now;
  cf ← read consecutive_failures; cs ← read consecutive_successes;
  tf ← read total_failures; ts ← read total_successes;
  lf ← time_since_last_failure now; lc ← time_since_last_state_change now;
  mret (mk_stats s cf cs tf ts lf lc).

(** ** What a breaker promises

    The counters carry meaning in one state each: the failures in a row while
    closed, the successes in a row while half open. *)
Inductive Promise := SClosed (failures : Z) | SOpen (since : Z) | SHalfOpen (successes : Z).

Definition view (b : CircuitBreaker) : Promise :=
  match c_state b with
  | Closed => SClosed (consecutive_failures b)
  | Open => SOpen (last_state_change b)
  | HalfOpen => SHalfOpen (consecutive_successes b)
  end.

Definition spec_success (cfg : CircuitBreakerConfig) (p : Promise) : Promise :=
  match p with
  | SClosed _ => SClosed 0
  | SOpen t => SOpen t
  | SHalfOpen n => if success_threshold cfg <=? n + 1 then SClosed 0 else SHalfOpen (n + 1)
  end.
Definition spec_failure (cfg : CircuitBreakerConfig) (now : Z) (p : Promise) : Promise :=
  match p with
  | SClosed n => if failure_threshold cfg <=? n + 1 then SOpen now else SClosed (n + 1)
  | SOpen t => SOpen t
  | SHalfOpen _ => SOpen now
  end.
Definition spec_outcome (cfg : CircuitBreakerConfig) (now : Z) (success : bool) : Promise → Promise :=
  if success then spec_success cfg else spec_failure cfg now.
Definition spec_tick (cfg : CircuitBreakerConfig) (now : Z) (p : Promise) : Promise :=
  match p with
  | SOpen t => if timeout_duration cfg <=? saturating_sub now t then SHalfOpen 0 else SOpen t
  | p => p
  end.
Definition spec_allows (p : Promise) : bool := match p with SOpen _ => false | _ => true end.

Definition config_ok (cfg : CircuitBreakerConfig) : Prop :=
  is_u32 (failure_threshold cfg) ∧ is_u32 (success_threshold cfg).

Record breaker_inv (cfg : CircuitBreakerConfig) (b : CircuitBreaker) : Prop := {
  inv_failures : is_u32 (consecutive_failures b);
  inv_successes : is_u32 (consecutive_successes b);
  inv_closed : c_state b = Closed → consecutive_failures b < Z.max 1 (failure_threshold cfg);
  inv_half_open : c_state b = HalfOpen → consecutive_successes b < Z.max 1 (success_threshold cfg)
}.

Lemma is_u32_0 : is_u32 0.
Proof. by split; [|reflexivity]. Qed.

Lemma u32_below n m : 0 <= n → n < Z.max 1 m → is_u32 m → u32 (n + 1) = n + 1.
Proof. intros. apply u32_small. unfold is_u32, two32 in *. lia. Qed.

Ltac breaker_op :=
  unfold record_success, record_failure, check_and_update_state, transition_to, bump_successes, bump_failures;
  cbn; unfold transition, set_failures, set_successes, count_failure, count_success, note_failure; cbn.

(** Settles the comparisons of two known states. *)
Ltac settle := repeat (case_decide; simplify_eq); cbn.

Lemma record_success_view cfg now b :
  config_ok cfg → breaker_inv cfg b →
  view (run (record_success cfg now) b).1 = spec_success cfg (view b) ∧
  breaker_inv cfg (run (record_success cfg now) b).1.
Proof.
  intros [Hft Hst] [Hf Hs Hc Hh]. destruct b as [st cf cs tf ts lf lc]. unfold view. breaker_op. cbn in *.
  destruct st; cbn; settle.
  - split; [done|]. split; cbn; [apply is_u32_0|apply u32_range|lia|done].
  - split; [done|]. split; cbn; [apply is_u32_0|apply u32_range|done|done].
  - rewrite (u32_below cs (success_threshold cfg)) by first [exact (proj1 Hs)|by apply Hh|done].
    destruct (Z.leb_spec (success_threshold cfg) (cs + 1)); cbn; settle; (split; [done|]).
    + split; cbn; [apply is_u32_0|apply is_u32_0|lia|done].
    + specialize (Hh eq_refl). split; cbn; [apply is_u32_0| |done|lia]. unfold is_u32 in *. lia.
Qed.

Lemma record_failure_view cfg now b :
  config_ok cfg → breaker_inv cfg b →
  view (run (record_failure cfg now) b).1 = spec_failure cfg now (view b) ∧
  breaker_inv cfg (run (record_failure cfg now) b).1.
Proof.
  intros [Hft Hst] [Hf Hs Hc Hh]. destruct b as [st cf cs tf ts lf lc]. unfold view. breaker_op. cbn in *.
  destruct st; cbn; settle.
  - rewrite (u32_below cf (failure_threshold cfg)) by first [exact (proj1 Hf)|by apply Hc|done].
    destruct (Z.leb_spec (failure_threshold cfg) (cf + 1)); cbn; settle; (split; [done|]); specialize (Hc eq_refl).
    + split; cbn; [|apply is_u32_0|done|done]. unfold is_u32, two32 in *. lia.
    + split; cbn; [|apply is_u32_0|lia|done]. unfold is_u32 in *. lia.
  - split; [done|]. split; cbn; [apply u32_range|apply is_u32_0|done|done].
  - split; [done|]. split; cbn; [apply u32_range|apply is_u32_0|done|done].
Qed.

Lemma record_outcome_view cfg now ok b :
  config_ok cfg → breaker_inv cfg b →
  view (run (record_outcome cfg now ok) b).1 = spec_outcome cfg now ok (view b) ∧
  breaker_inv cfg (run (record_outcome cfg now ok) b).1.
Proof. destruct ok; [apply record_success_view|apply record_failure_view]. Qed.

Lemma tick_view cfg now b :
  breaker_inv cfg b →
  view (run (check_and_update_state cfg now) b).1 = spec_tick cfg now (view b) ∧
  breaker_inv cfg (run (check_and_update_state cfg now) b).1.
Proof.
  intros Hi. pose proof Hi as [Hf Hs Hc Hh]. destruct b as [st cf cs tf ts lf lc]. unfold view. breaker_op. cbn in *.
  destruct st; cbn; settle; [done| |done]. destruct (_ <=? _); cbn; settle; [|done]. split; [done|].
  split; cbn; [apply is_u32_0|apply is_u32_0|done|lia].
Qed.

Lemma can_execute_run cfg now b :
  run (can_execute cfg now) b =
  let b' := (run (check_and_update_state cfg now) b).1 in (b', spec_allows (view b')).
Proof.
  unfold can_execute, mbind, prog_mbind. rewrite run_bind. cbn [read run prog_bind].
  destruct (c_state (run _ b).1) eqn:E; unfold view; by rewrite E.
Qed.

(** Run one at a time, the operations implement a three-state machine: closed
    with the failures seen in a row, open since some time, half open with the
    successes in a row. A success or failure recorded, a permission asked, a reset
    and a forced opening each move it as the machine says, and counters never wrap
    in a way it can notice. The machine is the code's: unlike what the comments
    say, the times of failures do not count and a half-open breaker lets every
    request through. *)
Theorem breaker_refines_promise cfg now b ok :
  config_ok cfg → breaker_inv cfg b →
  (view (run (record_outcome cfg now ok) b).1 = spec_outcome cfg now ok (view b) ∧
   breaker_inv cfg (run (record_outcome cfg now ok) b).1) ∧
  (view (run (can_execute cfg now) b).1 = spec_tick cfg now (view b) ∧
   (run (can_execute cfg now) b).2 = spec_allows (spec_tick cfg now (view b)) ∧
   breaker_inv cfg (run (can_execute cfg now) b).1) ∧
  (view (run (reset now) b).1 = SClosed 0 ∧ breaker_inv cfg (run (reset now) b).1) ∧
  (view (run (force_open now) b).1 = (match view b with SOpen t => SOpen t | _ => SOpen now end) ∧
   breaker_inv cfg (run (force_open now) b).1).
Proof.
  intros Hcfg Hi. split_and!.
  - by apply record_outcome_view.
  - by apply record_outcome_view.
  - rewrite can_execute_run. by apply tick_view.
  - rewrite can_execute_run. cbv zeta. cbn [fst snd]. by rewrite (proj1 (tick_view cfg now b Hi)).
  - rewrite can_execute_run. by apply tick_view.
  - destruct b as [st ? ? ? ? ? ?]. destruct st; breaker_op; settle; done.
  - destruct b as [st ? ? ? ? ? ?]. destruct st; breaker_op; settle; (split; cbn; [apply is_u32_0|apply is_u32_0|lia|done]).
  - destruct b as [st ? ? ? ? ? ?]. destruct st; done.
  - destruct Hi as [Hf Hs Hc Hh]. destruct b as [st ? ? ? ? ? ?]. unfold force_open. breaker_op. cbn in *.
    destruct st; settle; (split; cbn; try done; apply is_u32_0).
Qed.

Lemma breaker_new_inv cfg now : breaker_inv cfg (breaker_new now).
Proof. split; cbn; [apply is_u32_0|apply is_u32_0|lia|done]. Qed.

Lemma default_config_ok : config_ok default_breaker_config.
Proof. by split; split. Qed.

Lemma breaker_refines_promise_witness :
  view (run (record_outcome default_breaker_config 7 false) (breaker_new 0)).1 = SClosed 1.
Proof.
  exact (proj1 (proj1 (breaker_refines_promise default_breaker_config 7 (breaker_new 0) false
    default_config_ok (breaker_new_inv _ 0)))).
Defined.

(** ** When it opens *)

(** Outcomes recorded one after the other, each with its time. *)
Definition record_all (cfg : CircuitBreakerConfig) (events : list (Z * bool)) (b : CircuitBreaker) : CircuitBreaker :=
  foldl (λ b e, (run (record_outcome cfg e.1 e.2) b).1) b events.

Definition has_run (k : nat) (l : list bool) : Prop := ∃ pre post, l = pre ++ replicate k false ++ post.

Lemma has_run_true n k l : (n < k)%nat → has_run k (replicate n false ++ true :: l) ↔ has_run k l.
Proof.
  intros Hk. split; [|intros (pre & post & ->); exists (replicate n false ++ true :: pre), post; by rewrite <- app_assoc].
  intros (pre & post & E). revert pre E. induction n as [|n IH]; intros pre E; simpl in E.
  - destruct k as [|k]; [lia|]. destruct pre as [|x pre]; simplify_eq/=. by exists pre, post.
  - destruct pre as [|x pre]; simpl in E; [|injection E as _ E; apply (IH ltac:(lia) pre E)].
    exfalso. assert (Hl : (false :: replicate n false ++ true :: l) !! Datatypes.S n = Some true).
    { simpl. by rewrite list_lookup_middle by by rewrite length_replicate. }
    rewrite E, lookup_app_l in Hl by (rewrite length_replicate; lia). by apply lookup_replicate in Hl as [? _].
Qed.

Lemma view_closed b n : view b = SClosed n ↔ c_state b = Closed ∧ consecutive_failures b = n.
Proof. unfold view. destruct (c_state b); naive_solver. Qed.

Lemma view_open b t : view b = SOpen t ↔ c_state b = Open ∧ last_state_change b = t.
Proof. unfold view. destruct (c_state b); naive_solver. Qed.

Lemma record_all_open cfg events b :
  config_ok cfg → breaker_inv cfg b → c_state b = Open → c_state (record_all cfg events b) = Open.
Proof.
  intros Hcfg. revert b. induction events as [|[now ok] events IH]; intros b Hi Ho; [done|]. simpl.
  destruct (record_outcome_view cfg now ok b Hcfg Hi) as [Hv Hi']. apply IH; [done|].
  rewrite (proj2 (view_open b _) (conj Ho eq_refl)) in Hv. by destruct ok; apply view_open in Hv as [? _].
Qed.

Lemma record_all_closed cfg events b n :
  config_ok cfg → breaker_inv cfg b → 1 <= failure_threshold cfg →
  c_state b = Closed → consecutive_failures b = Z.of_nat n →
  c_state (record_all cfg events b) = Open ↔
  has_run (Z.to_nat (failure_threshold cfg)) (replicate n false ++ events.*2).
Proof.
  intros Hcfg Hi Ht. revert b n Hi. induction events as [|[now ok] events IH]; intros b n Hi Hc Hn.
  - simpl. rewrite app_nil_r. split; [congruence|]. intros (pre & post & E). exfalso.
    pose proof (inv_closed _ _ Hi Hc). apply (f_equal length) in E.
    rewrite !length_app, !length_replicate in E. lia.
  - simpl. pose proof (inv_closed _ _ Hi Hc) as Hlt.
    destruct (record_outcome_view cfg now ok b Hcfg Hi) as [Hv Hi'].
    rewrite (proj2 (view_closed b _) (conj Hc eq_refl)) in Hv. destruct ok; cbn in Hv.
    + apply view_closed in Hv as [??]. rewrite has_run_true by lia. by apply (IH _ 0%nat).
    + rewrite (cons_middle false), app_assoc, <- (replicate_S_end n false).
      destruct (Z.leb_spec (failure_threshold cfg) (consecutive_failures b + 1)).
      * apply view_open in Hv as [Ho _]. split; intros _; [|by apply record_all_open].
        exists [], events.*2. simpl. by replace (Z.to_nat (failure_threshold cfg)) with (S n) by lia.
      * apply view_closed in Hv as [? Hf]. apply IH; [done..|]. etransitivity; [exact Hf|lia].
Qed.

(** A new breaker on which outcomes are recorded opens exactly when
    [failure_threshold] failures occur in a row somewhere among them, whatever
    their times. *)
Theorem opens_iff_failures_in_a_row cfg events now :
  config_ok cfg → 1 <= failure_threshold cfg →
  c_state (record_all cfg events (breaker_new now)) = Open ↔
  ∃ pre post, events.*2 = pre ++ replicate (Z.to_nat (failure_threshold cfg)) false ++ post.
Proof.
  intros Hcfg Ht. by rewrite (record_all_closed cfg events (breaker_new now) 0) by (done || apply breaker_new_inv).
Qed.

Lemma opens_iff_failures_in_a_row_witness :
  c_state (record_all default_breaker_config
    [(1, false); (2, true); (3, false); (70000, false); (170000, false); (270000, false); (370000, false)] (breaker_new 0)) = Open.
Proof.
  apply (opens_iff_failures_in_a_row default_breaker_config); [apply default_config_ok|by vm_compute|].
  exists [false; true], []. reflexivity.
Defined.

(** ** The life of a breaker *)

Inductive Event := Outcome (now : Z) (ok : bool) | Asked (now : Z).
Definition event_time (e : Event) : Z := match e with Outcome now _ | Asked now => now end.
(** Events one after the other, and the answers to those that ask. *)
Fixpoint lives (cfg : CircuitBreakerConfig) (events : list Event) (b : CircuitBreaker) : CircuitBreaker * list bool :=
  match events with
  | [] => (b, [])
  | Outcome now ok :: events => lives cfg events (run (record_outcome cfg now ok) b).1
  | Asked now :: events =>
      let '(b, answer) := run (can_execute cfg now) b in
      let '(b, answers) := lives cfg events b in (b, answer :: answers)
  end.
Definition outcomes (ok : bool) (times : list Z) : list Event := (λ now, Outcome now ok) <$> times.

Lemma view_half_open b n : view b = SHalfOpen n ↔ c_state b = HalfOpen ∧ consecutive_successes b = n.
Proof. unfold view. destruct (c_state b); naive_solver. Qed.

Lemma can_execute_view cfg now b :
  breaker_inv cfg b →
  view (run (can_execute cfg now) b).1 = spec_tick cfg now (view b) ∧
  (run (can_execute cfg now) b).2 = spec_allows (spec_tick cfg now (view b)) ∧
  breaker_inv cfg (run (can_execute cfg now) b).1.
Proof.
  intros Hi. rewrite can_execute_run. cbv zeta. cbn [fst snd]. destruct (tick_view cfg now b Hi) as [Hv Hb].
  by rewrite Hv.
Qed.

Lemma lives_inv cfg events b : config_ok cfg → breaker_inv cfg b → breaker_inv cfg (lives cfg events b).1.
Proof.
  intros Hcfg. revert b. induction events as [|[now ok|now] events IH]; intros b Hi; [done|..]; cbn [lives].
  - by apply IH, record_outcome_view.
  - destruct (can_execute_view cfg now b Hi) as (_ & _ & Hi'). destruct (run (can_execute cfg now) b) as [b' answer].
    specialize (IH b' Hi'). cbn [fst] in *. by destruct (lives cfg events b').
Qed.

(** Outcomes of one kind, followed in the machine. *)
Lemma lives_outcomes cfg ok times b :
  config_ok cfg → breaker_inv cfg b →
  view (lives cfg (outcomes ok times) b).1 = foldl (λ p now, spec_outcome cfg now ok p) (view b) times.
Proof.
  intros Hcfg. revert b. induction times as [|now times IH]; intros b Hi; [done|]. cbn [outcomes fmap list_fmap foldl lives].
  destruct (record_outcome_view cfg now ok b Hcfg Hi) as [Hv Hi']. rewrite <- Hv. by apply IH.
Qed.

Lemma failures_closed cfg times n :
  n < failure_threshold cfg →
  match foldl (λ p now, spec_outcome cfg now false p) (SClosed n) times with
  | SOpen _ => failure_threshold cfg <= n + Z.of_nat (length times)
  | SClosed m => m = n + Z.of_nat (length times) ∧ m < failure_threshold cfg
  | SHalfOpen _ => False
  end.
Proof.
  assert (Ho : ∀ times t, foldl (λ p now, spec_outcome cfg now false p) (SOpen t) times = SOpen t).
  { clear. induction times as [|now times IH]; intros t; [done|apply IH]. }
  revert n. induction times as [|now times IH]; intros n Hn; [simpl; lia|]. cbn [foldl spec_outcome spec_failure].
  destruct (Z.leb_spec (failure_threshold cfg) (n + 1)) as [Hge|Hlt].
  - rewrite Ho. cbn [length]. lia.
  - specialize (IH (n + 1) Hlt). cbn [length]. destruct (foldl _ _ times); lia.
Qed.

Lemma successes_half_open cfg times n :
  n < success_threshold cfg → n + Z.of_nat (length times) <= success_threshold cfg →
  foldl (λ p now, spec_outcome cfg now true p) (SHalfOpen n) times =
    if bool_decide (n + Z.of_nat (length times) = success_threshold cfg) then SClosed 0 else SHalfOpen (n + Z.of_nat (length times)).
Proof.
  revert n. induction times as [|now times IH]; intros n Hn Hl.
  { cbn [foldl length]. rewrite bool_decide_false by lia. f_equal. simpl. lia. }
  cbn [foldl spec_outcome spec_success length] in *. destruct (Z.leb_spec (success_threshold cfg) (n + 1)) as [Hge|Hlt].
  - destruct times; [|simpl in Hl; lia]. cbn [foldl]. by rewrite bool_decide_true by (simpl; lia).
  - rewrite IH by lia. rewrite Nat2Z.inj_succ. replace (n + 1 + Z.of_nat (length times)) with (n + Z.succ (Z.of_nat (length times))) by lia. done.
Qed.

(** While the timeout runs, an open breaker stays open whatever happens. *)
Lemma open_refuses cfg events b t :
  config_ok cfg → breaker_inv cfg b → view b = SOpen t →
  Forall (λ e, t <= event_time e < t + timeout_duration cfg) events →
  view (lives cfg events b).1 = SOpen t ∧ Forall (λ a, a = false) (lives cfg events b).2.
Proof.
  intros Hcfg Hi Hv Hev. revert b Hi Hv. induction Hev as [|[now ok|now] events Hr _ IH]; intros b Hi Hv; [by split|..];
    cbn [lives event_time] in *.
  - destruct (record_outcome_view cfg now ok b Hcfg Hi) as [Hv' Hi']. apply IH; [done|]. rewrite Hv', Hv. by destruct ok.
  - destruct (can_execute_view cfg now b Hi) as (Hv' & Ha & Hi'). destruct (run (can_execute cfg now) b) as [b' answer].
    cbn [fst snd] in *. rewrite Hv in Hv', Ha. cbn [spec_tick] in Hv', Ha. unfold saturating_sub in Hv', Ha.
    rewrite (proj2 (Z.leb_gt _ _)) in Hv', Ha by lia. destruct (IH b' Hi' Hv') as [? ?].
    destruct (lives cfg events b') as [b'' answers]. cbn [fst snd] in *. split; [done|]. by constructor.
Qed.

(** C15: The life of a breaker that is used by one caller at a time, in the cases
    its documentation describes. After a success, a closed breaker opens at the
    [failure_threshold]th failure in a row and not before, when the failures fall
    within the window; it lets requests through as long as it is closed. Once open,
    it refuses every request until the timeout has passed, whatever outcomes are
    recorded in the meantime, and then lets the next request through to try the
    service. Fewer than [success_threshold] successes leave it half open, and a
    failure after them opens it again from that time on; so many successes in a row
    close it, with no failure counted. Both thresholds are at least one. *)
Theorem breaker_lifecycle cfg started before :
  config_ok cfg → 1 <= failure_threshold cfg → 1 <= success_threshold cfg →
  let b := (lives cfg before (breaker_new started)).1 in
  (c_state b = Closed →
     (∀ now, (run (can_execute cfg now) b).2 = true) ∧
     ∀ now times, (∀ x y, x ∈ times → y ∈ times → Z.abs (x - y) <= window_duration cfg) →
       let b' := (lives cfg (Outcome now true :: outcomes false times) b).1 in
       (c_state b' = Open ↔ failure_threshold cfg <= Z.of_nat (length times)) ∧
       (c_state b' = Closed ↔ Z.of_nat (length times) < failure_threshold cfg)) ∧
  (c_state b = Open → ∀ events,
     Forall (λ e, last_state_change b <= event_time e < last_state_change b + timeout_duration cfg) events →
     let '(b', answers) := lives cfg events b in
     c_state b' = Open ∧ Forall (λ a, a = false) answers ∧
     ∀ now, last_state_change b + timeout_duration cfg <= now → 0 <= timeout_duration cfg →
       let '(tried, answer) := run (can_execute cfg now) b' in
       answer = true ∧ c_state tried = HalfOpen ∧
       ∀ times, Z.of_nat (length times) <= success_threshold cfg →
         let c := (lives cfg (outcomes true times) tried).1 in
         if bool_decide (Z.of_nat (length times) = success_threshold cfg)
         then c_state c = Closed ∧ consecutive_failures c = 0
         else c_state c = HalfOpen ∧
           ∀ failed, let o := (run (record_failure cfg failed) c).1 in c_state o = Open ∧ last_state_change o = failed).
Proof.
  intros Hcfg Hft Hst b. assert (Hi : breaker_inv cfg b) by (apply lives_inv, breaker_new_inv; done). clearbody b. split.
  - intros Hc. pose proof (proj2 (view_closed b _) (conj Hc eq_refl)) as Hv. split.
    { intros now. destruct (can_execute_view cfg now b Hi) as (_ & -> & _). by rewrite Hv. }
    intros now times _ b'. unfold b'. cbn [lives]. destruct (record_outcome_view cfg now true b Hcfg Hi) as [Hv' Hi'].
    rewrite Hv in Hv'. cbn [spec_outcome spec_success] in Hv'. pose proof (lives_outcomes cfg false times _ Hcfg Hi') as Hl. rewrite Hv' in Hl.
    pose proof (failures_closed cfg times 0 ltac:(lia)) as Hf. rewrite <- Hl in Hf. clear Hl.
    destruct (lives _ _ _) as [b1 answers]. unfold view in Hf. cbn [fst] in *. destruct (c_state b1); [| |done]; (split; split; [done|lia|done|lia]) || (split; split; lia || done).
  - intros Ho events Hev. pose proof (proj2 (view_open b _) (conj Ho eq_refl)) as Hv.
    destruct (open_refuses cfg events b _ Hcfg Hi Hv Hev) as [Hv1 Ha]. pose proof (lives_inv cfg events b Hcfg Hi) as Hi1.
    destruct (lives cfg events b) as [b1 answers]. cbn [fst snd] in *. split_and!; [by apply view_open in Hv1 as [? _]|done|].
    intros now Hnow Ht. destruct (can_execute_view cfg now b1 Hi1) as (Hv2 & Ha2 & Hi2).
    rewrite Hv1 in Hv2, Ha2. cbn [spec_tick] in Hv2, Ha2. unfold saturating_sub in Hv2, Ha2.
    rewrite (proj2 (Z.leb_le _ _)) in Hv2, Ha2 by lia. destruct (run (can_execute cfg now) b1) as [b2 answer]. cbn [fst snd] in *.
    split_and!; [done|by apply view_half_open in Hv2 as [? _]|]. intros times Hl. cbv zeta.
    pose proof (lives_outcomes cfg true times b2 Hcfg Hi2) as Hv3. rewrite Hv2, successes_half_open in Hv3 by lia.
    pose proof (lives_inv cfg (outcomes true times) b2 Hcfg Hi2) as Hi3. rewrite Z.add_0_l in Hv3.
    destruct (lives cfg (outcomes true times) b2) as [b3 ?]. cbn [fst] in *. case_bool_decide.
    + by apply view_closed in Hv3.
    + split; [by apply view_half_open in Hv3 as [? _]|]. intros failed. apply view_open.
      destruct (record_failure_view cfg failed b3 Hcfg Hi3) as [-> _]. by rewrite Hv3.
Qed.

Definition quick_config : CircuitBreakerConfig := mk_breaker_config 2 2 100 1000.
Lemma breaker_lifecycle_witness :
  let b := (lives quick_config [Outcome 1 false; Outcome 2 false] (breaker_new 0)).1 in
  c_state b = Open ∧ Forall (λ a, a = false) (lives quick_config [Asked 3; Outcome 4 true; Asked 101] b).2.
Proof.
  destruct (breaker_lifecycle quick_config 0 [Outcome 1 false; Outcome 2 false]) as [_ Ho]; [by split; split|done|done|].
  intros b. fold b in Ho. assert (Hs : c_state b = Open) by (vm_compute; reflexivity). split; [exact Hs|].
  assert (Hev : Forall (λ e, last_state_change b <= event_time e < last_state_change b + timeout_duration quick_config)
    [Asked 3; Outcome 4 true; Asked 101]) by (apply (bool_decide_unpack _); vm_compute; exact I).
  specialize (Ho Hs _ Hev). destruct (lives quick_config [Asked 3; Outcome 4 true; Asked 101] b) as [b' answers].
  exact (proj1 (proj2 Ho)).
Defined.

(** ** Threads *)

Inductive Call :=
  | CallSuccess (now : Z) | CallFailure (now : Z) | CallExecute (now : Z) | CallStats (now : Z)
  | CallReset (now : Z) | CallForceOpen (now : Z).

Definition thread (cfg : CircuitBreakerConfig) (c : Call) : prog CircuitBreaker unit :=
  match c with
  | CallSuccess now => record_success cfg now
  | CallFailure now => record_failure cfg now
  | CallExecute now => _ ← can_execute cfg now; mret tt
  | CallStats now => _ ← stats cfg now; mret tt
  | CallReset now => reset now
  | CallForceOpen now => force_open now
  end.

Definition successes_of (calls : list Call) : list Z :=
  (λ c, match c with CallSuccess _ => 1 | _ => 0 end) <$> calls.
Definition failures_of (calls : list Call) : list Z :=
  (λ c, match c with CallFailure _ => 1 | _ => 0 end) <$> calls.

Lemma transition_totals now st b :
  total_successes (transition now st b) = total_successes b ∧ total_failures (transition now st b) = total_failures b.
Proof. unfold transition. by case_decide. Qed.

Lemma transition_to_quiet now st :
  adds total_successes (transition_to now st) 0 ∧ adds total_failures (transition_to now st) 0.
Proof. split; apply adds_write; intros b; apply (transition_totals now st b). Qed.

Ltac quiet_call :=
  quiet_tree; try apply transition_to_quiet; try done.

Lemma tick_quiet cfg now :
  adds total_successes (check_and_update_state cfg now) 0 ∧ adds total_failures (check_and_update_state cfg now) 0.
Proof. unfold check_and_update_state. split; quiet_call. Qed.

Lemma thread_adds cfg c :
  adds total_successes (thread cfg c) (match c with CallSuccess _ => 1 | _ => 0 end) ∧
  adds total_failures (thread cfg c) (match c with CallFailure _ => 1 | _ => 0 end).
Proof.
  destruct c; split; cbn [thread];
    unfold record_success, record_failure, can_execute, stats, get_state, reset, force_open, bump_successes,
      bump_failures, time_since_last_failure, time_since_last_state_change;
    try (eapply (adds_bind _ _ _ 1 0); [by apply adds_write_one; intros []|intros _]);
    quiet_call; try apply tick_quiet.
Qed.

Lemma thread_costs cfg c : costs (thread cfg c) 12.
Proof.
  assert (Ht : costs (check_and_update_state cfg (match c with CallExecute n | CallStats n => n | _ => 0 end)) 3).
  { apply (costs_bind _ _ 1 2); [auto with pulsing|intros st]. case_decide; [|apply costs_ret].
    apply (costs_bind _ _ 1 1); [auto with pulsing|intros t]. destruct (_ <=? _); [apply costs_write|apply costs_ret]. }
  destruct c; cbn [thread];
    unfold record_success, record_failure, can_execute, stats, get_state, reset, force_open, bump_successes,
      bump_failures, time_since_last_failure, time_since_last_state_change, transition_to.
  - do 4 (apply (costs_bind _ _ 1); [auto with pulsing|intros ?]).
    destruct a2; try apply costs_ret. destruct (_ <=? _); [apply costs_write|apply costs_ret].
  - do 5 (apply (costs_bind _ _ 1); [auto with pulsing|intros ?]).
    destruct a3; try apply costs_ret; try apply costs_write. destruct (_ <=? _); [apply costs_write|apply costs_ret].
  - apply (costs_bind _ _ 11 1); [|intros ?; apply costs_ret].
    apply (costs_bind _ _ 3 8); [done|intros _]. apply (costs_bind _ _ 1 7); [auto with pulsing|intros ?; apply costs_ret].
  - apply (costs_bind _ _ 11 1); [|intros ?; apply costs_ret].
    apply (costs_bind _ _ 4 7); [apply (costs_bind _ _ 3 1); [done|intros _; apply costs_read]|intros st].
    do 6 (apply (costs_bind _ _ 1); [auto with pulsing|intros ?]). apply costs_ret.
  - do 2 (apply (costs_bind _ _ 1); [auto with pulsing|intros ?]). apply costs_write.
  - apply costs_write.
Qed.

(** However the accesses of any number of concurrent calls interleave, they
    make at most twelve accesses per call, so all calls return, and then each
    of the two totals has grown by exactly the number of successes and failures
    recorded: no update is lost. *)
Theorem concurrent_totals_exact cfg calls b :
  is_u64 (total_successes b) → is_u64 (total_failures b) →
  (∀ k c, nsteps pstep k (thread cfg <$> calls, b) c → (k ≤ 12 * length calls)%nat) ∧
  (∀ ps b', rtc pstep (thread cfg <$> calls, b) (ps, b') → finished ps →
     total_successes b' = u64 (total_successes b + sum_list_Z (successes_of calls)) ∧
     total_failures b' = u64 (total_failures b + sum_list_Z (failures_of calls))).
Proof.
  intros Hs Hf. split.
  - intros k c Hk. apply (pool_costs _ _ _ _ (replicate (length calls) 12%nat)) in Hk.
    + etrans; [exact Hk|]. clear. induction calls; simpl in *; lia.
    + clear. induction calls; simpl; constructor; [apply thread_costs|done].
  - intros ps b' Hr Hfin. split; apply (pool_finished_adds _ _ _ _ _ _ Hr); try done;
      clear; induction calls as [|c calls IH]; simpl; constructor; try done; apply thread_adds.
Qed.

Lemma concurrent_totals_exact_witness :
  ∃ b', rtc pstep (thread default_breaker_config <$> [CallSuccess 1; CallFailure 2; CallFailure 3], breaker_new 0)
    (replicate 3 (Ret tt), b') ∧ total_failures b' = 2.
Proof.
  pose proof (run_in_turn (thread default_breaker_config <$> [CallSuccess 1; CallFailure 2; CallFailure 3]) (breaker_new 0)) as Hr.
  eexists. split; [exact Hr|].
  refine (proj2 (proj2 (concurrent_totals_exact default_breaker_config
    [CallSuccess 1; CallFailure 2; CallFailure 3] (breaker_new 0) is_u64_0 is_u64_0) _ _ Hr _)).
  repeat constructor.
Defined.

(** The check of the timeout and the move to half open are two critical
    sections: a thread that found the breaker open can move it to half open
    after other threads have tried it and closed it. Run one at a time, no
    operation takes a closed breaker to half open. *)
Theorem late_check_reopens_closed_breaker :
  let cfg := default_breaker_config in
  let b := mk_breaker Open 5 0 5 0 (Some 0) 0 in
  (∃ ps1 b1 b2 ps2,
     rtc pstep (thread cfg <$> [CallExecute 30000; CallExecute 30000; CallSuccess 30001; CallSuccess 30002], b) (ps1, b1) ∧
     c_state b1 = Closed ∧ pstep (ps1, b1) (ps2, b2) ∧ c_state b2 = HalfOpen) ∧
  (∀ c b0, c_state b0 = Closed → c_state (run (thread cfg c) b0).1 ≠ HalfOpen).
Proof.
  intros cfg b. split.
  - eexists _, _, _, _. split_and!.
    + do 2 (eapply rtc_l; [eapply (pstep_at _ _ 1); reflexivity|]).
      etrans; [by apply (run_thread _ 0)|]. etrans; [by apply (run_thread _ 2)|]. by apply (run_thread _ 3).
    + vm_compute. reflexivity.
    + eapply (pstep_at _ _ 1); [reflexivity|]. reflexivity.
    + vm_compute. reflexivity.
  - intros c [st cf cs tf ts lf lc]. simpl. intros ->.
    destruct c; cbn; settle; try done; by destruct (_ <=? _).
Qed.
