(* ===== verification/Policy.v ===== *)
(** * Workers and load-balancing policies

    [policies/]: the [Worker] trait and [BasicWorker], the
    [LoadBalancingPolicy] trait as an interface with its law, and the random,
    round-robin and power-of-two policies. A policy that keeps a counter or a
    position in the generator's stream threads it as its state. *)
From S2P Require Import Prelude.

(** src: crates/pulsing-actor/src/policies/mod.rs 52-89 Worker *)
Class Worker (W : Type) : Type := {
  url : W → str;
  is_healthy : W → bool;
  load : W → Z;
  processed : W → Z;
  model_id : W → str;
  circuit_breaker_allows : W → bool
}.

(** src: crates/pulsing-actor/src/policies/mod.rs 180-187 get_healthy_worker_indices *)
Definition get_healthy_worker_indices `{Worker W} (workers : list W) : list nat :=
  (filter (λ iw, is_healthy iw.2 && circuit_breaker_allows iw.2) (imap pair workers)).*1.

(** ** The basic worker *)

(** src: crates/pulsing-actor/src/policies/mod.rs 191-197 BasicWorker *)
Record BasicWorker := mk_worker_basic {
  bw_url : str; bw_model : str; bw_healthy : bool; bw_load : Z; bw_processed : Z }.
(** src: crates/pulsing-actor/src/policies/mod.rs 212-220 with_model *)
Definition with_model (u m : str) : BasicWorker := mk_worker_basic u m true 0 0.
(** src: crates/pulsing-actor/src/policies/mod.rs 201-209 BasicWorker::new *)
Definition BasicWorker_new (u : str) : BasicWorker := with_model u "default".
(** src: crates/pulsing-actor/src/policies/mod.rs 270-273 set_health *)
Definition set_health (h : bool) (w : BasicWorker) : BasicWorker :=
  mk_worker_basic (bw_url w) (bw_model w) h (bw_load w) (bw_processed w).
(** src: crates/pulsing-actor/src/policies/mod.rs 241-243 increment_load *)
Definition bw_increment_load (w : BasicWorker) : BasicWorker :=
  mk_worker_basic (bw_url w) (bw_model w) (bw_healthy w) (bw_load w +w 1) (bw_processed w).
(** src: crates/pulsing-actor/src/policies/mod.rs 245-247 decrement_load *)
Definition bw_decrement_load (w : BasicWorker) : BasicWorker :=
  mk_worker_basic (bw_url w) (bw_model w) (bw_healthy w) (u64 (bw_load w - 1)) (bw_processed w).
(** src: crates/pulsing-actor/src/policies/mod.rs 249-252 increment_processed *)
Definition bw_increment_processed (w : BasicWorker) : BasicWorker :=
  mk_worker_basic (bw_url w) (bw_model w) (bw_healthy w) (bw_load w) (bw_processed w +w 1).

#[export] Instance basic_worker : Worker BasicWorker := {
  url := bw_url; is_healthy := bw_healthy; load := bw_load; processed := bw_processed;
  model_id := bw_model; circuit_breaker_allows _ := true }.

(** ** Policies *)

Notation RequestHeaders := (gmap (list Z) (list Z)).

(** The methods with an effect on the policy return its new state.
    src: crates/pulsing-actor/src/policies/mod.rs 95-177 LoadBalancingPolicy *)
Class LoadBalancingPolicy (P : Type) : Type := {
  select_worker_with_headers : ∀ `{Worker W}, P → list W → option str → option RequestHeaders → option nat * P;
  policy_name : str;
  needs_request_text : bool;
  needs_headers : bool;
  policy_reset : P → P;
  update_loads : gmap (list Z) Z → P → P
}.
#[global] Arguments policy_name P {_}.
#[global] Arguments needs_request_text P {_}.
#[global] Arguments needs_headers P {_}.

(** src: crates/pulsing-actor/src/policies/mod.rs 104-110 select_worker *)
Definition select_worker `{LoadBalancingPolicy P, Worker W} (p : P) (ws : list W) (text : option str) : option nat * P :=
  select_worker_with_headers p ws text None.

(** src: crates/pulsing-actor/src/policies/mod.rs 161-173 select_worker_pair_with_headers *)
Definition select_worker_pair_with_headers `{LoadBalancingPolicy P, Worker W} (p : P) (prefill decode : list W)
    (text : option str) (headers : option RequestHeaders) : option (nat * nat) * P :=
  match select_worker_with_headers p prefill text headers with
  | (None, p) => (None, p)
  | (Some i, p) =>
      match select_worker_with_headers p decode text headers with
      | (None, p) => (None, p)
      | (Some j, p) => (Some (i, j), p)
      end
  end.
(** src: crates/pulsing-actor/src/policies/mod.rs 151-158 select_worker_pair *)
Definition select_worker_pair `{LoadBalancingPolicy P, Worker W} (p : P) (prefill decode : list W)
    (text : option str) : option (nat * nat) * P :=
  select_worker_pair_with_headers p prefill decode text None.

(** ** Random draws

    [draw k n] is the [k]-th draw of the generator when it is asked for a value
    below [n]. A generator does not repeat one value for ever: [patience]
    bounds how long it repeats [i]. *)
Class Rng : Type := {
  draw : nat → nat → nat;
  draw_lt k n : (0 < n → draw k n < n)%nat;
  patience : nat → nat → nat → nat;
  draw_patience k n i : (1 < n)%nat → draw (k + patience k n i) n ≠ i
}.

(** The generator that counts up. *)
#[export] Program Instance counting_rng : Rng := {
  draw k n := (k mod n)%nat;
  patience k n i := if decide (k mod n = i)%nat then 1%nat else 0%nat
}.
Next Obligation. intros k n Hn. apply Nat.mod_upper_bound. lia. Qed.
Next Obligation.
  intros k n i Hn. simpl. case_decide as Hi; [|by rewrite Nat.add_0_r].
  rewrite <- Hi. intros E. pose proof (Nat.div_mod_eq k n). pose proof (Nat.div_mod_eq (k + 1) n). rewrite E in *.
  assert (n * ((k + 1) `div` n) = n * (k `div` n) + 1)%nat as Hd by lia.
  destruct (decide ((k + 1) `div` n ≤ k `div` n)%nat); nia.
Qed.

(** *** Random *)

(** Its state is the position in the generator's stream.
    src: crates/pulsing-actor/src/policies/random.rs 15-23 RandomPolicy *)
Record RandomPolicy := mk_random { r_draws : nat }.

(** src: crates/pulsing-actor/src/policies/random.rs 26-42 select_worker_with_headers *)
Definition random_select `{Rng, Worker W} (p : RandomPolicy) (ws : list W) (_ : option str) (_ : option RequestHeaders)
    : option nat * RandomPolicy :=
  let healthy := get_healthy_worker_indices ws in
  if bool_decide (healthy = []) then (None, p)
  else (healthy !! draw (r_draws p) (length healthy), mk_random (S (r_draws p))).

#[export] Instance random_policy `{Rng} : LoadBalancingPolicy RandomPolicy := {
  select_worker_with_headers W HW := random_select;
  policy_name := "random"; needs_request_text := false; needs_headers := false;
  policy_reset p := p; update_loads _ p := p }.

(** *** Round robin *)

(** src: crates/pulsing-actor/src/policies/round_robin.rs 15-27 RoundRobinPolicy *)
Record RoundRobinPolicy := mk_rr { counter : Z }.

(** src: crates/pulsing-actor/src/policies/round_robin.rs 30-47 select_worker_with_headers *)
Definition rr_select `{Worker W} (p : RoundRobinPolicy) (ws : list W) (_ : option str) (_ : option RequestHeaders)
    : option nat * RoundRobinPolicy :=
  let healthy := get_healthy_worker_indices ws in
  if bool_decide (healthy = []) then (None, p)
  else (healthy !! Z.to_nat (counter p mod Z.of_nat (length healthy)), mk_rr (counter p +w 1)).

(** src: crates/pulsing-actor/src/policies/round_robin.rs 53-55 reset *)
Definition rr_reset (_ : RoundRobinPolicy) : RoundRobinPolicy := mk_rr 0.

#[export] Instance round_robin_policy : LoadBalancingPolicy RoundRobinPolicy := {
  select_worker_with_headers W HW := rr_select;
  policy_name := "round_robin"; needs_request_text := false; needs_headers := false;
  policy_reset := rr_reset; update_loads _ p := p }.

(** *** Power of two choices *)

(** src: crates/pulsing-actor/src/policies/power_of_two.rs 20-31 PowerOfTwoPolicy *)
Record PowerOfTwoPolicy := mk_p2 { cached_loads : gmap (list Z) Z; p_draws : nat }.

(** [as isize]. *)
Definition as_isize (z : Z) : Z := if z <? 2 ^ 63 then z else z - two64.

(** src: crates/pulsing-actor/src/policies/power_of_two.rs 33-43 get_worker_load *)
Definition get_worker_load `{Worker W} (p : PowerOfTwoPolicy) (w : W) : Z :=
  match cached_loads p !! url w with
  | Some l => l
  | None => as_isize (load w)
  end.

(** The loop that draws again until the value differs from [i].
    src: crates/pulsing-actor/src/policies/power_of_two.rs 69-71 select_worker_with_headers (loop) *)
Fixpoint redraw `{Rng} (fuel k n i j : nat) : option (nat * nat) :=
  if bool_decide (j = i) then
    match fuel with
    | O => None
    | S fuel => redraw fuel (S k) n i (draw k n)
    end
  else Some (j, k).

(** The fuel is one more than the generator's patience.
    src: crates/pulsing-actor/src/policies/power_of_two.rs 47-96 select_worker_with_headers *)
Definition p2_select `{Rng, Worker W} (p : PowerOfTwoPolicy) (ws : list W) (_ : option str) (_ : option RequestHeaders)
    : option nat * PowerOfTwoPolicy :=
  let healthy := get_healthy_worker_indices ws in
  match healthy with
  | [] => (None, p)
  | [i] => (Some i, p)
  | _ =>
      let n := length healthy in
      let k := p_draws p in
      let idx1 := draw k n in
      match redraw (S (patience (2 + k) n idx1)) (2 + k) n idx1 (draw (S k) n) with
      | None => (None, p)
      | Some (idx2, k) =>
          let p' := mk_p2 (cached_loads p) k in
          match healthy !! idx1, healthy !! idx2 with
          | Some w1, Some w2 =>
              match ws !! w1, ws !! w2 with
              | Some a, Some b => (Some (if get_worker_load p a <=? get_worker_load p b then w1 else w2), p')
              | _, _ => (None, p')
              end
          | _, _ => (None, p')
          end
      end
  end.

(** src: crates/pulsing-actor/src/policies/power_of_two.rs 102-106 update_loads *)
Definition p2_update_loads (loads : gmap (list Z) Z) (p : PowerOfTwoPolicy) : PowerOfTwoPolicy :=
  mk_p2 loads (p_draws p).

#[export] Instance power_of_two_policy `{Rng} : LoadBalancingPolicy PowerOfTwoPolicy := {
  select_worker_with_headers W HW := p2_select;
  policy_name := "power_of_two"; needs_request_text := false; needs_headers := false;
  policy_reset p := p; update_loads := p2_update_loads }.

(** ** What the load-balancing policies promise

    The law every policy obeys, as an interface ([PolicySound]) with an
    instance per policy, and what each policy adds to it. *)
Section Healthy.
Context `{Worker W}.
Implicit Types ws : list W.

Definition available (w : W) : bool := is_healthy w && circuit_breaker_allows w.

Lemma elem_of_healthy ws i :
  i ∈ get_healthy_worker_indices ws ↔ ∃ w, ws !! i = Some w ∧ available w = true.
Proof.
  unfold get_healthy_worker_indices. rewrite list_elem_of_fmap. split.
  - intros ([j w] & -> & [Ha Hj]%list_elem_of_filter). apply list_elem_of_lookup in Hj as [k Hk].
    rewrite list_lookup_imap in Hk. destruct (ws !! k) eqn:E; simplify_eq/=. exists w. split; [done|].
    by apply Is_true_eq_true.
  - intros (w & Hw & Ha). exists (i, w). split; [done|]. apply list_elem_of_filter. split; [by apply Is_true_eq_left|].
    apply list_elem_of_lookup. exists i. by rewrite list_lookup_imap, Hw.
Qed.

Lemma NoDup_healthy ws : NoDup (get_healthy_worker_indices ws).
Proof.
  unfold get_healthy_worker_indices. apply (sublist_NoDup _ (imap pair ws).*1).
  - assert ((imap pair ws).*1 = seq 0 (length ws)) as ->; [|apply NoDup_seq].
    apply list_eq. intros i. rewrite list_lookup_fmap, list_lookup_imap.
    destruct (ws !! i) eqn:E; simpl.
    + apply lookup_lt_Some in E. by rewrite lookup_seq_lt.
    + apply lookup_ge_None in E. by rewrite lookup_seq_ge.
  - apply fmap_sublist, sublist_filter.
Qed.

Lemma healthy_lookup ws k : (k < length (get_healthy_worker_indices ws))%nat →
  ∃ i, get_healthy_worker_indices ws !! k = Some i ∧ i ∈ get_healthy_worker_indices ws.
Proof. intros Hk. apply lookup_lt_is_Some in Hk as [i Hi]. exists i. split; [done|]. by eapply list_elem_of_lookup_2. Qed.
End Healthy.

(** ** The law of a policy *)

(** What [select_worker] promises to its callers: a healthy worker whose
    breaker allows it, or nothing when there is none. *)
Definition sound_choice `{Worker W} (ws : list W) (r : option nat) : Prop :=
  match r with
  | Some i => i ∈ get_healthy_worker_indices ws
  | None => get_healthy_worker_indices ws = []
  end.

Class PolicySound (P : Type) `{LoadBalancingPolicy P} : Prop :=
  select_sound : ∀ W (HW : Worker W) (p : P) (ws : list W) text headers,
    sound_choice ws (select_worker_with_headers p ws text headers).1.

Lemma sound_index `{Worker W} (ws : list W) k (P : Type) (p : P) :
  (k < length (get_healthy_worker_indices ws))%nat →
  sound_choice ws (get_healthy_worker_indices ws !! k, p).1.
Proof. intros Hk. destruct (healthy_lookup ws k Hk) as (i & Hi & Hin). simpl. by rewrite Hi. Qed.

#[export] Instance random_sound `{Rng} : PolicySound RandomPolicy.
Proof.
  intros W HW p ws text headers. simpl. unfold random_select. case_bool_decide as Hh; [done|].
  apply sound_index, draw_lt. destruct (get_healthy_worker_indices ws); simpl; [done|lia].
Qed.

#[export] Instance round_robin_sound : PolicySound RoundRobinPolicy.
Proof.
  intros W HW p ws text headers. simpl. unfold rr_select. case_bool_decide as Hh; [done|].
  apply sound_index. destruct (get_healthy_worker_indices ws) as [|i l]; [done|].
  pose proof (Z.mod_pos_bound (counter p) (Z.of_nat (length (i :: l)))). simpl length in *. lia.
Qed.

Lemma redraw_some `{Rng} fuel k n i j :
  (1 < n)%nat → (j < n)%nat → (patience k n i < fuel)%nat →
  ∃ j' k', redraw fuel k n i j = Some (j', k') ∧ j' ≠ i ∧ (j' < n)%nat.
Proof.
  intros Hn Hj Hf. pose proof (draw_patience k n i Hn) as Hd.
  remember (patience k n i) as m eqn:Em. clear Em. revert m k j Hj Hf Hd.
  induction fuel as [|fuel IH]; intros m k j Hj Hf Hd; [lia|]. simpl.
  case_bool_decide as Hji; [|by eauto]. destruct m as [|m].
  - destruct fuel as [|fuel]; simpl; rewrite Nat.add_0_r in Hd; rewrite bool_decide_false by done;
      do 2 eexists; (split_and!; [done..|]); apply draw_lt; lia.
  - apply (IH m); [apply draw_lt; lia|lia|]. by rewrite Nat.add_succ_comm.
Qed.

(** What one choice of the power-of-two policy is. *)
Lemma p2_select_cases `{Rng, Worker W} (p : PowerOfTwoPolicy) (ws : list W) text headers :
  (1 < length (get_healthy_worker_indices ws))%nat →
  ∃ i j a b k, (p2_select p ws text headers).1 = Some i ∧ (p2_select p ws text headers).2 = mk_p2 (cached_loads p) k ∧
    i ≠ j ∧ i ∈ get_healthy_worker_indices ws ∧ j ∈ get_healthy_worker_indices ws ∧
    ws !! i = Some a ∧ ws !! j = Some b ∧ get_worker_load p a <= get_worker_load p b.
Proof.
  intros Hn. unfold p2_select. set (h := get_healthy_worker_indices ws) in *.
  assert (Hi1 : (draw (p_draws p) (length h) < length h)%nat) by (apply draw_lt; lia).
  destruct (redraw_some (S (patience (2 + p_draws p) (length h) (draw (p_draws p) (length h)))) (2 + p_draws p)
    (length h) (draw (p_draws p) (length h)) (draw (S (p_draws p)) (length h))) as (j' & k' & Hr & Hne & Hlt);
    [done|apply draw_lt; lia|lia|].
  destruct (healthy_lookup ws _ Hi1) as (w1 & Hw1 & Hin1). destruct (healthy_lookup ws _ Hlt) as (w2 & Hw2 & Hin2).
  assert (Hw : w1 ≠ w2). { intros ->. apply Hne. eapply NoDup_lookup; [apply (NoDup_healthy ws)|done..]. }
  pose proof Hin1 as (a & Ha & _)%elem_of_healthy. pose proof Hin2 as (b & Hb & _)%elem_of_healthy.
  fold h in Hw1, Hw2, Hin1, Hin2. clearbody h. destruct h as [|x [|y l]]; [simpl in *; lia..|].
  rewrite Hr, Hw1, Hw2, Ha, Hb. simpl.
  destruct (Z.leb_spec (get_worker_load p a) (get_worker_load p b)).
  - exists w1, w2, a, b, k'. by split_and!.
  - exists w2, w1, b, a, k'. split_and!; try done. lia.
Qed.

#[export] Instance power_of_two_sound `{Rng} : PolicySound PowerOfTwoPolicy.
Proof.
  intros W HW p ws text headers. simpl.
  destruct (decide (1 < length (get_healthy_worker_indices ws))%nat) as [Hn|Hn].
  - destruct (p2_select_cases p ws text headers Hn) as (i & _ & _ & _ & _ & -> & _ & _ & Hi & _). done.
  - unfold p2_select. destruct (get_healthy_worker_indices ws) as [|i [|j l]] eqn:E; simpl in *; [done| |lia].
    rewrite E. apply list_elem_of_singleton. done.
Qed.

(** A pair selected for prefill and decode by any sound policy has a healthy
    worker of each list, and a missing pair means that one of the lists has
    none. *)
Lemma pair_selection_sound `{PolicySound P, Worker W} (p : P) (prefill decode : list W) text :
  match (select_worker_pair p prefill decode text).1 with
  | Some (i, j) => i ∈ get_healthy_worker_indices prefill ∧ j ∈ get_healthy_worker_indices decode
  | None => get_healthy_worker_indices prefill = [] ∨ get_healthy_worker_indices decode = []
  end.
Proof.
  unfold select_worker_pair, select_worker_pair_with_headers.
  pose proof (select_sound _ _ p prefill text None) as Hs1.
  destruct (select_worker_with_headers p prefill text None) as [[i|] p1]; simpl in *; [|by left].
  pose proof (select_sound _ _ p1 decode text None) as Hs2.
  destruct (select_worker_with_headers p1 decode text None) as [[j|] p2]; simpl in *; [done|by right].
Qed.

(** The power-of-two policy never selects the one most loaded worker: with at
    least two healthy workers the selected one is compared with another healthy
    one and is at most as loaded (by the monitored load where there is one), so
    of exactly two it takes a least loaded one. The loop that draws until the two
    differ ends. *)
Theorem power_of_two_less_loaded `{Rng, Worker W} (p : PowerOfTwoPolicy) (ws : list W) text headers :
  (1 < length (get_healthy_worker_indices ws))%nat →
  ∃ i a, (p2_select p ws text headers).1 = Some i ∧ ws !! i = Some a ∧
    (∃ j b, j ≠ i ∧ j ∈ get_healthy_worker_indices ws ∧ ws !! j = Some b ∧ get_worker_load p a <= get_worker_load p b) ∧
    (length (get_healthy_worker_indices ws) = 2%nat →
       ∀ j b, j ∈ get_healthy_worker_indices ws → ws !! j = Some b → get_worker_load p a <= get_worker_load p b).
Proof.
  intros Hn. destruct (p2_select_cases p ws text headers Hn) as (i & j & a & b & k & Hs & _ & Hij & Hi & Hj & Ha & Hb & Hl).
  exists i, a. split_and!; [done..|by exists j, b|]. intros H2 j' b' Hj' Hb'.
  assert (Hsub : j' = i ∨ j' = j).
  { destruct (get_healthy_worker_indices ws) as [|x [|y []]] eqn:E; simpl in *; try lia.
    pose proof (NoDup_healthy ws) as Hnd. rewrite E in Hnd. set_solver. }
  destruct Hsub as [->| ->]; simplify_eq; lia.
Qed.

Lemma power_of_two_less_loaded_witness :
  let ws := [bw_increment_load (BasicWorker_new "a"); BasicWorker_new "b"] in
  (p2_select (mk_p2 ∅ 0) ws None None).1 = Some 1%nat.
Proof.
  intros ws. destruct (power_of_two_less_loaded (mk_p2 ∅ 0) ws None None) as (i & a & Hs & Ha & _ & Hmin);
    [vm_compute; lia|].
  destruct i as [|[|i]]; [|exact Hs|discriminate].
  exfalso. injection Ha as <-. specialize (Hmin eq_refl 1%nat (BasicWorker_new "b")).
  assert (H1 : 1%nat ∈ get_healthy_worker_indices ws) by (vm_compute; apply list_elem_of_further, list_elem_of_here).
  specialize (Hmin H1 eq_refl). vm_compute in Hmin. by apply Hmin.
Defined.

(** ** Round robin is fair *)

(** The choices of [k] calls in a row. *)
Fixpoint rr_choices `{Worker W} (k : nat) (ws : list W) (p : RoundRobinPolicy) : list (option nat) :=
  match k with
  | O => []
  | S k => let '(r, p') := rr_select p ws None None in r :: rr_choices k ws p'
  end.

Lemma rr_choices_lookup `{Worker W} k (ws : list W) p i :
  let h := get_healthy_worker_indices ws in
  h ≠ [] → 0 <= counter p → counter p + Z.of_nat k < two64 → (i < k)%nat →
  rr_choices k ws p !! i = Some (h !! Z.to_nat ((counter p + Z.of_nat i) mod Z.of_nat (length h))).
Proof.
  intros h Hh. revert p i. induction k as [|k IH]; intros p i Hc Hlt Hi; [lia|]. simpl. unfold rr_select.
  rewrite bool_decide_false by done. fold h. destruct i as [|i]; simpl; [by rewrite Z.add_0_r|].
  assert (Hw : counter p +w 1 = counter p + 1) by (apply u64_add_small; unfold is_u64; lia).
  rewrite IH; simpl; rewrite ?Hw; [|lia..]. by replace (counter p + 1 + Z.of_nat i) with (counter p + Z.of_nat (S i)) by lia.
Qed.

(** Over any number of rounds of calls on the same workers, starting anywhere
    but where the counter wraps, round robin selects every healthy worker exactly
    once per round: each round is a rotation of the list of healthy workers. *)
Theorem round_robin_fair `{Worker W} (ws : list W) p q :
  let h := get_healthy_worker_indices ws in
  h ≠ [] → 0 <= counter p → counter p + Z.of_nat (q * length h) < two64 →
  rr_choices (q * length h) ws p =
    concat (replicate q (Some <$> rotate (Z.to_nat (counter p)) h)).
Proof.
  intros h Hh Hc Hlt. apply list_eq. intros i.
  assert (Hn : (0 < length h)%nat) by (destruct h; simpl in *; [done|lia]).
  assert (Hlen : length (concat (replicate q (Some <$> rotate (Z.to_nat (counter p)) h))) = (q * length h)%nat).
  { clear. induction q as [|q IH]; [done|]. simpl. by rewrite length_app, length_fmap, length_rotate, IH. }
  destruct (decide (i < q * length h)%nat) as [Hi|Hi].
  - rewrite rr_choices_lookup by done. fold h. clear Hlt Hlen. revert i Hi.
    assert (Hblock : ∀ i, (i < length h)%nat → (Some <$> rotate (Z.to_nat (counter p)) h) !! i =
      Some (h !! Z.to_nat ((counter p + Z.of_nat i) mod Z.of_nat (length h)))).
    { intros i Hi. rewrite list_lookup_fmap, lookup_rotate_r by done.
      destruct (lookup_lt_is_Some_2 h (rotate_nat_add (Z.to_nat (counter p)) i (length h))) as [x Hx].
      { apply rotate_nat_add_lt. lia. }
      rewrite Hx. simpl. f_equal. rewrite <- Hx. unfold rotate_nat_add. rewrite Z2Nat.id by lia. done. }
    induction q as [|q IH]; intros i Hi; simpl in Hi; [lia|]. simpl.
    destruct (decide (i < length h)%nat) as [Hs|Hs].
    + rewrite lookup_app_l by (by rewrite length_fmap, length_rotate). by rewrite Hblock.
    + rewrite lookup_app_r by (rewrite length_fmap, length_rotate; lia).
      rewrite length_fmap, length_rotate, <- IH by lia. do 3 f_equal.
      replace (Z.of_nat i) with (Z.of_nat (i - length h) + 1 * Z.of_nat (length h)) by lia.
      by rewrite Z.add_assoc, Z_mod_plus_full.
  - rewrite (lookup_ge_None_2 (concat _)) by lia. apply lookup_ge_None_2.
    assert (Hl : ∀ k p, length (rr_choices k ws p) = k).
    { clear. induction k as [|k IH]; intros p; [done|]. simpl. destruct (rr_select p ws None None). simpl. by rewrite IH. }
    rewrite Hl. lia.
Qed.

Lemma round_robin_fair_witness :
  let ws := [BasicWorker_new "a"; set_health false (BasicWorker_new "b"); BasicWorker_new "c"] in
  rr_choices (2 * length (get_healthy_worker_indices ws)) ws (mk_rr 3) =
  [Some 2%nat; Some 0%nat; Some 2%nat; Some 0%nat].
Proof.
  intros ws. etransitivity; [apply (round_robin_fair ws (mk_rr 3) 2); by vm_compute|vm_compute; reflexivity].
Defined.
