(* ===== verification/Ring.v ===== *)
(** * The consistent-hash policy

    [policies/consistent_hash.rs]: the MurmurHash64A of a key, the ring of
    virtual nodes, the key extracted from headers or body, and the choice. *)
From S2P Require Import Prelude Text Bytes Address Policy.

(** ** The hash *)

(** [wrapping_mul]; an unchecked [u64] product in the release profile. *)
Definition u64_mul (a b : Z) : Z := u64 (a * b).

(** src: crates/pulsing-actor/src/policies/consistent_hash.rs 40-41 murmur_hash_64a (constants) *)
Definition M : Z := 0xc6a4a7935bd1e995.
Definition R : Z := 47.

(** Mixing one 8-byte word into the hash.
    src: crates/pulsing-actor/src/policies/consistent_hash.rs 54-59 murmur_hash_64a (chunk) *)
Definition mix (h k : Z) : Z :=
  let k := u64_mul k M in
  let k := Z.lxor k (Z.shiftr k R) in
  let k := u64_mul k M in
  u64_mul (Z.lxor h k) M.

(** The loop over the 8-byte chunks: the hash so far and the remainder.
    src: crates/pulsing-actor/src/policies/consistent_hash.rs 46-60 murmur_hash_64a (loop) *)
Fixpoint murmur_chunks (h : Z) (key : list Z) : Z * list Z :=
  match key with
  | b0 :: b1 :: b2 :: b3 :: b4 :: b5 :: b6 :: b7 :: rest =>
      murmur_chunks (mix h (from_le_bytes [b0; b1; b2; b3; b4; b5; b6; b7])) rest
  | _ => (h, key)
  end.

(** The unrolled code for the remainder.
    src: crates/pulsing-actor/src/policies/consistent_hash.rs 63-114 murmur_hash_64a (remainder) *)
Definition murmur_tail (h : Z) (remainder : list Z) : Z :=
  match remainder with
  | [r0; r1; r2; r3; r4; r5; r6] =>
      let h := Z.lxor h (Z.shiftl r6 48) in
      let h := Z.lxor h (Z.shiftl r5 40) in
      let h := Z.lxor h (Z.shiftl r4 32) in
      let h := Z.lxor h (Z.shiftl r3 24) in
      let h := Z.lxor h (Z.shiftl r2 16) in
      let h := Z.lxor h (Z.shiftl r1 8) in
      let h := Z.lxor h r0 in
      u64_mul h M
  | [r0; r1; r2; r3; r4; r5] =>
      let h := Z.lxor h (Z.shiftl r5 40) in
      let h := Z.lxor h (Z.shiftl r4 32) in
      let h := Z.lxor h (Z.shiftl r3 24) in
      let h := Z.lxor h (Z.shiftl r2 16) in
      let h := Z.lxor h (Z.shiftl r1 8) in
      let h := Z.lxor h r0 in
      u64_mul h M
  | [r0; r1; r2; r3; r4] =>
      let h := Z.lxor h (Z.shiftl r4 32) in
      let h := Z.lxor h (Z.shiftl r3 24) in
      let h := Z.lxor h (Z.shiftl r2 16) in
      let h := Z.lxor h (Z.shiftl r1 8) in
      let h := Z.lxor h r0 in
      u64_mul h M
  | [r0; r1; r2; r3] =>
      let h := Z.lxor h (Z.shiftl r3 24) in
      let h := Z.lxor h (Z.shiftl r2 16) in
      let h := Z.lxor h (Z.shiftl r1 8) in
      let h := Z.lxor h r0 in
      u64_mul h M
  | [r0; r1; r2] =>
      let h := Z.lxor h (Z.shiftl r2 16) in
      let h := Z.lxor h (Z.shiftl r1 8) in
      let h := Z.lxor h r0 in
      u64_mul h M
  | [r0; r1] =>
      let h := Z.lxor h (Z.shiftl r1 8) in
      let h := Z.lxor h r0 in
      u64_mul h M
  | [r0] => u64_mul (Z.lxor h r0) M
  | _ => h
  end.

(** src: crates/pulsing-actor/src/policies/consistent_hash.rs 116-120 murmur_hash_64a (end) *)
Definition murmur_finish (h : Z) : Z :=
  let h := Z.lxor h (Z.shiftr h R) in
  let h := u64_mul h M in
  Z.lxor h (Z.shiftr h R).

(** src: crates/pulsing-actor/src/policies/consistent_hash.rs 39-121 murmur_hash_64a *)
Definition murmur_hash_64a (key : list Z) (seed : Z) : Z :=
  let h := Z.lxor seed (u64_mul (Z.of_nat (length key)) M) in
  let '(h, remainder) := murmur_chunks h key in
  murmur_finish (murmur_tail h remainder).

(** src: crates/pulsing-actor/src/policies/consistent_hash.rs 124-126 hash *)
Definition hash (key : str) : Z := murmur_hash_64a (as_bytes key) 4193360111.

(** ** The ring *)

(** src: crates/pulsing-actor/src/policies/consistent_hash.rs 14-14 VIRTUAL_NODES_PER_WORKER *)
Definition VIRTUAL_NODES_PER_WORKER : nat := 160.

(** A [BTreeMap] from hashes to URLs.
    src: crates/pulsing-actor/src/policies/consistent_hash.rs 22-27 ConsistentHashPolicy *)
Record ConsistentHashPolicy := mk_ch { hash_ring : gmap Z (list Z); current_workers : list (list Z) }.
(** src: crates/pulsing-actor/src/policies/consistent_hash.rs 31-36 ConsistentHashPolicy::new *)
Definition ConsistentHashPolicy_new : ConsistentHashPolicy := mk_ch ∅ [].

Definition virtual_key (worker_url : str) (i : nat) : str := worker_url ++ 58 :: display_u128 (Z.of_nat i).

(** The virtual nodes in the order they are inserted. *)
Definition virtual_nodes (h : str → Z) (worker_urls : list str) : list (Z * str) :=
  worker_urls ≫= λ u, (λ i, (h (virtual_key u i), u)) <$> seq 0 VIRTUAL_NODES_PER_WORKER.
(** The loops that build a new ring; the hash is an argument.
    src: crates/pulsing-actor/src/policies/consistent_hash.rs 141-150 update_hash_ring (loop) *)
Definition build_ring (h : str → Z) (worker_urls : list str) : gmap Z (list Z) :=
  foldl (λ ring ku, <[ku.1 := ku.2]> ring) ∅ (virtual_nodes h worker_urls).

(** src: crates/pulsing-actor/src/policies/consistent_hash.rs 129-167 update_hash_ring *)
Definition update_hash_ring `{Worker W} (workers : list W) (p : ConsistentHashPolicy) : ConsistentHashPolicy :=
  let worker_urls := url <$> workers in
  if bool_decide (current_workers p = worker_urls) then p
  else mk_ch (build_ring hash worker_urls) worker_urls.

(** The entry of least key among those whose key satisfies [P]. *)
Definition least (P : Z → bool) (l : list (Z * str)) : option (Z * str) :=
  foldr (λ kv best,
    if P kv.1 then match best with Some b => if b.1 <? kv.1 then Some b else Some kv | None => Some kv end
    else best) None l.

(** [ring.range(h..).next().or_else(|| ring.iter().next())].
    src: crates/pulsing-actor/src/policies/consistent_hash.rs 178-184 find_worker_by_hash (entry) *)
Definition ring_entry (ring : gmap Z (list Z)) (h : Z) : option (Z * str) :=
  match least (λ k, h <=? k) (map_to_list ring) with
  | Some e => Some e
  | None => least (λ _, true) (map_to_list ring)
  end.

(** src: crates/pulsing-actor/src/policies/consistent_hash.rs 170-194 find_worker_by_hash *)
Definition find_worker_by_hash (hash_key : str) (p : ConsistentHashPolicy) : option str :=
  snd <$> ring_entry (hash_ring p) (hash hash_key).

(** ** The key of a request *)

(** src: crates/pulsing-actor/src/policies/consistent_hash.rs 197-204 SESSION_HEADER_NAMES *)
Definition SESSION_HEADER_NAMES : list str :=
  [lit "x-session-id"; lit "x-user-id"; lit "x-tenant-id"; lit "x-request-id"; lit "x-correlation-id"; lit "x-trace-id"].

Fixpoint first_header (names : list str) (headers : RequestHeaders) : option str :=
  match names with
  | [] => None
  | n :: names =>
      match headers !! n with
      | Some v => if bool_decide (v = []) then first_header names headers
                  else Some (lit "header:" ++ n ++ 58 :: v)
      | None => first_header names headers
      end
  end.
(** src: crates/pulsing-actor/src/policies/consistent_hash.rs 207-217 extract_hash_key_from_headers *)
Definition extract_hash_key_from_headers (headers : RequestHeaders) : option str :=
  first_header SESSION_HEADER_NAMES headers.

(** [str::find] of a text and the slice after it. *)
Fixpoint after_pattern (pat s : str) : option str :=
  match strip_prefix pat s with
  | Some rest => Some rest
  | None => match s with [] => None | _ :: s' => after_pattern pat s' end
  end.

(** What precedes the first character that satisfies [f], if there is one. *)
Fixpoint until (f : Z → bool) (s : str) : option str :=
  match s with
  | [] => None
  | c :: s' => if f c then Some [] else cons c <$> until f s'
  end.

(** The text after the first colon, when only white space precedes it. *)
Fixpoint after_colon (s : str) : option str :=
  match s with
  | [] => None
  | c :: s' => if c =? 58 then Some s' else if is_whitespace c then after_colon s' else None
  end.

Definition dq : Z := 34.
Definition sq : Z := 39.

Fixpoint first_some {A B} (f : A → option B) (l : list A) : option B :=
  match l with
  | [] => None
  | x :: l => match f x with Some y => Some y | None => first_some f l end
  end.

(** The text that starts where the field's value does.
    src: crates/pulsing-actor/src/policies/consistent_hash.rs 297-313 find_field_start *)
Definition find_field_start (text field_name : str) : option str :=
  first_some (λ pat, after ← after_pattern pat text; after_colon after)
    [dq :: field_name ++ [dq]; sq :: field_name ++ [sq]].

(** The loop that counts braces, with the text read so far.
    src: crates/pulsing-actor/src/policies/consistent_hash.rs 321-342 extract_json_object (loop) *)
Fixpoint match_braces (depth : Z) (seen s : str) : option str :=
  match s with
  | [] => None
  | c :: s' =>
      if c =? 123 then match_braces (depth + 1) (c :: seen) s'
      else if c =? 125 then
        if depth - 1 =? 0 then Some (reverse (c :: seen)) else match_braces (depth - 1) (c :: seen) s'
      else match_braces depth (c :: seen) s'
  end.
(** src: crates/pulsing-actor/src/policies/consistent_hash.rs 316-343 extract_json_object *)
Definition extract_json_object (text : str) : option str :=
  match text with
  | c :: _ => if c =? 123 then match_braces 0 [] text else None
  | [] => None
  end.

(** [str::find] of a brace and the slice from it. *)
Fixpoint from_brace (s : str) : option str :=
  match s with
  | [] => None
  | c :: s' => if c =? 123 then Some s else from_brace s'
  end.

Definition unquoted_end (c : Z) : bool :=
  (c =? 44) || (c =? 32) || (c =? 125) || (c =? 93) || (c =? 10) || (c =? 13) || (c =? 9).

(** The value at the start of the text after the colon.
    src: crates/pulsing-actor/src/policies/consistent_hash.rs 368-392 extract_field_value (value) *)
Definition field_value (after_colon : str) : option str :=
  match drop_while is_whitespace after_colon with
  | c :: stripped =>
      if c =? dq then until (Z.eqb dq) stripped
      else if c =? sq then until (Z.eqb sq) stripped
      else let v := default (c :: stripped) (until unquoted_end (c :: stripped)) in
           if bool_decide (v = []) then None else Some v
  | [] => None
  end.

(** src: crates/pulsing-actor/src/policies/consistent_hash.rs 346-398 extract_field_value *)
Definition extract_field_value (text field_name : str) : option str :=
  first_some (λ pat, after ← after_pattern pat text; value ← after_colon after; field_value value)
    [dq :: field_name ++ [dq]; sq :: field_name ++ [sq]; field_name].

(** src: crates/pulsing-actor/src/policies/consistent_hash.rs 279-294 extract_nested_field_value *)
Definition extract_nested_field_value (text parent_field child_field : str) : option str :=
  start ← find_field_start text parent_field;
  obj ← from_brace start;
  content ← extract_json_object obj;
  extract_field_value content child_field.

(** src: crates/pulsing-actor/src/policies/consistent_hash.rs 220-249 extract_hash_key_from_body *)
Definition extract_hash_key_from_body (request_text : option str) : option str :=
  let text := default [] request_text in
  if bool_decide (text = []) then None
  else match extract_nested_field_value text "session_params" "session_id" with
       | Some s => Some (lit "session:" ++ s)
       | None =>
           match extract_field_value text "user" with
           | Some u => Some (lit "user:" ++ u)
           | None =>
               match extract_field_value text "session_id" with
               | Some s => Some (lit "session:" ++ s)
               | None =>
                   match extract_field_value text "user_id" with
                   | Some u => Some (lit "user:" ++ u)
                   | None => None
                   end
               end
           end
       end.

(** src: crates/pulsing-actor/src/policies/consistent_hash.rs 252-276 extract_hash_key *)
Definition extract_hash_key (request_text : option str) (headers : option RequestHeaders) : str :=
  match headers ≫= extract_hash_key_from_headers with
  | Some key => key
  | None =>
      match extract_hash_key_from_body request_text with
      | Some key => key
      | None =>
          let text := default [] request_text in
          if 100 <? utf8_len text then lit "request_hash:" ++ hex_digits 16 (hash text)
          else lit "request:" ++ text
      end
  end.

(** ** The choice *)

Definition position `{Worker W} (u : str) (ws : list W) : option nat :=
  fst <$> list_find (λ w, url w = u) ws.

(** src: crates/pulsing-actor/src/policies/consistent_hash.rs 402-462 select_worker_with_headers *)
Definition ch_select `{Worker W} (p : ConsistentHashPolicy) (ws : list W) (text : option str)
    (headers : option RequestHeaders) : option nat * ConsistentHashPolicy :=
  match get_healthy_worker_indices ws with
  | [] => (None, p)
  | first :: _ =>
      let p := update_hash_ring ws p in
      match find_worker_by_hash (extract_hash_key text headers) p with
      | None => (Some first, p)
      | Some target =>
          match position target ws with
          | Some idx =>
              match ws !! idx with
              | Some w => if is_healthy w && circuit_breaker_allows w then (Some idx, p) else (Some first, p)
              | None => (Some first, p)
              end
          | None => (Some first, p)
          end
      end
  end.

(** src: crates/pulsing-actor/src/policies/consistent_hash.rs 476-482 reset *)
Definition ch_reset (_ : ConsistentHashPolicy) : ConsistentHashPolicy := mk_ch ∅ [].

(** The pair selection of lines 488-500 is the trait's default one. *)
#[export] Instance consistent_hash_policy : LoadBalancingPolicy ConsistentHashPolicy := {
  select_worker_with_headers W HW := ch_select;
  policy_name := "consistent_hash"; needs_request_text := true; needs_headers := true;
  policy_reset := ch_reset; update_loads _ p := p }.

(** ** Properties of the consistent-hash policy

    The hash equals its word-by-word definition, removing a worker moves only
    the requests it served, and what the extraction of the key misses. *)
(** ** MurmurHash64A, word by word *)

(** The reference: mix the little-endian words, xor what is left as one
    little-endian number and multiply when anything is left, finish. *)
Fixpoint murmur_words (h : Z) (words : list (list Z)) : Z :=
  match words with [] => h | w :: words => murmur_words (mix h (from_le_bytes w)) words end.
Definition murmur_reference (words : list (list Z)) (rest : list Z) (seed : Z) : Z :=
  let h := Z.lxor seed (u64_mul (Z.of_nat (8 * length words + length rest)) M) in
  let h := murmur_words h words in
  murmur_finish (if bool_decide (rest = []) then h else u64_mul (Z.lxor h (from_le_bytes rest)) M).

Lemma lxor_shift8 b n : is_byte b → Z.lxor (Z.shiftl n 8) b = b + 256 * n.
Proof.
  intros Hb. rewrite Z.shiftl_mul_pow2 by lia. replace (n * 2 ^ 8) with (256 * n) by lia.
  rewrite <- Z.add_nocarry_lxor; [lia|]. apply Z.bits_inj'. intros i Hi. rewrite Z.land_spec, Z.bits_0.
  destruct (Z.lt_ge_cases i 8) as [Hlt|Hge].
  - replace (256 * n) with (n * 2 ^ 8) by lia. by rewrite Z.mul_pow2_bits_low by lia.
  - destruct (decide (b = 0)) as [->|Hb0]; [by rewrite Z.bits_0, andb_false_r|].
    destruct Hb as [Hb1 Hb2]. rewrite (Z.bits_above_log2 b); [by rewrite andb_false_r|done|].
    apply Z.log2_lt_pow2; [lia|]. apply (Z.lt_le_trans _ (2 ^ 8)); [lia|]. apply Z.pow_le_mono_r; lia.
Qed.

Lemma from_le_lxor b bs : is_byte b → from_le_bytes (b :: bs) = Z.lxor (Z.shiftl (from_le_bytes bs) 8) b.
Proof. intros Hb. by rewrite lxor_shift8. Qed.

Lemma from_le_nil : from_le_bytes [] = 0.
Proof. done. Qed.

(** The unrolled remainder is one xor with a little-endian number. *)
Lemma murmur_tail_spec h rest :
  (length rest < 8)%nat → Forall is_byte rest →
  murmur_tail h rest = if bool_decide (rest = []) then h else u64_mul (Z.lxor h (from_le_bytes rest)) M.
Proof.
  intros Hlen Hall.
  destruct rest as [|r0 rest]; [done|]. rewrite bool_decide_false by done.
  do 7 (destruct rest as [|? rest]; [rewrite !Forall_cons in Hall; destruct_and?; unfold murmur_tail; cbv zeta; apply (f_equal (λ x, u64_mul x M));
    rewrite !from_le_lxor, from_le_nil by done; rewrite ?Z.shiftl_lxor, ?Z.shiftl_shiftl, Z.shiftl_0_l by lia; simpl Z.add;
    rewrite ?Z.lxor_0_l, <- ?Z.lxor_assoc; done|]).
  simpl in Hlen. lia.
Qed.

Lemma murmur_chunks_spec words rest h :
  Forall (λ w, length w = 8%nat) words → (length rest < 8)%nat →
  murmur_chunks h (concat words ++ rest) = (murmur_words h words, rest).
Proof.
  intros Hw Hr. revert h. induction Hw as [|w words Hlen _ IH]; intros h; simpl.
  - do 8 (destruct rest as [|? rest]; [done|]). simpl in Hr. lia.
  - do 8 (destruct w as [|? w]; [done|]). destruct w; [|done]. simpl. apply IH.
Qed.

(** The hash is MurmurHash64A: on any key, cut into 8-byte words and a
    shorter rest, the loop over chunks and the seven unrolled cases compute the
    reference, which reads words and rest as little-endian numbers. *)
Theorem murmur_matches_reference words rest seed :
  Forall (λ w, length w = 8%nat) words → (length rest < 8)%nat → Forall is_byte rest →
  murmur_hash_64a (concat words ++ rest) seed = murmur_reference words rest seed.
Proof.
  intros Hw Hr Hb. unfold murmur_hash_64a, murmur_reference. rewrite murmur_chunks_spec by done.
  assert (Hlen : length (concat words ++ rest) = (8 * length words + length rest)%nat).
  { rewrite length_app. f_equal. clear -Hw. induction Hw as [|w words Hlen _ IH]; [done|].
    simpl. rewrite length_app, Hlen, IH. lia. }
  by rewrite Hlen, murmur_tail_spec.
Qed.

Lemma murmur_matches_reference_witness :
  hash "test_session_123!" = murmur_reference [as_bytes "test_ses"; as_bytes "sion_123"] [33] 4193360111.
Proof.
  refine (murmur_matches_reference [as_bytes "test_ses"; as_bytes "sion_123"] [33] 4193360111 _ _ _).
  - by repeat constructor.
  - vm_compute. lia.
  - by repeat constructor.
Defined.

(** ** The ring *)

Lemma least_some P l e :
  least P l = Some e → e ∈ l ∧ P e.1 = true ∧ ∀ e', e' ∈ l → P e'.1 = true → e.1 <= e'.1.
Proof.
  revert e. induction l as [|x l IH]; intros e; simpl; [done|]. destruct (P x.1) eqn:Px.
  - destruct (least P l) as [b|] eqn:El.
    + destruct (IH b eq_refl) as (Hb & Pb & Hmin). destruct (Z.ltb_spec b.1 x.1); intros [= <-].
      * split_and!; [by right|done|]. intros e' [->|He']%elem_of_cons; [lia|by apply Hmin].
      * split_and!; [by left|done|]. intros e' [->|He']%elem_of_cons Pe; [lia|]. specialize (Hmin e' He' Pe). lia.
    + intros [= <-]. split_and!; [by left|done|]. intros e' [->|He']%elem_of_cons Pe; [lia|].
      exfalso. clear IH. induction l as [|y l IH]; [by apply not_elem_of_nil in He'|]. simpl in El.
      apply elem_of_cons in He' as [->|He']; [rewrite Pe in El; by repeat case_match|].
      destruct (P y.1); [by repeat case_match|]. by apply IH.
  - intros E. destruct (IH e E) as (He & Pe & Hmin). split_and!; [by right|done|].
    intros e' [->|He']%elem_of_cons Pe'; [congruence|by apply Hmin].
Qed.

Lemma least_none P l e : least P l = None → e ∈ l → P e.1 = false.
Proof.
  induction l as [|x l IH]; simpl; intros E He; [by apply not_elem_of_nil in He|].
  destruct (P x.1) eqn:Px; [by repeat case_match|].
  apply elem_of_cons in He as [->|He]; [done|by apply IH].
Qed.

(** [e] is the entry that serves [h]: the first at or after it, or else the
    first of all. *)
Definition serves (ring : gmap Z (list Z)) (h : Z) (e : Z * str) : Prop :=
  ring !! e.1 = Some e.2 ∧
  ((h <= e.1 ∧ ∀ k v, ring !! k = Some v → h <= k → e.1 <= k) ∨
   ((∀ k v, ring !! k = Some v → k < h) ∧ ∀ k v, ring !! k = Some v → e.1 <= k)).

Lemma ring_entry_serves ring h e : ring_entry ring h = Some e ↔ serves ring h e.
Proof.
  assert (Hsound : ∀ e, ring_entry ring h = Some e → serves ring h e).
  { clear e. intros e. unfold ring_entry. destruct (least (λ k, h <=? k) _) as [e1|] eqn:E1.
    - intros [= <-]. apply least_some in E1 as (He & Hh & Hmin). destruct e1 as [k v]. apply elem_of_map_to_list in He.
      split; [done|]. left. split; [simpl in *; lia|]. intros k' v' Hk' Hle.
      apply (Hmin (k', v')); [by apply elem_of_map_to_list|]. simpl. lia.
    - intros E2. apply least_some in E2 as (He & _ & Hmin). destruct e as [k v]. apply elem_of_map_to_list in He.
      split; [done|]. right. split; intros k' v' Hk'.
      + apply elem_of_map_to_list in Hk'. pose proof (least_none _ _ _ E1 Hk'). simpl in *. lia.
      + apply (Hmin (k', v')); [by apply elem_of_map_to_list|done]. }
  split; [apply Hsound|]. intros [Hr Hs].
  destruct (ring_entry ring h) as [e'|] eqn:E.
  - destruct (Hsound _ eq_refl) as [Hr' Hs']. destruct e as [k v], e' as [k' v']. simpl in *.
    assert (k' = k); [|simplify_eq; congruence].
    destruct Hs as [[Hle Hmin]|[Hall Hmin]], Hs' as [[Hle' Hmin']|[Hall' Hmin']];
      repeat match goal with
      | H : ∀ k v, ring !! k = Some v → _ |- _ => pose proof (H _ _ Hr); pose proof (H _ _ Hr'); clear H
      end; lia.
  - exfalso. unfold ring_entry in E. case_match; [done|]. destruct e as [k v].
    apply elem_of_map_to_list in Hr. by pose proof (least_none _ _ _ E Hr).
Qed.

Lemma serves_filter ring h k v u :
  serves ring h (k, v) → v ≠ u → serves (filter (λ kv, kv.2 ≠ u) ring) h (k, v).
Proof.
  intros [Hr Hs] Hu. split; [by apply map_lookup_filter_Some|]. simpl in *.
  destruct Hs as [[Hle Hmin]|[Hall Hmin]]; [left|right]; (split; [done|] || split);
    intros k' v' [Hk' _]%map_lookup_filter_Some; eauto.
Qed.

Definition no_collision (worker_urls : list str) : Prop := NoDup (virtual_nodes hash worker_urls).*1.

Lemma foldl_insert_elem (l : list (Z * list Z)) (m : gmap Z (list Z)) k v :
  NoDup l.*1 → (∀ k', k' ∈ l.*1 → m !! k' = None) →
  foldl (λ ring ku, <[ku.1 := ku.2]> ring) m l !! k = Some v ↔ (k, v) ∈ l ∨ m !! k = Some v.
Proof.
  revert m. induction l as [|[k0 v0] l IH]; intros m Hnd Hm; simpl in *; [set_solver|].
  apply NoDup_cons in Hnd as [Hk0 Hnd]. rewrite IH; [|done|].
  - rewrite lookup_insert, elem_of_cons. case_decide as Hd; [subst k0|].
    + rewrite (Hm k) by set_solver. split; [|naive_solver]. intros [Hin|?]; [naive_solver|simplify_eq; auto].
    + naive_solver.
  - intros k' Hk'. rewrite lookup_insert_ne by set_solver. set_solver.
Qed.

Lemma build_ring_lookup urls k v :
  no_collision urls → build_ring hash urls !! k = Some v ↔ (k, v) ∈ virtual_nodes hash urls.
Proof. intros Hnd. unfold build_ring. rewrite foldl_insert_elem by done. rewrite lookup_empty. naive_solver. Qed.

Lemma virtual_nodes_filter u urls :
  virtual_nodes hash (filter (λ v, v ≠ u) urls) = filter (λ kv, kv.2 ≠ u) (virtual_nodes hash urls).
Proof.
  induction urls as [|v urls IH]; [done|]. unfold virtual_nodes in *. rewrite bind_cons, filter_app, <- IH, filter_cons.
  assert (Hblock : ∀ l : list nat, filter (λ kv : Z * str, kv.2 ≠ u) ((λ i, (hash (virtual_key v i), v)) <$> l) =
    if decide (v ≠ u) then (λ i, (hash (virtual_key v i), v)) <$> l else []).
  { induction l as [|i l IHl]; [by case_decide|]. rewrite fmap_cons, filter_cons, IHl. simpl. by repeat case_decide. }
  rewrite Hblock. by case_decide.
Qed.

Lemma filter_no_collision u urls : no_collision urls → no_collision (filter (λ v, v ≠ u) urls).
Proof.
  unfold no_collision. rewrite virtual_nodes_filter. intros Hnd. eapply sublist_NoDup; [done|].
  apply fmap_sublist, sublist_filter.
Qed.

Lemma build_ring_filter u urls :
  no_collision urls →
  build_ring hash (filter (λ v, v ≠ u) urls) = filter (λ kv, kv.2 ≠ u) (build_ring hash urls).
Proof.
  intros Hnd. apply map_eq. intros k. apply option_eq. intros v.
  rewrite build_ring_lookup by by apply filter_no_collision.
  rewrite virtual_nodes_filter, list_elem_of_filter, map_lookup_filter_Some, build_ring_lookup by done. naive_solver.
Qed.

(** ** The choice *)

(** The ring is the one of the recorded workers. *)
Definition ch_inv (p : ConsistentHashPolicy) : Prop := hash_ring p = build_ring hash (current_workers p).

Section Choice.
Context `{Worker W}.
Implicit Types (ws : list W) (p : ConsistentHashPolicy).

Lemma update_hash_ring_spec ws p :
  ch_inv p → update_hash_ring ws p = mk_ch (build_ring hash (url <$> ws)) (url <$> ws).
Proof.
  intros Hi. unfold update_hash_ring. case_bool_decide as Hc; [|done].
  destruct p as [ring urls]. unfold ch_inv in Hi. simpl in *. by subst.
Qed.

Lemma ch_select_inv ws p text headers : ch_inv p → ch_inv (ch_select p ws text headers).2.
Proof.
  intros Hi. unfold ch_select. destruct (get_healthy_worker_indices ws); [done|]. rewrite update_hash_ring_spec by done.
  repeat case_match; done.
Qed.

Lemma position_some u ws i : position u ws = Some i → ∃ w, ws !! i = Some w ∧ url w = u.
Proof.
  unfold position. destruct (list_find _ ws) as [[j w]|] eqn:E; simpl; [|done]. intros [= <-].
  apply list_find_Some in E as (Hw & Hu & _). eauto.
Qed.

Lemma position_is_some u ws : u ∈ url <$> ws → is_Some (position u ws).
Proof.
  intros (w & -> & Hw)%list_elem_of_fmap. unfold position.
  destruct (list_find_elem_of (λ w', url w' = url w) ws w Hw eq_refl) as [[j w'] ->]. by eexists.
Qed.

Lemma ring_owner_elem urls h k v :
  no_collision urls → ring_entry (build_ring hash urls) h = Some (k, v) → v ∈ urls.
Proof.
  intros Hnd [Hr _]%ring_entry_serves. simpl in Hr. apply build_ring_lookup in Hr; [|done].
  unfold virtual_nodes in Hr. apply list_elem_of_bind in Hr as (u & Hin & Hu).
  apply list_elem_of_fmap in Hin as (i & [= _ ->] & _). done.
Qed.

Lemma ring_entry_exists urls h :
  no_collision urls → urls ≠ [] → is_Some (ring_entry (build_ring hash urls) h).
Proof.
  intros Hnd Hne. destruct (ring_entry (build_ring hash urls) h) as [e|] eqn:E; [by eexists|exfalso].
  destruct urls as [|u urls]; [done|].
  assert (Hl : build_ring hash (u :: urls) !! hash (virtual_key u 0) = Some u).
  { apply build_ring_lookup; [done|]. unfold virtual_nodes. rewrite bind_cons. apply elem_of_app. left.
    apply list_elem_of_fmap. exists 0%nat. split; [done|]. apply elem_of_seq. unfold VIRTUAL_NODES_PER_WORKER. lia. }
  unfold ring_entry in E. case_match; [done|]. apply elem_of_map_to_list in Hl. by pose proof (least_none _ _ _ E Hl).
Qed.

(** With every worker healthy, the choice is the owner of the request's key. *)
Lemma ch_select_owner ws p text headers :
  ch_inv p → ws ≠ [] → Forall (λ w, available w = true) ws → no_collision (url <$> ws) →
  ∃ k v i w, ring_entry (build_ring hash (url <$> ws)) (hash (extract_hash_key text headers)) = Some (k, v) ∧
    (ch_select p ws text headers).1 = Some i ∧ ws !! i = Some w ∧ url w = v.
Proof.
  intros Hi Hne Hall Hnd. rewrite Forall_forall in Hall.
  destruct (ring_entry_exists (url <$> ws) (hash (extract_hash_key text headers)) Hnd) as [[k v] He]; [by destruct ws|].
  destruct (position_is_some v ws) as [i Hp]; [by eapply ring_owner_elem|].
  destruct (position_some _ _ _ Hp) as (w & Hw & Hu). exists k, v, i, w. split_and!; try done.
  unfold ch_select. destruct (get_healthy_worker_indices ws) as [|first rest] eqn:Eh.
  - exfalso. destruct ws as [|w0 ws]; [done|]. apply (not_elem_of_nil 0%nat). rewrite <- Eh. apply elem_of_healthy.
    exists w0. split; [done|]. apply Hall, list_elem_of_here.
  - rewrite update_hash_ring_spec by done. unfold find_worker_by_hash. simpl. rewrite He. simpl. rewrite Hp, Hw.
    assert (Ha : available w = true) by by eapply Hall, list_elem_of_lookup_2. unfold available in Ha. by rewrite Ha.
Qed.
End Choice.

#[export] Instance consistent_hash_sound : PolicySound ConsistentHashPolicy.
Proof.
  intros W HW p ws text headers. simpl. unfold ch_select.
  destruct (get_healthy_worker_indices ws) as [|first rest] eqn:Eh; [done|].
  assert (Hf : sound_choice ws (Some first)) by (simpl; rewrite Eh; apply list_elem_of_here).
  destruct (find_worker_by_hash _ _) as [target|]; [|done].
  destruct (position target ws) as [i|] eqn:Ep; [|done].
  destruct (ws !! i) as [w|] eqn:Ew; [|done].
  destruct (is_healthy w && circuit_breaker_allows w) eqn:Ea; [|done].
  simpl. apply elem_of_healthy. by exists w.
Qed.

(** Removing a worker moves only the requests it served: while the virtual
    nodes of the workers do not collide and all are healthy, a request that goes
    to a worker other than [u] goes to the same worker once [u] is gone, whatever
    the policy routed before; so adding [u] moves requests only to [u]. *)
Theorem removal_moves_only_its_requests `{Worker W} (ws : list W) p p' u text headers i w :
  ch_inv p → ch_inv p' → Forall (λ w, available w = true) ws → no_collision (url <$> ws) →
  (ch_select p ws text headers).1 = Some i → ws !! i = Some w → url w ≠ u →
  let ws' := filter (λ w, url w ≠ u) ws in
  ∃ j w', (ch_select p' ws' text headers).1 = Some j ∧ ws' !! j = Some w' ∧ url w' = url w.
Proof.
  intros Hp Hp' Hall Hnd Hs Hw Hu ws'.
  assert (Hurls : url <$> ws' = filter (λ v, v ≠ u) (url <$> ws)).
  { unfold ws'. clear. induction ws as [|w ws IH]; [done|]. rewrite fmap_cons, !filter_cons.
    case_decide; by rewrite <- IH. }
  assert (Hin : w ∈ ws') by (apply list_elem_of_filter; split; [done|by eapply list_elem_of_lookup_2]).
  destruct (ch_select_owner ws p text headers Hp) as (k & v & i0 & w0 & He & Hs0 & Hw0 & Hv);
    [by destruct ws|done|done|]. simplify_eq.
  destruct (ch_select_owner ws' p' text headers Hp') as (k' & v' & j & w' & He' & Hs' & Hw' & Hv').
  - intros E. rewrite E in Hin. by apply not_elem_of_nil in Hin.
  - rewrite Forall_forall in Hall |- *. intros x [_ Hx]%list_elem_of_filter. by apply Hall.
  - rewrite Hurls. by apply filter_no_collision.
  - exists j, w'. split_and!; [done..|]. rewrite Hurls, build_ring_filter in He' by done.
    apply ring_entry_serves in He. apply (serves_filter _ _ _ _ u), ring_entry_serves in He; [|done].
    simplify_eq. done.
Qed.

Lemma removal_moves_only_its_requests_witness :
  let ws := [BasicWorker_new "http://w1"; BasicWorker_new "http://w2"] in
  (ch_select ConsistentHashPolicy_new ws (Some (lit "c")) None).1 = Some 1%nat ∧
  ∃ j w', (ch_select ConsistentHashPolicy_new (filter (λ w, url w ≠ lit "http://w1") ws) (Some (lit "c")) None).1 = Some j ∧
    filter (λ w, url w ≠ lit "http://w1") ws !! j = Some w' ∧ url w' = lit "http://w2".
Proof.
  intros ws. split; [vm_compute; reflexivity|].
  refine (removal_moves_only_its_requests ws ConsistentHashPolicy_new ConsistentHashPolicy_new (lit "http://w1")
    (Some (lit "c")) None 1 (BasicWorker_new "http://w2") eq_refl eq_refl _ _ _ _ _).
  - by repeat constructor.
  - apply (bool_decide_unpack _). vm_compute. exact I.
  - vm_compute. reflexivity.
  - reflexivity.
  - discriminate.
Defined.

(** ** The key taken from a body *)

(** A chat request with one message of a user. *)
Definition quoted (s : str) : str := dq :: s ++ [dq].
Definition chat_body (role content user : str) : str :=
  lit "{" ++ quoted "messages" ++ lit ":[{" ++ quoted "role" ++ lit ":" ++ quoted role ++ lit "," ++
  quoted "content" ++ lit ":" ++ quoted content ++ lit "}]," ++ quoted "user" ++ lit ":" ++ quoted user ++ lit "}".

(** The [user] field of a chat request is not found when a message before
    it has the role ["user"]: the search looks only at the first occurrence of
    each pattern, which is then the value of the role. Two requests of one user
    get different keys, though with another role both get the user's. *)
Theorem user_role_hides_user_field :
  let first := chat_body "user" "hi" "alice" in
  let second := chat_body "user" "bye" "alice" in
  extract_hash_key_from_body (Some first) = None ∧
  extract_hash_key (Some first) None ≠ extract_hash_key (Some second) None ∧
  extract_hash_key (Some (chat_body "system" "hi" "alice")) None = lit "user:alice" ∧
  extract_hash_key (Some (chat_body "system" "bye" "alice")) None = lit "user:alice".
Proof. split_and!; vm_compute; (reflexivity || discriminate). Qed.
