(* ===== verification/Tree.v ===== *)
(** * The radix tree of the cache-aware policy

    [policies/tree.rs]. A node of the code is shared by reference count and has
    one parent, so the tree is a value here: the loop that walks down is a
    recursion, and the parent links are the way it came. A text is a list of
    characters and a time is in milliseconds. *)
From S2P Require Import Prelude.

(** src: crates/pulsing-actor/src/policies/tree.rs 19-25 Node *)
Inductive node := Node (text : str) (tenant_last_access_time : gmap (list Z) Z) (children : gmap Z node).
Definition text (n : node) : str := match n with Node s _ _ => s end.
Definition times (n : node) : gmap (list Z) Z := match n with Node _ ts _ => ts end.
Definition children (n : node) : gmap Z node := match n with Node _ _ ch => ch end.

(** src: crates/pulsing-actor/src/policies/tree.rs 31-35 Tree *)
Record Tree := mk_tree { root : node; tenant_char_count : gmap (list Z) Z }.
(** src: crates/pulsing-actor/src/policies/tree.rs 94-104 Tree::new *)
Definition Tree_new : Tree := mk_tree (Node [] ∅ ∅) ∅.

(** src: crates/pulsing-actor/src/policies/tree.rs 65-80 shared_prefix_count *)
Fixpoint shared_prefix_count (a b : str) : nat :=
  match a, b with
  | x :: a, y :: b => if x =? y then S (shared_prefix_count a b) else O
  | _, _ => O
  end.

(** src: crates/pulsing-actor/src/policies/tree.rs 82-84 slice_by_chars *)
Definition slice_by_chars (s : str) (start stop : nat) : str := take (stop - start) (drop start s).

Definition set_child (c : Z) (m n : node) : node := Node (text n) (times n) (<[c := m]> (children n)).
Definition mark (now : Z) (t : list Z) (n : node) : node := Node (text n) (<[t := now]> (times n)) (children n).

(** ** Insertion *)

(** The matched node with the shared part of its text, above the node with the
    rest.
    src: crates/pulsing-actor/src/policies/tree.rs 185-228 insert (split) *)
Definition split_node (shared_count : nat) (matched : node) : node :=
  let matched_text := slice_by_chars (text matched) 0 shared_count in
  let contracted_text := slice_by_chars (text matched) shared_count (length (text matched)) in
  Node matched_text (times matched)
    match contracted_text with
    | first_new_char :: _ => {[first_new_char := Node contracted_text (times matched) (children matched)]}
    | [] => ∅
    end.

(** Marking a node of the path, and what it adds to the tenant's count.
    src: crates/pulsing-actor/src/policies/tree.rs 233-245 insert (mark) *)
Definition visit (now : Z) (t : list Z) (n : node) : node * Z :=
  (mark now t n, if bool_decide (is_Some (times n !! t)) then 0 else Z.of_nat (length (text n))).

(** The loop: [rest] is the text from [curr_idx], [n] is [prev]. Every round
    consumes at least one character, so the length of the text is fuel enough.
    Also yields what the tenant's count grows by.
    src: crates/pulsing-actor/src/policies/tree.rs 131-271 insert (loop) *)
Fixpoint insert_below (fuel : nat) (now : Z) (t : list Z) (rest : str) (n : node) : node * Z :=
  match rest, fuel with
  | [], _ | _, O => (n, 0)
  | first_char :: _, S fuel =>
      match children n !! first_char with
      | None => (set_child first_char (Node rest {[t := now]} ∅) n, Z.of_nat (length rest))
      | Some matched =>
          let shared_count := shared_prefix_count (text matched) rest in
          let next := if (shared_count <? length (text matched))%nat then split_node shared_count matched else matched in
          let '(next, added) := visit now t next in
          let '(next, more) := insert_below fuel now t (drop shared_count rest) next in
          (set_child first_char next n, added + more)
      end
  end.

(** src: crates/pulsing-actor/src/policies/tree.rs 107-272 insert *)
Definition insert (now : Z) (s : str) (tenant : list Z) (tr : Tree) : Tree :=
  let '(r, added) := insert_below (length s) now tenant s (mark now tenant (root tr)) in
  mk_tree r (<[tenant := default 0 (tenant_char_count tr !! tenant) +w added]> (tenant_char_count tr)).

(** ** Matching *)

(** [max_by_key] on the access times, which takes the last of equal ones.
    src: crates/pulsing-actor/src/policies/tree.rs 316-323 prefix_match (tenant) *)
Definition latest_tenant `{Oracle} (n : node) : list Z :=
  match foldl (λ best (e : list Z * Z), match best with
                                        | Some b => if b.2 <=? e.2 then Some e else Some b
                                        | None => Some e
                                        end) None (hm_iter (times n)) with
  | Some e => e.1
  | None => "empty"
  end.

(** Marking the node when a tenant was found.
    src: crates/pulsing-actor/src/policies/tree.rs 326-340 prefix_match (update) *)
Definition refresh (now : Z) (t : list Z) (n : node) : node :=
  if bool_decide (t = "empty") then n else mark now t n.

(** The loop, and on the way back the update of the access times: how many
    characters matched, the tenant, and the node with its times updated.
    src: crates/pulsing-actor/src/policies/tree.rs 281-340 prefix_match (loop) *)
Fixpoint match_below `{Oracle} (fuel : nat) (now : Z) (rest : str) (n : node) : nat * list Z * node :=
  let stop n := (O, latest_tenant n, refresh now (latest_tenant n) n) in
  match rest, fuel with
  | [], _ | _, O => stop n
  | first_char :: _, S fuel =>
      match children n !! first_char with
      | None => stop n
      | Some matched =>
          let shared_count := shared_prefix_count (text matched) rest in
          let '(k, t, matched) :=
            if (shared_count =? length (text matched))%nat
            then match_below fuel now (drop shared_count rest) matched
            else stop matched in
          ((shared_count + k)%nat, t, refresh now t (set_child first_char matched n))
      end
  end.

(** src: crates/pulsing-actor/src/policies/tree.rs 275-344 prefix_match *)
Definition prefix_match `{Oracle} (now : Z) (s : str) (tr : Tree) : str * list Z * Tree :=
  let '(k, t, r) := match_below (length s) now s (root tr) in
  (slice_by_chars s 0 k, t, mk_tree r (tenant_char_count tr)).

(** src: crates/pulsing-actor/src/policies/tree.rs 546-548 get_used_size_per_tenant *)
Definition get_used_size_per_tenant (tr : Tree) : gmap (list Z) Z := tenant_char_count tr.
(** src: crates/pulsing-actor/src/policies/tree.rs 531-543 get_smallest_tenant *)
Definition get_smallest_tenant `{Oracle} (tr : Tree) : list Z :=
  match foldl (λ best (e : list Z * Z), match best with
                                        | Some b => if e.2 <? b.2 then Some e else Some b
                                        | None => Some e
                                        end) None (hm_iter (tenant_char_count tr)) with
  | Some e => e.1
  | None => "empty"
  end.

(** ** Properties of the radix tree

    What a match finds, whom it names, and that the sizes kept per tenant are
    those of the tree. *)
(** ** Common prefixes *)

Lemma spc_prefix a b : take (shared_prefix_count a b) a = take (shared_prefix_count a b) b.
Proof.
  revert b. induction a as [|x a IH]; intros [|y b]; simpl; try done.
  destruct (Z.eqb_spec x y); simpl; [|done]. by rewrite IH, e.
Qed.

Lemma spc_le a b : (shared_prefix_count a b ≤ length a)%nat ∧ (shared_prefix_count a b ≤ length b)%nat.
Proof.
  revert b. induction a as [|x a IH]; intros [|y b]; simpl; try lia.
  destruct (x =? y); simpl; [|lia]. specialize (IH b). lia.
Qed.

(** It is the longest common prefix. *)
Lemma spc_max a b s : s `prefix_of` a → s `prefix_of` b → (length s ≤ shared_prefix_count a b)%nat.
Proof.
  revert b s. induction a as [|x a IH]; intros b [|z s] Ha Hb; simpl; try lia.
  - by apply prefix_nil_not in Ha.
  - destruct b as [|y b]; [by apply prefix_nil_not in Hb|].
    apply prefix_cons_inv_1 in Ha as Hzx. apply prefix_cons_inv_1 in Hb as Hzy. subst. rewrite Z.eqb_refl.
    apply prefix_cons_inv_2 in Ha. apply prefix_cons_inv_2 in Hb. simpl. specialize (IH b s Ha Hb). lia.
Qed.

Lemma spc_pos c a b : (0 < shared_prefix_count (c :: a) (c :: b))%nat.
Proof. simpl. rewrite Z.eqb_refl. lia. Qed.

Lemma spc_self a : shared_prefix_count a a = length a.
Proof. induction a as [|x a IH]; simpl; [done|]. by rewrite Z.eqb_refl, IH. Qed.

Lemma spc_take k b : (k ≤ length b)%nat → shared_prefix_count (take k b) b = k.
Proof.
  revert b. induction k as [|k IH]; intros [|y b] Hk; simpl in *; [done..|lia|]. rewrite Z.eqb_refl, IH by lia. done.
Qed.

Lemma prefix_take_drop k (s r : str) :
  (k ≤ length r)%nat →
  s `prefix_of` r ↔ s `prefix_of` take k r ∨ ∃ s2, s = take k r ++ s2 ∧ s2 `prefix_of` drop k r.
Proof.
  intros Hk. rewrite <- (take_drop k r) at 1. split.
  - intros [t Ht]. apply app_eq_inv in Ht as [(u & Ht & _)|(u & -> & Hd)]; [left; by exists u|].
    right. exists u. split; [done|]. by exists t.
  - intros [Hp|(s2 & -> & Hp)]; [by apply prefix_app_r|by apply prefix_app].
Qed.

(** ** The texts in a tree *)

(** The texts that can be read from below a node, and from its own text on. *)
Inductive path : node → str → Prop :=
  | path_nil n : path n []
  | path_in n c m s : children n !! c = Some m → s `prefix_of` text m → path n s
  | path_down n c m s : children n !! c = Some m → path m s → path n (text m ++ s).

Definition reads (m : node) (s : str) : Prop := s `prefix_of` text m ∨ ∃ s2, s = text m ++ s2 ∧ path m s2.

Lemma path_alt n s : path n s ↔ s = [] ∨ ∃ c m, children n !! c = Some m ∧ reads m s.
Proof.
  split.
  - destruct 1; [by left|right; do 2 eexists; split; [done|by left]|right; do 2 eexists; split; [done|right; eauto]].
  - intros [->|(c & m & Hm & [Hp|(s2 & -> & Hp)])]; [constructor|by eapply path_in|by eapply path_down].
Qed.

(** A child is filed under the first character of its text, and its tenants
    are tenants of its parent. *)
Inductive wf : node → Prop :=
  wf_node n :
    (∀ c m, children n !! c = Some m → (∃ s, text m = c :: s) ∧ dom (times m) ⊆ dom (times n)) →
    (∀ c m, children n !! c = Some m → wf m) → wf n.

Lemma wf_child n c m :
  wf n → children n !! c = Some m → (∃ s, text m = c :: s) ∧ dom (times m) ⊆ dom (times n) ∧ wf m.
Proof. intros Hw Hc. inversion Hw as [? H1 H2]; subst. destruct (H1 _ _ Hc). eauto. Qed.

Lemma reads_nil m : reads m [].
Proof. left. apply prefix_nil. Qed.

Lemma path_set_child c m n s :
  path (set_child c m n) s ↔ reads m s ∨ ∃ c' m', c' ≠ c ∧ children n !! c' = Some m' ∧ reads m' s.
Proof.
  rewrite path_alt. simpl. split.
  - intros [->|(c' & m' & Hc & Hr)]; [left; apply reads_nil|]. rewrite lookup_insert in Hc. case_decide; simplify_eq; eauto 6.
  - intros [Hr|(c' & m' & Hne & Hc & Hr)]; right; [exists c, m|exists c', m'].
    + by rewrite lookup_insert_eq.
    + by rewrite lookup_insert_ne.
Qed.

Lemma path_child c m n s :
  children n !! c = Some m →
  path n s ↔ reads m s ∨ ∃ c' m', c' ≠ c ∧ children n !! c' = Some m' ∧ reads m' s.
Proof.
  intros Hc. rewrite <- path_set_child. unfold set_child. rewrite insert_id by done. by destruct n.
Qed.

Lemma path_no_child c n s :
  children n !! c = None → path n s ↔ s = [] ∨ ∃ c' m', c' ≠ c ∧ children n !! c' = Some m' ∧ reads m' s.
Proof.
  intros Hc. rewrite path_alt. split; intros [->|(c' & m' & H')]; [by left| |by left|].
  - right. exists c', m'. destruct H' as [H1 H2]. split_and!; [congruence|done..].
  - right. exists c', m'. naive_solver.
Qed.

Lemma path_mark now t n s : path (mark now t n) s ↔ path n s.
Proof. by rewrite !path_alt. Qed.

Lemma reads_mark now t n s : reads (mark now t n) s ↔ reads n s.
Proof. unfold reads. by setoid_rewrite path_mark. Qed.

Lemma wf_mark now t n : wf n → wf (mark now t n).
Proof.
  intros Hw. inversion Hw as [? H1 H2]; subst. constructor; simpl; [|done]. intros c m Hc.
  destruct (H1 _ _ Hc) as [? Hd]. split; [done|]. rewrite dom_insert_L. set_solver.
Qed.

Lemma wf_set_child c m n :
  wf n → wf m → (∃ s, text m = c :: s) → dom (times m) ⊆ dom (times n) → wf (set_child c m n).
Proof.
  intros Hw Hm Ht Hd. inversion Hw as [? H1 H2]; subst. constructor; simpl; intros c' m'; rewrite lookup_insert;
    case_decide; intros; simplify_eq; eauto.
Qed.

(** ** Splitting *)
Section Split.
Context (k : nat) (m : node) (Hk : (k < length (text m))%nat).

Lemma split_text : text (split_node k m) = take k (text m).
Proof. simpl. unfold slice_by_chars. by rewrite Nat.sub_0_r. Qed.

Lemma split_child :
  ∃ c, drop k (text m) = c :: tail (drop k (text m)) ∧
    children (split_node k m) = {[c := Node (drop k (text m)) (times m) (children m)]}.
Proof.
  simpl. unfold slice_by_chars. rewrite take_ge by by rewrite length_drop.
  destruct (drop k (text m)) as [|c s] eqn:E; [apply (f_equal length) in E; rewrite length_drop in E; simpl in E; lia|].
  by exists c.
Qed.

Lemma split_reads s : reads (split_node k m) s ↔ reads m s.
Proof.
  destruct split_child as (c & Hc & Hch). unfold reads. rewrite split_text.
  rewrite (prefix_take_drop k s (text m)) by lia.
  set (low := Node (drop k (text m)) (times m) (children m)) in *.
  assert (Hpath : ∀ s2, path (split_node k m) s2 ↔ reads low s2).
  { intros s2. rewrite path_alt, Hch. split.
    - intros [->|(c' & m' & Hc' & Hr)]; [apply reads_nil|]. by apply lookup_singleton_Some in Hc' as [_ <-].
    - intros Hr. right. exists c, low. by rewrite lookup_singleton_eq. }
  assert (Hlow : ∀ s2, path low s2 ↔ path m s2) by (intros s2; by rewrite !path_alt).
  setoid_rewrite Hpath. unfold reads. setoid_rewrite Hlow. simpl. split.
  - intros [Hp|(s2 & -> & [Hp|(s3 & -> & Hp)])]; [by left; left|by left; right; eauto|].
    right. exists s3. by rewrite app_assoc, take_drop.
  - intros [[Hp|(s2 & -> & Hp)]|(s3 & -> & Hp)]; [by left|by right; eauto|].
    right. exists (drop k (text m) ++ s3). rewrite app_assoc, take_drop. eauto.
Qed.

Lemma split_wf : wf m → wf (split_node k m).
Proof.
  intros Hw. destruct split_child as (c & Hc & Hch).
  constructor; rewrite Hch; intros c' m' [<- <-]%lookup_singleton_Some.
  - split; [by eauto|done].
  - inversion Hw; subst. by constructor.
Qed.
End Split.

(** ** Insertion adds the prefixes of the text *)

Lemma insert_below_node fuel now t rest n :
  text (insert_below fuel now t rest n).1 = text n ∧ times (insert_below fuel now t rest n).1 = times n.
Proof.
  destruct rest as [|c r]; [by destruct fuel|]. destruct fuel as [|fuel]; [done|]. simpl.
  destruct (children n !! c) as [m|]; [|done]. by destruct (insert_below fuel now t _ _) as [next more].
Qed.

(** The node the loop goes on from: the matched one or its upper half. *)
Definition next_node (m : node) (rest : str) : node :=
  let k := shared_prefix_count (text m) rest in
  if (k <? length (text m))%nat then split_node k m else m.

Lemma next_node_spec c s m rest :
  text m = c :: s → wf m → (∃ r, rest = c :: r) →
  let k := shared_prefix_count (text m) rest in
  (0 < k ≤ length rest)%nat ∧ text (next_node m rest) = take k rest ∧ wf (next_node m rest) ∧
  times (next_node m rest) = times m ∧ (∀ x, reads (next_node m rest) x ↔ reads m x).
Proof.
  intros Hm Hw [r ->]. set (k := shared_prefix_count (text m) (c :: r)).
  assert (Hk : (0 < k)%nat) by (unfold k; rewrite Hm; apply spc_pos).
  pose proof (spc_le (text m) (c :: r)) as [Hk1 Hk2]. fold k in Hk1, Hk2.
  assert (Ht : take k (text m) = take k (c :: r)) by apply spc_prefix.
  unfold next_node. cbv zeta. fold k. destruct (Nat.ltb_spec k (length (text m))).
  - split_and!; [done..|by rewrite split_text|by apply split_wf|done|by apply split_reads].
  - split_and!; [done..| |done|done|done]. by rewrite <- Ht, take_ge by lia.
Qed.

Lemma insert_below_step fuel now t c r n m :
  children n !! c = Some m →
  let k := shared_prefix_count (text m) (c :: r) in
  let rec := insert_below fuel now t (drop k (c :: r)) (mark now t (next_node m (c :: r))) in
  insert_below (S fuel) now t (c :: r) n =
    (set_child c rec.1 n,
     (if bool_decide (is_Some (times (next_node m (c :: r)) !! t)) then 0 else Z.of_nat (length (text (next_node m (c :: r))))) + rec.2).
Proof.
  intros Hc. cbn [insert_below]. rewrite Hc. unfold visit. cbv zeta. fold (next_node m (c :: r)). unfold next_node.
  by destruct (insert_below fuel now t _ _) as [next more].
Qed.

Lemma insert_below_spec fuel now t rest n :
  (length rest ≤ fuel)%nat → wf n → t ∈ dom (times n) →
  wf (insert_below fuel now t rest n).1 ∧
  ∀ s, path (insert_below fuel now t rest n).1 s ↔ path n s ∨ s `prefix_of` rest.
Proof.
  revert rest n. induction fuel as [|fuel IH]; intros rest n Hf Hw Ht.
  { destruct rest; [|simpl in Hf; lia]. simpl. split; [done|]. intros s. split; [by left|].
    intros [?|Hs]; [done|]. destruct s; [constructor|by apply prefix_nil_not in Hs]. }
  destruct rest as [|c r].
  { simpl. split; [done|]. intros s. split; [by left|].
    intros [?|Hs]; [done|]. destruct s; [constructor|by apply prefix_nil_not in Hs]. }
  destruct (children n !! c) as [m|] eqn:Hc.
  - destruct (wf_child _ _ _ Hw Hc) as ((s0 & Hs0) & Hd & Hwm).
    destruct (next_node_spec c s0 m (c :: r) Hs0 Hwm ltac:(by eexists)) as (Hk & Htx & Hwn & Htm & Hrd).
    rewrite (insert_below_step fuel now t c r n m Hc). cbv zeta. cbn [fst].
    set (k := shared_prefix_count (text m) (c :: r)) in *. set (nx := next_node m (c :: r)) in *.
    destruct (IH (drop k (c :: r)) (mark now t nx)) as [Hw2 Hp2];
      [rewrite length_drop; simpl in *; lia|by apply wf_mark|simpl; rewrite dom_insert_L; set_solver|].
    destruct (insert_below_node fuel now t (drop k (c :: r)) (mark now t nx)) as [Htx2 Htm2].
    set (rec := insert_below fuel now t _ _) in *.
    assert (Hsub : dom (times rec.1) ⊆ dom (times n)).
    { rewrite Htm2. simpl. rewrite dom_insert_L, Htm. set_solver. }
    split.
    + apply wf_set_child; [done..| |done]. exists (tail (take k (c :: r))). rewrite Htx2. simpl. rewrite Htx.
      destruct k; [lia|done].
    + intros s. rewrite path_set_child, (path_child c m) by done.
      assert (Hr : reads rec.1 s ↔ reads m s ∨ s `prefix_of` c :: r); [|rewrite Hr; naive_solver].
      rewrite <- Hrd. rewrite (prefix_take_drop k s (c :: r)) by lia. unfold reads at 1 2. rewrite Htx2. simpl. rewrite Htx.
      setoid_rewrite Hp2. setoid_rewrite path_mark. naive_solver.
  - cbn [insert_below]. rewrite Hc. cbn [fst]. split.
    + apply wf_set_child; [done| |by exists r|]; [constructor; simpl; intros c' m' Hc'; by rewrite lookup_empty in Hc'|].
      simpl. rewrite dom_singleton_L. set_solver.
    + intros s. rewrite path_set_child, (path_no_child c) by done. unfold reads. simpl.
      assert (He : ∀ s2, path (Node (c :: r) {[t := now]} ∅) s2 ↔ s2 = []).
      { intros s2. rewrite path_alt. simpl. split; [|by left]. intros [?|(c' & m' & Hc' & _)]; [done|by rewrite lookup_empty in Hc']. }
      setoid_rewrite He. split.
      * intros [[Hp|(s2 & -> & ->)]|?]; [by right|right; by rewrite app_nil_r|by left; right].
      * intros [[->|?]|Hp]; [by left; left; apply prefix_nil|by right|by left; left].
Qed.

(** ** What a match finds *)

Lemma path_refresh now t n s : path (refresh now t n) s ↔ path n s.
Proof. unfold refresh. case_bool_decide; [done|apply path_mark]. Qed.
Lemma refresh_text now t n : text (refresh now t n) = text n.
Proof. unfold refresh. by case_bool_decide. Qed.
Lemma refresh_children now t n : children (refresh now t n) = children n.
Proof. unfold refresh. by case_bool_decide. Qed.
Lemma refresh_wf now t n : wf n → wf (refresh now t n).
Proof. unfold refresh. case_bool_decide; [done|apply wf_mark]. Qed.

Lemma reads_same m m' s : text m' = text m → (∀ s, path m' s ↔ path m s) → reads m' s ↔ reads m s.
Proof. intros Ht Hp. unfold reads. rewrite Ht. by setoid_rewrite Hp. Qed.

Lemma path_replace c m m' n s :
  children n !! c = Some m → text m' = text m → (∀ s, path m' s ↔ path m s) →
  path (set_child c m' n) s ↔ path n s.
Proof.
  intros Hc Ht Hp. rewrite path_set_child, (path_child c m n) by done. by rewrite (reads_same m m').
Qed.

(** A text that is read from below a node starts in the child of its first character. *)
Lemma path_first c r s n :
  wf n → s `prefix_of` c :: r → path n s → s = [] ∨ ∃ m, children n !! c = Some m ∧ reads m s.
Proof.
  intros Hw Hs Hp. apply path_alt in Hp as [->|(c' & m' & Hc' & Hr)]; [by left|].
  destruct s as [|x s]; [by left|right]. apply prefix_cons_inv_1 in Hs as ->.
  destruct (wf_child _ _ _ Hw Hc') as ((s1 & Hs1) & _). assert (c' = c) as <-; [|by eauto].
  destruct Hr as [Hr|(s2 & Hr & _)]; rewrite Hs1 in Hr; [by apply prefix_cons_inv_1 in Hr|by simplify_eq/=].
Qed.

Lemma match_below_matched `{Oracle} fuel now rest n :
  (length rest ≤ fuel)%nat → wf n →
  let k := (match_below fuel now rest n).1.1 in
  (k ≤ length rest)%nat ∧ path n (take k rest) ∧
  ∀ s, s `prefix_of` rest → path n s → (length s ≤ k)%nat.
Proof.
  revert rest n. induction fuel as [|fuel IH]; intros rest n Hf Hw.
  { destruct rest; [|simpl in Hf; lia]. simpl. split_and!; [lia|constructor|]. intros [|] Hp _; [simpl; lia|by apply prefix_nil_not in Hp]. }
  destruct rest as [|c r].
  { simpl. split_and!; [lia|constructor|]. intros [|] Hp _; [simpl; lia|by apply prefix_nil_not in Hp]. }
  cbn [match_below]. destruct (children n !! c) as [m|] eqn:Hc; cbn [fst snd].
  - destruct (wf_child _ _ _ Hw Hc) as ((s0 & Hs0) & _ & Hwm). set (k := shared_prefix_count (text m) (c :: r)).
    pose proof (spc_le (text m) (c :: r)) as [Hk1 Hk2]. pose proof (spc_prefix (text m) (c :: r)) as Hpre. fold k in Hk1, Hk2, Hpre.
    assert (Hkey : ∀ s, s `prefix_of` c :: r → path n s → s = [] ∨ reads m s).
    { intros s Hs Hp. destruct (path_first c r s n Hw Hs Hp) as [?|(m' & Hm' & ?)]; simplify_eq; auto. }
    destruct (Nat.eqb_spec k (length (text m))) as [Hfull|Hpart].
    + rewrite take_ge in Hpre by lia.
      destruct (IH (drop k (c :: r)) m) as (Hj & Hjp & Hjm); [rewrite length_drop; simpl in *; assert (0 < k)%nat by (unfold k; rewrite Hs0; apply spc_pos); lia|done|].
      destruct (match_below fuel now (drop k (c :: r)) m) as [[j u] m'] eqn:E. simpl in Hj, Hjp, Hjm |- *.
      rewrite length_drop in Hj. split_and!; [simpl in *; lia| |].
      * rewrite <- take_take_drop, <- Hpre. by apply (path_down n c).
      * intros s Hs Hp. destruct (Hkey s Hs Hp) as [->|[Hr|(s2 & -> & Hr)]]; [simpl; lia| |].
        -- apply prefix_length in Hr. lia.
        -- rewrite length_app. assert (length s2 ≤ j)%nat; [|lia]. apply Hjm; [|done].
           apply (prefix_app_inv (text m)). rewrite Hpre at 2. by rewrite take_drop.
    + simpl. rewrite Nat.add_0_r. split_and!; [done| |].
      * apply (path_in n c m); [done|]. rewrite <- Hpre. apply prefix_take.
      * intros s Hs Hp. destruct (Hkey s Hs Hp) as [->|[Hr|(s2 & -> & Hr)]]; [simpl; lia|by apply spc_max|].
        exfalso. apply prefix_app_l in Hs. apply (spc_max (text m)) in Hs; [|done]. fold k in Hs. lia.
  - simpl. split_and!; [lia|constructor|]. intros s Hs Hp.
    destruct (path_first c r s n Hw Hs Hp) as [->|(m' & Hm' & _)]; [simpl; lia|congruence].
Qed.

(** ** Sizes per tenant *)

(** The characters of the nodes marked by a tenant. *)
Fixpoint chars (t : list Z) (n : node) : Z :=
  match n with
  | Node s ts ch =>
      (if bool_decide (is_Some (ts !! t)) then Z.of_nat (length s) else 0) + map_fold (λ _ m acc, chars t m + acc) 0 ch
  end.
Definition chars_below (t : list Z) (ch : gmap Z node) : Z := map_fold (λ _ m acc, chars t m + acc) 0 ch.

Lemma chars_eq t n :
  chars t n = (if bool_decide (is_Some (times n !! t)) then Z.of_nat (length (text n)) else 0) + chars_below t (children n).
Proof. by destruct n. Qed.
Arguments chars : simpl never.

Lemma chars_below_insert t c m ch :
  ch !! c = None → chars_below t (<[c := m]> ch) = chars t m + chars_below t ch.
Proof. intros Hc. unfold chars_below. rewrite map_fold_insert_L; [done| |done]. intros. lia. Qed.

Lemma chars_below_replace t c m m' ch :
  ch !! c = Some m → chars_below t (<[c := m']> ch) = chars_below t ch - chars t m + chars t m'.
Proof.
  intros Hc. pose proof (lookup_delete_eq ch c) as Hd.
  pose proof (chars_below_insert t c m _ Hd) as H1. pose proof (chars_below_insert t c m' _ Hd) as H2.
  rewrite insert_delete_id in H1 by done. rewrite insert_delete_eq in H2. lia.
Qed.

Lemma chars_set_child t c m m' n :
  children n !! c = Some m → chars t (set_child c m' n) = chars t n - chars t m + chars t m'.
Proof.
  intros Hc. rewrite (chars_eq t (set_child c m' n)), (chars_eq t n). simpl. rewrite (chars_below_replace t c m) by done. lia.
Qed.

Lemma chars_add_child t c m n :
  children n !! c = None → chars t (set_child c m n) = chars t n + chars t m.
Proof.
  intros Hc. rewrite (chars_eq t (set_child c m n)), (chars_eq t n). simpl. rewrite chars_below_insert by done. lia.
Qed.

Lemma chars_mark now u t n :
  chars u (mark now t n) =
    chars u n + (if decide (u = t) then if bool_decide (is_Some (times n !! t)) then 0 else Z.of_nat (length (text n)) else 0).
Proof.
  rewrite !chars_eq. simpl. rewrite lookup_insert. destruct (decide (u = t)) as [->|Hne].
  - rewrite decide_True, bool_decide_true by (done || by eexists). case_bool_decide; lia.
  - rewrite decide_False by done. lia.
Qed.

Lemma chars_split u k m : (k < length (text m))%nat → chars u (split_node k m) = chars u m.
Proof.
  intros Hk. destruct (split_child k m Hk) as (c & Hc & Hch). rewrite (chars_eq u (split_node k m)), Hch.
  rewrite split_text. unfold chars_below. rewrite map_fold_singleton. rewrite !chars_eq. simpl.
  rewrite length_take, length_drop. case_bool_decide; lia.
Qed.

Lemma insert_below_chars fuel now t u rest n :
  wf n → (length rest ≤ fuel)%nat →
  chars u (insert_below fuel now t rest n).1 =
    chars u n + (if decide (u = t) then (insert_below fuel now t rest n).2 else 0).
Proof.
  revert rest n. induction fuel as [|fuel IH]; intros rest n Hw Hf.
  { destruct rest; [|simpl in Hf; lia]. simpl. case_decide; lia. }
  destruct rest as [|c r]; [simpl; case_decide; lia|].
  destruct (children n !! c) as [m|] eqn:Hc.
  - destruct (wf_child _ _ _ Hw Hc) as ((s0 & Hs0) & _ & Hwm).
    destruct (next_node_spec c s0 m (c :: r) Hs0 Hwm ltac:(by eexists)) as (Hk & Htx & Hwn & Htm & _).
    rewrite (insert_below_step fuel now t c r n m Hc). cbv zeta. cbn [fst snd].
    rewrite (chars_set_child u c m) by done. rewrite IH; [|by apply wf_mark|rewrite length_drop; simpl in *; lia].
    rewrite chars_mark.
    assert (Hn : chars u (next_node m (c :: r)) = chars u m).
    { unfold next_node. destruct (Nat.ltb_spec (shared_prefix_count (text m) (c :: r)) (length (text m))); [by apply chars_split|done]. }
    rewrite Hn. case_decide; lia.
  - cbn [insert_below]. rewrite Hc. cbn [fst snd]. rewrite chars_add_child by done. rewrite (chars_eq u (Node _ _ _)). simpl.
    unfold chars_below. rewrite map_fold_empty. destruct (decide (u = t)) as [->|Hne].
    + rewrite lookup_singleton_eq, bool_decide_true by by eexists. simpl. lia.
    + rewrite lookup_singleton_ne, bool_decide_false by (done || by intros []). lia.
Qed.

(** ** A match changes access times only *)

Definition later (best : option (list Z * Z)) (e : list Z * Z) : option (list Z * Z) :=
  match best with Some b => if b.2 <=? e.2 then Some e else Some b | None => Some e end.

Lemma later_elem l best e : foldl later best l = Some e → e ∈ l ∨ best = Some e.
Proof.
  revert best. induction l as [|x l IH]; intros best; simpl; [by right|]. intros Hl.
  destruct (IH _ Hl) as [?|Hb]; [by left; right|]. unfold later in Hb. destruct best as [b|]; [|simplify_eq; left; by left].
  destruct (b.2 <=? x.2); simplify_eq; [left; by left|by right].
Qed.

Lemma latest_in `{Oracle} n : latest_tenant n = "empty" ∨ latest_tenant n ∈ dom (times n).
Proof.
  unfold latest_tenant. fold later. destruct (foldl later None (hm_iter (times n))) as [[t x]|] eqn:E; [|by left].
  right. apply later_elem in E as [Hin|?]; [|done]. apply elem_of_hm_iter in Hin. simpl. apply elem_of_dom. eauto.
Qed.

(** The tenant is known at the node, or there is none. *)
Definition known (t : list Z) (n : node) : Prop := t = "empty" ∨ t ∈ dom (times n).

Lemma refresh_same now t n u :
  known t n → dom (times (refresh now t n)) = dom (times n) ∧ chars u (refresh now t n) = chars u n.
Proof.
  unfold refresh. case_bool_decide as He; [done|]. intros [?|Ht]; [done|]. split.
  - simpl. rewrite dom_insert_L. set_solver.
  - rewrite chars_mark. apply elem_of_dom in Ht. case_decide; [rewrite bool_decide_true by done|]; lia.
Qed.

Record match_keeps (n n' : node) : Prop := {
  mk_text : text n' = text n;
  mk_dom : dom (times n') = dom (times n);
  mk_wf : wf n';
  mk_path : ∀ s, path n' s ↔ path n s;
  mk_chars : ∀ u, chars u n' = chars u n
}.

Lemma refresh_keeps now t n : wf n → known t n → match_keeps n (refresh now t n).
Proof.
  intros Hw Hk. split.
  - apply refresh_text.
  - apply (refresh_same now t n [] Hk).
  - by apply refresh_wf.
  - intros s. apply path_refresh.
  - intros u. apply (refresh_same now t n u Hk).
Qed.

Lemma match_below_keeps `{Oracle} fuel now rest n :
  wf n → known (match_below fuel now rest n).1.2 n ∧ match_keeps n (match_below fuel now rest n).2.
Proof.
  revert rest n. induction fuel as [|fuel IH]; intros rest n Hw.
  { assert (Hl := latest_in n). by destruct rest; (split; [done|by apply refresh_keeps]). }
  destruct rest as [|c r]; [assert (Hl := latest_in n); by split; [|apply refresh_keeps]|].
  cbn [match_below]. destruct (children n !! c) as [m|] eqn:Hc; [|assert (Hl := latest_in n); by split; [|apply refresh_keeps]].
  destruct (wf_child _ _ _ Hw Hc) as (Hcs & Hd & Hwm). set (k := shared_prefix_count (text m) (c :: r)).
  assert (Hm : let res := if (k =? length (text m))%nat then match_below fuel now (drop k (c :: r)) m
      else (O, latest_tenant m, refresh now (latest_tenant m) m) in known res.1.2 m ∧ match_keeps m res.2).
  { destruct (k =? length (text m))%nat; [by apply IH|]. assert (Hl := latest_in m). by split; [|apply refresh_keeps]. }
  destruct (if (k =? length (text m))%nat then _ else _) as [[j t] m']. destruct Hm as [Ht Hm]. cbn [fst snd] in *.
  assert (Hkn : known t n) by (destruct Ht; [by left|right; set_solver]). split; [done|].
  destruct Hm as [Htx Hdm Hwm' Hpm Hcm].
  assert (Hsc : wf (set_child c m' n)).
  { apply wf_set_child; [done..| |by rewrite Hdm]. by rewrite Htx. }
  assert (Hk2 : known t (set_child c m' n)) by done.
  destruct (refresh_keeps now t _ Hsc Hk2) as [R1 R2 R3 R4 R5]. split.
  - by rewrite R1.
  - by rewrite R2.
  - done.
  - intros s. rewrite R4. by apply (path_replace c m).
  - intros u. rewrite R5, (chars_set_child u c m) by done. rewrite Hcm. lia.
Qed.

(** ** Trees in use *)

(** What the policy does with a tree. *)
Inductive TreeOp := Insert (now : Z) (s : str) (tenant : list Z) | Match (now : Z) (s : str).
Definition tree_step `{Oracle} (tr : Tree) (op : TreeOp) : Tree :=
  match op with Insert now s t => insert now s t tr | Match now s => (prefix_match now s tr).2 end.
Definition tree_run `{Oracle} (ops : list TreeOp) : Tree := foldl tree_step Tree_new ops.
Definition inserted (ops : list TreeOp) : list str :=
  omap (λ op, match op with Insert _ s _ => Some s | Match _ _ => None end) ops.

Record tree_inv (tr : Tree) (texts : list str) : Prop := {
  tr_wf : wf (root tr);
  tr_root : text (root tr) = [];
  tr_texts : ∀ s, path (root tr) s ↔ s = [] ∨ ∃ x, x ∈ texts ∧ s `prefix_of` x;
  tr_counts : ∀ t, default 0 (tenant_char_count tr !! t) = u64 (chars t (root tr))
}.

Lemma insert_inv now s t tr texts : tree_inv tr texts → tree_inv (insert now s t tr) (texts ++ [s]).
Proof.
  intros [Hw Hr Ht Hc]. unfold insert.
  assert (Hwm : wf (mark now t (root tr))) by by apply wf_mark.
  destruct (insert_below_spec (length s) now t s (mark now t (root tr))) as [Hw' Hp];
    [done|done|simpl; rewrite dom_insert_L; set_solver|].
  pose proof (insert_below_node (length s) now t s (mark now t (root tr))) as [Htx _].
  pose proof (λ u, insert_below_chars (length s) now t u s (mark now t (root tr)) Hwm (le_n _)) as Hch.
  destruct (insert_below (length s) now t s (mark now t (root tr))) as [r added]. simpl in *. split; simpl.
  - done.
  - by rewrite Htx.
  - intros x. rewrite Hp, path_mark, Ht. setoid_rewrite elem_of_app. setoid_rewrite list_elem_of_singleton. naive_solver.
  - intros u. rewrite Hch, chars_mark, Hr. simpl. rewrite lookup_insert.
    destruct (decide (u = t)) as [->|Hne]; [rewrite decide_True by done|rewrite decide_False by done].
    + simpl. rewrite Hc. unfold u64_add, u64. rewrite Zplus_mod_idemp_l. f_equal. case_bool_decide; lia.
    + rewrite Hc. f_equal. lia.
Qed.

Lemma match_inv `{Oracle} now s tr texts : tree_inv tr texts → tree_inv (prefix_match now s tr).2 texts.
Proof.
  intros [Hw Hr Ht Hc]. unfold prefix_match.
  destruct (match_below_keeps (length s) now s (root tr) Hw) as [_ [K1 K2 K3 K4 K5]].
  destruct (match_below (length s) now s (root tr)) as [[k t] r]. simpl in *. split; simpl.
  - done.
  - by rewrite K1.
  - intros x. by rewrite K4.
  - intros u. by rewrite K5.
Qed.

Lemma tree_run_inv `{Oracle} ops : tree_inv (tree_run ops) (inserted ops).
Proof.
  unfold tree_run. induction ops as [|op ops IH] using rev_ind.
  - split; simpl; [constructor; simpl; intros c m Hm; by rewrite lookup_empty in Hm|done| |].
    + intros s. rewrite path_alt. simpl. split; [|intros [?|(x & Hx & _)]; [by left|by apply not_elem_of_nil in Hx]].
      intros [?|(c & m & Hm & _)]; [by left|by rewrite lookup_empty in Hm].
    + intros t. rewrite lookup_empty. unfold chars_below. by vm_compute.
  - rewrite foldl_snoc. unfold inserted. rewrite omap_app. destruct op; simpl.
    + by apply insert_inv.
    + rewrite app_nil_r. by apply match_inv.
Qed.

(** C37: After any insertions and matches on a new tree, a match of a text finds
    its longest prefix that is also a prefix of an inserted text. *)
Theorem prefix_match_longest `{Oracle} ops now q :
  let matched := (prefix_match now q (tree_run ops)).1.1 in
  matched `prefix_of` q ∧
  (matched = [] ∨ ∃ x, x ∈ inserted ops ∧ matched `prefix_of` x) ∧
  ∀ x p, x ∈ inserted ops → p `prefix_of` x → p `prefix_of` q → (length p ≤ length matched)%nat.
Proof.
  destruct (tree_run_inv ops) as [Hw _ Ht _].
  destruct (match_below_matched (length q) now q (root (tree_run ops)) (le_n _) Hw) as (Hk & Hp & Hmax).
  unfold prefix_match. destruct (match_below (length q) now q (root (tree_run ops))) as [[k t] r]. simpl in *.
  unfold slice_by_chars. rewrite Nat.sub_0_r, drop_0. split_and!.
  - apply prefix_take.
  - by apply Ht.
  - intros x p Hx Hpx Hpq. rewrite length_take, Nat.min_l by done. apply Hmax; [done|]. apply Ht. right. eauto.
Qed.

(** The size kept for each tenant is exactly, modulo 2^64, the number of
    characters of the nodes marked by it, after any insertions and matches:
    splits of nodes neither lose nor double count. *)
Theorem used_size_exact `{Oracle} ops t :
  default 0 (get_used_size_per_tenant (tree_run ops) !! t) = u64 (chars t (root (tree_run ops))).
Proof. apply (tr_counts _ _ (tree_run_inv ops)). Qed.

(** ** The tenant a match names *)

(** All access times are before [now]. *)
Inductive older (now : Z) : node → Prop :=
  older_node n :
    (∀ t x, times n !! t = Some x → x < now) → (∀ c m, children n !! c = Some m → older now m) → older now n.

(** Marked now by [t], and before by all others, with older nodes below. *)
Definition fresh (now : Z) (t : list Z) (n : node) : Prop :=
  times n !! t = Some now ∧ (∀ u x, u ≠ t → times n !! u = Some x → x < now) ∧
  ∀ c m, children n !! c = Some m → older now m.

Lemma later_max l best t now :
  (∀ e, e ∈ l → e.2 < now ∨ e = (t, now)) → (t, now) ∈ l ∨ best = Some (t, now) →
  (∀ b, best = Some b → b.2 < now ∨ b = (t, now)) → foldl later best l = Some (t, now).
Proof.
  revert best. induction l as [|x l IH]; intros best Hl Hin Hb; simpl.
  - destruct Hin as [Hin| ->]; [by apply not_elem_of_nil in Hin|done].
  - assert (Hx : x.2 < now ∨ x = (t, now)) by (apply Hl; left). apply IH.
    + intros e He. apply Hl. by right.
    + destruct Hin as [[<-|Hin]%elem_of_cons| ->]; [|by left|].
      * right. unfold later. destruct best as [b|]; [|done]. destruct (Hb b eq_refl) as [Hlt| ->]; [|by rewrite Z.leb_refl].
        simpl. destruct (Z.leb_spec b.2 now); [done|lia].
      * right. unfold later. simpl. destruct Hx as [Hlt| ->]; [|by rewrite Z.leb_refl].
        destruct (Z.leb_spec now x.2); [lia|done].
    + intros b. unfold later. destruct best as [b0|]; [|by intros [= <-]]. destruct (b0.2 <=? x.2); intros [= <-]; auto.
Qed.

Lemma latest_fresh `{Oracle} now t n : fresh now t n → latest_tenant n = t.
Proof.
  intros (Ht & Hu & _). unfold latest_tenant. fold later. rewrite (later_max _ None t now); [done| | |done].
  - intros [u x] Hin. apply elem_of_hm_iter in Hin. simpl. destruct (decide (u = t)) as [->|Hne]; [right; congruence|left; eauto].
  - left. by apply elem_of_hm_iter.
Qed.

Lemma older_mark now t n : older now n → fresh now t (mark now t n).
Proof.
  intros Ho. inversion Ho as [? H1 H2]; subst. split_and!; simpl.
  - apply lookup_insert_eq.
  - intros u x Hne. rewrite lookup_insert_ne by done. eauto.
  - eauto.
Qed.

Lemma older_next now m rest : older now m → older now (next_node m rest).
Proof.
  intros Ho. unfold next_node. destruct (Nat.ltb_spec (shared_prefix_count (text m) rest) (length (text m))) as [Hk|]; [|done].
  inversion Ho as [? H1 H2]; subst. destruct (split_child _ m Hk) as (c & _ & Hch).
  constructor; [done|]. rewrite Hch. intros c' m' [<- <-]%lookup_singleton_Some. by constructor.
Qed.

Lemma match_inserted `{Oracle} fuel fuel' now now' t rest n :
  (length rest ≤ fuel)%nat → (length rest ≤ fuel')%nat → wf n → fresh now t n →
  (match_below fuel' now' rest (insert_below fuel now t rest n).1).1 = (length rest, t).
Proof.
  revert fuel' rest n. induction fuel as [|fuel IH]; intros fuel' rest n Hf Hf' Hw Hfr.
  { destruct rest; [|simpl in Hf; lia]. destruct fuel'; simpl; by rewrite (latest_fresh now t). }
  destruct rest as [|c r]; [destruct fuel'; simpl; by rewrite (latest_fresh now t)|].
  destruct fuel' as [|fuel']; [simpl in Hf'; lia|].
  destruct (children n !! c) as [m|] eqn:Hc.
  - destruct (wf_child _ _ _ Hw Hc) as ((s0 & Hs0) & _ & Hwm).
    destruct (next_node_spec c s0 m (c :: r) Hs0 Hwm ltac:(by eexists)) as (Hk & Htx & Hwn & Htm & _).
    rewrite (insert_below_step fuel now t c r n m Hc). cbv zeta. cbn [fst].
    set (k := shared_prefix_count (text m) (c :: r)) in *. set (nx := next_node m (c :: r)) in *.
    destruct (insert_below_node fuel now t (drop k (c :: r)) (mark now t nx)) as [Htx2 _].
    assert (Hold : older now m) by (destruct Hfr as (_ & _ & Hch); by eapply Hch).
    specialize (IH fuel' (drop k (c :: r)) (mark now t nx)). rewrite length_drop in IH. simpl in Hf, Hf'.
    specialize (IH ltac:(simpl; lia) ltac:(simpl; lia) (wf_mark _ _ _ Hwn) (older_mark _ _ _ (older_next _ _ _ Hold))).
    set (rec := insert_below fuel now t _ _) in *. cbn [match_below set_child children]. rewrite lookup_insert_eq.
    rewrite Htx2. simpl text. rewrite Htx. rewrite spc_take by lia. rewrite length_take, Nat.min_l, Nat.eqb_refl by lia.
    destruct (match_below fuel' now' (drop k (c :: r)) rec.1) as [[j u] m']. simpl in IH |- *. injection IH as -> ->.
    f_equal. simpl in Hk. lia.
  - cbn [insert_below]. rewrite Hc. cbn [fst]. cbn [match_below set_child children]. rewrite lookup_insert_eq. cbn [text].
    rewrite spc_self, Nat.eqb_refl, drop_ge by done.
    assert (Hn : fresh now t (Node (c :: r) {[t := now]} ∅)).
    { split_and!; simpl; [apply lookup_singleton_eq| |]; intros ??; [|by rewrite lookup_empty].
      intros Hne. by rewrite lookup_singleton_ne. }
    destruct fuel'; simpl; rewrite (latest_fresh now t) by done; by rewrite Nat.add_0_r.
Qed.

(** A text that has just been inserted for a tenant is found in full and for
    that tenant, when all earlier accesses have earlier times; so requests with
    the same text follow the last one. *)
Theorem inserted_text_found `{Oracle} now now' s t tr texts :
  tree_inv tr texts → older now (root tr) →
  (prefix_match now' s (insert now s t tr)).1 = (s, t).
Proof.
  intros [Hw _ _ _] Ho. unfold insert, prefix_match.
  pose proof (match_inserted (length s) (length s) now now' t s (mark now t (root tr)) (le_n _) (le_n _)
    (wf_mark _ _ _ Hw) (older_mark _ _ _ Ho)) as Hm.
  destruct (insert_below (length s) now t s (mark now t (root tr))) as [r added]. simpl in *.
  destruct (match_below (length s) now' s r) as [[k u] r']. simpl in *. injection Hm as -> ->.
  unfold slice_by_chars. by rewrite Nat.sub_0_r, drop_0, take_ge.
Qed.

Lemma inserted_text_found_witness :
  (prefix_match 3 "hello" (insert 2 "hello" "w2" (tree_run [Insert 1 "help" "w1"]))).1 = (lit "hello", lit "w2").
Proof.
  apply (inserted_text_found 2 3 "hello" "w2" _ _ (tree_run_inv [Insert 1 "help" "w1"])).
  constructor.
  - intros t x Hx. change (times (root (tree_run [Insert 1 "help" "w1"]))) with ({[lit "w1" := 1]} : gmap (list Z) Z) in Hx.
    apply lookup_singleton_Some in Hx as [_ <-]. lia.
  - intros c m Hm.
    change (children (root (tree_run [Insert 1 "help" "w1"]))) with ({[104 := Node "help" {[lit "w1" := 1]} ∅]} : gmap Z node) in Hm.
    apply lookup_singleton_Some in Hm as [_ <-]. constructor; simpl.
    + intros t x [_ <-]%lookup_singleton_Some. lia.
    + intros c' m'. by rewrite lookup_empty.
Defined.
