(* ===== verification/Evict.v ===== *)
(** * Eviction from the radix tree

    [policies/tree.rs]: dropping what a tenant used least recently until it is
    below a size, and dropping a tenant altogether. The code holds references
    to nodes; here a node is named by the keys on the way to it from the root. *)
From S2P Require Import Prelude Tree.

(** ** Nodes by their keys *)
Fixpoint node_at (n : node) (p : list Z) : option node :=
  match p with [] => Some n | c :: p => m ← children n !! c; node_at m p end.
Fixpoint at_path (f : node → node) (p : list Z) (n : node) : node :=
  match p with
  | [] => f n
  | c :: p => match children n !! c with Some m => set_child c (at_path f p m) n | None => n end
  end.

(** The tenants of a node that none of its children has.
    src: crates/pulsing-actor/src/policies/tree.rs 347-366 leaf_of *)
Definition leaf_of (n : node) : gset (list Z) :=
  filter (λ t, map_Forall (λ _ m, times m !! t = None) (children n)) (dom (times n)).

Definition unmark (t : list Z) (n : node) : node := Node (text n) (delete t (times n)) (children n).
Definition is_bare (n : node) : bool := bool_decide (children n = ∅) && bool_decide (times n = ∅).
Definition drop_child (n parent : node) : node :=
  match text n with c :: _ => Node (text parent) (times parent) (delete c (children parent)) | [] => parent end.

(** Taking a tenant from a node, and the node from its parent when it has
    neither tenants nor children left.
    src: crates/pulsing-actor/src/policies/tree.rs 423-448 evict_tenant_by_size (remove) *)
Definition drop_tenant (t p : list Z) (r : node) : node :=
  let r := at_path (unmark t) p r in
  match node_at r p with
  | Some n => if is_bare n && negb (bool_decide (p = [])) then at_path (drop_child n) (removelast p) r else r
  | None => r
  end.

(** ** By size *)

(** src: crates/pulsing-actor/src/policies/tree.rs 38-42 EvictionEntry *)
Record EvictionEntry := mk_entry { timestamp : Z; e_tenant : list Z; e_node : list Z }.
#[export] Instance EvictionEntry_eq_dec : EqDecision EvictionEntry.
Proof. solve_decision. Defined.

(** [BinaryHeap::pop] of reversed entries: one with the least time stamp.
    src: crates/pulsing-actor/src/policies/tree.rs 53-55 cmp *)
Definition pop `{Oracle} (pq : list EvictionEntry) : option (EvictionEntry * list EvictionEntry) :=
  match choose (filter (λ e, Forall (λ e', timestamp e <= timestamp e') pq) pq) with
  | Some e => match list_find (λ e', e' = e) pq with Some (i, _) => Some (e, delete i pq) | None => None end
  | None => None
  end.

Definition entries_of (p : list Z) (n : node) : list EvictionEntry :=
  omap (λ t, (λ ts, mk_entry ts t p) <$> times n !! t) (elements (leaf_of n)).
(** The entries of a node and of all below it.
    src: crates/pulsing-actor/src/policies/tree.rs 370-391 evict_tenant_by_size (collect) *)
Fixpoint collect (p : list Z) (n : node) : list EvictionEntry :=
  match n with
  | Node s ts ch => entries_of p (Node s ts ch) ++ map_fold (λ c m acc, collect (p ++ [c]) m ++ acc) [] ch
  end.

(** The parent, when it became a leaf for the tenant.
    src: crates/pulsing-actor/src/policies/tree.rs 450-462 evict_tenant_by_size (parent) *)
Definition parent_entry (t p : list Z) (r : node) : list EvictionEntry :=
  if bool_decide (p = []) then []
  else match node_at r (removelast p) with
  | Some parent =>
      if bool_decide (t ∈ leaf_of parent)
      then match times parent !! t with Some ts => [mk_entry ts t (removelast p)] | None => [] end
      else []
  | None => []
  end.

(** A removed node has no tenant left, so no entry names it: [EvictFacts] shows
    that the node of an entry is there. [None] is running out of fuel.
    src: crates/pulsing-actor/src/policies/tree.rs 400-463 evict_tenant_by_size (loop) *)
Fixpoint evict_loop `{Oracle} (fuel : nat) (max_size : Z) (pq : list EvictionEntry) (tr : Tree) : option Tree :=
  match fuel with
  | O => None
  | S fuel =>
      match pop pq with
      | None => Some tr
      | Some (e, pq) =>
          let t := e_tenant e in
          let used_size := default 0 (tenant_char_count tr !! t) in
          if used_size <=? max_size then evict_loop fuel max_size pq tr
          else
            match node_at (root tr) (e_node e) with
            | None => evict_loop fuel max_size pq tr
            | Some n =>
                let counts := if bool_decide (is_Some (times n !! t))
                              then alter (λ count, saturating_sub count (Z.of_nat (length (text n)))) t (tenant_char_count tr)
                              else tenant_char_count tr in
                let r := drop_tenant t (e_node e) (root tr) in
                evict_loop fuel max_size (parent_entry t (e_node e) r ++ pq) (mk_tree r counts)
            end
      end
  end.

(** The number of pairs of a node and a tenant; every round drops an entry or a
    pair. *)
Fixpoint marks (n : node) : nat :=
  match n with Node _ ts ch => (size ts + map_fold (λ _ m acc, marks m + acc) 0 ch)%nat end.

(** src: crates/pulsing-actor/src/policies/tree.rs 369-469 evict_tenant_by_size *)
Definition evict_tenant_by_size `{Oracle} (max_size : Z) (tr : Tree) : option Tree :=
  evict_loop (S (2 * marks (root tr))) max_size (collect [] (root tr)) tr.

(** ** A tenant *)

(** src: crates/pulsing-actor/src/policies/tree.rs 473-485 remove_tenant (collect) *)
Fixpoint leaves_of (t p : list Z) (n : node) : list (list Z) :=
  match n with
  | Node s ts ch => (if bool_decide (t ∈ leaf_of (Node s ts ch)) then [p] else []) ++ map_fold (λ c m acc, leaves_of t (p ++ [c]) m ++ acc) [] ch
  end.
(** src: crates/pulsing-actor/src/policies/tree.rs 488-521 remove_tenant (loop) *)
Fixpoint remove_loop (fuel : nat) (t : list Z) (queue : list (list Z)) (r : node) : option node :=
  match fuel, queue with
  | _, [] => Some r
  | O, _ => None
  | S fuel, p :: queue =>
      let r := drop_tenant t p r in
      remove_loop fuel t (queue ++ (e_node <$> parent_entry t p r)) r
  end.
(** src: crates/pulsing-actor/src/policies/tree.rs 472-528 remove_tenant *)
Definition remove_tenant (t : list Z) (tr : Tree) : option Tree :=
  r ← remove_loop (marks (root tr)) t (leaves_of t [] (root tr)) (root tr);
  Some (mk_tree r (delete t (tenant_char_count tr))).
