(* ===== verification/EvictFacts.v ===== *)
(** * Properties of eviction

    Both loops end, no tenant is left above the size, a removed tenant is gone
    from every node, and nobody else loses anything. *)
From S2P Require Import Prelude Tree Evict.
Implicit Types (n m r : node) (p q t u : list Z).

(** ** The marks of a tree *)
Definition time_at r p t : option Z := n ← node_at r p; times n !! t.
Definition is_leaf r p t : Prop := is_Some (time_at r p t) ∧ ∀ c, time_at r (p ++ [c]) t = None.

Lemma node_at_app r p q : node_at r (p ++ q) = n ← node_at r p; node_at n q.
Proof. revert r. induction p as [|c p IH]; intros r; [done|]. simpl. destruct (children r !! c); [apply IH|done]. Qed.
Lemma time_at_app r p q t : time_at r (p ++ q) t = n ← node_at r p; time_at n q t.
Proof. unfold time_at. rewrite node_at_app. by destruct (node_at r p). Qed.
Lemma time_at_cons r c p t : time_at r (c :: p) t = m ← children r !! c; time_at m p t.
Proof. unfold time_at. simpl. by destruct (children r !! c). Qed.

Lemma wf_at r p n : wf r → node_at r p = Some n → wf n.
Proof.
  revert r. induction p as [|c p IH]; intros r Hw; simpl; [by intros [= <-]|]. destruct (children r !! c) as [m|] eqn:E; [|done].
  apply IH. by destruct (wf_child _ _ _ Hw E) as (_ & _ & ?).
Qed.

Lemma leaf_of_spec n t : t ∈ leaf_of n ↔ is_leaf n [] t.
Proof.
  unfold leaf_of, is_leaf. rewrite elem_of_filter, elem_of_dom. unfold time_at at 1. simpl. split; intros [H1 H2]; split; try done.
  - intros c. rewrite time_at_cons. destruct (children n !! c) as [m|] eqn:E; simpl; [|done]. by apply H1 in E.
  - intros c m Hm. specialize (H2 c). rewrite time_at_cons, Hm in H2. done.
Qed.
Lemma is_leaf_at r p n t : node_at r p = Some n → is_leaf r p t ↔ t ∈ leaf_of n.
Proof. intros Hn. rewrite leaf_of_spec. unfold is_leaf. setoid_rewrite time_at_app. unfold time_at at 1 3. rewrite Hn. done. Qed.

(** A tenant of a node is one of its parent. *)
Lemma time_at_parent r p c t : wf r → is_Some (time_at r (p ++ [c]) t) → is_Some (time_at r p t).
Proof.
  intros Hw. rewrite time_at_app. unfold time_at at 2. destruct (node_at r p) as [n|] eqn:E; [|by intros []]. simpl.
  rewrite time_at_cons. destruct (children n !! c) as [m|] eqn:Em; [|by intros []]. unfold time_at. simpl.
  destruct (wf_child n c m (wf_at _ _ _ Hw E) Em) as (_ & Hd & _). rewrite <- !elem_of_dom. set_solver.
Qed.

Lemma chars_below_zero t ch : (∀ c m, ch !! c = Some m → chars t m = 0) → chars_below t ch = 0.
Proof.
  unfold chars_below. apply (map_fold_weak_ind (λ z ch, (∀ c m, ch !! c = Some m → chars t m = 0) → z = 0)); [done|].
  intros c m ch' z Hc Hz Hch. rewrite (Hch c m) by apply lookup_insert_eq. rewrite Hz; [done|]. intros c' m' Hm'.
  apply (Hch c' m'). rewrite lookup_insert_ne; [done|]. congruence.
Qed.

Lemma marks_eq n : marks n = (size (times n) + map_fold (λ _ m acc, marks m + acc)%nat 0%nat (children n))%nat.
Proof. by destruct n. Qed.
Lemma marks_set_child c m m' n : children n !! c = Some m → (marks (set_child c m' n) + marks m = marks n + marks m')%nat.
Proof.
  intros Hc. rewrite (marks_eq (set_child c m' n)), (marks_eq n). simpl. set (F := map_fold _ _).
  assert (Hins : ∀ x ch, ch !! c = None → F (<[c := x]> ch) = (marks x + F ch)%nat).
  { intros x ch Hch. unfold F. rewrite map_fold_insert_L; [done| |done]. intros. lia. }
  pose proof (lookup_delete_eq (children n) c) as Hd. pose proof (Hins m _ Hd) as H1. pose proof (Hins m' _ Hd) as H2.
  rewrite insert_delete_id in H1 by done. rewrite insert_delete_eq in H2. lia.
Qed.

Lemma unmarked_chars n t : wf n → times n !! t = None → chars t n = 0.
Proof.
  induction 1 as [n H1 _ IH]. intros Ht. rewrite chars_eq, Ht, bool_decide_false by apply is_Some_None. simpl.
  apply chars_below_zero. intros c m Hm. apply (IH c m Hm). destruct (H1 c m Hm) as [_ Hd].
  apply not_elem_of_dom. apply not_elem_of_dom in Ht. set_solver.
Qed.

(** ** Leaves *)
Lemma find_leaf n t : wf n → is_Some (times n !! t) → ∃ p, is_leaf n p t.
Proof.
  induction 1 as [n H1 _ IH]. intros Ht. destruct (decide (map_Forall (λ _ m, times m !! t = None) (children n))) as [Hall|Hsome].
  - exists []. apply leaf_of_spec. unfold leaf_of. rewrite elem_of_filter, elem_of_dom. done.
  - apply map_not_Forall in Hsome as (c & m & Hm & Hne); [|apply _]. destruct (IH c m Hm) as [p Hp].
    { destruct (times m !! t); [by eexists|done]. }
    exists (c :: p). unfold is_leaf in *. rewrite time_at_cons, Hm. split; [apply Hp|]. intros c'. cbn [app]. rewrite time_at_cons, Hm. apply Hp.
Qed.
Lemma no_leaf_no_chars r t : wf r → (∀ p, ¬ is_leaf r p t) → chars t r = 0.
Proof.
  intros Hw Hn. apply unmarked_chars; [done|]. destruct (times r !! t) eqn:E; [|done].
  destruct (find_leaf r t Hw) as [p Hp]; [by eexists|]. by destruct (Hn p).
Qed.

(** ** Changing the node at a path *)
Lemma at_path_node f p r n : node_at r p = Some n → node_at (at_path f p r) p = Some (f n).
Proof.
  revert r. induction p as [|c p IH]; intros r; simpl; [by intros [= ->]|]. destruct (children r !! c) as [m|] eqn:E; [|done].
  intros Hn. simpl. rewrite lookup_insert_eq. simpl. by apply IH.
Qed.

Section AtPath.
Context (f : node → node) (p : list Z) (r n : node).
Hypothesis Hn : node_at r p = Some n.

Lemma at_path_chars t : chars t (at_path f p r) = chars t r - chars t n + chars t (f n).
Proof.
  revert r Hn. induction p as [|c q IH]; intros s; simpl; [intros [= ->]; lia|]. destruct (children s !! c) as [m|] eqn:E; [|done].
  intros Hq. rewrite (chars_set_child t c m) by done. rewrite (IH m Hq). lia.
Qed.
Lemma at_path_marks : (marks (at_path f p r) + marks n = marks r + marks (f n))%nat.
Proof.
  revert r Hn. induction p as [|c q IH]; intros s; simpl; [intros [= ->]; lia|]. destruct (children s !! c) as [m|] eqn:E; [|done].
  intros Hq. pose proof (IH m Hq). pose proof (marks_set_child c m (at_path f q m) s E). lia.
Qed.
Lemma at_path_text : text (f n) = text n → text (at_path f p r) = text r.
Proof. revert r Hn. destruct p as [|c q]; intros s; simpl; [by intros [= ->]|]. by destruct (children s !! c). Qed.
Lemma at_path_times : times (f n) = times n → times (at_path f p r) = times r.
Proof. revert r Hn. destruct p as [|c q]; intros s; simpl; [by intros [= ->]|]. by destruct (children s !! c). Qed.

(** Marks elsewhere stay, and below the node they are those of the new node. *)
Lemma at_path_time q t : (∀ k, q = p ++ k → time_at (f n) k t = time_at n k t) → time_at (at_path f p r) q t = time_at r q t.
Proof.
  revert q r Hn. induction p as [|c q' IH]; intros q s; simpl.
  - intros [= ->] Hk. by apply Hk.
  - destruct (children s !! c) as [m|] eqn:E; [|done]. intros Hq Hk. destruct q as [|d q].
    + done.
    + rewrite !time_at_cons. simpl. rewrite lookup_insert. case_decide as Hcd; [subst d|done]. rewrite E. simpl.
      apply IH; [done|]. intros k ->. by apply Hk.
Qed.
Lemma at_path_time_below k t : time_at (at_path f p r) (p ++ k) t = time_at (f n) k t.
Proof. rewrite time_at_app, (at_path_node f p r n Hn). done. Qed.
End AtPath.

Lemma at_path_wf f p r n : wf r → node_at r p = Some n → wf (f n) → text (f n) = text n → dom (times (f n)) ⊆ dom (times n) → wf (at_path f p r).
Proof.
  intros Hw Hn Hf Ht Hd. revert r Hw Hn. induction p as [|c p IH]; intros r Hw; simpl; [by intros [= ->]|].
  destruct (children r !! c) as [m|] eqn:E; [|done]. intros Hn. destruct (wf_child _ _ _ Hw E) as ((s & Hs) & Hdm & Hwm).
  apply wf_set_child; [done|by apply IH| |].
  - exists s. by rewrite (at_path_text f p m n Hn Ht).
  - destruct p as [|d p]; simpl in *; [injection Hn as ->; set_solver|]. by destruct (children m !! d).
Qed.

(** ** Dropping a tenant from a node *)
Lemma unmark_chars t u n : chars u (unmark t n) =
  chars u n - if decide (u = t) then if bool_decide (is_Some (times n !! t)) then Z.of_nat (length (text n)) else 0 else 0.
Proof.
  rewrite !chars_eq. simpl. rewrite lookup_delete. case_decide as Hu; subst; repeat case_decide; try done; try congruence.
  - rewrite bool_decide_false by apply is_Some_None. lia.
  - lia.
Qed.
Lemma unmark_marks t n : is_Some (times n !! t) → (marks (unmark t n) + 1 = marks n)%nat.
Proof. intros [x Hx]. rewrite !marks_eq. simpl. rewrite map_size_delete, Hx. assert (size (times n) ≠ 0%nat); [|lia]. intros Hz%map_size_empty_inv. by rewrite Hz, lookup_empty in Hx. Qed.
Lemma unmark_wf t n : wf n → t ∈ leaf_of n → wf (unmark t n).
Proof.
  intros Hw Hl. unfold leaf_of in Hl. apply elem_of_filter in Hl as [Hl _]. inversion Hw as [? H1 H2]; subst. constructor; simpl; [|done].
  intros c m Hm. destruct (H1 c m Hm) as [? Hd]. split; [done|]. rewrite dom_delete_L. specialize (Hl c m Hm). apply not_elem_of_dom in Hl. set_solver.
Qed.

Lemma bare_spec n : is_bare n = true → children n = ∅ ∧ times n = ∅.
Proof. unfold is_bare. by intros [H1%bool_decide_eq_true H2%bool_decide_eq_true]%andb_true_iff. Qed.
Lemma bare_chars n u : is_bare n = true → chars u n = 0.
Proof. intros [H1 H2]%bare_spec. rewrite chars_eq, H1, H2. rewrite lookup_empty. done. Qed.
Lemma bare_marks n : is_bare n = true → marks n = 0%nat.
Proof. intros [H1 H2]%bare_spec. rewrite marks_eq, H1, H2. done. Qed.
Lemma bare_time n k u : is_bare n = true → time_at n k u = None.
Proof.
  intros [H1 H2]%bare_spec. destruct k as [|c k]; [unfold time_at; simpl; by rewrite H2|]. by rewrite time_at_cons, H1.
Qed.

(** Removing a bare child loses nothing. *)
Lemma drop_child_spec c n m u : children m !! c = Some n → is_bare n = true → (∃ s, text n = c :: s) → wf m →
  let m' := drop_child n m in
  wf m' ∧ text m' = text m ∧ times m' = times m ∧ chars u m' = chars u m ∧ marks m' = marks m ∧ ∀ k, time_at m' k u = time_at m k u.
Proof.
  intros Hc Hb (s & Hs) Hw. unfold drop_child. rewrite Hs. cbv zeta. split_and!; [|done|done| | |].
  - inversion Hw as [? H1 H2]; subst. constructor; simpl; intros c' m' [_ Hm']%lookup_delete_Some; eauto.
  - rewrite (chars_eq u m), chars_eq. simpl. rewrite <- (insert_delete_id (children m) c n Hc) at 2.
    rewrite chars_below_insert by apply lookup_delete_eq. rewrite (bare_chars n) by done. lia.
  - pose proof (marks_set_child c n n (Node (text m) (times m) (<[c := n]> (delete c (children m)))) (lookup_insert_eq _ _ _)) as _.
    rewrite (marks_eq m), marks_eq. simpl. rewrite <- (insert_delete_id (children m) c n Hc) at 2.
    rewrite map_fold_insert_L; [|intros; lia|apply lookup_delete_eq]. rewrite (bare_marks n) by done. lia.
  - intros k. destruct k as [|d k]; [done|]. rewrite !time_at_cons. simpl. rewrite lookup_delete. case_decide; [|done]. subst.
    rewrite Hc. simpl. by rewrite bare_time.
Qed.

Record dropped (t p : list Z) (n r r' : node) : Prop := {
  dr_wf : wf r';
  dr_text : text r' = text r;
  dr_chars u : chars u r' = chars u r - if decide (u = t) then Z.of_nat (length (text n)) else 0;
  dr_marks : (marks r' + 1 = marks r)%nat;
  dr_time q u : time_at r' q u = if decide (q = p ∧ u = t) then None else time_at r q u }.

Lemma unmark_dropped t p n r : wf r → is_leaf r p t → node_at r p = Some n → dropped t p n r (at_path (unmark t) p r).
Proof.
  intros Hw Hl Hn. pose proof (proj1 (is_leaf_at r p n t Hn) Hl) as Hln. assert (Ht : is_Some (times n !! t)).
  { destruct Hl as [Hl _]. unfold time_at in Hl. by rewrite Hn in Hl. }
  pose proof (wf_at _ _ _ Hw Hn) as Hwn. split.
  - apply (at_path_wf _ _ _ n); [done|done|by apply unmark_wf|done|]. simpl. rewrite dom_delete_L. set_solver.
  - by apply (at_path_text _ _ _ n).
  - intros u. rewrite (at_path_chars _ _ _ _ Hn), unmark_chars. rewrite bool_decide_true by done. case_decide; lia.
  - pose proof (at_path_marks (unmark t) p r n Hn). pose proof (unmark_marks t n Ht). lia.
  - intros q u. destruct (decide (p `prefix_of` q)) as [[k ->]|Hk].
    + rewrite (at_path_time_below _ _ _ _ Hn), time_at_app, Hn. destruct k as [|c k].
      * rewrite app_nil_r. unfold time_at. simpl. rewrite lookup_delete. repeat case_decide; naive_solver.
      * rewrite !time_at_cons. rewrite decide_False; [by destruct (children n !! c) eqn:E; simpl; rewrite ?time_at_cons, ?E|]. intros [Hp _]. apply (f_equal length) in Hp. rewrite length_app in Hp. simpl in Hp. lia.
    + rewrite (at_path_time _ _ _ _ Hn) by (intros k ->; destruct Hk; by exists k). rewrite decide_False; [done|]. intros [-> _]. by apply Hk.
Qed.

Lemma drop_tenant_dropped t p n r : wf r → is_leaf r p t → node_at r p = Some n → dropped t p n r (drop_tenant t p r).
Proof.
  intros Hw Hl Hn. pose proof (unmark_dropped t p n r Hw Hl Hn) as Hd. unfold drop_tenant.
  pose proof (at_path_node (unmark t) p r n Hn) as Hn1. set (r1 := at_path (unmark t) p r) in *. cbv zeta. rewrite Hn1.
  set (n1 := unmark t n) in *. destruct (is_bare n1) eqn:Hb; [|done]. case_bool_decide as Hp; [done|]. simpl.
  destruct (exists_last Hp) as (q & c & ->). rewrite removelast_last. rewrite node_at_app in Hn1.
  destruct (node_at r1 q) as [m|] eqn:Em; [|done]. simpl in Hn1. destruct (children m !! c) as [m1|] eqn:Ec; [|done]. simpl in Hn1. injection Hn1 as ->.
  destruct Hd as [D1 D2 D3 D4 D5]. pose proof (wf_at _ _ _ D1 Em) as Hwm. destruct (wf_child _ _ _ Hwm Ec) as (Hs & _ & _).
  assert (Hdc : ∀ u, _) by exact (λ u, drop_child_spec c n1 m u Ec Hb Hs Hwm). cbv zeta in Hdc. destruct (Hdc []) as (C1 & C2 & C3 & _ & C5 & _).
  split.
  - apply (at_path_wf _ _ _ m); [done|done|done|done|by rewrite C3].
  - by rewrite (at_path_text _ _ _ m).
  - intros u. rewrite (at_path_chars _ _ _ _ Em). destruct (Hdc u) as (_ & _ & _ & -> & _). rewrite D3. lia.
  - pose proof (at_path_marks (drop_child n1) q r1 m Em). rewrite C5 in *. lia.
  - intros k u. rewrite <- D5. apply (at_path_time _ _ _ _ Em). intros k' _. by destruct (Hdc u) as (_ & _ & _ & _ & _ & ->).
Qed.

(** The parent is asked for when it became a leaf. *)
Lemma parent_entry_spec t p r e : e ∈ parent_entry t p r ↔
  ∃ q c, p = q ++ [c] ∧ is_leaf r q t ∧ time_at r q t = Some (timestamp e) ∧ e_tenant e = t ∧ e_node e = q.
Proof.
  unfold parent_entry. destruct (decide (p = [])) as [->|Hp].
  { rewrite bool_decide_true by done. split; [by intros ?%elem_of_nil|]. intros (q & c & Hq & _). by destruct q. }
  rewrite bool_decide_false by done. destruct (exists_last Hp) as (q & c & ->). rewrite removelast_last.
  split.
  - destruct (node_at r q) as [n|] eqn:En; [|by intros ?%elem_of_nil]. case_bool_decide as Hl; [|by intros ?%elem_of_nil].
    destruct (times n !! t) as [ts|] eqn:Et; [|by intros ?%elem_of_nil]. intros ->%list_elem_of_singleton. exists q, c.
    split_and!; [done|by apply (is_leaf_at _ _ n)| |done|done]. unfold time_at. by rewrite En.
  - intros (q' & c' & [<- _]%app_inj_tail & Hl & Ht & He1 & He2). unfold time_at in Ht. destruct (node_at r q) as [n|] eqn:En; [|done].
    rewrite bool_decide_true by by apply (is_leaf_at r q). simpl in Ht. rewrite Ht. apply list_elem_of_singleton. destruct e; simpl in *; congruence.
Qed.
Lemma parent_entry_length t p r : (length (parent_entry t p r) ≤ 1)%nat.
Proof. unfold parent_entry. repeat case_match; simpl; lia. Qed.

(** ** The queue *)
Lemma pop_spec `{Oracle} pq : match pop pq with Some (e, pq') => pq ≡ₚ e :: pq' | None => pq = [] end.
Proof.
  unfold pop. destruct (choose _) as [e|] eqn:E.
  - apply choose_elem in E. apply list_elem_of_filter in E as [_ Hin].
    destruct (list_find_elem_of (λ e', e' = e) pq e Hin eq_refl) as [[i x] Hf]. rewrite Hf. apply list_find_Some in Hf as (Hi & -> & _).
    by apply delete_Permutation.
  - apply choose_none in E. destruct (decide (pq = [])) as [|Hne]; [done|]. exfalso.
    assert (Hmin : ∃ e, e ∈ pq ∧ Forall (λ e', timestamp e <= timestamp e') pq).
    { clear E. induction pq as [|e pq IH]; [done|]. destruct (decide (pq = [])) as [->|Hpq].
      { exists e. split; [apply list_elem_of_here|]. by repeat constructor. }
      destruct (IH Hpq) as (x & Hx & Hall). destruct (Z.le_ge_cases (timestamp e) (timestamp x)) as [Hle|Hle].
      - exists e. split; [apply list_elem_of_here|]. constructor; [done|]. eapply Forall_impl; [exact Hall|]. simpl. lia.
      - exists x. split; [by apply list_elem_of_further|]. by constructor. }
    destruct Hmin as (e & He & Hall). assert (Hin : e ∈ filter (λ e, Forall (λ e', timestamp e <= timestamp e') pq) pq) by by apply list_elem_of_filter.
    rewrite E in Hin. by apply elem_of_nil in Hin.
Qed.

(** Everything collected is a leaf, and every leaf is collected. *)
Lemma elem_of_below {A} (f : Z → node → list A) (ch : gmap Z node) x :
  x ∈ map_fold (λ c m acc, f c m ++ acc) [] ch ↔ ∃ c m, ch !! c = Some m ∧ x ∈ f c m.
Proof.
  apply (map_fold_weak_ind (λ l ch, x ∈ l ↔ ∃ c m, ch !! c = Some m ∧ x ∈ f c m)).
  - split; [by intros ?%elem_of_nil|]. intros (c & m & Hm & _). by rewrite lookup_empty in Hm.
  - intros c m ch' l Hc IH. rewrite elem_of_app, IH. split.
    + intros [Hx|(c' & m' & Hm' & Hx)]; [exists c, m; by rewrite lookup_insert_eq|]. exists c', m'. rewrite lookup_insert_ne by congruence. done.
    + intros (c' & m' & Hm' & Hx). rewrite lookup_insert in Hm'. case_decide; [simplify_eq; by left|]. right. eauto.
Qed.

Definition key_of (e : EvictionEntry) : list Z * list Z := (e_tenant e, e_node e).

Lemma below_NoDup {A K} (key : A → K) (loc : A → list Z) (f : Z → node → list A) p (ch : gmap Z node) :
  (∀ e e', key e = key e' → loc e = loc e') →
  (∀ c m, ch !! c = Some m → NoDup (key <$> f c m) ∧ ∀ e, e ∈ f c m → ∃ q, loc e = p ++ c :: q) →
  NoDup (key <$> map_fold (λ c m acc, f c m ++ acc) [] ch) ∧
  ∀ e, e ∈ map_fold (λ c m acc, f c m ++ acc) [] ch → ∃ c m q, ch !! c = Some m ∧ loc e = p ++ c :: q.
Proof.
  intros Hloc. apply (map_fold_weak_ind (λ l ch, (∀ c m, ch !! c = Some m → NoDup (key <$> f c m) ∧ ∀ e, e ∈ f c m → ∃ q, loc e = p ++ c :: q) →
    NoDup (key <$> l) ∧ ∀ e, e ∈ l → ∃ c m q, ch !! c = Some m ∧ loc e = p ++ c :: q)).
  - intros _. split; [constructor|]. intros e He. by apply elem_of_nil in He.
  - intros c m ch' l Hc IH Hch. destruct (Hch c m (lookup_insert_eq _ _ _)) as [Hn Hq]. destruct IH as [Hl He].
    { intros c' m' Hm'. apply Hch. rewrite lookup_insert_ne; [done|]. congruence. }
    split.
    + rewrite fmap_app. apply NoDup_app. split_and!; [done| |done]. intros k (e & -> & H1)%list_elem_of_fmap (e' & Hk & H2)%list_elem_of_fmap.
      destruct (Hq e H1) as [q Hq1]. destruct (He e' H2) as (c' & m' & q' & Hm' & Hq2). apply Hloc in Hk. rewrite Hq1, Hq2 in Hk.
      apply app_inv_head in Hk. injection Hk as -> _. congruence.
    + intros e [H1|H1]%elem_of_app.
      * destruct (Hq e H1) as [q Hq1]. exists c, m, q. by rewrite lookup_insert_eq.
      * destruct (He e H1) as (c' & m' & q & Hm' & Hq1). exists c', m', q. rewrite lookup_insert_ne; [done|]. congruence.
Qed.
Lemma below_length {A} (f : Z → node → list A) (g : node → nat) (ch : gmap Z node) :
  (∀ c m, ch !! c = Some m → (length (f c m) ≤ g m)%nat) →
  (length (map_fold (λ c m acc, f c m ++ acc) [] ch) ≤ map_fold (λ _ m acc, g m + acc)%nat 0%nat ch)%nat.
Proof.
  rewrite !map_fold_foldr. intros Hch.
  assert (Hl : ∀ l, (∀ c m, (c, m) ∈ l → (length (f c m) ≤ g m)%nat) →
    (length (foldr (uncurry (λ c m acc, f c m ++ acc)) [] l) ≤ foldr (uncurry (λ _ m acc, g m + acc)) 0 l)%nat); [|apply Hl].
  - induction l as [|[c m] l IH]; intros Hl; [done|]. simpl. rewrite length_app.
    pose proof (Hl c m (list_elem_of_here _ _)). specialize (IH (λ c m H, Hl c m (list_elem_of_further _ _ _ H))). lia.
  - intros c m Hin%elem_of_map_to_list. by apply Hch.
Qed.

Lemma entries_of_spec p n e : e ∈ entries_of p n ↔ e_node e = p ∧ is_leaf n [] (e_tenant e) ∧ time_at n [] (e_tenant e) = Some (timestamp e).
Proof.
  unfold entries_of. rewrite list_elem_of_omap. setoid_rewrite elem_of_elements. setoid_rewrite leaf_of_spec. split.
  - intros (t & Hl & (ts & Hts & ->)%fmap_Some). simpl. split_and!; [done|done|]. done.
  - intros (He & Hl & Ht). exists (e_tenant e). split; [done|]. unfold time_at in Ht. simpl in Ht. rewrite Ht. simpl. by rewrite <- He; destruct e.
Qed.
Lemma entries_of_NoDup p n : NoDup (key_of <$> entries_of p n).
Proof.
  unfold entries_of. set (f := λ t, (λ ts, mk_entry ts t p) <$> times n !! t).
  assert (Hf : ∀ t e, f t = Some e → key_of e = (t, p)) by (by intros t e (ts & _ & ->)%fmap_Some).
  assert (H : ∀ l, NoDup l → NoDup (key_of <$> omap f l)); [|apply H, NoDup_elements].
  induction 1 as [|t l Ht _ IH]; [constructor|]. cbn [omap list_omap]. destruct (f t) as [e|] eqn:E; [|exact IH].
  rewrite fmap_cons. constructor; [|exact IH]. intros (e' & Hk & He)%list_elem_of_fmap.
  apply list_elem_of_omap in He as (u & Hu & He). rewrite (Hf _ _ E), (Hf _ _ He) in Hk. by injection Hk as ->.
Qed.
Lemma omap_length {A B} (f : A → option B) l : (length (omap f l) ≤ length l)%nat.
Proof. induction l as [|x l IH]; [done|]. cbn [omap list_omap]. destruct (f x); simpl; lia. Qed.
Lemma entries_of_length p n : (length (entries_of p n) ≤ size (times n))%nat.
Proof.
  unfold entries_of. etransitivity; [apply omap_length|]. change (length (elements (leaf_of n))) with (size (leaf_of n)).
  rewrite <- size_dom. apply subseteq_size. unfold leaf_of. set_solver.
Qed.

Lemma collect_eq p n : collect p n = entries_of p n ++ map_fold (λ c m acc, collect (p ++ [c]) m ++ acc) [] (children n).
Proof. by destruct n. Qed.

Lemma is_leaf_cons n c q t : is_leaf n (c :: q) t ↔ ∃ m, children n !! c = Some m ∧ is_leaf m q t.
Proof.
  unfold is_leaf. rewrite time_at_cons. split.
  - intros [Ht Hc]. destruct (children n !! c) as [m|] eqn:E; [|by destruct Ht]. exists m. split; [done|]. split; [done|].
    intros d. specialize (Hc d). cbn [app] in Hc. by rewrite time_at_cons, E in Hc.
  - intros (m & E & Ht & Hc). rewrite E. split; [done|]. intros d. cbn [app]. rewrite time_at_cons, E. apply Hc.
Qed.

Definition entry_at (p : list Z) (n : node) (e : EvictionEntry) : Prop :=
  ∃ q, e_node e = p ++ q ∧ is_leaf n q (e_tenant e) ∧ time_at n q (e_tenant e) = Some (timestamp e).

Lemma collect_spec n : wf n → ∀ p, (∀ e, e ∈ collect p n ↔ entry_at p n e) ∧ NoDup (key_of <$> collect p n) ∧ (length (collect p n) ≤ marks n)%nat.
Proof.
  induction 1 as [n _ _ IH]. intros p. rewrite collect_eq.
  assert (Hbelow : ∀ e, e ∈ map_fold (λ c m acc, collect (p ++ [c]) m ++ acc) [] (children n) ↔ ∃ c m, children n !! c = Some m ∧ entry_at (p ++ [c]) m e).
  { intros e. rewrite elem_of_below. split; intros (c & m & Hm & He); exists c, m; (split; [done|]); by apply (IH c m Hm (p ++ [c])). }
  destruct (below_NoDup key_of e_node (λ c m, collect (p ++ [c]) m) p (children n)) as [Hnd Hsub]; [by intros ?? [= _ ?]| |].
  { intros c m Hm. destruct (IH c m Hm (p ++ [c])) as (H1 & H2 & _). split; [done|]. intros e (q & Hq & _)%H1. exists q. by rewrite Hq, <- app_assoc. }
  split_and!.
  - intros e. rewrite elem_of_app, entries_of_spec, Hbelow. split.
    + intros [(He & Hl & Ht)|(c & m & Hm & q & Hq & Hl & Ht)].
      * exists []. by rewrite app_nil_r.
      * exists (c :: q). rewrite <- app_assoc in Hq. split_and!; [done|apply is_leaf_cons; eauto|]. by rewrite time_at_cons, Hm.
    + intros ([|c q] & Hq & Hl & Ht).
      * left. by rewrite app_nil_r in Hq.
      * right. apply is_leaf_cons in Hl as (m & Hm & Hl). exists c, m. split; [done|]. exists q. rewrite <- app_assoc. split_and!; [done|done|].
        by rewrite time_at_cons, Hm in Ht.
  - rewrite fmap_app. apply NoDup_app. split_and!; [apply entries_of_NoDup| |exact Hnd].
    intros k (e & -> & (He & _)%entries_of_spec)%list_elem_of_fmap (e' & Hk & He')%list_elem_of_fmap.
    destruct (Hsub e' He') as (c & m & q & _ & Hq). injection Hk as _ Hk. rewrite He, Hq in Hk. apply (f_equal length) in Hk.
    rewrite length_app in Hk. simpl in Hk. lia.
  - rewrite length_app, marks_eq. pose proof (entries_of_length p n).
    pose proof (below_length (λ c m, collect (p ++ [c]) m) marks (children n) (λ c m Hm, proj2 (proj2 (IH c m Hm (p ++ [c]))))). lia.
Qed.

(** The leaves after dropping one. *)
Lemma dropped_leaf t p n r r' q u : dropped t p n r r' → is_leaf r p t → is_leaf r' q u →
  (is_leaf r q u ∧ (q, u) ≠ (p, t)) ∨ (u = t ∧ ∃ c, p = q ++ [c]).
Proof.
  intros [_ _ _ _ D] Hp [Hq Hc]. rewrite D in Hq. case_decide as Hd; [by destruct Hq|].
  destruct (decide (u = t ∧ removelast p = q ∧ p ≠ [])) as [(-> & <- & Hne)|Hno].
  - right. split; [done|]. destruct (exists_last Hne) as (s & c & ->). exists c. by rewrite removelast_last.
  - left. split; [|by intros [= -> ->]; destruct Hd]. split; [done|]. intros c. specialize (Hc c). rewrite D in Hc. case_decide as Hd'; [|done].
    destruct Hd' as [<- ->]. destruct Hno. rewrite removelast_last. split_and!; [done|done|by destruct q].
Qed.
Lemma dropped_leaf_stays t p n r r' q u : dropped t p n r r' → is_leaf r q u → (q, u) ≠ (p, t) → is_leaf r' q u.
Proof.
  intros [_ _ _ _ D] [Hq Hc] Hne. split; [rewrite D, decide_False by naive_solver; done|]. intros c. rewrite D. case_decide; [done|apply Hc].
Qed.

Lemma chars_nonneg t n : wf n → 0 <= chars t n.
Proof.
  induction 1 as [n _ _ IH]. rewrite chars_eq. assert (0 <= chars_below t (children n)); [|case_bool_decide; lia].
  unfold chars_below. revert IH. apply (map_fold_weak_ind (λ z ch, (∀ c m, ch !! c = Some m → 0 <= chars t m) → 0 <= z)); [done|].
  intros c m ch z Hc Hz Hch. pose proof (Hch c m (lookup_insert_eq _ _ _)). assert (0 <= z); [|lia]. apply Hz. intros c' m' Hm'.
  apply (Hch c' m'). rewrite lookup_insert_ne; [done|]. congruence.
Qed.

(** ** By size *)
Section Loop.
Context `{Oracle} (max_size : Z) (r0 : node).

(** The sizes are exact, the queue holds leaves, each once and every one of a
    tenant above the size, and a tenant below it has lost nothing. *)
Record loop_inv (pq : list EvictionEntry) (tr : Tree) : Prop := {
  lo_wf : wf (root tr);
  lo_text : text (root tr) = text r0;
  lo_counts u : default 0 (tenant_char_count tr !! u) = chars u (root tr);
  lo_NoDup : NoDup (key_of <$> pq);
  lo_leaf e : e ∈ pq → is_leaf (root tr) (e_node e) (e_tenant e);
  lo_all u q : is_leaf (root tr) q u → max_size < chars u (root tr) → (u, q) ∈ key_of <$> pq;
  lo_less u : chars u (root tr) <= chars u r0;
  lo_kept u : chars u r0 <= max_size → chars u (root tr) = chars u r0 ∧ ∀ q, time_at (root tr) q u = time_at r0 q u }.

Lemma loop_perm pq pq' tr : pq ≡ₚ pq' → loop_inv pq tr → loop_inv pq' tr.
Proof.
  intros Hp [L1 L2 L3 L4 L5 L6 L7 L8]. split; try done; [by rewrite <- Hp| |].
  - intros e. rewrite <- Hp. apply L5.
  - intros u q. rewrite <- Hp. apply L6.
Qed.
Lemma loop_skip e pq tr : default 0 (tenant_char_count tr !! e_tenant e) <= max_size → loop_inv (e :: pq) tr → loop_inv pq tr.
Proof.
  intros Hs [L1 L2 L3 L4 L5 L6 L7 L8]. rewrite L3 in Hs. split; try done.
  - rewrite fmap_cons in L4. by apply NoDup_cons in L4 as [_ ?].
  - intros e' He'. apply L5. by apply list_elem_of_further.
  - intros u q Hl Hu. specialize (L6 u q Hl Hu). rewrite fmap_cons in L6. apply elem_of_cons in L6 as [Hk|?]; [|done].
    injection Hk as -> ->. lia.
Qed.

Lemma loop_drop e pq tr n counts : 0 <= max_size → loop_inv (e :: pq) tr → max_size < chars (e_tenant e) (root tr) →
  node_at (root tr) (e_node e) = Some n →
  (∀ u, default 0 (counts !! u) = if decide (u = e_tenant e) then saturating_sub (chars u (root tr)) (Z.of_nat (length (text n))) else chars u (root tr)) →
  let r := drop_tenant (e_tenant e) (e_node e) (root tr) in
  loop_inv (parent_entry (e_tenant e) (e_node e) r ++ pq) (mk_tree r counts) ∧ (marks r + 1 = marks (root tr))%nat.
Proof.
  intros Hmax [L1 L2 L3 L4 L5 L6 L7 L8] Hbig Hn Hcounts. pose proof (L5 e (list_elem_of_here _ _)) as Hl.
  pose proof (drop_tenant_dropped _ _ n _ L1 Hl Hn) as Hd. cbv zeta. set (t := e_tenant e) in *. set (p := e_node e) in *.
  set (r := drop_tenant t p (root tr)) in *. split; [|by destruct Hd].
  rewrite fmap_cons in L4. apply NoDup_cons in L4 as [Hek L4].
  assert (Hold : ∀ e', e' ∈ pq → (e_node e', e_tenant e') ≠ (p, t)).
  { intros e' He' [= Hk1 Hk2]. apply Hek. apply list_elem_of_fmap. exists e'. unfold key_of. by rewrite Hk1, Hk2. }
  destruct Hd as [D1 D2 D3 D4 D5] eqn:Ed. clear Ed. split; cbn [root tenant_char_count].
  - done.
  - congruence.
  - intros u. rewrite Hcounts, D3. case_decide; [|lia]. unfold saturating_sub. pose proof (chars_nonneg u r D1) as Hr. rewrite D3 in Hr. rewrite decide_True in Hr by done. lia.
  - rewrite fmap_app. apply NoDup_app. split_and!; [|intros k|done].
    + pose proof (parent_entry_length t p r). destruct (parent_entry t p r) as [|? []]; simpl in *; [constructor|apply NoDup_singleton|lia].
    + intros (e1 & -> & He1)%list_elem_of_fmap (e2 & Hk & He2)%list_elem_of_fmap. injection Hk as Ht2 Hq2.
      apply parent_entry_spec in He1 as (q & c & Hp & _ & _ & Ht1 & Hq1). destruct (L5 e2 (list_elem_of_further _ _ _ He2)) as [_ Hno].
      specialize (Hno c). rewrite <- Ht2, <- Hq2, Ht1, Hq1, <- Hp in Hno. destruct Hl as [Hl _]. rewrite Hno in Hl. by destruct Hl.
  - intros e' [He'|He']%elem_of_app.
    + apply parent_entry_spec in He' as (q & c & _ & Hlq & _ & -> & ->). done.
    + apply (dropped_leaf_stays t p n (root tr)); [done| |by apply Hold]. apply L5. by apply list_elem_of_further.
  - intros u q Hq Hu. rewrite fmap_app, elem_of_app. destruct (dropped_leaf t p n (root tr) r q u) as [[Hq' Hne]|[-> [c Hc]]]; [done..| |].
    + right. specialize (L6 u q Hq'). rewrite D3 in Hu. rewrite fmap_cons in L6.
      destruct (proj1 (elem_of_cons _ _ _) (L6 ltac:(case_decide; lia))) as [Hk|?]; [|done]. injection Hk as -> ->. done.
    + left. destruct Hq as [[ts Hts] Hqc]. apply list_elem_of_fmap. exists (mk_entry ts t q). split; [done|]. apply parent_entry_spec.
      exists q, c. by split_and!.
  - intros u. rewrite D3. specialize (L7 u). case_decide; lia.
  - intros u Hu. destruct (L8 u Hu) as [Hc Ht]. assert (u ≠ t) by (intros ->; lia). rewrite D3, decide_False by done. split; [lia|].
    intros q. rewrite D5, decide_False by naive_solver. apply Ht.
Qed.

Lemma evict_loop_ends fuel pq tr : 0 <= max_size → (length pq + marks (root tr) < fuel)%nat → loop_inv pq tr →
  ∃ tr', evict_loop fuel max_size pq tr = Some tr' ∧ loop_inv [] tr'.
Proof.
  intros Hmax. revert pq tr. induction fuel as [|fuel IH]; intros pq tr Hf Hi; [lia|]. cbn [evict_loop].
  pose proof (pop_spec pq) as Hp. destruct (pop pq) as [[e pq']|]; [|subst; by exists tr].
  apply (loop_perm _ _ _ Hp) in Hi. rewrite Hp in Hf. cbn [length] in Hf. cbv zeta. destruct (Z.leb_spec (default 0 (tenant_char_count tr !! e_tenant e)) max_size) as [Hle|Hgt].
  { apply IH; [lia|]. by apply (loop_skip e). }
  rewrite (lo_counts _ _ Hi) in Hgt. destruct (lo_leaf _ _ Hi e (list_elem_of_here _ _)) as [[ts Hts] _]. pose proof Hts as Hts'.
  unfold time_at in Hts. destruct (node_at (root tr) (e_node e)) as [n|] eqn:En; [|done]. simpl in Hts.
  rewrite bool_decide_true by by eexists.
  destruct (loop_drop e pq' tr n (alter (λ count, saturating_sub count (Z.of_nat (length (text n)))) (e_tenant e) (tenant_char_count tr))) as [Hi' Hm]; [done..| |].
  - intros u. pose proof (lo_counts _ _ Hi u) as Hu. case_decide as Hut.
    + subst u. rewrite lookup_alter_eq. destruct (tenant_char_count tr !! e_tenant e) as [x|]; simpl in *; [by rewrite Hu|lia].
    + by rewrite lookup_alter_ne.
  - apply IH; [|done]. rewrite length_app. pose proof (parent_entry_length (e_tenant e) (e_node e) (drop_tenant (e_tenant e) (e_node e) (root tr))).
    cbn [root]. lia.
Qed.
End Loop.

(** A tree whose sizes are exact. *)
Record sized (tr : Tree) : Prop := {
  sz_wf : wf (root tr);
  sz_text : text (root tr) = [];
  sz_counts u : default 0 (tenant_char_count tr !! u) = chars u (root tr) }.

Lemma run_sized `{Oracle} ops : (∀ u, chars u (root (tree_run ops)) < 2 ^ 64) → sized (tree_run ops).
Proof.
  intros Hu. destruct (tree_run_inv ops) as [H1 H2 _ H4]. split; [done..|]. intros u. rewrite H4. apply Z.mod_small.
  split; [by apply chars_nonneg|apply Hu].
Qed.

(** C36: Eviction ends and leaves every tenant at or below the size, with sizes
    that are still exact; a tenant that was not above it keeps every node it
    had, with its times. *)
Theorem eviction_bounds_every_tenant `{Oracle} max_size tr : 0 <= max_size → sized tr →
  ∃ tr', evict_tenant_by_size max_size tr = Some tr' ∧ sized tr' ∧
    (∀ u, default 0 (get_used_size_per_tenant tr' !! u) <= max_size) ∧
    ∀ u, default 0 (get_used_size_per_tenant tr !! u) <= max_size →
      default 0 (get_used_size_per_tenant tr' !! u) = default 0 (get_used_size_per_tenant tr !! u) ∧ ∀ q, time_at (root tr') q u = time_at (root tr) q u.
Proof.
  intros Hmax [H1 H2 H3]. destruct (collect_spec _ H1 []) as (C1 & C2 & C3). unfold evict_tenant_by_size.
  destruct (evict_loop_ends max_size (root tr) (S (2 * marks (root tr))) (collect [] (root tr)) tr Hmax) as (tr' & -> & [L1 L2 L3 _ _ L6 _ L8]); [lia| |].
  { split; try done.
    - intros e (q & -> & Hl & _)%C1. done.
    - intros u q [[ts Hts] Hq] _. apply list_elem_of_fmap. exists (mk_entry ts u q). split; [done|]. apply C1. exists q. split_and!; [done| |done].
      split; [by eexists|done]. }
  exists tr'. split; [done|]. split; [by split; [|congruence|]|]. unfold get_used_size_per_tenant. split.
  - intros u. rewrite L3. destruct (Z.le_gt_cases (chars u (root tr')) max_size) as [|Hgt]; [done|]. rewrite (no_leaf_no_chars _ u L1); [done|].
    intros q Hq. specialize (L6 u q Hq Hgt). by apply elem_of_nil in L6.
  - intros u Hu. rewrite H3 in Hu. destruct (L8 u Hu) as [Hc Ht]. split; [|done].
    pose proof (H3 u) as H3u. pose proof (L3 u) as L3u. congruence.
Qed.

(** ** A tenant *)
Lemma leaves_eq t p n : leaves_of t p n =
  (if bool_decide (t ∈ leaf_of n) then [p] else []) ++ map_fold (λ c m acc, leaves_of t (p ++ [c]) m ++ acc) [] (children n).
Proof. by destruct n. Qed.

Lemma leaves_spec t n : wf n → ∀ p, (∀ x, x ∈ leaves_of t p n ↔ ∃ q, x = p ++ q ∧ is_leaf n q t) ∧ NoDup (leaves_of t p n).
Proof.
  induction 1 as [n _ _ IH]. intros p. rewrite leaves_eq.
  destruct (below_NoDup id id (λ c m, leaves_of t (p ++ [c]) m) p (children n)) as [Hnd Hsub]; [done| |].
  { intros c m Hm. destruct (IH c m Hm (p ++ [c])) as [H1 H2]. rewrite list_fmap_id. split; [done|]. intros x (q & -> & _)%H1. exists q. by rewrite <- app_assoc. }
  rewrite list_fmap_id in Hnd. split.
  - intros x. rewrite elem_of_app, elem_of_below. split.
    + intros [Hx|(c & m & Hm & (q & -> & Hl)%(IH c m Hm (p ++ [c])))].
      * case_bool_decide as Hl; [|by apply elem_of_nil in Hx]. apply list_elem_of_singleton in Hx as ->. exists []. rewrite app_nil_r.
        split; [done|]. by apply leaf_of_spec.
      * exists (c :: q). rewrite <- app_assoc. split; [done|]. apply is_leaf_cons. eauto.
    + intros ([|c q] & -> & Hl).
      * left. rewrite bool_decide_true by by apply leaf_of_spec. rewrite app_nil_r. apply list_elem_of_here.
      * right. apply is_leaf_cons in Hl as (m & Hm & Hl). exists c, m. split; [done|]. apply (IH c m Hm). exists q. by rewrite <- app_assoc.
  - apply NoDup_app. split_and!; [case_bool_decide; [apply NoDup_singleton|constructor]| |exact Hnd].
    intros x Hx (c & m & q & _ & Hq)%Hsub. case_bool_decide; [|by apply elem_of_nil in Hx]. apply list_elem_of_singleton in Hx as ->.
    apply (f_equal length) in Hq. unfold id in Hq. rewrite length_app in Hq. simpl in Hq. lia.
Qed.

Lemma remove_loop_ends t r0 fuel queue r : (marks r ≤ fuel)%nat → wf r → text r = text r0 → NoDup queue →
  (∀ q, q ∈ queue ↔ is_leaf r q t) → (∀ u, u ≠ t → chars u r = chars u r0 ∧ ∀ q, time_at r q u = time_at r0 q u) →
  ∃ r', remove_loop fuel t queue r = Some r' ∧ wf r' ∧ text r' = text r0 ∧ (∀ q, ¬ is_leaf r' q t) ∧
    ∀ u, u ≠ t → chars u r' = chars u r0 ∧ ∀ q, time_at r' q u = time_at r0 q u.
Proof.
  revert queue r. induction fuel as [|fuel IH]; intros queue r Hf Hw Htx Hnd Hq Hu; (destruct queue as [|p queue];
    [exists r; split_and!; [done..| |done]; intros q Hl%Hq; by apply elem_of_nil in Hl|]);
    (assert (Hl : is_leaf r p t) by by apply Hq, list_elem_of_here); destruct Hl as [Hs Hl]; pose proof Hs as Hs';
    unfold time_at in Hs; (destruct (node_at r p) as [n|] eqn:En; [|by destruct Hs]);
    pose proof (drop_tenant_dropped t p n r Hw (conj Hs' Hl) En) as Hd; pose proof Hd as [D1 D2 D3 D4 D5]; [lia|].
  cbn [remove_loop]. apply NoDup_cons in Hnd as [Hp Hnd]. set (r' := drop_tenant t p r) in *. cbv zeta. fold r'.
  assert (Hpe : ∀ q, q ∈ e_node <$> parent_entry t p r' ↔ ∃ c, p = q ++ [c] ∧ is_leaf r' q t).
  { intros q. rewrite list_elem_of_fmap. setoid_rewrite parent_entry_spec. split.
    - intros (e & -> & q' & c & H1 & H2 & _ & _ & ->). eauto.
    - intros (c & H1 & H2). pose proof H2 as [[ts Hts] _]. exists (mk_entry ts t q). split; [done|]. exists q, c. done. }
  apply IH; [lia|done|congruence| | |].
  - apply NoDup_app. split_and!; [done| |].
    + intros q Hq1 (c & Hc & _)%Hpe. assert (Hl1 : is_leaf r q t) by by apply Hq, list_elem_of_further. destruct Hl1 as [_ Hno].
      specialize (Hno c). rewrite <- Hc in Hno. rewrite Hno in Hs'. by destruct Hs'.
    + pose proof (parent_entry_length t p r'). destruct (parent_entry t p r') as [|? []]; simpl in *; [constructor|apply NoDup_singleton|lia].
  - intros q. rewrite elem_of_app, Hpe. split.
    + intros [Hin|(c & _ & Hlq)]; [|done]. apply (dropped_leaf_stays t p n r); [done| |by intros [= ->]]. apply Hq. by apply list_elem_of_further.
    + intros Hlq. destruct (dropped_leaf t p n r r' q t Hd (conj Hs' Hl) Hlq) as [[Hq' Hne]|[_ [c Hc]]]; [|right; eauto].
      left. apply Hq in Hq'. apply elem_of_cons in Hq' as [->|?]; [done|done].
  - intros u Hne. destruct (Hu u Hne) as [U1 U2]. rewrite D3, decide_False by done. split; [lia|]. intros q. rewrite D5, decide_False by naive_solver. apply U2.
Qed.

(** Removing a tenant ends and takes it from every node and from the
    sizes; the sizes stay exact and every other tenant keeps its nodes. *)
Theorem removed_tenant_is_gone t tr : sized tr →
  ∃ tr', remove_tenant t tr = Some tr' ∧ sized tr' ∧ get_used_size_per_tenant tr' !! t = None ∧
    (∀ q, time_at (root tr') q t = None) ∧
    ∀ u, u ≠ t → get_used_size_per_tenant tr' !! u = get_used_size_per_tenant tr !! u ∧ ∀ q, time_at (root tr') q u = time_at (root tr) q u.
Proof.
  intros [H1 H2 H3]. destruct (leaves_spec t _ H1 []) as [L1 L2]. unfold remove_tenant.
  destruct (remove_loop_ends t (root tr) (marks (root tr)) (leaves_of t [] (root tr)) (root tr)) as (r' & -> & R1 & R2 & R3 & R4); try done.
  { intros q. rewrite L1. split; [by intros (? & -> & ?)|]. intros. by exists q. }
  eexists. split; [reflexivity|]. unfold get_used_size_per_tenant. cbn [root tenant_char_count].
  assert (Hgone : ∀ q, time_at r' q t = None).
  { intros q. destruct (time_at r' q t) as [ts|] eqn:E; [|done]. exfalso. unfold time_at in E. destruct (node_at r' q) as [m|] eqn:Em; [|done].
    destruct (find_leaf m t (wf_at _ _ _ R1 Em)) as [p Hp]; [by eexists|]. apply (R3 (q ++ p)). unfold is_leaf in *. rewrite time_at_app, Em.
    split; [apply Hp|]. intros c. rewrite <- app_assoc, time_at_app, Em. apply Hp. }
  split; [split; cbn [root tenant_char_count]|split_and!].
  - done.
  - congruence.
  - intros u. rewrite lookup_delete. case_decide as Hu; [subst; simpl; symmetry; by apply no_leaf_no_chars|].
    destruct (R4 u) as [-> _]; [congruence|]. apply H3.
  - apply lookup_delete_eq.
  - done.
  - intros u Hu. rewrite lookup_delete_ne by congruence. destruct (R4 u Hu). done.
Qed.

(** ** Examples *)
Definition shared_run : Tree := tree_run [Insert 1 "help" "w1"; Insert 2 "hello" "w2"].
Lemma shared_root : root shared_run =
  Node [] {[lit "w1" := 1; lit "w2" := 2]} {[104 := Node "hel" {[lit "w1" := 1; lit "w2" := 2]}
    {[112 := Node "p" {[lit "w1" := 1]} ∅; 108 := Node "lo" {[lit "w2" := 2]} ∅]}]}.
Proof. vm_eq. Qed.
Lemma chars_below_singleton t c m : chars_below t {[c := m]} = chars t m.
Proof. rewrite <- insert_empty, chars_below_insert by apply lookup_empty. unfold chars_below. rewrite map_fold_empty. lia. Qed.
Lemma shared_sized : sized shared_run.
Proof.
  apply run_sized. intros u. change (tree_run _) with shared_run. rewrite shared_root.
  rewrite (chars_eq u (Node [] _ _)). cbn [children text times]. rewrite chars_below_singleton, (chars_eq u (Node (lit "hel") _ _)).
  cbn [children text times]. rewrite chars_below_insert by by rewrite lookup_singleton_ne. rewrite chars_below_singleton, !chars_eq.
  cbn [children text times]. unfold chars_below. rewrite !map_fold_empty. repeat case_bool_decide; vm_compute; done.
Qed.

Lemma eviction_bounds_every_tenant_witness : 0 <= 4 ∧ sized shared_run ∧
  ∃ tr', evict_tenant_by_size 4 shared_run = Some tr' ∧ sized tr' ∧
    (∀ u, default 0 (get_used_size_per_tenant tr' !! u) <= 4) ∧
    ∀ u, default 0 (get_used_size_per_tenant shared_run !! u) <= 4 →
      default 0 (get_used_size_per_tenant tr' !! u) = default 0 (get_used_size_per_tenant shared_run !! u) ∧
      ∀ q, time_at (root tr') q u = time_at (root shared_run) q u.
Proof. split; [lia|]. split; [apply shared_sized|]. apply eviction_bounds_every_tenant; [lia|apply shared_sized]. Defined.

Lemma removed_tenant_is_gone_witness : sized shared_run ∧
  ∃ tr', remove_tenant (lit "w1") shared_run = Some tr' ∧ sized tr' ∧ get_used_size_per_tenant tr' !! lit "w1" = None ∧
    (∀ q, time_at (root tr') q (lit "w1") = None) ∧
    ∀ u, u ≠ lit "w1" → get_used_size_per_tenant tr' !! u = get_used_size_per_tenant shared_run !! u ∧
      ∀ q, time_at (root tr') q u = time_at (root shared_run) q u.
Proof. split; [apply shared_sized|]. apply removed_tenant_is_gone, shared_sized. Defined.
