(* ===== verification/CacheAware.v ===== *)
(** * The cache-aware policy

    [policies/cache_aware.rs]: requests go where a long prefix of their text went
    before, unless the load is out of balance; a radix tree per model
    remembers what went where. The clock is read once per use of a tree, and
    the position in its readings is part of the state. *)
From S2P Require Import Prelude Text Float Policy Tree Evict.

(** The f32 fields as floats.
    src: crates/pulsing-actor/src/policies/cache_aware.rs 31-42 CacheAwareConfig *)
Record CacheAwareConfig := mk_ca_config {
  cache_threshold : float; balance_abs_threshold : Z; balance_rel_threshold : float; eviction_interval_secs : Z; max_tree_size : Z }.
(** src: crates/pulsing-actor/src/policies/cache_aware.rs 44-54 CacheAwareConfig::default *)
Definition CacheAwareConfig_default : CacheAwareConfig := mk_ca_config (f32_lit 5 1) 32 (f32_lit 10001 4) 60 100000.

(** The handle of the eviction thread is left out.
    src: crates/pulsing-actor/src/policies/cache_aware.rs 62-66 CacheAwarePolicy *)
Record CacheAwarePolicy := mk_ca { ca_config : CacheAwareConfig; trees : gmap (list Z) Tree; readings : nat }.
(** The thread that evicts runs [evict_cache], from time to time.
    src: crates/pulsing-actor/src/policies/cache_aware.rs 101-106 with_config *)
Definition ca_with_config (c : CacheAwareConfig) : CacheAwarePolicy := mk_ca c ∅ 0.

(** src: crates/pulsing-actor/src/policies/cache_aware.rs 209-214 select_worker_with_headers (key) *)
Definition tree_key (model_id : str) : str :=
  if bool_decide (model_id = []) || bool_decide (model_id = lit "unknown") then "default" else model_id.
Definition the_tree (k : str) (p : CacheAwarePolicy) : Tree := default Tree_new (trees p !! k).
Definition set_tree (k : str) (t : Tree) (p : CacheAwarePolicy) : CacheAwarePolicy :=
  mk_ca (ca_config p) (<[k := t]> (trees p)) (S (readings p)).

Section CacheAware.
Context `{Oracle} (clock : nat → Z).

(** [entry(key).or_insert_with(Tree::new).insert(text, url)]. *)
Definition insert_text (key : str) (s : str) (worker_url : str) (p : CacheAwarePolicy) : CacheAwarePolicy :=
  set_tree key (insert (clock (readings p)) s worker_url (the_tree key p)) p.

(** ** Workers come and go *)
Section Workers.
Context `{Worker W}.
(** Models in any order, the workers of a model in theirs.
    src: crates/pulsing-actor/src/policies/cache_aware.rs 206-216 select_worker_with_headers (groups) *)
Definition group_by_model (ws : list W) (idxs : list nat) : gmap (list Z) (list nat) :=
  foldl (λ g i,
    match ws !! i with
    | Some w => let k := tree_key (model_id w) in <[k := default [] (g !! k) ++ [i]]> g
    | None => g
    end) ∅ idxs.
(** src: crates/pulsing-actor/src/policies/cache_aware.rs 109-131 init_workers *)
Definition init_workers (ws : list W) (p : CacheAwarePolicy) : CacheAwarePolicy :=
  foldl (λ p (g : list Z * list nat),
    foldl (λ p i, match ws !! i with Some w => insert_text g.1 [] (url w) p | None => p end) p g.2)
    p (hm_iter (group_by_model ws (seq 0 (length ws)))).
(** src: crates/pulsing-actor/src/policies/cache_aware.rs 134-145 add_worker *)
Definition add_worker (w : W) (p : CacheAwarePolicy) : CacheAwarePolicy := insert_text (tree_key (model_id w)) [] (url w) p.
(** src: crates/pulsing-actor/src/policies/cache_aware.rs 148-153 add_worker_by_url *)
Definition add_worker_by_url (u model : str) (p : CacheAwarePolicy) : CacheAwarePolicy := insert_text model [] u p.
(** [None] is out of fuel, which [remove_tenant] never is.
    src: crates/pulsing-actor/src/policies/cache_aware.rs 156-168 remove_worker *)
Definition remove_worker (w : W) (p : CacheAwarePolicy) : option CacheAwarePolicy :=
  match trees p !! tree_key (model_id w) with
  | Some tr => tr ← remove_tenant (url w) tr; Some (mk_ca (ca_config p) (<[tree_key (model_id w) := tr]> (trees p)) (readings p))
  | None => Some p
  end.
End Workers.
Definition each_tree (f : Tree → option Tree) (p : CacheAwarePolicy) : option CacheAwarePolicy :=
  ts ← foldr (λ (kt : list Z * Tree) acc, ts ← acc; t ← f kt.2; Some (<[kt.1 := t]> ts)) (Some (trees p)) (hm_iter (trees p));
  Some (mk_ca (ca_config p) ts (readings p)).
(** src: crates/pulsing-actor/src/policies/cache_aware.rs 171-177 remove_worker_by_url *)
Definition remove_worker_by_url (u : str) : CacheAwarePolicy → option CacheAwarePolicy := each_tree (remove_tenant u).
(** src: crates/pulsing-actor/src/policies/cache_aware.rs 180-190 evict_cache *)
Definition evict_cache (max_size : Z) : CacheAwarePolicy → option CacheAwarePolicy := each_tree (evict_tenant_by_size max_size).

(** ** Choosing a worker *)
Context `{Worker W}.

Definition load_of (ws : list W) (i : nat) : Z := from_option load 0 (ws !! i).
(** [min_by_key], which takes the first of equal ones. *)
Definition least_loaded (ws : list W) (idxs : list nat) : option nat :=
  foldl (λ best i, match best with Some b => if load_of ws i <? load_of ws b then Some i else Some b | None => Some i end) None idxs.
(** Of all workers, also those that are not healthy.
    src: crates/pulsing-actor/src/policies/cache_aware.rs 218-225 select_worker_with_headers (balance) *)
Definition is_imbalanced (c : CacheAwareConfig) (ws : list W) : bool :=
  let loads := load <$> ws in
  let max_load := foldr Z.max 0 loads in
  let min_load := match loads with [] => 0 | l :: loads => foldr Z.min l loads end in
  (balance_abs_threshold c <? saturating_sub max_load min_load) &&
  SFltb (f32_mul (f32_of_Z min_load) (balance_rel_threshold c)) (f32_of_Z max_load).
Definition match_rate (matched s : str) : float :=
  if bool_decide (s = []) then S754_zero false else f32_div (f32_of_Z (Z.of_nat (length matched))) (f32_of_Z (Z.of_nat (length s))).
Definition has_url (ws : list W) (u : str) (i : nat) : bool := bool_decide (url <$> ws !! i = Some u).
(** One model: its tree is asked, and its worker is taken when its match is the
    longest yet.
    src: crates/pulsing-actor/src/policies/cache_aware.rs 264-283 select_worker_with_headers (match) *)
Definition better_match (ws : list W) (s : str) (acc : CacheAwarePolicy * option nat * float) (g : list Z * list nat)
    : CacheAwarePolicy * option nat * float :=
  let '(p, best, rate) := acc in
  let '(matched, matched_worker, tr) := prefix_match (clock (readings p)) s (the_tree g.1 p) in
  let p := set_tree g.1 tr p in
  let r := match_rate matched s in
  if SFltb rate r then
    match filter (has_url ws matched_worker) g.2 with i :: _ => (p, Some i, r) | [] => (p, best, rate) end
  else (p, best, rate).
(** src: crates/pulsing-actor/src/policies/cache_aware.rs 299-306 select_worker_with_headers (smallest tree) *)
Definition smaller_tree (acc : CacheAwarePolicy * str * Z) (g : list Z * list nat) : CacheAwarePolicy * str * Z :=
  let '(p, model, size) := acc in
  let p := mk_ca (ca_config p) (<[g.1 := the_tree g.1 p]> (trees p)) (readings p) in
  let n := foldr (λ a b, a +w b) 0 (hm_values (get_used_size_per_tenant (the_tree g.1 p))) in
  if n <? size then (p, g.1, n) else (p, model, size).
Definition insert_for (ws : list W) (i : nat) (s : str) (p : CacheAwarePolicy) : CacheAwarePolicy :=
  match ws !! i with Some w => insert_text (tree_key (model_id w)) s (url w) p | None => p end.
(** src: crates/pulsing-actor/src/policies/cache_aware.rs 256-331 select_worker_with_headers (balanced) *)
Definition select_cached (ws : list W) (healthy : list nat) (s : str) (p : CacheAwarePolicy) : option nat * CacheAwarePolicy :=
  let groups := group_by_model ws healthy in
  let '(p, best, rate) := foldl (better_match ws s) (p, None, S754_zero false) (hm_iter groups) in
  let fallback := default O (head healthy) in
  let '(p, selected) :=
    match best, SFltb (cache_threshold (ca_config p)) rate with
    | Some i, true => (p, i)
    | _, _ =>
        let '(p, model, _) := foldl smaller_tree (p, [], two64 - 1) (hm_iter groups) in
        (p, match groups !! model with Some idxs => default fallback (least_loaded ws idxs) | None => fallback end)
    end in
  (Some selected, insert_for ws selected s p).
(** src: crates/pulsing-actor/src/policies/cache_aware.rs 194-335 select_worker_with_headers *)
Definition ca_select (p : CacheAwarePolicy) (ws : list W) (request_text : option str) (_ : option RequestHeaders) : option nat * CacheAwarePolicy :=
  let healthy := get_healthy_worker_indices ws in
  if bool_decide (healthy = []) then (None, p)
  else if is_imbalanced (ca_config p) ws then
    match least_loaded ws healthy with
    | None => (None, p)
    | Some i => (Some i, match request_text with Some s => insert_for ws i s p | None => p end)
    end
  else select_cached ws healthy (default [] request_text) p.
(** The worker that decodes is the least loaded one.
    src: crates/pulsing-actor/src/policies/cache_aware.rs 358-384 select_worker_pair_with_headers *)
Definition ca_select_pair (p : CacheAwarePolicy) (prefill decode : list W) (request_text : option str) (headers : option RequestHeaders)
    : option (nat * nat) * CacheAwarePolicy :=
  match ca_select p prefill request_text headers with
  | (None, p) => (None, p)
  | (Some i, p) => (match least_loaded decode (get_healthy_worker_indices decode) with Some j => Some (i, j) | None => None end, p)
  end.
End CacheAware.

#[export] Instance cache_aware_policy `{Oracle} (clock : nat → Z) : LoadBalancingPolicy CacheAwarePolicy := {
  select_worker_with_headers W HW := ca_select clock;
  policy_name := "cache_aware"; needs_request_text := true; needs_headers := false;
  policy_reset p := p; update_loads _ p := p }.

(** ** Properties of the cache-aware policy

    It obeys the law of the policies; a text that was sent to a worker is sent
    there again, as long as the load is balanced; out of balance the least
    loaded worker is taken, and a worker that is down counts for the balance. *)
(** ** Times of access *)

Lemma older_weaken now now' n : now <= now' → older now n → older now' n.
Proof. intros Hle. induction 1 as [n H1 H2 IH]. constructor; [|done]. intros t x Hx. specialize (H1 t x Hx). lia. Qed.
Lemma older_marked b now t n : now < b → older b n → older b (mark now t n).
Proof.
  intros Hlt Ho. inversion Ho as [? H1 H2]; subst. constructor; [|done]. intros u x. simpl. rewrite lookup_insert.
  case_decide; [intros [= <-]; done|apply H1].
Qed.
Lemma older_refresh b now t n : now < b → older b n → older b (refresh now t n).
Proof. intros. unfold refresh. case_bool_decide; [done|by apply older_marked]. Qed.
Lemma older_set_child b c m n : older b n → older b m → older b (set_child c m n).
Proof.
  intros Ho Hm. inversion Ho as [? H1 H2]; subst. constructor; [done|]. intros c' m'. simpl. rewrite lookup_insert.
  case_decide; [by intros [= <-]|apply H2].
Qed.
Lemma older_child b c m n : older b n → children n !! c = Some m → older b m.
Proof. inversion 1; subst. eauto. Qed.

Lemma older_match `{Oracle} fuel b now rest n : now < b → older b n → older b (match_below fuel now rest n).2.
Proof.
  intros Hlt. revert rest n. induction fuel as [|fuel IH]; intros rest n Ho; [destruct rest; by apply older_refresh|].
  destruct rest as [|c r]; [by apply older_refresh|]. cbn [match_below]. destruct (children n !! c) as [m|] eqn:Hc; [|by apply older_refresh].
  pose proof (older_child _ _ _ _ Ho Hc) as Hm.
  destruct (_ =? _)%nat.
  - specialize (IH (drop (shared_prefix_count (text m) (c :: r)) (c :: r)) m Hm). destruct (match_below _ _ _ m) as [[k t] m']. simpl in *.
    apply older_refresh; [done|]. by apply older_set_child.
  - simpl. apply older_refresh; [done|]. apply older_set_child; [done|]. by apply older_refresh.
Qed.
Lemma older_insert fuel b now t rest n : now < b → older b n → older b (insert_below fuel now t rest n).1.
Proof.
  intros Hlt. revert rest n. induction fuel as [|fuel IH]; intros rest n Ho; [by destruct rest|].
  destruct rest as [|c r]; [done|]. destruct (children n !! c) as [m|] eqn:Hc.
  - rewrite (insert_below_step fuel now t c r n m Hc). cbv zeta. cbn [fst]. apply older_set_child; [done|]. apply IH.
    apply older_marked; [done|]. apply older_next. by eapply older_child.
  - cbn [insert_below]. rewrite Hc. cbn [fst]. apply older_set_child; [done|]. constructor; simpl; [|intros ??; by rewrite lookup_empty].
    intros u x [_ <-]%lookup_singleton_Some. done.
Qed.

Section Facts.
Context `{Oracle} (clock : nat → Z) (Hclock : ∀ n, clock n < clock (S n)).

(** ** The trees *)

(** Every tree is well formed, and was used before the next reading. *)
Definition ca_ok (p : CacheAwarePolicy) : Prop :=
  ∀ k, (∃ texts, tree_inv (the_tree k p) texts) ∧ older (clock (readings p)) (root (the_tree k p)).

Lemma the_set_tree k l t p : the_tree k (set_tree l t p) = if decide (k = l) then t else the_tree k p.
Proof. unfold the_tree, set_tree. simpl. rewrite lookup_insert. repeat case_decide; by simplify_eq. Qed.
Lemma new_tree_ok b : (∃ texts, tree_inv Tree_new texts) ∧ older b (root Tree_new).
Proof.
  split; [exists []; apply (tree_run_inv [])|]. constructor; intros ??; simpl; by rewrite lookup_empty.
Qed.
Lemma ca_new_ok c : ca_ok (ca_with_config c).
Proof. intros k. apply new_tree_ok. Qed.

Lemma set_tree_ok k t p : ca_ok p → (∃ texts, tree_inv t texts) → older (clock (S (readings p))) (root t) → ca_ok (set_tree k t p).
Proof.
  intros Hp Ht Ho l. rewrite the_set_tree. case_decide; [done|]. destruct (Hp l) as [? Hl]. split; [done|]. eapply older_weaken, Hl.
  simpl. pose proof (Hclock (readings p)). lia.
Qed.
Lemma older_later p k : ca_ok p → older (clock (S (readings p))) (root (the_tree k p)).
Proof. intros Hp. eapply older_weaken, Hp. pose proof (Hclock (readings p)). lia. Qed.

Lemma insert_text_ok k s u p : ca_ok p → ca_ok (insert_text clock k s u p).
Proof.
  intros Hp. destruct (Hp k) as [[texts Hi] _]. apply set_tree_ok; [done|eexists; by apply insert_inv|].
  pose proof (older_later p k Hp) as Ho. unfold insert. destruct (insert_below _ _ _ _ _) as [r n] eqn:E. simpl. change r with (r, n).1. rewrite <- E.
  apply older_insert; [done|]. by apply older_marked.
Qed.
Lemma insert_for_ok `{Worker W} (ws : list W) i s p : ca_ok p → ca_ok (insert_for clock ws i s p).
Proof. intros Hp. unfold insert_for. destruct (ws !! i); [by apply insert_text_ok|done]. Qed.
Lemma match_ok k s p : ca_ok p → ca_ok (set_tree k (prefix_match (clock (readings p)) s (the_tree k p)).2 p).
Proof.
  intros Hp. destruct (Hp k) as [[texts Hi] _]. apply set_tree_ok; [done|eexists; by apply match_inv|].
  pose proof (older_later p k Hp) as Ho. unfold prefix_match. destruct (match_below _ _ _ _) as [[j t] r] eqn:E. simpl. change r with ((j, t), r).2. rewrite <- E.
  by apply older_match.
Qed.

(** ** The choice *)
Section Choice.
Context `{Worker W}.
Implicit Types (ws : list W) (idxs : list nat).

Lemma least_loaded_spec ws idxs :
  match least_loaded ws idxs with
  | Some i => i ∈ idxs ∧ ∀ j, j ∈ idxs → load_of ws i <= load_of ws j
  | None => idxs = []
  end.
Proof. clear Hclock.
  induction idxs as [|x idxs IH] using rev_ind; [done|]. unfold least_loaded in *. rewrite foldl_app. cbn [foldl].
  destruct (foldl _ None idxs) as [b|].
  - destruct IH as [Hb Hmin]. destruct (Z.ltb_spec (load_of ws x) (load_of ws b)).
    + split; [set_solver|]. intros j [Hj| ->%list_elem_of_singleton]%elem_of_app; [|lia]. specialize (Hmin j Hj). lia.
    + split; [set_solver|]. intros j [Hj| ->%list_elem_of_singleton]%elem_of_app; [by apply Hmin|lia].
  - subst. split; [set_solver|]. intros j Hj. apply list_elem_of_singleton in Hj as ->. lia.
Qed.

(** The workers of a model, by the positions they have. *)
Definition of_model ws (k : list Z) (i : nat) : Prop := ∃ w, ws !! i = Some w ∧ tree_key (model_id w) = k.
Lemma group_spec ws idxs k i : (∃ l, group_by_model ws idxs !! k = Some l ∧ i ∈ l) ↔ i ∈ idxs ∧ of_model ws k i.
Proof. clear Hclock.
  unfold of_model. revert k. induction idxs as [|x idxs IH] using rev_ind; intros k.
  { unfold group_by_model. simpl. setoid_rewrite lookup_empty. split; [by intros (l & ? & _)|by intros [?%not_elem_of_nil _]]. }
  unfold group_by_model in *. rewrite foldl_app. cbn [foldl]. set (g := foldl _ ∅ idxs) in *. rewrite elem_of_app, list_elem_of_singleton.
  destruct (ws !! x) as [w|] eqn:Hx.
  - setoid_rewrite lookup_insert. case_decide as Hk.
    + subst k. split.
      * intros (l & [= <-] & [Hi| ->%list_elem_of_singleton]%elem_of_app); [|by eauto 6].
        destruct (g !! tree_key (model_id w)) as [l|] eqn:Hg; [|by apply not_elem_of_nil in Hi].
        destruct (proj1 (IH (tree_key (model_id w)))) as [? ?]; [exists l; split; [exact Hg|exact Hi]|]. auto.
      * intros [[Hi| ->] Hw]; eexists; (split; [done|]); [|set_solver].
        destruct (proj2 (IH (tree_key (model_id w))) (conj Hi Hw)) as (l & -> & Hl). set_solver.
    + rewrite IH. split; [intros [? ?]; auto|]. intros [[?| ->] Hw]; [done|]. destruct Hw as (w' & Hw' & Hk'). congruence.
  - rewrite IH. split; [intros [? ?]; auto|]. intros [[?| ->] Hw]; [done|]. destruct Hw as (w' & Hw' & Hk'). congruence.
Qed.

Lemma elem_of_default {A} (d x : A) (l : list A) : l ≠ [] → default d (head l) ∈ l.
Proof. clear Hclock. destruct l; [done|]. intros _. apply list_elem_of_here. Qed.

(** The worker of a longest match is one of a group. *)
Lemma best_match_in ws s gs p best rate healthy :
  (∀ g, g ∈ gs → g.2 ⊆ healthy) → (∀ i, best = Some i → i ∈ healthy) →
  ∀ i, (foldl (better_match clock ws s) (p, best, rate) gs).1.2 = Some i → i ∈ healthy.
Proof. clear Hclock.
  revert p best rate. induction gs as [|g gs IH]; intros p best rate Hgs Hbest; [done|]. cbn [foldl]. unfold better_match at 2.
  destruct (prefix_match _ _ _) as [[matched mw] tr]. assert (Hg : g.2 ⊆ healthy) by (apply Hgs; left).
  assert (Hgs' : ∀ g, g ∈ gs → g.2 ⊆ healthy) by (intros; apply Hgs; by right).
  destruct (SFltb _ _); [destruct (filter _ g.2) as [|x l] eqn:Hf|]; refine (IH _ _ _ Hgs' _); try done.
  intros i [= <-]. apply Hg. assert (Hx : x ∈ filter (has_url ws mw) g.2) by (rewrite Hf; left). by apply list_elem_of_filter in Hx as [_ ?].
Qed.

Lemma select_cached_in ws healthy s p : healthy ≠ [] → ∃ i, (select_cached clock ws healthy s p).1 = Some i ∧ i ∈ healthy.
Proof. clear Hclock.
  intros Hne. unfold select_cached. set (groups := group_by_model ws healthy).
  assert (Hgs : ∀ g, g ∈ hm_iter groups → g.2 ⊆ healthy).
  { intros [k l] Hg%elem_of_hm_iter i Hi. destruct (proj1 (group_spec ws healthy k i)) as [? _]; eauto. }
  pose proof (best_match_in ws s (hm_iter groups) p None (S754_zero false) healthy Hgs ltac:(done)) as Hbest.
  destruct (foldl (better_match clock ws s) _ _) as [[p' best] rate]. simpl in Hbest.
  set (fallback := default 0%nat (head healthy)). assert (Hfb : fallback ∈ healthy) by by apply elem_of_default.
  destruct (foldl smaller_tree _ _) as [[p2 model] n].
  assert (Hmiss : match groups !! model with Some idxs => default fallback (least_loaded ws idxs) | None => fallback end ∈ healthy).
  { destruct (groups !! model) as [l|] eqn:Hg; [|done]. pose proof (least_loaded_spec ws l) as Hl.
    destruct (least_loaded ws l) as [i|]; [|done]. destruct (proj1 (group_spec ws healthy model i)) as [? _]; [|done]. exists l. by destruct Hl. }
  destruct best as [i|]; [destruct (SFltb _ _)|]; (eexists; split; [reflexivity|]); [by apply Hbest|done..].
Qed.

(** The law of the policies. *)
Lemma ca_sound p ws text headers : sound_choice ws (ca_select clock p ws text headers).1.
Proof. clear Hclock.
  unfold ca_select. case_bool_decide as Hh; [done|]. destruct (is_imbalanced _ _).
  - pose proof (least_loaded_spec ws (get_healthy_worker_indices ws)) as Hl. destruct (least_loaded _ _) as [i|]; [|done]. by destruct Hl.
  - destruct (select_cached_in ws (get_healthy_worker_indices ws) (default [] text) p Hh) as (i & -> & Hi). done.
Qed.

(** ** The same text again *)

Definition ca_good (c : CacheAwareConfig) (p : CacheAwarePolicy) : Prop := ca_ok p ∧ ca_config p = c.
Lemma better_match_good ws s gs c p best rate : ca_good c p → ca_good c (foldl (better_match clock ws s) (p, best, rate) gs).1.1.
Proof.
  revert p best rate. induction gs as [|g gs IH]; intros p best rate Hp; [done|]. cbn [foldl]. unfold better_match at 2.
  destruct (prefix_match _ _ _) as [[matched mw] tr] eqn:E. assert (Hg : ca_good c (set_tree g.1 tr p)).
  { destruct Hp as [Hok Hc]. split; [|done]. replace tr with (prefix_match (clock (readings p)) s (the_tree g.1 p)).2 by by rewrite E. by apply match_ok. }
  destruct (SFltb _ _); [destruct (filter _ g.2)|]; by apply IH.
Qed.
Lemma smaller_tree_good gs c p model n : ca_good c p → ca_good c (foldl smaller_tree (p, model, n) gs).1.1.
Proof.
  revert p model n. induction gs as [|g gs IH]; intros p model n Hp; [done|]. cbn [foldl]. unfold smaller_tree at 2.
  set (q := mk_ca _ _ _). assert (Hq : ca_good c q).
  { destruct Hp as [Hok Hc]. split; [|done]. intros k. replace (the_tree k q) with (the_tree k p); [apply Hok|].
    unfold the_tree. simpl. rewrite lookup_insert. case_decide; [by subst|done]. }
  destruct (_ <? n); by apply IH.
Qed.

(** Whatever the reason for the choice, the text goes into the chosen worker's
    tree last. *)
Lemma select_inserts ws p s headers i p' : ca_ok p → ca_select clock p ws (Some s) headers = (Some i, p') →
  ∃ q, ca_good (ca_config p) q ∧ p' = insert_for clock ws i s q.
Proof.
  intros Hp. unfold ca_select. case_bool_decide; [done|]. destruct (is_imbalanced _ _).
  - destruct (least_loaded _ _); [|done]. intros [= <- <-]. by exists p.
  - cbn [default]. unfold select_cached. set (gs := hm_iter _). pose proof (better_match_good ws s gs (ca_config p) p None (S754_zero false) (conj Hp eq_refl)) as Hq.
    destruct (foldl (better_match _ _ _) _ _) as [[q best] rate]. simpl in Hq. pose proof (smaller_tree_good gs (ca_config p) q [] (two64 - 1) Hq) as Hq2.
    destruct (foldl smaller_tree _ _) as [[q2 model] n]. simpl in Hq2.
    destruct best; [destruct (SFltb _ _)|]; intros [= <- <-]; eauto.
Qed.

Lemma group_same ws idxs k : idxs ≠ [] → Forall (of_model ws k) idxs → group_by_model ws idxs = {[k := idxs]}.
Proof.
  intros Hne. induction idxs as [|x idxs IH] using rev_ind; [done|]. intros [Hall (w & Hw & Hk)%Forall_singleton]%Forall_app.
  unfold group_by_model in *. rewrite foldl_app. cbn [foldl]. rewrite Hw, Hk. destruct (decide (idxs = [])) as [->|Hne'].
  - simpl. by rewrite lookup_empty.
  - rewrite IH by done. rewrite lookup_singleton_eq. simpl. by rewrite insert_singleton_eq.
Qed.
Lemma hm_iter_singleton (k : list Z) (l : list nat) : hm_iter ({[k := l]} : gmap (list Z) (list nat)) = [(k, l)].
Proof. apply Permutation_singleton_r. rewrite hm_iter_perm. by rewrite map_to_list_singleton. Qed.

Lemma only_by_url ws u l i w : NoDup (url <$> ws) → ws !! i = Some w → url w = u → i ∈ l →
  ∃ l', filter (has_url ws u) l = i :: l'.
Proof.
  intros Hnd Hw Hu Hi. assert (Hin : i ∈ filter (has_url ws u) l).
  { apply list_elem_of_filter. split; [|done]. unfold has_url. rewrite Hw. apply Is_true_eq_left, bool_decide_eq_true. simpl. by rewrite Hu. }
  destruct (filter _ l) as [|j l'] eqn:Hf; [by apply not_elem_of_nil in Hin|]. exists l'. f_equal.
  assert (Hj : j ∈ filter (has_url ws u) l) by (rewrite Hf; apply list_elem_of_here). apply list_elem_of_filter in Hj as [Hj _].
  apply Is_true_eq_true, bool_decide_eq_true in Hj. eapply (NoDup_lookup (url <$> ws)); [done| |]; rewrite list_lookup_fmap; [exact Hj|]. by rewrite Hw, <- Hu.
Qed.

(** A match of the whole text counts as a hit. *)
Definition full_match_hits (c : CacheAwareConfig) (s : str) : Prop :=
  SFltb (S754_zero false) (match_rate s s) = true ∧ SFltb (cache_threshold c) (match_rate s s) = true.

(** A request follows the last one with the same text: whether that one was
    placed by its prefix, by the size of the trees or by the load, and whatever
    text came before it, the same worker is chosen again, as long as it is
    healthy and the load is balanced, when all workers serve one model. *)
Theorem same_text_same_worker p ws ws' s headers headers' i p' w w' :
  ca_ok p → s ≠ [] → full_match_hits (ca_config p) s → ca_select clock p ws (Some s) headers = (Some i, p') →
  ws !! i = Some w → ws' !! i = Some w' → url w' = url w → i ∈ get_healthy_worker_indices ws' → NoDup (url <$> ws') →
  Forall (λ v, tree_key (model_id v) = tree_key (model_id w)) ws' → is_imbalanced (ca_config p) ws' = false →
  ∃ p'', ca_select clock p' ws' (Some s) headers' = (Some i, p'') ∧ ca_ok p''.
Proof.
  intros Hp Hs [Hr0 Hr1] Hsel Hw Hw' Hu Hi Hnd Hk Hbal. apply select_inserts in Hsel as (q & [Hq Hc] & ->); [|done].
  unfold insert_for. rewrite Hw. set (k := tree_key (model_id w)) in *. set (p1 := insert_text clock k s (url w) q).
  assert (Hp1 : ca_ok p1) by by apply insert_text_ok. unfold ca_select. rewrite bool_decide_false by (intros E; rewrite E in Hi; by apply not_elem_of_nil in Hi).
  change (ca_config p1) with (ca_config q). rewrite Hc, Hbal. change (default [] (Some s)) with s. unfold select_cached.
  rewrite (group_same ws' _ k).
  2: { intros E. rewrite E in Hi. by apply not_elem_of_nil in Hi. }
  2: { apply Forall_forall. intros j (v & Hv & _)%elem_of_healthy. exists v. split; [done|]. rewrite Forall_lookup in Hk. by eapply Hk. }
  assert (Htree : the_tree k p1 = insert (clock (readings q)) s (url w) (the_tree k q)) by (unfold p1, insert_text; by rewrite the_set_tree, decide_True).
  rewrite hm_iter_singleton. cbn [foldl]. unfold better_match. cbn [fst snd]. rewrite Htree.
  destruct (Hq k) as [[texts Hinv] Hold].
  pose proof (inserted_text_found (clock (readings q)) (clock (readings p1)) s (url w) (the_tree k q) texts Hinv Hold) as Hf.
  destruct (prefix_match _ _ _) as [[matched mw] tr] eqn:Em. simpl in Hf. injection Hf as -> ->.
  rewrite Hr0. destruct (only_by_url ws' (url w) (get_healthy_worker_indices ws') i w' Hnd Hw' Hu Hi) as [l' ->].
  change (ca_config (set_tree k tr p1)) with (ca_config q). rewrite Hc, Hr1. eexists. split; [reflexivity|]. apply insert_for_ok.
  replace tr with (prefix_match (clock (readings p1)) s (the_tree k p1)).2; [by apply match_ok|].
  by rewrite Htree, Em.
Qed.

(** Out of balance, the least loaded of the healthy workers is taken, whatever the
    text; it is then the worker the text is remembered for. *)
Lemma imbalanced_takes_least p ws text headers i p' : is_imbalanced (ca_config p) ws = true →
  ca_select clock p ws text headers = (Some i, p') →
  i ∈ get_healthy_worker_indices ws ∧ ∀ j, j ∈ get_healthy_worker_indices ws → load_of ws i <= load_of ws j.
Proof.
  intros Hb. unfold ca_select. case_bool_decide; [done|]. rewrite Hb. pose proof (least_loaded_spec ws (get_healthy_worker_indices ws)) as Hl.
  destruct (least_loaded _ _); [|done]. by intros [= <- _].
Qed.
End Choice.
End Facts.

#[export] Instance cache_aware_sound `{Oracle} (clock : nat → Z) : @PolicySound CacheAwarePolicy (cache_aware_policy clock).
Proof. intros W HW p ws text headers. apply ca_sound. Qed.

(** ** Examples *)
Definition seconds (n : nat) : Z := Z.of_nat n.
Definition w1 : BasicWorker := mk_worker_basic "http://w1" "default" true 3 0.
Definition w2 : BasicWorker := mk_worker_basic "http://w2" "unknown" true 2 0.
Definition w1_idle : BasicWorker := mk_worker_basic "http://w1" "default" true 0 0.
Lemma same_text_same_worker_witness :
  let p := init_workers seconds [w1; w2] (ca_with_config CacheAwareConfig_default) in
  ∃ p', ca_select seconds p [w1; w2] (Some (lit "hello")) None = (Some 1%nat, p') ∧
    ∃ p'', ca_select seconds p' [w1_idle; w2] (Some (lit "hello")) None = (Some 1%nat, p'') ∧ ca_ok seconds p''.
Proof.
  assert (Hs : ∀ n, seconds n < seconds (S n)) by (intros n; unfold seconds; lia).
  assert (Hp : ca_ok seconds (init_workers seconds [w1; w2] (ca_with_config CacheAwareConfig_default))).
  { change (init_workers seconds [w1; w2] (ca_with_config CacheAwareConfig_default)) with
      (insert_text seconds "default" [] "http://w2" (insert_text seconds "default" [] "http://w1" (ca_with_config CacheAwareConfig_default))).
    do 2 (apply insert_text_ok; [done|]). apply ca_new_ok. }
  eexists. split; [by vm_compute|].
  eapply (same_text_same_worker seconds Hs _ [w1; w2] [w1_idle; w2] (lit "hello") None None 1%nat _ w2 w2 Hp);
    [done|by split; vm_compute|by vm_compute|done|done|done|by apply (bool_decide_unpack _); vm_compute|by apply (bool_decide_unpack _); vm_compute|by repeat constructor|by vm_compute].
Defined.

(** A worker that is down and idle counts as the least load: with the healthy
    workers equally loaded, no request is placed by its prefix any more. *)
Definition down : BasicWorker := mk_worker_basic "http://w3" "default" false 0 0.
Definition busy (u : string) : BasicWorker := mk_worker_basic u "default" true 40 0.
Example idle_dead_worker_unbalances :
  is_imbalanced CacheAwareConfig_default [busy "http://w1"; busy "http://w2"] = false ∧
  is_imbalanced CacheAwareConfig_default [busy "http://w1"; busy "http://w2"; down] = true.
Proof. by split; vm_compute. Qed.
