(* ===== verification/Json.v ===== *)
(** * JSON values

    [serde_json::Value] and the accessors the program calls. An object is the
    list of its members by ascending key, as in the library's [BTreeMap]; a
    number is kept as its text. *)
From S2P Require Import Prelude Text.

Inductive Value :=
  | Null
  | Boolean (b : bool)
  | Number (text : str)
  | Text (s : str)
  | Array (items : list Value)
  | Object (members : list (str * Value)).

(** Values are compared by structure. *)
Fixpoint value_eqb (a b : Value) : bool :=
  match a, b with
  | Null, Null => true
  | Boolean x, Boolean y => Bool.eqb x y
  | Number x, Number y | Text x, Text y => bool_decide (x = y)
  | Array xs, Array ys =>
      (fix go xs ys := match xs, ys with
        | [], [] => true
        | x :: xs, y :: ys => value_eqb x y && go xs ys
        | _, _ => false
        end) xs ys
  | Object xs, Object ys =>
      (fix go xs ys := match xs, ys with
        | [], [] => true
        | (k, x) :: xs, (l, y) :: ys => bool_decide (k = l) && value_eqb x y && go xs ys
        | _, _ => false
        end) xs ys
  | _, _ => false
  end.

Definition as_object (v : Value) : option (list (str * Value)) := match v with Object m => Some m | _ => None end.
Definition as_array (v : Value) : option (list Value) := match v with Array a => Some a | _ => None end.
Definition as_str (v : Value) : option str := match v with Text s => Some s | _ => None end.
Definition as_bool (v : Value) : option bool := match v with Boolean b => Some b | _ => None end.
(** [Value::as_u64]: the numbers of JSON that are written as one. *)
Definition as_u64 (v : Value) : option Z := match v with Number t => parse_unsigned two64 t | _ => None end.
Definition is_null (v : Value) : bool := match v with Null => true | _ => false end.

Fixpoint member (k : str) (m : list (str * Value)) : option Value :=
  match m with
  | [] => None
  | (k', v) :: m => if bool_decide (k = k') then Some v else member k m
  end.
(** [Value::get] with a key. *)
Definition get (k : str) (v : Value) : option Value := as_object v ≫= member k.
Definition get_str (k : str) (v : Value) : option str := get k v ≫= as_str.

(** Text is ordered by its scalar values. *)
Fixpoint str_ltb (a b : str) : bool :=
  match a, b with
  | _, [] => false
  | [], _ => true
  | x :: a, y :: b => if x <? y then true else if x =? y then str_ltb a b else false
  end.
(** [Map::insert]. *)
Fixpoint member_insert (k : str) (v : Value) (m : list (str * Value)) : list (str * Value) :=
  match m with
  | [] => [(k, v)]
  | (k', v') :: m' =>
      if bool_decide (k = k') then (k, v) :: m'
      else if str_ltb k k' then (k, v) :: m else (k', v') :: member_insert k v m'
  end.
Definition contains (a : list Value) (v : Value) : bool := existsb (value_eqb v) a.

Lemma member_insert_eq k v m : member k (member_insert k v m) = Some v.
Proof.
  induction m as [|[k' v'] m IH]; simpl; [by rewrite bool_decide_true|].
  case_bool_decide; simpl; [by rewrite bool_decide_true|]. destruct (str_ltb k k'); simpl.
  - by rewrite bool_decide_true.
  - by rewrite bool_decide_false.
Qed.
Lemma member_insert_ne k l v m : l ≠ k → member l (member_insert k v m) = member l m.
Proof.
  intros Hne. induction m as [|[k' v'] m IH]; simpl; [by rewrite bool_decide_false|].
  case_bool_decide as Hk; simpl.
  - subst k'. by rewrite !(bool_decide_false (l = k)).
  - destruct (str_ltb k k'); simpl; [by rewrite (bool_decide_false (l = k))|]. by rewrite IH.
Qed.

(** ** Literals: [json!] with an object, and text *)
Definition json (m : list (string * Value)) : Value := Object (foldl (λ acc kv, member_insert (lit kv.1) kv.2 acc) [] m).
Definition text (s : string) : Value := Text (lit s).
(** [entry(k).or_insert(v)]. *)
Definition or_insert (k : str) (v : Value) (m : list (str * Value)) : list (str * Value) :=
  match member k m with Some _ => m | None => member_insert k v m end.

(** ** The order of strings: their bytes, which is that of their scalar values *)
Definition str_le (a b : str) : Prop := str_ltb b a = false.
#[global] Instance str_le_dec a b : Decision (str_le a b).
Proof. unfold str_le. apply _. Defined.
#[global] Instance str_le_total : Total str_le.
Proof.
  intros a. unfold str_le. induction a as [|x a IH]; intros [|y b]; simpl; auto.
  destruct (Z.ltb_spec y x), (Z.ltb_spec x y), (Z.eqb_spec y x), (Z.eqb_spec x y); try lia; auto.
Qed.
#[global] Instance str_le_anti : AntiSymm (=) str_le.
Proof.
  intros a. unfold str_le. induction a as [|x a IH]; intros [|y b]; simpl; try done.
  destruct (Z.ltb_spec y x), (Z.ltb_spec x y), (Z.eqb_spec y x), (Z.eqb_spec x y); try lia; try done.
  intros H1 H2. subst. f_equal. by apply IH.
Qed.
#[global] Instance str_le_trans : Transitive str_le.
Proof.
  intros a. unfold str_le. induction a as [|x a IH]; intros [|y b] [|z c]; simpl; try done.
  destruct (Z.ltb_spec y x), (Z.ltb_spec z y), (Z.ltb_spec z x), (Z.eqb_spec y x), (Z.eqb_spec z y), (Z.eqb_spec z x); try lia; try done.
  apply IH.
Qed.
#[global] Instance str_le_refl : Reflexive str_le.
Proof. intros a. by destruct (str_le_total a a). Qed.

(** ** A serializer *)
(** One that reads back what it writes: a value is a tree of texts, and a tree is
    a number. It shows that what is asked of [serde_json] can hold. *)
Module Written.
Fixpoint tree_of (v : Value) : gen_tree str :=
  match v with
  | Null => GenNode 0 []
  | Boolean b => GenNode (if b then 1%nat else 2%nat) []
  | Number t => GenNode 3 [GenLeaf t]
  | Text t => GenNode 4 [GenLeaf t]
  | Array l => GenNode 5 (tree_of <$> l)
  | Object m => GenNode 6 ((λ kv, GenNode 7 [GenLeaf kv.1; tree_of kv.2]) <$> m)
  end.
Fixpoint of_tree (t : gen_tree str) : Value :=
  match t with
  | GenNode 1 _ => Boolean true
  | GenNode 2 _ => Boolean false
  | GenNode 3 [GenLeaf t] => Number t
  | GenNode 4 [GenLeaf t] => Text t
  | GenNode 5 l => Array (of_tree <$> l)
  | GenNode 6 l => Object ((λ t, match t with GenNode _ [GenLeaf k; v] => (k, of_tree v) | _ => ([], Null) end) <$> l)
  | _ => Null
  end.
Lemma of_tree_of : ∀ v, of_tree (tree_of v) = v.
Proof.
  fix IH 1. intros [|[]|t|t|l|m]; try reflexivity; cbn; f_equal.
  - induction l as [|v l IHl]; [done|]. cbn. by rewrite IH, IHl.
  - induction m as [|[k v] m IHm]; [done|]. cbn. by rewrite IH, IHm.
Qed.
Definition written (v : Value) : str := [Z.pos (countable.encode (tree_of v))].
Definition read_written (b : str) : Result Value str :=
  match b with [Z.pos p] => match countable.decode p with Some t => Ok (of_tree t) | None => Err [] end | _ => Err [] end.
Lemma written_reads_back v : read_written (written v) = Ok v.
Proof. unfold read_written, written. by rewrite countable.decode_encode, of_tree_of. Qed.
End Written.
