(* ===== verification/Errors.v ===== *)
(** * Errors and their texts

    [error.rs] of the actor runtime: the errors of the framework and of actors,
    and what they print. The texts matter: whether a request is sent again is
    decided on them. *)
From S2P Require Import Prelude Text.

(** src: crates/pulsing-actor/src/error.rs 107-235 RuntimeError *)
Inductive RuntimeError :=
  | ActorNotFound (name : str) | ActorAlreadyExistsErr (name : str) | ActorNotLocal (name : str)
  | ActorStopped (name : str) | ActorMailboxFull (name : str) | InvalidActorPathErr (path : str)
  | MessageTypeMismatch (expected actual : str) | ActorSpawnFailed (reason : str)
  | ConnectionFailed (addr reason : str) | ConnectionClosed (reason : str) | RequestTimeout (timeout_ms : Z)
  | InvalidResponse (reason : str) | TlsError (reason : str) | ProtocolError (reason : str)
  | ClusterNotInitialized | NodeNotFoundErr (node_id : str) | NamedActorNotFoundErr (path : str)
  | NoHealthyInstancesErr (path : str) | JoinFailed (reason : str) | GossipError (reason : str)
  | InvalidConfigValue (field value reason : str) | MissingRequiredConfig (field : str)
  | ConflictingConfig (reason : str) | InvalidAddress (addr reason : str)
  | Io (e : str) | Serialization (e : str) | Other (e : str).

(** [{0}] of the attributes, by [thiserror]. *)
Definition display_runtime (e : RuntimeError) : str :=
  match e with
  | ActorNotFound name => lit "Actor not found: " ++ name
  | ActorAlreadyExistsErr name => lit "Actor already exists: " ++ name
  | ActorNotLocal name => lit "Actor is not local: " ++ name
  | ActorStopped name => lit "Actor stopped: " ++ name
  | ActorMailboxFull name => lit "Actor mailbox full: " ++ name
  | InvalidActorPathErr path => lit "Invalid actor path: " ++ path
  | MessageTypeMismatch expected actual => lit "Message type mismatch: expected " ++ expected ++ lit ", got " ++ actual
  | ActorSpawnFailed reason => lit "Failed to spawn actor: " ++ reason
  | ConnectionFailed addr reason => lit "Connection failed to " ++ addr ++ lit ": " ++ reason
  | ConnectionClosed reason => lit "Connection closed: " ++ reason
  | RequestTimeout timeout_ms => lit "Request timeout after " ++ display_u128 timeout_ms ++ lit "ms"
  | InvalidResponse reason => lit "Invalid response: " ++ reason
  | TlsError reason => lit "TLS error: " ++ reason
  | ProtocolError reason => lit "Protocol error: " ++ reason
  | ClusterNotInitialized => lit "Cluster not initialized"
  | NodeNotFoundErr node_id => lit "Node not found: " ++ node_id
  | NamedActorNotFoundErr path => lit "Named actor not found: " ++ path
  | NoHealthyInstancesErr path => lit "No healthy instances for: " ++ path
  | JoinFailed reason => lit "Failed to join cluster: " ++ reason
  | GossipError reason => lit "Gossip error: " ++ reason
  | InvalidConfigValue field value reason => lit "Invalid configuration: " ++ field ++ lit " = " ++ value ++ lit " (" ++ reason ++ lit ")"
  | MissingRequiredConfig field => lit "Missing required configuration: " ++ field
  | ConflictingConfig reason => lit "Conflicting configuration: " ++ reason
  | InvalidAddress addr reason => lit "Invalid address '" ++ addr ++ lit "': " ++ reason
  | Io e => lit "I/O error: " ++ e
  | Serialization e => lit "Serialization error: " ++ e
  | Other e => e
  end.

(** src: crates/pulsing-actor/src/error.rs 417-447 kind *)
Definition kind (e : RuntimeError) : str :=
  match e with
  | ActorNotFound _ => "actor_not_found"
  | ActorAlreadyExistsErr _ => "actor_already_exists"
  | ActorNotLocal _ => "actor_not_local"
  | ActorStopped _ => "actor_stopped"
  | ActorMailboxFull _ => "actor_mailbox_full"
  | InvalidActorPathErr _ => "invalid_actor_path"
  | MessageTypeMismatch _ _ => "message_type_mismatch"
  | ActorSpawnFailed _ => "actor_spawn_failed"
  | ConnectionFailed _ _ => "connection_failed"
  | ConnectionClosed _ => "connection_closed"
  | RequestTimeout _ => "request_timeout"
  | InvalidResponse _ => "invalid_response"
  | TlsError _ => "tls_error"
  | ProtocolError _ => "protocol_error"
  | ClusterNotInitialized => "cluster_not_initialized"
  | NodeNotFoundErr _ => "node_not_found"
  | NamedActorNotFoundErr _ => "named_actor_not_found"
  | NoHealthyInstancesErr _ => "no_healthy_instances"
  | JoinFailed _ => "join_failed"
  | GossipError _ => "gossip_error"
  | InvalidConfigValue _ _ _ => "invalid_config_value"
  | MissingRequiredConfig _ => "missing_required_config"
  | ConflictingConfig _ => "conflicting_config"
  | InvalidAddress _ _ => "invalid_address"
  | Io _ => "io_error"
  | Serialization _ => "serialization_error"
  | Other _ => "other"
  end.

(** src: crates/pulsing-actor/src/error.rs 450-459 actor_name *)
Definition actor_name (e : RuntimeError) : option str :=
  match e with
  | ActorNotFound name | ActorAlreadyExistsErr name | ActorNotLocal name | ActorStopped name | ActorMailboxFull name => Some name
  | _ => None
  end.

(** src: crates/pulsing-actor/src/error.rs 472-498 ActorError *)
Inductive ActorError :=
  | Business (code : Z) (message : str) (details : option str)
  | System (error : str) (recoverable : bool)
  | Timeout (operation : str) (duration_ms : Z)
  | Unsupported (operation : str).
Definition display_actor (e : ActorError) : str :=
  match e with
  | Business code message _ => lit "Business error [" ++ display_u128 code ++ lit "]: " ++ message
  | System error _ => lit "System error: " ++ error
  | Timeout operation duration_ms => lit "Timeout: operation '" ++ operation ++ lit "' timed out after " ++ display_u128 duration_ms ++ lit "ms"
  | Unsupported operation => lit "Unsupported operation: " ++ operation
  end.
(** src: crates/pulsing-actor/src/error.rs 539-546 is_recoverable *)
Definition is_recoverable (e : ActorError) : bool :=
  match e with Business _ _ _ => true | System _ recoverable => recoverable | Timeout _ _ => true | Unsupported _ => false end.

(** src: crates/pulsing-actor/src/error.rs 70-79 PulsingError *)
Inductive PulsingError := Runtime (e : RuntimeError) | Actor (e : ActorError).
Definition display (e : PulsingError) : str :=
  match e with Runtime e => lit "Runtime error: " ++ display_runtime e | Actor e => lit "Actor error: " ++ display_actor e end.
(** src: crates/pulsing-actor/src/error.rs 83-85 is_runtime *)
Definition is_runtime (e : PulsingError) : bool := match e with Runtime _ => true | Actor _ => false end.
(** src: crates/pulsing-actor/src/error.rs 88-90 is_actor *)
Definition is_actor (e : PulsingError) : bool := match e with Actor _ => true | Runtime _ => false end.
