(* ===== verification/Output.v ===== *)
(** * The output of commands

    [crates/pulsing-forge/src/exec_output.rs]: the rolling buffer of a session, the
    decoder that turns what is read from a process into text, and the limits.
    Bytes become text by the rules of [String::from_utf8_lossy]. *)
From S2P Require Import Prelude Text Bytes Float Json.

(** ** [core::str]

    The length of a character by its first byte; 0 for a byte that starts none. *)
Definition utf8_char_width (b : Z) : Z :=
  if b <? 128 then 1 else if b <? 194 then 0 else if b <? 224 then 2 else if b <? 240 then 3 else if b <? 245 then 4 else 0.
(** What may follow the first byte of a character of three or four. *)
Definition second_ok (b0 b1 : Z) : bool :=
  continuation b1 && (if b0 =? 224 then 160 <=? b1 else if b0 =? 237 then b1 <? 160
                      else if b0 =? 240 then 144 <=? b1 else if b0 =? 244 then b1 <? 144 else true).
(** The next character with its length, or the length of the part that is none. *)
Definition next_char (bs : bytes) : nat * option Z :=
  match bs with
  | [] => (0%nat, None)
  | b0 :: r =>
      let w := utf8_char_width b0 in
      if w =? 1 then (1%nat, Some b0)
      else if w =? 2 then
        match r with
        | b1 :: _ => if continuation b1 then (2%nat, Some ((b0 - 192) * 64 + (b1 - 128))) else (1%nat, None)
        | [] => (1%nat, None)
        end
      else if w =? 0 then (1%nat, None)
      else match r with
      | b1 :: r =>
          if second_ok b0 b1 then
            match r with
            | b2 :: r =>
                if continuation b2 then
                  if w =? 3 then (3%nat, Some ((b0 - 224) * 4096 + (b1 - 128) * 64 + (b2 - 128)))
                  else match r with
                  | b3 :: _ =>
                      if continuation b3 then (4%nat, Some ((b0 - 240) * 262144 + (b1 - 128) * 4096 + (b2 - 128) * 64 + (b3 - 128)))
                      else (3%nat, None)
                  | [] => (3%nat, None)
                  end
                else (2%nat, None)
            | [] => (2%nat, None)
            end
          else (1%nat, None)
      | [] => (1%nat, None)
      end
  end.
(** [String::from_utf8_lossy]. Every round takes a byte, so the length is fuel
    enough. *)
Fixpoint lossy (fuel : nat) (bs : bytes) : str :=
  match bs, fuel with
  | [], _ | _, O => []
  | _, S fuel => let '(n, c) := next_char bs in default 65533 c :: lossy fuel (drop n bs)
  end.
Definition from_utf8_lossy (bs : bytes) : str := lossy (length bs) bs.
(** [Utf8Error::valid_up_to]. *)
Fixpoint valid_bytes (fuel : nat) (bs : bytes) : nat :=
  match fuel with
  | O => 0%nat
  | S fuel => match next_char bs with (n, Some _) => (n + valid_bytes fuel (drop n bs))%nat | (_, None) => 0%nat end
  end.
Definition valid_up_to (bs : bytes) : nat := valid_bytes (length bs) bs.

(** [str::is_char_boundary] and [&s[i..]]; [None] is a panic. *)
Fixpoint drop_bytes (i : Z) (s : str) : option str :=
  if i =? 0 then Some s
  else match s with [] => None | c :: s => if i <? utf8_width c then None else drop_bytes (i - utf8_width c) s end.
Definition is_char_boundary (s : str) (i : Z) : bool := bool_decide (is_Some (drop_bytes i s)).

(** ** Limits *)

(** src: crates/pulsing-forge/src/exec_output.rs 6-6 DEFAULT_SHELL_TIMEOUT_MS *)
Definition DEFAULT_SHELL_TIMEOUT_MS : Z := 10000.
(** src: crates/pulsing-forge/src/exec_output.rs 7-7 DEFAULT_YIELD_TIME_MS *)
Definition DEFAULT_YIELD_TIME_MS : Z := 250.
(** src: crates/pulsing-forge/src/exec_output.rs 8-8 MIN_YIELD_TIME_MS *)
Definition MIN_YIELD_TIME_MS : Z := 250.
(** src: crates/pulsing-forge/src/exec_output.rs 9-9 MAX_YIELD_TIME_MS *)
Definition MAX_YIELD_TIME_MS : Z := 30000.
(** src: crates/pulsing-forge/src/exec_output.rs 10-10 DEFAULT_MAX_OUTPUT_TOKENS *)
Definition DEFAULT_MAX_OUTPUT_TOKENS : Z := 10000.
(** src: crates/pulsing-forge/src/exec_output.rs 11-11 SHELL_MAX_BYTES *)
Definition SHELL_MAX_BYTES : Z := 256 * 1024.
(** src: crates/pulsing-forge/src/exec_output.rs 13-13 MAX_STDIN_BYTES *)
Definition MAX_STDIN_BYTES : Z := 1024 * 1024.
(** src: crates/pulsing-forge/src/exec_output.rs 15-15 RUNNING_EXIT_SENTINEL *)
Definition RUNNING_EXIT_SENTINEL : Z := - 2 ^ 31.

(** src: crates/pulsing-forge/src/exec_output.rs 17-23 ExecStream *)
Inductive ExecStream := Stdout | Stderr | PtyStream.
#[export] Instance ExecStream_eq_dec : EqDecision ExecStream.
Proof. solve_decision. Defined.
(** src: crates/pulsing-forge/src/exec_output.rs 25-31 ExecOutputDelta *)
Record ExecOutputDelta := mk_delta { delta_session : Z; delta_stream : ExecStream; delta_chunk : str }.

(** src: crates/pulsing-forge/src/exec_output.rs 171-174 estimate_tokens *)
Definition estimate_tokens (text : str) : Z := Z.max 1 (utf8_len text / 4).
(** src: crates/pulsing-forge/src/exec_output.rs 176-179 clamp_yield_ms *)
Definition clamp_yield_ms (raw : option Z) : Z :=
  Z.max MIN_YIELD_TIME_MS (Z.min MAX_YIELD_TIME_MS (default DEFAULT_YIELD_TIME_MS raw)).

(** ** The rolling buffer *)

(** src: crates/pulsing-forge/src/exec_output.rs 66-71 OutputBuffer *)
Record OutputBuffer := mk_buffer { max_bytes : Z; data : str }.
(** src: crates/pulsing-forge/src/exec_output.rs 74-79 OutputBuffer::new *)
Definition OutputBuffer_new (max_bytes : Z) : OutputBuffer := mk_buffer max_bytes [].

(** src: crates/pulsing-forge/src/exec_output.rs 114-117 tail_at (loop) *)
Fixpoint snap (s : str) (start : nat) : nat :=
  match start with O => O | S n => if is_char_boundary s (Z.of_nat start) then start else snap s n end.
(** [None] is a panic of the slice.
    src: crates/pulsing-forge/src/exec_output.rs 109-119 tail_at *)
Definition tail_at (s : str) (keep : Z) : option str :=
  drop_bytes (Z.of_nat (snap s (Z.to_nat (saturating_sub (utf8_len s) keep)))) s.

Definition output_truncated : str := lit "...[output truncated]..." ++ [newline].
Definition token_limit : str := lit "...[token limit]..." ++ [newline].
Arguments output_truncated : simpl never.
Arguments token_limit : simpl never.

(** src: crates/pulsing-forge/src/exec_output.rs 81-91 OutputBuffer::push *)
Definition push (b : OutputBuffer) (chunk : str) : option OutputBuffer :=
  if bool_decide (chunk = []) then Some b
  else
    let d := data b ++ chunk in
    if max_bytes b <? utf8_len d then
      tail ← tail_at d (max_bytes b / 2);
      Some (mk_buffer (max_bytes b) (output_truncated ++ tail))
    else Some (mk_buffer (max_bytes b) d).

(** src: crates/pulsing-forge/src/exec_output.rs 97-106 OutputBuffer::truncate_to_tokens *)
Definition truncate_to_tokens (b : OutputBuffer) (max_tokens : Z) : option OutputBuffer :=
  let est := estimate_tokens (data b) in
  if est <=? max_tokens then Some b
  else
    let ratio := f64_div (f64_of_Z max_tokens) (f64_of_Z est) in
    let keep := f_to_u64 (f64_mul (f64_of_Z (utf8_len (data b))) ratio) in
    tail ← tail_at (data b) keep;
    Some (mk_buffer (max_bytes b) (token_limit ++ tail)).

(** ** The decoder *)

(** The bytes that are held back.
    src: crates/pulsing-forge/src/exec_output.rs 121-127 Utf8ChunkDecoder *)
Record Utf8ChunkDecoder := mk_decoder { pending : bytes }.
Definition Utf8ChunkDecoder_default : Utf8ChunkDecoder := mk_decoder [].

(** src: crates/pulsing-forge/src/exec_output.rs 131-158 Utf8ChunkDecoder::decode *)
Definition decode (d : Utf8ChunkDecoder) (bs : bytes) : Utf8ChunkDecoder * str :=
  let p := pending d ++ bs in
  match from_utf8 p with
  | Some s => (mk_decoder [], s)
  | None =>
      let valid_len := valid_up_to p in
      let out := from_utf8_lossy (take valid_len p) in
      if bool_decide (4 < length p - valid_len)%nat then (mk_decoder [], out ++ from_utf8_lossy (drop valid_len p))
      else (mk_decoder (drop valid_len p), out)
  end.
(** src: crates/pulsing-forge/src/exec_output.rs 161-168 Utf8ChunkDecoder::finish *)
Definition decoder_finish (d : Utf8ChunkDecoder) : Utf8ChunkDecoder * str :=
  if bool_decide (pending d = []) then (d, []) else (mk_decoder [], from_utf8_lossy (pending d)).

(** A stream of reads, and its end. *)
Fixpoint decode_all (d : Utf8ChunkDecoder) (chunks : list bytes) : Utf8ChunkDecoder * str :=
  match chunks with
  | [] => (d, [])
  | c :: cs => let '(d, s) := decode d c in let '(d, t) := decode_all d cs in (d, s ++ t)
  end.
Definition decode_stream (chunks : list bytes) : str :=
  let '(d, s) := decode_all Utf8ChunkDecoder_default chunks in s ++ (decoder_finish d).2.
Definition push_all (b : OutputBuffer) (chunks : list str) : option OutputBuffer := foldl (λ b c, b ← b; push b c) (Some b) chunks.

(** [shell_timeout_ms] and [ExecCommandOutput] are with the tools that use them. *)

(** ** The decoder does not care where a stream is cut *)

Lemma next_char_char c bs : is_scalar c → next_char (utf8_char c ++ bs) = (length (utf8_char c), Some c).
Proof.
  intros Hc. pose proof (proj1 (scalarb_range c) Hc) as Hr. unfold utf8_char.
  destruct (Z.ltb_spec c 128).
  { cbn [app next_char]. unfold utf8_char_width. cbv zeta. bool_cond. done. }
  pose proof (Z.mod_pos_bound c 64 eq_refl). pose proof (Z.div_mod c 64 ltac:(done)).
  destruct (Z.ltb_spec c 2048).
  { pose proof (Z.div_le_lower_bound c 64 2 eq_refl ltac:(lia)). pose proof (Z.div_lt_upper_bound c 64 32 eq_refl ltac:(lia)).
    cbn [app next_char length]. unfold utf8_char_width, continuation. cbv zeta. bool_cond. simpl.
    f_equal. f_equal. lia. }
  pose proof (Z.mod_pos_bound (c / 64) 64 eq_refl). pose proof (Z.div_mod (c / 64) 64 ltac:(done)).
  assert (Hd : c / 64 / 64 = c / 4096) by by rewrite Z.div_div. rewrite Hd in *.
  destruct (Z.ltb_spec c 65536).
  { pose proof (Z.div_lt_upper_bound c 4096 16 eq_refl ltac:(lia)). pose proof (Z.div_pos c 4096 ltac:(lia) eq_refl).
    set (d := (c / 64) mod 64) in *. set (e := c mod 64) in *. set (f := c / 4096) in *.
    assert (Hw : utf8_char_width (224 + f) = 3) by (unfold utf8_char_width; by bool_cond).
    assert (Hs : second_ok (224 + f) (128 + d) = true).
    { unfold second_ok, continuation. bool_cond. simpl. destruct (Z.eqb_spec (224 + f) 224); [by bool_cond|].
      destruct (Z.eqb_spec (224 + f) 237); [by bool_cond|]. destruct (Z.eqb_spec (224 + f) 240); [lia|]. by destruct (Z.eqb_spec (224 + f) 244); [lia|]. }
    cbn [app next_char length]. rewrite Hw, Hs. unfold continuation. bool_cond. simpl. f_equal. f_equal. lia. }
  pose proof (Z.mod_pos_bound (c / 4096) 64 eq_refl). pose proof (Z.div_mod (c / 4096) 64 ltac:(done)).
  assert (Hd' : c / 4096 / 64 = c / 262144) by by rewrite Z.div_div. rewrite Hd' in *.
  pose proof (Z.div_lt_upper_bound c 262144 5 eq_refl ltac:(lia)). pose proof (Z.div_pos c 262144 ltac:(lia) eq_refl).
  set (d := (c / 64) mod 64) in *. set (e := c mod 64) in *. set (f := (c / 4096) mod 64) in *. set (g := c / 262144) in *.
  assert (Hw : utf8_char_width (240 + g) = 4) by (unfold utf8_char_width; by bool_cond).
  assert (Hs : second_ok (240 + g) (128 + f) = true).
  { unfold second_ok, continuation. bool_cond. simpl. destruct (Z.eqb_spec (240 + g) 224); [lia|].
    destruct (Z.eqb_spec (240 + g) 237); [lia|]. destruct (Z.eqb_spec (240 + g) 240); [by bool_cond|]. by destruct (Z.eqb_spec (240 + g) 244); [bool_cond|]. }
  cbn [app next_char length]. rewrite Hw, Hs. unfold continuation. bool_cond. simpl. f_equal. f_equal. lia.
Qed.

(** Part of a character is no character yet. *)
Lemma next_char_part c q q' : is_scalar c → q ++ q' = utf8_char c → q ≠ [] → q' ≠ [] → (next_char q).2 = None ∧ from_utf8 q = None ∧ (length q <= 3)%nat.
Proof.
  intros Hc Hq Hne Hne'. assert (Hl : (length q < length (utf8_char c))%nat).
  { rewrite <- Hq, length_app. destruct q'; [done|simpl; lia]. }
  assert (Hl4 : (length (utf8_char c) <= 4)%nat) by (unfold utf8_char; repeat case_match; simpl; lia).
  assert (Hnext : (next_char q).2 = None).
  { destruct (next_char q) as [n [d|]] eqn:E; [|done]. exfalso. 
    assert (Hext : next_char (q ++ q') = (n, Some d) ∧ (n <= length q)%nat).
    { clear -E. destruct q as [|b0 [|b1 [|b2 [|b3 q]]]]; simpl in E |- *; repeat case_match; naive_solver lia. }
    destruct Hext as [Hext Hn]. rewrite Hq, <- (app_nil_r (utf8_char c)), next_char_char in Hext by done. injection Hext as <- _. lia. }
  split_and!; [done| |lia].
  destruct (from_utf8 q) as [s|] eqn:E; [|done]. exfalso. unfold utf8_char in Hq, Hl.
  pose proof (proj1 (scalarb_range c) Hc) as Hr.
  destruct q as [|b0 q]; [done|]. simpl in Hq.
  destruct (Z.ltb_spec c 128); [simpl in Hl; lia|].
  pose proof (Z.mod_pos_bound c 64 eq_refl). pose proof (Z.div_mod c 64 ltac:(done)).
  destruct (Z.ltb_spec c 2048).
  { pose proof (Z.div_le_lower_bound c 64 2 eq_refl ltac:(lia)).
    injection Hq as -> Hq. destruct q; [|simpl in Hl; lia]. revert E. cbn [from_utf8]. by bool_cond. }
  destruct (Z.ltb_spec c 65536).
  { pose proof (Z.div_lt_upper_bound c 4096 16 eq_refl ltac:(lia)). pose proof (Z.div_pos c 4096 ltac:(lia) eq_refl).
    injection Hq as -> Hq. destruct q as [|b1 [|]]; [| |simpl in Hl; lia]; revert E; cbn [from_utf8]; cbv zeta; by bool_cond. }
  pose proof (Z.div_lt_upper_bound c 262144 5 eq_refl ltac:(lia)). pose proof (Z.div_pos c 262144 ltac:(lia) eq_refl).
  injection Hq as -> Hq. destruct q as [|b1 [|b2 [|]]]; [| | |simpl in Hl; lia]; revert E; cbn [from_utf8]; cbv zeta; by bool_cond.
Qed.

Lemma utf8_char_not_nil c : utf8_char c ≠ [].
Proof. unfold utf8_char. by repeat case_match. Qed.

Lemma lossy_as_bytes s fuel : Forall is_scalar s → (length s <= fuel)%nat → lossy fuel (as_bytes s) = s.
Proof.
  intros Hs. revert fuel. induction Hs as [|c s Hc _ IH]; intros fuel Hf; [by destruct fuel|]. destruct fuel as [|fuel]; [simpl in Hf; lia|].
  change (as_bytes (c :: s)) with (utf8_char c ++ as_bytes s). cbn [lossy].
  destruct (utf8_char c ++ as_bytes s) as [|b bs] eqn:E; [by apply app_eq_nil in E as [?%utf8_char_not_nil ?]|]. rewrite <- E. clear E.
  rewrite next_char_char by done. rewrite drop_app_length. simpl. rewrite IH; [done|simpl in Hf; lia].
Qed.
Lemma as_bytes_length s : (length s <= length (as_bytes s))%nat.
Proof.
  induction s as [|c s IH]; [done|]. change (as_bytes (c :: s)) with (utf8_char c ++ as_bytes s). rewrite length_app. simpl.
  pose proof (utf8_char_not_nil c). destruct (utf8_char c); [done|]. simpl. lia.
Qed.
Lemma valid_up_to_part s q : Forall is_scalar s → (next_char q).2 = None → valid_up_to (as_bytes s ++ q) = length (as_bytes s).
Proof.
  intros Hs Hq. unfold valid_up_to. assert (Hf : (length s <= length (as_bytes s ++ q))%nat) by (rewrite length_app; pose proof (as_bytes_length s); lia).
  revert Hf. generalize (length (as_bytes s ++ q)) as fuel. induction Hs as [|c s Hc _ IH]; intros fuel Hf.
  - destruct fuel; [done|]. simpl. destruct (next_char q) as [n [|]]; done.
  - destruct fuel as [|fuel]; [simpl in Hf; lia|]. change (as_bytes (c :: s)) with (utf8_char c ++ as_bytes s). rewrite <- app_assoc. cbn [valid_bytes].
    rewrite next_char_char, drop_app_length by done. rewrite IH by (simpl in Hf; lia). by rewrite length_app.
Qed.

(** What is held back of the bytes of a text: the start of its next character. *)
Definition held (rest : str) (q : bytes) : Prop :=
  q = [] ∨ ∃ c s q', rest = c :: s ∧ q ++ q' = utf8_char c ∧ q ≠ [] ∧ q' ≠ [].

Lemma as_bytes_cut s p q : p ++ q = as_bytes s → ∃ u rest h, s = u ++ rest ∧ p = as_bytes u ++ h ∧ held rest h ∧ h ++ q = as_bytes rest.
Proof.
  revert p. induction s as [|c s IH]; intros p Hp.
  - apply app_eq_nil in Hp as [-> ->]. exists [], [], []. split_and!; [done..|by left|done].
  - change (as_bytes (c :: s)) with (utf8_char c ++ as_bytes s) in Hp. apply app_eq_app in Hp as (k & [[-> Hk]|[Hk Hq]]).
    + symmetry in Hk. apply IH in Hk as (u & rest & h & -> & -> & Hh & Hr). exists (c :: u), rest, h. split_and!; [done| |done..].
      change (as_bytes (c :: u)) with (utf8_char c ++ as_bytes u). by rewrite app_assoc.
    + destruct (decide (k = [])) as [->|Hk0].
      * rewrite app_nil_r in Hk. exists [c], s, []. split_and!; [done| |by left|by rewrite Hq].
        change (as_bytes [c]) with (utf8_char c ++ []). by rewrite !app_nil_r.
      * exists [], (c :: s), p. split_and!; [done..| |].
        -- destruct (decide (p = [])) as [->|Hp0]; [by left|]. right. exists c, s, k. by split_and!.
        -- change (as_bytes (c :: s)) with (utf8_char c ++ as_bytes s). by rewrite Hk, Hq, <- app_assoc.
Qed.

Lemma decode_held rest h bs q : Forall is_scalar rest → h ++ bs ++ q = as_bytes rest →
  ∃ u rest' h', rest = u ++ rest' ∧ decode (mk_decoder h) bs = (mk_decoder h', u) ∧ held rest' h' ∧ h' ++ q = as_bytes rest'.
Proof.
  intros Hs Hb. rewrite app_assoc in Hb. apply as_bytes_cut in Hb as (u & rest' & h' & -> & Hp & Hh & Hq).
  apply Forall_app in Hs as [Hu Hr]. exists u, rest', h'. split; [done|]. split; [|done].
  unfold decode. cbn [pending]. rewrite Hp. destruct Hh as [->|(c & s & q' & -> & Hc & Hne & Hne')].
  - by rewrite app_nil_r, from_utf8_as_bytes.
  - apply Forall_cons in Hr as [Hsc _]. destruct (next_char_part c h' q' Hsc Hc Hne Hne') as (Hn & Hf & Hl).
    assert (Hnone : from_utf8 (as_bytes u ++ h') = None).
    { clear -Hu Hf. induction Hu as [|d u Hd _ IH]; [done|]. change (as_bytes (d :: u)) with (utf8_char d ++ as_bytes u).
      by rewrite <- app_assoc, from_utf8_char, IH. }
    rewrite Hnone, valid_up_to_part by done. cbv zeta. rewrite take_app_length, drop_app_length.
    rewrite length_app, bool_decide_false by lia. unfold from_utf8_lossy. by rewrite lossy_as_bytes; [|done|apply as_bytes_length].
Qed.

Lemma decode_all_text chunks : ∀ rest h, Forall is_scalar rest → h ++ mjoin chunks = as_bytes rest →
  decode_all (mk_decoder h) chunks = (mk_decoder [], rest) ∨ (rest ≠ [] ∧ chunks = []).
Proof.
  induction chunks as [|c cs IH]; intros rest h Hs Hb.
  { destruct rest as [|d rest]; [|by right]. left. simpl in Hb. rewrite app_nil_r in Hb. by subst. }
  left. change (mjoin (c :: cs)) with (c ++ mjoin cs) in Hb. apply decode_held in Hb as (u & rest' & h' & -> & Hd & Hh & Hq); [|done].
  cbn [decode_all]. rewrite Hd. apply Forall_app in Hs as [_ Hs]. destruct (IH rest' h' Hs Hq) as [->|[Hne ->]]; [done|].
  simpl in Hq. rewrite app_nil_r in Hq. exfalso. destruct Hh as [->|(d & s & q' & -> & Hd' & _ & Hne')].
  - destruct rest' as [|d s]; [done|]. change (as_bytes (d :: s)) with (utf8_char d ++ as_bytes s) in Hq.
    symmetry in Hq. by apply app_eq_nil in Hq as [?%utf8_char_not_nil _].
  - change (as_bytes (d :: s)) with (utf8_char d ++ as_bytes s) in Hq. rewrite <- Hd', <- app_assoc in Hq. rewrite <- (app_nil_r h') in Hq at 1.
    apply app_inv_head in Hq. symmetry in Hq. by apply app_eq_nil in Hq as [? _].
Qed.

(** However the bytes of a text are cut into reads, the decoder gives the text
    back, and it never holds more than three bytes of it. *)
Theorem decoder_reassembles s chunks : Forall is_scalar s → mjoin chunks = as_bytes s →
  decode_stream chunks = s ∧
  (∀ done todo d t, chunks = done ++ todo → decode_all Utf8ChunkDecoder_default done = (d, t) → t `prefix_of` s ∧ (length (pending d) <= 3)%nat).
Proof.
  intros Hs Hb. split.
  - unfold decode_stream, Utf8ChunkDecoder_default. destruct (decode_all_text chunks s [] Hs Hb) as [->|[Hne ->]].
    + simpl. apply app_nil_r.
    + destruct s as [|c s]; [done|]. symmetry in Hb. by apply app_eq_nil in Hb as [?%utf8_char_not_nil _].
  - intros dn todo d t ->. assert (Hgen : ∀ dn rest h, Forall is_scalar rest → held rest h → h ++ mjoin (dn ++ todo) = as_bytes rest →
      decode_all (mk_decoder h) dn = (d, t) → t `prefix_of` rest ∧ (length (pending d) <= 3)%nat).
    { clear. intros dn. revert d t. induction dn as [|c cs IH]; intros d t rest h Hs Hh Hb.
      - intros [= <- <-]. split; [apply prefix_nil|]. simpl. destruct Hh as [->|(c & s & q' & -> & Hc & Hne & Hne')]; [simpl; lia|].
        apply Forall_cons in Hs as [Hc' _]. by apply (next_char_part c h q').
      - change (mjoin ((c :: cs) ++ todo)) with (c ++ mjoin (cs ++ todo)) in Hb. apply decode_held in Hb as (u & rest' & h' & -> & Hd & Hh' & Hq); [|done].
        cbn [decode_all]. rewrite Hd. destruct (decode_all (mk_decoder h') cs) as [d' t'] eqn:E. intros [= <- <-].
        apply Forall_app in Hs as [_ Hs]. destruct (IH _ _ rest' h' Hs Hh' Hq E) as [Hp Hl]. split; [by apply prefix_app|done]. }
    intros Hd. by apply (Hgen dn s [] Hs (or_introl eq_refl)).
Qed.

Lemma decoder_reassembles_witness :
  decode_stream [[104; 195]; [169; 228]; []; [184]; [173; 10]] = [104; 233; 20013; 10] ∧
  (∀ done todo d t, [[104; 195]; [169; 228]; []; [184]; [173; 10]] = done ++ todo → decode_all Utf8ChunkDecoder_default done = (d, t) →
     t `prefix_of` [104; 233; 20013; 10] ∧ (length (pending d) <= 3)%nat).
Proof. apply (decoder_reassembles [104; 233; 20013; 10] [[104; 195]; [169; 228]; []; [184]; [173; 10]]); [by repeat constructor|reflexivity]. Defined.

(** With a byte that is no text before it, a character that is cut by a read is
    lost: five bytes held back are given out at once, the start of the character
    with them. *)
Lemma invalid_byte_splits_character :
  decode_stream [[255; 97; 98; 99; 228]; [184; 173]] ≠ decode_stream [[255; 97; 98; 99; 228; 184; 173]] ∧
  decode_stream [[255; 97; 98; 99; 228; 184; 173]] = [65533; 97; 98; 99; 20013].
Proof. split; [by vm_compute|reflexivity]. Qed.
(** Up to three bytes after a byte that is no text wait for the next read. *)
Lemma invalid_byte_delays_output : decode Utf8ChunkDecoder_default [255; 36; 32] = (mk_decoder [255; 36; 32], []).
Proof. reflexivity. Qed.

(** ** The buffer *)

Lemma drop_bytes_spec i s t : 0 <= i → drop_bytes i s = Some t ↔ ∃ p, s = p ++ t ∧ utf8_len p = i.
Proof.
  revert i. induction s as [|c s IH]; intros i Hi; cbn [drop_bytes].
  - destruct (Z.eqb_spec i 0) as [->|Hne]; split.
    + intros [= <-]. by exists [].
    + intros (p & Hp & _). symmetry in Hp. by apply app_eq_nil in Hp as [_ ->].
    + done.
    + intros (p & Hp & Hl). symmetry in Hp. apply app_eq_nil in Hp as [-> _]. by destruct Hne.
  - pose proof (utf8_width_pos c) as Hc. destruct (Z.eqb_spec i 0) as [->|Hne]; split.
    + intros [= <-]. by exists [].
    + intros ([|d p] & Hp & Hl); [by rewrite Hp|]. rewrite utf8_len_cons in Hl. pose proof (utf8_width_pos d). pose proof (utf8_len_nonneg p). lia.
    + destruct (Z.ltb_spec i (utf8_width c)); [done|]. intros (p & -> & Hl)%IH; [|lia]. exists (c :: p). rewrite utf8_len_cons. split; [done|lia].
    + intros ([|d p] & Hp & Hl); [by destruct Hne|]. injection Hp as <- ->. rewrite utf8_len_cons in Hl. pose proof (utf8_len_nonneg p).
      destruct (Z.ltb_spec i (utf8_width c)); [lia|]. apply IH; [lia|]. exists p. split; [done|lia].
Qed.
Lemma boundary_spec s i : 0 <= i → is_char_boundary s i = true ↔ ∃ p t, s = p ++ t ∧ utf8_len p = i.
Proof.
  intros Hi. unfold is_char_boundary. rewrite bool_decide_eq_true. split.
  - intros [t (p & Hp)%drop_bytes_spec]; [|done]. by exists p, t.
  - intros (p & t & Hp). exists t. apply drop_bytes_spec; eauto.
Qed.

(** The last boundary at or before a position, at most three bytes away. *)
Lemma snap_spec s n : Z.of_nat n <= utf8_len s →
  ∃ p t, s = p ++ t ∧ utf8_len p = Z.of_nat (snap s n) ∧ (snap s n <= n)%nat ∧ Z.of_nat n <= utf8_len p + 3 ∧
    (∀ p' t', s = p' ++ t' → utf8_len p' <= Z.of_nat n → utf8_len p' <= utf8_len p).
Proof.
  intros Hn. assert (Hmax : ∃ p t, s = p ++ t ∧ utf8_len p = Z.of_nat (snap s n) ∧ (snap s n <= n)%nat ∧
    (∀ p' t', s = p' ++ t' → utf8_len p' <= Z.of_nat n → utf8_len p' <= utf8_len p)).
  { clear Hn. induction n as [|n IH].
    - exists [], s. split_and!; [done..|]. intros p' t' _ Hp. done.
    - cbn [snap]. destruct (is_char_boundary s (Z.of_nat (S n))) eqn:E.
      + apply boundary_spec in E as (p & t & Hs & Hp); [|lia]. exists p, t. split_and!; [done..|]. lia.
      + destruct IH as (p & t & Hs & Hp & Hl & Hm). exists p, t. split_and!; [done|done|lia|]. intros p' t' Hs' Hp'. apply (Hm p' t'); [done|].
        destruct (decide (utf8_len p' = Z.of_nat (S n))) as [Heq|Hne]; [|lia].
        assert (is_char_boundary s (Z.of_nat (S n)) = true) by (apply boundary_spec; [lia|eauto]). congruence. }
  assert (Hnear : ∃ p t, s = p ++ t ∧ utf8_len p <= Z.of_nat n <= utf8_len p + 3).
  { clear Hmax. assert (0 <= Z.of_nat n) as Hz by lia. revert Hz Hn. generalize (Z.of_nat n). induction s as [|c s IH]; intros z Hz Hn.
    - exists [], []. split; [done|]. unfold utf8_len in *. simpl in *. lia.
    - rewrite utf8_len_cons in Hn. pose proof (utf8_width_pos c). assert (utf8_width c <= 4) by (unfold utf8_width; repeat case_match; lia).
      destruct (Z.ltb_spec z (utf8_width c)).
      + exists [], (c :: s). split; [done|]. unfold utf8_len. simpl. lia.
      + destruct (IH (z - utf8_width c)) as (p & t & -> & Hp); [lia..|]. exists (c :: p), t. rewrite utf8_len_cons. split; [done|lia]. }
  destruct Hmax as (p & t & Hs & Hp & Hl & Hm), Hnear as (p2 & t2 & Hs2 & Hp2). exists p, t. split_and!; [done..| |done].
  specialize (Hm p2 t2 Hs2 ltac:(lia)). lia.
Qed.

Lemma prefix_by_length s p t p' t' : s = p ++ t → s = p' ++ t' → utf8_len p <= utf8_len p' → ∃ k, t = k ++ t'.
Proof.
  intros -> He Hl. apply app_eq_app in He as (k & [[Hp Ht]|[Hp Ht]]).
  - assert (k = []) as ->; [|by exists []; rewrite Ht].
    rewrite Hp, utf8_len_app in Hl. destruct k as [|c k]; [done|]. rewrite utf8_len_cons in Hl.
    pose proof (utf8_width_pos c). pose proof (utf8_len_nonneg k). lia.
  - by exists k.
Qed.
Lemma tail_at_spec s keep : 0 <= keep → ∃ p t, tail_at s keep = Some t ∧ s = p ++ t ∧ utf8_len t <= keep + 3 ∧
  (∀ p' u, s = p' ++ u → utf8_len u <= keep → ∃ k, t = k ++ u).
Proof.
  intros Hk. unfold tail_at, saturating_sub. pose proof (utf8_len_nonneg s) as Hs0.
  destruct (snap_spec s (Z.to_nat (Z.max 0 (utf8_len s - keep)))) as (p & t & Hs & Hp & Hl & Hn & Hm); [lia|].
  exists p, t. split_and!; [apply drop_bytes_spec; [lia|]; by exists p|done| |].
  - pose proof (utf8_len_app p t). rewrite <- Hs in H. lia.
  - intros p' u Hs' Hu. apply (prefix_by_length s p t p' u Hs Hs'). assert (utf8_len p <= Z.max 0 (utf8_len s - keep)) by lia.
    pose proof (utf8_len_app p' u) as Hpu. rewrite <- Hs' in Hpu. pose proof (utf8_len_nonneg p'). lia.
Qed.

(** A limit never fails and keeps the end of the text. *)
Lemma truncate_to_tokens_spec b n : ∃ b', truncate_to_tokens b n = Some b' ∧ max_bytes b' = max_bytes b ∧
  (b' = b ∨ ∃ p t, data b = p ++ t ∧ data b' = token_limit ++ t).
Proof.
  unfold truncate_to_tokens. cbv zeta. case_match; [eauto|].
  destruct (tail_at_spec (data b) (f_to_u64 (f64_mul (f64_of_Z (utf8_len (data b))) (f64_div (f64_of_Z n) (f64_of_Z (estimate_tokens (data b))))))) as (p & t & Ht & Hd & _).
  { unfold f_to_u64, magnitude. repeat case_match; try done. all: apply Z.min_glb; [|done]. 
    - apply Z.mul_nonneg_nonneg; [done|]. apply Z.pow_nonneg. done.
    - apply Z.div_pos; [done|]. apply Z.pow_pos_nonneg; [done|]. lia. }
  rewrite Ht. eexists. split; [reflexivity|]. split; [done|]. right. eauto.
Qed.

(** What holds of a buffer that was given the text [seen]. *)
Definition buffer_ok (m : Z) (seen : str) (b : OutputBuffer) : Prop :=
  max_bytes b = m ∧ utf8_len (data b) <= Z.max m (m / 2 + 3 + utf8_len output_truncated) ∧
  (utf8_len seen <= m → data b = seen) ∧ (∀ p u, seen = p ++ u → utf8_len u <= m / 2 → ∃ k, data b = k ++ u).

Lemma push_fits m seen b chunk : 0 <= m → buffer_ok m seen b → ∃ b', push b chunk = Some b' ∧ buffer_ok m (seen ++ chunk) b'.
Proof.
  intros Hm (Hb & Hl & Hs & Hu). unfold push. case_bool_decide as Hc.
  { exists b. subst chunk. rewrite app_nil_r. split; [done|]. by split_and!. }
  assert (Hend : ∀ p u, seen ++ chunk = p ++ u → utf8_len u <= m / 2 → ∃ k, data b ++ chunk = k ++ u).
  { intros p u He Hu2. apply app_eq_app in He as (k & [[-> ->]|[-> ->]]).
    - destruct (Hu p k) as [k' ->]; [done| |exists k'; by rewrite app_assoc]. rewrite utf8_len_app in Hu2. pose proof (utf8_len_nonneg chunk). lia.
    - exists (data b ++ k). by rewrite app_assoc. }
  pose proof (Z.div_pos m 2 Hm eq_refl). rewrite Hb. cbv zeta. destruct (Z.ltb_spec m (utf8_len (data b ++ chunk))) as [Hlt|Hge].
  - destruct (tail_at_spec (data b ++ chunk) (m / 2)) as (p & t & Ht & Hd & Hlen & Htail); [done|]. rewrite Ht. exists (mk_buffer m (output_truncated ++ t)). split; [by rewrite <- Hb|]. split_and!; [done| | |].
    + cbn [data]. rewrite utf8_len_app. lia.
    + intros Hle. exfalso. assert (data b = seen) as Heq; [|rewrite Heq in Hlt; lia]. apply Hs. rewrite utf8_len_app in Hle. pose proof (utf8_len_nonneg chunk). lia.
    + intros p' u He Hu2. destruct (Hend p' u He Hu2) as [k Hk]. destruct (Htail k u Hk Hu2) as [k' ->]. cbn [data]. exists (output_truncated ++ k'). by rewrite app_assoc.
  - eexists. split; [reflexivity|]. split_and!; [done|cbn [data]; lia| |].
    + intros Hle. cbn [data]. rewrite Hs; [done|]. rewrite utf8_len_app in Hle. pose proof (utf8_len_nonneg chunk). lia.
    + intros p u He Hu2. destruct (Hend p u He Hu2) as [k Hk]. cbn [data]. by exists k.
Qed.

(** Whatever is pushed to a buffer, it never panics at a cut character, it keeps
    everything that fits and otherwise at least the last half of its size, and
    its own size stays bounded. *)
Theorem buffer_keeps_the_end m chunks : 0 <= m →
  ∃ b, push_all (OutputBuffer_new m) chunks = Some b ∧ buffer_ok m (mjoin chunks) b.
Proof.
  intros Hm. unfold push_all. induction chunks as [|c cs IH] using rev_ind.
  - exists (OutputBuffer_new m). split; [done|]. split_and!; [done| |done|].
    + unfold utf8_len at 1. simpl. lia.
    + intros p u Hp%symmetry%app_eq_nil _. exists []. by destruct Hp as [_ ->].
  - destruct IH as (b & Hb & Hok). rewrite foldl_app, Hb. cbn [foldl]. destruct (push_fits m (mjoin cs) b c Hm Hok) as (b' & Hp & Hok').
    exists b'. split; [done|]. rewrite join_app. replace (mjoin [c]) with c by (simpl; by rewrite app_nil_r). done.
Qed.

Lemma buffer_keeps_the_end_witness :
  0 <= 100 ∧ ∃ b, push_all (OutputBuffer_new 100) [repeat 20013 40; lit "abc"] = Some b ∧ buffer_ok 100 (mjoin [repeat 20013 40; lit "abc"]) b.
Proof. split; [lia|]. apply (buffer_keeps_the_end 100 [repeat 20013 40; lit "abc"]). lia. Defined.

(** A small buffer is larger than its limit. *)
Lemma small_buffer_exceeds_limit : ∃ b, push (OutputBuffer_new 10) (lit "0123456789a") = Some b ∧ utf8_len (data b) = 30.
Proof. eexists. split; [vm_compute; reflexivity|]. by vm_compute. Qed.
(** The note that the limit was passed is not counted: what is returned is above the limit again. *)
Lemma token_limit_is_exceeded :
  ∃ b, truncate_to_tokens (mk_buffer 1000 (repeat 97 400)) 50 = Some b ∧ estimate_tokens (data b) = 55.
Proof. eexists. split; [vm_compute; reflexivity|]. by vm_compute. Qed.
