(* ===== verification/Reference.v ===== *)
(** * Lazy references

    [actor/reference.rs]: a reference to a named actor that resolves its path when
    it is used and keeps the answer for a while. Tasks share the cache and the
    lock that lets one of them refresh it; a task moves by itself, one access at
    a time, and a move that is not possible yet is not taken. *)
From S2P Require Import Prelude Errors.

(** In nanoseconds.
    src: crates/pulsing-actor/src/actor/reference.rs 56-56 CACHE_TTL *)
Definition CACHE_TTL : Z := 5 * 10 ^ 9.

Section Lazy.
Context {R : Type}.

(** src: crates/pulsing-actor/src/actor/reference.rs 51-54 CachedRef *)
Record CachedRef := mk_cached { actor_ref : R; cached_at : Z }.

(** Where a task is in [get]: before its first look, waiting for the lock,
    holding it before its second look, while the path is resolved, before the
    answer is kept, and at the end. *)
Inductive Phase :=
  | Looking | Waiting | Rechecking | Resolving | Storing (r : R) | Finished (r : Result R PulsingError).
(** The cache, the lock with its holder, the tasks, and the clock. The resolver's
    calls and failures and the invalidations are counted on the side.
    src: crates/pulsing-actor/src/actor/reference.rs 41-49 LazyActorRef *)
Record LazyActorRef := mk_lazy {
  cache : option CachedRef; refresh_lock : option nat; tasks : gmap nat Phase; now : Z; calls : Z; failures : Z; invalidations : Z }.
(** src: crates/pulsing-actor/src/actor/reference.rs 65-72 LazyActorRef::new *)
Definition LazyActorRef_new (t : Z) : LazyActorRef := mk_lazy None None ∅ t 0 0 0.

Definition set_task (t : nat) (ph : Phase) (l : LazyActorRef) : LazyActorRef :=
  mk_lazy (cache l) (refresh_lock l) (<[t := ph]> (tasks l)) (now l) (calls l) (failures l) (invalidations l).
Definition set_lock (h : option nat) (l : LazyActorRef) : LazyActorRef :=
  mk_lazy (cache l) h (tasks l) (now l) (calls l) (failures l) (invalidations l).
Definition set_cache (c : option CachedRef) (l : LazyActorRef) : LazyActorRef :=
  mk_lazy c (refresh_lock l) (tasks l) (now l) (calls l) (failures l) (invalidations l).
Definition count_call (l : LazyActorRef) : LazyActorRef :=
  mk_lazy (cache l) (refresh_lock l) (tasks l) (now l) (calls l + 1) (failures l) (invalidations l).
Definition count_failure (l : LazyActorRef) : LazyActorRef :=
  mk_lazy (cache l) (refresh_lock l) (tasks l) (now l) (calls l) (failures l + 1) (invalidations l).

(** A task that ends gives the lock back when it holds it. *)
Definition finish (t : nat) (r : Result R PulsingError) (l : LazyActorRef) : LazyActorRef :=
  set_task t (Finished r) (if bool_decide (refresh_lock l = Some t) then set_lock None l else l).
(** src: crates/pulsing-actor/src/actor/reference.rs 75-82 get (look) *)
Definition look (l : LazyActorRef) : option R :=
  match cache l with
  | Some cached => if saturating_sub (now l) (cached_at cached) <? CACHE_TTL then Some (actor_ref cached) else None
  | None => None
  end.
(** [answer] is what the resolver says when it is asked for one.
    src: crates/pulsing-actor/src/actor/reference.rs 74-104 get *)
Definition get_step (t : nat) (answer : Result R PulsingError) (l : LazyActorRef) : option LazyActorRef :=
  match tasks l !! t with
  | Some Looking => Some (match look l with Some r => finish t (Ok r) l | None => set_task t Waiting l end)
  | Some Waiting => match refresh_lock l with None => Some (set_task t Rechecking (set_lock (Some t) l)) | Some _ => None end
  | Some Rechecking => Some (match look l with Some r => finish t (Ok r) l | None => set_task t Resolving (count_call l) end)
  | Some Resolving =>
      Some (match answer with Ok r => set_task t (Storing r) l | Err e => finish t (Err e) (count_failure l) end)
  | Some (Storing r) => Some (finish t (Ok r) (set_cache (Some (mk_cached r (now l))) l))
  | Some (Finished _) | None => None
  end.
(** src: crates/pulsing-actor/src/actor/reference.rs 106-109 invalidate *)
Definition invalidate (l : LazyActorRef) : LazyActorRef :=
  mk_lazy None (refresh_lock l) (tasks l) (now l) (calls l) (failures l) (invalidations l + 1).

(** ** Runs *)
Inductive Event := Begin (t : nat) | Move (t : nat) (answer : Result R PulsingError) | Invalidate | Wait (d : Z).
Definition event (l : LazyActorRef) (e : Event) : option LazyActorRef :=
  match e with
  | Begin t => match tasks l !! t with None => Some (set_task t Looking l) | Some _ => None end
  | Move t answer => get_step t answer l
  | Invalidate => Some (invalidate l)
  | Wait d => if 0 <=? d then Some (mk_lazy (cache l) (refresh_lock l) (tasks l) (now l + d) (calls l) (failures l) (invalidations l)) else None
  end.
Definition run_events (es : list Event) (l : LazyActorRef) : option LazyActorRef := foldl (λ l e, l ← l; event l e) (Some l) es.

Lemma run_ind (P : LazyActorRef → Prop) es l l' :
  (∀ l e l', P l → event l e = Some l' → P l') → P l → run_events es l = Some l' → P l'.
Proof.
  intros Hstep Hl. unfold run_events. revert l' . induction es as [|e es IH] using rev_ind; intros l'; [by intros [= <-]|].
  rewrite foldl_app. cbn [foldl]. destruct (foldl _ _ es) as [m|]; [|done]. intros He. eapply Hstep, He. by apply IH.
Qed.

(** ** Who holds the lock, and how often the resolver is called *)
Definition in_section (ph : Phase) : bool := match ph with Rechecking | Resolving | Storing _ => true | _ => false end.
Definition in_flight (ph : Phase) : bool := match ph with Resolving | Storing _ => true | _ => false end.
Definition refreshing (l : LazyActorRef) : bool :=
  match refresh_lock l with Some t => from_option in_flight false (tasks l !! t) | None => false end.

Record lazy_inv (t0 : Z) (l : LazyActorRef) : Prop := {
  li_holder t ph : tasks l !! t = Some ph → in_section ph = true ↔ refresh_lock l = Some t;
  li_known t : refresh_lock l = Some t → is_Some (tasks l !! t);
  li_time : t0 <= now l ∧ from_option (λ c, t0 <= cached_at c <= now l) True (cache l);
  li_none : cache l = None → refreshing l = false → CACHE_TTL * (calls l - failures l - invalidations l) <= now l - t0;
  li_some c : cache l = Some c → CACHE_TTL * (calls l - (if refreshing l then 2 else 1) - failures l - invalidations l) <= cached_at c - t0;
  li_flight : refreshing l = true → CACHE_TTL * (calls l - 1 - failures l - invalidations l) <= now l - t0
}.

Implicit Types (l : LazyActorRef).
Lemma refreshing_set t ph l : refreshing (set_task t ph l) =
  if bool_decide (refresh_lock l = Some t) then in_flight ph else refreshing l.
Proof.
  unfold refreshing. simpl. destruct (refresh_lock l) as [u|]; [|done]. rewrite lookup_insert. case_bool_decide as Hu.
  - injection Hu as ->. by rewrite decide_True.
  - rewrite decide_False by congruence. done.
Qed.
Lemma lazy_inv_new t0 : lazy_inv t0 (LazyActorRef_new t0).
Proof. split; simpl; try done; intros; lia. Qed.

(** The facts on tasks and lock, apart from those on counts and times. *)
Lemma holder_set t ph l t0 : lazy_inv t0 l → (∀ old, tasks l !! t = Some old → in_section old = in_section ph) →
  (tasks l !! t = None → in_section ph = false) →
  (∀ u ph', <[t := ph]> (tasks l) !! u = Some ph' → in_section ph' = true ↔ refresh_lock l = Some u) ∧
  (∀ u, refresh_lock l = Some u → is_Some (<[t := ph]> (tasks l) !! u)).
Proof.
  intros Hi Hold Hnew. split.
  - intros u ph'. rewrite lookup_insert. case_decide as Hu; [|apply (li_holder _ _ Hi)]. intros [= <-]. subst u.
    destruct (tasks l !! t) as [old|] eqn:Ht.
    + rewrite <- (Hold old eq_refl). by apply (li_holder _ _ Hi).
    + rewrite (Hnew eq_refl). split; [done|]. intros Hl. apply (li_known _ _ Hi) in Hl as [? ?]. congruence.
  - intros u Hu. rewrite lookup_insert. case_decide; [by eexists|]. by apply (li_known _ _ Hi).
Qed.

Lemma inv_same_section t ph l t0 : lazy_inv t0 l → (∀ old, tasks l !! t = Some old → in_section old = in_section ph ∧ in_flight old = in_flight ph) →
  (tasks l !! t = None → in_section ph = false) → lazy_inv t0 (set_task t ph l).
Proof.
  intros Hi Hold Hnew. destruct (holder_set t ph l t0 Hi) as [H1 H2]; [by intros old Ho; apply Hold|done|].
  assert (Hr : refreshing (set_task t ph l) = refreshing l).
  { rewrite refreshing_set. case_bool_decide as Hl; [|done]. unfold refreshing. rewrite Hl.
    destruct (li_known _ _ Hi _ Hl) as [old Ho]. rewrite Ho. simpl. by destruct (Hold old Ho). }
  destruct Hi as [_ _ Ht Hn Hs Hf]. split; simpl; rewrite ?Hr; try done.
Qed.

(** The holder ends, and the lock is free. *)
Lemma finish_holder t r l t0 : lazy_inv t0 l → refresh_lock l = Some t →
  finish t r l = set_task t (Finished r) (set_lock None l) ∧
  (∀ u ph, tasks (finish t r l) !! u = Some ph → in_section ph = true ↔ refresh_lock (finish t r l) = Some u).
Proof.
  intros Hi Hl. unfold finish. rewrite bool_decide_true by done. split; [done|]. intros u ph. simpl. rewrite lookup_insert.
  case_decide as Hu; [by intros [= <-]|]. intros Hp. apply (li_holder _ _ Hi) in Hp. rewrite Hp, Hl. split; congruence.
Qed.
Lemma inv_finish t r l t0 old : lazy_inv t0 l → tasks l !! t = Some old → in_flight old = false → lazy_inv t0 (finish t r l).
Proof.
  intros Hi Ho Hf. pose proof Hi as [H1 H2 H3 H4 H5 H6]. destruct (decide (refresh_lock l = Some t)) as [Hl|Hl].
  - destruct (finish_holder t r l t0 Hi Hl) as [-> Hh]. assert (Hr : refreshing l = false) by (unfold refreshing; rewrite Hl, Ho; done). rewrite Hr in *.
    split; simpl; try done.
  - unfold finish. rewrite bool_decide_false by done.
    apply inv_same_section; [done| |by rewrite Ho]. intros old' Ho'. simplify_eq. rewrite Hf. split; [|done]. simpl.
    apply not_true_is_false. by rewrite (H1 _ _ Ho).
Qed.

Lemma look_fresh l : look l = None → from_option (λ c, CACHE_TTL <= now l - cached_at c ∨ now l < cached_at c) True (cache l).
Proof.
  unfold look. destruct (cache l) as [c|]; [|done]. destruct (Z.ltb_spec (saturating_sub (now l) (cached_at c)) CACHE_TTL); [done|].
  intros _. simpl. unfold saturating_sub, CACHE_TTL in *. lia.
Qed.

Lemma inv_get t answer l l' t0 : lazy_inv t0 l → get_step t answer l = Some l' → lazy_inv t0 l'.
Proof.
  intros Hi. pose proof Hi as [H1 H2 H3 H4 H5 H6]. unfold get_step. destruct (tasks l !! t) as [ph|] eqn:Ht; [|done].
  destruct ph as [| | | |r|r]; [destruct (look l)|destruct (refresh_lock l) as [h|] eqn:Hl; [done|]|destruct (look l) eqn:Hlook|destruct answer as [r|e]| |done]; intros [= <-].
  - by eapply inv_finish.
  - apply inv_same_section; [done| |by rewrite Ht]. intros old Ho. by simplify_eq.
  - assert (Hr : refreshing l = false) by (unfold refreshing; by rewrite Hl). rewrite Hr in *.
    assert (Hr' : refreshing (set_task t Rechecking (set_lock (Some t) l)) = false) by (rewrite refreshing_set; simpl; by rewrite bool_decide_true).
    split; rewrite ?Hr'; simpl; try done.
    + intros u ph. rewrite lookup_insert. case_decide as Hu; [intros [= <-]; by subst|]. intros Hp. apply H1 in Hp. rewrite Hp. split; congruence.
    + intros u [= <-]. rewrite lookup_insert_eq. by eexists.
  - by eapply inv_finish.
  - assert (Hh : refresh_lock l = Some t) by by apply (H1 t Rechecking Ht).
    assert (Hr : refreshing l = false) by (unfold refreshing; rewrite Hh, Ht; done). rewrite Hr in *. apply look_fresh in Hlook.
    assert (Hr' : refreshing (set_task t Resolving (count_call l)) = true) by (rewrite refreshing_set; simpl; by rewrite bool_decide_true).
    destruct (holder_set t Resolving l t0 Hi) as [G1 G2]; [intros old Ho; by simplify_eq|by rewrite Ht|].
    split; rewrite ?Hr'; simpl; try done.
    + intros c Hc. specialize (H5 c Hc). lia.
    + intros _. destruct (cache l) as [c|] eqn:Hc; [|specialize (H4 eq_refl eq_refl); lia]. specialize (H5 c eq_refl). simpl in *. lia.
  - apply inv_same_section; [done| |by rewrite Ht]. intros old Ho. by simplify_eq.
  - assert (Hh : refresh_lock l = Some t) by by apply (H1 t Resolving Ht).
    assert (Hr : refreshing l = true) by (unfold refreshing; rewrite Hh, Ht; done). rewrite Hr in *. specialize (H6 eq_refl).
    destruct (finish_holder t (Err e) l t0 Hi Hh) as [Hfin Hsec]. rewrite Hfin in Hsec. unfold finish. simpl. rewrite bool_decide_true by done.
    split; simpl; try done; [intros; unfold CACHE_TTL in *; lia|]. intros c Hc. specialize (H5 c Hc). unfold refreshing. simpl. lia.
  - assert (Hh : refresh_lock l = Some t) by by apply (H1 t (Storing r) Ht).
    assert (Hr : refreshing l = true) by (unfold refreshing; rewrite Hh, Ht; done). rewrite Hr in *. specialize (H6 eq_refl).
    destruct (finish_holder t (Ok r) l t0 Hi Hh) as [Hfin Hsec]. rewrite Hfin in Hsec. unfold finish. simpl. rewrite bool_decide_true by done.
    split; simpl; try done; [lia|]. intros c [= <-]. unfold refreshing. simpl. lia.
Qed.

Lemma inv_event e l l' t0 : lazy_inv t0 l → event l e = Some l' → lazy_inv t0 l'.
Proof.
  intros Hi. destruct e as [t|t answer| |d]; cbn [event].
  - destruct (tasks l !! t) eqn:Ht; [done|]. intros [= <-]. apply inv_same_section; [done|by rewrite Ht|done].
  - by apply inv_get.
  - intros [= <-]. destruct Hi as [H1 H2 H3 H4 H5 H6]. unfold invalidate. split; simpl; try done; [lia| |].
    + intros _ Hr. change (refreshing l = false) in Hr. rewrite Hr in *. destruct (cache l) as [c|]; [specialize (H5 c eq_refl); simpl in H3|specialize (H4 eq_refl eq_refl)]; unfold CACHE_TTL in *; lia.
    + intros Hr. specialize (H6 Hr). unfold CACHE_TTL in *. lia.
  - destruct (Z.leb_spec 0 d); [|done]. intros [= <-]. destruct Hi as [H1 H2 H3 H4 H5 H6]. split; simpl; try done.
    + destruct (cache l); simpl in *; lia.
    + intros Hc Hr. specialize (H4 Hc Hr). lia.
    + intros Hr. specialize (H6 Hr). lia.
Qed.

Definition finished (ph : Phase) : Prop := match ph with Finished _ => True | _ => False end.

(** However many tasks use a lazy reference at once, the resolver is called once
    per [CACHE_TTL], and once more for each call that failed and each
    invalidation; only one task is between the lock and the end, and while any
    task has not finished, one of them can move. *)
Theorem resolutions_are_rare t0 es l : run_events es (LazyActorRef_new t0) = Some l →
  CACHE_TTL * (calls l - 1 - failures l - invalidations l) <= now l - t0 ∧
  (∀ t u ph ph', tasks l !! t = Some ph → tasks l !! u = Some ph' → in_section ph = true → in_section ph' = true → t = u) ∧
  (∀ t ph answer, tasks l !! t = Some ph → ¬ finished ph → ∃ u l', get_step u answer l = Some l').
Proof.
  intros Hrun. assert (Hi : lazy_inv t0 l).
  { eapply (run_ind (lazy_inv t0)); [|apply lazy_inv_new|exact Hrun]. intros m e m' Hm. by apply inv_event. }
  destruct Hi as [H1 H2 H3 H4 H5 H6]. split_and!.
  - destruct (refreshing l); [by apply H6|]. destruct (cache l) as [c|]; [specialize (H5 c eq_refl); simpl in H3; lia|].
    specialize (H4 eq_refl eq_refl). unfold CACHE_TTL in *. lia.
  - intros t u ph ph' Ht Hu Hp Hp'. apply (H1 _ _ Ht) in Hp. apply (H1 _ _ Hu) in Hp'. congruence.
  - intros t ph answer Ht Hnf. destruct (refresh_lock l) as [h|] eqn:Hl.
    + destruct (H2 h eq_refl) as [ph' Hh]. pose proof (proj2 (H1 _ _ Hh) eq_refl) as Hs. exists h. unfold get_step. rewrite Hh.
      destruct ph'; try done; eauto.
    + exists t. unfold get_step. rewrite Ht, Hl. destruct ph; eauto. by destruct Hnf.
Qed.

(** An invalidation that comes while the path is resolved is lost: the answer from
    before it is kept after it, and the next call gets it. *)
Lemma invalidation_is_lost r :
  ∃ l, run_events [Begin 0; Move 0 (Ok r); Move 0 (Ok r); Move 0 (Ok r); Move 0 (Ok r); Invalidate; Move 0 (Ok r); Begin 1;
                   Move 1 (Err (Runtime ClusterNotInitialized))] (LazyActorRef_new 0) = Some l ∧
    calls l = 1 ∧ tasks l !! 1%nat = Some (Finished (Ok r)).
Proof. eexists. split; [vm_compute; reflexivity|by split]. Qed.
End Lazy.
Arguments CachedRef : clear implicits.
Arguments Phase : clear implicits.
Arguments LazyActorRef : clear implicits.
Arguments Event : clear implicits.

(** Three tasks that ask at the same time. *)
Definition three_at_once : list (Event nat) :=
  [Begin 0; Begin 1; Begin 2; Move 0 (Ok 7); Move 1 (Ok 7); Move 2 (Ok 7); Move 1 (Ok 7); Move 1 (Ok 7); Move 1 (Ok 7); Wait 3; Move 1 (Ok 7);
   Move 2 (Ok 8); Move 2 (Ok 8); Move 0 (Ok 9); Move 0 (Ok 9)]%nat.
Lemma resolutions_are_rare_witness : ∃ l, run_events three_at_once (LazyActorRef_new 10) = Some l ∧ calls l = 1 ∧
  tasks l !! 0%nat = Some (Finished (Ok 7%nat)) ∧
  (CACHE_TTL * (calls l - 1 - failures l - invalidations l) <= now l - 10 ∧
  (∀ t u ph ph', tasks l !! t = Some ph → tasks l !! u = Some ph' → in_section ph = true → in_section ph' = true → t = u) ∧
  (∀ t ph answer, tasks l !! t = Some ph → ¬ finished ph → ∃ u l', get_step u answer l = Some l')).
Proof.
  eexists. split; [vm_compute; reflexivity|]. split; [reflexivity|]. split; [reflexivity|].
  apply (resolutions_are_rare 10 three_at_once). vm_compute. reflexivity.
Defined.
