(* ===== verification/Retry.v ===== *)
(** * Sending again

    [transport/http2/retry.rs]: which errors are worth another attempt, how long
    to wait before it, and the loop around a call. What the [n]-th call yields
    and the jitter of its pause are arguments. *)
From S2P Require Import Prelude Text Float Errors.

(** ** Which errors *)

(** src: crates/pulsing-actor/src/transport/http2/retry.rs 107-115 RetryableError *)
Inductive RetryableError := Connection | TimedOut | ServerOverloaded | ServerError | ClientError | Unknown.
#[export] Instance RetryableError_eq_dec : EqDecision RetryableError.
Proof. solve_decision. Defined.

Definition any_of (ps : list str) (msg : str) : bool := existsb (λ p, contains p msg) ps.

Section Retry.
Context `{Lowercase}.

(** src: crates/pulsing-actor/src/transport/http2/retry.rs 125-166 classify_msg *)
Definition classify_msg (msg : str) : RetryableError :=
  let msg := to_lowercase msg in
  if contains (lit "backing off") msg then Unknown
  else if any_of [lit "connection"; lit "connect"; lit "refused"; lit "reset"] msg then Connection
  else if any_of [lit "timeout"; lit "timed out"] msg then TimedOut
  else if any_of [lit "503"; lit "service unavailable"] msg then ServerOverloaded
  else if any_of [lit "500"; lit "502"; lit "504"; lit "internal server error"; lit "bad gateway"; lit "gateway timeout"] msg
  then ServerError
  else if any_of [lit "400"; lit "401"; lit "403"; lit "404"; lit "bad request"; lit "unauthorized"; lit "forbidden"; lit "not found"] msg
  then ClientError
  else Unknown.
(** src: crates/pulsing-actor/src/transport/http2/retry.rs 119-123 classify_pulsing *)
Definition classify_pulsing (e : PulsingError) : RetryableError := classify_msg (to_lowercase (display e)).

(** src: crates/pulsing-actor/src/transport/http2/retry.rs 173-188 is_retryable *)
Definition is_retryable (k : RetryableError) (idempotent_only is_idempotent : bool) : bool :=
  match k with
  | Connection => true
  | TimedOut => negb idempotent_only || is_idempotent
  | ServerOverloaded => true
  | ServerError => negb idempotent_only || is_idempotent
  | ClientError => false
  | Unknown => false
  end.

(** ** How long to wait *)

(** Durations are in milliseconds, as far as they are read.
    src: crates/pulsing-actor/src/transport/http2/retry.rs 8-15 RetryConfig *)
Record RetryConfig := mk_retry {
  max_retries : Z; initial_delay : Z; max_delay : Z; backoff_multiplier : float; use_jitter : bool; idempotent_only : bool }.
(** src: crates/pulsing-actor/src/transport/http2/retry.rs 17-28 RetryConfig::default *)
Definition RetryConfig_default : RetryConfig := mk_retry 3 100 10000 (f64_of_Z 2) true true.
(** src: crates/pulsing-actor/src/transport/http2/retry.rs 31-36 no_retry *)
Definition no_retry : RetryConfig := mk_retry 0 100 10000 (f64_of_Z 2) true true.
(** src: crates/pulsing-actor/src/transport/http2/retry.rs 38-43 with_max_retries *)
Definition with_max_retries (n : Z) : RetryConfig := mk_retry n 100 10000 (f64_of_Z 2) true true.
(** src: crates/pulsing-actor/src/transport/http2/retry.rs 70-73 allow_non_idempotent *)
Definition allow_non_idempotent (c : RetryConfig) : RetryConfig :=
  mk_retry (max_retries c) (initial_delay c) (max_delay c) (backoff_multiplier c) (use_jitter c) false.

(** src: crates/pulsing-actor/src/transport/http2/retry.rs 98-104 rand_jitter *)
Definition rand_jitter (subsec_nanos : Z) : float := f64_div (f64_of_Z (subsec_nanos mod 1000)) (f64_of_Z 1000).
(** src: crates/pulsing-actor/src/transport/http2/retry.rs 75-94 delay_for_attempt *)
Definition delay_for_attempt (c : RetryConfig) (subsec_nanos : Z) (attempt : Z) : Z :=
  if attempt =? 0 then 0
  else
    let base_delay := f64_mul (f64_of_Z (initial_delay c)) (f64_powi (backoff_multiplier c) (as_i32 (saturating_sub attempt 1))) in
    let capped_delay := f_min base_delay (f64_of_Z (max_delay c)) in
    let final_delay := if use_jitter c then f64_mul capped_delay (f64_add (f64_lit 5 1) (rand_jitter subsec_nanos)) else capped_delay in
    f_to_u64 final_delay.

(** ** The loop *)
Section Execute.
Context {T : Type}.

(** The result, the number of calls made and the pauses before them. [remaining] is
    what is left of the range [0..=max_retries].
    src: crates/pulsing-actor/src/transport/http2/retry.rs 209-241 execute (loop) *)
Fixpoint execute_from (c : RetryConfig) (is_idempotent : bool) (nanos : nat → Z) (f : nat → Result T PulsingError)
    (remaining attempt : nat) (last_error : option PulsingError) : Result T PulsingError * nat * list Z :=
  match remaining with
  | O => (Err (default (Runtime (Other (lit "Max retries exceeded"))) last_error), O, [])
  | S remaining =>
      let pause := if (0 <? attempt)%nat then [delay_for_attempt c (nanos attempt) (Z.of_nat attempt)] else [] in
      match f attempt with
      | Ok result => (Ok result, 1%nat, pause)
      | Err e =>
          let should_retry := (Z.of_nat attempt <? max_retries c) && is_retryable (classify_pulsing e) (idempotent_only c) is_idempotent in
          if should_retry then
            let '(r, calls, pauses) := execute_from c is_idempotent nanos f remaining (S attempt) (Some e) in
            (r, S calls, pause ++ pauses)
          else (Err e, 1%nat, pause)
      end
  end.
(** src: crates/pulsing-actor/src/transport/http2/retry.rs 202-248 execute *)
Definition execute (c : RetryConfig) (is_idempotent : bool) (nanos : nat → Z) (f : nat → Result T PulsingError)
    : Result T PulsingError * nat * list Z :=
  execute_from c is_idempotent nanos f (S (Z.to_nat (max_retries c))) 0 None.
End Execute.
End Retry.

(** ** Properties *)
Section Facts.
Context `{Lowercase}.

Definition worth_it (c : RetryConfig) (is_idempotent : bool) (e : PulsingError) : bool :=
  is_retryable (classify_pulsing e) (idempotent_only c) is_idempotent.

Lemma execute_from_spec {T} c is_idempotent nanos (f : nat → Result T PulsingError) remaining attempt last r calls pauses :
  Z.of_nat (attempt + remaining) = max_retries c + 1 → (0 < remaining)%nat →
  execute_from c is_idempotent nanos f remaining attempt last = (r, calls, pauses) →
  (1 ≤ calls ≤ remaining)%nat ∧ f (attempt + calls - 1)%nat = r ∧
  (∀ i, (attempt ≤ i < attempt + calls - 1)%nat → ∃ e, f i = Err e ∧ worth_it c is_idempotent e = true) ∧
  (∀ e, r = Err e → calls = remaining ∨ worth_it c is_idempotent e = false) ∧
  pauses = (λ i, delay_for_attempt c (nanos i) (Z.of_nat i)) <$> (if (attempt =? 0)%nat then seq 1 (calls - 1) else seq attempt calls).
Proof.
  revert attempt last r calls pauses. induction remaining as [|remaining IH]; intros attempt last r calls pauses Hn Hl; [lia|].
  cbn [execute_from].
  assert (Hp : (if (0 <? attempt)%nat then [delay_for_attempt c (nanos attempt) (Z.of_nat attempt)] else []) =
    (λ i, delay_for_attempt c (nanos i) (Z.of_nat i)) <$> (if (attempt =? 0)%nat then [] else [attempt])) by by destruct attempt.
  rewrite Hp. clear Hp. set (g := λ i, delay_for_attempt c (nanos i) (Z.of_nat i)).
  assert (Hone : ∀ r, f attempt = r → (∀ e, r = Err e → 1%nat = S remaining ∨ worth_it c is_idempotent e = false) →
    (1 ≤ 1 ≤ S remaining)%nat ∧ f (attempt + 1 - 1)%nat = r ∧
    (∀ i, (attempt ≤ i < attempt + 1 - 1)%nat → ∃ e, f i = Err e ∧ worth_it c is_idempotent e = true) ∧
    (∀ e, r = Err e → 1%nat = S remaining ∨ worth_it c is_idempotent e = false) ∧
    g <$> (if (attempt =? 0)%nat then [] else [attempt]) = g <$> (if (attempt =? 0)%nat then seq 1 (1 - 1) else seq attempt 1)).
  { intros r' Hr He. rewrite Nat.add_sub. split_and!; [lia|lia|done|intros; lia|done|by destruct attempt]. }
  destruct (f attempt) as [x|e] eqn:Ef; [intros [= <- <- <-]; by apply Hone|].
  destruct (Z.of_nat attempt <? max_retries c) eqn:Ea; [|intros [= <- <- <-]; apply Hone; [done|]; intros; left; lia].
  fold (worth_it c is_idempotent e). destruct (worth_it c is_idempotent e) eqn:Ew;
    [|intros [= <- <- <-]; apply Hone; [done|]; intros ? [= <-]; by right].
  destruct (execute_from _ _ _ _ remaining (S attempt) _) as [[r' calls'] pauses'] eqn:Er. intros [= <- <- <-].
  destruct (IH (S attempt) (Some e) r' calls' pauses') as (H1 & H2 & H3 & H4 & H5); [lia|lia|done|].
  split_and!; [lia|lia| | | |].
  - rewrite <- H2. f_equal. lia.
  - intros i Hi. destruct (decide (i = attempt)) as [->|]; [by exists e|]. apply H3. lia.
  - intros e' He'. destruct (H4 e' He'); [left; lia|by right].
  - rewrite H5. destruct attempt as [|attempt]; simpl; [by rewrite Nat.sub_0_r|]. done.
Qed.

(** A call is made once and at most [max_retries] times more: its result is
    that of the last call, every earlier one failed with an error worth another
    attempt, an error is final only when it is not or when the attempts are
    used up, and before the [i]-th repetition there is the pause for it. *)
Theorem execute_spec {T} c is_idempotent nanos (f : nat → Result T PulsingError) : 0 <= max_retries c →
  let '(r, calls, pauses) := execute c is_idempotent nanos f in
  1 <= Z.of_nat calls <= max_retries c + 1 ∧ f (calls - 1)%nat = r ∧
  (∀ i, (i < calls - 1)%nat → ∃ e, f i = Err e ∧ worth_it c is_idempotent e = true) ∧
  (∀ e, r = Err e → Z.of_nat calls = max_retries c + 1 ∨ worth_it c is_idempotent e = false) ∧
  pauses = (λ i, delay_for_attempt c (nanos i) (Z.of_nat i)) <$> seq 1 (calls - 1).
Proof.
  intros Hm. unfold execute. destruct (execute_from _ _ _ _ _ _ _) as [[r calls] pauses] eqn:E.
  apply execute_from_spec in E as (H1 & H2 & H3 & H4 & H5); [|lia..]. simpl in *. split_and!; [lia|lia|done| | |done].
  - intros i Hi. apply H3. lia.
  - intros e He. destruct (H4 e He); [left; lia|by right].
Qed.
End Facts.

Lemma execute_spec_witness : 0 <= 2 ∧
  let f := λ n, match n with O | 1%nat => Err (Runtime (ConnectionFailed "10.0.0.1:80" "refused")) | _ => Ok n end in
  let '(r, calls, pauses) := execute (with_max_retries 2) false (λ _, 500) f in
  1 <= Z.of_nat calls <= 2 + 1 ∧ f (calls - 1)%nat = r ∧
  (∀ i, (i < calls - 1)%nat → ∃ e, f i = Err e ∧ worth_it (with_max_retries 2) false e = true) ∧
  (∀ e, r = Err e → Z.of_nat calls = 2 + 1 ∨ worth_it (with_max_retries 2) false e = false) ∧
  pauses = (λ i, delay_for_attempt (with_max_retries 2) 500 (Z.of_nat i)) <$> seq 1 (calls - 1).
Proof. split; [lia|]. apply (execute_spec (with_max_retries 2) false (λ _, 500)). simpl. lia. Defined.
