(* ===== verification/Pool.v ===== *)
(** * The connection pool

    [transport/http2/pool.rs]: connections per host, kept below a cap by a
    semaphore whose permits live as long as the connections. Tasks take
    connections and give them back while others do the same, so every call is a
    program of accesses to the pool's locks and counters. What a network call
    yields, the clock, and whether a connection's lock is held by someone else
    are arguments. *)
From S2P Require Import Prelude Text Member Atomic Errors.

#[export] Instance SocketAddr_countable : Countable SocketAddr.
Proof.
  refine (inj_countable' (λ a, (match ip a with V4 b => (true, b) | V6 b => (false, b) end, port a))
    (λ '(b, p), mk_addr (if fst b : bool then V4 (snd b) else V6 (snd b)) p) _). by intros [[] ?].
Defined.

(** ** Connections *)

(** src: crates/pulsing-actor/src/transport/http2/pool.rs 44-50 ConnectionState *)
Inductive ConnectionState := Idle | Active | Unhealthy | Expired.
#[export] Instance ConnectionState_eq_dec : EqDecision ConnectionState.
Proof. solve_decision. Defined.
(** The sender is the connection itself, and the permit is the slot it is in.
    src: crates/pulsing-actor/src/transport/http2/pool.rs 53-61 PooledConnection *)
Record PooledConnection := mk_conn { created_at : Z; last_used : Z; request_count : Z; state : ConnectionState }.
(** src: crates/pulsing-actor/src/transport/http2/pool.rs 64-74 PooledConnection::new *)
Definition PooledConnection_new (now : Z) : PooledConnection := mk_conn now now 0 Idle.
(** src: crates/pulsing-actor/src/transport/http2/pool.rs 102-106 mark_used *)
Definition mark_used (now : Z) (c : PooledConnection) : PooledConnection :=
  mk_conn (created_at c) now (request_count c +w 1) Active.
(** src: crates/pulsing-actor/src/transport/http2/pool.rs 108-110 mark_idle *)
Definition mark_idle (c : PooledConnection) : PooledConnection :=
  mk_conn (created_at c) (last_used c) (request_count c) Idle.

(** The settings that are read; durations in nanoseconds.
    src: crates/pulsing-actor/src/transport/http2/pool.rs 115-133 PoolConfig *)
Record PoolConfig := mk_config {
  max_connections_per_host : Z; max_connection_age : option Z; max_idle_time : option Z; max_requests_per_connection : option Z }.
(** src: crates/pulsing-actor/src/transport/http2/pool.rs 135-149 PoolConfig::default *)
Definition PoolConfig_default : PoolConfig := mk_config 8 (Some (300 * 10 ^ 9)) (Some (60 * 10 ^ 9)) (Some 1000).
(** src: crates/pulsing-actor/src/transport/http2/pool.rs 151-159 From *)
Definition PoolConfig_from (max_connections : Z) : PoolConfig :=
  mk_config max_connections (max_connection_age PoolConfig_default) (max_idle_time PoolConfig_default) (max_requests_per_connection PoolConfig_default).

(** [Instant::elapsed]: never negative. *)
Definition elapsed (now t : Z) : Z := saturating_sub now t.
Definition within (limit : option Z) (d : Z) : bool := match limit with Some l => d <=? l | None => true end.
(** src: crates/pulsing-actor/src/transport/http2/pool.rs 76-100 is_healthy *)
Definition is_healthy (config : PoolConfig) (ready : bool) (now : Z) (c : PooledConnection) : bool :=
  ready && within (max_connection_age config) (elapsed now (created_at c)) && within (max_idle_time config) (elapsed now (last_used c)) &&
  match max_requests_per_connection config with Some m => request_count c <? m | None => true end.

(** ** The pool of a host *)

(** [tokio::sync::Semaphore::MAX_PERMITS]. *)
Class Tokio : Type := { MAX_PERMITS : Z; max_permits_range : 1 <= MAX_PERMITS < two64 }.
#[export] Program Instance tokio64 : Tokio := {| MAX_PERMITS := 2 ^ 61 - 1 |}.
Next Obligation. by vm_compute. Qed.

(** [connections] holds the slots of the connections; [permits] is what the
    semaphore still has.
    src: crates/pulsing-actor/src/transport/http2/pool.rs 162-173 HostPool *)
Record HostPool := mk_host { connections : list nat; permits : Z; current_cap : Z; last_error : option Z; error_count : Z }.

Section Pool.
Context `{Tokio}.

(** src: crates/pulsing-actor/src/transport/http2/pool.rs 176-186 HostPool::new *)
Definition HostPool_new (initial_cap : Z) : HostPool :=
  let cap := Z.max 1 (Z.min initial_cap MAX_PERMITS) in mk_host [] cap cap None 0.
(** src: crates/pulsing-actor/src/transport/http2/pool.rs 188-191 record_error *)
Definition record_error (now : Z) (hp : HostPool) : HostPool :=
  mk_host (connections hp) (permits hp) (current_cap hp) (Some now) (Z.min (error_count hp + 1) (two32 - 1)).
(** src: crates/pulsing-actor/src/transport/http2/pool.rs 193-195 record_success *)
Definition record_success (hp : HostPool) : HostPool :=
  mk_host (connections hp) (permits hp) (current_cap hp) (last_error hp) 0.
(** src: crates/pulsing-actor/src/transport/http2/pool.rs 198-211 expand *)
Definition expand (hp : HostPool) : option HostPool :=
  let old := current_cap hp in
  let target := Z.min (Z.min (old * 2) (two64 - 1)) MAX_PERMITS in
  let added := saturating_sub target old in
  if added =? 0 then None
  else Some (mk_host (connections hp) (permits hp + added) target (last_error hp) (error_count hp)).
(** src: crates/pulsing-actor/src/transport/http2/pool.rs 214-222 should_backoff *)
Definition should_backoff (now : Z) (hp : HostPool) : bool :=
  match last_error hp with
  | Some t =>
      let backoff_ms := 100 * Z.min (2 ^ Z.min (error_count hp) 6) (two32 - 1) in
      elapsed now t <? backoff_ms * 10 ^ 6
  | None => false
  end.
Definition set_connections (f : list nat → list nat) (hp : HostPool) : HostPool :=
  mk_host (f (connections hp)) (permits hp) (current_cap hp) (last_error hp) (error_count hp).
Definition add_permits (n : Z) (hp : HostPool) : HostPool :=
  mk_host (connections hp) (permits hp + n) (current_cap hp) (last_error hp) (error_count hp).

(** ** The shared state *)

(** src: crates/pulsing-actor/src/transport/http2/pool.rs 18-27 PoolStats *)
Record PoolStats := mk_stats {
  connections_created : Z; connections_closed : Z; connections_reused : Z; connection_errors : Z; pool_expansions : Z;
  active_connections : Z; idle_connections : Z }.

(** A slot is a permit that was taken, of a host: in the hands of a task that
    connects, or moved into a connection, which lives as long as the pool or one
    of its [guards] refers to it. *)
Inductive Held := Connecting | Connected (c : PooledConnection) (guards : nat).
(** src: crates/pulsing-actor/src/transport/http2/pool.rs 226-235 ConnectionPool *)
Record ConnectionPool := mk_pool { pools : gmap SocketAddr HostPool; slots : gmap nat (SocketAddr * Held); stats : PoolStats }.
Definition ConnectionPool_new : ConnectionPool := mk_pool ∅ ∅ (mk_stats 0 0 0 0 0 0 0).

Definition on_host (f : HostPool → HostPool) (a : SocketAddr) (p : ConnectionPool) : ConnectionPool :=
  mk_pool (alter f a (pools p)) (slots p) (stats p).
Definition on_slots (f : gmap nat (SocketAddr * Held) → gmap nat (SocketAddr * Held)) (p : ConnectionPool) : ConnectionPool :=
  mk_pool (pools p) (f (slots p)) (stats p).
Definition on_stats (f : PoolStats → PoolStats) (p : ConnectionPool) : ConnectionPool := mk_pool (pools p) (slots p) (f (stats p)).
Definition count_created s := mk_stats (connections_created s +w 1) (connections_closed s) (connections_reused s) (connection_errors s) (pool_expansions s) (active_connections s) (idle_connections s).
Definition count_closed n s := mk_stats (connections_created s) (connections_closed s +w n) (connections_reused s) (connection_errors s) (pool_expansions s) (active_connections s) (idle_connections s).
Definition count_reused s := mk_stats (connections_created s) (connections_closed s) (connections_reused s +w 1) (connection_errors s) (pool_expansions s) (active_connections s) (idle_connections s).
Definition count_error s := mk_stats (connections_created s) (connections_closed s) (connections_reused s) (connection_errors s +w 1) (pool_expansions s) (active_connections s) (idle_connections s).
Definition count_expansion s := mk_stats (connections_created s) (connections_closed s) (connections_reused s) (connection_errors s) (pool_expansions s +w 1) (active_connections s) (idle_connections s).
Definition add_active n s := mk_stats (connections_created s) (connections_closed s) (connections_reused s) (connection_errors s) (pool_expansions s) (active_connections s +w n) (idle_connections s).
Definition add_idle n s := mk_stats (connections_created s) (connections_closed s) (connections_reused s) (connection_errors s) (pool_expansions s) (active_connections s) (idle_connections s +w n).

(** Dropping the permit of a slot, and with it the slot. *)
Definition give_back (k : nat) (p : ConnectionPool) : ConnectionPool :=
  match slots p !! k with
  | Some (a, _) => on_host (add_permits 1) a (on_slots (delete k) p)
  | None => p
  end.
Definition pooled (k : nat) (a : SocketAddr) (p : ConnectionPool) : bool :=
  match pools p !! a with Some hp => bool_decide (k ∈ connections hp) | None => false end.
(** A connection that nothing refers to any more is dropped. *)
Definition drop_unused (k : nat) (p : ConnectionPool) : ConnectionPool :=
  match slots p !! k with
  | Some (a, Connected _ O) => if pooled k a p then p else give_back k p
  | _ => p
  end.

(** What a task sees of the connections it looks at: whether the lock is held,
    whether the sender is ready, and the time. *)
Record Look := mk_look { busy : nat → bool; ready : nat → bool; time : nat → Z }.

(** ** Taking a connection *)
Context (config : PoolConfig).

Definition take_if_free (look : Look) (k : nat) (p : ConnectionPool) : ConnectionPool * bool :=
  match slots p !! k with
  | Some (a, Connected c n) =>
      if busy look k then (p, false)
      else if bool_decide (state c = Idle) && is_healthy config (ready look k) (time look k) c
      then (on_slots (<[k := (a, Connected (mark_used (time look k) c) (S n))]>) p, true)
      else (p, false)
  | _ => (p, false)
  end.
Fixpoint take_first (look : Look) (ks : list nat) : prog ConnectionPool (option nat) :=
  match ks with
  | [] => Ret None
  | k :: ks =>
      taken ← update (take_if_free look k);
      if (taken : bool) then
        write (on_stats (add_active 1));; write (on_stats (add_idle (-1)));; Ret (Some k)
      else take_first look ks
  end.
(** The read lock keeps the list while it is walked; a connection that went
    away meanwhile would not be found.
    src: crates/pulsing-actor/src/transport/http2/pool.rs 284-307 try_get_existing *)
Definition try_get_existing (look : Look) (a : SocketAddr) : prog ConnectionPool (option nat) :=
  ks ← read (λ p, match pools p !! a with Some hp => connections hp | None => [] end);
  take_first look ks.

Inductive PoolError := BackingOff | Disappeared | ReachedMaxPermits | PermitTimeout | ConnectError (e : str).

Definition take_permit (a : SocketAddr) (p : ConnectionPool) : ConnectionPool * option nat :=
  match pools p !! a with
  | Some hp =>
      if 0 <? permits hp then
        let k := fresh (dom (slots p)) in
        (on_host (add_permits (-1)) a (on_slots (<[k := (a, Connecting)]>) p), Some k)
      else (p, None)
  | None => (p, None)
  end.
(** [acquire_owned] with its timeout: it is looked at [polls] times. *)
Fixpoint acquire (polls : nat) (a : SocketAddr) : prog ConnectionPool (Result nat PoolError) :=
  match polls with
  | O => Ret (Err PermitTimeout)
  | S polls =>
      k ← update (take_permit a);
      match k with Some k => Ret (Ok k) | None => acquire polls a end
  end.
Definition expand_host (a : SocketAddr) (p : ConnectionPool) : ConnectionPool * Result bool PoolError :=
  match pools p !! a with
  | None => (p, Err Disappeared)
  | Some hp =>
      if permits hp =? 0 then
        match expand hp with
        | Some hp => (mk_pool (<[a := hp]> (pools p)) (slots p) (stats p), Ok true)
        | None => (p, Err ReachedMaxPermits)
        end
      else (p, Ok false)
  end.
(** src: crates/pulsing-actor/src/transport/http2/pool.rs 383-431 expand_and_acquire *)
Definition expand_and_acquire (polls : nat) (a : SocketAddr) : prog ConnectionPool (Result nat PoolError) :=
  did_expand_here ← update (expand_host a);
  match did_expand_here with
  | Err e => Ret (Err e)
  | Ok did_expand_here =>
      (if (did_expand_here : bool) then write (on_stats count_expansion) else Ret tt);;
      acquire polls a
  end.

(** What happens outside of the pool while a connection is made: the time of the
    back-off check, the polls of the semaphore, when the connection was made or
    the error, and the time the error is recorded. *)
Record Attempt := mk_attempt { check_time : Z; polls : nat; connected : Result Z str; error_time : Z }.

Definition ensure_host (a : SocketAddr) (p : ConnectionPool) : ConnectionPool :=
  match pools p !! a with
  | Some _ => p
  | None => mk_pool (<[a := HostPool_new (max_connections_per_host config)]> (pools p)) (slots p) (stats p)
  end.
(** The connection enters the pool when there is room; nothing else refers to it
    before, so it is put into its slot here.
    src: crates/pulsing-actor/src/transport/http2/pool.rs 359-368 create_new_connection (push) *)
Definition push_connection (a : SocketAddr) (k : nat) (c : PooledConnection) (p : ConnectionPool) : ConnectionPool :=
  match slots p !! k with
  | Some (b, Connecting) =>
      let p := on_slots (<[k := (b, Connected c 1)]>) p in
      on_host (λ hp, if Z.of_nat (length (connections hp)) <? current_cap hp then set_connections (λ ks, ks ++ [k]) hp else hp) a p
  | _ => p
  end.
(** src: crates/pulsing-actor/src/transport/http2/pool.rs 310-381 create_new_connection *)
Definition create_new_connection (t : Attempt) (a : SocketAddr) : prog ConnectionPool (Result nat PoolError) :=
  backing ← read (λ p, match pools p !! a with Some hp => should_backoff (check_time t) hp | None => false end);
  if (backing : bool) then Ret (Err BackingOff)
  else
    write (ensure_host a);;
    first ← update (take_permit a);
    permit ← (match first with Some k => Ret (Ok k) | None => expand_and_acquire (polls t) a end : prog ConnectionPool (Result nat PoolError));
    match permit with
    | Err e => Ret (Err e)
    | Ok k =>
        match connected t with
        | Err e =>
            write (give_back k);;
            write (on_host (record_error (error_time t)) a);;
            write (on_stats count_error);;
            Ret (Err (ConnectError e))
        | Ok made =>
            write (on_host record_success a);;
            write (push_connection a k (mark_used made (PooledConnection_new made)));;
            write (on_stats count_created);;
            write (on_stats (add_active 1));;
            Ret (Ok k)
        end
    end.

(** The errors of [anyhow!] and what they print. *)
Context (show : SocketAddr → str).
Definition pool_error_text (a : SocketAddr) (e : PoolError) : str :=
  match e with
  | BackingOff => lit "Connection to " ++ show a ++ lit " is backing off due to recent errors"
  | Disappeared => lit "Host pool for " ++ show a ++ lit " disappeared"
  | ReachedMaxPermits => lit "Connection pool for " ++ show a ++ lit " reached Semaphore::MAX_PERMITS"
  | PermitTimeout => lit "Timed out waiting for connection pool permit on " ++ show a
  | ConnectError e => e
  end.
(** src: crates/pulsing-actor/src/transport/http2/pool.rs 265-281 get_connection *)
Definition get_connection (look : Look) (t : Attempt) (a : SocketAddr) : prog ConnectionPool (Result nat PulsingError) :=
  existing ← try_get_existing look a;
  match existing with
  | Some k => write (on_stats count_reused);; Ret (Ok k)
  | None =>
      r ← create_new_connection t a;
      Ret (match r with Ok k => Ok k | Err e => Err (Runtime (ConnectionFailed (show a) (pool_error_text a e))) end)
  end.

(** ** Giving a connection back *)

(** The reference is given up with the mark: in between, only the counters
    change.
    src: crates/pulsing-actor/src/transport/http2/pool.rs 596-608 drop *)
Definition drop_guard (free : bool) (k : nat) : prog ConnectionPool unit :=
  write (λ p,
    match slots p !! k with
    | Some (a, Connected c n) => drop_unused k (on_slots (<[k := (a, Connected (if free then mark_idle c else c) (pred n))]>) p)
    | _ => p
    end);;
  write (on_stats (add_active (-1)));;
  write (on_stats (add_idle 1)).

(** ** Cleaning up *)
Definition keeps_connection (look : Look) (p : ConnectionPool) (k : nat) : bool :=
  match slots p !! k with
  | Some (_, Connected c _) => busy look k || is_healthy config (ready look k) (time look k) c
  | _ => true
  end.
(** One host: the unhealthy connections leave the pool, and those nobody uses
    are dropped. *)
Definition cleanup_host (look : Look) (a : SocketAddr) (p : ConnectionPool) : ConnectionPool * Z :=
  match pools p !! a with
  | None => (p, 0)
  | Some hp =>
      let gone := filter (λ k, keeps_connection look p k = false) (connections hp) in
      let p' := on_host (set_connections (filter (λ k, keeps_connection look p k = true))) a p in
      (foldl (λ p k, drop_unused k p) p' gone, Z.of_nat (length gone))
  end.
Definition cleanup_step (look : Look) (pn : ConnectionPool * Z) (a : SocketAddr) : ConnectionPool * Z :=
  let '(p, removed) := cleanup_host look a pn.1 in (p, pn.2 + removed).
(** src: crates/pulsing-actor/src/transport/http2/pool.rs 494-528 cleanup *)
Definition cleanup `{Oracle} (look : Look) : prog ConnectionPool unit :=
  total_removed ← update (λ p, foldl (cleanup_step look) (p, 0) (hm_iter (pools p)).*1);
  if 0 <? total_removed then write (on_stats (count_closed total_removed)) else Ret tt.
End Pool.
