(* ===== verification/PoolFacts.v ===== *)
(** * Properties of the connection pool

    Permits are neither lost nor invented, a connection is handed to one task at
    a time, and the pool has room for every connection that is made: in every
    interleaving of tasks that take, use and return connections. *)
From S2P Require Import Prelude Text Member Atomic Owned Float Errors Retry Pool.

Section Facts.
Context `{Tokio}.
Implicit Types (p : ConnectionPool) (hp : HostPool) (a b : SocketAddr) (k : nat) (X : gset nat).

(** ** Slots of a host *)
Definition slots_of a p : nat := size (filter (λ kv : nat * (SocketAddr * Held), kv.2.1 = a) (slots p)).
(** What is out: the permits of tasks that connect, and guards. *)
Definition token : Type := nat * option SocketAddr.
Definition token_of a (h : Held) : option (option SocketAddr) :=
  match h with Connecting => Some (Some a) | Connected _ O => None | Connected _ (S _) => Some None end.
Definition tokens_at k a (h : Held) : gset token := match token_of a h with Some t => {[(k, t)]} | None => ∅ end.
Definition out p : gset token := map_fold (λ k ah acc, tokens_at k ah.1 ah.2 ∪ acc) ∅ (slots p).

Lemma elem_of_tokens_at k a h x : x ∈ tokens_at k a h ↔ ∃ t, x = (k, t) ∧ token_of a h = Some t.
Proof. unfold tokens_at. destruct (token_of a h) as [t|]; set_solver. Qed.
Lemma elem_of_out k t p : (k, t) ∈ out p ↔ ∃ a h, slots p !! k = Some (a, h) ∧ token_of a h = Some t.
Proof.
  unfold out. apply (map_fold_weak_ind (λ acc m, (k, t) ∈ acc ↔ ∃ a h, m !! k = Some (a, h) ∧ token_of a h = Some t)).
  - split; [by intros ?%elem_of_empty|]. intros (a & h & Hl & _). by rewrite lookup_empty in Hl.
  - intros j [a h] m acc Hj IH. rewrite elem_of_union, elem_of_tokens_at, IH. simpl. destruct (decide (k = j)) as [->|].
    + rewrite lookup_insert_eq. split.
      * intros [(? & [= <-] & ?)|(? & ? & Hm & _)]; [eauto|congruence].
      * intros (? & ? & [= <- <-] & ?). left. eauto.
    + rewrite lookup_insert_ne by done. naive_solver.
Qed.
Lemma count_insert {V} (P : nat * V → Prop) `{∀ x, Decision (P x)} k v (m : gmap nat V) :
  m !! k = None → size (filter P (<[k := v]> m)) = ((if decide (P (k, v)) then 1 else 0) + size (filter P m))%nat.
Proof.
  intros Hk. case_decide as HP.
  - rewrite map_filter_insert_True by done. rewrite map_size_insert_None; [done|]. apply map_lookup_filter_None. by left.
  - rewrite map_filter_insert_False by done. by rewrite delete_id.
Qed.
Lemma count_delete {V} (P : nat * V → Prop) `{∀ x, Decision (P x)} k v (m : gmap nat V) :
  m !! k = Some v → size (filter P m) = ((if decide (P (k, v)) then 1 else 0) + size (filter P (delete k m)))%nat.
Proof. intros Hk. rewrite <- (insert_delete_id m k v Hk) at 1. apply count_insert. apply lookup_delete_eq. Qed.
Lemma count_replace {V} (P : nat * V → Prop) `{∀ x, Decision (P x)} k v w (m : gmap nat V) :
  m !! k = Some v → (P (k, v) ↔ P (k, w)) → size (filter P (<[k := w]> m)) = size (filter P m).
Proof.
  intros Hk HP. rewrite (count_delete P k v m) by done. rewrite <- insert_delete_eq, count_insert by apply lookup_delete_eq.
  by rewrite (decide_ext _ _ _ _ HP).
Qed.

(** ** The invariant *)
Record host_ok p a hp : Prop := {
  ho_permits : 0 <= permits hp;
  ho_cap : permits hp + Z.of_nat (slots_of a p) = current_cap hp;
  ho_range : 1 <= current_cap hp <= MAX_PERMITS;
  ho_NoDup : NoDup (connections hp);
  ho_alive k : k ∈ connections hp → ∃ c n, slots p !! k = Some (a, Connected c n) }.
(** One task at a time; and what nobody uses is in the pool, but for [X]. *)
Definition slot_ok X p k a (h : Held) : Prop :=
  is_Some (pools p !! a) ∧
  match h with
  | Connecting => True
  | Connected c n => (n ≤ 1)%nat ∧ (state c = Idle → n = O) ∧ (n = O → k ∉ X → pooled k a p = true)
  end.
Record inv_but X p : Prop := {
  in_hosts a hp : pools p !! a = Some hp → host_ok p a hp;
  in_slots k a h : slots p !! k = Some (a, h) → slot_ok X p k a h }.
Definition inv p : Prop := inv_but ∅ p.

Lemma inv_new : inv ConnectionPool_new ∧ out ConnectionPool_new = ∅.
Proof.
  split; [split; intros *; simpl; by rewrite lookup_empty|]. done.
Qed.

Lemma pooled_spec k a p : pooled k a p = true ↔ ∃ hp, pools p !! a = Some hp ∧ k ∈ connections hp.
Proof.
  unfold pooled. destruct (pools p !! a) as [hp|]; [rewrite bool_decide_eq_true|]; split; [eauto|by intros (? & [= <-] & ?)|done|by intros (? & ? & _)].
Qed.

(** Counters change nothing else. *)
Lemma on_stats_ok X f p : inv_but X p → inv_but X (on_stats f p).
Proof. intros [H1 H2]. split; [intros a hp Hl; destruct (H1 a hp Hl); by split|apply H2]. Qed.
Lemma on_stats_out f p : out (on_stats f p) = out p.
Proof. done. Qed.

(** A change of a host that leaves its connections alone. *)
Lemma on_host_ok X f a p : (∀ hp, host_ok p a hp → host_ok p a (f hp) ∧ connections (f hp) = connections hp) →
  inv_but X p → inv_but X (on_host f a p).
Proof.
  intros Hf [H1 H2]. split.
  - intros b hp. simpl. destruct (decide (b = a)) as [->|Hne].
    + rewrite lookup_alter_eq. intros (hp0 & Hl & ->)%fmap_Some. destruct (Hf hp0 (H1 _ _ Hl)) as [[] _]. by split.
    + rewrite lookup_alter_ne by done. intros Hl. destruct (H1 b hp Hl). by split.
  - intros k b h Hl. destruct (H2 k b h Hl) as [Hb Hh]. split; [by apply lookup_alter_is_Some|].
    destruct h as [|c n]; [done|]. destruct Hh as (? & ? & Hp). split_and!; [done..|]. intros Hn Hk. specialize (Hp Hn Hk).
    apply pooled_spec in Hp as (hp & Hhp & Hin). apply pooled_spec. simpl. destruct (decide (b = a)) as [->|].
    + exists (f hp). rewrite lookup_alter_eq, Hhp. split; [done|]. by destruct (Hf hp (H1 _ _ Hhp)) as [_ ->].
    + exists hp. by rewrite lookup_alter_ne.
Qed.

(** Host pools the slots of which change together with its permits. *)
Lemma slots_of_insert k a h b p : slots p !! k = None →
  slots_of b (on_slots (<[k := (a, h)]>) p) = ((if decide (a = b) then 1 else 0) + slots_of b p)%nat.
Proof. intros Hk. unfold slots_of. simpl. by rewrite count_insert. Qed.
Lemma slots_of_delete k a h b p : slots p !! k = Some (a, h) →
  slots_of b p = ((if decide (a = b) then 1 else 0) + slots_of b (on_slots (delete k) p))%nat.
Proof. intros Hk. unfold slots_of. simpl. by rewrite (count_delete _ k (a, h)). Qed.
Lemma slots_of_replace k a h h' b p : slots p !! k = Some (a, h) → slots_of b (on_slots (<[k := (a, h')]>) p) = slots_of b p.
Proof. intros Hk. unfold slots_of. simpl. by rewrite (count_replace _ k (a, h)). Qed.

(** Another connection in a slot, as it is or taken by one task. *)
Lemma refill_ok X k a c n c' n' p : inv_but X p → slots p !! k = Some (a, Connected c n) →
  (n' ≤ 1)%nat → (state c' = Idle → n' = O) → (n' = O → k ∉ X → pooled k a p = true) →
  inv_but X (on_slots (<[k := (a, Connected c' n')]>) p).
Proof.
  intros [H1 H2] Hk Hn' Hi' Hp'. split.
  - intros b hp Hl. destruct (H1 b hp Hl) as [P1 P2 P3 P4 P5]. split; [done| |done|done|].
    + rewrite (slots_of_replace k a (Connected c n)) by done. done.
    + intros j Hj. simpl. destruct (P5 j Hj) as (cj & nj & Hs). destruct (decide (j = k)) as [->|].
      * rewrite Hk in Hs. simplify_eq. rewrite lookup_insert_eq. eauto.
      * rewrite lookup_insert_ne by done. eauto.
  - intros j b h. simpl. destruct (decide (j = k)) as [->|]; [rewrite lookup_insert_eq|rewrite lookup_insert_ne by done].
    + intros [= <- <-]. split; [by destruct (H2 k a _ Hk)|]. split_and!; [done|done|]. by intros; apply Hp'.
    + intros Hj. by destruct (H2 j b h Hj).
Qed.

Definition others k p : gset token := filter (λ x, x.1 ≠ k) (out p).
Lemma elem_of_others j k t p : (j, t) ∈ others k p ↔ j ≠ k ∧ (j, t) ∈ out p.
Proof. unfold others. by rewrite elem_of_filter. Qed.
Lemma out_insert k a h p : out (on_slots (<[k := (a, h)]>) p) = tokens_at k a h ∪ others k p.
Proof.
  apply set_eq. intros [j t]. rewrite elem_of_union, elem_of_others, elem_of_tokens_at, !elem_of_out. simpl. destruct (decide (j = k)) as [->|].
  - rewrite lookup_insert_eq. naive_solver.
  - rewrite lookup_insert_ne by done. naive_solver.
Qed.
Lemma out_delete k p : out (on_slots (delete k) p) = others k p.
Proof.
  apply set_eq. intros [j t]. rewrite elem_of_others, !elem_of_out. simpl. destruct (decide (j = k)) as [->|].
  - rewrite lookup_delete_eq. naive_solver.
  - rewrite lookup_delete_ne by done. naive_solver.
Qed.
Lemma others_one k t p : (k, t) ∈ out p → others k p = out p ∖ {[(k, t)]}.
Proof.
  intros Hk. apply set_eq. intros [j u]. rewrite elem_of_others, elem_of_difference, elem_of_singleton.
  split; [intros [? ?]; naive_solver|]. intros [Hj Hne]. split; [|done]. intros ->. apply Hne. f_equal.
  apply elem_of_out in Hj as (? & ? & H1 & H2). apply elem_of_out in Hk as (? & ? & H3 & H4). congruence.
Qed.
Lemma others_none k p : (∀ t, (k, t) ∉ out p) → others k p = out p.
Proof. intros Hk. apply set_eq. intros [j u]. rewrite elem_of_others. split; [by intros [_ ?]|]. intros Hj. split; [|done]. intros ->. by eapply Hk. Qed.

(** A permit that is given back, of a task that connects or of a connection that
    is not in the pool. *)
Lemma give_back_ok X k a h p : inv_but X p → slots p !! k = Some (a, h) →
  (match h with Connecting => True | Connected _ _ => pooled k a p = false end) → inv_but (X ∖ {[k]}) (give_back k p).
Proof.
  intros [H1 H2] Hk Hnp. unfold give_back. rewrite Hk.
  assert (Hother : ∀ b hp j, pools p !! b = Some hp → j ∈ connections hp → j ≠ k).
  { intros b hp j Hl Hj ->. destruct (H1 b hp Hl) as [_ _ _ _ P5]. destruct (P5 k Hj) as (c & n & Hs). rewrite Hk in Hs. simplify_eq.
    assert (pooled k b p = true) by (apply pooled_spec; eauto). congruence. }
  split.
  - intros b hp. simpl. destruct (decide (b = a)) as [->|Hne].
    + rewrite lookup_alter_eq. intros (hp0 & Hl & ->)%fmap_Some. destruct (H1 a hp0 Hl) as [P1 P2 P3 P4 P5].
      pose proof (slots_of_delete k a h a p Hk) as Hs. rewrite decide_True in Hs by done.
      split; [simpl; lia| |done|done|].
      * simpl. change (slots_of a (on_host _ _ ?q)) with (slots_of a q). lia.
      * intros j Hj. simpl. rewrite lookup_delete_ne; [by apply P5|]. intros ->. by eapply Hother.
    + rewrite lookup_alter_ne by done. intros Hl. destruct (H1 b hp Hl) as [P1 P2 P3 P4 P5].
      pose proof (slots_of_delete k a h b p Hk) as Hs. rewrite decide_False in Hs by done. split; [done| |done|done|].
      * change (slots_of b (on_host _ _ ?q)) with (slots_of b q). lia.
      * intros j Hj. simpl. rewrite lookup_delete_ne; [by apply P5|]. intros ->. by eapply Hother.
  - intros j b h'. simpl. intros [Hne Hj]%lookup_delete_Some. destruct (H2 j b h' Hj) as [Hb Hh]. split; [by apply lookup_alter_is_Some|].
    destruct h' as [|c n]; [done|]. destruct Hh as (? & ? & Hp). split_and!; [done..|]. intros Hn HX. specialize (Hp Hn ltac:(set_solver)).
    apply pooled_spec in Hp as (hp & Hl & Hin). apply pooled_spec. simpl. destruct (decide (b = a)) as [->|].
    + eexists. rewrite lookup_alter_eq, Hl. split; [done|]. done.
    + exists hp. by rewrite lookup_alter_ne.
Qed.
Lemma give_back_out k a h p : slots p !! k = Some (a, h) → out (give_back k p) = others k p.
Proof. intros Hk. unfold give_back. rewrite Hk. apply out_delete. Qed.

Lemma drop_unused_ok X k p : inv_but X p → inv_but (X ∖ {[k]}) (drop_unused k p) ∧ out (drop_unused k p) = out p.
Proof.
  intros Hi. assert (Hsame : (∀ a c, slots p !! k ≠ Some (a, Connected c O)) ∨ (∃ a, pooled k a p = true ∧ ∃ h, slots p !! k = Some (a, h)) →
    inv_but (X ∖ {[k]}) p).
  { intros Hc. destruct Hi as [H1 H2]. split; [done|]. intros j b h Hj. destruct (H2 j b h Hj) as [Hb Hh]. split; [done|].
    destruct h as [|c n]; [done|]. destruct Hh as (? & ? & Hp). split_and!; [done..|]. intros -> HX. destruct (decide (j = k)) as [->|].
    - destruct Hc as [Hc|(a & Ha & h & Hk)]; [by destruct (Hc b c)|]. by simplify_eq.
    - apply Hp; [done|set_solver]. }
  unfold drop_unused. destruct (slots p !! k) as [[a [|c [|n]]]|] eqn:Ek; [|destruct (pooled k a p) eqn:Ep|..];
    try (split; [|done]; apply Hsame; left; naive_solver).
  - split; [|done]. apply Hsame. right. eauto.
  - split; [by eapply give_back_ok|]. rewrite (give_back_out _ _ _ _ Ek). apply others_none. intros t.
    rewrite elem_of_out, Ek. by intros (? & ? & [= <- <-] & ?).
Qed.

(** ** The accesses *)
Section Accesses.
Context (config : PoolConfig) {OR : Oracle}.

Lemma take_if_free_ok look k p : inv p →
  let '(p', taken) := take_if_free config look k p in
  inv p' ∧ (if taken then {[(k, None)]} else ∅) ## out p ∧ out p' = (if taken then {[(k, None)]} else ∅) ∪ out p.
Proof.
  intros Hi. assert (Hno : inv p ∧ ∅ ## out p ∧ out p = ∅ ∪ out p) by (split; [done|set_solver]).
  unfold take_if_free. destruct (slots p !! k) as [[a [|c n]]|] eqn:Ek; [done| |done].
  destruct (busy look k); [done|]. destruct (bool_decide_reflect (state c = Idle)) as [Hidle|]; [|done]. simpl.
  destruct (is_healthy _ _ _ c); [|done]. destruct (in_slots _ _ Hi _ _ _ Ek) as [_ (Hn & Hfree & Hp)]. rewrite (Hfree Hidle) in *.
  assert (Hout : ∀ t, (k, t) ∉ out p).
  { intros t. rewrite elem_of_out, Ek. by intros (? & ? & [= <- <-] & ?). }
  split_and!.
  - by apply (refill_ok _ _ _ c O).
  - apply disjoint_singleton_l, Hout.
  - rewrite out_insert, others_none by done. done.
Qed.

Lemma take_permit_ok a p : inv p →
  let '(p', k) := take_permit a p in
  inv p' ∧ (match k with Some k => {[(k, Some a)]} | None => ∅ end) ## out p ∧
  out p' = (match k with Some k => {[(k, Some a)]} | None => ∅ end) ∪ out p.
Proof.
  intros Hi. assert (Hno : inv p ∧ ∅ ## out p ∧ out p = ∅ ∪ out p) by (split; [done|set_solver]).
  unfold take_permit. destruct (pools p !! a) as [hp|] eqn:Ea; [|done]. destruct (Z.ltb_spec 0 (permits hp)); [|done].
  set (k := fresh (dom (slots p))). assert (Hk : slots p !! k = None) by (apply not_elem_of_dom, is_fresh).
  assert (Hout : ∀ t, (k, t) ∉ out p) by (intros t; rewrite elem_of_out, Hk; naive_solver).
  assert (Heq : out (on_host (add_permits (-1)) a (on_slots (<[k:=(a, Connecting)]>) p)) = {[(k, Some a)]} ∪ out p).
  { change (out (on_host ?f ?b ?q)) with (out q). rewrite out_insert, others_none by done. done. }
  split_and!; [|apply disjoint_singleton_l, Hout|done]. destruct Hi as [H1 H2]. split.
  - intros b hp'. simpl. intros Hl. pose proof (slots_of_insert k a Connecting b p Hk) as Hs.
    assert (Halive : ∀ j, ∀ c n, slots p !! j = Some (b, Connected c n) → ∃ c n, <[k:=(a, Connecting)]> (slots p) !! j = Some (b, Connected c n)).
    { intros j c n Hj. rewrite lookup_insert_ne by congruence. eauto. }
    destruct (decide (b = a)) as [->|Hne].
    + rewrite lookup_alter_eq, Ea in Hl. injection Hl as <-. rewrite decide_True in Hs by done. destruct (H1 a hp Ea) as [P1 P2 P3 P4 P5].
      split; [simpl; lia| |done|done|].
      * change (slots_of a (on_host ?f ?b ?q)) with (slots_of a q). simpl. lia.
      * intros j (c & n & Hj)%P5. eauto.
    + rewrite lookup_alter_ne in Hl by done. rewrite decide_False in Hs by done. destruct (H1 b hp' Hl) as [P1 P2 P3 P4 P5].
      split; [done| |done|done|].
      * change (slots_of b (on_host ?f ?c ?q)) with (slots_of b q). lia.
      * intros j (c & n & Hj)%P5. eauto.
  - intros j b h. simpl. destruct (decide (j = k)) as [->|].
    + rewrite lookup_insert_eq. intros [= <- <-]. split; [|done]. apply lookup_alter_is_Some. by eexists.
    + rewrite lookup_insert_ne by done. intros Hj. destruct (H2 j b h Hj) as [Hb Hh]. split; [by apply lookup_alter_is_Some|].
      destruct h as [|c1 n1]; [done|]. destruct Hh as (? & ? & Hp). split_and!; [done..|]. intros Hn HX.
      apply pooled_spec in Hp as (hp' & Hl & Hin); [|done..]. apply pooled_spec. simpl. destruct (decide (b = a)) as [->|].
      * eexists. rewrite lookup_alter_eq, Hl. done.
      * exists hp'. by rewrite lookup_alter_ne.
Qed.

(** Room for every connection that is made. *)
Lemma room p a hp k : inv p → pools p !! a = Some hp → slots p !! k = Some (a, Connecting) → Z.of_nat (length (connections hp)) < current_cap hp.
Proof.
  intros [H1 H2] Ha Hk. destruct (H1 a hp Ha) as [P1 P2 P3 P4 P5].
  assert (Hle : (length (k :: connections hp) ≤ slots_of a p)%nat); [|simpl in Hle; lia].
  unfold slots_of. rewrite <- size_dom. rewrite <- (size_list_to_set (k :: connections hp) (C := gset nat)).
  - apply subseteq_size. intros j. rewrite elem_of_list_to_set, elem_of_cons, elem_of_dom. unfold is_Some. setoid_rewrite map_lookup_filter_Some.
    intros [->|(c & n & Hj)%P5]; eauto.
  - apply NoDup_cons. split; [|done]. intros (c & n & Hs)%P5. congruence.
Qed.

Lemma push_ok a k c p : inv p → (k, Some a) ∈ out p → state c = Active →
  inv (push_connection a k c p) ∧ out (push_connection a k c p) = {[(k, None)]} ∪ out p ∖ {[(k, Some a)]}.
Proof.
  intros Hi Hk Hc. pose proof Hk as (b & h & Hs & Ht)%elem_of_out. destruct h as [|? [|?]]; simplify_eq/=.
  unfold push_connection. rewrite Hs.
  assert (Heq : out (on_slots (<[k:=(a, Connected c 1)]>) p) = {[(k, None)]} ∪ out p ∖ {[(k, Some a)]}).
  { rewrite out_insert, (others_one k (Some a)) by done. done. }
  split; [|done]. pose proof Hi as [H1 H2].
  assert (Hnew : ∀ b hp, pools p !! b = Some hp → k ∉ connections hp).
  { intros b hp Hl Hin. destruct (H1 b hp Hl) as [_ _ _ _ P5]. destruct (P5 k Hin) as (? & ? & ?). congruence. }
  split.
  - intros b hp. simpl. intros Hl. pose proof (slots_of_replace k a Connecting (Connected c 1) b p Hs) as Hso.
    assert (Halive : ∀ j c' n, slots p !! j = Some (b, Connected c' n) → ∃ c' n, <[k:=(a, Connected c 1)]> (slots p) !! j = Some (b, Connected c' n)).
    { intros j c' n Hj. rewrite lookup_insert_ne by congruence. eauto. }
    destruct (decide (b = a)) as [->|Hne].
    + rewrite lookup_alter_eq in Hl. apply fmap_Some in Hl as (hp0 & Hl & ->). pose proof (room p a hp0 k Hi Hl Hs) as Hroom.
      apply Z.ltb_lt in Hroom. rewrite Hroom. destruct (H1 a hp0 Hl) as [P1 P2 P3 P4 P5]. split; [done| |done| |].
      * change (slots_of a (on_host ?f ?b ?q)) with (slots_of a q). simpl. by rewrite Hso.
      * simpl. apply NoDup_app. split_and!; [done| |apply NoDup_singleton]. intros j Hj ->%list_elem_of_singleton. by eapply Hnew.
      * intros j. simpl. rewrite elem_of_app, list_elem_of_singleton. intros [(? & ? & ?)%P5| ->]; [eauto|]. rewrite lookup_insert_eq. eauto.
    + rewrite lookup_alter_ne in Hl by done. destruct (H1 b hp Hl) as [P1 P2 P3 P4 P5]. split; [done| |done|done|].
      * change (slots_of b (on_host ?f ?c ?q)) with (slots_of b q). by rewrite Hso.
      * intros j (? & ? & ?)%P5. eauto.
  - intros j b h. simpl. destruct (decide (j = k)) as [->|].
    + rewrite lookup_insert_eq. intros [= <- <-]. split; [apply lookup_alter_is_Some; by destruct (H2 k a _ Hs)|].
      split_and!; [done|by rewrite Hc|done].
    + rewrite lookup_insert_ne by done. intros Hj. destruct (H2 j b h Hj) as [Hb Hh]. split; [by apply lookup_alter_is_Some|].
      destruct h as [|c1 n1]; [done|]. destruct Hh as (? & ? & Hp). split_and!; [done..|]. intros Hn HX.
      apply pooled_spec in Hp as (hp & Hl & Hin); [|done..]. apply pooled_spec. simpl. destruct (decide (b = a)) as [->|].
      * eexists. rewrite lookup_alter_eq, Hl. split; [done|]. case_match; [|done]. simpl. apply elem_of_app. by left.
      * exists hp. by rewrite lookup_alter_ne.
Qed.

Lemma set_host_ok X a hp p : inv_but X p → host_ok p a hp → (∀ hp0, pools p !! a = Some hp0 → connections hp0 = connections hp) →
  inv_but X (mk_pool (<[a := hp]> (pools p)) (slots p) (stats p)).
Proof.
  intros [H1 H2] Ho Hsame. split.
  - intros b hp'. simpl. destruct (decide (b = a)) as [->|]; [rewrite lookup_insert_eq; intros [= <-]; destruct Ho; by split|].
    rewrite lookup_insert_ne by done. intros Hl. destruct (H1 b hp' Hl). by split.
  - intros j b h Hj. destruct (H2 j b h Hj) as [Hb Hh]. split; [simpl; destruct (decide (b = a)) as [->|]; [rewrite lookup_insert_eq; by eexists|by rewrite lookup_insert_ne]|].
    destruct h as [|c1 n1]; [done|]. destruct Hh as (? & ? & Hp). split_and!; [done..|]. intros Hn HX. specialize (Hp Hn HX).
    apply pooled_spec in Hp as (hp' & Hl & Hin). apply pooled_spec. simpl. destruct (decide (b = a)) as [->|].
    + exists hp. rewrite lookup_insert_eq. split; [done|]. by rewrite <- (Hsame hp').
    + exists hp'. by rewrite lookup_insert_ne.
Qed.
Lemma ensure_host_ok a p : inv p → inv (ensure_host config a p) ∧ out (ensure_host config a p) = out p.
Proof.
  intros Hi. unfold ensure_host. destruct (pools p !! a) as [hp|] eqn:Ea; [done|]. split; [|done]. apply set_host_ok; [done| |by rewrite Ea].
  pose proof max_permits_range. unfold HostPool_new. cbv zeta. split; simpl; [lia| |lia|constructor|by intros k ?%elem_of_nil].
  assert (Hz : slots_of a p = O); [|lia]. unfold slots_of. apply map_size_empty_iff, map_empty. intros k. apply map_lookup_filter_None.
  right. intros [b h] Hk. simpl. intros ->. destruct (in_slots _ _ Hi _ _ _ Hk) as [[? Hb] _]. congruence.
Qed.
Lemma expand_host_ok a p : inv p → inv (expand_host a p).1 ∧ out (expand_host a p).1 = out p.
Proof.
  intros Hi. unfold expand_host. destruct (pools p !! a) as [hp|] eqn:Ea; [|done]. destruct (permits hp =? 0); [|done].
  unfold expand. cbv zeta. set (target := Z.min _ _). destruct (saturating_sub target (current_cap hp) =? 0) eqn:E; [done|].
  split; [|done]. apply set_host_ok; [done| |by intros hp0; rewrite Ea; intros [= <-]].
  destruct (in_hosts _ _ Hi a hp Ea) as [P1 P2 P3 P4 P5]. apply Z.eqb_neq in E. unfold saturating_sub in *. split; simpl; [lia|lia|lia|done|done].
Qed.
Lemma recorded_keeps f a p : (∀ hp, connections (f hp) = connections hp ∧ permits (f hp) = permits hp ∧ current_cap (f hp) = current_cap hp) →
  inv p → inv (on_host f a p) ∧ out (on_host f a p) = out p.
Proof.
  intros Hf Hi. split; [|done]. apply on_host_ok; [|done]. intros hp [P1 P2 P3 P4 P5]. destruct (Hf hp) as (F1 & F2 & F3).
  split; [|done]. split; rewrite ?F1, ?F2, ?F3; done.
Qed.
Lemma fail_ok a k p : inv p → (k, Some a) ∈ out p → inv (give_back k p) ∧ out (give_back k p) = out p ∖ {[(k, Some a)]}.
Proof.
  intros Hi Hk. pose proof Hk as (b & h & Hs & Ht)%elem_of_out. destruct h as [|? [|?]]; simplify_eq/=. split.
  - apply (give_back_ok ∅ k a Connecting p) in Hs; [|done..]. by replace (∅ ∖ {[k]} : gset nat) with (∅ : gset nat) in Hs by set_solver.
  - rewrite (give_back_out k a Connecting) by done. by apply others_one.
Qed.
Lemma drop_ok (free : bool) k p : inv p → (k, None) ∈ out p →
  let p' := match slots p !! k with
    | Some (a, Connected c n) => drop_unused k (on_slots (<[k := (a, Connected (if free then mark_idle c else c) (pred n))]>) p)
    | _ => p end in
  inv p' ∧ out p' = out p ∖ {[(k, None)]}.
Proof.
  intros Hi Hk. pose proof Hk as (a & h & Hs & Ht)%elem_of_out. destruct h as [|c [|n]]; simplify_eq/=. rewrite Hs.
  destruct (in_slots _ _ Hi _ _ _ Hs) as [_ (Hn & _ & _)]. assert (n = O) as -> by lia. simpl.
  set (p1 := on_slots _ p). assert (H1 : inv_but {[k]} p1).
  { apply (refill_ok _ _ _ c 1); [|done|lia|done|set_solver]. destruct Hi as [I1 I2]. split; [done|]. intros j b h Hj.
    destruct (I2 j b h Hj) as [? Hh]. split; [done|]. destruct h as [|c1 n1]; [done|]. destruct Hh as (? & ? & Hp). split_and!; [done..|]. intros; by apply Hp. }
  destruct (drop_unused_ok _ k p1 H1) as [H2 H3]. split.
  - by replace ({[k]} ∖ {[k]} : gset nat) with (∅ : gset nat) in H2 by set_solver.
  - rewrite H3. unfold p1. rewrite out_insert. simpl. rewrite (others_one k None) by done. set_solver.
Qed.

Lemma drop_all_ok X ks p : inv_but X p → inv_but (X ∖ list_to_set ks) (foldl (λ p k, drop_unused k p) p ks) ∧ out (foldl (λ p k, drop_unused k p) p ks) = out p.
Proof.
  revert X p. induction ks as [|k ks IH]; intros X p Hi; simpl.
  - by replace (X ∖ ∅) with X by set_solver.
  - destruct (drop_unused_ok X k p Hi) as [H1 H2]. destruct (IH _ _ H1) as [H3 H4]. rewrite H4. split; [|done].
    by replace (X ∖ ({[k]} ∪ list_to_set ks)) with (X ∖ {[k]} ∖ list_to_set ks) by set_solver.
Qed.
Lemma cleanup_host_ok look a p : inv p → inv (cleanup_host config look a p).1 ∧ out (cleanup_host config look a p).1 = out p.
Proof.
  intros Hi. unfold cleanup_host. destruct (pools p !! a) as [hp|] eqn:Ea; [|done]. cbv zeta. cbn [fst].
  set (gone := filter _ (connections hp)). set (p1 := on_host _ a p). assert (H1 : inv_but (list_to_set gone) p1).
  { destruct Hi as [I1 I2]. split.
    - intros b hp'. simpl. destruct (decide (b = a)) as [->|].
      + rewrite lookup_alter_eq, Ea. intros [= <-]. destruct (I1 a hp Ea) as [P1 P2 P3 P4 P5]. split; [done|done|done|by apply NoDup_filter|].
        intros k [_ Hk]%list_elem_of_filter. by apply P5.
      + rewrite lookup_alter_ne by done. intros Hl. destruct (I1 b hp' Hl). by split.
    - intros j b h Hj. destruct (I2 j b h Hj) as [Hb Hh]. split; [by apply lookup_alter_is_Some|].
      destruct h as [|c1 n1]; [done|]. destruct Hh as (? & ? & Hp). split_and!; [done..|]. intros Hn HX.
      apply pooled_spec in Hp as (hp' & Hl & Hin); [|done..]. apply pooled_spec. simpl. destruct (decide (b = a)) as [->|].
      + rewrite Ea in Hl. injection Hl as <-. eexists. rewrite lookup_alter_eq, Ea. split; [done|]. simpl. apply list_elem_of_filter.
        split; [|done]. destruct (keeps_connection config look p j) eqn:E; [done|]. destruct HX. apply elem_of_list_to_set, list_elem_of_filter. done.
      + exists hp'. by rewrite lookup_alter_ne. }
  destruct (drop_all_ok _ gone p1 H1) as [H2 H3]. split; [|by rewrite H3].
  by replace (list_to_set gone ∖ list_to_set gone : gset nat) with (∅ : gset nat) in H2 by set_solver.
Qed.
End Accesses.

(** ** The calls *)
Section Calls.
Context (config : PoolConfig) (show : SocketAddr → str) {OR : Oracle}.
Notation owned := (owns inv out).

Lemma own_stats Q T f : Q tt T → owned Q T (write (on_stats f)).
Proof. apply owns_write. intros p Hi _. split; [by apply on_stats_ok|done]. Qed.

Lemma own_get_existing look a : owned (λ r T, T = match r with Some k => {[(k, None)]} | None => ∅ end) ∅ (try_get_existing config look a).
Proof.
  unfold try_get_existing. eapply owns_bind; [apply (owns_read _ _ (λ _ T, T = ∅)); done|]. intros ks T ->. induction ks as [|k ks IH]; cbn [take_first]; [by apply owns_ret|].
  eapply owns_bind; [apply (owns_grab _ _ (λ (taken : bool) T, T = if taken then {[(k, None)]} else ∅) ∅ _ (λ taken : bool, if taken then {[(k, None)]} else ∅))|].
  - intros p Hi _. pose proof (take_if_free_ok config look k p Hi) as Ht. destruct (take_if_free config look k p) as [p' taken].
    destruct Ht as (H1 & H2 & H3). split_and!; [done|done|done|]. simpl. by rewrite (right_id_L ∅ (∪)).
  - intros [] T ->; [|exact IH]. eapply owns_bind; [by apply (own_stats (λ _ T, T = {[(k, None)]}))|]. intros _ T ->.
    eapply owns_bind; [by apply (own_stats (λ _ T, T = {[(k, None)]}))|]. intros _ T ->. by apply owns_ret.
Qed.

Lemma own_permit a : owned (λ r T, T = match r with Some k => {[(k, Some a)]} | None => ∅ end) ∅ (update (take_permit a)).
Proof.
  apply (owns_grab _ _ _ _ _ (λ r : option nat, match r with Some k => {[(k, Some a)]} | None => ∅ end)). intros p Hi _.
  pose proof (take_permit_ok a p Hi) as Ht. destruct (take_permit a p) as [p' k]. destruct Ht as (H1 & H2 & H3).
  split_and!; [done|done|done|]. simpl. by rewrite (right_id_L ∅ (∪)).
Qed.
Definition holds_permit a (r : Result nat PoolError) (T : gset token) : Prop := T = match r with Ok k => {[(k, Some a)]} | Err _ => ∅ end.
Lemma own_acquire n a : owned (holds_permit a) ∅ (acquire n a).
Proof.
  induction n as [|n IH]; cbn [acquire]; [by apply owns_ret|]. eapply owns_bind; [apply own_permit|]. intros [k|] T ->; [by apply owns_ret|exact IH].
Qed.
Lemma own_expand n a : owned (holds_permit a) ∅ (expand_and_acquire n a).
Proof.
  unfold expand_and_acquire. eapply owns_bind; [apply (owns_keep _ _ (λ _ T, T = ∅)); intros p Hi _; by destruct (expand_host_ok a p Hi)|].
  intros [did|e] T ->; [|by apply owns_ret]. apply (owns_bind _ _ _ (λ _ T, T = ∅)); [|intros _ T ->; apply own_acquire].
  destruct did; [by apply own_stats|by apply owns_ret].
Qed.

Lemma own_create t a : owned (λ r T, T = match r with Ok k => {[(k, None)]} | Err _ => ∅ end) ∅ (create_new_connection config t a).
Proof.
  unfold create_new_connection. eapply owns_bind; [by apply (owns_read _ _ (λ _ T, T = ∅))|]. intros [] T ->; [by apply owns_ret|].
  eapply owns_bind; [apply (owns_write _ _ (λ _ T, T = ∅)); [intros p Hi _; by apply ensure_host_ok|done]|]. intros _ T ->.
  eapply owns_bind; [apply own_permit|]. intros first T ->.
  apply (owns_bind _ _ _ (holds_permit a)).
  { destruct first as [k|]; [by apply owns_ret|apply own_expand]. }
  intros [k|e] T ->; [|by apply owns_ret]. destruct (connected t) as [made|e].
  - eapply owns_bind; [apply (owns_write _ _ (λ _ T, T = {[(k, Some a)]})); [intros p Hi _; by apply recorded_keeps|done]|]. intros _ T ->.
    eapply owns_bind; [apply (owns_update _ _ (λ _ T, T = {[(k, None)]}) _ (λ p, (push_connection a k (mark_used made (PooledConnection_new made)) p, tt)) (λ _, {[(k, None)]}))|].
    { intros p Hi HT. assert (Hk : (k, Some a) ∈ out p) by set_solver. destruct (push_ok a k (mark_used made (PooledConnection_new made)) p Hi Hk eq_refl) as [H1 H2].
      split_and!; [done| |done|done]. apply disjoint_singleton_l. rewrite elem_of_difference. intros [Hn _].
      apply elem_of_out in Hn as (? & ? & E1 & E2). apply elem_of_out in Hk as (? & ? & E3 & E4). congruence. }
    intros _ T ->. eapply owns_bind; [by apply (own_stats (λ _ T, T = {[(k, None)]}))|]. intros _ T ->.
    eapply owns_bind; [by apply (own_stats (λ _ T, T = {[(k, None)]}))|]. intros _ T ->. by apply owns_ret.
  - eapply owns_bind; [apply (owns_give _ _ (λ _ T, T = ∅) _ _ {[(k, Some a)]}); [intros p Hi HT; apply fail_ok; [done|set_solver]|done|set_solver]|]. intros _ T ->.
    eapply owns_bind; [apply (owns_write _ _ (λ _ T, T = ∅)); [intros p Hi _; by apply recorded_keeps|done]|]. intros _ T ->.
    eapply owns_bind; [by apply (own_stats (λ _ T, T = ∅))|]. intros _ T ->. by apply owns_ret.
Qed.

Lemma own_get look t a : owned (λ r T, T = match r with Ok k => {[(k, None)]} | Err _ => ∅ end) ∅ (get_connection config show look t a).
Proof.
  unfold get_connection. eapply owns_bind; [apply own_get_existing|]. intros [k|] T ->.
  - eapply owns_bind; [by apply (own_stats (λ _ T, T = {[(k, None)]}))|]. intros _ T ->. by apply owns_ret.
  - eapply owns_bind; [apply own_create|]. intros [k|e] T ->; by apply owns_ret.
Qed.
Lemma own_drop free k : owned (λ _ T, T = ∅) {[(k, None)]} (drop_guard free k).
Proof.
  unfold drop_guard. eapply owns_bind; [apply (owns_give _ _ (λ _ T, T = ∅) _ _ {[(k, None)]}); [intros p Hi HT; apply drop_ok; [done|set_solver]|done|set_solver]|].
  intros _ T ->. eapply owns_bind; [by apply (own_stats (λ _ T, T = ∅))|]. intros _ T ->. by apply own_stats.
Qed.
Lemma own_cleanup look : owned (λ _ T, T = ∅) ∅ (cleanup config look).
Proof.
  unfold cleanup. eapply owns_bind; [apply (owns_keep _ _ (λ _ T, T = ∅))|].
  - intros p Hi _. assert (Hf : ∀ l qn, inv qn.1 → inv (foldl (cleanup_step config look) qn l).1 ∧ out (foldl (cleanup_step config look) qn l).1 = out qn.1).
    { induction l as [|a l IH]; intros qn Hq; [done|]. cbn [foldl]. pose proof (cleanup_host_ok config look a qn.1 Hq) as Hc.
      assert (Hs : (cleanup_step config look qn a).1 = (cleanup_host config look a qn.1).1) by (unfold cleanup_step; by destruct (cleanup_host config look a qn.1)).
      rewrite <- Hs in Hc. destruct Hc as [H1 H2]. destruct (IH _ H1) as [H3 H4]. split; [done|]. by rewrite H4. }
    destruct (Hf (hm_iter (pools p)).*1 (p, 0) Hi). done.
  - intros n T ->. destruct (0 <? n); [by apply own_stats|by apply owns_ret].
Qed.

(** What tasks do with the pool: take a connection, use it and give it back, or
    clean up. *)
Inductive Job := UseConnection (look : Look) (t : Attempt) (a : SocketAddr) (free : bool) | CleanUp (look : Look).
Definition do_job (j : Job) : prog ConnectionPool unit :=
  match j with
  | UseConnection look t a free => r ← get_connection config show look t a; match r with Ok k => drop_guard free k | Err _ => Ret tt end
  | CleanUp look => cleanup config look
  end.
Definition task (js : list Job) : prog ConnectionPool unit := foldr (λ j rest, do_job j;; rest) (Ret tt) js.

Lemma own_task js : owned (λ _ T, T = ∅) ∅ (task js).
Proof.
  induction js as [|j js IH]; cbn [task foldr]; [by apply owns_ret|]. apply (owns_bind _ _ _ (λ _ T, T = ∅)); [|intros ? T ->; exact IH]. destruct j as [look t a free|look]; cbn [do_job].
  - eapply owns_bind; [apply own_get|]. intros [k|e] T ->; [apply own_drop|by apply owns_ret].
  - apply own_cleanup.
Qed.

(** C20: However tasks interleave that take connections, give them back and clean
    up: the permits left and the slots taken add up to a host's cap, which is at
    most the semaphore's; the pool has room for every connection that is being
    made; a connection is in the hands of one task at most, and of none when it
    is idle. When all are done, the permits that are not left are those of the
    connections in the pool: none is lost. *)
Theorem pool_accounts tasks ps p :
  rtc pstep (task <$> tasks, ConnectionPool_new) (ps, p) →
  (∀ a hp, pools p !! a = Some hp →
    0 <= permits hp ∧ permits hp + Z.of_nat (slots_of a p) = current_cap hp ∧ current_cap hp <= MAX_PERMITS ∧
    (∀ k, slots p !! k = Some (a, Connecting) → Z.of_nat (length (connections hp)) < current_cap hp) ∧
    (finished ps → permits hp + Z.of_nat (length (connections hp)) = current_cap hp)) ∧
  (∀ k a c n, slots p !! k = Some (a, Connected c n) → (n ≤ 1)%nat ∧ (state c = Idle → n = O)).
Proof.
  intros Hr. destruct inv_new as [Hi Ho]. destruct (pool_returns inv out _ _ _ _ Hr) as [Hinv Hfin]; [|done|done|].
  { apply Forall_fmap, Forall_true. apply own_task. }
  split.
  - intros a hp Ha. destruct (in_hosts _ _ Hinv a hp Ha) as [P1 P2 P3 P4 P5]. split_and!; [done|done|lia| |].
    + intros k Hk. by apply (room p a hp k).
    + intros Hf. specialize (Hfin Hf). rewrite <- P2. do 2 f_equal. unfold slots_of. rewrite <- size_dom.
      rewrite <- (size_list_to_set (connections hp) (C := gset nat)) by done. f_equal. apply set_eq. intros k.
      rewrite elem_of_list_to_set, elem_of_dom. unfold is_Some. setoid_rewrite map_lookup_filter_Some. split.
      * intros (c & n & Hk)%P5. eauto.
      * intros ([b h] & Hk & Hb). simpl in Hb. subst b. assert (Hno : ∀ t, token_of a h ≠ Some t).
        { intros t Ht. assert (Hin : (k, t) ∈ out p) by (apply elem_of_out; eauto). rewrite Hfin in Hin. by apply elem_of_empty in Hin. }
        destruct (in_slots _ _ Hinv _ _ _ Hk) as [_ Hs]. destruct h as [|c [|n]]; [by destruct (Hno (Some a))| |by destruct (Hno None)].
        destruct Hs as (_ & _ & Hp). apply pooled_spec in Hp as (hp' & Hl & Hin); [|done..]. congruence.
  - intros k a c n Hk. destruct (in_slots _ _ Hinv _ _ _ Hk) as [_ (H1 & H2 & _)]. done.
Qed.
End Calls.
End Facts.

(** ** What the errors mean to the retry loop *)
Section Errors.
Context `{Lowercase} (show : SocketAddr → str).

Lemma classified (p : str) e : forallb is_ascii p = true → to_ascii_lowercase p = p → contains p (display e) = true →
  contains p (to_lowercase (to_lowercase (display e))) = true.
Proof. intros Hp Hl Hc. rewrite <- Hl. apply lowercase_contains; [done|]. rewrite <- Hl. by apply lowercase_contains. Qed.

Lemma classified_upper (p : str) e : forallb is_ascii p = true →
  contains p (display e) = true → contains (to_ascii_lowercase p) (to_lowercase (to_lowercase (display e))) = true.
Proof.
  intros Hp Hc. assert (Hlow : to_ascii_lowercase (to_ascii_lowercase p) = to_ascii_lowercase p).
  { unfold to_ascii_lowercase. rewrite <- list_fmap_compose. apply list_fmap_ext. intros _ c _. unfold compose.
    destruct (Z.leb_spec 65 c), (Z.leb_spec c 90); simpl; repeat case_match; lia. }
  rewrite <- Hlow. apply lowercase_contains; [|by apply lowercase_contains].
  apply forallb_forall. intros c Hc'. apply list_elem_of_In, list_elem_of_fmap in Hc' as (d & -> & Hd).
  rewrite forallb_forall in Hp. apply list_elem_of_In in Hd. apply Hp in Hd. unfold is_ascii in *. destruct (65 <=? d) eqn:E1, (d <=? 90) eqn:E2; simpl; lia.
Qed.

(** When the pool backs off from a host, the call fails at once: that error is
    not worth another attempt, whatever the host's name. Every other error of
    the pool is, even for messages that must not be delivered twice. *)
Theorem backing_off_is_final c idempotent a :
  worth_it c idempotent (Runtime (ConnectionFailed (show a) (pool_error_text show a BackingOff))) = false ∧
  ∀ e, contains (lit "backing off") (to_lowercase (to_lowercase (display (Runtime (ConnectionFailed (show a) (pool_error_text show a e)))))) = false →
    worth_it c idempotent (Runtime (ConnectionFailed (show a) (pool_error_text show a e))) = true.
Proof.
  unfold worth_it, classify_pulsing, classify_msg. split.
  - rewrite classified; [done|done|done|]. apply contains_spec.
    exists (lit "Runtime error: Connection failed to " ++ show a ++ lit ": Connection to " ++ show a ++ lit " is "), (lit " due to recent errors").
    simpl. rewrite <- !app_assoc. simpl. by rewrite <- !app_assoc.
  - intros e ->. unfold any_of. cbn [existsb].
    rewrite (classified_upper (lit "Connection")); [done|done|]. apply contains_spec.
    exists (lit "Runtime error: "), (lit " failed to " ++ show a ++ lit ": " ++ pool_error_text show a e). done.
Qed.
End Errors.

(** ** Examples *)
Definition host : SocketAddr := mk_addr (V4 2130706433) 9000.
Definition quiet (now : Z) : Look := mk_look (λ _, false) (λ _, true) (λ _, now).
Definition at_time (now : Z) : Attempt := mk_attempt now 3 (Ok now) now.
Definition use_at (now : Z) : Job := UseConnection (quiet now) (at_time now) host true.
Definition no_name (_ : SocketAddr) : str := "127.0.0.1:9000".

Lemma pool_accounts_witness : ∃ ps p,
  rtc pstep (task PoolConfig_default no_name <$> [[use_at 0; use_at 1]; [use_at 2; CleanUp (quiet 3)]], ConnectionPool_new) (ps, p) ∧ finished ps ∧
  (∀ a hp, pools p !! a = Some hp →
    0 <= permits hp ∧ permits hp + Z.of_nat (slots_of a p) = current_cap hp ∧ current_cap hp <= MAX_PERMITS ∧
    (∀ k, slots p !! k = Some (a, Connecting) → Z.of_nat (length (connections hp)) < current_cap hp) ∧
    (finished ps → permits hp + Z.of_nat (length (connections hp)) = current_cap hp)) ∧
  (∀ k a c n, slots p !! k = Some (a, Connected c n) → (n ≤ 1)%nat ∧ (state c = Idle → n = O)).
Proof.
  eexists _, _. split; [apply run_in_turn|]. split; [by repeat constructor|].
  eapply (pool_accounts PoolConfig_default no_name [[use_at 0; use_at 1]; [use_at 2; CleanUp (quiet 3)]]). apply run_in_turn.
Defined.

(** A connection that is closed stays in the count of idle connections: after
    one request and the cleanup that closes its connection, the pool has no
    connection and counts one as idle. *)
Theorem closed_connection_counts_as_idle :
  let p := (run (task PoolConfig_default no_name [use_at 0; CleanUp (quiet (10 ^ 12))]) ConnectionPool_new).1 in
  slots p = ∅ ∧ connections_closed (stats p) = 1 ∧ active_connections (stats p) = 0 ∧ idle_connections (stats p) = 1.
Proof. split_and!; vm_eq. Qed.

Lemma backing_off_is_final_witness :
  worth_it RetryConfig_default false (Runtime (ConnectionFailed (no_name host) (pool_error_text no_name host BackingOff))) = false ∧
  worth_it RetryConfig_default false (Runtime (ConnectionFailed (no_name host) (pool_error_text no_name host PermitTimeout))) = true.
Proof.
  destruct (backing_off_is_final no_name RetryConfig_default false host) as [H1 H2]. split; [exact H1|]. apply H2. vm_compute. reflexivity.
Defined.
