(* ===== verification/Watch.v ===== *)
(** * Watches

    [watch.rs]: which actors are told when an actor stops. The registry maps a
    target to its watchers; as a relation between watchers and targets it is
    what [watch] adds to and [unwatch] takes from. *)
From S2P Require Import Prelude Text Address.

(** src: crates/pulsing-actor/src/actor/traits.rs 76-85 StopReason *)
Inductive StopReason := Normal | Failed (e : str) | Killed | SystemShutdown.
#[export] Instance StopReason_eq_dec : EqDecision StopReason.
Proof. solve_decision. Defined.

(** [ActorLifecycle]: the map from targets to their watchers. *)
Notation Watchers := (gmap Z (gset Z)) (only parsing).
Implicit Types (w : Watchers) (watcher target a : ActorId).

(** src: crates/pulsing-actor/src/watch.rs 29-33 ActorLifecycle::new *)
Definition Watchers_new : Watchers := ∅.
(** src: crates/pulsing-actor/src/watch.rs 38-47 watch *)
Definition watch watcher target w : Watchers := <[target := default ∅ (w !! target) ∪ {[watcher]}]> w.
(** src: crates/pulsing-actor/src/watch.rs 50-64 unwatch *)
Definition unwatch watcher target w : Watchers :=
  match w !! target with
  | Some ws => let ws := ws ∖ {[watcher]} in if bool_decide (ws = ∅) then delete target w else <[target := ws]> w
  | None => w
  end.
(** The watchers that are to be told, taken out.
    src: crates/pulsing-actor/src/watch.rs 171-174 notify_watchers (take) *)
Definition take_watchers target w : gset Z * Watchers := (default ∅ (w !! target), delete target w).
(** src: crates/pulsing-actor/src/watch.rs 228-248 remove_actor *)
Definition remove_actor a w : Watchers := filter (λ tw, tw.2 ≠ ∅) ((λ ws : gset Z, ws ∖ {[a]}) <$> delete a w).
(** src: crates/pulsing-actor/src/watch.rs 251-254 clear *)
Definition clear_watchers (_ : Watchers) : Watchers := ∅.
(** src: crates/pulsing-actor/src/watch.rs 259-261 watched_count *)
Definition watched_count w : nat := size w.
(** src: crates/pulsing-actor/src/watch.rs 264-271 get_watchers *)
Definition get_watchers target w : gset Z := default ∅ (w !! target).
(** src: crates/pulsing-actor/src/watch.rs 274-276 is_watched *)
Definition is_watched target w : bool := bool_decide (is_Some (w !! target)).

(** ** The relation *)

(** No target is kept without watchers. *)
Definition watch_wf w : Prop := map_Forall (λ _ ws, ws ≠ ∅) w.
Definition watches w watcher target : Prop := watcher ∈ get_watchers target w.

(** The specification: a set of pairs of a watcher and a target. *)
Definition represents w (r : gset (Z * Z)) : Prop := ∀ watcher target, watches w watcher target ↔ (watcher, target) ∈ r.

Lemma watch_keeps watcher target w : watch_wf w → watch_wf (watch watcher target w).
Proof. intros Hw. apply map_Forall_insert_2; [set_solver|done]. Qed.
Lemma unwatch_keeps watcher target w : watch_wf w → watch_wf (unwatch watcher target w).
Proof.
  intros Hw. unfold unwatch. destruct (w !! target) as [ws|]; [|done]. cbv zeta. case_bool_decide as Hws.
  - by apply map_Forall_delete.
  - by apply map_Forall_insert_2.
Qed.
Lemma take_keeps target w : watch_wf w → watch_wf (take_watchers target w).2.
Proof. apply map_Forall_delete. Qed.
Lemma remove_keeps a w : watch_wf (remove_actor a w).
Proof. intros t ws [_ Hne]%map_lookup_filter_Some. done. Qed.
#[export] Hint Resolve watch_keeps unwatch_keeps take_keeps remove_keeps : pulsing.

Lemma get_watch watcher target w t :
  get_watchers t (watch watcher target w) = if decide (t = target) then get_watchers target w ∪ {[watcher]} else get_watchers t w.
Proof. unfold get_watchers, watch. rewrite lookup_insert. repeat case_decide; simplify_eq; done. Qed.
Lemma get_unwatch watcher target w t :
  get_watchers t (unwatch watcher target w) = if decide (t = target) then get_watchers target w ∖ {[watcher]} else get_watchers t w.
Proof.
  unfold get_watchers, unwatch. destruct (w !! target) as [ws|] eqn:E; cbv zeta; [case_bool_decide as Hws|];
    rewrite ?lookup_delete, ?lookup_insert; repeat case_decide; simplify_eq/=; rewrite ?E; simpl; set_solver.
Qed.
Lemma get_take target w t : get_watchers t (take_watchers target w).2 = if decide (t = target) then ∅ else get_watchers t w.
Proof. unfold get_watchers, take_watchers. simpl. rewrite lookup_delete. repeat case_decide; simplify_eq; done. Qed.
Lemma get_remove a w t : get_watchers t (remove_actor a w) = if decide (t = a) then ∅ else get_watchers t w ∖ {[a]}.
Proof.
  unfold get_watchers, remove_actor. rewrite map_lookup_filter, lookup_fmap, lookup_delete.
  repeat case_decide; simplify_eq; simpl; [done|]. destruct (w !! t) as [ws|]; simpl; [|set_solver].
  case_guard as Hg; simpl in *; [done|]. by rewrite Hg.
Qed.

(** The registry is the relation of who watches whom: every operation changes
    that relation as its name says, taking the watchers of an actor yields
    exactly them, and an actor counts as watched when someone watches it. *)
Theorem watchers_refine_relation w r watcher target :
  watch_wf w → represents w r →
  represents (watch watcher target w) ({[(watcher, target)]} ∪ r) ∧
  represents (unwatch watcher target w) (r ∖ {[(watcher, target)]}) ∧
  (∀ x, x ∈ (take_watchers target w).1 ↔ (x, target) ∈ r) ∧
  represents (take_watchers target w).2 (filter (λ p, p.2 ≠ target) r) ∧
  represents (remove_actor target w) (filter (λ p, p.1 ≠ target ∧ p.2 ≠ target) r) ∧
  (is_watched target w = true ↔ ∃ x, (x, target) ∈ r).
Proof.
  intros Hwf Hr. unfold represents, watches in *. split_and!.
  - intros x t. rewrite get_watch. case_decide; subst; rewrite ?elem_of_union, Hr; set_solver.
  - intros x t. rewrite get_unwatch. case_decide; subst; rewrite ?elem_of_difference, Hr; set_solver.
  - intros x. apply (Hr x target).
  - intros x t. rewrite get_take, elem_of_filter. case_decide; subst; [set_solver|]. rewrite Hr. naive_solver.
  - intros x t. rewrite get_remove, elem_of_filter. case_decide; subst; simpl; [set_solver|]. rewrite elem_of_difference, Hr. set_solver.
  - unfold is_watched. rewrite bool_decide_eq_true. setoid_rewrite <- Hr. unfold get_watchers. split.
    + intros [ws Hws]. rewrite Hws. simpl. apply set_choose_L. by apply (Hwf target).
    + intros [x Hx]. destruct (w !! target); [by eexists|set_solver].
Qed.

Lemma watchers_refine_relation_witness :
  let w := watch 2 7 (watch 1 7 Watchers_new) in
  represents (unwatch 1 7 w) ({[(1, 7); (2, 7)]} ∖ {[(1, 7)]}) ∧ (3 ∈ (take_watchers 7 w).1 ↔ (3, 7) ∈ ({[(1, 7); (2, 7)]} : gset (Z * Z))).
Proof.
  assert (Hw : watch_wf (watch 2 7 (watch 1 7 Watchers_new))) by (do 2 apply watch_keeps; done).
  assert (Hr : represents (watch 2 7 (watch 1 7 Watchers_new)) {[(1, 7); (2, 7)]}).
  { intros x t. unfold watches. rewrite !get_watch. unfold get_watchers at 2, Watchers_new. rewrite lookup_empty. repeat case_decide; simpl; set_solver. }
  destruct (watchers_refine_relation _ _ 1 7 Hw Hr) as (_ & Hu & Ht & _). split; [apply Hu|apply Ht].
Defined.
