(* ===== verification/Supervise.v ===== *)
(** * Supervision

    [supervision.rs] and [system/runtime.rs]: an instance of an actor runs
    until its mailbox is closed or it is cancelled, and the supervision loop
    starts a new one when the policy says so. What arrives is a script of
    events; the clock, the random draw of the back-off and what the actor's own
    code does are arguments. *)
From S2P Require Import Prelude Text Address Float Watch.

(** ** Policies *)

(** src: crates/pulsing-actor/src/supervision.rs 11-19 RestartPolicy *)
Inductive RestartPolicy := RestartAlways | OnFailure | NeverRestart.
(** src: crates/pulsing-actor/src/supervision.rs 22-28 should_restart *)
Definition should_restart (p : RestartPolicy) (is_failure : bool) : bool :=
  match p with RestartAlways => true | OnFailure => is_failure | NeverRestart => false end.

(** src: crates/pulsing-actor/src/supervision.rs 33-42 BackoffStrategy *)
Record BackoffStrategy := mk_backoff { b_min : Z; b_max : Z; jitter : float; factor : float }.
(** src: crates/pulsing-actor/src/supervision.rs 44-53 BackoffStrategy::default *)
Definition BackoffStrategy_default : BackoffStrategy := mk_backoff 100000000 (30 * nanos_per_sec) (f64_lit 2 1) (f64_of_Z 2).
(** src: crates/pulsing-actor/src/supervision.rs 57-63 exponential *)
Definition exponential (lo hi : Z) : BackoffStrategy := mk_backoff lo hi (jitter BackoffStrategy_default) (factor BackoffStrategy_default).

(** The random factor is an argument; [None] is the panic of [from_secs_f64].
    src: crates/pulsing-actor/src/supervision.rs 66-88 duration *)
Definition backoff_duration (b : BackoffStrategy) (random_factor : float) (attempt : Z) : option Z :=
  let duration := f64_mul (as_secs_f64 (b_min b)) (f64_powi (factor b) (as_i32 attempt)) in
  let max_secs := as_secs_f64 (b_max b) in
  let duration := if SFltb max_secs duration then max_secs else duration in
  let duration :=
    if SFltb (S754_zero false) (jitter b) then f64_add duration (f64_mul (f64_mul duration (jitter b)) random_factor) else duration in
  let duration := if SFltb duration (S754_zero false) then S754_zero false else duration in
  from_secs_f64 duration.

(** src: crates/pulsing-actor/src/supervision.rs 93-104 SupervisionSpec *)
Record SupervisionSpec := mk_spec { policy : RestartPolicy; backoff : BackoffStrategy; max_restarts : Z; restart_window : option Z }.
(** src: crates/pulsing-actor/src/supervision.rs 108-110 never *)
Definition spec_never : SupervisionSpec := mk_spec NeverRestart BackoffStrategy_default 0 None.
(** src: crates/pulsing-actor/src/supervision.rs 113-118 always *)
Definition spec_always : SupervisionSpec := mk_spec RestartAlways BackoffStrategy_default 0 None.
(** src: crates/pulsing-actor/src/supervision.rs 121-126 on_failure *)
Definition spec_on_failure : SupervisionSpec := mk_spec OnFailure BackoffStrategy_default 0 None.
(** src: crates/pulsing-actor/src/supervision.rs 133-136 with_max_restarts *)
Definition with_max_restarts (n : Z) (s : SupervisionSpec) : SupervisionSpec := mk_spec (policy s) (backoff s) n (restart_window s).

(** ** Instances *)

(** What a call of the actor's own code does: it may panic. *)
Inductive Call (A : Type) := Return (a : A) | Panic.
Arguments Return {A} _.
Arguments Panic {A}.

(** The calls of an actor with state [St]; an error is its text. *)
Record Actor (M R St : Type) := mk_actor {
  on_start : St → Call (St * Result unit str);
  receive : M → St → Call (St * Result R str);
  on_stop : St → Call (St * Result unit str) }.
Arguments on_start {M R St} _ _.
Arguments receive {M R St} _ _ _.
Arguments on_stop {M R St} _ _.

(** What the two branches of the loop's [select!] deliver. *)
Inductive Event (M : Type) := Recv (message : M) | MailboxClosed | Cancelled.
Arguments Recv {M} _.
Arguments MailboxClosed {M}.
Arguments Cancelled {M}.

(** An instance or a supervised actor stopped, or waits for more events, or its
    task ended in a panic. *)
Inductive Outcome (A : Type) := Stopped (a : A) | Waiting | Panicked.
Arguments Stopped {A} _.
Arguments Waiting {A}.
Arguments Panicked {A}.

(** src: crates/pulsing-actor/src/system/handle.rs 14-21 ActorStats *)
Record ActorStats := mk_stats { start_count : Z; stop_count : Z; message_count : Z }.
(** src: crates/pulsing-actor/src/system/handle.rs 25-27 inc_stop *)
Definition inc_stop (s : ActorStats) : ActorStats := mk_stats (start_count s) (stop_count s +w 1) (message_count s).
(** src: crates/pulsing-actor/src/system/handle.rs 30-32 inc_message *)
Definition inc_message (s : ActorStats) : ActorStats := mk_stats (start_count s) (stop_count s) (message_count s +w 1).

Section Run.
Context {M R St : Type} (actor : Actor M R St).
Implicit Types (script : list (Event M)) (st : St) (stats : ActorStats).

(** The answers, in order, and how the loop was left: the reason, the actor and
    the rest of the script.
    src: crates/pulsing-actor/src/system/runtime.rs 27-71 run_actor_instance (loop) *)
Fixpoint instance_loop script st stats : list (Result R str) * ActorStats * Outcome (StopReason * St * list (Event M)) :=
  match script with
  | [] => ([], stats, Waiting)
  | Cancelled :: script => ([], stats, Stopped (SystemShutdown, st, script))
  | MailboxClosed :: script => ([], stats, Stopped (Normal, st, script))
  | Recv m :: script =>
      let stats := inc_message stats in
      match receive actor m st with
      | Panic => ([], stats, Panicked)
      | Return (st, answer) =>
          let '(answers, stats, o) := instance_loop script st stats in
          (answer :: answers, stats, o)
      end
  end.

(** src: crates/pulsing-actor/src/system/runtime.rs 13-84 run_actor_instance *)
Definition run_actor_instance script st stats : list (Result R str) * ActorStats * Outcome (StopReason * list (Event M)) :=
  match on_start actor st with
  | Panic => ([], stats, Panicked)
  | Return (_, Err e) => ([], inc_stop stats, Stopped (Failed e, script))
  | Return (st, Ok _) =>
      match instance_loop script st stats with
      | (answers, stats, Stopped (reason, st, script)) =>
          let stats := inc_stop stats in
          match on_stop actor st with
          | Panic => (answers, stats, Panicked)
          | Return (_, Err e) =>
              (answers, stats, Stopped (if bool_decide (reason = Normal) then Failed e else reason, script))
          | Return (_, Ok _) => (answers, stats, Stopped (reason, script))
          end
      | (answers, stats, Waiting) => (answers, stats, Waiting)
      | (answers, stats, Panicked) => (answers, stats, Panicked)
      end
  end.

(** ** The supervision loop *)

(** Whether the next restart is allowed, and the remembered restarts.
    src: crates/pulsing-actor/src/system/runtime.rs 133-152 run_supervision_loop (limit) *)
Definition restart_allowed (spec : SupervisionSpec) (now restarts : Z) (timestamps : list Z) : bool * list Z :=
  match restart_window spec with
  | Some window =>
      let timestamps := filter (λ t, now - t <= window) (timestamps ++ [now]) in
      (u32 (Z.of_nat (length timestamps)) <=? max_restarts spec, timestamps)
  | None => (restarts <=? max_restarts spec, timestamps)
  end.

(** What a supervised actor did: the answers, the instances that were made, the
    times at which restarts were decided, the pauses after that, and the times at
    which the actor was made again. *)
Record Trace := mk_trace {
  answers : list (Result R str); instances : nat; decided_at : list Z; pauses : list Z; restarted_at : list Z }.
Definition trace_app (answered : list (Result R str)) (decided pause restarted : Z) (t : Trace) : Trace :=
  mk_trace (answered ++ answers t) (S (instances t)) (decided :: decided_at t) (pause :: pauses t) (restarted :: restarted_at t).
Definition no_trace : Trace := mk_trace [] 0 [] [] [].
Definition last_trace (answered : list (Result R str)) : Trace := mk_trace answered 1 [] [] [].

(** [factory n] and [draw n] are what the [n]-th call yields; [clock n] is the time
    after the [n]-th instance, and [started n] the time at which the factory is called
    for it. A call of the factory takes one unit of fuel; when there is none left the
    trace so far is given, and no outcome.
    src: crates/pulsing-actor/src/system/runtime.rs 87-167 run_supervision_loop *)
Fixpoint supervise (fuel : nat) (spec : SupervisionSpec) (factory : nat → Result St str) (clock started : nat → Z) (draw : nat → float)
    (n : nat) (restarts : Z) (timestamps : list Z) script stats : Trace * ActorStats * option (Outcome StopReason) :=
  match fuel with
  | O => (no_trace, stats, None)
  | S fuel =>
      match factory n with
      | Err e => (no_trace, stats, Some (Stopped (Failed (lit "Factory error: " ++ e))))
      | Ok st =>
          match run_actor_instance script st stats with
          | (answered, stats, Panicked) => (last_trace answered, stats, Some Panicked)
          | (answered, stats, Waiting) => (last_trace answered, stats, Some Waiting)
          | (answered, stats, Stopped (reason, script)) =>
              let is_failure := match reason with Failed _ => true | _ => false end in
              if negb (should_restart (policy spec) is_failure) then (last_trace answered, stats, Some (Stopped reason))
              else if (match reason with SystemShutdown | Killed => true | _ => false end)
              then (last_trace answered, stats, Some (Stopped reason))
              else
                let restarts := u32 (restarts + 1) in
                let now := clock n in
                let '(allowed, timestamps) := restart_allowed spec now restarts timestamps in
                if negb allowed then (last_trace answered, stats, Some (Stopped reason))
                else
                  match backoff_duration (backoff spec) (draw n) (u32 (restarts - 1)) with
                  | None => (last_trace answered, stats, Some Panicked)
                  | Some pause =>
                      let '(t, stats, o) := supervise fuel spec factory clock started draw (S n) restarts timestamps script stats in
                      (trace_app answered now pause (started (S n)) t, stats, o)
                  end
          end
      end
  end.

(** src: crates/pulsing-actor/src/system/runtime.rs 99-101 run_supervision_loop (start) *)
Definition run_supervision_loop fuel spec factory clock started draw script :=
  supervise fuel spec factory clock started draw 0 0 [] script (mk_stats 0 0 0).
End Run.

(** ** Properties of supervision

    What an instance does with its messages, when it is replaced, and how often. *)
Section Facts.
Context {M R St : Type} (actor : Actor M R St).
Implicit Types (script : list (Event M)) (st : St) (stats : ActorStats).

(** ** One instance *)

(** The answers to some messages, given by one actor after the other message. *)
Inductive answered_in_turn : list M → St → list (Result R str) → St → Prop :=
  | turn_nil st : answered_in_turn [] st [] st
  | turn_cons m ms st st' answer answers st'' :
      receive actor m st = Return (st', answer) → answered_in_turn ms st' answers st'' →
      answered_in_turn (m :: ms) st (answer :: answers) st''.

Lemma instance_loop_app ms st answers st' script stats :
  answered_in_turn ms st answers st' →
  instance_loop actor ((Recv <$> ms) ++ script) st stats =
    let '(more, stats, o) := instance_loop actor script st' (Nat.iter (length ms) inc_message stats) in (answers ++ more, stats, o).
Proof.
  intros Ha. revert stats. induction Ha as [st|m ms st st1 answer answers st2 Hr _ IH]; intros stats; simpl.
  { by destruct (instance_loop actor script st stats) as [[??]?]. }
  rewrite Hr, IH. rewrite <- Nat.iter_succ_r. simpl. by destruct (instance_loop _ _ _ _) as [[??]?].
Qed.

(** Messages are answered one after the other by the same instance, an error
    being one more answer: it stops nothing. *)
Theorem errors_stop_nothing ms st answers st' stats stopped last :
  answered_in_turn ms st answers st' → on_stop actor st' = Return (stopped, last) →
  (∀ st0, on_start actor st0 = Return (st, Ok tt) →
    run_actor_instance actor ((Recv <$> ms) ++ [Cancelled]) st0 stats =
      (answers, inc_stop (Nat.iter (length ms) inc_message stats), Stopped (SystemShutdown, []))).
Proof.
  intros Ha Hs st0 H0. unfold run_actor_instance. rewrite H0, (instance_loop_app _ _ _ _ _ _ Ha). simpl.
  rewrite app_nil_r, Hs. by destruct last.
Qed.

(** An instance whose mailbox stays open fails only before its first message. *)
Definition stays_open script : Prop := MailboxClosed ∉ script.

Lemma instance_loop_open script st stats answers stats' reason st' rest :
  stays_open script → instance_loop actor script st stats = (answers, stats', Stopped (reason, st', rest)) → reason = SystemShutdown.
Proof.
  intros Ho. revert st stats answers. induction script as [|[m| |] script IH]; intros st stats answers; simpl; [done| | |].
  - destruct (receive actor m st) as [[st1 answer]|]; [|done].
    destruct (instance_loop actor script st1 _) as [[a s] o] eqn:E. intros [= <- <- ->]. eapply IH; [|done].
    intros Hin. apply Ho. by apply list_elem_of_further.
  - destruct Ho. apply list_elem_of_here.
  - by intros [= <- <- <- <- <-].
Qed.

Lemma failed_before_start script st stats answers stats' e rest :
  stays_open script → run_actor_instance actor script st stats = (answers, stats', Stopped (Failed e, rest)) →
  (∃ st', on_start actor st = Return (st', Err e)) ∧ answers = [] ∧ rest = script ∧ message_count stats' = message_count stats.
Proof.
  intros Ho. unfold run_actor_instance. destruct (on_start actor st) as [[st1 [[]|e1]]|] eqn:Es; [|by intros [= <- <- <- <-]; eauto|done].
  destruct (instance_loop actor script st1 stats) as [[a s] [[[reason st2] rest']| |]] eqn:E; [|done..].
  apply instance_loop_open in E; [|done]. subst reason. destruct (on_stop actor st2) as [[? [[]|]]|]; done.
Qed.

(** How an instance with an open mailbox can end. *)
Lemma open_reasons script st stats answers stats' reason rest :
  stays_open script → run_actor_instance actor script st stats = (answers, stats', Stopped (reason, rest)) →
  reason = SystemShutdown ∨ ∃ e, reason = Failed e.
Proof.
  intros Ho. unfold run_actor_instance. destruct (on_start actor st) as [[st1 [[]|e1]]|]; [|by intros [= <- <- <- <-]; eauto|done].
  destruct (instance_loop actor script st1 stats) as [[a s] [[[r st2] rest']| |]] eqn:E; [|done..].
  apply instance_loop_open in E; [|done]. subst r. destruct (on_stop actor st2) as [[? [[]|]]|]; [..|done]; intros [= <- <- <- <-]; by left.
Qed.

(** ** The supervision loop *)
Section Loop.
Context (spec : SupervisionSpec) (factory : nat → Result St str) (clock started : nat → Z) (draw : nat → float).
Notation supervise := (supervise actor).

(** One round of the loop: it ends here, or restarts. *)
Lemma supervise_cases fuel n restarts ts script stats t stats' o :
  supervise fuel spec factory clock started draw n restarts ts script stats = (t, stats', o) →
  decided_at t = [] ∧ restarted_at t = [] ∧ (instances t ≤ 1)%nat ∨
  ∃ fuel' st answered stats1 reason rest ts' t' pause, fuel = S fuel' ∧
    factory n = Ok st ∧ run_actor_instance actor script st stats = (answered, stats1, Stopped (reason, rest)) ∧
    reason ≠ SystemShutdown ∧ restart_allowed spec (clock n) (u32 (restarts + 1)) ts = (true, ts') ∧
    supervise fuel' spec factory clock started draw (S n) (u32 (restarts + 1)) ts' rest stats1 = (t', stats', o) ∧
    t = trace_app answered (clock n) pause (started (S n)) t'.
Proof.
  destruct fuel as [|fuel]; simpl; [by intros [= <- <- <-]; simpl; left; auto|].
  destruct (factory n) as [st|e]; [|intros [= <- <- <-]; simpl; left; auto].
  destruct (run_actor_instance actor script st stats) as [[answered stats1] [[reason rest]| |]] eqn:Ei;
    [|intros [= <- <- <-]; left; auto..].
  destruct (negb _) eqn:Ep; [intros [= <- <- <-]; left; auto|].
  destruct (match reason with SystemShutdown | Killed => true | _ => false end) eqn:Er; [intros [= <- <- <-]; left; auto|].
  destruct (restart_allowed _ _ _ _) as [[] ts'] eqn:Ea; simpl; [|intros [= <- <- <-]; left; auto].
  destruct (backoff_duration _ _ _) as [pause|]; [|intros [= <- <- <-]; left; auto].
  destruct (Supervise.supervise _ _ _ _ _ _ _ _ _ _ _ _) as [[t' s'] o'] eqn:E. intros [= <- <- <-]. right.
  exists fuel, st, answered, stats1, reason, rest, ts', t', pause. split_and!; try done. by intros ->.
Qed.

Lemma restarts_replace_failed_starts fuel n restarts ts script stats t stats' o :
  stays_open script → supervise fuel spec factory clock started draw n restarts ts script stats = (t, stats', o) →
  ∀ i, (i < length (restarted_at t))%nat → ∃ st st' e, factory (n + i)%nat = Ok st ∧ on_start actor st = Return (st', Err e).
Proof.
  intros Ho. revert n restarts ts stats t. induction fuel as [|fuel IH]; intros n restarts ts stats t;
    intros [(_ & -> & _)|(fuel' & st & answered & stats1 & reason & rest & ts' & t' & pause & Hfuel & Hf & Hi & Hr & _ & Hs & ->)]%supervise_cases i Hlt;
    [simpl in Hlt; lia|done|simpl in Hlt; lia|]. injection Hfuel as <-. destruct (open_reasons _ _ _ _ _ _ _ Ho Hi) as [?|[e ->]]; [done|].
  destruct (failed_before_start _ _ _ _ _ _ _ Ho Hi) as ((st' & Hst) & _ & -> & _). destruct i as [|i].
  - rewrite Nat.add_0_r. eauto.
  - rewrite Nat.add_succ_r. apply (IH (S n) _ _ _ _ Hs i). simpl in Hlt. lia.
Qed.

Lemma allowed_without_window now restarts ts ts' :
  restart_window spec = None → restart_allowed spec now restarts ts = (true, ts') → restarts <= max_restarts spec.
Proof. unfold restart_allowed. intros ->. intros [= H%Z.leb_le _]. done. Qed.

Lemma supervise_enough fuel n restarts ts script stats :
  restart_window spec = None → 0 <= restarts <= max_restarts spec → max_restarts spec < two32 - 1 →
  max_restarts spec - restarts < Z.of_nat fuel → is_Some (supervise fuel spec factory clock started draw n restarts ts script stats).2.
Proof.
  intros Hw. revert n restarts ts script stats. induction fuel as [|fuel IH]; intros n restarts ts script stats Hr Hm Hf; [lia|].
  simpl. destruct (factory n) as [st|e]; [|by eexists].
  destruct (run_actor_instance actor script st stats) as [[answered stats1] [[reason rest]| |]]; [|by eexists..].
  destruct (negb _); [by eexists|]. destruct (match reason with SystemShutdown | Killed => true | _ => false end); [by eexists|].
  destruct (restart_allowed _ _ _ _) as [[] ts'] eqn:Ea; simpl; [|by eexists]. apply allowed_without_window in Ea; [|done].
  rewrite (u32_small (restarts + 1)) in * by (unfold is_u32; lia). destruct (backoff_duration _ _ _) as [pause|]; [|by eexists].
  destruct (IH (S n) (restarts + 1) ts' rest stats1) as [o E]; [lia..|].
  destruct (supervise _ _ _ _ _ _ _ _ _ _ _) as [[t s] o']. simpl in E. subst. by eexists.
Qed.

Lemma supervise_bound fuel n restarts ts script stats t stats' o :
  restart_window spec = None → 0 <= restarts <= max_restarts spec → max_restarts spec < two32 - 1 →
  supervise fuel spec factory clock started draw n restarts ts script stats = (t, stats', o) →
  Z.of_nat (length (restarted_at t)) <= max_restarts spec - restarts ∧ (instances t ≤ length (restarted_at t) + 1)%nat.
Proof.
  intros Hw. revert n restarts ts script stats t. induction fuel as [|fuel IH]; intros n restarts ts script stats t Hr Hm;
    intros [(_ & -> & Hi)|(fuel' & st & answered & stats1 & reason & rest & ts' & t' & pause & Hfuel & _ & _ & _ & Ha & Hs & ->)]%supervise_cases;
    [simpl; lia|done|simpl; lia|]. injection Hfuel as <-.
  apply allowed_without_window in Ha; [|done]. rewrite (u32_small (restarts + 1)) in * by (unfold is_u32; lia).
  apply IH in Hs as [? ?]; [|lia..]. simpl. lia.
Qed.

(** When restarts are decided and made. *)
Lemma trace_times fuel n restarts ts script stats t stats' o :
  supervise fuel spec factory clock started draw n restarts ts script stats = (t, stats', o) →
  ∃ k, decided_at t = clock <$> seq n k ∧ restarted_at t = (λ i, started (S i)) <$> seq n k.
Proof.
  revert n restarts ts script stats t. induction fuel as [|fuel IH]; intros n restarts ts script stats t;
    intros [(-> & -> & _)|(fuel' & st & answered & stats1 & reason & rest & ts' & t' & pause & Hfuel & _ & _ & _ & _ & Hs & ->)]%supervise_cases;
    [by exists 0%nat|done|by exists 0%nat|]. injection Hfuel as <-. apply IH in Hs as (k & Hd & Hr). exists (S k). simpl. by rewrite Hd, Hr.
Qed.
End Loop.

(** Without a window a supervised actor ends, however often its instances
    fail: it is restarted [max_restarts] times at most, and that many rounds and
    one more are enough for the loop. *)
Theorem restart_budget fuel spec factory clock started draw script :
  restart_window spec = None → 0 <= max_restarts spec < two32 - 1 → max_restarts spec < Z.of_nat fuel →
  ∃ t stats o, run_supervision_loop actor fuel spec factory clock started draw script = (t, stats, Some o) ∧
    Z.of_nat (length (restarted_at t)) <= max_restarts spec ∧ Z.of_nat (instances t) <= max_restarts spec + 1.
Proof.
  intros Hw Hm Hf. unfold run_supervision_loop.
  destruct (supervise_enough spec factory clock started draw fuel 0 0 [] script (mk_stats 0 0 0)) as [o Ho]; [done|lia..|].
  destruct (supervise _ _ _ _ _ _ _ _ _ _ _ _) as [[t s] o'] eqn:E. simpl in Ho. subst o'. exists t, s, o. split; [done|]. apply supervise_bound in E as [H1 H2]; [lia|done|lia..].
Qed.

(** The context of an actor holds a sender of its own mailbox, so the mailbox
    never closes while it runs. Then only an instance that failed in [on_start]
    is ever replaced: an actor that has started is not restarted, whatever its
    policy, and every message is handled by the last instance. *)
Theorem started_actor_is_not_restarted fuel spec factory clock started draw script t stats o :
  stays_open script → run_supervision_loop actor fuel spec factory clock started draw script = (t, stats, o) →
  ∀ i, (i < length (restarted_at t))%nat → ∃ st st' e, factory i = Ok st ∧ on_start actor st = Return (st', Err e).
Proof. intros Ho Hr. apply (restarts_replace_failed_starts _ _ _ _ _ _ _ _ _ _ _ _ _ _ Ho Hr). Qed.

(** ** A window for restarts *)
Lemma filter_length_le {A} (P Q : A → Prop) `{∀ x, Decision (P x), ∀ x, Decision (Q x)} l :
  (∀ x, P x → Q x) → (length (filter P l) ≤ length (filter Q l))%nat.
Proof.
  intros HPQ. induction l as [|a l IH]; [done|]. rewrite !filter_cons. repeat case_decide; simpl; try lia. naive_solver.
Qed.

Section Window.
Context (spec : SupervisionSpec) (factory : nat → Result St str) (clock started : nat → Z) (draw : nat → float) (window : Z).
Hypothesis Hwindow : restart_window spec = Some window.
Hypothesis Hmax : 0 <= max_restarts spec < two32 - 1.
Hypothesis Htimes : ∀ n, clock n <= started (S n) <= clock (S n).
Lemma clock_mono i j : (i <= j)%nat → clock i <= clock j.
Proof using Htimes. clear -Htimes. induction 1 as [|j _ IH]; [done|]. specialize (Htimes j). lia. Qed.

Definition recent (now : Z) (ts : list Z) : list Z := filter (λ t, now - t <= window) ts.

Lemma recent_recent now now' ts : now <= now' → recent now' (recent now ts) = recent now' ts.
Proof.
  intros Hn. unfold recent. rewrite list_filter_filter_l; [done|]. intros t Ht. lia.
Qed.
Lemma recent_app now k l : recent now (k ++ l) = recent now k ++ recent now l.
Proof. apply filter_app. Qed.

(** [past] are the restarts so far, of which the loop remembers the recent ones. *)
Lemma window_respected fuel n restarts ts script stats t stats' o past :
  (∀ i, (n <= i)%nat → recent (clock i) ts = recent (clock i) past) → (length ts ≤ Z.to_nat (max_restarts spec))%nat →
  supervise actor fuel spec factory clock started draw n restarts ts script stats = (t, stats', o) →
  ∀ l x l', decided_at t = l ++ x :: l' → Z.of_nat (length (recent x (past ++ l ++ [x]))) <= max_restarts spec.
Proof.
  revert n restarts ts script stats t past. induction fuel as [|fuel IH]; intros n restarts ts script stats t past Hts Hlen;
    intros [(-> & _ & _)|(fuel' & st & answered & stats1 & reason & rest & ts' & t' & pause & Hfuel & _ & _ & _ & Ha & Hs & ->)]%supervise_cases l x l' Hl;
    [by destruct l|done|by destruct l|]. injection Hfuel as <-. simpl in Hl.
  unfold restart_allowed in Ha. rewrite Hwindow in Ha. cbv zeta in Ha. fold (recent (clock n) (ts ++ [clock n])) in Ha. injection Ha as Ha <-.
  pose proof (length_filter (λ t0, clock n - t0 <= window) (ts ++ [clock n])) as Hf. fold (recent (clock n) (ts ++ [clock n])) in Hf.
  rewrite length_app in Hf. simpl in Hf. apply Z.leb_le in Ha. rewrite u32_small in Ha by (unfold is_u32; lia).
  assert (Hnow : recent (clock n) (ts ++ [clock n]) = recent (clock n) (past ++ [clock n])) by by rewrite !recent_app, Hts.
  destruct l as [|y l]; injection Hl as <- Hl.
  - simpl. by rewrite <- Hnow.
  - cbn [app]. rewrite cons_middle, app_assoc. eapply (IH _ _ _ _ _ _ (past ++ [clock n]) ); [| |exact Hs|exact Hl].
    + intros i Hi. rewrite recent_recent by (apply clock_mono; lia). rewrite !recent_app, Hts by lia. done.
    + lia.
Qed.

Lemma interval_bound ts bound a :
  0 <= bound → (∀ l x l', ts = l ++ x :: l' → Z.of_nat (length (recent x (l ++ [x]))) <= bound) →
  Z.of_nat (length (filter (λ x, a <= x <= a + window) ts)) <= bound.
Proof using Type.
  clear Hwindow Hmax Htimes.
  intros Hb. induction ts as [|x l IH] using rev_ind; intros Hts; [done|]. rewrite filter_app, filter_cons, filter_nil.
  case_decide as Hx.
  - specialize (Hts l x [] eq_refl). unfold recent in Hts. rewrite filter_app, filter_cons, filter_nil, length_app in Hts.
    rewrite length_app. case_decide; [|lia]. pose proof (filter_length_le (λ y, a <= y <= a + window) (λ y, x - y <= window) l ltac:(intros y; simpl; lia)). lia.
  - rewrite app_nil_r. apply IH. intros k y l' Hk. subst l. rewrite <- app_assoc in Hts. by apply (Hts k y (l' ++ [x])).
Qed.

(** Between two restarts one is decided. *)
Lemma starts_after a b n k :
  a <= clock n → (length (filter (λ x, (a <= x <= b)%Z) ((λ i, started (S i)) <$> seq n k)) ≤ length (filter (λ x, (a <= x <= b)%Z) (clock <$> seq n k)))%nat.
Proof using Htimes.
  clear Hwindow Hmax. revert n. induction k as [|k IH]; intros n Ha; [done|]. pose proof (Htimes n) as Hn. specialize (IH (S n) ltac:(lia)).
  cbn [seq]. rewrite !fmap_cons, !filter_cons. repeat case_decide; simpl; lia.
Qed.
Lemma starts_bound a b n k :
  (length (filter (λ x, (a <= x <= b)%Z) ((λ i, started (S i)) <$> seq n k)) ≤ S (length (filter (λ x, (a <= x <= b)%Z) (clock <$> seq n k))))%nat.
Proof using Htimes.
  clear Hwindow Hmax. revert n. induction k as [|k IH]; intros n; [simpl; lia|]. pose proof (Htimes n) as Hn. specialize (IH (S n)).
  cbn [seq]. rewrite !fmap_cons, !filter_cons. case_decide as Hs; [|case_decide; simpl; lia].
  pose proof (starts_after a b (S n) k ltac:(lia)). case_decide; simpl; lia.
Qed.
End Window.

(** C38: With a window, no stretch of time as long as the window holds more than
    [max_restarts] decisions to restart, at any point of the actor's life, and so no more
    than [max_restarts] and one restarts: the decision is what is counted, and the
    restart comes after the pause. ([max_restarts] is below the greatest u32, and
    time does not go back.) *)
Theorem restart_rate_bounded fuel spec factory clock started draw script window t stats o a :
  restart_window spec = Some window → 0 <= max_restarts spec < two32 - 1 → (∀ n, clock n <= started (S n) <= clock (S n)) →
  run_supervision_loop actor fuel spec factory clock started draw script = (t, stats, o) →
  Z.of_nat (length (filter (λ x, a <= x <= a + window) (decided_at t))) <= max_restarts spec ∧
  Z.of_nat (length (filter (λ x, a <= x <= a + window) (restarted_at t))) <= max_restarts spec + 1.
Proof.
  intros Hw Hm Hc Hr. assert (Hd : Z.of_nat (length (filter (λ x, a <= x <= a + window) (decided_at t))) <= max_restarts spec).
  { apply interval_bound; [lia|]. intros l x l' Hl.
    apply (window_respected spec factory clock started draw window Hw Hm Hc fuel 0 0 [] script (mk_stats 0 0 0) t stats o [] ltac:(done) ltac:(simpl; lia) Hr l x l' Hl). }
  split; [exact Hd|]. apply trace_times in Hr as (k & Hk & ->). rewrite Hk in Hd. pose proof (starts_bound clock started Hc a (a + window) 0 k). lia.
Qed.
End Facts.

(** ** Instances *)

(** An actor that counts, answers errors to odd messages, and starts only when
    its state says so. *)
Definition counter : Actor Z Z Z := {|
  on_start st := Return (st, if st <? 0 then Err (lit "not ready") else Ok tt);
  receive m st := Return (st + 1, if Z.odd m then Err (lit "odd") else Ok (st + m));
  on_stop st := Return (st, Ok tt) |}.
Definition no_pause : BackoffStrategy := mk_backoff 0 0 (f64_of_Z 0) (f64_of_Z 2).

Lemma errors_stop_nothing_witness :
  run_actor_instance counter ((Recv <$> [1; 4]) ++ [Cancelled]) 0 (mk_stats 0 0 0) =
    ([Err (lit "odd"); Ok 5], inc_stop (Nat.iter 2 inc_message (mk_stats 0 0 0)), Stopped (SystemShutdown, [])).
Proof.
  apply (errors_stop_nothing counter [1; 4] 0 [Err (lit "odd"); Ok 5] 2 (mk_stats 0 0 0) 2 (Ok tt)); [|done|done].
  repeat econstructor.
Defined.

(** The first two instances fail to start. *)
Definition late_factory (n : nat) : Result Z str := Ok (if (n <? 2)%nat then -1 else 0).
Definition three_restarts : SupervisionSpec := mk_spec OnFailure no_pause 3 None.
Lemma restart_budget_witness :
  ∃ t stats o, run_supervision_loop counter 4 three_restarts (λ _, Ok (-1)) Z.of_nat Z.of_nat (λ _, f64_of_Z 0) [Recv 2] = (t, stats, Some o) ∧
    Z.of_nat (length (restarted_at t)) <= 3 ∧ Z.of_nat (instances t) <= 4.
Proof. apply (restart_budget counter 4 three_restarts); [done|unfold two32; simpl; lia|simpl; lia]. Defined.

Lemma started_actor_is_not_restarted_witness :
  ∃ st st' e, late_factory 1 = Ok st ∧ on_start counter st = Return (st', Err e).
Proof.
  eapply (started_actor_is_not_restarted counter 4 three_restarts late_factory Z.of_nat Z.of_nat (λ _, f64_of_Z 0) [Recv 2; Cancelled]);
    [|vm_compute; reflexivity|simpl; lia].
  unfold stays_open. intros Hin. set_solver.
Defined.

(** Never ready, and the first restart is late: the next one comes soon after it,
    and the actor goes on for as long as it is watched. *)
Definition windowed : SupervisionSpec := mk_spec OnFailure no_pause 1 (Some 5).
Definition checked (n : nat) : Z := 6 * Z.of_nat n.
Definition restarted (n : nat) : Z := if (n =? 1)%nat then 6 else 6 * Z.of_nat n - 5.
Lemma restart_rate_bounded_witness :
  ∃ t stats, run_supervision_loop counter 20 windowed (λ _, Ok (-1)) checked restarted (λ _, f64_of_Z 0) [] = (t, stats, None) ∧
    length (restarted_at t) = 20%nat ∧ take 3 (decided_at t) = [0; 6; 12] ∧ take 3 (restarted_at t) = [6; 7; 13] ∧
    Z.of_nat (length (filter (λ x, 6 <= x <= 6 + 5) (decided_at t))) <= 1 ∧
    Z.of_nat (length (filter (λ x, 6 <= x <= 6 + 5) (restarted_at t))) <= 1 + 1.
Proof.
  do 2 eexists. split; [vm_compute; reflexivity|]. split; [reflexivity|]. split; [reflexivity|]. split; [reflexivity|].
  eapply (restart_rate_bounded counter 20 windowed (λ _, Ok (-1)) checked restarted (λ _, f64_of_Z 0) []);
    [done|unfold two32; simpl; lia|intros n; unfold checked, restarted; destruct (n =? 0)%nat eqn:E; [apply Nat.eqb_eq in E as ->; simpl; lia|apply Nat.eqb_neq in E; destruct (S n =? 1)%nat eqn:E'; [apply Nat.eqb_eq in E'|]; lia]|vm_compute; reflexivity].
Defined.

(** With [min] set to zero, no pause at all, the 1025th restart computes zero
    times infinity, and turning that into a duration panics. *)
Theorem zero_backoff_panics draw : backoff_duration (exponential 0 (30 * nanos_per_sec)) draw 1024 = None.
Proof.
  unfold backoff_duration. simpl b_min. simpl b_max. simpl factor. simpl jitter.
  replace (f64_mul (as_secs_f64 0) (f64_powi (f64_of_Z 2) (as_i32 1024))) with S754_nan by (vm_compute; reflexivity). cbv zeta.
  replace (SFltb (as_secs_f64 (30 * nanos_per_sec)) S754_nan) with false by (vm_compute; reflexivity).
  replace (SFltb (S754_zero false) (f64_lit 2 1)) with true by (vm_compute; reflexivity). done.
Qed.

(** The pauses of the default strategy without jitter: doubling, then 30 s. *)
Example default_pauses :
  let b := mk_backoff 100000000 (30 * nanos_per_sec) (f64_of_Z 0) (f64_of_Z 2) in
  (λ n, backoff_duration b (f64_of_Z 0) n) <$> [0; 1; 2; 8; 9; 40; 5000] =
    Some <$> [100000000; 200000000; 400000000; 25600000000; 30000000000; 30000000000; 30000000000].
Proof. by vm_compute. Qed.
