(* ===== verification/Naming.v ===== *)
(** * The naming interface

    [cluster/naming.rs]: what a cluster backend offers to the actor system, as
    operations ([NamingBackend]) and laws ([NamingLaws]), with the gossip
    cluster and the head-node backend as its implementations. *)
From S2P Require Import Prelude Text Address Member Gossip GossipFacts Contact Head HeadFacts.

(** The operations the actor system calls to find and announce named actors;
    the effects of a call on the network are left out here.
    src: crates/pulsing-actor/src/cluster/naming.rs 13-62 NamingBackend *)
Class NamingBackend (B : Type) : Type := {
  nb_local_node : B → NodeId;
  nb_get_member : NodeId → B → option MemberInfo;
  nb_lookup_named : ActorPath → B → option NamedActorInfo;
  nb_instances : ActorPath → B → list MemberInfo;
  nb_instances_detailed : ActorPath → B → list (MemberInfo * option NamedActorInstance);
  nb_lookup_actor : ActorId → B → option MemberInfo;
  nb_register_named : ActorPath → B → B;
  nb_register_named_full : ActorPath → ActorId → gmap (list Z) (list Z) → B → B;
  nb_unregister_named : ActorPath → B → B
}.

Definition nb_nodes `{NamingBackend B} (p : ActorPath) (b : B) : gset Z :=
  from_option instance_nodes ∅ (nb_lookup_named p b).

(** What they promise, on the states that satisfy [nb_wf]. *)
Class NamingLaws (B : Type) `{NamingBackend B} : Type := {
  nb_wf : B → Prop;
  nb_get_member_id n b m : nb_wf b → nb_get_member n b = Some m → m_node_id m = n;
  nb_instances_spec p b : nb_instances p b = omap (λ n, nb_get_member n b) (elements (nb_nodes p b));
  nb_detailed_spec p b :
    nb_instances_detailed p b =
    omap (λ n, (λ m, (m, nb_lookup_named p b ≫= λ info, instances info !! n)) <$> nb_get_member n b) (elements (nb_nodes p b));
  nb_register_nodes p a md b q :
    nb_wf b → nb_nodes q (nb_register_named_full p a md b) =
      if decide (as_str p = as_str q) then {[nb_local_node b]} ∪ nb_nodes q b else nb_nodes q b;
  nb_register_legacy_nodes p b q :
    nb_wf b → nb_nodes q (nb_register_named p b) =
      if decide (as_str p = as_str q) then {[nb_local_node b]} ∪ nb_nodes q b else nb_nodes q b;
  nb_unregister_nodes p b q :
    nb_wf b → nb_nodes q (nb_unregister_named p b) =
      if decide (as_str p = as_str q) then nb_nodes q b ∖ {[nb_local_node b]} else nb_nodes q b;
  nb_register_keeps p a md b : nb_wf b →
    nb_wf (nb_register_named_full p a md b) ∧
    nb_local_node (nb_register_named_full p a md b) = nb_local_node b ∧
    ∀ n, nb_get_member n (nb_register_named_full p a md b) = nb_get_member n b;
  nb_unregister_keeps p b : nb_wf b →
    nb_wf (nb_unregister_named p b) ∧
    nb_local_node (nb_unregister_named p b) = nb_local_node b ∧
    ∀ n, nb_get_member n (nb_unregister_named p b) = nb_get_member n b
}.

(** ** The gossip cluster *)
Section GossipNaming.
Context `{Oracle, Codec} (cfg : GossipConfig).

(** src: crates/pulsing-actor/src/cluster/backends/gossip.rs 43-138 GossipBackend *)
Definition gossip_naming : NamingBackend ClusterState := {|
  nb_local_node := local_node;
  nb_get_member := get_member;
  nb_lookup_named := lookup_named_actor;
  nb_instances := get_named_actor_instances;
  nb_instances_detailed := get_named_actor_instances_detailed;
  nb_lookup_actor := lookup_actor;
  nb_register_named p st := (register_named_actor cfg p st).1;
  nb_register_named_full p a md st := (register_named_actor_full cfg p a md st).1;
  nb_unregister_named p st := (unregister_named_actor cfg p st).1 |}.

Lemma unregister_named_actor_fields p st :
  let st' := (unregister_named_actor cfg p st).1 in
  local_node st' = local_node st ∧ cluster_nodes st' = cluster_nodes st ∧ members_log st' = members_log st ∧
  current_epoch st' = current_epoch st.
Proof. unfold unregister_named_actor. by destruct (_ <$> _). Qed.

Program Definition gossip_laws : @NamingLaws ClusterState gossip_naming := {| nb_wf := cluster_inv |}.
Next Obligation.
  intros n st m [[Hk _ _ _] _ _]. simpl. unfold get_member. destruct (cluster_nodes st !! n) as [c|] eqn:E; [|done].
  intros [= <-]. simpl. by apply Hk in E.
Qed.
Next Obligation.
  intros p st. simpl. unfold get_named_actor_instances, nb_nodes. simpl. unfold lookup_named_actor.
  by destruct (named_actors st !! as_str p).
Qed.
Next Obligation.
  intros p st. simpl. unfold get_named_actor_instances_detailed, nb_nodes. simpl. unfold lookup_named_actor.
  by destruct (named_actors st !! as_str p).
Qed.
Next Obligation. intros p a md st q _. simpl. apply (nodes_of_register_full p). Qed.
Next Obligation. intros p st q _. simpl. apply (nodes_of_register_legacy p). Qed.
Next Obligation.
  intros p st q [_ Ht _]. simpl. unfold nb_nodes. simpl. unfold lookup_named_actor.
  rewrite unregister_named_actors. by apply (nodes_of_unregister p).
Qed.
Next Obligation.
  intros p a md st Hi. simpl. split_and!; [|done..]. destruct Hi as [Hn Ht He]. split; simpl; [done| |done].
  auto with pulsing.
Qed.
Next Obligation.
  intros p st Hi. simpl. destruct (unregister_named_actor_fields p st) as (Hl & Hc & Hm & He). split_and!; [|done|].
  - destruct Hi as [Hn Ht He']. split; rewrite ?Hl, ?Hc, ?Hm, ?He; [done| |done].
    rewrite unregister_named_actors. auto with pulsing.
  - intros n. unfold get_member. by rewrite Hc.
Qed.
End GossipNaming.

(** ** The head-node backend *)
Section HeadNaming.
Context (l : Link).

Definition head_naming : NamingBackend HeadNodeBackend := {|
  nb_local_node := b_local_node;
  nb_get_member := backend_get_member;
  nb_lookup_named := backend_lookup_named;
  nb_instances := backend_instances;
  nb_instances_detailed := backend_instances_detailed;
  nb_lookup_actor := backend_lookup_actor;
  nb_register_named p b := (backend_register_named l p b).1;
  nb_register_named_full p a md b := (backend_register_named_full l p a md b).1;
  nb_unregister_named p b := (backend_unregister_named l p b).1 |}.

(** Everything but the queue. *)
Definition same_view (b b' : HeadNodeBackend) : Prop :=
  mode b' = mode b ∧ b_local_node b' = b_local_node b ∧
  match b_state b, b_state b' with
  | HeadSt h, HeadSt h' => h' = h
  | WorkerSt w, WorkerSt w' => w_members w' = w_members w ∧ w_named w' = w_named w ∧ w_actors w' = w_actors w
  | _, _ => False
  end.

Ltac view_cases := try done; intros; destruct_and?; subst; try done; split_and?; first [done|congruence|simpl; congruence].

#[global] Instance same_view_refl : Reflexive same_view.
Proof. intros b. unfold same_view. by destruct (b_state b). Qed.
#[global] Instance same_view_trans : Transitive same_view.
Proof.
  intros a b c. unfold same_view. destruct (b_state a), (b_state b), (b_state c); view_cases.
Qed.

Lemma process_ops_view k ops b : same_view b (process_ops l k ops b).1.1.
Proof.
  revert k b. induction ops as [|op ops IH]; intros k b; [done|]. simpl.
  destruct (encodes l _); [|done]. destruct (tell_head l k _ b).
  - specialize (IH (S k) b). by destruct (process_ops l (S k) ops b) as [[b' sent] res].
  - etrans; [|apply IH]. unfold same_view, on_worker, add_pending_sync. by destruct (b_state b) eqn:E; simpl; rewrite ?E.
Qed.

Lemma process_pending_view k b : same_view b (process_pending_sync l k b).1.1.
Proof.
  unfold process_pending_sync. destruct (is_head b); [done|]. destruct (b_state b) as [|w] eqn:E; [done|]. simpl.
  etrans; [|apply process_ops_view]. unfold same_view. simpl. by rewrite E.
Qed.

Lemma view_named p b b' : same_view b b' → backend_lookup_named p b' = backend_lookup_named p b.
Proof.
  intros (Hm & _ & Hs). unfold backend_lookup_named, read_state, is_head. rewrite Hm.
  destruct (b_state b), (b_state b'), (mode b); view_cases.
Qed.

Lemma view_member n b b' : same_view b b' → backend_get_member n b' = backend_get_member n b.
Proof.
  intros (Hm & _ & Hs). unfold backend_get_member, read_state, is_head. rewrite Hm.
  destruct (b_state b), (b_state b'), (mode b); view_cases.
Qed.

(** A worker's member cache is keyed by node. *)
Definition members_keyed (b : HeadNodeBackend) : Prop :=
  match b_state b with WorkerSt w => map_Forall (λ k m, m_node_id m = k) (w_members w) | HeadSt _ => True end.
Definition naming_wf (b : HeadNodeBackend) : Prop := backend_wf b ∧ members_keyed b.

Lemma view_wf b b' : same_view b b' → naming_wf b → naming_wf b'.
Proof.
  intros (Hm & _ & Hs) [Hb Hk]. unfold naming_wf, backend_wf, members_keyed, is_head in *. rewrite Hm.
  destruct (b_state b), (b_state b'); try done; [by subst|]. destruct Hs as (Hs1 & Hs2 & _). by rewrite Hs1, Hs2.
Qed.

(** One registration or withdrawal, on a head or on a worker. *)
Section OneChange.
Context (fh : HeadNodeState → HeadNodeState) (ft : NamedTable → NamedTable) (op : SyncOperation).
Hypothesis Hfh : ∀ h, nodes (fh h) = nodes h ∧ h_named (fh h) = ft (h_named h).
Hypothesis Hft : ∀ t, table_wf t → table_wf (ft t).

Definition changed (b : HeadNodeBackend) : HeadNodeBackend :=
  if is_head b then on_head fh b
  else (queue_and_sync l op (λ w, set_w_named (ft (w_named w)) w) b).1.

Lemma changed_spec b :
  naming_wf b →
  naming_wf (changed b) ∧ b_local_node (changed b) = b_local_node b ∧
  (∀ n, backend_get_member n (changed b) = backend_get_member n b) ∧
  ∀ q, from_option instance_nodes ∅ (backend_lookup_named q (changed b)) =
    match b_state b with HeadSt h => nodes_of q (ft (h_named h)) | WorkerSt w => nodes_of q (ft (w_named w)) end.
Proof.
  intros [Hb Hk]. unfold changed. destruct (b_state b) as [h|w] eqn:E.
  - unfold backend_wf in Hb. rewrite E in Hb. destruct Hb as [Hh [Ht Hn]]. rewrite Hh. destruct (Hfh h) as [Hfn Hft'].
    unfold on_head. rewrite E. split_and!; [|done| |].
    + split; [|done]. unfold backend_wf. simpl. split; [done|]. unfold head_wf. rewrite Hfn, Hft'. auto.
    + intros n. unfold backend_get_member, read_state, is_head in *. simpl. by rewrite Hh, E, Hfn.
    + intros q. unfold backend_lookup_named, read_state, is_head in *. simpl. by rewrite Hh, Hft'.
  - unfold backend_wf in Hb. rewrite E in Hb. destruct Hb as [Hh Ht]. rewrite Hh. unfold queue_and_sync.
    set (b1 := on_worker _ b). pose proof (process_pending_view 0 b1) as Hv.
    assert (E1 : b_state b1 = WorkerSt (set_w_named (ft (w_named w)) (add_pending_sync op w)))
      by (unfold b1, on_worker; by rewrite E).
    assert (Hm1 : mode b1 = mode b ∧ b_local_node b1 = b_local_node b) by (unfold b1, on_worker; by rewrite E).
    destruct Hm1 as [Hm1 Hl1]. clearbody b1. split_and!.
    + apply (view_wf b1); [done|]. unfold naming_wf, backend_wf, members_keyed, is_head in *. rewrite E1, Hm1.
      rewrite E in Hk. simpl. auto.
    + destruct Hv as (_ & Hl & _). by rewrite Hl.
    + intros n. rewrite (view_member n b1) by done. unfold backend_get_member, read_state, is_head in *.
      by rewrite E1, E, Hm1, Hh.
    + intros q. rewrite (view_named q b1) by done. unfold backend_lookup_named, read_state, is_head in *.
      by rewrite E1, Hm1, Hh.
Qed.
End OneChange.

Lemma backend_nodes_state q b :
  naming_wf b → from_option instance_nodes ∅ (backend_lookup_named q b) =
    match b_state b with HeadSt h => nodes_of q (h_named h) | WorkerSt w => nodes_of q (w_named w) end.
Proof.
  intros [Hb _]. unfold backend_lookup_named, read_state, backend_wf in *.
  destruct (b_state b); destruct Hb as [-> _]; done.
Qed.

Lemma head_register_cases p n aid md h :
  nodes (head_register_named p n aid md h) = nodes h ∧
  h_named (head_register_named p n aid md h) =
    match aid with Some a => register_full p (with_metadata n a md) (h_named h) | None => register_legacy p n (h_named h) end.
Proof. by destruct aid. Qed.

Program Definition head_laws : @NamingLaws HeadNodeBackend head_naming := {| nb_wf := naming_wf |}.
Next Obligation.
  intros n b m [Hb Hk]. simpl. unfold backend_get_member, read_state, backend_wf, members_keyed in *.
  destruct (b_state b) as [h|w]; [destruct Hb as [-> [_ Hn]]|destruct Hb as [-> _]].
  - destruct (nodes h !! n) as [reg|] eqn:E; [|done]. intros [= <-]. by apply Hn in E.
  - intros Hm. by apply Hk in Hm.
Qed.
Next Obligation.
  intros p b. simpl. unfold backend_instances, nb_nodes. simpl. by destruct (backend_lookup_named p b).
Qed.
Next Obligation.
  intros p b. simpl. unfold backend_instances_detailed, nb_nodes. simpl. by destruct (backend_lookup_named p b).
Qed.
Next Obligation.
  intros p a md b q Hb. unfold nb_nodes. simpl. rewrite (backend_nodes_state q b Hb).
  destruct (changed_spec (head_register_named p (b_local_node b) (Some a) md)
    (register_full p (with_metadata (b_local_node b) a md)) (RegisterNamed p (Some a) md)
    (head_register_cases p (b_local_node b) (Some a) md) (register_full_wf p _) b Hb) as (_ & _ & _ & Hn).
  unfold changed in Hn. unfold backend_register_named_full.
  destruct (is_head b); simpl; (etransitivity; [apply Hn|]); destruct (b_state b); apply nodes_of_register_full.
Qed.
Next Obligation.
  intros p b q Hb. unfold nb_nodes. simpl. rewrite (backend_nodes_state q b Hb).
  destruct (changed_spec (head_register_named p (b_local_node b) None ∅)
    (register_legacy p (b_local_node b)) (RegisterNamed p None ∅)
    (head_register_cases p (b_local_node b) None ∅) (register_legacy_wf p _) b Hb) as (_ & _ & _ & Hn).
  unfold changed in Hn. unfold backend_register_named.
  destruct (is_head b); simpl; (etransitivity; [apply Hn|]); destruct (b_state b); apply nodes_of_register_legacy.
Qed.
Next Obligation.
  intros p b q Hb. unfold nb_nodes. simpl. rewrite (backend_nodes_state q b Hb).
  destruct (changed_spec (head_unregister_named p (b_local_node b))
    (unregister p (b_local_node b)) (UnregisterNamed p) (λ h, conj eq_refl eq_refl) (unregister_wf p _) b Hb) as (_ & _ & _ & Hn).
  unfold changed in Hn. unfold backend_unregister_named. destruct Hb as [Hb _]. unfold backend_wf in Hb.
  destruct (is_head b); simpl; (etransitivity; [apply Hn|]); destruct (b_state b) as [h|w];
    apply nodes_of_unregister; apply Hb.
Qed.
Next Obligation.
  intros p a md b Hb. simpl.
  destruct (changed_spec (head_register_named p (b_local_node b) (Some a) md)
    (register_full p (with_metadata (b_local_node b) a md)) (RegisterNamed p (Some a) md)
    (head_register_cases p (b_local_node b) (Some a) md) (register_full_wf p _) b Hb) as (Hw & Hl & Hm & _).
  unfold changed in Hw, Hl, Hm. unfold backend_register_named_full. by destruct (is_head b).
Qed.
Next Obligation.
  intros p b Hb. simpl.
  destruct (changed_spec (head_unregister_named p (b_local_node b))
    (unregister p (b_local_node b)) (UnregisterNamed p) (λ h, conj eq_refl eq_refl) (unregister_wf p _) b Hb) as (Hw & Hl & Hm & _).
  unfold changed in Hw, Hl, Hm. unfold backend_unregister_named. by destruct (is_head b).
Qed.
End HeadNaming.
