(* ===== verification/Directory.v ===== *)
(** * The naming interface, continued

    [cluster/naming.rs]: the calls that follow actors by their id, announce a
    failure and leave the cluster, with what both backends promise of them. *)
From S2P Require Import Prelude Text Address Member Gossip GossipFacts Contact Head HeadFacts Naming.

(** src: crates/pulsing-actor/src/cluster/naming.rs 13-62 NamingBackend (actors) *)
Class ActorDirectory (B : Type) : Type := {
  nb_register_actor : ActorId → B → B;
  nb_unregister_actor : ActorId → B → B;
  nb_named_failed : ActorPath → list Z → B → B;
  nb_leave : B → B }.

(** The instance this node runs under a path, when it was announced with an id. *)
Definition nb_own_instance `{NamingBackend B} (p : ActorPath) (b : B) : option NamedActorInstance :=
  info ← nb_lookup_named p b; instances info !! nb_local_node b.

(** Two states that agree on members and on who they are. *)
Definition same_cluster `{NamingBackend B} (b b' : B) : Prop :=
  nb_local_node b' = nb_local_node b ∧ ∀ n, nb_get_member n b' = nb_get_member n b.

Class DirectoryLaws (B : Type) `{NamingLaws B, !ActorDirectory B} : Type := {
  dir_register_actor a b : nb_wf b →
    nb_wf (nb_register_actor a b) ∧ same_cluster b (nb_register_actor a b) ∧
    (∀ p, nb_lookup_named p (nb_register_actor a b) = nb_lookup_named p b) ∧
    ∀ a', nb_lookup_actor a' (nb_register_actor a b) = if decide (a' = a) then nb_get_member (nb_local_node b) b else nb_lookup_actor a' b;
  dir_unregister_actor a b : nb_wf b →
    nb_wf (nb_unregister_actor a b) ∧ same_cluster b (nb_unregister_actor a b) ∧
    (∀ p, nb_lookup_named p (nb_unregister_actor a b) = nb_lookup_named p b) ∧
    ∀ a', nb_lookup_actor a' (nb_unregister_actor a b) = if decide (a' = a) then None else nb_lookup_actor a' b;
  dir_failed p r b : nb_wf b →
    nb_wf (nb_named_failed p r b) ∧ same_cluster b (nb_named_failed p r b) ∧
    (∀ a, nb_lookup_actor a (nb_named_failed p r b) = nb_lookup_actor a b) ∧
    (nb_own_instance p b = None → nb_own_instance p (nb_named_failed p r b) = None) ∧
    ∀ q, nb_nodes q (nb_unregister_named p (nb_named_failed p r b)) = nb_nodes q (nb_unregister_named p b);
  dir_register_legacy p b : nb_wf b →
    nb_wf (nb_register_named p b) ∧ same_cluster b (nb_register_named p b) ∧
    (∀ a, nb_lookup_actor a (nb_register_named p b) = nb_lookup_actor a b) ∧
    ∀ q, nb_own_instance q (nb_register_named p b) = nb_own_instance q b;
  dir_unregister_legacy p b : nb_wf b → nb_own_instance p b = None →
    ∀ a, nb_lookup_actor a (nb_unregister_named p b) = nb_lookup_actor a b }.

Lemma unregister_instance p n t : instance_of p n (unregister p n t) = None.
Proof.
  unfold unregister, instance_of, get_instance. destruct (t !! as_str p) as [info|] eqn:E; [|by rewrite E]. cbv zeta.
  destruct (is_empty _); [by rewrite lookup_delete_eq|]. rewrite lookup_insert_eq. simpl. unfold remove_instance. destruct (_ || _); apply lookup_delete_eq.
Qed.

(** ** The gossip cluster *)
Section GossipDirectory.
Context `{Oracle, Codec} (cfg : GossipConfig).
#[local] Instance this_gossip_naming : NamingBackend ClusterState := gossip_naming cfg.
#[local] Instance this_gossip_laws : NamingLaws ClusterState := gossip_laws cfg.

(** A failure is only announced, and leaving only logged.
    src: crates/pulsing-actor/src/cluster/backends/gossip.rs 111-117 GossipBackend (actors) *)
Definition gossip_directory : ActorDirectory ClusterState := {|
  nb_register_actor a st := (register_actor cfg a st).1;
  nb_unregister_actor a st := (unregister_actor cfg a st).1;
  nb_named_failed p r st := st;
  nb_leave st := st |}.

Lemma register_legacy_instance p n t q m : instance_of q m (register_legacy p n t) = instance_of q m t.
Proof.
  unfold register_legacy, instance_of, get_instance. destruct (decide (as_str p = as_str q)) as [Heq|Hne].
  - rewrite <- !Heq. destruct (t !! as_str p) as [info|] eqn:E; rewrite lookup_insert_eq; simpl; [unfold add_instance; by case_bool_decide|apply lookup_empty].
  - destruct (t !! as_str p) as [info|] eqn:E; by rewrite lookup_insert_ne.
Qed.

Lemma gossip_directory_laws : @DirectoryLaws ClusterState (gossip_naming cfg) (gossip_laws cfg) gossip_directory.
Proof.
  constructor.
  - intros a b [Hn Ht He]. simpl. split_and!; [by split|done|done|]. intros a'. unfold lookup_actor. simpl. rewrite lookup_insert.
    repeat case_decide; congruence || done.
  - intros a b [Hn Ht He]. simpl. split_and!; [by split|done|done|]. intros a'. unfold lookup_actor. simpl. rewrite lookup_delete.
    repeat case_decide; congruence || done.
  - intros p r b Hb. by split_and!.
  - intros p b [Hn Ht He]. simpl. split_and!; [|done|done|].
    + split; [done| |done]. simpl. auto with pulsing.
    + intros q. unfold nb_own_instance. simpl. unfold lookup_named_actor. simpl. apply (register_legacy_instance p).
  - intros p b Hb Hown a. simpl in *. unfold unregister_named_actor. unfold nb_own_instance in Hown. simpl in Hown.
    unfold instance_of, get_instance. unfold lookup_named_actor in Hown. by rewrite Hown.
Qed.
End GossipDirectory.

(** ** The head-node backend *)
Section HeadDirectory.
Context (l : Link).
#[local] Instance this_head_naming : NamingBackend HeadNodeBackend := head_naming l.
#[local] Instance this_head_laws : NamingLaws HeadNodeBackend := head_laws l.

Definition head_directory : ActorDirectory HeadNodeBackend := {|
  nb_register_actor a b := (backend_register_actor l a b).1;
  nb_unregister_actor a b := (backend_unregister_actor l a b).1;
  nb_named_failed p r b := (backend_named_failed l p b).1;
  nb_leave := backend_leave |}.

Definition b_named (b : HeadNodeBackend) : NamedTable := match b_state b with HeadSt h => h_named h | WorkerSt w => w_named w end.
Definition b_actors (b : HeadNodeBackend) : gmap Z Z := match b_state b with HeadSt h => h_actors h | WorkerSt w => w_actors w end.

Lemma lookup_named_table p b : naming_wf b → backend_lookup_named p b = b_named b !! as_str p.
Proof. intros [Hb _]. unfold backend_lookup_named, read_state, b_named, backend_wf in *. destruct (b_state b); by destruct Hb as [-> _]. Qed.
Lemma lookup_actor_table a b : naming_wf b → backend_lookup_actor a b = n ← b_actors b !! a; backend_get_member n b.
Proof. intros [Hb _]. unfold backend_lookup_actor, read_state, b_actors, backend_wf in *. destruct (b_state b); by destruct Hb as [-> _]. Qed.

(** What a call does to the tables, on a head or on a worker. *)
Section Call.
Context (fh : HeadNodeState → HeadNodeState) (fw : WorkerNodeState → WorkerNodeState) (op : SyncOperation).
Context (ft : NamedTable → NamedTable) (fa : gmap Z Z → gmap Z Z).
Hypothesis Hfh : ∀ h, nodes (fh h) = nodes h ∧ h_named (fh h) = ft (h_named h) ∧ h_actors (fh h) = fa (h_actors h).
Hypothesis Hfw : ∀ w, w_members (fw w) = w_members w ∧ w_named (fw w) = ft (w_named w) ∧ w_actors (fw w) = fa (w_actors w).
Hypothesis Hft : ∀ t, table_wf t → table_wf (ft t).

Definition call (b : HeadNodeBackend) : HeadNodeBackend := if is_head b then on_head fh b else (queue_and_sync l op fw b).1.

Lemma call_spec b : naming_wf b →
  naming_wf (call b) ∧ same_cluster b (call b) ∧ b_named (call b) = ft (b_named b) ∧ b_actors (call b) = fa (b_actors b).
Proof.
  intros [Hb Hk]. unfold call, same_cluster. simpl. unfold b_named, b_actors. destruct (b_state b) as [h|w] eqn:E; unfold backend_wf in Hb; rewrite E in Hb.
  - destruct Hb as [Hh [Ht Hn]]. rewrite Hh. destruct (Hfh h) as (H1 & H2 & H3). unfold on_head. rewrite E. simpl. split_and!; try done.
    + split; [|done]. unfold backend_wf. simpl. split; [done|]. split; rewrite ?H1, ?H2; auto.
    + intros n. unfold backend_get_member, read_state, is_head in *. simpl. by rewrite Hh, E, H1.
  - destruct Hb as [Hh Ht]. rewrite Hh. unfold queue_and_sync. set (b1 := on_worker _ b). pose proof (process_pending_view l 0 b1) as Hv.
    destruct (Hfw (add_pending_sync op w)) as (H1 & H2 & H3).
    assert (E1 : b_state b1 = WorkerSt (fw (add_pending_sync op w)) ∧ mode b1 = mode b ∧ b_local_node b1 = b_local_node b)
      by (unfold b1, on_worker; by rewrite E). destruct E1 as (E1 & Hm1 & Hl1). clearbody b1.
    assert (Hw1 : naming_wf b1).
    { unfold naming_wf, backend_wf, members_keyed, is_head in *. rewrite E1, Hm1, H1, H2. rewrite E in Hk. auto. }
    split_and!; [by apply (view_wf b1)| | | |].
    + destruct Hv as (_ & Hl & _). by rewrite Hl.
    + intros n. rewrite (view_member n b1) by done. unfold backend_get_member, read_state, is_head in *. by rewrite E1, E, Hm1, Hh, H1.
    + destruct Hv as (_ & _ & Hs). rewrite E1 in Hs. simpl in Hs. destruct (b_state (process_pending_sync l 0 b1).1.1); [done|]. destruct Hs as (_ & -> & _). by rewrite H2.
    + destruct Hv as (_ & _ & Hs). rewrite E1 in Hs. simpl in Hs. destruct (b_state (process_pending_sync l 0 b1).1.1); [done|]. destruct Hs as (_ & _ & ->). by rewrite H3.
Qed.

Lemma call_lookup_actor a b : naming_wf b → (∀ t, fa t = t) → backend_lookup_actor a (call b) = backend_lookup_actor a b.
Proof.
  intros Hb Hfa. destruct (call_spec b Hb) as (Hw & [_ Hm] & _ & Ha). simpl in Hm.
  rewrite !lookup_actor_table, Ha, Hfa by done. by destruct (b_actors b !! a); simpl.
Qed.
Lemma call_lookup_named p b : naming_wf b → backend_lookup_named p (call b) = ft (b_named b) !! as_str p.
Proof. intros Hb. destruct (call_spec b Hb) as (Hw & _ & Hn & _). by rewrite lookup_named_table, Hn. Qed.
End Call.

(** The calls as [call]s. *)
Lemma register_actor_call a b :
  (backend_register_actor l a b).1 = call (head_register_actor a (b_local_node b)) (λ w, set_w_actors (<[a := b_local_node b]> (w_actors w)) w) (Register a) b.
Proof. unfold call, backend_register_actor. by destruct (is_head b). Qed.
Lemma unregister_actor_call a b :
  (backend_unregister_actor l a b).1 = call (head_unregister_actor a) (λ w, set_w_actors (delete a (w_actors w)) w) (Unregister a) b.
Proof. unfold call, backend_unregister_actor. by destruct (is_head b). Qed.
Lemma register_named_call p b :
  (backend_register_named l p b).1 =
  call (head_register_named p (b_local_node b) None ∅) (λ w, set_w_named (register_legacy p (b_local_node b) (w_named w)) w) (RegisterNamed p None ∅) b.
Proof. unfold call, backend_register_named. by destruct (is_head b). Qed.
Lemma unregister_named_call p b :
  (backend_unregister_named l p b).1 =
  call (head_unregister_named p (b_local_node b)) (λ w, set_w_named (unregister p (b_local_node b) (w_named w)) w) (UnregisterNamed p) b.
Proof. unfold call, backend_unregister_named. by destruct (is_head b). Qed.

Ltac calls := (intros; by split_and!) || auto with pulsing.

Lemma unregister_call_spec p b : naming_wf b →
  let b' := (backend_unregister_named l p b).1 in
  naming_wf b' ∧ same_cluster b b' ∧ b_named b' = unregister p (b_local_node b) (b_named b) ∧
  (∀ a, backend_lookup_actor a b' = backend_lookup_actor a b) ∧ nb_own_instance p b' = None.
Proof.
  intros Hb. cbv zeta. rewrite unregister_named_call. set (fh := head_unregister_named _ _). set (fw := λ w : WorkerNodeState, _).
  destruct (call_spec fh fw (UnregisterNamed p) (unregister p (b_local_node b)) id) with (b := b) as (Hw & Hs & Hn & Ha); [calls..|].
  split_and!; [done|done|done| |].
  - intros a. apply call_lookup_actor with (ft := unregister p (b_local_node b)) (fa := id); calls.
  - unfold nb_own_instance. simpl. rewrite lookup_named_table, Hn by done. destruct Hs as [Hl _]. simpl in Hl. rewrite Hl. apply unregister_instance.
Qed.

Lemma head_directory_laws : @DirectoryLaws HeadNodeBackend (head_naming l) (head_laws l) head_directory.
Proof.
  constructor.
  - intros a b Hb. simpl. rewrite register_actor_call. set (fh := head_register_actor _ _). set (fw := λ w : WorkerNodeState, _).
    destruct (call_spec fh fw (Register a) id (λ m, <[a := b_local_node b]> m)) with (b := b) as (Hw & Hs & Hn & Ha); [calls..|].
    split_and!; [done|done| |].
    + intros p. by rewrite !lookup_named_table, Hn.
    + intros a'. rewrite !lookup_actor_table, Ha, lookup_insert by done. destruct Hs as [_ Hm]. simpl in Hm.
      repeat case_decide; subst; try done; simpl; [by rewrite Hm|]. by destruct (b_actors b !! a'); simpl.
  - intros a b Hb. simpl. rewrite unregister_actor_call. set (fh := head_unregister_actor _). set (fw := λ w : WorkerNodeState, _).
    destruct (call_spec fh fw (Unregister a) id (λ m, delete a m)) with (b := b) as (Hw & Hs & Hn & Ha); [calls..|].
    split_and!; [done|done| |].
    + intros p. by rewrite !lookup_named_table, Hn.
    + intros a'. rewrite !lookup_actor_table, Ha, lookup_delete by done. destruct Hs as [_ Hm]. simpl in Hm.
      repeat case_decide; subst; try done; simpl. by destruct (b_actors b !! a'); simpl.
  - intros p r b Hb. simpl. unfold backend_named_failed. destruct (unregister_call_spec p b Hb) as (Hw & Hs & Hn & Ha & Hi).
    split_and!; [done|done|done| |].
    + intros _. apply Hi.
    + intros q. set (b1 := (backend_unregister_named l p b).1) in *. destruct Hs as [Hl _]. simpl in Hl.
      assert (H1 : nb_nodes q b1 = if decide (as_str p = as_str q) then nb_nodes q b ∖ {[b_local_node b]} else nb_nodes q b)
        by exact (nb_unregister_nodes p b q Hb).
      assert (H2 : nb_nodes q (backend_unregister_named l p b1).1 = if decide (as_str p = as_str q) then nb_nodes q b1 ∖ {[b_local_node b1]} else nb_nodes q b1)
        by exact (nb_unregister_nodes p b1 q Hw).
      change (nb_nodes q (backend_unregister_named l p b1).1 = nb_nodes q b1). rewrite H2, H1, Hl. repeat case_decide; set_solver.
  - intros p b Hb. simpl. rewrite register_named_call. set (fh := head_register_named _ _ _ _). set (fw := λ w : WorkerNodeState, _).
    destruct (call_spec fh fw (RegisterNamed p None ∅) (register_legacy p (b_local_node b)) id) with (b := b) as (Hw & Hs & Hn & Ha); [calls..|].
    split_and!; [done|done| |].
    + intros a. apply call_lookup_actor with (ft := register_legacy p (b_local_node b)) (fa := id); calls.
    + intros q. unfold nb_own_instance. simpl. rewrite !lookup_named_table, Hn by done. destruct Hs as [Hl _]. simpl in Hl. rewrite Hl. apply (register_legacy_instance p).
  - intros p b Hb _ a. simpl. by apply unregister_call_spec.
Qed.
End HeadDirectory.
