(* ===== verification/Resolve.v ===== *)
(** * Resolving actors

    [system/resolve.rs], [system/load_balancer.rs] and the maps of
    [system/registry.rs]: from an address to a reference, through any naming
    backend and any load-balancing policy. Clock readings and fresh ids are
    arguments. *)
From S2P Require Import Prelude Text Address Member Policy Naming.

(** ** Socket addresses as keys and as text *)

#[export] Instance IpAddr_countable : Countable IpAddr.
Proof.
  refine (inj_countable' (λ a, match a with V4 b => inl b | V6 b => inr b end)
    (λ s, match s with inl b => V4 b | inr b => V6 b end) _). by intros [].
Qed.
#[export] Instance SocketAddr_countable : Countable SocketAddr.
Proof. refine (inj_countable' (λ a, (ip a, port a)) (λ p, mk_addr p.1 p.2) _). by intros []. Qed.

(** [Display] for a [SocketAddr] is the standard library's. *)
Class AddrText : Type := { addr_text : SocketAddr → str }.

(** ** Load trackers *)

(** src: crates/pulsing-actor/src/system/load_balancer.rs 18-25 NodeLoadTracker *)
Record NodeLoadTracker := mk_tracker { t_load : Z; t_processed : Z; last_activity_millis : Z }.
(** src: crates/pulsing-actor/src/system/load_balancer.rs 27-41 NodeLoadTracker::default *)
Definition NodeLoadTracker_new (now : Z) : NodeLoadTracker := mk_tracker 0 0 now.
(** src: crates/pulsing-actor/src/system/load_balancer.rs 52-55 touch *)
Definition touch (now : Z) (t : NodeLoadTracker) : NodeLoadTracker := mk_tracker (t_load t) (t_processed t) now.
(** src: crates/pulsing-actor/src/system/load_balancer.rs 63-66 increment *)
Definition increment (now : Z) (t : NodeLoadTracker) : NodeLoadTracker :=
  touch now (mk_tracker (t_load t +w 1) (t_processed t) (last_activity_millis t)).
(** src: crates/pulsing-actor/src/system/load_balancer.rs 69-72 decrement *)
Definition decrement (now : Z) (t : NodeLoadTracker) : NodeLoadTracker :=
  touch now (mk_tracker (u64 (t_load t - 1)) (t_processed t) (last_activity_millis t)).
(** src: crates/pulsing-actor/src/system/load_balancer.rs 80-83 increment_processed *)
Definition increment_processed (now : Z) (t : NodeLoadTracker) : NodeLoadTracker :=
  touch now (mk_tracker (t_load t) (t_processed t +w 1) (last_activity_millis t)).
(** src: crates/pulsing-actor/src/system/load_balancer.rs 86-90 last_activity_elapsed *)
Definition last_activity_elapsed (now : Z) (t : NodeLoadTracker) : Z := saturating_sub now (last_activity_millis t).
(** src: crates/pulsing-actor/src/system/load_balancer.rs 93-95 is_stale *)
Definition is_stale (now threshold : Z) (t : NodeLoadTracker) : bool := threshold <? last_activity_elapsed now t.

(** The tracker is shared; a policy reads it during the call only.
    src: crates/pulsing-actor/src/system/load_balancer.rs 103-108 MemberWorker *)
Record MemberWorker := mk_mw { mw_url : str; mw_is_alive : bool; load_tracker : NodeLoadTracker }.
(** src: crates/pulsing-actor/src/system/load_balancer.rs 112-118 MemberWorker::new *)
Definition MemberWorker_new `{AddrText} (m : MemberInfo) (t : NodeLoadTracker) : MemberWorker :=
  mk_mw (addr_text (m_addr m)) (bool_decide (m_status m = Alive)) t.
(** src: crates/pulsing-actor/src/system/load_balancer.rs 121-157 Worker for MemberWorker *)
Definition member_worker_ops : Worker MemberWorker := {|
  url := mw_url; is_healthy := mw_is_alive; load w := t_load (load_tracker w);
  processed w := t_processed (load_tracker w); model_id _ := "default"; circuit_breaker_allows _ := true |}.
#[export] Instance member_worker : Worker MemberWorker := member_worker_ops.

(** ** The registry of local actors *)

(** A sender is a number; the task, its token and its statistics are kept by the
    runtime.
    src: crates/pulsing-actor/src/system/handle.rs 45-69 LocalActorHandle *)
Record LocalActorHandle := mk_handle { actor_id : ActorId; sender : nat; named_path : option ActorPath }.

(** src: crates/pulsing-actor/src/system/registry.rs 23-35 ActorRegistry *)
Record ActorRegistry := mk_registry {
  local_actors : gmap Z LocalActorHandle;
  actor_names : gmap (list Z) Z;
  named_actor_paths : gmap (list Z) (list Z) }.
(** src: crates/pulsing-actor/src/system/registry.rs 39-46 ActorRegistry::new *)
Definition ActorRegistry_new : ActorRegistry := mk_registry ∅ ∅ ∅.
(** src: crates/pulsing-actor/src/system/registry.rs 53-55 register_actor *)
Definition reg_register_actor (a : ActorId) (h : LocalActorHandle) (r : ActorRegistry) : ActorRegistry :=
  mk_registry (<[a := h]> (local_actors r)) (actor_names r) (named_actor_paths r).
(** src: crates/pulsing-actor/src/system/registry.rs 58-60 register_name *)
Definition register_name (n : str) (a : ActorId) (r : ActorRegistry) : ActorRegistry :=
  mk_registry (local_actors r) (<[n := a]> (actor_names r)) (named_actor_paths r).
(** src: crates/pulsing-actor/src/system/registry.rs 63-65 register_named_path *)
Definition register_named_path (p n : str) (r : ActorRegistry) : ActorRegistry :=
  mk_registry (local_actors r) (actor_names r) (<[p := n]> (named_actor_paths r)).
(** src: crates/pulsing-actor/src/system/registry.rs 68-70 has_name *)
Definition has_name (n : str) (r : ActorRegistry) : bool := bool_decide (is_Some (actor_names r !! n)).
(** src: crates/pulsing-actor/src/system/registry.rs 73-75 has_named_path *)
Definition has_named_path (p : str) (r : ActorRegistry) : bool := bool_decide (is_Some (named_actor_paths r !! p)).
(** src: crates/pulsing-actor/src/system/registry.rs 82-87 get_handle *)
Definition get_handle (a : ActorId) (r : ActorRegistry) : option LocalActorHandle := local_actors r !! a.
(** src: crates/pulsing-actor/src/system/registry.rs 90-92 get_actor_id *)
Definition get_actor_id (n : str) (r : ActorRegistry) : option ActorId := actor_names r !! n.
(** src: crates/pulsing-actor/src/system/registry.rs 95-97 get_actor_name_by_path *)
Definition get_actor_name_by_path (p : str) (r : ActorRegistry) : option str := named_actor_paths r !! p.
(** src: crates/pulsing-actor/src/system/registry.rs 109-126 find_actor_sender *)
Definition find_actor_sender `{Uuid} (n : str) (r : ActorRegistry) : option nat :=
  match (a ← actor_names r !! n; local_actors r !! a) with
  | Some h => Some (sender h)
  | None => a ← parse_str n; h ← local_actors r !! a; Some (sender h)
  end.
(** src: crates/pulsing-actor/src/system/registry.rs 138-140 remove_by_name *)
Definition remove_by_name (n : str) (r : ActorRegistry) : option (str * ActorId) * ActorRegistry :=
  (pair n <$> actor_names r !! n, mk_registry (local_actors r) (delete n (actor_names r)) (named_actor_paths r)).
(** src: crates/pulsing-actor/src/system/registry.rs 143-145 remove_handle *)
Definition remove_handle (a : ActorId) (r : ActorRegistry) : option (ActorId * LocalActorHandle) * ActorRegistry :=
  (pair a <$> local_actors r !! a, mk_registry (delete a (local_actors r)) (actor_names r) (named_actor_paths r)).
(** src: crates/pulsing-actor/src/system/registry.rs 162-164 actor_count *)
Definition actor_count (r : ActorRegistry) : nat := size (local_actors r).
(** src: crates/pulsing-actor/src/system/registry.rs 171-175 clear *)
Definition registry_clear (_ : ActorRegistry) : ActorRegistry := ActorRegistry_new.

(** ** References and errors *)

Inductive TransportTarget := ById (a : ActorId) | TNamed (p : ActorPath).
(** A lazy reference is resolved again when its cache expires. *)
Inductive ActorRef :=
  | LocalRef (a : ActorId) (s : nat)
  | RemoteRef (a : ActorId) (to : SocketAddr) (t : TransportTarget).

(** The errors, by their constructor. *)
Inductive ResolveError :=
  | ClusterNotInitialized
  | NamedActorNotFound (p : str)
  | NoHealthyInstances (p : str)
  | ResolveNodeNotFound (n : NodeId)
  | ActorNotFound (a : str + ActorId).
Notation RResult A := (Result A ResolveError).

(** ** The part of the actor system that resolves *)
Record ActorSystem (B P : Type) := mk_system {
  sys_node_id : NodeId;
  cluster : option B;
  registry : ActorRegistry;
  node_load : gmap SocketAddr NodeLoadTracker;
  default_lb_policy : P }.
Arguments mk_system {B P} _ _ _ _ _.
Arguments sys_node_id {B P} _.
Arguments cluster {B P} _.
Arguments registry {B P} _.
Arguments node_load {B P} _.
Arguments default_lb_policy {B P} _.

(** The policy of the options, when there is one, is of the system's type.
    src: crates/pulsing-actor/src/system/config.rs 688-705 ResolveOptions *)
Record ResolveOptions (P : Type) := mk_options { o_node_id : option NodeId; o_policy : option P; filter_alive : bool }.
Arguments mk_options {P} _ _ _.
Arguments o_node_id {P} _.
Arguments o_policy {P} _.
Arguments filter_alive {P} _.
Definition default_options {P} : ResolveOptions P := mk_options None None true.

Section Resolve.
Context `{NamingBackend B, LoadBalancingPolicy P, AddrText}.
Implicit Types sys : ActorSystem B P.

Definition set_load (m : gmap SocketAddr NodeLoadTracker) sys : ActorSystem B P :=
  mk_system (sys_node_id sys) (cluster sys) (registry sys) m (default_lb_policy sys).
Definition set_default_policy (p : P) sys : ActorSystem B P :=
  mk_system (sys_node_id sys) (cluster sys) (registry sys) (node_load sys) p.

(** [entry(addr).or_insert_with(new)]. *)
Definition ensure_tracker (now : Z) (m : gmap SocketAddr NodeLoadTracker) (a : SocketAddr) : gmap SocketAddr NodeLoadTracker :=
  match m !! a with Some _ => m | None => <[a := NodeLoadTracker_new now]> m end.

(** The selected instance, the policy after the choice, the trackers after it;
    no instance is the index out of range.
    src: crates/pulsing-actor/src/system/resolve.rs 210-234 select_instance *)
Definition sys_select_instance (now : Z) (instances : list MemberInfo) (policy : P) sys
    : option MemberInfo * P * ActorSystem B P :=
  let trackers := foldl (λ m i, ensure_tracker now m (m_addr i)) (node_load sys) instances in
  let workers := (λ i, MemberWorker_new i (default (NodeLoadTracker_new now) (trackers !! m_addr i))) <$> instances in
  let '(choice, policy) := select_worker policy workers None in
  let idx := default O choice in
  match instances !! idx with
  | Some i => (Some i, policy, set_load (alter (increment now) (m_addr i) trackers) sys)
  | None => (None, policy, set_load trackers sys)
  end.

(** src: crates/pulsing-actor/src/system/resolve.rs 242-247 decrement_node_load *)
Definition decrement_node_load (now : Z) (a : SocketAddr) sys : ActorSystem B P :=
  set_load (alter (increment_processed now ∘ decrement now) a (node_load sys)) sys.

(** The entries that stay.
    src: crates/pulsing-actor/src/system/resolve.rs 259-274 cleanup_stale_node_trackers *)
Definition cleanup_stale_node_trackers (now threshold : Z) sys : nat * ActorSystem B P :=
  let kept := filter (λ at_, negb (is_stale now threshold at_.2) || (0 <? t_load at_.2)) (node_load sys) in
  (size (node_load sys) - size kept, set_load kept sys)%nat.

(** src: crates/pulsing-actor/src/system/resolve.rs 237-239 get_node_load_tracker *)
Definition get_node_load_tracker (a : SocketAddr) sys : option NodeLoadTracker := node_load sys !! a.
(** src: crates/pulsing-actor/src/system/resolve.rs 277-279 tracked_node_count *)
Definition tracked_node_count sys : nat := size (node_load sys).

(** src: crates/pulsing-actor/src/system/resolve.rs 34-57 actor_ref *)
Definition actor_ref (id : ActorId) sys : RResult ActorRef :=
  match get_handle id (registry sys) with
  | Some h => Ok (LocalRef (actor_id h) (sender h))
  | None =>
      match cluster sys with
      | None => Err ClusterNotInitialized
      | Some c =>
          match nb_lookup_actor id c with
          | Some m => Ok (RemoteRef id (m_addr m) (ById id))
          | None => Err (ActorNotFound (inr id))
          end
      end
  end.

(** Resolving by the target node alone, when no instance is known.
    src: crates/pulsing-actor/src/system/resolve.rs 126-150 resolve_named_with_options (no instances) *)
Definition resolve_by_node (fresh : ActorId) (p : ActorPath) (o : ResolveOptions P) (c : B) sys : RResult ActorRef :=
  let not_found := Err (NamedActorNotFound (as_str p)) in
  match o_node_id o with
  | Some nid =>
      if bool_decide (nid = sys_node_id sys) then not_found
      else match nb_get_member nid c with
           | Some m =>
               if negb (filter_alive o) || bool_decide (m_status m = Alive)
               then Ok (RemoteRef fresh (m_addr m) (TNamed p)) else not_found
           | None => not_found
           end
  | None => not_found
  end.

(** The reference to the chosen instance.
    src: crates/pulsing-actor/src/system/resolve.rs 177-206 resolve_named_with_options (target) *)
Definition ref_to (fresh : ActorId) (p : ActorPath) (target : MemberInfo) sys : RResult ActorRef :=
  if bool_decide (m_node_id target = sys_node_id sys) then
    match get_actor_name_by_path (as_str p) (registry sys) with
    | None => Err (NamedActorNotFound (as_str p))
    | Some n =>
        match get_actor_id n (registry sys) with
        | None => Err (ActorNotFound (inl n))
        | Some a =>
            match get_handle a (registry sys) with
            | None => Err (ActorNotFound (inl n))
            | Some h => Ok (LocalRef (actor_id h) (sender h))
            end
        end
    end
  else Ok (RemoteRef fresh (m_addr target) (TNamed p)).

(** Also yields the system and the options' policy after the call.
    src: crates/pulsing-actor/src/system/resolve.rs 115-207 resolve_named_with_options *)
Definition resolve_named_with_options (now : Z) (fresh : ActorId) (p : ActorPath) (o : ResolveOptions P) sys
    : RResult ActorRef * ResolveOptions P * ActorSystem B P :=
  match cluster sys with
  | None => (Err ClusterNotInitialized, o, sys)
  | Some c =>
      match nb_instances p c with
      | [] => (resolve_by_node fresh p o c sys, o, sys)
      | instances =>
          let healthy := if filter_alive o then filter (λ i, m_status i = Alive) instances else instances in
          match healthy with
          | [] => (Err (NoHealthyInstances (as_str p)), o, sys)
          | _ =>
              match o_node_id o with
              | Some nid =>
                  match list_find (λ i, m_node_id i = nid) healthy with
                  | Some (_, i) => (ref_to fresh p i sys, o, sys)
                  | None => (Err (ResolveNodeNotFound nid), o, sys)
                  end
              | None =>
                  let '(choice, policy, sys) := sys_select_instance now healthy (default (default_lb_policy sys) (o_policy o)) sys in
                  let '(o, sys) := match o_policy o with
                                   | Some _ => (mk_options (o_node_id o) (Some policy) (filter_alive o), sys)
                                   | None => (o, set_default_policy policy sys)
                                   end in
                  (match choice with Some i => ref_to fresh p i sys | None => Err (NoHealthyInstances (as_str p)) end, o, sys)
              end
          end
      end
  end.

(** [resolve_named] and [resolve_named_direct] on a valid path.
    src: crates/pulsing-actor/src/system/resolve.rs 69-112 resolve_named *)
Definition resolve_named (now : Z) (fresh : ActorId) (p : ActorPath) (node : option NodeId) sys
    : RResult ActorRef * ActorSystem B P :=
  let o := match node with Some n => mk_options (Some n) None true | None => default_options end in
  let '(r, _, sys) := resolve_named_with_options now fresh p o sys in (r, sys).

(** src: crates/pulsing-actor/src/system/resolve.rs 282-292 resolve *)
Definition resolve (now : Z) (fresh : ActorId) (a : ActorAddress) sys : RResult ActorRef * ActorSystem B P :=
  match a with
  | Named p instance => resolve_named now fresh p instance sys
  | Global id => (actor_ref id sys, sys)
  end.

(** src: crates/pulsing-actor/src/system/resolve.rs 313-324 resolve_all_instances (loop) *)
Fixpoint resolve_each (only_alive : bool) (found : list (MemberInfo * option NamedActorInstance)) sys : RResult (list ActorRef) :=
  match found with
  | [] => Ok []
  | (m, inst) :: found =>
      if only_alive && negb (bool_decide (m_status m = Alive)) then resolve_each only_alive found sys
      else match inst with
           | None => resolve_each only_alive found sys
           | Some i =>
               match actor_ref (i_actor_id i) sys with
               | Err e => Err e
               | Ok r => match resolve_each only_alive found sys with Ok rs => Ok (r :: rs) | Err e => Err e end
               end
           end
  end.
(** src: crates/pulsing-actor/src/system/resolve.rs 303-327 resolve_all_instances *)
Definition resolve_all_instances (p : ActorPath) (only_alive : bool) sys : RResult (list ActorRef) :=
  match cluster sys with
  | None => Err ClusterNotInitialized
  | Some c => resolve_each only_alive (nb_instances_detailed p c) sys
  end.
(** src: crates/pulsing-actor/src/system/resolve.rs 295-300 get_named_instances *)
Definition get_named_instances (p : ActorPath) sys : list MemberInfo :=
  match cluster sys with Some c => nb_instances p c | None => [] end.
(** src: crates/pulsing-actor/src/system/resolve.rs 330-338 get_named_instances_detailed *)
Definition get_named_instances_detailed (p : ActorPath) sys : list (MemberInfo * option NamedActorInstance) :=
  match cluster sys with Some c => nb_instances_detailed p c | None => [] end.
(** src: crates/pulsing-actor/src/system/resolve.rs 341-346 lookup_named *)
Definition lookup_named (p : ActorPath) sys : option NamedActorInfo := cluster sys ≫= nb_lookup_named p.
End Resolve.
