(* ===== verification/ResolveFacts.v ===== *)
(** * Properties of actor resolution

    Proved against the laws of the naming interface ([NamingLaws]) and of the
    policies ([PolicySound]), so for both backends and every policy. *)
From S2P Require Import Prelude Text Address Member Head HeadFacts Policy Naming Resolve.

Section Facts.
Context `{NB : NamingBackend B} {NL : NamingLaws B} `{LP : LoadBalancingPolicy P} {PS : PolicySound P} `{AddrText}.
Implicit Types (sys : ActorSystem B P) (o : ResolveOptions P) (c : B).

Lemma elem_of_instances p c m :
  nb_wf c → m ∈ nb_instances p c ↔ m_node_id m ∈ nb_nodes p c ∧ nb_get_member (m_node_id m) c = Some m.
Proof.
  intros Hw. rewrite nb_instances_spec, list_elem_of_omap. setoid_rewrite elem_of_elements. split.
  - intros (n & Hn & Hm). pose proof (nb_get_member_id _ _ _ Hw Hm). by subst n.
  - intros [Hn Hm]. eauto.
Qed.

(** ** The choice of an instance *)

(** The requests counted for an address; none when it has no tracker. *)
Definition load_of (a : SocketAddr) sys : Z := from_option t_load 0 (node_load sys !! a).

Lemma ensure_trackers_load now (ms : list MemberInfo) m a :
  from_option t_load 0 (foldl (λ m i, ensure_tracker now m (m_addr i)) m ms !! a) = from_option t_load 0 (m !! a).
Proof.
  revert m. induction ms as [|i ms IH]; intros m; [done|]. simpl. rewrite IH. unfold ensure_tracker.
  destruct (m !! m_addr i) eqn:E; [done|]. rewrite lookup_insert. case_decide; [|done]. subst. by rewrite E.
Qed.

Lemma ensure_trackers_some now (ms : list MemberInfo) m i :
  i ∈ ms → is_Some (foldl (λ m i, ensure_tracker now m (m_addr i)) m ms !! m_addr i).
Proof.
  assert (Hkeep : ∀ (ms : list MemberInfo) m a, is_Some (m !! a) →
    is_Some (foldl (λ m i, ensure_tracker now m (m_addr i)) m ms !! a)).
  { clear. induction ms as [|j ms IH]; intros m a Ha; [done|]. simpl. apply IH. unfold ensure_tracker.
    destruct (m !! m_addr j) eqn:E; [done|]. rewrite lookup_insert. case_decide; by eauto. }
  revert m. induction ms as [|j ms IH]; intros m Hin; [by apply not_elem_of_nil in Hin|]. simpl.
  apply elem_of_cons in Hin as [->|Hin]; [|by apply IH]. apply Hkeep. unfold ensure_tracker.
  destruct (m !! m_addr j) eqn:E; [by rewrite E|]. rewrite lookup_insert_eq. eauto.
Qed.

Lemma worker_available (i : MemberInfo) t : available (MemberWorker_new i t) = bool_decide (m_status i = Alive).
Proof. unfold available. simpl. by rewrite andb_true_r. Qed.

(** What a selection comes to; the resolution lemmas below build on it. *)
Lemma choose_instance now ms policy sys :
  ms ≠ [] →
  ∃ i policy' sys', sys_select_instance now ms policy sys = (Some i, policy', sys') ∧ i ∈ ms ∧
    ((∃ j, j ∈ ms ∧ m_status j = Alive) → m_status i = Alive) ∧
    (∀ a, load_of a sys' = if decide (a = m_addr i) then load_of a sys +w 1 else load_of a sys) ∧
    cluster sys' = cluster sys ∧ registry sys' = registry sys ∧ sys_node_id sys' = sys_node_id sys.
Proof.
  intros Hne. unfold sys_select_instance.
  set (trackers := foldl (λ m i, ensure_tracker now m (m_addr i)) (node_load sys) ms).
  set (mk := λ i, MemberWorker_new i (default (NodeLoadTracker_new now) (trackers !! m_addr i))).
  pose proof (select_sound _ _ policy (mk <$> ms) None None) as Hs. unfold select_worker.
  destruct (select_worker_with_headers policy (mk <$> ms) None None) as [choice policy']. simpl in Hs.
  assert (Hi : ∃ i, ms !! default O choice = Some i ∧ ((∃ j, j ∈ ms ∧ m_status j = Alive) → m_status i = Alive)).
  { destruct choice as [k|]; simpl in *.
    - apply elem_of_healthy in Hs as (w & Hw & Ha). rewrite list_lookup_fmap in Hw.
      destruct (ms !! k) as [i|] eqn:E; simplify_eq/=. exists i. split; [done|]. intros _.
      unfold mk in Ha. rewrite worker_available in Ha. by apply bool_decide_eq_true in Ha.
    - destruct ms as [|i ms]; [done|]. exists i. split; [done|]. intros (j & Hj & Ha). exfalso.
      apply list_elem_of_lookup in Hj as [k Hk]. apply (not_elem_of_nil k). rewrite <- Hs. apply elem_of_healthy.
      exists (mk j). split; [by rewrite list_lookup_fmap, Hk|]. unfold mk. rewrite worker_available. by apply bool_decide_true. }
  destruct Hi as (i & Hi & Ha). rewrite Hi. do 3 eexists. split; [reflexivity|].
  assert (Hin : i ∈ ms) by by eapply list_elem_of_lookup_2. split_and!; [done|done| |done..].
  intros a. unfold load_of. simpl. rewrite lookup_alter. case_decide as Hd.
  - subst a. rewrite decide_True by done. destruct (ensure_trackers_some now ms (node_load sys) i Hin) as [t Ht].
    pose proof (ensure_trackers_load now ms (node_load sys) (m_addr i)) as Hl. fold trackers in Ht, Hl.
    rewrite Ht in *. simpl in *. by rewrite Hl.
  - rewrite decide_False by congruence. apply ensure_trackers_load.
Qed.

(** Selecting among known instances yields one of them, an alive one when
    there is one, whatever the policy; it counts one request at that instance's
    address and changes no other load. *)
Theorem select_instance_spec now ms policy sys :
  ms ≠ [] →
  ∃ i policy' sys', sys_select_instance now ms policy sys = (Some i, policy', sys') ∧ i ∈ ms ∧
    ((∃ j, j ∈ ms ∧ m_status j = Alive) → m_status i = Alive) ∧
    (∀ a, load_of a sys' = if decide (a = m_addr i) then load_of a sys +w 1 else load_of a sys) ∧
    cluster sys' = cluster sys ∧ registry sys' = registry sys ∧ sys_node_id sys' = sys_node_id sys.
Proof. apply choose_instance. Qed.

(** ** Soundness *)

(** Where a reference may point, given the member it was made for. *)
Definition points_to (fresh : ActorId) (p : ActorPath) (m : MemberInfo) sys (r : ActorRef) : Prop :=
  match r with
  | RemoteRef a to t => a = fresh ∧ to = m_addr m ∧ t = TNamed p ∧ m_node_id m ≠ sys_node_id sys
  | LocalRef a s =>
      m_node_id m = sys_node_id sys ∧
      ∃ n id, named_actor_paths (registry sys) !! as_str p = Some n ∧ actor_names (registry sys) !! n = Some id ∧
        ∃ np, local_actors (registry sys) !! id = Some (mk_handle a s np)
  end.

Lemma ref_to_points fresh p m sys sys' r :
  registry sys' = registry sys → sys_node_id sys' = sys_node_id sys →
  ref_to fresh p m sys' = Ok r → points_to fresh p m sys r.
Proof.
  intros Hr Hn. unfold ref_to, get_actor_name_by_path, get_actor_id, get_handle. rewrite Hr, Hn.
  case_bool_decide; [|by intros [= <-]].
  destruct (named_actor_paths _ !! _) as [n|] eqn:E1; [|done]. destruct (actor_names _ !! n) as [id|] eqn:E2; [|done].
  destruct (local_actors _ !! id) as [[a s np]|] eqn:E3; [|done]. intros [= <-]. simpl. eauto 10.
Qed.

Lemma healthy_elem o (ms : list MemberInfo) m :
  m ∈ (if filter_alive o then filter (λ i, m_status i = Alive) ms else ms) ↔
  m ∈ ms ∧ (filter_alive o = true → m_status m = Alive).
Proof. destruct (filter_alive o); [rewrite list_elem_of_filter|]; naive_solver. Qed.

(** A reference that resolving by name returns is to an instance the cluster
    knows, alive unless the caller asked otherwise, and on the node the caller
    asked for: local when that node is this one and its registry runs the actor,
    and otherwise remote at the member's address. Only when the cluster knows no
    instance at all is it to the node asked for, unheard of. *)
Theorem resolve_named_sound now fresh p o sys c r :
  cluster sys = Some c → nb_wf c →
  (resolve_named_with_options now fresh p o sys).1.1 = Ok r →
  ∃ m, nb_get_member (m_node_id m) c = Some m ∧
    (filter_alive o = true → m_status m = Alive) ∧
    (∀ n, o_node_id o = Some n → m_node_id m = n) ∧
    points_to fresh p m sys r ∧
    (m_node_id m ∈ nb_nodes p c ∨ nb_instances p c = [] ∧ o_node_id o = Some (m_node_id m)).
Proof.
  intros Hc Hw. unfold resolve_named_with_options. rewrite Hc.
  destruct (nb_instances p c) as [|i0 is0] eqn:Ei.
  - simpl. unfold resolve_by_node. destruct (o_node_id o) as [nid|] eqn:En; [|done].
    case_bool_decide as Hself; [done|]. destruct (nb_get_member nid c) as [m|] eqn:Em; [|done].
    destruct (negb (filter_alive o) || bool_decide (m_status m = Alive)) eqn:Ea; [|done]. intros [= <-].
    pose proof (nb_get_member_id _ _ _ Hw Em) as <-. exists m. split_and!; [done| |congruence|done|by right].
    intros Hf. rewrite Hf in Ea. by apply bool_decide_eq_true in Ea.
  - assert (Hel : ∀ m, m ∈ (if filter_alive o then filter (λ i, m_status i = Alive) (i0 :: is0) else i0 :: is0) →
      nb_get_member (m_node_id m) c = Some m ∧ (filter_alive o = true → m_status m = Alive) ∧ m_node_id m ∈ nb_nodes p c).
    { intros m Hm. apply healthy_elem in Hm as [Hm Ha]. rewrite <- Ei in Hm. apply elem_of_instances in Hm as [? ?]; done. }
    set (healthy := if filter_alive o then _ else _) in *.
    destruct healthy as [|h hs] eqn:Eh; [done|]. rewrite <- Eh in *.
    destruct (o_node_id o) as [nid|] eqn:En.
    + destruct (list_find _ healthy) as [[k i]|] eqn:Ef; [|done]. simpl. intros Hr.
      apply list_find_Some in Ef as (Hi & Hid & _). apply list_elem_of_lookup_2 in Hi.
      destruct (Hel i Hi) as (Hg & Ha & Hn). exists i. split_and!; [done|done|congruence| |by left].
      by eapply ref_to_points.
    + destruct (choose_instance now healthy (default (default_lb_policy sys) (o_policy o)) sys)
        as (i & pol & sys' & -> & Hi & _ & _ & _ & Hreg & Hnid); [by rewrite Eh|].
      destruct (Hel i Hi) as (Hg & Ha & Hn). intros Hr. exists i. split_and!; [done..| |by left].
      destruct (o_policy o); simpl in Hr; by eapply ref_to_points in Hr.
Qed.

(** ** Errors *)

(** The instances a call with these options may choose. *)
Definition usable o (ms : list MemberInfo) (m : MemberInfo) : Prop :=
  m ∈ ms ∧ (filter_alive o = true → m_status m = Alive).

(** What each error says, of a call where the cluster knows the instances. *)
Definition reason (p : ActorPath) o (ms : list MemberInfo) sys (e : ResolveError) : Prop :=
  match e with
  | NoHealthyInstances q => q = as_str p ∧ ms ≠ [] ∧ ∀ m, ¬ usable o ms m
  | ResolveNodeNotFound n => o_node_id o = Some n ∧ (∃ m, usable o ms m) ∧ ∀ m, usable o ms m → m_node_id m ≠ n
  | NamedActorNotFound q => q = as_str p ∧
      (ms = [] ∨
       named_actor_paths (registry sys) !! as_str p = None ∧ ∃ m, usable o ms m ∧ m_node_id m = sys_node_id sys)
  | ActorNotFound (inl n) => named_actor_paths (registry sys) !! as_str p = Some n ∧
      (actor_names (registry sys) !! n ≫= λ id, local_actors (registry sys) !! id) = None
  | _ => False
  end.

Lemma ref_to_reason fresh p o ms m sys sys' e :
  usable o ms m → registry sys' = registry sys → sys_node_id sys' = sys_node_id sys →
  ref_to fresh p m sys' = Err e → reason p o ms sys e.
Proof.
  intros Hm Hr Hn. unfold ref_to, get_actor_name_by_path, get_actor_id, get_handle. rewrite Hr, Hn.
  case_bool_decide; [|done]. destruct (named_actor_paths _ !! _) as [n|] eqn:E1; [|intros [= <-]; simpl; eauto 10].
  destruct (actor_names _ !! n) as [id|] eqn:E2; [|intros [= <-]; simpl; by rewrite E2].
  destruct (local_actors _ !! id) as [h|] eqn:E3; [done|]. intros [= <-]. simpl. by rewrite E2.
Qed.

Lemma resolve_by_node_error fresh p o c sys e :
  resolve_by_node fresh p o c sys = Err e → e = NamedActorNotFound (as_str p).
Proof. unfold resolve_by_node. intros Hr. repeat case_match; by simplify_eq. Qed.

(** Resolving by name fails only for the reason its error says. *)
Theorem resolve_named_errors now fresh p o sys e :
  (resolve_named_with_options now fresh p o sys).1.1 = Err e →
  match cluster sys with
  | None => e = ClusterNotInitialized
  | Some c => reason p o (nb_instances p c) sys e
  end.
Proof.
  unfold resolve_named_with_options. destruct (cluster sys) as [c|]; [|by intros [= <-]].
  destruct (nb_instances p c) as [|i0 is0] eqn:Ei.
  { intros Hr%resolve_by_node_error. subst e. simpl. auto. }
  pose proof (λ m, healthy_elem o (i0 :: is0) m) as Hel. fold (usable o (i0 :: is0)) in Hel.
  set (healthy := if filter_alive o then _ else _) in *.
  destruct healthy as [|h hs] eqn:Eh.
  { intros [= <-]. split_and!; [done..|]. intros m Hm%Hel. by apply not_elem_of_nil in Hm. }
  rewrite <- Eh in *. destruct (o_node_id o) as [nid|] eqn:En.
  - destruct (list_find _ healthy) as [[k i]|] eqn:Ef; simpl.
    + apply list_find_Some in Ef as (Hi & _ & _). apply list_elem_of_lookup_2 in Hi.
      apply (ref_to_reason _ _ _ _ i sys); [by apply Hel|done..].
    + intros [= <-]. split_and!; [done| |].
      * exists h. apply Hel. rewrite Eh. apply list_elem_of_here.
      * intros m Hm%Hel Hid. apply list_find_None in Ef. rewrite Forall_forall in Ef. by apply (Ef m).
  - destruct (choose_instance now healthy (default (default_lb_policy sys) (o_policy o)) sys)
      as (i & pol & sys' & -> & Hi & _ & _ & _ & Hreg & Hnid); [by rewrite Eh|].
    intros Hr. destruct (o_policy o); simpl in Hr; (eapply ref_to_reason; [by apply Hel| | |exact Hr]; done).
Qed.

(** ** Registering and resolving *)

Definition set_cluster (c : B) sys : ActorSystem B P :=
  mk_system (sys_node_id sys) (Some c) (registry sys) (node_load sys) (default_lb_policy sys).

(** The registry runs an actor under the path. *)
Definition runs (p : ActorPath) (a : ActorId) (s : nat) sys : Prop :=
  ∃ n, named_actor_paths (registry sys) !! as_str p = Some n ∧ actor_names (registry sys) !! n = Some a ∧
    ∃ np, local_actors (registry sys) !! a = Some (mk_handle a s np).

Lemma ref_to_local fresh p m a s sys :
  runs p a s sys → m_node_id m = sys_node_id sys → ref_to fresh p m sys = Ok (LocalRef a s).
Proof.
  intros (n & H1 & H2 & np & H3) Hm. unfold ref_to. rewrite bool_decide_true by done.
  unfold get_actor_name_by_path, get_actor_id, get_handle. by rewrite H1, H2, H3.
Qed.

(** What resolving at a given node comes to. *)
Lemma resolve_at_node now fresh p nid sys c :
  cluster sys = Some c → nb_wf c →
  (resolve_named now fresh p (Some nid) sys).1 =
    if bool_decide (nb_instances p c = []) then resolve_by_node fresh p (mk_options (Some nid) None true) c sys
    else let healthy := filter (λ i, m_status i = Alive) (nb_instances p c) in
         match healthy with
         | [] => Err (NoHealthyInstances (as_str p))
         | _ => match list_find (λ i, m_node_id i = nid) healthy with
                      | Some (_, i) => ref_to fresh p i sys
                      | None => Err (ResolveNodeNotFound nid)
                      end
         end.
Proof.
  intros Hc Hw. unfold resolve_named, resolve_named_with_options. rewrite Hc. cbn [o_node_id filter_alive].
  destruct (nb_instances p c) as [|i0 is0]; [done|]. rewrite bool_decide_false by done. cbv zeta.
  destruct (filter _ (i0 :: is0)) as [|h hs]; [done|]. by destruct (list_find _ (h :: hs)) as [[k i]|].
Qed.

Lemma find_at_node nid (ms : list MemberInfo) m :
  m ∈ ms → m_node_id m = nid →
  ∃ k i, list_find (λ i, m_node_id i = nid) ms = Some (k, i) ∧ m_node_id i = nid.
Proof.
  intros Hm Hn. destruct (list_find_elem_of (λ i, m_node_id i = nid) ms m Hm Hn) as [[k i] Hf]. exists k, i.
  split; [done|]. by apply list_find_Some in Hf as (_ & ? & _).
Qed.

(** Once a node that sees itself alive has registered a named actor it runs,
    resolving the name on that node finds the running actor; after it has
    withdrawn the name, with the registry as it was, it does not. *)
Theorem registered_actor_resolves now fresh p a md s sys c m :
  cluster sys = Some c → nb_wf c → sys_node_id sys = nb_local_node c →
  nb_get_member (nb_local_node c) c = Some m → m_status m = Alive → runs p a s sys →
  let c1 := nb_register_named_full p a md c in
  let c2 := nb_unregister_named p c1 in
  (resolve_named now fresh p (Some (sys_node_id sys)) (set_cluster c1 sys)).1 = Ok (LocalRef a s) ∧
  ∃ e, (resolve_named now fresh p (Some (sys_node_id sys)) (set_cluster c2 sys)).1 = Err e.
Proof.
  intros Hc Hw Hl Hm Ha Hr c1 c2.
  destruct (nb_register_keeps p a md c Hw) as (Hw1 & Hl1 & Hg1). fold c1 in Hw1, Hl1, Hg1.
  destruct (nb_unregister_keeps p c1 Hw1) as (Hw2 & Hl2 & Hg2). fold c2 in Hw2, Hl2, Hg2.
  pose proof (nb_get_member_id _ _ _ Hw Hm) as Hid.
  assert (Hin : m ∈ nb_instances p c1).
  { apply elem_of_instances; [done|]. rewrite Hg1, Hid. split; [|done]. unfold c1. rewrite nb_register_nodes by done.
    rewrite decide_True by done. set_solver. }
  split.
  - rewrite (resolve_at_node _ _ _ _ _ c1) by done. cbv zeta. rewrite bool_decide_false by (intros E; rewrite E in Hin; by apply not_elem_of_nil in Hin).
    assert (Hf : m ∈ filter (λ i, m_status i = Alive) (nb_instances p c1)) by (apply list_elem_of_filter; by split).
    destruct (filter _ (nb_instances p c1)) as [|h hs]; [by apply not_elem_of_nil in Hf|].
    destruct (find_at_node (sys_node_id sys) (h :: hs) m Hf) as (k & i & -> & Hi); [congruence|].
    by apply ref_to_local.
  - rewrite (resolve_at_node _ _ _ _ _ c2) by done. cbv zeta. case_bool_decide as Hi.
    + unfold resolve_by_node. simpl. rewrite bool_decide_true by done. eauto.
    + destruct (filter _ (nb_instances p c2)) as [|h hs] eqn:Eh; [eauto|].
      destruct (list_find _ (h :: hs)) as [[k i]|] eqn:Ef; [|eauto]. exfalso.
      apply list_find_Some in Ef as (Hk & Hn & _). apply list_elem_of_lookup_2 in Hk. rewrite <- Eh in Hk.
      apply list_elem_of_filter in Hk as [_ Hk]. apply elem_of_instances in Hk as [Hk _]; [|done].
      unfold c2 in Hk. rewrite nb_unregister_nodes in Hk by done. rewrite decide_True in Hk by done.
      rewrite Hn, Hl, Hl1 in Hk. set_solver.
Qed.

(** A node asked for by id is tried directly while the cluster knows no
    instance of the path at all, but as soon as it knows a live instance
    elsewhere the same call fails, though the node is alive and may run the
    actor: news that has reached the caller in part is worse than none. *)
Theorem partial_news_blocks_direct_resolution now fresh p nid sys c m :
  cluster sys = Some c → nb_wf c → nid ≠ sys_node_id sys →
  nb_get_member nid c = Some m → m_status m = Alive → nid ∉ nb_nodes p c →
  (resolve_named now fresh p (Some nid) sys).1 =
    if bool_decide (nb_instances p c = []) then Ok (RemoteRef fresh (m_addr m) (TNamed p))
    else if bool_decide (Exists (λ i, m_status i = Alive) (nb_instances p c)) then Err (ResolveNodeNotFound nid)
    else Err (NoHealthyInstances (as_str p)).
Proof.
  intros Hc Hw Hn Hm Ha Hin. rewrite (resolve_at_node _ _ _ _ _ c) by done. cbv zeta. case_bool_decide as Hi.
  - unfold resolve_by_node. simpl. rewrite bool_decide_false by done. rewrite Hm. by rewrite bool_decide_true.
  - destruct (filter _ (nb_instances p c)) as [|h hs] eqn:Eh.
    + rewrite bool_decide_false; [done|]. intros (i & Hi' & Hia)%Exists_exists.
      apply (not_elem_of_nil i). rewrite <- Eh. by apply list_elem_of_filter.
    + assert (Hh : ∀ i, i ∈ h :: hs → m_status i = Alive ∧ i ∈ nb_instances p c)
        by (intros i Hin'; rewrite <- Eh in Hin'; by apply list_elem_of_filter in Hin').
      destruct (list_find _ (h :: hs)) as [[k i]|] eqn:Ef.
      * exfalso. apply list_find_Some in Ef as (Hk & <- & _). apply list_elem_of_lookup_2 in Hk.
        destruct (Hh i Hk) as [_ Hk']. apply elem_of_instances in Hk' as [Hk' _]; done.
      * rewrite bool_decide_true; [done|]. apply Exists_exists. exists h.
        destruct (Hh h (list_elem_of_here _ _)). done.
Qed.

(** ** Load trackers *)

Lemma cleanup_lookup now threshold sys a t :
  node_load (cleanup_stale_node_trackers now threshold sys).2 !! a = Some t ↔
  node_load sys !! a = Some t ∧ (last_activity_elapsed now t <= threshold ∨ 0 < t_load t).
Proof.
  unfold cleanup_stale_node_trackers. simpl. rewrite map_lookup_filter_Some. simpl. unfold is_stale.
  apply and_iff_compat_l. rewrite Is_true_true, orb_true_iff, negb_true_iff. lia.
Qed.

(** The tracker of a selected instance is never cleaned up until the request
    is counted down: with the count it survives every clean-up, and after
    [decrement_node_load] it is removed by a clean-up once it is stale. Counting
    down a request that was never counted wraps the load round, and that tracker
    is never cleaned up. *)
Theorem tracker_lives_while_counted now ms policy sys later threshold :
  ms ≠ [] → (∀ a, load_of a sys = 0) → 0 <= threshold → threshold < saturating_sub later now →
  ∃ i policy' sys', sys_select_instance now ms policy sys = (Some i, policy', sys') ∧
    is_Some (node_load (cleanup_stale_node_trackers later threshold sys').2 !! m_addr i) ∧
    node_load (cleanup_stale_node_trackers later threshold (decrement_node_load now (m_addr i) sys')).2 !! m_addr i = None ∧
    is_Some (node_load (cleanup_stale_node_trackers later threshold
      (decrement_node_load now (m_addr i) (decrement_node_load now (m_addr i) sys'))).2 !! m_addr i).
Proof.
  intros Hms Hz Ht Hlate. destruct (choose_instance now ms policy sys Hms) as (i & pol & sys' & Hs & _ & _ & Hload & _).
  exists i, pol, sys'. split; [done|].
  assert (Hl : load_of (m_addr i) sys' = 1) by (rewrite Hload, decide_True, Hz by done; done).
  unfold load_of in Hl. destruct (node_load sys' !! m_addr i) as [t|] eqn:Et; [|done]. simpl in Hl.
  assert (Hd : ∀ (s' : ActorSystem B P) t', node_load s' !! m_addr i = Some t' →
    node_load (decrement_node_load now (m_addr i) s') !! m_addr i = Some (increment_processed now (decrement now t'))).
  { intros s' t' Hs'. unfold decrement_node_load. simpl. rewrite lookup_alter_eq, Hs'. done. }
  pose proof (Hd _ _ Et) as Hd1. pose proof (Hd _ _ Hd1) as Hd2. split_and!.
  - exists t. apply cleanup_lookup. split; [done|]. right. lia.
  - apply eq_None_not_Some. intros [t' Hc]. apply cleanup_lookup in Hc as [Hc Hst]. rewrite Hd1 in Hc. simplify_eq.
    simpl in Hst. rewrite Hl in Hst. unfold last_activity_elapsed in Hst. simpl in Hst. destruct Hst as [?|Hst]; [lia|].
    by vm_compute in Hst.
  - eexists. apply cleanup_lookup. split; [exact Hd2|]. right. simpl. by rewrite Hl.
Qed.
End Facts.

(** ** On a head node with one worker and round robin *)
Section Examples.
#[local] Instance example_link : NamingBackend HeadNodeBackend := head_naming (mk_link (λ _, true) (λ _ _, true) None).
#[local] Instance example_laws : NamingLaws HeadNodeBackend := head_laws (mk_link (λ _, true) (λ _ _, true) None).
#[local] Instance example_text : AddrText := {| addr_text a := [port a] |}.

Definition example_addr (n : Z) : SocketAddr := mk_addr (V4 n) 80.
Definition example_cluster : HeadNodeBackend :=
  on_head (head_register_named router_path 2 None ∅)
    (on_head (register_node 0 2 (example_addr 2))
      (on_head (register_node 0 1 (example_addr 1)) (with_config 1 (example_addr 1) None default_head_config))).
Definition example_system : ActorSystem HeadNodeBackend RoundRobinPolicy :=
  mk_system 1 (Some example_cluster)
    (reg_register_actor 7 (mk_handle 7 0 (Some router_path)) (register_name "r" 7 (register_named_path (as_str router_path) "r" ActorRegistry_new)))
    ∅ (mk_rr 0).

Lemma example_cluster_wf : nb_wf example_cluster.
Proof.
  split; [|done]. apply (on_head_wf _ (on_head _ (on_head _ (with_config _ _ _ _)))).
  - intros h Hh. by destruct (head_ops_wf 0 0 (example_addr 0) router_path 2 None ∅ 0 h Hh) as (_ & _ & ? & _).
  - apply on_head_wf; [|apply on_head_wf; [|apply with_config_wf]]; intros h Hh;
      [by destruct (head_ops_wf 0 2 (example_addr 2) router_path 2 None ∅ 0 h Hh) as (? & _)
      |by destruct (head_ops_wf 0 1 (example_addr 1) router_path 2 None ∅ 0 h Hh) as (? & _)].
Qed.

Lemma select_instance_spec_witness :
  ∃ i policy' sys', sys_select_instance 5 [member_of (mk_reg 2 (example_addr 2) 0)] (mk_rr 0) example_system = (Some i, policy', sys') ∧
    load_of (example_addr 2) sys' = 1.
Proof.
  destruct (select_instance_spec 5 [member_of (mk_reg 2 (example_addr 2) 0)] (mk_rr 0) example_system) as (i & pol & s & Hs & Hi & _ & Hl & _);
    [discriminate|].
  exists i, pol, s. split; [exact Hs|]. apply list_elem_of_singleton in Hi. subst i. rewrite Hl. vm_compute. reflexivity.
Defined.

Lemma resolve_named_sound_witness :
  ∃ m, nb_get_member (m_node_id m) example_cluster = Some m ∧ m_addr m = example_addr 2.
Proof.
  destruct (resolve_named_sound 5 99 router_path default_options example_system example_cluster
    (RemoteRef 99 (example_addr 2) (TNamed router_path)) eq_refl example_cluster_wf) as (m & Hm & _ & _ & Hp & _).
  - vm_compute. reflexivity.
  - exists m. split; [exact Hm|]. destruct Hp as (_ & Hp & _). by symmetry.
Defined.

Lemma resolve_named_errors_witness :
  named_actor_paths (registry example_system) !! as_str (mk_path [lit "a"; lit "b"]) = None ∨
  nb_instances (mk_path [lit "a"; lit "b"]) example_cluster = [].
Proof.
  pose proof (resolve_named_errors 5 99 (mk_path [lit "a"; lit "b"]) default_options example_system
    (NamedActorNotFound "a/b")) as He.
  destruct He as [_ [He|[He _]]]; [vm_compute; reflexivity|by right|by left].
Defined.

Lemma registered_actor_resolves_witness :
  (resolve_named 5 99 router_path (Some 1)
    (set_cluster (nb_register_named_full router_path 7 ∅ example_cluster) example_system)).1 = Ok (LocalRef 7 0).
Proof.
  refine (proj1 (registered_actor_resolves 5 99 router_path 7 ∅ 0 example_system example_cluster
    (member_of (mk_reg 1 (example_addr 1) 0)) eq_refl example_cluster_wf eq_refl _ eq_refl _)).
  - vm_compute. reflexivity.
  - exists (lit "r"). split_and!; [by vm_compute..|]. exists (Some router_path). by vm_compute.
Defined.

Lemma partial_news_blocks_direct_resolution_witness :
  let c := on_head (register_node 0 3 (example_addr 3)) example_cluster in
  (resolve_named 5 99 router_path (Some 3) (set_cluster c example_system)).1 = Err (ResolveNodeNotFound 3) ∧
  (resolve_named 5 99 (mk_path [lit "a"; lit "b"]) (Some 3) (set_cluster c example_system)).1 =
    Ok (RemoteRef 99 (example_addr 3) (TNamed (mk_path [lit "a"; lit "b"]))).
Proof.
  intros c. assert (Hc : nb_wf c).
  { split; [|done]. apply on_head_wf; [|exact (proj1 example_cluster_wf)]. intros h Hh.
    by destruct (head_ops_wf 0 3 (example_addr 3) router_path 2 None ∅ 0 h Hh) as (? & _). }
  split; (etransitivity; [apply (partial_news_blocks_direct_resolution 5 99 _ 3 (set_cluster c example_system) c
    (member_of (mk_reg 3 (example_addr 3) 0)) eq_refl Hc); [discriminate|vm_compute; reflexivity|reflexivity|
      by apply (bool_decide_unpack _); vm_compute]|vm_compute; reflexivity]).
Defined.

Lemma lookup_empty_load a : load_of a example_system = 0.
Proof. done. Qed.

Lemma tracker_lives_while_counted_witness :
  ∃ i policy' sys', sys_select_instance 5 [member_of (mk_reg 2 (example_addr 2) 0)] (mk_rr 0) example_system = (Some i, policy', sys') ∧
    is_Some (node_load (cleanup_stale_node_trackers 100 10 sys').2 !! m_addr i).
Proof.
  destruct (tracker_lives_while_counted 5 [member_of (mk_reg 2 (example_addr 2) 0)] (mk_rr 0) example_system 100 10)
    as (i & pol & s & Hs & Hc & _); [discriminate|intros a; apply lookup_empty_load|lia|by vm_compute|].
  exists i, pol, s. by split.
Defined.
End Examples.
