(* ===== verification/Behavior.v ===== *)
(** * Typed behaviours

    [behavior/core.rs], [behavior/context.rs] and [behavior/reference.rs]: an
    actor that is a function of messages, which may replace itself or stop, run
    by the loops of [Supervise]; and [actor/context.rs], what every actor is
    given. A closure is a value of a type [B] of behaviours, with the function
    that runs one: what it captures is part of the value. *)
From S2P Require Import Prelude Text Address Errors Supervise.
From S2P Require Resolve.

(** ** Behaviours *)
(** src: crates/pulsing-actor/src/behavior/core.rs 11-17 BehaviorAction *)
Inductive BehaviorAction (B : Type) := Same | Become (b : B) | Stop (reason : option str) | AlreadyStopped.
Arguments Same {B}.
Arguments Become {B} b.
Arguments Stop {B} reason.
Arguments AlreadyStopped {B}.
(** src: crates/pulsing-actor/src/behavior/core.rs 20-22 BehaviorAction::stop *)
Definition stop {B} : BehaviorAction B := Stop None.
(** src: crates/pulsing-actor/src/behavior/core.rs 24-26 BehaviorAction::stop_with_reason *)
Definition stop_with_reason {B} (reason : str) : BehaviorAction B := Stop (Some reason).
(** src: crates/pulsing-actor/src/behavior/core.rs 28-30 BehaviorAction::is_stop *)
Definition is_stop {B} (a : BehaviorAction B) : bool := match a with Stop _ | AlreadyStopped => true | _ => false end.

(** src: crates/pulsing-actor/src/behavior/reference.rs 9-13 ResolutionMode *)
Inductive ResolutionMode := Direct (r : Resolve.ActorRef) | Dynamic.
(** src: crates/pulsing-actor/src/behavior/reference.rs 15-20 TypedRef *)
Record TypedRef := mk_typed_ref { tr_name : str; mode : ResolutionMode }.
(** src: crates/pulsing-actor/src/behavior/reference.rs 60-67 TypedRef::from_name *)
Definition from_name (name : str) : TypedRef := mk_typed_ref name Dynamic.
(** src: crates/pulsing-actor/src/behavior/reference.rs 51-58 TypedRef::new *)
Definition typed_new (name : str) (r : Resolve.ActorRef) : TypedRef := mk_typed_ref name (Direct r).
(** src: crates/pulsing-actor/src/system/registry.rs 100-106 local_actor_ref_by_name *)
Definition local_actor_ref_by_name (name : str) (r : Resolve.ActorRegistry) : option Resolve.ActorRef :=
  a ← Resolve.actor_names r !! name; h ← Resolve.local_actors r !! a; Some (Resolve.LocalRef (Resolve.actor_id h) (Resolve.sender h)).
(** src: crates/pulsing-actor/src/behavior/reference.rs 73-82 TypedRef::resolve *)
Definition typed_resolve (t : TypedRef) (r : Resolve.ActorRegistry) : Result Resolve.ActorRef PulsingError :=
  match mode t with
  | Direct inner => Ok inner
  | Dynamic => match local_actor_ref_by_name (tr_name t) r with Some x => Ok x | None => Err (Runtime (ActorNotFound (tr_name t))) end
  end.
(** src: crates/pulsing-actor/src/behavior/reference.rs 119-121 TypedRef::is_alive *)
Definition is_alive (t : TypedRef) (r : Resolve.ActorRegistry) : bool := match typed_resolve t r with Ok _ => true | Err _ => false end.
(** src: crates/pulsing-actor/src/behavior/context.rs 10-18 BehaviorContext *)
Record BehaviorContext := mk_bctx { actor_name : str; bc_actor_id : ActorId; self_ref : TypedRef }.
(** src: crates/pulsing-actor/src/behavior/context.rs 58-64 BehaviorContext::typed_ref *)
Definition typed_ref (name : str) : TypedRef := from_name name.

(** The task of a delayed message, when one is started: to whom it goes. It is
    sent when the delay is over, unless the actor was cancelled before.
    src: crates/pulsing-actor/src/behavior/context.rs 66-91 BehaviorContext::schedule_self *)
Definition schedule_self (c : BehaviorContext) (r : Resolve.ActorRegistry) : option Resolve.ActorRef :=
  match typed_resolve (self_ref c) r with Ok to => Some to | Err _ => None end.
Definition scheduled_sends (cancelled_before : bool) (task : option Resolve.ActorRef) : option Resolve.ActorRef :=
  if cancelled_before then None else task.

(** ** The actor around a behaviour *)
Section Wrapper.
Context `{Uuid} {B M R W : Type} (run : B → M → BehaviorContext → W → W * B * BehaviorAction B).
(** The packed unit, which every message that goes on is answered with. *)
Context (packed_unit : Result R str).
(** [cancelled] is the actor's token and [outside] what a behaviour acts on.
    src: crates/pulsing-actor/src/behavior/core.rs 73-81 BehaviorWrapper *)
Record BehaviorWrapper := mk_wrapper { behavior : B; behavior_ctx : option BehaviorContext; wr_name : option str; cancelled : bool; outside : W }.
(** src: crates/pulsing-actor/src/behavior/core.rs 87-93 BehaviorWrapper::new *)
Definition wrapper_new (b : B) (w : W) : BehaviorWrapper := mk_wrapper b None None false w.
Definition other_text (e : str) : str := display (Runtime (Other e)).
(** A message is what unpacking it yields.
    src: crates/pulsing-actor/src/behavior/core.rs 110-158 BehaviorWrapper::receive *)
Definition wrapper_receive (msg : Result M str) (s : BehaviorWrapper) : BehaviorWrapper * Result R str :=
  match msg with
  | Err e => (s, Err e)
  | Ok m =>
      match behavior_ctx s with
      | None => (s, Err (other_text (lit "BehaviorContext not initialized")))
      | Some ctx =>
          let '(w, b, action) := run (behavior s) m ctx (outside s) in
          let s' := mk_wrapper b (behavior_ctx s) (wr_name s) (cancelled s) w in
          match action with
          | Same => (s', packed_unit)
          | Become nb => (mk_wrapper nb (behavior_ctx s) (wr_name s) (cancelled s) w, packed_unit)
          | Stop reason =>
              (mk_wrapper b (behavior_ctx s) (wr_name s) true w, Err (other_text (lit "Actor stopped: " ++ default [] reason)))
          | AlreadyStopped => (s', Err (other_text (lit "Actor already stopped")))
          end
      end
  end.
(** The actor's path, if it has one, and its id.
    src: crates/pulsing-actor/src/behavior/core.rs 160-191 BehaviorWrapper::on_start *)
Definition wrapper_on_start (path : option str) (id : ActorId) (s : BehaviorWrapper) : BehaviorWrapper :=
  let name := default (lit "behavior-" ++ simple id) path in
  mk_wrapper (behavior s) (Some (mk_bctx name id (from_name name))) (Some name) (cancelled s) (outside s).
(** [into_actor]: the default [on_stop] does nothing.
    src: crates/pulsing-actor/src/behavior/core.rs 68-70 into_actor *)
Definition into_actor (path : option str) (id : ActorId) : Actor (Result M str) R BehaviorWrapper :=
  mk_actor _ _ _ (λ s, Return (wrapper_on_start path id s, Ok tt)) (λ m s, Return (wrapper_receive m s)) (λ s, Return (s, Ok tt)).
End Wrapper.
Arguments BehaviorWrapper : clear implicits.

(** ** Behaviours with state *)
Section Stateful.
Context {B S M W : Type} (handler : S → M → BehaviorContext → W → W * S * BehaviorAction B).
(** What the closure captures is the state, until it stops.
    src: crates/pulsing-actor/src/behavior/core.rs 232-260 stateful *)
Definition stateful_run (state : option S) (m : M) (ctx : BehaviorContext) (w : W) : W * option S * BehaviorAction B :=
  match state with
  | None => (w, None, AlreadyStopped)
  | Some s => let '(w, s, action) := handler s m ctx w in (w, if is_stop action then None else Some s, action)
  end.
End Stateful.
(** src: crates/pulsing-actor/src/behavior/core.rs 208-214 stateless *)
Definition stateless_run {B M W : Type} (f : M → BehaviorContext → W → W * BehaviorAction B) (_ : unit) (m : M) (ctx : BehaviorContext) (w : W)
    : W * unit * BehaviorAction B := let '(w, a) := f m ctx w in (w, tt, a).

(** ** What every actor is given *)
(** A cache of bounded size that drops the entry not used for longest, by the
    library's documentation: [get] finds what was put and not dropped since, and
    what was put last is there. *)
Class LruCache (K V : Type) := {
  lru : Type;
  lru_new : nat → lru;
  lru_get : K → lru → lru * option V;
  lru_put : K → V → lru → lru;
  lru_holds : lru → K → V → Prop;
  lru_holds_new n k v : ¬ lru_holds (lru_new n) k v;
  lru_get_holds k c c' r : lru_get k c = (c', r) → (∀ k' v, lru_holds c' k' v → lru_holds c k' v) ∧ (∀ v, r = Some v ↔ lru_holds c k v) ∧ (∀ v, r = Some v → lru_holds c' k v);
  lru_put_holds k v c k' v' : lru_holds (lru_put k v c) k' v' → (k' = k ∧ v' = v) ∨ lru_holds c k' v';
  lru_put_here k v c : lru_holds (lru_put k v c) k v
}.
Section Context.
Context `{LruCache ActorId V} {E : Type}.
(** src: crates/pulsing-actor/src/actor/context.rs 17-25 ActorContext *)
Record ActorContext := mk_actor_context { ctx_actor_id : ActorId; ctx_cancelled : bool; actor_refs : lru; ctx_named_path : option str }.
(** src: crates/pulsing-actor/src/actor/context.rs 42-60 ActorContext::new *)
Definition ActorContext_new (id : ActorId) (path : option str) : ActorContext := mk_actor_context id false (lru_new 1024) path.
(** [answer] is what the system says when it is asked.
    src: crates/pulsing-actor/src/actor/context.rs 108-116 ActorContext::actor_ref *)
Definition context_actor_ref (answer : Result V E) (id : ActorId) (c : ActorContext) : ActorContext * Result V E :=
  let '(refs, r) := lru_get id (actor_refs c) in
  let with_refs refs := mk_actor_context (ctx_actor_id c) (ctx_cancelled c) refs (ctx_named_path c) in
  match r with
  | Some r => (with_refs refs, Ok r)
  | None => match answer with Ok r => (with_refs (lru_put id r refs), Ok r) | Err e => (with_refs refs, Err e) end
  end.
(** Questions for ids, each with what the system says at the time. *)
Fixpoint ask_context (qs : list (ActorId * Result V E)) (c : ActorContext) : ActorContext * list (Result V E) :=
  match qs with
  | [] => (c, [])
  | (id, answer) :: qs => let '(c, r) := context_actor_ref answer id c in let '(c, rs) := ask_context qs c in (c, r :: rs)
  end.

Lemma context_step answer id c c' r : context_actor_ref answer id c = (c', r) →
  (∀ k v, lru_holds (actor_refs c') k v → lru_holds (actor_refs c) k v ∨ (k = id ∧ answer = Ok v)) ∧
  (r = answer ∨ ∃ v, r = Ok v ∧ lru_holds (actor_refs c) id v) ∧ (∀ v, r = Ok v → lru_holds (actor_refs c') id v).
Proof.
  unfold context_actor_ref. destruct (lru_get id (actor_refs c)) as [refs [x|]] eqn:Hg; pose proof (lru_get_holds _ _ _ _ Hg) as (Hk & Hv & Hin).
  - intros [= <- <-]. cbn. split_and!; [auto|right; exists x; split; [done|by apply Hv]|]. intros v [= <-]. by apply Hin.
  - destruct answer as [y|e]; intros [= <- <-]; cbn; split_and!; try (by left); [|by intros v [= <-]; apply lru_put_here|auto|done].
    intros k v [[-> ->]|Hh]%lru_put_holds; auto.
Qed.
(** A reference that an actor gets from its context is the system's answer now,
    or one that the system gave for the same id before. *)
Theorem references_were_given id path (qs : list (ActorId * Result V E)) i k now_says r :
  qs !! i = Some (k, now_says) → (ask_context qs (ActorContext_new id path)).2 !! i = Some r →
  r = now_says ∨ ∃ j v, (j < i)%nat ∧ r = Ok v ∧ qs !! j = Some (k, Ok v).
Proof.
  assert (Hgen : ∀ qs c i k now_says r, qs !! i = Some (k, now_says) → (ask_context qs c).2 !! i = Some r →
    r = now_says ∨ (∃ j v, (j < i)%nat ∧ r = Ok v ∧ qs !! j = Some (k, Ok v)) ∨ ∃ v, r = Ok v ∧ lru_holds (actor_refs c) k v).
  { clear. intros qs. induction qs as [|[id answer] qs IH]; intros c i k says r Hq Hr; [done|]. cbn [ask_context] in Hr.
    destruct (context_actor_ref answer id c) as [c1 r1] eqn:Hs. apply context_step in Hs as (Hh & Hr1 & _).
    destruct (ask_context qs c1) as [c2 rs] eqn:Ha. destruct i as [|i]; cbn in Hq, Hr.
    - simplify_eq. destruct Hr1 as [->|Hv]; auto.
    - destruct (IH c1 i k says r Hq) as [->|[(j & v & Hj & -> & Hqj)|(v & -> & Hv)]]; [by rewrite Ha|by left|right; left; exists (S j), v; split_and!; [lia|done|done]|].
      apply Hh in Hv as [Hv|[-> ->]]; [right; right; by exists v|]. right; left. exists 0%nat, v. split_and!; [lia|done|done]. }
  intros Hq Hr. destruct (Hgen qs _ i k now_says r Hq Hr) as [?|[?|(v & _ & Hv)]]; [by left|by right|]. by apply lru_holds_new in Hv.
Qed.
(** A reference is given again as long as it is kept, whatever has become of
    the actor since: the next question is not put to the system. *)
Theorem known_reference_is_kept id c answer c' v says : context_actor_ref answer id c = (c', Ok v) → (context_actor_ref says id c').2 = Ok v.
Proof.
  intros Hs. apply context_step in Hs as (_ & _ & Hin). specialize (Hin v eq_refl). unfold context_actor_ref.
  destruct (lru_get id (actor_refs c')) as [refs r] eqn:Hg. apply lru_get_holds in Hg as (_ & Hv & _). apply Hv in Hin as ->. done.
Qed.
End Context.

(** ** The life of a behaviour with state *)
Section Life.
Context `{Uuid} {B S M R W : Type} (run : B → M → BehaviorContext → W → W * B * BehaviorAction B) (packed_unit : Result R str).
Context (handler : S → M → BehaviorContext → W → W * S * BehaviorAction B) (closure : option S → B).
(** [closure] is the behaviour that [stateful] makes of the handler, which does
    not replace itself. *)
Hypothesis run_closure : ∀ o m ctx w, run (closure o) m ctx w = let '(w, o, a) := stateful_run handler o m ctx w in (w, closure o, a).
Hypothesis stays : ∀ s m ctx w nb, (handler s m ctx w).2 ≠ Become nb.
Implicit Types (ms : list (Result M str)) (ctx : BehaviorContext).
Definition reply (m : Result M str) : Result R str := match m with Ok _ => packed_unit | Err e => Err e end.
Definition refusal (m : Result M str) : Result R str := match m with Ok _ => Err (other_text (lit "Actor already stopped")) | Err e => Err e end.
Definition last_words (a : BehaviorAction B) : Result R str :=
  Err (other_text match a with Stop reason => lit "Actor stopped: " ++ default [] reason | _ => lit "Actor already stopped" end).
(** The handler is called for some messages, one after the other, and goes on. *)
Inductive goes_on ctx : list (Result M str) → S → W → S → W → Prop :=
  | on_nil s w : goes_on ctx [] s w s w
  | on_bad e ms s w s' w' : goes_on ctx ms s w s' w' → goes_on ctx (Err e :: ms) s w s' w'
  | on_good m ms s w s1 w1 s' w' : handler s m ctx w = (w1, s1, Same) → goes_on ctx ms s1 w1 s' w' → goes_on ctx (Ok m :: ms) s w s' w'.
Notation actor path id := (into_actor run packed_unit path id).
Definition at_state (ctx : BehaviorContext) name (o : option S) (c : bool) (w : W) : BehaviorWrapper B W := mk_wrapper (closure o) (Some ctx) name c w.

Lemma refuses path id ctx name c w ms stats : ∃ stats',
  instance_loop (actor path id) ((Recv <$> ms) ++ [MailboxClosed]) (at_state ctx name None c w) stats =
    (refusal <$> ms, stats', Stopped (Watch.Normal, at_state ctx name None c w, [])).
Proof.
  revert stats. induction ms as [|m ms IH]; intros stats; [by eexists|]. cbn [fmap list_fmap app instance_loop into_actor receive wrapper_receive].
  destruct m as [m|e]; cbn [wrapper_receive].
  - unfold wrapper_receive. cbn [behavior_ctx at_state behavior outside]. rewrite run_closure. cbn.
    destruct (IH (inc_message stats)) as [stats' Hs]. eexists. unfold at_state in *. by rewrite Hs.
  - destruct (IH (inc_message stats)) as [stats' Hs]. eexists. by rewrite Hs.
Qed.

(** The messages of a mailbox that is closed in the end: either the handler is
    called for all of them in turn, or it is until it stops; the one that made
    it stop is answered with an error, and so is every message behind it,
    without another call. The actor's token is cancelled when it stops. *)
Theorem stateful_life path id ctx name ms s w stats answers stats' o :
  instance_loop (actor path id) ((Recv <$> ms) ++ [MailboxClosed]) (at_state ctx name (Some s) false w) stats = (answers, stats', o) →
  (∃ s' w', goes_on ctx ms s w s' w' ∧ answers = reply <$> ms ∧ o = Stopped (Watch.Normal, at_state ctx name (Some s') false w', [])) ∨
  (∃ before m after a s1 w1 s2 w2, ms = before ++ Ok m :: after ∧ goes_on ctx before s w s1 w1 ∧ handler s1 m ctx w1 = (w2, s2, a) ∧ is_stop a = true ∧
     answers = (reply <$> before) ++ last_words a :: (refusal <$> after) ∧
     o = Stopped (Watch.Normal, at_state ctx name None (if a is Stop _ then true else false) w2, [])).
Proof.
  revert s w stats answers stats' o. induction ms as [|m ms IH]; intros s w stats answers stats' o Hl.
  - injection Hl as <- <- <-. left. exists s, w. split_and!; [constructor|done|done].
  - cbn [fmap list_fmap app instance_loop into_actor receive wrapper_receive] in Hl. destruct m as [m|e]; cbn [wrapper_receive] in Hl.
    + unfold wrapper_receive in Hl. cbn [behavior_ctx at_state behavior outside wr_name cancelled] in Hl. rewrite run_closure in Hl. unfold stateful_run in Hl.
      destruct (handler s m ctx w) as [[w1 s1] a] eqn:Ha. pose proof (stays s m ctx w) as Hs. rewrite Ha in Hs. cbn in Hs.
      destruct a as [|nb|reason|]; [|by destruct (Hs nb)|..]; cbn [is_stop] in Hl.
      * destruct (instance_loop _ _ _ _) as [[as' st'] o'] eqn:Hr in Hl. injection Hl as <- <- <-.
        destruct (IH _ _ _ _ _ _ Hr) as [(s' & w' & Hg & -> & ->)|(b & m' & af & a & s2 & w2 & s3 & w3 & -> & Hg & Hh & Hst & -> & ->)].
        -- left. exists s', w'. split_and!; [by econstructor|done|done].
        -- right. exists (Ok m :: b), m', af, a, s2, w2, s3, w3. split_and!; [done|by econstructor|done..].
      * destruct (refuses path id ctx name true w1 ms (inc_message stats)) as [st2 Hr]. unfold at_state in Hr. rewrite Hr in Hl. injection Hl as <- <- <-.
        right. exists [], m, ms, (Stop reason), s, w, s1, w1. split_and!; [done|constructor|done..].
      * destruct (refuses path id ctx name false w1 ms (inc_message stats)) as [st2 Hr]. unfold at_state in Hr. rewrite Hr in Hl. injection Hl as <- <- <-.
        right. exists [], m, ms, AlreadyStopped, s, w, s1, w1. split_and!; [done|constructor|done..].
    + destruct (instance_loop _ _ _ _) as [[as' st'] o'] eqn:Hr in Hl. injection Hl as <- <- <-.
      destruct (IH _ _ _ _ _ _ Hr) as [(s' & w' & Hg & -> & ->)|(b & m' & af & a & s2 & w2 & s3 & w3 & -> & Hg & Hh & Hst & -> & ->)].
      * left. exists s', w'. split_and!; [by econstructor|done|done].
      * right. exists (Err e :: b), m', af, a, s2, w2, s3, w3. split_and!; [done|by econstructor|done..].
Qed.
End Life.

(** ** References to oneself *)
Section Self.
Context `{Uuid} {B M W : Type}.
(** What spawning does to the registry, for an actor with a path and without. *)
Definition spawned (path : option str) (a : ActorId) (h : Resolve.LocalActorHandle) (r : Resolve.ActorRegistry) : Resolve.ActorRegistry :=
  let r := Resolve.reg_register_actor a h r in
  match path with Some p => Resolve.register_named_path p p (Resolve.register_name p a r) | None => Resolve.register_name (simple a) a r end.
Definition context_of (path : option str) (a : ActorId) (s : BehaviorWrapper B W) : option BehaviorContext := behavior_ctx (wrapper_on_start path a s).
(** A behaviour with a path reaches itself: its delayed messages go to its own
    mailbox. *)
Theorem named_behavior_reaches_itself p a h r (s : BehaviorWrapper B W) :
  ∃ c, context_of (Some p) a s = Some c ∧ schedule_self c (spawned (Some p) a h r) = Some (Resolve.LocalRef (Resolve.actor_id h) (Resolve.sender h)).
Proof.
  eexists. split; [reflexivity|]. unfold schedule_self, typed_resolve, local_actor_ref_by_name. cbn. rewrite lookup_insert_eq. cbn. by rewrite lookup_insert_eq.
Qed.
(** One without a path calls itself by a name that nothing is registered under,
    so its delayed messages are dropped when they are scheduled. *)
Theorem anonymous_behavior_cannot_reach_itself a h r (s : BehaviorWrapper B W) : Resolve.actor_names r !! (lit "behavior-" ++ simple a) = None →
  ∃ c, context_of None a s = Some c ∧ schedule_self c (spawned None a h r) = None ∧ is_alive (self_ref c) (spawned None a h r) = false.
Proof.
  intros Hr. eexists. split; [reflexivity|]. assert (Hn : simple a ≠ lit "behavior-" ++ simple a).
  { intros Heq%(f_equal length). rewrite length_app in Heq. cbn in Heq. lia. }
  assert (Hl : local_actor_ref_by_name (lit "behavior-" ++ simple a) (spawned None a h r) = None).
  { unfold local_actor_ref_by_name, spawned. cbn [Resolve.actor_names Resolve.register_name Resolve.reg_register_actor]. by rewrite lookup_insert_ne, Hr. }
  unfold schedule_self, is_alive, typed_resolve. cbn [self_ref mode from_name tr_name default]. by rewrite Hl.
Qed.
End Self.

(** ** Concrete actors *)
(** A cache that is a list, the entry used last in front. *)
Section ListCache.
Context {V : Type}.
Fixpoint assoc (k : Z) (l : list (Z * V)) : option V := match l with [] => None | (k', v) :: l => if decide (k = k') then Some v else assoc k l end.
Definition front (k : Z) (v : V) (l : list (Z * V)) : list (Z * V) := (k, v) :: filter (λ kv, kv.1 ≠ k) l.
Lemma assoc_filter k k' l : assoc k' (filter (λ kv, kv.1 ≠ k) l) = if decide (k' = k) then None else assoc k' l.
Proof.
  induction l as [|[x v] l IH]; [by destruct (decide _)|]. rewrite filter_cons. cbn [fst]. destruct (decide (x = k)) as [->|Hx].
  - rewrite decide_False by tauto. rewrite IH. cbn [assoc]. by destruct (decide (k' = k)).
  - rewrite decide_True by done. cbn [assoc]. rewrite IH. destruct (decide (k' = x)) as [->|]; [by rewrite decide_False|done].
Qed.
Lemma assoc_take n k l v : assoc k (take n l) = Some v → assoc k l = Some v.
Proof. revert n. induction l as [|[x y] l IH]; intros [|n]; cbn; try done. destruct (decide _); [done|apply IH]. Qed.
Definition get_front (k : Z) (c : nat * list (Z * V)) : (nat * list (Z * V)) * option V :=
  match assoc k c.2 with Some v => ((c.1, front k v c.2), Some v) | None => (c, None) end.
Definition put_front (k : Z) (v : V) (c : nat * list (Z * V)) : nat * list (Z * V) := (c.1, take (S c.1) (front k v c.2)).
Lemma get_front_holds k c c' r : get_front k c = (c', r) →
  (∀ k' v, assoc k' c'.2 = Some v → assoc k' c.2 = Some v) ∧ (∀ v, r = Some v ↔ assoc k c.2 = Some v) ∧ (∀ v, r = Some v → assoc k c'.2 = Some v).
Proof.
  unfold get_front. destruct (assoc k c.2) as [x|] eqn:Hk; intros [= <- <-]; cbn [fst snd].
  - split_and!; [|done|intros v [= <-]; unfold front; cbn; by rewrite decide_True].
    intros k' v. unfold front. cbn [assoc]. rewrite assoc_filter. repeat destruct (decide _); congruence.
  - split_and!; [done|by split|done].
Qed.
Lemma put_front_holds k v c k' v' : assoc k' (put_front k v c).2 = Some v' → (k' = k ∧ v' = v) ∨ assoc k' c.2 = Some v'.
Proof. intros Hp%assoc_take. unfold front in Hp. cbn [assoc] in Hp. rewrite assoc_filter in Hp. repeat destruct (decide _); try congruence; [left; by simplify_eq|by right]. Qed.
#[export] Program Instance list_cache : LruCache Z V := {|
  lru := nat * list (Z * V); lru_new n := (pred n, []); lru_get := get_front; lru_put := put_front;
  lru_holds c k v := assoc k c.2 = Some v; lru_get_holds := get_front_holds; lru_put_holds := put_front_holds |}.
Next Obligation. done. Qed.
Next Obligation. intros k v c. unfold put_front, front. cbn. by rewrite decide_True. Qed.
End ListCache.
(** The system forgets actor 5 after it was asked for it once. *)
Definition two_questions : list (ActorId * Result nat str) := [(5, Ok 1%nat); (5, Err (lit "gone"))].
Example answered_from_the_cache : (ask_context two_questions (ActorContext_new 9 None)).2 = [Ok 1%nat; Ok 1%nat].
Proof. vm_compute. reflexivity. Qed.
Lemma references_were_given_witness :
  (Ok 1%nat : Result nat str) = Err (lit "gone") ∨ ∃ j v, (j < 1)%nat ∧ (Ok 1%nat : Result nat str) = Ok v ∧ two_questions !! j = Some (5, Ok v).
Proof. apply (references_were_given 9 None two_questions 1 5 (Err (lit "gone")) (Ok 1%nat)); [reflexivity|vm_compute; reflexivity]. Defined.
Lemma known_reference_is_kept_witness :
  (context_actor_ref (E := str) (Err (lit "gone")) 5 (context_actor_ref (Ok 1%nat) 5 (ActorContext_new 9 None) : ActorContext * Result nat str).1).2 = Ok 1%nat.
Proof. eapply (known_reference_is_kept 5 (ActorContext_new 9 None) (Ok 1%nat)). vm_compute. reflexivity. Defined.

(** A counter that stops at ten. *)
Definition count_to_ten (n : Z) (m : Z) (_ : BehaviorContext) (w : list Z) : list Z * Z * BehaviorAction (option Z) :=
  (w ++ [n + m], n + m, if 10 <=? n + m then stop_with_reason (lit "full") else Same).
Definition counter_run : option Z → Z → BehaviorContext → list Z → list Z * option Z * BehaviorAction (option Z) := stateful_run count_to_ten.
Definition counter_messages : list (Result Z str) := [Ok 4; Err (lit "bad"); Ok 7; Ok 1].
Definition some_context : BehaviorContext := mk_bctx (lit "counter") 5 (from_name (lit "counter")).
Lemma stateful_life_witness : ∃ answers stats o,
  instance_loop (into_actor counter_run (Ok tt) (Some (lit "counter")) 5) ((Recv <$> counter_messages) ++ [MailboxClosed])
    (mk_wrapper (Some 0) (Some some_context) None false []) (mk_stats 0 0 0) = (answers, stats, o) ∧
  (length answers = 4%nat ∧ ((∃ s' w', goes_on count_to_ten some_context counter_messages 0 [] s' w') ∨
    ∃ before m after a s1 w1 s2 w2, counter_messages = before ++ Ok m :: after ∧ goes_on count_to_ten some_context before 0 [] s1 w1 ∧
      count_to_ten s1 m some_context w1 = (w2, s2, a) ∧ is_stop a = true)).
Proof.
  destruct (instance_loop _ _ _ _) as [[answers stats] o] eqn:Hl. exists answers, stats, o. split; [done|]. split.
  - vm_compute in Hl. by injection Hl as <- _ _.
  - destruct (stateful_life counter_run (Ok tt) count_to_ten id ltac:(intros [?|] ???; reflexivity) ltac:(intros s m ctx w nb; cbn; by case_match)
      (Some (lit "counter")) 5 some_context None counter_messages 0 [] (mk_stats 0 0 0) answers stats o Hl) as [(s' & w' & Hg & _)|(b & m & af & a & s1 & w1 & s2 & w2 & H1 & H2 & H3 & H4 & _)];
      [left; by exists s', w'|right; by exists b, m, af, a, s1, w1, s2, w2].
Defined.
Lemma anonymous_behavior_cannot_reach_itself_witness :
  ∃ c, context_of None 5 (wrapper_new (Some 0) [] : BehaviorWrapper (option Z) (list Z)) = Some c ∧
    schedule_self c (spawned None 5 (Resolve.mk_handle 5 0 None) Resolve.ActorRegistry_new) = None ∧
    is_alive (self_ref c) (spawned None 5 (Resolve.mk_handle 5 0 None) Resolve.ActorRegistry_new) = false.
Proof. by apply anonymous_behavior_cannot_reach_itself. Defined.
