(* ===== verification/Runtime.v ===== *)
(** * Spawning, stopping and shutting down

    [system/spawn.rs], [system/lifecycle.rs], [system/handler.rs],
    [system_actor/lifecycle.rs] and the notification of watchers in [watch.rs]:
    the calls of the actor system that change its registry, as programs of
    accesses to its maps. Waiting for a task only lets other programs run. *)
From S2P Require Import Prelude Text Address Member Policy Naming Directory Resolve Atomic Watch.

(** ** The state of a node *)

(** src: crates/pulsing-actor/src/system_actor/lifecycle.rs 9-16 NodeState *)
Inductive NodeState := Booting | Starting | Ready | Draining | NodeFailed | NodeStopped.
#[export] Instance NodeState_eq_dec : EqDecision NodeState.
Proof. solve_decision. Defined.
(** src: crates/pulsing-actor/src/system_actor/lifecycle.rs 30-41 can_transition_to *)
Definition can_transition_to (s next : NodeState) : bool :=
  match s, next with
  | Booting, (Starting | Draining | NodeFailed) => true
  | Starting, (Ready | Draining | NodeFailed) => true
  | Ready, (Draining | NodeFailed) => true
  | Draining, (NodeStopped | NodeFailed) => true
  | NodeFailed, (Draining | NodeStopped) => true
  | _, _ => false
  end.

(** What [StopReason] prints. *)
Definition reason_text (r : StopReason) : str :=
  match r with Normal => "Normal" | Failed e => lit "Failed: " ++ e | Killed => "Killed" | SystemShutdown => "SystemShutdown" end.

(** The part of the actor system that is shared: the cancelled tokens and the
    tasks that are over, by actor, and the sends to watchers that were tried. *)
Record Node (B : Type) := mk_node {
  n_registry : ActorRegistry; n_cluster : option B; n_watchers : Watchers;
  n_cancelled : gset Z; n_ended : gset Z; n_sends : list (nat * (ActorId * StopReason));
  n_state : NodeState; n_token : bool }.
Arguments mk_node {B}.
Arguments n_registry {B}.
Arguments n_cluster {B}.
Arguments n_watchers {B}.
Arguments n_cancelled {B}.
Arguments n_ended {B}.
Arguments n_sends {B}.
Arguments n_state {B}.
Arguments n_token {B}.

Section Runtime.
Context `{Uuid} `{NamingBackend B, !ActorDirectory B} {OR : Oracle}.
Implicit Types n : Node B.

Definition on_registry (f : ActorRegistry → ActorRegistry) n : Node B :=
  mk_node (f (n_registry n)) (n_cluster n) (n_watchers n) (n_cancelled n) (n_ended n) (n_sends n) (n_state n) (n_token n).
Definition on_cluster (f : B → B) n : Node B :=
  mk_node (n_registry n) (f <$> n_cluster n) (n_watchers n) (n_cancelled n) (n_ended n) (n_sends n) (n_state n) (n_token n).
Definition on_watchers (f : Watchers → Watchers) n : Node B :=
  mk_node (n_registry n) (n_cluster n) (f (n_watchers n)) (n_cancelled n) (n_ended n) (n_sends n) (n_state n) (n_token n).
Definition cancel (a : ActorId) n : Node B :=
  mk_node (n_registry n) (n_cluster n) (n_watchers n) ({[a]} ∪ n_cancelled n) (n_ended n) (n_sends n) (n_state n) (n_token n).
Definition end_task (a : ActorId) n : Node B :=
  mk_node (n_registry n) (n_cluster n) (n_watchers n) (n_cancelled n) ({[a]} ∪ n_ended n) (n_sends n) (n_state n) (n_token n).
Definition add_send (m : nat * (ActorId * StopReason)) n : Node B :=
  mk_node (n_registry n) (n_cluster n) (n_watchers n) (n_cancelled n) (n_ended n) (n_sends n ++ [m]) (n_state n) (n_token n).
Definition set_node_state (s : NodeState) n : Node B :=
  mk_node (n_registry n) (n_cluster n) (n_watchers n) (n_cancelled n) (n_ended n) (n_sends n) s (n_token n).
Definition cancel_all n : Node B :=
  mk_node (n_registry n) (n_cluster n) (n_watchers n) (n_cancelled n) (n_ended n) (n_sends n) (n_state n) true.

(** A change of the registry that yields a value. *)
Definition take_registry {A} (f : ActorRegistry → A * ActorRegistry) : prog (Node B) A :=
  update (λ n, (on_registry (λ r, (f r).2) n, (f (n_registry n)).1)).

(** ** The node's control plane *)
Inductive LifecycleError := InvalidTransition (s next : NodeState).

(** The loop goes round again only when another thread changed the state; [None]
    is running out of fuel.
    src: crates/pulsing-actor/src/system_actor/lifecycle.rs 68-92 transition *)
Fixpoint transition (fuel : nat) (next : NodeState) : prog (Node B) (option (Result unit LifecycleError)) :=
  match fuel with
  | O => Ret None
  | S fuel =>
      current ← read n_state;
      if bool_decide (current = next) then Ret (Some (Ok tt))
      else if negb (can_transition_to current next) then Ret (Some (Err (InvalidTransition current next)))
      else
        exchanged ← update (λ n, if bool_decide (n_state n = current) then (set_node_state next n, true) else (n, false));
        if (exchanged : bool) then Ret (Some (Ok tt)) else transition fuel next
  end.
(** src: crates/pulsing-actor/src/system_actor/lifecycle.rs 95-101 begin_draining *)
Definition begin_draining (fuel : nat) : prog (Node B) (option (Result unit LifecycleError)) :=
  current ← read n_state;
  match current with
  | Draining | NodeStopped => Ret (Some (Ok tt))
  | _ => transition fuel Draining
  end.

(** ** Watching *)
Inductive WatchError := CannotWatchRemote (a : ActorId).
(** src: crates/pulsing-actor/src/system/mod.rs 569-580 watch *)
Definition system_watch (watcher target : ActorId) : prog (Node B) (Result unit WatchError) :=
  h ← read (λ n, get_handle target (n_registry n));
  match h with
  | None => Ret (Err (CannotWatchRemote target))
  | Some _ => write (on_watchers (watch watcher target));; Ret (Ok tt)
  end.
(** src: crates/pulsing-actor/src/system/mod.rs 582-585 unwatch *)
Definition system_unwatch (watcher target : ActorId) : prog (Node B) (Result unit WatchError) :=
  write (on_watchers (unwatch watcher target));; Ret (Ok tt).

(** src: crates/pulsing-actor/src/watch.rs 208-220 notify_watchers (sends) *)
Fixpoint notify_each (ws : list ActorId) (target : ActorId) (reason : StopReason) : prog (Node B) unit :=
  match ws with
  | [] => Ret tt
  | w :: ws =>
      h ← read (λ n, get_handle w (n_registry n));
      match h with
      | Some h => write (add_send (sender h, (target, reason)));; notify_each ws target reason
      | None => notify_each ws target reason
      end
  end.
(** src: crates/pulsing-actor/src/watch.rs 166-221 notify_watchers *)
Definition notify_watchers (target : ActorId) (reason : StopReason) : prog (Node B) unit :=
  ws ← update (λ n, (on_watchers (λ w, (take_watchers target w).2) n, (take_watchers target (n_watchers n)).1));
  notify_each (shuffle (elements ws)) target reason.
(** src: crates/pulsing-actor/src/watch.rs 137-163 cleanup_and_broadcast *)
Definition cleanup_and_broadcast (a : ActorId) (path : option ActorPath) (reason : StopReason) : prog (Node B) unit :=
  match path with
  | Some p =>
      write (on_registry (λ r, mk_registry (local_actors r) (actor_names r) (delete (as_str p) (named_actor_paths r))));;
      write (on_cluster (nb_named_failed p (reason_text reason)));;
      write (on_cluster (nb_unregister_named p))
  | None => write (on_cluster (nb_unregister_actor a))
  end.
(** src: crates/pulsing-actor/src/watch.rs 85-111 handle_termination *)
Definition handle_termination (a : ActorId) (path : option ActorPath) (reason : StopReason) : prog (Node B) unit :=
  cleanup_and_broadcast a path reason;; notify_watchers a reason.

(** ** Spawning *)
Inductive SpawnError := ActorAlreadyExists (name : str).

(** The id and the sender of the new actor are fresh; its task runs on its own.
    src: crates/pulsing-actor/src/system/spawn.rs 26-118 spawn_internal *)
Definition spawn_internal (path : option ActorPath) (a : ActorId) (s : nat) (metadata : gmap (list Z) (list Z)) (publish : bool)
    : prog (Node B) (Result ActorRef SpawnError) :=
  write (on_registry (reg_register_actor a (mk_handle a s path)));;
  match path with
  | Some p =>
      let name := as_str p in
      occupied ← take_registry (λ r, if has_name name r then (true, r) else (false, register_name name a r));
      if (occupied : bool) then
        dropped ← take_registry (remove_handle a);
        match dropped with Some _ => write (cancel a) | None => Ret tt end;;
        Ret (Err (ActorAlreadyExists name))
      else
        write (on_registry (register_named_path name name));;
        (if publish then
           write (on_cluster (if bool_decide (metadata = ∅) then nb_register_named p else nb_register_named_full p a metadata));;
           write (on_cluster (nb_register_actor a))
         else Ret tt);;
        Ret (Ok (LocalRef a s))
  | None => write (on_registry (register_name (simple a) a));; Ret (Ok (LocalRef a s))
  end.

(** ** Stopping *)

(** src: crates/pulsing-actor/src/system/lifecycle.rs 170-230 stop_local_actor *)
Definition stop_local_actor (h : LocalActorHandle) (path : option ActorPath) (reason : StopReason) : prog (Node B) unit :=
  write (cancel (actor_id h));;
  handle_termination (actor_id h) path reason.
(** The name that is looked up.
    src: crates/pulsing-actor/src/system/lifecycle.rs 32-43 stop_with_reason (name) *)
Definition actual_name (name : str) : prog (Node B) str :=
  found ← read (λ n, has_name name (n_registry n));
  if (found : bool) then Ret name
  else if bool_decide (slash ∈ name) then Ret name
  else
    let prefixed := lit "actors/" ++ name in
    found ← read (λ n, has_name prefixed (n_registry n));
    Ret (if (found : bool) then prefixed else name).
(** The handle is taken out, then the actor is stopped; a path given by the
    caller takes the place of the handle's. *)
Definition stop_taken (name : str) (path : option ActorPath) (reason : StopReason) : prog (Node B) unit :=
  found ← take_registry (remove_by_name name);
  match found with
  | None => Ret tt
  | Some (_, a) =>
      h ← take_registry (remove_handle a);
      match h with
      | None => Ret tt
      | Some (_, h) => stop_local_actor h (match path with Some p => Some p | None => named_path h end) reason
      end
  end.
(** src: crates/pulsing-actor/src/system/lifecycle.rs 29-60 stop_with_reason *)
Definition stop_with_reason (name : str) (reason : StopReason) : prog (Node B) unit :=
  name ← actual_name name;
  stop_taken name None reason.
(** src: crates/pulsing-actor/src/system/lifecycle.rs 68-91 stop_named_with_reason *)
Definition stop_named_with_reason (p : ActorPath) (reason : StopReason) : prog (Node B) unit :=
  name ← read (λ n, get_actor_name_by_path (as_str p) (n_registry n));
  match name with
  | None => Ret tt
  | Some name => stop_taken name (Some p) reason
  end.

(** ** Shutting down *)

(** The first name of an actor, or its id.
    src: crates/pulsing-actor/src/system/lifecycle.rs 110-116 shutdown (name) *)
Definition name_of (h : LocalActorHandle) (a : ActorId) (r : ActorRegistry) : str :=
  match list_find (λ na : list Z * Z, na.2 = a) (hm_iter (actor_names r)) with Some (_, (name, _)) => name | None => simple (actor_id h) end.
(** src: crates/pulsing-actor/src/system/lifecycle.rs 103-119 shutdown (entries) *)
Definition actor_entries (r : ActorRegistry) : list (ActorId * str * option ActorPath) :=
  (λ '(a, h), (a, name_of h a r, named_path h)) <$> hm_iter (local_actors r).
(** src: crates/pulsing-actor/src/system/lifecycle.rs 121-134 shutdown (loop) *)
Fixpoint stop_entries (es : list (ActorId * str * option ActorPath)) : prog (Node B) unit :=
  match es with
  | [] => Ret tt
  | (a, name, path) :: es =>
      take_registry (remove_by_name name);;
      h ← take_registry (remove_handle a);
      match h with
      | Some (_, h) => stop_local_actor h path SystemShutdown;; stop_entries es
      | None => stop_entries es
      end
  end.
(** The entries are collected in one access; the load trackers and shared memory
    are left out, and leaving a cluster does not fail.
    src: crates/pulsing-actor/src/system/lifecycle.rs 95-163 shutdown *)
Definition shutdown (fuel : nat) : prog (Node B) (option (Result unit LifecycleError)) :=
  drained ← begin_draining fuel;
  match drained with
  | Some (Ok _) =>
      write cancel_all;;
      entries ← read (λ n, actor_entries (n_registry n));
      stop_entries entries;;
      write (on_registry registry_clear);;
      write (on_watchers clear_watchers);;
      write (on_cluster nb_leave);;
      transition fuel NodeStopped
  | r => Ret r
  end.

(** ** Messages from other nodes *)
Inductive DispatchError := InvalidActorPath (p : str) | DispatchNotFound (n : str) | DispatchNamedNotFound (p : str).

(** src: crates/pulsing-actor/src/system/handler.rs 59-63 find_actor_sender *)
Definition find_sender (name : str) (r : ActorRegistry) : Result nat DispatchError :=
  match find_actor_sender name r with Some s => Ok s | None => Err (DispatchNotFound name) end.
(** The mailbox a message for [path] goes to.
    src: crates/pulsing-actor/src/system/handler.rs 66-74 dispatch_message *)
Definition dispatch_sender (path : str) (r : ActorRegistry) : Result nat DispatchError :=
  match strip_prefix (lit "/actors/") path with
  | Some name => find_sender name r
  | None =>
      match strip_prefix (lit "/named/") path with
      | Some p => match get_actor_name_by_path p r with Some name => find_sender name r | None => Err (DispatchNamedNotFound p) end
      | None => Err (InvalidActorPath path)
      end
  end.
End Runtime.
