(* ===== verification/RuntimeFacts.v ===== *)
(** * Properties of spawning and stopping

    What each call leaves behind when it runs alone, what any interleaving keeps,
    and two interleavings that go wrong. *)
From S2P Require Import Prelude Text Address Member Policy Head Naming Directory Resolve ResolveFacts Atomic Watch Runtime.

(** ** More on pools *)
Section Pool.
Context {S : Type}.

(** An assertion for each thread, kept by its own accesses and by the others'. *)
Lemma pool_assertions (J : nat → prog S unit → S → Prop) ps s ps' s' :
  (∀ i f s, J i (Act f) s → J i (f s).2 (f s).1) →
  (∀ i j f q s, i ≠ j → J i (Act f) s → J j q s → J j q (f s).1) →
  rtc pstep (ps, s) (ps', s') → (∀ i p, ps !! i = Some p → J i p s) → ∀ i p, ps' !! i = Some p → J i p s'.
Proof.
  intros Hown Hother Hr. change (let c := (ps, s) in let c' := (ps', s') in
    (∀ i p, c.1 !! i = Some p → J i p c.2) → ∀ i p, c'.1 !! i = Some p → J i p c'.2).
  induction Hr as [|c1 c2 c3 Hstep _ IH]; [done|]. simpl. intros HJ. apply IH. clear IH.
  destruct Hstep as [qs q i f q' p' Hi Hf]. simpl in *. intros j p Hj.
  pose proof (HJ _ _ Hi) as Hi'. destruct (decide (i = j)) as [<-|Hij].
  - rewrite list_lookup_insert_eq in Hj by by eapply lookup_lt_Some. injection Hj as <-. specialize (Hown i f q Hi'). by rewrite Hf in Hown.
  - rewrite list_lookup_insert_ne in Hj by done. specialize (Hother i j f p q Hij Hi' (HJ _ _ Hj)). by rewrite Hf in Hother.
Qed.

Lemma pool_length (ps : list (prog S unit)) s ps' s' : rtc pstep (ps, s) (ps', s') → length ps' = length ps.
Proof.
  intros Hr. change (let c := (ps, s) in let c' := (ps', s') in length c'.1 = length c.1).
  induction Hr as [|c1 c2 c3 Hstep _ IH]; [done|]. simpl in *. rewrite IH. destruct Hstep. apply length_insert.
Qed.

(** Every access of a program, from any state, is in [R]. *)
Inductive within (R : S → S → Prop) {A} : prog S A → Prop :=
  | within_ret a : within R (Ret a)
  | within_act f : (∀ s, R s (f s).1) → (∀ s, within R (f s).2) → within R (Act f).

Lemma within_bind R {A B} (k : A → prog S B) p : within R p → (∀ a, within R (k a)) → within R (mbind k p).
Proof.
  intros Hp Hk. unfold mbind, prog_mbind. induction Hp as [a|f Hf _ IH]; simpl; [apply Hk|].
  apply within_act; intros s; specialize (Hf s); specialize (IH s); by destruct (f s).
Qed.
Lemma within_read {A} R (f : S → A) : (∀ s, R s s) → within R (read f).
Proof. intros HR. apply within_act; intros s; [apply HR|apply within_ret]. Qed.
Lemma within_write R f : (∀ s, R s (f s)) → within R (write f).
Proof. intros HR. apply within_act; intros s; [apply HR|apply within_ret]. Qed.
Lemma within_update {A} R (f : S → S * A) : (∀ s, R s (f s).1) → within R (update f).
Proof. intros HR. apply within_act; intros s; [apply HR|apply within_ret]. Qed.

Lemma within_keeps R I {A} (p : prog S A) : within R p → (∀ s s', R s s' → I s → I s') → keeps I p.
Proof. intros Hp HR. induction Hp as [a|f Hf _ IH]; [apply keeps_ret|]. apply keeps_act; eauto. Qed.

(** The first accesses of a thread. *)
Fixpoint first_accesses {A} (k : nat) (p : prog S A) (s : S) : prog S A * S :=
  match k, p with
  | Datatypes.S k, Act f => let '(s, p) := f s in first_accesses k p s
  | _, _ => (p, s)
  end.
Lemma run_first k ps i p s : ps !! i = Some p →
  rtc pstep (ps, s) (<[i := (first_accesses k p s).1]> ps, (first_accesses k p s).2).
Proof.
  revert ps p s. induction k as [|k IH]; intros ps p s Hi; simpl; [by rewrite list_insert_id|].
  destruct p as [a|f]; [by rewrite list_insert_id|]. destruct (f s) as [s' p'] eqn:E. eapply rtc_l; [by eapply pstep_at|].
  specialize (IH (<[i := p']> ps) p' s'). rewrite list_insert_insert_eq in IH. apply IH.
  apply list_lookup_insert_eq. by eapply lookup_lt_Some.
Qed.
End Pool.

(** Walks a program down to its accesses. *)
Ltac within_tree :=
  repeat match goal with
  | |- within _ (mbind _ _) => apply within_bind; [|intros ?]
  | |- within _ (mret _) => apply within_ret
  | |- within _ (Ret _) => apply within_ret
  | |- within _ (read _) => apply within_read; intros ?
  | |- within _ (write _) => apply within_write; intros ?
  | |- within _ (update _) => apply within_update; intros ?
  | |- within _ (take_registry _) => apply within_update; intros ?
  | |- within _ (match ?x with _ => _ end) => destruct x
  end.

(** ** The control plane *)
Section Lifecycle.
Context {B : Type}.
Implicit Types n : Node B.

Definition edge (s s' : NodeState) : Prop := can_transition_to s s' = true.
Definition moves (n n' : Node B) : Prop := n_state n' = n_state n ∨ edge (n_state n) (n_state n').

Lemma transition_keeps fuel next (s0 : NodeState) : keeps (λ n : Node B, rtc edge s0 (n_state n)) (transition fuel next).
Proof.
  induction fuel as [|fuel IH]; [apply keeps_ret|]. simpl. apply keeps_act; intros n Hn; simpl; [done|].
  case_bool_decide as Hc; [apply keeps_ret|]. destruct (can_transition_to (n_state n) next) eqn:Et; simpl; [|apply keeps_ret].
  apply keeps_act; intros n' Hn'; case_bool_decide as Hs; simpl; [|done|apply keeps_ret|done].
  eapply rtc_r; [exact Hn'|]. unfold edge. by rewrite Hs.
Qed.

(** States from which the node does not serve again. *)
Definition closing (s : NodeState) : Prop := s = Draining ∨ s = NodeFailed ∨ s = NodeStopped.
Lemma closing_edge s s' : closing s → rtc edge s s' → closing s'.
Proof.
  intros Hc Hr. induction Hr as [|a b c Hab _ IH]; [done|]. apply IH. unfold edge in Hab.
  destruct Hc as [-> | [-> | ->]]; destruct b; simpl in *; try done; unfold closing; auto.
Qed.
Lemma stopped_edge s : rtc edge NodeStopped s → s = NodeStopped.
Proof. intros Hr. inversion Hr as [|? b ? Hab]; [done|]. by destruct b. Qed.

(** However threads interleave their transitions, the node's state moves along
    the table: once draining or failed the node never becomes ready, and once
    stopped it stays stopped. *)
Theorem no_way_back (calls : list (nat * NodeState)) (n : Node B) ps n' :
  rtc pstep ((λ c, prog_bind (λ _, Ret tt) (transition c.1 c.2)) <$> calls, n) (ps, n') →
  rtc edge (n_state n) (n_state n') ∧ (closing (n_state n) → n_state n' ≠ Ready) ∧ (n_state n = NodeStopped → n_state n' = NodeStopped).
Proof.
  intros Hr. destruct (pool_keeps (λ m, rtc edge (n_state n) (n_state m)) _ _ _ _ Hr) as [_ Hn]; [|done|].
  { apply Forall_fmap, Forall_true. intros [fuel next]. simpl. generalize (transition_keeps fuel next (n_state n)).
    generalize (@transition B fuel next). intros p Hp. induction Hp as [a|f H1 _ IH]; simpl; [apply keeps_ret|].
    apply keeps_act; intros m Hm; specialize (H1 m Hm); specialize (IH m Hm); by destruct (f m). }
  split_and!; [done| |].
  - intros Hc. pose proof (closing_edge _ _ Hc Hn) as Hc'. destruct Hc' as [-> | [-> | ->]]; done.
  - intros Hs. rewrite Hs in Hn. by apply stopped_edge.
Qed.
End Lifecycle.

(** ** Calls that run alone *)
Section Alone.
Context `{Uuid} `{NL : NamingLaws B} {AD : ActorDirectory B} {DL : DirectoryLaws B} {OR : Oracle}.
Implicit Types n : Node B.



Lemma length_omap_le {A C} (f : A → option C) l : (length (omap f l) ≤ length l)%nat.
Proof.
  induction l as [|x l IH]; [done|].
  change (omap f (x :: l)) with (match f x with Some y => y :: omap f l | None => omap f l end). destruct (f x); simpl; lia.
Qed.

(** The sends to the watchers that still run. *)
Definition told (r : ActorRegistry) (ws : list Z) (a : ActorId) (reason : StopReason) : list (nat * (ActorId * StopReason)) :=
  omap (λ w, (λ h, (sender h, (a, reason))) <$> local_actors r !! w) ws.

Lemma run_notify_each ws a reason n :
  run (notify_each ws a reason) n =
    (mk_node (n_registry n) (n_cluster n) (n_watchers n) (n_cancelled n) (n_ended n) (n_sends n ++ told (n_registry n) ws a reason) (n_state n) (n_token n), tt).
Proof.
  revert n. induction ws as [|w ws IH]; intros n; simpl; [unfold told; simpl; rewrite app_nil_r; by destruct n|].
  unfold get_handle, told. simpl. destruct (local_actors (n_registry n) !! w) as [h|]; simpl; rewrite IH; simpl; [|done].
  unfold told. by rewrite <- app_assoc.
Qed.

(** What stopping a taken actor does. *)
Definition after_stop (a : ActorId) (path : option ActorPath) (reason : StopReason) n : Node B :=
  mk_node
    (mk_registry (local_actors (n_registry n)) (actor_names (n_registry n))
      (match path with Some p => delete (as_str p) (named_actor_paths (n_registry n)) | None => named_actor_paths (n_registry n) end))
    (match path with
     | Some p => nb_unregister_named p <$> (nb_named_failed p (reason_text reason) <$> n_cluster n)
     | None => nb_unregister_actor a <$> n_cluster n
     end)
    (delete a (n_watchers n)) ({[a]} ∪ n_cancelled n) (n_ended n)
    (n_sends n ++ told (n_registry n) (shuffle (elements (get_watchers a (n_watchers n)))) a reason) (n_state n) (n_token n).

Lemma run_stop_local h path reason n :
  run (stop_local_actor h path reason) n = (after_stop (actor_id h) path reason n, tt).
Proof.
  unfold stop_local_actor, handle_termination, cleanup_and_broadcast, notify_watchers. unfold mbind, prog_mbind.
  destruct path as [p|]; simpl; rewrite run_notify_each; [done|by destruct n as [[] ? ? ? ? ? ? ?]].
Qed.

Lemma run_actual_name name n :
  run (actual_name name) n = (n, if has_name name (n_registry n) then name else if bool_decide (slash ∈ name) then name
    else if has_name (lit "actors/" ++ name) (n_registry n) then lit "actors/" ++ name else name).
Proof.
  unfold actual_name, mbind, prog_mbind. simpl. destruct (has_name name _); [done|]. case_bool_decide; [done|]. simpl.
  by destruct (has_name _ _).
Qed.

(** A registered actor is taken and stopped. *)
Lemma run_stop_registered name a h reason n :
  actor_names (n_registry n) !! name = Some a → local_actors (n_registry n) !! a = Some h →
  (run (stop_with_reason name reason) n).1 =
    after_stop (actor_id h) (named_path h) reason
      (on_registry (λ r, mk_registry (delete a (local_actors r)) (delete name (actor_names r)) (named_actor_paths r)) n).
Proof.
  intros Hn Hl. unfold stop_with_reason, stop_taken. unfold mbind, prog_mbind. rewrite run_bind, run_actual_name. simpl.
  assert (Hh : has_name name (n_registry n) = true) by (apply bool_decide_true; eauto). rewrite Hh, Hn. simpl. rewrite Hl. simpl.
  etransitivity; [exact (f_equal fst (run_stop_local h (named_path h) reason _))|done].
Qed.

(** Stopping a registered actor cancels its task, frees its name, and tells
    its watchers: each one that still runs here gets one message, with the
    actor and the reason, and the actor has no watchers left. *)
Theorem stop_tells_watchers name a h reason n :
  actor_names (n_registry n) !! name = Some a → local_actors (n_registry n) !! a = Some h → actor_id h = a →
  let n' := (run (stop_with_reason name reason) n).1 in
  a ∈ n_cancelled n' ∧ actor_names (n_registry n') !! name = None ∧ get_watchers a (n_watchers n') = ∅ ∧
  ∃ sends, n_sends n' = n_sends n ++ sends ∧ (length sends ≤ size (get_watchers a (n_watchers n)))%nat ∧
    ∀ m, m ∈ sends ↔ ∃ w hw, w ∈ get_watchers a (n_watchers n) ∧ w ≠ a ∧ local_actors (n_registry n) !! w = Some hw ∧ m = (sender hw, (a, reason)).
Proof.
  intros Hn Hl <-. rewrite (run_stop_registered _ _ _ _ _ Hn Hl). set (ws := get_watchers _ _). cbv zeta. split_and!.
  - simpl. set_solver.
  - unfold after_stop. simpl. by rewrite lookup_delete_eq.
  - unfold get_watchers. simpl. by rewrite lookup_delete_eq.
  - eexists. split; [reflexivity|]. unfold told. simpl. fold ws. split.
    + unfold size, set_size, compose. rewrite <- (Permutation_length (shuffle_perm (elements ws))).
      apply length_omap_le.
    + intros m. rewrite list_elem_of_omap. setoid_rewrite shuffle_perm. setoid_rewrite elem_of_elements. split.
      * intros (w & Hw & [hw [Hlw ->]]%fmap_Some). apply lookup_delete_Some in Hlw as [Hne Hlw]. exists w, hw. split_and!; auto.
      * intros (w & hw & Hw & Hne & Hlw & ->). exists w. split; [done|]. rewrite lookup_delete_ne by done. by rewrite Hlw.
Qed.

Lemma forget_added (x : Z) (X : gset Z) : ({[x]} ∪ X) ∖ {[x]} = X ∖ {[x]}.
Proof. set_solver. Qed.

(** Spawning under a free name. *)
Definition spawned (p : ActorPath) (a : ActorId) (s : nat) (md : gmap (list Z) (list Z)) (publish : bool) n : Node B :=
  mk_node
    (mk_registry (<[a := mk_handle a s (Some p)]> (local_actors (n_registry n))) (<[as_str p := a]> (actor_names (n_registry n)))
       (<[as_str p := as_str p]> (named_actor_paths (n_registry n))))
    (if publish then nb_register_actor a <$> ((if bool_decide (md = ∅) then nb_register_named p else nb_register_named_full p a md) <$> n_cluster n)
     else n_cluster n)
    (n_watchers n) (n_cancelled n) (n_ended n) (n_sends n) (n_state n) (n_token n).

Lemma run_spawn_free p a s md publish n : actor_names (n_registry n) !! as_str p = None →
  run (spawn_internal (Some p) a s md publish) n = (spawned p a s md publish n, Ok (LocalRef a s)).
Proof.
  intros Hn. assert (Hfree : bool_decide (is_Some (actor_names (n_registry n) !! as_str p)) = false)
    by (apply bool_decide_false; rewrite Hn; apply is_Some_None).
  unfold spawn_internal, mbind, prog_mbind. simpl. unfold has_name. simpl. rewrite Hfree. simpl. unfold spawned, on_registry, on_cluster.
  destruct publish; simpl; rewrite Hfree; done.
Qed.

Lemma find_named p a s md publish n : find_actor_sender (as_str p) (n_registry (spawned p a s md publish n)) = Some s.
Proof. unfold find_actor_sender. simpl. rewrite lookup_insert_eq. simpl. by rewrite lookup_insert_eq. Qed.

(** C2: An actor spawned under a free path answers to it: messages for the path or
    for the name go to its mailbox. Stopping it undoes the spawn: the registry
    is what it was, a message for the path finds nothing, and the cluster no
    longer lists this node for the path, and lists all others as before. *)
Theorem spawn_then_stop p a s md publish reason n c :
  actor_names (n_registry n) !! as_str p = None → named_actor_paths (n_registry n) !! as_str p = None →
  local_actors (n_registry n) !! a = None → n_cluster n = Some c → nb_wf c →
  let n1 := (run (spawn_internal (Some p) a s md publish) n).1 in
  let n2 := (run (stop_with_reason (as_str p) reason) n1).1 in
  dispatch_sender (lit "/named/" ++ as_str p) (n_registry n1) = Ok s ∧
  dispatch_sender (lit "/actors/" ++ as_str p) (n_registry n1) = Ok s ∧
  n_registry n2 = n_registry n ∧
  dispatch_sender (lit "/named/" ++ as_str p) (n_registry n2) = Err (DispatchNamedNotFound (as_str p)) ∧
  ∃ c2, n_cluster n2 = Some c2 ∧
    ∀ q, nb_nodes q c2 = if decide (as_str p = as_str q) then nb_nodes q c ∖ {[nb_local_node c]} else nb_nodes q c.
Proof.
  intros Hn Hp Ha Hc Hw. cbv zeta. rewrite (run_spawn_free _ _ _ _ _ _ Hn). cbn [fst].
  set (n1 := spawned p a s md publish n).
  assert (Hn1 : actor_names (n_registry n1) !! as_str p = Some a) by apply lookup_insert_eq.
  assert (Hl1 : local_actors (n_registry n1) !! a = Some (mk_handle a s (Some p))) by apply lookup_insert_eq.
  rewrite (run_stop_registered _ _ _ _ _ Hn1 Hl1).
  assert (Hpath : get_actor_name_by_path (as_str p) (n_registry n1) = Some (as_str p)) by apply lookup_insert_eq.
  assert (Hreg : n_registry (after_stop a (Some p) reason
    (on_registry (λ r, mk_registry (delete a (local_actors r)) (delete (as_str p) (actor_names r)) (named_actor_paths r)) n1)) = n_registry n).
  { simpl. rewrite !delete_insert_id by done. by destruct (n_registry n). }
  split_and!.
  - unfold dispatch_sender. change (strip_prefix (lit "/actors/") (lit "/named/" ++ as_str p)) with (@None (list Z)). cbv iota.
    rewrite strip_prefix_app, Hpath. unfold find_sender, n1. by rewrite find_named.
  - unfold dispatch_sender. rewrite strip_prefix_app. unfold find_sender, n1. by rewrite find_named.
  - exact Hreg.
  - cbn [actor_id named_path]. rewrite Hreg. unfold dispatch_sender. change (strip_prefix (lit "/actors/") (lit "/named/" ++ as_str p)) with (@None (list Z)). cbv iota.
    rewrite strip_prefix_app. unfold get_actor_name_by_path. by rewrite Hp.
  - simpl. rewrite Hc.
    set (c1 := if publish then nb_register_actor a ((if bool_decide (md = ∅) then nb_register_named p else nb_register_named_full p a md) c) else c).
    assert (Hc1 : (if publish then nb_register_actor a <$> ((if bool_decide (md = ∅) then nb_register_named p else nb_register_named_full p a md) <$> Some c) else Some c) = Some c1)
      by (unfold c1; by destruct publish).
    rewrite Hc1. eexists. split; [reflexivity|]. intros q.
    assert (H1 : nb_wf c1 ∧ nb_local_node c1 = nb_local_node c ∧
      (nb_nodes q c1 = nb_nodes q c ∨ as_str p = as_str q ∧ nb_nodes q c1 = {[nb_local_node c]} ∪ nb_nodes q c)).
    { unfold c1. destruct publish; [|by auto]. case_bool_decide.
      - destruct (dir_register_legacy p c Hw) as (Hw1 & [Hl _] & _). destruct (dir_register_actor a _ Hw1) as (Hw2 & [Hl2 _] & Hnm & _).
        split_and!; [done|congruence|]. unfold nb_nodes at 1 3. rewrite Hnm. fold (nb_nodes q (nb_register_named p c)).
        rewrite nb_register_legacy_nodes by done. case_decide; auto.
      - destruct (nb_register_keeps p a md c Hw) as (Hw1 & Hl & _). destruct (dir_register_actor a _ Hw1) as (Hw2 & [Hl2 _] & Hnm & _).
        split_and!; [done|congruence|]. unfold nb_nodes at 1 3. rewrite Hnm. fold (nb_nodes q (nb_register_named_full p a md c)).
        rewrite nb_register_nodes by done. case_decide; auto. }
    destruct H1 as (Hw1 & Hl1' & Hq). destruct (dir_failed p (reason_text reason) c1 Hw1) as (_ & _ & _ & _ & Hf). rewrite Hf.
    rewrite nb_unregister_nodes, Hl1' by done. destruct (decide (as_str p = as_str q)) as [Hpq|Hpq]; destruct Hq as [-> | [? ->]]; [done|apply forget_added|done|done].
Qed.
(** The cluster keeps the id of a stopped actor: spawning a named actor lists
    its id for this node, stopping it withdraws the path and never the id, so the
    id still resolves to this node. (An anonymous actor's id is withdrawn, and was
    never listed.) *)
Theorem stopped_id_stays_listed p a s reason n c :
  actor_names (n_registry n) !! as_str p = None → n_cluster n = Some c → nb_wf c → nb_own_instance p c = None →
  let n1 := (run (spawn_internal (Some p) a s ∅ true) n).1 in
  let n2 := (run (stop_with_reason (as_str p) reason) n1).1 in
  ∃ c2, n_cluster n2 = Some c2 ∧ nb_lookup_actor a c2 = nb_get_member (nb_local_node c) c.
Proof.
  intros Hn Hc Hw Hown. cbv zeta. rewrite (run_spawn_free _ _ _ _ _ _ Hn). cbn [fst]. set (n1 := spawned p a s ∅ true n).
  rewrite (run_stop_registered (as_str p) a (mk_handle a s (Some p)) reason n1) by apply lookup_insert_eq. simpl. rewrite Hc.
  rewrite bool_decide_true by done. simpl. eexists. split; [reflexivity|].
  destruct (dir_register_legacy p c Hw) as (Hw1 & [Hl1 Hm1] & _ & Ho1). set (c1 := nb_register_named p c) in *.
  destruct (dir_register_actor a c1 Hw1) as (Hw2 & [Hl2 Hm2] & Hnm & Ha). set (c2 := nb_register_actor a c1) in *.
  assert (Ho2 : nb_own_instance p c2 = None) by (unfold nb_own_instance; rewrite Hnm, Hl2; fold (nb_own_instance p c1); by rewrite Ho1).
  destruct (dir_failed p (reason_text reason) c2 Hw2) as (Hw3 & _ & Hid & Ho3 & _).
  rewrite dir_unregister_legacy by auto. rewrite Hid, Ha, decide_True by done. rewrite Hl1, Hm1. done.
Qed.

(** ** Shutting down *)

(** Handles are kept under their ids. *)
Definition keyed n : Prop := map_Forall (λ a h, actor_id h = a) (local_actors (n_registry n)).

Definition stop_entry n (e : ActorId * str * option ActorPath) : Node B :=
  let '(a, name, path) := e in
  let n2 := on_registry (λ r, mk_registry (delete a (local_actors r)) (delete name (actor_names r)) (named_actor_paths r)) n in
  match local_actors (n_registry n) !! a with Some h => after_stop (actor_id h) path SystemShutdown n2 | None => n2 end.

Lemma run_stop_entries es n : run (stop_entries es) n = (foldl stop_entry n es, tt).
Proof.
  revert n. induction es as [|[[a name] path] es IH]; intros n; [done|].
  set (m := on_registry (λ r, (remove_handle a r).2) (on_registry (λ r, (remove_by_name name r).2) n)).
  simpl. unfold mbind, prog_mbind. simpl. destruct (local_actors (n_registry n) !! a) as [h|]; simpl; [|apply IH].
  etransitivity; [exact (run_bind (λ _, stop_entries es) (stop_local_actor h path SystemShutdown) m)|].
  rewrite run_stop_local. apply IH.
Qed.

(** What the loop keeps and what it makes of every actor it meets. *)
Lemma stop_entry_keeps n e : keyed n →
  keyed (stop_entry n e) ∧ n_state (stop_entry n e) = n_state n ∧ n_token (stop_entry n e) = n_token n ∧ n_cancelled n ⊆ n_cancelled (stop_entry n e).
Proof.
  intros Hk. destruct e as [[b name] path]. unfold stop_entry.
  assert (Hk' : map_Forall (λ a h, actor_id h = a) (delete b (local_actors (n_registry n)))) by by apply map_Forall_delete.
  destruct (local_actors (n_registry n) !! b) as [hb|] eqn:Eb; simpl; split_and!; try done; set_solver.
Qed.
Lemma stop_entry_meets n e a h : keyed n → local_actors (n_registry n) !! a = Some h →
  if decide (a = e.1.1) then a ∈ n_cancelled (stop_entry n e) else local_actors (n_registry (stop_entry n e)) !! a = Some h.
Proof.
  intros Hk Ha. destruct e as [[b name] path]. unfold stop_entry. simpl.
  destruct (local_actors (n_registry n) !! b) as [hb|] eqn:Eb; simpl; case_decide as Hab; subst.
  - rewrite (Hk _ _ Eb). set_solver.
  - by rewrite lookup_delete_ne.
  - congruence.
  - by rewrite lookup_delete_ne.
Qed.

Lemma stop_entries_keep es n : keyed n →
  n_state (foldl stop_entry n es) = n_state n ∧ n_token (foldl stop_entry n es) = n_token n ∧ n_cancelled n ⊆ n_cancelled (foldl stop_entry n es).
Proof.
  revert n. induction es as [|e es IH]; intros n Hk; [done|]. simpl. destruct (stop_entry_keeps n e Hk) as (Hk' & Hs & Ht & Hc).
  destruct (IH _ Hk') as (-> & -> & Hc'). split_and!; [done|done|set_solver].
Qed.
Lemma stop_entries_cancel es n a h : keyed n → local_actors (n_registry n) !! a = Some h → a ∈ es.*1.*1 → a ∈ n_cancelled (foldl stop_entry n es).
Proof.
  revert n. induction es as [|e es IH]; intros n Hk Ha Hin; [by apply not_elem_of_nil in Hin|]. simpl.
  destruct (stop_entry_keeps n e Hk) as (Hk' & _). pose proof (stop_entry_meets n e a h Hk Ha) as Hm. case_decide as Hae.
  - destruct (stop_entries_keep es _ Hk') as (_ & _ & Hc). set_solver.
  - apply IH; [done|done|]. cbn [fmap list_fmap] in Hin. apply elem_of_cons in Hin as [?|?]; done.
Qed.

Lemma entries_actors r a : is_Some (local_actors r !! a) → a ∈ (actor_entries r).*1.*1.
Proof.
  intros [h Hh]. unfold actor_entries. rewrite <- !list_fmap_compose. apply list_elem_of_fmap. exists (a, h). split; [done|]. by apply elem_of_hm_iter.
Qed.

Lemma run_transition fuel next n : n_state n = next ∨ can_transition_to (n_state n) next = true →
  run (transition (S fuel) next) n = (set_node_state next n, Some (Ok tt)).
Proof.
  intros Hs. simpl. unfold mbind, prog_mbind. simpl. case_bool_decide as Hc; [simpl; subst; by destruct n|].
  destruct Hs as [?|Hs]; [done|]. rewrite Hs. simpl. by rewrite bool_decide_true.
Qed.

(** Shutting down ends in [Stopped] from any state: every actor of the node is
    cancelled, the registry and the watches are empty, and nothing is left
    that a message could reach. *)
Theorem shutdown_stops_everything fuel n :
  keyed n →
  let n' := (run (shutdown (S fuel)) n).1 in
  (run (shutdown (S fuel)) n).2 = Some (Ok tt) ∧ n_state n' = NodeStopped ∧ n_token n' = true ∧
  n_registry n' = ActorRegistry_new ∧ n_watchers n' = ∅ ∧
  (∀ a, is_Some (local_actors (n_registry n) !! a) → a ∈ n_cancelled n') ∧
  ∀ path, ∃ e, dispatch_sender path (n_registry n') = Err e.
Proof.
  intros Hk. set (s1 := match n_state n with NodeStopped => NodeStopped | _ => Draining end).
  assert (Hd : run (begin_draining (S fuel)) n = (set_node_state s1 n, Some (Ok tt))).
  { unfold begin_draining, mbind, prog_mbind. cbn [run read prog_bind]. unfold s1. destruct (n_state n) eqn:E;
      try (rewrite run_transition by (rewrite E; auto); done); simpl; rewrite <- E; by destruct n. }
  set (n1 := cancel_all (set_node_state s1 n)). set (es := actor_entries (n_registry n)). set (n2 := foldl stop_entry n1 es).
  assert (Hk1 : keyed n1) by done. destruct (stop_entries_keep es n1 Hk1) as (Hs2 & Ht2 & _). fold n2 in Hs2, Ht2.
  set (n3 := on_cluster nb_leave (on_watchers clear_watchers (on_registry registry_clear n2))).
  assert (Hrun : run (shutdown (S fuel)) n = (set_node_state NodeStopped n3, Some (Ok tt))).
  { unfold shutdown, mbind, prog_mbind. rewrite run_bind, Hd. cbn [run write read prog_bind fst snd].
    rewrite run_bind, run_stop_entries. cbn [run write read prog_bind fst snd].
    change (foldl stop_entry (cancel_all (set_node_state s1 n)) (actor_entries (n_registry (cancel_all (set_node_state s1 n))))) with n2.
    assert (Hs3 : n_state n3 = s1) by exact Hs2. apply (run_transition fuel NodeStopped n3). rewrite Hs3. unfold s1.
    destruct (n_state n); auto. }
  cbv zeta. rewrite Hrun. cbn [fst snd]. split_and!; try done.
  - intros a Ha. pose proof (entries_actors _ _ Ha) as Hin. destruct Ha as [h Ha]. by apply (stop_entries_cancel es n1 a h).
  - intros path. simpl. unfold dispatch_sender. destruct (strip_prefix _ path) as [name|].
    + unfold find_sender, find_actor_sender. simpl. destruct (parse_str name) as [b|]; simpl; eauto.
    + destruct (strip_prefix _ path) as [q|]; simpl; eauto.
Qed.
End Alone.

(** ** Calls that interleave *)
Section Together.
Context `{Uuid} `{NamingBackend B, !ActorDirectory B} {OR : Oracle}.
Implicit Types n : Node B.

(** Calls that stop nothing, and the end of a task. *)
Inductive Op :=
  | OSpawn (path : option ActorPath) (a : ActorId) (s : nat) (md : gmap (list Z) (list Z)) (publish : bool)
  | OWatch (watcher target : ActorId)
  | OUnwatch (watcher target : ActorId)
  | OTaskEnds (a : ActorId).
Definition op_prog (o : Op) : prog (Node B) unit :=
  match o with
  | OSpawn path a s md publish => spawn_internal path a s md publish ≫= λ _, Ret tt
  | OWatch w t => system_watch w t ≫= λ _, Ret tt
  | OUnwatch w t => system_unwatch w t ≫= λ _, Ret tt
  | OTaskEnds a => write (end_task a)
  end.

(** Fresh ids: not the actor's, and not written like its name. *)
Definition apart (name : str) (a : ActorId) (o : Op) : Prop :=
  match o with OSpawn _ b _ _ _ => b ≠ a ∧ simple b ≠ name | _ => True end.

Definition undisturbed (name : str) (a : ActorId) (h : LocalActorHandle) n n' : Prop :=
  n_sends n' = n_sends n ∧ (actor_names (n_registry n) !! name = Some a → actor_names (n_registry n') !! name = Some a) ∧
  (local_actors (n_registry n) !! a = Some h → local_actors (n_registry n') !! a = Some h).

Lemma op_undisturbed name a h o : apart name a o → within (undisturbed name a h) (op_prog o).
Proof.
  unfold undisturbed. destruct o as [path b s md publish|w t|w t|b]; cbn [op_prog apart]; [intros [Hb Hn]|intros _..].
  - unfold spawn_internal. within_tree; simpl; rewrite ?lookup_insert_ne, ?lookup_delete_ne by done; try done.
    unfold has_name. case_bool_decide as Hd; simpl; [done|]. split_and!; [done| |done]. intros Ha. rewrite lookup_insert_ne; [done|].
    intros <-. by rewrite Ha in Hd; destruct Hd.
  - unfold system_watch. within_tree; done.
  - unfold system_unwatch. within_tree; done.
  - within_tree; done.
Qed.

(** Nobody is told when an actor's task ends by itself, by a panic or a failed
    start: as long as nothing is stopped no watcher gets a message, and the dead
    actor keeps its name and its handle, so that a new spawn under the name is
    refused. *)
Theorem crash_is_not_reported name a h ops n ps n' :
  actor_names (n_registry n) !! name = Some a → local_actors (n_registry n) !! a = Some h → Forall (apart name a) ops →
  rtc pstep (op_prog <$> ops, n) (ps, n') →
  n_sends n' = n_sends n ∧ actor_names (n_registry n') !! name = Some a ∧ local_actors (n_registry n') !! a = Some h ∧
  ∀ p b s md publish, as_str p = name → ∃ m, run (spawn_internal (Some p) b s md publish) n' = (m, Err (ActorAlreadyExists name)).
Proof.
  intros Hn Hl Hops Hr.
  destruct (pool_keeps (λ m, n_sends m = n_sends n ∧ actor_names (n_registry m) !! name = Some a ∧ local_actors (n_registry m) !! a = Some h)
    _ _ _ _ Hr) as [_ (Hs & Hn' & Hl')]; [|done|].
  { apply Forall_fmap. eapply Forall_impl; [exact Hops|]. intros o Ho. eapply within_keeps; [by apply (op_undisturbed name a h)|].
    intros m m' (H1 & H2 & H3) (H4 & H5 & H6). split_and!; [congruence|auto..]. }
  split_and!; [done..|]. intros p b s md publish <-. unfold spawn_internal, mbind, prog_mbind. simpl. unfold has_name. simpl.
  rewrite bool_decide_true by eauto. simpl. rewrite bool_decide_true by eauto. simpl. rewrite lookup_insert_eq. simpl. by eexists.
Qed.

(** ** Spawns that race for a name *)
Section Race.
Context (p : ActorPath) (md : gmap (list Z) (list Z)) (publish : bool) (spawns : list (ActorId * nat)).
Hypothesis Hdistinct : NoDup spawns.*1.

Definition racer (a : ActorId) (s : nat) : prog (Node B) unit := op_prog (OSpawn (Some p) a s md publish).
Definition quiet n n' : Prop := local_actors (n_registry n') = local_actors (n_registry n) ∧ actor_names (n_registry n') = actor_names (n_registry n).
Notation holder n := (actor_names (n_registry n) !! as_str p).
Notation actor n a := (local_actors (n_registry n) !! a).

Definition refuse (a : ActorId) : prog (Node B) (Result ActorRef SpawnError) :=
  dropped ← take_registry (remove_handle a);
  match dropped with Some _ => write (cancel a) | None => Ret tt end;;
  Ret (Err (ActorAlreadyExists (as_str p))).

(** Where a racer stands: before it registered, before it asks for the name,
    before it gives the handle back, or decided. *)
Definition stands (a : ActorId) (s : nat) (q : prog (Node B) unit) n : Prop :=
  (q = racer a s ∧ actor n a = None ∧ holder n ≠ Some a) ∨
  ((∃ n0, q = (first_accesses 1 (racer a s) n0).1) ∧ actor n a = Some (mk_handle a s (Some p)) ∧ holder n ≠ Some a) ∨
  (q = (refuse a ≫= λ _, Ret tt) ∧ actor n a = Some (mk_handle a s (Some p)) ∧ ∃ b, b ≠ a ∧ holder n = Some b) ∨
  (within quiet q ∧ (actor n a = Some (mk_handle a s (Some p)) ∧ holder n = Some a ∨ actor n a = None ∧ ∃ b, b ≠ a ∧ holder n = Some b)).

(** What a racer's access does to the others. *)
Definition races (a : ActorId) n n' : Prop :=
  (∀ c, c ≠ a → actor n' c = actor n c) ∧ (holder n' = holder n ∨ holder n = None ∧ holder n' = Some a).

Lemma stands_own a s f n : stands a s (Act f) n → stands a s (f n).2 (f n).1 ∧ races a n (f n).1.
Proof.
  intros [(Hq & Ha & Hh)|[([n0 Hq] & Ha & Hh)|[(Hq & Ha & b & Hb & Hh)|(Hq & Hd)]]].
  - unfold racer, op_prog, spawn_internal, mbind, prog_mbind in Hq. simpl in Hq. injection Hq as ->. simpl. split.
    + right; left. split_and!; [by exists n| |done]. apply lookup_insert_eq.
    + split; [|by left]. intros c Hc. simpl. by rewrite lookup_insert_ne.
  - unfold racer, op_prog, spawn_internal, mbind, prog_mbind in Hq. simpl in Hq. injection Hq as ->. simpl. unfold has_name.
    destruct (holder n) as [b|] eqn:Eh.
    + assert (Ho : bool_decide (is_Some (holder n)) = true) by (apply bool_decide_true; rewrite Eh; eauto).
      assert (Hs : bool_decide (is_Some (Some b)) = true) by by apply bool_decide_true; eauto.
      split; [|split; [intros c Hc; simpl; by rewrite Ho|left; simpl; by rewrite Ho]].
      rewrite Hs. right; right; left. simpl. rewrite Ho. simpl. split_and!; [done|done|]. exists b. split; [congruence|done].
    + assert (Ho : bool_decide (is_Some (holder n)) = false) by (apply bool_decide_false; rewrite Eh; apply is_Some_None).
      assert (Hs : bool_decide (is_Some (@None ActorId)) = false) by by apply bool_decide_false; apply is_Some_None.
      rewrite Hs. split.
      * right; right; right. split; [|left; simpl; rewrite Ho; simpl; by rewrite lookup_insert_eq].
        change (within quiet ((write (on_registry (register_named_path (as_str p) (as_str p)));;
          (if publish then
             write (on_cluster (if bool_decide (md = ∅) then nb_register_named p else nb_register_named_full p a md));;
             write (on_cluster (nb_register_actor a))
           else Ret tt);;
          Ret (Ok (LocalRef a s) : Result ActorRef SpawnError)) ≫= λ _, Ret tt)). within_tree; by split.
      * split; [intros c Hc; simpl; by rewrite Ho|]. right. simpl. rewrite Ho. simpl. by rewrite lookup_insert_eq.
  - unfold refuse, mbind, prog_mbind in Hq. simpl in Hq. injection Hq as ->. simpl. split.
    + right; right; right. split.
      * rewrite Ha. simpl. apply within_act; intros m; [done|apply within_ret].
      * right. simpl. rewrite lookup_delete_eq. eauto.
    + split; [|by left]. intros c Hc. simpl. by rewrite lookup_delete_ne.
  - inversion Hq as [|? Hf Hq']; subst. destruct (Hf n) as [H1 H2]. split; [right; right; right; split; [done|by rewrite H1, H2]|].
    split; [by rewrite H1|left; by rewrite H2].
Qed.

Lemma stands_other a b s q n n' : a ≠ b → races a n n' → stands b s q n → stands b s q n'.
Proof.
  intros Hab [Ha Hh]. unfold stands. rewrite (Ha b) by done.
  intros [(Hq & Hb & Hn)|[(Hq & Hb & Hn)|[(Hq & Hb & c & Hc & Hn)|(Hq & [[Hb Hn]|[Hb (c & Hc & Hn)]])]]];
    destruct Hh as [-> | [Hh0 ->]]; rewrite ?Hh0 in *; naive_solver.
Qed.

(** Of any number of spawns that race for a free name exactly one gets it: its
    actor holds the name and is registered, and the others are not. *)
Theorem spawn_race_one_winner n ps n' :
  spawns ≠ [] → holder n = None → (∀ a s, (a, s) ∈ spawns → actor n a = None) →
  rtc pstep ((λ x, racer x.1 x.2) <$> spawns, n) (ps, n') → finished ps →
  ∃ a s, (a, s) ∈ spawns ∧ holder n' = Some a ∧ actor n' a = Some (mk_handle a s (Some p)) ∧
    ∀ b t, (b, t) ∈ spawns → b ≠ a → actor n' b = None.
Proof.
  intros Hne Hfree Hfresh Hr Hfin.
  set (J i q m := ∃ a s, spawns !! i = Some (a, s) ∧ stands a s q m ∧ (holder m = None ∨ ∃ b, b ∈ spawns.*1 ∧ holder m = Some b)).
  assert (HJ : ∀ i q, ps !! i = Some q → J i q n').
  { apply (pool_assertions J ((λ x, racer x.1 x.2) <$> spawns) n ps n'); [..|exact Hr|].
    - intros i f m (a & s & Hi & Hs & Hm). destruct (stands_own _ _ _ _ Hs) as [Hs' [_ Hh]]. exists a, s. split_and!; [done..|].
      destruct Hh as [-> | [_ ->]]; [done|]. right. exists a. split; [|done]. apply list_elem_of_fmap. exists (a, s). split; [done|].
      by eapply list_elem_of_lookup_2.
    - intros i j f q m Hij (a & s & Hi & Hs & Hm) (b & t & Hj & Hs' & Hm'). destruct (stands_own _ _ _ _ Hs) as [_ Hrace].
      exists b, t. split_and!; [done| |].
      + apply (stands_other a b t q m); [|done|done]. intros ->. apply Hij.
        apply (NoDup_lookup spawns.*1 i j b Hdistinct); rewrite list_lookup_fmap; [by rewrite Hi|by rewrite Hj].
      + destruct Hrace as [_ [-> | [_ ->]]]; [done|]. right. exists a. split; [|done]. apply list_elem_of_fmap. exists (a, s). split; [done|].
        by eapply list_elem_of_lookup_2.
    - intros i q Hi. rewrite list_lookup_fmap in Hi. destruct (spawns !! i) as [[a s]|] eqn:E; [|done]. injection Hi as <-.
      exists a, s. split_and!; [done| |by left]. left. split_and!; [done| |by rewrite Hfree]. eapply Hfresh. by eapply list_elem_of_lookup_2. }
  assert (Hlen : length ps = length spawns).
  { rewrite (pool_length _ _ _ _ Hr). apply length_fmap. }
  assert (Hend : ∀ i a s, spawns !! i = Some (a, s) → stands a s (Ret tt) n' ∧ (holder n' = None ∨ ∃ b, b ∈ spawns.*1 ∧ holder n' = Some b)).
  { intros i a s Hi. pose proof (lookup_lt_Some _ _ _ Hi) as Hlt. rewrite <- Hlen in Hlt. apply lookup_lt_is_Some in Hlt as [q Hq].
    pose proof (Forall_lookup_1 _ _ _ _ Hfin Hq) as ->. destruct (HJ _ _ Hq) as (a' & s' & Hi' & Hs & Hm). rewrite Hi in Hi'. by injection Hi' as <- <-. }
  assert (Hdecided : ∀ i a s, spawns !! i = Some (a, s) → actor n' a = Some (mk_handle a s (Some p)) ∧ holder n' = Some a ∨ actor n' a = None ∧ ∃ b, b ≠ a ∧ holder n' = Some b).
  { intros i a s Hi. destruct (Hend i a s Hi) as [[(Hq & _)|[([n0 Hq] & _)|[(Hq & _)|(_ & Hd)]]] _]; [by discriminate Hq..|done]. }
  destruct spawns as [|[a0 s0] rest] eqn:Esp; [done|].
  assert (Hholder : ∃ a, holder n' = Some a ∧ a ∈ ((a0, s0) :: rest).*1).
  { destruct (Hend O a0 s0 eq_refl) as [_ [Hm|(b & Hb & Hm)]]; [|by exists b].
    destruct (Hdecided O a0 s0 eq_refl) as [[_ Hd]|[_ (b & _ & Hd)]]; congruence. }
  destruct Hholder as (a & Ha & ([? s] & -> & Hin)%list_elem_of_fmap). simpl in *. exists z, s.
  destruct (list_elem_of_lookup_1 _ _ Hin) as [i Hi]. split_and!; [done|done| |].
  - destruct (Hdecided i z s Hi) as [[? _]|[_ (b & Hb & Hd)]]; [done|congruence].
  - intros b t Hbt Hne'. destruct (list_elem_of_lookup_1 _ _ Hbt) as [j Hj]. destruct (Hdecided j b t Hj) as [[_ ?]|[? _]]; [congruence|done].
Qed.
End Race.
End Together.

(** ** A spawn in the middle of a stop *)
Section Clobber.
Context `{Uuid} `{NL : NamingLaws B} {AD : ActorDirectory B} {DL : DirectoryLaws B} {OR : Oracle}.
Implicit Types n : Node B.

Definition taken (name : str) (a : ActorId) n : Node B :=
  on_registry (λ r, (remove_handle a r).2) (on_registry (λ r, (remove_by_name name r).2) n).
Lemma stop_takes_first name a h reason n :
  actor_names (n_registry n) !! name = Some a → local_actors (n_registry n) !! a = Some h →
  first_accesses 3 (stop_with_reason name reason) n = (stop_local_actor h (named_path h) reason, taken name a n).
Proof.
  intros Hn Hl. unfold stop_with_reason, stop_taken, actual_name, mbind, prog_mbind. simpl. unfold has_name.
  rewrite bool_decide_true by eauto. simpl. rewrite Hn. simpl. by rewrite Hl.
Qed.

(** A spawn that comes while a stop of the same name waits for the old task
    succeeds, and then the stop withdraws the new actor's path: it runs and holds
    its name, but a message for the path finds nothing, stopping by the path
    does nothing, and the cluster does not list it. *)
Theorem respawn_during_stop_is_unlisted p a b s t md reason n c :
  actor_names (n_registry n) !! as_str p = Some a → local_actors (n_registry n) !! a = Some (mk_handle a s (Some p)) →
  a ≠ b → n_cluster n = Some c → nb_wf c →
  ∃ n' c', rtc pstep ([stop_with_reason (as_str p) reason; op_prog (OSpawn (Some p) b t md true)], n) ([Ret tt; Ret tt], n') ∧
    actor_names (n_registry n') !! as_str p = Some b ∧ local_actors (n_registry n') !! b = Some (mk_handle b t (Some p)) ∧
    dispatch_sender (lit "/named/" ++ as_str p) (n_registry n') = Err (DispatchNamedNotFound (as_str p)) ∧
    run (stop_named_with_reason p reason) n' = (n', tt) ∧
    n_cluster n' = Some c' ∧ nb_local_node c ∉ nb_nodes p c'.
Proof.
  intros Hn Hl Hab Hc Hw. set (h := mk_handle a s (Some p)) in *. set (stop := stop_with_reason (as_str p) reason).
  set (spawn := op_prog (OSpawn (Some p) b t md true)). set (n1 := taken (as_str p) a n).
  assert (Hfree : actor_names (n_registry n1) !! as_str p = None) by apply lookup_delete_eq.
  set (n2 := spawned p b t md true n1). set (n3 := after_stop a (Some p) reason n2).
  assert (H1 : rtc pstep ([stop; spawn], n) ([stop_local_actor h (Some p) reason; spawn], n1)).
  { pose proof (run_first 3 [stop; spawn] 0 stop n eq_refl) as Hf. unfold stop in *. rewrite (stop_takes_first _ _ _ _ _ Hn Hl) in Hf. exact Hf. }
  assert (H2 : rtc pstep ([stop_local_actor h (Some p) reason; spawn], n1) ([stop_local_actor h (Some p) reason; Ret tt], n2)).
  { pose proof (run_thread [stop_local_actor h (Some p) reason; spawn] 1 spawn n1 eq_refl) as Hf. unfold spawn in *. cbn [op_prog] in *.
    unfold mbind, prog_mbind in Hf |- *. rewrite run_bind, (run_spawn_free _ _ _ _ _ _ Hfree) in Hf. exact Hf. }
  assert (H3 : rtc pstep ([stop_local_actor h (Some p) reason; Ret tt], n2) ([Ret tt; Ret tt], n3)).
  { pose proof (run_thread [stop_local_actor h (Some p) reason; Ret tt] 0 _ n2 eq_refl) as Hf. by rewrite run_stop_local in Hf. }
  set (c1 := nb_register_actor b ((if bool_decide (md = ∅) then nb_register_named p else nb_register_named_full p b md) c)).
  assert (Hc1 : nb_wf c1 ∧ nb_local_node c1 = nb_local_node c).
  { unfold c1. assert (Hw0 : nb_wf ((if bool_decide (md = ∅) then nb_register_named p else nb_register_named_full p b md) c) ∧
      nb_local_node ((if bool_decide (md = ∅) then nb_register_named p else nb_register_named_full p b md) c) = nb_local_node c).
    { case_bool_decide; [destruct (dir_register_legacy p c Hw) as (? & [? _] & _)|destruct (nb_register_keeps p b md c Hw) as (? & ? & _)]; done. }
    destruct Hw0 as [Hw0 Hl0]. destruct (dir_register_actor b _ Hw0) as (? & [? _] & _). split; [done|congruence]. }
  destruct Hc1 as [Hw1 Hl1]. destruct (dir_failed p (reason_text reason) c1 Hw1) as (_ & _ & _ & _ & Hf).
  exists n3, (nb_unregister_named p (nb_named_failed p (reason_text reason) c1)). split_and!.
  - etrans; [exact H1|]. etrans; [exact H2|exact H3].
  - simpl. by rewrite lookup_insert_eq.
  - simpl. by rewrite lookup_insert_eq.
  - unfold dispatch_sender. change (strip_prefix (lit "/actors/") (lit "/named/" ++ as_str p)) with (@None (list Z)). cbv iota.
    rewrite strip_prefix_app. unfold get_actor_name_by_path. simpl. by rewrite lookup_delete_eq.
  - unfold stop_named_with_reason, mbind, prog_mbind. simpl. unfold get_actor_name_by_path. simpl. by rewrite lookup_delete_eq.
  - simpl. by rewrite Hc.
  - rewrite Hf, nb_unregister_nodes, decide_True, Hl1 by done. set_solver.
Qed.
End Clobber.

(** ** Instances *)
Section Examples.
Definition quiet_link : Link := mk_link (λ _, true) (λ _ _, true) None.
#[local] Instance ex_naming : NamingBackend HeadNodeBackend := head_naming quiet_link.
#[local] Instance ex_laws : NamingLaws HeadNodeBackend := head_laws quiet_link.
#[local] Instance ex_directory : ActorDirectory HeadNodeBackend := head_directory quiet_link.
#[local] Instance ex_directory_laws : DirectoryLaws HeadNodeBackend := head_directory_laws quiet_link.

(** A node with a named actor 7, watched by the anonymous actor 8. *)
Definition idle_node : Node HeadNodeBackend :=
  mk_node ActorRegistry_new (Some example_cluster) ∅ ∅ ∅ [] Ready false.
Definition busy_node : Node HeadNodeBackend :=
  mk_node
    (reg_register_actor 8 (mk_handle 8 1 None) (register_name (lit "eight") 8
      (reg_register_actor 7 (mk_handle 7 0 (Some router_path)) (register_name (as_str router_path) 7 (register_named_path (as_str router_path) (as_str router_path) ActorRegistry_new)))))
    (Some example_cluster) {[7 := {[8]}]} ∅ ∅ [] Ready false.

Lemma no_way_back_witness :
  ∃ n', n_state n' = NodeStopped ∧
    rtc pstep ((λ c, prog_bind (λ _, Ret tt) (transition c.1 c.2)) <$> [(1%nat, NodeStopped); (1%nat, Ready)], set_node_state Draining idle_node)
      ([Ret tt; Ret tt], n') ∧ (closing Draining → n_state n' ≠ Ready).
Proof.
  set (calls := [(1%nat, NodeStopped); (1%nat, Ready)]).
  set (ps := (λ c, prog_bind (λ _, Ret tt) (transition c.1 c.2)) <$> calls : list (prog (Node HeadNodeBackend) unit)).
  pose proof (run_in_turn ps (set_node_state Draining idle_node)) as Hr.
  exists (set_node_state NodeStopped idle_node). split; [done|].
  assert (Hr' : rtc pstep (ps, set_node_state Draining idle_node) ([Ret tt; Ret tt], set_node_state NodeStopped idle_node)) by exact Hr.
  split; [exact Hr'|]. destruct (no_way_back calls (set_node_state Draining idle_node) _ _ Hr') as (_ & Hc & _). exact Hc.
Defined.

Lemma stop_tells_watchers_witness :
  let n' := (run (stop_with_reason (as_str router_path) Killed) busy_node).1 in
  7 ∈ n_cancelled n' ∧ actor_names (n_registry n') !! as_str router_path = None.
Proof.
  destruct (stop_tells_watchers (as_str router_path) 7 (mk_handle 7 0 (Some router_path)) Killed busy_node) as (Hc & Hn & _);
    [by vm_compute|by vm_compute|done|]. by split.
Defined.

Lemma spawn_then_stop_witness :
  let n1 := (run (spawn_internal (Some router_path) 5 3 ∅ true) idle_node).1 in
  dispatch_sender (lit "/named/" ++ as_str router_path) (n_registry n1) = Ok 3%nat ∧
  n_registry (run (stop_with_reason (as_str router_path) Killed) n1).1 = ActorRegistry_new.
Proof.
  destruct (spawn_then_stop router_path 5 3 ∅ true Killed idle_node example_cluster) as (H1 & _ & H2 & _);
    [by vm_compute|by vm_compute|by vm_compute|done|exact example_cluster_wf|]. by split.
Defined.

Lemma stopped_id_stays_listed_witness :
  ∃ c2, nb_lookup_actor 5 c2 = Some (member_of (mk_reg 1 (example_addr 1) 0)).
Proof.
  destruct (stopped_id_stays_listed router_path 5 3 Killed idle_node example_cluster) as (c2 & _ & Hc);
    [by vm_compute|done|exact example_cluster_wf|by vm_compute|]. exists c2. rewrite Hc. by vm_compute.
Defined.

Lemma shutdown_stops_everything_witness :
  n_state (run (shutdown 1) busy_node).1 = NodeStopped ∧ 7 ∈ n_cancelled (run (shutdown 1) busy_node).1.
Proof.
  destruct (shutdown_stops_everything 0 busy_node) as (_ & Hs & _ & _ & _ & Hc & _).
  - intros a h Ha. cbn in Ha. rewrite !lookup_insert in Ha. repeat case_decide; simplify_eq; done.
  - split; [exact Hs|]. apply Hc. exists (mk_handle 7 0 (Some router_path)). by vm_compute.
Defined.

Lemma crash_is_not_reported_witness :
  ∃ n', rtc pstep (op_prog <$> [OTaskEnds 7; OWatch 8 7], busy_node) ([Ret tt; Ret tt], n') ∧ 7 ∈ n_ended n' ∧ n_sends n' = [] ∧
    ∃ m, run (spawn_internal (Some router_path) 9 4 ∅ true) n' = (m, Err (ActorAlreadyExists (as_str router_path))).
Proof.
  pose proof (run_in_turn (op_prog <$> [OTaskEnds 7; OWatch 8 7]) busy_node) as Hr. eexists. split; [exact Hr|].
  destruct (crash_is_not_reported (as_str router_path) 7 (mk_handle 7 0 (Some router_path)) [OTaskEnds 7; OWatch 8 7] busy_node) with (4 := Hr)
    as (Hs & _ & _ & Hp); [by vm_compute|by vm_compute|by repeat constructor|].
  split; [|split; [exact Hs|by apply Hp]]. apply (bool_decide_unpack _). by vm_compute.
Defined.

Lemma spawn_race_one_winner_witness :
  ∃ n' a s, rtc pstep ((λ x, racer router_path ∅ true x.1 x.2) <$> [(5, 3%nat); (6, 4%nat)], idle_node) ([Ret tt; Ret tt], n') ∧
    (a, s) ∈ [(5, 3%nat); (6, 4%nat)] ∧ actor_names (n_registry n') !! as_str router_path = Some a.
Proof.
  pose proof (run_in_turn ((λ x, racer router_path ∅ true x.1 x.2) <$> [(5, 3%nat); (6, 4%nat)]) idle_node) as Hr.
  destruct (spawn_race_one_winner router_path ∅ true [(5, 3%nat); (6, 4%nat)]) with (5 := Hr) as (a & s & Hin & Ha & _);
    [by apply (bool_decide_unpack _); vm_compute|done|by vm_compute|intros a s _; apply lookup_empty|by repeat constructor|].
  do 3 eexists. split; [exact Hr|]. by split.
Defined.

Lemma respawn_during_stop_is_unlisted_witness :
  ∃ n' : Node HeadNodeBackend, actor_names (n_registry n') !! as_str router_path = Some 9 ∧
    dispatch_sender (lit "/named/" ++ as_str router_path) (n_registry n') = Err (DispatchNamedNotFound (as_str router_path)).
Proof.
  destruct (respawn_during_stop_is_unlisted router_path 7 9 0 4 ∅ Killed busy_node example_cluster)
    as (n' & c' & _ & Hn & _ & Hd & _); [by vm_compute|by vm_compute|done|done|exact example_cluster_wf|]. exists n'. by split.
Defined.
End Examples.
