(* ===== verification/Message.v ===== *)
(** * Messages

    [actor/traits.rs]: tensor messages with their packed wire format, and the
    message type. The limits read from the environment are a class; the stream
    of a message is left abstract. *)
From S2P Require Import Prelude Text Bytes.

(** The limits in force.
    src: crates/pulsing-actor/src/actor/traits.rs 137-163 tensor_env_limit *)
Class Limits : Type := {
  max_tensor_wire_bytes : Z; max_tensor_metadata_bytes : Z; max_tensor_buffers : Z;
  limits_usize : is_u64 max_tensor_wire_bytes ∧ is_u64 max_tensor_metadata_bytes ∧ is_u64 max_tensor_buffers }.
(** crates/pulsing-actor/src/actor/traits.rs 137-139 DEFAULT_MAX_TENSOR_WIRE_BYTES *)
#[export] Program Instance default_limits : Limits := {
  max_tensor_wire_bytes := 64 * 1024 * 1024 * 1024; max_tensor_metadata_bytes := 64 * 1024 * 1024; max_tensor_buffers := 65536 }.
Next Obligation. split_and!; by split. Qed.

(** src: crates/pulsing-actor/src/actor/traits.rs 179-184 TensorBufferOrigin *)
Inductive TensorBufferOrigin := Borrowed | PackedWire | OwnedReceive.
#[export] Instance TensorBufferOrigin_eq_dec : EqDecision TensorBufferOrigin.
Proof. solve_decision. Defined.

(** src: crates/pulsing-actor/src/actor/traits.rs 171-177 TensorMessage *)
Record TensorMessage := mk_tensor { version : Z; metadata : bytes; buffers : list bytes; origin : TensorBufferOrigin }.

Inductive Malformed :=
  | WireTooLarge | HeaderTruncated | InvalidMagic | TooManyBuffers | MetadataTooLarge | LengthTableTruncated
  | SizeOverflow | PayloadTruncated | TrailingBytes.
(** src: crates/pulsing-actor/src/actor/traits.rs 187-194 TensorMessage::new *)
Definition new_tensor (v : Z) (m : bytes) (bs : list bytes) : TensorMessage := mk_tensor v m bs Borrowed.

(** The sum of some buffers' sizes onto [n], each addition checked. *)
Definition checked_sum (n : Z) (bs : list bytes) : option Z := foldl (λ acc b, n ← acc; checked (n + size_of b)) (Some n) bs.

(** src: crates/pulsing-actor/src/actor/traits.rs 135-135 TENSOR_WIRE_MAGIC *)
Definition TENSOR_WIRE_MAGIC : bytes := lit "PTM1".
(** src: crates/pulsing-actor/src/actor/traits.rs 136-136 TENSOR_WIRE_FIXED_HEADER *)
Definition TENSOR_WIRE_FIXED_HEADER : Z := 4 + 4 + 8 + 4.
(** src: crates/pulsing-actor/src/actor/traits.rs 133-133 TENSOR_MESSAGE_TYPE *)
Definition TENSOR_MESSAGE_TYPE : str := lit "__pulsing_tensor_message__".

Section Limits.
Context `{Limits}.

(** src: crates/pulsing-actor/src/actor/traits.rs 199-234 from_owned_receive *)
Definition from_owned_receive (v : Z) (m : bytes) (bs : list bytes) : Result TensorMessage Malformed :=
  if max_tensor_metadata_bytes <? size_of m then Err MetadataTooLarge
  else if max_tensor_buffers <? size_of bs then Err TooManyBuffers
  else if (match checked_sum (size_of m) bs with Some total => max_tensor_wire_bytes <? total | None => true end) then Err WireTooLarge
  else Ok (mk_tensor v m bs OwnedReceive).

(** src: crates/pulsing-actor/src/actor/traits.rs 236-238 requires_owned_receive_copy *)
Definition requires_owned_receive_copy (t : TensorMessage) : bool := bool_decide (origin t = PackedWire).
(** src: crates/pulsing-actor/src/actor/traits.rs 240-242 owns_receive_buffers *)
Definition owns_receive_buffers (t : TensorMessage) : bool := bool_decide (origin t = OwnedReceive).
(** src: crates/pulsing-actor/src/actor/traits.rs 245-247 total_bytes *)
Definition total_bytes (t : TensorMessage) : Z := foldl (λ n b, n +w size_of b) 0 (buffers t).

(** src: crates/pulsing-actor/src/actor/traits.rs 253-322 encode_wire *)
Definition encode_wire (t : TensorMessage) : Result bytes Malformed :=
  if max_tensor_buffers <? size_of (buffers t) then Err TooManyBuffers
  else if max_tensor_metadata_bytes <? size_of (metadata t) then Err MetadataTooLarge
  else if two32 <=? size_of (buffers t) then Err TooManyBuffers
  else match (lengths_bytes ← checked (size_of (buffers t) * 8);
              n ← checked (TENSOR_WIRE_FIXED_HEADER + lengths_bytes);
              n ← checked (n + size_of (metadata t)); checked_sum n (buffers t)) with
  | None => Err SizeOverflow
  | Some total_len =>
      if max_tensor_wire_bytes <? total_len then Err WireTooLarge
      else Ok (TENSOR_WIRE_MAGIC ++ to_le_bytes 4 (version t) ++ to_le_bytes 8 (size_of (metadata t)) ++
               to_le_bytes 4 (size_of (buffers t)) ++ (buffers t ≫= λ b, to_le_bytes 8 (size_of b)) ++
               metadata t ++ concat (buffers t))
  end.

(** The length table: the lengths and the payload's size so far.
    src: crates/pulsing-actor/src/actor/traits.rs 366-382 decode_wire (loop) *)
Fixpoint read_lengths (n : nat) (wire : bytes) (offset total : Z) : option (Result (list Z * Z) Malformed) :=
  match n with
  | O => Some (Ok ([], total))
  | S n =>
      bs ← slice offset (offset + 8) wire;
      let len := from_le_bytes bs in
      match checked (total + len) with
      | None => Some (Err SizeOverflow)
      | Some total =>
          r ← read_lengths n wire (offset + 8) total;
          Some (let? (lens, total) := r in Ok (len :: lens, total))
      end
  end.
(** src: crates/pulsing-actor/src/actor/traits.rs 396-405 decode_wire (buffers) *)
Fixpoint slice_buffers (lens : list Z) (wire : bytes) (offset : Z) : option (list bytes) :=
  match lens with
  | [] => Some []
  | len :: lens => b ← slice offset (offset + len) wire; bs ← slice_buffers lens wire (offset + len); Some (b :: bs)
  end.

(** [None] is a panic.
    src: crates/pulsing-actor/src/actor/traits.rs 326-413 decode_wire *)
Definition decode_wire (wire : bytes) : option (Result TensorMessage Malformed) :=
  if max_tensor_wire_bytes <? size_of wire then Some (Err WireTooLarge)
  else if size_of wire <? TENSOR_WIRE_FIXED_HEADER then Some (Err HeaderTruncated)
  else
  magic ← slice 0 4 wire;
  if bool_decide (magic ≠ TENSOR_WIRE_MAGIC) then Some (Err InvalidMagic)
  else
  v ← slice 4 8 wire; m ← slice 8 16 wire; c ← slice 16 20 wire;
  let metadata_len := from_le_bytes m in
  let buffer_count := from_le_bytes c in
  if max_tensor_buffers <? buffer_count then Some (Err TooManyBuffers)
  else if max_tensor_metadata_bytes <? metadata_len then Some (Err MetadataTooLarge)
  else match (lengths_bytes ← checked (buffer_count * 8); checked (TENSOR_WIRE_FIXED_HEADER + lengths_bytes)) with
  | None => Some (Err SizeOverflow)
  | Some payload_start =>
      if size_of wire <? payload_start then Some (Err LengthTableTruncated)
      else
      r ← read_lengths (Z.to_nat buffer_count) wire TENSOR_WIRE_FIXED_HEADER metadata_len;
      match r with
      | Err e => Some (Err e)
      | Ok (lens, total_payload) =>
          match checked (payload_start + total_payload) with
          | None => Some (Err SizeOverflow)
          | Some expected_len =>
              if bool_decide (expected_len ≠ size_of wire)
              then Some (Err (if size_of wire <? expected_len then PayloadTruncated else TrailingBytes))
              else
                let metadata_end := payload_start + metadata_len in
                md ← slice payload_start metadata_end wire;
                bs ← slice_buffers lens wire metadata_end;
                Some (Ok (mk_tensor (from_le_bytes v) md bs PackedWire))
          end
      end
  end.
End Limits.

(** ** The message type *)

(** src: crates/pulsing-actor/src/actor/traits.rs 427-439 Message *)
Inductive Message (S : Type) := Single (msg_type : str) (data : bytes) | Stream (default_msg_type : str) (stream : S) | Tensor (t : TensorMessage).
Arguments Single {S}.
Arguments Stream {S}.
Arguments Tensor {S}.

(** src: crates/pulsing-actor/src/actor/traits.rs 509-517 msg_type *)
Definition message_type {S} (m : Message S) : str :=
  match m with Single t _ => t | Stream t _ => t | Tensor _ => TENSOR_MESSAGE_TYPE end.
(** src: crates/pulsing-actor/src/actor/traits.rs 519-529 is_single *)
Definition is_single {S} (m : Message S) : bool := match m with Single _ _ => true | _ => false end.

(** ** Properties of tensor messages

    The packed format: what is encoded is decoded, and only what encoding
    yields is; no input makes the decoder panic. *)
(** ** Sizes *)
Lemma size_of_cons {A} (x : A) l : size_of (x :: l) = 1 + size_of l.
Proof. unfold size_of. simpl. lia. Qed.
Lemma size_le_bytes k n : size_of (to_le_bytes k n) = Z.of_nat k.
Proof. unfold size_of. by rewrite to_le_bytes_length. Qed.

Lemma size_concat (b : bytes) (bs : list bytes) : size_of (concat (b :: bs)) = size_of b + size_of (concat bs).
Proof. simpl. apply size_of_app. Qed.

Lemma checked_sum_cons n b bs : checked_sum n (b :: bs) = m ← checked (n + size_of b); checked_sum m bs.
Proof.
  unfold checked_sum. simpl. destruct (checked _) as [m|]; [done|]. by induction bs.
Qed.
Lemma checked_sum_Some n bs m : n < two64 → checked_sum n bs = Some m ↔ m = n + size_of (concat bs) ∧ n + size_of (concat bs) < two64.
Proof.
  revert n. induction bs as [|b bs IH]; intros n Hn.
  { unfold checked_sum, size_of. simpl. rewrite Z.add_0_r. split; [by intros [= ->]|by intros [-> _]]. }
  rewrite checked_sum_cons, size_concat. pose proof (size_of_nonneg b). pose proof (size_of_nonneg (concat bs)).
  destruct (checked (n + size_of b)) as [k|] eqn:E; simpl.
  - apply checked_Some in E as [-> Hk]. rewrite IH by done. rewrite Z.add_assoc. done.
  - split; [done|]. intros [_ Hlt]. assert (checked (n + size_of b) = Some (n + size_of b)) by (apply checked_Some; split; [done|lia]). congruence.
Qed.

(** ** Adjacent slices *)
Lemma slice_app a b c (l x y : bytes) : slice a b l = Some x → slice b c l = Some y → slice a c l = Some (x ++ y).
Proof.
  intros (p & q & -> & Hp & Hx)%slice_Some (p' & q' & Heq & Hp' & Hy)%slice_Some.
  assert (Hpre : p' = p ++ x).
  { rewrite app_assoc in Heq. apply app_inj_1 in Heq as [Heq _]; [done|]. rewrite length_app. unfold size_of in *. lia. }
  subst p'. rewrite <- app_assoc in Heq. do 2 apply app_inv_head in Heq. subst q.
  rewrite (app_assoc x). apply slice_mid; [done|]. rewrite size_of_app. lia.
Qed.
Lemma slice_all (l x : bytes) : slice 0 (size_of l) l = Some x → x = l.
Proof.
  intros (p & q & -> & Hp & Hx)%slice_Some. rewrite !size_of_app in Hx. pose proof (size_of_nonneg q).
  assert (p = [] ∧ q = []) as [-> ->]; [|by rewrite app_nil_r].
  split; apply nil_length_inv; unfold size_of in *; lia.
Qed.
Lemma slice_nil a (l : bytes) : 0 <= a <= size_of l → slice a a l = Some [].
Proof. intros Ha. unfold slice. bool_cond. by rewrite Z.sub_diag. Qed.
Lemma slice_bytes a b (l x : bytes) : Forall is_byte l → slice a b l = Some x → Forall is_byte x.
Proof. intros Hl (p & q & -> & _)%slice_Some. by apply Forall_app in Hl as [_ [? _]%Forall_app]. Qed.
Lemma slice_size a b (l x : bytes) : slice a b l = Some x → size_of x = b - a ∧ 0 <= a <= b ∧ b <= size_of l.
Proof.
  intros (p & q & -> & Hp & Hx)%slice_Some. rewrite !size_of_app. pose proof (size_of_nonneg p).
  pose proof (size_of_nonneg q). pose proof (size_of_nonneg x). lia.
Qed.

Lemma le_slice a k (l x : bytes) : Forall is_byte l → slice a (a + Z.of_nat k) l = Some x →
  to_le_bytes k (from_le_bytes x) = x ∧ 0 <= from_le_bytes x < 256 ^ Z.of_nat k.
Proof.
  intros Hl Hs. pose proof (slice_bytes _ _ _ _ Hl Hs) as Hb. apply slice_size in Hs as [Hs _].
  assert (length x = k) as <- by (unfold size_of in Hs; lia). split; [by apply to_from_le|by apply from_le_range].
Qed.

(** ** The length table *)
Definition table (lens : list Z) : bytes := lens ≫= to_le_bytes 8.

Lemma table_cons n lens : table (n :: lens) = to_le_bytes 8 n ++ table lens.
Proof. done. Qed.
Lemma table_size lens : size_of (table lens) = 8 * size_of lens.
Proof. induction lens as [|n lens IH]; [done|]. rewrite table_cons, size_of_app, IH, size_le_bytes, size_of_cons. lia. Qed.

Definition sum (lens : list Z) : Z := foldr Z.add 0 lens.
Lemma sum_nonneg lens : Forall (λ n, 0 <= n) lens → 0 <= sum lens.
Proof. induction 1; simpl; lia. Qed.

Lemma read_lengths_table pre lens post total :
  Forall (λ n, 0 <= n) lens → 0 <= total → total + sum lens < two64 →
  read_lengths (length lens) (pre ++ table lens ++ post) (size_of pre) total = Some (Ok (lens, total + sum lens)).
Proof.
  revert pre total. induction lens as [|n lens IH]; intros pre total Hn Ht Hs; [simpl; by rewrite Z.add_0_r|].
  apply Forall_cons in Hn as [Hn Hns]. pose proof (sum_nonneg _ Hns). simpl in Hs. cbn [length read_lengths].
  rewrite table_cons, <- app_assoc, (slice_mid pre (to_le_bytes 8 n)); [|done|by rewrite size_le_bytes].
  cbn [mbind option_bind]. rewrite from_to_le, Z.mod_small by (change (256 ^ Z.of_nat 8) with two64; lia).
  rewrite (proj2 (checked_Some _ _)) by (split; [done|lia]). rewrite app_assoc.
  replace (size_of pre + 8) with (size_of (pre ++ to_le_bytes 8 n)) by by rewrite size_of_app, size_le_bytes.
  rewrite IH by (done || lia). simpl. by rewrite Z.add_assoc.
Qed.

(** The sizes of some buffers. *)
Definition sizes (bs : list bytes) : list Z := fmap (λ b : bytes, size_of b) bs.
Lemma sizes_cons b bs : sizes (b :: bs) = size_of b :: sizes bs.
Proof. done. Qed.

Lemma slice_buffers_concat pre bs post :
  slice_buffers (sizes bs) (pre ++ concat bs ++ post) (size_of pre) = Some bs.
Proof.
  revert pre. induction bs as [|b bs IH]; intros pre; [done|]. rewrite sizes_cons. cbn [slice_buffers concat].
  rewrite <- app_assoc, (slice_mid pre b) by done. cbn [mbind option_bind]. rewrite app_assoc, <- size_of_app, IH. done.
Qed.

Lemma sum_sizes bs : sum (sizes bs) = size_of (concat bs).
Proof. induction bs as [|b bs IH]; [done|]. rewrite size_concat, <- IH. done. Qed.
Lemma sizes_nonneg (bs : list bytes) : Forall (λ n, 0 <= n) (sizes bs).
Proof. apply Forall_fmap, Forall_true. intros b. apply size_of_nonneg. Qed.

(** What reading the table and the buffers found in the wire. *)
Lemma read_lengths_inv n wire offset total lens total' :
  Forall is_byte wire → 0 <= offset <= size_of wire → read_lengths n wire offset total = Some (Ok (lens, total')) →
  length lens = n ∧ slice offset (offset + 8 * Z.of_nat n) wire = Some (table lens) ∧ total' = total + sum lens ∧ Forall (λ n, 0 <= n) lens.
Proof.
  intros Hb. revert offset total lens total'. induction n as [|n IH]; intros offset total lens total' Ho.
  { intros [= <- <-]. rewrite !Z.add_0_r. split_and!; [done|by apply slice_nil|simpl; lia|constructor]. }
  cbn [read_lengths]. destruct (slice offset (offset + 8) wire) as [x|] eqn:Ex; [|done]. cbn [mbind option_bind].
  destruct (checked _) as [t|] eqn:Et; [|done]. apply checked_Some in Et as [-> _].
  destruct (le_slice _ 8 _ _ Hb Ex) as [Hx Hxr]. pose proof (slice_size _ _ _ _ Ex) as (_ & _ & Hend).
  destruct (read_lengths n wire (offset + 8) _) as [[[lens2 t2]|]|] eqn:Er; [|done..]. intros [= <- <-].
  apply IH in Er as (Hl & Ht & -> & Hn); [|lia]. split_and!.
  - simpl. by rewrite Hl.
  - rewrite table_cons, Hx. apply (slice_app _ (offset + 8)); [done|]. rewrite <- Ht. f_equal. lia.
  - simpl. lia.
  - constructor; [lia|done].
Qed.

Lemma slice_buffers_inv lens wire offset bs :
  Forall (λ n, 0 <= n) lens → 0 <= offset <= size_of wire → slice_buffers lens wire offset = Some bs →
  lens = sizes bs ∧ slice offset (offset + sum lens) wire = Some (concat bs).
Proof.
  intros Hn. revert offset bs. induction Hn as [|n lens Hn Hns IH]; intros offset bs Ho.
  { intros [= <-]. rewrite Z.add_0_r. split; [done|by apply slice_nil]. }
  cbn [slice_buffers]. destruct (slice offset (offset + n) wire) as [x|] eqn:Ex; [|done]. cbn [mbind option_bind].
  destruct (slice_buffers lens wire (offset + n)) as [bs2|] eqn:Eb; [|done]. intros [= <-].
  pose proof (slice_size _ _ _ _ Ex) as (Hx & _ & Hend). apply IH in Eb as [-> Hs]; [|lia]. rewrite sizes_cons, Hx. split; [f_equal; lia|].
  simpl. apply (slice_app _ (offset + n)); [done|]. rewrite <- Hs. f_equal. simpl. lia.
Qed.

(** ** The wire *)
Section Wire.
Context `{Limits}.

Lemma total_checked n (m : bytes) (bs : list bytes) :
  0 <= n < two32 →
  (lengths_bytes ← checked (n * 8); k ← checked (TENSOR_WIRE_FIXED_HEADER + lengths_bytes);
   k ← checked (k + size_of m); checked_sum k bs) =
  checked (TENSOR_WIRE_FIXED_HEADER + n * 8 + size_of m + size_of (concat bs)).
Proof.
  intros Hn. unfold TENSOR_WIRE_FIXED_HEADER. pose proof (size_of_nonneg m). pose proof (size_of_nonneg (concat bs)). unfold two32 in Hn.
  rewrite (proj2 (checked_Some (n * 8) _)) by (split; [done|unfold two64; lia]). cbn [mbind option_bind].
  rewrite (proj2 (checked_Some (_ + n * 8) _)) by (split; [done|unfold two64; lia]). cbn [mbind option_bind].
  destruct (checked (_ + size_of m)) as [k|] eqn:E; cbn [mbind option_bind].
  - apply checked_Some in E as [-> Hk]. apply option_eq. intros r. rewrite checked_sum_Some by done. rewrite checked_Some. done.
  - symmetry. apply eq_None_not_Some. intros [r [_ Hr]%checked_Some].
    assert (Hc : checked (4 + 4 + 8 + 4 + n * 8 + size_of m) = Some (4 + 4 + 8 + 4 + n * 8 + size_of m)) by (apply checked_Some; split; [done|lia]).
    congruence.
Qed.

(** The wire of a message. *)
Definition packed (t : TensorMessage) : bytes :=
  TENSOR_WIRE_MAGIC ++ to_le_bytes 4 (Message.version t) ++ to_le_bytes 8 (size_of (metadata t)) ++ to_le_bytes 4 (size_of (buffers t)) ++
  table (sizes (buffers t)) ++ metadata t ++ concat (buffers t).
Definition packed_size (t : TensorMessage) : Z :=
  TENSOR_WIRE_FIXED_HEADER + size_of (buffers t) * 8 + size_of (metadata t) + size_of (concat (buffers t)).

Lemma packed_size_ok t : size_of (packed t) = packed_size t.
Proof.
  unfold packed, packed_size, TENSOR_WIRE_FIXED_HEADER. rewrite !size_of_app, !size_le_bytes, table_size.
  change (size_of TENSOR_WIRE_MAGIC) with 4. replace (size_of (sizes (buffers t))) with (size_of (buffers t)) by (unfold size_of, sizes; by rewrite length_fmap).
  lia.
Qed.

(** The conditions under which a message has a wire. *)
Definition packable (t : TensorMessage) : Prop :=
  size_of (buffers t) <= max_tensor_buffers ∧ size_of (metadata t) <= max_tensor_metadata_bytes ∧
  size_of (buffers t) < two32 ∧ packed_size t <= max_tensor_wire_bytes.

Lemma encode_wire_Ok t w : encode_wire t = Ok w ↔ packable t ∧ w = packed t.
Proof.
  unfold encode_wire, packable. destruct (_ <? size_of (buffers t)) eqn:E1; [apply Z.ltb_lt in E1; split; [done|lia]|apply Z.ltb_ge in E1].
  destruct (_ <? size_of (metadata t)) eqn:E2; [apply Z.ltb_lt in E2; split; [done|lia]|apply Z.ltb_ge in E2].
  destruct (two32 <=? _) eqn:E3; [apply Z.leb_le in E3; split; [done|lia]|apply Z.leb_gt in E3].
  pose proof (size_of_nonneg (buffers t)). rewrite total_checked by lia. fold (packed_size t).
  pose proof limits_usize as ((_ & Hlim) & _ & _).
  assert (Htab : (buffers t ≫= λ b, to_le_bytes 8 (size_of b)) = table (sizes (buffers t))).
  { unfold table, sizes. by rewrite list_fmap_bind. }
  destruct (checked (packed_size t)) as [n|] eqn:Ec.
  - apply checked_Some in Ec as [-> _]. destruct (_ <? packed_size t) eqn:E4; [apply Z.ltb_lt in E4; split; [done|lia]|apply Z.ltb_ge in E4].
    rewrite Htab. fold (packed t). split; [by intros [= <-]|by intros [_ ->]].
  - split; [done|]. intros [(_ & _ & _ & Hp) _].
    assert (Hc : checked (packed_size t) = Some (packed_size t)) by (apply checked_Some; split; [done|lia]). congruence.
Qed.

Lemma decode_packed t :
  is_u32 (Message.version t) → packable t →
  decode_wire (packed t) = Some (Ok (mk_tensor (Message.version t) (metadata t) (buffers t) PackedWire)).
Proof.
  intros Hv (H1 & H2 & H3 & H4). unfold decode_wire. rewrite packed_size_ok. unfold packed_size in *.
  pose proof limits_usize as ((_ & Hlim) & _ & _).
  pose proof (size_of_nonneg (buffers t)). pose proof (size_of_nonneg (metadata t)). pose proof (size_of_nonneg (concat (buffers t))).
  change TENSOR_WIRE_FIXED_HEADER with 20 in *. bool_cond. unfold packed.
  set (v := to_le_bytes 4 (Message.version t)). set (m := to_le_bytes 8 (size_of (metadata t))). set (c := to_le_bytes 4 (size_of (buffers t))).
  set (tab := table (sizes (buffers t))). set (rest := metadata t ++ concat (buffers t)).
  rewrite (slice_head TENSOR_WIRE_MAGIC _ 4) by done. cbn [mbind option_bind]. rewrite bool_decide_false by naive_solver.
  rewrite (slice_mid TENSOR_WIRE_MAGIC v _ 4 8) by done. cbn [mbind option_bind].
  rewrite (app_assoc TENSOR_WIRE_MAGIC v), (slice_mid (TENSOR_WIRE_MAGIC ++ v) m _ 8 16) by done. cbn [mbind option_bind].
  rewrite (app_assoc (TENSOR_WIRE_MAGIC ++ v) m), (slice_mid ((TENSOR_WIRE_MAGIC ++ v) ++ m) c _ 16 20) by done. cbn [mbind option_bind].
  assert (Hc : from_le_bytes c = size_of (buffers t)).
  { unfold c. rewrite from_to_le, Z.mod_small; [done|]. change (256 ^ Z.of_nat 4) with two32. lia. }
  assert (Hm : from_le_bytes m = size_of (metadata t)).
  { unfold m. rewrite from_to_le, Z.mod_small; [done|]. change (256 ^ Z.of_nat 8) with two64. lia. }
  assert (Hve : from_le_bytes v = Message.version t).
  { unfold v. rewrite from_to_le. by apply Z.mod_small. }
  rewrite Hc, Hm, Hve. bool_cond. unfold two32 in *.
  rewrite (proj2 (checked_Some (_ * 8) _)) by (split; [done|unfold two64; lia]). cbn [mbind option_bind].
  rewrite (proj2 (checked_Some (20 + _) _)) by (split; [done|unfold two64; lia]). bool_cond.
  rewrite (app_assoc _ c). set (pre := ((TENSOR_WIRE_MAGIC ++ v) ++ m) ++ c).
  assert (Hlen : Z.to_nat (size_of (buffers t)) = length (sizes (buffers t))) by (unfold size_of, sizes; rewrite length_fmap; lia).
  rewrite Hlen. unfold tab. rewrite (read_lengths_table pre) by (try apply sizes_nonneg; rewrite ?sum_sizes; lia). cbn [mbind option_bind].
  rewrite sum_sizes. fold tab. rewrite (proj2 (checked_Some _ _)) by (split; [done|lia]). rewrite bool_decide_false by (intros Hx; apply Hx; lia).
  assert (Htab : size_of (pre ++ tab) = 20 + size_of (buffers t) * 8).
  { unfold tab. rewrite size_of_app, table_size. change (size_of pre) with 20. unfold size_of, sizes. rewrite length_fmap. lia. }
  rewrite (app_assoc pre tab). unfold rest. rewrite (slice_mid (pre ++ tab) (metadata t)) by lia. cbn [mbind option_bind].
  rewrite app_assoc. rewrite <- (app_nil_r (concat (buffers t))) at 1.
  replace (20 + size_of (buffers t) * 8 + size_of (metadata t)) with (size_of ((pre ++ tab) ++ metadata t)) by by rewrite size_of_app, Htab.
  by rewrite slice_buffers_concat.
Qed.

(** A tensor message within the limits is decoded from its packed form as it
    was, marked as packed. *)
Theorem tensor_wire_roundtrip t w :
  is_u32 (Message.version t) → encode_wire t = Ok w →
  decode_wire w = Some (Ok (mk_tensor (Message.version t) (metadata t) (buffers t) PackedWire)).
Proof. intros Hv [Hp ->]%encode_wire_Ok. by apply decode_packed. Qed.

Lemma read_lengths_total n wire offset total :
  0 <= offset → offset + 8 * Z.of_nat n <= size_of wire → is_Some (read_lengths n wire offset total).
Proof.
  revert offset total. induction n as [|n IH]; intros offset total Ho Hn; [by eexists|]. cbn [read_lengths].
  destruct (slice_in_range offset (offset + 8) wire) as [x ->]; [lia..|]. cbn [mbind option_bind]. destruct (checked _); [|by eexists].
  destruct (IH (offset + 8) z) as [r ->]; [lia..|]. by eexists.
Qed.
Lemma slice_buffers_total lens wire offset :
  Forall (λ n, 0 <= n) lens → 0 <= offset → offset + sum lens <= size_of wire → is_Some (slice_buffers lens wire offset).
Proof.
  intros Hn. revert offset. induction Hn as [|n lens Hn Hns IH]; intros offset Ho Hs; [by eexists|]. simpl in Hs.
  pose proof (sum_nonneg _ Hns). cbn [slice_buffers]. destruct (slice_in_range offset (offset + n) wire) as [x ->]; [lia..|].
  cbn [mbind option_bind]. destruct (IH (offset + n)) as [bs ->]; [lia..|]. by eexists.
Qed.

(** C35: Decoding ends in a message or an error on any bytes, never in a panic, and
    a message it accepts is the one whose packed form these bytes are. *)
Theorem decode_wire_spec w :
  Forall is_byte w →
  match decode_wire w with
  | Some (Ok t) => origin t = PackedWire ∧ encode_wire t = Ok w
  | Some (Err _) => True
  | None => False
  end.
Proof.
  intros Hb. unfold decode_wire. change TENSOR_WIRE_FIXED_HEADER with 20.
  destruct (_ <? size_of w) eqn:E1; [done|apply Z.ltb_ge in E1]. destruct (size_of w <? 20) eqn:E2; [done|apply Z.ltb_ge in E2].
  destruct (slice_in_range 0 4 w) as [magic Hmagic]; [lia..|]. rewrite Hmagic. cbn [mbind option_bind].
  case_bool_decide as Hm; [done|]. subst magic.
  destruct (slice_in_range 4 8 w) as [v Hv]; [lia..|]. destruct (slice_in_range 8 16 w) as [m Hme]; [lia..|].
  destruct (slice_in_range 16 20 w) as [c Hc]; [lia..|]. rewrite Hv, Hme, Hc. cbn [mbind option_bind].
  destruct (le_slice 4 4 _ _ Hb Hv) as [Hv1 Hv2]. destruct (le_slice 8 8 _ _ Hb Hme) as [Hm1 Hm2]. destruct (le_slice 16 4 _ _ Hb Hc) as [Hc1 Hc2].
  change (256 ^ Z.of_nat 4) with two32 in *. change (256 ^ Z.of_nat 8) with two64 in *.
  destruct (_ <? from_le_bytes c) eqn:E3; [done|apply Z.ltb_ge in E3]. destruct (_ <? from_le_bytes m) eqn:E4; [done|apply Z.ltb_ge in E4].
  rewrite (proj2 (checked_Some (_ * 8) _)) by (split; [done|unfold two32, two64 in *; lia]). cbn [mbind option_bind].
  rewrite (proj2 (checked_Some (20 + _) _)) by (split; [done|unfold two32, two64 in *; lia]).
  destruct (size_of w <? _) eqn:E5; [done|apply Z.ltb_ge in E5].
  destruct (read_lengths_total (Z.to_nat (from_le_bytes c)) w 20 (from_le_bytes m)) as [r Hr]; [lia..|]. rewrite Hr. cbn [mbind option_bind].
  destruct r as [[lens total]|]; [|done]. destruct (checked _) as [expected|] eqn:Ee; [|done]. apply checked_Some in Ee as [-> _].
  case_bool_decide as Hlen; [done|].
  apply read_lengths_inv in Hr as (Hl & Htab & -> & Hn); [|done|lia]. pose proof (sum_nonneg _ Hn) as Hsum.
  destruct (slice_in_range (20 + from_le_bytes c * 8) (20 + from_le_bytes c * 8 + from_le_bytes m) w) as [md Hmd]; [lia..|].
  rewrite Hmd. cbn [mbind option_bind].
  destruct (slice_buffers_total lens w (20 + from_le_bytes c * 8 + from_le_bytes m)) as [bs Hbs]; [done|lia..|]. rewrite Hbs. cbn [mbind option_bind].
  split; [done|]. apply slice_buffers_inv in Hbs as [-> Hcat]; [|done|lia]. rewrite sum_sizes in *.
  pose proof (slice_size _ _ _ _ Hmd) as (Hmds & _).
  assert (Hcount : size_of bs = from_le_bytes c) by (unfold size_of, sizes in *; rewrite length_fmap in Hl; lia).
  apply encode_wire_Ok. unfold packable, packed, packed_size. cbn [buffers metadata Message.version].
  change TENSOR_WIRE_FIXED_HEADER with 20. rewrite Hcount. replace (size_of md) with (from_le_bytes m) by lia.
  split; [lia|]. symmetry. apply slice_all. rewrite Hv1, Hm1, Hc1.
  apply (slice_app _ 4); [done|]. apply (slice_app _ 8); [done|]. apply (slice_app _ 16); [done|]. apply (slice_app _ 20); [done|].
  apply (slice_app _ (20 + from_le_bytes c * 8)); [rewrite <- Htab; f_equal; lia|]. apply (slice_app _ (20 + from_le_bytes c * 8 + from_le_bytes m)); [done|].
  rewrite <- Hcat. f_equal. lia.
Qed.
End Wire.

Definition a_tensor : TensorMessage := new_tensor 7 (lit "meta") [[1; 2; 3]; []; [255]].
Definition a_wire : bytes := match encode_wire a_tensor with Ok w => w | Err _ => [] end.
Lemma tensor_wire_roundtrip_witness : decode_wire a_wire = Some (Ok (mk_tensor 7 (lit "meta") [[1; 2; 3]; []; [255]] PackedWire)).
Proof. apply (tensor_wire_roundtrip a_tensor a_wire); [by split|by vm_compute]. Defined.

Lemma decode_wire_spec_witness : match decode_wire a_wire with Some (Ok t) => origin t = PackedWire ∧ encode_wire t = Ok a_wire | Some (Err _) => True | None => False end.
Proof. apply (decode_wire_spec a_wire). by apply (bool_decide_unpack _); vm_compute. Defined.
