(* ===== verification/Frames.v ===== *)
(** * Frames on the wire

    [transport/http2/stream.rs]: the frames of a streamed response and their
    parser; [transport/tensor.rs]: the frames of the raw tensor connection. A
    writer that takes only some bytes at a time is a function from the number of
    the call and the slices on offer to how many bytes it takes, or [None] when
    it fails. *)
From S2P Require Import Prelude Text Bytes Message.

(** ** Stream frames *)

(** src: crates/pulsing-actor/src/transport/http2/stream.rs 11-12 FLAG_END *)
Definition FLAG_END : Z := 1.
(** src: crates/pulsing-actor/src/transport/http2/stream.rs 13-13 FLAG_ERROR *)
Definition FLAG_ERROR : Z := 2.

(** src: crates/pulsing-actor/src/transport/http2/stream.rs 15-25 StreamFrame *)
Record StreamFrame := mk_frame { frame_type : str; frame_data : bytes; frame_end : bool; frame_error : option str }.

(** src: crates/pulsing-actor/src/transport/http2/stream.rs 28-35 StreamFrame::data *)
Definition data_frame (msg_type : str) (payload : bytes) : StreamFrame := mk_frame msg_type payload false None.
(** src: crates/pulsing-actor/src/transport/http2/stream.rs 37-44 StreamFrame::end *)
Definition end_frame : StreamFrame := mk_frame [] [] true None.
(** src: crates/pulsing-actor/src/transport/http2/stream.rs 46-53 StreamFrame::error *)
Definition error_frame (error : str) : StreamFrame := mk_frame [] [] true (Some error).

(** src: crates/pulsing-actor/src/transport/http2/stream.rs 65-78 from_message *)
Definition from_message {S} (msg : Message S) (default_msg_type : str) : StreamFrame :=
  match msg with
  | Single msg_type data => data_frame (if bool_decide (msg_type = []) then default_msg_type else msg_type) data
  | Stream _ _ => error_frame (lit "Nested streams are not supported")
  | Tensor _ => error_frame (lit "Tensor messages cannot be nested in streams")
  end.
(** src: crates/pulsing-actor/src/transport/http2/stream.rs 80-90 to_message *)
Definition to_message {S} (f : StreamFrame) : Result (option (Message S)) str :=
  match frame_error f with
  | Some e => Err e
  | None => if frame_end f && bool_decide (frame_data f = []) then Ok None else Ok (Some (Single (frame_type f) (frame_data f)))
  end.

(** The lengths are written with [as u32] and [as u16].
    src: crates/pulsing-actor/src/transport/http2/stream.rs 93-127 to_binary *)
Definition to_binary (f : StreamFrame) : bytes :=
  let msg_type_bytes := as_bytes (frame_type f) in
  let error_bytes := as_bytes <$> frame_error f in
  let content_len := 1 + 2 + size_of msg_type_bytes + 4 + size_of (frame_data f) in
  let content_len := match error_bytes with Some e => content_len + (2 + size_of e) | None => content_len end in
  let flags := Z.lor (if frame_end f then FLAG_END else 0) (if bool_decide (is_Some (frame_error f)) then FLAG_ERROR else 0) in
  to_be_bytes 4 content_len ++ [flags] ++ to_be_bytes 2 (size_of msg_type_bytes) ++ msg_type_bytes ++
  to_be_bytes 4 (size_of (frame_data f)) ++ frame_data f ++
  match error_bytes with Some e => to_be_bytes 2 (size_of e) ++ e | None => [] end.

Inductive FrameError :=
  | BufferTooShort | IncompleteFrame (expected : Z) | InvalidTypeLength | InvalidUtf8 | MissingDataLength | InvalidDataLength.

(** [Buf::get_u8], [get_u16], [get_u32] and slicing off a prefix; [None] is the
    panic when the bytes run out. *)
Definition take_bytes (n : Z) (buf : bytes) : option (bytes * bytes) :=
  if n <=? size_of buf then Some (take (Z.to_nat n) buf, drop (Z.to_nat n) buf) else None.
Definition get_uint (k : nat) (buf : bytes) : option (Z * bytes) :=
  '(b, buf) ← take_bytes (Z.of_nat k) buf; Some (from_be_bytes b, buf).

(** The error at the end of a frame, when the flag says so and it is whole.
    src: crates/pulsing-actor/src/transport/http2/stream.rs 176-191 from_binary (error) *)
Definition read_error (has_error : bool) (buf : bytes) : option (Result (option str) FrameError) :=
  if has_error && (2 <=? size_of buf) then
    '(error_len, buf) ← get_uint 2 buf;
    if error_len <=? size_of buf then
      '(e, _) ← take_bytes error_len buf;
      Some (match from_utf8 e with Some e => Ok (Some e) | None => Err InvalidUtf8 end)
    else Some (Ok None)
  else Some (Ok None).

(** [None] is a panic.
    src: crates/pulsing-actor/src/transport/http2/stream.rs 129-199 from_binary *)
Definition from_binary (buf : bytes) : option (Result StreamFrame FrameError) :=
  if size_of buf <? 4 then Some (Err BufferTooShort)
  else
  '(total_len, buf) ← get_uint 4 buf;
  if size_of buf <? total_len then Some (Err (IncompleteFrame total_len))
  else
  '(flags, buf) ← get_uint 1 buf;
  '(msg_type_len, buf) ← get_uint 2 buf;
  if size_of buf <? msg_type_len then Some (Err InvalidTypeLength)
  else
  '(type_bytes, buf) ← take_bytes msg_type_len buf;
  match from_utf8 type_bytes with
  | None => Some (Err InvalidUtf8)
  | Some msg_type =>
      if size_of buf <? 4 then Some (Err MissingDataLength)
      else
      '(data_len, buf) ← get_uint 4 buf;
      if size_of buf <? data_len then Some (Err InvalidDataLength)
      else
      '(data, buf) ← take_bytes data_len buf;
      error ← read_error (Z.testbit flags 1) buf;
      Some (let? error := error in Ok (mk_frame msg_type data (Z.testbit flags 0) error))
  end.

(** ** The parser of a stream of bytes *)

(** src: crates/pulsing-actor/src/transport/http2/stream.rs 272-274 push *)
Definition push (chunk buffer : bytes) : bytes := buffer ++ chunk.

(** The next frame and the buffer after it, or [None] when it is not whole yet;
    inside, [None] is a panic.
    src: crates/pulsing-actor/src/transport/http2/stream.rs 277-298 try_parse *)
Definition try_parse (buffer : bytes) : option (bytes * option (Result StreamFrame FrameError)) :=
  if size_of buffer <? 4 then None
  else
    let total_len := from_be_bytes (take 4 buffer) in
    if size_of buffer <? 4 + total_len then None
    else
      let n := Z.to_nat (4 + total_len) in
      Some (drop n buffer, from_binary (take n buffer)).

(** Every frame takes four bytes at least, so the buffer's length is fuel enough.
    src: crates/pulsing-actor/src/transport/http2/stream.rs 303-305 parse_all (loop) *)
Fixpoint parse_frames (fuel : nat) (buffer : bytes) : option (list (Result StreamFrame FrameError) * bytes) :=
  match fuel with
  | O => Some ([], buffer)
  | S fuel =>
      match try_parse buffer with
      | None => Some ([], buffer)
      | Some (buffer, r) =>
          r ← r;
          '(rs, buffer) ← parse_frames fuel buffer;
          Some (r :: rs, buffer)
      end
  end.
(** src: crates/pulsing-actor/src/transport/http2/stream.rs 301-307 parse_all *)
Definition parse_all (buffer : bytes) : option (list (Result StreamFrame FrameError) * bytes) := parse_frames (length buffer) buffer.

(** A receiver: every chunk is pushed and what is whole is parsed. *)
Fixpoint receive (buffer : bytes) (chunks : list bytes) : option (list (Result StreamFrame FrameError) * bytes) :=
  match chunks with
  | [] => Some ([], buffer)
  | c :: chunks =>
      '(rs, buffer) ← parse_all (push c buffer);
      '(rs', buffer) ← receive buffer chunks;
      Some (rs ++ rs', buffer)
  end.

(** ** Raw tensor frames *)

(** src: crates/pulsing-actor/src/transport/tensor.rs 20-20 RAW_TENSOR_MAGIC *)
Definition RAW_TENSOR_MAGIC : bytes := lit "PTR1".
(** src: crates/pulsing-actor/src/transport/tensor.rs 21-21 RAW_FIXED_HEADER_LEN *)
Definition RAW_FIXED_HEADER_LEN : Z := 4 + 1 + 3 + 4 + 4 + 8 + 4.
(** src: crates/pulsing-actor/src/transport/tensor.rs 22-22 MAX_RAW_PATH_BYTES *)
Definition MAX_RAW_PATH_BYTES : Z := 64 * 1024.
(** src: crates/pulsing-actor/src/transport/tensor.rs 23-23 MAX_VECTORED_SLICES *)
Definition MAX_VECTORED_SLICES : nat := 64.

(** src: crates/pulsing-actor/src/transport/tensor.rs 74-83 RawTensorKind *)
Inductive RawTensorKind := Ask | Tell | TensorResponse | Ack | ErrorResponse | SingleResponse.
(** src: crates/pulsing-actor/src/transport/tensor.rs 76-83 RawTensorKind (discriminants) *)
Definition kind_code (k : RawTensorKind) : Z :=
  match k with Ask => 1 | Tell => 2 | TensorResponse => 3 | Ack => 4 | ErrorResponse => 5 | SingleResponse => 6 end.
(** src: crates/pulsing-actor/src/transport/tensor.rs 85-101 try_from *)
Definition kind_of_code (n : Z) : option RawTensorKind :=
  if n =? 1 then Some Ask else if n =? 2 then Some Tell else if n =? 3 then Some TensorResponse
  else if n =? 4 then Some Ack else if n =? 5 then Some ErrorResponse else if n =? 6 then Some SingleResponse else None.

(** src: crates/pulsing-actor/src/transport/tensor.rs 103-108 RawTensorFrame *)
Record RawTensorFrame := mk_raw { raw_kind : RawTensorKind; raw_path : str; raw_message : TensorMessage }.

Inductive RawError :=
  | PathTooLarge | RawMetadataTooLarge | TooManyRawBuffers | RawOverflow | FrameTooLarge | WriteZero | WriteFailed
  | UnexpectedEof | BadMagic | UnknownKind (n : Z) | BadPath | RawMalformed (e : Malformed).

(** [IoSlice::advance_slices]: the slices without their first [n] bytes; empty
    slices in front are dropped as well. *)
Fixpoint advance_slices (n : nat) (slices : list bytes) : list bytes :=
  match slices with
  | [] => []
  | s :: rest => if (length s <=? n)%nat then advance_slices (n - length s) rest else drop n s :: rest
  end.

(** The bytes written, and whether all were. A round writes at least a byte, so
    the number of bytes is fuel enough.
    src: crates/pulsing-actor/src/transport/tensor.rs 197-217 write_all_vectored *)
Fixpoint write_all_vectored (fuel : nat) (writer : nat → list bytes → option nat) (remaining : list bytes) : bytes * Result unit RawError :=
  match fuel, remaining with
  | _, [] => ([], Ok tt)
  | O, _ => ([], Err WriteZero)
  | S fuel, _ =>
      let batch := take MAX_VECTORED_SLICES remaining in
      match writer O batch with
      | None => ([], Err WriteFailed)
      | Some O => ([], Err WriteZero)
      | Some written =>
          let '(out, r) := write_all_vectored fuel (λ n, writer (S n)) (advance_slices written remaining) in
          (take written (concat batch) ++ out, r)
      end
  end.

Section Raw.
Context `{Limits}.

(** src: crates/pulsing-actor/src/transport/tensor.rs 159-169 write_raw_tensor_frame (header) *)
Definition raw_header (k : RawTensorKind) (path_bytes : bytes) (t : TensorMessage) : bytes :=
  RAW_TENSOR_MAGIC ++ [kind_code k] ++ [0; 0; 0] ++ to_le_bytes 4 (version t) ++ to_le_bytes 4 (size_of path_bytes) ++
  to_le_bytes 8 (size_of (metadata t)) ++ to_le_bytes 4 (size_of (buffers t)) ++ (buffers t ≫= λ b, to_le_bytes 8 (size_of b)).
(** src: crates/pulsing-actor/src/transport/tensor.rs 171-185 write_raw_tensor_frame (slices) *)
Definition raw_slices (header path_bytes : bytes) (t : TensorMessage) : list bytes :=
  [header] ++ (if bool_decide (path_bytes = []) then [] else [path_bytes]) ++
  (if bool_decide (metadata t = []) then [] else [metadata t]) ++ filter (λ b, b ≠ []) (buffers t).

(** src: crates/pulsing-actor/src/transport/tensor.rs 129-157 write_raw_tensor_frame (checks) *)
Definition raw_total (k : RawTensorKind) (path_bytes : bytes) (t : TensorMessage) : Result Z RawError :=
  if MAX_RAW_PATH_BYTES <? size_of path_bytes then Err PathTooLarge
  else if max_tensor_metadata_bytes <? size_of (metadata t) then Err RawMetadataTooLarge
  else if max_tensor_buffers <? size_of (buffers t) then Err TooManyRawBuffers
  else match (lengths_bytes ← checked (size_of (buffers t) * 8); n ← checked (RAW_FIXED_HEADER_LEN + lengths_bytes);
              n ← checked (n + size_of path_bytes); n ← checked (n + size_of (metadata t)); checked_sum n (buffers t)) with
  | None => Err RawOverflow
  | Some total => if max_tensor_wire_bytes <? total then Err FrameTooLarge else Ok total
  end.

(** The bytes that went to the socket; the statistics are left out.
    src: crates/pulsing-actor/src/transport/tensor.rs 119-195 write_raw_tensor_frame *)
Definition write_raw_tensor_frame (writer : nat → list bytes → option nat) (k : RawTensorKind) (path : str) (t : TensorMessage)
    : bytes * Result unit RawError :=
  let path_bytes := as_bytes path in
  match raw_total k path_bytes t with
  | Err e => ([], Err e)
  | Ok total =>
      let slices := raw_slices (raw_header k path_bytes t) path_bytes t in
      write_all_vectored (length (concat slices)) writer slices
  end.

(** [read_exact]. *)
Definition read_exact (n : Z) (stream : bytes) : Result (bytes * bytes) RawError :=
  match take_bytes n stream with Some r => Ok r | None => Err UnexpectedEof end.

(** src: crates/pulsing-actor/src/transport/tensor.rs 264-280 read_raw_tensor_frame (lengths) *)
Fixpoint raw_lengths (n : nat) (table : bytes) (total : Z) : Result (list Z * Z) RawError :=
  match n with
  | O => Ok ([], total)
  | S n =>
      let len := from_le_bytes (take 8 table) in
      match checked (total + len) with
      | None => Err RawOverflow
      | Some total => let? (lens, total) := raw_lengths n (drop 8 table) total in Ok (len :: lens, total)
      end
  end.
(** src: crates/pulsing-actor/src/transport/tensor.rs 298-306 read_raw_tensor_frame (buffers) *)
Fixpoint read_buffers (lens : list Z) (stream : bytes) : Result (list bytes * bytes) RawError :=
  match lens with
  | [] => Ok ([], stream)
  | len :: lens =>
      let? (b, stream) := read_exact len stream in
      let? (bs, stream) := read_buffers lens stream in
      Ok (b :: bs, stream)
  end.

(** The frame and the rest of the stream.
    src: crates/pulsing-actor/src/transport/tensor.rs 221-315 read_raw_tensor_frame *)
Definition read_raw_tensor_frame (stream : bytes) : Result (RawTensorFrame * bytes) RawError :=
  let? (fixed, stream) := read_exact RAW_FIXED_HEADER_LEN stream in
  if bool_decide (take 4 fixed ≠ RAW_TENSOR_MAGIC) then Err BadMagic
  else
  let code := default 0 (fixed !! 4%nat) in
  match kind_of_code code with
  | None => Err (UnknownKind code)
  | Some k =>
      let v := from_le_bytes (take 4 (drop 8 fixed)) in
      let path_len := from_le_bytes (take 4 (drop 12 fixed)) in
      let metadata_len := from_le_bytes (take 8 (drop 16 fixed)) in
      let buffer_count := from_le_bytes (take 4 (drop 24 fixed)) in
      if MAX_RAW_PATH_BYTES <? path_len then Err PathTooLarge
      else if max_tensor_metadata_bytes <? metadata_len then Err RawMetadataTooLarge
      else if max_tensor_buffers <? buffer_count then Err TooManyRawBuffers
      else match checked (buffer_count * 8) with
      | None => Err RawOverflow
      | Some lengths_bytes =>
          let? (table, stream) := read_exact lengths_bytes stream in
          match (n ← checked (RAW_FIXED_HEADER_LEN + lengths_bytes); n ← checked (n + path_len); checked (n + metadata_len)) with
          | None => Err RawOverflow
          | Some total =>
              let? (lens, total) := raw_lengths (Z.to_nat buffer_count) table total in
              if max_tensor_wire_bytes <? total then Err FrameTooLarge
              else
                let? (path_bytes, stream) := read_exact path_len stream in
                match from_utf8 path_bytes with
                | None => Err BadPath
                | Some path =>
                    let? (md, stream) := read_exact metadata_len stream in
                    let? (bs, stream) := read_buffers lens stream in
                    match from_owned_receive v md bs with
                    | Err e => Err (RawMalformed e)
                    | Ok t => Ok (mk_raw k path t, stream)
                    end
                end
          end
      end
  end.
End Raw.

(** ** Properties of frames

    Round trips of stream frames and raw tensor frames, however the bytes are
    cut, and what a malformed frame does. *)
(** ** Reading off a buffer *)
Lemma take_bytes_app n a b : n = size_of a → take_bytes n (a ++ b) = Some (a, b).
Proof.
  intros ->. unfold take_bytes. rewrite size_of_app. pose proof (size_of_nonneg b). bool_cond. unfold size_of.
  by rewrite Nat2Z.id, take_app_length, drop_app_length.
Qed.
Lemma get_uint_app k n rest : 0 <= n < 256 ^ Z.of_nat k → get_uint k (to_be_bytes k n ++ rest) = Some (n, rest).
Proof.
  intros Hn. unfold get_uint. rewrite take_bytes_app by (unfold size_of; by rewrite to_be_bytes_length).
  cbn [mbind option_bind]. by rewrite from_to_be, Z.mod_small.
Qed.
Lemma size_be_bytes k n : size_of (to_be_bytes k n) = Z.of_nat k.
Proof. unfold size_of. by rewrite to_be_bytes_length. Qed.

(** ** Stream frames *)

(** The frames whose lengths fit the fields. *)
Record frame_ok (f : StreamFrame) : Prop := {
  type_scalars : Forall is_scalar (frame_type f);
  type_fits : size_of (as_bytes (frame_type f)) < 65536;
  error_fits : ∀ e, frame_error f = Some e → Forall is_scalar e ∧ size_of (as_bytes e) < 65536;
  frame_fits : size_of (to_binary f) < two32 }.

Definition frame_flags (f : StreamFrame) : Z :=
  Z.lor (if frame_end f then FLAG_END else 0) (if bool_decide (is_Some (frame_error f)) then FLAG_ERROR else 0).
Lemma flags_spec f : 0 <= frame_flags f < 256 ∧ Z.testbit (frame_flags f) 0 = frame_end f ∧
  Z.testbit (frame_flags f) 1 = bool_decide (is_Some (frame_error f)).
Proof. unfold frame_flags. by destruct (frame_end f), (bool_decide _). Qed.

Definition error_part (o : option str) : bytes := match o with Some e => to_be_bytes 2 (size_of (as_bytes e)) ++ as_bytes e | None => [] end.
Definition content (f : StreamFrame) : bytes :=
  [frame_flags f] ++ to_be_bytes 2 (size_of (as_bytes (frame_type f))) ++ as_bytes (frame_type f) ++
  to_be_bytes 4 (size_of (frame_data f)) ++ frame_data f ++ error_part (frame_error f).

Lemma to_binary_content f : to_binary f = to_be_bytes 4 (size_of (content f)) ++ content f.
Proof.
  unfold to_binary, content. cbv zeta. fold (frame_flags f). rewrite !size_of_app, !size_be_bytes. change (size_of [frame_flags f]) with 1.
  destruct (frame_error f) as [e|]; unfold error_part; cbn [fmap option_fmap option_map];
    match goal with |- to_be_bytes 4 ?a ++ _ = to_be_bytes 4 ?b ++ _ => replace a with b; [done|] end;
    rewrite ?size_of_app, ?size_be_bytes; change (@size_of Z []) with 0; lia.
Qed.

Lemma content_fits f : frame_ok f → 0 <= size_of (content f) < 256 ^ Z.of_nat 4 ∧ 0 <= size_of (frame_data f) < 256 ^ Z.of_nat 4.
Proof.
  intros [_ _ _ Hf]. rewrite to_binary_content, size_of_app, size_be_bytes in Hf. change (256 ^ Z.of_nat 4) with two32.
  pose proof (size_of_nonneg (content f)). split; [lia|]. unfold content in Hf. rewrite !size_of_app, !size_be_bytes in Hf.
  pose proof (size_of_nonneg (frame_data f)). pose proof (size_of_nonneg (as_bytes (frame_type f))).
  pose proof (size_of_nonneg (error_part (frame_error f))). pose proof (size_of_nonneg [frame_flags f]). lia.
Qed.

Lemma read_error_part o rest :
  (∀ e, o = Some e → Forall is_scalar e ∧ size_of (as_bytes e) < 65536) →
  read_error (bool_decide (is_Some o)) (error_part o ++ rest) = Some (Ok o).
Proof.
  intros Ho. destruct o as [e|]; [|done]. destruct (Ho e eq_refl) as [Hs Hl]. rewrite bool_decide_true by eauto.
  unfold read_error, error_part. rewrite !size_of_app, size_be_bytes. pose proof (size_of_nonneg (as_bytes e)).
  pose proof (size_of_nonneg rest). bool_cond. cbn [andb]. rewrite <- app_assoc, get_uint_app by (change (256 ^ Z.of_nat 2) with 65536; lia).
  cbn [mbind option_bind]. rewrite size_of_app. bool_cond. rewrite take_bytes_app by done. cbn [mbind option_bind].
  by rewrite from_utf8_as_bytes.
Qed.

Lemma from_binary_frame f rest : frame_ok f → from_binary (to_binary f ++ rest) = Some (Ok f).
Proof.
  intros Hok. destruct (content_fits f Hok) as [Hc Hd]. destruct Hok as [Ht Htl He _]. destruct (flags_spec f) as (Hfl & Hb0 & Hb1).
  unfold from_binary. rewrite to_binary_content, <- app_assoc. rewrite !size_of_app, size_be_bytes.
  pose proof (size_of_nonneg (content f)). pose proof (size_of_nonneg rest). bool_cond. rewrite get_uint_app by done. cbn [mbind option_bind].
  rewrite size_of_app. bool_cond. unfold content. rewrite <- !app_assoc.
  assert (Hone : [frame_flags f] = to_be_bytes 1 (frame_flags f)) by (unfold to_be_bytes; simpl; by rewrite Z.mod_small).
  rewrite Hone, get_uint_app by done. cbn [mbind option_bind]. pose proof (size_of_nonneg (as_bytes (frame_type f))).
  rewrite get_uint_app by (change (256 ^ Z.of_nat 2) with 65536; lia). cbn [mbind option_bind].
  match goal with |- context [size_of (as_bytes (frame_type f) ++ ?r) <? _] => pose proof (size_of_nonneg r); rewrite (size_of_app _ r) end. bool_cond.
  rewrite take_bytes_app by done. cbn [mbind option_bind]. rewrite from_utf8_as_bytes by done.
  rewrite size_of_app, size_be_bytes.
  match goal with |- context [Z.of_nat 4 + size_of ?r] => pose proof (size_of_nonneg r) end. bool_cond.
  rewrite get_uint_app by done. cbn [mbind option_bind].
  match goal with |- context [size_of (frame_data f ++ ?r) <? _] => pose proof (size_of_nonneg r); rewrite (size_of_app _ r) end. bool_cond.
  rewrite take_bytes_app by done. cbn [mbind option_bind]. rewrite Hb1, Hb0, read_error_part by done. by destruct f.
Qed.

(** A frame whose lengths fit its fields is read back as it was written,
    whatever follows it in the buffer. *)
Theorem frame_roundtrip f rest : frame_ok f → from_binary (to_binary f ++ rest) = Some (Ok f).
Proof. apply from_binary_frame. Qed.

(** ** The parser *)
Lemma try_parse_shrinks b b' r : Forall is_byte b → try_parse b = Some (b', r) → (length b' + 4 <= length b)%nat ∧ Forall is_byte b'.
Proof.
  intros Hb. unfold try_parse. destruct (size_of b <? 4) eqn:E; [done|]. apply Z.ltb_ge in E. cbv zeta.
  pose proof (from_be_range (take 4 b) (Forall_take _ _ _ Hb)) as [Hpos _].
  destruct (_ <? _) eqn:E2; [done|]. apply Z.ltb_ge in E2. intros [= <- <-]. split; [|by apply Forall_drop].
  rewrite length_drop. unfold size_of in *. lia.
Qed.

Lemma try_parse_more a a' r b : Forall is_byte a → try_parse a = Some (a', r) → try_parse (a ++ b) = Some (a' ++ b, r).
Proof.
  intros Hb. unfold try_parse. destruct (size_of a <? 4) eqn:E; [done|]. apply Z.ltb_ge in E. cbv zeta.
  pose proof (from_be_range (take 4 a) (Forall_take _ _ _ Hb)) as [Hpos _].
  destruct (_ <? _) eqn:E2; [done|]. apply Z.ltb_ge in E2. intros [= <- <-]. unfold size_of in E, E2.
  rewrite size_of_app. pose proof (size_of_nonneg b). unfold size_of at 1 3. rewrite (take_app_le a b 4) by lia. bool_cond.
  by rewrite drop_app_le, take_app_le by lia.
Qed.

Lemma parse_frames_fuel n m b : Forall is_byte b → (length b <= n)%nat → (length b <= m)%nat → parse_frames n b = parse_frames m b.
Proof.
  revert m b. induction n as [|n IH]; intros m b Hb Hn Hm.
  { destruct b; [|simpl in Hn; lia]. by destruct m. }
  destruct m as [|m]; [destruct b; [done|simpl in Hm; lia]|]. simpl. destruct (try_parse b) as [[b' r]|] eqn:E; [|done].
  apply try_parse_shrinks in E as [Hl Hb']; [|done]. destruct r as [r|]; [|done]. simpl. by rewrite (IH m) by (done || lia).
Qed.

Lemma parse_all_unfold b : Forall is_byte b →
  parse_all b = match try_parse b with
                | None => Some ([], b)
                | Some (b', r) => r ← r; '(rs, b'') ← parse_all b'; Some (r :: rs, b'')
                end.
Proof.
  intros Hb. unfold parse_all. destruct (length b) as [|n] eqn:El.
  { destruct b; [done|simpl in El; lia]. }
  simpl. destruct (try_parse b) as [[b' r]|] eqn:E; [|done]. apply try_parse_shrinks in E as [Hl Hb']; [|done].
  destruct r as [r|]; [|done]. simpl. by rewrite (parse_frames_fuel n (length b')) by (done || lia).
Qed.

(** Parsing what is there and then the rest is parsing the whole. *)
Lemma parse_all_app a b : Forall is_byte (a ++ b) →
  parse_all (a ++ b) = '(rs, a') ← parse_all a; '(rs', b') ← parse_all (a' ++ b); Some (rs ++ rs', b').
Proof.
  intros Hab. remember (length a) as n eqn:Hn. revert a Hn Hab. induction (lt_wf n) as [n _ IH]. intros a -> Hab.
  pose proof Hab as [Ha Hb]%Forall_app. rewrite (parse_all_unfold a) by done. destruct (try_parse a) as [[a' r]|] eqn:E.
  - pose proof (try_parse_shrinks _ _ _ Ha E) as [Hl Ha']. rewrite parse_all_unfold, (try_parse_more _ _ _ b Ha E) by done.
    destruct r as [r|]; [|done]. cbn [mbind option_bind]. rewrite (IH (length a') ltac:(lia) a' eq_refl) by (apply Forall_app; done).
    destruct (parse_all a') as [[rs a'']|]; [|done]. cbn [mbind option_bind]. by destruct (parse_all (a'' ++ b)) as [[rs' b']|].
  - cbn [mbind option_bind]. destruct (parse_all (a ++ b)) as [[rs' b']|]; done.
Qed.

(** What is left over is not a whole frame. *)
Lemma parse_all_rest b rs b' : Forall is_byte b → parse_all b = Some (rs, b') → Forall is_byte b' ∧ parse_all b' = Some ([], b').
Proof.
  remember (length b) as n eqn:Hn. revert b Hn rs. induction (lt_wf n) as [n _ IH]. intros b -> rs Hb Hp.
  pose proof Hp as Hp'. rewrite parse_all_unfold in Hp by done. destruct (try_parse b) as [[b1 r]|] eqn:E.
  - pose proof (try_parse_shrinks _ _ _ Hb E) as [Hl Hb1]. destruct r as [r|]; [|done].
    destruct (parse_all b1) as [[rs1 b2]|] eqn:E1; [|done]. simpl in Hp. injection Hp as <- <-.
    by apply (IH (length b1) ltac:(lia) b1 eq_refl rs1).
  - by injection Hp as <- <-.
Qed.

Lemma receive_parses b chunks : Forall is_byte (b ++ concat chunks) → parse_all b = Some ([], b) → receive b chunks = parse_all (b ++ concat chunks).
Proof.
  revert b. induction chunks as [|c cs IH]; intros b Hb Hr; simpl; [by rewrite app_nil_r|]. simpl in Hb. unfold push.
  rewrite app_assoc in Hb. rewrite (app_assoc b c), (parse_all_app (b ++ c)) by done. destruct (parse_all (b ++ c)) as [[rs b']|] eqn:E; [|done]. cbn [mbind option_bind].
  apply Forall_app in Hb as [Hbc Hcs]. apply parse_all_rest in E as [Hb' Hr']; [|done]. by rewrite IH by (done || by apply Forall_app).
Qed.

(** What a receiver reads from a stream of bytes does not depend on how the
    transport cut it: it is what parsing all the bytes at once yields. *)
Theorem chunking_irrelevant chunks : Forall is_byte (concat chunks) → receive [] chunks = parse_all (concat chunks).
Proof. intros Hb. by apply (receive_parses []). Qed.

Lemma utf8_char_bytes c : is_scalar c → Forall is_byte (utf8_char c).
Proof.
  intros Hc%scalarb_range. unfold utf8_char, is_byte. pose proof (Z.mod_pos_bound c 64 eq_refl). pose proof (Z.mod_pos_bound (c / 64) 64 eq_refl).
  pose proof (Z.mod_pos_bound (c / 4096) 64 eq_refl). pose proof (Z.div_pos c 64 ltac:(lia) eq_refl).
  pose proof (Z.div_pos c 4096 ltac:(lia) eq_refl). pose proof (Z.div_pos c 262144 ltac:(lia) eq_refl).
  pose proof (Z.div_lt_upper_bound c 262144 5 eq_refl ltac:(lia)).
  destruct (c <? 128) eqn:E1; [apply Z.ltb_lt in E1; repeat constructor; lia|].
  destruct (c <? 2048) eqn:E2; [apply Z.ltb_lt in E2; pose proof (Z.div_lt_upper_bound c 64 32 eq_refl ltac:(lia)); repeat constructor; lia|].
  destruct (c <? 65536) eqn:E3; [apply Z.ltb_lt in E3; pose proof (Z.div_lt_upper_bound c 4096 16 eq_refl ltac:(lia)); repeat constructor; lia|].
  repeat constructor; lia.
Qed.
Lemma as_bytes_bytes s : Forall is_scalar s → Forall is_byte (as_bytes s).
Proof. intros Hs. apply Forall_bind. eapply Forall_impl; [done|]. intros c. apply utf8_char_bytes. Qed.

Lemma to_binary_bytes f : frame_ok f → Forall is_byte (frame_data f) → Forall is_byte (to_binary f).
Proof.
  intros [Ht _ He _] Hd. rewrite to_binary_content. unfold content. destruct (flags_spec f) as [Hf _].
  repeat (apply Forall_app; split); try apply to_be_is_byte; auto using as_bytes_bytes.
  unfold error_part. destruct (frame_error f) as [e|]; [|done]. apply Forall_app; split; [apply to_be_is_byte|]. apply as_bytes_bytes, (He e eq_refl).
Qed.

Lemma try_parse_frame f rest : frame_ok f → try_parse (to_binary f ++ rest) = Some (rest, Some (Ok f)).
Proof.
  intros Hok. destruct (content_fits f Hok) as [[H0 H1] _]. pose proof (from_binary_frame f [] Hok) as Hf. rewrite app_nil_r in Hf.
  unfold try_parse. rewrite !to_binary_content in *. rewrite <- app_assoc.
  rewrite (take_app_length' (to_be_bytes 4 _)) by by rewrite to_be_bytes_length. rewrite from_to_be, Z.mod_small by done.
  cbv zeta. rewrite !size_of_app, size_be_bytes. pose proof (size_of_nonneg rest). bool_cond.
  rewrite app_assoc, take_app_length', drop_app_length'; [by rewrite Hf|..];
    rewrite length_app, to_be_bytes_length; unfold size_of; lia.
Qed.

Lemma parse_all_frames fs : Forall (λ f, frame_ok f ∧ Forall is_byte (frame_data f)) fs →
  Forall is_byte (concat (to_binary <$> fs)) ∧ parse_all (concat (to_binary <$> fs)) = Some (Ok <$> fs, []).
Proof.
  induction 1 as [|f fs [Hok Hd] _ [IHb IH]]; [done|].
  change (concat (to_binary <$> f :: fs)) with (to_binary f ++ concat (to_binary <$> fs)).
  assert (Hb : Forall is_byte (to_binary f ++ concat (to_binary <$> fs))) by (apply Forall_app; split; [by apply to_binary_bytes|done]).
  split; [done|]. by rewrite parse_all_unfold, try_parse_frame, IH by done.
Qed.

(** *** Frames that do not fit *)

(** No text read from bytes is longer than they are. *)
Lemma utf8_char_length c : (length (utf8_char c) <= 4)%nat ∧ (c < 65536 → (length (utf8_char c) <= 3)%nat) ∧
  (c < 2048 → (length (utf8_char c) <= 2)%nat) ∧ (c < 128 → (length (utf8_char c) <= 1)%nat).
Proof.
  unfold utf8_char. destruct (Z.ltb_spec c 128); [simpl; lia|]. destruct (Z.ltb_spec c 2048); [simpl; lia|].
  destruct (Z.ltb_spec c 65536); simpl; lia.
Qed.

Lemma from_utf8_size n bs s : (length bs <= n)%nat → from_utf8 bs = Some s → (length (as_bytes s) <= length bs)%nat.
Proof.
  revert bs s. induction n as [|n IH]; intros bs s Hn Hs; [destruct bs; [by injection Hs as <-|simpl in Hn; lia]|].
  assert (Hk : ∀ c r, (length r <= n)%nat → cons c <$> from_utf8 r = Some s →
    (length (as_bytes s) <= length (utf8_char c) + length r)%nat).
  { intros c r Hr Hc. destruct (from_utf8 r) as [u|] eqn:E; [|done]. injection Hc as <-. apply IH in E; [|done].
    change (as_bytes (c :: u)) with (utf8_char c ++ as_bytes u). rewrite length_app. lia. }
  destruct bs as [|b0 r0]; [by injection Hs as <-|]. cbn [from_utf8] in Hs. simpl in Hn |- *.
  destruct (Z.ltb_spec b0 128).
  { apply Hk in Hs; [|lia]. pose proof (utf8_char_length b0). lia. }
  destruct r0 as [|b1 r1]; [done|]. cbv zeta in Hs. simpl in Hn |- *.
  destruct ((192 <=? b0) && (b0 <? 224)) eqn:E2.
  { destruct (_ && _) eqn:E in Hs; [|done]. unfold continuation in E. apply Hk in Hs; [|lia].
    pose proof (utf8_char_length ((b0 - 192) * 64 + (b1 - 128))). lia. }
  destruct r1 as [|b2 r2]; [done|]. simpl in Hn |- *. destruct ((224 <=? b0) && (b0 <? 240)) eqn:E3.
  { destruct (_ && _) eqn:E in Hs; [|done]. rewrite !andb_true_iff in E. unfold continuation in E. apply Hk in Hs; [|lia].
    pose proof (utf8_char_length ((b0 - 224) * 4096 + (b1 - 128) * 64 + (b2 - 128))). lia. }
  destruct r2 as [|b3 r3]; [done|]. simpl in Hn |- *. destruct (_ && _) eqn:E in Hs; [|done]. apply Hk in Hs; [|lia].
  match type of Hs with context [utf8_char ?c] => pose proof (utf8_char_length c) end. lia.
Qed.

Lemma take_bytes_size n a b c : take_bytes n a = Some (b, c) → 0 <= n → size_of b = n ∧ a = b ++ c.
Proof.
  unfold take_bytes. destruct (Z.leb_spec n (size_of a)) as [Hn|]; [|done]. intros [= <- <-] H0. rewrite take_drop.
  split; [|done]. unfold size_of in *. rewrite length_take. lia.
Qed.
Lemma take_bytes_total n a : n <= size_of a → is_Some (take_bytes n a).
Proof. intros Hn. unfold take_bytes. rewrite (proj2 (Z.leb_le _ _) Hn). eauto. Qed.
Lemma get_uint_range k a n b : Forall is_byte a → get_uint k a = Some (n, b) → 0 <= n < 256 ^ Z.of_nat k ∧ Forall is_byte b ∧ size_of a = Z.of_nat k + size_of b.
Proof.
  intros Ha. unfold get_uint. destruct (take_bytes (Z.of_nat k) a) as [[x y]|] eqn:E; [|done]. cbn [mbind option_bind].
  intros [= <- <-]. apply take_bytes_size in E as [Hx ->]; [|lia]. apply Forall_app in Ha as [Hx' Hy].
  rewrite size_of_app, Hx. split_and!; [..|done|lia]; destruct (from_be_range x Hx') as [? Hlt]; [done|].
  unfold size_of in Hx. by replace k with (length x) by lia.
Qed.
Lemma get_uint_total k a : Z.of_nat k <= size_of a → is_Some (get_uint k a).
Proof. intros Hk. unfold get_uint. destruct (take_bytes_total _ _ Hk) as [[x y] ->]. eauto. Qed.

(** What is read at the end of a frame never panics, and an error has a length of
    sixteen bits. *)
Lemma read_error_spec h buf : Forall is_byte buf →
  ∃ r, read_error h buf = Some r ∧ ∀ e, r = Ok (Some e) → size_of (as_bytes e) < 65536.
Proof.
  intros Hb. unfold read_error. destruct h; [|by eexists]. cbn [andb]. destruct (Z.leb_spec 2 (size_of buf)) as [H2|]; [|by eexists].
  destruct (get_uint_total 2 buf H2) as [[n rest] E]. rewrite E. cbn [mbind option_bind].
  apply get_uint_range in E as (Hn & Hrest & _); [|done]. change (256 ^ Z.of_nat 2) with 65536 in Hn.
  destruct (Z.leb_spec n (size_of rest)) as [Hle|]; [|by eexists].
  destruct (take_bytes_total n rest Hle) as [[x y] E]. rewrite E. cbn [mbind option_bind].
  apply take_bytes_size in E as [Hx _]; [|lia]. destruct (from_utf8 x) as [e|] eqn:Eu; [|by eexists].
  eexists. split; [reflexivity|]. intros ? [= <-]. apply from_utf8_size with (n := length x) in Eu; [|done]. unfold size_of in *. lia.
Qed.

(** Where a frame's first three bytes are there, nothing panics, and the type and
    the error that are read have lengths of sixteen bits. *)
Lemma from_binary_total b : Forall is_byte b → 3 <= size_of b < two32 →
  ∃ r, from_binary (to_be_bytes 4 (size_of b) ++ b) = Some r ∧
    ∀ f, r = Ok f → size_of (as_bytes (frame_type f)) < 65536 ∧ ∀ e, frame_error f = Some e → size_of (as_bytes e) < 65536.
Proof.
  intros Hb [H3 Hlt]. unfold from_binary. rewrite size_of_app, size_be_bytes. bool_cond.
  rewrite get_uint_app by (change (256 ^ Z.of_nat 4) with two32; lia). cbn [mbind option_bind]. bool_cond.
  destruct (get_uint_total 1 b) as [[flags b1] E1]; [lia|]. rewrite E1. cbn [mbind option_bind].
  apply get_uint_range in E1 as (_ & Hb1 & Hs1); [|done].
  destruct (get_uint_total 2 b1) as [[n b2] E2]; [lia|]. rewrite E2. cbn [mbind option_bind].
  apply get_uint_range in E2 as (Hn & Hb2 & _); [|done]. change (256 ^ Z.of_nat 2) with 65536 in Hn.
  destruct (Z.ltb_spec (size_of b2) n) as [|Hle]; [by eexists|].
  destruct (take_bytes_total n b2 Hle) as [[x b3] E3]. rewrite E3. cbn [mbind option_bind].
  apply take_bytes_size in E3 as [Hx ->]; [|lia]. apply Forall_app in Hb2 as [_ Hb3].
  destruct (from_utf8 x) as [ty|] eqn:Eu; [|by eexists]. apply from_utf8_size with (n := length x) in Eu; [|done].
  destruct (Z.ltb_spec (size_of b3) 4) as [|H4]; [by eexists|].
  destruct (get_uint_total 4 b3) as [[d b4] E4]; [lia|]. rewrite E4. cbn [mbind option_bind].
  apply get_uint_range in E4 as (Hd & Hb4 & _); [|done].
  destruct (Z.ltb_spec (size_of b4) d) as [|Hle4]; [by eexists|].
  destruct (take_bytes_total d b4 Hle4) as [[y b5] E5]. rewrite E5. cbn [mbind option_bind].
  apply take_bytes_size in E5 as [_ ->]; [|lia]. apply Forall_app in Hb4 as [_ Hb5].
  destruct (read_error_spec (Z.testbit flags 1) b5 Hb5) as (r & -> & Hr). cbn [mbind option_bind].
  eexists. split; [reflexivity|]. intros f. unfold and_then. destruct r as [e|]; [|done]. intros [= <-]. simpl.
  split; [unfold size_of in *; lia|]. intros e' ->. by apply Hr.
Qed.

(** A frame of the program: texts of scalar values, data of bytes, and less than
    4 GiB of it on the wire. *)
Record sendable (f : StreamFrame) : Prop := {
  send_type : Forall is_scalar (frame_type f);
  send_error : ∀ e, frame_error f = Some e → Forall is_scalar e;
  send_data : Forall is_byte (frame_data f);
  send_size : size_of (to_binary f) < two32 }.
(** The type and the text of the error fit sixteen bits. *)
Definition lengths_fit (f : StreamFrame) : Prop :=
  size_of (as_bytes (frame_type f)) < 65536 ∧ ∀ e, frame_error f = Some e → size_of (as_bytes e) < 65536.

Lemma sendable_ok f : sendable f → lengths_fit f → frame_ok f.
Proof. intros [Ht He Hd Hs] [Hl Hle]. split; [done|done| |done]. intros e Hf. split; [by apply He|by apply Hle]. Qed.

Lemma content_bytes f : sendable f → Forall is_byte (content f) ∧ 3 <= size_of (content f) < two32.
Proof.
  intros [Ht He Hd Hs]. split.
  - unfold content. destruct (flags_spec f) as [Hf _]. repeat (apply Forall_app; split); try apply to_be_is_byte; auto using as_bytes_bytes.
    unfold error_part. destruct (frame_error f) as [e|]; [|done]. apply Forall_app; split; [apply to_be_is_byte|]. by apply as_bytes_bytes, He.
  - rewrite to_binary_content, size_of_app, size_be_bytes in Hs. split; [|lia]. unfold content. rewrite !size_of_app, !size_be_bytes.
    pose proof (size_of_nonneg (frame_data f)). pose proof (size_of_nonneg (as_bytes (frame_type f))).
    pose proof (size_of_nonneg (error_part (frame_error f))). change (size_of [frame_flags f]) with 1. lia.
Qed.

(** What is received of one frame, and that it ends where the next begins. *)
Lemma try_parse_any f rest : sendable f →
  ∃ r, try_parse (to_binary f ++ rest) = Some (rest, Some r) ∧ (r = Ok f ↔ lengths_fit f).
Proof.
  intros Hf. destruct (content_bytes f Hf) as [Hb Hs]. destruct (from_binary_total _ Hb Hs) as (r & Hr & Hfit).
  rewrite <- to_binary_content in Hr. exists r. split.
  - unfold try_parse. rewrite to_binary_content in *. rewrite <- app_assoc.
    rewrite (take_app_length' (to_be_bytes 4 _)) by by rewrite to_be_bytes_length.
    rewrite from_to_be, Z.mod_small by (change (256 ^ Z.of_nat 4) with two32; lia).
    cbv zeta. rewrite !size_of_app, size_be_bytes. pose proof (size_of_nonneg rest). bool_cond.
    rewrite app_assoc, take_app_length', drop_app_length'; [by rewrite Hr|..];
      rewrite length_app, to_be_bytes_length; unfold size_of; lia.
  - split; [by apply Hfit|]. intros Hl. pose proof (from_binary_frame f [] (sendable_ok f Hf Hl)) as Hok.
    rewrite app_nil_r, Hr in Hok. by injection Hok.
Qed.

Lemma parse_all_any fs : Forall sendable fs →
  Forall is_byte (concat (to_binary <$> fs)) ∧
  ∃ rs, parse_all (concat (to_binary <$> fs)) = Some (rs, []) ∧ Forall2 (λ f r, r = Ok f ↔ lengths_fit f) fs rs.
Proof.
  induction 1 as [|f fs Hf _ [IHb (rs & IH & Hrs)]]; [split; [done|]; exists []; by split|].
  change (concat (to_binary <$> f :: fs)) with (to_binary f ++ concat (to_binary <$> fs)).
  assert (Hb : Forall is_byte (to_binary f ++ concat (to_binary <$> fs))).
  { apply Forall_app; split; [|done]. rewrite to_binary_content. apply Forall_app. split; [apply to_be_is_byte|].
    by destruct (content_bytes f Hf). }
  split; [done|]. destruct (try_parse_any f (concat (to_binary <$> fs)) Hf) as (r & Hr & Hok).
  exists (r :: rs). rewrite parse_all_unfold, Hr by done. cbn [mbind option_bind]. rewrite IH. split; [done|by constructor].
Qed.

(** C8: The frames of a stream, each under 4 GiB on the wire, written one after
    the other and cut anywhere, are received in order, one result for each and
    nothing left over; a frame is received as it was sent exactly when its type and
    its error text are shorter than 64 KiB, the lengths its fields can hold, and a
    frame that does not fit never disturbs the others. *)
Theorem stream_roundtrip fs chunks :
  Forall sendable fs → concat chunks = concat (to_binary <$> fs) →
  ∃ rs, receive [] chunks = Some (rs, []) ∧ Forall2 (λ f r, r = Ok f ↔ lengths_fit f) fs rs.
Proof.
  intros Hfs Hc. destruct (parse_all_any fs Hfs) as (Hb & rs & Hp & Hrs). rewrite <- Hc in *. exists rs.
  by rewrite (receive_parses []) by done.
Qed.

(** A frame of length zero, four zero bytes from the other side, makes the
    parser panic, and so does every frame with fewer than three bytes. *)
Theorem stray_frame_panics b : (length b < 3)%nat → parse_all (to_be_bytes 4 (size_of b) ++ b) = None.
Proof.
  intros Hb. unfold parse_all. rewrite length_app, to_be_bytes_length. simpl.
  destruct b as [|x [|y [|z b]]]; [done|done|done|simpl in Hb; lia].
Qed.

(** ** Writing vectored *)

(** A writer that always takes a byte at least, and never more than is there. *)
Definition progresses (writer : nat → list bytes → option nat) : Prop :=
  ∀ n ss, concat ss ≠ [] → ∃ k, writer n ss = Some k ∧ (1 <= k <= length (concat ss))%nat.

Definition nonempty (ss : list bytes) : Prop := Forall (λ s, s ≠ []) ss.

Lemma advance_slices_spec n ss : nonempty ss → (n <= length (concat ss))%nat →
  concat (advance_slices n ss) = drop n (concat ss) ∧ nonempty (advance_slices n ss).
Proof.
  intros Hne. revert n. induction Hne as [|s ss Hs Hss IH]; intros n Hn; simpl in *; [by rewrite drop_nil; split; [|constructor]|].
  rewrite length_app in Hn. destruct (Nat.leb_spec (length s) n) as [Hl|Hl].
  - destruct (IH (n - length s)%nat) as [-> ?]; [lia|]. by rewrite drop_app_ge by done.
  - simpl. rewrite drop_app_le by lia. split; [done|]. constructor; [|done].
    intros Hd%(f_equal length). rewrite length_drop in Hd. simpl in Hd. lia.
Qed.

Lemma nonempty_concat ss : nonempty ss → concat ss = [] → ss = [].
Proof. intros Hne Hc. destruct Hne as [|s ss Hs _]; [done|]. simpl in Hc. by apply app_eq_nil in Hc as [? _]. Qed.

Lemma batch_prefix k (ss : list bytes) : (k <= length (concat (take MAX_VECTORED_SLICES ss)))%nat →
  (k <= length (concat ss))%nat ∧ take k (concat (take MAX_VECTORED_SLICES ss)) = take k (concat ss).
Proof.
  intros Hk. assert (Hc : concat ss = concat (take MAX_VECTORED_SLICES ss) ++ concat (drop MAX_VECTORED_SLICES ss))
    by by rewrite <- concat_app, take_drop.
  rewrite Hc, length_app, take_app_le by done. split; [lia|done].
Qed.

Lemma write_all_complete fuel writer ss : progresses writer → nonempty ss → (length (concat ss) <= fuel)%nat →
  write_all_vectored fuel writer ss = (concat ss, Ok tt).
Proof.
  revert writer ss. induction fuel as [|fuel IH]; intros writer ss Hw Hne Hf.
  { rewrite (nonempty_concat ss Hne); [done|]. apply nil_length_inv. lia. }
  destruct (decide (ss = [])) as [->|Hss]; [done|]. replace (write_all_vectored _ _ _) with
    (match writer O (take MAX_VECTORED_SLICES ss) with
     | None => ([], Err WriteFailed) | Some O => ([], Err WriteZero)
     | Some k => let '(out, r) := write_all_vectored fuel (λ n, writer (S n)) (advance_slices k ss) in
                 (take k (concat (take MAX_VECTORED_SLICES ss)) ++ out, r) end) by by destruct ss.
  destruct (Hw O (take MAX_VECTORED_SLICES ss)) as (k & -> & Hk1 & Hk2).
  { intros Hc%nonempty_concat; [by destruct ss|]. by apply Forall_take. }
  destruct k as [|k]; [lia|]. destruct (batch_prefix _ _ Hk2) as [Hle ->]. destruct (advance_slices_spec _ _ Hne Hle) as [Ha Hn].
  rewrite IH; [by rewrite Ha, take_drop|by intros n; apply (Hw (S n))|done|rewrite Ha, length_drop; lia].
Qed.

(** ** Raw tensor frames *)
Section Raw.
Context `{Limits}.

Lemma raw_slices_nonempty k p t : nonempty (raw_slices (raw_header k p t) p t).
Proof.
  unfold raw_slices, nonempty. repeat (apply Forall_app; split).
  - by repeat constructor.
  - case_bool_decide; by repeat constructor.
  - case_bool_decide; by repeat constructor.
  - apply Forall_forall. intros b [? _]%list_elem_of_filter. done.
Qed.
Lemma concat_filter_nonempty (bs : list bytes) : concat (filter (λ b, b ≠ []) bs) = concat bs.
Proof.
  induction bs as [|b bs IH]; [done|]. rewrite filter_cons. case_decide as Hd; simpl; [by rewrite IH|].
  rewrite IH; subst b; done.
Qed.
Lemma concat_raw_slices h p t : concat (raw_slices h p t) = h ++ p ++ metadata t ++ concat (buffers t).
Proof.
  unfold raw_slices. rewrite !concat_app, concat_filter_nonempty. simpl. rewrite app_nil_r. f_equal. f_equal; [|f_equal];
    case_bool_decide as Hd; simpl; rewrite ?app_nil_r; congruence.
Qed.

(** What a valid frame puts on the wire. *)
Lemma write_raw_bytes writer k path t total : progresses writer → raw_total k (as_bytes path) t = Ok total →
  write_raw_tensor_frame writer k path t =
    (raw_header k (as_bytes path) t ++ as_bytes path ++ metadata t ++ concat (buffers t), Ok tt).
Proof.
  intros Hw Ht. unfold write_raw_tensor_frame. cbv zeta. rewrite Ht, write_all_complete by (done || apply raw_slices_nonempty).
  by rewrite concat_raw_slices.
Qed.

Lemma raw_total_Ok k p t total : raw_total k p t = Ok total →
  size_of p <= 65536 ∧ size_of (metadata t) <= max_tensor_metadata_bytes ∧ size_of (buffers t) <= max_tensor_buffers ∧
  total = 28 + size_of (buffers t) * 8 + size_of p + size_of (metadata t) + size_of (concat (buffers t)) ∧ total <= max_tensor_wire_bytes.
Proof.
  unfold raw_total. change MAX_RAW_PATH_BYTES with 65536. change RAW_FIXED_HEADER_LEN with 28.
  destruct (65536 <? _) eqn:E1; [done|apply Z.ltb_ge in E1]. destruct (_ <? size_of (metadata t)) eqn:E2; [done|apply Z.ltb_ge in E2].
  destruct (_ <? size_of (buffers t)) eqn:E3; [done|apply Z.ltb_ge in E3].
  destruct (checked (size_of (buffers t) * 8)) as [n1|] eqn:C1; [|done]. apply checked_Some in C1 as [-> _]. cbn [mbind option_bind].
  destruct (checked (28 + _)) as [n2|] eqn:C2; [|done]. apply checked_Some in C2 as [-> _]. cbn [mbind option_bind].
  destruct (checked (_ + size_of p)) as [n3|] eqn:C3; [|done]. apply checked_Some in C3 as [-> _]. cbn [mbind option_bind].
  destruct (checked (_ + size_of (metadata t))) as [n4|] eqn:C4; [|done]. apply checked_Some in C4 as [-> C4]. cbn [mbind option_bind].
  destruct (checked_sum _ _) as [n5|] eqn:C5; [|done]. apply checked_sum_Some in C5 as [-> _]; [|done].
  destruct (_ <? _) eqn:E6; [done|apply Z.ltb_ge in E6]. intros [= <-]. split_and!; lia.
Qed.

Lemma read_exact_app n a b : n = size_of a → read_exact n (a ++ b) = Ok (a, b).
Proof. intros Hn. unfold read_exact. by rewrite take_bytes_app. Qed.

Lemma raw_lengths_table lens total : Forall (λ n, 0 <= n) lens → 0 <= total → total + sum lens < two64 →
  raw_lengths (length lens) (table lens) total = Ok (lens, total + sum lens).
Proof.
  intros Hn. revert total. induction Hn as [|n lens Hn Hns IH]; intros total Ht Hs; [simpl; by rewrite Z.add_0_r|].
  pose proof (sum_nonneg _ Hns). simpl in Hs. rewrite table_cons. cbn [length raw_lengths].
  rewrite take_app_length', drop_app_length' by by rewrite to_le_bytes_length.
  rewrite from_to_le, Z.mod_small by (change (256 ^ Z.of_nat 8) with two64; lia). cbv zeta.
  rewrite (proj2 (checked_Some _ _)) by (split; [done|lia]). rewrite IH by lia. simpl. by rewrite Z.add_assoc.
Qed.
Lemma read_buffers_sizes bs rest : read_buffers (sizes bs) (concat bs ++ rest) = Ok (bs, rest).
Proof.
  induction bs as [|b bs IH]; [done|]. rewrite sizes_cons. cbn [read_buffers concat]. rewrite <- app_assoc, read_exact_app by done.
  cbn [and_then]. by rewrite IH.
Qed.

(** The bytes of a header, in one piece and a table. *)
Definition fixed_header (k : RawTensorKind) (p : bytes) (t : TensorMessage) : bytes :=
  RAW_TENSOR_MAGIC ++ [kind_code k] ++ [0; 0; 0] ++ to_le_bytes 4 (version t) ++ to_le_bytes 4 (size_of p) ++
  to_le_bytes 8 (size_of (metadata t)) ++ to_le_bytes 4 (size_of (buffers t)).
Lemma raw_header_split k p t : raw_header k p t = fixed_header k p t ++ table (sizes (buffers t)).
Proof.
  unfold raw_header, fixed_header. rewrite <- !app_assoc. do 7 f_equal. unfold table, sizes. by rewrite list_fmap_bind.
Qed.
Lemma fixed_size k p t : size_of (fixed_header k p t) = 28.
Proof. done. Qed.
Lemma fixed_fields k p t :
  take 4 (fixed_header k p t) = RAW_TENSOR_MAGIC ∧ fixed_header k p t !! 4%nat = Some (kind_code k) ∧
  take 4 (drop 8 (fixed_header k p t)) = to_le_bytes 4 (version t) ∧ take 4 (drop 12 (fixed_header k p t)) = to_le_bytes 4 (size_of p) ∧
  take 8 (drop 16 (fixed_header k p t)) = to_le_bytes 8 (size_of (metadata t)) ∧
  take 4 (drop 24 (fixed_header k p t)) = to_le_bytes 4 (size_of (buffers t)).
Proof. done. Qed.
Lemma kind_code_read k : kind_of_code (kind_code k) = Some k.
Proof. by destruct k. Qed.

Lemma read_raw_bytes k path t total rest :
  Forall is_scalar path → is_u32 (version t) → size_of (buffers t) < two32 → raw_total k (as_bytes path) t = Ok total →
  read_raw_tensor_frame ((raw_header k (as_bytes path) t ++ as_bytes path ++ metadata t ++ concat (buffers t)) ++ rest) =
    Ok (mk_raw k path (mk_tensor (version t) (metadata t) (buffers t) OwnedReceive), rest).
Proof.
  intros Hp Hv Hb (H1 & H2 & H3 & -> & H5)%raw_total_Ok. set (p := as_bytes path) in *. pose proof limits_usize as ((_ & Hlim) & (_ & Hlim2) & _).
  pose proof (size_of_nonneg p). pose proof (size_of_nonneg (metadata t)). pose proof (size_of_nonneg (buffers t)). pose proof (size_of_nonneg (concat (buffers t))).
  destruct (fixed_fields k p t) as (F1 & F2 & F3 & F4 & F5 & F6). unfold read_raw_tensor_frame. change RAW_FIXED_HEADER_LEN with 28.
  rewrite raw_header_split, <- !app_assoc, read_exact_app by done. cbn [and_then]. rewrite F1, bool_decide_false by naive_solver.
  rewrite F2. cbn [default from_option id]. rewrite kind_code_read, F3, F4, F5, F6, !from_to_le. cbv zeta.
  change (256 ^ Z.of_nat 4) with two32. change (256 ^ Z.of_nat 8) with two64.
  rewrite (Z.mod_small (version t)) by done. rewrite !Z.mod_small by (unfold two32, two64 in *; lia). change MAX_RAW_PATH_BYTES with 65536.
  bool_cond. unfold two32 in *. rewrite (proj2 (checked_Some (_ * 8) _)) by (split; [done|unfold two64; lia]).
  assert (Htab : size_of (table (sizes (buffers t))) = size_of (buffers t) * 8) by (rewrite table_size; unfold size_of, sizes; rewrite length_fmap; lia).
  rewrite read_exact_app by done. cbn [and_then]. rewrite (proj2 (checked_Some (28 + _) _)) by (split; [done|unfold two64 in *; lia]). cbn [mbind option_bind].
  rewrite (proj2 (checked_Some (_ + size_of p) _)) by (split; [done|unfold two64 in *; lia]). cbn [mbind option_bind].
  rewrite (proj2 (checked_Some (_ + size_of (metadata t)) _)) by (split; [done|unfold two64 in *; lia]).
  replace (Z.to_nat (size_of (buffers t))) with (length (sizes (buffers t))) by (unfold size_of, sizes; rewrite length_fmap; lia).
  rewrite raw_lengths_table by (try apply sizes_nonneg; rewrite ?sum_sizes; lia). cbn [and_then]. rewrite sum_sizes. bool_cond.
  rewrite read_exact_app by done. cbn [and_then]. unfold p. rewrite from_utf8_as_bytes by done.
  rewrite read_exact_app by done. cbn [and_then]. rewrite read_buffers_sizes. cbn [and_then]. unfold from_owned_receive. bool_cond.
  rewrite (proj2 (checked_sum_Some (size_of (metadata t)) (buffers t) (size_of (metadata t) + size_of (concat (buffers t))) ltac:(lia))) by (split; [done|lia]). by bool_cond.
Qed.

(** A tensor frame written to a socket that takes any number of bytes at a
    time is read back from it whole, however many slices it has, and what
    follows it on the socket is left there. *)
Theorem raw_frame_roundtrip writer k path t total rest :
  progresses writer → Forall is_scalar path → is_u32 (version t) → size_of (buffers t) < two32 →
  raw_total k (as_bytes path) t = Ok total →
  ∃ wire, write_raw_tensor_frame writer k path t = (wire, Ok tt) ∧
    read_raw_tensor_frame (wire ++ rest) = Ok (mk_raw k path (mk_tensor (version t) (metadata t) (buffers t) OwnedReceive), rest).
Proof.
  intros Hw Hp Hv Hb Ht. eexists. split; [by eapply write_raw_bytes|]. by eapply read_raw_bytes.
Qed.
End Raw.

(** ** Instances *)
Definition a_frame : StreamFrame := mk_frame (lit "chunk") [1; 2; 255] false None.
Definition last_frame : StreamFrame := error_frame (lit "broken pipe").
Ltac frame_ok_tac := constructor; [by repeat constructor|done|intros e He; first [discriminate He | injection He as <-; by repeat constructor]|done].

Lemma frame_roundtrip_witness : from_binary (to_binary last_frame ++ [0; 0; 0; 0]) = Some (Ok last_frame).
Proof. apply (frame_roundtrip last_frame). frame_ok_tac. Defined.

Definition cut_stream : list bytes :=
  let all := concat (to_binary <$> [a_frame; last_frame]) in [take 2 all; drop 2 (take 11 all); []; drop 11 all].
Lemma chunking_irrelevant_witness : receive [] cut_stream = parse_all (concat cut_stream).
Proof. apply (chunking_irrelevant cut_stream). by apply (bool_decide_unpack _); vm_compute. Defined.
(** The second frame's type is one byte too long for its field. *)
Definition long_frame : StreamFrame := mk_frame (repeat 120 (Z.to_nat 65536)) [7] false None.
Lemma sendable_check f :
  bool_decide (Forall is_scalar (frame_type f) ∧ Forall is_scalar (default [] (frame_error f)) ∧
    Forall is_byte (frame_data f) ∧ size_of (to_binary f) < two32) = true → sendable f.
Proof. intros (? & He & ? & ?)%bool_decide_eq_true. split; [done| |done..]. intros e Hf. by rewrite Hf in He. Qed.
Lemma stream_roundtrip_witness :
  ∃ r, receive [] [concat (to_binary <$> [a_frame; long_frame; last_frame])] = Some ([Ok a_frame; r; Ok last_frame], []) ∧ r ≠ Ok long_frame.
Proof.
  destruct (stream_roundtrip [a_frame; long_frame; last_frame] [concat (to_binary <$> [a_frame; long_frame; last_frame])]) as (rs & Hr & Hrs).
  - apply Forall_cons; split; [|apply Forall_cons; split; [|apply Forall_singleton]]; apply sendable_check; vm_compute; reflexivity.
  - apply app_nil_r.
  - inversion Hrs as [|? r1 ? ? H1 Hrs1]; subst. inversion Hrs1 as [|? r2 ? ? H2 Hrs2]; subst.
    inversion Hrs2 as [|? r3 ? ? H3 Hrs3]; subst. inversion Hrs3; subst. exists r2.
    assert (Hf : ∀ f, bool_decide (size_of (as_bytes (frame_type f)) < 65536 ∧ default 0 (size_of ∘ as_bytes <$> frame_error f) < 65536) = true → lengths_fit f).
    { intros f [? Hd]%bool_decide_eq_true. split; [done|]. intros e He. by rewrite He in Hd. }
    assert (r1 = Ok a_frame) as -> by by apply H1, Hf. assert (r3 = Ok last_frame) as -> by by apply H3, Hf.
    split; [exact Hr|]. intros E. apply H2 in E as [E _]. by vm_compute in E.
Defined.
Lemma stray_frame_panics_witness : parse_all [0; 0; 0; 0] = None.
Proof. apply (stray_frame_panics []). simpl. lia. Defined.

Definition slow_writer : nat → list bytes → option nat := λ n ss, Some (1 + (length (concat ss) - 1) / 3)%nat.
Lemma slow_progresses : progresses slow_writer.
Proof.
  intros n ss Hss. eexists. split; [reflexivity|]. destruct (concat ss) as [|b bs]; [done|]. simpl length. pose proof (Nat.Div0.div_le_upper_bound (S (length bs) - 1) 3 (length bs)). lia.
Qed.
Lemma raw_frame_roundtrip_witness :
  ∃ wire, write_raw_tensor_frame slow_writer Ask (lit "actors/a") a_tensor = (wire, Ok tt) ∧
    read_raw_tensor_frame (wire ++ [9]) = Ok (mk_raw Ask (lit "actors/a") (mk_tensor 7 (lit "meta") [[1; 2; 3]; []; [255]] OwnedReceive), [9]).
Proof.
  apply (raw_frame_roundtrip slow_writer Ask (lit "actors/a") a_tensor 68 [9]); [apply slow_progresses|by repeat constructor|by split|done|by vm_compute].
Defined.
