(* ===== verification/Http.v ===== *)
(** * Messages over HTTP

    [transport/http2/mod.rs], [client.rs] and [server.rs]: how a message becomes
    a request, what the server does with it, how the answer becomes a response
    and is read. A request or a response is what the other side reads of it: the
    headers that matter, and the body as the pieces it arrives in. The actors
    behind the server are a [Handler] over their state. *)
From S2P Require Import Prelude Text Bytes Float Member Errors Retry Message Frames.

(** A stream of messages is what it yields; messages in a stream are single. *)
Definition Items : Type := list (Result (Message unit) PulsingError).
Definition Msg : Type := Message Items.

(** ** Headers *)

(** src: crates/pulsing-actor/src/transport/http2/mod.rs 148-156 MessageMode *)
Inductive MessageMode := AskMode | TellMode | StreamMode.
(** src: crates/pulsing-actor/src/transport/http2/mod.rs 159-165 MessageMode::as_str *)
Definition mode_str (m : MessageMode) : str := match m with AskMode => "ask" | TellMode => "tell" | StreamMode => "stream" end.
(** src: crates/pulsing-actor/src/transport/http2/mod.rs 187-193 RequestType *)
Inductive RequestType := SingleRequest | StreamRequest.
(** src: crates/pulsing-actor/src/transport/http2/mod.rs 196-201 RequestType::as_str *)
Definition request_type_str (t : RequestType) : str := match t with SingleRequest => "single" | StreamRequest => "stream" end.

Section Parse.
Context `{Lowercase}.
(** src: crates/pulsing-actor/src/transport/http2/mod.rs 167-174 MessageMode::parse *)
Definition parse_mode (s : str) : option MessageMode :=
  let s := to_lowercase s in
  if bool_decide (s = lit "ask") then Some AskMode
  else if bool_decide (s = lit "tell") then Some TellMode
  else if bool_decide (s = lit "stream") then Some StreamMode
  else None.
(** src: crates/pulsing-actor/src/transport/http2/mod.rs 203-209 RequestType::parse *)
Definition parse_request_type (s : str) : option RequestType :=
  let s := to_lowercase s in
  if bool_decide (s = lit "single") then Some SingleRequest
  else if bool_decide (s = lit "stream") then Some StreamRequest
  else None.
End Parse.

(** The [http] crate, by its documentation: a header value is built from text
    that is visible ASCII, and a request from a URI it can parse, which it can
    when the path is made of unreserved characters. *)
Definition visible (c : Z) : bool := (32 <=? c) && (c <? 127).
Definition unreserved (c : Z) : bool := is_ascii_alphanumeric c || bool_decide (c ∈ [45; 46; 95; 126; 47]).
Class HttpRules : Type := {
  header_ok : str → bool;
  uri_ok : str → bool;
  header_visible s : forallb visible s = true → header_ok s = true;
  header_invisible s c : c ∈ s → 127 <= c → header_ok s = false;
  uri_unreserved s : forallb unreserved s = true → uri_ok s = true }.
#[export] Program Instance strict_rules : HttpRules := {| header_ok := forallb visible; uri_ok := forallb unreserved |}.
Next Obligation. done. Qed.
Next Obligation.
  intros s c Hc Hv. apply not_true_iff_false. rewrite forallb_forall. intros Hall. apply list_elem_of_In, Hall in Hc. unfold visible in Hc. lia.
Qed.
Next Obligation. done. Qed.

(** ** Requests and responses *)
Inductive Method := GET | POST | OtherMethod (name : str).
#[export] Instance Method_eq_dec : EqDecision Method.
Proof. solve_decision. Defined.
Definition method_str (m : Method) : str := match m with GET => "GET" | POST => "POST" | OtherMethod name => name end.
Record Request := mk_request {
  rq_method : Method; rq_path : str; rq_query : option str; rq_mode : option str; rq_msg_type : option str; rq_type : option str;
  rq_body : list bytes }.
Record Response := mk_response { rs_status : Z; rs_type : option str; rs_msg_type : option str; rs_body : list bytes }.
Definition is_success (status : Z) : bool := (200 <=? status) && (status <? 300).
(** [StatusCode]'s [Display], of the codes the server answers with. *)
Definition status_str (status : Z) : str :=
  if status =? 200 then "200 OK" else if status =? 202 then "202 Accepted" else if status =? 400 then "400 Bad Request"
  else if status =? 405 then "405 Method Not Allowed" else if status =? 500 then "500 Internal Server Error"
  else if status =? 501 then "501 Not Implemented" else display_u128 status.

(** ** The server *)

(** What a node answers with; the calls of actors may change the state [St].
    src: crates/pulsing-actor/src/transport/http2/server.rs 32-129 Http2ServerHandler *)
Record Handler (St : Type) := mk_handler {
  handle_message_full : str → Msg → St → St * Result Msg PulsingError;
  handle_tell_full : str → Msg → St → St * Result unit PulsingError;
  handle_gossip : bytes → SocketAddr → St → St * Result (option bytes) PulsingError;
  health_check : St → bytes;
  prometheus_metrics : St → bytes;
  cluster_members : St → bytes;
  actors_list : bool → St → bytes;
  handle_client_resolve : str → St → bytes;
  handle_client_members : St → bytes;
  handle_head_api : str → str → bytes → St → St * Result (option bytes) PulsingError }.
Arguments handle_message_full {St}.
Arguments handle_tell_full {St}.
Arguments handle_gossip {St}.
Arguments health_check {St}.
Arguments prometheus_metrics {St}.
Arguments cluster_members {St}.
Arguments actors_list {St}.
Arguments handle_client_resolve {St}.
Arguments handle_client_members {St}.
Arguments handle_head_api {St}.

(** src: crates/pulsing-actor/src/transport/http2/server.rs 887-896 json_response *)
Definition plain_response (status : Z) (body : bytes) : Response := mk_response status None None [body].
(** src: crates/pulsing-actor/src/transport/http2/server.rs 881-884 fallback_500 *)
Definition fallback_500 : Response := plain_response 200 (as_bytes "Internal Server Error").

(** The texts of errors this model keeps as values. *)
Class ErrorTexts : Type := {
  malformed_text : Malformed → str; frame_error_text : FrameError → str; build_error_text : str; lossy : bytes → str;
  malformed_scalars e : Forall is_scalar (malformed_text e) }.
Definition from_utf8_lossy `{ErrorTexts} (b : bytes) : str := default (lossy b) (from_utf8 b).

Section Transport.
Context `{Lowercase, HttpRules, ErrorTexts, Limits}.

(** src: crates/pulsing-actor/src/transport/http2/server.rs 911-926 octet_response_with_headers *)
Definition octet_response_with_headers (status : Z) (body : list bytes) (response_type : str) (msg_type : option str) : Response :=
  if header_ok response_type && match msg_type with Some t => header_ok t | None => true end
  then mk_response status (Some response_type) msg_type body else fallback_500.
Definition error_response (status : Z) (text : str) : Response := plain_response status (as_bytes text).

(** src: crates/pulsing-actor/src/transport/http2/server.rs 676-682 decode_single_or_tensor *)
Definition decode_single_or_tensor (msg_type : str) (body : bytes) : option (Result Msg PulsingError) :=
  if bool_decide (msg_type = TENSOR_MESSAGE_TYPE) then
    r ← decode_wire body;
    Some (match r with Ok t => Ok (Tensor t) | Err e => Err (Runtime (Serialization (malformed_text e))) end)
  else Some (Ok (Single msg_type body)).
(** src: crates/pulsing-actor/src/transport/http2/server.rs 684-700 collect_actor_body *)
Definition collect_actor_body (body : list bytes) (is_tensor : bool) : Result bytes str :=
  if is_tensor && (max_tensor_wire_bytes <? size_of (concat body)) then Err (lit "length limit exceeded") else Ok (concat body).

(** What a chunk's frames yield, and whether the reading goes on.
    src: crates/pulsing-actor/src/transport/http2/server.rs 716-746 parse_streaming_request (frames) *)
Fixpoint request_items (rs : list (Result StreamFrame FrameError)) : Items * bool :=
  match rs with
  | [] => ([], true)
  | Err e :: _ => ([Err (Runtime (Other (frame_error_text e)))], false)
  | Ok f :: rs =>
      if frame_end f && bool_decide (frame_data f = []) then request_items rs
      else
        match to_message f with
        | Ok (Some m) => let '(items, go) := request_items rs in (Ok m :: items, go)
        | Ok None => request_items rs
        | Err e => ([Err (Runtime (Other e))], false)
        end
  end.
(** [None] is a panic of the task that reads.
    src: crates/pulsing-actor/src/transport/http2/server.rs 703-758 parse_streaming_request *)
Fixpoint parse_streaming_request (buffer : bytes) (chunks : list bytes) : option Items :=
  match chunks with
  | [] => Some []
  | c :: chunks =>
      '(rs, buffer) ← parse_all (push c buffer);
      let '(items, go) := request_items rs in
      if (go : bool) then rest ← parse_streaming_request buffer chunks; Some (items ++ rest) else Some items
  end.

(** The frames a stream is sent as.
    src: crates/pulsing-actor/src/transport/http2/server.rs 803-821 handle_message_request_full (stream) *)
Definition stream_frames (default_msg_type : str) (items : Items) : list StreamFrame :=
  ((λ r, match r with Ok m => from_message m default_msg_type | Err e => error_frame (display e) end) <$> items) ++ [end_frame].

Section Server.
Context {St : Type} (h : Handler St) (resolve_path : bytes → str).

(** src: crates/pulsing-actor/src/transport/http2/server.rs 777-848 handle_message_request_full *)
Definition handle_message_request_full (path : str) (msg : Msg) (st : St) : St * Response :=
  let '(st, r) := handle_message_full h path msg st in
  (st,
   match r with
   | Ok (Single msg_type data) => octet_response_with_headers 200 [data] (lit "single") (Some msg_type)
   | Ok (Stream default_msg_type items) =>
       octet_response_with_headers 200 (to_binary <$> stream_frames default_msg_type items) (lit "stream") None
   | Ok (Tensor t) =>
       match encode_wire t with
       | Ok wire => octet_response_with_headers 200 [wire] (lit "tensor") None
       | Err e => error_response 500 (display (Runtime (Serialization (malformed_text e))))
       end
   | Err e => error_response 500 (display e)
   end).
(** src: crates/pulsing-actor/src/transport/http2/server.rs 850-863 handle_tell_request_full *)
Definition handle_tell_request_full (path : str) (msg : Msg) (st : St) : St * Response :=
  let '(st, r) := handle_tell_full h path msg st in
  (st, match r with Ok _ => mk_response 202 None None [] | Err e => error_response 500 (display e) end).
(** src: crates/pulsing-actor/src/transport/http2/server.rs 761-774 handle_gossip_request *)
Definition handle_gossip_request (payload : bytes) (peer : SocketAddr) (st : St) : St * Response :=
  let '(st, r) := handle_gossip h payload peer st in
  (st,
   match r with
   | Ok (Some response) => plain_response 200 response
   | Ok None => mk_response 200 None None []
   | Err e => error_response 500 (display e)
   end).
(** src: crates/pulsing-actor/src/transport/http2/server.rs 532-566 handle_request (head) *)
Definition handle_head_request (req : Request) (st : St) : St * Response :=
  let '(st, r) := handle_head_api h (rq_path req) (method_str (rq_method req)) (concat (rq_body req)) st in
  (st,
   match r with
   | Ok (Some body) => plain_response 200 body
   | Ok None => error_response 501 (lit "Head node API not supported by this handler")
   | Err e => error_response 500 (display e)
   end).

(** A single message: its body is collected and decoded.
    src: crates/pulsing-actor/src/transport/http2/server.rs 615-636 handle_request (tell) *)
Definition read_message (msg_type : str) (body : list bytes) : option (Result Msg Response) :=
  match collect_actor_body body (bool_decide (msg_type = TENSOR_MESSAGE_TYPE)) with
  | Err e => Some (Err (error_response 400 (lit "Failed to read body: " ++ e)))
  | Ok body =>
      r ← decode_single_or_tensor msg_type body;
      Some (match r with Ok msg => Ok msg | Err e => Err (error_response 400 (display e)) end)
  end.
(** Messages to actors.
    src: crates/pulsing-actor/src/transport/http2/server.rs 568-671 handle_request (messages) *)
Definition handle_actor_request (req : Request) (peer : SocketAddr) (st : St) : option (St * Response) :=
  if bool_decide (rq_method req ≠ POST) then Some (st, error_response 405 (lit "Method not allowed"))
  else
    let mode := default AskMode (rq_mode req ≫= parse_mode) in
    let msg_type := default [] (rq_msg_type req) in
    let request_type := default SingleRequest (rq_type req ≫= parse_request_type) in
    if bool_decide (rq_path req = lit "/cluster/gossip") then Some (handle_gossip_request (concat (rq_body req)) peer st)
    else
      match mode, request_type with
      | TellMode, _ =>
          r ← read_message msg_type (rq_body req);
          Some (match r with Ok msg => handle_tell_request_full (rq_path req) msg st | Err resp => (st, resp) end)
      | _, SingleRequest =>
          r ← read_message msg_type (rq_body req);
          Some (match r with Ok msg => handle_message_request_full (rq_path req) msg st | Err resp => (st, resp) end)
      | _, StreamRequest =>
          items ← parse_streaming_request [] (rq_body req);
          Some (handle_message_request_full (rq_path req) (Stream msg_type items) st)
      end.
(** The bodies arrive whole; [None] is a panic.
    src: crates/pulsing-actor/src/transport/http2/server.rs 435-674 handle_request *)
Definition handle_request (req : Request) (peer : SocketAddr) (st : St) : option (St * Response) :=
  let path := rq_path req in
  let get := bool_decide (rq_method req = GET) in
  if bool_decide (path = lit "/health") && get then Some (st, plain_response 200 (health_check h st))
  else if bool_decide (path = lit "/metrics") && get then Some (st, plain_response 200 (prometheus_metrics h st))
  else if bool_decide (path = lit "/cluster/members") && get then Some (st, plain_response 200 (cluster_members h st))
  else if (bool_decide (path = lit "/actors") || bool_decide (path = lit "/actors/")) && get then
    let include_internal := match rq_query req with Some q => contains (lit "all=true") q | None => false end in
    Some (st, plain_response 200 (actors_list h include_internal st))
  else if bool_decide (path = lit "/client/resolve") && bool_decide (rq_method req = POST) then
    Some (st, plain_response 200 (handle_client_resolve h (resolve_path (concat (rq_body req))) st))
  else if bool_decide (path = lit "/client/members") && get then Some (st, plain_response 200 (handle_client_members h st))
  else if starts_with (lit "/cluster/head/") path then Some (handle_head_request req st)
  else handle_actor_request req peer st.
End Server.

(** ** The client *)

(** src: crates/pulsing-actor/src/transport/http2/client.rs 843-861 send_request (request) *)
Definition build_request (path msg_type : str) (payload : bytes) (mode : MessageMode) : Result Request PulsingError :=
  if uri_ok path && header_ok msg_type then Ok (mk_request POST path None (Some (mode_str mode)) (Some msg_type) None [payload])
  else Err (Runtime (ProtocolError (lit "Failed to build request: " ++ build_error_text))).
(** src: crates/pulsing-actor/src/transport/http2/client.rs 669-687 send_stream_request (request) *)
Definition build_stream_request (path msg_type : str) (items : Items) : Result Request PulsingError :=
  if uri_ok path && header_ok msg_type then
    Ok (mk_request POST path None (Some (mode_str AskMode)) (Some msg_type) (Some (request_type_str StreamRequest)) (to_binary <$> stream_frames msg_type items))
  else Err (Runtime (ProtocolError (lit "Failed to build request: " ++ build_error_text))).

(** src: crates/pulsing-actor/src/transport/http2/client.rs 179-197 ask_once (response) *)
Definition read_ask_response (r : Response) : Result bytes PulsingError :=
  if is_success (rs_status r) then Ok (concat (rs_body r))
  else Err (Runtime (InvalidResponse (lit "status " ++ status_str (rs_status r) ++ lit ": " ++ from_utf8_lossy (concat (rs_body r))))).
(** src: crates/pulsing-actor/src/transport/http2/client.rs 227-243 tell_once (response) *)
Definition read_tell_response (addr : str) (r : Response) : Result unit PulsingError :=
  if is_success (rs_status r) then Ok tt
  else Err (Runtime (InvalidResponse (lit "tell status " ++ status_str (rs_status r) ++ lit " to " ++ addr ++ lit ": " ++ from_utf8_lossy (concat (rs_body r))))).

(** The items of a streamed response.
    src: crates/pulsing-actor/src/transport/http2/client.rs 738-747 parse_response (items) *)
Definition response_item (r : Result StreamFrame FrameError) : option (Result (Message unit) PulsingError) :=
  match r with
  | Ok f => match to_message f with Ok (Some m) => Some (Ok m) | Ok None => None | Err e => Some (Err (Runtime (Other e))) end
  | Err e => Some (Err (Runtime (Other (frame_error_text e))))
  end.
(** [None] is a panic. The body arrives whole and in time.
    src: crates/pulsing-actor/src/transport/http2/client.rs 702-776 parse_response *)
Definition parse_response (r : Response) : option (Result Msg PulsingError) :=
  if negb (is_success (rs_status r)) then
    Some (Err (Runtime (InvalidResponse (status_str (rs_status r) ++ lit " - " ++ from_utf8_lossy (concat (rs_body r))))))
  else
    let response_type := default (lit "single") (rs_type r) in
    if bool_decide (response_type = lit "stream") then
      match receive [] (rs_body r) with
      | Some (rs, _) => Some (Ok (Stream [] (omap response_item rs)))
      | None => None
      end
    else if bool_decide (response_type = lit "tensor") then
      if max_tensor_wire_bytes <? size_of (concat (rs_body r)) then Some (Err (Runtime (Io (lit "length limit exceeded"))))
      else
        match decode_wire (concat (rs_body r)) with
        | Some (Ok t) => Some (Ok (Tensor t))
        | Some (Err e) => Some (Err (Runtime (Serialization (malformed_text e))))
        | None => None
        end
    else Some (Ok (Single (default [] (rs_msg_type r)) (concat (rs_body r)))).

(** The request a message becomes, when tensors are not sent raw.
    src: crates/pulsing-actor/src/transport/http2/client.rs 330-361 send_message_full *)
Definition build_message_request (path : str) (msg : Msg) : Result Request PulsingError :=
  match msg with
  | Single msg_type data => build_request path msg_type data AskMode
  | Stream default_msg_type items => build_stream_request path default_msg_type items
  | Tensor t =>
      match encode_wire t with
      | Ok wire => build_request path TENSOR_MESSAGE_TYPE wire AskMode
      | Err e => Err (Runtime (Serialization (malformed_text e)))
      end
  end.

(** A call that is repeated: the [n]-th exchange yields [outcome n], and a fault
    injector may answer at once.
    src: crates/pulsing-actor/src/transport/http2/client.rs 152-166 ask *)
Definition ask (c : RetryConfig) (nanos : nat → Z) (fault : option PulsingError) (outcome : nat → Request → Result Response PulsingError)
    (path msg_type : str) (payload : bytes) : Result bytes PulsingError * nat * list Z :=
  match fault with
  | Some e => (Err e, O, [])
  | None => execute c true nanos (λ n, let? req := build_request path msg_type payload AskMode in let? r := outcome n req in read_ask_response r)
  end.
(** src: crates/pulsing-actor/src/transport/http2/client.rs 200-214 tell *)
Definition tell (c : RetryConfig) (nanos : nat → Z) (fault : option PulsingError) (outcome : nat → Request → Result Response PulsingError)
    (addr path msg_type : str) (payload : bytes) : Result unit PulsingError * nat * list Z :=
  match fault with
  | Some e => (Err e, O, [])
  | None => execute c false nanos (λ n, let? req := build_request path msg_type payload TellMode in let? r := outcome n req in read_tell_response addr r)
  end.
End Transport.

(** ** Properties of messages over HTTP

    A call of an actor on another node is a call of that node's handler: what is
    delivered and what comes back, for every kind of message, however the
    transport cuts the bodies. *)
Section Facts.
Context `{Lowercase, HttpRules, ErrorTexts, Limits}.

(** ** What is delivered and what comes back *)
Definition item_type (default_msg_type t : str) : str := if bool_decide (t = []) then default_msg_type else t.
(** Of a stream sent as a request, the single messages arrive. *)
Definition delivered_items (default_msg_type : str) (items : Items) : Items :=
  omap (λ r, match r with Ok (Single t d) => Some (Ok (Single (item_type default_msg_type t) d)) | _ => None end) items.
Definition packed_tensor (t : TensorMessage) : TensorMessage := mk_tensor (version t) (metadata t) (buffers t) PackedWire.
Definition delivered (m : Msg) : Msg :=
  match m with
  | Single t d => Single t d
  | Stream default_msg_type items => Stream default_msg_type (delivered_items default_msg_type items)
  | Tensor t => Tensor (packed_tensor t)
  end.
(** Of a streamed response, everything arrives, errors as texts. *)
Definition received_item (default_msg_type : str) (r : Result (Message unit) PulsingError) : Result (Message unit) PulsingError :=
  match r with
  | Ok (Single t d) => Ok (Single (item_type default_msg_type t) d)
  | Ok (Stream _ _) => Err (Runtime (Other (lit "Nested streams are not supported")))
  | Ok (Tensor _) => Err (Runtime (Other (lit "Tensor messages cannot be nested in streams")))
  | Err e => Err (Runtime (Other (display e)))
  end.
Definition failed_answer (e : PulsingError) : Result Msg PulsingError :=
  Err (Runtime (InvalidResponse (lit "500 Internal Server Error - " ++ display e))).
(** A single message whose type is no header value cannot be encoded, and what
    is meant to be an error is received as a message; a tensor that cannot be
    packed is an error. *)
Definition received (r : Result Msg PulsingError) : Result Msg PulsingError :=
  match r with
  | Ok (Single t d) => if header_ok t then Ok (Single t d) else Ok (Single [] (as_bytes "Internal Server Error"))
  | Ok (Stream default_msg_type items) => Ok (Stream [] (received_item default_msg_type <$> items))
  | Ok (Tensor t) =>
      match encode_wire t with
      | Ok _ => Ok (Tensor (packed_tensor t))
      | Err e => failed_answer (Runtime (Serialization (malformed_text e)))
      end
  | Err e => failed_answer e
  end.

(** What fits the fields of a frame and of the packed format. *)
Definition items_fit (default_msg_type : str) (items : Items) : Prop :=
  Forall (λ f, frame_ok f ∧ Forall is_byte (frame_data f)) (stream_frames default_msg_type items).
Definition request_fits (m : Msg) : Prop :=
  match m with
  | Single t _ => t ≠ TENSOR_MESSAGE_TYPE
  | Stream default_msg_type items => items_fit default_msg_type items
  | Tensor t => is_u32 (version t)
  end.
Definition answer_fits (r : Result Msg PulsingError) : Prop :=
  match r with
  | Ok (Single _ _) => True
  | Ok (Stream default_msg_type items) => items_fit default_msg_type items
  | Ok (Tensor t) => is_u32 (version t)
  | Err e => Forall is_scalar (display e)
  end.
Definition actor_path (path : str) : Prop := starts_with (lit "/actors/") path = true ∨ starts_with (lit "/named/") path = true.
Definition cut_request (chunks : list bytes) (req : Request) : Request :=
  mk_request (rq_method req) (rq_path req) (rq_query req) (rq_mode req) (rq_msg_type req) (rq_type req) chunks.
Definition cut_response (chunks : list bytes) (r : Response) : Response := mk_response (rs_status r) (rs_type r) (rs_msg_type r) chunks.

(** ** Streams *)
Lemma received_frames default_msg_type items chunks : items_fit default_msg_type items →
  concat chunks = concat (to_binary <$> stream_frames default_msg_type items) →
  receive [] chunks = Some (Ok <$> stream_frames default_msg_type items, []).
Proof.
  intros Hfit Hc. destruct (parse_all_frames _ Hfit) as [Hb Hp]. rewrite <- Hc in *. rewrite (receive_parses []) by done. by rewrite app_nil_l.
Qed.

Lemma response_items default_msg_type items :
  omap response_item (Ok <$> stream_frames default_msg_type items) = received_item default_msg_type <$> items.
Proof.
  unfold stream_frames. rewrite fmap_app, omap_app. cbn. rewrite app_nil_r. induction items as [|[[t d|dt []|t]|e] items IH]; [done|..]; cbn; by f_equal.
Qed.

Lemma request_items_app rs rs' : request_items (rs ++ rs') =
  let '(items, go) := request_items rs in if go then (items ++ (request_items rs').1, (request_items rs').2) else (items, false).
Proof.
  induction rs as [|[f|e] rs IH]; cbn [request_items app]; [by destruct (request_items rs')| |done].
  rewrite IH. destruct (frame_end f && _); [by destruct (request_items rs) as [? []]|].
  destruct (to_message f) as [[m|]|e]; [|by destruct (request_items rs) as [? []]|done]. by destruct (request_items rs) as [? []].
Qed.
Lemma streaming_request chunks buffer rs rest : receive buffer chunks = Some (rs, rest) →
  parse_streaming_request buffer chunks = Some (request_items rs).1.
Proof.
  revert buffer rs rest. induction chunks as [|c chunks IH]; intros buffer rs rest; cbn [receive parse_streaming_request]; [by intros [= <- <-]|].
  destruct (parse_all (push c buffer)) as [[rs1 b1]|]; [|done]. cbn [mbind option_bind].
  destruct (receive b1 chunks) as [[rs2 b2]|] eqn:E; [|done]. cbn [mbind option_bind]. intros [= <- <-].
  rewrite request_items_app. destruct (request_items rs1) as [items []]; [|done]. by rewrite (IH _ _ _ E).
Qed.
Lemma delivered_frames default_msg_type items : (request_items (Ok <$> stream_frames default_msg_type items)).1 = delivered_items default_msg_type items.
Proof.
  unfold stream_frames. induction items as [|[[t d|dt []|t]|e] items IH]; [done|..]; cbn in *; try exact IH.
  destruct (request_items _) as [its go]. simpl in *. by rewrite IH.
Qed.

(** ** The server's routes *)
Lemma starts_with_cons (a : Z) (p s : str) : starts_with (a :: p) s = true → ∃ s', s = a :: s' ∧ starts_with p s' = true.
Proof. intros (t & ->)%starts_with_spec. exists (p ++ t). split; [done|]. apply starts_with_spec. by exists t. Qed.
Ltac open_path Hp := repeat (apply starts_with_cons in Hp as (? & -> & Hp)).

Lemma actor_route {St} (h : Handler St) rp req peer st : actor_path (rq_path req) → rq_method req = POST →
  handle_request h rp req peer st = handle_actor_request h req peer st.
Proof.
  intros Hp Hm. unfold handle_request. rewrite Hm. cbv zeta. rewrite (bool_decide_false (POST = GET)) by done. rewrite !andb_false_r.
  replace (bool_decide (rq_path req = lit "/client/resolve")) with false; [|symmetry; apply bool_decide_eq_false; intros Heq; rewrite Heq in Hp; by destruct Hp].
  replace (starts_with (lit "/cluster/head/") (rq_path req)) with false; [done|]. symmetry. apply not_true_iff_false. intros (t & Ht)%starts_with_spec.
  rewrite Ht in Hp. destruct Hp as [(u & Hu)%starts_with_spec|(u & Hu)%starts_with_spec]; discriminate Hu.
Qed.
Lemma not_gossip path : actor_path path → path ≠ lit "/cluster/gossip".
Proof. intros Hp ->. by destruct Hp. Qed.

Lemma mode_ask : (Some (mode_str AskMode) ≫= parse_mode) = Some AskMode.
Proof. simpl. unfold parse_mode. rewrite lowercase_ascii by done. done. Qed.
Lemma type_stream : (Some (request_type_str StreamRequest) ≫= parse_request_type) = Some StreamRequest.
Proof. simpl. unfold parse_request_type. rewrite lowercase_ascii by done. done. Qed.
Lemma packable_size t w : encode_wire t = Ok w → size_of w <= max_tensor_wire_bytes.
Proof. intros [Hp ->]%encode_wire_Ok. destruct Hp as (_ & _ & _ & Hs). by rewrite packed_size_ok. Qed.

Ltac read_mode := match goal with |- context [Some ?x ≫= parse_mode] => change (Some x ≫= parse_mode) with (Some (mode_str AskMode) ≫= parse_mode) end; rewrite mode_ask.
Ltac read_type := match goal with |- context [Some ?x ≫= parse_request_type] => change (Some x ≫= parse_request_type) with (Some (request_type_str StreamRequest) ≫= parse_request_type) end; rewrite type_stream.

(** The request reaches the handler as the message that arrives. *)
Lemma delivered_request {St} (h : Handler St) rp path m req chunks peer st :
  actor_path path → request_fits m → build_message_request path m = Ok req → concat chunks = concat (rq_body req) →
  handle_request h rp (cut_request chunks req) peer st = Some (handle_message_request_full h path (delivered m) st).
Proof.
  intros Hp Hfit Hb Hc. assert (Hpath : rq_path req = path ∧ rq_method req = POST).
  { destruct m as [t d|dt items|t]; cbn [build_message_request] in Hb; [|unfold build_stream_request in Hb|destruct (encode_wire t); [|done]];
      unfold build_request in Hb; destruct (_ && _); by simplify_eq. }
  destruct Hpath as [Hpath Hm]. rewrite actor_route by (simpl; by rewrite ?Hpath). unfold handle_actor_request. cbn [cut_request rq_method rq_path rq_mode rq_msg_type rq_type rq_body].
  rewrite Hm, Hpath. rewrite (bool_decide_false (POST ≠ POST)) by naive_solver. cbv zeta. rewrite (bool_decide_false (path = _)) by by apply not_gossip.
  destruct m as [t d|dt items|t]; cbn [build_message_request] in Hb.
  - unfold build_request in Hb. destruct (uri_ok path && header_ok t); [|done]. injection Hb as <-. cbn [rq_mode rq_type rq_msg_type rq_body] in *.
    read_mode. cbn [default mbind option_bind]. unfold read_message, collect_actor_body, decode_single_or_tensor. simpl in Hfit.
    rewrite (bool_decide_false (t = _)) by done. simpl. rewrite Hc. simpl. by rewrite app_nil_r.
  - unfold build_stream_request in Hb. destruct (uri_ok path && header_ok dt); [|done]. injection Hb as <-. cbn [rq_mode rq_type rq_msg_type rq_body] in *.
    read_mode. read_type. cbn [default]. rewrite (streaming_request _ _ _ _ (received_frames dt items chunks Hfit Hc)), delivered_frames. done.
  - destruct (encode_wire t) as [w|] eqn:Ew; [|done]. unfold build_request in Hb. destruct (_ && _); [|done]. injection Hb as <-.
    cbn [rq_mode rq_type rq_msg_type rq_body] in *. read_mode. cbn [default mbind option_bind].
    unfold read_message, collect_actor_body, decode_single_or_tensor. rewrite !(bool_decide_true (TENSOR_MESSAGE_TYPE = _)) by done.
    rewrite Hc. cbn [concat]. rewrite app_nil_r. pose proof (packable_size t w Ew). cbn [andb]. bool_cond.
    apply encode_wire_Ok in Ew as [Hpk ->]. by rewrite decode_packed.
Qed.

Lemma failed_response e chunks : Forall is_scalar (display e) → concat chunks = concat (rs_body (error_response 500 (display e))) →
  parse_response (cut_response chunks (error_response 500 (display e))) = Some (failed_answer e).
Proof.
  intros He Hc. unfold parse_response, cut_response. cbn in *. rewrite app_nil_r in Hc. rewrite Hc. unfold from_utf8_lossy.
  by rewrite from_utf8_as_bytes.
Qed.

(** The answer is read as what was answered. *)
Lemma received_response {St} (h : Handler St) path m st chunks :
  let '(st', r) := handle_message_full h path m st in
  let '(st'', resp) := handle_message_request_full h path m st in
  answer_fits r → concat chunks = concat (rs_body resp) → st'' = st' ∧ parse_response (cut_response chunks resp) = Some (received r).
Proof.
  unfold handle_message_request_full. destruct (handle_message_full h path m st) as [st' r]. intros Hfit Hc. split; [done|].
  assert (Hs : header_ok (lit "single") = true ∧ header_ok (lit "stream") = true ∧ header_ok (lit "tensor") = true) by (split_and!; by apply header_visible).
  destruct Hs as (Hs1 & Hs2 & Hs3). destruct r as [[t d|dt items|t]|e]; simpl in Hfit.
  - unfold octet_response_with_headers in *. rewrite Hs1 in *. cbn [received]. destruct (header_ok t); cbn [andb] in *;
      unfold parse_response, cut_response; cbn in *; rewrite app_nil_r in Hc; by rewrite Hc.
  - unfold octet_response_with_headers in *. rewrite Hs2 in *. unfold parse_response, cut_response. cbn [rs_status rs_type rs_body rs_msg_type andb] in *. cbn.
    rewrite (received_frames dt items chunks Hfit Hc). cbn [received]. by rewrite response_items.
  - cbn [received]. destruct (encode_wire t) as [w|e] eqn:Ew.
    + unfold octet_response_with_headers in *. rewrite Hs3 in *. unfold parse_response, cut_response. cbn [rs_status rs_type rs_body rs_msg_type andb] in *. cbn.
      cbn [concat] in Hc. rewrite app_nil_r in Hc. rewrite Hc. pose proof (packable_size _ _ Ew). bool_cond.
      apply encode_wire_Ok in Ew as [Hpk ->]. by rewrite decode_packed.
    + apply (failed_response (Runtime (Serialization (malformed_text e)))); [|done].
      apply Forall_app. split; [by repeat constructor|]. apply Forall_app. split; [by repeat constructor|]. apply malformed_scalars.
  - by apply failed_response.
Qed.

(** C17: A message for an actor on another node, whose request can be built, calls
    that node's handler once, with the path and what is delivered of the message:
    a single message (of a type other than the reserved one) and a tensor as they
    are; of a stream the single messages in order, without its errors and what cannot
    be nested. What the handler answers is what the caller receives: a tensor as
    it is, a stream item by item with errors as texts, an error, and a tensor that
    cannot be packed, as the text of a failed request; a single message as it is if
    its type is a header value, and otherwise as a success that holds the text of an
    error. The types and error texts in streams are shorter than 64 KiB, and their
    items under 4 GiB. The transport may cut both bodies anywhere. *)
Theorem remote_call_is_local {St} (h : Handler St) rp path m req peer st chunks :
  actor_path path → request_fits m → build_message_request path m = Ok req → concat chunks = concat (rq_body req) →
  let '(st', r) := handle_message_full h path (delivered m) st in
  answer_fits r →
  ∃ resp, handle_request h rp (cut_request chunks req) peer st = Some (st', resp) ∧
    ∀ chunks', concat chunks' = concat (rs_body resp) → parse_response (cut_response chunks' resp) = Some (received r).
Proof.
  intros Hp Hfit Hb Hc. rewrite (delivered_request h rp path m req chunks peer st) by done.
  pose proof (received_response h path (delivered m) st) as Hr.
  destruct (handle_message_full h path (delivered m) st) as [st' r]. destruct (handle_message_request_full h path (delivered m) st) as [st'' resp].
  intros Ha. exists resp. split.
  - by destruct (Hr (rs_body resp) Ha eq_refl) as [-> _].
  - intros chunks' Hc'. by destruct (Hr chunks' Ha Hc') as [_ ?].
Qed.

(** The error of a stream that is sent as a request is lost: what fails to be
    read at the sender, and every message that cannot be nested, is a frame that
    the server takes for the end of the stream and skips. The actor sees a
    stream without errors, shorter than what was sent. *)
Theorem request_stream_errors_vanish default_msg_type items chunks :
  items_fit default_msg_type items → concat chunks = concat (to_binary <$> stream_frames default_msg_type items) →
  parse_streaming_request [] chunks = Some (delivered_items default_msg_type items) ∧
  Forall (λ r, ∃ t d, r = Ok (Single t d)) (delivered_items default_msg_type items).
Proof.
  intros Hfit Hc. rewrite (streaming_request _ _ _ _ (received_frames _ _ _ Hfit Hc)), delivered_frames. split; [done|].
  apply Forall_forall. intros r (x & _ & Hx)%list_elem_of_omap. destruct x as [[t d|? ?|?]|e]; simplify_eq. eauto.
Qed.

(** When an actor answers with a type that is no header value, the response
    cannot be built and the fallback is sent, which is meant to be an error and
    has status 200: the caller receives a message that says so as data. *)
Theorem unencodable_answer_succeeds {St} (h : Handler St) path m st st' t d c :
  handle_message_full h path m st = (st', Ok (Single t d)) → c ∈ t → 127 <= c →
  parse_response (handle_message_request_full h path m st).2 = Some (Ok (Single [] (as_bytes "Internal Server Error"))).
Proof.
  intros Hm Hc Hbig. unfold handle_message_request_full. rewrite Hm. unfold octet_response_with_headers.
  rewrite (header_invisible t c) by done. by rewrite andb_false_r.
Qed.

(** ** Repeated calls *)

(** A request that the peer answers with an internal error is sent again until
    the attempts are used up, as every [ask] counts as safe to repeat: an actor
    whose handling fails handles the request [max_retries + 1] times. *)
Theorem failed_ask_is_repeated c nanos path msg_type payload req e :
  0 <= max_retries c → build_request path msg_type payload AskMode = Ok req → Forall is_scalar e →
  contains (lit "backing off") (to_lowercase (to_lowercase (display (Runtime (InvalidResponse (lit "status 500 Internal Server Error: " ++ e)))))) = false →
  let '(r, calls, _) := ask c nanos None (λ _ _, Ok (error_response 500 e)) path msg_type payload in
  r = Err (Runtime (InvalidResponse (lit "status 500 Internal Server Error: " ++ e))) ∧ Z.of_nat calls = max_retries c + 1.
Proof.
  intros Hm Hb He Hno. unfold ask. set (err := Runtime _) in *.
  set (f := λ _ : nat, _). assert (Hf : ∀ n, f n = Err err).
  { intros n. unfold f. rewrite Hb. cbn. unfold from_utf8_lossy. rewrite app_nil_r, from_utf8_as_bytes by done. done. }
  destruct (execute c true nanos f) as [[r calls] pauses] eqn:E. unfold execute in E.
  apply execute_from_spec in E as (E1 & E2 & _ & E4 & _); [|lia..]. rewrite Hf in E2. split; [done|].
  destruct (E4 err) as [->|Hw]; [done|lia|]. exfalso. revert Hw. unfold worth_it, classify_pulsing, classify_msg.
  rewrite Hno. assert (H500 : contains (lit "500") (to_lowercase (to_lowercase (display err))) = true).
  { change (lit "500") with (to_ascii_lowercase (lit "500")) at 1. apply lowercase_contains; [done|].
    change (lit "500") with (to_ascii_lowercase (lit "500")) at 1. apply lowercase_contains; [done|]. apply contains_spec.
    exists (lit "Runtime error: Invalid response: status "), (lit " Internal Server Error: " ++ e). done. }
  unfold any_of. repeat (case_match; try done); simpl in *; rewrite ?orb_true_r in *; try by destruct (idempotent_only c).
  all: rewrite H500 in *; done.
Qed.
End Facts.

(** ** Examples *)
#[local] Instance short_texts : ErrorTexts :=
  {| malformed_text _ := lit "malformed"; frame_error_text _ := lit "frame"; build_error_text := lit "http"; lossy _ := []; malformed_scalars _ := ltac:(by repeat constructor) |}.
Definition broken_stream : Items := [Ok (Single "a" [1]); Err (Runtime ClusterNotInitialized); Ok (Single [] [2])].
Lemma broken_stream_fits : items_fit "x" broken_stream.
Proof. unfold items_fit. repeat (apply Forall_cons; split; [split; [frame_ok_tac|by repeat constructor]|]). constructor. Qed.
(** A node that counts its calls and answers with a stream. *)
Definition streaming (answer : Result Msg PulsingError) : Handler nat := {|
  handle_message_full _ _ n := (S n, answer); handle_tell_full _ _ n := (S n, Ok tt); handle_gossip _ _ n := (n, Ok None);
  health_check _ := []; prometheus_metrics _ := []; cluster_members _ := []; actors_list _ _ := []; handle_client_resolve _ _ := [];
  handle_client_members _ := []; handle_head_api _ _ _ n := (n, Ok None) |}.
Definition ping : Msg := Single "ping" [1; 2].
Definition ping_request : Request := mk_request POST "/actors/echo" None (Some (mode_str AskMode)) (Some (lit "ping")) None [[1; 2]].
Definition localhost : SocketAddr := mk_addr (V4 2130706433) 9000.

Lemma remote_call_is_local_witness :
  actor_path "/actors/echo" ∧ request_fits ping ∧ build_message_request "/actors/echo" ping = Ok ping_request ∧
  ∃ resp, handle_request (streaming (Ok (Stream "x" broken_stream))) (λ _, []) (cut_request [[1]; []; [2]] ping_request) localhost 0%nat = Some (1%nat, resp) ∧
    ∀ chunks', concat chunks' = concat (rs_body resp) →
      parse_response (cut_response chunks' resp) = Some (received (Ok (Stream "x" broken_stream))).
Proof.
  assert (Hp : actor_path "/actors/echo") by by left. assert (Hb : build_message_request "/actors/echo" ping = Ok ping_request) by (vm_compute; reflexivity).
  split_and!; [done|done|done|].
  apply (remote_call_is_local (streaming (Ok (Stream "x" broken_stream))) (λ _, []) "/actors/echo" ping ping_request localhost 0%nat [[1]; []; [2]] Hp ltac:(done) Hb eq_refl).
  apply broken_stream_fits.
Defined.

Lemma request_stream_errors_vanish_witness :
  items_fit "x" broken_stream ∧
  parse_streaming_request [] (to_binary <$> stream_frames "x" broken_stream) = Some (delivered_items "x" broken_stream) ∧
  Forall (λ r, ∃ t d, r = Ok (Single t d)) (delivered_items "x" broken_stream).
Proof. split; [apply broken_stream_fits|]. apply request_stream_errors_vanish; [apply broken_stream_fits|reflexivity]. Defined.

Lemma unencodable_answer_succeeds_witness :
  parse_response (handle_message_request_full (streaming (Ok (Single [233] [1]))) "/actors/echo" ping 0%nat).2 =
    Some (Ok (Single [] (as_bytes "Internal Server Error"))).
Proof. apply (unencodable_answer_succeeds _ _ _ _ 1%nat [233] [1] 233); [reflexivity|apply list_elem_of_here|lia]. Defined.

Lemma failed_ask_is_repeated_witness :
  let '(r, calls, _) := ask RetryConfig_default (λ _, 0) None (λ _ _, Ok (error_response 500 "Actor error: no stock")) "/actors/shop" "buy" [1] in
  r = Err (Runtime (InvalidResponse (lit "status 500 Internal Server Error: " ++ "Actor error: no stock"))) ∧ Z.of_nat calls = 3 + 1.
Proof.
  eapply (failed_ask_is_repeated RetryConfig_default (λ _, 0) "/actors/shop" "buy" [1]); [simpl; lia|reflexivity|by repeat constructor|vm_compute; reflexivity].
Defined.
