(* ===== verification/Exchange.v ===== *)
(** * Raw tensor connections and the transport behind a reference

    [transport/http2/server.rs] and [client.rs], the calls that send tensors over
    a connection of their own, and [transport/http2/mod.rs], the remote transport
    that asks its circuit breaker before it lets a call out. A connection is the
    bytes that went each way. *)
From S2P Require Import Prelude Text Bytes Float Address Member Atomic Errors Retry Message Frames Http Pool Breaker.

(** ** Which way a tensor goes *)

(** src: crates/pulsing-actor/src/transport/tensor.rs 476-485 TensorCopyModel *)
Inductive TensorCopyModel := PackedHttp2Copy | DirectTcpCopy | SharedMemoryCopy.
(** src: crates/pulsing-actor/src/transport/tensor.rs 493-498 TensorTransportPreference *)
Inductive TensorTransportPreference := PreferAuto | PreferTcp | PreferHttp2 | PreferShm.
(** The value of the variable, if it is set.
    src: crates/pulsing-actor/src/transport/tensor.rs 501-512 from_environment *)
Definition preference_from_environment (var : option str) : TensorTransportPreference :=
  let v := to_ascii_lowercase (default (lit "auto") var) in
  if bool_decide (v ∈ [lit "http2"; lit "legacy"; lit "off"]) then PreferHttp2
  else if bool_decide (v ∈ [lit "shm"; lit "shared_memory"; lit "shared-memory"]) then PreferShm
  else if bool_decide (v ∈ [lit "tcp"; lit "raw"; lit "direct_tcp"; lit "direct-tcp"]) then PreferTcp
  else PreferAuto.
(** src: crates/pulsing-actor/src/transport/tensor.rs 519-523 TensorTransportLocality *)
Inductive TensorTransportLocality := SameProcess | SameHost | RemoteHost.
(** src: crates/pulsing-actor/src/transport/tensor.rs 527-530 TensorTransportCapabilities *)
Record TensorTransportCapabilities := mk_capabilities { direct_tcp : bool; shared_memory : bool }.
(** src: crates/pulsing-actor/src/transport/tensor.rs 534-538 TensorTransportRoute *)
Inductive TensorTransportRoute := RouteShm | RouteTcp | RouteHttp2.
#[export] Instance TensorTransportRoute_eq_dec : EqDecision TensorTransportRoute.
Proof. solve_decision. Defined.
(** src: crates/pulsing-actor/src/transport/tensor.rs 541-547 copy_model *)
Definition route_copy_model (r : TensorTransportRoute) : TensorCopyModel :=
  match r with RouteShm => SharedMemoryCopy | RouteTcp => DirectTcpCopy | RouteHttp2 => PackedHttp2Copy end.
(** src: crates/pulsing-actor/src/transport/tensor.rs 559-583 select *)
Definition select_route (p : TensorTransportPreference) (l : TensorTransportLocality) (c : TensorTransportCapabilities) : TensorTransportRoute :=
  let shm_available := match l with SameProcess => shared_memory c | _ => false end in
  match p with
  | PreferHttp2 => RouteHttp2
  | PreferShm => if shm_available then RouteShm else if direct_tcp c then RouteTcp else RouteHttp2
  | PreferTcp | PreferAuto => if direct_tcp c then RouteTcp else RouteHttp2
  end.
(** src: crates/pulsing-actor/src/transport/tensor.rs 317-322 raw_tensor_transport_requested *)
Definition raw_tensor_transport_requested (var : option str) : bool :=
  match preference_from_environment var with PreferHttp2 => false | _ => true end.
(** src: crates/pulsing-actor/src/transport/http2/client.rs 373-390 tensor_route *)
Definition tensor_route (var : option str) (tls : bool) : TensorTransportRoute :=
  let direct_tcp := raw_tensor_transport_requested var && negb tls in
  select_route (preference_from_environment var) RemoteHost (mk_capabilities direct_tcp false).
(** src: crates/pulsing-actor/src/transport/http2/client.rs 369-371 raw_tensor_enabled *)
Definition raw_tensor_enabled (var : option str) (tls : bool) : bool := bool_decide (tensor_route var tls = RouteTcp).

(** The first bytes of a connection, as they are seen each time it is looked at;
    [None] when the connection is taken for neither, in time.
    src: crates/pulsing-actor/src/transport/http2/server.rs 246-267 is_raw_tensor_connection *)
Fixpoint is_raw_tensor_connection (peeks : list bytes) : option bool :=
  match peeks with
  | [] => None
  | prefix :: peeks =>
      if bool_decide (prefix = []) then Some false
      else if (4 <=? length prefix)%nat then Some (bool_decide (take 4 prefix = RAW_TENSOR_MAGIC))
      else is_raw_tensor_connection peeks
  end.

(** ** Errors *)

(** The texts inside of [protocol_error]. *)
Class RawTexts : Type := { raw_error_text : RawError → str }.

Section Exchange.
Context `{Lowercase, HttpRules, ErrorTexts, Limits, RawTexts}.

(** src: crates/pulsing-actor/src/transport/tensor.rs 110-115 protocol_error *)
Definition raw_error (e : RawError) : PulsingError :=
  match e with
  | RawMalformed m => Runtime (Serialization (malformed_text m))
  | e => Runtime (Other (lit "Raw tensor protocol error: " ++ raw_error_text e))
  end.
(** [Debug] of the kind. *)
Definition kind_name (k : RawTensorKind) : str :=
  match k with
  | Ask => "Ask" | Tell => "Tell" | TensorResponse => "TensorResponse" | Ack => "Ack" | ErrorResponse => "Error"
  | SingleResponse => "SingleResponse"
  end.

(** ** The server's side *)

(** What is written back: the kind, the path, and the message.
    src: crates/pulsing-actor/src/transport/http2/server.rs 368-381 write_raw_tensor_error *)
Definition raw_tensor_error (v : Z) (error : str) : RawTensorKind * str * TensorMessage :=
  (ErrorResponse, [], new_tensor v (as_bytes error) []).
(** src: crates/pulsing-actor/src/transport/http2/server.rs 292-360 serve_raw_tensor (one frame) *)
Definition raw_answer {St} (h : Handler St) (f : RawTensorFrame) (st : St) : St * (RawTensorKind * str * TensorMessage) :=
  let v := version (raw_message f) in
  match raw_kind f with
  | Ask =>
      let '(st, r) := handle_message_full h (raw_path f) (Tensor (raw_message f)) st in
      (st,
       match r with
       | Ok (Tensor response) => (TensorResponse, [], response)
       | Ok (Single msg_type data) => (SingleResponse, msg_type, new_tensor v data [])
       | Ok (Stream _ _) => raw_tensor_error v (lit "Tensor request returned a streaming response")
       | Err error => raw_tensor_error v (display error)
       end)
  | Tell =>
      let '(st, r) := handle_tell_full h (raw_path f) (Tensor (raw_message f)) st in
      (st, match r with Ok _ => (Ack, [], new_tensor v [] []) | Err error => raw_tensor_error v (display error) end)
  | unexpected => (st, raw_tensor_error v (lit "Unexpected request frame: " ++ kind_name unexpected))
  end.

(** The bytes that came in, and those that went out. [cancelled n] says whether
    the cancellation is seen in the [n]-th round; [writer n] is the socket when
    the [n]-th answer is written. A round takes a frame off the input, so its
    length is fuel enough.
    src: crates/pulsing-actor/src/transport/http2/server.rs 269-366 serve_raw_tensor *)
Fixpoint serve_raw_tensor {St} (fuel : nat) (h : Handler St) (cancelled : nat → bool) (writer : nat → nat → list bytes → option nat)
    (max_requests : Z) (requests : nat) (input : bytes) (st : St) : St * bytes * Result unit PulsingError :=
  match fuel with
  | O => (st, [], Ok tt)
  | S fuel =>
      if cancelled requests then (st, [], Ok tt)
      else
        match read_raw_tensor_frame input with
        | Err e => (st, [], Err (raw_error e))
        | Ok (frame, input) =>
            let '(st, (k, path, t)) := raw_answer h frame st in
            let '(out, r) := write_raw_tensor_frame (writer requests) k path t in
            match r with
            | Err e => (st, out, Err (raw_error e))
            | Ok _ =>
                if max_requests <=? Z.of_nat (S requests) then (st, out, Ok tt)
                else
                  let '(st, out', r) := serve_raw_tensor fuel h cancelled writer max_requests (S requests) input st in
                  (st, out ++ out', r)
            end
        end
  end.
(** src: crates/pulsing-actor/src/transport/http2/server.rs 278-282 serve_raw_tensor (limit) *)
Definition max_requests_from_environment (var : option Z) : Z := Z.max 1 (default (two64 - 1) var).

(** ** The client's side *)

(** The connections of a host that wait to be used again. *)
Definition TensorPool : Type := gmap SocketAddr (list nat).
(** [probe c] says whether nothing can be read from [c] yet; otherwise it is
    closed, or holds bytes nobody asked for, and is dropped.
    src: crates/pulsing-actor/src/transport/http2/client.rs 393-410 take_tensor_connection (loop) *)
Fixpoint take_pooled (probe : nat → bool) (connections : list nat) : list nat * option nat :=
  match connections with
  | [] => ([], None)
  | c :: connections => if probe c then (connections, Some c) else take_pooled probe connections
  end.
(** The vector's last element is the list's first; connecting yields a new
    connection or an error.
    src: crates/pulsing-actor/src/transport/http2/client.rs 392-422 take_tensor_connection *)
Definition take_tensor_connection (probe : nat → bool) (connect : Result nat PulsingError) (a : SocketAddr) (p : TensorPool)
    : TensorPool * Result nat PulsingError :=
  match p !! a with
  | Some cs => let '(cs, c) := take_pooled probe cs in (<[a := cs]> p, match c with Some c => Ok c | None => connect end)
  | None => (p, connect)
  end.
(** src: crates/pulsing-actor/src/transport/http2/client.rs 424-430 return_tensor_connection *)
Definition return_tensor_connection (max_connections_per_host : Z) (a : SocketAddr) (c : nat) (p : TensorPool) : TensorPool :=
  let connections := default [] (p !! a) in
  <[a := if Z.of_nat (length connections) <? max_connections_per_host then c :: connections else connections]> p.

(** src: crates/pulsing-actor/src/transport/http2/client.rs 452-469 exchange_raw_tensor (answer) *)
Definition read_raw_answer (k : RawTensorKind) (frame : RawTensorFrame) : Result Msg PulsingError :=
  match raw_kind frame, k with
  | TensorResponse, Ask => Ok (Tensor (raw_message frame))
  | SingleResponse, Ask => Ok (Single (raw_path frame) (metadata (raw_message frame)))
  | Ack, Tell => Ok (Single [] [])
  | ErrorResponse, _ => Err (Runtime (Other (from_utf8_lossy (metadata (raw_message frame)))))
  | other, _ => Err (Runtime (Other (lit "Unexpected raw tensor response: " ++ kind_name other)))
  end.

(** How an exchange goes: the socket, what the peer answers to the bytes
    written, and whether all is done in time. *)
Record Wire := mk_wire { socket : nat → list bytes → option nat; reply : bytes → bytes; in_time : bool }.
(** src: crates/pulsing-actor/src/transport/http2/client.rs 432-472 exchange_raw_tensor *)
Definition exchange_raw_tensor (max_connections_per_host timeout_ms : Z) (probe : nat → bool) (connect : Result nat PulsingError)
    (wire : nat → Wire) (a : SocketAddr) (path : str) (k : RawTensorKind) (message : TensorMessage) (p : TensorPool)
    : TensorPool * Result Msg PulsingError :=
  let '(p, stream) := take_tensor_connection probe connect a p in
  match stream with
  | Err e => (p, Err e)
  | Ok c =>
      let w := wire c in
      let exchange :=
        let '(out, r) := write_raw_tensor_frame (socket w) k path message in
        match r with Err e => Err e | Ok _ => read_raw_tensor_frame (reply w out) end in
      if negb (in_time w) then (p, Err (Runtime (RequestTimeout timeout_ms)))
      else
        match exchange with
        | Err e => (p, Err (raw_error e))
        | Ok (frame, _) => (return_tensor_connection max_connections_per_host a c p, read_raw_answer k frame)
        end
  end.
End Exchange.

(** ** The client's calls *)

(** The calls of the client that the transport makes; they change the world [W]
    outside of it. *)
Record Client (W : Type) := mk_client {
  cl_ask : SocketAddr → str → str → bytes → W → W * Result bytes PulsingError;
  cl_tell : SocketAddr → str → str → bytes → W → W * Result unit PulsingError;
  cl_send_message_full : SocketAddr → str → Msg → W → W * Result Msg PulsingError;
  cl_tell_tensor : SocketAddr → str → TensorMessage → W → W * Result unit PulsingError }.
Arguments cl_ask {W}.
Arguments cl_tell {W}.
Arguments cl_send_message_full {W}.
Arguments cl_tell_tensor {W}.

(** src: crates/pulsing-actor/src/transport/http2/mod.rs 241-248 TransportTarget *)
Inductive TransportTarget := ByName (name : str) | ById (id : ActorId) | NamedTarget (path : ActorPath).
(** src: crates/pulsing-actor/src/transport/http2/mod.rs 251-257 to_path *)
Definition to_path `{Uuid} (t : TransportTarget) : str :=
  match t with
  | ByName name => lit "/actors/" ++ name
  | ById id => lit "/actors/" ++ simple id
  | NamedTarget path => lit "/named/" ++ as_str path
  end.

Section Transport.
Context {W : Type} (client : Client W).

(** *** The node's transport *)
(** src: crates/pulsing-actor/src/transport/http2/mod.rs 85-88 Http2Transport::ask *)
Definition transport_ask (a : SocketAddr) (actor_name : str) (m : Msg) : W → W * Result Msg PulsingError :=
  cl_send_message_full client a (lit "/actors/" ++ actor_name) m.
(** src: crates/pulsing-actor/src/transport/http2/mod.rs 91-99 Http2Transport::ask_named *)
Definition transport_ask_named (a : SocketAddr) (path : ActorPath) (m : Msg) : W → W * Result Msg PulsingError :=
  cl_send_message_full client a (lit "/named/" ++ as_str path) m.
Definition tell_path (a : SocketAddr) (path : str) (m : Msg) (w : W) : W * Result unit PulsingError :=
  match m with
  | Single msg_type data => cl_tell client a path msg_type data w
  | Tensor t => cl_tell_tensor client a path t w
  | Stream _ _ => (w, Err (Runtime (ProtocolError (lit "Streaming not supported for tell"))))
  end.
(** src: crates/pulsing-actor/src/transport/http2/mod.rs 101-112 Http2Transport::tell *)
Definition transport_tell (a : SocketAddr) (actor_name : str) (m : Msg) : W → W * Result unit PulsingError :=
  tell_path a (lit "/actors/" ++ actor_name) m.
(** src: crates/pulsing-actor/src/transport/http2/mod.rs 114-125 Http2Transport::tell_named *)
Definition transport_tell_named (a : SocketAddr) (path : ActorPath) (m : Msg) : W → W * Result unit PulsingError :=
  tell_path a (lit "/named/" ++ as_str path) m.
(** src: crates/pulsing-actor/src/transport/http2/mod.rs 128-139 send_gossip *)
Definition send_gossip (a : SocketAddr) (payload : bytes) (w : W) : W * Result (option bytes) PulsingError :=
  let '(w, r) := cl_ask client a (lit "/cluster/gossip") (lit "gossip") payload w in
  (w, match r with Ok response => Ok (if bool_decide (response = []) then None else Some response) | Err e => Err e end).

(** *** The transport behind a reference *)
Context (show : SocketAddr → str) (cfg : CircuitBreakerConfig).

(** Clones share the breaker; the world goes on beside it. *)
Definition Guarded : Type := CircuitBreaker * W.
Definition breaker_op {A} (p : prog CircuitBreaker A) : prog Guarded A := on_left p.
Definition open_error (a : SocketAddr) : PulsingError := Runtime (ConnectionFailed (show a) (lit "Circuit breaker is open")).
(** [map_err(|e| RuntimeError::Other(e.to_string()))]. *)
Definition flatten_error {T} (r : Result T PulsingError) : Result T PulsingError :=
  match r with Ok x => Ok x | Err e => Err (Runtime (Other (display e))) end.
Definition is_ok {T} (r : Result T PulsingError) : bool := match r with Ok _ => true | Err _ => false end.
(** The three calls have the same body around a call of the client; [asked] and
    [answered] are the clock before and after it.
    src: crates/pulsing-actor/src/transport/http2/mod.rs 393-407 send_message (body) *)
Definition guarded {T} (asked answered : Z) (a : SocketAddr) (call : W → W * Result T PulsingError) : prog Guarded (Result T PulsingError) :=
  allowed ← breaker_op (can_execute cfg asked);
  if negb allowed then Ret (Err (open_error a))
  else
    result ← update (λ s, let '(w, r) := call s.2 in ((s.1, w), r));
    let result := flatten_error result in
    breaker_op (record_outcome cfg answered (is_ok result));;
    Ret result.

(** src: crates/pulsing-actor/src/transport/http2/mod.rs 304-310 Http2RemoteTransport *)
Record Http2RemoteTransport := mk_remote { remote_addr : SocketAddr; remote_path : str }.
(** The breaker is part of [Guarded].
    src: crates/pulsing-actor/src/transport/http2/mod.rs 281-291 build *)
Definition build_remote `{Uuid} (a : SocketAddr) (t : TransportTarget) : Http2RemoteTransport := mk_remote a (to_path t).

Context (self : Http2RemoteTransport).
(** src: crates/pulsing-actor/src/transport/http2/mod.rs 350-371 request *)
Definition request (asked answered : Z) (msg_type : str) (payload : bytes) : prog Guarded (Result bytes PulsingError) :=
  guarded asked answered (remote_addr self) (cl_ask client (remote_addr self) (remote_path self) msg_type payload).
(** src: crates/pulsing-actor/src/transport/http2/mod.rs 373-389 send *)
Definition send (asked answered : Z) (msg_type : str) (payload : bytes) : prog Guarded (Result unit PulsingError) :=
  guarded asked answered (remote_addr self) (cl_tell client (remote_addr self) (remote_path self) msg_type payload).
(** src: crates/pulsing-actor/src/transport/http2/mod.rs 392-408 send_message *)
Definition send_message (asked answered : Z) (m : Msg) : prog Guarded (Result Msg PulsingError) :=
  guarded asked answered (remote_addr self) (cl_send_message_full client (remote_addr self) (remote_path self) m).
(** src: crates/pulsing-actor/src/transport/http2/mod.rs 411-424 send_oneway *)
Definition send_oneway (asked answered : Z) (m : Msg) : prog Guarded (Result unit PulsingError) :=
  match m with
  | Single msg_type data => send asked answered msg_type data
  | Tensor t => update (λ s, let '(w, r) := cl_tell_tensor client (remote_addr self) (remote_path self) t s.2 in ((s.1, w), r))
  | Stream _ _ => Ret (Err (Runtime (Other (lit "Streaming not supported for fire-and-forget (use ask pattern instead)"))))
  end.
(** [Message::msg_type].
    src: crates/pulsing-actor/src/actor/traits.rs 509-517 msg_type *)
Definition msg_type_of (m : Msg) : str :=
  match m with Single t _ => t | Stream t _ => t | Tensor _ => TENSOR_MESSAGE_TYPE end.
(** src: crates/pulsing-actor/src/transport/http2/mod.rs 429-441 request_tensor *)
Definition request_tensor (asked answered : Z) (t : TensorMessage) : prog Guarded (Result TensorMessage PulsingError) :=
  r ← send_message asked answered (Tensor t);
  Ret (match r with
       | Ok (Tensor response) => Ok response
       | Ok other => Err (Runtime (Other (lit "Tensor transport returned unexpected message type: " ++ msg_type_of other)))
       | Err e => Err e
       end).
(** src: crates/pulsing-actor/src/transport/http2/mod.rs 443-449 send_tensor *)
Definition send_tensor (asked answered : Z) (t : TensorMessage) : prog Guarded (Result unit PulsingError) :=
  send_oneway asked answered (Tensor t).
End Transport.

(** ** Properties of raw tensor connections and of the guarded transport

    A connection serves the requests sent over it in their order, each with the
    handler's own answer; the transport behind a reference lets calls out as the
    breaker's machine says, and spares a peer that fails. *)
(** ** Raw connections *)
Section Raw.
Context `{Lowercase, HttpRules, ErrorTexts, Limits, RawTexts}.

(** A frame that can be written and read back. *)
Definition frame_fits (k : RawTensorKind) (path : str) (t : TensorMessage) : Prop :=
  Forall is_scalar path ∧ is_u32 (version t) ∧ size_of (buffers t) < two32 ∧ ∃ total, raw_total k (as_bytes path) t = Ok total.
Definition frame_bytes (k : RawTensorKind) (path : str) (t : TensorMessage) : bytes :=
  raw_header k (as_bytes path) t ++ as_bytes path ++ metadata t ++ concat (buffers t).
Definition owned_tensor (t : TensorMessage) : TensorMessage := mk_tensor (version t) (metadata t) (buffers t) OwnedReceive.

Lemma frame_written writer k path t : progresses writer → frame_fits k path t →
  write_raw_tensor_frame writer k path t = (frame_bytes k path t, Ok tt).
Proof. intros Hw (_ & _ & _ & total & Ht). by eapply write_raw_bytes. Qed.
Lemma frame_read k path t rest : frame_fits k path t →
  read_raw_tensor_frame (frame_bytes k path t ++ rest) = Ok (mk_raw k path (owned_tensor t), rest).
Proof. intros (Hp & Hv & Hb & total & Ht). by eapply read_raw_bytes. Qed.

(** A request, and what the handler does with it. *)
Record RawRequest := mk_raw_request { rr_tell : bool; rr_path : str; rr_tensor : TensorMessage }.
Definition rr_kind (q : RawRequest) : RawTensorKind := if rr_tell q then Tell else Ask.
Definition local_raw {St} (h : Handler St) (q : RawRequest) (st : St) : St * Result Msg PulsingError :=
  if rr_tell q then
    let '(st, r) := handle_tell_full h (rr_path q) (Tensor (owned_tensor (rr_tensor q))) st in
    (st, match r with Ok _ => Ok (Single [] []) | Err e => Err e end)
  else handle_message_full h (rr_path q) (Tensor (owned_tensor (rr_tensor q))) st.
(** What the caller receives of an answer. *)
Definition received_raw (r : Result Msg PulsingError) : Result Msg PulsingError :=
  match r with
  | Ok (Single t d) => Ok (Single t d)
  | Ok (Tensor t) => Ok (Tensor (owned_tensor t))
  | Ok (Stream _ _) => Err (Runtime (Other (lit "Tensor request returned a streaming response")))
  | Err e => Err (Runtime (Other (display e)))
  end.
Definition raw_answer_of {St} (h : Handler St) (q : RawRequest) (st : St) : St * (RawTensorKind * str * TensorMessage) :=
  raw_answer h (mk_raw (rr_kind q) (rr_path q) (owned_tensor (rr_tensor q))) st.
(** What the types of the program guarantee of a frame, and of what is answered. *)
Definition frame_typed (path : str) (t : TensorMessage) : Prop :=
  Forall is_scalar path ∧ is_u32 (version t) ∧ size_of (buffers t) < two32.
Definition answer_typed {St} (h : Handler St) (q : RawRequest) (st : St) : Prop :=
  (let '(_, (k, path, t)) := raw_answer_of h q st in frame_typed path t) ∧
  match (local_raw h q st).2 with Err e => Forall is_scalar (display e) | Ok _ => True end.
(** Whether the answer keeps the limits of a frame: the path's, the metadata's,
    the number of buffers and the size in all. *)
Definition answer_keeps_limits {St} (h : Handler St) (q : RawRequest) (st : St) : bool :=
  let '(_, (k, path, t)) := raw_answer_of h q st in
  match raw_total k (as_bytes path) t with Ok _ => true | Err _ => false end.

(** The answer is read as what the handler answered. *)
Lemma raw_answer_received {St} (h : Handler St) q st : answer_typed h q st →
  let '(st', (k, path, t)) := raw_answer_of h q st in
  st' = (local_raw h q st).1 ∧ read_raw_answer (rr_kind q) (mk_raw k path (owned_tensor t)) = received_raw (local_raw h q st).2.
Proof.
  intros (_ & Hs). revert Hs. unfold raw_answer_of, raw_answer, local_raw, rr_kind. cbv zeta. destruct (rr_tell q); cbn [raw_kind raw_path raw_message].
  - destruct (handle_tell_full _ _ _ _) as [st' [[]|e]]; cbn; [done|]. intros Hs. split; [done|]. unfold read_raw_answer. cbn.
    unfold from_utf8_lossy. by rewrite from_utf8_as_bytes.
  - destruct (handle_message_full _ _ _ _) as [st' [[t d|dt items|t]|e]]; cbn; try done. intros Hs. split; [done|]. unfold read_raw_answer. cbn.
    unfold from_utf8_lossy. by rewrite from_utf8_as_bytes.
Qed.

(** What a connection comes to: the requests in turn, each on the state the last
    one left, and the answers that are sent. It ends when it is cancelled, when
    [max_requests] answers are sent, and at an answer that does not keep the limits,
    whose request the handler has carried out. *)
Fixpoint connection {St} (h : Handler St) (cancelled : nat → bool) (max_requests : Z) (n : nat) (qs : list RawRequest) (st : St)
    : St * list (Result Msg PulsingError) :=
  match qs with
  | [] => (st, [])
  | q :: qs =>
      if cancelled n then (st, [])
      else
        let '(st', r) := local_raw h q st in
        if negb (answer_keeps_limits h q st) then (st', [])
        else if max_requests <=? Z.of_nat (S n) then (st', [received_raw r])
        else let '(st'', rs) := connection h cancelled max_requests (S n) qs st' in (st'', received_raw r :: rs)
  end.
Fixpoint all_typed {St} (h : Handler St) (qs : list RawRequest) (st : St) : Prop :=
  match qs with
  | [] => True
  | q :: qs => frame_fits (rr_kind q) (rr_path q) (rr_tensor q) ∧ answer_typed h q st ∧ all_typed h qs (local_raw h q st).1
  end.
(** What a client that reads an answer per request reads. *)
Fixpoint read_answers (ks : list RawTensorKind) (input : bytes) : Result (list (Result Msg PulsingError) * bytes) RawError :=
  match ks with
  | [] => Ok ([], input)
  | k :: ks =>
      let? (frame, input) := read_raw_tensor_frame input in
      let? (rs, input) := read_answers ks input in
      Ok (read_raw_answer k frame :: rs, input)
  end.
Definition request_bytes (q : RawRequest) : bytes := frame_bytes (rr_kind q) (rr_path q) (rr_tensor q).

Lemma request_bytes_long q : (1 <= length (request_bytes q))%nat.
Proof. unfold request_bytes, frame_bytes. rewrite raw_header_split. simpl. lia. Qed.

Lemma serve_nothing {St} (h : Handler St) fuel cancelled writer max_requests n st :
  ∃ r, serve_raw_tensor fuel h cancelled writer max_requests n [] st = (st, [], r).
Proof. destruct fuel; [eauto|]. simpl. destruct (cancelled n); eauto. Qed.

Lemma answer_written {St} (h : Handler St) writer q st : progresses writer → answer_typed h q st →
  let '(_, (k, path, t)) := raw_answer_of h q st in
  if answer_keeps_limits h q st then frame_fits k path t ∧ write_raw_tensor_frame writer k path t = (frame_bytes k path t, Ok tt)
  else ∃ e, write_raw_tensor_frame writer k path t = ([], Err e).
Proof.
  intros Hw [Ht _]. unfold answer_keeps_limits. destruct (raw_answer_of h q st) as [st' [[k path] t]]. destruct Ht as (Hp & Hv & Hb).
  destruct (raw_total k (as_bytes path) t) as [total|e] eqn:E.
  - assert (Hf : frame_fits k path t) by by split_and!; eauto. split; [done|]. by apply frame_written.
  - exists e. unfold write_raw_tensor_frame. cbv zeta. by rewrite E.
Qed.

Lemma raw_serves_from {St} (h : Handler St) cancelled writer qs st fuel n max_requests :
  (∀ n, progresses (writer n)) → all_typed h qs st → (length (concat (request_bytes <$> qs)) <= fuel)%nat →
  let '(st', out, _) := serve_raw_tensor fuel h cancelled writer max_requests n (concat (request_bytes <$> qs)) st in
  let '(st'', rs) := connection h cancelled max_requests n qs st in
  st' = st'' ∧ ∀ more, read_answers (take (length rs) (rr_kind <$> qs)) (out ++ more) = Ok (rs, more).
Proof.
  intros Hw. revert st fuel n. induction qs as [|q qs IH]; intros st fuel n Hty Hf.
  { destruct (serve_nothing h fuel cancelled writer max_requests n st) as [r Hr]. cbn [fmap list_fmap concat]. by rewrite Hr. }
  destruct Hty as (Hreq & Hty & Htys). cbn [fmap list_fmap concat length] in *. rewrite length_app in Hf. pose proof (request_bytes_long q).
  destruct fuel as [|fuel]; [lia|]. pose proof (raw_answer_received h q st Hty) as Hans. pose proof (answer_written h (writer n) q st (Hw n) Hty) as Hwr.
  cbn [serve_raw_tensor connection]. destruct (cancelled n); [done|].
  unfold request_bytes at 1. rewrite (frame_read _ _ _ _ Hreq). fold (raw_answer_of h q st).
  destruct (raw_answer_of h q st) as [st1 [[k path] t]]. destruct Hans as [-> Hans].
  specialize (IH (local_raw h q st).1 fuel (S n) Htys ltac:(lia)).
  destruct (local_raw h q st) as [st' r]. cbn [fst snd] in *. destruct (answer_keeps_limits h q st); cbn [negb].
  - destruct Hwr as [Hres ->]. assert (Hone : ∀ ks rs out more, read_answers ks (out ++ more) = Ok (rs, more) →
      read_answers (rr_kind q :: ks) ((frame_bytes k path t ++ out) ++ more) = Ok (received_raw r :: rs, more)).
    { intros ks rs out more Hks. cbn [read_answers]. rewrite <- app_assoc, (frame_read _ _ _ _ Hres). cbn [and_then]. rewrite Hks. cbn [and_then]. by rewrite Hans. }
    destruct (max_requests <=? Z.of_nat (S n)).
    + split; [done|]. intros more. specialize (Hone [] [] [] more eq_refl). by rewrite app_nil_r in Hone.
    + destruct (serve_raw_tensor _ _ _ _ _ _ _ _) as [[st2 out] res]. destruct (connection _ _ _ _ _ _) as [st3 rs].
      destruct IH as [-> IH]. split; [done|]. intros more. by apply Hone.
  - destruct Hwr as [e ->]. done.
Qed.

(** The bytes a client writes for a request. *)
Definition sent (socket : nat → list bytes → option nat) (q : RawRequest) : bytes :=
  (write_raw_tensor_frame socket (rr_kind q) (rr_path q) (rr_tensor q)).1.
Lemma all_typed_sent {St} (h : Handler St) socket qs st : progresses socket → all_typed h qs st → (sent socket <$> qs) = (request_bytes <$> qs).
Proof.
  intros Hs. revert st. induction qs as [|q qs IH]; intros st; [done|]. intros (Hq & _ & Hqs). rewrite !fmap_cons. f_equal; [|by eapply IH].
  unfold sent. by rewrite (frame_written _ _ _ _ Hs Hq).
Qed.

(** C19: Requests that a client could write to a raw connection, however far it is
    ahead of the answers, are served in their order: the handler is called once for
    each, with the tensor as it was sent, on the state the last call left, and the
    client that reads an answer per request reads, for each answer that is sent, what
    the handler answered, where a stream is an error that says so and an error is
    its text. The connection ends early in three cases: when it is cancelled; when
    [max_requests] answers are sent; and at an answer over the limits of a frame,
    which is not sent although its request was carried out. However the sockets cut
    what is written, every byte belongs to its frame. *)
Theorem raw_connection_serves {St} (h : Handler St) cancelled socket writer qs st max_requests :
  progresses socket → (∀ n, progresses (writer n)) → all_typed h qs st →
  let input := concat (sent socket <$> qs) in
  let '(st', out, _) := serve_raw_tensor (length input) h cancelled writer max_requests 0 input st in
  let '(st'', rs) := connection h cancelled max_requests 0 qs st in
  st' = st'' ∧ ∀ more, read_answers (take (length rs) (rr_kind <$> qs)) (out ++ more) = Ok (rs, more).
Proof.
  intros Hs Hw Hty. cbv zeta. rewrite (all_typed_sent h) with (st := st) by done. by apply raw_serves_from.
Qed.

(** One exchange of a client with that server. *)
Lemma raw_exchange_is_local {St} (h : Handler St) max timeout_ms probe connect wire writer a q st p p' c :
  take_tensor_connection probe connect a p = (p', Ok c) → progresses (socket (wire c)) → (∀ n, progresses (writer n)) → in_time (wire c) = true →
  (∀ b, reply (wire c) b = (serve_raw_tensor (length b) h (λ _, false) writer 1 0 b st).1.2) →
  frame_fits (rr_kind q) (rr_path q) (rr_tensor q) → answer_typed h q st → answer_keeps_limits h q st = true →
  exchange_raw_tensor max timeout_ms probe connect wire a (rr_path q) (rr_kind q) (rr_tensor q) p =
    (return_tensor_connection max a c p', received_raw (local_raw h q st).2).
Proof.
  intros Ht Hs Hw Hin Hr Hq Hty Hk. unfold exchange_raw_tensor. rewrite Ht, Hin. rewrite (frame_written _ _ _ _ Hs Hq). cbn [negb].
  rewrite Hr. change (frame_bytes _ _ _) with (request_bytes q).
  pose proof (raw_serves_from h (λ _, false) writer [q] st (length (request_bytes q)) 0 1 Hw (conj Hq (conj Hty I))) as Hserve.
  cbn [fmap list_fmap concat connection] in Hserve. rewrite app_nil_r, Hk in Hserve. specialize (Hserve ltac:(done)).
  destruct (serve_raw_tensor _ _ _ _ _ _ _ _) as [[st2 out] res]. destruct (local_raw h q st) as [st' r]. cbn [fst snd] in *.
  destruct Hserve as [-> Hread]. specialize (Hread []). rewrite app_nil_r in Hread. cbn in Hread.
  destruct (read_raw_tensor_frame out) as [[frame rest]|]; [|done]. cbn in Hread. injection Hread as -> _. done.
Qed.
End Raw.

(** ** The guarded transport *)
Section Guard.
Context {W : Type} (show : SocketAddr → str) (cfg : CircuitBreakerConfig) (a : SocketAddr) {T : Type}.

(** A call: the clock before and after it, and what it does. *)
Record Timed := mk_timed { asked : Z; answered : Z; call : W → W * Result T PulsingError }.
(** Calls in turn, with what each returned. *)
Fixpoint in_turn (calls : list Timed) : prog (Guarded (W := W)) (list (Result T PulsingError)) :=
  match calls with
  | [] => Ret []
  | c :: calls => r ← guarded show cfg (asked c) (answered c) a (call c); rs ← in_turn calls; Ret (r :: rs)
  end.

(** What the breaker promises to do with a call. *)
Definition spec_call (p : Promise) (w : W) (c : Timed) : Promise * W * Result T PulsingError :=
  let p := spec_tick cfg (asked c) p in
  if spec_allows p then
    let '(w, r) := call c w in (spec_outcome cfg (answered c) (is_ok r) p, w, flatten_error r)
  else (p, w, Err (open_error show a)).
Fixpoint spec_calls (p : Promise) (w : W) (calls : list Timed) : Promise * W * list (Result T PulsingError) :=
  match calls with
  | [] => (p, w, [])
  | c :: calls => let '(p, w, r) := spec_call p w c in let '(p, w, rs) := spec_calls p w calls in (p, w, r :: rs)
  end.

Lemma is_ok_flatten (r : Result T PulsingError) : is_ok (flatten_error r) = is_ok r.
Proof. by destruct r. Qed.

Lemma guarded_spec c b w : config_ok cfg → breaker_inv cfg b →
  let '((b', w'), r) := run (guarded show cfg (asked c) (answered c) a (call c)) (b, w) in
  spec_call (view b) w c = (view b', w', r) ∧ breaker_inv cfg b'.
Proof.
  intros Hcfg Hi. unfold guarded, spec_call, breaker_op, Guarded, mbind, prog_mbind. rewrite run_bind, run_on_left, can_execute_run.
  destruct (tick_view cfg (asked c) b Hi) as [Hv Hi']. cbn [fst snd]. rewrite <- Hv. destruct (spec_allows _); cbn [negb]; [|by cbn].
  cbn [update run prog_bind fst snd]. destruct (call c w) as [w' r]. cbn [fst snd]. rewrite run_bind, run_on_left, is_ok_flatten. cbn [fst snd run].
  destruct (record_outcome_view cfg (answered c) (is_ok r) _ Hcfg Hi') as [Ho Hi'']. by rewrite <- Ho.
Qed.

Lemma in_turn_spec calls b w : config_ok cfg → breaker_inv cfg b →
  let '((b', w'), rs) := run (in_turn calls) (b, w) in spec_calls (view b) w calls = (view b', w', rs) ∧ breaker_inv cfg b'.
Proof.
  intros Hcfg. revert b w. induction calls as [|c calls IH]; intros b w Hi; [done|]. cbn [in_turn spec_calls]. unfold mbind, prog_mbind.
  rewrite run_bind. pose proof (guarded_spec c b w Hcfg Hi) as Hc. destruct (run (guarded _ _ _ _ _ _) _) as [[b1 w1] r]. destruct Hc as [-> Hi1].
  cbn [fst snd]. rewrite run_bind. specialize (IH b1 w1 Hi1). destruct (run (in_turn calls) (b1, w1)) as [[b2 w2] rs]. destruct IH as [-> Hi2]. done.
Qed.

Definition fails (c : Timed) : Prop := ∀ w, is_ok (call c w).2 = false.
(** The world when each of the calls is made. *)
Definition all_made (calls : list Timed) (w : W) : W := foldl (λ w c, (call c w).1) w calls.

Lemma spec_failures calls n w t : Forall fails calls → last (answered <$> calls) = Some t →
  0 <= n → n + Z.of_nat (length calls) = failure_threshold cfg →
  ∃ rs, spec_calls (SClosed n) w calls = (SOpen t, all_made calls w, rs).
Proof.
  revert n w. induction calls as [|c calls IH]; intros n w Hf Hl Hn Hlen; [done|]. apply Forall_cons in Hf as [Hc Hcs].
  cbn [spec_calls all_made foldl]. unfold spec_call. cbn [spec_tick spec_allows]. specialize (Hc w). destruct (call c w) as [w' r]. cbn [fst snd] in *.
  rewrite Hc. cbn [spec_outcome spec_failure length] in *. destruct (Z.leb_spec (failure_threshold cfg) (n + 1)).
  - destruct calls; [|simpl in Hlen; lia]. simpl in *. simplify_eq. eauto.
  - destruct (IH (n + 1) w' Hcs) as [rs Hrs]; [|lia|lia|].
    + destruct calls; [simpl in *; lia|]. done.
    + unfold all_made in Hrs. rewrite Hrs. eauto.
Qed.
Lemma spec_open calls t w : Forall (λ c, saturating_sub (asked c) t < timeout_duration cfg) calls →
  spec_calls (SOpen t) w calls = (SOpen t, w, replicate (length calls) (Err (open_error show a))).
Proof.
  induction 1 as [|c calls Hc _ IH]; [done|]. cbn [spec_calls]. unfold spec_call. cbn [spec_tick].
  destruct (Z.leb_spec (timeout_duration cfg) (saturating_sub (asked c) t)); [lia|]. cbn [spec_allows]. by rewrite IH.
Qed.

(** A peer that fails is spared: once as many calls in a row have failed as the
    threshold says, each of which was made, every call until the timeout has
    passed fails without reaching the peer, and the first call after it is
    made again. *)
Theorem broken_peer_is_spared first rest next b w t :
  config_ok cfg → breaker_inv cfg b → view b = SClosed 0 →
  Forall fails first → Z.of_nat (length first) = failure_threshold cfg → last (answered <$> first) = Some t →
  Forall (λ c, saturating_sub (asked c) t < timeout_duration cfg) rest → timeout_duration cfg <= saturating_sub (asked next) t →
  let '((b1, w1), _) := run (in_turn first) (b, w) in
  let '((b2, w2), rs) := run (in_turn rest) (b1, w1) in
  let '((_, w3), r) := run (guarded show cfg (asked next) (answered next) a (call next)) (b2, w2) in
  w1 = all_made first w ∧ w2 = w1 ∧ rs = replicate (length rest) (Err (open_error show a)) ∧
  w3 = (call next w2).1 ∧ r = flatten_error (call next w2).2.
Proof.
  intros Hcfg Hi Hv Hf Hlen Hl Hrest Hnext. destruct (spec_failures first 0 w t Hf Hl) as [rs1 H1]; [done|lia|].
  pose proof (in_turn_spec first b w Hcfg Hi) as Hs. destruct (run (in_turn first) _) as [[b1 w1] rs1']. destruct Hs as [Hs Hi1].
  rewrite Hv, H1 in Hs. injection Hs as Hv1 <- <-. pose proof (in_turn_spec rest b1 (all_made first w) Hcfg Hi1) as Hs2.
  destruct (run (in_turn rest) _) as [[b2 w2] rs2]. destruct Hs2 as [Hs2 Hi2].
  rewrite <- Hv1, spec_open in Hs2 by done. injection Hs2 as Hv2 <- <-. pose proof (guarded_spec next b2 (all_made first w) Hcfg Hi2) as Hs3.
  destruct (run (guarded _ _ _ _ _ _) _) as [[b3 w3] r]. destruct Hs3 as [Hs3 _]. unfold spec_call in Hs3. rewrite <- Hv2 in Hs3. cbn [spec_tick] in Hs3.
  destruct (Z.leb_spec (timeout_duration cfg) (saturating_sub (asked next) t)); [|lia]. cbn [spec_allows] in Hs3.
  destruct (call next _) as [w' r']. simplify_eq. done.
Qed.
End Guard.

(** A one-way tensor is sent whatever the breaker says, and the breaker does not
    hear how it went; every other call is [guarded]. *)
Lemma one_way_tensor_ignores_breaker {W} (client : Client W) show cfg self asked answered t b w :
  run (send_oneway client show cfg self asked answered (Tensor t)) (b, w) =
    let '(w', r) := cl_tell_tensor client (remote_addr self) (remote_path self) t w in ((b, w'), r).
Proof. cbn. by destruct (cl_tell_tensor _ _ _ _ _). Qed.

(** ** Examples *)
#[local] Instance plain_texts : ErrorTexts :=
  {| malformed_text _ := lit "malformed"; frame_error_text _ := lit "frame"; build_error_text := lit "http"; lossy _ := []; malformed_scalars _ := ltac:(by repeat constructor) |}.
#[local] Instance plain_raw_texts : RawTexts := {| raw_error_text _ := lit "raw" |}.
(** Counts its calls; every third fails, tells succeed. *)
Definition moody : Handler nat := {|
  handle_message_full _ m n := (S n, if (n mod 3 =? 2)%nat then Err (Runtime (ActorStopped "store")) else Ok m);
  handle_tell_full _ _ n := (S n, Ok tt); handle_gossip _ _ n := (n, Ok None);
  health_check _ := []; prometheus_metrics _ := []; cluster_members _ := []; actors_list _ _ := []; handle_client_resolve _ _ := [];
  handle_client_members _ := []; handle_head_api _ _ _ n := (n, Ok None) |}.
Definition three_requests : list RawRequest :=
  [mk_raw_request false "/actors/store" a_tensor; mk_raw_request true "/actors/store" a_tensor; mk_raw_request false "/actors/store" a_tensor].

(** The third request is not served when only two are allowed. *)
Lemma raw_connection_serves_witness :
  let input := concat (sent slow_writer <$> three_requests) in
  (let '(n, out, _) := serve_raw_tensor (length input) moody (λ _, false) (λ _, slow_writer) (two64 - 1) 0 input 0%nat in
   n = 3%nat ∧
   ∀ more, read_answers (rr_kind <$> three_requests) (out ++ more) =
     Ok ([Ok (Tensor (owned_tensor a_tensor)); Ok (Single [] []); Err (Runtime (Other (lit "Runtime error: Actor stopped: store")))], more)) ∧
  (let '(n, out, _) := serve_raw_tensor (length input) moody (λ _, false) (λ _, slow_writer) 2 0 input 0%nat in
   n = 2%nat ∧
   ∀ more, read_answers [Ask; Tell] (out ++ more) = Ok ([Ok (Tensor (owned_tensor a_tensor)); Ok (Single [] [])], more)).
Proof.
  intros input. assert (Hty : all_typed moody three_requests 0%nat).
  { repeat split; simpl rr_tensor; simpl rr_path; try done; try (by repeat constructor); try (by eexists; vm_compute). }
  split.
  - pose proof (raw_connection_serves moody (λ _, false) slow_writer (λ _, slow_writer) three_requests 0%nat (two64 - 1)
      slow_progresses (λ _, slow_progresses) Hty) as Hserve. cbv zeta in Hserve. fold input in Hserve. clearbody input.
    assert (Hc : connection moody (λ _, false) (two64 - 1) 0 three_requests 0%nat =
      (3%nat, [Ok (Tensor (owned_tensor a_tensor)); Ok (Single [] []); Err (Runtime (Other (lit "Runtime error: Actor stopped: store")))]))
      by (vm_compute; reflexivity).
    rewrite Hc in Hserve. destruct (serve_raw_tensor _ _ _ _ _ _ _ _) as [[n out] res]. exact Hserve.
  - pose proof (raw_connection_serves moody (λ _, false) slow_writer (λ _, slow_writer) three_requests 0%nat 2
      slow_progresses (λ _, slow_progresses) Hty) as Hserve. cbv zeta in Hserve. fold input in Hserve. clearbody input.
    assert (Hc : connection moody (λ _, false) 2 0 three_requests 0%nat = (2%nat, [Ok (Tensor (owned_tensor a_tensor)); Ok (Single [] [])]))
      by (vm_compute; reflexivity).
    rewrite Hc in Hserve. destruct (serve_raw_tensor _ _ _ _ _ _ _ _) as [[n out] res]. exact Hserve.
Defined.

Definition ask_down (now : Z) : Timed (W := nat) (T := bytes) := mk_timed now (now + 10) (λ n, (S n, Err (Runtime (ConnectionClosed "reset")))).
Definition five_failures : list (Timed (W := nat) (T := bytes)) := ask_down <$> [0; 100; 200; 300; 400].
Definition too_early : list (Timed (W := nat) (T := bytes)) := ask_down <$> [500; 30409].
Definition peer (_ : SocketAddr) : str := "peer".
Lemma broken_peer_is_spared_witness :
  let '((b1, w1), _) := run (in_turn peer default_breaker_config localhost five_failures) (breaker_new 0, 0%nat) in
  let '((b2, w2), rs) := run (in_turn peer default_breaker_config localhost too_early) (b1, w1) in
  let '((_, w3), r) := run (guarded peer default_breaker_config (asked (ask_down 30410)) (answered (ask_down 30410)) localhost (call (ask_down 30410))) (b2, w2) in
  w1 = all_made five_failures 0%nat ∧ w2 = w1 ∧ rs = replicate (length too_early) (Err (open_error peer localhost)) ∧
  w3 = (call (ask_down 30410) w2).1 ∧ r = flatten_error (call (ask_down 30410) w2).2.
Proof.
  refine (broken_peer_is_spared peer default_breaker_config localhost five_failures too_early (ask_down 30410) (breaker_new 0) 0%nat 410
    default_config_ok (breaker_new_inv _ 0) eq_refl _ eq_refl eq_refl _ _).
  - by repeat constructor.
  - by repeat constructor.
  - by vm_compute.
Defined.
