(* ===== verification/Handler.v ===== *)
(** * A node behind its HTTP server

    [system/handler.rs]: the handler that a node gives its server. It finds the
    mailbox a path names, passes gossip to the cluster, serves the calls of the
    head node's workers, and describes the node. Actors are what their mailboxes
    do with a message. *)
From S2P Require Import Prelude Text Bytes Address Member Gossip Head Naming Resolve Atomic Errors Retry Message Frames Json Http.

(** What happens to a message in the mailbox of a sender: [None] when the mailbox
    or the reply is closed. *)
Record Mailboxes (A : Type) := mk_mailboxes {
  ask_mailbox : nat → Msg → A → A * option (Result Msg PulsingError);
  tell_mailbox : nat → Msg → A → option A }.
Arguments ask_mailbox {A}.
Arguments tell_mailbox {A}.

(** The backends a handler can tell apart.
    src: crates/pulsing-actor/src/system/handler.rs 173-180 handle_gossip (backend) *)
Inductive Backend := GossipCluster (st : ClusterState) | HeadCluster (b : HeadNodeBackend).
(** [actors] is the state of the node's actors.
    src: crates/pulsing-actor/src/system/handler.rs 23-36 SystemMessageHandler *)
Record SystemNode (A : Type) := mk_node { sn_node_id : NodeId; registry : ActorRegistry; cluster : option Backend; sn_actors : A }.
Arguments sn_node_id {A}.
Arguments registry {A}.
Arguments cluster {A}.
Arguments sn_actors {A}.

(** [bincode] for the calls of a worker, by its documentation; the structs have
    the same fields on both sides. *)
Class HeadCodec : Type := {
  encode_call : Head.Request → option bytes;
  decode_register_node : bytes → option (NodeId * SocketAddr);
  decode_heartbeat : bytes → option NodeId;
  decode_register_named : bytes → option (ActorPath * NodeId * option ActorId * gmap (list Z) (list Z));
  decode_unregister_named : bytes → option (ActorPath * NodeId);
  decode_register_actor : bytes → option (ActorId * NodeId);
  decode_unregister_actor : bytes → option (ActorId * NodeId);
  encode_members : list MemberInfo → option bytes;
  encode_named_actors : list NamedActorInfo → option bytes;
  encode_sync : SyncResponse → option bytes;
  decode_sync : bytes → option SyncResponse;
  decode_encode_call r b : encode_call r = Some b →
    match r with
    | RegisterNodeRequest id a => decode_register_node b = Some (id, a)
    | HeartbeatRequest id => decode_heartbeat b = Some id
    | RegisterNamedActorRequest p n aid md => decode_register_named b = Some (p, n, aid, md)
    | UnregisterNamedActorRequest p n => decode_unregister_named b = Some (p, n)
    | RegisterActorRequest a n => decode_register_actor b = Some (a, n)
    | UnregisterActorRequest a n => decode_unregister_actor b = Some (a, n)
    end;
  decode_encode_sync s b : encode_sync s = Some b → decode_sync b = Some s }.

Section Handler.
Context `{Oracle, Unicode, Uuid, Codec, HeadCodec, AddrText} {A : Type} (boxes : Mailboxes A).
(** The clock; the texts of the errors of [bincode] and of [serde_json]. *)
Context (now : Z) (bincode_error : str) (json_text : Value → bytes).

(** ** Messages *)

Definition set_actors (a : A) (n : SystemNode A) : SystemNode A := mk_node _ (sn_node_id n) (registry n) (cluster n) a.
Definition set_cluster (b : Backend) (n : SystemNode A) : SystemNode A := mk_node _ (sn_node_id n) (registry n) (Some b) (sn_actors n).

(** src: crates/pulsing-actor/src/system/handler.rs 87-104 send_to_local_actor *)
Definition send_to_local_actor (actor_name : str) (m : Msg) (n : SystemNode A) : SystemNode A * Result Msg PulsingError :=
  match find_actor_sender actor_name (registry n) with
  | None => (n, Err (Runtime (ActorNotFound actor_name)))
  | Some sender =>
      let '(a, r) := ask_mailbox boxes sender m (sn_actors n) in
      (set_actors a n, match r with Some r => r | None => Err (Runtime (ActorStopped actor_name)) end)
  end.
(** src: crates/pulsing-actor/src/system/handler.rs 106-120 tell_local_actor *)
Definition tell_local_actor (actor_name : str) (m : Msg) (n : SystemNode A) : SystemNode A * Result unit PulsingError :=
  match find_actor_sender actor_name (registry n) with
  | None => (n, Err (Runtime (ActorNotFound actor_name)))
  | Some sender =>
      match tell_mailbox boxes sender m (sn_actors n) with
      | Some a => (set_actors a n, Ok tt)
      | None => (n, Err (Runtime (ActorStopped actor_name)))
      end
  end.
(** src: crates/pulsing-actor/src/system/handler.rs 122-129 send_to_named_actor *)
Definition send_to_named_actor (path : str) (m : Msg) (n : SystemNode A) : SystemNode A * Result Msg PulsingError :=
  match get_actor_name_by_path path (registry n) with
  | Some actor_name => send_to_local_actor actor_name m n
  | None => (n, Err (Runtime (NamedActorNotFoundErr path)))
  end.
(** src: crates/pulsing-actor/src/system/handler.rs 131-138 tell_named_actor *)
Definition tell_named_actor (path : str) (m : Msg) (n : SystemNode A) : SystemNode A * Result unit PulsingError :=
  match get_actor_name_by_path path (registry n) with
  | Some actor_name => tell_local_actor actor_name m n
  | None => (n, Err (Runtime (NamedActorNotFoundErr path)))
  end.
(** src: crates/pulsing-actor/src/system/handler.rs 66-74 dispatch_message *)
Definition dispatch_message (path : str) (m : Msg) (n : SystemNode A) : SystemNode A * Result Msg PulsingError :=
  match strip_prefix (lit "/actors/") path with
  | Some actor_name => send_to_local_actor actor_name m n
  | None =>
      match strip_prefix (lit "/named/") path with
      | Some named_path => send_to_named_actor named_path m n
      | None => (n, Err (Runtime (InvalidActorPathErr path)))
      end
  end.
(** src: crates/pulsing-actor/src/system/handler.rs 77-85 dispatch_tell *)
Definition dispatch_tell (path : str) (m : Msg) (n : SystemNode A) : SystemNode A * Result unit PulsingError :=
  match strip_prefix (lit "/actors/") path with
  | Some actor_name => tell_local_actor actor_name m n
  | None =>
      match strip_prefix (lit "/named/") path with
      | Some named_path => tell_named_actor named_path m n
      | None => (n, Err (Runtime (InvalidActorPathErr path)))
      end
  end.

(** ** Gossip *)

(** src: crates/pulsing-actor/src/system/handler.rs 168-194 handle_gossip *)
Definition node_handle_gossip (payload : bytes) (peer_addr : SocketAddr) (n : SystemNode A) : SystemNode A * Result (option bytes) PulsingError :=
  match cluster n with
  | Some (GossipCluster st) =>
      match decode payload with
      | None => (n, Err (Runtime (Serialization bincode_error)))
      | Some msg =>
          let '(st, response) := Gossip.handle_gossip now msg peer_addr st in
          (set_cluster (GossipCluster st) n,
           match response with
           | Some resp => match encode resp with Some b => Ok (Some b) | None => Err (Runtime (Serialization bincode_error)) end
           | None => Ok None
           end)
      end
  | _ => (n, Ok None)
  end.

(** ** The head node's calls *)

(** [NodeId]'s [Display].
    src: crates/pulsing-actor/src/actor/traits.rs 38-46 NodeId::fmt *)
Definition node_text (id : NodeId) : str := if id =? 0 then "0" else simple id.
(** The errors of the backend as the runtime's. *)
Definition head_error (e : HeadError) : PulsingError :=
  Runtime (match e with
    | NotAHeadNode => Other (lit "Not a head node")
    | NodeNotFound id => NodeNotFoundErr (node_text id)
    | InvalidState => Other (lit "Invalid state")
    | IsAHeadNode => Other (lit "Cannot send to head node: this is a head node")
    | SerializationError => Serialization bincode_error
    | TransportError => Other []
    end).
Definition bad_body : PulsingError := Runtime (Serialization bincode_error).
(** One call: the body is decoded, the handler called, and nothing answered. *)
Definition serve_call {R} (req : option R) (f : R → HeadNodeBackend → HeadNodeBackend * Result unit HeadError) (b : HeadNodeBackend)
    : HeadNodeBackend * Result (option bytes) PulsingError :=
  match req with
  | None => (b, Err bad_body)
  | Some req => let '(b, r) := f req b in (b, match r with Ok _ => Ok (Some []) | Err e => Err (head_error e) end)
  end.
Definition serve_query (body : option bytes) (b : HeadNodeBackend) : HeadNodeBackend * Result (option bytes) PulsingError :=
  (b, match body with Some body => Ok (Some body) | None => Err bad_body end).
Inductive Endpoint :=
  | EpRegister | EpHeartbeat | EpNamedRegister | EpNamedUnregister | EpMembers | EpNamedActors | EpSync | EpActorRegister | EpActorUnregister.
(** The patterns of the match.
    src: crates/pulsing-actor/src/system/handler.rs 483-539 handle_head_api_impl (patterns) *)
Definition endpoint (method path : str) : option Endpoint :=
  let post := bool_decide (method = lit "POST") in
  let get_or_post := bool_decide (method = lit "GET") || post in
  if post && bool_decide (path = lit "/cluster/head/register") then Some EpRegister
  else if post && bool_decide (path = lit "/cluster/head/heartbeat") then Some EpHeartbeat
  else if post && bool_decide (path = lit "/cluster/head/named_actor/register") then Some EpNamedRegister
  else if post && bool_decide (path = lit "/cluster/head/named_actor/unregister") then Some EpNamedUnregister
  else if get_or_post && bool_decide (path = lit "/cluster/head/members") then Some EpMembers
  else if get_or_post && bool_decide (path = lit "/cluster/head/named_actors") then Some EpNamedActors
  else if get_or_post && bool_decide (path = lit "/cluster/head/sync") then Some EpSync
  else if post && bool_decide (path = lit "/cluster/head/actor/register") then Some EpActorRegister
  else if post && bool_decide (path = lit "/cluster/head/actor/unregister") then Some EpActorUnregister
  else None.
(** src: crates/pulsing-actor/src/system/handler.rs 483-543 handle_head_api_impl (arms) *)
Definition head_routes (path method : str) (body : bytes) (b : HeadNodeBackend) : HeadNodeBackend * Result (option bytes) PulsingError :=
  match endpoint method path with
  | Some EpRegister => serve_call (decode_register_node body) (λ '(id, a), handle_register_node now id a) b
  | Some EpHeartbeat => serve_call (decode_heartbeat body) (handle_heartbeat now) b
  | Some EpNamedRegister => serve_call (decode_register_named body) (λ '(p, n, aid, md), handle_register_named_actor p n aid md) b
  | Some EpNamedUnregister => serve_call (decode_unregister_named body) (λ '(p, n), handle_unregister_named_actor p n) b
  | Some EpMembers => serve_query (encode_members (backend_all_members b)) b
  | Some EpNamedActors => serve_query (encode_named_actors (backend_all_named b)) b
  | Some EpSync => match handle_sync b with Ok sync => serve_query (encode_sync sync) b | Err e => (b, Err (head_error e)) end
  | Some EpActorRegister => serve_call (decode_register_actor body) (λ '(a, n), handle_register_actor a n) b
  | Some EpActorUnregister => serve_call (decode_unregister_actor body) (λ '(a, n), handle_unregister_actor a n) b
  | None => (b, Err (Runtime (Other (lit "Unknown head API endpoint: " ++ method ++ lit " " ++ path))))
  end.
(** src: crates/pulsing-actor/src/system/handler.rs 464-544 handle_head_api_impl *)
Definition handle_head_api_impl (path method : str) (body : bytes) (n : SystemNode A) : SystemNode A * Result (option bytes) PulsingError :=
  match cluster n with
  | None => (n, Err (Runtime ClusterNotInitialized))
  | Some (HeadCluster b) =>
      if is_head b then
        let '(b, r) := head_routes path method body b in (set_cluster (HeadCluster b) n, r)
      else (n, Ok None)
  | Some (GossipCluster _) => (n, Ok None)
  end.

(** ** Descriptions of the node *)

(** [json!] of an object. *)
Definition obj (members : list (str * Value)) : Value := Object (foldl (λ m kv, member_insert kv.1 kv.2 m) [] members).
Definition num (n : Z) : Value := Number (display_u128 n).
(** [Debug] of a member's status. *)
Definition status_debug (s : MemberStatus) : str :=
  match s with Alive => "Alive" | Suspect => "Suspect" | Dead => "Dead" | Leaving => "Leaving" end.
Definition backend_members (alive : bool) (b : Backend) : list MemberInfo :=
  match b, alive with
  | GossipCluster st, false => all_members st
  | GossipCluster st, true => alive_members st
  | HeadCluster b, false => backend_all_members b
  | HeadCluster b, true => backend_alive_members b
  end.
Definition backend_named (b : Backend) : list NamedActorInfo :=
  match b with GossipCluster st => all_named_actors st | HeadCluster b => backend_all_named b end.
Definition backend_lookup (p : ActorPath) (b : Backend) : option NamedActorInfo :=
  match b with GossipCluster st => lookup_named_actor p st | HeadCluster b => backend_lookup_named p b end.
Definition backend_addr (b : Backend) : SocketAddr := match b with GossipCluster st => local_addr st | HeadCluster b => b_local_addr b end.

(** src: crates/pulsing-actor/src/system/handler.rs 307-328 cluster_members *)
Definition node_cluster_members (n : SystemNode A) : Value :=
  match cluster n with
  | Some b =>
      Array ((λ m, obj [(lit "node_id", Text (node_text (m_node_id m))); (lit "addr", Text (addr_text (m_addr m))); (lit "status", Text (status_debug (m_status m)))])
        <$> backend_members false b)
  | None => Array [obj [(lit "node_id", Text (node_text (sn_node_id n))); (lit "status", Text (lit "Alive"))]]
  end.

(** One entry, if it is shown.
    src: crates/pulsing-actor/src/system/handler.rs 341-380 actors_list (entry) *)
Definition actor_entry (include_internal : bool) (local : NodeId) (info : NamedActorInfo) : option Value :=
  let path_str := Address.as_str (path info) in
  if bool_decide (path_str = lit "system/core") then None
  else if negb (bool_decide (local ∈ instance_nodes info)) then None
  else
    let name := default path_str (strip_prefix (lit "actors/") path_str) in
    let internal := starts_with (lit "_") name in
    if negb include_internal && internal then None
    else
      let actor_json := [(lit "name", Text name); (lit "type", Text (if internal then lit "system" else lit "user"))] in
      Some (obj (match get_instance info local with
        | Some i => actor_json ++ [(lit "actor_id", Text (simple (i_actor_id i)))] ++ ((λ kv, (kv.1, Text kv.2)) <$> hm_iter (Member.metadata i))
        | None => actor_json
        end)).
(** src: crates/pulsing-actor/src/system/handler.rs 330-384 actors_list *)
Definition node_actors_list (include_internal : bool) (n : SystemNode A) : Value :=
  Array (omap (actor_entry include_internal (sn_node_id n)) (from_option backend_named [] (cluster n))).

Definition resolve_answer (found : bool) (path gateway : str) (instance_count : Z) : Value :=
  obj [(lit "found", Boolean found); (lit "path", Text path); (lit "gateway", Text gateway); (lit "instance_count", num instance_count)].
(** src: crates/pulsing-actor/src/system/handler.rs 386-431 handle_client_resolve *)
Definition node_client_resolve (path : str) (n : SystemNode A) : Value :=
  match cluster n with
  | Some b =>
      match path_new path with
      | Err _ => resolve_answer false path [] 0
      | Ok actor_path =>
          match backend_lookup actor_path b with
          | Some info => resolve_answer true path (addr_text (backend_addr b)) (Z.of_nat (instance_count info))
          | None => resolve_answer false path [] 0
          end
      end
  | None =>
      let found := bool_decide (is_Some (get_actor_name_by_path path (registry n))) in
      resolve_answer found path [] (if found then 1 else 0)
  end.
(** src: crates/pulsing-actor/src/system/handler.rs 433-442 handle_client_members *)
Definition node_client_members (n : SystemNode A) : Value :=
  obj [(lit "gateways", Array (match cluster n with
    | Some b => (λ m, Text (addr_text (m_addr m))) <$> backend_members true b
    | None => []
    end))].

(** The health report and the metrics are left to the environment.
    src: crates/pulsing-actor/src/system/handler.rs 142-166 Http2ServerHandler for SystemMessageHandler *)
Definition node_handler (health metrics : SystemNode A → bytes) : Handler (SystemNode A) := {|
  handle_message_full := dispatch_message;
  handle_tell_full := dispatch_tell;
  handle_gossip := node_handle_gossip;
  health_check := health;
  prometheus_metrics := metrics;
  cluster_members n := json_text (node_cluster_members n);
  actors_list include_internal n := json_text (node_actors_list include_internal n);
  handle_client_resolve path n := json_text (node_client_resolve path n);
  handle_client_members n := json_text (node_client_members n);
  handle_head_api := handle_head_api_impl |}.
End Handler.
