(* ===== verification/HandlerFacts.v ===== *)
(** * Properties of a node behind its server

    A message sent to a target on another node reaches the mailbox the target
    names there, and its answer comes back; the calls of a worker are served as
    the head's handlers serve them. *)
From S2P Require Import Prelude Text Bytes Address Member Gossip Head Naming Resolve Atomic Runtime RuntimeFacts Float Errors Retry Message Frames Json Http Pool Breaker Exchange Handler.

Section Facts.
Context `{Oracle, Unicode, Uuid, Codec, HeadCodec, AddrText, Lowercase, HttpRules, ErrorTexts, Limits}.
Context {A : Type} (boxes : Mailboxes A) (now : Z) (bincode_error : str) (json_text : Value → bytes) (health metrics : SystemNode A → bytes).
Notation node := (node_handler boxes now bincode_error json_text health metrics).

(** ** Messages *)

(** The name a target is looked up by on a node, and the mailbox behind it. *)
Definition target_name (t : TransportTarget) (r : ActorRegistry) : option str :=
  match t with
  | ByName name => Some name
  | ById id => Some (simple id)
  | NamedTarget p => get_actor_name_by_path (Address.as_str p) r
  end.
Definition target_mailbox (t : TransportTarget) (r : ActorRegistry) : option (str * nat) :=
  name ← target_name t r; s ← find_actor_sender name r; Some (name, s).

Lemma dispatch_target t m n name s : target_mailbox t (registry n) = Some (name, s) →
  dispatch_message boxes (to_path t) m n =
    let '(a, r) := ask_mailbox boxes s m (sn_actors n) in (set_actors a n, default (Err (Runtime (ActorStopped name))) r).
Proof.
  unfold target_mailbox, dispatch_message. intros Ht. apply bind_Some in Ht as (name' & Hn & Ht). apply bind_Some in Ht as (s' & Hs & [= -> ->]).
  destruct t as [nm|id|p]; cbn [to_path target_name] in *; simplify_eq.
  - rewrite strip_prefix_app. unfold send_to_local_actor. rewrite Hs. destruct (ask_mailbox _ _ _ _) as [a [r|]]; done.
  - rewrite strip_prefix_app. unfold send_to_local_actor. rewrite Hs. destruct (ask_mailbox _ _ _ _) as [a [r|]]; done.
  - change (strip_prefix (lit "/actors/") (lit "/named/" ++ Address.as_str p)) with (@None (list Z)). cbv iota. rewrite strip_prefix_app.
    unfold send_to_named_actor. rewrite Hn. unfold send_to_local_actor. rewrite Hs. destruct (ask_mailbox _ _ _ _) as [a [r|]]; done.
Qed.
Lemma to_path_actor t : actor_path (to_path t).
Proof. destruct t; [left|left|right]; by apply starts_with_spec; eexists. Qed.

(** C16: A message for an actor on another node, whose request can be built, goes
    into the mailbox the target names there, by name, by id or by path, once,
    however the transport cuts it: a single message (of a type other than the
    reserved one) and a tensor as they were sent, and a stream as the single messages
    in it, without its errors and what cannot be nested. What the actor answers is
    what the caller receives, with errors as texts; only a single answer whose type
    is no header value is received as a success that holds the text of an error. A
    mailbox that is closed is the error of a stopped actor. The types and error
    texts in streams are shorter than 64 KiB, and their items under 4 GiB. Nothing else of the node changes. *)
Theorem message_reaches_mailbox t m req chunks rp peer n name s :
  target_mailbox t (registry n) = Some (name, s) → request_fits m → build_message_request (to_path t) m = Ok req →
  concat chunks = concat (rq_body req) →
  let '(a, r) := ask_mailbox boxes s (delivered m) (sn_actors n) in
  let answer := default (Err (Runtime (ActorStopped name))) r in
  answer_fits answer →
  ∃ resp, handle_request node rp (cut_request chunks req) peer n = Some (set_actors a n, resp) ∧
    ∀ chunks', concat chunks' = concat (rs_body resp) → parse_response (cut_response chunks' resp) = Some (received answer).
Proof.
  intros Ht Hfit Hb Hc. rewrite (delivered_request node rp (to_path t) m req chunks peer n) by (done || apply to_path_actor).
  pose proof (received_response node (to_path t) (delivered m) n) as Hr.
  change (handle_message_full node) with (dispatch_message boxes) in Hr. rewrite (dispatch_target _ _ _ _ _ Ht) in Hr.
  destruct (ask_mailbox _ _ _ _) as [a r]. cbv zeta. destruct (handle_message_request_full _ _ _ _) as [n' resp]. intros Ha.
  exists resp. split; [by destruct (Hr (rs_body resp) Ha eq_refl) as [-> _]|]. intros chunks' Hc'. by destruct (Hr chunks' Ha Hc').
Qed.

(** ** The head's calls *)

(** Where a worker sends a call, and as what.
    crates/pulsing-actor/src/cluster/backends/head.rs 565-733 *)
Definition call_path (r : Head.Request) : str :=
  lit "/cluster/head/" ++
  match r with
  | RegisterNodeRequest _ _ => lit "register"
  | HeartbeatRequest _ => lit "heartbeat"
  | RegisterNamedActorRequest _ _ _ _ => lit "named_actor/register"
  | UnregisterNamedActorRequest _ _ => lit "named_actor/unregister"
  | RegisterActorRequest _ _ => lit "actor/register"
  | UnregisterActorRequest _ _ => lit "actor/unregister"
  end.
Definition call_type (r : Head.Request) : str :=
  match r with
  | RegisterNodeRequest _ _ => lit "register_node"
  | HeartbeatRequest _ => lit "heartbeat"
  | RegisterNamedActorRequest _ _ _ _ => lit "register_named_actor"
  | UnregisterNamedActorRequest _ _ => lit "unregister_named_actor"
  | RegisterActorRequest _ _ => lit "register_actor"
  | UnregisterActorRequest _ _ => lit "unregister_actor"
  end.

Lemma head_route {St} (h : Handler St) rp path msg_type payload mode peer st : starts_with (lit "/cluster/head/") path = true →
  handle_request h rp (mk_request POST path None (Some mode) (Some msg_type) None [payload]) peer st =
    Some (handle_head_request h (mk_request POST path None (Some mode) (Some msg_type) None [payload]) st).
Proof.
  intros Hp. unfold handle_request. cbn [rq_path rq_method]. cbv zeta. rewrite (bool_decide_false (POST = GET)) by done. rewrite !andb_false_r, Hp.
  replace (bool_decide (path = lit "/client/resolve")) with false; [done|]. symmetry. apply bool_decide_eq_false. intros ->. by vm_compute in Hp.
Qed.
Lemma call_path_head r : starts_with (lit "/cluster/head/") (call_path r) = true.
Proof. apply starts_with_spec. by eexists. Qed.
Lemma call_built r payload mode : build_request (call_path r) (call_type r) payload mode =
  Ok (mk_request POST (call_path r) None (Some (mode_str mode)) (Some (call_type r)) None [payload]).
Proof.
  unfold build_request. replace (uri_ok (call_path r)) with true by (symmetry; apply uri_unreserved; by destruct r).
  replace (header_ok (call_type r)) with true by (symmetry; apply header_visible; by destruct r). done.
Qed.
Lemma head_routes_call r payload b : encode_call r = Some payload →
  head_routes now bincode_error (call_path r) (lit "POST") payload b =
    let '(b', res) := serve now r b in (b', match res with Ok _ => Ok (Some []) | Err e => Err (head_error bincode_error e) end).
Proof. intros Hr%decode_encode_call. unfold head_routes. destruct r; cbn [call_path] in *; match goal with |- context [endpoint ?m ?p] => let e := eval vm_compute in (endpoint m p) in change (endpoint m p) with e end; rewrite ?Hr; try done. Qed.
Lemma endpoint_sync : endpoint (lit "POST") (lit "/cluster/head/sync") = Some EpSync.
Proof. by vm_compute. Qed.

(** C22: The calls of a worker go to the handler they are meant for: a call that is
    posted to the head is decoded to what was sent, the head's registry is what
    [serve] makes of it, and the worker is told of success exactly when the
    handler succeeded; a sync is answered with the head's view, and changes
    nothing. *)
Theorem head_serves_workers n b rp peer addr : cluster n = Some (HeadCluster b) → is_head b = true →
  (∀ r payload, encode_call r = Some payload →
    ∃ req resp, build_request (call_path r) (call_type r) payload TellMode = Ok req ∧
      handle_request node rp req peer n = Some (set_cluster (HeadCluster (serve now r b).1) n, resp) ∧
      (read_tell_response addr resp = Ok tt ↔ (serve now r b).2 = Ok tt)) ∧
  (∀ s payload, handle_sync b = Ok s → encode_sync s = Some payload →
    ∃ req resp, build_request (lit "/cluster/head/sync") (lit "sync") [] AskMode = Ok req ∧
      handle_request node rp req peer n = Some (n, resp) ∧
      ∃ body, read_ask_response resp = Ok body ∧ decode_sync body = Some s).
Proof.
  intros Hn Hb. split.
  - intros r payload Hr. pose proof (call_built r payload TellMode) as Hreq.
    pose proof (head_route node rp (call_path r) (call_type r) payload (mode_str TellMode) peer n (call_path_head r)) as Hroute.
    unfold handle_head_request in Hroute. cbn [rq_path rq_method rq_body method_str handle_head_api node_handler concat] in Hroute.
    unfold handle_head_api_impl in Hroute. rewrite Hn, Hb, app_nil_r, (head_routes_call _ _ _ Hr) in Hroute.
    destruct (serve now r b) as [b' [[]|e]]; (eexists _, _; split; [exact Hreq|split; [exact Hroute|done]]).
  - intros s payload Hs He. eexists (mk_request POST _ None _ _ None [[]]), _. split; [unfold build_request; rewrite uri_unreserved, header_visible by done; done|].
    rewrite head_route by done. unfold handle_head_request. cbn [rq_path rq_method rq_body method_str handle_head_api node_handler concat].
    unfold handle_head_api_impl, head_routes. rewrite Hn, Hb, endpoint_sync, Hs, He. cbn. split.
    + destruct n as [? ? ? ?]. simpl in Hn. subst. done.
    + eexists. split; [reflexivity|]. simpl. rewrite app_nil_r. by apply decode_encode_sync.
Qed.
End Facts.

(** ** Examples *)
#[local] Instance silent_codec : Codec.
Proof. by refine {| Gossip.encode _ := None; Gossip.decode _ := None |}. Defined.
(** A codec for the calls that carry numbers only, and for the syncs of actors. *)
Definition pairs (l : list (Z * Z)) : bytes := l ≫= λ p, [p.1; p.2].
Fixpoint read_pairs (b : bytes) : list (Z * Z) := match b with x :: y :: b => (x, y) :: read_pairs b | _ => [] end.
Lemma read_pairs_pairs l : read_pairs (pairs l) = l.
Proof. induction l as [|[x y] l IH]; [done|]. change (pairs ((x, y) :: l)) with (x :: y :: pairs l). cbn [read_pairs]. by rewrite IH. Qed.
Definition read_pair (b : bytes) : option (Z * Z) := match b with [x; y] => Some (x, y) | _ => None end.
Definition call_numbers (r : Head.Request) : option bytes :=
  match r with
  | HeartbeatRequest id => Some [id]
  | RegisterNodeRequest id (mk_addr (V4 a) p) => Some [id; a; p]
  | RegisterActorRequest a n | UnregisterActorRequest a n => Some [a; n]
  | _ => None
  end.
Definition sync_numbers (s : SyncResponse) : option bytes := match s with mk_sync [] [] l => Some (pairs l) | _ => None end.
Definition read_node (b : bytes) : option (Z * SocketAddr) := match b with [id; a; p] => Some (id, mk_addr (V4 a) p) | _ => None end.
#[local] Program Instance small_codec : HeadCodec := {|
  encode_call := call_numbers;
  decode_register_node := read_node;
  decode_heartbeat b := head b;
  decode_register_named _ := None; decode_unregister_named _ := None;
  decode_register_actor := read_pair; decode_unregister_actor := read_pair;
  encode_members _ := None; encode_named_actors _ := None;
  encode_sync := sync_numbers;
  decode_sync b := Some (mk_sync [] [] (read_pairs b)) |}.
Next Obligation. intros r b Hr. destruct r as [id [ip p]|id|p n aid md|p n|a n|a n]; [destruct ip|..]; simpl in *; by simplify_eq. Qed.
Next Obligation. intros s b Hs. destruct s as [ms ns l]. destruct ms, ns; simpl in *; simplify_eq. by rewrite read_pairs_pairs. Qed.
#[local] Instance port_text : AddrText := {| addr_text a := [port a] |}.
#[local] Instance node_texts : ErrorTexts :=
  {| malformed_text _ := lit "malformed"; frame_error_text _ := lit "frame"; build_error_text := lit "http"; lossy _ := []; malformed_scalars _ := ltac:(by repeat constructor) |}.

(** Mailboxes that keep what they got and send it back. *)
Definition echo : Mailboxes (list (nat * Msg)) := mk_mailboxes _ (λ s m a, (a ++ [(s, m)], Some (Ok m))) (λ s m a, Some (a ++ [(s, m)])).
Definition echo_registry : ActorRegistry :=
  register_named_path (Address.as_str router_path) "router" (register_name "router" 7 (reg_register_actor 7 (mk_handle 7 3 (Some router_path)) ActorRegistry_new)).
Definition echo_node : SystemNode (list (nat * Msg)) := mk_node _ 1 echo_registry None [].
Definition router_request : Http.Request :=
  mk_request POST (to_path (NamedTarget router_path)) None (Some (mode_str AskMode)) (Some (lit "ping")) None [[1; 2]].

Lemma message_reaches_mailbox_witness :
  ∃ resp, handle_request (node_handler echo 0 "bad" (λ _, []) (λ _, []) (λ _, [])) (λ _, []) (cut_request [[1]; [2]] router_request) localhost echo_node =
      Some (set_actors [(3%nat, ping)] echo_node, resp) ∧
    ∀ chunks', concat chunks' = concat (rs_body resp) → parse_response (cut_response chunks' resp) = Some (received (Ok ping)).
Proof.
  apply (message_reaches_mailbox echo 0 "bad" (λ _, []) (λ _, []) (λ _, []) (NamedTarget router_path) ping router_request [[1]; [2]] (λ _, []) localhost echo_node "router" 3%nat);
    [by vm_compute|done|by vm_compute|done|by vm_compute].
Defined.

Definition head_backend : HeadNodeBackend := with_config 1 localhost None default_head_config.
Definition head_node : SystemNode (list (nat * Msg)) := mk_node _ 1 ActorRegistry_new (Some (HeadCluster head_backend)) [].
Lemma head_serves_workers_witness : let h := node_handler echo 5 "bad" (λ _, []) (λ _, []) (λ _, []) in
  (∀ r payload, encode_call r = Some payload →
    ∃ req resp, build_request (call_path r) (call_type r) payload TellMode = Ok req ∧
      handle_request h (λ _, []) req localhost head_node = Some (set_cluster (HeadCluster (serve 5 r head_backend).1) head_node, resp) ∧
      (read_tell_response "head" resp = Ok tt ↔ (serve 5 r head_backend).2 = Ok tt)) ∧
  (∀ s payload, handle_sync head_backend = Ok s → encode_sync s = Some payload →
    ∃ req resp, build_request (lit "/cluster/head/sync") (lit "sync") [] AskMode = Ok req ∧
      handle_request h (λ _, []) req localhost head_node = Some (head_node, resp) ∧
      ∃ body, read_ask_response resp = Ok body ∧ decode_sync body = Some s).
Proof. by apply (head_serves_workers echo 5 "bad" (λ _, []) (λ _, []) (λ _, []) head_node head_backend (λ _, []) localhost "head"). Defined.
