(* ===== verification/Connect.v ===== *)
(** * A client outside the cluster

    [connect/mod.rs] and [connect/reference.rs]: a client that knows the
    addresses of some nodes, asks the active one where an actor is, and sends
    through it. Its calls are those of the HTTP client, and the node that answers
    is the one of [Handler]. *)
From S2P Require Import Prelude Text Bytes Address Member Gossip Head Naming Resolve Errors Retry Message Frames Json Http Handler.
From S2P Require HandlerFacts.

(** ** What is exchanged *)
(** src: crates/pulsing-actor/src/connect/mod.rs 28-35 ResolveResponse *)
Record ResolveResponse := mk_resolve_response { found : bool; rr_path : str; gateway : str; rr_instance_count : Z }.
(** src: crates/pulsing-actor/src/connect/mod.rs 37-41 MembersResponse *)
Record MembersResponse := mk_members_response { mr_gateways : list str }.
(** What the derived reading of a struct takes from a value: every field is
    there, and fields that are not known are skipped. *)
Definition read_resolve (v : Value) : option ResolveResponse :=
  f ← get (lit "found") v ≫= as_bool;
  p ← get_str (lit "path") v;
  g ← get_str (lit "gateway") v;
  n ← get (lit "instance_count") v ≫= as_u64;
  Some (mk_resolve_response f p g n).
Definition read_members (v : Value) : option MembersResponse := gs ← get (lit "gateways") v ≫= as_array; mk_members_response <$> mapM as_str gs.

(** [serde_json], by its documentation: what is written is read back; the text
    of an error. *)
Class JsonText : Type := {
  to_vec : Value → bytes;
  from_slice : bytes → Result Value str;
  from_to_vec v : from_slice (to_vec v) = Ok v;
  missing_field : str
}.
(** The path in the body of a request, as the server reads it.
    src: crates/pulsing-actor/src/transport/http2/server.rs 514-519 handle_request (path) *)
Definition requested_path `{JsonText} (body : bytes) : str :=
  match from_slice body with Ok v => default [] (get_str (lit "path") v) | Err _ => [] end.

(** ** The client *)
(** src: crates/pulsing-actor/src/connect/mod.rs 43-48 PulsingConnect *)
Record PulsingConnect := mk_connect { active_gateway : SocketAddr; gateways : list SocketAddr }.
(** src: crates/pulsing-actor/src/connect/reference.rs 13-22 ConnectActorRef *)
Record ConnectActorRef := mk_ref { ref_gateway : SocketAddr; ref_path : str }.

Section Connect.
Context `{Lowercase, HttpRules, ErrorTexts, Limits, JsonText}.
(** The client's retries, its fault injector, the parser of addresses and the
    network: the answer of the [n]-th exchange with an address. *)
Context (c : RetryConfig) (nanos : nat → Z) (fault : option PulsingError) (parse_addr : str → option SocketAddr).
Context (net : SocketAddr → nat → Request → Result Response PulsingError).
Definition other (e : str) : PulsingError := Runtime (Other e).
(** src: crates/pulsing-actor/src/connect/mod.rs 160-164 ask_gateway *)
Definition ask_gateway (g : SocketAddr) (path : str) (body : bytes) : Result bytes PulsingError :=
  (ask c nanos fault (net g) path (lit "client") body).1.1.
Definition read_json {T} (read : Value → option T) (b : bytes) : Result T PulsingError :=
  match from_slice b with
  | Ok v => match read v with Some x => Ok x | None => Err (other missing_field) end
  | Err e => Err (other e)
  end.
(** src: crates/pulsing-actor/src/connect/mod.rs 81-102 resolve *)
Definition resolve (path : str) (s : PulsingConnect) : Result ConnectActorRef PulsingError :=
  let g := active_gateway s in
  let? b := ask_gateway g (lit "/client/resolve") (to_vec (obj [(lit "path", Text path)])) in
  let? resp := read_json read_resolve b in
  if negb (found resp) then Err (Runtime (NamedActorNotFoundErr path)) else Ok (mk_ref g path).
(** src: crates/pulsing-actor/src/connect/mod.rs 105-124 refresh_gateways *)
Definition refresh_gateways (s : PulsingConnect) : PulsingConnect * Result unit PulsingError :=
  match (let? b := ask_gateway (active_gateway s) (lit "/client/members") [] in read_json read_members b) with
  | Err e => (s, Err e)
  | Ok resp =>
      let new_gateways := omap parse_addr (mr_gateways resp) in
      (mk_connect (active_gateway s) (if bool_decide (new_gateways = []) then gateways s else new_gateways), Ok tt)
  end.
(** src: crates/pulsing-actor/src/connect/mod.rs 57-78 connect_multi *)
Definition connect_multi (gs : list SocketAddr) : Result PulsingConnect PulsingError :=
  match gs with
  | [] => Err (other (lit "At least one gateway address is required"))
  | active :: _ => Ok (refresh_gateways (mk_connect active gs)).1
  end.
(** src: crates/pulsing-actor/src/connect/mod.rs 52-54 connect *)
Definition connect (g : SocketAddr) : Result PulsingConnect PulsingError := connect_multi [g].
(** src: crates/pulsing-actor/src/connect/mod.rs 127-142 failover *)
Definition failover (s : PulsingConnect) : PulsingConnect * Result unit PulsingError :=
  match head (filter (λ a, a ≠ active_gateway s) (gateways s)) with
  | None => (s, Err (other (lit "No alternative gateway available")))
  | Some next => (mk_connect next (gateways s), Ok tt)
  end.

(** ** Its references *)
Definition named_url (r : ConnectActorRef) : str := lit "/named/" ++ ref_path r.
(** src: crates/pulsing-actor/src/connect/reference.rs 33-39 ConnectActorRef::ask *)
Definition ref_ask (r : ConnectActorRef) (msg_type : str) (payload : bytes) : Result bytes PulsingError :=
  (ask c nanos fault (net (ref_gateway r)) (named_url r) msg_type payload).1.1.
(** src: crates/pulsing-actor/src/connect/reference.rs 41-47 ConnectActorRef::tell *)
Definition ref_tell `{AddrText} (r : ConnectActorRef) (msg_type : str) (payload : bytes) : Result unit PulsingError :=
  (tell c nanos fault (net (ref_gateway r)) (addr_text (ref_gateway r)) (named_url r) msg_type payload).1.1.
(** The request of a message, which is read as [parse_response] does.
    src: crates/pulsing-actor/src/connect/reference.rs 61-67 ConnectActorRef::send_message *)
Definition ref_request (r : ConnectActorRef) (m : Msg) : Result Request PulsingError := build_message_request (named_url r) m.
End Connect.

(** ** Properties *)

Section Facts.
Context `{Lowercase, HttpRules, ErrorTexts, Limits, JsonText, Oracle, Unicode, Uuid, Codec, HeadCodec, AddrText}.
Context {A : Type} (boxes : Mailboxes A) (now : Z) (bincode_error : str) (health metrics : SystemNode A → bytes).
Context (c : RetryConfig) (nanos : nat → Z) (net : SocketAddr → nat → Request → Result Response PulsingError).
Notation node := (node_handler boxes now bincode_error to_vec health metrics).

(** The node [n] answers at the address [g], every time in the same state. *)
Definition answers_at (g : SocketAddr) (n : SystemNode A) : Prop := ∀ i req,
  net g i req = match handle_request node requested_path req g n with Some (_, resp) => Ok resp | None => Err (other []) end.
(** What a node says of a path. *)
Definition node_knows (path : str) (n : SystemNode A) : bool :=
  match cluster n with
  | Some b => match path_new path with Ok p => bool_decide (is_Some (backend_lookup p b)) | Err _ => false end
  | None => bool_decide (is_Some (get_actor_name_by_path path (registry n)))
  end.

Lemma ask_answer g path msg_type body req r : 0 <= max_retries c → build_request path msg_type body AskMode = Ok req →
  (∀ i, net g i req = r) → (ask c nanos None (net g) path msg_type body).1.1 = let? x := r in read_ask_response x.
Proof.
  intros Hm Hb Hr. unfold ask. set (f := λ i : nat, _). assert (Hf : ∀ i, f i = let? x := r in read_ask_response x).
  { intros i. unfold f. rewrite Hb. cbn. by rewrite Hr. }
  destruct (execute c true nanos f) as [[x calls] pauses] eqn:E. unfold execute in E. apply execute_from_spec in E as (_ & E2 & _); [|lia..]. by rewrite <- E2, Hf.
Qed.
Lemma client_request path body : uri_ok path = true → build_request path (lit "client") body AskMode =
  Ok (mk_request POST path None (Some (mode_str AskMode)) (Some (lit "client")) None [body]).
Proof. intros Hu. unfold build_request. by rewrite Hu, header_visible. Qed.
Lemma resolve_route {St} (h : Http.Handler St) rp mode msg_type body peer st :
  handle_request h rp (mk_request POST (lit "/client/resolve") None mode msg_type None [body]) peer st =
    Some (st, plain_response 200 (handle_client_resolve h (rp body) st)).
Proof.
  unfold handle_request. cbn [rq_path rq_method rq_body concat]. cbv zeta. rewrite (bool_decide_false (POST = GET)) by done.
  rewrite !andb_false_r, !bool_decide_true by done. cbn. by rewrite app_nil_r.
Qed.
Lemma members_route {St} (h : Http.Handler St) rp mode msg_type body peer st :
  handle_request h rp (mk_request POST (lit "/client/members") None mode msg_type None [body]) peer st =
    handle_actor_request h (mk_request POST (lit "/client/members") None mode msg_type None [body]) peer st.
Proof.
  unfold handle_request. cbn [rq_path rq_method rq_body concat]. cbv zeta. rewrite (bool_decide_false (POST = GET)) by done.
  rewrite !andb_false_r, (bool_decide_false (lit "/client/members" = lit "/client/resolve")) by done. done.
Qed.
Lemma posted_single {St} (h : Http.Handler St) path msg_type payload peer st : path ≠ lit "/cluster/gossip" → msg_type ≠ TENSOR_MESSAGE_TYPE →
  handle_actor_request h (mk_request POST path None (Some (mode_str AskMode)) (Some msg_type) None [payload]) peer st =
    Some (handle_message_request_full h path (Single msg_type payload) st).
Proof.
  intros Hp Ht. unfold handle_actor_request. cbn [rq_method rq_path rq_mode rq_msg_type rq_type rq_body]. rewrite (bool_decide_false (POST ≠ POST)) by naive_solver.
  cbv zeta. rewrite (bool_decide_false (path = _)) by done. rewrite mode_ask. cbn [default mbind option_bind]. unfold read_message, collect_actor_body, decode_single_or_tensor.
  rewrite (bool_decide_false (msg_type = _)) by done. simpl. by rewrite app_nil_r.
Qed.
Lemma unknown_answers path n m e : dispatch_message boxes path m n = (n, Err e) →
  handle_message_request_full node path m n = (n, error_response 500 (display e)).
Proof. intros Hd. unfold handle_message_request_full. change (handle_message_full node) with (dispatch_message boxes). by rewrite Hd. Qed.
Lemma resolve_answer_read f p g n : 0 <= n < two64 → read_resolve (resolve_answer f p g n) = Some (mk_resolve_response f p g n).
Proof.
  intros Hn. set (v := resolve_answer f p g n). assert (Hf : get (lit "found") v = Some (Boolean f)) by reflexivity.
  assert (Hp : get (lit "path") v = Some (Text p)) by reflexivity. assert (Hg : get (lit "gateway") v = Some (Text g)) by reflexivity.
  assert (Hi : get (lit "instance_count") v = Some (num n)) by reflexivity.
  unfold read_resolve, get_str. rewrite Hf, Hp, Hg, Hi. cbn [mbind option_bind as_bool as_str as_u64 num]. by rewrite parse_display_u64.
Qed.
Lemma path_read path : requested_path (to_vec (obj [(lit "path", Text path)])) = path.
Proof. unfold requested_path. by rewrite from_to_vec. Qed.
(** A machine's word counts the instances of the actor at [path]. *)
Definition few_instances (path : str) (n : SystemNode A) : Prop :=
  ∀ b p info, cluster n = Some b → path_new path = Ok p → backend_lookup p b = Some info → Z.of_nat (instance_count info) < two64.
Lemma client_resolve_answer path n : few_instances path n →
  ∃ g k, read_resolve (node_client_resolve path n) = Some (mk_resolve_response (node_knows path n) path g k).
Proof.
  intros Hk. unfold node_client_resolve, node_knows. destruct (cluster n) as [b|] eqn:Hc.
  - destruct (path_new path) as [p|e] eqn:Hp; [|eexists _, _; by apply resolve_answer_read].
    destruct (backend_lookup p b) as [info|] eqn:Hl; [|eexists _, _; by apply resolve_answer_read].
    eexists _, _. rewrite bool_decide_true by done. apply resolve_answer_read. split; [lia|by eapply Hk].
  - eexists _, _. apply resolve_answer_read. by case_bool_decide.
Qed.

Lemma resolve_at path s n : 0 <= max_retries c → answers_at (active_gateway s) n →
  few_instances path n →
  resolve c nanos None net path s =
    if node_knows path n then Ok (mk_ref (active_gateway s) path) else Err (Runtime (NamedActorNotFoundErr path)).
Proof.
  intros Hm Ha Hk. destruct (client_resolve_answer path n Hk) as (g & k & Hread). unfold resolve, ask_gateway. cbv zeta.
  erewrite ask_answer; [|done|apply client_request, uri_unreserved; done|].
  2: { intros i. rewrite Ha. rewrite resolve_route, path_read. reflexivity. }
  cbn -[node_client_resolve]. unfold read_json. rewrite app_nil_r, from_to_vec, Hread. cbn. by destruct (node_knows path n).
Qed.
(** C18: The client's question reaches the node that is asked, and its answer is the
    node's knowledge: a reference through that node when it knows an actor by
    the path, and the error of an actor that is not found otherwise. *)
Theorem resolve_asks_the_gateway path s n : 0 <= max_retries c → answers_at (active_gateway s) n →
  few_instances path n →
  resolve c nanos None net path s =
    if node_knows path n then Ok (mk_ref (active_gateway s) path) else Err (Runtime (NamedActorNotFoundErr path)).
Proof. apply resolve_at. Qed.
(** The gateway looks for the actor on itself only: an actor that it knows on
    another node is resolved, and every question to it is an error. *)
Theorem resolved_elsewhere_is_unreachable path s n msg_type payload req : 0 <= max_retries c → answers_at (active_gateway s) n →
  few_instances path n →
  node_knows path n = true → get_actor_name_by_path path (registry n) = None →
  msg_type ≠ TENSOR_MESSAGE_TYPE → build_request (lit "/named/" ++ path) msg_type payload AskMode = Ok req →
  ∃ r e, resolve c nanos None net path s = Ok r ∧ ref_ask c nanos None net r msg_type payload = Err e.
Proof.
  intros Hm Ha Hk Hknows Hlocal Ht Hb. assert (Hr := resolve_at path s n Hm Ha Hk). rewrite Hknows in Hr.
  eexists (mk_ref _ _). unfold ref_ask, named_url. cbn [ref_gateway ref_path].
  assert (Hreq : req = mk_request POST (lit "/named/" ++ path) None (Some (mode_str AskMode)) (Some msg_type) None [payload]).
  { unfold build_request in Hb. destruct (_ && _); [|done]. by injection Hb. }
  erewrite ask_answer; [|done|exact Hb|].
  2: { intros i. rewrite Ha, Hreq, actor_route, posted_single by (by right || done). rewrite (unknown_answers _ _ _ (Runtime (NamedActorNotFoundErr path))); [reflexivity|].
       unfold dispatch_message. change (strip_prefix (lit "/actors/") (lit "/named/" ++ path)) with (@None (list Z)). cbv iota.
       rewrite strip_prefix_app. unfold send_to_named_actor. by rewrite Hlocal. }
  eexists. split; [exact Hr|reflexivity].
Qed.
Context (parse_addr : str → option SocketAddr).
(** The list of gateways is asked for with a POST, and the server answers it to
    a GET only: the request goes on as a message to an actor whose path is not
    one, so the list is never renewed, whatever node answers. *)
Theorem refresh_never_succeeds s n : 0 <= max_retries c → answers_at (active_gateway s) n →
  ∃ e, refresh_gateways c nanos None parse_addr net s = (s, Err e).
Proof.
  intros Hm Ha. unfold refresh_gateways, ask_gateway. erewrite ask_answer; [|done|apply client_request, uri_unreserved; done|].
  2: { intros i. rewrite Ha. rewrite members_route, posted_single by done. rewrite (unknown_answers _ _ _ (Runtime (InvalidActorPathErr (lit "/client/members")))) by done. reflexivity. }
  by eexists.
Qed.
End Facts.

(** Failing over changes to another gateway, or there is none. *)
Lemma failover_spec s s' r : failover s = (s', r) →
  (r = Ok tt ∧ active_gateway s' ≠ active_gateway s ∧ active_gateway s' ∈ gateways s ∧ gateways s' = gateways s) ∨
  (s' = s ∧ r ≠ Ok tt ∧ ∀ g, g ∈ gateways s → g = active_gateway s).
Proof.
  unfold failover. destruct (filter _ _) as [|g gs] eqn:Hf; cbn; intros [= <- <-].
  - right. split_and!; [done|done|]. intros g Hg. destruct (decide (g = active_gateway s)) as [|Hn]; [done|].
    assert (Hin : g ∈ filter (λ a, a ≠ active_gateway s) (gateways s)) by by apply list_elem_of_filter. rewrite Hf in Hin. by apply elem_of_nil in Hin.
  - left. assert (Hin : g ∈ filter (λ a, a ≠ active_gateway s) (gateways s)) by (rewrite Hf; by left). apply list_elem_of_filter in Hin as [??]. done.
Qed.
(** However often it fails over, the client goes back and forth between the
    first two gateways; the others are never tried. *)
Theorem failover_knows_two g1 g2 rest k : g1 ≠ g2 →
  active_gateway (Nat.iter k (λ s, (failover s).1) (mk_connect g1 (g1 :: g2 :: rest))) = if Nat.even k then g1 else g2.
Proof.
  intros Hne. set (s0 := mk_connect g1 _). enough (Hs : Nat.iter k (λ s, (failover s).1) s0 = mk_connect (if Nat.even k then g1 else g2) (gateways s0)) by by rewrite Hs.
  induction k as [|k IH]; [done|]. rewrite Nat.even_succ, <- Nat.negb_even. cbn [Nat.iter nat_rect]. unfold Nat.iter in IH. rewrite IH. unfold failover. cbn [active_gateway gateways s0].
  destruct (Nat.even k); cbn [negb]; rewrite !filter_cons; repeat (first [rewrite decide_True by congruence|rewrite decide_False by congruence]; cbn); done.
Qed.

(** ** Concrete clients *)
#[export] Instance tree_json : JsonText :=
  {| to_vec := Written.written; from_slice := Written.read_written; from_to_vec := Written.written_reads_back; missing_field := lit "missing field" |}.

#[local] Existing Instances tree_json HandlerFacts.silent_codec HandlerFacts.small_codec HandlerFacts.port_text HandlerFacts.node_texts.
(** A head that knows of an actor on its worker 2, and answers at its address. *)
Definition informed_backend : HeadNodeBackend :=
  (serve 5 (RegisterNamedActorRequest router_path 2 (Some 9) ∅) (serve 5 (RegisterNodeRequest 2 localhost) HandlerFacts.head_backend).1).1.
Definition informed_node : SystemNode (list (nat * Msg)) := mk_node _ 1 ActorRegistry_new (Some (HeadCluster informed_backend)) [].
Definition router : str := Address.as_str router_path.
Definition its_answers (n : SystemNode (list (nat * Msg))) (g : SocketAddr) (i : nat) (req : Request) : Result Response PulsingError :=
  match handle_request (node_handler HandlerFacts.echo 5 "bad" to_vec (λ _, []) (λ _, [])) requested_path req g n with
  | Some (_, resp) => Ok resp
  | None => Err (other [])
  end.
Definition fresh_client : PulsingConnect := mk_connect localhost [localhost].
Lemma informed_few : few_instances router informed_node.
Proof.
  intros b p info [= <-] Hp Hl. assert (Hc : match path_new router with Ok p => (λ i, Z.of_nat (instance_count i)) <$> backend_lookup p (HeadCluster informed_backend) | Err _ => None end = Some 1)
    by (vm_compute; reflexivity).
  rewrite Hp, Hl in Hc. injection Hc as ->. done.
Qed.
Lemma resolve_asks_the_gateway_witness :
  resolve RetryConfig_default (λ _, 0) None (its_answers informed_node) router fresh_client = Ok (mk_ref localhost router).
Proof.
  rewrite (resolve_asks_the_gateway HandlerFacts.echo 5 "bad" (λ _, []) (λ _, []) RetryConfig_default (λ _, 0) (its_answers informed_node) router fresh_client informed_node);
    [vm_compute; reflexivity|vm_compute; discriminate|done|exact informed_few].
Defined.
Lemma refresh_never_succeeds_witness :
  ∃ e, refresh_gateways RetryConfig_default (λ _, 0) None (λ _, Some localhost) (its_answers informed_node) fresh_client = (fresh_client, Err e).
Proof.
  apply (refresh_never_succeeds HandlerFacts.echo 5 "bad" (λ _, []) (λ _, []) RetryConfig_default (λ _, 0) (its_answers informed_node) (λ _, Some localhost) fresh_client informed_node);
    [vm_compute; discriminate|done].
Defined.
Lemma resolved_elsewhere_is_unreachable_witness :
  ∃ r e, resolve RetryConfig_default (λ _, 0) None (its_answers informed_node) router fresh_client = Ok r ∧
    ref_ask RetryConfig_default (λ _, 0) None (its_answers informed_node) r (lit "ping") [1] = Err e.
Proof.
  eapply (resolved_elsewhere_is_unreachable HandlerFacts.echo 5 "bad" (λ _, []) (λ _, []) RetryConfig_default (λ _, 0) (its_answers informed_node) router fresh_client informed_node);
    [vm_compute; discriminate|done|exact informed_few|vm_compute; reflexivity|vm_compute; reflexivity|by vm_compute|vm_compute; reflexivity].
Defined.
Lemma failover_knows_two_witness :
  active_gateway (Nat.iter 3 (λ s, (failover s).1) (mk_connect localhost [localhost; mk_addr (V4 1) 1; mk_addr (V4 2) 2])) = mk_addr (V4 1) 1.
Proof. by apply (failover_knows_two localhost (mk_addr (V4 1) 1) [mk_addr (V4 2) 2] 3). Defined.
