(* ===== verification/Patch.v ===== *)
(** * The patch format

    [crates/pulsing-forge/src/patch/parser.rs] and [streaming_parser.rs]: the
    hunks of a patch and the line-by-line parser. A parser that has failed is
    dropped by its caller, so an error carries no state; errors stand for their
    texts. Paths are kept as they are written. *)
From S2P Require Import Prelude Text.

(** src: crates/pulsing-forge/src/patch/parser.rs 34-42 BEGIN_PATCH_MARKER *)
Definition BEGIN_PATCH_MARKER : str := lit "*** Begin Patch".
Definition END_PATCH_MARKER : str := lit "*** End Patch".
Definition ADD_FILE_MARKER : str := lit "*** Add File: ".
Definition DELETE_FILE_MARKER : str := lit "*** Delete File: ".
Definition UPDATE_FILE_MARKER : str := lit "*** Update File: ".
Definition MOVE_TO_MARKER : str := lit "*** Move to: ".
Definition EOF_MARKER : str := lit "*** End of File".
Definition CHANGE_CONTEXT_MARKER : str := lit "@@ ".
Definition EMPTY_CHANGE_CONTEXT_MARKER : str := lit "@@".
Definition ENVIRONMENT_ID_MARKER : str := lit "*** Environment ID:".

(** What an invalid hunk's message says. *)
Inductive HunkMessage :=
  | NotAHunkHeader (trimmed : str)
  | UpdateHunkIsEmpty (path : str)
  | NoLines
  | UnexpectedLine (line : str)
  | ExpectedContext (line : str).

(** src: crates/pulsing-forge/src/patch/parser.rs 52-58 ParseError *)
Inductive ParseError :=
  | FirstLineNotBegin | LastLineNotEnd | EnvironmentIdTwice | EnvironmentIdEmpty
  | InvalidHunkError (message : HunkMessage) (line_number : Z).

(** src: crates/pulsing-forge/src/patch/parser.rs 108-122 UpdateFileChunk *)
Record UpdateFileChunk := mk_chunk {
  change_context : option str;
  old_lines : list str;
  new_lines : list str;
  is_end_of_file : bool }.
(** src: crates/pulsing-forge/src/patch/parser.rs 61-79 Hunk *)
Inductive Hunk :=
  | AddFile (path contents : str)
  | DeleteFile (path : str)
  | UpdateFile (path : str) (move_path : option str) (chunks : list UpdateFileChunk).
#[export] Instance UpdateFileChunk_eq_dec : EqDecision UpdateFileChunk.
Proof. solve_decision. Defined.
#[export] Instance Hunk_eq_dec : EqDecision Hunk.
Proof. solve_decision. Defined.

(** src: crates/pulsing-forge/src/patch/parser.rs 91-105 Hunk::path *)
Definition hunk_path (h : Hunk) : str :=
  match h with
  | AddFile path _ | DeleteFile path => path
  | UpdateFile _ (Some path) _ => path
  | UpdateFile path None _ => path
  end.

(** src: crates/pulsing-forge/src/patch/streaming_parser.rs 35-46 StreamingParserMode *)
Inductive Mode :=
  | NotStarted | StartedPatch | InAddFile | InDeleteFile
  | InUpdateFile (hunk_line_number : Z)
  | EndedPatch.

(** src: crates/pulsing-forge/src/patch/streaming_parser.rs 21-33 StreamingPatchParser *)
Record Parser := mk_parser {
  line_buffer : str;
  mode : Mode;
  hunks : list Hunk;
  environment_id : option str;
  line_number : Z }.
Definition Parser_default : Parser := mk_parser [] NotStarted [] None 0.

Definition set_mode (m : Mode) (s : Parser) : Parser :=
  mk_parser (line_buffer s) m (hunks s) (environment_id s) (line_number s).
Definition set_hunks (hs : list Hunk) (s : Parser) : Parser :=
  mk_parser (line_buffer s) (mode s) hs (environment_id s) (line_number s).
Definition set_environment (e : str) (s : Parser) : Parser :=
  mk_parser (line_buffer s) (mode s) (hunks s) (Some e) (line_number s).
Definition set_buffer (b : str) (s : Parser) : Parser :=
  mk_parser b (mode s) (hunks s) (environment_id s) (line_number s).
Definition next_line (s : Parser) : Parser :=
  mk_parser [] (mode s) (hunks s) (environment_id s) (line_number s +w 1).

(** [Vec::last_mut]. *)
Definition map_last {A} (f : A → A) (l : list A) : list A :=
  match last l with Some x => removelast l ++ [f x] | None => [] end.

Definition chunk_empty (c : UpdateFileChunk) : bool :=
  bool_decide (old_lines c = []) && bool_decide (new_lines c = []).
Definition last_is (f : UpdateFileChunk → bool) (cs : list UpdateFileChunk) : bool :=
  match last cs with Some c => f c | None => false end.

(** ** One line *)

(** src: crates/pulsing-forge/src/patch/streaming_parser.rs 53-82 ensure_update_hunk_is_not_empty *)
Definition ensure_update_hunk_is_not_empty (line : str) (s : Parser) : Result unit ParseError :=
  match last (hunks s) with
  | Some (UpdateFile path _ chunks) =>
      match chunks, mode s with
      | [], InUpdateFile n => Err (InvalidHunkError (UpdateHunkIsEmpty path) n)
      | _, _ =>
          if last_is chunk_empty chunks
          then if bool_decide (line = END_PATCH_MARKER)
               then Err (InvalidHunkError NoLines (line_number s))
               else Err (InvalidHunkError (UnexpectedLine line) (line_number s))
          else Ok tt
      end
  | _ => Ok tt
  end.

Definition start_hunk (h : Hunk) (m : Mode) (s : Parser) : Parser := set_mode m (set_hunks (hunks s ++ [h]) s).

(** [None] when the line is no header.
    src: crates/pulsing-forge/src/patch/streaming_parser.rs 84-137 handle_hunk_headers_and_end_patch *)
Definition handle_hunk_headers_and_end_patch (trimmed : str) (s : Parser) : Result (option Parser) ParseError :=
  match (match mode s with StartedPatch => strip_prefix ENVIRONMENT_ID_MARKER trimmed | _ => None end) with
  | Some e =>
      if bool_decide (is_Some (environment_id s)) then Err EnvironmentIdTwice
      else if bool_decide (trim e = []) then Err EnvironmentIdEmpty
      else Ok (Some (set_environment (trim e) s))
  | None =>
      if bool_decide (trimmed = END_PATCH_MARKER)
      then let? _ := ensure_update_hunk_is_not_empty trimmed s in Ok (Some (set_mode EndedPatch s))
      else match strip_prefix ADD_FILE_MARKER trimmed with
      | Some path =>
          let? _ := ensure_update_hunk_is_not_empty trimmed s in
          Ok (Some (start_hunk (AddFile path []) InAddFile s))
      | None =>
      match strip_prefix DELETE_FILE_MARKER trimmed with
      | Some path =>
          let? _ := ensure_update_hunk_is_not_empty trimmed s in
          Ok (Some (start_hunk (DeleteFile path) InDeleteFile s))
      | None =>
      match strip_prefix UPDATE_FILE_MARKER trimmed with
      | Some path =>
          let? _ := ensure_update_hunk_is_not_empty trimmed s in
          Ok (Some (start_hunk (UpdateFile path None []) (InUpdateFile (line_number s)) s))
      | None => Ok None
      end end end
  end.

Definition new_chunk (context : option str) : UpdateFileChunk := mk_chunk context [] [] false.

(** A line of a chunk; the first line of a hunk may come without a context line.
    src: crates/pulsing-forge/src/patch/streaming_parser.rs 313-327 process_line (add to the last chunk) *)
Definition add_lines (old new : list str) (chunks : list UpdateFileChunk) : list UpdateFileChunk :=
  map_last (λ c, mk_chunk (change_context c) (old_lines c ++ old) (new_lines c ++ new) (is_end_of_file c))
    match chunks with [] => [new_chunk None] | _ => chunks end.

(** src: crates/pulsing-forge/src/patch/streaming_parser.rs 307-309 process_line (end of file) *)
Definition mark_end_of_file (chunks : list UpdateFileChunk) : list UpdateFileChunk :=
  map_last (λ c, mk_chunk (change_context c) (old_lines c) (new_lines c) true) chunks.

(** What a line that is no header does to the move path and the chunks of the
    update hunk.
    src: crates/pulsing-forge/src/patch/streaming_parser.rs 232-388 process_line (update) *)
Definition update_hunk_line (n : Z) (line : str) (move_path : option str) (chunks : list UpdateFileChunk)
    : Result (option str * list UpdateFileChunk) ParseError :=
  let update_line := trim_end line in
  let is_context := bool_decide (update_line = EMPTY_CHANGE_CONTEXT_MARKER)
                    || starts_with CHANGE_CONTEXT_MARKER update_line in
  if last_is is_end_of_file chunks && bool_decide (update_line = []) then Ok (move_path, chunks)
  else if last_is is_end_of_file chunks && negb is_context
  then Err (InvalidHunkError (ExpectedContext line) n)
  else
  match (match chunks, move_path with [], None => strip_prefix MOVE_TO_MARKER update_line | _, _ => None end) with
  | Some to => Ok (Some to, chunks)
  | None =>
  if is_context && last_is chunk_empty chunks
  then Err (InvalidHunkError (UnexpectedLine line) n)
  else if bool_decide (update_line = EMPTY_CHANGE_CONTEXT_MARKER)
  then Ok (move_path, chunks ++ [new_chunk None])
  else match strip_prefix CHANGE_CONTEXT_MARKER update_line with
  | Some context => Ok (move_path, chunks ++ [new_chunk (Some context)])
  | None =>
  if bool_decide (update_line = EOF_MARKER)
  then if last_is chunk_empty chunks
       then Err (InvalidHunkError NoLines n)
       else Ok (move_path, mark_end_of_file chunks)
  else match line with
  | [] => Ok (move_path, add_lines [[]] [[]] chunks)
  | c :: l =>
      if c =? 32 then Ok (move_path, add_lines [l] [l] chunks)
      else if c =? 43 then Ok (move_path, add_lines [] [l] chunks)
      else if c =? 45 then Ok (move_path, add_lines [l] [] chunks)
      else if last_is (λ c, negb (chunk_empty c)) chunks
      then Err (InvalidHunkError (ExpectedContext line) n)
      else Err (InvalidHunkError (UnexpectedLine line) n)
  end end end.

(** The line's effect on the last hunk when it is no header.
    src: crates/pulsing-forge/src/patch/streaming_parser.rs 202-214 process_line (add) *)
Definition add_file_line (trimmed line : str) (s : Parser) : Result Parser ParseError :=
  match strip_prefix [43] line, last (hunks s) with
  | Some l, Some (AddFile path contents) =>
      Ok (set_hunks (removelast (hunks s) ++ [AddFile path (contents ++ l ++ [newline])]) s)
  | _, _ => Err (InvalidHunkError (NotAHunkHeader trimmed) (line_number s))
  end.

Definition or_else (r : Result (option Parser) ParseError) (k : Result Parser ParseError) : Result Parser ParseError :=
  let? o := r in match o with Some s => Ok s | None => k end.

(** src: crates/pulsing-forge/src/patch/streaming_parser.rs 175-408 process_line *)
Definition process_line (line : str) (s : Parser) : Result Parser ParseError :=
  let trimmed := trim line in
  let not_a_header := Err (InvalidHunkError (NotAHunkHeader trimmed) (line_number s)) in
  match mode s with
  | NotStarted =>
      if bool_decide (trimmed = BEGIN_PATCH_MARKER) then Ok (set_mode StartedPatch s) else Err FirstLineNotBegin
  | StartedPatch | InDeleteFile => or_else (handle_hunk_headers_and_end_patch trimmed s) not_a_header
  | InAddFile => or_else (handle_hunk_headers_and_end_patch trimmed s) (add_file_line trimmed line s)
  | InUpdateFile _ =>
      or_else (handle_hunk_headers_and_end_patch (trim_end line) s)
        match last (hunks s) with
        | Some (UpdateFile path move_path chunks) =>
            let? (m, cs) := update_hunk_line (line_number s) line move_path chunks in
            Ok (set_hunks (removelast (hunks s) ++ [UpdateFile path m cs]) s)
        | _ => Err (InvalidHunkError (UnexpectedLine line) (line_number s))
        end
  | EndedPatch => if bool_decide (trimmed = []) then Ok s else Err LastLineNotEnd
  end.

(** ** The whole text *)

(** src: crates/pulsing-forge/src/patch/streaming_parser.rs 139-152 push_delta *)
Fixpoint push_delta (delta : str) (s : Parser) : Result Parser ParseError :=
  match delta with
  | [] => Ok s
  | ch :: delta =>
      if ch =? newline
      then let? s := process_line (chomp (line_buffer s)) (next_line s) in push_delta delta s
      else push_delta delta (set_buffer (line_buffer s ++ [ch]) s)
  end.

(** src: crates/pulsing-forge/src/patch/streaming_parser.rs 154-173 finish *)
Definition finish (s : Parser) : Result Parser ParseError :=
  let? s :=
    if bool_decide (line_buffer s = []) then Ok s
    else let line := line_buffer s in
         let s := next_line s in
         if bool_decide (trim line = END_PATCH_MARKER)
         then let? _ := ensure_update_hunk_is_not_empty (trim line) s in Ok (set_mode EndedPatch s)
         else process_line line s in
  match mode s with EndedPatch => Ok s | _ => Err LastLineNotEnd end.

(** src: crates/pulsing-forge/src/patch/parser.rs 235-253 check_start_and_end_lines_strict *)
Definition check_start_and_end_lines_strict (first_line last_line : option str) : Result unit ParseError :=
  match trim <$> first_line, trim <$> last_line with
  | Some first, Some last =>
      if bool_decide (first = BEGIN_PATCH_MARKER ∧ last = END_PATCH_MARKER) then Ok tt
      else if bool_decide (first ≠ BEGIN_PATCH_MARKER) then Err FirstLineNotBegin
      else Err LastLineNotEnd
  | Some first, None => if bool_decide (first ≠ BEGIN_PATCH_MARKER) then Err FirstLineNotBegin else Err LastLineNotEnd
  | None, _ => Err LastLineNotEnd
  end.

(** src: crates/pulsing-forge/src/patch/parser.rs 194-202 check_patch_boundaries_strict *)
Definition check_patch_boundaries_strict (ls : list str) : Result (list str) ParseError :=
  let? _ := check_start_and_end_lines_strict (head ls) (last ls) in Ok ls.

(** The opening words of a here document.
    src: crates/pulsing-forge/src/patch/parser.rs 221-221 check_patch_boundaries_lenient (heredoc) *)
Definition heredoc_starts : list str :=
  [lit "<<EOF"; lit "<<'EOF'"; lit "<<" ++ [34] ++ lit "EOF" ++ [34]].

(** src: crates/pulsing-forge/src/patch/parser.rs 211-233 check_patch_boundaries_lenient *)
Definition check_patch_boundaries_lenient (original_lines : list str) : Result (list str) ParseError :=
  match check_patch_boundaries_strict original_lines with
  | Ok ls => Ok ls
  | Err e =>
      match original_lines, last original_lines with
      | first :: _ :: _, Some last =>
          if bool_decide (first ∈ heredoc_starts) && ends_with (lit "EOF") last
             && (4 <=? length original_lines)%nat
          then check_patch_boundaries_strict (take (length original_lines - 2) (drop 1 original_lines))
          else Err e
      | _, _ => Err e
      end
  end.

(** src: crates/pulsing-forge/src/patch/mod.rs 20-26 ApplyPatchArgs *)
Record ApplyPatchArgs := mk_args {
  args_hunks : list Hunk;
  args_patch : str;
  args_workdir : option str;
  args_environment_id : option str }.

(** src: crates/pulsing-forge/src/patch/parser.rs 133-170 ParseMode *)
Inductive ParseMode := Strict | Lenient.

(** src: crates/pulsing-forge/src/patch/parser.rs 172-190 parse_patch_text *)
Definition parse_patch_text (patch : str) (m : ParseMode) : Result ApplyPatchArgs ParseError :=
  let ls := lines (trim patch) in
  let? patch_lines :=
    match m with
    | Strict => check_patch_boundaries_strict ls
    | Lenient => check_patch_boundaries_lenient ls
    end in
  let patch := join newline patch_lines in
  let? parser := push_delta patch Parser_default in
  let? parser := finish parser in
  Ok (mk_args (hunks parser) patch None (environment_id parser)).

(** src: crates/pulsing-forge/src/patch/parser.rs 50-50 PARSE_IN_STRICT_MODE *)
Definition PARSE_IN_STRICT_MODE : bool := false.
(** src: crates/pulsing-forge/src/patch/parser.rs 124-131 parse_patch *)
Definition parse_patch (patch : str) : Result ApplyPatchArgs ParseError :=
  parse_patch_text patch (if PARSE_IN_STRICT_MODE then Strict else Lenient).
