(* ===== verification/PatchFacts.v ===== *)
(** * Properties of the patch parser

    Every hunk the parser returns is complete, a patch written out is read back,
    and how the text is cut into deltas does not matter. *)
From S2P Require Import Prelude Text Patch.

(** ** Deltas *)

Lemma push_delta_app a b s : push_delta (a ++ b) s = let? s' := push_delta a s in push_delta b s'.
Proof.
  revert s. induction a as [|c a IH]; intros s; [done|]. cbn [app push_delta].
  case_match; [|apply IH]. destruct (process_line _ _); [|done]. apply IH.
Qed.

(** The lines of a text, one after another. *)
Fixpoint feed (ls : list str) (s : Parser) : Result Parser ParseError :=
  match ls with
  | [] => Ok s
  | l :: ls => let? s := process_line l (next_line s) in feed ls s
  end.

Lemma feed_app a b s : feed (a ++ b) s = let? s' := feed a s in feed b s'.
Proof. revert s. induction a as [|l a IH]; intros s; [done|]. simpl. destruct (process_line _ _); [apply IH|done]. Qed.

Lemma handle_buffer t s s' : handle_hunk_headers_and_end_patch t s = Ok (Some s') → line_buffer s' = line_buffer s.
Proof. unfold handle_hunk_headers_and_end_patch, and_then. intros Hh. repeat case_match; by simplify_eq/=. Qed.

Lemma process_line_buffer l s s' : process_line l s = Ok s' → line_buffer s' = line_buffer s.
Proof.
  unfold process_line, or_else, add_file_line, and_then. intros Hp.
  destruct (mode s); repeat case_match; simplify_eq/=; try done; by eapply handle_buffer.
Qed.

Lemma push_no_newline t s : newline ∉ t → push_delta t s = Ok (set_buffer (line_buffer s ++ t) s).
Proof.
  revert s. induction t as [|c t IH]; intros s Ht.
  - simpl. rewrite app_nil_r. by destruct s.
  - cbn [push_delta]. destruct (Z.eqb_spec c newline) as [->|]; [set_solver|].
    rewrite IH by set_solver. destruct s; simpl. by rewrite <- app_assoc.
Qed.

Lemma push_unlines ls s : Forall line_ok ls → line_buffer s = [] → push_delta (unlines ls) s = feed ls s.
Proof.
  intros Hls. revert s. induction Hls as [|l ls [Hn Hc] _ IH]; intros s Hs; [done|].
  rewrite unlines_cons, push_delta_app, push_no_newline by done. rewrite Hs. cbn [and_then push_delta app feed].
  rewrite Z.eqb_refl. replace (next_line (set_buffer l s)) with (next_line s) by done.
  replace (chomp (line_buffer (set_buffer l s))) with l by by rewrite chomp_id.
  destruct (process_line l (next_line s)) as [s'|] eqn:E; [|done]. apply IH.
  by apply process_line_buffer in E.
Qed.

(** ** Complete hunks *)

Definition chunk_full (c : UpdateFileChunk) : Prop := old_lines c ≠ [] ∨ new_lines c ≠ [].
Definition hunk_full (h : Hunk) : Prop :=
  match h with UpdateFile _ _ chunks => chunks ≠ [] ∧ Forall chunk_full chunks | _ => True end.

Lemma chunk_empty_false c : chunk_empty c = false ↔ chunk_full c.
Proof.
  unfold chunk_empty, chunk_full. rewrite andb_false_iff, !bool_decide_eq_false. done.
Qed.

(** The last hunk of a parser in the middle of an update may have no chunk yet,
    or a last chunk with no line; all other hunks are complete, and the mode
    says of which kind the last hunk is. *)
Definition open_hunk (h : Hunk) : Prop :=
  match h with UpdateFile _ _ chunks => Forall chunk_full (removelast chunks) | _ => True end.
Definition mode_fits (m : Mode) (h : option Hunk) : Prop :=
  match m, h with
  | (NotStarted | StartedPatch), None => True
  | InAddFile, Some (AddFile _ _) => True
  | InDeleteFile, Some (DeleteFile _) => True
  | InUpdateFile _, Some (UpdateFile _ _ _) => True
  | EndedPatch, _ => True
  | _, _ => False
  end.
Definition parser_inv (s : Parser) : Prop :=
  mode_fits (mode s) (last (hunks s)) ∧
  match mode s with
  | InUpdateFile _ => Forall hunk_full (removelast (hunks s)) ∧ (∀ h, last (hunks s) = Some h → open_hunk h)
  | _ => Forall hunk_full (hunks s)
  end.

Lemma last_removelast {A} (l : list A) x : last l = Some x → l = removelast l ++ [x].
Proof. intros [l' ->]%last_Some. by rewrite removelast_last. Qed.

Lemma ensure_full line s :
  parser_inv s → ensure_update_hunk_is_not_empty line s = Ok tt → Forall hunk_full (hunks s).
Proof.
  intros [Hm Hs] He. unfold ensure_update_hunk_is_not_empty in He.
  destruct (mode s) eqn:Em; try exact Hs. destruct Hs as [Hs Ho]. simpl in Hm.
  destruct (last (hunks s)) as [[| |path mv cs]|] eqn:El; try done.
  rewrite (last_removelast _ _ El). apply Forall_app. split; [done|]. constructor; [|done].
  specialize (Ho _ eq_refl). simpl in *. destruct cs as [|c cs]; [done|]. split; [done|].
  destruct (last (c :: cs)) as [d|] eqn:Ed; [|by apply last_None in Ed].
  unfold last_is in He. rewrite Ed in He. destruct (chunk_empty d) eqn:Ec; [by case_match|].
  rewrite (last_removelast _ _ Ed). apply Forall_app. split; [done|]. constructor; [|done]. by apply chunk_empty_false.
Qed.

Lemma start_hunk_inv h m s :
  Forall hunk_full (hunks s) → mode_fits m (Some h) → ((∀ n, m ≠ InUpdateFile n) → hunk_full h) → open_hunk h →
  parser_inv (start_hunk h m s).
Proof.
  intros Hf Hm Hh Ho. unfold parser_inv, start_hunk. simpl. rewrite last_snoc, removelast_last. split; [done|].
  destruct m; try (apply Forall_app; split; [done|]; constructor; [|done]; by apply Hh).
  split; [done|]. by intros ? [= <-].
Qed.

Lemma handle_inv t s s' :
  parser_inv s → handle_hunk_headers_and_end_patch t s = Ok (Some s') → parser_inv s'.
Proof.
  intros Hs. unfold handle_hunk_headers_and_end_patch.
  destruct (match mode s with StartedPatch => _ | _ => _ end) as [e|] eqn:Ee.
  { destruct (mode s) eqn:Em; try done. repeat case_match; intros; simplify_eq.
    destruct Hs as [Hm Hs]. unfold parser_inv. simpl. by rewrite Em in *. }
  pose proof (ensure_full t s Hs) as Hf.
  destruct (ensure_update_hunk_is_not_empty t s) as [[]|]; cbn [and_then]; [specialize (Hf eq_refl)|by repeat case_match].
  repeat case_match; intros; simplify_eq; try (by split);
    (apply start_hunk_inv; [done|done| |by constructor]; intros Hn; first [done | by destruct (Hn _ eq_refl)]).
Qed.

Lemma removelast_snoc_full (cs : list UpdateFileChunk) c :
  Forall chunk_full cs → Forall chunk_full (removelast (cs ++ [c])).
Proof. by rewrite removelast_last. Qed.

Lemma update_line_open n l mv cs mv' cs' :
  Forall chunk_full (removelast cs) → update_hunk_line n l mv cs = Ok (mv', cs') → Forall chunk_full (removelast cs').
Proof.
  intros Ho. assert (Hmap : ∀ f ds, Forall chunk_full (removelast ds) → Forall chunk_full (removelast (map_last f ds))).
  { intros f ds Hd. unfold map_last. destruct (last ds) as [d|] eqn:E; [|done]. by rewrite removelast_last. }
  assert (Hall : last_is chunk_empty cs = false → Forall chunk_full cs).
  { unfold last_is. destruct (last cs) as [c|] eqn:E; [|by apply last_None in E as ->].
    intros Hc%chunk_empty_false. rewrite (last_removelast _ _ E). apply Forall_app. auto. }
  assert (Hadd : ∀ o w, Forall chunk_full (removelast (add_lines o w cs))).
  { intros o w. unfold add_lines. apply Hmap. by destruct cs. }
  unfold update_hunk_line. set (ctx := _ || _).
  destruct (last_is is_end_of_file cs && _); [by intros [= <- <-]|]. destruct (_ && negb ctx); [done|].
  destruct (match cs, mv with [], None => _ | _, _ => _ end); [by intros [= <- <-]|].
  destruct (ctx && last_is chunk_empty cs) eqn:Ec; [done|].
  destruct (bool_decide (trim_end l = _)) eqn:E1.
  { intros [= <- <-]. rewrite removelast_last. apply Hall. by subst ctx. }
  destruct (strip_prefix CHANGE_CONTEXT_MARKER _) eqn:E2.
  { intros [= <- <-]. rewrite removelast_last. apply Hall. subst ctx. unfold starts_with in Ec. rewrite E2 in Ec.
    rewrite (bool_decide_true (is_Some _)) in Ec by eauto. by rewrite orb_true_r in Ec. }
  repeat case_match; intros; simplify_eq; auto. by apply Hmap.
Qed.

Lemma process_line_inv l s s' : parser_inv s → process_line l s = Ok s' → parser_inv s'.
Proof.
  intros Hs. unfold process_line, or_else. destruct (mode s) as [| | | |n|] eqn:Em.
  - case_bool_decide; [|done]. intros [= <-]. destruct Hs as [Hm Hs]. unfold parser_inv. simpl. by rewrite Em in *.
  - intros ([s0|] & Hh & Hk)%and_then_Ok; [|done]. simplify_eq. by eapply handle_inv.
  - intros ([s0|] & Hh & Hk)%and_then_Ok; [simplify_eq; by eapply handle_inv|].
    unfold add_file_line in Hk. destruct (strip_prefix _ _), (last (hunks s)) as [[p c| |]|] eqn:El; simplify_eq.
    destruct Hs as [_ Hs]. rewrite Em in Hs. unfold parser_inv. simpl. rewrite Em, last_snoc. split; [done|].
    rewrite (last_removelast _ _ El), Forall_app in Hs. destruct Hs. apply Forall_app. split; [done|]. by constructor.
  - intros ([s0|] & Hh & Hk)%and_then_Ok; [|done]. simplify_eq. by eapply handle_inv.
  - intros ([s0|] & Hh & Hk)%and_then_Ok; [simplify_eq; by eapply handle_inv|].
    destruct (last (hunks s)) as [[| |p mv cs]|] eqn:El; try done.
    apply and_then_Ok in Hk as ([mv' cs'] & Hu & [= <-]). destruct Hs as [_ Hs]. rewrite Em in Hs.
    destruct Hs as [Hs Ho]. unfold parser_inv. simpl. rewrite Em, last_snoc, removelast_last. split_and!; [done..|].
    intros h [= <-]. eapply update_line_open; [|done]. by apply (Ho _ El).
  - case_bool_decide; [|done]. by intros [= <-].
Qed.

Lemma push_delta_inv t s s' : parser_inv s → push_delta t s = Ok s' → parser_inv s'.
Proof.
  revert s. induction t as [|c t IH]; intros s Hs; [by intros [= <-]|]. cbn [push_delta]. case_match.
  - intros (s1 & Hl & Hp)%and_then_Ok. eapply IH; [|done]. eapply process_line_inv; [|done]. exact Hs.
  - apply IH. exact Hs.
Qed.

Lemma finish_full s s' : parser_inv s → finish s = Ok s' → Forall hunk_full (hunks s').
Proof.
  intros Hs. unfold finish. intros (s1 & H1 & H2)%and_then_Ok.
  assert (Hi : parser_inv s1); [|destruct Hi as [_ Hi]; revert H2 Hi; destruct (mode s1); naive_solver].
  case_bool_decide; [by simplify_eq|]. cbv zeta in H1. case_bool_decide.
  - apply and_then_Ok in H1 as ([] & He & [= <-]). split; [done|]. by eapply (ensure_full _ (next_line s)).
  - by eapply process_line_inv, H1.
Qed.

(** C40: Every update hunk of a patch the parser accepts has a chunk, and each of
    its chunks has a line to remove, keep or add. *)
Theorem parsed_hunks_complete text args :
  parse_patch text = Ok args → Forall hunk_full (args_hunks args).
Proof.
  unfold parse_patch, parse_patch_text. intros (ls & _ & Hk)%and_then_Ok. cbv zeta in Hk.
  apply and_then_Ok in Hk as (s1 & Hp & Hk). apply and_then_Ok in Hk as (s2 & Hf & [= <-]).
  eapply finish_full; [|done]. eapply push_delta_inv; [|done]. split; [done|constructor].
Qed.

(** ** Written out and read back *)

(** The documented format, the grammar at the head of [parser.rs]: a hunk that
    changes a file is a sequence of changes, and a change is lines that are kept,
    added and removed in any order. The first change may come without a line
    [@@], and a change may end with the mark of the file's end. *)
Inductive ChangeLine := Kept (l : str) | Added (l : str) | Removed (l : str).
Record Change := mk_change { header : option (option str); change_lines : list ChangeLine; at_end : bool }.
Inductive HunkText :=
  | AddText (path : str) (ls : list str)
  | DeleteText (path : str)
  | UpdateText (path : str) (move_to : option str) (changes : list Change).

(** How it is written. *)
Definition context_line (x : option str) : str :=
  match x with Some x => CHANGE_CONTEXT_MARKER ++ x | None => EMPTY_CHANGE_CONTEXT_MARKER end.
Definition change_line (x : ChangeLine) : str :=
  match x with Kept l => 32 :: l | Added l => 43 :: l | Removed l => 45 :: l end.
Definition render_change (c : Change) : list str :=
  (match header c with Some x => [context_line x] | None => [] end) ++
  (change_line <$> change_lines c) ++ (if at_end c then [EOF_MARKER] else []).
Definition render_hunk (h : HunkText) : list str :=
  match h with
  | AddText path ls => (ADD_FILE_MARKER ++ path) :: (cons 43 <$> ls)
  | DeleteText path => [DELETE_FILE_MARKER ++ path]
  | UpdateText path move_to cs =>
      (UPDATE_FILE_MARKER ++ path)
      :: (match move_to with Some to => [MOVE_TO_MARKER ++ to] | None => [] end) ++ (cs ≫= render_change)
  end.
Definition render_environment (e : option str) : list str :=
  match e with Some e => [ENVIRONMENT_ID_MARKER ++ 32 :: e] | None => [] end.
Definition render (e : option str) (hs : list HunkText) : list str :=
  BEGIN_PATCH_MARKER :: render_environment e ++ (hs ≫= render_hunk) ++ [END_PATCH_MARKER].

(** What it means: the old lines of a change are the kept and the removed ones,
    the new lines the kept and the added ones, in their order. *)
Definition old_of (x : ChangeLine) : list str := match x with Kept l | Removed l => [l] | Added _ => [] end.
Definition new_of (x : ChangeLine) : list str := match x with Kept l | Added l => [l] | Removed _ => [] end.
Definition meant_chunk (c : Change) : UpdateFileChunk :=
  mk_chunk (default None (header c)) (change_lines c ≫= old_of) (change_lines c ≫= new_of) (at_end c).
Definition meant (h : HunkText) : Hunk :=
  match h with
  | AddText path ls => AddFile path (unlines ls)
  | DeleteText path => DeleteFile path
  | UpdateText path move_to cs => UpdateFile path move_to (meant_chunk <$> cs)
  end.

(** Names are on one line and not blank at the ends, lines have no carriage
    return at the end, a hunk that changes a file has a change and a change has a
    line; only the first goes without [@@]. *)
Definition name_ok (s : str) : Prop := trimmed s ∧ newline ∉ s.
Definition change_line_ok (x : ChangeLine) : Prop := match x with Kept l | Added l | Removed l => line_ok l end.
Definition change_ok (c : Change) : Prop :=
  match header c with Some (Some x) => name_ok x | _ => True end ∧
  Forall change_line_ok (change_lines c) ∧ change_lines c ≠ [].
Definition hunk_ok (h : HunkText) : Prop :=
  match h with
  | AddText path ls => name_ok path ∧ Forall line_ok ls
  | DeleteText path => name_ok path
  | UpdateText path move_to cs =>
      name_ok path ∧ match move_to with Some to => name_ok to | None => True end ∧ cs ≠ [] ∧
      Forall change_ok cs ∧ Forall (λ c, is_Some (header c)) (tail cs)
  end.

(** A parser between two hunks. *)
Definition ready (s : Parser) : Prop :=
  match mode s with NotStarted | EndedPatch => False | _ => True end ∧
  ∀ t, ensure_update_hunk_is_not_empty t s = Ok tt.

Lemma process_header l s s' :
  ready s → trim l = l → trim_end l = l → handle_hunk_headers_and_end_patch l s = Ok (Some s') → process_line l s = Ok s'.
Proof. intros [Hm _] Ht Hte Hh. unfold process_line. rewrite Ht, Hte, Hh. by destruct (mode s). Qed.

Lemma marker_trimmed a p : trimmed p → trimmed (42 :: a ++ p).
Proof. intros Hp. by apply (trimmed_app (42 :: a) p 42). Qed.

Lemma header_line a p s s' :
  ready s → name_ok p → handle_hunk_headers_and_end_patch ((42 :: a) ++ p) s = Ok (Some s') →
  process_line ((42 :: a) ++ p) s = Ok s'.
Proof.
  intros Hs [Hp _] Hh. destruct (trimmed_id _ (marker_trimmed a p Hp)) as (Ht & He & _). by apply process_header.
Qed.

(** Reading a header between two hunks starts the hunk it names. *)
Lemma feed_header p s :
  ready s → name_ok p →
  process_line (ADD_FILE_MARKER ++ p) s = Ok (start_hunk (AddFile p []) InAddFile s) ∧
  process_line (DELETE_FILE_MARKER ++ p) s = Ok (start_hunk (DeleteFile p) InDeleteFile s) ∧
  process_line (UPDATE_FILE_MARKER ++ p) s = Ok (start_hunk (UpdateFile p None []) (InUpdateFile (line_number s)) s).
Proof.
  intros Hs Hp. pose proof (Hs) as [Hm He].
  split_and!; (eapply header_line; [done..|]); unfold handle_hunk_headers_and_end_patch; rewrite He; by destruct (mode s).
Qed.

Lemma ready_start h m s : match m with NotStarted | EndedPatch => False | _ => True end → hunk_full h → ready (start_hunk h m s).
Proof.
  intros Hm Hh. split; [done|]. intros t. unfold ensure_update_hunk_is_not_empty. simpl. rewrite last_snoc.
  destruct h as [| |p mv cs]; [done..|]. destruct Hh as [Hne Hcs].
  assert (Hl : last_is chunk_empty cs = false); [|destruct cs; [done|]; by rewrite Hl].
  unfold last_is. destruct (last cs) as [c|] eqn:E; [|done]. apply chunk_empty_false.
  rewrite (last_removelast _ _ E), Forall_app, Forall_singleton in Hcs. by destruct Hcs.
Qed.

(** What reading lines leaves in place, and the hunks it ends with. *)
Definition reads (ls : list str) (s : Parser) (m : Mode) (hs : list Hunk) : Prop :=
  ∃ s', feed ls s = Ok s' ∧ mode s' = m ∧ hunks s' = hs ∧ environment_id s' = environment_id s ∧ line_buffer s' = [].

Lemma reads_app a b s m hs m' hs' :
  reads a s m hs →
  (∀ s', mode s' = m → hunks s' = hs → line_buffer s' = [] → reads b s' m' hs') →
  reads (a ++ b) s m' hs'.
Proof.
  intros (s1 & Hf & Hm & Hh & He & Hb) Hk. destruct (Hk s1 Hm Hh Hb) as (s2 & Hf2 & ? & ? & He2 & ?).
  exists s2. rewrite feed_app, Hf. split_and!; [done..| |done]. by rewrite He2.
Qed.

Lemma reads_cons l ls s s' m hs :
  process_line l (next_line s) = Ok s' → environment_id s' = environment_id s → reads ls s' m hs → reads (l :: ls) s m hs.
Proof. intros Hl He (s1 & ? & ? & ? & He1 & ?). exists s1. simpl. rewrite Hl. split_and!; [done..|by rewrite He1|done]. Qed.

Lemma grammar_nil s : line_buffer s = [] → reads [] s (mode s) (hunks s).
Proof. intros Hb. by exists s. Qed.

(** *** Lines of an added file *)
Lemma not_header c l s : c ≠ 42 → mode s ≠ StartedPatch → handle_hunk_headers_and_end_patch (c :: l) s = Ok None.
Proof.
  intros Hc Hm. unfold handle_hunk_headers_and_end_patch.
  assert (Hp : ∀ a, strip_prefix (42 :: a) (c :: l) = None).
  { intros a. cbn [strip_prefix]. destruct (Z.eqb_spec 42 c); [by subst|done]. }
  assert (strip_prefix ADD_FILE_MARKER (c :: l) = None) as -> by apply Hp.
  assert (strip_prefix DELETE_FILE_MARKER (c :: l) = None) as -> by apply Hp.
  assert (strip_prefix UPDATE_FILE_MARKER (c :: l) = None) as -> by apply Hp.
  rewrite (bool_decide_false (c :: l = END_PATCH_MARKER)) by (intros Hx%(f_equal head); vm_compute in Hx; congruence). by destruct (mode s).
Qed.

Lemma drop_while_app f a b :
  drop_while f (a ++ b) = match drop_while f a with [] => drop_while f b | a' => a' ++ b end.
Proof. induction a as [|c a IH]; [done|]. simpl. by destruct (f c). Qed.

Lemma trim_end_cons c l : is_whitespace c = false → ∃ l', trim_end (c :: l) = c :: l'.
Proof.
  intros Hc. unfold trim_end. rewrite reverse_cons, drop_while_app. simpl. rewrite Hc.
  destruct (drop_while _ (reverse l)) as [|d r]; [by exists []|]. rewrite app_comm_cons, reverse_snoc. eauto.
Qed.

Lemma trim_cons c l : is_whitespace c = false → ∃ l', trim (c :: l) = c :: l'.
Proof.
  intros Hc. rewrite trim_trim_end. replace (drop_while is_whitespace (c :: l)) with (c :: l); [by apply trim_end_cons|].
  simpl. by rewrite Hc.
Qed.

Lemma reads_added ls s hs path c :
  mode s = InAddFile → hunks s = hs ++ [AddFile path c] → line_buffer s = [] →
  reads (cons 43 <$> ls) s InAddFile (hs ++ [AddFile path (c ++ unlines ls)]).
Proof.
  revert s c. induction ls as [|l ls IH]; intros s c Hm Hh Hb.
  { rewrite app_nil_r, <- Hh, <- Hm. by apply grammar_nil. }
  rewrite fmap_cons. eapply (reads_cons _ _ _ (set_hunks (hs ++ [AddFile path (c ++ l ++ [newline])]) (next_line s))).
  - unfold process_line. simpl. rewrite Hm. destruct (trim_cons 43 l) as [l' ->]; [done|].
    rewrite not_header by (simpl; congruence). cbn [or_else and_then]. unfold add_file_line. simpl.
    by rewrite Hh, last_snoc, removelast_last.
  - done.
  - rewrite unlines_cons. replace (c ++ l ++ newline :: unlines ls) with ((c ++ l ++ [newline]) ++ unlines ls)
      by by rewrite <- !app_assoc. by apply IH.
Qed.

(** *** Lines of an update *)
Lemma update_line l s hs p mv cs n mv' cs' :
  mode s = InUpdateFile n → hunks s = hs ++ [UpdateFile p mv cs] →
  (∀ s, mode s = InUpdateFile n → handle_hunk_headers_and_end_patch (trim_end l) s = Ok None) →
  (∀ k, update_hunk_line k l mv cs = Ok (mv', cs')) →
  process_line l (next_line s) = Ok (set_hunks (hs ++ [UpdateFile p mv' cs']) (next_line s)).
Proof.
  intros Hm Hh Hn Hu. unfold process_line. simpl. rewrite Hm, Hn by done. cbn [or_else and_then].
  rewrite Hh, last_snoc, Hu. cbn [and_then]. by rewrite removelast_last.
Qed.

Definition put (old new : list str) (c : UpdateFileChunk) : UpdateFileChunk :=
  mk_chunk (change_context c) (old_lines c ++ old) (new_lines c ++ new) (is_end_of_file c).

Lemma add_lines_snoc old new cs c : add_lines old new (cs ++ [c]) = cs ++ [put old new c].
Proof.
  unfold add_lines. destruct (cs ++ [c]) as [|d ds] eqn:E; [by destruct cs|]. rewrite <- E. unfold map_last.
  by rewrite last_snoc, removelast_last.
Qed.

Lemma trim_end_first c l : trim_end (c :: l) = [] ∨ ∃ l', trim_end (c :: l) = c :: l'.
Proof.
  unfold trim_end. rewrite reverse_cons, drop_while_app.
  destruct (drop_while _ (reverse l)) as [|d r]; [|right; rewrite reverse_snoc; eauto].
  simpl. destruct (is_whitespace c); [by left|right; by exists []].
Qed.

Lemma change_line_no_header x s :
  mode s ≠ StartedPatch → handle_hunk_headers_and_end_patch (trim_end (change_line x)) s = Ok None.
Proof.
  intros Hm. assert (∃ c l, c ≠ 42 ∧ change_line x = c :: l) as (c & l & Hc & ->).
  { destruct x as [l|l|l]; eexists _, l; by split; [|reflexivity]. }
  destruct (trim_end_first c l) as [->|[l' ->]]; [|by apply not_header].
  unfold handle_hunk_headers_and_end_patch. by destruct (mode s).
Qed.

(** A kept, added or removed line joins the last chunk, which is opened if there
    is none. *)
Lemma read_change_line x k mv cs :
  last_is is_end_of_file cs = false →
  update_hunk_line k (change_line x) mv cs = Ok (mv, add_lines (old_of x) (new_of x) cs).
Proof.
  intros He.
  assert (Ht : trim_end (change_line x) = [] ∨ ∃ c l, c ≠ 42 ∧ c ≠ 64 ∧ trim_end (change_line x) = c :: l).
  { assert (∃ c l, c ≠ 42 ∧ c ≠ 64 ∧ change_line x = c :: l) as (c & l & ? & ? & ->).
    { destruct x as [l|l|l]; eexists _, l; by split_and!; [| |reflexivity]. }
    destruct (trim_end_first c l) as [?|[l' ?]]; [by left|right; by exists c, l']. }
  unfold update_hunk_line. rewrite He. cbv zeta. cbn [andb].
  assert (Hm : ∀ p a, p = 42 ∨ p = 64 → strip_prefix (p :: a) (trim_end (change_line x)) = None).
  { intros p a Hp. destruct Ht as [->|(c & l & ? & ? & ->)]; [done|]. cbn [strip_prefix].
    destruct (Z.eqb_spec p c); [lia|done]. }
  assert (Hb : ∀ p a, p = 42 ∨ p = 64 → bool_decide (trim_end (change_line x) = p :: a) = false).
  { intros p a Hp. apply bool_decide_eq_false. destruct Ht as [->|(c & l & ? & ? & ->)]; [done|]. intros [= -> _]. lia. }
  assert (strip_prefix MOVE_TO_MARKER (trim_end (change_line x)) = None) as -> by (apply Hm; by left).
  assert (strip_prefix CHANGE_CONTEXT_MARKER (trim_end (change_line x)) = None) as Hc by (apply Hm; by right).
  assert (bool_decide (trim_end (change_line x) = EMPTY_CHANGE_CONTEXT_MARKER) = false) as -> by (apply Hb; by right).
  assert (bool_decide (trim_end (change_line x) = EOF_MARKER) = false) as -> by (apply Hb; by left).
  unfold starts_with. rewrite Hc, bool_decide_false by by intros [? [=]].
  replace (match cs, mv with [], None => None | _, _ => None end) with (@None str) by by destruct cs, mv.
  by destruct x.
Qed.

Definition put_all (xs : list ChangeLine) (c : UpdateFileChunk) : UpdateFileChunk := put (xs ≫= old_of) (xs ≫= new_of) c.

Lemma put_all_cons x xs c : put_all (x :: xs) c = put_all xs (put (old_of x) (new_of x) c).
Proof. unfold put_all, put. by rewrite !bind_cons, !(assoc_L (++)). Qed.

Lemma put_all_nil c : put_all [] c = c.
Proof. unfold put_all, put. simpl. rewrite !app_nil_r. by destruct c. Qed.

Lemma reads_lines xs s hs p mv cs d n :
  is_end_of_file d = false →
  mode s = InUpdateFile n → hunks s = hs ++ [UpdateFile p mv (cs ++ [d])] → line_buffer s = [] →
  reads (change_line <$> xs) s (InUpdateFile n) (hs ++ [UpdateFile p mv (cs ++ [put_all xs d])]).
Proof.
  revert s d. induction xs as [|x xs IH]; intros s d Hd Hm Hh Hb.
  { rewrite put_all_nil, <- Hh, <- Hm. by apply grammar_nil. }
  rewrite fmap_cons. eapply reads_cons; [eapply (update_line _ _ _ _ _ _ _ _ _ Hm Hh)|done|].
  - intros s' Hs'. apply change_line_no_header. congruence.
  - intros k. apply read_change_line. unfold last_is. by rewrite last_snoc.
  - rewrite put_all_cons, add_lines_snoc. by apply IH.
Qed.

Lemma context_line_trimmed x : match x with Some x => name_ok x | None => True end → trimmed (context_line x).
Proof.
  destruct x as [x|]; [|by vm_compute]. intros [Hx _]. by apply (trimmed_app CHANGE_CONTEXT_MARKER x 64).
Qed.

Lemma full_not_empty cs : Forall chunk_full cs → last_is chunk_empty cs = false.
Proof.
  intros Hcs. unfold last_is. destruct (last cs) as [c|] eqn:E; [|done]. apply chunk_empty_false.
  rewrite (last_removelast _ _ E), Forall_app, Forall_singleton in Hcs. by destruct Hcs.
Qed.

Lemma read_context x k mv cs :
  match x with Some x => name_ok x | None => True end → Forall chunk_full cs →
  update_hunk_line k (context_line x) mv cs = Ok (mv, cs ++ [new_chunk x]).
Proof.
  intros Hx Hcs. destruct (trimmed_id _ (context_line_trimmed x Hx)) as (_ & Ht & Hne).
  unfold update_hunk_line. rewrite Ht, (full_not_empty _ Hcs), andb_false_r.
  rewrite (bool_decide_false (context_line x = [])), andb_false_r by done.
  assert (bool_decide (context_line x = EMPTY_CHANGE_CONTEXT_MARKER) || starts_with CHANGE_CONTEXT_MARKER (context_line x) = true) as ->.
  { destruct x as [x|]; [|done]. unfold starts_with, context_line. rewrite strip_prefix_app.
    by rewrite (bool_decide_true (is_Some _)), orb_true_r by eauto. }
  cbv zeta. rewrite andb_false_r.
  assert (strip_prefix MOVE_TO_MARKER (context_line x) = None) as -> by by destruct x.
  destruct x as [x|].
  - rewrite bool_decide_false; [|by destruct Hx as [Hx _]; destruct x]. unfold context_line.
    rewrite strip_prefix_app. by destruct cs, mv.
  - rewrite bool_decide_true by done. by destruct cs, mv.
Qed.

Lemma read_end_of_file k mv cs d :
  chunk_full d → is_end_of_file d = false →
  update_hunk_line k EOF_MARKER mv (cs ++ [d]) =
    Ok (mv, cs ++ [mk_chunk (change_context d) (old_lines d) (new_lines d) true]).
Proof.
  intros Hd He. unfold update_hunk_line, last_is. rewrite last_snoc, He.
  assert (∀ A (x y : A), match cs ++ [d], mv with [], None => x | _, _ => y end = y) as -> by by destruct cs.
  rewrite (proj2 (chunk_empty_false d) Hd). simpl. unfold mark_end_of_file, map_last.
  by rewrite last_snoc, removelast_last.
Qed.

Lemma reads_one l s hs p mv cs n mv' cs' :
  mode s = InUpdateFile n → hunks s = hs ++ [UpdateFile p mv cs] → line_buffer s = [] →
  (∀ s, mode s = InUpdateFile n → handle_hunk_headers_and_end_patch (trim_end l) s = Ok None) →
  (∀ k, update_hunk_line k l mv cs = Ok (mv', cs')) →
  reads [l] s (InUpdateFile n) (hs ++ [UpdateFile p mv' cs']).
Proof.
  intros Hm Hh Hb Hn Hu. eapply reads_cons; [by eapply update_line|done|]. exists (set_hunks (hs ++ [UpdateFile p mv' cs']) (next_line s)).
  by split_and!.
Qed.

Lemma meant_full c : change_ok c → chunk_full (meant_chunk c).
Proof.
  intros (_ & _ & Hne). unfold chunk_full. simpl. destruct (change_lines c) as [|[l|l|l] xs]; [done|..]; simpl; auto.
Qed.

(** The first chunk of a hunk without a line [@@] is opened by its first line. *)
Lemma reads_body c s hs p mv cs n :
  change_ok c → (header c = None → cs = []) → Forall chunk_full cs →
  mode s = InUpdateFile n → hunks s = hs ++ [UpdateFile p mv cs] → line_buffer s = [] →
  reads ((match header c with Some x => [context_line x] | None => [] end) ++ (change_line <$> change_lines c)) s
    (InUpdateFile n) (hs ++ [UpdateFile p mv (cs ++ [put_all (change_lines c) (new_chunk (default None (header c)))])]).
Proof.
  intros (Hx & _ & Hne) Hnone Hcs Hm Hh Hb. destruct (header c) as [x|] eqn:Eh; simpl in *.
  - apply (reads_app [context_line x] _ _ (InUpdateFile n) (hs ++ [UpdateFile p mv (cs ++ [new_chunk x])])).
    { eapply reads_one; [done..| |intros k; by apply read_context].
      intros s' Hs'. destruct (trimmed_id _ (context_line_trimmed _ Hx)) as (_ & -> & _).
      unfold context_line. by destruct x; apply not_header; [|congruence|..|congruence]. }
    intros s1 Hm1 Hh1 Hb1. by apply reads_lines.
  - rewrite (Hnone eq_refl) in *. destruct (change_lines c) as [|x xs]; [done|].
    rewrite fmap_cons. eapply reads_cons; [eapply (update_line _ _ _ _ _ _ _ _ _ Hm Hh)|done|].
    + intros s' Hs'. apply change_line_no_header. congruence.
    + intros k. by apply read_change_line.
    + rewrite put_all_cons. by apply (reads_lines xs _ hs p mv []).
Qed.

Lemma reads_change c s hs p mv cs n :
  change_ok c → (header c = None → cs = []) → Forall chunk_full cs →
  mode s = InUpdateFile n → hunks s = hs ++ [UpdateFile p mv cs] → line_buffer s = [] →
  reads (render_change c) s (InUpdateFile n) (hs ++ [UpdateFile p mv (cs ++ [meant_chunk c])]).
Proof.
  intros Hc Hnone Hcs Hm Hh Hb. unfold render_change. rewrite app_assoc.
  eapply reads_app; [by apply reads_body|]. intros s1 Hm1 Hh1 Hb1.
  pose proof (meant_full c Hc) as Hf. unfold meant_chunk in *. destruct (at_end c).
  - by eapply reads_one; [done..|intros ? E; unfold handle_hunk_headers_and_end_patch; by rewrite E|intros k; by apply read_end_of_file].
  - rewrite <- Hm1. replace (hs ++ _) with (hunks s1) by by rewrite Hh1. by apply grammar_nil.
Qed.

Lemma reads_changes cs' s hs p mv cs n :
  Forall change_ok cs' → Forall (λ c, is_Some (header c)) (match cs with [] => tail cs' | _ => cs' end) →
  Forall chunk_full cs →
  mode s = InUpdateFile n → hunks s = hs ++ [UpdateFile p mv cs] → line_buffer s = [] →
  reads (cs' ≫= render_change) s (InUpdateFile n) (hs ++ [UpdateFile p mv (cs ++ (meant_chunk <$> cs'))]).
Proof.
  intros Hok. revert s cs. induction Hok as [|c cs' Hc Hok IH]; intros s cs Hx Hcs Hm Hh Hb.
  { rewrite app_nil_r, <- Hh, <- Hm. by apply grammar_nil. }
  rewrite bind_cons. eapply reads_app; [apply (reads_change c s hs p mv cs n); [done| |done..]|].
  { intros E. destruct cs; [done|]. apply Forall_cons in Hx as [[? ?] _]. congruence. }
  intros s1 Hm1 Hh1 Hb1. rewrite fmap_cons.
  replace (cs ++ meant_chunk c :: (meant_chunk <$> cs')) with ((cs ++ [meant_chunk c]) ++ (meant_chunk <$> cs'))
    by by rewrite <- app_assoc.
  apply IH; [|apply Forall_app; split; [done|]; constructor; [by apply meant_full|done]|done..].
  destruct cs; simpl in *; [done|]. by apply Forall_cons in Hx as [_ ?].
Qed.

(** *** Hunks *)
Lemma ready_next_line s : ready s → ready (next_line s).
Proof.
  intros [Hm He]. split; [done|]. intros t. specialize (He t). unfold ensure_update_hunk_is_not_empty in *. simpl in *.
  repeat case_match; done.
Qed.

Lemma ready_hunks s s' : ready s → mode s' = mode s → hunks s' = hunks s → ready s'.
Proof.
  intros [Hm He] Em Eh. split; [by rewrite Em|]. intros t. specialize (He t).
  unfold ensure_update_hunk_is_not_empty in *. rewrite Em, Eh. repeat case_match; done.
Qed.

(** Reading a hunk written out adds it. *)
Lemma reads_hunk h s :
  hunk_ok h → ready s → line_buffer s = [] →
  ∃ m, reads (render_hunk h) s m (hunks s ++ [meant h]) ∧ ∀ s', mode s' = m → hunks s' = hunks s ++ [meant h] → ready s'.
Proof.
  intros Hh Hs Hb. pose proof (ready_next_line s Hs) as Hs'. pose proof (λ p, feed_header p (next_line s) Hs') as Hf.
  destruct h as [p ls|p|p mv cs]; cbn [hunk_ok render_hunk meant] in *.
  - destruct Hh as (Hp & Hc). exists InAddFile. split.
    + eapply reads_cons; [by apply Hf|done|]. by apply (reads_added _ _ (hunks s) p []).
    + intros s' Hm' Hh'. by apply (ready_hunks (start_hunk (AddFile p (unlines ls)) InAddFile s)); [apply ready_start|..].
  - exists InDeleteFile. split.
    + eapply reads_cons; [by apply Hf|done|]. by eexists.
    + intros s' Hm' Hh'. by apply (ready_hunks (start_hunk (DeleteFile p) InDeleteFile s)); [apply ready_start|..].
  - destruct Hh as (Hp & Hmv & Hne & Hcs & Htl). exists (InUpdateFile (line_number (next_line s))). split.
    + eapply reads_cons; [by apply Hf|done|]. eapply reads_app.
      * destruct mv as [to|]; [|by apply (grammar_nil (start_hunk _ _ _))]. eapply reads_one; [done|reflexivity|done| |].
        -- intros s' Em. destruct (trimmed_id _ (trimmed_app MOVE_TO_MARKER to 42 eq_refl eq_refl (proj1 Hmv))) as (_ & -> & _).
           unfold handle_hunk_headers_and_end_patch. by rewrite Em.
        -- intros k. unfold update_hunk_line.
           destruct (trimmed_id _ (trimmed_app MOVE_TO_MARKER to 42 eq_refl eq_refl (proj1 Hmv))) as (_ & -> & _).
           simpl. done.
      * intros s1 Hm1 Hh1 Hb1. destruct mv; (eapply (reads_changes cs s1 (hunks s) p _ []); [done|done|done|done|exact Hh1|done]).
    + intros s' Hm' Hh'. apply (ready_hunks (start_hunk (UpdateFile p mv (meant_chunk <$> cs)) (InUpdateFile (line_number (next_line s))) s)); [|done..].
      apply ready_start; [done|]. split; [by destruct cs|]. apply Forall_fmap. eapply Forall_impl; [done|]. intros c. apply meant_full.
Qed.

Lemma reads_hunks hs s :
  Forall hunk_ok hs → ready s → line_buffer s = [] →
  ∃ m, reads (hs ≫= render_hunk) s m (hunks s ++ (meant <$> hs)) ∧ ∀ s', mode s' = m → hunks s' = hunks s ++ (meant <$> hs) → ready s'.
Proof.
  intros Hok. revert s. induction Hok as [|h hs Hh Hok IH]; intros s Hs Hb.
  { exists (mode s). rewrite app_nil_r. split; [by apply grammar_nil|]. intros s' Em Eh. by eapply ready_hunks. }
  destruct (reads_hunk h s Hh Hs Hb) as (m & (s1 & Hf & Hm1 & Hh1 & He1 & Hb1) & Hr).
  destruct (IH s1 (Hr _ Hm1 Hh1) Hb1) as (m' & (s2 & Hf2 & Hm2 & Hh2 & He2 & Hb2) & Hr2).
  rewrite Hh1, <- app_assoc in Hr2, Hh2. exists m'. split; [|done]. exists s2. rewrite bind_cons, feed_app, Hf.
  split_and!; [done..| |done]. by rewrite He2.
Qed.

(** *** The whole patch *)
Lemma line_ok_marker a p : newline ∉ a → name_ok p → line_ok (a ++ p).
Proof.
  intros Ha [Hp Hn]. split; [set_solver|]. rewrite last_app. unfold trimmed in Hp.
  destruct (head p), (last p); try done. intros [= ->]. by destruct Hp.
Qed.

Lemma line_ok_cons c l : c ≠ newline → c ≠ carriage_return → line_ok l → line_ok (c :: l).
Proof. intros Hn Hc [Hl1 Hl2]. split; [set_solver|]. rewrite last_cons. destruct (last l); naive_solver. Qed.

Lemma lines_ok_cons c ls : c ≠ newline → c ≠ carriage_return → Forall line_ok ls → Forall line_ok (cons c <$> ls).
Proof. intros Hn Hc Hls. apply Forall_fmap. eapply Forall_impl; [done|]. intros l. by apply line_ok_cons. Qed.

Ltac closed_line_ok := split; [rewrite !not_elem_of_cons; by vm_compute|by vm_compute].

Lemma render_hunk_lines h : hunk_ok h → Forall line_ok (render_hunk h).
Proof.
  assert (Hm : ∀ a p, bool_decide (newline ∈ a) = false → name_ok p → line_ok (a ++ p)).
  { intros a p Ha. apply line_ok_marker. by apply bool_decide_eq_false in Ha. }
  destruct h as [p ls|p|p mv cs]; cbn [hunk_ok render_hunk].
  - intros (Hp & Hc). constructor; [by apply Hm|]. by apply lines_ok_cons.
  - intros Hp. constructor; [by apply Hm|done].
  - intros (Hp & Hmv & _ & Hcs & _). constructor; [by apply Hm|]. apply Forall_app. split.
    + destruct mv; [|done]. constructor; [by apply Hm|done].
    + apply Forall_bind. eapply Forall_impl; [done|]. intros c (Hx & Hl & _). unfold render_change.
      apply Forall_app; split; [|apply Forall_app; split].
      * destruct (header c) as [[x|]|]; [|by repeat constructor; apply (bool_decide_unpack _); vm_compute|done].
        constructor; [by apply Hm|done].
      * apply Forall_fmap. eapply Forall_impl; [exact Hl|]. by intros [l|l|l]; apply line_ok_cons.
      * destruct (at_end c); [|done]. constructor; [by apply (bool_decide_unpack _); vm_compute|done].
Qed.

Lemma parse_rendered ls hs e :
  Forall line_ok ls → head ls = Some BEGIN_PATCH_MARKER →
  (∃ s, feed ls Parser_default = Ok s ∧ ready s ∧ hunks s = hs ∧ environment_id s = e ∧ line_buffer s = []) →
  parse_patch (unlines (ls ++ [END_PATCH_MARKER])) =
    Ok (mk_args hs (join newline (ls ++ [END_PATCH_MARKER])) None e).
Proof.
  intros Hls Hb (s & Hf & Hr & <- & <- & Hbuf). set (T := join newline (ls ++ [END_PATCH_MARKER])).
  assert (HT : T = unlines ls ++ END_PATCH_MARKER) by apply unlines_join.
  assert (Htrim : trim (unlines (ls ++ [END_PATCH_MARKER])) = T).
  { rewrite unlines_app. change (unlines [END_PATCH_MARKER]) with (END_PATCH_MARKER ++ [newline]).
    rewrite app_assoc, <- HT, trim_trim_end. destruct ls as [|l ls]; [done|]. injection Hb as ->.
    rewrite drop_while_none; [|intros c; rewrite HT, unlines_cons; by intros [= <-]].
    rewrite trim_end_snoc by done. eapply (trim_end_id _ 104); [|done]. rewrite HT. by rewrite last_app. }
  unfold parse_patch, parse_patch_text. cbv zeta. cbn [PARSE_IN_STRICT_MODE]. rewrite Htrim.
  unfold T at 1. rewrite lines_join; [|done|by apply (bool_decide_unpack _); vm_compute|done].
  unfold check_patch_boundaries_lenient, check_patch_boundaries_strict.
  rewrite last_snoc, head_app, Hb. cbn [and_then].
  replace (check_start_and_end_lines_strict _ _) with (Ok (A:=unit) (E:=ParseError) tt) by by vm_compute.
  cbn [and_then]. fold T. rewrite HT, push_delta_app, push_unlines by done. rewrite Hf. cbn [and_then].
  rewrite push_no_newline, Hbuf by by apply (bool_decide_unpack _); vm_compute. cbn [and_then app].
  unfold finish. rewrite bool_decide_false by done. cbv zeta. simpl line_buffer.
  rewrite bool_decide_true by by vm_compute.
  pose proof (proj2 (ready_next_line _ Hr) (trim END_PATCH_MARKER)) as He.
  change (next_line (set_buffer END_PATCH_MARKER s)) with (next_line s). rewrite He. cbn [and_then mode set_mode].
  by rewrite <- HT.
Qed.

(** The first lines, with a space before the environment. *)
Lemma feed_opening e :
  match e with Some e => name_ok e | None => True end →
  ∃ s, feed (BEGIN_PATCH_MARKER :: render_environment e) Parser_default = Ok s ∧ mode s = StartedPatch ∧
    hunks s = [] ∧ environment_id s = e ∧ line_buffer s = [].
Proof.
  intros He. destruct e as [e|]; [|by eexists]. destruct He as [He _].
  destruct (trimmed_id _ He) as (_ & Hte & Hne).
  assert (Ht : trim (32 :: e) = e).
  { rewrite trim_trim_end. cbn [drop_while]. change (is_whitespace 32) with true. cbv iota.
    rewrite <- trim_trim_end. by destruct (trimmed_id _ He) as (? & _). }
  exists (set_environment e (next_line (set_mode StartedPatch (next_line Parser_default)))). split_and!; [|done..].
  cbn [feed render_environment]. change (process_line BEGIN_PATCH_MARKER (next_line Parser_default))
    with (Ok (E:=ParseError) (set_mode StartedPatch (next_line Parser_default))). cbn [and_then].
  unfold process_line.
  assert (Hl : ENVIRONMENT_ID_MARKER ++ 32 :: e = (ENVIRONMENT_ID_MARKER ++ [32]) ++ e) by by rewrite <- app_assoc.
  rewrite Hl. destruct (trimmed_id _ (trimmed_app (ENVIRONMENT_ID_MARKER ++ [32]) e 42 eq_refl eq_refl He)) as (-> & _ & _).
  cbn [mode next_line set_mode]. unfold handle_hunk_headers_and_end_patch. cbn [mode next_line set_mode].
  rewrite <- Hl, strip_prefix_app, Ht, !bool_decide_false by (done || by intros [? [=]]). done.
Qed.

(** C3: A patch written in the documented format, by the grammar at the head of
    parser.rs, is read as what it says: its hunks in order, and its environment.
    A change of a file is any sequence of kept, added and removed lines, whose old
    lines are the kept and removed ones and whose new lines the kept and added
    ones; the first may come without a line [@@], and each may end with the mark
    of the file's end. Names (paths, contexts and the environment) are on one line,
    not empty and without blanks at the ends, lines hold no newline and do not end
    in a carriage return, and an update has a change and a change a line. *)
Theorem patch_roundtrip e hs :
  Forall hunk_ok hs → match e with Some e => name_ok e | None => True end →
  parse_patch (unlines (render e hs)) = Ok (mk_args (meant <$> hs) (join newline (render e hs)) None e).
Proof.
  intros Hhs He. assert (Hrender : render e hs = (BEGIN_PATCH_MARKER :: render_environment e ++ (hs ≫= render_hunk)) ++ [END_PATCH_MARKER])
    by (unfold render; by rewrite app_assoc).
  rewrite Hrender. apply parse_rendered; [|done|].
  - constructor; [by apply (bool_decide_unpack _); vm_compute|]. apply Forall_app. split.
    + destruct e; [|done]. constructor; [|done]. apply (line_ok_marker (ENVIRONMENT_ID_MARKER ++ [32])); [|done].
      by apply (bool_decide_unpack _); vm_compute.
    + apply Forall_bind. eapply Forall_impl; [done|]. apply render_hunk_lines.
  - destruct (feed_opening e He) as (s & Hf & Hm & Hh & Hse & Hb).
    assert (Hready : ready s).
    { split; [by rewrite Hm|]. intros t. unfold ensure_update_hunk_is_not_empty. by rewrite Hh. }
    destruct (reads_hunks hs s Hhs Hready Hb) as (m & (s' & Hf' & Hm' & Hh' & He' & Hb') & Hr).
    exists s'. rewrite app_comm_cons, feed_app, Hf. rewrite Hh in *. split_and!; [done|by apply Hr|done|by rewrite He'|done].
Qed.

Definition example_patch : list HunkText :=
  [AddText (lit "notes/a.txt") [lit "one"; []; lit " two "];
   DeleteText (lit "b.txt");
   UpdateText (lit "c.rs") (Some (lit "d.rs"))
     [mk_change None [Kept (lit "mod a;"); Added (lit "mod b;"); Kept []; Removed (lit "use a;"); Added (lit "use b;")] false;
      mk_change (Some (Some (lit "fn main"))) [Removed (lit "  old"); Added (lit "  new"); Added []; Kept (lit "}")] false;
      mk_change (Some None) [Kept (lit "before"); Removed (lit "last")] true]].
Definition example_hunks : list Hunk :=
  [AddFile (lit "notes/a.txt") (unlines [lit "one"; []; lit " two "]);
   DeleteFile (lit "b.txt");
   UpdateFile (lit "c.rs") (Some (lit "d.rs"))
     [mk_chunk None [lit "mod a;"; []; lit "use a;"] [lit "mod a;"; lit "mod b;"; []; lit "use b;"] false;
      mk_chunk (Some (lit "fn main")) [lit "  old"; lit "}"] [lit "  new"; []; lit "}"] false;
      mk_chunk None [lit "before"; lit "last"] [lit "before"] true]].

Lemma patch_roundtrip_witness :
  parse_patch (unlines (render (Some (lit "env 1")) example_patch)) =
    Ok (mk_args example_hunks (join newline (render (Some (lit "env 1")) example_patch)) None (Some (lit "env 1"))).
Proof.
  apply (patch_roundtrip (Some (lit "env 1")) example_patch).
  - repeat constructor; try (apply (bool_decide_unpack _); vm_compute; exact I).
  - split; apply (bool_decide_unpack _); vm_compute; exact I.
Defined.

Lemma parsed_hunks_complete_witness : Forall hunk_full example_hunks.
Proof.
  refine (parsed_hunks_complete (unlines (render None example_patch))
    (mk_args example_hunks (join newline (render None example_patch)) None None) _).
  vm_compute. reflexivity.
Defined.
