(* ===== verification/Edit.v ===== *)
(** * Locating and replacing lines

    [crates/pulsing-forge/src/patch/seek_sequence.rs] and the pure part of
    [apply.rs]: where the lines of a chunk are in a file, and the file with the
    chunks applied. Indices into a file are [nat]; a failed [Vec::insert] is a
    panic, [None]. *)
From S2P Require Import Prelude Text Patch.

(** ** Searching *)

(** The comparison loop over the pattern. The line to compare with is there
    whenever the search loops ask.
    src: crates/pulsing-forge/src/patch/seek_sequence.rs 42-48 seek_sequence (pattern loop) *)
Fixpoint all_match (norm : str → str) (pattern ls : list str) : bool :=
  match pattern, ls with
  | [], _ => true
  | p :: pattern, l :: ls => bool_decide (norm l = norm p) && all_match norm pattern ls
  | _, [] => false
  end.

(** One pass.
    src: crates/pulsing-forge/src/patch/seek_sequence.rs 41-52 seek_sequence (search loop) *)
Definition search (norm : str → str) (ls pattern : list str) (start : nat) : option nat :=
  List.find (λ i, all_match norm pattern (drop i ls)) (seq start (S (length ls - length pattern) - start)).

(** src: crates/pulsing-forge/src/patch/seek_sequence.rs 79-92 normalise (characters) *)
Definition normalise_char (c : Z) : Z :=
  if bool_decide (c ∈ [0x2010; 0x2011; 0x2012; 0x2013; 0x2014; 0x2015; 0x2212]) then 45
  else if bool_decide (c ∈ [0x2018; 0x2019; 0x201A; 0x201B]) then 39
  else if bool_decide (c ∈ [0x201C; 0x201D; 0x201E; 0x201F]) then 34
  else if bool_decide (c ∈ [0x00A0; 0x2002; 0x2003; 0x2004; 0x2005; 0x2006; 0x2007; 0x2008; 0x2009; 0x200A; 0x202F; 0x205F; 0x3000]) then 32
  else c.
(** src: crates/pulsing-forge/src/patch/seek_sequence.rs 76-94 normalise *)
Definition normalise (s : str) : str := normalise_char <$> trim s.

(** src: crates/pulsing-forge/src/patch/seek_sequence.rs 12-110 seek_sequence *)
Definition seek_sequence (ls pattern : list str) (start : nat) (eof : bool) : option nat :=
  if bool_decide (pattern = []) then Some start
  else if (length ls <? length pattern)%nat then None
  else
    let search_start :=
      if eof && (length pattern <=? length ls)%nat then (length ls - length pattern)%nat else start in
    match search id ls pattern search_start with
    | Some i => Some i
    | None => match search trim_end ls pattern search_start with
    | Some i => Some i
    | None => match search trim ls pattern search_start with
    | Some i => Some i
    | None => search normalise ls pattern search_start
    end end end.

(** ** Replacements *)

(** A start, the number of lines removed there, and the lines put in. *)
Definition Replacement : Type := nat * nat * list str.

(** The errors of applying a patch, without their texts.
    src: crates/pulsing-forge/src/patch/apply.rs 11-19 ApplyPatchError *)
Inductive ApplyPatchError :=
  | PatchParse (e : ParseError)
  | PatchIo
  | NoFilesModified
  | OutsideWorkingDirectory
  | RootNotFound
  | AddBlocked
  | FileNotFound
  | RefusingToDeleteDirectory
  | ContextNotFound (context : str)
  | LinesNotFound (old : list str).

Definition ends_blank (ls : list str) : bool := bool_decide (last ls = Some []).

(** A chunk without lines to find is appended.
    src: crates/pulsing-forge/src/patch/apply.rs 139-143 compute_replacements (insertion) *)
Definition insertion_index (original_lines : list str) : nat :=
  if ends_blank original_lines then length original_lines - 1 else length original_lines.

(** src: crates/pulsing-forge/src/patch/apply.rs 123-137 compute_replacements (context) *)
Definition after_context (original_lines : list str) (line_index : nat) (context : option str) : Result nat ApplyPatchError :=
  match context with
  | Some ctx_line =>
      match seek_sequence original_lines [ctx_line] line_index false with
      | Some idx => Ok (S idx)
      | None => Err (ContextNotFound ctx_line)
      end
  | None => Ok line_index
  end.

(** A pattern that is not found is tried again without its last blank line.
    src: crates/pulsing-forge/src/patch/apply.rs 147-162 compute_replacements (search) *)
Definition find_old_lines (original_lines : list str) (line_index : nat) (chunk : UpdateFileChunk)
    : option nat * list str * list str :=
  let pattern := old_lines chunk in
  let new_slice := new_lines chunk in
  match seek_sequence original_lines pattern line_index (is_end_of_file chunk) with
  | Some i => (Some i, pattern, new_slice)
  | None =>
      if ends_blank pattern then
        let pattern := removelast pattern in
        let new_slice := if ends_blank new_slice then removelast new_slice else new_slice in
        (seek_sequence original_lines pattern line_index (is_end_of_file chunk), pattern, new_slice)
      else (None, pattern, new_slice)
  end.

(** src: crates/pulsing-forge/src/patch/apply.rs 121-173 compute_replacements (loop) *)
Fixpoint locate_chunks (original_lines : list str) (line_index : nat) (chunks : list UpdateFileChunk)
    : Result (list Replacement) ApplyPatchError :=
  match chunks with
  | [] => Ok []
  | chunk :: chunks =>
      let? line_index := after_context original_lines line_index (change_context chunk) in
      if bool_decide (old_lines chunk = []) then
        let? rest := locate_chunks original_lines line_index chunks in
        Ok ((insertion_index original_lines, O, new_lines chunk) :: rest)
      else
        match find_old_lines original_lines line_index chunk with
        | (Some start_idx, pattern, new_slice) =>
            let? rest := locate_chunks original_lines (start_idx + length pattern) chunks in
            Ok ((start_idx, length pattern, new_slice) :: rest)
        | (None, _, _) => Err (LinesNotFound (old_lines chunk))
        end
  end.

(** [slice::sort_by_key], which is stable. *)
Fixpoint insert_by_start (r : Replacement) (rs : list Replacement) : list Replacement :=
  match rs with
  | [] => [r]
  | q :: rs' => if (r.1.1 <=? q.1.1)%nat then r :: rs else q :: insert_by_start r rs'
  end.
Definition sort_by_start (rs : list Replacement) : list Replacement := foldr insert_by_start [] rs.

(** src: crates/pulsing-forge/src/patch/apply.rs 115-176 compute_replacements *)
Definition compute_replacements (original_lines : list str) (chunks : list UpdateFileChunk)
    : Result (list Replacement) ApplyPatchError :=
  let? rs := locate_chunks original_lines 0 chunks in Ok (sort_by_start rs).

(** [Vec::remove] under the bounds check, and [Vec::insert], which panics past
    the end. *)
Definition remove_at (i : nat) (ls : list str) : list str :=
  if (i <? length ls)%nat then take i ls ++ drop (S i) ls else ls.
Definition vec_insert (i : nat) (x : str) (ls : list str) : option (list str) :=
  if (i <=? length ls)%nat then Some (take i ls ++ x :: drop i ls) else None.

(** src: crates/pulsing-forge/src/patch/apply.rs 188-190 apply_replacements (insert) *)
Fixpoint insert_lines (i : nat) (new : list str) (ls : list str) : option (list str) :=
  match new with
  | [] => Some ls
  | l :: new => ls' ← vec_insert i l ls; insert_lines (S i) new ls'
  end.

(** src: crates/pulsing-forge/src/patch/apply.rs 182-191 apply_replacements (one) *)
Definition apply_replacement (r : Replacement) (ls : list str) : option (list str) :=
  let '(start_idx, old_len, new_segment) := r in
  insert_lines start_idx new_segment (Nat.iter old_len (remove_at start_idx) ls).

(** The last replacement first.
    src: crates/pulsing-forge/src/patch/apply.rs 178-193 apply_replacements *)
Fixpoint apply_replacements (ls : list str) (rs : list Replacement) : option (list str) :=
  match rs with
  | [] => Some ls
  | r :: rs => ls' ← apply_replacements ls rs; apply_replacement r ls'
  end.

(** src: crates/pulsing-forge/src/patch/apply.rs 103-106 derive_new_contents (lines) *)
Definition file_lines (contents : str) : list str :=
  let original_lines := split newline contents in
  if ends_blank original_lines then removelast original_lines else original_lines.
(** src: crates/pulsing-forge/src/patch/apply.rs 109-112 derive_new_contents (text) *)
Definition file_text (new_lines : list str) : str :=
  join newline (if ends_blank new_lines then new_lines else new_lines ++ [[]]).

(** The new contents of a file from its contents.
    src: crates/pulsing-forge/src/patch/apply.rs 100-113 derive_new_contents *)
Definition derive_new_contents (original_contents : str) (chunks : list UpdateFileChunk)
    : option (Result str ApplyPatchError) :=
  let original_lines := file_lines original_contents in
  match compute_replacements original_lines chunks with
  | Err e => Some (Err e)
  | Ok rs => new_lines ← apply_replacements original_lines rs; Some (Ok (file_text new_lines))
  end.
