(* ===== verification/EditFacts.v ===== *)
(** * Properties of locating and replacing lines *)
From S2P Require Import Prelude Text Patch Edit.

(** ** Searching *)

Lemma all_match_length norm p ls : all_match norm p ls = true → (length p <= length ls)%nat.
Proof.
  revert ls. induction p as [|x p IH]; intros [|l ls]; simpl; try done; [lia|].
  intros [_ Hm]%andb_true_iff. apply IH in Hm. lia.
Qed.

Lemma all_match_weaken f g p ls : (∀ x y, f x = f y → g x = g y) → all_match f p ls = true → all_match g p ls = true.
Proof.
  intros Hfg. revert ls. induction p as [|x p IH]; intros [|l ls]; simpl; try done.
  intros [Hx Hp]%andb_true_iff. apply andb_true_iff. split; [|by apply IH].
  apply bool_decide_eq_true. apply Hfg. by apply bool_decide_eq_true in Hx.
Qed.

(** A place where a pattern matches. *)
Definition matches (norm : str → str) (ls pattern : list str) (i : nat) : Prop := all_match norm pattern (drop i ls) = true.

Lemma matches_range norm ls p i : p ≠ [] → matches norm ls p i → (i + length p <= length ls)%nat.
Proof.
  intros Hp Hm. apply all_match_length in Hm. rewrite length_drop in Hm. destruct p; [done|]. simpl in *. lia.
Qed.

Lemma find_seq_Some (f : nat → bool) start n i :
  List.find f (seq start n) = Some i ↔
  (start <= i < start + n)%nat ∧ f i = true ∧ ∀ j, (start <= j < i)%nat → f j = false.
Proof.
  revert start. induction n as [|n IH]; intros start; simpl; [split; [done|lia]|].
  destruct (f start) eqn:E.
  - split.
    + intros [= <-]. split_and!; [lia..|done|lia].
    + intros (Hr & _ & Hj). f_equal. destruct (decide (start = i)); [done|]. specialize (Hj start). rewrite Hj in E; [done|lia].
  - rewrite IH. split; intros (Hr & Hi & Hj); split_and!; try done; try lia.
    + intros j Hjr. destruct (decide (j = start)) as [->|]; [done|]. apply Hj. lia.
    + destruct (decide (start = i)) as [->|]; [congruence|lia].
    + intros j Hjr. apply Hj. lia.
Qed.

Lemma search_Some norm ls p start i :
  p ≠ [] → search norm ls p start = Some i ↔
  (start <= i)%nat ∧ matches norm ls p i ∧ ∀ j, (start <= j < i)%nat → ¬ matches norm ls p j.
Proof.
  intros Hp. unfold search. rewrite find_seq_Some. unfold matches. split.
  - intros (Hr & Hm & Hj). split_and!; [lia|done|]. intros j Hjr. by rewrite Hj.
  - intros (Hr & Hm & Hj). pose proof (matches_range _ _ _ _ Hp Hm). split_and!; [lia..|done|].
    intros j Hjr. by apply not_true_is_false, Hj.
Qed.

Lemma search_None norm ls p start :
  p ≠ [] → search norm ls p start = None ↔ ∀ j, (start <= j)%nat → ¬ matches norm ls p j.
Proof.
  intros Hp. unfold search. split.
  - intros Hn j Hj Hm. pose proof (matches_range _ _ _ _ Hp Hm).
    unfold matches in Hm. rewrite (find_none _ _ Hn j) in Hm; [done|]. apply in_seq. lia.
  - intros Hn. destruct (List.find _ _) as [i|] eqn:E; [|done]. apply find_seq_Some in E as (Hr & Hm & _).
    by destruct (Hn i); [lia|].
Qed.

(** *** The four passes, from the strictest to the most lenient *)
Definition passes : list (str → str) := [id; trim_end; trim; normalise].

Lemma drop_while_idem f s : drop_while f (drop_while f s) = drop_while f s.
Proof. induction s as [|c s IH]; [done|]. simpl. destruct (f c) eqn:E; [done|]. simpl. by rewrite E. Qed.

(** Trimming at the end first makes no difference. *)
Lemma trim_of_trim_end s : trim (trim_end s) = trim s.
Proof.
  unfold trim, trim_matches, trim_end. set (w := is_whitespace).
  assert (Hspec : ∀ t, ∃ u, t = u ++ drop_while w t ∧ forallb w u = true).
  { induction t as [|c t [u [Hu Hw]]]; [by exists []|]. simpl. destruct (w c) eqn:E; [|by exists []].
    exists (c :: u). simpl. rewrite E, Hw. split; [by rewrite <- Hu at 1|done]. }
  assert (Hall : ∀ u t, forallb w u = true → drop_while w (u ++ t) = drop_while w t).
  { induction u as [|c u IH]; intros t; [done|]. simpl. intros [-> Hu]%andb_true_iff. by apply IH. }
  assert (Hrev : ∀ u, forallb w (reverse u) = forallb w u).
  { intros u. apply eq_true_iff_eq. rewrite !forallb_forall. setoid_rewrite <- list_elem_of_In.
    by setoid_rewrite elem_of_reverse. }
  destruct (Hspec (reverse s)) as (u & Hu & Hw). set (r := drop_while w (reverse s)) in *.
  assert (Hs : s = reverse r ++ reverse u) by by rewrite <- reverse_app, <- Hu, reverse_involutive.
  rewrite Hs. clear Hs. destruct (Hspec (reverse r)) as (v & Hv & Hwv).
  destruct (drop_while w (reverse r)) as [|c t] eqn:E.
  - rewrite app_nil_r in Hv. rewrite Hv, Hall by done. rewrite <- (app_nil_r (reverse u)), Hall by by rewrite Hrev. done.
  - assert (drop_while w (reverse r ++ reverse u) = (c :: t) ++ reverse u) as ->.
    { rewrite Hv, <- app_assoc, Hall by done. assert (w c = false) as Hc.
      { destruct (w c) eqn:Ec; [|done]. assert (drop_while w (c :: t) = c :: t) as Hi by (rewrite <- E; apply drop_while_idem).
        simpl in Hi. rewrite Ec in Hi. exfalso. pose proof (drop_while_le w t) as Hle. rewrite Hi, utf8_len_cons in Hle.
        pose proof (utf8_width_pos c). lia. }
      simpl. by rewrite Hc. }
    rewrite reverse_app, reverse_involutive, Hall by done. done.
Qed.

Lemma pass_weaken i j f g x y :
  (i <= j)%nat → passes !! i = Some f → passes !! j = Some g → f x = f y → g x = g y.
Proof.
  assert (Ht : trim_end x = trim_end y → trim x = trim y).
  { intros He. by rewrite <- (trim_of_trim_end x), He, trim_of_trim_end. }
  intros Hij Hf Hg Hxy.
  destruct i as [|[|[|[|i]]]], j as [|[|[|[|j]]]]; simpl in *; simplify_eq; try lia; try done;
    unfold normalise, id in *; try congruence; by rewrite ?Ht.
Qed.

Lemma seek_passes ls p start :
  p ≠ [] → (length p <= length ls)%nat → seek_sequence ls p start false =
    foldr (λ norm r, match search norm ls p start with Some i => Some i | None => r end) None passes.
Proof.
  intros Hp Hl. unfold seek_sequence. rewrite bool_decide_false by done.
  replace (length ls <? length p)%nat with false by (symmetry; apply Nat.ltb_ge; lia). simpl.
  by destruct (search normalise ls p start).
Qed.

Lemma seek_found (ls p : list str) (start : nat) (eof : bool) :
  p ≠ [] →
  let from := if eof then (length ls - length p)%nat else start in
  match seek_sequence ls p start eof with
  | Some i => (from <= i)%nat ∧ (i + length p <= length ls)%nat ∧
      ∃ n norm, passes !! n = Some norm ∧ matches norm ls p i ∧ (∀ j, (from <= j < i)%nat → ¬ matches norm ls p j) ∧
        ∀ m norm', (m < n)%nat → passes !! m = Some norm' → ∀ j, (from <= j)%nat → ¬ matches norm' ls p j
  | None => ∀ j, (from <= j)%nat → ¬ matches normalise ls p j
  end.
Proof.
  intros Hp from. destruct (decide (length p <= length ls)%nat) as [Hl|Hl].
  - assert (seek_sequence ls p start eof = seek_sequence ls p from false) as ->.
    { subst from. unfold seek_sequence. destruct eof; [|done]. rewrite bool_decide_false by done. by rewrite (proj2 (Nat.leb_le (length p) (length ls)) Hl). }
    rewrite seek_passes by done. simpl.
    destruct (search id ls p from) as [i|] eqn:E0; [|rewrite search_None in E0 by done;
      destruct (search trim_end ls p from) as [i|] eqn:E1; [|rewrite search_None in E1 by done;
      destruct (search trim ls p from) as [i|] eqn:E2; [|rewrite search_None in E2 by done;
      destruct (search normalise ls p from) as [i|] eqn:E3; [|by rewrite search_None in E3]]]].
    all: match goal with H : search _ _ _ _ = Some ?i |- _ => rewrite search_Some in H by done; destruct H as (Hr & Hm & Hj) end.
    all: split_and!; [done|by eapply matches_range|].
    + exists 0%nat, id. split_and!; [done..|]. intros m norm' Hm'. lia.
    + exists 1%nat, trim_end. split_and!; [done..|]. intros [|m] norm' Hm' Hn; [|lia]. by simplify_eq/=.
    + exists 2%nat, trim. split_and!; [done..|]. intros [|[|m]] norm' Hm' Hn; [..|lia]; by simplify_eq/=.
    + exists 3%nat, normalise. split_and!; [done..|]. intros [|[|[|m]]] norm' Hm' Hn; [..|lia]; by simplify_eq/=.
  - unfold seek_sequence. rewrite bool_decide_false by done. rewrite (proj2 (Nat.ltb_lt (length ls) (length p))) by lia.
    intros j _ Hm%matches_range; [lia|done].
Qed.

(** Seeking finds the first place, from the start on, where the lines match
    under the strictest of the four comparisons that match anywhere; it fails
    only when no place matches under the most lenient. At the end of the file
    only the last lines are tried. *)
Theorem seek_sequence_spec (ls p : list str) (start : nat) (eof : bool) :
  p ≠ [] →
  let from := if eof then (length ls - length p)%nat else start in
  match seek_sequence ls p start eof with
  | Some i => (from <= i)%nat ∧ (i + length p <= length ls)%nat ∧
      ∃ n norm, passes !! n = Some norm ∧ matches norm ls p i ∧ (∀ j, (from <= j < i)%nat → ¬ matches norm ls p j) ∧
        ∀ m norm', (m < n)%nat → passes !! m = Some norm' → ∀ j, (from <= j)%nat → ¬ matches norm' ls p j
  | None => ∀ j, (from <= j)%nat → ¬ matches normalise ls p j
  end.
Proof. apply seek_found. Qed.

(** ** Replacing *)

Lemma remove_n (a b c : list str) : Nat.iter (length b) (remove_at (length a)) (a ++ b ++ c) = a ++ c.
Proof.
  induction b as [|x b IH]; [done|]. simpl length. rewrite Nat.iter_succ_r. unfold remove_at at 2.
  rewrite (proj2 (Nat.ltb_lt (length a) (length (a ++ (x :: b) ++ c)))) by (rewrite length_app; simpl; lia).
  rewrite take_app_length. simpl. rewrite drop_app, (drop_ge a) by lia.
  replace (S (length a) - length a)%nat with 1%nat by lia. exact IH.
Qed.

Lemma insert_lines_Some (a new c : list str) : insert_lines (length a) new (a ++ c) = Some (a ++ new ++ c).
Proof.
  revert a. induction new as [|l new IH]; intros a; [done|]. cbn [insert_lines]. unfold vec_insert.
  rewrite (proj2 (Nat.leb_le (length a) (length (a ++ c)))) by (rewrite length_app; lia).
  rewrite take_app_length, drop_app_length. simpl. specialize (IH (a ++ [l])).
  rewrite length_app, <- !app_assoc in IH. simpl in IH. by rewrite Nat.add_1_r in IH.
Qed.

Lemma apply_one (a b c new : list str) : apply_replacement (length a, length b, new) (a ++ b ++ c) = Some (a ++ new ++ c).
Proof. unfold apply_replacement. by rewrite remove_n, insert_lines_Some. Qed.

(** The reference: the lines in order, each replaced region in turn. *)
Fixpoint splice (pos : nat) (ls : list str) (rs : list Replacement) : list str :=
  match rs with
  | [] => drop pos ls
  | (start, len, new) :: rs => take (start - pos) (drop pos ls) ++ new ++ splice (start + len) ls rs
  end.
(** Regions in order that do not overlap. *)
Fixpoint disjoint_from (pos : nat) (n : nat) (rs : list Replacement) : Prop :=
  match rs with
  | [] => (pos <= n)%nat
  | (start, len, _) :: rs => (pos <= start)%nat ∧ disjoint_from (start + len) n rs
  end.

Lemma disjoint_from_le pos n rs : disjoint_from pos n rs → (pos <= n)%nat.
Proof. revert pos. induction rs as [|[[s l] w] rs IH]; intros pos; [done|]. intros [? ?%IH]. lia. Qed.

Lemma apply_disjoint pos ls rs :
  disjoint_from pos (length ls) rs → apply_replacements ls rs = Some (take pos ls ++ splice pos ls rs).
Proof.
  revert pos. induction rs as [|[[s l] w] rs IH]; intros pos Hd; [simpl; by rewrite take_drop|].
  destruct Hd as [Hps Hd]. pose proof (disjoint_from_le _ _ _ Hd) as Hn. cbn [apply_replacements splice]. rewrite (IH _ Hd).
  assert (Htake : ∀ k m, (k + m <= length ls)%nat → take (k + m) ls = take k ls ++ take m (drop k ls)).
  { intros k m Hk. by rewrite take_take_drop. }
  rewrite Htake by done. cbn [mbind option_bind]. rewrite <- app_assoc.
  pose proof (apply_one (take s ls) (take l (drop s ls)) (splice (s + l) ls rs) w) as Ha.
  rewrite !length_take, length_drop, (Nat.min_l s), (Nat.min_l l) in Ha by lia. rewrite Ha. f_equal.
  rewrite (app_assoc (take pos ls)), <- Htake by lia. do 2 f_equal. lia.
Qed.

(** Replacements are found within the file, so applying them never fails. *)
Definition starts_within (n : nat) (rs : list Replacement) : Prop := Forall (λ r : Replacement, (r.1.1 <= n)%nat) rs.

Lemma apply_one_total i n new ls :
  (i <= length ls)%nat → ∃ ls', apply_replacement (i, n, new) ls = Some ls' ∧ (i <= length ls')%nat.
Proof.
  intros Hi. unfold apply_replacement.
  assert (Hr : (i <= length (Nat.iter n (remove_at i) ls))%nat).
  { induction n as [|n IH]; [done|]. simpl. unfold remove_at at 1. case_match eqn:E; [|done].
    rewrite length_app, length_take. lia. }
  set (m := Nat.iter n (remove_at i) ls) in *. pose proof (insert_lines_Some (take i m) new (drop i m)) as Hs.
  rewrite take_drop, length_take, Nat.min_l in Hs by done. rewrite Hs. eexists. split; [done|].
  rewrite length_app, length_take. lia.
Qed.

Fixpoint sorted_starts (rs : list Replacement) : Prop :=
  match rs with [] => True | r :: rs => Forall (λ q : Replacement, (r.1.1 <= q.1.1)%nat) rs ∧ sorted_starts rs end.

Lemma insert_by_start_perm r rs : insert_by_start r rs ≡ₚ r :: rs.
Proof.
  induction rs as [|q rs IH]; [done|]. simpl. case_match; [done|]. rewrite IH. apply Permutation_swap.
Qed.

Lemma sort_by_start_perm rs : sort_by_start rs ≡ₚ rs.
Proof. induction rs as [|r rs IH]; [done|]. simpl. by rewrite insert_by_start_perm, IH. Qed.

Lemma insert_by_start_sorted r rs : sorted_starts rs → sorted_starts (insert_by_start r rs).
Proof.
  induction rs as [|q rs IH]; [by repeat constructor|]. intros [Hq Hrs]. simpl. destruct (Nat.leb_spec (r.1.1) (q.1.1)).
  - split; [|done]. constructor; [done|]. eapply Forall_impl; [done|]. simpl. lia.
  - split; [|by apply IH]. rewrite insert_by_start_perm. constructor; [lia|done].
Qed.

Lemma sort_by_start_sorted rs : sorted_starts (sort_by_start rs).
Proof. induction rs as [|r rs IH]; [done|]. by apply insert_by_start_sorted. Qed.

Lemma sort_by_start_id rs : sorted_starts rs → sort_by_start rs = rs.
Proof.
  induction rs as [|r rs IH]; [done|]. intros [Hr Hrs]. simpl. rewrite IH by done. destruct rs as [|q rs]; [done|].
  simpl. inversion Hr; subst. by rewrite (proj2 (Nat.leb_le _ _)).
Qed.

Lemma apply_sorted_total ls rs :
  sorted_starts rs → starts_within (length ls) rs →
  ∃ ls', apply_replacements ls rs = Some ls' ∧ ∀ r, head rs = Some r → (r.1.1 <= length ls')%nat.
Proof.
  induction rs as [|[[i n] w] rs IH]; intros Hs Hw; [by exists ls|]. destruct Hs as [Hi Hs]. inversion Hw as [|? ? Hi' Hw']; subst.
  destruct (IH Hs Hw') as (ls1 & H1 & Hh). simpl. rewrite H1. simpl.
  destruct (apply_one_total i n w ls1) as (ls2 & H2 & Hl).
  - destruct rs as [|r rs]; [simpl in H1; by simplify_eq|]. inversion Hi; subst. simpl in *. specialize (Hh r eq_refl). lia.
  - exists ls2. split; [done|]. by intros ? [= <-].
Qed.

(** ** What locating the chunks finds *)

Lemma seek_range ls p start eof i :
  (start <= length ls)%nat → seek_sequence ls p start eof = Some i → (i + length p <= length ls)%nat.
Proof.
  intros Hs Hi. destruct (decide (p = [])) as [->|Hp].
  - unfold seek_sequence in Hi. rewrite bool_decide_true in Hi by done. simplify_eq. simpl. lia.
  - pose proof (seek_found ls p start eof Hp) as Hspec. cbv zeta in Hspec. rewrite Hi in Hspec. by destruct Hspec as (_ & ? & _).
Qed.

Lemma after_context_range ls k ctx k' :
  (k <= length ls)%nat → after_context ls k ctx = Ok k' → (k' <= length ls)%nat.
Proof.
  intros Hk. unfold after_context. destruct ctx as [x|]; [|by intros [= <-]].
  destruct (seek_sequence ls [x] k false) as [i|] eqn:E; [|done]. intros [= <-]. apply seek_range in E; [|done]. simpl in E. lia.
Qed.

Lemma find_old_lines_range ls k c i p w :
  (k <= length ls)%nat → find_old_lines ls k c = (Some i, p, w) → (i + length p <= length ls)%nat.
Proof.
  intros Hk. unfold find_old_lines. destruct (seek_sequence _ _ _ _) as [j|] eqn:E.
  - intros [= <- <- <-]. by eapply seek_range.
  - case_match; [|done]. intros [= Hj <- <-]. by eapply seek_range.
Qed.

Lemma locate_within ls k cs rs : (k <= length ls)%nat → locate_chunks ls k cs = Ok rs → starts_within (length ls) rs.
Proof.
  revert k rs. induction cs as [|c cs IH]; intros k rs Hk; cbn [locate_chunks]; [intros [= <-]; constructor|].
  intros (k' & Hc%after_context_range & Hrest)%and_then_Ok; [|done]. case_bool_decide.
  - apply and_then_Ok in Hrest as (rs' & Hr & [= <-]). constructor; [|by eapply IH].
    unfold insertion_index. simpl. case_match; lia.
  - destruct (find_old_lines ls k' c) as [[[i|] p] w] eqn:Ef; [|done]. apply find_old_lines_range in Ef; [|done].
    apply and_then_Ok in Hrest as (rs' & Hr & [= <-]). constructor; [simpl; lia|]. eapply IH; [|done]. lia.
Qed.

(** Updating a file always comes to an end in a result or an error: no index
    it inserts at is past the end. *)
Theorem update_never_panics contents chunks : is_Some (derive_new_contents contents chunks).
Proof.
  unfold derive_new_contents, compute_replacements. set (ls := file_lines contents).
  destruct (locate_chunks ls 0 chunks) as [rs|] eqn:E; [|eauto]. cbn [and_then].
  apply locate_within in E; [|lia].
  destruct (apply_sorted_total ls (sort_by_start rs)) as (ls' & -> & _); [apply sort_by_start_sorted| |simpl; eauto].
  unfold starts_within. by rewrite sort_by_start_perm.
Qed.

(** ** Chunks that say where they go *)

(** A chunk with lines to find, not bound to the end of the file. *)
Definition anchored (c : UpdateFileChunk) : Prop := old_lines c ≠ [] ∧ is_end_of_file c = false.

(** The region a chunk replaces holds its old lines, as the most lenient
    comparison sees them; the last one may be blank and missing on both sides. *)
Definition replaces (ls : list str) (c : UpdateFileChunk) (r : Replacement) : Prop :=
  ∃ old new, (old = old_lines c ∧ new = new_lines c ∨
              old_lines c = old ++ [[]] ∧ new = (if ends_blank (new_lines c) then removelast (new_lines c) else new_lines c)) ∧
    r = (r.1.1, length old, new) ∧ matches normalise ls old r.1.1.

Lemma matches_nil norm ls i : matches norm ls [] i.
Proof. done. Qed.

Lemma seek_matches ls p start eof i : seek_sequence ls p start eof = Some i → matches normalise ls p i.
Proof.
  destruct (decide (p = [])) as [->|Hp]; [intros; apply matches_nil|].
  pose proof (seek_found ls p start eof Hp) as Hs. cbv zeta in Hs. intros Hi. rewrite Hi in Hs.
  destruct Hs as (_ & _ & n & norm & Hn & Hm & _). unfold matches in *. eapply all_match_weaken; [|exact Hm].
  intros x y. apply (pass_weaken n 3); [|done..]. apply lookup_lt_Some in Hn. simpl in Hn. lia.
Qed.

Lemma seek_start ls p start i : seek_sequence ls p start false = Some i → (start <= i)%nat.
Proof.
  destruct (decide (p = [])) as [->|Hp].
  - unfold seek_sequence. rewrite bool_decide_true by done. intros. simplify_eq. lia.
  - pose proof (seek_found ls p start false Hp) as Hs. cbv zeta in Hs. intros Hi. rewrite Hi in Hs. by destruct Hs.
Qed.

Lemma after_context_start ls k ctx k' : after_context ls k ctx = Ok k' → (k <= k')%nat.
Proof.
  unfold after_context. destruct ctx as [x|]; [|by intros [= <-]].
  destruct (seek_sequence ls [x] k false) as [i|] eqn:E; [|done]. intros [= <-]. apply seek_start in E. lia.
Qed.

Lemma find_old_lines_replaces ls k c i p w :
  is_end_of_file c = false → find_old_lines ls k c = (Some i, p, w) →
  (k <= i)%nat ∧ replaces ls c (i, length p, w).
Proof.
  intros He. unfold find_old_lines, replaces. rewrite He. destruct (seek_sequence ls (old_lines c) k false) as [j|] eqn:E.
  - intros [= <- <- <-]. split; [by eapply seek_start|]. exists (old_lines c), (new_lines c).
    split_and!; [by left|done|by eapply seek_matches].
  - destruct (ends_blank (old_lines c)) eqn:Eb; [|done]. intros [= Hj <- <-]. split; [by eapply seek_start|].
    eexists _, _. split; [right; split; [|reflexivity]|split; [done|by eapply seek_matches]].
    unfold ends_blank in Eb. apply bool_decide_eq_true, last_Some in Eb as [l ->]. by rewrite removelast_last.
Qed.

Lemma locate_anchored ls k cs rs :
  (k <= length ls)%nat → Forall anchored cs → locate_chunks ls k cs = Ok rs →
  disjoint_from k (length ls) rs ∧ Forall2 (replaces ls) cs rs.
Proof.
  intros Hk Hcs. revert k rs Hk. induction Hcs as [|c cs [Hne He] Hcs IH]; intros k rs Hk; cbn [locate_chunks].
  { intros [= <-]. by split; [|constructor]. }
  intros (k' & Hc & Hrest)%and_then_Ok. rewrite bool_decide_false in Hrest by done.
  destruct (find_old_lines ls k' c) as [[[i|] p] w] eqn:Ef; [|done].
  apply and_then_Ok in Hrest as (rs' & Hr & [= <-]).
  pose proof (after_context_start _ _ _ _ Hc). pose proof (after_context_range _ _ _ _ Hk Hc) as Hk'.
  pose proof (find_old_lines_range _ _ _ _ _ _ Hk' Ef). apply find_old_lines_replaces in Ef as [Hi Hrep]; [|done].
  apply IH in Hr as [Hd Hf]; [|lia]. split; [split; [lia|done]|by constructor].
Qed.

Lemma disjoint_sorted k n rs : disjoint_from k n rs → Forall (λ q : Replacement, (k <= q.1.1)%nat) rs ∧ sorted_starts rs.
Proof.
  revert k. induction rs as [|[[s l] w] rs IH]; intros k; [done|]. intros [Hs Hd]. destruct (IH _ Hd) as [Hf Ho].
  split; [constructor; [done|]|split; [|done]]; (eapply Forall_impl; [done|]; simpl; lia).
Qed.

Lemma derive_anchored contents chunks rs :
  let ls := file_lines contents in
  Forall anchored chunks → locate_chunks ls 0 chunks = Ok rs →
  derive_new_contents contents chunks = Some (Ok (file_text (splice 0 ls rs))).
Proof.
  intros ls Hc Hl. unfold derive_new_contents, compute_replacements. fold ls. rewrite Hl. cbn [and_then].
  apply locate_anchored in Hl as [Hd _]; [|lia|done].
  rewrite sort_by_start_id by by apply disjoint_sorted in Hd as [_ ?]. by rewrite (apply_disjoint 0) by done.
Qed.

(** When every chunk names lines to find, an update that succeeds replaces,
    for each chunk in order, one region that holds the chunk's old lines by its
    new lines; the regions follow each other without overlap, and every line
    outside them is kept as it is. *)
Theorem update_replaces_matches contents chunks text :
  Forall anchored chunks → derive_new_contents contents chunks = Some (Ok text) →
  ∃ rs, disjoint_from 0 (length (file_lines contents)) rs ∧ Forall2 (replaces (file_lines contents)) chunks rs ∧
    text = file_text (splice 0 (file_lines contents) rs).
Proof.
  intros Hc Hd. destruct (locate_chunks (file_lines contents) 0 chunks) as [rs|e] eqn:El.
  - pose proof (derive_anchored contents chunks rs Hc El) as Ht. rewrite Ht in Hd. simplify_eq.
    apply locate_anchored in El as [? ?]; [|lia|done]. by exists rs.
  - unfold derive_new_contents, compute_replacements in Hd. by rewrite El in Hd.
Qed.

(** ** Scripts *)

(** A script: for each chunk the lines kept before it. *)
Definition Script : Type := list (list str * UpdateFileChunk).
Definition script_old (sc : Script) : list str := sc ≫= λ e, e.1 ++ old_lines e.2.
Definition script_new (sc : Script) : list str := sc ≫= λ e, e.1 ++ new_lines e.2.

(** The chunk's first old line is not among some lines, if it is looked for. *)
Definition unseen (c : UpdateFileChunk) (ls : list str) : Prop :=
  is_end_of_file c = false → ∀ o, head (old_lines c) = Some o → o ∉ ls.
(** The chunk's first old line is not among the lines kept before it, after its
    context line, whose first place there is meant, if it has one. *)
Definition finds (kept : list str) (c : UpdateFileChunk) : Prop :=
  match change_context c with
  | None => unseen c kept
  | Some x => ∃ k1 k2, kept = k1 ++ x :: k2 ∧ x ∉ k1 ∧ unseen c k2
  end.
(** A chunk that is marked as the end of the file, or only adds lines, is the
    last and has nothing after it; where one only adds lines, the file does not end
    in a blank line. *)
Fixpoint script_ok (file rest : list str) (sc : Script) : Prop :=
  match sc with
  | [] => True
  | (kept, c) :: sc =>
      finds kept c ∧ (is_end_of_file c = true ∨ old_lines c = [] → sc = [] ∧ rest = []) ∧
      (old_lines c = [] → ends_blank file = false) ∧ script_ok file rest sc
  end.

Lemma seek_exact (a k p rest : list str) o :
  head p = Some o → o ∉ k → seek_sequence (a ++ k ++ p ++ rest) p (length a) false = Some (length a + length k)%nat.
Proof.
  intros Hh Ho. assert (Hp : p ≠ []) by by destruct p.
  rewrite seek_passes by (done || rewrite !length_app; lia). unfold passes. cbn [foldr].
  assert (search id (a ++ k ++ p ++ rest) p (length a) = Some (length a + length k)%nat) as ->; [|done].
  apply search_Some; [done|]. split_and!; [lia| |].
  - unfold matches. rewrite app_assoc, drop_app_length' by by rewrite length_app. clear.
    induction p as [|x p IH]; [done|]. simpl. by rewrite bool_decide_true.
  - intros j Hj Hm. unfold matches in Hm. rewrite drop_app, drop_ge in Hm by lia. simpl in Hm.
    destruct (lookup_lt_is_Some_2 k (j - length a)) as [x Hx]; [lia|].
    rewrite drop_app_le in Hm by lia. rewrite (drop_S _ _ _ Hx) in Hm. destruct p as [|o' p]; simplify_eq/=.
    apply andb_true_iff in Hm as [Hm _]. apply bool_decide_eq_true in Hm. unfold id in Hm. subst x.
    apply Ho. by eapply list_elem_of_lookup_2.
Qed.

(** At the end of the file the last lines are the only ones tried. *)
Lemma seek_end (a p : list str) start : p ≠ [] → seek_sequence (a ++ p) p start true = Some (length a).
Proof.
  intros Hp. unfold seek_sequence. rewrite bool_decide_false by done.
  rewrite (proj2 (Nat.ltb_ge (length (a ++ p)) (length p))), (proj2 (Nat.leb_le (length p) (length (a ++ p)))) by (rewrite length_app; lia).
  cbn [andb]. assert (search id (a ++ p) p (length (a ++ p) - length p) = Some (length a)) as ->; [|done].
  apply search_Some; [done|]. rewrite length_app. split_and!; [lia| |lia]. unfold matches. rewrite drop_app_length. clear.
  induction p as [|x p IH]; [done|]. simpl. by rewrite bool_decide_true.
Qed.

Lemma context_exact (a k rest : list str) c :
  finds k c → ∃ k1 k2, k = k1 ++ k2 ∧ unseen c k2 ∧
    after_context (a ++ k ++ rest) (length a) (change_context c) = Ok (length a + length k1)%nat.
Proof.
  unfold finds, after_context. destruct (change_context c) as [x|].
  - intros (k1 & k2 & -> & Hx & Hk2). exists (k1 ++ [x]), k2. rewrite <- app_assoc. split_and!; [done..|].
    pose proof (seek_exact a k1 [x] (k2 ++ rest) x eq_refl Hx) as Hs. rewrite <- !app_assoc in *. simpl in *.
    rewrite Hs, length_app. simpl. f_equal. lia.
  - intros Hk. exists [], k. by rewrite Nat.add_0_r.
Qed.

Lemma find_exact (a k1 k2 rest : list str) c :
  old_lines c ≠ [] → unseen c k2 → (is_end_of_file c = true → rest = []) →
  find_old_lines (a ++ (k1 ++ k2) ++ old_lines c ++ rest) (length a + length k1) c =
    (Some (length a + length (k1 ++ k2))%nat, old_lines c, new_lines c).
Proof.
  intros Hne Hk2 He. unfold find_old_lines. destruct (is_end_of_file c) eqn:Ee.
  - rewrite (He eq_refl), app_nil_r. pose proof (seek_end (a ++ k1 ++ k2) (old_lines c) (length a + length k1) Hne) as Hs.
    rewrite <- !app_assoc in *. by rewrite Hs, length_app.
  - destruct (head (old_lines c)) as [o|] eqn:Ho; [|by destruct (old_lines c)].
    pose proof (seek_exact (a ++ k1) k2 (old_lines c) rest o Ho (Hk2 Ee o Ho)) as Hs.
    rewrite !length_app, <- !app_assoc in *. rewrite Hs. do 3 f_equal. lia.
Qed.

Lemma locate_script a sc rest :
  script_ok (a ++ script_old sc ++ rest) rest sc →
  ∃ rs, locate_chunks (a ++ script_old sc ++ rest) (length a) sc.*2 = Ok rs ∧
    disjoint_from (length a) (length (a ++ script_old sc ++ rest)) rs ∧
    splice (length a) (a ++ script_old sc ++ rest) rs = script_new sc ++ rest.
Proof.
  revert a. induction sc as [|[k c] sc IH]; intros a.
  { intros _. exists []. split; [done|]. simpl. rewrite drop_app_length. split; [rewrite length_app; lia|done]. }
  unfold script_old, script_new. rewrite fmap_cons, !bind_cons. cbn [fst snd script_ok]. fold (script_old sc) (script_new sc).
  intros (Hf & Hlast & Hblank & Hok). cbn [locate_chunks].
  destruct (context_exact a k (old_lines c ++ script_old sc ++ rest) c Hf) as (k1 & k2 & -> & Hk2 & Hctx).
  rewrite <- !app_assoc in *. rewrite Hctx. cbn [and_then]. case_bool_decide as Hold.
  - destruct (Hlast (or_intror Hold)) as [-> ->]. rewrite Hold in *. simpl in *. rewrite app_nil_r in *.
    eexists. split; [done|]. unfold insertion_index. rewrite Hblank by done. simpl. rewrite !length_app. split; [lia|].
    rewrite drop_app_length, Nat.add_0_r, drop_ge by (rewrite !length_app; lia).
    rewrite take_ge by (rewrite !length_app; lia). by rewrite !app_nil_r, <- app_assoc.
  - pose proof (find_exact a k1 k2 (script_old sc ++ rest) c Hold Hk2) as Hfind. rewrite <- !app_assoc in Hfind.
    rewrite Hfind by (intros E; by destruct (Hlast (or_introl E)) as [-> ->]).
    specialize (IH (a ++ (k1 ++ k2) ++ old_lines c)). rewrite !length_app, <- !app_assoc in IH.
    destruct (IH Hok) as (rs & Hl & Hd & Hs). rewrite <- !Nat.add_assoc in *. rewrite length_app, <- Nat.add_assoc, Hl. cbn [and_then].
    eexists. split; [done|]. cbn [splice disjoint_from]. rewrite <- !Nat.add_assoc, Hs. split; [split; [lia|by rewrite !length_app]|].
    replace (length a + (length k1 + length k2) - length a)%nat with (length (k1 ++ k2)) by (rewrite length_app; lia).
    rewrite drop_app_length, (app_assoc k1), take_app_length. by rewrite <- !app_assoc.
Qed.

Lemma file_lines_unlines ls : Forall (λ l, newline ∉ l) ls → file_lines (unlines ls) = ls.
Proof.
  intros Hls. unfold file_lines, ends_blank. rewrite split_unlines, last_snoc by done.
  by rewrite bool_decide_true, removelast_last.
Qed.

(** C9: A patch made from an edit script does what the script says: chunk by
    chunk, the lines before a chunk are kept and its old lines become its new
    lines, when each chunk's first old line does not occur among the lines kept
    before it (after its context line, if it has one). Two kinds of chunks must be
    the script's last with nothing after them: one that is marked as the end of the
    file, which needs no such condition, and one that only adds lines, to a file
    that does not end in a blank line. The result is written with a newline after
    each line; of a result that ends in a blank line, that line is not written. *)
Theorem edit_script_applies sc rest :
  script_ok (script_old sc ++ rest) rest sc → Forall (λ l, newline ∉ l) (script_old sc ++ rest) →
  let result := script_new sc ++ rest in
  derive_new_contents (unlines (script_old sc ++ rest)) sc.*2 =
    Some (Ok (unlines (if ends_blank result then removelast result else result))).
Proof.
  intros Hsc Hl result. destruct (locate_script [] sc rest Hsc) as (rs & Hloc & Hd & Hs). cbn [app length] in Hloc, Hd, Hs.
  unfold derive_new_contents, compute_replacements. rewrite file_lines_unlines, Hloc by done. cbn [and_then].
  rewrite sort_by_start_id by by apply disjoint_sorted in Hd as [_ ?].
  rewrite (apply_disjoint 0), take_0 by done. cbn [mbind option_bind app]. rewrite Hs. fold result. clear Hs. do 2 f_equal.
  unfold file_text. clearbody result. destruct (ends_blank result) eqn:Eb.
  - unfold ends_blank in Eb. apply bool_decide_eq_true, last_Some in Eb as [l ->]. rewrite removelast_last, unlines_join. apply app_nil_r.
  - rewrite unlines_join. apply app_nil_r.
Qed.

(** ** Where the result is not what the chunks say *)

(** A chunk that only adds lines is put at the end of the file whatever its
    context line says, and when an earlier chunk replaced a blank last line, part
    of that chunk is then removed with it. *)
Theorem pure_addition_misplaced :
  derive_new_contents (unlines [lit "fn a"; lit "fn b"]) [mk_chunk (Some (lit "fn a")) [] [lit "  body"] false]
    = Some (Ok (unlines [lit "fn a"; lit "fn b"; lit "  body"])) ∧
  derive_new_contents (unlines [lit "a"; []])
    [mk_chunk None [lit "a"; []] [lit "b"; []] false; mk_chunk None [] [lit "x"] false]
    = Some (Ok (join newline [lit "b"; []; []])).
Proof. split; vm_compute; reflexivity. Qed.

(** A chunk bound to the end of the file is not looked for anywhere else, and
    it is looked for there even when an earlier chunk has replaced the place: of
    the two, the later one is lost. *)
Theorem end_of_file_chunk_misplaced :
  (∀ ls p start i, p ≠ [] → seek_sequence ls p start true = Some i → i = (length ls - length p)%nat) ∧
  derive_new_contents (unlines [lit "a"])
    [mk_chunk None [lit "a"] [lit "b"] false; mk_chunk None [lit "a"] [lit "c"] true]
    = Some (Ok (unlines [lit "b"])).
Proof.
  split; [|vm_compute; reflexivity]. intros ls p start i Hp Hi. pose proof (seek_found ls p start true Hp) as Hs.
  cbv zeta in Hs. rewrite Hi in Hs. destruct Hs as (H1 & H2 & _). lia.
Qed.

(** The last chunk's line is also further up; the mark of the end finds the right one. *)
Definition example_script : Script :=
  [([lit "use x;"; lit "fn main() {"], mk_chunk (Some (lit "fn main() {")) [lit "  old();"] [lit "  new();"; lit "  more();"] false);
   ([lit "}"; []], mk_chunk None [lit "fn next() {}"] [] false);
   ([lit "// end"; lit "fn last() {"], mk_chunk (Some (lit "fn last() {")) [lit "// end"] [lit "}"] true)].
Definition appending_script : Script := [([lit "a"; lit "b"], mk_chunk (Some (lit "a")) [] [lit "c"] false)].

Lemma edit_script_applies_witness :
  derive_new_contents (unlines (script_old example_script)) example_script.*2 =
    Some (Ok (unlines [lit "use x;"; lit "fn main() {"; lit "  new();"; lit "  more();"; lit "}"; []; lit "// end"; lit "fn last() {"; lit "}"])) ∧
  derive_new_contents (unlines [lit "a"; lit "b"]) appending_script.*2 = Some (Ok (unlines [lit "a"; lit "b"; lit "c"])).
Proof.
  split.
  - rewrite <- (app_nil_r (script_old example_script)). apply (edit_script_applies example_script []).
    + unfold example_script. cbn [script_ok]. split_and!; try done; try (by intros [?|?]).
      * exists [lit "use x;"], []. split_and!; [done|by apply (bool_decide_unpack _); vm_compute|]. intros _ o _. apply not_elem_of_nil.
      * intros _ o [= <-]. by apply (bool_decide_unpack _); vm_compute.
      * exists [lit "// end"], []. split_and!; [done|by apply (bool_decide_unpack _); vm_compute|]. intros [=].
    + by apply (bool_decide_unpack _); vm_compute.
  - apply (edit_script_applies appending_script []).
    + unfold appending_script. cbn [script_ok]. split_and!; try done. exists [], [lit "b"]. split_and!; [done|apply not_elem_of_nil|]. intros _ o [=].
    + by apply (bool_decide_unpack _); vm_compute.
Defined.

Lemma seek_sequence_spec_witness :
  ∃ n norm, passes !! n = Some norm ∧ matches norm [lit "a "; lit "b"; lit "a"] [lit "a"; lit "b "] 0.
Proof.
  pose proof (seek_sequence_spec [lit "a "; lit "b"; lit "a"] [lit "a"; lit "b "] 0 false ltac:(discriminate)) as H.
  cbv zeta in H. assert (E : seek_sequence [lit "a "; lit "b"; lit "a"] [lit "a"; lit "b "] 0 false = Some O) by (vm_compute; reflexivity).
  rewrite E in H. destruct H as (_ & _ & n & norm & Hn & Hm & _). exists n, norm. split; assumption.
Defined.

Lemma update_replaces_matches_witness :
  ∃ rs, unlines [lit "b"] = file_text (splice 0 [lit "a"] rs).
Proof.
  destruct (update_replaces_matches (unlines [lit "a"]) [mk_chunk None [lit "a"] [lit "b"] false] (unlines [lit "b"])) as (rs & _ & _ & H).
  - constructor; [split; [discriminate|reflexivity]|constructor].
  - vm_compute. reflexivity.
  - exists rs. exact H.
Defined.
