(* ===== verification/Files.v ===== *)
(** * Paths and files

    The functions of [std::path] and [std::fs] the patch engine calls, on a tree
    of files, directories and symbolic links. A path is the list of components
    [Path::components] yields; a location is the list of names from the root
    that no link occurs in. Files hold text. Opening a file or a directory fails
    only for what the tree holds: permissions and full disks are left out. *)
From S2P Require Import Prelude Text.

(** ** Paths *)
Inductive Component := RootDir | CurDir | ParentDir | Normal (name : str).
Notation Path := (list Component) (only parsing).
#[export] Instance Component_eq_dec : EqDecision Component.
Proof. solve_decision. Defined.

Definition component (s : str) : list Component :=
  if bool_decide (s = []) then [] else if bool_decide (s = lit ".") then []
  else if bool_decide (s = lit "..") then [ParentDir] else [Normal s].
(** [Path::components]: empty pieces and [.] are skipped, but for a [.] at the
    start of a relative path. *)
Definition components (s : str) : Path :=
  match split 47 s with
  | first :: rest =>
      (if bool_decide (first = lit ".") then [CurDir]
       else if bool_decide (head s = Some 47) then [RootDir] else component first) ++ (rest ≫= component)
  | [] => []
  end.

Definition is_absolute (p : Path) : bool := bool_decide (head p = Some RootDir).
(** [Path::join]. *)
Definition path_join (base p : Path) : Path :=
  if is_absolute p then p
  else match base, p with [], _ => p | _, CurDir :: p => base ++ p | _, _ => base ++ p end.
(** [PathBuf::push] of one component. *)
Definition push_component (p : Path) (c : Component) : Path :=
  match c with RootDir => [RootDir] | _ => p ++ [c] end.
(** [Path::parent] and [PathBuf::pop]. *)
Definition path_parent (p : Path) : option Path :=
  match last p with None | Some RootDir => None | Some _ => Some (removelast p) end.

(** ** Files *)
Inductive Entry := File (contents : str) | Dir | Symlink (target : str).
#[export] Instance Entry_eq_dec : EqDecision Entry.
Proof. solve_decision. Defined.
Notation Loc := (list str) (only parsing).
(** The path of a location. *)
Definition abs (ns : list str) : list Component := RootDir :: (Normal <$> ns).
#[export] Instance Normal_inj : Inj (=) (=) Normal.
Proof. by intros ?? [= ->]. Qed.
#[export] Instance abs_inj : Inj (=) (=) abs.
Proof. intros a b [= Ht]. by apply (inj (fmap Normal)). Qed.
Notation FileSystem := (gmap (list str) Entry) (only parsing).

(** The directory of the process, where relative paths start, and the number of
    links the system follows before it gives up. *)
Class Process : Type := { working_directory : Loc; max_links : nat }.

Definition entry_at (fs : FileSystem) (l : Loc) : option Entry := if bool_decide (l = []) then Some Dir else fs !! l.
Definition is_dir_at (fs : FileSystem) (l : Loc) : bool := bool_decide (entry_at fs l = Some Dir).

(** Path resolution, following links; with [create] the last name may be one
    that is not there yet. *)
Fixpoint walk (fs : FileSystem) (create : bool) (links : nat) : Loc → Path → option Loc :=
  fix go cur todo :=
    match todo with
    | [] => Some cur
    | RootDir :: todo => go [] todo
    | CurDir :: todo => go cur todo
    | ParentDir :: todo => go (removelast cur) todo
    | Normal n :: todo =>
        match fs !! (cur ++ [n]) with
        | Some Dir => go (cur ++ [n]) todo
        | Some (File _) => if bool_decide (todo = []) then Some (cur ++ [n]) else None
        | Some (Symlink t) =>
            match links with O => None | S links => walk fs create links cur (components t ++ todo) end
        | None => if create && bool_decide (todo = []) then Some (cur ++ [n]) else None
        end
    end.

Section Files.
Context `{Process}.

Definition canonicalize (fs : FileSystem) (p : Path) : option Loc :=
  if bool_decide (p = []) then None else walk fs false max_links working_directory p.

Definition metadata (fs : FileSystem) (p : Path) : option Entry := canonicalize fs p ≫= entry_at fs.
Definition is_dir (fs : FileSystem) (p : Path) : bool := bool_decide (metadata fs p = Some Dir).
Definition is_file (fs : FileSystem) (p : Path) : bool :=
  match metadata fs p with Some (File _) => true | _ => false end.
Definition exists_path (fs : FileSystem) (p : Path) : bool := bool_decide (is_Some (metadata fs p)).

Definition read_to_string (fs : FileSystem) (p : Path) : option str :=
  match metadata fs p with Some (File s) => Some s | _ => None end.

(** [fs::write]: the file is made or replaced where the path leads, links
    followed. *)
Definition write (fs : FileSystem) (p : Path) (contents : str) : option FileSystem :=
  l ← walk fs true max_links working_directory p;
  if bool_decide (p = []) || is_dir_at fs l then None else Some (<[l := File contents]> fs).

(** Where a path's last name is, that name not followed. *)
Definition parent_location (fs : FileSystem) (p : Path) : option (Loc * str) :=
  match last p with
  | Some (Normal n) =>
      d ← walk fs false max_links working_directory (removelast p);
      if is_dir_at fs d then Some (d, n) else None
  | _ => None
  end.

(** [fs::remove_file]. *)
Definition remove_file (fs : FileSystem) (p : Path) : option FileSystem :=
  '(d, n) ← parent_location fs p;
  match fs !! (d ++ [n]) with
  | Some (File _) | Some (Symlink _) => Some (delete (d ++ [n]) fs)
  | _ => None
  end.

(** [mkdir(2)]: made, or not because the parent is missing or the name taken. *)
Inductive MkdirResult := Made (fs : FileSystem) | ParentMissing | NameTaken.
Definition mkdir (fs : FileSystem) (p : Path) : MkdirResult :=
  match last p with
  | Some (Normal _) =>
      match parent_location fs p with
      | Some (d, n) =>
          match fs !! (d ++ [n]) with Some _ => NameTaken | None => Made (<[d ++ [n] := Dir]> fs) end
      | None => ParentMissing
      end
  | _ => NameTaken
  end.

(** [fs::create_dir_all]: the parents are made first when one is missing. *)
Fixpoint create_dirs (fuel : nat) (fs : FileSystem) (p : Path) : FileSystem * bool :=
  match p, fuel with
  | [], _ => (fs, true)
  | _, O => (fs, false)
  | _, S fuel =>
      match mkdir fs p with
      | Made fs => (fs, true)
      | NameTaken => (fs, is_dir fs p)
      | ParentMissing =>
          match path_parent p with
          | None => (fs, false)
          | Some q =>
              let '(fs, ok) := create_dirs fuel fs q in
              if ok then
                match mkdir fs p with
                | Made fs => (fs, true)
                | _ => (fs, is_dir fs p)
                end
              else (fs, false)
          end
      end
  end.
(** Every round drops a component, so the length of the path is fuel enough. *)
Definition create_dir_all (fs : FileSystem) (p : Path) : FileSystem * bool := create_dirs (length p) fs p.
End Files.
