(* ===== verification/Apply.v ===== *)
(** * Applying a patch to the files

    [crates/pulsing-forge/src/patch/mod.rs], [apply.rs] and [invocation.rs]:
    where the path of a hunk leads, the hunks one after another, and the calls
    that a tool makes. What a call leaves on disk is part of its result, errors
    included. A summary is kept as its three lists of paths. *)
From S2P Require Import Prelude Text Patch Edit Files.

Section Apply.
Context `{Process}.

(** ** Where a path leads *)

(** src: crates/pulsing-forge/src/patch/mod.rs 74-89 normalize_lexically *)
Definition normalize_lexically (p : Path) : Path :=
  foldl (λ out c,
    match c with
    | CurDir => out
    | ParentDir =>
        match last out with
        | Some (Normal _) => removelast out
        | _ => push_component out c
        end
    | _ => push_component out c
    end) [] p.

(** The nearest ancestor that exists; [rev] is the probe, last component first.
    src: crates/pulsing-forge/src/patch/mod.rs 51-67 reject_symlink_escape (loop) *)
Fixpoint probe_ancestors (fs : FileSystem) (root_canon : Loc) (rev : Path) : Result unit ApplyPatchError :=
  match canonicalize fs (reverse rev) with
  | Some canon => if bool_decide (root_canon `prefix_of` canon) then Ok tt else Err OutsideWorkingDirectory
  | None =>
      match rev with
      | [] | RootDir :: _ => Ok tt
      | _ :: rev => probe_ancestors fs root_canon rev
      end
  end.

(** src: crates/pulsing-forge/src/patch/mod.rs 49-68 reject_symlink_escape *)
Definition reject_symlink_escape (fs : FileSystem) (target root : Path) : Result unit ApplyPatchError :=
  match canonicalize fs root with
  | None => Err RootNotFound
  | Some root_canon => probe_ancestors fs root_canon (reverse target)
  end.

(** src: crates/pulsing-forge/src/patch/mod.rs 29-46 resolve_patch_path *)
Definition resolve_patch_path (fs : FileSystem) (path base root : Path) : Result Path ApplyPatchError :=
  let joined := if is_absolute path then path else path_join base path in
  let target := normalize_lexically joined in
  let boundary := normalize_lexically root in
  if negb (bool_decide (boundary `prefix_of` target)) then Err OutsideWorkingDirectory
  else let? _ := reject_symlink_escape fs target boundary in Ok target.

(** ** Hunks *)

(** src: crates/pulsing-forge/src/patch/apply.rs 38-40 apply_hunks (summary) *)
Record Summary := mk_summary { added : list Path; modified : list Path; deleted : list Path }.

(** Making the parent's directories and writing the file.
    src: crates/pulsing-forge/src/patch/apply.rs 47-50 apply_hunks (write) *)
Definition write_with_parents (fs : FileSystem) (path : Path) (contents : str) : FileSystem * Result unit ApplyPatchError :=
  let '(fs, ok) := match path_parent path with Some parent => create_dir_all fs parent | None => (fs, true) end in
  if ok then match write fs path contents with Some fs => (fs, Ok tt) | None => (fs, Err PatchIo) end
  else (fs, Err PatchIo).

(** [None] is a panic.
    src: crates/pulsing-forge/src/patch/apply.rs 100-113 derive_new_contents *)
Definition derive_file (fs : FileSystem) (path : Path) (chunks : list UpdateFileChunk) : option (Result str ApplyPatchError) :=
  match read_to_string fs path with
  | Some contents => derive_new_contents contents chunks
  | None => Some (Err PatchIo)
  end.

(** The loop's body: the files after one hunk, and the summary so far.
    src: crates/pulsing-forge/src/patch/apply.rs 42-92 apply_hunks (loop) *)
Definition apply_hunk (base root : Path) (fs : FileSystem) (sum : Summary) (h : Hunk)
    : option (FileSystem * Result Summary ApplyPatchError) :=
  match h with
  | AddFile path contents =>
      match resolve_patch_path fs (components path) base root with
      | Err e => Some (fs, Err e)
      | Ok path =>
          let '(fs, r) := write_with_parents fs path contents in
          Some (fs, let? _ := r in Ok (mk_summary (added sum ++ [path]) (modified sum) (deleted sum)))
      end
  | DeleteFile path =>
      match resolve_patch_path fs (components path) base root with
      | Err e => Some (fs, Err e)
      | Ok path =>
          if is_dir fs path then Some (fs, Err RefusingToDeleteDirectory)
          else match remove_file fs path with
          | None => Some (fs, Err PatchIo)
          | Some fs => Some (fs, Ok (mk_summary (added sum) (modified sum) (deleted sum ++ [path])))
          end
      end
  | UpdateFile path move_path chunks =>
      match resolve_patch_path fs (components path) base root with
      | Err e => Some (fs, Err e)
      | Ok path =>
          new_contents ← derive_file fs path chunks;
          match new_contents, move_path with
          | Err e, _ => Some (fs, Err e)
          | Ok new_contents, Some dest =>
              match resolve_patch_path fs (components dest) base root with
              | Err e => Some (fs, Err e)
              | Ok dest_path =>
                  let '(fs, r) := write_with_parents fs dest_path new_contents in
                  match r with
                  | Err e => Some (fs, Err e)
                  | Ok _ =>
                      match remove_file fs path with
                      | None => Some (fs, Err PatchIo)
                      | Some fs => Some (fs, Ok (mk_summary (added sum) (modified sum ++ [dest_path]) (deleted sum)))
                      end
                  end
              end
          | Ok new_contents, None =>
              match write fs path new_contents with
              | None => Some (fs, Err PatchIo)
              | Some fs => Some (fs, Ok (mk_summary (added sum) (modified sum ++ [path]) (deleted sum)))
              end
          end
      end
  end.

(** The loop stops at the first error; what was done before it stays done.
    src: crates/pulsing-forge/src/patch/apply.rs 42-92 apply_hunks (loop) *)
Fixpoint apply_all (base root : Path) (fs : FileSystem) (sum : Summary) (hs : list Hunk)
    : option (FileSystem * Result Summary ApplyPatchError) :=
  match hs with
  | [] => Some (fs, Ok sum)
  | h :: hs =>
      '(fs, r) ← apply_hunk base root fs sum h;
      match r with Err e => Some (fs, Err e) | Ok sum => apply_all base root fs sum hs end
  end.

(** src: crates/pulsing-forge/src/patch/apply.rs 34-98 apply_hunks *)
Definition apply_hunks (hs : list Hunk) (base root : Path) (fs : FileSystem)
    : option (FileSystem * Result Summary ApplyPatchError) :=
  match hs with
  | [] => Some (fs, Err NoFilesModified)
  | _ => apply_all base root fs (mk_summary [] [] []) hs
  end.

(** src: crates/pulsing-forge/src/patch/apply.rs 25-32 apply_patch_to_fs_bounded *)
Definition apply_patch_to_fs_bounded (patch : str) (base root : Path) (fs : FileSystem)
    : option (FileSystem * Result Summary ApplyPatchError) :=
  match parse_patch patch with
  | Err e => Some (fs, Err (PatchParse e))
  | Ok args => apply_hunks (args_hunks args) base root fs
  end.
(** src: crates/pulsing-forge/src/patch/apply.rs 21-23 apply_patch_to_fs *)
Definition apply_patch_to_fs (patch : str) (cwd : Path) (fs : FileSystem)
    : option (FileSystem * Result Summary ApplyPatchError) := apply_patch_to_fs_bounded patch cwd cwd fs.

(** ** Invocation *)

(** The files a patch names are looked at before anything is changed.
    src: crates/pulsing-forge/src/patch/invocation.rs 73-105 verify_hunks_readable *)
Definition verify_hunk_readable (fs : FileSystem) (base root : Path) (h : Hunk) : Result unit ApplyPatchError :=
  match h with
  | AddFile path _ =>
      let? path := resolve_patch_path fs (components path) base root in
      if exists_path fs path then Err AddBlocked else Ok tt
  | DeleteFile path =>
      let? path := resolve_patch_path fs (components path) base root in
      if is_file fs path then Ok tt else Err FileNotFound
  | UpdateFile path move_path _ =>
      let? path := resolve_patch_path fs (components path) base root in
      if negb (is_file fs path) then Err FileNotFound
      else match move_path with
           | Some dest => let? _ := resolve_patch_path fs (components dest) base root in Ok tt
           | None => Ok tt
           end
  end.
(** src: crates/pulsing-forge/src/patch/invocation.rs 73-105 verify_hunks_readable *)
Fixpoint verify_hunks_readable (fs : FileSystem) (hs : list Hunk) (base root : Path) : Result unit ApplyPatchError :=
  match hs with
  | [] => Ok tt
  | h :: hs => let? _ := verify_hunk_readable fs base root h in verify_hunks_readable fs hs base root
  end.

(** src: crates/pulsing-forge/src/patch/invocation.rs 66-71 resolve_effective_cwd *)
Definition resolve_effective_cwd (fs : FileSystem) (cwd : Path) (workdir : option str) : Result Path ApplyPatchError :=
  match workdir with
  | Some w => resolve_patch_path fs (components w) cwd cwd
  | None => Ok (normalize_lexically cwd)
  end.

(** src: crates/pulsing-forge/src/patch/invocation.rs 60-64 apply_parsed_patch *)
Definition apply_parsed_patch (args : ApplyPatchArgs) (cwd : Path) (fs : FileSystem)
    : option (FileSystem * Result Summary ApplyPatchError) :=
  match (let? effective := resolve_effective_cwd fs cwd (args_workdir args) in
         let? _ := verify_hunks_readable fs (args_hunks args) effective cwd in Ok effective) with
  | Err e => Some (fs, Err e)
  | Ok effective => apply_patch_to_fs_bounded (args_patch args) effective cwd fs
  end.
End Apply.

(** The extraction of a here document from a shell script, by tree-sitter's
    grammar of bash.
    src: crates/pulsing-forge/src/patch/heredoc.rs 11-17 HeredocError *)
Inductive HeredocError :=
  | CommandDidNotStartWithApplyPatch
  | FailedToLoadBashGrammar (message : str)
  | HeredocNotUtf8
  | FailedToParsePatchIntoAst.

(** src: crates/pulsing-forge/src/patch/invocation.rs 14-20 MaybeApplyPatch *)
Inductive MaybeApplyPatch :=
  | Body (args : ApplyPatchArgs)
  | PatchParseError (e : ParseError)
  | ShellParseError (e : HeredocError)
  | ImplicitInvocation
  | NotApplyPatch.

(** [Path::file_stem]: the last name up to its last dot, a leading dot apart. *)
Definition file_stem (p : Path) : option str :=
  match last p with
  | Some (Normal n) =>
      match rsplit_once 46 n with
      | Some (stem, _) => if bool_decide (stem = []) then Some n else Some stem
      | None => Some n
      end
  | _ => None
  end.

(** src: crates/pulsing-forge/src/patch/invocation.rs 107-114 is_shell_flag *)
Definition is_shell_flag (shell flag : str) : bool :=
  let name := to_ascii_lowercase (default shell (file_stem (components shell))) in
  bool_decide (name ∈ [lit "sh"; lit "bash"; lit "zsh"]) && bool_decide (flag ∈ [lit "-c"; lit "-lc"]).

Definition is_ok {A E} (r : Result A E) : bool := match r with Ok _ => true | Err _ => false end.
Definition with_source (args : ApplyPatchArgs) (body : str) (workdir : option str) : ApplyPatchArgs :=
  mk_args (args_hunks args) body workdir (args_environment_id args).

(** src: crates/pulsing-forge/src/patch/invocation.rs 11-11 APPLY_PATCH_COMMANDS *)
Definition APPLY_PATCH_COMMANDS : list str := [lit "apply_patch"; lit "applypatch"].
(** src: crates/pulsing-forge/src/patch/invocation.rs 23-58 maybe_parse_apply_patch *)
Definition maybe_parse_apply_patch (extract : str → Result (str * option str) HeredocError) (argv : list str) : MaybeApplyPatch :=
  match argv with
  | [body] => if is_ok (parse_patch body) then ImplicitInvocation else NotApplyPatch
  | [cmd; body] =>
      if bool_decide (cmd ∈ APPLY_PATCH_COMMANDS) then
        match parse_patch body with
        | Ok source => Body (with_source source body (args_workdir source))
        | Err e => PatchParseError e
        end
      else NotApplyPatch
  | [shell; flag; script] =>
      if is_shell_flag shell flag then
        if is_ok (parse_patch script) then ImplicitInvocation
        else match extract script with
        | Ok (body, workdir) =>
            match parse_patch body with
            | Ok source => Body (with_source source body workdir)
            | Err e => PatchParseError e
            end
        | Err CommandDidNotStartWithApplyPatch => NotApplyPatch
        | Err e => ShellParseError e
        end
      else NotApplyPatch
  | _ => NotApplyPatch
  end.
