(* ===== verification/ApplyFacts.v ===== *)
(** * Properties of applying a patch

    In a working directory without links a patch changes nothing outside, and
    each hunk does what it says; where a link leads nowhere, and where a file is
    moved onto itself, it does not. *)
From S2P Require Import Prelude Text Patch Edit EditFacts Files Apply.

(** ** Absolute paths of plain names *)

(** A normalized path has no [..] after a name. *)
Definition tidy (p : list Component) : Prop :=
  ∃ a ns, p = a ++ (Normal <$> ns) ∧ Forall (λ c, ∀ n, c ≠ Normal n) a.

Lemma normalize_tidy p : tidy (normalize_lexically p).
Proof.
  unfold normalize_lexically. apply (foldl_invariant tidy); [by exists [], []|].
  intros q c _ (a & ns & -> & Ha).
  assert (Hpush : (∀ n, c ≠ Normal n) → ns = [] → tidy (push_component (a ++ (Normal <$> ns)) c)).
  { intros Hc ->. rewrite app_nil_r. destruct c as [| | |n]; simpl;
      [exists [RootDir], []|exists (a ++ [CurDir]), []|exists (a ++ [ParentDir]), []|by destruct (Hc n)];
      rewrite ?app_nil_r; (split; [done|]); rewrite ?Forall_app; repeat split; try done; repeat constructor; done. }
  destruct c as [| | |n]; simpl.
  - exists [RootDir], []. split; [done|]. by repeat constructor.
  - by exists a, ns.
  - destruct ns as [|n ns _] using rev_ind.
    + assert (last (a ++ (Normal <$> [])) = last a) as -> by by rewrite app_nil_r.
      destruct (last a) as [c|] eqn:E; [|by apply Hpush]. destruct c as [| | |n]; try by apply Hpush.
      exfalso. apply last_Some in E as [a' ->]. rewrite Forall_app, Forall_singleton in Ha. by destruct Ha as [_ Ha]; apply (Ha n).
    + rewrite fmap_app, app_assoc. simpl. rewrite last_snoc, removelast_last. by exists a, ns.
  - exists a, (ns ++ [n]). by rewrite fmap_app, app_assoc.
Qed.

Lemma normal_prefix r ns : (Normal <$> r) `prefix_of` (Normal <$> ns) → r `prefix_of` ns.
Proof.
  revert ns. induction r as [|x r IH]; intros ns Hp; [apply prefix_nil|].
  destruct ns as [|y ns]; [by apply prefix_nil_inv in Hp|]. simpl in Hp.
  apply prefix_cons_inv_1 in Hp as Hx. apply prefix_cons_inv_2 in Hp. injection Hx as ->. by apply prefix_cons, IH.
Qed.

Lemma tidy_below r q : r ≠ [] → abs r `prefix_of` q → tidy q → ∃ ns, q = abs ns ∧ r `prefix_of` ns.
Proof.
  intros Hr Hp (a & ns & -> & Ha). destruct r as [|x r]; [done|]. destruct a as [|c a].
  - destruct ns; [by apply prefix_nil_inv in Hp|]. by apply prefix_cons_inv_1 in Hp.
  - apply prefix_cons_inv_1 in Hp as Hc. apply prefix_cons_inv_2 in Hp. subst c. destruct a as [|c a].
    + exists ns. split; [done|]. by apply (normal_prefix (x :: r)).
    + apply prefix_cons_inv_1 in Hp. inversion_clear Ha as [|? ? _ Ha']. inversion Ha' as [|? ? Hc]; subst. by destruct (Hc x).
Qed.

Lemma path_parent_abs ns n : path_parent (abs (ns ++ [n])) = Some (abs ns).
Proof.
  unfold path_parent, abs. rewrite fmap_app, app_comm_cons. simpl (Normal <$> [n]). by rewrite last_snoc, removelast_last.
Qed.

Section Facts.
Context `{Process}.
Implicit Types (fs : FileSystem) (r l : list str).

Lemma walk_cons fs create links cur c todo :
  walk fs create links cur (c :: todo) =
  match c with
  | RootDir => walk fs create links [] todo
  | CurDir => walk fs create links cur todo
  | ParentDir => walk fs create links (removelast cur) todo
  | Normal n =>
      match fs !! (cur ++ [n]) with
      | Some Dir => walk fs create links (cur ++ [n]) todo
      | Some (File _) => if bool_decide (todo = []) then Some (cur ++ [n]) else None
      | Some (Symlink t) => match links with O => None | S links => walk fs create links cur (components t ++ todo) end
      | None => if create && bool_decide (todo = []) then Some (cur ++ [n]) else None
      end
  end.
Proof. by destruct links, c. Qed.
Lemma walk_nil fs create links cur : walk fs create links cur [] = Some cur.
Proof. by destruct links. Qed.

(** ** A directory without links *)

(** The directories down to [r] are there, and nothing below is a link. *)
Record contained r fs : Prop := {
  root_dirs : ∀ ns n, (ns ++ [n]) `prefix_of` r → fs !! (ns ++ [n]) = Some Dir;
  no_links : ∀ l t, r `prefix_of` l → fs !! l ≠ Some (Symlink t) }.

(** A location on the way to [r] or below it. *)
Definition near r ns : Prop := r `prefix_of` ns ∨ ns `prefix_of` r.

Lemma near_snoc r ns n : near r (ns ++ [n]) → near r ns.
Proof.
  intros [Hp|Hp]; [|right; by eapply prefix_app_l].
  destruct (decide (r = ns ++ [n])) as [->|Hne]; [right; by apply prefix_app_r|left].
  destruct Hp as [k Hk]. destruct k as [|x k _] using rev_ind; [by rewrite app_nil_r in Hk|].
  rewrite app_assoc in Hk. apply app_inj_tail in Hk as [-> _]. by apply prefix_app_r.
Qed.

Lemma near_not_link r fs ns n t : contained r fs → near r (ns ++ [n]) → fs !! (ns ++ [n]) ≠ Some (Symlink t).
Proof.
  intros Hc [Hp|Hp]; [by apply (no_links _ _ Hc)|]. by rewrite (root_dirs _ _ Hc ns n Hp).
Qed.

(** Walking there, a name is a name. *)
Lemma walk_plain r fs create links pre ns l :
  contained r fs → near r (pre ++ ns) → walk fs create links pre (Normal <$> ns) = Some l → l = pre ++ ns.
Proof.
  intros Hc. revert pre. induction ns as [|n ns IH]; intros pre Hn.
  { simpl. rewrite walk_nil, app_nil_r. by intros [= <-]. }
  rewrite fmap_cons, walk_cons. replace (pre ++ n :: ns) with ((pre ++ [n]) ++ ns) in * by by rewrite <- app_assoc.
  assert (Hpre : near r (pre ++ [n])).
  { clear -Hn. induction ns as [|m ns IH] using rev_ind; [by rewrite app_nil_r in Hn|].
    rewrite app_assoc in Hn. apply IH. by eapply near_snoc. }
  assert (Hfin : (Normal <$> ns) = [] → (pre ++ [n]) ++ ns = pre ++ [n]).
  { intros Hb. by rewrite (fmap_nil_inv _ _ Hb), app_nil_r. }
  destruct (fs !! (pre ++ [n])) as [[c| |t]|] eqn:E.
  - case_bool_decide as Hb; [|done]. intros [= <-]. symmetry. by apply Hfin.
  - by apply IH.
  - by apply (near_not_link r) in E.
  - destruct create; [|done]. simpl. case_bool_decide as Hb; [|done]. intros [= <-]. symmetry. by apply Hfin.
Qed.

Lemma walk_abs r fs create links cur ns l :
  contained r fs → near r ns → walk fs create links cur (abs ns) = Some l → l = ns.
Proof. intros Hc Hn. unfold abs. rewrite walk_cons. by apply (walk_plain r fs create links []). Qed.

Lemma canonicalize_abs r fs ns l : contained r fs → near r ns → canonicalize fs (abs ns) = Some l → l = ns.
Proof. intros Hc Hn. unfold canonicalize. rewrite bool_decide_false by done. by apply (walk_abs r). Qed.

Lemma read_abs r fs ns s :
  contained r fs → near r ns → ns ≠ [] → read_to_string fs (abs ns) = Some s → fs !! ns = Some (File s).
Proof.
  intros Hc Hn Hne. unfold read_to_string, metadata. destruct (canonicalize fs (abs ns)) as [l|] eqn:E; [|done].
  apply (canonicalize_abs r) in E as ->; [|done..]. simpl. unfold entry_at. rewrite bool_decide_false by done.
  destruct (fs !! ns) as [[]|]; naive_solver.
Qed.

(** *** What may change *)
Definition confined r fs fs' : Prop := contained r fs' ∧ ∀ l, ¬ r `prefix_of` l → fs' !! l = fs !! l.

Lemma confined_refl r fs : contained r fs → confined r fs fs.
Proof. by split. Qed.
Lemma confined_trans r fs1 fs2 fs3 : confined r fs1 fs2 → confined r fs2 fs3 → confined r fs1 fs3.
Proof. intros [_ H1] [Hc H2]. split; [done|]. intros l Hl. by rewrite H2, H1. Qed.

Lemma strictly_below r l : r `prefix_of` l → l ≠ r → ∀ ns n, (ns ++ [n]) `prefix_of` r → ns ++ [n] ≠ l.
Proof. intros Hp Hne ns n Hr Heq. apply Hne. rewrite Heq in Hr. by apply (anti_symm prefix). Qed.

Lemma confined_insert r fs l e :
  contained r fs → r `prefix_of` l → l ≠ r → (∀ t, e ≠ Symlink t) → confined r fs (<[l := e]> fs).
Proof.
  intros Hc Hp Hne He. split; [split|].
  - intros ns n Hr. rewrite lookup_insert_ne by (apply not_eq_sym; by eapply strictly_below). by apply (root_dirs _ _ Hc).
  - intros k t Hk. rewrite lookup_insert. case_decide; [intros [= ->]; by destruct (He t)|]. by apply (no_links _ _ Hc).
  - intros k Hk. apply lookup_insert_ne. by intros ->.
Qed.

Lemma confined_delete r fs l : contained r fs → r `prefix_of` l → l ≠ r → confined r fs (delete l fs).
Proof.
  intros Hc Hp Hne. split; [split|].
  - intros ns n Hr. rewrite lookup_delete_ne by (apply not_eq_sym; by eapply strictly_below). by apply (root_dirs _ _ Hc).
  - intros k t Hk. rewrite lookup_delete. case_decide; [done|]. by apply (no_links _ _ Hc).
  - intros k Hk. apply lookup_delete_ne. by intros ->.
Qed.

(** *** Each call in such a directory *)
Lemma root_is_dir r fs ns n : contained r fs → r = ns ++ [n] → fs !! r = Some Dir.
Proof. intros Hc ->. by apply (root_dirs _ _ Hc). Qed.

Lemma write_abs r fs ns c fs' :
  contained r fs → r ≠ [] → r `prefix_of` ns → write fs (abs ns) c = Some fs' →
  ns ≠ r ∧ fs' = <[ns := File c]> fs ∧ fs !! ns ≠ Some Dir.
Proof.
  intros Hc Hr Hp. unfold write. destruct (walk _ _ _ _ _) as [l|] eqn:E; [|done].
  apply (walk_abs r) in E as ->; [|done|by left]. simpl.
  assert (Hne : ns ≠ []) by (intros ->; by apply prefix_nil_inv in Hp).
  unfold is_dir_at, entry_at. rewrite (bool_decide_false (ns = [])) by done.
  case_bool_decide as Hd; [done|]. intros [= <-]. split_and!; [|done..]. intros ->.
  destruct r as [|n r _] using rev_ind; [done|]. by rewrite (root_is_dir _ _ r n Hc) in Hd.
Qed.

Lemma parent_location_abs r fs ns n d m :
  contained r fs → near r (ns ++ [n]) → parent_location fs (abs (ns ++ [n])) = Some (d, m) → d = ns ∧ m = n.
Proof.
  intros Hc Hn. unfold parent_location, abs. rewrite fmap_app, app_comm_cons. simpl (Normal <$> [n]). rewrite last_snoc, removelast_last.
  destruct (walk _ _ _ _ _) as [l|] eqn:E; [|done]. apply (walk_abs r) in E as ->; [|done|by eapply near_snoc].
  simpl. case_match; [|done]. by intros [= <- <-].
Qed.

Lemma remove_abs r fs ns fs' :
  contained r fs → r ≠ [] → r `prefix_of` ns → remove_file fs (abs ns) = Some fs' →
  ns ≠ r ∧ fs' = delete ns fs ∧ ∃ c, fs !! ns = Some (File c).
Proof.
  intros Hc Hr Hp. destruct ns as [|n ns _] using rev_ind; [by apply prefix_nil_inv in Hp|].
  unfold remove_file. destruct (parent_location _ _) as [[d m]|] eqn:E; [|done].
  apply (parent_location_abs r) in E as [-> ->]; [|done|by left]. simpl.
  destruct (fs !! (ns ++ [n])) as [[c| |t]|] eqn:El; [| |by apply (no_links _ _ Hc) in El|done].
  - intros [= <-]. split_and!; [|done|eauto]. intros Heq. rewrite (root_dirs _ _ Hc ns n) in El; [done|by rewrite Heq].
  - done.
Qed.

Lemma create_dirs_abs r fuel fs ns fs' b :
  contained r fs → near r ns → create_dirs fuel fs (abs ns) = (fs', b) →
  confined r fs fs' ∧ (∀ l, ¬ l `prefix_of` ns → fs' !! l = fs !! l) ∧ (∀ l e, fs !! l = Some e → fs' !! l = Some e).
Proof.
  revert fs ns fs' b. induction fuel as [|fuel IH]; intros fs ns fs' b Hc Hn.
  { intros [= <- <-]. split_and!; [by apply confined_refl|done..]. }
  assert (Hmk : ∀ fs fs2, contained r fs → mkdir fs (abs ns) = Made fs2 →
    confined r fs fs2 ∧ (∀ l, ¬ l `prefix_of` ns → fs2 !! l = fs !! l) ∧ (∀ l e, fs !! l = Some e → fs2 !! l = Some e)).
  { clear -Hn. intros fs fs2 Hc. unfold mkdir. destruct ns as [|n ns _] using rev_ind; [done|].
    destruct (last (abs (ns ++ [n]))) as [[]|] eqn:El; try done.
    destruct (parent_location _ _) as [[d m]|] eqn:E; [|done]. apply (parent_location_abs r) in E as [-> ->]; [|done..].
    destruct (fs !! (ns ++ [n])) as [e|] eqn:Ee; [done|]. intros [= <-].
    assert (Hb : r `prefix_of` (ns ++ [n]) ∧ ns ++ [n] ≠ r).
    { destruct Hn as [Hp|Hp]; [|by rewrite (root_dirs _ _ Hc _ _ Hp) in Ee]. split; [done|]. intros Heq.
      rewrite (root_dirs _ _ Hc ns n) in Ee; [done|by rewrite Heq]. }
    split_and!; [by apply confined_insert; [|apply Hb..|]| |].
    - intros l Hl. apply lookup_insert_ne. intros Heq. apply Hl. by rewrite Heq.
    - intros l e Hl. rewrite lookup_insert_ne; [done|]. intros Heq. rewrite Heq in *. congruence. }
  cbn [create_dirs abs]. fold (abs ns). destruct (mkdir fs (abs ns)) as [fs2| |] eqn:Em.
  - intros [= <- <-]. by apply Hmk.
  - destruct ns as [|n ns _] using rev_ind; [done|]. rewrite path_parent_abs.
    destruct (create_dirs fuel fs (abs ns)) as [fs1 ok] eqn:Ec. apply IH in Ec as (H1 & H2 & H3); [|done|by eapply near_snoc].
    assert (H2' : ∀ l, ¬ l `prefix_of` (ns ++ [n]) → fs1 !! l = fs !! l).
    { intros l Hl. apply H2. intros Hp. apply Hl. by apply prefix_app_r. }
    destruct ok; [|by intros [= <- <-]]. destruct (mkdir fs1 _) as [fs2| |] eqn:Em2; intros [= <- <-]; [|done..].
    apply Hmk in Em2 as (H4 & H5 & H6); [|by destruct H1]. split_and!.
    + by eapply confined_trans.
    + intros l Hl. by rewrite H5, H2'.
    + auto.
  - intros [= <- <-]. split_and!; [by apply confined_refl|done..].
Qed.

(** ** Hunks *)
Section Hunks.
Context (base root : list Component) (r : list str) (Hroot : normalize_lexically root = abs r) (Hne : r ≠ []).

Lemma resolve_below fs path t :
  resolve_patch_path fs path base root = Ok t → ∃ ns, t = abs ns ∧ r `prefix_of` ns.
Proof.
  unfold resolve_patch_path. cbv zeta. rewrite Hroot. case_bool_decide as Hp; [|done]. simpl.
  intros (_ & _ & [= <-])%and_then_Ok. apply tidy_below; [done..|]. apply normalize_tidy.
Qed.

(** A file written with its directories, and what else that changes. *)
Definition written fs ns c fs' : Prop :=
  fs' !! ns = Some (File c) ∧ (∀ l, ¬ l `prefix_of` ns → fs' !! l = fs !! l) ∧
  (∀ l e, l ≠ ns → fs !! l = Some e → fs' !! l = Some e).

Lemma write_with_parents_abs fs ns c fs' res :
  contained r fs → r `prefix_of` ns → write_with_parents fs (abs ns) c = (fs', res) →
  confined r fs fs' ∧ (res = Ok tt → written fs ns c fs').
Proof.
  intros Hc Hp. unfold write_with_parents.
  destruct ns as [|n ns _] using rev_ind; [by apply prefix_nil_inv in Hp|]. rewrite path_parent_abs.
  destruct (create_dir_all fs (abs ns)) as [fs1 ok] eqn:E.
  apply (create_dirs_abs r) in E as (H1 & H2 & H3); [|done|eapply near_snoc; by left].
  destruct ok; [|by intros [= <- <-]]. destruct (write fs1 _ c) as [fs2|] eqn:Ew; intros [= <- <-]; [|done].
  apply (write_abs r) in Ew as (Hnr & -> & _); [|by destruct H1|done..]. split.
  - eapply confined_trans; [done|]. apply confined_insert; [by destruct H1|done..].
  - intros _. split_and!; [by rewrite lookup_insert_eq| |].
    + intros l Hl. rewrite lookup_insert_ne by (intros Heq; apply Hl; by rewrite Heq). apply H2.
      intros Hl2. apply Hl. by apply prefix_app_r.
    + intros l e Hl He. rewrite lookup_insert_ne by congruence. auto.
Qed.

(** What a hunk that succeeds has done. *)
Definition hunk_done (h : Hunk) fs fs' : Prop :=
  match h with
  | AddFile _ c => ∃ t, r `prefix_of` t ∧ written fs t c fs'
  | DeleteFile _ => ∃ t c, r `prefix_of` t ∧ fs !! t = Some (File c) ∧ fs' = delete t fs
  | UpdateFile _ None chunks =>
      ∃ t old new, r `prefix_of` t ∧ fs !! t = Some (File old) ∧ derive_new_contents old chunks = Some (Ok new) ∧
        fs' = <[t := File new]> fs
  | UpdateFile _ (Some _) chunks =>
      ∃ t d old new fs1, r `prefix_of` t ∧ r `prefix_of` d ∧ fs !! t = Some (File old) ∧
        derive_new_contents old chunks = Some (Ok new) ∧ written fs d new fs1 ∧ fs' = delete t fs1
  end.

Lemma derive_file_abs fs ns cs x :
  contained r fs → r `prefix_of` ns → derive_file fs (abs ns) cs = Some (Ok x) →
  ∃ old, fs !! ns = Some (File old) ∧ derive_new_contents old cs = Some (Ok x).
Proof.
  intros Hc Hp. unfold derive_file. destruct (read_to_string fs (abs ns)) as [s|] eqn:E; [|done].
  apply (read_abs r) in E; [by exists s|done|by left|]. intros ->. by apply prefix_nil_inv in Hp.
Qed.

Lemma apply_hunk_spec fs sum h fs' res :
  contained r fs → apply_hunk base root fs sum h = Some (fs', res) →
  confined r fs fs' ∧ (is_ok res = true → hunk_done h fs fs').
Proof.
  intros Hc. pose proof (confined_refl r fs Hc) as Hrefl.
  assert (Hres : ∀ p, match resolve_patch_path fs (components p) base root with
                      | Ok t => ∃ ns, t = abs ns ∧ r `prefix_of` ns | Err _ => True end).
  { intros p. destruct (resolve_patch_path _ _ _ _) as [t|] eqn:E; [|done]. by eapply resolve_below. }
  destruct h as [p c|p|p mv cs]; simpl; pose proof (Hres p) as Hp;
    (destruct (resolve_patch_path fs (components p) base root) as [t|e]; [destruct Hp as (t' & -> & Hp)|by intros [= <- <-]]).
  - destruct (write_with_parents fs (abs t') c) as [fs1 r1] eqn:Ew. apply write_with_parents_abs in Ew as [H1 H2]; [|done..].
    intros [= <- <-]. split; [done|]. destruct r1 as [[]|]; [|done]. intros _. exists t'. auto.
  - case_match; [by intros [= <- <-]|]. destruct (remove_file fs (abs t')) as [fs1|] eqn:Er; intros [= <- <-]; [|done].
    apply (remove_abs r) in Er as (Hnr & -> & c & Hcl); [|done..]. split; [by apply confined_delete|]. intros _. by exists t', c.
  - destruct (derive_file fs (abs t') cs) as [[x|e]|] eqn:Ed; [|by intros [= <- <-]|done].
    apply derive_file_abs in Ed as (old & Ho & Hd); [|done..]. destruct mv as [d|]; simpl.
    + pose proof (Hres d) as Hdp.
      destruct (resolve_patch_path fs (components d) base root) as [dt|e]; [destruct Hdp as (d' & -> & Hdp)|by intros [= <- <-]].
      destruct (write_with_parents fs (abs d') x) as [fs1 r1] eqn:Ew. apply write_with_parents_abs in Ew as [H1 H2]; [|done..].
      destruct r1 as [[]|]; [|by intros [= <- <-]].
      destruct (remove_file fs1 (abs t')) as [fs2|] eqn:Er; intros [= <- <-]; [|done].
      apply (remove_abs r) in Er as (Hnr & -> & c & Hcl); [|by destruct H1|done..].
      split; [eapply confined_trans; [done|]; apply confined_delete; [by destruct H1|done..]|].
      intros _. exists t', d', old, x, fs1. split_and!; [done..|by apply H2|done].
    + destruct (write fs (abs t') x) as [fs1|] eqn:Ew; intros [= <- <-]; [|done].
      apply (write_abs r) in Ew as (Hnr & -> & _); [|done..]. split; [by apply confined_insert|]. intros _. by exists t', old, x.
Qed.

Lemma apply_all_confined fs sum hs fs' res :
  contained r fs → apply_all base root fs sum hs = Some (fs', res) → confined r fs fs'.
Proof.
  revert fs sum. induction hs as [|h hs IH]; intros fs sum Hc; simpl; [intros [= <- <-]; by apply confined_refl|].
  destruct (apply_hunk base root fs sum h) as [[fs1 r1]|] eqn:E; [|done]. apply apply_hunk_spec in E as [H1 _]; [|done]. simpl.
  destruct r1 as [sum1|e]; [|by intros [= <- <-]]. intros H2. eapply confined_trans; [done|]. eapply IH; [|done]. by destruct H1.
Qed.
End Hunks.

(** C10: Applying a parsed patch in a working directory without links below it
    changes nothing outside the directory, however its paths are written, and
    whether or not it ends in an error. *)
Theorem patch_confined args cwd r fs fs' res :
  normalize_lexically cwd = abs r → r ≠ [] → contained r fs →
  apply_parsed_patch args cwd fs = Some (fs', res) →
  ∀ l, ¬ r `prefix_of` l → fs' !! l = fs !! l.
Proof.
  intros Hr Hne Hc. unfold apply_parsed_patch, apply_patch_to_fs_bounded, apply_hunks.
  destruct (and_then _ _) as [eff|e]; [|by intros [= <- <-]].
  destruct (parse_patch (args_patch args)) as [a|e]; [|by intros [= <- <-]].
  destruct (args_hunks a) as [|h hs]; [by intros [= <- <-]|]. intros Ha. by eapply (apply_all_confined _ _ _ Hr Hne) in Ha as [_ ?].
Qed.

(** A hunk that succeeds has done what it says to the file it names: added
    with the contents given, deleted, rewritten with its chunks applied, or
    written at the new place and removed from the old; no other entry is lost. *)
Theorem hunk_effect base root r fs sum h fs' sum' :
  normalize_lexically root = abs r → r ≠ [] → contained r fs →
  apply_hunk base root fs sum h = Some (fs', Ok sum') → hunk_done r h fs fs'.
Proof. intros Hr Hne Hc Ha. by eapply (apply_hunk_spec _ _ _ Hr Hne) in Ha as [_ Ha]; [apply Ha|]. Qed.

(** A file moved onto its own path is lost: the new contents are written and
    then removed. *)
Theorem move_onto_itself_deletes base root r fs sum path dest chunks fs' sum' t :
  normalize_lexically root = abs r → r ≠ [] → contained r fs →
  resolve_patch_path fs (components path) base root = Ok (abs t) →
  resolve_patch_path fs (components dest) base root = Ok (abs t) →
  apply_hunk base root fs sum (UpdateFile path (Some dest) chunks) = Some (fs', Ok sum') → fs' !! t = None.
Proof.
  intros Hr Hne Hc Hp Hd. simpl. rewrite Hp, Hd.
  destruct (derive_file fs (abs t) chunks) as [[x|]|]; [|done..]. simpl.
  pose proof (resolve_below _ _ _ Hr Hne _ _ _ Hp) as (t' & Ht%(inj abs) & Hpre). subst t'.
  destruct (write_with_parents fs (abs t) x) as [fs1 r1] eqn:Ew. eapply write_with_parents_abs in Ew as [[Hc1 _] _]; [|done..].
  destruct r1 as [[]|]; [|done]. destruct (remove_file fs1 (abs t)) as [fs2|] eqn:Er; intros [= <- <-].
  apply (remove_abs r) in Er as (_ & -> & _); [|done..]. apply lookup_delete_eq.
Qed.

Lemma probe_unfold fs rc rev :
  probe_ancestors fs rc rev =
  match canonicalize fs (reverse rev) with
  | Some canon => if bool_decide (rc `prefix_of` canon) then Ok tt else Err OutsideWorkingDirectory
  | None => match rev with [] | RootDir :: _ => Ok tt | _ :: rev => probe_ancestors fs rc rev end
  end.
Proof. by destruct rev. Qed.

(** Whatever links there are, a path that leads to a file or directory is
    only accepted when it leads below the working directory. *)
Theorem existing_target_confined fs path base root t loc root_loc :
  resolve_patch_path fs path base root = Ok t → canonicalize fs t = Some loc →
  canonicalize fs (normalize_lexically root) = Some root_loc → root_loc `prefix_of` loc.
Proof.
  unfold resolve_patch_path, reject_symlink_escape. cbv zeta. case_bool_decide; [|done]. simpl.
  set (target := normalize_lexically _). intros ([] & Hr & [= <-])%and_then_Ok Hl Hroot. rewrite Hroot in Hr.
  rewrite probe_unfold, reverse_involutive, Hl in Hr. by case_bool_decide.
Qed.
End Facts.

(** ** Concrete trees *)
Section Examples.
Let example_process : Process := {| working_directory := []; max_links := 40 |}.
#[local] Existing Instance example_process.

Definition files_with (es : list (list str * Entry)) : gmap (list str) Entry := list_to_map es.
Definition example_files : gmap (list str) Entry :=
  files_with [([lit "w"], Dir); ([lit "w"; lit "a"], File (unlines [lit "x"; lit "y"])); ([lit "b"], File (lit "z"))].
Definition w_dir : list str := [lit "w"].
Definition update_a : str :=
  unlines [lit "*** Begin Patch"; lit "*** Update File: a"; lit "@@"; lit "-x"; lit "+q"; lit "*** Add File: n/m"; lit "+k"; lit "*** End Patch"].
Definition cwd_w : list Component := abs w_dir.

Lemma example_contained : contained w_dir example_files.
Proof.
  split.
  - intros ns n [k Hk]. destruct ns as [|m ns]; [|by destruct ns]. injection Hk as <- _. by vm_compute.
  - intros l t _. unfold example_files, files_with. rewrite <- elem_of_list_to_map by (by vm_compute; repeat constructor; set_solver).
    intros Hin. repeat (apply elem_of_cons in Hin as [Hin|Hin]; [done|]). by apply elem_of_nil in Hin.
Qed.

Definition parsed (p : str) : ApplyPatchArgs :=
  match parse_patch p with Ok a => a | Err _ => mk_args [] [] None None end.
Definition after {E} (r : option (gmap (list str) Entry * E)) : gmap (list str) Entry := default ∅ (fst <$> r).

Lemma patch_confined_witness :
  after (apply_parsed_patch (parsed update_a) cwd_w example_files) !! [lit "w"; lit "a"] = Some (File (unlines [lit "q"; lit "y"])) ∧
  after (apply_parsed_patch (parsed update_a) cwd_w example_files) !! [lit "w"; lit "n"; lit "m"] = Some (File (unlines [lit "k"])) ∧
  after (apply_parsed_patch (parsed update_a) cwd_w example_files) !! [lit "b"] = example_files !! [lit "b"].
Proof.
  split_and!; [by vm_compute..|].
  apply (patch_confined (parsed update_a) cwd_w w_dir example_files _ (Ok (mk_summary [abs [lit "w"; lit "n"; lit "m"]] [abs [lit "w"; lit "a"]] [])));
    [vm_eq|done|apply example_contained|vm_eq|].
  by apply (bool_decide_unpack _).
Defined.

Lemma hunk_effect_witness :
  hunk_done w_dir (DeleteFile (lit "a")) example_files (delete [lit "w"; lit "a"] example_files).
Proof.
  apply (hunk_effect cwd_w cwd_w w_dir example_files (mk_summary [] [] []) (DeleteFile (lit "a")) _ (mk_summary [] [] [abs [lit "w"; lit "a"]]));
    [vm_eq|done|apply example_contained|vm_eq].
Defined.

Definition move_onto_a : Hunk := UpdateFile (lit "a") (Some (lit "./a")) [mk_chunk None [lit "x"] [lit "q"] false].
Lemma move_onto_itself_deletes_witness :
  after (apply_hunk cwd_w cwd_w example_files (mk_summary [] [] []) move_onto_a) !! [lit "w"; lit "a"] = None.
Proof.
  apply (move_onto_itself_deletes cwd_w cwd_w w_dir example_files (mk_summary [] [] []) (lit "a") (lit "./a")
    [mk_chunk None [lit "x"] [lit "q"] false] _ (mk_summary [] [abs [lit "w"; lit "a"]] []));
    [vm_eq|done|apply example_contained|vm_eq..].
Defined.

(** A link that leads out of the directory to a file that is there. *)
Definition linked_files : gmap (list str) Entry :=
  files_with [([lit "w"], Dir); ([lit "w"; lit "a"], Symlink (lit "d/f")); ([lit "w"; lit "d"], Dir);
              ([lit "w"; lit "d"; lit "f"], File []); ([lit "w"; lit "l"], Symlink (lit "../b")); ([lit "b"], File (lit "z"))].

Lemma existing_target_confined_witness :
  resolve_patch_path linked_files (components (lit "l")) cwd_w cwd_w = Err OutsideWorkingDirectory ∧
  w_dir `prefix_of` [lit "w"; lit "d"; lit "f"].
Proof.
  split; [by vm_compute|].
  apply (existing_target_confined linked_files (components (lit "a")) cwd_w cwd_w (abs [lit "w"; lit "a"])); by vm_compute.
Defined.

(** A link below the working directory whose target is missing leads out of
    it: the check looks at the nearest path that exists, and the file is then
    made where the link points. *)
Theorem dangling_link_escapes :
  let fs := files_with [([lit "w"], Dir); ([lit "w"; lit "l"], Symlink (lit "../out"))] in
  let args := parsed (unlines [lit "*** Begin Patch"; lit "*** Add File: l"; lit "+k"; lit "*** End Patch"]) in
  ∃ fs' sum, apply_parsed_patch args cwd_w fs = Some (fs', Ok sum) ∧
    fs !! [lit "out"] = None ∧ fs' !! [lit "out"] = Some (File (unlines [lit "k"])).
Proof.
  intros fs args. exists (after (apply_parsed_patch args cwd_w fs)), (mk_summary [abs [lit "w"; lit "l"]] [] []). split_and!; vm_eq.
Qed.
End Examples.
