(* ===== verification/Tools.v ===== *)
(** * The file tools

    [crates/pulsing-forge/src/handlers]: reading, writing, editing and searching
    files ([read.rs], [write.rs], [edit.rs], [grep.rs]). Every call takes the
    files and gives them back. The texts of errors are left out, and the result a
    search gives is kept as the list of its hits. *)
From S2P Require Import Prelude Text Bytes Files Patch Edit Apply Output Json.

(** ** Arguments and results *)

(** Why a tool refused; a [ToolError] and a result marked as an error both reach
    the model as one. *)
Inductive Fault :=
  | MissingField (key : str)
  | OutsideCwd
  | InvalidCwd
  | CreateParentFailed
  | WriteFailed
  | ReadFailed
  | FileMissing
  | NotAFile
  | IsDirectory
  | TooLarge
  | NotUtf8
  | OldStringNotFound
  | OldStringNotUnique (count : Z)
  | PatternTooLong
  | InvalidRegex.

(** src: crates/pulsing-forge/src/handlers/mod.rs 384-388 json_str *)
Definition json_str (v : Value) (key : str) : Result str Fault :=
  match get_str key v with Some s => Ok s | None => Err (MissingField key) end.

(** [str::matches(p).count()]: matches that do not overlap, from the left; the
    empty pattern matches before each character and at the end. [skip] is what is
    left of the last match. *)
Fixpoint occurrences (p s : str) (skip : nat) : Z :=
  match s with
  | [] => 0
  | _ :: s' =>
      match skip with
      | S k => occurrences p s' k
      | O => if starts_with p s then 1 + occurrences p s' (length p - 1) else occurrences p s' 0
      end
  end.
Definition count_matches (p s : str) : Z := if bool_decide (p = []) then size_of s + 1 else occurrences p s 0.
(** [str::replacen(p, q, 1)]. *)
Fixpoint replace_first (p q s : str) : str :=
  if starts_with p s then q ++ drop (length p) s
  else match s with [] => [] | c :: s => c :: replace_first p q s end.

Section Tools.
Context `{Process}.

(** [fs::rename] of a file or a link, which is not followed: what has the name is
    replaced unless it is a directory. *)
Definition rename (fs : FileSystem) (from to : Path) : option FileSystem :=
  '(d, n) ← parent_location fs from; '(d', n') ← parent_location fs to;
  match fs !! (d ++ [n]), fs !! (d' ++ [n']) with
  | None, _ | Some Dir, _ | _, Some Dir => None
  | Some e, _ => Some (<[d' ++ [n'] := e]> (delete (d ++ [n]) fs))
  end.

(** ** Paths *)

(** The function of [handlers/write.rs] is the patch engine's, written again.
    src: crates/pulsing-forge/src/handlers/write.rs 119-137 normalize_lexically *)
Definition tool_normalize (p : Path) : Path := normalize_lexically p.
(** src: crates/pulsing-forge/src/handlers/write.rs 77-96 reject_symlink_escape (loop) *)
Fixpoint probe (fs : FileSystem) (cwd_canon : Loc) (rev : Path) : Result unit Fault :=
  match canonicalize fs (reverse rev) with
  | Some canon => if bool_decide (cwd_canon `prefix_of` canon) then Ok tt else Err OutsideCwd
  | None => match rev with [] | [_] | RootDir :: _ => Ok tt | _ :: rev => probe fs cwd_canon rev end
  end.
(** src: crates/pulsing-forge/src/handlers/write.rs 69-97 reject_symlink_escape *)
Definition tool_reject_symlink_escape (fs : FileSystem) (cwd target : Path) : Result unit Fault :=
  match canonicalize fs cwd with
  | None => Err InvalidCwd
  | Some cwd_canon => probe fs cwd_canon (reverse target)
  end.
(** src: crates/pulsing-forge/src/handlers/write.rs 46-67 resolve_within_cwd *)
Definition resolve_within_cwd (fs : FileSystem) (cwd : Path) (path : str) : Result Path Fault :=
  let joined := if is_absolute (components path) then components path else path_join cwd (components path) in
  let target := tool_normalize joined in
  let root := tool_normalize cwd in
  if negb (bool_decide (root `prefix_of` target)) then Err OutsideCwd
  else let? _ := tool_reject_symlink_escape fs cwd target in Ok target.
(** src: crates/pulsing-forge/src/handlers/write.rs 99-117 assert_canonical_within_cwd *)
Definition assert_canonical_within_cwd (fs : FileSystem) (cwd target : Path) : Result unit Fault :=
  match canonicalize fs cwd, canonicalize fs target with
  | None, _ => Err InvalidCwd
  | _, None => Err ReadFailed
  | Some root, Some canon => if bool_decide (root `prefix_of` canon) then Ok tt else Err OutsideCwd
  end.
(** src: crates/pulsing-forge/src/handlers/read.rs 32-39 resolve_path *)
Definition resolve_path (cwd : Path) (path : str) : Path :=
  if is_absolute (components path) then components path else path_join cwd (components path).

(** ** Write *)

(** [parent.join(name)] of a temporary file's name. *)
Definition tmp_in (dir : Path) (name : str) : Path := path_join dir [Normal name].
(** [unique] is the fresh identifier in the name of the temporary file.
    src: crates/pulsing-forge/src/handlers/write.rs 150-150 atomic_write (tmp_path) *)
Definition write_tmp_name (file_name unique : str) : str := lit "." ++ file_name ++ lit "." ++ unique ++ lit ".tmp".
(** src: crates/pulsing-forge/src/handlers/write.rs 142-145 atomic_write (parent) *)
Definition parent_or_here (target : Path) : Path :=
  match path_parent target with Some p => if bool_decide (p = []) then [CurDir] else p | None => [CurDir] end.
(** A file that could not be put in place is removed again.
    src: crates/pulsing-forge/src/handlers/write.rs 139-160 atomic_write *)
Definition atomic_write (fs : FileSystem) (target : Path) (content unique : str) : FileSystem * bool :=
  let parent := parent_or_here target in
  match last target with
  | Some (Normal file_name) =>
      let tmp_path := tmp_in parent (write_tmp_name file_name unique) in
      match write fs tmp_path content with
      | None => (default fs (remove_file fs tmp_path), false)
      | Some fs =>
          match rename fs tmp_path target with
          | Some fs => (fs, true)
          | None => (default fs (remove_file fs tmp_path), false)
          end
      end
  | _ => (fs, false)
  end.

Inductive Written := Overwritten | Created.
(** src: crates/pulsing-forge/src/handlers/write.rs 27-44 write_impl *)
Definition write_impl (fs : FileSystem) (cwd : Path) (args : Value) (unique : str) : FileSystem * Result Written Fault :=
  match (let? path := json_str args (lit "file_path") in
         let? content := json_str args (lit "content") in
         let? target := resolve_within_cwd fs cwd path in Ok (content, target)) with
  | Err e => (fs, Err e)
  | Ok (content, target) =>
      let existed := exists_path fs target in
      let '(fs, made) := match path_parent target with Some parent => create_dir_all fs parent | None => (fs, true) end in
      if negb made then (fs, Err CreateParentFailed)
      else match atomic_write fs target content unique with
      | (fs, true) => (fs, Ok (if existed then Overwritten else Created))
      | (fs, false) => (fs, Err WriteFailed)
      end
  end.

(** ** Edit *)

(** The process's identifier and a counter name the temporary file.
    src: crates/pulsing-forge/src/handlers/edit.rs 71-73 write_atomic (tmp_path) *)
Definition edit_tmp_name (file_name : str) (pid unique : Z) : str :=
  lit "." ++ file_name ++ lit "." ++ display_u128 pid ++ lit "." ++ display_u128 unique ++ lit ".tmp".
(** A rename that fails leaves the temporary file; permissions are left out.
    src: crates/pulsing-forge/src/handlers/edit.rs 63-88 write_atomic *)
Definition write_atomic (fs : FileSystem) (path : Path) (contents : str) (pid unique : Z) : FileSystem * bool :=
  let dir := default [CurDir] (path_parent path) in
  let file_name := match last path with Some (Normal n) => n | _ => lit "edit" end in
  let tmp_path := tmp_in dir (edit_tmp_name file_name pid unique) in
  match write fs tmp_path contents with
  | None => (default fs (remove_file fs tmp_path), false)
  | Some fs => match rename fs tmp_path path with Some fs => (fs, true) | None => (fs, false) end
  end.

(** src: crates/pulsing-forge/src/handlers/edit.rs 46-57 edit_impl (replacement) *)
Definition replace_unique (text old new : str) : Result str Fault :=
  let count := count_matches old text in
  if count =? 0 then Err OldStringNotFound
  else if 1 <? count then Err (OldStringNotUnique count)
  else Ok (replace_first old new text).
(** src: crates/pulsing-forge/src/handlers/edit.rs 30-61 edit_impl *)
Definition edit_impl (fs : FileSystem) (cwd : Path) (args : Value) (pid unique : Z) : FileSystem * Result unit Fault :=
  match (let? path := json_str args (lit "file_path") in
         let? abs := resolve_within_cwd fs cwd path in
         let? old := json_str args (lit "old_string") in
         let? new := json_str args (lit "new_string") in
         if negb (exists_path fs abs) then Err FileMissing
         else if negb (is_file fs abs) then Err NotAFile
         else
           let? _ := assert_canonical_within_cwd fs cwd abs in
           match read_to_string fs abs with
           | None => Err ReadFailed
           | Some text => let? updated := replace_unique text old new in Ok (abs, updated)
           end) with
  | Err e => (fs, Err e)
  | Ok (abs, updated) =>
      match write_atomic fs abs updated pid unique with (fs, true) => (fs, Ok tt) | (fs, false) => (fs, Err WriteFailed) end
  end.

(** ** Read *)

(** src: crates/pulsing-forge/src/handlers/read.rs 13-13 READ_CAP *)
Definition READ_CAP : Z := 2 * 1024 * 1024.

(** src: crates/pulsing-forge/src/handlers/read.rs 81-100 read_range (loop) *)
Fixpoint read_lines (lines : list str) (lineno start_line : Z) (end_line : option Z) (out : str) : Result str Fault :=
  match lines with
  | [] => Ok out
  | line :: lines =>
      if lineno <? start_line then read_lines lines (lineno + 1) start_line end_line out
      else if from_option (λ e, e <=? lineno) false end_line then Ok out
      else
        let out := out ++ line ++ [newline] in
        if READ_CAP <? utf8_len out then Err TooLarge else read_lines lines (lineno + 1) start_line end_line out
  end.
(** src: crates/pulsing-forge/src/handlers/read.rs 71-102 read_range *)
Definition read_range (fs : FileSystem) (path : Path) (start_line : Z) (limit : option Z) : Result str Fault :=
  match read_to_string fs path with
  | None => Err ReadFailed
  | Some text =>
      let end_line := (λ n, Z.min (two64 - 1) (start_line + n)) <$> limit in
      read_lines (lines text) 1 start_line end_line []
  end.
(** Files hold text, so what is read is the text's bytes.
    src: crates/pulsing-forge/src/handlers/read.rs 41-69 read_impl *)
Definition read_impl (fs : FileSystem) (cwd : Path) (args : Value) : Result str Fault :=
  let? path := json_str args (lit "file_path") in
  let abs := resolve_path cwd path in
  let offset := get (lit "offset") args ≫= as_u64 in
  let limit := get (lit "limit") args ≫= as_u64 in
  if is_dir fs abs then Err IsDirectory
  else if bool_decide (is_Some offset) || bool_decide (is_Some limit) then
    read_range fs abs (Z.max 1 (default 1 offset)) limit
  else match as_bytes <$> read_to_string fs abs with
  | None => Err ReadFailed
  | Some data =>
      if READ_CAP <? size_of data then Err TooLarge
      else match from_utf8 data with Some text => Ok text | None => Err NotUtf8 end
  end.

(** ** Grep *)

(** src: crates/pulsing-forge/src/handlers/grep.rs 11-11 GREP_MAX *)
Definition GREP_MAX : nat := 200.
(** src: crates/pulsing-forge/src/handlers/grep.rs 12-12 GREP_PATTERN_MAX *)
Definition GREP_PATTERN_MAX : Z := 1000.

(** A hit's file, line number and line, and the hits with their total. *)
Record Hit := mk_hit { hit_path : Path; hit_line : Z; hit_text : str }.
Record Hits := mk_hits { hits : list Hit; total : Z }.

(** [&line[..line.len().min(500)]]; [None] is the panic of a cut character.
    src: crates/pulsing-forge/src/handlers/grep.rs 154-154 consider_file (line) *)
Definition shorten (line : str) : option str :=
  let n := Z.min (utf8_len line) 500 in
  rest ← drop_bytes n line; Some (take (length line - length rest) line).

(** src: crates/pulsing-forge/src/handlers/grep.rs 146-158 consider_file (loop) *)
Fixpoint grep_lines (is_match : str → bool) (fp : Path) (i : Z) (lines : list str) (h : Hits) : option Hits :=
  match lines with
  | [] => Some h
  | line :: lines =>
      if is_match line then
        if bool_decide (length (hits h) < GREP_MAX)%nat then
          text ← shorten line;
          grep_lines is_match fp (i + 1) lines (mk_hits (hits h ++ [mk_hit fp (i + 1) text]) (total h + 1))
        else grep_lines is_match fp (i + 1) lines (mk_hits (hits h) (total h + 1))
      else grep_lines is_match fp (i + 1) lines h
  end.

(** [Path::file_name]. *)
Definition file_name (p : Path) : option str := match last p with Some (Normal n) => Some n | _ => None end.
(** [is_match] is the compiled pattern and [glob_match] the pattern on names.
    src: crates/pulsing-forge/src/handlers/grep.rs 121-159 consider_file *)
Definition consider_file (fs : FileSystem) (is_match : str → bool) (glob_match : option (str → bool)) (boundary : option Loc)
    (fp : Path) (h : Hits) : option Hits :=
  let inside := match boundary with
    | Some b => from_option (λ canon, bool_decide (b `prefix_of` canon)) false (canonicalize fs fp)
    | None => true
    end in
  let named := match glob_match with Some g => g (default [] (file_name fp)) | None => true end in
  if negb inside then Some h
  else if negb named then Some h
  else match read_to_string fs fp with
  | None => Some h
  | Some text => grep_lines is_match fp 0 (lines text) h
  end.

(** src: crates/pulsing-forge/src/handlers/grep.rs 42-46 search_boundary *)
Definition search_boundary (fs : FileSystem) (cwd root : Path) : option Loc :=
  cwd_canon ← canonicalize fs cwd; root_canon ← canonicalize fs root;
  if bool_decide (cwd_canon `prefix_of` root_canon) then Some cwd_canon else None.

(** The names in a directory. *)
Definition names_in (fs : FileSystem) (l : Loc) : list str :=
  omap (λ k, match last k with Some n => if bool_decide (k = l ++ [n]) then Some n else None | None => None end) (map_to_list fs).*1.
(** [fs::read_dir], in the order the system has. *)
Definition read_dir `{Oracle} (fs : FileSystem) (dir : Path) : option (list Path) :=
  l ← canonicalize fs dir;
  if is_dir_at fs l then Some ((λ n, dir ++ [Normal n]) <$> shuffle (names_in fs l)) else None.

(** The walk below a directory; the fuel bounds how deep it goes.
    src: crates/pulsing-forge/src/handlers/grep.rs 100-119 walk *)
Fixpoint walk_dir `{Oracle} (fuel : nat) (fs : FileSystem) (is_match : str → bool) (glob_match : option (str → bool)) (boundary : option Loc)
    (dir : Path) (h : Hits) : option Hits :=
  match fuel with
  | O => None
  | S fuel =>
      match read_dir fs dir with
      | None => Some h
      | Some ents =>
          foldl (λ h path, h ← h;
            if is_dir fs path then walk_dir fuel fs is_match glob_match boundary path h
            else if is_file fs path then consider_file fs is_match glob_match boundary path h
            else Some h) (Some h) ents
      end
  end.

(** The engine of regular expressions and the patterns of file names are those of
    the [regex] and [glob] crates; a pattern of names that is none matches nothing.
    src: crates/pulsing-forge/src/handlers/grep.rs 48-98 grep_impl *)
Definition grep_impl `{Oracle} (regex : str → option (str → bool)) (glob : str → str → bool) (fuel : nat)
    (fs : FileSystem) (cwd : Path) (args : Value) : option (Result Hits Fault) :=
  match json_str args (lit "pattern") with
  | Err e => Some (Err e)
  | Ok raw_pat =>
      if GREP_PATTERN_MAX <? utf8_len raw_pat then Some (Err PatternTooLong)
      else
        let root := from_option (resolve_path cwd) cwd (get_str (lit "path") args) in
        let glob_pat := glob <$> get_str (lit "glob") args in
        match regex raw_pat with
        | None => Some (Err InvalidRegex)
        | Some cre =>
            if negb (exists_path fs root) then Some (Err FileMissing)
            else
              let boundary := search_boundary fs cwd root in
              Ok <$> (if is_file fs root then consider_file fs cre glob_pat boundary root (mk_hits [] 0)
                      else walk_dir fuel fs cre glob_pat boundary root (mk_hits [] 0))
        end
  end.
End Tools.
