(* ===== verification/ToolsFacts.v ===== *)
(** * Properties of the file tools

    Where links may lie below the working directory, writing and editing still
    change nothing outside it; what is written can be read; and an edit replaces
    the one occurrence of a text. *)
From S2P Require Import Prelude Text Bytes Files Edit Apply ApplyFacts Output Json Tools.

Section Walks.
Context `{Process}.
Implicit Types (fs : FileSystem) (r l d ns : list str).

(** A walk that also counts the links it may still follow. *)
Fixpoint walkk fs (links : nat) : list str → list Component → option (list str * nat) :=
  fix go cur todo :=
    match todo with
    | [] => Some (cur, links)
    | RootDir :: todo => go [] todo
    | CurDir :: todo => go cur todo
    | ParentDir :: todo => go (removelast cur) todo
    | Normal n :: todo =>
        match fs !! (cur ++ [n]) with
        | Some Dir => go (cur ++ [n]) todo
        | Some (File _) => if bool_decide (todo = []) then Some (cur ++ [n], links) else None
        | Some (Symlink t) => match links with O => None | S links => walkk fs links cur (components t ++ todo) end
        | None => None
        end
    end.
Lemma walkk_cons fs links cur c todo : walkk fs links cur (c :: todo) =
  match c with
  | RootDir => walkk fs links [] todo
  | CurDir => walkk fs links cur todo
  | ParentDir => walkk fs links (removelast cur) todo
  | Normal n =>
      match fs !! (cur ++ [n]) with
      | Some Dir => walkk fs links (cur ++ [n]) todo
      | Some (File _) => if bool_decide (todo = []) then Some (cur ++ [n], links) else None
      | Some (Symlink t) => match links with O => None | S links => walkk fs links cur (components t ++ todo) end
      | None => None
      end
  end.
Proof. by destruct links, c. Qed.
Lemma walkk_nil fs links cur : walkk fs links cur [] = Some (cur, links).
Proof. by destruct links. Qed.

(** Induction as a walk goes: along the path, and a link costs one. *)
Lemma walk_ind (P : nat → list str → list Component → Prop) :
  (∀ k cur, P k cur []) →
  (∀ k cur c todo, (∀ cur', P k cur' todo) → (∀ k' cur' todo', (k' < k)%nat → P k' cur' todo') → P k cur (c :: todo)) →
  ∀ k cur todo, P k cur todo.
Proof.
  intros Hnil Hcons k. induction (lt_wf k) as [k _ IH]. intros cur todo. revert cur.
  induction todo as [|c todo IHt]; intros cur; [apply Hnil|]. apply Hcons; auto.
Qed.

Lemma walk_walkk fs k cur todo : walk fs false k cur todo = fst <$> walkk fs k cur todo.
Proof.
  revert k cur todo. apply (walk_ind (λ k cur todo, walk fs false k cur todo = fst <$> walkk fs k cur todo)).
  - intros k cur. by rewrite walk_nil, walkk_nil.
  - intros k cur c todo IHt IHk. rewrite walk_cons, walkk_cons. destruct c as [| | |n]; auto.
    destruct (fs !! (cur ++ [n])) as [[s| |t]|]; [by case_match|auto| |done]. destruct k; [done|]. apply IHk. lia.
Qed.

(** Every entry lies in a directory. *)
Definition is_tree fs : Prop := ∀ l n e, fs !! (l ++ [n]) = Some e → l = [] ∨ fs !! l = Some Dir.

Lemma tree_below_file fs l n s : is_tree fs → l ≠ [] → fs !! l = Some (File s) → fs !! (l ++ [n]) = None.
Proof. intros Ht Hl Hf. destruct (fs !! (l ++ [n])) eqn:E; [|done]. apply Ht in E as [?|?]; [done|congruence]. Qed.

(** A path is followed up to its last name, and then that name. *)
Lemma walkk_snoc fs n k cur todo : is_tree fs →
  walkk fs k cur (todo ++ [Normal n]) = '(l, k') ← walkk fs k cur todo; walkk fs k' l [Normal n].
Proof.
  intros Ht. revert k cur todo. apply (walk_ind (λ k cur todo, walkk fs k cur (todo ++ [Normal n]) = '(l, k') ← walkk fs k cur todo; walkk fs k' l [Normal n])).
  - intros k cur. by rewrite walkk_nil.
  - intros k cur c todo IHt IHk. change ((c :: todo) ++ [Normal n]) with (c :: (todo ++ [Normal n])). rewrite (walkk_cons fs k cur c (todo ++ _)), (walkk_cons fs k cur c todo).
    destruct c as [| | |m]; auto. destruct (fs !! (cur ++ [m])) as [[s| |t]|] eqn:E; [|auto| |done].
    + rewrite (bool_decide_false (todo ++ _ = [])) by (by intros [_ ?]%app_eq_nil). case_bool_decide; [|done]. subst. cbn [mbind option_bind].
      rewrite walkk_cons. rewrite (tree_below_file fs (cur ++ [m]) n s); [done|done|by intros [_ ?]%app_eq_nil|done].
    + destruct k; [done|]. rewrite app_assoc. apply IHk. lia.
Qed.
Lemma walk_create_snoc fs n k cur todo l k' : walkk fs k cur todo = Some (l, k') → is_dir_at fs l = true →
  walk fs true k cur (todo ++ [Normal n]) = walk fs true k' l [Normal n].
Proof.
  intros Hw Hd. revert k cur todo Hw. apply (walk_ind (λ k cur todo, walkk fs k cur todo = Some (l, k') → walk fs true k cur (todo ++ [Normal n]) = walk fs true k' l [Normal n])).
  - intros k cur. rewrite walkk_nil. by intros [= -> ->].
  - intros k cur c todo IHt IHk. change ((c :: todo) ++ [Normal n]) with (c :: (todo ++ [Normal n])). rewrite (walk_cons fs true k cur c (todo ++ _)), (walkk_cons fs k cur c todo).
    destruct c as [| | |m]; auto. destruct (fs !! (cur ++ [m])) as [[s| |t]|] eqn:E; [|auto| |done].
    + case_bool_decide; [|done]. intros [= <- <-]. exfalso. revert Hd. unfold is_dir_at, entry_at. rewrite (bool_decide_false (cur ++ [m] = [])), E; [done|].
      by intros [_ ?]%app_eq_nil.
    + destruct k; [done|]. rewrite app_assoc. apply IHk. lia.
Qed.

(** ** Paths from the root *)
Definition ck fs ns : option (list str * nat) := walkk fs max_links [] (Normal <$> ns).
Lemma canon_ck fs ns : canonicalize fs (abs ns) = fst <$> ck fs ns.
Proof. unfold canonicalize, ck. rewrite bool_decide_false by done. unfold abs. by rewrite walk_walkk, walkk_cons. Qed.
Lemma ck_nil fs : ck fs [] = Some ([], max_links).
Proof. apply walkk_nil. Qed.

Lemma app_neq_snoc {A} (l : list A) x : l ++ [x] ≠ l.
Proof. intros Hx%(f_equal length). rewrite length_app in Hx. simpl in Hx. lia. Qed.

Lemma prefix_by_len {A} (a b z : list A) : a `prefix_of` z → b `prefix_of` z → (length a <= length b)%nat → a `prefix_of` b.
Proof. intros Ha Hb Hl. destruct (prefix_weak_total a b z Ha Hb) as [?|Hp]; [done|]. by rewrite (prefix_length_eq _ _ Hp Hl). Qed.

(** One name further. *)
Definition one fs (k : nat) l n : option (list str * nat) :=
  match fs !! (l ++ [n]) with
  | Some Dir | Some (File _) => Some (l ++ [n], k)
  | Some (Symlink t) => match k with O => None | S k => walkk fs k l (components t) end
  | None => None
  end.
Lemma walkk_one fs k l n : walkk fs k l [Normal n] = one fs k l n.
Proof.
  unfold one. rewrite walkk_cons. destruct (fs !! (l ++ [n])) as [[s| |t]|]; [done|by rewrite walkk_nil| |done]. destruct k; [done|]. by rewrite app_nil_r.
Qed.
Lemma ck_snoc fs ns n : is_tree fs → ck fs (ns ++ [n]) = '(l, k) ← ck fs ns; one fs k l n.
Proof.
  intros Ht. unfold ck. rewrite fmap_app. simpl (Normal <$> [n]). rewrite walkk_snoc by done.
  destruct (walkk _ _ _ _) as [[l k]|]; [|done]. simpl. apply walkk_one.
Qed.
Lemma ck_prefix fs ns ms x : is_tree fs → ck fs (ns ++ ms) = Some x → is_Some (ck fs ns).
Proof.
  intros Ht. revert x. induction ms as [|m ms IH] using rev_ind; intros x; [rewrite app_nil_r; by eexists|].
  rewrite app_assoc, ck_snoc by done. destruct (ck fs (ns ++ ms)) as [y|]; [|done]. intros _. by eapply IH.
Qed.

(** Walks that succeed still do when an entry is added. *)
Lemma walkk_add fs k cur todo x loc e : fs !! loc = None → walkk fs k cur todo = Some x → walkk (<[loc := e]> fs) k cur todo = Some x.
Proof.
  intros Hl. revert k cur todo x. apply (walk_ind (λ k cur todo, ∀ x, walkk fs k cur todo = Some x → walkk (<[loc := e]> fs) k cur todo = Some x)).
  - intros k cur x. by rewrite !walkk_nil.
  - intros k cur c todo IHt IHk x. rewrite !walkk_cons. destruct c as [| | |n]; auto.
    destruct (fs !! (cur ++ [n])) as [e'|] eqn:E; [|done]. rewrite lookup_insert_ne by congruence. rewrite E.
    destruct e' as [s| |t]; [done|auto|]. destruct k; [done|]. apply IHk. lia.
Qed.

Lemma parent_location_ck fs ns n : parent_location fs (abs (ns ++ [n])) = '(d, _) ← ck fs ns; if is_dir_at fs d then Some (d, n) else None.
Proof.
  unfold parent_location, abs. rewrite fmap_app, app_comm_cons. simpl (Normal <$> [n]). rewrite last_snoc, removelast_last.
  rewrite walk_walkk, walkk_cons. unfold ck. by destruct (walkk _ _ _ _) as [[l k]|].
Qed.

(** ** A workspace whose links may lead anywhere *)

(** The directories down to [r] are there, and all links are below it. *)
Record fenced r fs : Prop := {
  f_tree : is_tree fs;
  f_root : ∀ ns n, (ns ++ [n]) `prefix_of` r → fs !! (ns ++ [n]) = Some Dir;
  f_links : ∀ l t, fs !! l = Some (Symlink t) → r `prefix_of` l }.

Definition same_outside r fs fs' : Prop := ∀ l, ¬ r `prefix_of` l → fs' !! l = fs !! l.
Lemma same_outside_insert r fs l e : r `prefix_of` l → same_outside r fs (<[l := e]> fs).
Proof. intros Hp k Hk. apply lookup_insert_ne. by intros ->. Qed.
Lemma same_outside_delete r fs l : r `prefix_of` l → same_outside r fs (delete l fs).
Proof. intros Hp k Hk. apply lookup_delete_ne. by intros ->. Qed.
Lemma same_outside_trans r fs fs1 fs2 : same_outside r fs fs1 → same_outside r fs1 fs2 → same_outside r fs fs2.
Proof. intros H1 H2 l Hl. by rewrite H2, H1. Qed.

Lemma entry_at_ne fs l : l ≠ [] → entry_at fs l = fs !! l.
Proof. intros Hl. unfold entry_at. by rewrite bool_decide_false. Qed.
Lemma dir_at_entry fs l : is_dir_at fs l = true ↔ l = [] ∨ fs !! l = Some Dir.
Proof. unfold is_dir_at. rewrite bool_decide_eq_true. unfold entry_at. case_bool_decide; naive_solver. Qed.

(** A missing entry below [r] is made: the workspace is still one. *)
Lemma fenced_add r fs d n e : fenced r fs → r `prefix_of` d → is_dir_at fs d = true → fs !! (d ++ [n]) = None → (∀ t, e ≠ Symlink t) →
  fenced r (<[d ++ [n] := e]> fs).
Proof.
  intros [Ht Hr Hl] Hp Hd Hn He. apply dir_at_entry in Hd. split.
  - intros l m e'. rewrite lookup_insert. case_decide as Heq.
    + apply app_inj_tail in Heq as [<- <-]. intros [= <-]. destruct Hd as [?|Hd]; [by left|right]. rewrite lookup_insert_ne; [done|]. apply app_neq_snoc.
    + intros Hl'. apply Ht in Hl' as [?|Hl']; [by left|right]. rewrite lookup_insert_ne by congruence. done.
  - intros ns m Hpre. rewrite lookup_insert_ne; [by apply Hr|]. intros Heq. apply Hr in Hpre. congruence.
  - intros l t. rewrite lookup_insert. case_decide; [intros [= ->]; by destruct (He t)|]. apply Hl.
Qed.

Section Target.
Context (r ns : list str).

(** What the check of the nearest existing ancestor gives. *)
Definition guarded fs : Prop :=
  ∀ p d, p `prefix_of` ns → canonicalize fs (abs p) = Some d →
    (p = ns ∨ ∃ n, (p ++ [n]) `prefix_of` ns ∧ canonicalize fs (abs (p ++ [n])) = None) → r `prefix_of` d.

Lemma canon_step fs p n : is_tree fs → canonicalize fs (abs (p ++ [n])) = fst <$> ('(l, k) ← ck fs p; one fs k l n).
Proof. intros Ht. by rewrite canon_ck, ck_snoc. Qed.
Lemma canon_prefix fs p q d : is_tree fs → p `prefix_of` q → canonicalize fs (abs q) = Some d → is_Some (canonicalize fs (abs p)).
Proof.
  intros Ht [ms ->]. rewrite !canon_ck. destruct (ck fs (p ++ ms)) as [x|] eqn:E; [|done]. intros _.
  apply ck_prefix in E as [[l k] ->]; [by eexists|done].
Qed.

(** Making the next directory keeps the guard. *)
Lemma mkdir_guarded fs q fs' : fenced r fs → guarded fs → q `prefix_of` ns → mkdir fs (abs q) = Made fs' →
  fenced r fs' ∧ guarded fs' ∧ same_outside r fs fs' ∧ is_dir fs' (abs q) = true.
Proof.
  intros Hf Hg Hq. pose proof (f_tree _ _ Hf) as Ht. destruct q as [|n q _] using rev_ind; [done|].
  unfold mkdir. destruct (last (abs (q ++ [n]))) as [[]|] eqn:El; try done. clear El. rewrite parent_location_ck.
  destruct (ck fs q) as [[d k]|] eqn:Eq; [|done]. simpl. destruct (is_dir_at fs d) eqn:Ed; [|done]. destruct (fs !! (d ++ [n])) eqn:En; [done|]. intros [= <-].
  assert (Hd : r `prefix_of` d).
  { apply (Hg q); [by eapply prefix_app_l|by rewrite canon_ck, Eq|]. right. exists n. split; [done|]. rewrite canon_step, Eq by done. simpl. unfold one. by rewrite En. }
  assert (Hf' : fenced r (<[d ++ [n] := Dir]> fs)) by by apply fenced_add.
  assert (Hqn : ck (<[d ++ [n] := Dir]> fs) (q ++ [n]) = Some (d ++ [n], k)).
  { rewrite ck_snoc by apply Hf'. unfold ck in Eq |- *. rewrite (walkk_add _ _ _ _ _ _ _ En Eq). simpl. unfold one. by rewrite lookup_insert_eq. }
  split_and!; [done| |apply same_outside_insert; by apply prefix_app_r|].
  - intros p l Hp Hl Hor. assert (Hcase : p `prefix_of` q ∨ (q ++ [n]) `prefix_of` p).
    { destruct (prefix_weak_total p (q ++ [n]) ns Hp Hq) as [[s Hs]|?]; [|by right]. destruct s as [|x s _] using rev_ind.
      - right. rewrite app_nil_r in Hs. by rewrite Hs.
      - left. rewrite app_assoc in Hs. apply app_inj_tail in Hs as [-> _]. by apply prefix_app_r. }
    destruct Hcase as [Hpq|Hqp].
    + exfalso. destruct Hor as [->|(m & Hm & Hnone)].
      { apply prefix_length in Hpq, Hq. rewrite length_app in Hq. simpl in Hq. lia. }
      assert (Hmq : (p ++ [m]) `prefix_of` (q ++ [n])).
      { apply (prefix_by_len _ _ ns); [done..|]. apply prefix_length in Hpq. rewrite !length_app. simpl. lia. }
      destruct (canon_prefix _ _ _ (d ++ [n]) (f_tree _ _ Hf') Hmq) as [y Hy]; [by rewrite canon_ck, Hqn|congruence].
    + destruct Hqp as [s ->]. destruct s as [|x s _] using rev_ind.
      { rewrite app_nil_r, canon_ck, Hqn in Hl. injection Hl as <-. by apply prefix_app_r. }
      exfalso. destruct (s ++ [x]) as [|y ys] eqn:Es; [by apply app_eq_nil in Es as [_ ?]|].
      replace ((q ++ [n]) ++ y :: ys) with (((q ++ [n]) ++ [y]) ++ ys) in Hl by by rewrite <- !app_assoc.
      apply (canon_prefix _ ((q ++ [n]) ++ [y])) in Hl as [z Hz]; [|apply Hf'|by apply prefix_app_r].
      rewrite canon_step, Hqn in Hz by apply Hf'. simpl in Hz. unfold one in Hz. rewrite lookup_insert_ne in Hz by (apply not_eq_sym, app_neq_snoc).
      destruct (fs !! ((d ++ [n]) ++ [y])) as [e|] eqn:Ey; [|done]. apply Ht in Ey as [[_ ?]%app_eq_nil|Ey]; [done|congruence].
  - unfold is_dir, metadata. rewrite canon_ck, Hqn. simpl. rewrite bool_decide_eq_true. unfold entry_at. rewrite bool_decide_false by (by intros [_ ?]%app_eq_nil).
    apply lookup_insert_eq.
Qed.

Lemma create_dirs_guarded fuel fs q fs' b : fenced r fs → guarded fs → q `prefix_of` ns → create_dirs fuel fs (abs q) = (fs', b) →
  fenced r fs' ∧ guarded fs' ∧ same_outside r fs fs' ∧ (b = true → is_dir fs' (abs q) = true).
Proof.
  revert fs q fs' b. induction fuel as [|fuel IH]; intros fs q fs' b Hf Hg Hq; [by intros [= <- <-]|].
  cbn [create_dirs abs]. fold (abs q). destruct (mkdir fs (abs q)) as [fs1| |] eqn:Em.
  - intros [= <- <-]. destruct (mkdir_guarded fs q fs1) as (H1 & H2 & H3 & H4); done.
  - destruct q as [|n q _] using rev_ind; [done|]. rewrite path_parent_abs. destruct (create_dirs fuel fs (abs q)) as [fs1 ok] eqn:Ec.
    apply IH in Ec as (H1 & H2 & H3 & _); [|done..|by eapply prefix_app_l]. destruct ok; [|by intros [= <- <-]].
    destruct (mkdir fs1 _) as [fs2| |] eqn:Em2; intros [= <- <-]; [|done..].
    apply mkdir_guarded in Em2 as (H4 & H5 & H6 & H7); [|done..]. split_and!; [done..| |done]. by eapply same_outside_trans.
  - intros [= <- <-]. done.
Qed.

Lemma tool_probe_unfold fs rc rev :
  probe fs rc rev =
  match canonicalize fs (reverse rev) with
  | Some canon => if bool_decide (rc `prefix_of` canon) then Ok tt else Err OutsideCwd
  | None => match rev with [] | [_] | RootDir :: _ => Ok tt | _ :: rev => probe fs rc rev end
  end.
Proof. by destruct rev. Qed.
End Target.

Lemma reverse_abs_snoc p n : reverse (abs (p ++ [n])) = Normal n :: reverse (abs p).
Proof. unfold abs. rewrite fmap_app, app_comm_cons. apply reverse_snoc. Qed.
Lemma probe_guards fs rc p0 : is_tree fs → probe fs rc (reverse (abs p0)) = Ok tt → guarded rc p0 fs.
Proof.
  intros Ht. induction p0 as [|n p0 IH] using rev_ind; rewrite tool_probe_unfold, reverse_involutive.
  - rewrite canon_ck, ck_nil. simpl. case_bool_decide as Hp; [|done]. intros _ p d Hpre. apply prefix_nil_inv in Hpre as ->.
    rewrite canon_ck, ck_nil. by intros [= <-].
  - destruct (canonicalize fs (abs (p0 ++ [n]))) as [c|] eqn:Ec.
    + case_bool_decide as Hp; [|done]. intros _ p d Hpre Hd [->|(m & Hm & Hnone)]; [congruence|].
      destruct (canon_prefix _ _ _ _ Ht Hm Ec). congruence.
    + rewrite reverse_abs_snoc. destruct (reverse (abs p0)) as [|x rev] eqn:Er.
      { apply (f_equal length) in Er. rewrite length_reverse in Er. done. }
      intros Hp p d Hpre Hd Hor. destruct Hor as [->|(m & Hm & Hnone)]; [congruence|].
      assert (Hpp : p `prefix_of` p0).
      { destruct Hm as [t Ht0]. destruct t as [|y t _] using rev_ind.
        - rewrite app_nil_r in Ht0. apply app_inj_tail in Ht0 as [-> _]. done.
        - rewrite app_assoc in Ht0. apply app_inj_tail in Ht0 as [-> _]. apply prefix_app_r. by apply prefix_app_r. }
      apply (IH Hp p d Hpp Hd). destruct (decide (p = p0)) as [->|Hne]; [by left|right]. exists m. split; [|done].
      apply (prefix_by_len _ _ (p0 ++ [n])); [done|by apply prefix_app_r|]. apply prefix_length in Hpp as Hl.
      destruct (decide (length p = length p0)) as [He|]; [|rewrite length_app; simpl; lia]. destruct Hne. apply (prefix_length_eq _ _ Hpp). lia.
Qed.

(** A path that is accepted. *)
Lemma resolve_within fs cwd path t r : tool_normalize cwd = abs r → canonicalize fs cwd = Some r → r ≠ [] → is_tree fs →
  resolve_within_cwd fs cwd path = Ok t → ∃ ns, t = abs ns ∧ r `prefix_of` ns ∧ guarded r ns fs.
Proof.
  intros Hr Hc Hne Ht. unfold resolve_within_cwd, tool_reject_symlink_escape. cbv zeta. rewrite Hr, Hc. case_bool_decide as Hp; [|done]. simpl.
  intros ([] & Hpr & [= <-])%and_then_Ok. destruct (tidy_below r (tool_normalize (if is_absolute (components path) then components path else path_join cwd (components path)))) as (ns & Hns & Hpre); [done..|apply normalize_tidy|].
  exists ns. rewrite Hns in *. split_and!; [done..|]. by apply probe_guards.
Qed.

(** *** Putting a file in place *)
Lemma is_dir_ck fs q : is_dir fs (abs q) = true → ∃ d k, ck fs q = Some (d, k) ∧ is_dir_at fs d = true.
Proof.
  unfold is_dir, metadata. rewrite canon_ck. destruct (ck fs q) as [[d k]|]; [|done]. simpl. eauto.
Qed.

Lemma write_new fs q d k t c : ck fs q = Some (d, k) → is_dir_at fs d = true → fs !! (d ++ [t]) = None →
  write fs (abs (q ++ [t])) c = Some (<[d ++ [t] := File c]> fs).
Proof.
  intros Hq Hd Hn. unfold write, abs. rewrite fmap_app. simpl (Normal <$> [t]). rewrite walk_cons, (walk_create_snoc _ _ _ _ _ d k) by done.
  rewrite walk_cons, Hn. cbn [andb]. rewrite (bool_decide_true ([] = [])) by done. cbn [mbind option_bind]. assert (is_dir_at fs (d ++ [t]) = false) as ->.
  { unfold is_dir_at, entry_at. rewrite (bool_decide_false (d ++ [t] = [])) by (by intros [_ ?]%app_eq_nil). by rewrite Hn. }
  by rewrite bool_decide_false.
Qed.

Section Place.
Context fs q d k f t (c : list Z) (Hq : ck fs q = Some (d, k)) (Hd : is_dir_at fs d = true) (Ht : fs !! (d ++ [t]) = None) (Hne : t ≠ f).

Lemma place_parent n : parent_location (<[d ++ [t] := File c]> fs) (abs (q ++ [n])) = Some (d, n).
Proof.
  rewrite parent_location_ck. unfold ck in *. rewrite (walkk_add _ _ _ _ _ _ _ Ht Hq). cbn [mbind option_bind].
  assert (is_dir_at (<[d ++ [t]:=File c]> fs) d = true) as ->; [|done]. apply dir_at_entry. apply dir_at_entry in Hd as [?|?]; [by left|right].
  rewrite lookup_insert_ne; [done|]. apply app_neq_snoc.
Qed.
Lemma place_rename : rename (<[d ++ [t] := File c]> fs) (abs (q ++ [t])) (abs (q ++ [f])) =
  if bool_decide (fs !! (d ++ [f]) = Some Dir) then None else Some (<[d ++ [f] := File c]> fs).
Proof.
  unfold rename. rewrite !place_parent. cbn [mbind option_bind]. rewrite lookup_insert_eq, lookup_insert_ne by (by intros [_ ?]%app_inj_tail).
  rewrite delete_insert_id by done. case_bool_decide as Hf; [by rewrite Hf|]. destruct (fs !! (d ++ [f])) as [[]|]; done.
Qed.
Lemma place_remove : remove_file (<[d ++ [t] := File c]> fs) (abs (q ++ [t])) = Some fs.
Proof. unfold remove_file. rewrite place_parent. cbn [mbind option_bind]. rewrite lookup_insert_eq. by rewrite delete_insert_id. Qed.
End Place.

Lemma tmp_in_abs q t : tmp_in (abs q) t = abs (q ++ [t]).
Proof. unfold tmp_in, abs. by rewrite fmap_app. Qed.
Lemma last_abs q n : last (abs (q ++ [n])) = Some (Normal n).
Proof. unfold abs. rewrite fmap_app, app_comm_cons. apply last_snoc. Qed.
Lemma parent_or_here_abs q n : parent_or_here (abs (q ++ [n])) = abs q.
Proof. unfold parent_or_here. by rewrite path_parent_abs. Qed.
Lemma write_tmp_ne f u : write_tmp_name f u ≠ f.
Proof. intros Hl%(f_equal length). unfold write_tmp_name in Hl. rewrite !length_app in Hl. simpl in Hl. lia. Qed.
Lemma edit_tmp_ne f pid u : edit_tmp_name f pid u ≠ f.
Proof. intros Hl%(f_equal length). unfold edit_tmp_name in Hl. rewrite !length_app in Hl. simpl in Hl. lia. Qed.

Lemma atomic_write_at fs q d k f c u : ck fs q = Some (d, k) → is_dir_at fs d = true → fs !! (d ++ [write_tmp_name f u]) = None →
  atomic_write fs (abs (q ++ [f])) c u = if bool_decide (fs !! (d ++ [f]) = Some Dir) then (fs, false) else (<[d ++ [f] := File c]> fs, true).
Proof.
  intros Hq Hd Ht. unfold atomic_write. cbv zeta. rewrite last_abs, parent_or_here_abs. rewrite tmp_in_abs.
  rewrite (write_new _ _ d k) by done. rewrite (place_rename fs q d k) by (done || apply write_tmp_ne).
  case_bool_decide; [|done]. by rewrite (place_remove fs q d k).
Qed.
Lemma write_atomic_at fs q d k f c pid u : ck fs q = Some (d, k) → is_dir_at fs d = true → fs !! (d ++ [edit_tmp_name f pid u]) = None → fs !! (d ++ [f]) ≠ Some Dir →
  write_atomic fs (abs (q ++ [f])) c pid u = (<[d ++ [f] := File c]> fs, true).
Proof.
  intros Hq Hd Ht Hf. unfold write_atomic. cbv zeta. rewrite path_parent_abs, last_abs. cbn [default from_option id]. rewrite tmp_in_abs.
  rewrite (write_new _ _ d k) by done. rewrite (place_rename fs q d k) by (done || apply edit_tmp_ne). by rewrite bool_decide_false.
Qed.

(** Where the file is put lies below [r]. *)
Lemma target_inside r fs q f d k : fenced r fs → guarded r (q ++ [f]) fs → ck fs q = Some (d, k) → fs !! (d ++ [f]) ≠ Some Dir → r `prefix_of` (d ++ [f]).
Proof.
  intros Hf Hg Hq Hnd. pose proof (f_tree _ _ Hf) as Ht. destruct (fs !! (d ++ [f])) as [[s| |t]|] eqn:E; [| |by eapply f_links|].
  - apply (Hg (q ++ [f])); [done| |by left]. rewrite canon_step, Hq by done. simpl. unfold one. by rewrite E.
  - done.
  - apply prefix_app_r. apply (Hg q); [by apply prefix_app_r|by rewrite canon_ck, Hq|]. right. exists f. split; [done|].
    rewrite canon_step, Hq by done. simpl. unfold one. by rewrite E.
Qed.

(** No entry has the name of a temporary file. *)
Definition fresh_tmp fs (u : list Z) (pid n : Z) : Prop :=
  ∀ l f, fs !! (l ++ [write_tmp_name f u]) = None ∧ fs !! (l ++ [edit_tmp_name f pid n]) = None.

(** A directory that was just made is empty. *)
Lemma tree_below_missing fs l s : is_tree fs → l ≠ [] → fs !! l = None → fs !! (l ++ s) = None.
Proof.
  intros Ht Hl Hn. induction s as [|x s IH] using rev_ind; [by rewrite app_nil_r|]. rewrite app_assoc.
  destruct (fs !! ((l ++ s) ++ [x])) as [e|] eqn:E; [|done]. apply Ht in E as [[? _]%app_eq_nil|E]; [done|congruence].
Qed.
Lemma mkdir_made fs q n fs' : mkdir fs (abs (q ++ [n])) = Made fs' →
  ∃ d k, ck fs q = Some (d, k) ∧ is_dir_at fs d = true ∧ fs !! (d ++ [n]) = None ∧ fs' = <[d ++ [n] := Dir]> fs.
Proof.
  unfold mkdir. rewrite last_abs, parent_location_ck. destruct (ck fs q) as [[d k]|]; [|done]. simpl.
  destruct (is_dir_at fs d) eqn:Ed; [|done]. destruct (fs !! (d ++ [n])) eqn:En; [done|]. intros [= <-]. eauto 10.
Qed.
Lemma mkdir_empty r fs q fs' d k : fenced r fs → fenced r fs' → mkdir fs (abs q) = Made fs' → ck fs' q = Some (d, k) → ∀ x, fs' !! (d ++ [x]) = None.
Proof.
  intros Hf Hf' Hm Hq x. pose proof (f_tree _ _ Hf) as Ht. destruct q as [|n q _] using rev_ind; [done|].
  apply mkdir_made in Hm as (dp & kp & Hp & Hd & Hn & ->). rewrite ck_snoc in Hq by apply Hf'. unfold ck in Hp, Hq. rewrite (walkk_add _ _ _ _ _ _ _ Hn Hp) in Hq.
  simpl in Hq. unfold one in Hq. rewrite lookup_insert_eq in Hq. injection Hq as <- <-. rewrite lookup_insert_ne by apply not_eq_sym, app_neq_snoc.
  apply tree_below_missing; [done|by intros [_ ?]%app_eq_nil|done].
Qed.
Lemma parent_missing fs q n : is_tree fs → mkdir fs (abs (q ++ [n])) = ParentMissing → ck fs (q ++ [n]) = None.
Proof.
  intros Ht. unfold mkdir. rewrite last_abs, parent_location_ck, ck_snoc by done. destruct (ck fs q) as [[d k]|]; [|done]. simpl.
  destruct (is_dir_at fs d) eqn:Ed; [by destruct (fs !! (d ++ [n]))|]. intros _. unfold one. destruct (fs !! (d ++ [n])) eqn:E; [|done].
  apply Ht, dir_at_entry in E. congruence.
Qed.
Lemma create_dirs_fresh r ns fuel fs q fs' d k : fenced r fs → guarded r ns fs → q `prefix_of` ns →
  create_dirs fuel fs (abs q) = (fs', true) → ck fs' q = Some (d, k) → fs' = fs ∨ ∀ x, fs' !! (d ++ [x]) = None.
Proof.
  revert fs q fs' d k. induction fuel as [|fuel IH]; intros fs q fs' d k Hf Hg Hq; [done|].
  cbn [create_dirs abs]. fold (abs q). destruct (mkdir fs (abs q)) as [fs1| |] eqn:Em.
  - intros [= <-] Hc. right. eapply mkdir_empty; [exact Hf| |done..]. by eapply mkdir_guarded.
  - destruct q as [|n q _] using rev_ind; [done|]. rewrite path_parent_abs. destruct (create_dirs fuel fs (abs q)) as [fs1 ok] eqn:Ec.
    assert (Hpq : q `prefix_of` ns) by by eapply prefix_app_l.
    pose proof Ec as Hcd. apply (create_dirs_guarded r ns) in Hcd as (Hf1 & Hg1 & _ & Hd1); [|done..]. destruct ok; [|done].
    destruct (is_dir_ck fs1 q (Hd1 eq_refl)) as (dq & kq & Hdq & _). pose proof (IH _ _ _ _ _ Hf Hg Hpq Ec Hdq) as Hor.
    destruct (mkdir fs1 (abs (q ++ [n]))) as [fs2| |] eqn:Em2.
    { intros [= <-] Hc. right. eapply mkdir_empty; [exact Hf1| |done..]. by apply (mkdir_guarded r ns fs1 (q ++ [n])). }
    all: intros [= -> Hdir] Hc; exfalso; destruct Hor as [->|Hempty];
      [apply parent_missing in Em; [congruence|by apply f_tree in Hf]|].
    all: rewrite ck_snoc, Hdq in Hc by apply Hf1; simpl in Hc; unfold one in Hc; by rewrite Hempty in Hc.
  - intros [= <- _]. by left.
Qed.

Lemma write_same_outside fs cwd r args u pid n : tool_normalize cwd = abs r → canonicalize fs cwd = Some r → r ≠ [] → fenced r fs → fresh_tmp fs u pid n →
  same_outside r fs (write_impl fs cwd args u).1.
Proof.
  intros Hr Hc Hne Hf Hfresh. unfold write_impl. destruct (and_then _ _) as [[content target]|e] eqn:E; [|done].
  apply and_then_Ok in E as (path & _ & (c & _ & (t & Hres & [= -> ->])%and_then_Ok)%and_then_Ok).
  apply (resolve_within _ _ _ _ r) in Hres as (ns & -> & Hp & Hg); [|done..|by apply f_tree in Hf].
  destruct ns as [|f q _] using rev_ind; [by apply prefix_nil_inv in Hp|]. cbv zeta. rewrite path_parent_abs. unfold create_dir_all.
  destruct (create_dirs _ _ _) as [fs1 b] eqn:Ec. pose proof Ec as Hcd. apply (create_dirs_guarded r (q ++ [f])) in Hcd as (Hf1 & Hg1 & Hs & Hb); [|done..|by apply prefix_app_r].
  destruct b; [|done]. cbn [negb]. destruct (is_dir_ck fs1 q (Hb eq_refl)) as (d & k & Hq & Hd).
  assert (Ht : fs1 !! (d ++ [write_tmp_name f u]) = None).
  { eapply create_dirs_fresh in Ec as [->|Hempty]; [by apply Hfresh|by apply Hempty|done| |by apply prefix_app_r|done]. done. }
  rewrite (atomic_write_at _ _ d k) by done. case_bool_decide as Hdir; [done|].
  eapply same_outside_trans; [done|]. apply same_outside_insert. by eapply target_inside.
Qed.

Lemma is_file_ck fs q f : is_tree fs → is_file fs (abs (q ++ [f])) = true →
  ∃ d k, ck fs q = Some (d, k) ∧ is_dir_at fs d = true ∧ fs !! (d ++ [f]) ≠ Some Dir.
Proof.
  intros Ht. unfold is_file, metadata. rewrite canon_step by done. destruct (ck fs q) as [[d k]|] eqn:Eq; [|done]. simpl. unfold one.
  destruct (fs !! (d ++ [f])) as [e|] eqn:E; [|done]. intros Hf. exists d, k. split_and!; [done|by apply dir_at_entry; apply Ht in E|].
  rewrite E. intros [= ->]. revert Hf. simpl. unfold entry_at. rewrite bool_decide_false by (by intros [_ ?]%app_eq_nil). by rewrite E.
Qed.

(** What an edit that goes through has found. *)
Lemma edit_found fs cwd r args pid n : tool_normalize cwd = abs r → canonicalize fs cwd = Some r → r ≠ [] → fenced r fs → (∀ l f, fs !! (l ++ [edit_tmp_name f pid n]) = None) →
  (∃ e, edit_impl fs cwd args pid n = (fs, Err e)) ∨
  ∃ path old new q f d k text updated, json_str args (lit "file_path") = Ok path ∧ json_str args (lit "old_string") = Ok old ∧ json_str args (lit "new_string") = Ok new ∧
    resolve_within_cwd fs cwd path = Ok (abs (q ++ [f])) ∧ read_to_string fs (abs (q ++ [f])) = Some text ∧ replace_unique text old new = Ok updated ∧
    ck fs q = Some (d, k) ∧ r `prefix_of` (d ++ [f]) ∧ edit_impl fs cwd args pid n = (<[d ++ [f] := File updated]> fs, Ok tt).
Proof.
  intros Hr Hc Hne Hf Hfresh. unfold edit_impl. destruct (json_str args (lit "file_path")) as [path|]; [|left; by eexists]. cbn [and_then].
  destruct (resolve_within_cwd fs cwd path) as [t|] eqn:Eres; [|left; by eexists]. cbn [and_then].
  pose proof Eres as Hres. apply (resolve_within _ _ _ _ r) in Hres as (ns & -> & Hp & Hg); [|done..|by apply f_tree in Hf].
  destruct (json_str args (lit "old_string")) as [old|]; [|left; by eexists]. destruct (json_str args (lit "new_string")) as [new|]; [|left; by eexists]. cbn [and_then].
  destruct (exists_path fs (abs ns)); [|left; by eexists]. destruct (is_file fs (abs ns)) eqn:Ef; [|left; by eexists]. cbn [negb].
  destruct (assert_canonical_within_cwd fs cwd (abs ns)); [|left; by eexists]. cbn [and_then].
  destruct (read_to_string fs (abs ns)) as [text|] eqn:Et; [|left; by eexists]. destruct (replace_unique text old new) as [updated|] eqn:Eu; [|left; by eexists]. cbn [and_then].
  destruct ns as [|f q _] using rev_ind; [by apply prefix_nil_inv in Hp|]. right.
  destruct (is_file_ck fs q f) as (d & k & Hq & Hd & Hnd); [by apply f_tree in Hf|done|].
  exists path, old, new, q, f, d, k, text, updated. split_and!; try done.
  - by eapply target_inside.
  - by rewrite (write_atomic_at _ _ d k).
Qed.

(** C12: Writing and editing change nothing outside the working directory, whether
    they succeed or not, wherever the links below it lead; there are no links
    outside, and no file has the name of a temporary file. *)
Theorem tools_stay_inside fs cwd r args u pid n : tool_normalize cwd = abs r → canonicalize fs cwd = Some r → r ≠ [] → fenced r fs → fresh_tmp fs u pid n →
  same_outside r fs (write_impl fs cwd args u).1 ∧ same_outside r fs (edit_impl fs cwd args pid n).1.
Proof.
  intros Hr Hc Hne Hf Hfresh. split; [by eapply write_same_outside|].
  destruct (edit_found fs cwd r args pid n) as [[e ->]|(path & old & new & q & f & d & k & text & updated & H1 & H2 & H3 & H4 & H5 & H6 & H7 & H8 & ->)]; [done..| |done|].
  - intros l f. by apply Hfresh.
  - by apply same_outside_insert.
Qed.

(** ** Files without links *)
Definition no_link fs : Prop := ∀ l t, fs !! l ≠ Some (Symlink t).

Lemma ck_id fs ns d k : is_tree fs → no_link fs → ck fs ns = Some (d, k) → d = ns.
Proof.
  intros Ht Hn. revert d k. induction ns as [|n ns IH] using rev_ind; intros d k; [rewrite ck_nil; congruence|]. rewrite ck_snoc by done.
  destruct (ck fs ns) as [[l k']|]; [|done]. simpl. unfold one. rewrite (IH l k') by done.
  destruct (fs !! (ns ++ [n])) as [[s| |t]|] eqn:E; [by intros [= <- _]|by intros [= <- _]|by apply Hn in E|done].
Qed.
Lemma ck_plain fs ns e : is_tree fs → no_link fs → fs !! ns = Some e → ns ≠ [] → ck fs ns = Some (ns, max_links).
Proof.
  intros Ht Hn. revert e. induction ns as [|n ns IH] using rev_ind; intros e He Hne; [done|]. rewrite ck_snoc by done.
  assert (ck fs ns = Some (ns, max_links)) as ->.
  { destruct (Ht _ _ _ He) as [->|Hd]; [apply ck_nil|]. destruct ns; [apply ck_nil|]. by eapply IH. }
  simpl. unfold one. rewrite He. destruct e; [done..|by apply Hn in He].
Qed.
Lemma read_plain fs ns c : is_tree fs → no_link fs → fs !! ns = Some (File c) → ns ≠ [] → is_dir fs (abs ns) = false ∧ read_to_string fs (abs ns) = Some c.
Proof.
  intros Ht Hn He Hne. unfold is_dir, read_to_string, metadata. rewrite canon_ck, (ck_plain _ _ (File c)) by done. simpl.
  by rewrite entry_at_ne, He.
Qed.
Lemma tree_put fs ns n c : is_tree fs → is_dir_at fs ns = true → fs !! (ns ++ [n]) ≠ Some Dir → is_tree (<[ns ++ [n] := File c]> fs).
Proof.
  intros Ht Hd Hn l m e. apply dir_at_entry in Hd. rewrite lookup_insert. case_decide as Heq.
  - apply app_inj_tail in Heq as [<- <-]. intros _. destruct Hd as [?|Hd]; [by left|right]. rewrite lookup_insert_ne; [done|]. apply app_neq_snoc.
  - intros Hl. apply Ht in Hl as [?|Hl]; [by left|right]. rewrite lookup_insert_ne; [done|congruence].
Qed.
Lemma no_link_put fs l c : no_link fs → no_link (<[l := File c]> fs).
Proof. intros Hn k t. rewrite lookup_insert. case_decide; [done|apply Hn]. Qed.
Lemma create_dirs_no_link fuel fs q : no_link fs → no_link (create_dirs fuel fs (abs q)).1.
Proof.
  intros Hn. assert (Hmk : ∀ fs q fs', no_link fs → mkdir fs (abs q) = Made fs' → no_link fs').
  { clear. intros fs q fs' Hn Hm. destruct q as [|n q _] using rev_ind; [done|]. apply mkdir_made in Hm as (d & k & _ & _ & _ & ->).
    intros l t. rewrite lookup_insert. case_decide; [done|apply Hn]. }
  revert fs q Hn. induction fuel as [|fuel IH]; intros fs q Hn; [done|]. cbn [create_dirs abs]. fold (abs q).
  destruct (mkdir fs (abs q)) as [fs1| |] eqn:Em; [by eapply Hmk| |done]. destruct q as [|n q _] using rev_ind; [done|]. rewrite path_parent_abs.
  pose proof (IH fs q Hn) as Hq. destruct (create_dirs fuel fs (abs q)) as [fs1 []]; [|done]. destruct (mkdir fs1 (abs (q ++ [n]))) as [fs2| |] eqn:E; [|done..].
  by apply (Hmk fs1 (q ++ [n])).
Qed.

Lemma normalize_abs ns : normalize_lexically (abs ns) = abs ns.
Proof.
  unfold abs. rewrite <- (rev_involutive ns). induction (rev ns) as [|n ms IH]; [done|]. simpl. rewrite fmap_app, app_comm_cons. unfold normalize_lexically in *.
  rewrite foldl_app, IH. simpl. done.
Qed.

(** What the Write tool has written, the Read tool gives back, character by
    character. *)
Theorem write_then_read fs cwd r path content rest u pid n fs' w ns :
  tool_normalize cwd = abs r → canonicalize fs cwd = Some r → r ≠ [] → fenced r fs → no_link fs → fresh_tmp fs u pid n →
  resolve_path cwd path = abs ns → Forall is_scalar content → size_of (as_bytes content) <= READ_CAP →
  write_impl fs cwd (Object ((lit "content", Text content) :: (lit "file_path", Text path) :: rest)) u = (fs', Ok w) →
  read_impl fs' cwd (Object [(lit "file_path", Text path)]) = Ok content.
Proof.
  intros Hr Hc Hne Hf Hnl Hfresh Hpath Hs Hsize. unfold write_impl.
  change (json_str _ (lit "file_path")) with (@Ok (list Z) Fault path). change (json_str _ (lit "content")) with (@Ok (list Z) Fault content). cbn [and_then].
  destruct (resolve_within_cwd fs cwd path) as [t|] eqn:Eres; [|done]. cbn [and_then].
  assert (Ht : t = abs ns).
  { revert Eres. unfold resolve_within_cwd. cbv zeta. fold (resolve_path cwd path). rewrite Hpath. change (tool_normalize (abs ns)) with (normalize_lexically (abs ns)). rewrite normalize_abs.
    destruct (negb _); [done|]. by intros (_ & _ & [= <-])%and_then_Ok. }
  subst t. apply (resolve_within _ _ _ _ r) in Eres as (ns' & Heq%(inj abs) & Hp & Hg); [subst ns'|done..|by apply f_tree in Hf].
  destruct ns as [|f q _] using rev_ind; [by apply prefix_nil_inv in Hp|]. cbv zeta. rewrite path_parent_abs. unfold create_dir_all.
  pose proof (create_dirs_no_link (length (abs q)) fs q Hnl) as Hnl1.
  destruct (create_dirs _ _ _) as [fs1 b] eqn:Ec. pose proof Ec as Hcd. apply (create_dirs_guarded r (q ++ [f])) in Hcd as (Hf1 & Hg1 & _ & Hb); [|done..|by apply prefix_app_r].
  destruct b; [|done]. cbn [negb]. destruct (is_dir_ck fs1 q (Hb eq_refl)) as (d & k & Hq & Hd).
  assert (Htmp : fs1 !! (d ++ [write_tmp_name f u]) = None).
  { eapply create_dirs_fresh in Ec as [->|Hempty]; [by apply Hfresh|by apply Hempty|done| |by apply prefix_app_r|done]. done. }
  rewrite (atomic_write_at _ _ d k) by done. case_bool_decide as Hdir; [done|]. intros [= <- _]. pose proof (f_tree _ _ Hf1) as Ht1.
  apply ck_id in Hq as ->; [|done..]. unfold read_impl. change (json_str _ (lit "file_path")) with (@Ok (list Z) Fault path). cbn [and_then]. rewrite Hpath.
  destruct (read_plain (<[q ++ [f] := File content]> fs1) (q ++ [f]) content) as [-> ->];
    [by apply tree_put|by apply no_link_put|apply lookup_insert_eq|by intros [_ ?]%app_eq_nil|].
  simpl. destruct (Z.ltb_spec READ_CAP (size_of (as_bytes content))); [lia|]. by rewrite from_utf8_as_bytes.
Qed.
End Walks.

(** ** What an edit replaces *)
Lemma occurrences_none p s : p ≠ [] → ∀ skip, occurrences p s skip = 0 → ∀ a b, s = a ++ p ++ b → (length a < skip)%nat.
Proof.
  intros Hp. induction s as [|c s IH]; intros skip Ho a b Hs.
  { symmetry in Hs. by apply app_eq_nil in Hs as [_ [? _]%app_eq_nil]. }
  simpl in Ho. destruct skip as [|skip].
  - destruct (starts_with p (c :: s)) eqn:E.
    { exfalso. assert (H0 : ∀ s k, 0 <= occurrences p s k). { clear. induction s as [|c s IH]; intros k; [done|]. simpl. destruct k; [case_match; [specialize (IH (length p - 1)%nat); lia|apply IH]|apply IH]. }
      specialize (H0 s (length p - 1)%nat). lia. }
    destruct a as [|c' a]; [|injection Hs as <- Hs; by apply (IH 0%nat Ho) in Hs; lia].
    assert (starts_with p (c :: s) = true) by (apply starts_with_spec; by exists b). congruence.
  - destruct a as [|c' a]; [simpl; lia|]. injection Hs as <- Hs. apply (IH skip Ho) in Hs. simpl. lia.
Qed.
Lemma occurrences_one p q s : p ≠ [] → occurrences p s 0 = 1 →
  ∃ a b, s = a ++ p ++ b ∧ replace_first p q s = a ++ q ++ b ∧ ∀ a' b', s = a' ++ p ++ b' → (length a <= length a' < length a + length p)%nat.
Proof.
  intros Hp. induction s as [|c s IH]; [done|]. cbn [occurrences replace_first]. destruct (starts_with p (c :: s)) eqn:E.
  - intros Ho. apply starts_with_spec in E as [b Hb]. exists [], b. rewrite Hb at 2. rewrite drop_app_length. split_and!; [done..|].
    intros a' b' Hs. destruct a' as [|c' a']; [destruct p; [done|simpl; lia]|]. injection Hs as <- Hs.
    apply (occurrences_none p s Hp (length p - 1)) in Hs; [simpl; lia|lia].
  - intros (a & b & -> & -> & Hu)%IH. exists (c :: a), b. split_and!; [done..|]. intros a' b' Hs. destruct a' as [|c' a'].
    + assert (starts_with p (c :: a ++ p ++ b) = true) by (apply starts_with_spec; by exists b'). congruence.
    + injection Hs as <- Hs. apply Hu in Hs. simpl. lia.
Qed.

(** One place, all others overlapping with it. *)
Definition replaced (text old new updated : list Z) : Prop :=
  ∃ a b, text = a ++ old ++ b ∧ updated = a ++ new ++ b ∧
    (old = [] → text = []) ∧ (old ≠ [] → ∀ a' b', text = a' ++ old ++ b' → (length a <= length a' < length a + length old)%nat).
Lemma replace_unique_spec text old new updated : replace_unique text old new = Ok updated → replaced text old new updated.
Proof.
  unfold replace_unique, count_matches, replaced. cbv zeta. case_bool_decide as Ho.
  - subst old. destruct (Z.eqb_spec (size_of text + 1) 0); [done|]. destruct (Z.ltb_spec 1 (size_of text + 1)) as [|Hl]; [done|]. intros [= <-].
    assert (text = []) as -> by (destruct text; [done|unfold size_of in Hl; simpl in Hl; lia]). exists [], []. simpl. by rewrite app_nil_r.
  - destruct (Z.eqb_spec (occurrences old text 0) 0) as [|H0]; [done|]. destruct (Z.ltb_spec 1 (occurrences old text 0)) as [|H1]; [done|]. intros [= <-].
    assert (Hge : ∀ s k, 0 <= occurrences old s k). { clear. induction s as [|c s IH]; intros k; [done|]. simpl. destruct k; [case_match; [specialize (IH (length old - 1)%nat); lia|apply IH]|apply IH]. }
    specialize (Hge text 0%nat). destruct (occurrences_one old new text Ho) as (a & b & Ht & Hr & Hu); [lia|]. exists a, b. by split_and!.
Qed.

(** An edit that goes through has replaced one occurrence of the old text, with
    which all others overlap, in the one file it names, and changed nothing else;
    any other edit has changed nothing. *)
Theorem edit_replaces_one `{Process} fs cwd r args pid n : tool_normalize cwd = abs r → canonicalize fs cwd = Some r → r ≠ [] → fenced r fs → no_link fs →
  (∀ l f, fs !! (l ++ [edit_tmp_name f pid n]) = None) →
  match edit_impl fs cwd args pid n with
  | (fs', Err _) => fs' = fs
  | (fs', Ok _) => ∃ path old new ns text updated,
      json_str args (lit "file_path") = Ok path ∧ json_str args (lit "old_string") = Ok old ∧ json_str args (lit "new_string") = Ok new ∧
      resolve_within_cwd fs cwd path = Ok (abs ns) ∧ fs !! ns = Some (File text) ∧ replaced text old new updated ∧ fs' = <[ns := File updated]> fs
  end.
Proof.
  intros Hr Hc Hne Hf Hnl Hfresh. destruct (edit_found fs cwd r args pid n) as [[e ->]|(path & old & new & q & f & d & k & text & updated & H1 & H2 & H3 & H4 & H5 & H6 & H7 & H8 & ->)]; [done..|].
  pose proof (f_tree _ _ Hf) as Ht. apply ck_id in H7 as ->; [|done..]. exists path, old, new, (q ++ [f]), text, updated. split_and!; try done; [|by apply replace_unique_spec].
  revert H5. unfold read_to_string, metadata. rewrite canon_ck. destruct (ck fs (q ++ [f])) as [[l k']|] eqn:E; [|done]. apply ck_id in E as ->; [|done..]. simpl.
  unfold entry_at. rewrite bool_decide_false by (by intros [_ ?]%app_eq_nil). destruct (fs !! (q ++ [f])) as [[]|]; naive_solver.
Qed.

(** Two places that overlap count as one: the first is replaced. *)
Lemma overlapping_edit : replace_unique (lit "aaa") (lit "aa") (lit "b") = Ok (lit "ba") ∧ lit "aaa" = lit "a" ++ lit "aa" ++ [].
Proof. by vm_compute. Qed.

(** A page is the lines asked for, and pages one after another are the file. *)
Lemma read_lines_spec ls : ∀ lineno start lim out res, read_lines ls lineno start (Some (start + Z.of_nat lim)) out = Ok res → 0 <= start - lineno →
  res = out ++ unlines (take lim (drop (Z.to_nat (start - lineno)) ls)).
Proof.
  assert (Hin : ∀ ls lineno e lim out res, e = lineno + Z.of_nat lim → ∀ start, start <= lineno → read_lines ls lineno start (Some e) out = Ok res → res = out ++ unlines (take lim ls)).
  { clear. intros ls. induction ls as [|l ls IH]; intros lineno e lim out res He start Hst; cbn [read_lines].
    - intros [= <-]. rewrite take_nil. simpl. by rewrite app_nil_r.
    - destruct (Z.ltb_spec lineno start); [lia|]. cbn [from_option]. destruct (Z.leb_spec e lineno).
      + intros [= <-]. assert (lim = 0%nat) as -> by lia. simpl. by rewrite app_nil_r.
      + cbv zeta. destruct (READ_CAP <? _); [done|]. destruct lim as [|lim]; [lia|]. intros Hr. apply (IH (lineno + 1) e lim) in Hr as ->; [|lia..].
        cbn [take]. rewrite unlines_cons. by rewrite <- !app_assoc. }
  induction ls as [|l ls IH]; intros lineno start lim out res.
  - cbn [read_lines]. intros [= <-] _. rewrite drop_nil, take_nil. simpl. by rewrite app_nil_r.
  - intros Hr Hs. destruct (Z.eqb_spec start lineno) as [->|Hne].
    + rewrite Z.sub_diag. simpl (drop _ _). by eapply Hin in Hr.
    + cbn [read_lines] in Hr. destruct (Z.ltb_spec lineno start); [|lia]. apply IH in Hr as ->; [|lia].
      replace (Z.to_nat (start - lineno)) with (S (Z.to_nat (start - (lineno + 1)))) by lia. done.
Qed.

(** ** Concrete trees *)
Section Examples.
Let example_process : Process := {| working_directory := []; max_links := 40 |}.
#[local] Existing Instance example_process.

Definition fence_check (r : list (list Z)) (es : list (list (list Z) * Entry)) : bool :=
  forallb (λ le, match le.1 with
    | [] => false
    | l => (bool_decide (removelast l = []) || bool_decide (files_with es !! removelast l = Some Dir)) &&
           (match le.2 with Symlink _ => bool_decide (r `prefix_of` l) | _ => true end) && bool_decide (length (List.last l []) < 5)%nat
    end) es
  && forallb (λ k, bool_decide (files_with es !! take (S k) r = Some Dir)) (seq 0 (length r)).
Lemma fence_checked r es : fence_check r es = true → fenced r (files_with es) ∧ ∀ u pid n, fresh_tmp (files_with es) u pid n.
Proof.
  unfold fence_check. rewrite andb_true_iff, !forallb_forall. intros [He Hr].
  assert (Hin : ∀ l n e, files_with es !! (l ++ [n]) = Some e →
    (l = [] ∨ files_with es !! l = Some Dir) ∧ (∀ t, e = Symlink t → r `prefix_of` (l ++ [n])) ∧ (length n < 5)%nat).
  { intros l n e Hl%elem_of_list_to_map_2%list_elem_of_In%He. cbn [fst snd] in Hl. destruct (l ++ [n]) as [|x xs] eqn:E; [by apply app_eq_nil in E as [_ ?]|].
    rewrite <- E in *. rewrite removelast_last, List.last_last, !andb_true_iff, orb_true_iff, !bool_decide_eq_true in Hl.
    destruct Hl as [[H1 H2] H3]. split_and!; [done| |done]. intros t ->. by apply bool_decide_eq_true in H2. }
  split; [split|].
  - intros l n e Hl. by destruct (Hin _ _ _ Hl).
  - intros ns n [s Hs]. subst r. assert (Hk : In (length ns) (seq 0 (length ((ns ++ [n]) ++ s)))) by (apply in_seq; rewrite !length_app; simpl; lia).
    apply Hr, bool_decide_eq_true in Hk. rewrite <- Hk. f_equal. rewrite <- app_assoc. rewrite firstn_app, take_ge by lia.
    replace (S (length ns) - length ns)%nat with 1%nat by lia. done.
  - intros l t Hl. destruct l as [|n l _] using rev_ind; [|by eapply Hin in Hl as (_ & ? & _); eauto].
    apply elem_of_list_to_map_2, list_elem_of_In, He in Hl. done.
  - intros u pid n l f. split.
    + destruct (files_with es !! _) as [e|] eqn:E; [|done]. apply Hin in E as (_ & _ & Hl). unfold write_tmp_name in Hl. rewrite !length_app in Hl. simpl in Hl. lia.
    + destruct (files_with es !! _) as [e|] eqn:E; [|done]. apply Hin in E as (_ & _ & Hl). unfold edit_tmp_name in Hl. rewrite !length_app in Hl. simpl in Hl. lia.
Qed.

Definition workspace : list (list (list Z) * Entry) :=
  [([lit "w"], Dir); ([lit "w"; lit "a"], File (lit "one two")); ([lit "w"; lit "l"], Symlink (lit "../b")); ([lit "w"; lit "d"], Symlink (lit "e"));
   ([lit "w"; lit "e"], Dir); ([lit "w"; lit "x"], Symlink (lit "../none/y")); ([lit "b"], File (lit "z"))].
Definition write_args (path content : list Z) : Value := Object [(lit "content", Text content); (lit "file_path", Text path)].
Definition edit_args (path old new : list Z) : Value :=
  Object [(lit "file_path", Text path); (lit "new_string", Text new); (lit "old_string", Text old)].

Lemma tools_stay_inside_witness :
  let fs := files_with workspace in
  (write_impl fs cwd_w (write_args (lit "d/n/m") (lit "k")) (lit "u")).1 !! [lit "w"; lit "e"; lit "n"; lit "m"] = Some (File (lit "k")) ∧
  (edit_impl fs cwd_w (edit_args (lit "l") (lit "z") (lit "q")) 7 0).2 = Err OutsideCwd ∧
  same_outside w_dir fs (write_impl fs cwd_w (write_args (lit "d/n/m") (lit "k")) (lit "u")).1 ∧
  same_outside w_dir fs (edit_impl fs cwd_w (write_args (lit "d/n/m") (lit "k")) 7 0).1.
Proof.
  intros fs. assert (Hf : fenced w_dir fs ∧ ∀ u pid n, fresh_tmp fs u pid n) by (apply fence_checked; vm_compute; reflexivity). split; [vm_eq|]. split; [vm_eq|].
  apply (tools_stay_inside fs cwd_w w_dir (write_args (lit "d/n/m") (lit "k")) (lit "u") 7 0); [vm_eq|vm_eq|done|apply Hf|apply Hf].
Defined.

Definition plain_workspace : list (list (list Z) * Entry) :=
  [([lit "w"], Dir); ([lit "w"; lit "a"], File (lit "one two")); ([lit "b"], File (lit "z"))].
Lemma plain_no_link : no_link (files_with plain_workspace).
Proof.
  intros l t Hl%elem_of_list_to_map_2. repeat (apply elem_of_cons in Hl as [Hl|Hl]; [done|]). by apply elem_of_nil in Hl.
Qed.

Lemma write_then_read_witness :
  read_impl (write_impl (files_with plain_workspace) cwd_w (write_args (lit "n/m") (lit "kept")) (lit "u")).1 cwd_w (Object [(lit "file_path", Text (lit "n/m"))]) = Ok (lit "kept").
Proof.
  assert (Hf : fenced w_dir (files_with plain_workspace) ∧ ∀ u pid n, fresh_tmp (files_with plain_workspace) u pid n) by (apply fence_checked; vm_compute; reflexivity).
  apply (write_then_read (files_with plain_workspace) cwd_w w_dir (lit "n/m") (lit "kept") [] (lit "u") 7 0 _ Created [lit "w"; lit "n"; lit "m"]);
    [vm_eq|vm_eq|done|apply Hf|apply plain_no_link|apply Hf|vm_eq|by repeat constructor|by apply (bool_decide_unpack _)|vm_eq].
Defined.

Lemma edit_replaces_one_witness :
  match edit_impl (files_with plain_workspace) cwd_w (edit_args (lit "a") (lit "one") (lit "1")) 7 0 with
  | (fs', Err _) => fs' = files_with plain_workspace
  | (fs', Ok _) => ∃ path old new ns text updated,
      json_str (edit_args (lit "a") (lit "one") (lit "1")) (lit "file_path") = Ok path ∧ json_str (edit_args (lit "a") (lit "one") (lit "1")) (lit "old_string") = Ok old ∧
      json_str (edit_args (lit "a") (lit "one") (lit "1")) (lit "new_string") = Ok new ∧
      resolve_within_cwd (files_with plain_workspace) cwd_w path = Ok (abs ns) ∧ files_with plain_workspace !! ns = Some (File text) ∧
      replaced text old new updated ∧ fs' = <[ns := File updated]> (files_with plain_workspace)
  end ∧ (edit_impl (files_with plain_workspace) cwd_w (edit_args (lit "a") (lit "one") (lit "1")) 7 0).1 !! [lit "w"; lit "a"] = Some (File (lit "1 two")).
Proof.
  assert (Hf : fenced w_dir (files_with plain_workspace) ∧ ∀ u pid n, fresh_tmp (files_with plain_workspace) u pid n) by (apply fence_checked; vm_compute; reflexivity).
  split; [|vm_eq]. apply (edit_replaces_one (files_with plain_workspace) cwd_w w_dir (edit_args (lit "a") (lit "one") (lit "1")) 7 0);
    [vm_eq|vm_eq|done|apply Hf|apply plain_no_link|]. intros l f. by apply (proj2 Hf []).
Defined.

(** An edit of a link puts a file in its place: the file it led to stays as it was. *)
Lemma edit_replaces_link :
  let fs := files_with [([lit "w"], Dir); ([lit "w"; lit "a"], Symlink (lit "f")); ([lit "w"; lit "f"], File (lit "z"))] in
  let fs' := (edit_impl fs cwd_w (edit_args (lit "a") (lit "z") (lit "q")) 7 0).1 in
  fs' !! [lit "w"; lit "a"] = Some (File (lit "q")) ∧ fs' !! [lit "w"; lit "f"] = Some (File (lit "z")).
Proof. split; vm_eq. Qed.
(** The temporary file's name can be told beforehand: a link of that name makes an
    edit write outside the working directory. *)
Lemma edit_follows_tmp_link :
  let fs := files_with [([lit "w"], Dir); ([lit "w"; lit "a"], File (lit "z")); ([lit "w"; lit ".a.7.0.tmp"], Symlink (lit "../b")); ([lit "b"], File (lit "s"))] in
  (edit_impl fs cwd_w (edit_args (lit "a") (lit "z") (lit "q")) 7 0).1 !! [lit "b"] = Some (File (lit "q")).
Proof. intros fs. vm_eq. Qed.
(** A link outside that leads back in lets a file outside be replaced: what is
    checked is where the file leads, and what is replaced is the link. *)
Lemma link_back_is_replaced :
  let fs := files_with [([lit "w"], Dir); ([lit "w"; lit "l"], Symlink (lit "../o")); ([lit "w"; lit "f"], File (lit "z"));
                        ([lit "o"], Dir); ([lit "o"; lit "f"], Symlink (lit "../w/f"))] in
  (write_impl fs cwd_w (write_args (lit "l/f") (lit "q")) (lit "u")).1 !! [lit "o"; lit "f"] = Some (File (lit "q")).
Proof. intros fs. vm_eq. Qed.

(** A match in a line whose 500th byte is inside a character is a panic. *)
Lemma long_line_panics :
  let fs := files_with [([lit "w"], Dir); ([lit "w"; lit "a"], File (repeat 97 499 ++ [233]))] in
  consider_file fs (λ _, true) None (search_boundary fs cwd_w (abs [lit "w"; lit "a"])) (abs [lit "w"; lit "a"]) (mk_hits [] 0) = None.
Proof. intros fs. vm_eq. Qed.
(** A page is not the file's text: line breaks are made plain, and one is added. *)
Lemma page_changes_line_breaks :
  let fs := files_with [([lit "w"], Dir); ([lit "w"; lit "a"], File [97; 13; 10; 98])] in
  read_impl fs cwd_w (Object [(lit "file_path", Text (lit "a")); (lit "offset", Number (lit "1"))]) = Ok [97; 10; 98; 10].
Proof. intros fs. vm_eq. Qed.
End Examples.
