(* ===== verification/ExecPolicy.v ===== *)
(** * The execution policy

    [crates/pulsing-forge/src/execpolicy/policy.rs]: prefix rules on the tokens
    of a command, and the rule that decides. *)
From S2P Require Import Prelude Text.

(** ** Decisions and rules *)

(** src: crates/pulsing-forge/src/execpolicy/policy.rs 8-13 Decision *)
Inductive Decision := Allow | Prompt | Forbidden.
#[export] Instance Decision_eq_dec : EqDecision Decision.
Proof. solve_decision. Defined.
(** The derived order, by the discriminants. *)
Definition severity (d : Decision) : nat := match d with Allow => 0 | Prompt => 1 | Forbidden => 2 end.

(** No letter outside ASCII has the lower case of a letter of these words.
    src: crates/pulsing-forge/src/execpolicy/policy.rs 16-23 Decision::parse *)
Definition decision_parse (raw : str) : option Decision :=
  let word := to_ascii_lowercase (trim raw) in
  if bool_decide (word = lit "allow") then Some Allow
  else if bool_decide (word = lit "prompt") then Some Prompt
  else if bool_decide (word = lit "forbidden" ∨ word = lit "deny") then Some Forbidden
  else None.

(** src: crates/pulsing-forge/src/execpolicy/policy.rs 27-33 PrefixRule *)
Record PrefixRule := mk_rule { pattern : list str; decision : Decision; justification : option str }.

(** src: crates/pulsing-forge/src/execpolicy/policy.rs 36-41 PrefixRule::matches *)
Definition rule_matches (r : PrefixRule) (cmd : list str) : bool :=
  if (length cmd <? length (pattern r))%nat then false
  else forallb (λ ab, bool_decide (ab.1 = ab.2)) (zip cmd (pattern r)).

(** src: crates/pulsing-forge/src/execpolicy/policy.rs 51-53 ExecPolicy *)
Record ExecPolicy := mk_policy { rules : list PrefixRule }.

(** src: crates/pulsing-forge/src/execpolicy/policy.rs 56-60 PolicyMatch *)
Record PolicyMatch := mk_match {
  match_decision : Decision; matched_prefix : list str; match_justification : option str }.

(** src: crates/pulsing-forge/src/execpolicy/policy.rs 67-95 default_codex_like *)
Definition default_codex_like : ExecPolicy := mk_policy
  [ mk_rule [lit "git"; lit "reset"; lit "--hard"] Forbidden (Some (lit "destructive git reset --hard"));
    mk_rule [lit "rm"; lit "-rf"] Prompt (Some (lit "recursive force delete"));
    mk_rule [lit "curl"] Prompt (Some (lit "network access via curl"));
    mk_rule [lit "wget"] Prompt (Some (lit "network access via wget"));
    mk_rule [lit "sudo"] Forbidden (Some (lit "elevated privileges")) ].

(** src: crates/pulsing-forge/src/execpolicy/policy.rs 109-119 add_allow_prefix *)
Definition add_allow_prefix (prefix : list str) (p : ExecPolicy) : ExecPolicy :=
  if bool_decide (prefix = []) then p
  else mk_policy (filter (λ r, pattern r ≠ prefix) (rules p) ++ [mk_rule prefix Allow None]).

(** The loop's body: whether a rule takes the place of the best so far.
    src: crates/pulsing-forge/src/execpolicy/policy.rs 123-138 evaluate (loop) *)
Definition better (cmd : list str) (best : option PrefixRule) (rule : PrefixRule) : option PrefixRule :=
  if negb (rule_matches rule cmd) then best
  else match best with
  | None => Some rule
  | Some prev =>
      if (length (pattern prev) <? length (pattern rule))%nat then Some rule
      else if (length (pattern rule) =? length (pattern prev))%nat
              && (severity (decision prev) <? severity (decision rule))%nat then Some rule
      else best
  end.

(** src: crates/pulsing-forge/src/execpolicy/policy.rs 121-151 evaluate *)
Definition evaluate (cmd : list str) (p : ExecPolicy) : PolicyMatch :=
  match foldl (better cmd) None (rules p) with
  | Some rule => mk_match (decision rule) (pattern rule) (justification rule)
  | None => mk_match Prompt cmd (Some (lit "no matching execpolicy rule"))
  end.

(** ** What decides *)

Lemma rule_matches_prefix r cmd : rule_matches r cmd = true ↔ pattern r `prefix_of` cmd.
Proof.
  unfold rule_matches. generalize (pattern r) as p. clear r. intros p. revert cmd.
  induction p as [|a p IH]; intros cmd; [split; [intros _; apply prefix_nil|by destruct cmd]|].
  destruct cmd as [|b cmd]; [split; [done|by intros ?%prefix_nil_inv]|]. simpl.
  change (S (length cmd) <? S (length p))%nat with (length cmd <? length p)%nat. specialize (IH cmd).
  destruct (length cmd <? length p)%nat eqn:El.
  { split; [done|]. intros Hp%prefix_length. simpl in Hp. apply Nat.ltb_lt in El. lia. }
  rewrite andb_true_iff, IH, bool_decide_eq_true. split.
  - intros [-> Hp]. by apply prefix_cons.
  - intros Hp. split; [symmetry; by eapply prefix_cons_inv_1|by eapply prefix_cons_inv_2].
Qed.

Lemma same_length_prefix (a b c : list str) : a `prefix_of` c → b `prefix_of` c → length a = length b → a = b.
Proof. intros [k ->] [k' Hk] Hl. by apply app_inj_1 in Hk as [-> _]. Qed.

(** The rule a search over [rs] ends with: the longest that matches, and the
    strictest of those. *)
Definition Best (cmd : list str) (rs : list PrefixRule) (best : option PrefixRule) : Prop :=
  match best with
  | None => ∀ r, r ∈ rs → ¬ pattern r `prefix_of` cmd
  | Some b => b ∈ rs ∧ pattern b `prefix_of` cmd ∧
      ∀ r, r ∈ rs → pattern r `prefix_of` cmd →
        (length (pattern r) < length (pattern b))%nat ∨ (pattern r = pattern b ∧ (severity (decision r) <= severity (decision b))%nat)
  end.

Lemma better_best cmd rs best r : Best cmd rs best → Best cmd (rs ++ [r]) (better cmd best r).
Proof.
  intros Hb. unfold better. pose proof (rule_matches_prefix r cmd) as Hm.
  destruct (rule_matches r cmd); simpl.
  - assert (Hr : pattern r `prefix_of` cmd) by by apply Hm. destruct best as [b|]; simpl in *.
    + destruct Hb as (Hin & Hp & Hall). destruct (length (pattern b) <? length (pattern r))%nat eqn:E1.
      { apply Nat.ltb_lt in E1. split_and!; [set_solver|done|]. intros r' [H'|H']%elem_of_app Hp'.
        - destruct (Hall r' H' Hp') as [?|[-> ?]]; left; lia.
        - apply list_elem_of_singleton in H' as ->. by right. }
      apply Nat.ltb_ge in E1. destruct (_ && _) eqn:E2.
      * apply andb_true_iff in E2 as [E2%Nat.eqb_eq E3%Nat.ltb_lt]. split_and!; [set_solver|done|].
        assert (Heq : pattern r = pattern b) by by eapply same_length_prefix.
        intros r' [H'|H']%elem_of_app Hp'.
        -- destruct (Hall r' H' Hp') as [?|[-> ?]]; [left; lia|right; split; [done|lia]].
        -- apply list_elem_of_singleton in H' as ->. by right.
      * split_and!; [set_solver|done|]. intros r' [H'|H']%elem_of_app Hp'; [by apply Hall|].
        apply list_elem_of_singleton in H' as ->.
        destruct (decide (length (pattern r) = length (pattern b))) as [Hl|Hl]; [right|left; lia].
        rewrite Hl, Nat.eqb_refl in E2. simpl in E2. apply Nat.ltb_ge in E2.
        split; [by eapply same_length_prefix|done].
    + split_and!; [set_solver|done|]. intros r' [H'|H']%elem_of_app Hp'; [by destruct (Hb r' H')|].
      apply list_elem_of_singleton in H' as ->. by right.
  - assert (Hr : ¬ pattern r `prefix_of` cmd) by (intros ?%Hm; done). destruct best as [b|]; simpl in *.
    + destruct Hb as (Hin & Hp & Hall). split_and!; [set_solver|done|].
      intros r' [H'|H']%elem_of_app Hp'; [by apply Hall|]. by apply list_elem_of_singleton in H' as ->.
    + intros r' [H'|H']%elem_of_app; [by apply Hb|]. by apply list_elem_of_singleton in H' as ->.
Qed.

Lemma search_best cmd rs : Best cmd rs (foldl (better cmd) None rs).
Proof.
  induction rs as [|r rs IH] using rev_ind; [by intros r ?%elem_of_nil|].
  rewrite foldl_app. by apply better_best.
Qed.

(** What a match says of the rules that gave it. *)
Definition decides (cmd : list str) (rs : list PrefixRule) (m : PolicyMatch) : Prop :=
  (∃ r, r ∈ rs ∧ pattern r = matched_prefix m ∧ decision r = match_decision m ∧ justification r = match_justification m ∧
     pattern r `prefix_of` cmd ∧
     ∀ r', r' ∈ rs → pattern r' `prefix_of` cmd →
       (length (pattern r') < length (pattern r))%nat ∨ (pattern r' = pattern r ∧ (severity (decision r') <= severity (decision r))%nat))
  ∨ ((∀ r, r ∈ rs → ¬ pattern r `prefix_of` cmd) ∧ match_decision m = Prompt ∧ matched_prefix m = cmd).

Lemma evaluate_decides cmd p : decides cmd (rules p) (evaluate cmd p).
Proof.
  unfold evaluate. pose proof (search_best cmd (rules p)) as Hb.
  destruct (foldl _ _ _) as [b|]; [left|right; done]. destruct Hb as (? & ? & ?). by exists b.
Qed.

(** Two matches of the same command by the same set of rules decide alike. *)
Lemma decides_unique cmd rs rs' m m' :
  (∀ r, r ∈ rs ↔ r ∈ rs') → decides cmd rs m → decides cmd rs' m' →
  match_decision m = match_decision m' ∧ matched_prefix m = matched_prefix m'.
Proof.
  intros Heq [(r & Hin & Hp & Hd & _ & Hpre & Hall)|(Hno & Hd & Hp)] [(r' & Hin' & Hp' & Hd' & _ & Hpre' & Hall')|(Hno' & Hd' & Hp')].
  - assert (Hs : pattern r = pattern r' ∧ severity (decision r) = severity (decision r')).
    { destruct (Hall r') as [Hl|[H1 H2]]; [by apply Heq|done| |];
        (destruct (Hall' r) as [Hl'|[H3 H4]]; [by apply Heq|done| |]); try lia; try (rewrite H3 in Hl; lia); try (rewrite H1 in Hl'; lia).
      split; [done|lia]. }
    destruct Hs as [H1 H2]. split; [|congruence]. rewrite <- Hd, <- Hd'. by destruct (decision r), (decision r').
  - by destruct (Hno' r); [apply Heq|].
  - by destruct (Hno r'); [apply Heq|].
  - by rewrite Hd, Hd', Hp, Hp'.
Qed.

(** The rule that decides is the longest one whose pattern the command
    starts with, and of equal ones the strictest; without one the command has to
    be approved. The order of the rules makes no difference. *)
Theorem evaluate_spec cmd p :
  decides cmd (rules p) (evaluate cmd p) ∧
  ∀ p', rules p' ≡ₚ rules p →
    match_decision (evaluate cmd p') = match_decision (evaluate cmd p) ∧
    matched_prefix (evaluate cmd p') = matched_prefix (evaluate cmd p).
Proof.
  split; [apply evaluate_decides|]. intros p' Hp.
  apply (decides_unique cmd (rules p') (rules p)); [|apply evaluate_decides..]. intros r. by rewrite Hp.
Qed.

Lemma evaluate_any cmd p m :
  decides cmd (rules p) m → match_decision (evaluate cmd p) = match_decision m ∧ matched_prefix (evaluate cmd p) = matched_prefix m.
Proof. intros Hm. by eapply decides_unique; [|apply evaluate_decides|exact Hm]. Qed.

Lemma elem_of_amended r prefix p :
  prefix ≠ [] → r ∈ rules (add_allow_prefix prefix p) ↔ (r ∈ rules p ∧ pattern r ≠ prefix) ∨ r = mk_rule prefix Allow None.
Proof.
  intros Hne. unfold add_allow_prefix. rewrite bool_decide_false by done. simpl.
  rewrite elem_of_app, list_elem_of_filter, list_elem_of_singleton. tauto.
Qed.

Lemma longer_not (a b : list str) : (length a < length b)%nat → b ≠ a.
Proof. intros Hl ->. lia. Qed.

(** An approved amendment allows the commands that start with its prefix,
    unless a longer rule decides them, and leaves the decision on every other
    command as it was. *)
Theorem amendment_spec prefix cmd p (m := evaluate cmd p) (m' := evaluate cmd (add_allow_prefix prefix p))
    (outranked := ∃ r, r ∈ rules p ∧ pattern r `prefix_of` cmd ∧ (length prefix < length (pattern r))%nat) :
  (prefix ≠ [] ∧ prefix `prefix_of` cmd ∧ ¬ outranked → match_decision m' = Allow ∧ matched_prefix m' = prefix) ∧
  (prefix = [] ∨ ¬ prefix `prefix_of` cmd ∨ outranked → match_decision m' = match_decision m ∧ matched_prefix m' = matched_prefix m).
Proof.
  split.
  - intros (Hne & Hp & Hlong). apply (evaluate_any _ _ (mk_match Allow prefix None)). left.
    exists (mk_rule prefix Allow None). split_and!; [apply elem_of_amended; auto|done..|].
    intros r [[Hr Hx]| ->]%elem_of_amended Hpre; [left|by right|done]. simpl.
    destruct (decide (length (pattern r) = length prefix)) as [Hl|Hl]; [by destruct Hx; eapply same_length_prefix|].
    destruct (decide (length prefix < length (pattern r))%nat) as [Hgt|?]; [|lia]. destruct Hlong. by exists r.
  - intros Hcase. destruct (decide (prefix = [])) as [->|Hne]; [done|]. destruct Hcase as [?|Hcase]; [done|].
    apply evaluate_any. pose proof (evaluate_decides cmd p) as [(b & Hin & Hmp & Hd & Hj & Hpre & Hall)|(Hno & Hd & Hmp)].
    + left. exists b. assert (Hb : pattern b ≠ prefix).
      { destruct Hcase as [Hnp|(r & Hr & Hrp & Hl)]; [intros Hb; by rewrite Hb in Hpre|].
        apply longer_not. destruct (Hall r Hr Hrp) as [?|[Heq ?]]; [lia|by rewrite <- Heq]. }
      split_and!; [apply elem_of_amended; auto|done..|]. intros r [[Hr _]| ->]%elem_of_amended Hrp; [by apply Hall| |done].
      left. destruct Hcase as [Hnp|(r & Hr & Hr' & Hl)]; [done|]. simpl. destruct (Hall r Hr Hr') as [?|[Hrb ?]]; [|rewrite Hrb in Hl]; lia.
    + right. split_and!; [|done..]. intros r [[Hr _]| ->]%elem_of_amended Hrp; [by apply (Hno r)| |done].
      destruct Hcase as [Hnp|(r & Hr & Hr' & Hl)]; [done|]. by apply (Hno r).
Qed.

Lemma amendment_spec_witness :
  match_decision (evaluate [lit "rm"; lit "-rf"; lit "t"] (add_allow_prefix [lit "rm"; lit "-rf"] default_codex_like)) = Allow ∧
  match_decision (evaluate [lit "git"; lit "reset"; lit "--hard"] (add_allow_prefix [lit "git"] default_codex_like)) = Forbidden.
Proof.
  split.
  - apply (amendment_spec [lit "rm"; lit "-rf"] [lit "rm"; lit "-rf"; lit "t"] default_codex_like). split_and!; [done|by eexists [_]|].
    intros (r & Hr & [k Hk] & Hl). unfold default_codex_like in Hr. cbn [rules] in Hr.
    repeat (apply elem_of_cons in Hr as [->|Hr]; [by vm_compute in Hl; try lia; vm_compute in Hk|]). by apply elem_of_nil in Hr.
  - assert (Hm : match_decision (evaluate [lit "git"; lit "reset"; lit "--hard"] default_codex_like) = Forbidden) by vm_eq.
    rewrite <- Hm. apply (amendment_spec [lit "git"] [lit "git"; lit "reset"; lit "--hard"] default_codex_like). right. right.
    exists (mk_rule [lit "git"; lit "reset"; lit "--hard"] Forbidden (Some (lit "destructive git reset --hard"))).
    split_and!; [apply list_elem_of_here|done|vm_compute; lia].
Defined.

Lemma evaluate_spec_witness :
  let cmd := [lit "git"; lit "reset"; lit "--hard"; lit "HEAD"] in
  match_decision (evaluate cmd (mk_policy (reverse (rules default_codex_like)))) = match_decision (evaluate cmd default_codex_like).
Proof. intros cmd. apply (evaluate_spec cmd default_codex_like). apply reverse_Permutation. Defined.
