(* ===== verification/Approval.v ===== *)
(** * Approval of shell commands

    [crates/pulsing-forge/src/approval] (types, cache and gate), the sandbox
    plan of [sandbox.rs] and the tools that change the cache. The host that
    answers requests is an argument, and what it was asked is part of a call's
    result; the splitting of a command into words ([shlex]) is one too. *)
From S2P Require Import Prelude Text Files ExecPolicy Json.

(** ** Types *)

(** src: crates/pulsing-forge/src/approval/types.rs 6-16 ApprovalPolicy *)
Inductive ApprovalPolicy := OnRequest | Always | Never.
#[export] Instance ApprovalPolicy_eq_dec : EqDecision ApprovalPolicy.
Proof. solve_decision. Defined.

(** src: crates/pulsing-forge/src/sandbox.rs 6-11 SandboxPolicy *)
Inductive SandboxPolicy := Off | Restricted | Bwrap.
#[export] Instance SandboxPolicy_eq_dec : EqDecision SandboxPolicy.
Proof. solve_decision. Defined.

(** src: crates/pulsing-forge/src/sandbox.rs 13-19 normalize_policy *)
Definition normalize_policy (raw : str) : SandboxPolicy :=
  let word := to_ascii_lowercase (trim raw) in
  if bool_decide (word = lit "restricted") then Restricted
  else if bool_decide (word = lit "bwrap") then Bwrap else Off.

(** src: crates/pulsing-forge/src/approval/types.rs 18-31 ExecApprovalRequest *)
Record ExecApprovalRequest := mk_request {
  req_command : list str;
  req_cwd : Path;
  req_reason : option str;
  req_sandbox_permissions : option str;
  req_policy_decision : Decision;
  req_justification : option str;
  req_amendment : option (list str) }.

(** src: crates/pulsing-forge/src/approval/types.rs 33-43 ReviewDecision *)
Inductive ReviewDecision :=
  | Approved
  | ApprovedExecpolicyAmendment (proposed_execpolicy_amendment : list str)
  | ApprovedForSession
  | Denied
  | Aborted.

(** src: crates/pulsing-forge/src/approval/types.rs 46-51 is_approved *)
Definition is_approved (d : ReviewDecision) : bool :=
  match d with Approved | ApprovedExecpolicyAmendment _ | ApprovedForSession => true | _ => false end.

(** src: crates/pulsing-forge/src/error.rs 7-13 ToolError *)
Inductive ToolError := RespondToModel (msg : str) | Fatal (msg : str).

(** ** Permission profiles *)

(** src: crates/pulsing-forge/src/approval/types.rs 54-61 RequestPermissionProfile *)
Record RequestPermissionProfile := mk_profile { network : option Value; file_system : option Value }.
Definition no_permissions : RequestPermissionProfile := mk_profile None None.

(** src: crates/pulsing-forge/src/approval/types.rs 175-203 is_permission_section_empty *)
Definition is_permission_section_empty (value : Value) : bool :=
  match value with
  | Null => true
  | Object map =>
      if bool_decide (map = []) then true
      else if bool_decide (length map = 1%nat) && default false (is_null <$> member (lit "enabled") map) then true
      else match member (lit "entries") map ≫= as_array with
      | Some entries => bool_decide (entries = [])
      | None =>
          let empty_list (v : option Value) :=
            match v with
            | Some v => match as_array v with Some a => bool_decide (a = []) | None => true end
            | None => true
            end in
          let read := member (lit "read") map in
          let write := member (lit "write") map in
          if bool_decide (is_Some read ∨ is_Some write) then empty_list read && empty_list write else false
      end
  | _ => false
  end.

(** src: crates/pulsing-forge/src/approval/types.rs 64-66 is_empty *)
Definition profile_is_empty (p : RequestPermissionProfile) : bool := bool_decide (network p = None ∧ file_system p = None).
(** src: crates/pulsing-forge/src/approval/types.rs 70-82 is_effectively_empty *)
Definition is_effectively_empty (p : RequestPermissionProfile) : bool :=
  default true (is_permission_section_empty <$> network p) && default true (is_permission_section_empty <$> file_system p).
(** src: crates/pulsing-forge/src/approval/types.rs 84-86 has_actionable_request *)
Definition has_actionable_request (p : RequestPermissionProfile) : bool :=
  negb (profile_is_empty p) && negb (is_effectively_empty p).
(** src: crates/pulsing-forge/src/approval/types.rs 96-102 network_enabled *)
Definition network_enabled (p : RequestPermissionProfile) : bool :=
  default false ((network p ≫= get (lit "enabled")) ≫= as_bool).

(** One element of the entries list.
    src: crates/pulsing-forge/src/approval/types.rs 133-152 collect_file_system_path_strings (entry) *)
Definition entry_path (entry : Value) : list str :=
  match as_object entry ≫= member (lit "path") with
  | None => []
  | Some path_val =>
      match as_str path_val with
      | Some s => [s]
      | None =>
          match as_object path_val with
          | None => []
          | Some path_obj =>
              if bool_decide (member (lit "type") path_obj ≫= as_str = Some (lit "path"))
              then option_list (member (lit "path") path_obj ≫= as_str)
              else []
          end
      end
  end.
(** src: crates/pulsing-forge/src/approval/types.rs 118-155 collect_file_system_path_strings *)
Definition collect_file_system_path_strings (fs : Value) : list str :=
  match as_object fs with
  | None => []
  | Some obj =>
      let items key := default [] (member key obj ≫= as_array) in
      (items (lit "read") ≫= λ v, option_list (as_str v)) ++ (items (lit "write") ≫= λ v, option_list (as_str v))
      ++ (items (lit "entries") ≫= entry_path)
  end.

Inductive ProfileError := ParentDirInPath (raw : str) | PathOutside (raw : str).

(** The cache of one session.
    src: crates/pulsing-forge/src/approval/mod.rs 24-30 ApprovalCache *)
Record ApprovalCache := mk_cache {
  session_prefixes : list (list str);
  strict_auto_review : bool;
  turn_grants : option RequestPermissionProfile;
  session_grants : option RequestPermissionProfile }.
Definition ApprovalCache_default : ApprovalCache := mk_cache [] false None None.

(** src: crates/pulsing-forge/src/approval/mod.rs 33-36 is_prefix_allowed *)
Definition is_prefix_allowed (cmd : list str) (c : ApprovalCache) : bool :=
  existsb (λ p, bool_decide (p `prefix_of` cmd)) (session_prefixes c).
(** src: crates/pulsing-forge/src/approval/mod.rs 38-46 allow_prefix_for_session *)
Definition allow_prefix_for_session (prefix : list str) (c : ApprovalCache) : ApprovalCache :=
  if bool_decide (prefix = []) then c
  else if existsb (λ p, bool_decide (p = prefix)) (session_prefixes c) then c
  else mk_cache (session_prefixes c ++ [prefix]) (strict_auto_review c) (turn_grants c) (session_grants c).
(** src: crates/pulsing-forge/src/approval/mod.rs 48-50 set_strict_auto_review *)
Definition set_strict_auto_review (on : bool) (c : ApprovalCache) : ApprovalCache :=
  mk_cache (session_prefixes c) on (turn_grants c) (session_grants c).
(** src: crates/pulsing-forge/src/approval/mod.rs 57-64 record_permission_grant *)
Definition record_permission_grant (profile : RequestPermissionProfile) (scope : str) (c : ApprovalCache) : ApprovalCache :=
  if bool_decide (scope = lit "session")
  then mk_cache (session_prefixes c) (strict_auto_review c) (turn_grants c) (Some profile)
  else mk_cache (session_prefixes c) (strict_auto_review c) (Some profile) (session_grants c).
(** src: crates/pulsing-forge/src/approval/mod.rs 91-94 clear_turn_state *)
Definition clear_turn_state (c : ApprovalCache) : ApprovalCache :=
  mk_cache (session_prefixes c) false None (session_grants c).

(** The items of an overlay that the base does not have yet.
    src: crates/pulsing-forge/src/approval/mod.rs 113-117 merge_file_system_json (items) *)
Definition push_missing (base overlay : list Value) : list Value :=
  foldl (λ base item, if contains base item then base else base ++ [item]) base overlay.
(** src: crates/pulsing-forge/src/approval/mod.rs 107-119 merge_file_system_json (loop) *)
Definition merge_key (overlay_obj base_obj : list (str * Value)) (key : str) : list (str * Value) :=
  match member key overlay_obj ≫= as_array with
  | None => base_obj
  | Some overlay_arr =>
      let entry := default (Array []) (member key base_obj) in
      member_insert key (match as_array entry with Some base_arr => Array (push_missing base_arr overlay_arr) | None => entry end) base_obj
  end.
(** src: crates/pulsing-forge/src/approval/mod.rs 97-122 merge_file_system_json *)
Definition merge_file_system_json (base : option Value) (overlay : Value) : Value :=
  match base ≫= as_object, as_object overlay with
  | Some base_obj, Some overlay_obj => Object (foldl (merge_key overlay_obj) base_obj [lit "read"; lit "write"; lit "entries"])
  | _, _ => overlay
  end.
(** src: crates/pulsing-forge/src/approval/mod.rs 67-84 effective_grants *)
Definition effective_grants (c : ApprovalCache) : RequestPermissionProfile :=
  match session_grants c, turn_grants c with
  | None, None => no_permissions
  | Some s, None => s
  | None, Some t => t
  | Some s, Some t =>
      mk_profile (if bool_decide (is_Some (network t)) then network t else network s)
        (match file_system t with Some t_fs => Some (merge_file_system_json (file_system s) t_fs) | None => file_system s end)
  end.
(** src: crates/pulsing-forge/src/approval/mod.rs 86-88 network_granted *)
Definition network_granted (c : ApprovalCache) : bool := network_enabled (effective_grants c).

Section Paths.
Context `{Process}.

(** A path that does not exist is taken as it is written.
    src: crates/pulsing-forge/src/approval/types.rs 157-173 resolve_permission_path *)
Definition resolve_permission_path (fs : FileSystem) (cwd : Path) (raw : str) : Result Path ProfileError :=
  let path := components raw in
  if is_absolute path then Ok (from_option abs path (canonicalize fs path))
  else if bool_decide (ParentDir ∈ path) then Err (ParentDirInPath raw)
  else Ok (path_join cwd path).

(** src: crates/pulsing-forge/src/approval/types.rs 107-114 validate_file_system_paths (loop) *)
Fixpoint validate_all (fs : FileSystem) (root : Path) (raws : list str) : Result unit ProfileError :=
  match raws with
  | [] => Ok tt
  | raw :: raws =>
      let? resolved := resolve_permission_path fs root raw in
      if bool_decide (resolved ≠ root) && negb (bool_decide (root `prefix_of` resolved)) then Err (PathOutside raw)
      else validate_all fs root raws
  end.
(** src: crates/pulsing-forge/src/approval/types.rs 105-116 validate_file_system_paths *)
Definition validate_file_system_paths (fs : FileSystem) (cwd : Path) (value : Value) : Result unit ProfileError :=
  validate_all fs (from_option abs cwd (canonicalize fs cwd)) (collect_file_system_path_strings value).
(** src: crates/pulsing-forge/src/approval/types.rs 89-94 validate_paths *)
Definition validate_paths (fs : FileSystem) (cwd : Path) (p : RequestPermissionProfile) : Result unit ProfileError :=
  match file_system p with Some v => validate_file_system_paths fs cwd v | None => Ok tt end.
End Paths.

(** ** The gate *)

(** What the gate reads and writes of the shared state.
    src: crates/pulsing-forge/src/context.rs 106-118 ToolCallContext (exec_policy, approval_cache) *)
Record Gate := mk_gate { exec_policy : ExecPolicy; cache : ApprovalCache }.
Definition on_cache (f : ApprovalCache → ApprovalCache) (g : Gate) : Gate := mk_gate (exec_policy g) (f (cache g)).

(** src: crates/pulsing-forge/src/context.rs 106-118 ToolCallContext *)
Record ToolCallContext := mk_ctx { ctx_cwd : Path; ctx_sandbox_policy : SandboxPolicy; ctx_dangerously_disable_sandbox : bool }.

(** src: crates/pulsing-forge/src/approval/gate.rs 132-136 args_dangerously_disable_sandbox *)
Definition args_dangerously_disable_sandbox (ctx : ToolCallContext) (args : Value) : bool :=
  default (ctx_dangerously_disable_sandbox ctx) (get (lit "dangerously_disable_sandbox") args ≫= as_bool).

(** src: crates/pulsing-forge/src/approval/gate.rs 138-153 effective_sandbox_policy *)
Definition effective_sandbox_policy (ctx : ToolCallContext) (c : ApprovalCache) (args : Value) : SandboxPolicy :=
  if args_dangerously_disable_sandbox ctx args then Off
  else match get_str (lit "sandbox_permissions") args with
  | Some p =>
      if bool_decide (p = lit "require_escalated") then Off
      else if bool_decide (p = lit "with_additional_permissions") then
        if is_effectively_empty (effective_grants c) then ctx_sandbox_policy ctx else Restricted
      else ctx_sandbox_policy ctx
  | None => ctx_sandbox_policy ctx
  end.

(** src: crates/pulsing-forge/src/approval/gate.rs 108-130 apply_review_decision *)
Definition apply_review_decision (d : ReviewDecision) (tokens : list str) (g : Gate) : Gate :=
  match d with
  | Approved => g
  | ApprovedForSession => on_cache (allow_prefix_for_session tokens) g
  | ApprovedExecpolicyAmendment p => mk_gate (add_allow_prefix p (exec_policy g)) (cache g)
  | Denied | Aborted => g
  end.

Definition debug_decision (d : ReviewDecision) : str :=
  match d with Denied => lit "Denied" | Aborted => lit "Abort" | _ => [] end.

(** The host, asked at most once in a call.
    src: crates/pulsing-forge/src/context.rs 67-90 ToolSession *)
Record Host := mk_host {
  approval_policy : ApprovalPolicy;
  request_exec_approval : ExecApprovalRequest → Result ReviewDecision ToolError }.

(** src: crates/pulsing-forge/src/approval/gate.rs 42-46 ensure_shell_allowed (escalation) *)
Definition needs_escalation (args : Value) : bool :=
  bool_decide (get_str (lit "sandbox_permissions") args = Some (lit "require_escalated")).
(** Whether the call has to be approved, whatever the approval policy.
    src: crates/pulsing-forge/src/approval/gate.rs 47-50 ensure_shell_allowed (needs) *)
Definition needs_prompt (m : PolicyMatch) (args : Value) (c : ApprovalCache) : bool :=
  bool_decide (match_decision m = Prompt) || needs_escalation args || strict_auto_review c
  || bool_decide (is_Some (get_str (lit "justification") args)).

Definition or_else {A} (o o' : option A) : option A := match o with Some a => Some a | None => o' end.
(** src: crates/pulsing-forge/src/approval/gate.rs 67-89 ensure_shell_allowed (request) *)
Definition approval_request (ctx : ToolCallContext) (args : Value) (tokens : list str) (m : PolicyMatch) : ExecApprovalRequest :=
  let given := or_else (get (lit "justification") args) (get (lit "reason") args) ≫= as_str in
  let reason := or_else given (or_else (match_justification m)
    (if needs_escalation args then Some (lit "sandbox_permissions=require_escalated") else None)) in
  mk_request tokens (ctx_cwd ctx) reason (get_str (lit "sandbox_permissions") args) (match_decision m)
    (match_justification m) (Some tokens).

(** The shared state afterwards, what the host was asked, and the sandbox the
    command may run in.
    src: crates/pulsing-forge/src/approval/gate.rs 18-106 ensure_shell_allowed *)
Definition ensure_shell_allowed (shlex : str → list str) (ctx : ToolCallContext) (host : Host) (args : Value) (command : str)
    (g : Gate) : Gate * option ExecApprovalRequest * Result SandboxPolicy ToolError :=
  let tokens := shlex command in
  if bool_decide (tokens = []) then (g, None, Err (RespondToModel (lit "empty command")))
  else if is_prefix_allowed tokens (cache g) then (g, None, Ok (effective_sandbox_policy ctx (cache g) args))
  else
  let policy_match := evaluate tokens (exec_policy g) in
  if bool_decide (match_decision policy_match = Forbidden) then
    let msg := default (lit "command forbidden by execpolicy") (match_justification policy_match) in
    (g, None, Err (RespondToModel (lit "execpolicy forbidden: " ++ msg)))
  else if negb (needs_prompt policy_match args (cache g)) then (g, None, Ok (effective_sandbox_policy ctx (cache g) args))
  else match approval_policy host with
  | Always => (g, None, Ok (effective_sandbox_policy ctx (cache g) args))
  | Never => (g, None, Err (RespondToModel (lit "command requires approval but approval_policy=never")))
  | OnRequest =>
      let req := approval_request ctx args tokens policy_match in
      match request_exec_approval host req with
      | Err e => (g, Some req, Err e)
      | Ok decision =>
          let g := apply_review_decision decision tokens g in
          (g, Some req,
           if is_approved decision then Ok (effective_sandbox_policy ctx (cache g) args)
           else Err (RespondToModel (lit "exec approval denied: " ++ debug_decision decision)))
      end
  end.

(** ** The tools that change the cache *)

(** src: crates/pulsing-forge/src/approval/types.rs 276-283 RequestPermissionsResponse *)
Record RequestPermissionsResponse := mk_response {
  res_permissions : RequestPermissionProfile; res_scope : str; res_strict_auto_review : bool }.

Inductive PermissionError := NothingRequested | BadPath (e : ProfileError) | DeniedByHost | HostFailed (e : ToolError).

(** The arguments as parsed; the host answers the request.
    src: crates/pulsing-forge/src/handlers/request_permissions.rs 25-58 request_permissions_impl *)
Definition request_permissions_impl `{Process} (fs : FileSystem) (cwd : Path)
    (ask : RequestPermissionProfile → Result RequestPermissionsResponse ToolError) (requested : RequestPermissionProfile)
    (g : Gate) : Gate * Result RequestPermissionsResponse PermissionError :=
  if negb (has_actionable_request requested) then (g, Err NothingRequested)
  else match validate_paths fs cwd requested with
  | Err e => (g, Err (BadPath e))
  | Ok _ =>
      match ask requested with
      | Err e => (g, Err (HostFailed e))
      | Ok response =>
          if is_effectively_empty (res_permissions response) then (g, Err DeniedByHost)
          else
            let g := on_cache (record_permission_grant (res_permissions response) (res_scope response)) g in
            let g := if res_strict_auto_review response then on_cache (set_strict_auto_review true) g else g in
            (g, Ok response)
      end
  end.

(** The host's answer to the request for a new context does not matter here.
    src: crates/pulsing-forge/src/handlers/session.rs 32-36 new_context_impl *)
Definition new_context_impl (g : Gate) : Gate := on_cache clear_turn_state g.

(** ** The sandbox *)

(** src: crates/pulsing-forge/src/sandbox.rs 21-26 BashExecPlan *)
Record BashExecPlan := mk_plan { argv : list str; plan_env : option (gmap str str); label : str }.

(** What the sandbox reads of the system: [bwrap] and [/lib64], and the variables
    of its own environment. *)
Record SystemView := mk_system { sys_bwrap : bool; sys_lib64 : bool; sys_var : str → option str }.

(** [Path::to_string_lossy], of a path of text. *)
Definition component_text (c : Component) : str :=
  match c with RootDir => [] | CurDir => lit "." | ParentDir => lit ".." | Normal name => name end.
Definition to_string_lossy (p : Path) : str := if bool_decide (p = [RootDir]) then lit "/" else join 47 (component_text <$> p).
(** The directory of the command: the one that is given, with its links followed
    when it is there, or that of the process.
    src: crates/pulsing-forge/src/sandbox.rs 42-44 build_bash_exec (wd) *)
Definition sandbox_directory `{Process} (fs : FileSystem) (cwd : option Path) : Path :=
  match cwd with
  | Some p => match canonicalize fs p with Some l => abs l | None => p end
  | None => abs working_directory
  end.

(** src: crates/pulsing-forge/src/sandbox.rs 66-85 build_bash_exec (profile) *)
Definition bwrap_profile : list str :=
  [lit "bwrap"; lit "--die-with-parent"; lit "--unshare-pid"; lit "--tmpfs"; lit "/tmp"; lit "--proc"; lit "/proc";
   lit "--dev"; lit "/dev"; lit "--ro-bind"; lit "/usr"; lit "/usr"; lit "--ro-bind"; lit "/bin"; lit "/bin";
   lit "--ro-bind"; lit "/lib"; lit "/lib"].
(** src: crates/pulsing-forge/src/sandbox.rs 108-121 build_bash_exec (environment) *)
Definition restricted_env (v : SystemView) : gmap str str :=
  <[lit "USER" := default (lit "user") (sys_var v (lit "USER"))]>
  (<[lit "LANG" := default (lit "C.UTF-8") (sys_var v (lit "LANG"))]>
  (<[lit "PATH" := lit "/usr/bin:/bin:/usr/local/bin"]>
  (<[lit "HOME" := default (lit "/tmp") (sys_var v (lit "HOME"))]> ∅))).

(** src: crates/pulsing-forge/src/sandbox.rs 35-144 build_bash_exec *)
Definition build_bash_exec `{Process} {O : Oracle} (fs : FileSystem) (v : SystemView) (command : str) (cwd : option Path) (policy : SandboxPolicy)
    (dangerously_disable_sandbox login : bool) : BashExecPlan :=
  let wd := sandbox_directory fs cwd in
  let pol := if dangerously_disable_sandbox then Off else policy in
  if bool_decide (pol = Off) then
    mk_plan (if login then [lit "bash"; lit "-lc"; command] else [lit "/bin/sh"; lit "-c"; command]) None
      (lit "subprocess shell (sandbox=off)")
  else if bool_decide (pol = Bwrap) && sys_bwrap v then
    mk_plan (bwrap_profile ++ (if sys_lib64 v then [lit "--ro-bind"; lit "/lib64"; lit "/lib64"] else []) ++
             [lit "--bind"; to_string_lossy wd; lit "/work"; lit "--chdir"; lit "/work"; lit "bash"; if login then lit "-lc" else lit "-c"; command])
      None (lit "bubblewrap (minimal profile; Linux)")
  else
    let env := restricted_env v in
    mk_plan ([lit "env"; lit "-i"] ++ ((λ kv, kv.1 ++ [61] ++ kv.2) <$> hm_iter env) ++
             (if login then [lit "bash"; lit "-lc"; command] else [lit "bash"; lit "--norc"; lit "--noprofile"; lit "-c"; command]))
      (Some env) (if login then lit "restricted env (env -i + bash -l)" else lit "restricted env (env -i + bash --norc)").
