(* ===== verification/ApprovalFacts.v ===== *)
(** * Properties of the approval gate

    What a session that ran for a while lets through without asking, and on
    whose word; how grants are merged; what the sandbox plan keeps; and the
    arguments that lift the sandbox unasked. *)
From S2P Require Import Prelude Text Files ExecPolicy Json Approval.

(** ** Equality of JSON values *)
Fixpoint value_size (v : Value) : nat :=
  match v with
  | Array l => S (foldr (λ v n, value_size v + n)%nat O l)
  | Object m => S (foldr (λ kv n, value_size kv.2 + n)%nat O m)
  | _ => 1
  end.

Lemma value_eqb_spec v w : value_eqb v w = true ↔ v = w.
Proof.
  assert (Hn : ∀ n v w, (value_size v <= n)%nat → value_eqb v w = true ↔ v = w).
  { clear. intros n. induction n as [|n IH]; intros v w Hs; [by destruct v; simpl in Hs; lia|].
    destruct v as [|b|t|t|l|m], w as [|b'|t'|t'|l'|m']; simpl; try (split; [done|discriminate]).
    - done.
    - rewrite eqb_true_iff. split; congruence.
    - rewrite bool_decide_eq_true. split; congruence.
    - rewrite bool_decide_eq_true. split; congruence.
    - transitivity (l = l'); [|split; congruence]. simpl in Hs. apply le_S_n in Hs. revert l' Hs.
      induction l as [|x l IHl]; intros [|y l'] Hs; [done..|]. simpl in Hs.
      rewrite andb_true_iff, IH, IHl by lia. split; [by intros [-> ->]|by intros [= -> ->]].
    - transitivity (m = m'); [|split; congruence]. simpl in Hs. apply le_S_n in Hs. revert m' Hs.
      induction m as [|[k x] m IHm]; intros [|[k' y] m'] Hs; [done..|]. simpl in Hs.
      rewrite !andb_true_iff, bool_decide_eq_true, IH, IHm by lia. split; [by intros [[-> ->] ->]|by intros [= -> -> ->]]. }
  by apply (Hn (value_size v)).
Qed.

Lemma contains_elem a v : contains a v = true ↔ v ∈ a.
Proof.
  unfold contains. rewrite existsb_exists. setoid_rewrite value_eqb_spec. setoid_rewrite <- list_elem_of_In. naive_solver.
Qed.

(** ** Merging of grants *)
Lemma elem_of_push_missing v base overlay : v ∈ push_missing base overlay ↔ v ∈ base ∨ v ∈ overlay.
Proof.
  unfold push_missing. revert base. induction overlay as [|x overlay IH]; intros base; simpl; [set_solver|].
  rewrite IH. destruct (contains base x) eqn:E; [apply contains_elem in E; set_solver|set_solver].
Qed.

(** The items listed under a key. *)
Definition items (key : str) (m : list (str * Value)) : list Value := default [] (member key m ≫= as_array).
(** A member that is not a list is kept as it is, and its key takes no items. *)
Definition listable (key : str) (m : list (str * Value)) : Prop := ∀ v, member key m = Some v → is_Some (as_array v).

Lemma merge_key_items key o b l v :
  listable key b → v ∈ items l (merge_key o b key) ↔ v ∈ items l b ∨ (l = key ∧ v ∈ items l o).
Proof.
  intros Hl. unfold merge_key, items. destruct (decide (l = key)) as [->|Hne].
  - destruct (member key o ≫= as_array) as [ov|]; simpl; [|set_solver]. rewrite member_insert_eq. simpl.
    destruct (member key b) as [bv|] eqn:E; simpl.
    + destruct (Hl bv E) as [a Ha]. rewrite Ha. simpl. rewrite elem_of_push_missing. naive_solver.
    + rewrite elem_of_push_missing. naive_solver.
  - destruct (member key o ≫= as_array) as [ov|]; simpl; [|naive_solver]. rewrite member_insert_ne by done. naive_solver.
Qed.

Lemma merge_key_listable key l o b : listable l b → listable l (merge_key o b key).
Proof.
  intros Hl v. unfold merge_key. destruct (member key o ≫= as_array) as [ov|] eqn:Eo; [|apply Hl]. destruct (decide (l = key)) as [->|Hne].
  - rewrite member_insert_eq. destruct (member key b) as [bv|] eqn:Eb; simpl.
    + destruct (Hl bv Eb) as [a Ha]. rewrite Ha. by intros [= <-].
    + by intros [= <-].
  - rewrite member_insert_ne by done. apply Hl.
Qed.

Definition grant_keys : list str := [lit "read"; lit "write"; lit "entries"].

Lemma merge_items o b ks key v :
  NoDup ks → (∀ k, k ∈ ks → listable k b) →
  v ∈ items key (foldl (merge_key o) b ks) ↔ v ∈ items key b ∨ (key ∈ ks ∧ v ∈ items key o).
Proof.
  intros Hnd. revert b. induction Hnd as [|k ks Hk Hnd IH]; intros b Hl; simpl; [set_solver|].
  rewrite IH by (intros k' Hk'; apply merge_key_listable, Hl; set_solver).
  rewrite merge_key_items by (apply Hl; set_solver). rewrite elem_of_cons. naive_solver.
Qed.

(** While a turn's grant and the session's both hold, a path or an entry is
    granted exactly when one of the two grants it, and the network as the turn's
    grant says when it speaks of the network. *)
Theorem effective_grants_spec c ns nt b o :
  session_grants c = Some (mk_profile ns (Some (Object b))) → turn_grants c = Some (mk_profile nt (Some (Object o))) →
  (∀ k, k ∈ grant_keys → listable k b) →
  ∃ r, effective_grants c = mk_profile (or_else nt ns) (Some (Object r)) ∧
    ∀ key v, key ∈ grant_keys → v ∈ items key r ↔ v ∈ items key b ∨ v ∈ items key o.
Proof.
  intros Hs Ht Hl. exists (foldl (merge_key o) b grant_keys). split.
  - unfold effective_grants. rewrite Hs, Ht. simpl. by destruct nt.
  - intros key v Hk. rewrite merge_items; [naive_solver| |done]. by apply (bool_decide_unpack _); vm_compute.
Qed.

(** ** What a call does *)
Section Gate.
Context (shlex : str → list str).
Implicit Types (g : Gate) (ctx : ToolCallContext) (h : Host) (args : Value).

Lemma prefix_allowed_spec cmd c : is_prefix_allowed cmd c = true ↔ ∃ p, p ∈ session_prefixes c ∧ p `prefix_of` cmd.
Proof.
  unfold is_prefix_allowed. rewrite existsb_exists. setoid_rewrite <- list_elem_of_In. setoid_rewrite bool_decide_eq_true. done.
Qed.

(** Why a command may run. *)
Inductive Permitted ctx h args (tokens : list str) g : option ExecApprovalRequest → Gate → Prop :=
  | by_session p : p ∈ session_prefixes (cache g) → p `prefix_of` tokens → Permitted ctx h args tokens g None g
  | by_rule : match_decision (evaluate tokens (exec_policy g)) = Allow → needs_escalation args = false →
      strict_auto_review (cache g) = false → get_str (lit "justification") args = None →
      Permitted ctx h args tokens g None g
  | by_policy : match_decision (evaluate tokens (exec_policy g)) ≠ Forbidden → approval_policy h = Always →
      Permitted ctx h args tokens g None g
  | by_host d req : match_decision (evaluate tokens (exec_policy g)) ≠ Forbidden → approval_policy h = OnRequest →
      req_command req = tokens → request_exec_approval h req = Ok d → is_approved d = true →
      Permitted ctx h args tokens g (Some req) (apply_review_decision d tokens g).

Lemma ensure_Ok ctx h args command g g' asked sp :
  ensure_shell_allowed shlex ctx h args command g = (g', asked, Ok sp) →
  shlex command ≠ [] ∧ sp = effective_sandbox_policy ctx (cache g') args ∧ Permitted ctx h args (shlex command) g asked g'.
Proof.
  unfold ensure_shell_allowed. case_bool_decide as Hne; [done|].
  destruct (is_prefix_allowed _ _) eqn:Ep.
  { intros [= <- <- <-]. split_and!; [done..|]. apply prefix_allowed_spec in Ep as (p & ? & ?). by econstructor. }
  cbv zeta. case_bool_decide as Hf; [done|]. destruct (needs_prompt _ _ _) eqn:En; simpl.
  - destruct (approval_policy h) eqn:Ea; [|intros [= <- <- <-]; by split_and!; [..|by apply by_policy]|done].
    destruct (request_exec_approval h _) as [d|] eqn:Eh; [|done]. destruct (is_approved d) eqn:Ei; [|done].
    intros [= <- <- <-]. split_and!; [done..|]. by eapply by_host.
  - intros [= <- <- <-]. split_and!; [done..|]. unfold needs_prompt in En.
    apply orb_false_iff in En as [En E4]. apply orb_false_iff in En as [En E3]. apply orb_false_iff in En as [E1 E2].
    apply bool_decide_eq_false in E1, E4. apply by_rule; [|done..|].
    + by destruct (match_decision _).
    + by destruct (get_str _ _) as [x|]; [destruct E4|].
Qed.

(** ** A session of calls *)
Definition Answers : Type := list (list str * ReviewDecision).
(** What the host answered in a call, with the words it was asked about. *)
Definition answer h (asked : option ExecApprovalRequest) : Answers :=
  match asked with
  | Some req => match request_exec_approval h req with Ok d => [(req_command req, d)] | Err _ => [] end
  | None => []
  end.

(** The gate after some calls, each with a host and arguments of its own, and
    the answers given so far. *)
Inductive Session `{Process} g0 : Answers → Gate → Prop :=
  | session_start : Session g0 [] g0
  | session_shell log g ctx h args command g' asked r :
      Session g0 log g → ensure_shell_allowed shlex ctx h args command g = (g', asked, r) → Session g0 (log ++ answer h asked) g'
  | session_permissions log g fs cwd ask requested g' r :
      Session g0 log g → request_permissions_impl fs cwd ask requested g = (g', r) → Session g0 log g'
  | session_new_context log g : Session g0 log g → Session g0 log (new_context_impl g).

Record vouched g0 (log : Answers) g : Prop := {
  prefixes_answered : ∀ p, p ∈ session_prefixes (cache g) → (p, ApprovedForSession) ∈ log ∨ p ∈ session_prefixes (cache g0);
  rules_answered : ∀ r, r ∈ rules (exec_policy g) →
    r ∈ rules (exec_policy g0) ∨ (decision r = Allow ∧ ∃ tokens, (tokens, ApprovedExecpolicyAmendment (pattern r)) ∈ log) }.

Lemma vouched_same g0 log g g' :
  vouched g0 log g → session_prefixes (cache g') = session_prefixes (cache g) → exec_policy g' = exec_policy g → vouched g0 log g'.
Proof. intros [H1 H2] E1 E2. split; [by rewrite E1|by rewrite E2]. Qed.

Lemma vouched_more g0 log log' g : vouched g0 log g → vouched g0 (log ++ log') g.
Proof. intros [H1 H2]. split; intros x Hx; [destruct (H1 x Hx)|destruct (H2 x Hx) as [?|(? & t & ?)]]; set_solver. Qed.

Lemma vouched_review g0 log g d tokens :
  vouched g0 log g → vouched g0 (log ++ [(tokens, d)]) (apply_review_decision d tokens g).
Proof.
  intros Hv. pose proof (vouched_more _ _ [(tokens, d)] _ Hv) as Hm. destruct d as [|p| | |]; simpl; [done| | |done..].
  - destruct (decide (p = [])) as [->|Hne]; [by eapply vouched_same; [apply Hm|done..]|].
    destruct Hm as [H1 H2]. split; [done|]. intros r [[Hr _]| ->]%elem_of_amended; [by apply H2| |done].
    right. split; [done|]. exists tokens. set_solver.
  - destruct Hm as [H1 H2]. split; [|done]. intros p. simpl. unfold allow_prefix_for_session.
    case_bool_decide; [apply H1|]. destruct (existsb _ _); [apply H1|]. simpl. set_solver.
Qed.

Lemma session_vouched `{Process} g0 log g : Session g0 log g → vouched g0 log g.
Proof.
  induction 1 as [|log g ctx h args command g' asked r _ IH Hc|log g fs cwd ask requested g' r _ IH Hc|log g _ IH].
  - split; auto.
  - revert Hc. unfold ensure_shell_allowed. cbv zeta.
    repeat (case_match; try (intros [= <- <- <-]; by apply vouched_more)).
    all: intros [= <- <- <-]; unfold answer; match goal with E : request_exec_approval _ _ = _ |- _ => rewrite E end;
      simpl; by first [apply vouched_review|apply vouched_more].
  - revert Hc. unfold request_permissions_impl.
    repeat (case_match; try (intros [= <- <-]; done)); intros [= <- <-]; (eapply vouched_same; [done| |done]); simpl;
      unfold record_permission_grant; by case_bool_decide.
  - by eapply vouched_same.
Qed.

(** C11: In a session that began with an empty cache, a command that runs without
    the host being asked was approved for the session before, as it is or up to
    a prefix, or an allowing rule decides it that the policy had from the start
    or that the host amended, or the host approves everything. *)
Theorem unasked_was_granted `{Process} g0 log g ctx h args command g' sp :
  session_prefixes (cache g0) = [] → Session g0 log g →
  ensure_shell_allowed shlex ctx h args command g = (g', None, Ok sp) →
  (∃ p, (p, ApprovedForSession) ∈ log ∧ p `prefix_of` shlex command) ∨
  (∃ r, pattern r `prefix_of` shlex command ∧ decision r = Allow ∧
     (r ∈ rules (exec_policy g0) ∨ ∃ tokens, (tokens, ApprovedExecpolicyAmendment (pattern r)) ∈ log)) ∨
  approval_policy h = Always.
Proof.
  intros H0 [Hp Hr]%session_vouched (_ & _ & Hok)%ensure_Ok. remember (None : option ExecApprovalRequest) as asked eqn:Ea.
  destruct Hok as [p Hin Hpre|Ha _ _ _|_ Ha|]; [left|right; left|by right; right|done].
  - exists p. split; [|done]. destruct (Hp p Hin) as [?|Hn]; [done|]. rewrite H0 in Hn. by apply elem_of_nil in Hn.
  - destruct (evaluate_decides (shlex command) (exec_policy g)) as [(r & Hin & _ & Hd & _ & Hpre & _)|(_ & Hd & _)]; [|congruence].
    exists r. rewrite Ha in Hd. split_and!; [done..|]. destruct (Hr r Hin) as [?|[_ ?]]; auto.
Qed.

(** What a command may run in is not part of what was approved: once its
    words were approved for the session, a call that asks for the escalated
    sandbox runs with none, unasked, whatever the host's policy; and with an
    allowing rule so does a call whose own arguments switch the sandbox off. *)
Theorem sandbox_lifted_unasked ctx h command members g :
  shlex command ≠ [] →
  (∀ p, p ∈ session_prefixes (cache g) → p `prefix_of` shlex command →
     member (lit "sandbox_permissions") members = Some (Text (lit "require_escalated")) →
     ensure_shell_allowed shlex ctx h (Object members) command g = (g, None, Ok Off)) ∧
  (match_decision (evaluate (shlex command) (exec_policy g)) = Allow → strict_auto_review (cache g) = false →
     members = [(lit "dangerously_disable_sandbox", Boolean true)] →
     ensure_shell_allowed shlex ctx h (Object members) command g = (g, None, Ok Off)).
Proof.
  intros Hne. unfold ensure_shell_allowed. rewrite bool_decide_false by done. split.
  - intros p Hin Hpre He. assert (is_prefix_allowed (shlex command) (cache g) = true) as -> by (apply prefix_allowed_spec; eauto).
    assert (Hg : get_str (lit "sandbox_permissions") (Object members) = Some (lit "require_escalated")).
    { unfold get_str, get. cbn [as_object mbind option_bind]. by rewrite He. }
    unfold effective_sandbox_policy. rewrite Hg, bool_decide_true by done. by case_match.
  - intros Ha Hs ->. destruct (is_prefix_allowed _ _); [done|]. rewrite Ha. unfold needs_prompt. by rewrite Ha, Hs.
Qed.
End Gate.

(** ** Paths of a grant *)

(** A permission path that leads out of the working directory is accepted
    when it is absolute, goes through [..] and does not exist yet. *)
Theorem missing_path_outside_accepted :
  let files : gmap (list str) Entry := {[ [lit "w"] := Dir; [lit "etc"] := Dir ]} in
  let process := {| working_directory := []; max_links := 40 |} in
  let path := lit "/w/../etc/new" in
  validate_paths (H := process) files (abs [lit "w"]) (mk_profile None (Some (Object [(lit "write", Array [Text path])]))) = Ok tt ∧
  validate_paths (H := process) files (abs [lit "w"]) (mk_profile None (Some (Object [(lit "write", Array [Text (lit "/etc")])])))
    = Err (PathOutside (lit "/etc")) ∧
  (λ fs, fs !! [lit "etc"; lit "new"]) <$> write (H := process) files (components path) [] = Some (Some (File [])).
Proof. split_and!; vm_eq. Qed.

(** ** The sandbox plan *)

Definition env_assignment (kv : str * str) : str := kv.1 ++ [61] ++ kv.2.
Definition env_vars (v : SystemView) : list (str * str) :=
  [(lit "HOME", default (lit "/tmp") (sys_var v (lit "HOME"))); (lit "PATH", lit "/usr/bin:/bin:/usr/local/bin");
   (lit "LANG", default (lit "C.UTF-8") (sys_var v (lit "LANG"))); (lit "USER", default (lit "user") (sys_var v (lit "USER")))].

Lemma restricted_env_vars v : map_to_list (restricted_env v) ≡ₚ env_vars v.
Proof.
  unfold restricted_env, env_vars. rewrite !map_to_list_insert, map_to_list_empty; [|by rewrite ?lookup_insert_ne, ?lookup_empty..].
  solve_Permutation.
Qed.

(** Two command lines that are the same up to the arguments of [bash]. *)
Definition same_wrapper (a b : list str) : Prop :=
  ∃ wrapper xs ys, a = wrapper ++ lit "bash" :: xs ∧ b = wrapper ++ lit "bash" :: ys ∧ wrapper ≠ [].

(** A login shell keeps the sandbox: the plan is the same command line up to
    the shell's own arguments; the command is its last word; [bwrap] sees the
    command's own directory as the one place to write; and outside [bwrap]
    the sandbox starts from an empty environment with four variables. *)
Theorem sandbox_plan_spec `{Process} {O : Oracle} fs v command cwd policy login (plan := build_bash_exec fs v command cwd policy false login) :
  policy ≠ Off →
  last (argv plan) = Some command ∧
  same_wrapper (argv plan) (argv (build_bash_exec fs v command cwd policy false (negb login))) ∧
  (policy = Bwrap → sys_bwrap v = true →
     ∃ pre post, argv plan = pre ++ [lit "--bind"; to_string_lossy (sandbox_directory fs cwd); lit "/work"; lit "--chdir"; lit "/work"] ++ post) ∧
  (policy = Restricted ∨ sys_bwrap v = false →
     ∃ vars shell, argv plan = [lit "env"; lit "-i"] ++ vars ++ shell ∧ vars ≡ₚ env_assignment <$> env_vars v).
Proof.
  intros Hp. subst plan. unfold build_bash_exec. cbv zeta. rewrite !(bool_decide_false (policy = Off)) by done.
  destruct (bool_decide (policy = Bwrap) && sys_bwrap v) eqn:E; cbn [argv].
  - apply andb_true_iff in E as [E Eb]. apply bool_decide_eq_true in E as ->.
    set (lib := if sys_lib64 v then _ else _). split_and!.
    + by rewrite !last_app.
    + exists (bwrap_profile ++ lib ++ [lit "--bind"; to_string_lossy (sandbox_directory fs cwd); lit "/work"; lit "--chdir"; lit "/work"]).
      eexists _, _. split_and!; [by rewrite <- !app_assoc..|done].
    + intros _ _. exists (bwrap_profile ++ lib). eexists _. by rewrite <- !app_assoc.
    + intros [?|?]; congruence.
  - split_and!.
    + rewrite !last_app. by destruct login.
    + exists ([lit "env"; lit "-i"] ++ (env_assignment <$> hm_iter (restricted_env v))).
      destruct login; eexists _, _; split_and!; try done; by rewrite <- app_assoc.
    + intros -> Hb. by rewrite Hb in E.
    + intros _. eexists _, _. split; [done|]. unfold env_assignment. by rewrite hm_iter_perm, restricted_env_vars.
Qed.

(** ** Concrete sessions *)
Definition words (s : str) : list str := filter (λ w, w ≠ []) (split 32 s).
Definition new_gate : Gate := mk_gate default_codex_like ApprovalCache_default.
Definition ctx_bwrap : ToolCallContext := mk_ctx (abs [lit "w"]) Bwrap false.
Definition host_always (d : ReviewDecision) : Host := mk_host OnRequest (λ _, Ok d).
Definition approved_echo : Gate :=
  (ensure_shell_allowed words ctx_bwrap (host_always ApprovedForSession) (Object []) (lit "echo hi") new_gate).1.1.

Lemma effective_grants_spec_witness :
  let path s := Text (lit s) in
  let c := mk_cache [] false (Some (mk_profile None (Some (Object [(lit "read", Array [path "a"; path "b"])]))))
                             (Some (mk_profile (Some Null) (Some (Object [(lit "read", Array [path "b"; path "c"])])))) in
  ∃ r, effective_grants c = mk_profile (Some Null) (Some (Object r)) ∧ path "a" ∈ items (lit "read") r.
Proof.
  intros path c.
  destruct (effective_grants_spec c (Some Null) None [(lit "read", Array [path "b"%string; path "c"%string])]
    [(lit "read", Array [path "a"%string; path "b"%string])]) as (r & Hr & Hi); [done|done| |].
  { intros k Hk v. simpl. case_bool_decide; [|done]. by intros [= <-]. }
  exists r. split; [done|]. apply Hi; [by apply (bool_decide_unpack _); vm_compute|]. right. by apply list_elem_of_here.
Defined.

Definition no_process : Process := {| working_directory := []; max_links := 40 |}.
Lemma unasked_was_granted_witness :
  (∃ p, (p, ApprovedForSession) ∈ [([lit "echo"; lit "hi"], ApprovedForSession)] ∧ p `prefix_of` words (lit "echo hi && sudo id")) ∨
  (∃ r, pattern r `prefix_of` words (lit "echo hi && sudo id") ∧ decision r = Allow ∧
     (r ∈ rules default_codex_like ∨
      ∃ tokens, (tokens, ApprovedExecpolicyAmendment (pattern r)) ∈ [([lit "echo"; lit "hi"], ApprovedForSession)])) ∨
  OnRequest = Always.
Proof.
  apply (@unasked_was_granted words no_process new_gate [([lit "echo"; lit "hi"], ApprovedForSession)] approved_echo ctx_bwrap
    (host_always Denied) (Object []) (lit "echo hi && sudo id") approved_echo Bwrap); [done| |vm_eq].
  apply (session_shell words new_gate [] new_gate ctx_bwrap (host_always ApprovedForSession) (Object []) (lit "echo hi") approved_echo
    (ensure_shell_allowed words ctx_bwrap (host_always ApprovedForSession) (Object []) (lit "echo hi") new_gate).1.2
    (Ok Bwrap)); [constructor|vm_eq].
Defined.

Lemma sandbox_lifted_unasked_witness :
  ensure_shell_allowed words ctx_bwrap (mk_host Never (λ _, Ok Denied))
    (Object [(lit "sandbox_permissions", Text (lit "require_escalated"))]) (lit "echo hi") approved_echo = (approved_echo, None, Ok Off).
Proof.
  apply (sandbox_lifted_unasked words ctx_bwrap _ _ [(lit "sandbox_permissions", Text (lit "require_escalated"))] approved_echo)
    with (p := [lit "echo"; lit "hi"]); [by vm_compute|by vm_compute; constructor|by eexists []|done].
Defined.

Lemma sandbox_plan_spec_witness :
  last (argv (@build_bash_exec no_process _ ∅ (mk_system true false (λ _, None)) (lit "ls") (Some (abs [lit "w"])) Bwrap false true)) = Some (lit "ls").
Proof. apply (@sandbox_plan_spec no_process _ ∅ (mk_system true false (λ _, None)) (lit "ls") (Some (abs [lit "w"])) Bwrap true). done. Defined.
