(* ===== verification/Exec.v ===== *)
(** * Running commands

    [crates/pulsing-forge/src/unified_exec.rs] and [pty_session.rs]: commands that
    go on running between calls, what is typed to them and what they print; and
    [handlers/shell_exec.rs], a command that is waited for. A call is cut where it
    sleeps; the processes, their output and the turns of the agent are the
    environment. The texts of errors, the identifier of a result and its wall time
    are left out. *)
From S2P Require Import Prelude Text Bytes Files Patch Edit ExecPolicy Json Approval Apply Output Tools.

(** [Value::as_i64]. *)
Definition as_i64 (v : Value) : option Z :=
  match v with
  | Number (45 :: t) => n ← parse_unsigned (2 ^ 63 + 1) t; if n =? 0 then None else Some (- n)
  | Number t => parse_unsigned (2 ^ 63) t
  | _ => None
  end.
(** [str::parse::<i64>]. *)
Definition parse_i64 (s : str) : option Z :=
  match s with 45 :: t => match t with 43 :: _ => None | _ => Z.opp <$> parse_unsigned (2 ^ 63 + 1) t end | _ => parse_unsigned (2 ^ 63) s end.
(** [AtomicI32::fetch_add]. *)
Definition i32_add (a b : Z) : Z := (a + b + 2 ^ 31) mod two32 - 2 ^ 31.

Inductive ExecFault :=
  | MissingCommand
  | MissingChars
  | MissingSessionId
  | InvalidSessionId
  | UnknownSession (id : Z)
  | StdinTooLarge (bytes : Z)
  | OtherTurn (id : Z)
  | AlreadyExited (id : Z)
  | StdinNeedsTty
  | StdinClosed
  | StdinFailed
  | KillFailed
  | WaitFailed
  | Cancelled
  | SpawnFailed
  | BadWorkdir (e : Fault)
  | NotAllowed (e : ToolError).

(** ** Sessions *)

(** src: crates/pulsing-forge/src/pty_session.rs 18-21 PtyCommand *)
Inductive PtyCommand := PtyWrite (data : bytes) | PtyKill.
(** What [Child::try_wait] answers: the code of an exit, when it has one. *)
Inductive ChildStatus := Alive | Exited (code : option Z) | WaitError.
(** The terminal's thread is behind a queue, which is closed when the thread ends,
    and a number.
    src: crates/pulsing-forge/src/unified_exec.rs 36-43 SessionHandle *)
Inductive SessionHandle := Pipe (child : ChildStatus) (stdin : bool) | Pty (cmd_tx : list PtyCommand) (closed : bool) (exit_code : Z).

(** src: crates/pulsing-forge/src/unified_exec.rs 45-53 ExecSession *)
Record ExecSession := mk_session { handle : SessionHandle; buffer : OutputBuffer; tty : bool; owner_turn : option str }.
Definition set_handle (h : SessionHandle) (s : ExecSession) : ExecSession := mk_session h (buffer s) (tty s) (owner_turn s).
Definition set_buffer (b : OutputBuffer) (s : ExecSession) : ExecSession := mk_session (handle s) b (tty s) (owner_turn s).

(** On the side: the sessions whose process was sent a kill, the exits that were
    reported, what was typed by whom, and who started what.
    src: crates/pulsing-forge/src/unified_exec.rs 31-34 UnifiedExecManager *)
Record UnifiedExecManager := mk_manager {
  next_id : Z; sessions : gmap Z ExecSession;
  kill_sent : gset Z; reported : list (Z * Z); typed : list (Z * option str); owners : gmap Z (option str); deltas : list ExecOutputDelta }.
(** src: crates/pulsing-forge/src/unified_exec.rs 104-109 UnifiedExecManager::new *)
Definition UnifiedExecManager_new : UnifiedExecManager := mk_manager 1 ∅ ∅ [] [] ∅ [].

Implicit Types (m : UnifiedExecManager) (id : Z).
Definition set_sessions (ss : gmap Z ExecSession) m : UnifiedExecManager :=
  mk_manager (next_id m) ss (kill_sent m) (reported m) (typed m) (owners m) (deltas m).
Definition kill_group id m : UnifiedExecManager :=
  mk_manager (next_id m) (sessions m) ({[id]} ∪ kill_sent m) (reported m) (typed m) (owners m) (deltas m).
Definition note_typed id (turn : option str) m : UnifiedExecManager :=
  mk_manager (next_id m) (sessions m) (kill_sent m) (reported m) ((id, turn) :: typed m) (owners m) (deltas m).
Definition report_exit id (code : Z) m : UnifiedExecManager :=
  mk_manager (next_id m) (sessions m) (kill_sent m) ((id, code) :: reported m) (typed m) (owners m) (deltas m).
Definition emit (d : ExecOutputDelta) m : UnifiedExecManager :=
  mk_manager (next_id m) (sessions m) (kill_sent m) (reported m) (typed m) (owners m) (deltas m ++ [d]).

(** src: crates/pulsing-forge/src/pty_session.rs 62-69 poll_exit_code *)
Definition poll_exit_code (exit_code : Z) : option Z := if exit_code =? RUNNING_EXIT_SENTINEL then None else Some exit_code.
(** The thread's receiver is gone when it has ended.
    src: crates/pulsing-forge/src/pty_session.rs 41-45 write_stdin *)
Definition pty_write (data : bytes) (q : list PtyCommand) (closed : bool) : option (list PtyCommand) :=
  if closed then None else Some (q ++ [PtyWrite data]).
(** The queue after a kill that went through; whether the command is still taken
    does not matter.
    src: crates/pulsing-forge/src/pty_session.rs 47-60 kill *)
Definition pty_kill (q : list PtyCommand) (closed : bool) : list PtyCommand := if closed then q else q ++ [PtyKill].
(** src: crates/pulsing-forge/src/unified_exec.rs 462-467 session_has_exited *)
Definition session_has_exited (h : SessionHandle) : bool :=
  match h with Pipe c _ => match c with Exited _ => true | _ => false end | Pty _ _ code => bool_decide (is_Some (poll_exit_code code)) end.

(** A session that is dropped sends its process and its process group a kill; that
    this may fail is ignored.
    src: crates/pulsing-forge/src/unified_exec.rs 55-73 ExecSession::drop *)
Definition drop_session id m : UnifiedExecManager := kill_group id (set_sessions (delete id (sessions m)) m).
(** src: crates/pulsing-forge/src/unified_exec.rs 327-332 stop_session_and_wait *)
Definition stop_session_and_wait id m : UnifiedExecManager :=
  match sessions m !! id with Some _ => drop_session id m | None => m end.
(** src: crates/pulsing-forge/src/unified_exec.rs 312-325 stop_all *)
Definition stop_all m : UnifiedExecManager * Z :=
  (mk_manager (next_id m) ∅ (dom (sessions m) ∪ kill_sent m) (reported m) (typed m) (owners m) (deltas m), Z.of_nat (size (sessions m))).
(** src: crates/pulsing-forge/src/unified_exec.rs 299-310 list_sessions *)
Definition list_sessions `{Oracle} m : list (Z * bool) := (λ '(id, s), (id, tty s)) <$> hm_iter (sessions m).

(** src: crates/pulsing-forge/src/exec_output.rs 33-45 ExecCommandOutput *)
Record ExecCommandOutput := mk_output { exit_code : option Z; session_id : option Z; original_token_count : option Z; output : str }.
(** src: crates/pulsing-forge/src/exec_output.rs 47-64 ExecCommandOutput::new *)
Definition ExecCommandOutput_new (out : str) (code : option Z) (session : option Z) : ExecCommandOutput :=
  mk_output code session (Some (estimate_tokens out)) out.

(** [None] is a panic of the buffer.
    src: crates/pulsing-forge/src/unified_exec.rs 334-392 poll_session *)
Definition poll_session id (max_tokens : Z) m : option (UnifiedExecManager * Result ExecCommandOutput ExecFault) :=
  match sessions m !! id with
  | None => Some (m, Err (UnknownSession id))
  | Some session =>
      match (match handle session with
             | Pipe (Exited code) _ => Ok (Some (default (-1) code))
             | Pipe Alive _ => Ok None
             | Pipe WaitError _ => Err WaitFailed
             | Pty _ _ code => Ok (poll_exit_code code)
             end) with
      | Err e => Some (m, Err e)
      | Ok code =>
          buf ← truncate_to_tokens (buffer session) max_tokens;
          let out := data buf in
          let structured := ExecCommandOutput_new out code (match code with None => Some id | Some _ => None end) in
          let m := set_sessions (<[id := set_buffer buf session]> (sessions m)) m in
          let m := match code with Some c => report_exit id c (drop_session id m) | None => m end in
          Some (emit (mk_delta id PtyStream out) m, Ok structured)
      end
  end.

(** ** exec_command *)

(** src: crates/pulsing-forge/src/handlers/shell_exec.rs 23-35 resolve_shell_workdir *)
Definition resolve_shell_workdir `{Process} (fs : FileSystem) (cwd : Path) (args : Value) : Result Path Fault :=
  match or_else (get (lit "workdir") args) (get (lit "cwd") args) ≫= as_str with
  | Some w => resolve_within_cwd fs cwd w
  | None => Ok cwd
  end.
(** src: crates/pulsing-forge/src/unified_exec.rs 116-120 exec_command (cmd) *)
Definition command_of (args : Value) : option str := or_else (get (lit "cmd") args) (get (lit "command") args) ≫= as_str.
(** src: crates/pulsing-forge/src/unified_exec.rs 123-127 exec_command (max_tokens) *)
Definition max_tokens_of (args : Value) : Z := default DEFAULT_MAX_OUTPUT_TOKENS (get (lit "max_output_tokens") args ≫= as_u64).
Definition flag (key : str) (dflt : bool) (args : Value) : bool := default dflt (get key args ≫= as_bool).

(** Where [exec_command] gets before it sleeps: its session, and what it was asked
    to allow. [spawn] starts a process by its plan.
    src: crates/pulsing-forge/src/unified_exec.rs 111-200 exec_command (start) *)
Definition exec_start `{Process} {O : Oracle} (shlex : str → list str) (sys : SystemView) (spawn : BashExecPlan → Path → bool → bool)
    (fs : FileSystem) (ctx : ToolCallContext) (turn : option str) (host : Host) (args : Value) (g : Gate) m
    : UnifiedExecManager * Gate * option ExecApprovalRequest * Result Z ExecFault :=
  match command_of args with
  | None => (m, g, None, Err MissingCommand)
  | Some cmd =>
      let login := flag (lit "login") false args in
      let '(g, req, allowed) := ensure_shell_allowed shlex ctx host args cmd g in
      match allowed with
      | Err e => (m, g, req, Err (NotAllowed e))
      | Ok _ =>
          let policy := effective_sandbox_policy ctx (cache g) args in
          let dangerous := args_dangerously_disable_sandbox ctx args in
          match resolve_shell_workdir fs (ctx_cwd ctx) args with
          | Err e => (m, g, req, Err (BadWorkdir e))
          | Ok workdir =>
              let tty := flag (lit "tty") true args in
              let id := next_id m in
              let m := mk_manager (i32_add id 1) (sessions m) (kill_sent m) (reported m) (typed m) (owners m) (deltas m) in
              if spawn (build_bash_exec fs sys cmd (Some workdir) policy dangerous login) workdir tty then
                let h := if tty then Pty [] false RUNNING_EXIT_SENTINEL else Pipe Alive true in
                let s := mk_session h (OutputBuffer_new SHELL_MAX_BYTES) tty turn in
                (mk_manager (next_id m) (<[id := s]> (sessions m)) (kill_sent m) (reported m) (typed m) (<[id := turn]> (owners m)) (deltas m),
                 g, req, Ok id)
              else (m, g, req, Err SpawnFailed)
          end
      end
  end.
(** And after it slept, or the turn it belongs to was cancelled meanwhile.
    src: crates/pulsing-forge/src/unified_exec.rs 202-215 exec_command (end) *)
Definition exec_finish id (args : Value) (cancelled : bool) m : option (UnifiedExecManager * Result ExecCommandOutput ExecFault) :=
  if cancelled then Some (stop_session_and_wait id m, Err Cancelled) else poll_session id (max_tokens_of args) m.

(** ** write_stdin *)

(** src: crates/pulsing-forge/src/unified_exec.rs 447-460 parse_session_id *)
Definition parse_session_id (value : option Value) : Result Z ExecFault :=
  match value with
  | None => Err MissingSessionId
  | Some v =>
      match (match as_i64 v with Some n => Some n | None => as_str v ≫= parse_i64 end) with
      | Some n => if (- 2 ^ 31 <=? n) && (n <? 2 ^ 31) then Ok n else Err InvalidSessionId
      | None => Err InvalidSessionId
      end
  end.
Definition interrupt : str := [3].

(** The critical section of a call: the session and text asked for, the turn of the
    caller, and what the system answers to a kill or a write.
    src: crates/pulsing-forge/src/unified_exec.rs 241-293 write_stdin (section) *)
Definition write_section (turn : option str) id (chars : str) (kill_ok write_ok : bool) m : UnifiedExecManager * Result unit ExecFault :=
  match sessions m !! id with
  | None => (m, Err (UnknownSession id))
  | Some session =>
      if match owner_turn session with Some owner => negb (bool_decide (turn = Some owner)) | None => false end then (m, Err (OtherTurn id))
      else if negb (bool_decide (chars = interrupt)) && session_has_exited (handle session) then (m, Err (AlreadyExited id))
      else if bool_decide (chars = interrupt) then
        match handle session with
        | Pipe _ _ => (note_typed id turn (kill_group id m), Ok tt)
        | Pty q closed code =>
            if kill_ok then
              (note_typed id turn (kill_group id (set_sessions (<[id := set_handle (Pty (pty_kill q closed) closed code) session]> (sessions m)) m)), Ok tt)
            else (note_typed id turn (kill_group id m), Err KillFailed)
        end
      else if negb (tty session) then (m, Err StdinNeedsTty)
      else match handle session with
      | Pipe _ stdin => if stdin then if write_ok then (note_typed id turn m, Ok tt) else (m, Err StdinFailed) else (m, Err StdinClosed)
      | Pty q closed code =>
          match pty_write (as_bytes chars) q closed with
          | None => (m, Err StdinFailed)
          | Some q => (note_typed id turn (set_sessions (<[id := set_handle (Pty q closed code) session]> (sessions m)) m), Ok tt)
          end
      end
  end.
(** Up to the sleep; the session to poll afterwards.
    src: crates/pulsing-forge/src/unified_exec.rs 217-293 write_stdin *)
Definition write_stdin (turn : option str) (args : Value) (kill_ok write_ok : bool) m : UnifiedExecManager * Result Z ExecFault :=
  match parse_session_id (get (lit "session_id") args) with
  | Err e => (m, Err e)
  | Ok id =>
      match or_else (get (lit "chars") args) (get (lit "input") args) ≫= as_str with
      | None => (m, Err MissingChars)
      | Some chars =>
          let byte_len := utf8_len chars in
          if MAX_STDIN_BYTES <? byte_len then (m, Err (StdinTooLarge byte_len))
          else let '(m, r) := write_section turn id chars kill_ok write_ok m in (m, let? _ := r in Ok id)
      end
  end.

(** ** A life of the manager

    Calls, cut where they sleep, and what the processes do. *)
Inductive Event :=
  | Start (shlex : str → list str) (sys : SystemView) (spawn : BashExecPlan → Path → bool → bool) (fs : gmap (list str) Entry)
      (ctx : ToolCallContext) (turn : option str) (host : Host) (args : Value) (g : Gate)
  | Finish (id : Z) (args : Value) (cancelled : bool)
  | Stdin (turn : option str) (args : Value) (kill_ok write_ok : bool)
  | Poll (id : Z) (max_tokens : Z)
  | StopAll
  | StopOne (id : Z)
  | Prints (id : Z) (chunk : str)
  | Becomes (id : Z) (h : SessionHandle).

(** A process does not come back to life or change its kind. *)
Definition same_kind (h h' : SessionHandle) : bool :=
  match h, h' with Pipe _ _, Pipe _ _ | Pty _ _ _, Pty _ _ _ => true | _, _ => false end.
Definition exec_event `{Process} {O : Oracle} (e : Event) m : option UnifiedExecManager :=
  match e with
  | Start shlex sys spawn fs ctx turn host args g => Some (exec_start shlex sys spawn fs ctx turn host args g m).1.1.1
  | Finish id args cancelled => fst <$> exec_finish id args cancelled m
  | Stdin turn args kill_ok write_ok => Some (write_stdin turn args kill_ok write_ok m).1
  | Poll id n => fst <$> poll_session id n m
  | StopAll => Some (stop_all m).1
  | StopOne id => Some (stop_session_and_wait id m)
  | Prints id chunk =>
      match sessions m !! id with
      | Some s => b ← push (buffer s) chunk; Some (set_sessions (<[id := set_buffer b s]> (sessions m)) m)
      | None => Some m
      end
  | Becomes id h =>
      match sessions m !! id with
      | Some s => if same_kind (handle s) h then Some (set_sessions (<[id := set_handle h s]> (sessions m)) m) else Some m
      | None => Some m
      end
  end.
Definition exec_run `{Process} {O : Oracle} (es : list Event) m : option UnifiedExecManager := foldl (λ o e, m ← o; exec_event e m) (Some m) es.

(** ** The thread of a terminal *)
Section Terminal.
(** Where the thread is: taking what was queued, asking whether the child ended,
    in a read, reading the rest, and at its end. *)
Inductive PtyPhase := Commands | Waiting | Reading | Draining | Ended.
#[global] Instance PtyPhase_eq_dec : EqDecision PtyPhase.
Proof. solve_decision. Defined.
(** The thread with its queue, whether its owner is still there, and what the
    child does: how it ended, what it printed and is not read yet, whether the
    terminal hung up, and what was written to it.
    src: crates/pulsing-forge/src/pty_session.rs 23-30 PtyExecHandle *)
Record PtyWorld := mk_world {
  phase : PtyPhase; queue : list PtyCommand; owned : bool; world_exit : Z;
  child : option Z; printed : list bytes; hung_up : bool; received : list bytes; child_killed : bool;
  decoder : Utf8ChunkDecoder; world_buffer : OutputBuffer; sent : list str }.
(** src: crates/pulsing-forge/src/pty_session.rs 72-114 spawn_pty_exec *)
Definition spawn_pty : PtyWorld :=
  mk_world Commands [] true RUNNING_EXIT_SENTINEL None [] false [] false Utf8ChunkDecoder_default (OutputBuffer_new SHELL_MAX_BYTES) [].

Definition go (p : PtyPhase) (w : PtyWorld) : PtyWorld :=
  mk_world p (queue w) (owned w) (world_exit w) (child w) (printed w) (hung_up w) (received w) (child_killed w) (decoder w) (world_buffer w) (sent w).
(** A chunk goes to the buffer when its lock is free, and to the hook.
    src: crates/pulsing-forge/src/pty_session.rs 247-268 emit_chunk *)
Definition emit_chunk (lock_free : bool) (d : Utf8ChunkDecoder) (chunk : str) (w : PtyWorld) : option PtyWorld :=
  if bool_decide (chunk = []) then
    Some (mk_world (phase w) (queue w) (owned w) (world_exit w) (child w) (printed w) (hung_up w) (received w) (child_killed w) d (world_buffer w) (sent w))
  else
    b ← if lock_free then push (world_buffer w) chunk else Some (world_buffer w);
    Some (mk_world (phase w) (queue w) (owned w) (world_exit w) (child w) (printed w) (hung_up w) (received w) (child_killed w) d b (sent w ++ [chunk])).

(** One step of the thread; [None] when it cannot take one: a read waits until
    something was printed or the terminal hung up.
    src: crates/pulsing-forge/src/pty_session.rs 175-245 run_pty_thread (loop) *)
Definition pty_step (lock_free : bool) (w : PtyWorld) : option PtyWorld :=
  match phase w with
  | Commands =>
      match queue w with
      | PtyWrite d :: q =>
          Some (mk_world Commands q (owned w) (world_exit w) (child w) (printed w) (hung_up w) (received w ++ [d]) (child_killed w) (decoder w) (world_buffer w) (sent w))
      | PtyKill :: q =>
          Some (mk_world Commands q (owned w) (world_exit w) (child w) (printed w) (hung_up w) (received w) true (decoder w) (world_buffer w) (sent w))
      | [] =>
          Some (mk_world Waiting [] (owned w) (world_exit w) (child w) (printed w) (hung_up w) (received w) (child_killed w || negb (owned w)) (decoder w) (world_buffer w) (sent w))
      end
  | Waiting =>
      match child w with
      | Some c => Some (mk_world Draining (queue w) (owned w) c (child w) (printed w) (hung_up w) (received w) (child_killed w) (decoder w) (world_buffer w) (sent w))
      | None => Some (go Reading w)
      end
  | Reading | Draining =>
      let next := match phase w with Reading => Commands | _ => Draining end in
      match printed w with
      | bs :: rest =>
          let '(d, chunk) := decode (decoder w) bs in
          emit_chunk lock_free d chunk
            (mk_world next (queue w) (owned w) (world_exit w) (child w) rest (hung_up w) (received w) (child_killed w) (decoder w) (world_buffer w) (sent w))
      | [] =>
          if hung_up w then
            match phase w with
            | Reading => Some (go Commands w)
            | _ => let '(d, tail) := decoder_finish (decoder w) in emit_chunk lock_free d tail (go Ended w)
            end
          else None
      end
  | Ended => None
  end.

(** The thread moves, the owner queues a command or goes, the child prints, ends,
    or its terminal hangs up. *)
Inductive PtyEvent := Thread (lock_free : bool) | Enqueue (c : PtyCommand) | OwnerGone | ChildPrints (bs : bytes) | ChildEnds (code : Z) | HangUp.
Definition pty_event (e : PtyEvent) (w : PtyWorld) : option PtyWorld :=
  match e with
  | Thread b => pty_step b w
  | Enqueue c => Some (mk_world (phase w) (queue w ++ [c]) (owned w) (world_exit w) (child w) (printed w) (hung_up w) (received w) (child_killed w) (decoder w) (world_buffer w) (sent w))
  | OwnerGone => Some (mk_world (phase w) (queue w) false (world_exit w) (child w) (printed w) (hung_up w) (received w) (child_killed w) (decoder w) (world_buffer w) (sent w))
  | ChildPrints bs => Some (mk_world (phase w) (queue w) (owned w) (world_exit w) (child w) (printed w ++ [bs]) (hung_up w) (received w) (child_killed w) (decoder w) (world_buffer w) (sent w))
  | ChildEnds c => Some (mk_world (phase w) (queue w) (owned w) (world_exit w) (Some (default c (child w))) (printed w) (hung_up w) (received w) (child_killed w) (decoder w) (world_buffer w) (sent w))
  | HangUp => Some (mk_world (phase w) (queue w) (owned w) (world_exit w) (child w) (printed w) true (received w) (child_killed w) (decoder w) (world_buffer w) (sent w))
  end.
Definition pty_run (es : list PtyEvent) (w : PtyWorld) : option PtyWorld := foldl (λ o e, w ← o; pty_event e w) (Some w) es.
End Terminal.

(** ** The reader of a command without a terminal *)

(** [AsyncRead::read]. *)
Inductive Read := ReadBytes (bs : bytes) | ReadEnd.
(** A stream that is still read, with its decoder.
    src: crates/pulsing-forge/src/unified_exec.rs 588-608 push_chunk *)
Definition stream_turn (stream : ExecStream) (r : Read) (open_ : bool) (d : Utf8ChunkDecoder) : bool * Utf8ChunkDecoder * list (ExecStream * str) :=
  if open_ then
    match r with
    | ReadBytes ((_ :: _) as bs) => let '(d, chunk) := decode d bs in (true, d, if bool_decide (chunk = []) then [] else [(stream, chunk)])
    | _ => (false, d, [])
    end
  else (false, d, []).
(** src: crates/pulsing-forge/src/unified_exec.rs 610-629 flush_decoder *)
Definition flush (stream : ExecStream) (d : Utf8ChunkDecoder) : list (ExecStream * str) :=
  let tail := (decoder_finish d).2 in if bool_decide (tail = []) then [] else [(stream, tail)].
(** The chunks in the order they are pushed and sent, when both streams have ended
    in the rounds given. In a round both streams are read, one after the other; a
    stream whose read ended or failed is not read again.
    src: crates/pulsing-forge/src/unified_exec.rs 508-586 spawn_stream_reader *)
Fixpoint stream_reader (rounds : list (Read * Read)) (out err : bool) (out_decoder err_decoder : Utf8ChunkDecoder) : option (list (ExecStream * str)) :=
  match rounds with
  | [] => None
  | (r, r') :: rounds =>
      let '(out, out_decoder, chunks) := stream_turn Stdout r out out_decoder in
      let '(err, err_decoder, chunks') := stream_turn Stderr r' err err_decoder in
      app (chunks ++ chunks') <$>
      (if negb out && negb err then Some (flush Stdout out_decoder ++ flush Stderr err_decoder)
       else stream_reader rounds out err out_decoder err_decoder)
  end.

(** ** Commands that are waited for *)

(** src: crates/pulsing-forge/src/exec_output.rs 181-189 shell_timeout_ms *)
Definition shell_timeout_ms (args : Value) : Z :=
  match get (lit "timeout_ms") args ≫= as_u64 with
  | Some ms => Z.max 1 ms
  | None => match get (lit "timeout_sec") args ≫= as_u64 with Some sec => Z.max 1 (u64 (sec * 1000)) | None => DEFAULT_SHELL_TIMEOUT_MS end
  end.

(** How a command ended: it could not be started or waited for, its turn was
    cancelled, its time was over, or it ended by itself. *)
Inductive Outcome := NotStarted | NotWaited | TurnCancelled | TimedOut | Ended_ (stdout stderr : bytes) (code : option Z).
Inductive ShellResult :=
  | ShellText (text : str) (is_error : bool)
  | CancelledBefore | CancelledDuring | ShellTimedOut (timeout_ms : Z) | ShellIo
  | PatchApplied (s : Summary) | PatchFailed (e : ApplyPatchError) | ImplicitPatch | ShellParse (e : HeredocError) | PatchParseFailed (e : ParseError).

(** [String::truncate]; [None] is the panic inside a character. *)
Definition truncate (n : Z) (s : str) : option str :=
  if utf8_len s <=? n then Some s else rest ← drop_bytes n s; Some (take (length s - length rest) s).
(** src: crates/pulsing-forge/src/handlers/shell_exec.rs 130-146 run_shell (output) *)
Definition shell_text (stdout stderr : bytes) (code : option Z) (label : str) : option ShellResult :=
  let text := from_utf8_lossy stdout ++ from_utf8_lossy stderr in
  text ← if SHELL_MAX_BYTES <? utf8_len text
         then t ← truncate SHELL_MAX_BYTES text; Some (t ++ [newline; 8230] ++ lit " truncated " ++ [8230]) else Some text;
  let exit := default (-1) code in
  let shown := if exit <? 0 then 45 :: display_u128 (- exit) else display_u128 exit in
  Some (ShellText (text ++ [newline] ++ lit "exit=" ++ shown ++ [newline; 91] ++ label ++ [93]) (negb (bool_decide (code = Some 0)))).

(** [wait] is how the process ends that a plan starts in a directory, within a
    time.
    src: crates/pulsing-forge/src/handlers/shell_exec.rs 37-147 run_shell *)
Definition run_shell `{Process} {O : Oracle} (shlex : str → list str) (sys : SystemView) (extract : str → Result (str * option str) HeredocError)
    (wait : BashExecPlan → Path → Z → Outcome) (fs : FileSystem) (ctx : ToolCallContext) (turn_cancelled : bool) (host : Host) (args : Value) (g : Gate)
    : option (FileSystem * Gate * option ExecApprovalRequest * Result ShellResult ExecFault) :=
  match command_of args with
  | None => Some (fs, g, None, Err MissingCommand)
  | Some cmd =>
      match resolve_shell_workdir fs (ctx_cwd ctx) args with
      | Err e => Some (fs, g, None, Err (BadWorkdir e))
      | Ok cwd =>
          let login := flag (lit "login") false args in
          let timeout_ms := shell_timeout_ms args in
          if turn_cancelled then Some (fs, g, None, Ok CancelledBefore)
          else
          let '(g, req, allowed) := ensure_shell_allowed shlex ctx host args cmd g in
          match allowed with
          | Err e => Some (fs, g, req, Err (NotAllowed e))
          | Ok _ =>
              let policy := effective_sandbox_policy ctx (cache g) args in
              let dangerous := args_dangerously_disable_sandbox ctx args in
              let plan := build_bash_exec fs sys cmd (Some cwd) policy dangerous login in
              match maybe_parse_apply_patch extract (argv plan) with
              | Body patch_args =>
                  '(fs, r) ← apply_parsed_patch patch_args cwd fs;
                  Some (fs, g, req, Ok (match r with Ok s => PatchApplied s | Err e => PatchFailed e end))
              | ImplicitInvocation => Some (fs, g, req, Ok ImplicitPatch)
              | ShellParseError e => Some (fs, g, req, Ok (ShellParse e))
              | PatchParseError e => Some (fs, g, req, Ok (PatchParseFailed e))
              | NotApplyPatch =>
                  match wait plan cwd timeout_ms with
                  | NotStarted | NotWaited => Some (fs, g, req, Ok ShellIo)
                  | TurnCancelled => Some (fs, g, req, Ok CancelledDuring)
                  | TimedOut => Some (fs, g, req, Ok (ShellTimedOut timeout_ms))
                  | Ended_ stdout stderr code => r ← shell_text stdout stderr code (label plan); Some (fs, g, req, Ok r)
                  end
              end
          end
      end
  end.
