(* ===== verification/ExecFacts.v ===== *)
(** * Properties of running commands

    Sessions and their processes are accounted for, what is typed comes from who
    may type, the streams of a command are not mixed up, and a terminal delivers
    what goes through it, unless its program waits for the first word. *)
From S2P Require Import Prelude Text Bytes Files Patch Edit ExecPolicy Json Approval Apply ApplyFacts Output Tools ToolsFacts Exec.

(** ** Sessions *)
Implicit Types (m : UnifiedExecManager) (id : Z).

Definition kind_ok (s : ExecSession) : Prop := tty s = match handle s with Pty _ _ _ => true | Pipe _ _ => false end.
Definition may_type (o by_ : option (list Z)) : Prop := ∀ t, o = Some t → by_ = Some t.

Record exec_inv m : Prop := {
  ei_next : 1 <= next_id m;
  ei_ids id o : owners m !! id = Some o → 1 <= id < next_id m ∧ (is_Some (sessions m !! id) ∨ id ∈ kill_sent m);
  ei_sessions id s : sessions m !! id = Some s → owners m !! id = Some (owner_turn s) ∧ kind_ok s ∧ max_bytes (buffer s) = SHELL_MAX_BYTES;
  ei_once : NoDup (reported m).*1;
  ei_reported id : id ∈ (reported m).*1 → sessions m !! id = None ∧ is_Some (owners m !! id);
  ei_typed id t : (id, t) ∈ typed m → ∃ o, owners m !! id = Some o ∧ may_type o t }.

Lemma exec_inv_new : exec_inv UnifiedExecManager_new.
Proof. split; simpl; try done; [constructor|..]; intros; set_solver. Qed.

(** A session put back, of the same kind and owner. *)
Lemma inv_update m id s s' : exec_inv m → sessions m !! id = Some s → owner_turn s' = owner_turn s → kind_ok s' → max_bytes (buffer s') = SHELL_MAX_BYTES →
  exec_inv (set_sessions (<[id := s']> (sessions m)) m).
Proof.
  intros [H1 H2 H3 H4 H5 H6] Hs Ho Hk Hb. split; simpl; try done.
  - intros id' o Hid. destruct (H2 _ _ Hid) as [Hr Hor]. split; [done|]. destruct Hor as [Hor|?]; [left|by right]. rewrite lookup_insert. by case_decide.
  - intros id' s2. rewrite lookup_insert. case_decide; [intros [= <-]; subst|apply H3]. rewrite Ho. split; [by apply H3|done].
  - intros id' Hid. destruct (H5 _ Hid) as [Hn ?]. split; [|done]. rewrite lookup_insert_ne; [done|congruence].
Qed.
Lemma inv_drop m id : exec_inv m → exec_inv (drop_session id m).
Proof.
  intros [H1 H2 H3 H4 H5 H6]. split; simpl; try done.
  - intros id' o Hid. destruct (H2 _ _ Hid) as [Hr Hor]. split; [done|]. destruct (decide (id = id')) as [->|]; [right; set_solver|].
    rewrite lookup_delete_ne by done. destruct Hor; [by left|right; set_solver].
  - intros id' s. rewrite lookup_delete. case_decide; [done|apply H3].
  - intros id' Hid. destruct (H5 _ Hid) as [Hn ?]. split; [|done]. rewrite lookup_delete. by case_decide.
Qed.
Lemma inv_report m id c : exec_inv m → sessions m !! id = None → is_Some (owners m !! id) → id ∉ (reported m).*1 → exec_inv (report_exit id c m).
Proof.
  intros [H1 H2 H3 H4 H5 H6] Hs Ho Hn. split; simpl; try done; [by constructor|].
  intros id' [->|Hin]%elem_of_cons; [done|by apply H5].
Qed.
Lemma inv_emit m d : exec_inv m → exec_inv (emit d m).
Proof. by intros [H1 H2 H3 H4 H5 H6]; split. Qed.
Lemma inv_kill m id : exec_inv m → exec_inv (kill_group id m).
Proof.
  intros [H1 H2 H3 H4 H5 H6]. split; simpl; try done. intros id' o Hid. destruct (H2 _ _ Hid) as [Hr Hor]. split; [done|]. destruct Hor; [by left|right; set_solver].
Qed.
Lemma inv_typed m id t s : exec_inv m → sessions m !! id = Some s → may_type (owner_turn s) t → exec_inv (note_typed id t m).
Proof.
  intros [H1 H2 H3 H4 H5 H6] Hs Ht. split; simpl; try done. intros id' t' [[= -> ->]|Hin]%elem_of_cons; [|by apply H6].
  exists (owner_turn s). split; [by apply H3|done].
Qed.

Lemma push_total b chunk : max_bytes b = SHELL_MAX_BYTES → ∃ b', push b chunk = Some b' ∧ max_bytes b' = SHELL_MAX_BYTES.
Proof.
  intros Hb. unfold push. case_bool_decide; [eauto|]. rewrite Hb. cbv zeta. destruct (_ <? _); [|eauto].
  destruct (tail_at_spec (data b ++ chunk) (SHELL_MAX_BYTES / 2)) as (p & t & -> & _); [done|]. simpl. eauto.
Qed.

Lemma poll_ok id n m : exec_inv m → ∃ m' r, poll_session id n m = Some (m', r) ∧ exec_inv m' ∧ next_id m' = next_id m.
Proof.
  intros Hi. unfold poll_session. destruct (sessions m !! id) as [s|] eqn:Hs; [|eauto].
  destruct (match handle s with Pipe (Exited code) _ => _ | _ => _ end) as [code|e] eqn:Ec; [|eauto].
  destruct (truncate_to_tokens_spec (buffer s) n) as (b' & -> & Hb & _). simpl. eexists _, _. split; [reflexivity|].
  destruct (ei_sessions _ Hi _ _ Hs) as (Ho & Hk & Hm).
  assert (Hu : exec_inv (set_sessions (<[id := set_buffer b' s]> (sessions m)) m)) by (eapply inv_update; [done..|]; simpl; congruence).
  split; [apply inv_emit|by destruct code]. destruct code as [c|]; [|done]. apply inv_report; [by apply inv_drop|simpl; apply lookup_delete_eq|by eexists|].
  simpl. intros Hin. apply (ei_reported _ Hi) in Hin as [Hn _]. congruence.
Qed.

Lemma exec_start_ok `{Process} {O : Oracle} shlex sys spawn fs ctx turn host args g m : exec_inv m → next_id m < 2 ^ 31 - 1 →
  let m' := (exec_start shlex sys spawn fs ctx turn host args g m).1.1.1 in exec_inv m' ∧ next_id m <= next_id m' <= next_id m + 1.
Proof.
  intros Hi Hn. pose proof (ei_next _ Hi) as H1. assert (Hadd : i32_add (next_id m) 1 = next_id m + 1).
  { unfold i32_add, two32. rewrite Z.mod_small; lia. }
  unfold exec_start. destruct (command_of args) as [cmd|]; [|simpl; split; [done|lia]].
  destruct (ensure_shell_allowed shlex ctx host args cmd g) as [[g' req] [sp|e]]; [|simpl; split; [done|lia]].
  destruct (resolve_shell_workdir fs (ctx_cwd ctx) args) as [wd|e]; [|simpl; split; [done|lia]]. cbv zeta. rewrite Hadd. generalize (flag (lit "tty") true args) as ty. intros ty.
  assert (Hbump : exec_inv (mk_manager (next_id m + 1) (sessions m) (kill_sent m) (reported m) (typed m) (owners m) (deltas m))).
  { destruct Hi as [G1 G2 G3 G4 G5 G6]. split; simpl; try done; [lia|]. intros id o Hid. destruct (G2 _ _ Hid). split; [lia|done]. }
  case_match; [|simpl; split; [done|lia]]. simpl. split; [|lia]. destruct Hi as [G1 G2 G3 G4 G5 G6].
  assert (Hnew : owners m !! next_id m = None).
  { destruct (owners m !! next_id m) eqn:E; [|done]. apply G2 in E. lia. }
  split; simpl; try done; [lia| | | |].
  - intros id o. rewrite lookup_insert. case_decide as Heq; [subst; intros _; split; [lia|left; rewrite lookup_insert_eq; by eexists]|].
    intros Hid. destruct (G2 _ _ Hid) as [Hr Hor]. split; [lia|]. by rewrite lookup_insert_ne.
  - intros id s. rewrite lookup_insert. case_decide as Heq.
    + intros [= <-]. subst id. rewrite lookup_insert_eq. split_and!; [done| |done]. unfold kind_ok. simpl. by destruct ty.
    + intros Hs. destruct (G3 _ _ Hs) as (Ho & Hk & Hb). rewrite lookup_insert_ne by done. done.
  - intros id Hid. destruct (G5 _ Hid) as [Hs Ho]. destruct (decide (next_id m = id)) as [<-|]; [rewrite Hnew in Ho; by destruct Ho|].
    rewrite !lookup_insert_ne by done. done.
  - intros id t Hid. destruct (G6 _ _ Hid) as (o & Ho & Hm). exists o. split; [|done]. rewrite lookup_insert_ne; [done|]. intros <-. congruence.
Qed.

Lemma write_ok turn id chars k w m : exec_inv m → exec_inv (write_section turn id chars k w m).1 ∧ next_id (write_section turn id chars k w m).1 = next_id m.
Proof.
  intros Hi. unfold write_section. destruct (sessions m !! id) as [s|] eqn:Hs; [|done]. destruct (ei_sessions _ Hi _ _ Hs) as (Ho & Hk & Hb).
  assert (Hty : ∀ b, (match owner_turn s with Some owner => negb (bool_decide (turn = Some owner)) | None => false end) = b → b = false → may_type (owner_turn s) turn).
  { intros b Hb1 ->. intros t Ht. rewrite Ht in Hb1. by apply negb_false_iff, bool_decide_eq_true in Hb1. }
  destruct (match owner_turn s with Some _ => _ | None => _ end) eqn:Eo; [done|]. specialize (Hty false eq_refl eq_refl).
  destruct (negb _ && _); [done|]. case_bool_decide.
  - destruct (handle s) as [c st|q cl code] eqn:Eh; [|destruct k]; cbn [fst]; (split; [|done]).
    + eapply inv_typed; [by apply inv_kill|done|done].
    + eapply inv_typed; [apply inv_kill; eapply inv_update|simpl; apply lookup_insert_eq|done]; [done..|unfold kind_ok in *; simpl; by rewrite Eh in Hk|done].
    + eapply inv_typed; [by apply inv_kill|done|done].
  - destruct (negb (tty s)); [done|]. destruct (handle s) as [c st|q cl code] eqn:Eh.
    + destruct st; [|done]. destruct w; [|done]. cbn [fst]. split; [|done]. by eapply inv_typed.
    + destruct (pty_write (as_bytes chars) q cl) as [q'|]; [|done]. cbn [fst]. split; [|done].
      eapply inv_typed; [eapply inv_update|simpl; apply lookup_insert_eq|done]; [done..|unfold kind_ok in *; simpl; by rewrite Eh in Hk|done].
Qed.

Lemma event_ok `{Process} {O : Oracle} e m : exec_inv m → next_id m < 2 ^ 31 - 1 → ∃ m', exec_event e m = Some m' ∧ exec_inv m' ∧ next_id m <= next_id m' <= next_id m + 1.
Proof.
  intros Hi Hn. assert (Hstop : ∀ id, exec_inv (stop_session_and_wait id m) ∧ next_id (stop_session_and_wait id m) = next_id m).
  { intros id. unfold stop_session_and_wait. case_match; [|done]. split; [by apply inv_drop|done]. }
  destruct e as [shlex sys spawn fs ctx turn host args g|id args c|turn args k w|id n| |id|id chunk|id h]; cbn [exec_event].
  - eexists. split; [reflexivity|]. by apply exec_start_ok.
  - unfold exec_finish. destruct c.
    + eexists. split; [reflexivity|]. destruct (Hstop id) as [H1 H2]. cbn [fst]. rewrite H2. split; [done|lia].
    + destruct (poll_ok id (max_tokens_of args) m Hi) as (m' & r & -> & H1 & H2). eexists. split; [reflexivity|]. cbn [fst]. rewrite H2. split; [done|lia].
  - eexists. split; [reflexivity|]. unfold write_stdin. destruct (parse_session_id _) as [id|]; [|simpl; split; [done|lia]].
    destruct (_ ≫= as_str) as [chars|]; [|simpl; split; [done|lia]]. cbv zeta. destruct (_ <? _); [simpl; split; [done|lia]|].
    destruct (write_ok turn id chars k w m Hi) as [H1 H2]. destruct (write_section turn id chars k w m) as [m' r]. cbn [fst] in *. rewrite H2. split; [done|lia].
  - destruct (poll_ok id n m Hi) as (m' & r & -> & H1 & H2). eexists. split; [reflexivity|]. cbn [fst]. rewrite H2. split; [done|lia].
  - eexists. split; [reflexivity|]. cbn [stop_all fst]. split; [|simpl; lia]. destruct Hi as [H1 H2 H3 H4 H5 H6]. split; simpl; try done.
    + intros id o Hid. destruct (H2 _ _ Hid) as [Hr Hor]. split; [done|]. right. destruct Hor as [Hs%elem_of_dom|]; set_solver.
    + intros id Hid. split; [done|]. by apply H5.
  - eexists. split; [reflexivity|]. destruct (Hstop id) as [H1 H2]. rewrite H2. split; [done|lia].
  - destruct (sessions m !! id) as [s|] eqn:Hs; [|eexists; split; [done|]; split; [done|lia]]. destruct (ei_sessions _ Hi _ _ Hs) as (Ho & Hk & Hb).
    destruct (push_total (buffer s) chunk Hb) as (b & -> & Hb'). eexists. split; [reflexivity|]. simpl. split; [by eapply inv_update|lia].
  - destruct (sessions m !! id) as [s|] eqn:Hs; [|eexists; split; [done|]; split; [done|lia]]. destruct (ei_sessions _ Hi _ _ Hs) as (Ho & Hk & Hb).
    destruct (same_kind (handle s) h) eqn:E; [|eexists; split; [done|]; split; [done|lia]]. eexists. split; [reflexivity|]. simpl. split; [|lia].
    eapply inv_update; [done..| |done]. unfold kind_ok in *. simpl. rewrite Hk. by destruct (handle s), h.
Qed.

(** C14: In any life of the manager shorter than the range of its counter nothing
    panics; every session that was ever started is in the table or its process and
    process group were sent a kill (whose failure is ignored); an exit is reported once and the session is gone with
    it; and only calls of the turn a session was started in have typed to it. *)
Theorem exec_sessions_accounted `{Process} {O : Oracle} es : Z.of_nat (length es) < 2 ^ 31 - 2 →
  ∃ m, exec_run es UnifiedExecManager_new = Some m ∧
    (∀ id o, owners m !! id = Some o → is_Some (sessions m !! id) ∨ id ∈ kill_sent m) ∧
    NoDup (reported m).*1 ∧ (∀ id, id ∈ (reported m).*1 → sessions m !! id = None) ∧
    (∀ id t, (id, t) ∈ typed m → ∃ o, owners m !! id = Some o ∧ may_type o t) ∧
    (∀ id s, sessions m !! id = Some s → owners m !! id = Some (owner_turn s) ∧ kind_ok s).
Proof.
  intros Hlen. assert (Hgen : ∃ m, exec_run es UnifiedExecManager_new = Some m ∧ exec_inv m ∧ next_id m <= Z.of_nat (length es) + 1).
  { unfold exec_run. induction es as [|e es IH] using rev_ind; [exists UnifiedExecManager_new; split; [done|]; split; [apply exec_inv_new|simpl; lia]|].
    rewrite length_app in Hlen. simpl in Hlen. destruct IH as (m & Hm & Hi & Hn); [lia|]. rewrite foldl_app, Hm. cbn [foldl].
    destruct (event_ok e m Hi) as (m' & He & Hi' & Hn'); [lia|]. exists m'. split; [done|]. split; [done|]. rewrite length_app. simpl. lia. }
  destruct Hgen as (m & Hm & [H1 H2 H3 H4 H5 H6] & _). exists m. split_and!; try done.
  - intros id o Hid. by apply H2 in Hid as [_ ?].
  - intros id Hid. by apply H5 in Hid as [? _].
  - intros id s Hs. by apply H3 in Hs as (? & ? & _).
Qed.

(** A command that runs on, is typed to and interrupted, and one that is stopped. *)
Section SessionExample.
Let example_process : Process := {| working_directory := []; max_links := 40 |}.
#[local] Existing Instance example_process.
Definition any_host : Host := mk_host Always (λ _, Ok Denied).
Definition run_cat (turn : option (list Z)) : Event :=
  Start (λ s, [s]) (mk_system false false (λ _, None)) (λ _ _ _, true) ∅ (mk_ctx (abs []) Off false) turn any_host
    (Object [(lit "cmd", Text (lit "cat"))]) (mk_gate (mk_policy []) ApprovalCache_default).
Definition to_session (id : Z) (text : list Z) : Value := Object [(lit "chars", Text text); (lit "session_id", Number (display_u128 id))].
Definition one_life : list Event :=
  [run_cat (Some (lit "t")); run_cat None; Prints 1 (lit "hello"); Finish 1 (Object []) false; Stdin (Some (lit "u")) (to_session 1 (lit "x")) true true;
   Stdin (Some (lit "t")) (to_session 1 (lit "x")) true true; Becomes 1 (Pty [] true 0); Poll 1 100; StopOne 2; Poll 1 100].

Lemma exec_sessions_accounted_witness :
  ∃ m, exec_run one_life UnifiedExecManager_new = Some m ∧ reported m = [(1, 0)] ∧ typed m = [(1, Some (lit "t"))] ∧ sessions m = ∅ ∧
    ((∀ id o, owners m !! id = Some o → is_Some (sessions m !! id) ∨ id ∈ kill_sent m) ∧
    NoDup (reported m).*1 ∧ (∀ id, id ∈ (reported m).*1 → sessions m !! id = None) ∧
    (∀ id t, (id, t) ∈ typed m → ∃ o, owners m !! id = Some o ∧ may_type o t) ∧
    (∀ id s, sessions m !! id = Some s → owners m !! id = Some (owner_turn s) ∧ kind_ok s)).
Proof.
  destruct (exec_sessions_accounted one_life) as (m & Hm & H); [by vm_compute|]. exists m. split; [done|].
  assert (He : (λ m, (reported m, typed m, sessions m)) <$> exec_run one_life UnifiedExecManager_new = Some ([(1, 0)], [(1, Some (lit "t"))], ∅)) by (vm_compute; reflexivity).
  rewrite Hm in He. injection He as H1 H2 H3. exact (conj H1 (conj H2 (conj H3 H))).
Defined.
End SessionExample.

(** ** The streams of a command *)
Definition text_of (stream : ExecStream) (chunks : list (ExecStream * list Z)) : list Z :=
  mjoin (snd <$> filter (λ c, c.1 = stream) chunks).
Lemma text_of_app stream a b : text_of stream (a ++ b) = text_of stream a ++ text_of stream b.
Proof. unfold text_of. by rewrite filter_app, fmap_app, join_app. Qed.
(** What a stream gave before its end. *)
Fixpoint reads_until_end (open_ : bool) (rs : list Read) : list (list Z) :=
  match rs with
  | ReadBytes ((_ :: _) as bs) :: rs => if open_ then bs :: reads_until_end true rs else []
  | _ => []
  end.
Definition rest_of (d : Utf8ChunkDecoder) (reads : list (list Z)) : list Z := let '(d, s) := decode_all d reads in s ++ (decoder_finish d).2.

Lemma turn_text stream r o d o' d' ch : stream_turn stream r o d = (o', d', ch) →
  (∀ s, s ≠ stream → text_of s ch = []) ∧
  ∀ rs, rest_of d (reads_until_end o (r :: rs)) = text_of stream ch ++ rest_of d' (reads_until_end o' rs) ∧ (o' = false → reads_until_end o' rs = []).
Proof.
  assert (Hclosed : ∀ rs, reads_until_end false rs = []) by (intros [|[[|]|] ?]; done).
  unfold stream_turn. destruct o.
  - destruct r as [[|b bs]|].
    + intros [= <- <- <-]. split; [done|]. intros rs. rewrite Hclosed. done.
    + destruct (decode d (b :: bs)) as [d2 chunk] eqn:E. intros [= <- <- <-]. split.
      { intros s Hs. case_bool_decide; [done|]. unfold text_of. rewrite filter_cons_False by (simpl; congruence). done. }
      intros rs. split; [|done]. cbn [reads_until_end]. unfold rest_of. cbn [decode_all]. rewrite E.
      destruct (decode_all d2 (reads_until_end true rs)) as [d3 s]. rewrite <- app_assoc. f_equal.
      case_bool_decide as Hc; [by subst|]. unfold text_of. rewrite filter_cons_True by done. simpl. by rewrite app_nil_r.
    + intros [= <- <- <-]. split; [done|]. intros rs. rewrite Hclosed. done.
  - intros [= <- <- <-]. split; [done|]. intros rs. rewrite !Hclosed. done.
Qed.
Lemma flush_text stream d s : text_of s (flush stream d) = if decide (s = stream) then (decoder_finish d).2 else [].
Proof.
  unfold flush. cbv zeta. case_bool_decide as Ht; [rewrite Ht; by case_decide|]. unfold text_of. case_decide.
  - rewrite filter_cons_True by done. simpl. by rewrite app_nil_r.
  - rewrite filter_cons_False by (simpl; congruence). done.
Qed.

Lemma reader_text rounds o e d d' chunks : stream_reader rounds o e d d' = Some chunks →
  text_of Stdout chunks = rest_of d (reads_until_end o rounds.*1) ∧ text_of Stderr chunks = rest_of d' (reads_until_end e rounds.*2).
Proof.
  revert o e d d' chunks. induction rounds as [|[r r'] rounds IH]; intros o e d d' chunks; [done|]. cbn [stream_reader].
  destruct (stream_turn Stdout r o d) as [[o1 d1] c1] eqn:E1. destruct (stream_turn Stderr r' e d') as [[e1 d1'] c2] eqn:E2.
  apply turn_text in E1 as [N1 T1]. apply turn_text in E2 as [N2 T2]. rewrite !fmap_cons. cbn [fst snd].
  destruct (T1 rounds.*1) as [-> Z1]. destruct (T2 rounds.*2) as [-> Z2].
  destruct (negb o1 && negb e1) eqn:Ec.
  - intros [= <-]. apply andb_true_iff in Ec as [Eo%negb_true_iff Ee%negb_true_iff]. rewrite !text_of_app, !flush_text.
    rewrite (Z1 Eo), (Z2 Ee), (N1 Stderr), (N2 Stdout) by done. unfold rest_of. simpl. by rewrite !app_nil_r.
  - destruct (stream_reader rounds o1 e1 d1 d1') as [ch|] eqn:Er; [|done]. intros [= <-]. destruct (IH _ _ _ _ _ Er) as [H1 H2].
    rewrite !text_of_app, H1, H2, (N1 Stderr), (N2 Stdout) by done. by rewrite app_nil_r.
Qed.
Lemma rest_of_default reads : rest_of Utf8ChunkDecoder_default reads = decode_stream reads.
Proof. done. Qed.
Lemma rest_of_text s reads : Forall is_scalar s → mjoin reads = as_bytes s → rest_of Utf8ChunkDecoder_default reads = s.
Proof.
  intros Hs Hb. unfold rest_of, Utf8ChunkDecoder_default. destruct (decode_all_text reads s [] Hs Hb) as [->|[Hne ->]]; [simpl; apply app_nil_r|].
  destruct s as [|c s]; [done|]. symmetry in Hb. by apply app_eq_nil in Hb as [?%utf8_char_not_nil _].
Qed.

(** C28: The two streams of a command do not mix: whatever bytes they carry, the
    text given out for a stream is what its decoder makes of that stream's own
    reads, however the reads of the other one come between them. When the bytes of a
    stream, up to its end, are UTF-8, that text is the text they encode, whole,
    however its reads were cut and whatever the other stream carries. (Bytes that are
    not UTF-8 are given out with replacement characters, and then the text may depend on
    where the reads were cut.) *)
Theorem streams_do_not_mix rounds chunks :
  stream_reader rounds true true Utf8ChunkDecoder_default Utf8ChunkDecoder_default = Some chunks →
  let out := reads_until_end true rounds.*1 in let err := reads_until_end true rounds.*2 in
  (text_of Stdout chunks = decode_stream out ∧ text_of Stderr chunks = decode_stream err) ∧
  ∀ s, Forall is_scalar s →
    (mjoin out = as_bytes s → text_of Stdout chunks = s) ∧ (mjoin err = as_bytes s → text_of Stderr chunks = s).
Proof.
  intros [H1 H2]%reader_text out err. rewrite H1, H2. split; [by rewrite !rest_of_default|]. intros s Hs. split; by apply rest_of_text.
Qed.

(** What is printed to standard error here is not UTF-8. *)
Definition mixed_rounds : list (Read * Read) :=
  [(ReadBytes [104; 195], ReadBytes [228; 255]); (ReadBytes [169], ReadBytes [173]); (ReadEnd, ReadBytes [10]); (ReadBytes [88], ReadEnd)].
Lemma streams_do_not_mix_witness :
  ∃ chunks, stream_reader mixed_rounds true true Utf8ChunkDecoder_default Utf8ChunkDecoder_default = Some chunks ∧
    text_of Stdout chunks = [104; 233] ∧ text_of Stderr chunks = [65533; 65533; 65533; 10].
Proof.
  eexists. split; [vm_compute; reflexivity|].
  destruct (streams_do_not_mix mixed_rounds _ ltac:(vm_compute; reflexivity)) as [[_ He] Hs]. split.
  - apply (Hs [104; 233]); [by repeat constructor|reflexivity].
  - rewrite He. vm_compute. reflexivity.
Defined.

(** ** The terminal *)
Definition writes_of (cs : list PtyCommand) : list (list Z) := omap (λ c, match c with PtyWrite d => Some d | PtyKill => None end) cs.
Definition typed_in (es : list PtyEvent) : list (list Z) := writes_of (omap (λ e, match e with Enqueue c => Some c | _ => None end) es).
Definition printed_in (es : list PtyEvent) : list (list Z) := omap (λ e, match e with ChildPrints bs => Some bs | _ => None end) es.
Lemma writes_app a b : writes_of (a ++ b) = writes_of a ++ writes_of b.
Proof. apply omap_app. Qed.

Lemma decode_all_app d a b : decode_all d (a ++ b) = let '(d, s) := decode_all d a in let '(d, t) := decode_all d b in (d, s ++ t).
Proof.
  revert d. induction a as [|c a IH]; intros d; simpl; [by destruct (decode_all d b)|]. destruct (decode d c) as [d1 s1]. rewrite IH.
  destruct (decode_all d1 a) as [d2 s2]. destruct (decode_all d2 b) as [d3 s3]. by rewrite app_assoc.
Qed.

Record pty_inv (typed printed_ : list (list Z)) (w : PtyWorld) : Prop := {
  pi_typed : received w ++ writes_of (queue w) = typed;
  pi_printed : ∃ read, printed_ = read ++ printed w ∧
    (if decide (phase w = Ended) then mjoin (sent w) = decode_stream read else decode_all Utf8ChunkDecoder_default read = (decoder w, mjoin (sent w)));
  pi_exit : (phase w = Draining ∨ phase w = Ended → child w = Some (world_exit w));
  pi_running : (phase w ≠ Draining → phase w ≠ Ended → world_exit w = RUNNING_EXIT_SENTINEL);
  pi_size : max_bytes (world_buffer w) = SHELL_MAX_BYTES }.

Lemma emit_spec b d chunk w : max_bytes (world_buffer w) = SHELL_MAX_BYTES → ∃ buf, max_bytes buf = SHELL_MAX_BYTES ∧
  emit_chunk b d chunk w = Some (mk_world (phase w) (queue w) (owned w) (world_exit w) (child w) (printed w) (hung_up w) (received w) (child_killed w) d buf
    (if bool_decide (chunk = []) then sent w else sent w ++ [chunk])).
Proof.
  intros Hb. unfold emit_chunk. case_bool_decide; [eauto|]. destruct b; [|eauto]. destruct (push_total _ chunk Hb) as (b' & -> & ?). simpl. eauto.
Qed.
Lemma join_sent chunk l : mjoin (if bool_decide (chunk = []) then l else l ++ [chunk]) = mjoin l ++ (chunk : list Z).
Proof. case_bool_decide as Hc; [subst; by rewrite app_nil_r|]. rewrite join_app. simpl. by rewrite app_nil_r. Qed.

Lemma pty_step_inv b w w' typed printed_ : pty_inv typed printed_ w → pty_step b w = Some w' → pty_inv typed printed_ w'.
Proof.
  intros [H1 (rd & H2 & H3) H4 H5 H6]. unfold pty_step. destruct (phase w) eqn:Ep.
  - destruct (queue w) as [|[d|] q] eqn:Eq; intros [= <-]; (split; cbn; [| |by intros [?|?]|intros _ _; by apply H5|done]).
    1,3,5: rewrite <- H1; simpl; rewrite <- ?app_assoc; done.
    all: exists rd; split; [done|]; rewrite decide_False in H3 by done; by rewrite decide_False.
  - rewrite decide_False in H3 by done. destruct (child w) as [c|] eqn:Ec; intros [= <-]; (split; cbn; [done| | | |done]).
    + exists rd. split; [done|]. by rewrite decide_False.
    + done.
    + done.
    + exists rd. split; [done|]. by rewrite decide_False.
    + by intros [?|?].
    + intros _ _. by apply H5.
  - rewrite decide_False in H3 by done. destruct (printed w) as [|bs rest] eqn:Epr.
    + destruct (hung_up w); [|done]. intros [= <-]. split; cbn; [done| |by intros [?|?]|intros _ _; by apply H5|done].
      exists rd. rewrite Epr. split; [done|]. by rewrite decide_False.
    + destruct (decode (decoder w) bs) as [d chunk] eqn:Ed. cbv zeta. match goal with |- emit_chunk _ _ _ ?w0 = _ → _ => destruct (emit_spec b d chunk w0) as (buf & Hbuf & ->); [done|] end. intros [= <-].
      split; cbn; [done| |by intros [?|?]|intros _ _; by apply H5|done].
      exists (rd ++ [bs]). rewrite H2, <- app_assoc. split; [done|]. rewrite decide_False by done. rewrite decode_all_app, H3. cbn [decode_all]. rewrite Ed.
      by rewrite app_nil_r, join_sent.
  - rewrite decide_False in H3 by done. destruct (printed w) as [|bs rest] eqn:Epr.
    + destruct (hung_up w); [|done]. destruct (decoder_finish (decoder w)) as [d tail] eqn:Ed.
      match goal with |- emit_chunk _ _ _ ?w0 = _ → _ => destruct (emit_spec b d tail w0) as (buf & Hbuf & ->); [done|] end. intros [= <-].
      split; cbn; [done| |intros _; apply H4; by left|done|done]. exists rd. rewrite Epr. split; [done|]. rewrite join_sent. unfold decode_stream. rewrite H3, Ed. done.
    + destruct (decode (decoder w) bs) as [d chunk] eqn:Ed. cbv zeta. match goal with |- emit_chunk _ _ _ ?w0 = _ → _ => destruct (emit_spec b d chunk w0) as (buf & Hbuf & ->); [done|] end. intros [= <-].
      split; cbn; [done| |intros _; apply H4; by left|done|done].
      exists (rd ++ [bs]). rewrite H2, <- app_assoc. split; [done|]. rewrite decide_False by done. rewrite decode_all_app, H3. cbn [decode_all]. rewrite Ed.
      by rewrite app_nil_r, join_sent.
  - done.
Qed.

Lemma event_inv e w w' typed printed_ : pty_inv typed printed_ w → pty_event e w = Some w' →
  pty_inv (typed ++ typed_in [e]) (printed_ ++ printed_in [e]) w'.
Proof.
  intros Hi. destruct e as [b|c| |bs|c|]; cbn [pty_event]; unfold typed_in, printed_in; simpl.
  - rewrite !app_nil_r. by apply pty_step_inv.
  - intros [= <-]. destruct Hi as [H1 (rd & H2 & H3) H4 H5 H6]. rewrite app_nil_r. split; cbn; [|eauto|done..].
    rewrite writes_app, app_assoc, H1. destruct c; done.
  - rewrite !app_nil_r. intros [= <-]. destruct Hi as [H1 (rd & H2 & H3) H4 H5 H6]. split; cbn; eauto.
  - intros [= <-]. destruct Hi as [H1 (rd & H2 & H3) H4 H5 H6]. rewrite app_nil_r. split; cbn; [done| |done..].
    exists rd. rewrite H2, <- app_assoc. done.
  - rewrite !app_nil_r. intros [= <-]. destruct Hi as [H1 (rd & H2 & H3) H4 H5 H6]. split; cbn; [done|eauto| |done|done].
    intros Hp. by rewrite (H4 Hp).
  - rewrite !app_nil_r. intros [= <-]. destruct Hi as [H1 (rd & H2 & H3) H4 H5 H6]. split; cbn; eauto.
Qed.

(** Whatever happens around a terminal's thread, what was typed reaches the
    child in order, once, or is still queued; once the thread has ended, the text
    it gave out is the text of all it read, everything the child printed before
    the terminal hung up; and an exit code is shown only when the child ended. *)
Theorem terminal_delivers es w : pty_run es spawn_pty = Some w →
  received w ++ writes_of (queue w) = typed_in es ∧
  (∃ read, printed_in es = read ++ printed w ∧
    (phase w = Ended → mjoin (sent w) = decode_stream read) ∧ mjoin (sent w) `prefix_of` decode_stream read) ∧
  (poll_exit_code (world_exit w) ≠ None → child w = Some (world_exit w)).
Proof.
  intros Hrun. assert (Hi : pty_inv (typed_in es) (printed_in es) w).
  { revert w Hrun. induction es as [|e es IH] using rev_ind; intros w.
    - intros [= <-]. split; cbn; try done; [by exists []|by intros [?|?]].
    - unfold pty_run. rewrite foldl_app. cbn [foldl]. destruct (foldl _ _ es) as [w1|] eqn:E; [|done]. intros He. specialize (IH w1 E).
      apply (event_inv _ _ _ _ _ IH) in He. unfold typed_in, printed_in in *. rewrite !omap_app. by rewrite writes_app. }
  destruct Hi as [H1 (rd & H2 & H3) H4 H5 H6]. split_and!; [done| |].
  - exists rd. split; [done|]. case_decide as Hp; [by rewrite H3|]. split; [done|]. unfold decode_stream. rewrite H3. by apply prefix_app_r.
  - intros Hc. destruct (decide (phase w = Draining)) as [?|Hd]; [apply H4; by left|]. destruct (decide (phase w = Ended)) as [?|He]; [apply H4; by right|].
    destruct Hc. by rewrite (H5 Hd He).
Qed.

Definition one_terminal : list PtyEvent :=
  [ChildPrints [226; 130]; Thread true; Thread true; Enqueue (PtyWrite [108; 10]); Thread true; Thread true; ChildPrints [172]; ChildEnds 0; Thread true; Thread true; Thread true; HangUp; Thread true].
Lemma terminal_delivers_witness :
  ∃ w, pty_run one_terminal spawn_pty = Some w ∧ phase w = Ended ∧ received w = [[108; 10]] ∧ sent w = [[8364]] ∧
  (received w ++ writes_of (queue w) = typed_in one_terminal ∧
  (∃ read, printed_in one_terminal = read ++ printed w ∧
    (phase w = Ended → mjoin (sent w) = decode_stream read) ∧ mjoin (sent w) `prefix_of` decode_stream read) ∧
  (poll_exit_code (world_exit w) ≠ None → child w = Some (world_exit w))).
Proof.
  eexists. split; [vm_compute; reflexivity|]. split; [reflexivity|]. split; [reflexivity|]. split; [reflexivity|].
  apply (terminal_delivers one_terminal). vm_compute. reflexivity.
Defined.

(** A program that waits for its first word never gets it: the thread is in a read
    that waits for the program, and what is typed stays in the queue. *)
Theorem quiet_program_gets_no_input cs :
  ∃ w, pty_run ([Thread true; Thread true] ++ (Enqueue <$> cs)) spawn_pty = Some w ∧
    queue w = cs ∧ received w = [] ∧ world_exit w = RUNNING_EXIT_SENTINEL ∧ ∀ lock_free, pty_step lock_free w = None.
Proof.
  assert (Hgen : ∃ w, pty_run ([Thread true; Thread true] ++ (Enqueue <$> cs)) spawn_pty = Some w ∧ queue w = cs ∧ received w = [] ∧
    world_exit w = RUNNING_EXIT_SENTINEL ∧ phase w = Reading ∧ printed w = [] ∧ hung_up w = false).
  { induction cs as [|c cs IH] using rev_ind; [eexists; split; [vm_compute; reflexivity|]; by split_and!|].
    destruct IH as (w & Hw & Hq & Hr & Hx & Hp & Hpr & Hh). unfold pty_run in *. rewrite fmap_app, app_assoc, foldl_app, Hw.
    cbn [foldl fmap list_fmap mbind option_bind pty_event]. eexists. split; [reflexivity|]. cbn. rewrite Hq. by split_and!. }
  destruct Hgen as (w & Hw & Hq & Hr & Hx & Hp & Hpr & Hh). exists w. split_and!; [done..|]. intros b. unfold pty_step. by rewrite Hp, Hpr, Hh.
Qed.

(** Output that comes while a call looks at the buffer is not in the buffer. *)
Lemma busy_buffer_loses_output : ∃ w, pty_run [ChildPrints (lit "x"); Thread true; Thread true; Thread false] spawn_pty = Some w ∧
  sent w = [lit "x"] ∧ data (world_buffer w) = [].
Proof. eexists. split; [vm_compute; reflexivity|]. by split. Qed.
(** An exit is shown before the last output is read: a call that looks then ends
    the session without it. *)
Lemma exit_is_shown_before_output : ∃ w, pty_run [Thread true; ChildPrints (lit "bye"); ChildEnds 0; Thread true] spawn_pty = Some w ∧
  poll_exit_code (world_exit w) = Some 0 ∧ printed w = [lit "bye"] ∧ sent w = [].
Proof. eexists. split; [vm_compute; reflexivity|]. by split_and!. Qed.
(** A small limit of one call cuts the output for the calls after it. *)
Lemma limit_cuts_for_all : ∃ b b', truncate_to_tokens (mk_buffer SHELL_MAX_BYTES (repeat 97 400)) 1 = Some b ∧ truncate_to_tokens b 10000 = Some b' ∧ utf8_len (data b') = 24.
Proof. eexists _, _. split; [vm_compute; reflexivity|]. split; [vm_compute; reflexivity|]. by vm_compute. Qed.

(** Every look at a session gives all of its output again, and sends it to the host
    once more. *)
Lemma poll_repeats_output : ∃ m r m' r', poll_session 1 100 (mk_manager 2 {[1 := mk_session (Pty [] false RUNNING_EXIT_SENTINEL) (mk_buffer SHELL_MAX_BYTES (lit "x")) true None]} ∅ [] [] ∅ []) = Some (m, Ok r) ∧
  poll_session 1 100 m = Some (m', Ok r') ∧ output r = lit "x" ∧ output r' = lit "x" ∧ deltas m' = [mk_delta 1 PtyStream (lit "x"); mk_delta 1 PtyStream (lit "x")].
Proof. eexists _, _, _, _. split; [vm_compute; reflexivity|]. split; [vm_compute; reflexivity|]. by split_and!. Qed.

(** ** Waiting for a command *)

(** Output longer than the limit with a character across it is a panic. *)
Lemma shell_output_panics code label : shell_text (repeat 97 (Z.to_nat (SHELL_MAX_BYTES - 1)) ++ [195; 169]) [] code label = None.
Proof.
  assert (Hascii : ∀ n, as_bytes (repeat 97 n ++ [233]) = repeat 97 n ++ [195; 169]).
  { intros n. induction n as [|n IH]; [done|]. change (as_bytes (97 :: (repeat 97 n ++ [233])) = 97 :: (repeat 97 n ++ [195; 169])). rewrite <- IH. done. }
  assert (Hlen : ∀ n, utf8_len (repeat 97 n ++ [233]) = Z.of_nat n + 2).
  { intros n. induction n as [|n IH]; [done|]. change (repeat 97 (S n) ++ [233]) with (97 :: (repeat 97 n ++ [233])). rewrite utf8_len_cons, IH. unfold utf8_width. simpl. lia. }
  assert (Hcut : ∀ n, drop_bytes (Z.of_nat n + 1) (repeat 97 n ++ [233]) = None).
  { intros n. induction n as [|n IH]; [done|]. change (repeat 97 (S n) ++ [233]) with (97 :: (repeat 97 n ++ [233])). cbn [drop_bytes].
    destruct (Z.eqb_spec (Z.of_nat (S n) + 1) 0); [lia|]. change (utf8_width 97) with 1. destruct (Z.ltb_spec (Z.of_nat (S n) + 1) 1); [lia|].
    replace (Z.of_nat (S n) + 1 - 1) with (Z.of_nat n + 1) by lia. done. }
  unfold shell_text. rewrite <- Hascii. unfold from_utf8_lossy. rewrite lossy_as_bytes; [| |apply as_bytes_length].
  2: { apply Forall_app. split; [|by repeat constructor]. apply Forall_forall. intros c Hc%list_elem_of_In%repeat_spec. by subst. }
  cbv zeta. simpl (lossy (length []) []). rewrite app_nil_r. generalize (Hlen (Z.to_nat (SHELL_MAX_BYTES - 1))), (Hcut (Z.to_nat (SHELL_MAX_BYTES - 1))).
  rewrite Z2Nat.id by done. generalize (repeat 97 (Z.to_nat (SHELL_MAX_BYTES - 1)) ++ [233]) as text. intros text Hl Hc.
  destruct (Z.ltb_spec SHELL_MAX_BYTES (utf8_len text)) as [_|]; [|lia]. unfold truncate. destruct (Z.leb_spec (utf8_len text) SHELL_MAX_BYTES); [lia|].
  replace SHELL_MAX_BYTES with (SHELL_MAX_BYTES - 1 + 1) at 1 by lia. by rewrite Hc.
Qed.

(** ** Nothing runs that was not allowed *)
Section Gated.
Context `{Process} {O : Oracle} (shlex : list Z → list (list Z)) (sys : SystemView).

Lemma ensure_policy ctx host args cmd g g' req sp : ensure_shell_allowed shlex ctx host args cmd g = (g', req, Ok sp) → sp = effective_sandbox_policy ctx (cache g') args.
Proof. unfold ensure_shell_allowed. cbv zeta. repeat case_match; intros [= <- _ <-]; done. Qed.

(** The working directory that was asked for is below the agent's. *)
Lemma workdir_inside fs cwd r args wd : tool_normalize cwd = abs r → canonicalize fs cwd = Some r → r ≠ [] → is_tree fs →
  resolve_shell_workdir fs cwd args = Ok wd → ∀ d, canonicalize fs wd = Some d → r `prefix_of` d.
Proof.
  intros Hr Hc Hne Ht. unfold resolve_shell_workdir. destruct (_ ≫= as_str) as [w|]; [|intros [= <-] d Hd; rewrite Hc in Hd; by injection Hd as <-].
  intros Hres d Hd. apply (resolve_within _ _ _ _ r) in Hres as (ns & -> & _ & Hg); [|done..]. apply (Hg ns); [done|done|by left].
Qed.

(** A command is cleared: the gate let it through with this sandbox, and this is
    its directory. *)
Definition cleared (fs : gmap (list (list Z)) Entry) (ctx : ToolCallContext) (host : Host) (args : Value) (g g' : Gate) (req : option ExecApprovalRequest)
    (cmd : list Z) (sp : SandboxPolicy) (wd : list Component) : Prop :=
  command_of args = Some cmd ∧ ensure_shell_allowed shlex ctx host args cmd g = (g', req, Ok sp) ∧ resolve_shell_workdir fs (ctx_cwd ctx) args = Ok wd.
Definition plan_of (fs : gmap (list (list Z)) Entry) (ctx : ToolCallContext) (args : Value) (cmd : list Z) (sp : SandboxPolicy) (wd : list Component) : BashExecPlan :=
  build_bash_exec fs sys cmd (Some wd) sp (args_dangerously_disable_sandbox ctx args) (flag (lit "login") false args).

Lemma start_cleared spawn fs ctx turn host args g m m' g' req id :
  exec_start shlex sys spawn fs ctx turn host args g m = (m', g', req, Ok id) →
  ∃ cmd sp wd, cleared fs ctx host args g g' req cmd sp wd ∧ spawn (plan_of fs ctx args cmd sp wd) wd (flag (lit "tty") true args) = true.
Proof.
  unfold exec_start, cleared, plan_of. destruct (command_of args) as [cmd|]; [|done]. destruct (ensure_shell_allowed _ _ _ _ _ _) as [[g1 req1] [sp|e]] eqn:E; [|done].
  destruct (resolve_shell_workdir _ _ _) as [wd|e] eqn:Ew; [|done]. cbv zeta. case_match eqn:Es; [|done]. intros [= _ <- <- _].
  exists cmd, sp, wd. split_and!; try done. by rewrite (ensure_policy _ _ _ _ _ _ _ _ E).
Qed.
Lemma shell_cleared extract wait fs ctx tc host args g fs' g' req res :
  run_shell shlex sys extract wait fs ctx tc host args g = Some (fs', g', req, res) →
  (fs' = fs ∧ (res = Ok CancelledBefore ∨ ∃ e, res = Err e)) ∨
  ∃ cmd sp wd, cleared fs ctx host args g g' req cmd sp wd ∧
    ((∃ p r, maybe_parse_apply_patch extract (argv (plan_of fs ctx args cmd sp wd)) = Body p ∧ apply_parsed_patch p wd fs = Some (fs', r)) ∨
     (fs' = fs ∧ ∀ text err, res = Ok (ShellText text err) → ∃ out err' code, wait (plan_of fs ctx args cmd sp wd) wd (shell_timeout_ms args) = Ended_ out err' code)).
Proof.
  unfold run_shell, cleared, plan_of. destruct (command_of args) as [cmd|]; [|intros [= <- _ _ <-]; left; eauto].
  destruct (resolve_shell_workdir _ _ _) as [wd|e] eqn:Ew; [|intros [= <- _ _ <-]; left; eauto]. cbv zeta.
  destruct tc; [intros [= <- _ _ <-]; left; eauto|].
  destruct (ensure_shell_allowed _ _ _ _ _ _) as [[g1 req1] [sp|e]] eqn:E; [|intros [= <- _ _ <-]; left; eauto].
  intros Hrun. right. exists cmd, sp, wd. pose proof (ensure_policy _ _ _ _ _ _ _ _ E) as Hsp. rewrite <- Hsp in Hrun.
  set (plan := build_bash_exec fs sys cmd (Some wd) sp _ _) in *.
  destruct (maybe_parse_apply_patch extract (argv plan)) as [p|e|e| |] eqn:Ep.
  - destruct (apply_parsed_patch p wd fs) as [[fs1 r]|] eqn:Ea; [|done]. injection Hrun as <- <- <- <-. split; [done|]. left. eauto.
  - injection Hrun as <- <- <- <-. split; [done|]. by right.
  - injection Hrun as <- <- <- <-. split; [done|]. by right.
  - injection Hrun as <- <- <- <-. split; [done|]. by right.
  - destruct (wait plan wd (shell_timeout_ms args)) as [| | | |out err code] eqn:Ewt; [by injection Hrun as <- <- <- <-; split; [done|]; right..|].
    destruct (shell_text out err code (label plan)) as [r|]; [|done]. injection Hrun as <- <- <- <-. split; [done|]. right. split; [done|]. eauto.
Qed.

(** C13: A command is only started, waited for or taken as a patch after the gate let
    it through, under the sandbox the gate decided, and in a directory that lies,
    when it exists, below the agent's; a refused call changes no file. *)
Theorem commands_are_gated spawn extract wait fs ctx turn tc host args g m r :
  tool_normalize (ctx_cwd ctx) = abs r → canonicalize fs (ctx_cwd ctx) = Some r → r ≠ [] → is_tree fs →
  (∀ m' g' req id, exec_start shlex sys spawn fs ctx turn host args g m = (m', g', req, Ok id) →
    ∃ cmd sp wd, cleared fs ctx host args g g' req cmd sp wd ∧ (∀ d, canonicalize fs wd = Some d → r `prefix_of` d) ∧
      spawn (plan_of fs ctx args cmd sp wd) wd (flag (lit "tty") true args) = true) ∧
  (∀ fs' g' req res, run_shell shlex sys extract wait fs ctx tc host args g = Some (fs', g', req, res) →
    (fs' = fs ∧ (res = Ok CancelledBefore ∨ ∃ e, res = Err e)) ∨
    ∃ cmd sp wd, cleared fs ctx host args g g' req cmd sp wd ∧ (∀ d, canonicalize fs wd = Some d → r `prefix_of` d) ∧
      ((∃ p s, maybe_parse_apply_patch extract (argv (plan_of fs ctx args cmd sp wd)) = Body p ∧ apply_parsed_patch p wd fs = Some (fs', s)) ∨
       (fs' = fs ∧ ∀ text err, res = Ok (ShellText text err) → ∃ out err' code, wait (plan_of fs ctx args cmd sp wd) wd (shell_timeout_ms args) = Ended_ out err' code))).
Proof.
  intros Hr Hc Hne Ht. split.
  - intros m' g' req id (cmd & sp & wd & Hcl & Hsp)%start_cleared. exists cmd, sp, wd. split_and!; [done| |done]. eapply workdir_inside; [done..|]. apply Hcl.
  - intros fs' g' req res [?|(cmd & sp & wd & Hcl & Hdone)]%shell_cleared; [by left|right]. exists cmd, sp, wd. split_and!; [done| |done].
    eapply workdir_inside; [done..|]. apply Hcl.
Qed.
End Gated.

(** Under a sandbox a patch in a shell command is not seen: the plan's words are
    not those of a shell with a script. *)
Lemma sandboxed_patch_is_not_seen `{Process} {O : Oracle} extract fs sys cmd cwd sp login : sp ≠ Off →
  maybe_parse_apply_patch extract (argv (build_bash_exec fs sys cmd cwd sp false login)) = NotApplyPatch.
Proof.
  intros Hsp. assert (Hlong : ∀ l, (3 < length l)%nat → maybe_parse_apply_patch extract l = NotApplyPatch).
  { intros [|a [|b [|c [|d l]]]] Hl; simpl in Hl; try lia. done. }
  unfold build_bash_exec. rewrite (bool_decide_false (sp = Off)) by done. destruct (_ && _); apply Hlong; cbn [argv]; rewrite !length_app; [simpl; lia|].
  rewrite length_fmap. assert (Hsz : length (hm_iter (restricted_env sys)) = size (restricted_env sys)) by by rewrite hm_iter_perm, length_map_to_list.
  rewrite Hsz. destruct login; simpl; lia.
Qed.

Section GatedExample.
Let example_process : Process := {| working_directory := []; max_links := 40 |}.
#[local] Existing Instance example_process.
Definition w_ctx : ToolCallContext := mk_ctx cwd_w Restricted false.
Definition ls_args : Value := Object [(lit "cmd", Text (lit "ls")); (lit "tty", Boolean false)].
Definition no_system : SystemView := mk_system false false (λ _, None).
Definition start_ls := exec_start (λ s, [s]) no_system (λ _ _ _, true) (files_with plain_workspace) w_ctx None any_host ls_args
  (mk_gate (mk_policy []) ApprovalCache_default) UnifiedExecManager_new.
Lemma commands_are_gated_witness :
  start_ls.2 = Ok 1 ∧
  ∃ cmd sp wd, cleared (λ s, [s]) (files_with plain_workspace) w_ctx any_host ls_args (mk_gate (mk_policy []) ApprovalCache_default) start_ls.1.1.2 start_ls.1.2 cmd sp wd ∧
    (∀ d, canonicalize (files_with plain_workspace) wd = Some d → w_dir `prefix_of` d) ∧ true = true.
Proof.
  split; [vm_eq|].
  assert (Hf : fenced w_dir (files_with plain_workspace) ∧ ∀ u pid n, fresh_tmp (files_with plain_workspace) u pid n) by (apply fence_checked; vm_compute; reflexivity).
  apply (proj1 (commands_are_gated (λ s, [s]) no_system (λ _ _ _, true) (λ _, Err CommandDidNotStartWithApplyPatch) (λ _ _ _, NotStarted)
    (files_with plain_workspace) w_ctx None false any_host ls_args (mk_gate (mk_policy []) ApprovalCache_default) UnifiedExecManager_new w_dir
    ltac:(vm_eq) ltac:(vm_eq) ltac:(done) (f_tree _ _ (proj1 Hf))) start_ls.1.1.1 _ _ 1).
  vm_eq.
Defined.
End GatedExample.
