(* ===== verification/Session.v ===== *)
(** * Forge sessions

    [crates/pulsing-forge/src/session] (reducer, event store and service), the
    protocol of [src/protocol] and the execution context of [src/turn.rs]. The
    service is a step relation: one step is one critical section of one task,
    so commands, the agent's turn and the sending of events interleave. *)
From S2P Require Import Prelude Text Files Approval.

(** ** Protocol *)
Notation SessionId := (list Z) (only parsing).
Notation TurnId := (list Z) (only parsing).
Notation CommandId := (list Z) (only parsing).

(** src: crates/pulsing-forge/src/protocol/event.rs 6-10 ProtocolVersion *)
Record ProtocolVersion := mk_version { major : Z; minor : Z }.
Definition V1 : ProtocolVersion := mk_version 1 0.

(** src: crates/pulsing-forge/src/protocol/event.rs 16-49 ForgeEventKind *)
Inductive ForgeEventKind :=
  | SessionCreated
  | SessionClosed
  | TurnStarted (input : str)
  | TurnOutputDelta (delta : str)
  | TurnCancelRequested
  | TurnCleanupStalled (resources : list str)
  | TurnCancelled
  | TurnCompleted (text : str)
  | TurnFailed (message : str)
  | ToolStarted (name : str)
  | ToolCompleted (name : str) (ok : bool) (summary : str)
  | ToolCancelled (name : str).

(** src: crates/pulsing-forge/src/protocol/event.rs 51-63 ForgeEvent *)
Record ForgeEvent := mk_event {
  ev_protocol : str;
  ev_version : ProtocolVersion;
  event_id : str;
  ev_session : SessionId;
  ev_seq : Z;
  occurred_at : Z;
  ev_turn : option TurnId;
  causation_id : option CommandId;
  kind : ForgeEventKind }.

(** A fresh id and the clock. *)
Record Stamp := mk_stamp { stamp_id : str; stamp_time : Z }.
(** src: crates/pulsing-forge/src/protocol/event.rs 66-84 ForgeEvent::new *)
Definition new_event (session : SessionId) (seq : Z) (turn : option TurnId) (cause : option CommandId)
    (k : ForgeEventKind) (now : Stamp) : ForgeEvent :=
  mk_event (lit "forge.event") V1 (stamp_id now) session seq (stamp_time now) turn cause k.

(** src: crates/pulsing-forge/src/protocol/command.rs 9-21 SessionSpec *)
Record SessionSpec := mk_spec {
  spec_cwd : Path;
  provider : str;
  model : str;
  max_tokens : Z;
  max_turns : Z;
  sandbox : str;
  spec_approval_policy : ApprovalPolicy;
  tool_names : list str;
  system_prompt : option str }.

(** src: crates/pulsing-forge/src/protocol/command.rs 55-63 CommandEnvelope *)
Record CommandEnvelope (A : Type) := mk_command {
  protocol : str;
  version : ProtocolVersion;
  command_id : CommandId;
  session_id : SessionId;
  expected_seq : option Z;
  payload : A }.
Arguments mk_command {A}.
Arguments protocol {A}.
Arguments version {A}.
Arguments command_id {A}.
Arguments session_id {A}.
Arguments expected_seq {A}.
Arguments payload {A}.
(** src: crates/pulsing-forge/src/protocol/command.rs 66-75 CommandEnvelope::new *)
Definition new_command {A} (command : CommandId) (session : SessionId) (p : A) : CommandEnvelope A :=
  mk_command (lit "forge.session") V1 command session None p.

(** src: crates/pulsing-forge/src/protocol/command.rs 83-86 CreateSession *)
Record CreateSession := mk_create { create_spec : SessionSpec }.
(** src: crates/pulsing-forge/src/protocol/command.rs 88-92 StartTurn *)
Record StartTurn := mk_start { start_turn_id : TurnId; start_input : str }.
(** src: crates/pulsing-forge/src/protocol/command.rs 94-97 CancelTurn *)
Record CancelTurn := mk_cancel { cancel_turn_id : TurnId }.
(** src: crates/pulsing-forge/src/protocol/command.rs 99-105 CommandReceipt *)
Record CommandReceipt := mk_receipt {
  receipt_command : CommandId; receipt_session : SessionId; receipt_turn : option TurnId; accepted_seq : Z }.

(** The reasons of an invalid transition, texts left out. *)
Inductive Refusal :=
  | WrongSession | NotFirst | ActiveTurnOpen | MissingTurnId | NotRunning | NotCancellable | AfterTerminal.
(** src: crates/pulsing-forge/src/protocol/error.rs 5-36 ForgeProtocolError *)
Inductive ForgeProtocolError :=
  | SessionNotFound (id : SessionId)
  | SessionAlreadyExists (id : SessionId)
  | SessionIsClosed (id : SessionId)
  | SessionBusy (id : SessionId)
  | TurnNotActive (id : TurnId)
  | SequenceConflict (expected actual : Z)
  | InvalidTransition (why : Refusal)
  | SubscriptionLagged (count : Z)
  | SubscriptionClosed
  | InvalidProtocol (actual : str)
  | UnsupportedVersion (p : str) (m : Z)
  | AgentError (message : str).
Notation PResult A := (Result A ForgeProtocolError).

(** ** Reducer *)

(** src: crates/pulsing-forge/src/session/reducer.rs 9-14 SessionStatus *)
Inductive SessionStatus := Active | Closed.
(** src: crates/pulsing-forge/src/session/reducer.rs 16-25 TurnStatus *)
Inductive TurnStatus := Running | Cancelling | Unknown | Completed | Failed | Cancelled.
#[export] Instance SessionStatus_eq_dec : EqDecision SessionStatus.
Proof. solve_decision. Defined.
#[export] Instance TurnStatus_eq_dec : EqDecision TurnStatus.
Proof. solve_decision. Defined.

(** src: crates/pulsing-forge/src/session/reducer.rs 28-30 is_terminal *)
Definition is_terminal (s : TurnStatus) : bool :=
  match s with Completed | Failed | Cancelled => true | _ => false end.

(** src: crates/pulsing-forge/src/session/reducer.rs 33-40 TurnSnapshot *)
Record TurnSnapshot := mk_turn {
  turn_id : TurnId; turn_input : str; turn_status : TurnStatus; output : option str; turn_error : option str }.

(** src: crates/pulsing-forge/src/session/reducer.rs 42-50 SessionSnapshot *)
Record SessionSnapshot := mk_snapshot {
  snap_id : SessionId;
  snap_spec : SessionSpec;
  session_status : SessionStatus;
  last_seq : Z;
  active_turn : option TurnId;
  turns : gmap TurnId TurnSnapshot }.

(** src: crates/pulsing-forge/src/session/reducer.rs 53-62 uninitialized *)
Definition uninitialized (id : SessionId) (spec : SessionSpec) : SessionSnapshot := mk_snapshot id spec Active 0 None ∅.

(** src: crates/pulsing-forge/src/session/reducer.rs 64-72 ensure_can_start *)
Definition ensure_can_start (s : SessionSnapshot) : PResult unit :=
  if bool_decide (session_status s = Closed) then Err (SessionIsClosed (snap_id s))
  else if bool_decide (is_Some (active_turn s)) then Err (SessionBusy (snap_id s))
  else Ok tt.

(** src: crates/pulsing-forge/src/session/reducer.rs 202-215 active_turn_mut *)
Definition active_turn_mut (s : SessionSnapshot) (e : ForgeEvent) : PResult (TurnId * TurnSnapshot) :=
  match ev_turn e with
  | None => Err (InvalidTransition MissingTurnId)
  | Some t =>
      if bool_decide (active_turn s ≠ Some t) then Err (TurnNotActive t)
      else match turns s !! t with Some turn => Ok (t, turn) | None => Err (TurnNotActive t) end
  end.
(** src: crates/pulsing-forge/src/session/reducer.rs 183-200 active_turn_ref *)
Definition active_turn_ref (s : SessionSnapshot) (e : ForgeEvent) : PResult (TurnId * TurnSnapshot) := active_turn_mut s e.

Definition set_turn (t : TurnId) (turn : TurnSnapshot) (active : option TurnId) (s : SessionSnapshot) : SessionSnapshot :=
  mk_snapshot (snap_id s) (snap_spec s) (session_status s) (last_seq s) active (<[t := turn]> (turns s)).
Definition close (s : SessionSnapshot) : SessionSnapshot :=
  mk_snapshot (snap_id s) (snap_spec s) Closed (last_seq s) (active_turn s) (turns s).
Definition set_last_seq (n : Z) (s : SessionSnapshot) : SessionSnapshot :=
  mk_snapshot (snap_id s) (snap_spec s) (session_status s) n (active_turn s) (turns s).

(** [Vec::join] with a text between the pieces. *)
Definition join_with (sep : str) (ps : list str) : str :=
  match ps with [] => [] | p :: ps => p ++ (ps ≫= λ q, sep ++ q) end.

(** What an event does to the session, its number apart.
    src: crates/pulsing-forge/src/session/reducer.rs 89-177 apply (match) *)
Definition apply_kind (s : SessionSnapshot) (e : ForgeEvent) : PResult SessionSnapshot :=
  match kind e with
  | SessionCreated => if bool_decide (last_seq s ≠ 0) then Err (InvalidTransition NotFirst) else Ok s
  | SessionClosed => if bool_decide (is_Some (active_turn s)) then Err (InvalidTransition ActiveTurnOpen) else Ok (close s)
  | TurnStarted input =>
      let? _ := ensure_can_start s in
      match ev_turn e with
      | None => Err (InvalidTransition MissingTurnId)
      | Some t => Ok (set_turn t (mk_turn t input Running None None) (Some t) s)
      end
  | TurnCancelRequested =>
      let? (t, turn) := active_turn_mut s e in
      if bool_decide (turn_status turn ≠ Running) then Err (InvalidTransition NotRunning)
      else Ok (set_turn t (mk_turn (turn_id turn) (turn_input turn) Cancelling (output turn) (turn_error turn)) (active_turn s) s)
  | TurnCancelled =>
      let? (t, turn) := active_turn_mut s e in
      if is_terminal (turn_status turn) then Err (InvalidTransition NotCancellable)
      else Ok (set_turn t (mk_turn (turn_id turn) (turn_input turn) Cancelled (output turn) (turn_error turn)) None s)
  | TurnCleanupStalled resources =>
      let? (t, turn) := active_turn_mut s e in
      let text := lit "waiting for turn resources to stop: " ++ join_with (lit ", ") resources in
      Ok (set_turn t (mk_turn (turn_id turn) (turn_input turn) Unknown (output turn) (Some text)) (active_turn s) s)
  | TurnCompleted text =>
      let? (t, turn) := active_turn_mut s e in
      Ok (set_turn t (mk_turn (turn_id turn) (turn_input turn) Completed (Some text) (turn_error turn)) None s)
  | TurnFailed message =>
      let? (t, turn) := active_turn_mut s e in
      Ok (set_turn t (mk_turn (turn_id turn) (turn_input turn) Failed (output turn) (Some message)) None s)
  | TurnOutputDelta _ | ToolStarted _ | ToolCompleted _ _ _ | ToolCancelled _ =>
      let? (_, turn) := active_turn_ref s e in
      if is_terminal (turn_status turn) then Err (InvalidTransition AfterTerminal) else Ok s
  end.

(** The reducer; an event that is refused changes nothing.
    src: crates/pulsing-forge/src/session/reducer.rs 74-181 apply *)
Definition apply (s : SessionSnapshot) (e : ForgeEvent) : PResult SessionSnapshot :=
  if bool_decide (ev_session e ≠ snap_id s) then Err (InvalidTransition WrongSession)
  else
    let expected := last_seq s +w 1 in
    if bool_decide (ev_seq e ≠ expected) then Err (SequenceConflict expected (ev_seq e))
    else let? s := apply_kind s e in Ok (set_last_seq (ev_seq e) s).

Fixpoint replay (s : SessionSnapshot) (es : list ForgeEvent) : PResult SessionSnapshot :=
  match es with [] => Ok s | e :: es => let? s := apply s e in replay s es end.

(** ** Event store *)
Notation EventStore := (gmap (list Z) (list ForgeEvent)) (only parsing).

(** src: crates/pulsing-forge/src/session/store.rs 27-42 append *)
Definition append (e : ForgeEvent) (store : EventStore) : PResult EventStore :=
  let events := default [] (store !! ev_session e) in
  let expected := match last events with Some e' => ev_seq e' +w 1 | None => 1 end in
  if bool_decide (ev_seq e ≠ expected) then Err (SequenceConflict expected (ev_seq e))
  else Ok (<[ev_session e := events ++ [e]]> store).

(** src: crates/pulsing-forge/src/session/store.rs 44-60 load *)
Definition load (store : EventStore) (session : SessionId) (after_seq : Z) : list ForgeEvent :=
  filter (λ e, after_seq < ev_seq e) (default [] (store !! session)).

(** ** Execution of a turn *)

(** The registry of a turn's resources: what is registered, by id. The calls of
    the cancellers are left to the environment.
    src: crates/pulsing-forge/src/turn.rs 25-29 TurnResourceRegistry *)
Record TurnResourceRegistry := mk_registry { next_id : Z; entries : gmap Z str }.
(** src: crates/pulsing-forge/src/turn.rs 31-39 default *)
Definition TurnResourceRegistry_default : TurnResourceRegistry := mk_registry 1 ∅.
(** The registry and the guard's id.
    src: crates/pulsing-forge/src/turn.rs 42-59 register *)
Definition register_resource (k : str) (r : TurnResourceRegistry) : TurnResourceRegistry * Z :=
  (mk_registry (next_id r +w 1) (<[next_id r := k]> (entries r)), next_id r).
(** src: crates/pulsing-forge/src/turn.rs 78-80 active_count *)
Definition active_count (r : TurnResourceRegistry) : nat := size (entries r).
(** src: crates/pulsing-forge/src/turn.rs 82-89 active_kinds *)
Definition active_kinds {O : Oracle} (r : TurnResourceRegistry) : list str := hm_values (entries r).
(** src: crates/pulsing-forge/src/turn.rs 117-127 release *)
Definition release (id : Z) (r : TurnResourceRegistry) : TurnResourceRegistry := mk_registry (next_id r) (delete id (entries r)).

(** src: crates/pulsing-forge/src/turn.rs 145-150 TurnExecutionContext *)
Record TurnExecutionContext := mk_execution { cancelled : bool; resources : TurnResourceRegistry }.
(** src: crates/pulsing-forge/src/turn.rs 153-168 TurnExecutionContext::new *)
Definition new_execution : TurnExecutionContext := mk_execution false TurnResourceRegistry_default.
(** src: crates/pulsing-forge/src/turn.rs 182-185 cancel *)
Definition cancel_execution (x : TurnExecutionContext) : TurnExecutionContext := mk_execution true (resources x).

(** ** Service *)

(** src: crates/pulsing-forge/src/session/service.rs 34-38 ControlState *)
Record ControlState := mk_control {
  snapshot : SessionSnapshot; receipts : gmap CommandId CommandReceipt; active_execution : option (TurnId * nat) }.
(** The agent is left out; [sent] is what went into the channel.
    src: crates/pulsing-forge/src/session/service.rs 28-32 SessionRuntime *)
Record SessionRuntime := mk_runtime { control : ControlState; sent : list ForgeEvent }.

(** src: crates/pulsing-forge/src/session/service.rs 428-442 validate_command *)
Definition validate_command {A} (c : CommandEnvelope A) : PResult unit :=
  if bool_decide (protocol c ≠ lit "forge.session") then Err (InvalidProtocol (protocol c))
  else if bool_decide (major (version c) ≠ 1) then Err (UnsupportedVersion (protocol c) (major (version c)))
  else Ok tt.

(** src: crates/pulsing-forge/src/session/service.rs 419-426 check_expected_seq *)
Definition check_expected_seq (expected : option Z) (actual : Z) : PResult unit :=
  match expected with
  | Some n => if bool_decide (n ≠ actual) then Err (SequenceConflict n actual) else Ok tt
  | None => Ok tt
  end.

(** The event goes to the store first and to the snapshot then; when the
    snapshot refuses it the store keeps it.
    src: crates/pulsing-forge/src/session/service.rs 180-181 start_turn (append, apply) *)
Definition commit (e : ForgeEvent) (store : EventStore) (s : SessionSnapshot) : EventStore * PResult SessionSnapshot :=
  match append e store with
  | Err err => (store, Err err)
  | Ok store => (store, apply s e)
  end.

Definition set_snapshot (s : SessionSnapshot) (c : ControlState) : ControlState := mk_control s (receipts c) (active_execution c).
Definition set_execution (x : option (TurnId * nat)) (c : ControlState) : ControlState := mk_control (snapshot c) (receipts c) x.
Definition add_receipt (r : CommandReceipt) (c : ControlState) : ControlState :=
  mk_control (snapshot c) (<[receipt_command r := r]> (receipts c)) (active_execution c).

(** A command under the lock: the receipt, and the event when it is a new one. *)
Definition Accepted : Type := CommandReceipt * option ForgeEvent.

(** src: crates/pulsing-forge/src/session/service.rs 163-192 start_turn (locked) *)
Definition start_locked (c : CommandEnvelope StartTurn) (x : nat) (now : Stamp) (store : EventStore) (ctl : ControlState)
    : EventStore * ControlState * PResult Accepted :=
  match receipts ctl !! command_id c with
  | Some existing => (store, ctl, Ok (existing, None))
  | None =>
      match (let? _ := check_expected_seq (expected_seq c) (last_seq (snapshot ctl)) in ensure_can_start (snapshot ctl)) with
      | Err e => (store, ctl, Err e)
      | Ok _ =>
          let t := start_turn_id (payload c) in
          let event := new_event (session_id c) (last_seq (snapshot ctl) +w 1) (Some t) (Some (command_id c))
                         (TurnStarted (start_input (payload c))) now in
          let '(store, r) := commit event store (snapshot ctl) in
          match r with
          | Err e => (store, ctl, Err e)
          | Ok s =>
              let receipt := mk_receipt (command_id c) (session_id c) (Some t) (ev_seq event) in
              (store, add_receipt receipt (set_execution (Some (t, x)) (set_snapshot s ctl)), Ok (receipt, Some event))
          end
      end
  end.

(** src: crates/pulsing-forge/src/session/service.rs 216-245 cancel_turn (locked) *)
Definition cancel_locked (c : CommandEnvelope CancelTurn) (now : Stamp) (store : EventStore) (ctl : ControlState)
    : EventStore * ControlState * PResult (Accepted * option nat) :=
  match receipts ctl !! command_id c with
  | Some existing => (store, ctl, Ok (existing, None, None))
  | None =>
      let t := cancel_turn_id (payload c) in
      match (let? _ := check_expected_seq (expected_seq c) (last_seq (snapshot ctl)) in
             match active_execution ctl with
             | None => Err (TurnNotActive t)
             | Some (active, x) => if bool_decide (active ≠ t) then Err (TurnNotActive t) else Ok x
             end) with
      | Err e => (store, ctl, Err e)
      | Ok x =>
          let event := new_event (session_id c) (last_seq (snapshot ctl) +w 1) (Some t) (Some (command_id c)) TurnCancelRequested now in
          let '(store, r) := commit event store (snapshot ctl) in
          match r with
          | Err e => (store, ctl, Err e)
          | Ok s =>
              let receipt := mk_receipt (command_id c) (session_id c) (Some t) (ev_seq event) in
              (store, add_receipt receipt (set_snapshot s ctl), Ok (receipt, Some event, Some x))
          end
      end
  end.

(** src: crates/pulsing-forge/src/session/service.rs 363-385 record_event *)
Definition record_event (turn : option TurnId) (k : ForgeEventKind) (now : Stamp) (store : EventStore) (ctl : ControlState)
    : EventStore * ControlState * PResult ForgeEvent :=
  let event := new_event (snap_id (snapshot ctl)) (last_seq (snapshot ctl) +w 1) turn None k now in
  let '(store, r) := commit event store (snapshot ctl) in
  match r with Err e => (store, ctl, Err e) | Ok s => (store, set_snapshot s ctl, Ok event) end.

(** src: crates/pulsing-forge/src/session/service.rs 387-416 record_terminal_event *)
Definition record_terminal_event (session : SessionId) (t : TurnId) (k : ForgeEventKind) (now : Stamp)
    (store : EventStore) (ctl : ControlState) : EventStore * ControlState * PResult ForgeEvent :=
  let event := new_event session (last_seq (snapshot ctl) +w 1) (Some t) None k now in
  let '(store, r) := commit event store (snapshot ctl) in
  match r with
  | Err e => (store, ctl, Err e)
  | Ok s =>
      let ctl := set_snapshot s ctl in
      let ended := match active_execution ctl with Some (active, _) => bool_decide (active = t) | None => false end in
      (store, if ended then set_execution None ctl else ctl, Ok event)
  end.

(** ** Creating a session *)

(** A command whose session is there gets its receipt or is refused.
    src: crates/pulsing-forge/src/session/service.rs 95-111 create_session (existing) *)
Definition create_existing (c : CommandEnvelope CreateSession) (sessions : gmap SessionId SessionRuntime) : option (PResult CommandReceipt) :=
  rt ← sessions !! session_id c;
  Some match receipts (control rt) !! command_id c with
       | Some r => Ok r
       | None => Err (SessionAlreadyExists (session_id c))
       end.

(** The session's first event and its state; [agent] is what the construction of
    the agent returned.
    src: crates/pulsing-forge/src/session/service.rs 113-141 create_session (append) *)
Definition create_append (c : CommandEnvelope CreateSession) (agent : Result unit str) (now : Stamp) (store : EventStore)
    : EventStore * PResult (SessionRuntime * CommandReceipt) :=
  match agent with
  | Err e => (store, Err (AgentError e))
  | Ok _ =>
      let event := new_event (session_id c) 1 None (Some (command_id c)) SessionCreated now in
      let '(store, r) := commit event store (uninitialized (session_id c) (create_spec (payload c))) in
      match r with
      | Err e => (store, Err e)
      | Ok s =>
          let receipt := mk_receipt (command_id c) (session_id c) None (ev_seq event) in
          (store, Ok (mk_runtime (mk_control s {[ command_id c := receipt ]} None) [], receipt))
      end
  end.

(** src: crates/pulsing-forge/src/session/service.rs 143-148 create_session (insert) *)
Definition create_insert (rt : SessionRuntime) (receipt : CommandReceipt) (sessions : gmap SessionId SessionRuntime)
    : gmap SessionId SessionRuntime * PResult CommandReceipt :=
  match sessions !! receipt_session receipt with
  | Some _ => (sessions, Err (SessionAlreadyExists (receipt_session receipt)))
  | None => (<[receipt_session receipt := rt]> sessions, Ok receipt)
  end.

(** The whole call, run alone.
    src: crates/pulsing-forge/src/session/service.rs 90-149 create_session *)
Definition create_session (c : CommandEnvelope CreateSession) (agent : Result unit str) (now : Stamp)
    (store : EventStore) (sessions : gmap SessionId SessionRuntime)
    : EventStore * gmap SessionId SessionRuntime * PResult CommandReceipt :=
  match validate_command c with
  | Err e => (store, sessions, Err e)
  | Ok _ =>
      match create_existing c sessions with
      | Some r => (store, sessions, r)
      | None =>
          let '(store, r) := create_append c agent now store in
          match r with
          | Err e => (store, sessions, Err e)
          | Ok (rt, receipt) => let '(sessions, r) := create_insert rt receipt sessions in (store, sessions, r)
          end
      end
  end.

(** ** The turn's task *)

(** src: crates/pulsing-forge/src/session/service.rs 306-319 run_turn_task (observer) *)
Inductive AgentEvent :=
  | TextDelta (delta : str) | ToolStart (name : str) | ToolEnd (name : str) (ok : bool) (summary : str)
  | AgentToolCancelled (name : str) | AgentErrorEvent | AgentDone | AgentCancelledEvent.
(** src: crates/pulsing-forge/src/session/service.rs 306-319 run_turn_task (observer) *)
Definition observed (e : AgentEvent) : option ForgeEventKind :=
  match e with
  | TextDelta d => Some (TurnOutputDelta d)
  | ToolStart n => Some (ToolStarted n)
  | ToolEnd n ok s => Some (ToolCompleted n ok s)
  | AgentToolCancelled n => Some (ToolCancelled n)
  | _ => None
  end.

(** How the agent's run ended. *)
Inductive TurnResult := TurnText (text : str) | AgentWasCancelled | AgentFailed (message : str).
(** src: crates/pulsing-forge/src/session/service.rs 348-357 run_turn_task (kind) *)
Definition terminal_kind (cancelled : bool) (r : TurnResult) : ForgeEventKind :=
  if cancelled then TurnCancelled
  else match r with
  | TurnText text => TurnCompleted text
  | AgentWasCancelled => TurnCancelled
  | AgentFailed message => TurnFailed message
  end.

(** Where the task of a turn is: not spawned yet, in the agent, waiting for the
    turn's resources, after the report of a stalled cleanup, about to report the
    end. *)
Inductive Phase := Queued | InAgent | Cleanup (r : TurnResult) | Stalled (r : TurnResult) | Finish (r : TurnResult).
Record Task := mk_task { task_session : SessionId; task_turn : TurnId; phase : Phase }.

(** What a call still does after it left the lock. *)
Inductive Effect := Send (session : SessionId) (e : ForgeEvent) | CancelExecution (x : nat) | Spawn (x : nat).

(** The service and the calls under way: sessions whose creation is between the
    store and the table, turns by their execution, and the effects each caller
    has left, tagged with the execution when the caller is a turn's task. *)
Record World := mk_world {
  store : EventStore;
  sessions : gmap SessionId SessionRuntime;
  creating : gmap SessionId (SessionRuntime * CommandReceipt);
  executions : gmap nat TurnExecutionContext;
  tasks : gmap nat Task;
  tails : list (option nat * list Effect) }.
Definition new_world : World := mk_world ∅ ∅ ∅ ∅ ∅ [].

Definition set_control (session : SessionId) (ctl : ControlState) (w : gmap SessionId SessionRuntime) : gmap SessionId SessionRuntime :=
  alter (λ rt, mk_runtime ctl (sent rt)) session w.
Definition set_phase (x : nat) (p : Phase) (ts : gmap nat Task) : gmap nat Task :=
  alter (λ t, mk_task (task_session t) (task_turn t) p) x ts.
Definition if_ok {A E B} (r : Result A E) (f : A → B) (b : B) : B := match r with Ok a => f a | Err _ => b end.

(** A task goes on once its own effects are done. *)
Definition idle (x : nat) (w : World) : Prop := ∀ effs, (Some x, effs) ∈ tails w → effs = [].

(** src: crates/pulsing-forge/src/session/service.rs 193-203 start_turn (effects) *)
Definition start_effects (session : SessionId) (x : nat) (a : Accepted) : list Effect :=
  match a.2 with Some e => [Send session e; Spawn x] | None => [] end.
(** src: crates/pulsing-forge/src/session/service.rs 246-247 cancel_turn (effects) *)
Definition cancel_effects (session : SessionId) (a : Accepted * option nat) : list Effect :=
  match a with ((_, Some e), Some x) => [Send session e; CancelExecution x] | _ => [] end.

Definition perform (eff : Effect) (w : World) : World :=
  match eff with
  | Send session e =>
      mk_world (store w) (alter (λ rt, mk_runtime (control rt) (sent rt ++ [e])) session (sessions w)) (creating w)
        (executions w) (tasks w) (tails w)
  | CancelExecution x => mk_world (store w) (sessions w) (creating w) (alter cancel_execution x (executions w)) (tasks w) (tails w)
  | Spawn x => mk_world (store w) (sessions w) (creating w) (executions w) (set_phase x InAgent (tasks w)) (tails w)
  end.
Definition set_tails (ts : list (option nat * list Effect)) (w : World) : World :=
  mk_world (store w) (sessions w) (creating w) (executions w) (tasks w) ts.

(** The world after a critical section: the store, the session's control, and the
    effects of the caller [who]. *)
Definition left_lock (who : option nat) (session : SessionId) (st : EventStore) (ctl : ControlState) (effs : list Effect) (w : World) : World :=
  mk_world st (set_control session ctl (sessions w)) (creating w) (executions w) (tasks w) (tails w ++ [(who, effs)]).
Definition set_tasks (ts : gmap nat Task) (w : World) : World :=
  mk_world (store w) (sessions w) (creating w) (executions w) ts (tails w).
Definition set_executions (xs : gmap nat TurnExecutionContext) (w : World) : World :=
  mk_world (store w) (sessions w) (creating w) xs (tasks w) (tails w).

Definition do_create (c : CommandEnvelope CreateSession) (agent : Result unit str) (now : Stamp) (w : World) : World :=
  let '(st, r) := create_append c agent now (store w) in
  mk_world st (sessions w) (if_ok r (λ p, <[session_id c := p]> (creating w)) (creating w)) (executions w) (tasks w) (tails w).
Definition do_insert (session : SessionId) (rt : SessionRuntime) (receipt : CommandReceipt) (w : World) : World :=
  mk_world (store w) (create_insert rt receipt (sessions w)).1 (delete session (creating w)) (executions w) (tasks w) (tails w).
(** src: crates/pulsing-forge/src/session/service.rs 157-204 start_turn (section) *)
Definition do_start (c : CommandEnvelope StartTurn) (x : nat) (now : Stamp) (rt : SessionRuntime) (w : World) : World :=
  let '(st, ctl, r) := start_locked c x now (store w) (control rt) in
  let queued := mk_task (session_id c) (start_turn_id (payload c)) Queued in
  let w := set_executions (<[x := new_execution]> (executions w)) w in
  let w := set_tasks (match r with Ok (_, Some _) => <[x := queued]> (tasks w) | _ => tasks w end) w in
  left_lock None (session_id c) st ctl (if_ok r (start_effects (session_id c) x) []) w.
(** src: crates/pulsing-forge/src/session/service.rs 212-248 cancel_turn (section) *)
Definition do_cancel (c : CommandEnvelope CancelTurn) (now : Stamp) (rt : SessionRuntime) (w : World) : World :=
  let '(st, ctl, r) := cancel_locked c now (store w) (control rt) in
  left_lock None (session_id c) st ctl (if_ok r (cancel_effects (session_id c)) []) w.
(** src: crates/pulsing-forge/src/session/service.rs 363-385 record_event *)
Definition do_record (x : nat) (t : Task) (k : ForgeEventKind) (now : Stamp) (rt : SessionRuntime) (w : World) : World :=
  let '(st, ctl, r) := record_event (Some (task_turn t)) k now (store w) (control rt) in
  left_lock (Some x) (task_session t) st ctl (if_ok r (λ e, [Send (task_session t) e]) []) w.
(** src: crates/pulsing-forge/src/session/service.rs 348-360 run_turn_task (end) *)
Definition do_terminal (x : nat) (t : Task) (r : TurnResult) (ex : TurnExecutionContext) (now : Stamp) (rt : SessionRuntime) (w : World) : World :=
  let '(st, ctl, res) :=
    record_terminal_event (task_session t) (task_turn t) (terminal_kind (cancelled ex) r) now (store w) (control rt) in
  left_lock (Some x) (task_session t) st ctl (if_ok res (λ e, [Send (task_session t) e]) []) (set_tasks (delete x (tasks w)) w).

(** One step of the service. A command that is refused before the lock changes
    nothing and has no step. A creation looks at the table together with its
    append: were the session inserted in between, the append would only fail.
    src: crates/pulsing-forge/src/session/service.rs 290-361 run_turn_task *)
Inductive step : World → World → Prop :=
  | step_create w c agent now :
      validate_command c = Ok tt → create_existing c (sessions w) = None → step w (do_create c agent now w)
  | step_insert w session rt receipt :
      creating w !! session = Some (rt, receipt) → step w (do_insert session rt receipt w)
  | step_start w c x now rt :
      validate_command c = Ok tt → executions w !! x = None → sessions w !! session_id c = Some rt →
      step w (do_start c x now rt w)
  | step_cancel w c now rt :
      validate_command c = Ok tt → sessions w !! session_id c = Some rt → step w (do_cancel c now rt w)
  | step_effect w l1 who eff effs l2 :
      tails w = l1 ++ (who, eff :: effs) :: l2 → step w (set_tails (l1 ++ (who, effs) :: l2) (perform eff w))
  | step_activity w x t rt ev k now :
      tasks w !! x = Some t → phase t = InAgent → idle x w → sessions w !! task_session t = Some rt → observed ev = Some k →
      step w (do_record x t k now rt w)
  | step_agent_done w x t r :
      tasks w !! x = Some t → phase t = InAgent → idle x w → step w (set_tasks (set_phase x (Cleanup r) (tasks w)) w)
  | step_stalled w x t r kinds rt now :
      tasks w !! x = Some t → phase t = Cleanup r → sessions w !! task_session t = Some rt →
      step w (do_record x t (TurnCleanupStalled kinds) now rt (set_tasks (set_phase x (Stalled r) (tasks w)) w))
  | step_idle w x t r ex :
      tasks w !! x = Some t → (phase t = Cleanup r ∨ phase t = Stalled r) → idle x w →
      executions w !! x = Some ex → active_count (resources ex) = O →
      step w (set_tasks (set_phase x (Finish r) (tasks w)) w)
  | step_terminal w x t r ex rt now :
      tasks w !! x = Some t → phase t = Finish r → executions w !! x = Some ex → sessions w !! task_session t = Some rt →
      step w (do_terminal x t r ex now rt w)
  | step_execution w x ex ex' :
      executions w !! x = Some ex →
      (∃ k, ex' = mk_execution (cancelled ex) (register_resource k (resources ex)).1) ∨
      (∃ id, ex' = mk_execution (cancelled ex) (release id (resources ex))) →
      step w (set_executions (<[x := ex']> (executions w)) w).

Definition reachable (w : World) : Prop := rtc step new_world w.

(** ** Subscriptions *)

(** What a receiver finds in the channel.
    src: crates/pulsing-forge/src/session/service.rs 46-67 EventSubscription::recv *)
Inductive Live := Received (e : ForgeEvent) | Lagged (count : Z) | ChannelClosed.
(** src: crates/pulsing-forge/src/session/service.rs 40-44 EventSubscription *)
Record EventSubscription := mk_subscription { replayed : list ForgeEvent; live : list Live; sub_last_seq : Z }.

(** The loop over the channel; [None] waits for more.
    src: crates/pulsing-forge/src/session/service.rs 52-66 EventSubscription::recv (loop) *)
Fixpoint recv_live (last : Z) (l : list Live) : option (PResult ForgeEvent * EventSubscription) :=
  match l with
  | [] => None
  | Received e :: l => if ev_seq e <=? last then recv_live last l else Some (Ok e, mk_subscription [] l (ev_seq e))
  | Lagged n :: l => Some (Err (SubscriptionLagged n), mk_subscription [] l last)
  | ChannelClosed :: l => Some (Err SubscriptionClosed, mk_subscription [] (ChannelClosed :: l) last)
  end.
(** src: crates/pulsing-forge/src/session/service.rs 47-67 EventSubscription::recv *)
Definition recv (s : EventSubscription) : option (PResult ForgeEvent * EventSubscription) :=
  match replayed s with
  | e :: es => Some (Ok e, mk_subscription es (live s) (Z.max (sub_last_seq s) (ev_seq e)))
  | [] => recv_live (sub_last_seq s) (live s)
  end.
(** The events of [n] calls, up to the first error. *)
Fixpoint recv_all (n : nat) (s : EventSubscription) : list ForgeEvent :=
  match n with
  | O => []
  | S n => match recv s with Some (Ok e, s) => e :: recv_all n s | _ => [] end
  end.
(** src: crates/pulsing-forge/src/session/service.rs 260-275 subscribe *)
Definition subscribe (store : EventStore) (session : SessionId) (after_seq : Z) (channel : list Live) : EventSubscription :=
  mk_subscription (load store session after_seq) channel after_seq.
