(* ===== verification/SessionFacts.v ===== *)
(** * Properties of Forge sessions

    The snapshot against the log, turns and receipts in every reachable state of
    the service; what a refused cancellation does; what a subscriber gets. *)
From stdpp Require Import sorting.
From S2P Require Import Prelude Text Files Approval Session.

(** ** The reducer *)

(** At most one turn is open, and it is the active one. *)
Record snap_wf (s : SessionSnapshot) : Prop := {
  turn_keys : ∀ t turn, turns s !! t = Some turn → turn_id turn = t;
  open_is_active : ∀ t turn, turns s !! t = Some turn → is_terminal (turn_status turn) = false ↔ active_turn s = Some t;
  active_known : ∀ t, active_turn s = Some t → is_Some (turns s !! t);
  closed_idle : session_status s = Closed → active_turn s = None }.

Lemma uninitialized_wf id spec : snap_wf (uninitialized id spec).
Proof. split; simpl; intros; [by simplify_map_eq..|done]. Qed.

Lemma active_turn_Ok s e t turn :
  active_turn_mut s e = Ok (t, turn) ↔ ev_turn e = Some t ∧ active_turn s = Some t ∧ turns s !! t = Some turn.
Proof.
  unfold active_turn_mut. destruct (ev_turn e) as [t'|]; [|naive_solver]. case_bool_decide as Hb.
  - naive_solver.
  - destruct (turns s !! t') eqn:E; naive_solver.
Qed.

Lemma ensure_can_start_Ok s : ensure_can_start s = Ok tt ↔ session_status s = Active ∧ active_turn s = None.
Proof.
  unfold ensure_can_start. case_bool_decide as H1; [split; [done|]; intros [H2 _]; congruence|].
  case_bool_decide as H2; [split; [done|]; intros [_ H3]; rewrite H3 in H2; by destruct H2|].
  split; [|done]. intros _. split; [by destruct (session_status s)|by apply eq_None_not_Some].
Qed.

Lemma set_turn_wf s t old turn active :
  snap_wf s → turns s !! t = Some old ∨ active_turn s = None → active_turn s = Some t ∨ active_turn s = None →
  session_status s = Active → turn_id turn = t →
  active = (if is_terminal (turn_status turn) then None else Some t) → snap_wf (set_turn t turn active s).
Proof.
  intros [W1 W2 W3 W4] Hold Hact Hst Hid ->. split; simpl.
  - intros t' turn'. rewrite lookup_insert. case_decide; [naive_solver|apply W1].
  - intros t' turn'. rewrite lookup_insert. case_decide as Hd; [intros [= ->]; subst; by destruct (is_terminal _)|].
    intros Ht'. rewrite (W2 _ _ Ht'). destruct (is_terminal _), Hact as [->| ->]; naive_solver.
  - intros t'. destruct (is_terminal _); [done|]. intros [= ->]. rewrite lookup_insert_eq. eauto.
  - congruence.
Qed.

Lemma apply_kind_wf s e s' : snap_wf s → apply_kind s e = Ok s' → snap_wf s'.
Proof.
  intros Hwf. pose proof Hwf as [W1 W2 W3 W4]. unfold apply_kind, active_turn_ref.
  assert (Hst : ∀ t, active_turn s = Some t → session_status s = Active).
  { intros t Ht. destruct (session_status s); [done|]. by rewrite W4 in Ht. }
  assert (Hupd : ∀ t turn turn' active, active_turn_mut s e = Ok (t, turn) → turn_id turn' = turn_id turn →
    active = (if is_terminal (turn_status turn') then None else Some t) → snap_wf (set_turn t turn' active s)).
  { intros t turn turn' active (_ & Ha & Ht)%active_turn_Ok Hid ->.
    apply (set_turn_wf _ _ turn); eauto. rewrite Hid. by apply W1. }
  destruct (kind e).
  - by case_bool_decide; intros [= <-].
  - case_bool_decide as Ha; intros [= <-]. split; try done. intros _. simpl. by apply eq_None_not_Some.
  - intros ([] & [Ha Hn]%ensure_can_start_Ok & Hok)%and_then_Ok. destruct (ev_turn e) as [t|]; simplify_eq/=.
    split; simpl; [| | |congruence].
    + intros t' turn'. rewrite lookup_insert. case_decide; [by intros [= <-]|apply W1].
    + intros t' turn'. rewrite lookup_insert. case_decide as Hd; [by intros [= <-]; simplify_eq|].
      intros Ht'. rewrite (W2 _ _ Ht'), Hn. naive_solver.
    + intros t' [= ->]. rewrite lookup_insert_eq. eauto.
  - intros ([t turn] & Ht & Hok)%and_then_Ok. revert Hok. simpl. destruct (is_terminal _); by intros [= <-].
  - intros ([t turn] & Ht & Hok)%and_then_Ok. revert Hok. case_bool_decide; intros [= <-].
    apply (Hupd t turn); [done..|]. simpl. by apply active_turn_Ok in Ht as (_ & -> & _).
  - intros ([t turn] & Ht & [= <-])%and_then_Ok. apply (Hupd t turn); [done..|]. simpl. by apply active_turn_Ok in Ht as (_ & -> & _).
  - intros ([t turn] & Ht & Hok)%and_then_Ok. revert Hok. simpl. destruct (is_terminal _); intros [= <-]. by apply (Hupd t turn).
  - intros ([t turn] & Ht & [= <-])%and_then_Ok. by apply (Hupd t turn).
  - intros ([t turn] & Ht & [= <-])%and_then_Ok. by apply (Hupd t turn).
  - intros ([t turn] & Ht & Hok)%and_then_Ok. revert Hok. simpl. destruct (is_terminal _); by intros [= <-].
  - intros ([t turn] & Ht & Hok)%and_then_Ok. revert Hok. simpl. destruct (is_terminal _); by intros [= <-].
  - intros ([t turn] & Ht & Hok)%and_then_Ok. revert Hok. simpl. destruct (is_terminal _); by intros [= <-].
Qed.

Lemma apply_Ok s e s' :
  apply s e = Ok s' ↔ ev_session e = snap_id s ∧ ev_seq e = last_seq s +w 1 ∧ ∃ s1, apply_kind s e = Ok s1 ∧ s' = set_last_seq (ev_seq e) s1.
Proof.
  unfold apply. case_bool_decide as H1; [naive_solver|]. cbv zeta. case_bool_decide as H2; [naive_solver|].
  rewrite and_then_Ok. naive_solver.
Qed.

Lemma apply_wf s e s' : snap_wf s → apply s e = Ok s' → snap_wf s'.
Proof. intros Hwf (_ & _ & s1 & H1 & ->)%apply_Ok. by destruct (apply_kind_wf _ _ _ Hwf H1). Qed.

Lemma apply_kind_fields s e s' : apply_kind s e = Ok s' → snap_id s' = snap_id s ∧ snap_spec s' = snap_spec s.
Proof.
  unfold apply_kind, active_turn_ref. destruct (kind e); try (intros ([t turn] & _ & H)%and_then_Ok; revert H);
    try (intros (? & _ & H)%and_then_Ok; revert H); repeat case_match; by intros [= <-].
Qed.

Lemma apply_fields s e s' : apply s e = Ok s' → snap_id s' = snap_id s ∧ snap_spec s' = snap_spec s ∧ last_seq s' = ev_seq e.
Proof. intros (_ & _ & s1 & H1 & ->)%apply_Ok. simpl. by apply apply_kind_fields in H1 as [-> ->]. Qed.

Lemma replay_app s es es' : replay s (es ++ es') = and_then (replay s es) (λ s, replay s es').
Proof. revert s. induction es as [|e es IH]; intros s; simpl; [done|]. by destruct (apply s e); simpl. Qed.

(** ** The log *)

(** The snapshot is what the log replays to. *)
Definition replays (id : SessionId) (s : SessionSnapshot) (l : list ForgeEvent) : Prop :=
  l ≠ [] ∧ replay (uninitialized id (snap_spec s)) l = Ok s.

(** A cancellation the snapshot does not take. *)
Definition refused_cancel (s : SessionSnapshot) (e : ForgeEvent) : Prop :=
  kind e = TurnCancelRequested ∧ ev_seq e = last_seq s +w 1 ∧
  ∃ t turn, ev_turn e = Some t ∧ active_turn s = Some t ∧ turns s !! t = Some turn ∧ turn_status turn ≠ Running.

Definition wedged (id : SessionId) (s : SessionSnapshot) (l : list ForgeEvent) : Prop :=
  ∃ l' e, l = l' ++ [e] ∧ replays id s l' ∧ refused_cancel s e.

Lemma replays_snoc id s l e s' : replays id s l → apply s e = Ok s' → replays id s' (l ++ [e]).
Proof.
  intros [Hne Hr] Ha. split; [by destruct l|]. apply apply_fields in Ha as Hf. destruct Hf as (_ & -> & _).
  rewrite replay_app, Hr. simpl. by rewrite Ha.
Qed.

Lemma replay_id s l s' : replay s l = Ok s' → snap_id s' = snap_id s.
Proof.
  revert s. induction l as [|e l IH]; intros s; simpl; [by intros [= <-]|].
  intros (s2 & Ha & Hr)%and_then_Ok. apply apply_fields in Ha as (<- & _). by apply IH.
Qed.

Lemma replays_inv id s l :
  replays id s l → snap_id s = id ∧ ∃ e, last l = Some e ∧ ev_seq e = last_seq s.
Proof.
  intros [Hne Hr]. split; [by apply replay_id in Hr|].
  destruct l as [|e l _] using rev_ind; [done|]. rewrite replay_app in Hr.
  apply and_then_Ok in Hr as (s1 & _ & Ha). simpl in Ha. destruct (apply s1 e) as [s2|] eqn:E; simplify_eq/=.
  apply apply_fields in E as (_ & _ & Hl). exists e. by rewrite last_snoc.
Qed.

Lemma commit_replays id s l e st :
  replays id s l → st !! id = Some l → ev_session e = id → ev_seq e = last_seq s +w 1 →
  commit e st s = (<[id := l ++ [e]]> st, apply s e).
Proof.
  intros Hr Hl Hid Hs. apply replays_inv in Hr as (_ & e' & Hlast & Hseq). unfold commit, append.
  rewrite Hid, Hl. simpl. rewrite Hlast, Hseq. by rewrite bool_decide_false by naive_solver.
Qed.

Lemma succ_not_self n : n +w 1 ≠ n.
Proof.
  intros Heq. pose proof (u64_add_range n 1) as Hr. rewrite Heq in Hr. unfold is_u64 in Hr.
  unfold u64_add, u64 in Heq. destruct (decide (n + 1 = two64)) as [He|Hne].
  - rewrite He, Z.mod_same in Heq by done. unfold two64 in *. lia.
  - rewrite Z.mod_small in Heq by lia. lia.
Qed.

Lemma commit_wedged id s l e st :
  wedged id s l → st !! id = Some l → ev_session e = id → ev_seq e = last_seq s +w 1 →
  ∃ n, commit e st s = (st, Err (SequenceConflict n (last_seq s +w 1))).
Proof.
  intros (l' & e' & -> & _ & _ & He' & _) Hl Hid Hs. eexists. unfold commit, append. rewrite Hid, Hl. simpl.
  rewrite last_snoc, He', bool_decide_true; [by rewrite Hs|]. rewrite Hs. apply not_eq_sym, succ_not_self.
Qed.

Lemma replays_not_wedged id s l : replays id s l → ¬ wedged id s l.
Proof.
  intros (_ & e & Hl & Hs)%replays_inv (l' & e' & -> & _ & _ & He' & _). rewrite last_snoc in Hl. injection Hl as <-.
  rewrite He' in Hs. by apply succ_not_self in Hs.
Qed.

(** ** One critical section *)

(** A session's control state against its log. *)
Record ctl_ok (id : SessionId) (ctl : ControlState) (l : list ForgeEvent) : Prop := {
  log_matches : replays id (snapshot ctl) l ∨ wedged id (snapshot ctl) l;
  ctl_wf : snap_wf (snapshot ctl);
  execution_matches : ∀ t, active_turn (snapshot ctl) = Some t ↔ ∃ x, active_execution ctl = Some (t, x) }.

(** What a section does to control and log, and what is there to be sent. *)
Inductive Section (id : SessionId) (ctl : ControlState) (l : list ForgeEvent) : ControlState → list ForgeEvent → list ForgeEvent → Prop :=
  | section_none : Section id ctl l ctl l []
  | section_commit e ctl' :
      replays id (snapshot ctl) l → apply (snapshot ctl) e = Ok (snapshot ctl') → receipts ctl ⊆ receipts ctl' →
      (∀ t, active_turn (snapshot ctl') = Some t ↔ ∃ x, active_execution ctl' = Some (t, x)) →
      Section id ctl l ctl' (l ++ [e]) [e]
  | section_refused e :
      replays id (snapshot ctl) l → refused_cancel (snapshot ctl) e → Section id ctl l ctl (l ++ [e]) [].

Lemma section_ok id ctl l ctl' l' es : ctl_ok id ctl l → Section id ctl l ctl' l' es → ctl_ok id ctl' l'.
Proof.
  intros [H1 H2 H3] [|e ctl2 Hr Ha _ Hm|e Hr Hc]; [done|split; [left|by eapply apply_wf|done]|split; [right|done..]].
  - by eapply replays_snoc.
  - by exists l, e.
Qed.

(** The control state a commit leads to, when the event can only be refused as a
    cancellation. *)
Lemma commit_section id ctl l e st ctl' st' r (f : SessionSnapshot → ControlState) :
  ctl_ok id ctl l → st !! id = Some l → ev_session e = id → ev_seq e = last_seq (snapshot ctl) +w 1 →
  commit e st (snapshot ctl) = (st', r) →
  (∀ s, snapshot (f s) = s ∧ receipts ctl ⊆ receipts (f s)) →
  (∀ s, apply (snapshot ctl) e = Ok s → ∀ t, active_turn s = Some t ↔ ∃ x, active_execution (f s) = Some (t, x)) →
  (∀ err, replays id (snapshot ctl) l → apply (snapshot ctl) e = Err err → refused_cancel (snapshot ctl) e) →
  ctl' = match r with Ok s => f s | Err _ => ctl end →
  ∃ l', st' = <[id := l']> st ∧ Section id ctl l ctl' l' (match r with Ok _ => [e] | Err _ => [] end).
Proof.
  intros [[Hr|Hw] Hwf Hm] Hl Hid Hs Hc Hf Ha He ->.
  - rewrite (commit_replays id _ l) in Hc by done. injection Hc as <- <-. exists (l ++ [e]). split; [done|].
    destruct (apply (snapshot ctl) e) as [s|err] eqn:E.
    + apply section_commit; [done| |by apply Hf|rewrite (proj1 (Hf s)); by apply Ha]. by rewrite E, (proj1 (Hf s)).
    + apply section_refused; [done|]. by eapply He.
  - destruct (commit_wedged id _ l e st Hw Hl Hid Hs) as [n Hn]. rewrite Hn in Hc. injection Hc as <- <-.
    exists l. split; [by rewrite insert_id|constructor].
Qed.

Lemma ctl_id id ctl l : ctl_ok id ctl l → snap_id (snapshot ctl) = id.
Proof. by intros [[Hr|(l0 & e0 & _ & Hr & _)] _ _]; apply replays_inv in Hr as [? _]. Qed.

Lemma nothing_done (st : gmap SessionId (list ForgeEvent)) id ctl l (P : list ForgeEvent → Prop) :
  st !! id = Some l → P [] → ∃ l' es, st = <[id := l']> st ∧ Section id ctl l ctl l' es ∧ P es.
Proof. intros Hl HP. exists l, []. split_and!; [by rewrite insert_id|constructor|done]. Qed.

Lemma start_section c x now st ctl l st' ctl' r (id := session_id c) :
  ctl_ok id ctl l → st !! id = Some l → start_locked c x now st ctl = (st', ctl', r) →
  ∃ l' es, st' = <[id := l']> st ∧ Section id ctl l ctl' l' es ∧
    match r with
    | Ok (_, Some e) => es = [e] ∧ active_execution ctl = None ∧ active_execution ctl' = Some (start_turn_id (payload c), x)
    | _ => es = [] ∧ ctl' = ctl
    end.
Proof.
  intros Hok Hl. unfold start_locked. pose proof Hok as [Hlog Hwf Hm].
  destruct (receipts ctl !! command_id c) as [rc|] eqn:Erc; [intros [= <- <- <-]; by apply nothing_done|].
  destruct (and_then _ _) as [[]|err] eqn:Eg; [|intros [= <- <- <-]; by apply nothing_done].
  apply and_then_Ok in Eg as (_ & _ & [Hst Hat]%ensure_can_start_Ok). cbv zeta.
  set (t := start_turn_id (payload c)). set (e := new_event _ _ _ _ _ _).
  destruct (commit e st (snapshot ctl)) as [st1 r1] eqn:Ec.
  set (f := λ s, add_receipt (mk_receipt (command_id c) (session_id c) (Some t) (ev_seq e)) (set_execution (Some (t, x)) (set_snapshot s ctl))).
  assert (Hid : snap_id (snapshot ctl) = id) by by eapply ctl_id.
  assert (Hk : apply (snapshot ctl) e =
    Ok (set_last_seq (ev_seq e) (set_turn t (mk_turn t (start_input (payload c)) Running None None) (Some t) (snapshot ctl)))).
  { apply apply_Ok. split_and!; [done..|]. eexists. split; [|done]. unfold apply_kind. cbn [kind e new_event ev_turn].
    by rewrite (proj2 (ensure_can_start_Ok _)). }
  destruct (commit_section id ctl l e st (match r1 with Ok s => f s | Err _ => ctl end) st1 r1 f) as (l' & -> & Hsec); try done.
  - intros s. split; [done|]. simpl. apply insert_subseteq. done.
  - intros s Hs t'. rewrite Hk in Hs. injection Hs as <-. simpl. naive_solver.
  - intros err _ Herr. congruence.
  - destruct r1 as [s|err]; intros [= <- <- <-]; eexists _, _; split_and!; try done.
    destruct (active_execution ctl) as [[t' x']|] eqn:Ex; [|done]. exfalso.
    assert (active_turn (snapshot ctl) = Some t') by (apply Hm; eauto). congruence.
Qed.

Lemma cancel_section c now st ctl l st' ctl' r (id := session_id c) :
  ctl_ok id ctl l → st !! id = Some l → cancel_locked c now st ctl = (st', ctl', r) →
  ∃ l' es, st' = <[id := l']> st ∧ Section id ctl l ctl' l' es ∧ active_execution ctl' = active_execution ctl ∧
    match r with
    | Ok (_, Some e, x) => es = [e] ∧ is_Some x
    | _ => es = []
    end.
Proof.
  intros Hok Hl. unfold cancel_locked. pose proof Hok as [Hlog Hwf Hm].
  destruct (receipts ctl !! command_id c) as [rc|] eqn:Erc; [intros [= <- <- <-]; by apply nothing_done|].
  cbv zeta. set (t := cancel_turn_id (payload c)).
  destruct (and_then _ _) as [x|err] eqn:Eg; [|intros [= <- <- <-]; by apply nothing_done].
  apply and_then_Ok in Eg as (_ & _ & Hex). destruct (active_execution ctl) as [[t' x']|] eqn:Eex; [|done].
  revert Hex. case_bool_decide as Ht; [done|]. intros [= ->]. subst t'.
  set (e := new_event _ _ _ _ _ _). destruct (commit e st (snapshot ctl)) as [st1 r1] eqn:Ec.
  assert (Hat : active_turn (snapshot ctl) = Some t) by (apply Hm; eauto).
  destruct (active_known _ Hwf _ Hat) as [turn Hturn].
  assert (Hid : snap_id (snapshot ctl) = id) by by eapply ctl_id.
  assert (Ham : active_turn_mut (snapshot ctl) e = Ok (t, turn)) by by apply active_turn_Ok.
  set (f := λ s, add_receipt (mk_receipt (command_id c) (session_id c) (Some t) (ev_seq e)) (set_snapshot s ctl)).
  destruct (commit_section id ctl l e st (match r1 with Ok s => f s | Err _ => ctl end) st1 r1 f) as (l' & -> & Hsec); try done.
  - intros s. split; [done|]. simpl. by apply insert_subseteq.
  - intros s (_ & _ & s1 & Hs & ->)%apply_Ok t'. unfold apply_kind in Hs. cbn [kind e new_event] in Hs. fold e in Hs. rewrite Ham in Hs.
    simpl in Hs. revert Hs. case_bool_decide; intros [= <-]. simpl. rewrite Eex. apply Hm.
  - intros err Hr Herr. split_and!; [done..|]. exists t, turn. split_and!; [done..|]. intros Hrun.
    revert Herr. unfold apply. rewrite bool_decide_false by naive_solver. cbv zeta. rewrite bool_decide_false by naive_solver.
    unfold apply_kind. cbn [kind e new_event]. fold e. rewrite Ham. simpl. by rewrite bool_decide_false by naive_solver.
  - destruct r1 as [s|err]; intros [= <- <- <-]; eexists _, _; split_and!; try done.
Qed.

(** An event of the active turn other than its start and a cancellation is
    always taken. *)
Lemma turn_event_taken s e t k :
  snap_wf s → active_turn s = Some t → ev_session e = snap_id s → ev_seq e = last_seq s +w 1 → ev_turn e = Some t → kind e = k →
  (∀ i, k ≠ TurnStarted i) → k ≠ TurnCancelRequested → k ≠ SessionCreated → k ≠ SessionClosed →
  ∃ s', apply s e = Ok s' ∧
    (active_turn s' = match k with TurnCancelled | TurnCompleted _ | TurnFailed _ => None | _ => Some t end).
Proof.
  intros Hwf Ha Hid Hseq Ht Hk H1 H2 H3 H4. destruct (active_known _ Hwf _ Ha) as [turn Hturn].
  assert (Ham : active_turn_mut s e = Ok (t, turn)) by by apply active_turn_Ok.
  assert (Hnt : is_terminal (turn_status turn) = false) by by apply (open_is_active _ Hwf t).
  enough (∃ s1, apply_kind s e = Ok s1 ∧
    active_turn s1 = match k with TurnCancelled | TurnCompleted _ | TurnFailed _ => None | _ => Some t end) as (s1 & Hs1 & Hact).
  { exists (set_last_seq (ev_seq e) s1). split; [|done]. apply apply_Ok. eauto. }
  unfold apply_kind, active_turn_ref. rewrite Hk, Ham. simpl. rewrite Hnt.
  destruct k; try done; eauto; by destruct (H1 input).
Qed.

Lemma record_section id t k now st ctl l st' ctl' r x :
  ctl_ok id ctl l → st !! id = Some l → active_execution ctl = Some (t, x) →
  record_event (Some t) k now st ctl = (st', ctl', r) →
  (∀ ev, k ≠ TurnStarted ev) → k ≠ TurnCancelRequested → k ≠ SessionCreated → k ≠ SessionClosed →
  k ≠ TurnCancelled → (∀ text, k ≠ TurnCompleted text) → (∀ m, k ≠ TurnFailed m) →
  ∃ l' es, st' = <[id := l']> st ∧ Section id ctl l ctl' l' es ∧ active_execution ctl' = active_execution ctl ∧
    match r with Ok e => es = [e] | Err _ => es = [] end.
Proof.
  intros Hok Hl Hx. unfold record_event. rewrite (ctl_id _ _ _ Hok). cbv zeta. set (e := new_event _ _ _ _ _ _).
  intros Hc K1 K2 K3 K4 K5 K6 K7. pose proof Hok as [_ Hwf Hm].
  assert (Ha : active_turn (snapshot ctl) = Some t) by (apply Hm; eauto).
  destruct (turn_event_taken (snapshot ctl) e t k) as (s & Hs & Hact); try done.
  { symmetry. by eapply ctl_id. }
  destruct (commit e st (snapshot ctl)) as [st1 r1] eqn:Ec.
  destruct (commit_section id ctl l e st (match r1 with Ok s => set_snapshot s ctl | Err _ => ctl end) st1 r1
    (λ s, set_snapshot s ctl)) as (l' & -> & Hsec); try done.
  - intros s' Hs' t'. rewrite Hs in Hs'. injection Hs' as <-. rewrite Hact. rewrite <- Hm, Ha.
    destruct k; try done; [by destruct (K6 text)|by destruct (K7 message)].
  - intros err _ Herr. congruence.
  - destruct r1 as [s'|err]; injection Hc as <- <- <-; by eexists _, _.
Qed.

Lemma terminal_section id t k now st ctl l st' ctl' r x :
  ctl_ok id ctl l → st !! id = Some l → active_execution ctl = Some (t, x) →
  record_terminal_event id t k now st ctl = (st', ctl', r) →
  (k = TurnCancelled ∨ (∃ text, k = TurnCompleted text) ∨ ∃ m, k = TurnFailed m) →
  ∃ l' es, st' = <[id := l']> st ∧ Section id ctl l ctl' l' es ∧
    match r with Ok e => es = [e] ∧ active_execution ctl' = None | Err _ => es = [] ∧ ctl' = ctl end.
Proof.
  intros Hok Hl Hx. unfold record_terminal_event. cbv zeta. cbn [set_snapshot active_execution]. rewrite Hx, bool_decide_true by done. set (e := new_event _ _ _ _ _ _).
  intros Hc Hk. pose proof Hok as [_ Hwf Hm].
  assert (Ha : active_turn (snapshot ctl) = Some t) by (apply Hm; eauto).
  destruct (turn_event_taken (snapshot ctl) e t k) as (s & Hs & Hact); try done; try (by intros; destruct Hk as [->|[[? ->]|[? ->]]]).
  { symmetry. by eapply ctl_id. }
  destruct (commit e st (snapshot ctl)) as [st1 r1] eqn:Ec.
  destruct (commit_section id ctl l e st (match r1 with Ok s => set_execution None (set_snapshot s ctl) | Err _ => ctl end) st1 r1
    (λ s, set_execution None (set_snapshot s ctl))) as (l' & -> & Hsec); try done.
  - intros s' Hs' t'. rewrite Hs in Hs'. injection Hs' as <-. rewrite Hact.
    destruct Hk as [->|[[? ->]|[? ->]]]; split; try done; by intros [? ?].
  - intros err _ Herr. congruence.
  - destruct r1 as [s'|err]; injection Hc as <- <- <-; by eexists _, _.
Qed.

(** ** Every reachable state *)

(** The events of a session that are still to be sent. *)
Definition sends (id : SessionId) (effs : list Effect) : list ForgeEvent :=
  effs ≫= λ eff, match eff with Send s e => if bool_decide (s = id) then [e] else [] | _ => [] end.
Definition unsent (id : SessionId) (ts : list (option nat * list Effect)) : list ForgeEvent := ts ≫= λ t, sends id t.2.

(** A session's state: control and log agree, and every event taken after the
    first was sent or is about to be, once. *)
Definition runtime_ok (w : World) (id : SessionId) (rt : SessionRuntime) : Prop :=
  ∃ l, store w !! id = Some l ∧ ctl_ok id (control rt) l ∧
    ∃ taken, (l = taken ∧ replays id (snapshot (control rt)) l ∨ ∃ e, l = taken ++ [e] ∧ wedged id (snapshot (control rt)) l) ∧
      sent rt ++ unsent id (tails w) ≡ₚ tail taken.

Record service_ok (w : World) : Prop := {
  sessions_ok : ∀ id rt, sessions w !! id = Some rt → runtime_ok w id rt;
  creating_ok : ∀ id rt receipt, creating w !! id = Some (rt, receipt) →
    receipt_session receipt = id ∧ sessions w !! id = None ∧ runtime_ok w id rt ∧
    ∃ e, store w !! id = Some [e] ∧ ev_seq e = 1;
  nothing_else : ∀ id, sessions w !! id = None → creating w !! id = None → store w !! id = None ∧ unsent id (tails w) = [];
  tasks_ok : ∀ x t, tasks w !! x = Some t → is_Some (executions w !! x) ∧
    ∃ rt, sessions w !! task_session t = Some rt ∧ active_execution (control rt) = Some (task_turn t, x) }.

Lemma unsent_app id ts ts' : unsent id (ts ++ ts') = unsent id ts ++ unsent id ts'.
Proof. apply bind_app. Qed.
Lemma unsent_one id who effs : unsent id [(who, effs)] = sends id effs.
Proof. unfold unsent. simpl. by rewrite app_nil_r. Qed.

(** Steps that leave store, controls and what was sent alone. *)
Lemma service_ok_frame w w' :
  service_ok w → store w' = store w → creating w' = creating w →
  (∀ id, sessions w' !! id = None ↔ sessions w !! id = None) →
  (∀ id rt', sessions w' !! id = Some rt' → ∃ rt, sessions w !! id = Some rt ∧ control rt' = control rt ∧
     sent rt' ++ unsent id (tails w') ≡ₚ sent rt ++ unsent id (tails w)) →
  (∀ id, sessions w !! id = None → unsent id (tails w') = unsent id (tails w)) →
  (∀ x, is_Some (executions w !! x) → is_Some (executions w' !! x)) →
  (∀ x t', tasks w' !! x = Some t' → ∃ t, tasks w !! x = Some t ∧ task_session t' = task_session t ∧ task_turn t' = task_turn t) →
  service_ok w'.
Proof.
  intros [H1 H2 H3 H4] Hst Hcr Hdom Hse Hun Hex Htk. split.
  - intros id rt' (rt & Hrt & Hctl & Hp)%Hse. destruct (H1 id rt Hrt) as (l & Hl & Hok & taken & Ht & Hpt).
    exists l. rewrite Hst, Hctl. split_and!; [done..|]. exists taken. split; [done|]. by rewrite Hp.
  - intros id rt receipt. rewrite Hcr. intros Hc. destruct (H2 _ _ _ Hc) as (Hid & Hno & (l & Hl & Hok & taken & Ht & Hpt) & He).
    split_and!; [done|by apply Hdom| |by rewrite Hst]. exists l. rewrite Hst, Hun by done. split_and!; [done..|]. by exists taken.
  - intros id Hno%Hdom. rewrite Hcr. intros Hc. destruct (H3 id Hno Hc) as [? Hu]. rewrite Hst, Hun by done. done.
  - intros x t' (t & Ht & Hs & Htt)%Htk. destruct (H4 x t Ht) as (Hx & rt & Hrt & Ha). split; [by apply Hex|].
    rewrite Hs, Htt. destruct (sessions w' !! task_session t) as [rt'|] eqn:E.
    + destruct (Hse _ _ E) as (rt0 & Hrt0 & Hctl & _). simplify_eq. exists rt'. by rewrite Hctl.
    + apply Hdom in E. congruence.
Qed.

(** A critical section of one session. *)
Lemma service_ok_section w id rt ctl' l l' es who effs exs ts :
  service_ok w → sessions w !! id = Some rt → store w !! id = Some l →
  Section id (control rt) l ctl' l' es → (∀ id', sends id' effs = if decide (id' = id) then es else []) →
  (∀ x, is_Some (executions w !! x) → is_Some (exs !! x)) →
  (∀ x t, ts !! x = Some t → is_Some (exs !! x) ∧
     if decide (task_session t = id) then active_execution ctl' = Some (task_turn t, x) else tasks w !! x = Some t) →
  service_ok (mk_world (<[id := l']> (store w)) (set_control id ctl' (sessions w)) (creating w) exs ts (tails w ++ [(who, effs)])).
Proof.
  intros [H1 H2 H3 H4] Hrt Hl Hsec Heffs Hexs Hts.
  destruct (H1 _ _ Hrt) as (l0 & Hl0 & Hok & taken & Ht & Hp). simplify_eq.
  assert (Hun : ∀ id', unsent id' (tails w ++ [(who, effs)]) = unsent id' (tails w) ++ (if decide (id' = id) then es else [])).
  { intros id'. by rewrite unsent_app, unsent_one, Heffs. }
  assert (Hother : ∀ id' rt', id' ≠ id → runtime_ok w id' rt' →
    runtime_ok (mk_world (<[id := l']> (store w)) (set_control id ctl' (sessions w)) (creating w) exs ts (tails w ++ [(who, effs)])) id' rt').
  { intros id' rt' Hne (l2 & Hl2 & Hok2 & taken2 & Ht2 & Hp2). exists l2. simpl. rewrite lookup_insert_ne by done.
    split_and!; [done..|]. exists taken2. rewrite Hun, decide_False, app_nil_r by done. done. }
  split; simpl.
  - intros id' rt'. unfold set_control. destruct (decide (id' = id)) as [->|Hne].
    + rewrite lookup_alter_eq, Hrt. intros [= <-]. exists l'. simpl. rewrite lookup_insert_eq, Hun, decide_True by done.
      split_and!; [done|by eapply section_ok|].
      assert (Hrep : replays id (snapshot (control rt)) l → l = taken).
      { intros Hr. destruct Ht as [[? _]|(e & _ & Hw)]; [done|]. by destruct (replays_not_wedged _ _ _ Hr Hw). }
      destruct Hsec as [|e ctl' Hr Ha Hre Hm|e Hr Hc].
      * exists taken. by rewrite app_nil_r.
      * specialize (Hrep Hr) as <-. exists (l ++ [e]). split; [left; split; [done|by eapply replays_snoc]|]. rewrite app_assoc, Hp. by destruct l, Hr.
      * specialize (Hrep Hr) as <-. exists l. rewrite app_nil_r. split; [right|done]. exists e. split; [done|]. by exists l, e.
    + rewrite lookup_alter_ne by done. intros Hrt'. by apply Hother, H1.
  - intros id' rt' receipt Hc. destruct (H2 _ _ _ Hc) as (Hid & Hno & Hrok & He).
    assert (id' ≠ id) by (intros ->; congruence). unfold set_control. rewrite lookup_alter_ne, lookup_insert_ne by done.
    split_and!; [done..|by apply Hother|done].
  - intros id'. unfold set_control. destruct (decide (id' = id)) as [->|Hne]; [by rewrite lookup_alter_eq, Hrt|].
    rewrite lookup_alter_ne, lookup_insert_ne, Hun, decide_False, app_nil_r by done. apply H3.
  - intros x t Hx. destruct (Hts x t Hx) as [Hex Hcase]. split; [done|]. unfold set_control. case_decide as Hd.
    + rewrite Hd, lookup_alter_eq, Hrt. by eexists.
    + rewrite lookup_alter_ne by done. by apply H4.
Qed.

(** Two worlds with the same session. *)
Lemma sends_tail id eff effs : sends id (eff :: effs) = sends id [eff] ++ sends id effs.
Proof. unfold sends. by rewrite <- bind_app. Qed.

Lemma new_world_ok : service_ok new_world.
Proof. split; simpl; intros; by simplify_map_eq. Qed.

Lemma create_ok w c agent now :
  service_ok w → create_existing c (sessions w) = None → service_ok (do_create c agent now w).
Proof.
  intros Hok Hnone. assert (Hno : sessions w !! session_id c = None).
  { unfold create_existing in Hnone. by destruct (sessions w !! session_id c). }
  unfold do_create, create_append. assert (Hw : mk_world (store w) (sessions w) (creating w) (executions w) (tasks w) (tails w) = w) by by destruct w.
  destruct agent as [[]|err]; [|simpl; by rewrite Hw].
  set (id := session_id c) in *. set (e := new_event _ _ _ _ _ _). cbv zeta.
  pose proof Hok as [H1 H2 H3 H4]. unfold commit, append. cbn [ev_session e new_event]. fold id.
  destruct (creating w !! id) as [[rt0 receipt0]|] eqn:Ec.
  { destruct (H2 _ _ _ Ec) as (_ & _ & _ & e0 & He0 & Hseq). rewrite He0. simpl. rewrite Hseq. simpl. by rewrite Hw. }
  destruct (H3 id Hno Ec) as [Hst Hun]. rewrite Hst. simpl default. simpl last. cbn match.
  rewrite bool_decide_false by by intros []. set (s0 := uninitialized id (create_spec (payload c))).
  assert (Ha : apply s0 e = Ok (set_last_seq 1 s0)) by (apply apply_Ok; split_and!; [done..|by eexists]).
  rewrite Ha. simpl. split; simpl.
  - intros id' rt' Hrt'. assert (id' ≠ id) by (intros ->; congruence).
    destruct (H1 _ _ Hrt') as (l & Hl & Hrest). exists l. simpl. by rewrite lookup_insert_ne.
  - intros id' rt' receipt. rewrite lookup_insert. case_decide as Hd.
    + intros [= <- <-]. subst id'. split_and!; [done..| |]; [|exists e; by rewrite lookup_insert_eq].
      assert (Hrep : replays id (set_last_seq 1 s0) [e]).
      { split; [done|]. simpl. change (uninitialized id (create_spec (payload c))) with s0. by rewrite Ha. }
      exists [e]. simpl. rewrite lookup_insert_eq. split_and!; [done| |].
      * split; simpl; [by left| |].
        -- apply (apply_wf s0 e); [apply uninitialized_wf|done].
        -- intros t. split; [done|]. by intros [? ?].
      * exists [e]. split; [by left|]. by rewrite Hun.
    + intros Hc. destruct (H2 _ _ _ Hc) as (? & ? & (l & Hl & Hrest) & He). split_and!; [done..| |by rewrite lookup_insert_ne].
      exists l. simpl. by rewrite lookup_insert_ne.
  - intros id' Hn. rewrite lookup_insert. case_decide; [done|]. intros Hc. rewrite lookup_insert_ne by done. by apply H3.
  - done.
Qed.

(** What a step may do to a session that is there. *)
Definition follows (w w' : World) : Prop :=
  ∀ id rt l, sessions w !! id = Some rt → store w !! id = Some l →
  ∃ rt' l' es, sessions w' !! id = Some rt' ∧ store w' !! id = Some l' ∧ Section id (control rt) l (control rt') l' es.

Lemma follows_frame w w' :
  store w' = store w → (∀ id rt, sessions w !! id = Some rt → ∃ rt', sessions w' !! id = Some rt' ∧ control rt' = control rt) → follows w w'.
Proof.
  intros Hst Hse id rt l Hrt Hl. destruct (Hse _ _ Hrt) as (rt' & Hrt' & Hc). exists rt', l, [].
  rewrite Hst, Hc. split_and!; [done..|constructor].
Qed.

Lemma set_phase_task x p ts y (t' : Task) :
  set_phase x p ts !! y = Some t' → ∃ t, ts !! y = Some t ∧ task_session t' = task_session t ∧ task_turn t' = task_turn t.
Proof.
  unfold set_phase. rewrite lookup_alter. case_decide as Hd; [subst y|by exists t']. intros (t & Ht & ->)%fmap_Some. by exists t.
Qed.

Lemma phase_ok w x p : service_ok w → service_ok (set_tasks (set_phase x p (tasks w)) w).
Proof.
  intros Hok. eapply service_ok_frame; [exact Hok|done..| |done|done|apply set_phase_task]. eauto.
Qed.

Lemma unsent_split id l1 who eff effs l2 :
  unsent id (l1 ++ (who, eff :: effs) :: l2) ≡ₚ sends id [eff] ++ unsent id (l1 ++ (who, effs) :: l2).
Proof.
  rewrite !unsent_app.
  assert (Hc : ∀ es, unsent id ((who, es) :: l2) = sends id es ++ unsent id l2) by done.
  rewrite !Hc, (sends_tail id eff effs). solve_Permutation.
Qed.

Lemma effect_ok w l1 who eff effs l2 :
  service_ok w → tails w = l1 ++ (who, eff :: effs) :: l2 → service_ok (set_tails (l1 ++ (who, effs) :: l2) (perform eff w)).
Proof.
  intros Hok Ht. pose proof (λ id, unsent_split id l1 who eff effs l2) as Hu. setoid_rewrite <- Ht in Hu.
  assert (Hnone : ∀ id, sessions w !! id = None → unsent id (l1 ++ (who, effs) :: l2) = [] ∧ unsent id (tails w) = []).
  { intros id Hn. assert (Hnil : unsent id (tails w) = []).
    { destruct (creating w !! id) as [[rt rc]|] eqn:Ec; [|by apply (nothing_else _ Hok)].
      destruct (creating_ok _ Hok _ _ _ Ec) as (_ & _ & (l & Hl & Hctl & taken & Htk & Hp) & e & He & _).
      assert (Hlen : length (sent rt ++ unsent id (tails w)) = O).
      { rewrite Hp. destruct Htk as [[-> _]|(e' & -> & Hw)]; [by simplify_eq|].
        rewrite Hl in He. injection He as Hle. by destruct taken as [|? []]; simplify_eq/=. }
      rewrite length_app in Hlen. apply nil_length_inv. lia. }
    split; [|done]. specialize (Hu id). rewrite Hnil in Hu. symmetry in Hu. apply Permutation_nil_r in Hu. by apply app_eq_nil in Hu as [_ Hu]. }
  eapply service_ok_frame; [exact Hok|by destruct eff..| | | | |].
  - intros id. destruct eff; simpl; [|done..]. by rewrite lookup_alter_None.
  - intros id rt'. simpl. destruct eff as [s e|x|x]; simpl.
    + rewrite lookup_alter. case_decide as Hd.
      * intros (rt & Hrt & ->)%fmap_Some. subst s. exists rt. split_and!; [done..|]. simpl. rewrite (Hu id). unfold sends. simpl.
        rewrite bool_decide_true by done. by rewrite <- app_assoc.
      * intros Hrt. exists rt'. split_and!; [done..|]. rewrite (Hu id). unfold sends. simpl. by rewrite bool_decide_false.
    + intros Hrt. exists rt'. split_and!; [done..|]. by rewrite (Hu id).
    + intros Hrt. exists rt'. split_and!; [done..|]. by rewrite (Hu id).
  - intros id Hn. destruct (Hnone id Hn) as [H1 H2]. simpl. by rewrite H1, H2.
  - intros x Hx. destruct eff; simpl; [done| |done]. rewrite lookup_alter. by case_decide; [subst; apply fmap_is_Some|].
  - intros y t'. destruct eff; simpl; [eauto..|]. apply set_phase_task.
Qed.

Lemma insert_ok w id rt receipt :
  service_ok w → creating w !! id = Some (rt, receipt) → service_ok (do_insert id rt receipt w).
Proof.
  intros Hok Hc. destruct (creating_ok _ Hok _ _ _ Hc) as (Hid & Hno & Hrt & _). unfold do_insert, create_insert. rewrite Hid, Hno. simpl.
  pose proof Hok as [H1 H2 H3 H4]. split; simpl.
  - intros id' rt'. rewrite lookup_insert. case_decide as Hd; [intros [= <-]; by subst id'|apply H1].
  - intros id' rt' receipt'. rewrite lookup_delete. case_decide as Hd; [done|]. rewrite lookup_insert_ne by done. apply H2.
  - intros id'. rewrite lookup_insert, lookup_delete. case_decide; [done|]. apply H3.
  - intros x t Hx. destruct (H4 x t Hx) as (? & rt' & Hrt' & Ha). split; [done|]. exists rt'. split; [|done].
    rewrite lookup_insert_ne by (intros Heq; congruence). done.
Qed.

Lemma section_step w id rt ctl' l l' es who effs exs ts :
  service_ok w → sessions w !! id = Some rt → store w !! id = Some l →
  Section id (control rt) l ctl' l' es → (∀ id', sends id' effs = if decide (id' = id) then es else []) →
  (∀ x, is_Some (executions w !! x) → is_Some (exs !! x)) →
  (∀ x t, ts !! x = Some t → is_Some (exs !! x) ∧
     if decide (task_session t = id) then active_execution ctl' = Some (task_turn t, x) else tasks w !! x = Some t) →
  let w' := mk_world (<[id := l']> (store w)) (set_control id ctl' (sessions w)) (creating w) exs ts (tails w ++ [(who, effs)]) in
  service_ok w' ∧ follows w w'.
Proof.
  intros Hok Hrt Hl Hsec Heffs Hexs Hts w'. split; [by eapply service_ok_section|].
  intros id2 rt2 l2 Hrt2 Hl2. unfold w', set_control. simpl. destruct (decide (id2 = id)) as [->|Hne].
  - simplify_eq. rewrite lookup_alter_eq, Hrt, lookup_insert_eq. by eexists _, l', es.
  - rewrite lookup_alter_ne, lookup_insert_ne by done. exists rt2, l2, []. split_and!; [done..|constructor].
Qed.

(** A task is the one of the active turn of its session. *)
Lemma task_of w x t rt : service_ok w → tasks w !! x = Some t → sessions w !! task_session t = Some rt →
  active_execution (control rt) = Some (task_turn t, x).
Proof. intros Hok Ht Hrt. destruct (tasks_ok _ Hok _ _ Ht) as (_ & rt' & Hrt' & Ha). by simplify_eq. Qed.

Lemma tasks_kept w id rt ctl' x t :
  service_ok w → sessions w !! id = Some rt → active_execution ctl' = active_execution (control rt) → tasks w !! x = Some t →
  is_Some (executions w !! x) ∧ if decide (task_session t = id) then active_execution ctl' = Some (task_turn t, x) else tasks w !! x = Some t.
Proof.
  intros Hok Hrt Ha Ht. split; [by apply (tasks_ok _ Hok _ _ Ht)|]. case_decide as Hd; [|done]. subst id. rewrite Ha. by eapply task_of.
Qed.

Lemma sends_none id (P : Prop) `{Decision P} : sends id [] = if decide P then [] else [].
Proof. by case_decide. Qed.
Lemma sends_one id id' e effs :
  sends id' effs = [] → sends id' (Send id e :: effs) = if decide (id' = id) then [e] else [].
Proof. intros He. rewrite sends_tail, He, app_nil_r. unfold sends. simpl. rewrite app_nil_r. case_decide; [by rewrite bool_decide_true|by rewrite bool_decide_false by congruence]. Qed.

Ltac leave_lock :=
  unfold left_lock, set_tasks, set_executions; cbn [store sessions creating executions tasks tails].

Lemma start_ok w c x now rt :
  service_ok w → executions w !! x = None → sessions w !! session_id c = Some rt →
  service_ok (do_start c x now rt w) ∧ follows w (do_start c x now rt w).
Proof.
  intros Hok Hx Hrt. destruct (sessions_ok _ Hok _ _ Hrt) as (l & Hl & Hctl & _).
  unfold do_start. destruct (start_locked c x now (store w) (control rt)) as [[st ctl'] r] eqn:Es.
  destruct (start_section c x now _ _ l _ _ _ Hctl Hl Es) as (l' & es & -> & Hsec & Hr). cbv zeta.
  assert (Hexs : ∀ y, is_Some (executions w !! y) → is_Some ((<[x := new_execution]> (executions w)) !! y)).
  { intros y Hy. rewrite lookup_insert. case_decide; eauto. }
  leave_lock. apply section_step with (rt := rt) (l := l) (es := es); simpl; [done..| |done|].
  - intros id'. destruct r as [[rc [e|]]|err]; cbn [if_ok start_effects]; [|destruct Hr as [-> _]; apply sends_none..].
    destruct Hr as (-> & _). by apply sends_one.
  - intros y t Ht. assert (Hold : tasks w !! y = Some t → active_execution ctl' = active_execution (control rt) ∨ task_session t ≠ session_id c →
      is_Some ((<[x := new_execution]> (executions w)) !! y) ∧
      if decide (task_session t = session_id c) then active_execution ctl' = Some (task_turn t, y) else tasks w !! y = Some t).
    { intros Hy Hcase. destruct (tasks_ok _ Hok _ _ Hy) as (Hye & _). split; [by apply Hexs|]. case_decide; [|done].
      destruct Hcase as [Ha|]; [|done]. rewrite Ha. eapply task_of; [done..|]. congruence. }
    destruct r as [[rc [e|]]|err]; [|destruct Hr as (_ & ->); apply Hold; auto..].
    destruct Hr as (_ & Hnone & Ha). apply lookup_insert_Some in Ht as [[<- <-]|[Hd Ht]].
    + simpl. rewrite lookup_insert_eq, decide_True by done. eauto.
    + apply Hold; [done|]. right. intros Heq. rewrite <- Heq in Hrt. by rewrite (task_of _ _ _ _ Hok Ht Hrt) in Hnone.
Qed.

Lemma cancel_ok w c now rt :
  service_ok w → sessions w !! session_id c = Some rt → service_ok (do_cancel c now rt w) ∧ follows w (do_cancel c now rt w).
Proof.
  intros Hok Hrt. destruct (sessions_ok _ Hok _ _ Hrt) as (l & Hl & Hctl & _).
  unfold do_cancel. destruct (cancel_locked c now (store w) (control rt)) as [[st ctl'] r] eqn:Es.
  destruct (cancel_section c now _ _ l _ _ _ Hctl Hl Es) as (l' & es & -> & Hsec & Ha & Hr).
  leave_lock. apply section_step with (rt := rt) (l := l) (es := es); [done..| |done|by intros; eapply tasks_kept].
  intros id'. destruct r as [[[rc [e|]] ox]|err]; cbn [if_ok cancel_effects]; [|subst es; apply sends_none..].
  destruct Hr as [-> [y ->]]. by apply sends_one.
Qed.

Lemma record_ok w x t k now rt :
  service_ok w → tasks w !! x = Some t → sessions w !! task_session t = Some rt →
  (∃ ev, observed ev = Some k) ∨ (∃ rs, k = TurnCleanupStalled rs) →
  service_ok (do_record x t k now rt w) ∧ follows w (do_record x t k now rt w).
Proof.
  intros Hok Ht Hrt Hk. destruct (sessions_ok _ Hok _ _ Hrt) as (l & Hl & Hctl & _).
  unfold do_record. destruct (record_event _ _ _ _ _) as [[st ctl'] r] eqn:Es.
  destruct (record_section (task_session t) (task_turn t) k now _ _ l _ _ _ x Hctl Hl (task_of _ _ _ _ Hok Ht Hrt) Es)
    as (l' & es & -> & Hsec & Ha & Hr); try (intros; destruct Hk as [[[] [= <-]]|[? ->]]; done).
  leave_lock. apply section_step with (rt := rt) (l := l) (es := es); [done..| |done|by intros; eapply tasks_kept].
  intros id'. destruct r as [e|err]; cbn [if_ok]; subst es; [by apply sends_one|apply sends_none].
Qed.

Lemma terminal_ok w x t r ex now rt :
  service_ok w → tasks w !! x = Some t → sessions w !! task_session t = Some rt →
  service_ok (do_terminal x t r ex now rt w) ∧ follows w (do_terminal x t r ex now rt w).
Proof.
  intros Hok Ht Hrt. destruct (sessions_ok _ Hok _ _ Hrt) as (l & Hl & Hctl & _). pose proof (task_of _ _ _ _ Hok Ht Hrt) as Hx.
  unfold do_terminal. destruct (record_terminal_event _ _ _ _ _ _) as [[st ctl'] res] eqn:Es.
  destruct (terminal_section (task_session t) (task_turn t) _ now _ _ l _ _ _ x Hctl Hl Hx Es) as (l' & es & -> & Hsec & Hr).
  { unfold terminal_kind. case_match; [by left|]. case_match; [right; left|by left|right; right]; eauto. }
  leave_lock. apply section_step with (rt := rt) (l := l) (es := es); [done..| |done|].
  - intros id'. destruct res as [e|err]; cbn [if_ok]; destruct Hr as [-> _]; [by apply sends_one|apply sends_none].
  - intros y t' [Hd Hy]%lookup_delete_Some.
    destruct (tasks_ok _ Hok _ _ Hy) as (Hye & _). split; [done|]. case_decide as Hs; [|done]. exfalso. apply Hd.
    rewrite <- Hs in Hrt. rewrite (task_of _ _ _ _ Hok Hy Hrt) in Hx. congruence.
Qed.

Lemma create_follows w c agent now : create_existing c (sessions w) = None → follows w (do_create c agent now w).
Proof.
  intros Hnone id rt l Hrt Hl. assert (Hne : id ≠ session_id c).
  { intros ->. unfold create_existing in Hnone. by rewrite Hrt in Hnone. }
  exists rt, l, []. unfold do_create, create_append, commit, append. split_and!; [by repeat case_match| |constructor].
  repeat case_match; simplify_eq/=; by rewrite ?lookup_insert_ne.
Qed.

Lemma insert_follows w id rt receipt : service_ok w → creating w !! id = Some (rt, receipt) → follows w (do_insert id rt receipt w).
Proof.
  intros Hok Hc. destruct (creating_ok _ Hok _ _ _ Hc) as (Hid & Hno & _). apply follows_frame; [done|].
  intros id2 rt2 H2. exists rt2. split; [|done]. unfold do_insert, create_insert. rewrite Hid, Hno. simpl.
  rewrite lookup_insert_ne by congruence. done.
Qed.

Lemma effect_follows w eff ts : follows w (set_tails ts (perform eff w)).
Proof.
  apply follows_frame; [by destruct eff|]. intros id rt Hrt. destruct eff as [s e|x|x]; simpl; [|eauto..].
  rewrite lookup_alter. case_decide as Hd; [subst s; rewrite Hrt; simpl; eauto|eauto].
Qed.

Lemma step_ok w w' : service_ok w → step w w' → service_ok w' ∧ follows w w'.
Proof.
  intros Hok Hs. destruct Hs as [w c agent now Hv Hn|w id rt receipt Hc|w c x now rt Hv Hx Hrt|w c now rt Hv Hrt|w l1 who eff effs l2 Ht|
    w x t rt ev k now Ht Hp Hi Hrt He|w x t r Ht Hp Hi|w x t r kinds rt now Ht Hp Hrt|w x t r ex Ht Hp Hi He Hc|
    w x t r ex rt now Ht Hp He Hrt|w x ex ex' Hx Hcase].
  - split; [by apply create_ok|by apply create_follows].
  - split; [by apply insert_ok|by apply insert_follows].
  - by apply start_ok.
  - by apply cancel_ok.
  - split; [by apply effect_ok|by apply effect_follows].
  - apply record_ok; eauto.
  - split; [by apply phase_ok|]. apply follows_frame; eauto.
  - destruct (record_ok (set_tasks (set_phase x (Stalled r) (tasks w)) w) x (mk_task (task_session t) (task_turn t) (Stalled r))
      (TurnCleanupStalled kinds) now rt) as [H1 H2]; [by apply phase_ok| |done|by eauto|].
    + simpl. unfold set_phase. by rewrite lookup_alter_eq, Ht.
    + by split.
  - split; [by apply phase_ok|]. apply follows_frame; eauto.
  - by apply terminal_ok.
  - split; [|apply follows_frame; eauto]. eapply service_ok_frame; [done..| |done| |by eauto]; [eauto|].
    intros y Hy. simpl. rewrite lookup_insert. case_decide; eauto.
Qed.

Lemma steps_ok w w' : service_ok w → rtc step w w' → service_ok w'.
Proof. intros Hok Hs. induction Hs as [|w w1 w' Hs _ IH]; [done|]. by apply IH, (step_ok w). Qed.
Lemma reachable_ok w : reachable w → service_ok w.
Proof. apply steps_ok, new_world_ok. Qed.

(** C4: Whatever calls, turns and sends interleave, a session's snapshot is what
    its log replays to, up to one cancellation at the end of the log that the
    snapshot did not take; at most one turn is open and it is the active one;
    and every event the snapshot took after the first was sent once or is about
    to be. *)
Theorem session_matches_log w id rt :
  reachable w → sessions w !! id = Some rt →
  let s := snapshot (control rt) in
  snap_wf s ∧
  ∃ taken refused, store w !! id = Some (taken ++ refused) ∧ replay (uninitialized id (snap_spec s)) taken = Ok s ∧
    (refused = [] ∨ ∃ e, refused = [e] ∧ refused_cancel s e) ∧
    sent rt ++ unsent id (tails w) ≡ₚ tail taken.
Proof.
  intros Hr%reachable_ok Hrt s. destruct (sessions_ok _ Hr _ _ Hrt) as (l & Hl & [Hlog Hwf _] & taken & Ht & Hp). split; [done|].
  destruct Ht as [[-> [_ Hrep]]|(e & -> & l' & e' & Heq & [_ Hrep] & Hc)].
  - exists taken, []. rewrite app_nil_r. auto.
  - apply app_inj_tail in Heq as [<- <-]. exists taken, [e]. split_and!; [done..|right; by exists e|done].
Qed.

(** ** Receipts and refused cancellations over time *)
Lemma section_receipts id ctl l ctl' l' es : Section id ctl l ctl' l' es → receipts ctl ⊆ receipts ctl'.
Proof. by destruct 1. Qed.

Lemma section_wedged id ctl l ctl' l' es : wedged id (snapshot ctl) l → Section id ctl l ctl' l' es → ctl' = ctl ∧ l' = l ∧ es = [].
Proof. intros Hw [|e ctl2 Hr|e Hr]; [done|by destruct (replays_not_wedged _ _ _ Hr Hw)..]. Qed.

(** What holds of a session and every section preserves, holds from then on. *)
Lemma follow_steps (P : ControlState → list ForgeEvent → Prop) id w w' rt l :
  (∀ ctl l ctl' l' es, P ctl l → Section id ctl l ctl' l' es → P ctl' l') →
  service_ok w → rtc step w w' → sessions w !! id = Some rt → store w !! id = Some l → P (control rt) l →
  ∃ rt' l', sessions w' !! id = Some rt' ∧ store w' !! id = Some l' ∧ P (control rt') l'.
Proof.
  intros HP Hok Hs. revert rt l. induction Hs as [|w w1 w' Hs _ IH]; intros rt l Hrt Hl Hp; [by exists rt, l|].
  destruct (step_ok _ _ Hok Hs) as [Hok1 Hf]. destruct (Hf _ _ _ Hrt Hl) as (rt1 & l1 & es & Hrt1 & Hl1 & Hsec).
  apply (IH Hok1 rt1 l1); [done..|]. by eapply HP.
Qed.

(** A command that was accepted is never carried out again: whatever happens
    in between, sending it once more gives the receipt of the first time and
    changes nothing. *)
Theorem accepted_once w w' id rt command receipt :
  reachable w → rtc step w w' → sessions w !! id = Some rt → receipts (control rt) !! command = Some receipt →
  ∃ rt', sessions w' !! id = Some rt' ∧
    (∀ c x now, command_id c = command → start_locked c x now (store w') (control rt') = (store w', control rt', Ok (receipt, None))) ∧
    (∀ c now, command_id c = command → cancel_locked c now (store w') (control rt') = (store w', control rt', Ok (receipt, None, None))).
Proof.
  intros Hr%reachable_ok Hs Hrt Hc. destruct (sessions_ok _ Hr _ _ Hrt) as (l & Hl & _).
  destruct (follow_steps (λ ctl _, receipts ctl !! command = Some receipt) id w w' rt l) as (rt' & l' & Hrt' & _ & Hrc); [|done..|].
  { intros ctl ? ctl' ? ? Hp Hsec. eapply lookup_weaken; [done|]. by eapply section_receipts. }
  exists rt'. split; [done|]. unfold start_locked, cancel_locked. split; intros; simplify_eq; by rewrite Hrc.
Qed.

(** Once a cancellation was refused by the snapshot the session is stuck: its
    state never changes again, so the turn stays open, and no new command is
    taken and the end of the turn cannot be recorded. *)
Theorem refused_cancellation_wedges w w' id rt l :
  reachable w → rtc step w w' → sessions w !! id = Some rt → store w !! id = Some l → wedged id (snapshot (control rt)) l →
  ∃ rt', sessions w' !! id = Some rt' ∧ snapshot (control rt') = snapshot (control rt) ∧
    (∀ c x now, session_id c = id → receipts (control rt') !! command_id c = None →
       ∃ err, start_locked c x now (store w') (control rt') = (store w', control rt', Err err)) ∧
    (∀ c now, session_id c = id → receipts (control rt') !! command_id c = None →
       ∃ err, cancel_locked c now (store w') (control rt') = (store w', control rt', Err err)) ∧
    (∀ t k now, ∃ err, record_terminal_event id t k now (store w') (control rt') = (store w', control rt', Err err)).
Proof.
  intros Hr%reachable_ok Hs Hrt Hl Hw.
  destruct (follow_steps (λ ctl l0, ctl = control rt ∧ l0 = l) id w w' rt l) as (rt' & l' & Hrt' & Hl' & Hctl & ->); [|done..|].
  { intros ctl l0 ctl' l1 es [-> ->] Hsec. by destruct (section_wedged _ _ _ _ _ _ Hw Hsec) as (-> & -> & _). }
  exists rt'. rewrite Hctl. assert (Hcm : ∀ e, ev_session e = id → ev_seq e = last_seq (snapshot (control rt)) +w 1 →
    ∃ err, commit e (store w') (snapshot (control rt)) = (store w', Err err)).
  { intros e Hid Hseq. destruct (commit_wedged id _ l e (store w') Hw Hl' Hid Hseq) as [n Hn]. eauto. }
  split_and!; [done..| | |].
  - intros c x now Hid Hn. unfold start_locked. rewrite Hn. destruct (and_then _ _); [|eauto]. cbv zeta.
    edestruct Hcm as [err ->]; [..|by exists err]; [done|done].
  - intros c now Hid Hn. unfold cancel_locked. rewrite Hn. cbv zeta. destruct (and_then _ _); [|eauto].
    edestruct Hcm as [err ->]; [..|by exists err]; [done|done].
  - intros t k now. unfold record_terminal_event. cbv zeta. edestruct Hcm as [err ->]; [..|by exists err]; [done|done].
Qed.

(** ** Subscriptions *)
Definition in_order (es : list ForgeEvent) : Prop := StronglySorted (λ a b, ev_seq a < ev_seq b) es.

Lemma recv_received e l last :
  recv (mk_subscription [] (Received e :: l) last) =
  if ev_seq e <=? last then recv (mk_subscription [] l last) else Some (Ok e, mk_subscription [] l (ev_seq e)).
Proof. done. Qed.
Lemma recv_all_S n s : recv_all (S n) s = match recv s with Some (Ok e, s) => e :: recv_all n s | _ => [] end.
Proof. done. Qed.

Lemma recv_all_live es n last :
  in_order es → (length es <= n)%nat →
  recv_all n (mk_subscription [] (Received <$> es) last) = filter (λ e, last < ev_seq e) es.
Proof.
  intros Hs. revert n last. induction Hs as [|e es Hs IH Hall]; intros n last Hn; [by destruct n|].
  destruct n as [|n]; simpl in Hn; [lia|]. rewrite filter_cons, fmap_cons, recv_all_S, recv_received. case_decide as Hd.
  - rewrite (proj2 (Z.leb_gt _ _)) by done. f_equal. rewrite IH by lia.
    clear -Hall Hd. induction Hall as [|x es Hx _ IHes]; [done|]. rewrite !filter_cons, !decide_True by lia. by rewrite IHes.
  - rewrite (proj2 (Z.leb_le _ _)), <- recv_all_S by lia. apply IH. lia.
Qed.

Lemma recv_all_replay rs l n last :
  recv_all (length rs + n) (mk_subscription rs l last) = rs ++ recv_all n (mk_subscription [] l (foldl (λ m e, Z.max m (ev_seq e)) last rs)).
Proof. revert last. induction rs as [|e rs IH]; intros last; simpl; [done|]. by rewrite IH. Qed.

(** The events of a log are numbered from 1. *)
Definition numbered (l : list ForgeEvent) : Prop := ∀ i e, l !! i = Some e → ev_seq e = Z.of_nat i + 1.

Lemma replay_numbered s l s' : replay s l = Ok s' → is_u64 (last_seq s) → last_seq s + Z.of_nat (length l) < two64 →
  ∀ i e, l !! i = Some e → ev_seq e = last_seq s + Z.of_nat i + 1.
Proof.
  revert s. induction l as [|e l IH]; intros s Hr Hu Hb i e'; [done|]. simpl in *.
  apply and_then_Ok in Hr as (s1 & Ha & Hr). apply apply_Ok in Ha as (_ & Hseq & s2 & _ & ->).
  rewrite u64_succ in Hseq by (done || lia).
  assert (Hl : last_seq (set_last_seq (ev_seq e) s2) = last_seq s + 1) by done.
  destruct i as [|i]; simpl; [intros [= <-]; lia|]. intros Hi.
  rewrite (IH (set_last_seq (ev_seq e) s2) Hr) with (i := i); rewrite ?Hl; [lia| |lia|done]. unfold is_u64 in *. lia.
Qed.

Lemma numbered_app_l l k : numbered (l ++ k) → numbered l.
Proof. intros Hn i a Hi. apply Hn. by apply lookup_app_l_Some. Qed.
Lemma numbered_last l e : numbered (l ++ [e]) → ev_seq e = Z.of_nat (length l) + 1.
Proof. intros Hn. apply Hn. by rewrite lookup_app_r, Nat.sub_diag by lia. Qed.

Lemma numbered_in_order l : numbered l → in_order l.
Proof.
  induction l as [|e l IH] using rev_ind; [constructor|]. intros Hn. apply StronglySorted_app. split_and!.
  - intros a b Ha Hb. apply list_elem_of_singleton in Hb as ->. apply list_elem_of_lookup_1 in Ha as [i Hi].
    pose proof (lookup_lt_Some _ _ _ Hi) as Hlt. rewrite (Hn i a), (Hn (length l) e); [lia| |by rewrite lookup_app_l].
    by rewrite lookup_app_r, Nat.sub_diag by lia.
  - by eapply IH, numbered_app_l.
  - repeat constructor.
Qed.

Lemma numbered_filter l after : numbered l → 0 <= after → filter (λ e, after < ev_seq e) l = drop (Z.to_nat after) l.
Proof.
  intros Hn Ha. induction l as [|e l IH] using rev_ind; [by rewrite drop_nil|].
  rewrite filter_app, IH by by eapply numbered_app_l.
  pose proof (numbered_last _ _ Hn) as He.
  rewrite filter_cons, filter_nil. case_decide as Hd.
  - rewrite drop_app_le by lia. done.
  - rewrite app_nil_r, !drop_ge; [done|rewrite length_app; simpl; lia|lia].
Qed.

Lemma max_seq_drop l m : numbered l → 0 <= m →
  foldl (λ m e, Z.max m (ev_seq e)) m (drop (Z.to_nat m) l) = Z.max m (Z.of_nat (length l)).
Proof.
  intros Hn Hm. induction l as [|e l IH] using rev_ind; [rewrite drop_nil; simpl; lia|].
  pose proof (numbered_last _ _ Hn) as He.
  rewrite length_app. simpl. destruct (decide (Z.to_nat m <= length l)%nat) as [Hle|Hgt].
  - rewrite drop_app_le, foldl_app, IH by (lia || by eapply numbered_app_l). simpl. lia.
  - rewrite drop_ge by (rewrite length_app; simpl; lia). simpl. lia.
Qed.

(** As long as the channel carries a session's events in the order of the
    log, a subscriber gets every event after the one it asked for, once and in
    order, whenever it subscribed between the load and the sending. *)
Theorem subscription_exact id s log st l k after n :
  replays id s log → Z.of_nat (length log) < two64 → st !! id = Some l → l `prefix_of` log → (k <= length l)%nat →
  0 <= after → (length log + length log <= n)%nat →
  recv_all n (subscribe st id after (Received <$> drop k log)) = drop (Z.to_nat after) log.
Proof.
  intros [_ Hr] Hb Hl [rest ->] Hk Ha Hn.
  assert (Hnum : numbered (l ++ rest)).
  { intros i e Hi. pose proof (replay_numbered _ _ _ Hr ltac:(by split) ltac:(done) i e Hi) as Hq. simpl in Hq. lia. }
  assert (Hnl : numbered l) by by eapply numbered_app_l.
  unfold subscribe, load. rewrite Hl. simpl default. rewrite numbered_filter by done.
  assert (Hlen : (length (drop (Z.to_nat after) l) <= length l)%nat) by (rewrite length_drop; lia).
  rewrite length_app in Hn. replace n with (length (drop (Z.to_nat after) l) + (n - length (drop (Z.to_nat after) l)))%nat by lia.
  rewrite recv_all_replay, max_seq_drop by done. set (m := Z.max after (Z.of_nat (length l))).
  assert (Hord : in_order (drop k (l ++ rest))).
  { pose proof (numbered_in_order _ Hnum) as Ho. rewrite <- (take_drop k (l ++ rest)) in Ho. by apply StronglySorted_app in Ho as (_ & _ & ?). }
  rewrite recv_all_live; [|done|rewrite length_drop, length_app; lia].
  assert (Hf : filter (λ e, m < ev_seq e) (drop k (l ++ rest)) = drop (Z.to_nat m) (l ++ rest)).
  { rewrite <- (numbered_filter (l ++ rest) m) by (done || lia). rewrite <- (take_drop k (l ++ rest)) at 2. rewrite filter_app.
    rewrite (numbered_filter (take k (l ++ rest))); [|by eapply numbered_app_l; rewrite take_drop|lia].
    rewrite (drop_ge (take k (l ++ rest))); [done|]. rewrite length_take. lia. }
  rewrite Hf. unfold m. destruct (decide (Z.to_nat after <= length l)%nat) as [Hle|Hgt].
  - rewrite Z.max_r by lia. rewrite Nat2Z.id, drop_app_length, drop_app_le by done. done.
  - rewrite Z.max_l by lia. by rewrite (drop_ge l) by lia.
Qed.

(** ** A service at work *)
Definition ses : SessionId := lit "s".
Definition a_spec : SessionSpec := mk_spec [] (lit "demo") (lit "demo") 0 0 (lit "off") OnRequest [] None.
Definition at_zero : Stamp := mk_stamp [] 0.
Definition runtime_of (w : World) : SessionRuntime := default (mk_runtime (mk_control (uninitialized ses a_spec) ∅ None) []) (sessions w !! ses).
Definition start_cmd (command turn : string) := new_command (lit command) ses (mk_start (lit turn) (lit "hello")).
Definition cancel_cmd (command turn : string) := new_command (lit command) ses (mk_cancel (lit turn)).

(** A session with a turn under way. *)
Definition created : World := do_create (new_command (lit "c0") ses (mk_create a_spec)) (Ok tt) at_zero new_world.
Definition pending : SessionRuntime * CommandReceipt :=
  default (runtime_of created, mk_receipt [] [] None 0) (creating created !! ses).
Definition inserted : World := do_insert ses pending.1 pending.2 created.
Definition running : World := do_start (start_cmd "c1" "t1") 1 at_zero (runtime_of inserted) inserted.
(** Cancelled twice, with a new command each time. *)
Definition cancelled_once : World := do_cancel (cancel_cmd "c2" "t1") at_zero (runtime_of running) running.
Definition cancelled_twice : World := do_cancel (cancel_cmd "c3" "t1") at_zero (runtime_of cancelled_once) cancelled_once.

Lemma runtime_known w : bool_decide (is_Some (sessions w !! ses)) = true → sessions w !! ses = Some (runtime_of w).
Proof. intros [rt Hrt]%bool_decide_eq_true. unfold runtime_of. by rewrite Hrt. Qed.

Lemma runtime_unique w rt : sessions w !! ses = Some rt → rt = runtime_of w.
Proof. intros Hrt. unfold runtime_of. by rewrite Hrt. Qed.

Lemma running_reachable : reachable running.
Proof.
  apply (rtc_r _ inserted); [apply (rtc_r _ created); [apply rtc_once|]|].
  - apply (step_create new_world (new_command (lit "c0") ses (mk_create a_spec)) (Ok tt) at_zero); vm_eq.
  - apply (step_insert created); vm_eq.
  - apply (step_start inserted (start_cmd "c1" "t1") 1 at_zero (runtime_of inserted)); [vm_eq|vm_eq|apply runtime_known; vm_eq].
Qed.

Lemma cancelled_steps : rtc step running cancelled_twice.
Proof.
  apply (rtc_r _ cancelled_once); [apply rtc_once|].
  - apply (step_cancel running (cancel_cmd "c2" "t1") at_zero); [vm_eq|apply runtime_known; vm_eq].
  - apply (step_cancel cancelled_once (cancel_cmd "c3" "t1") at_zero); [vm_eq|apply runtime_known; vm_eq].
Qed.

Lemma cancelled_reachable : reachable cancelled_twice.
Proof. unfold reachable. etrans; [apply running_reachable|apply cancelled_steps]. Qed.

Lemma session_matches_log_witness :
  let s := snapshot (control (runtime_of cancelled_twice)) in
  ∃ taken refused, store cancelled_twice !! ses = Some (taken ++ refused) ∧
    replay (uninitialized ses (snap_spec s)) taken = Ok s ∧ (refused = [] ∨ ∃ e, refused = [e] ∧ refused_cancel s e).
Proof.
  intros s. destruct (session_matches_log cancelled_twice ses (runtime_of cancelled_twice) cancelled_reachable) as
    (_ & taken & refused & Hl & Hr & Hcase & _); [apply runtime_known; vm_eq|].
  exists taken, refused. split; [exact Hl|split; [exact Hr|exact Hcase]].
Defined.

Definition first_receipt : CommandReceipt := mk_receipt (lit "c1") ses (Some (lit "t1")) 2.
Lemma accepted_once_witness :
  start_locked (start_cmd "c1" "t9") 7 at_zero (store cancelled_twice) (control (runtime_of cancelled_twice)) =
    (store cancelled_twice, control (runtime_of cancelled_twice), Ok (first_receipt, None)).
Proof.
  destruct (accepted_once running cancelled_twice ses (runtime_of running) (lit "c1") first_receipt running_reachable cancelled_steps)
    as (rt & Hrt & Hs & _); [apply runtime_known; vm_eq|vm_eq|].
  apply runtime_unique in Hrt as ->. by apply Hs.
Defined.

Definition log_of (w : World) : list ForgeEvent := default [] (store w !! ses).
Lemma refused_cancellation_wedges_witness :
  ∃ err, record_terminal_event ses (lit "t1") TurnCancelled at_zero (store cancelled_twice) (control (runtime_of cancelled_twice)) =
    (store cancelled_twice, control (runtime_of cancelled_twice), Err err).
Proof.
  destruct (refused_cancellation_wedges cancelled_twice cancelled_twice ses (runtime_of cancelled_twice) (log_of cancelled_twice)
    cancelled_reachable (rtc_refl _ _)) as (rt & Hrt & _ & _ & _ & Ht).
  - apply runtime_known; vm_eq.
  - vm_eq.
  - exists (take 3 (log_of cancelled_twice)), (new_event ses 4 (Some (lit "t1")) (Some (lit "c3")) TurnCancelRequested at_zero).
    split_and!; [vm_eq|split; [by vm_compute|vm_eq]|]. split; [vm_eq|split; [vm_eq|]].
    exists (lit "t1"), (mk_turn (lit "t1") (lit "hello") Cancelling None None). split_and!; [vm_eq..|done].
  - apply runtime_unique in Hrt as ->. apply Ht.
Defined.

(** The first effect of the [i]-th caller. *)
Definition do_effect (i : nat) (w : World) : World :=
  match tails w !! i with
  | Some (who, eff :: effs) => set_tails (take i (tails w) ++ (who, effs) :: drop (S i) (tails w)) (perform eff w)
  | _ => w
  end.
Lemma do_effect_steps i w : rtc step w (do_effect i w).
Proof.
  unfold do_effect. destruct (tails w !! i) as [[who [|eff effs]]|] eqn:E; [done| |done].
  apply rtc_once, step_effect. by rewrite take_drop_middle.
Qed.

Definition spawned : World := do_effect 0 (do_effect 0 running).
Definition task1 (p : Phase) : Task := mk_task ses (lit "t1") p.
Definition finishing : World :=
  set_tasks (<[1%nat := task1 (Finish (TurnText (lit "done")))]> (tasks spawned)) spawned.
(** The turn's end is in the log; the next turn starts before it is sent. *)
Definition ended : World :=
  do_terminal 1 (task1 (Finish (TurnText (lit "done")))) (TurnText (lit "done")) new_execution at_zero (runtime_of finishing) finishing.
Definition next_turn : World := do_start (start_cmd "c4" "t2") 2 at_zero (runtime_of ended) ended.
Definition late_end : World := do_effect 1 (do_effect 2 next_turn).

Lemma finishing_reachable : reachable finishing.
Proof.
  unfold reachable. etrans; [apply running_reachable|]. etrans; [apply (do_effect_steps 0)|]. etrans; [apply (do_effect_steps 0)|].
  fold spawned. assert (Hidle : idle 1 spawned).
  { intros effs Hin. assert (Ht : tails spawned = [(None, [])]) by vm_eq. rewrite Ht in Hin. by apply list_elem_of_singleton in Hin as [= _ ->]. }
  apply (rtc_l _ _ (set_tasks (set_phase 1 (Cleanup (TurnText (lit "done"))) (tasks spawned)) spawned)).
  { apply (step_agent_done spawned 1 (task1 InAgent)); [vm_eq|done|done]. }
  apply rtc_once. set (w := set_tasks _ spawned).
  assert (He : finishing = set_tasks (set_phase 1 (Finish (TurnText (lit "done"))) (tasks w)) w) by vm_eq. rewrite He.
  apply (step_idle w 1 (task1 (Cleanup (TurnText (lit "done")))) _ new_execution); [vm_eq|by left|done|vm_eq|vm_eq].
Qed.

Lemma late_end_reachable : reachable late_end.
Proof.
  unfold reachable. etrans; [apply finishing_reachable|]. apply (rtc_l _ _ ended).
  { apply (step_terminal finishing 1 (task1 (Finish (TurnText (lit "done")))) _ new_execution); [vm_eq|done|vm_eq|apply runtime_known; vm_eq]. }
  apply (rtc_l _ _ next_turn).
  { apply (step_start ended (start_cmd "c4" "t2") 2); [vm_eq|vm_eq|apply runtime_known; vm_eq]. }
  etrans; [apply (do_effect_steps 2)|apply (do_effect_steps 1)].
Qed.

(** Events are sent after the lock is released, so the end of a turn can reach
    the channel after the start of the next one, and a subscriber that waits for
    the first turn never gets its end, though the log has it. *)
Theorem late_event_is_lost :
  ∃ w rt e, reachable w ∧ sessions w !! ses = Some rt ∧ unsent ses (tails w) = [] ∧
    e ∈ log_of w ∧ ev_turn e = Some (lit "t1") ∧ kind e = TurnCompleted (lit "done") ∧
    ∀ n, e ∉ recv_all n (subscribe {[ ses := take 2 (log_of w) ]} ses 2 (Received <$> drop 1 (sent rt))).
Proof.
  exists late_end, (runtime_of late_end), (new_event ses 3 (Some (lit "t1")) None (TurnCompleted (lit "done")) at_zero).
  split_and!; [apply late_end_reachable|apply runtime_known; vm_eq|vm_eq| |done|done|].
  - apply (list_elem_of_lookup_2 _ 2). vm_eq.
  - set (next := new_event ses 4 (Some (lit "t2")) (Some (lit "c4")) (TurnStarted (lit "hello")) at_zero).
    assert (Hs : subscribe {[ ses := take 2 (log_of late_end) ]} ses 2 (Received <$> drop 1 (sent (runtime_of late_end)))
                 = mk_subscription [] (Received <$> [next; new_event ses 3 (Some (lit "t1")) None (TurnCompleted (lit "done")) at_zero]) 2) by vm_eq.
    rewrite Hs. intros [|[|n]]; [by intros ?%elem_of_nil| |]; simpl; by intros [?|?%elem_of_nil]%elem_of_cons.
Qed.

Lemma subscription_exact_witness :
  recv_all 6 (subscribe (store running) ses 1 (Received <$> drop 1 (log_of running))) = drop 1 (log_of running).
Proof.
  apply (subscription_exact ses (snapshot (control (runtime_of running))) (log_of running) (store running) (log_of running) 1 1 6).
  - split; [by vm_compute|vm_eq].
  - by vm_compute.
  - vm_eq.
  - done.
  - apply (bool_decide_unpack _). vm_compute. exact I.
  - done.
  - apply (bool_decide_unpack _). vm_compute. exact I.
Defined.
