(* ===== verification/Bench.v ===== *)
(** * Benchmark results

    The messages of the benchmark tool's actors ([messages.rs]) and its metrics
    aggregator ([metrics_aggregator.rs]): the statistics of a phase and the
    actor that keeps them. Instants and durations are in nanoseconds; a handler
    is given the instant at which it runs, and returns the new state with what
    it sends to the renderer. *)
From S2P Require Import Prelude Text Float.

(** ** Messages *)
(** src: crates/pulsing-bench/src/actors/messages.rs 9-34 BenchmarkConfig *)
Record BenchmarkConfig := mk_config {
  cfg_url : str; cfg_api_key : str; cfg_model_name : str; cfg_tokenizer_name : option str;
  cfg_max_vus : Z; cfg_duration_secs : Z; cfg_rate : option float; cfg_warmup_secs : Z;
  cfg_benchmark_kind : str; cfg_num_rates : Z; cfg_rates : option (list float) }.
(** src: crates/pulsing-bench/src/actors/messages.rs 37-51 BenchmarkConfig::default *)
Definition BenchmarkConfig_default : BenchmarkConfig :=
  mk_config (lit "http://localhost:8000") [] (lit "gpt2") None 128 120 None 30 (lit "throughput") 10 None.
(** src: crates/pulsing-bench/src/actors/messages.rs 124-131 SchedulerType *)
Inductive SchedulerType := ConstantVUs | ConstantArrivalRate.
#[global] Instance SchedulerType_eq_dec : EqDecision SchedulerType.
Proof. solve_decision. Defined.
(** src: crates/pulsing-bench/src/actors/messages.rs 171-189 RequestCompleted *)
Record RequestCompleted := mk_completed {
  rc_request_id : str; rc_success : bool; rc_error : option str; rc_ttft_ms : option float;
  rc_latency_ms : float; rc_generated_tokens : Z; rc_prompt_tokens : Z; rc_tpot_ms : option float;
  rc_token_times_ms : list float }.
Definition f_zero : float := S754_zero false.
Definition RequestCompleted_default : RequestCompleted := mk_completed [] false None None f_zero 0 0 None [].
(** src: crates/pulsing-bench/src/actors/messages.rs 210-215 RegisterRun *)
Record RegisterRun := mk_register { rr_run_id : str; rr_config : BenchmarkConfig }.
(** src: crates/pulsing-bench/src/actors/messages.rs 217-225 StartPhase *)
Record StartPhase := mk_start_phase {
  sp_run_id : str; sp_phase_id : str; sp_phase_name : str; sp_scheduler_type : SchedulerType; sp_target_rate : option float }.
(** src: crates/pulsing-bench/src/actors/messages.rs 227-232 EndPhase *)
Record EndPhase := mk_end_phase { ep_run_id : str; ep_phase_id : str }.
(** src: crates/pulsing-bench/src/actors/messages.rs 246-267 MetricsSnapshot *)
Record MetricsSnapshot := mk_snapshot {
  ms_phase_id : str; ms_phase_name : str; ms_progress_pct : float; ms_elapsed_secs : float;
  ms_successful : Z; ms_failed : Z; ms_request_rate : float;
  ms_avg_ttft : option float; ms_avg_tpot : option float; ms_ttft_std : option float; ms_tpot_std : option float;
  ms_avg_latency : option float; ms_p50 : option float; ms_p95 : option float; ms_p99 : option float;
  ms_input_throughput : option float; ms_output_throughput : option float; ms_total_throughput : option float }.
Definition MetricsSnapshot_default : MetricsSnapshot :=
  mk_snapshot [] [] f_zero f_zero 0 0 f_zero None None None None None None None None None None None.
(** src: crates/pulsing-bench/src/actors/messages.rs 280-286 PhaseReport *)
Record PhaseReport := mk_phase_report {
  pr_phase_id : str; pr_phase_name : str; pr_duration_secs : float; pr_metrics : MetricsSnapshot }.
(** src: crates/pulsing-bench/src/actors/messages.rs 269-278 BenchmarkReport *)
Record BenchmarkReport := mk_report {
  br_run_id : str; br_config : BenchmarkConfig; br_phases : list PhaseReport;
  br_start_time : str; br_end_time : str; br_total_duration_secs : float }.

(** ** The statistics of a phase *)
(** src: crates/pulsing-bench/src/actors/metrics_aggregator.rs 16-32 PhaseStats *)
Record PhaseStats := mk_stats {
  ps_phase_id : str; ps_phase_name : str; ps_scheduler_type : SchedulerType; ps_target_rate : option float;
  ps_start_time : option Z; ps_end_time : option Z;
  successful_requests : Z; failed_requests : Z; total_prompt_tokens : Z; total_generated_tokens : Z;
  ttft_values : list float; tpot_values : list float; latency_values : list float }.
(** src: crates/pulsing-bench/src/actors/metrics_aggregator.rs 35-49 PhaseStats::new *)
Definition PhaseStats_new (now : Z) (phase_id phase_name : str) (scheduler_type : SchedulerType) (target_rate : option float) : PhaseStats :=
  mk_stats phase_id phase_name scheduler_type target_rate (Some now) None 0 0 0 0 [] [] [].
Definition push_some (l : list float) (x : option float) : list float := match x with Some x => l ++ [x] | None => l end.
(** src: crates/pulsing-bench/src/actors/metrics_aggregator.rs 51-67 PhaseStats::add_result *)
Definition add_result (s : PhaseStats) (result : RequestCompleted) : PhaseStats :=
  if rc_success result then
    mk_stats (ps_phase_id s) (ps_phase_name s) (ps_scheduler_type s) (ps_target_rate s) (ps_start_time s) (ps_end_time s)
      (successful_requests s +w 1) (failed_requests s) (total_prompt_tokens s +w rc_prompt_tokens result)
      (total_generated_tokens s +w rc_generated_tokens result)
      (push_some (ttft_values s) (rc_ttft_ms result)) (push_some (tpot_values s) (rc_tpot_ms result))
      (latency_values s ++ [rc_latency_ms result])
  else
    mk_stats (ps_phase_id s) (ps_phase_name s) (ps_scheduler_type s) (ps_target_rate s) (ps_start_time s) (ps_end_time s)
      (successful_requests s) (failed_requests s +w 1) (total_prompt_tokens s) (total_generated_tokens s)
      (ttft_values s) (tpot_values s) (latency_values s).
(** [Instant::duration_since] saturates at zero.
    src: crates/pulsing-bench/src/actors/metrics_aggregator.rs 69-75 PhaseStats::duration *)
Definition duration (now : Z) (s : PhaseStats) : Z :=
  match ps_start_time s, ps_end_time s with
  | Some start, Some stop => saturating_sub stop start
  | Some start, None => saturating_sub now start
  | None, _ => 0
  end.
Definition f_positive (x : float) : bool := SFltb f_zero x.
Definition hundred : float := f64_of_Z 100.
(** src: crates/pulsing-bench/src/actors/metrics_aggregator.rs 77-85 PhaseStats::progress *)
Definition progress (now : Z) (s : PhaseStats) (expected_duration : Z) : float :=
  let elapsed := as_secs_f64 (duration now s) in
  let expected := as_secs_f64 expected_duration in
  if f_positive expected then f_min (f64_mul (f64_div elapsed expected) hundred) hundred else f_zero.
(** src: crates/pulsing-bench/src/actors/metrics_aggregator.rs 87-94 PhaseStats::request_rate *)
Definition request_rate (now : Z) (s : PhaseStats) : float :=
  let d := as_secs_f64 (duration now s) in
  if f_positive d then f64_div (f64_of_Z (successful_requests s)) d else f_zero.
(** src: crates/pulsing-bench/src/actors/metrics_aggregator.rs 96-103 PhaseStats::error_rate *)
Definition error_rate (s : PhaseStats) : float :=
  let total := successful_requests s +w failed_requests s in
  if 0 <? total then f64_mul (f64_div (f64_of_Z (failed_requests s)) (f64_of_Z total)) hundred else f_zero.
Definition len_f64 (l : list float) : float := f64_of_Z (Z.of_nat (length l)).
(** src: crates/pulsing-bench/src/actors/metrics_aggregator.rs 105-119 PhaseStats::avg_ttft_ms, avg_tpot_ms *)
Definition average (values : list float) : option float :=
  match values with [] => None | _ => Some (f64_div (f64_sum values) (len_f64 values)) end.
(** src: crates/pulsing-bench/src/actors/metrics_aggregator.rs 121-129 PhaseStats::std_dev *)
Definition std_dev (values : list float) : option float :=
  if Z.of_nat (length values) <? 2 then None
  else
    let mean := f64_div (f64_sum values) (len_f64 values) in
    let variance :=
      f64_div (f64_sum ((λ v, f64_powi (f64_sub v mean) 2) <$> values)) (f64_of_Z (Z.of_nat (length values) - 1)) in
    Some (f64_sqrt variance).
(** The rank of a percentile among [n] values. *)
Definition percentile_index (n : Z) (p : float) : Z :=
  Z.min (f_to_u64 (f64_round (f64_div (f64_mul p (f64_of_Z (n - 1))) hundred))) (n - 1).
(** [None] is the panic of the unwrapped comparison.
    src: crates/pulsing-bench/src/actors/metrics_aggregator.rs 139-147 PhaseStats::percentile *)
Definition percentile (values : list float) (p : float) : option (option float) :=
  match values with
  | [] => Some None
  | _ => sorted ← f_sort values;
         Some (sorted !! Z.to_nat (percentile_index (Z.of_nat (length sorted)) p))
  end.
(** src: crates/pulsing-bench/src/actors/metrics_aggregator.rs 169-185 PhaseStats::input_throughput, output_throughput *)
Definition throughput (now : Z) (s : PhaseStats) (tokens : Z) : option float :=
  let d := as_secs_f64 (duration now s) in
  if f_positive d && (0 <? tokens) then Some (f64_div (f64_of_Z tokens) d) else None.
(** src: crates/pulsing-bench/src/actors/metrics_aggregator.rs 187-195 PhaseStats::total_throughput *)
Definition total_throughput (now : Z) (s : PhaseStats) : option float :=
  let input := default f_zero (throughput now s (total_prompt_tokens s)) in
  let output := default f_zero (throughput now s (total_generated_tokens s)) in
  if f_positive input || f_positive output then Some (f64_add input output) else None.
(** src: crates/pulsing-bench/src/actors/metrics_aggregator.rs 149-167 PhaseStats::avg_latency_ms, p50_latency_ms, p95_latency_ms, p99_latency_ms *)
Definition latency_percentiles (s : PhaseStats) : option (option float * option float * option float) :=
  p50 ← percentile (latency_values s) (f64_of_Z 50);
  p95 ← percentile (latency_values s) (f64_of_Z 95);
  p99 ← percentile (latency_values s) (f64_of_Z 99);
  Some (p50, p95, p99).
(** src: crates/pulsing-bench/src/actors/metrics_aggregator.rs 197-219 PhaseStats::to_metrics *)
Definition to_metrics (now : Z) (s : PhaseStats) : option MetricsSnapshot :=
  '(p50, p95, p99) ← latency_percentiles s;
  Some (mk_snapshot (ps_phase_id s) (ps_phase_name s) hundred (as_secs_f64 (duration now s))
    (successful_requests s) (failed_requests s) (request_rate now s)
    (average (ttft_values s)) (average (tpot_values s)) (std_dev (ttft_values s)) (std_dev (tpot_values s))
    (average (latency_values s)) p50 p95 p99
    (throughput now s (total_prompt_tokens s)) (throughput now s (total_generated_tokens s)) (total_throughput now s)).

(** ** What is displayed *)
(** src: crates/pulsing-bench/src/actors/metrics_aggregator.rs 249-265 PhaseDisplayData *)
Record PhaseDisplayData := mk_display {
  pd_phase_id : str; pd_phase_name : str; pd_is_completed : bool; pd_progress_pct : float;
  pd_error_rate : float; pd_request_rate : float;
  pd_avg_ttft : option float; pd_ttft_std : option float; pd_avg_tpot : option float; pd_tpot_std : option float;
  pd_input_throughput : option float; pd_output_throughput : option float; pd_total_throughput : option float }.
(** src: crates/pulsing-bench/src/actors/metrics_aggregator.rs 221-246 PhaseStats::to_display_snapshot *)
Definition to_display_snapshot (now : Z) (expected_duration : Z) (s : PhaseStats) : PhaseDisplayData :=
  let is_completed := match ps_end_time s with Some _ => true | None => false end in
  mk_display (ps_phase_id s) (ps_phase_name s) is_completed
    (if is_completed then hundred else progress now s expected_duration)
    (error_rate s) (request_rate now s)
    (average (ttft_values s)) (std_dev (ttft_values s)) (average (tpot_values s)) (std_dev (tpot_values s))
    (throughput now s (total_prompt_tokens s)) (throughput now s (total_generated_tokens s)) (total_throughput now s).
(** src: crates/pulsing-bench/src/actors/metrics_aggregator.rs 276-282 DisplayMessage *)
Record DisplayMessage := mk_message { dm_message : str; dm_timestamp : str; dm_level : str }.
(** src: crates/pulsing-bench/src/actors/metrics_aggregator.rs 267-274 DisplayUpdate *)
Record DisplayUpdate := mk_update {
  du_config : option BenchmarkConfig; du_completed : list PhaseDisplayData;
  du_current : option PhaseDisplayData; du_messages : list DisplayMessage }.
(** What the renderer is sent.
    src: crates/pulsing-bench/src/actors/metrics_aggregator.rs 497-501 FinalReport *)
Inductive ToRenderer := Display (u : DisplayUpdate) | FinalReport (r : BenchmarkReport).

(** ** The aggregator *)
(** The renderer is there or not; which one it is does not matter.
    src: crates/pulsing-bench/src/actors/metrics_aggregator.rs 284-306 MetricsAggregatorActor *)
Record MetricsAggregatorActor := mk_aggregator {
  agg_run_id : option str; agg_config : option BenchmarkConfig; agg_start_time : option Z;
  current_phase : option PhaseStats; completed_phases : list PhaseStats; renderer_ref : bool;
  refresh_interval : Z; last_display : Z; agg_messages : list DisplayMessage; expected_duration : Z }.
Definition millis (n : Z) : Z := n * 1000000.
Definition secs (n : Z) : Z := n * nanos_per_sec.
(** src: crates/pulsing-bench/src/actors/metrics_aggregator.rs 309-327 MetricsAggregatorActor::new, with_renderer *)
Definition MetricsAggregatorActor_new (now : Z) (with_renderer : bool) : MetricsAggregatorActor :=
  mk_aggregator None None None None [] with_renderer (millis 500) now [] (secs 60).
(** src: crates/pulsing-bench/src/actors/metrics_aggregator.rs 329-339 MetricsAggregatorActor::add_message *)
Definition add_message (clock : str) (messages : list DisplayMessage) (message : str) : list DisplayMessage :=
  let messages := messages ++ [mk_message message clock (lit "INFO")] in
  if 50 <? Z.of_nat (length messages) then drop 1 messages else messages.
(** src: crates/pulsing-bench/src/actors/metrics_aggregator.rs 415-433 MetricsAggregatorActor::build_display_update *)
Definition build_display_update (now : Z) (a : MetricsAggregatorActor) : DisplayUpdate :=
  mk_update (agg_config a) (to_display_snapshot now (expected_duration a) <$> completed_phases a)
    (to_display_snapshot now (expected_duration a) <$> current_phase a) (agg_messages a).
(** src: crates/pulsing-bench/src/actors/metrics_aggregator.rs 404-413 MetricsAggregatorActor::send_display_update *)
Definition send_display_update (now : Z) (a : MetricsAggregatorActor) : list ToRenderer :=
  if renderer_ref a then [Display (build_display_update now a)] else [].
(** src: crates/pulsing-bench/src/actors/metrics_aggregator.rs 341-352 MetricsAggregatorActor::register_run *)
Definition register_run (now : Z) (a : MetricsAggregatorActor) (r : RegisterRun) : MetricsAggregatorActor * list ToRenderer :=
  let a' := mk_aggregator (Some (rr_run_id r)) (Some (rr_config r)) (Some now) None [] (renderer_ref a)
              (refresh_interval a) (last_display a) [] (secs (cfg_duration_secs (rr_config r))) in
  (a', send_display_update now a').
Definition end_at (now : Z) (s : PhaseStats) : PhaseStats :=
  mk_stats (ps_phase_id s) (ps_phase_name s) (ps_scheduler_type s) (ps_target_rate s) (ps_start_time s) (Some now)
    (successful_requests s) (failed_requests s) (total_prompt_tokens s) (total_generated_tokens s)
    (ttft_values s) (tpot_values s) (latency_values s).
Definition with_phases (a : MetricsAggregatorActor) (current : option PhaseStats) (completed : list PhaseStats)
    (messages : list DisplayMessage) : MetricsAggregatorActor :=
  mk_aggregator (agg_run_id a) (agg_config a) (agg_start_time a) current completed (renderer_ref a)
    (refresh_interval a) (last_display a) messages (expected_duration a).
(** src: crates/pulsing-bench/src/actors/metrics_aggregator.rs 354-371 MetricsAggregatorActor::start_phase *)
Definition start_phase (now : Z) (clock : str) (a : MetricsAggregatorActor) (phase : StartPhase) : MetricsAggregatorActor * list ToRenderer :=
  let completed := completed_phases a ++ option_list (end_at now <$> current_phase a) in
  let stats := PhaseStats_new now (sp_phase_id phase) (sp_phase_name phase) (sp_scheduler_type phase) (sp_target_rate phase) in
  let messages := add_message clock (agg_messages a) (lit "Starting phase: " ++ sp_phase_name phase) in
  let a' := with_phases a (Some stats) completed messages in
  (a', send_display_update now a').
(** src: crates/pulsing-bench/src/actors/metrics_aggregator.rs 373-388 MetricsAggregatorActor::end_phase *)
Definition end_phase (now : Z) (clock : str) (a : MetricsAggregatorActor) (_ : EndPhase) : MetricsAggregatorActor * list ToRenderer :=
  let a' :=
    match current_phase a with
    | Some current =>
        let current := end_at now current in
        let text := lit "Phase " ++ ps_phase_name current ++ lit " completed: " ++ display_u128 (successful_requests current)
                      ++ lit " requests at " ++ display_fixed 2 (request_rate now current) ++ lit " req/s" in
        with_phases a None (completed_phases a ++ [current]) (add_message clock (agg_messages a) text)
    | None => a
    end in
  (a', send_display_update now a').
(** src: crates/pulsing-bench/src/actors/metrics_aggregator.rs 390-402 MetricsAggregatorActor::add_result *)
Definition agg_add_result (now : Z) (a : MetricsAggregatorActor) (result : RequestCompleted) : MetricsAggregatorActor * list ToRenderer :=
  match current_phase a with
  | Some phase =>
      let a' := with_phases a (Some (add_result phase result)) (completed_phases a) (agg_messages a) in
      if refresh_interval a <=? saturating_sub now (last_display a) then
        (mk_aggregator (agg_run_id a') (agg_config a') (agg_start_time a') (current_phase a') (completed_phases a')
           (renderer_ref a') (refresh_interval a') now (agg_messages a') (expected_duration a'),
         send_display_update now a')
      else (a', [])
  | None => (a, [])
  end.
(** src: crates/pulsing-bench/src/actors/metrics_aggregator.rs 435-445 MetricsAggregatorActor::get_metrics *)
Definition get_metrics (now : Z) (a : MetricsAggregatorActor) : option MetricsSnapshot :=
  match current_phase a with
  | Some p => to_metrics now p
  | None => match last (completed_phases a) with Some p => to_metrics now p | None => Some MetricsSnapshot_default end
  end.
Definition phase_report (now : Z) (p : PhaseStats) : option PhaseReport :=
  m ← to_metrics now p; Some (mk_phase_report (ps_phase_id p) (ps_phase_name p) (as_secs_f64 (duration now p)) m).
(** Both times of the report are the time at which it is made.
    src: crates/pulsing-bench/src/actors/metrics_aggregator.rs 447-472 MetricsAggregatorActor::get_report *)
Definition get_report (now : Z) (clock : str) (a : MetricsAggregatorActor) : option BenchmarkReport :=
  phases ← mapM (phase_report now) (completed_phases a);
  Some (mk_report (default [] (agg_run_id a)) (default BenchmarkConfig_default (agg_config a)) phases clock clock
    (match agg_start_time a with Some t => as_secs_f64 (saturating_sub now t) | None => f_zero end)).
(** src: crates/pulsing-bench/src/actors/metrics_aggregator.rs 474-488 MetricsAggregatorActor::finalize *)
Definition finalize (now : Z) (clock : str) (a : MetricsAggregatorActor) : option (list ToRenderer) :=
  if renderer_ref a then r ← get_report now clock a; Some [Display (build_display_update now a); FinalReport r] else Some [].

(** What the actor is sent; any other type of message is an error that
    changes nothing. *)
Inductive AggMessage :=
  | MRegisterRun (r : RegisterRun)
  | MStartPhase (p : StartPhase)
  | MEndPhase (e : EndPhase)
  | MRequestCompleted (r : RequestCompleted)
  | MGetMetrics
  | MGetReport.
Inductive AggReply := AckOk | Metrics (m : MetricsSnapshot) | Report (r : BenchmarkReport).
(** [None] is a panic of the handler.
    src: crates/pulsing-bench/src/actors/metrics_aggregator.rs 516-559 MetricsAggregatorActor::receive *)
Definition agg_receive (now : Z) (clock : str) (a : MetricsAggregatorActor) (msg : AggMessage)
    : option (MetricsAggregatorActor * list ToRenderer * AggReply) :=
  match msg with
  | MRegisterRun r => Some (register_run now a r, AckOk)
  | MStartPhase p => Some (start_phase now clock a p, AckOk)
  | MEndPhase e => Some (end_phase now clock a e, AckOk)
  | MRequestCompleted r => Some (agg_add_result now a r, AckOk)
  | MGetMetrics => m ← get_metrics now a; Some (a, [], Metrics m)
  | MGetReport => r ← get_report now clock a; Some (a, [], Report r)
  end.

(** ** Properties of the benchmark's statistics *)
(** ** What the log of messages says *)
(** Each phase that was started since the run was registered, with the results
    that came while it was open. *)
Definition Attributed : Type := StartPhase * list RequestCompleted.
Record Attribution := mk_attribution { closed : list Attributed; opened : option Attributed }.
Definition close (t : Attribution) : list Attributed := closed t ++ option_list (opened t).
Definition attribute1 (t : Attribution) (m : AggMessage) : Attribution :=
  match m with
  | MRegisterRun _ => mk_attribution [] None
  | MStartPhase p => mk_attribution (close t) (Some (p, []))
  | MEndPhase _ => mk_attribution (close t) None
  | MRequestCompleted r => mk_attribution (closed t) ((λ q, (q.1, q.2 ++ [r])) <$> opened t)
  | _ => t
  end.
Definition attribute (ms : list AggMessage) : Attribution := foldl attribute1 (mk_attribution [] None) ms.

(** The figures a list of results comes to. *)
Definition succeeded (rs : list RequestCompleted) : list RequestCompleted := filter (λ r, rc_success r = true) rs.
Definition failed (rs : list RequestCompleted) : list RequestCompleted := filter (λ r, rc_success r = false) rs.
Definition total (f : RequestCompleted → Z) (rs : list RequestCompleted) : Z := foldr (λ r n, f r + n) 0 rs.
Record summarises (q : Attributed) (s : PhaseStats) : Prop := {
  sum_id : ps_phase_id s = sp_phase_id q.1;
  sum_name : ps_phase_name s = sp_phase_name q.1;
  sum_ok : successful_requests s = u64 (Z.of_nat (length (succeeded q.2)));
  sum_failed : failed_requests s = u64 (Z.of_nat (length (failed q.2)));
  sum_prompt : total_prompt_tokens s = u64 (total rc_prompt_tokens (succeeded q.2));
  sum_generated : total_generated_tokens s = u64 (total rc_generated_tokens (succeeded q.2));
  sum_ttft : ttft_values s = omap rc_ttft_ms (succeeded q.2);
  sum_tpot : tpot_values s = omap rc_tpot_ms (succeeded q.2);
  sum_latency : latency_values s = rc_latency_ms <$> succeeded q.2
}.

(** A message with the time at which it is handled. *)
Definition Handled : Type := Z * str * AggMessage.
Fixpoint agg_run (a : MetricsAggregatorActor) (ms : list Handled) : option MetricsAggregatorActor :=
  match ms with
  | [] => Some a
  | (now, clock, m) :: ms => '(a', _, _) ← agg_receive now clock a m; agg_run a' ms
  end.

Lemma total_app f l l' : total f (l ++ l') = total f l + total f l'.
Proof. induction l as [|r l IH]; simpl; [done|]. rewrite IH. lia. Qed.
Lemma u64_add_l a b : u64 a +w b = u64 (a + b).
Proof. unfold u64_add, u64. by rewrite Zplus_mod_idemp_l. Qed.
Lemma push_some_omap l x : push_some l x = l ++ option_list x.
Proof. destruct x; [done|]. by rewrite app_nil_r. Qed.
Lemma succeeded_snoc rs r : succeeded (rs ++ [r]) = succeeded rs ++ (if rc_success r then [r] else []).
Proof. unfold succeeded. rewrite filter_app, filter_cons, filter_nil. destruct (rc_success r); by repeat case_decide. Qed.
Lemma failed_snoc rs r : failed (rs ++ [r]) = failed rs ++ (if rc_success r then [] else [r]).
Proof. unfold failed. rewrite filter_app, filter_cons, filter_nil. destruct (rc_success r); by repeat case_decide. Qed.

Lemma add_result_summarises q s r : summarises q s → summarises (q.1, q.2 ++ [r]) (add_result s r).
Proof.
  intros []. unfold add_result.
  destruct (rc_success r) eqn:Hr; split; simpl; rewrite ?succeeded_snoc, ?failed_snoc, ?Hr, ?app_nil_r; try done;
    rewrite ?length_app, ?total_app, ?omap_app, ?fmap_app, ?push_some_omap; simpl.
  all: try (match goal with H : ?x = u64 _ |- ?x +w _ = _ => rewrite H, u64_add_l; f_equal; lia end).
  all: match goal with H : ?x = _ |- ?x ++ _ = _ => rewrite H; f_equal; by destruct (_ r) end.
Qed.

(** The aggregator's phases are the attributed ones. *)
Record accounts (t : Attribution) (a : MetricsAggregatorActor) : Prop := {
  acc_closed : Forall2 summarises (closed t) (completed_phases a);
  acc_open : option_Forall2 summarises (opened t) (current_phase a);
  acc_ended : Forall (λ s, is_Some (ps_end_time s)) (completed_phases a);
  acc_running : ∀ s, current_phase a = Some s → ps_end_time s = None;
  acc_messages : (length (agg_messages a) <= 50)%nat;
  acc_numbers : Forall (λ s, numbers (latency_values s)) (completed_phases a ++ option_list (current_phase a))
}.

Lemma end_at_summarises now q s : summarises q s → summarises q (end_at now s).
Proof. by intros []. Qed.
Lemma new_summarises now p :
  summarises (p, []) (PhaseStats_new now (sp_phase_id p) (sp_phase_name p) (sp_scheduler_type p) (sp_target_rate p)).
Proof. done. Qed.
Lemma add_message_length clock ms m : (length ms <= 50)%nat → (length (add_message clock ms m) <= 50)%nat.
Proof. intros H. unfold add_message. rewrite length_app. destruct (Z.ltb_spec 50 (Z.of_nat (length ms + length [mk_message m clock (lit "INFO")]))); rewrite ?length_drop, length_app; simpl in *; lia. Qed.
Lemma close_phases now t a :
  accounts t a → Forall2 summarises (close t) (completed_phases a ++ option_list (end_at now <$> current_phase a)) ∧
  Forall (λ s, is_Some (ps_end_time s)) (completed_phases a ++ option_list (end_at now <$> current_phase a)) ∧
  Forall (λ s, numbers (latency_values s)) (completed_phases a ++ option_list (end_at now <$> current_phase a)).
Proof.
  intros [Hc Ho He _ _ Hn]. unfold close. split_and!.
  - apply Forall2_app; [done|]. destruct Ho; constructor; [by apply end_at_summarises|done].
  - apply Forall_app. split; [done|]. destruct Ho; repeat constructor. eexists; done.
  - destruct (current_phase a) as [s|]; [|done]. apply Forall_app in Hn as [Hn1 Hn2]. apply Forall_app. split; [done|].
    simpl in Hn2. rewrite Forall_singleton in Hn2. simpl. by apply Forall_singleton.
Qed.

Definition clean (m : AggMessage) : Prop :=
  match m with MRequestCompleted r => rc_success r = true → is_nan (rc_latency_ms r) = false | _ => True end.

Lemma percentile_some values p : numbers values → ∃ v, percentile values p = Some v.
Proof.
  intros H. unfold percentile. destruct values as [|x l]; [by eexists|].
  destruct (f_sort_numbers _ H) as [-> _]. by eexists.
Qed.
Lemma to_metrics_some now s : numbers (latency_values s) → ∃ m, to_metrics now s = Some m.
Proof.
  intros H. unfold to_metrics, latency_percentiles.
  destruct (percentile_some _ (f64_of_Z 50) H) as [p50 ->]. destruct (percentile_some _ (f64_of_Z 95) H) as [p95 ->].
  destruct (percentile_some _ (f64_of_Z 99) H) as [p99 ->]. by eexists.
Qed.
Lemma get_metrics_some now a :
  Forall (λ s, numbers (latency_values s)) (completed_phases a ++ option_list (current_phase a)) → ∃ m, get_metrics now a = Some m.
Proof.
  intros H. unfold get_metrics. rewrite Forall_forall in H. destruct (current_phase a) as [s|].
  - apply to_metrics_some, H, elem_of_app. right. apply list_elem_of_here.
  - destruct (last (completed_phases a)) as [s|] eqn:Hlast; [|by eexists].
    apply to_metrics_some, H, elem_of_app. left. by apply last_Some_elem_of.
Qed.
Lemma get_report_some now clock a : Forall (λ s, numbers (latency_values s)) (completed_phases a) → ∃ r, get_report now clock a = Some r.
Proof.
  intros H. unfold get_report. assert (∃ l, mapM (phase_report now) (completed_phases a) = Some l) as [l ->]; [|by eexists].
  induction H as [|s l Hs _ [l' IH]]; [by eexists|]. simpl. destruct (to_metrics_some now s Hs) as [m Hm].
  assert (phase_report now s = Some (mk_phase_report (ps_phase_id s) (ps_phase_name s) (as_secs_f64 (duration now s)) m)) as ->
    by (unfold phase_report; by rewrite Hm).
  simpl. rewrite IH. by eexists.
Qed.

Lemma end_accounts now t a (log : list DisplayMessage → str → list DisplayMessage) text :
  accounts t a → (∀ ms m, (length ms <= 50)%nat → (length (log ms m) <= 50)%nat) →
  accounts (mk_attribution (close t) None)
    match current_phase a with
    | Some s => with_phases a None (completed_phases a ++ [end_at now s]) (log (agg_messages a) (text (end_at now s)))
    | None => a
    end.
Proof.
  intros Ha Hlog. destruct (close_phases now t a Ha) as (Hclose & Hended & Hnum). destruct Ha as [Hc Ho He Hr Hl Hn].
  destruct (current_phase a) as [s|] eqn:Hs.
  - split; simpl; rewrite ?app_nil_r; first [done|by apply Hlog|constructor].
  - simpl in *. rewrite app_nil_r in *. split; simpl; rewrite ?Hs; simpl; rewrite ?app_nil_r; first [done|by apply Hlog|constructor].
Qed.

Lemma receive_accounts now clock t a m :
  clean m → accounts t a → ∃ a' out reply, agg_receive now clock a m = Some (a', out, reply) ∧ accounts (attribute1 t m) a'.
Proof.
  intros Hm Ha. destruct (close_phases now t a Ha) as (Hclose & Hended & Hnum). pose proof Ha as Hacc. destruct Ha as [Hc Ho He Hr Hl Hn].
  destruct m as [r|p|e|r| |]; simpl.
  - do 3 eexists. split; [reflexivity|]. split; simpl; repeat constructor || done.
  - do 3 eexists. split; [reflexivity|]. split; simpl; try done.
    + constructor. apply new_summarises.
    + by intros s [= <-].
    + by apply add_message_length.
    + apply Forall_app. split; [done|repeat constructor].
  - do 3 eexists. split; [reflexivity|]. apply (end_accounts now t a (add_message clock) (λ current, lit "Phase " ++ ps_phase_name current ++ lit " completed: " ++ display_u128 (successful_requests current)
                      ++ lit " requests at " ++ display_fixed 2 (request_rate now current) ++ lit " req/s")); [done|]. intros ms m. apply add_message_length.
  - unfold agg_add_result. destruct (current_phase a) as [s|] eqn:Hs.
    + inversion Ho as [q s' Hq Hq1 Hq2|]; subst s'.
      assert (Hn' : Forall (λ s, numbers (latency_values s)) (completed_phases a ++ [add_result s r])).
      { apply Forall_app in Hn as [Hn1 Hn2]. apply Forall_app. split; [done|]. simpl in Hn2. rewrite Forall_singleton in Hn2.
        apply Forall_singleton. unfold add_result. destruct (rc_success r) eqn:Hok; [|done]. simpl.
        apply Forall_app. split; [done|]. apply Forall_singleton. by apply Hm. }
      assert (He' : ps_end_time (add_result s r) = None) by (unfold add_result; destruct (rc_success r); simpl; by apply Hr).
      destruct (refresh_interval a <=? _); (do 3 eexists; split; [reflexivity|]); split; simpl; try done;
        try (constructor; by apply add_result_summarises); by intros s' [= <-].
    + do 3 eexists. split; [reflexivity|]. destruct (opened t); inversion Ho. split; simpl; rewrite ?Hs; by first [done|constructor].
  - destruct (get_metrics_some now a Hn) as [r ->]. by do 3 eexists.
  - apply Forall_app in Hn as [Hn _]. destruct (get_report_some now clock a Hn) as [r ->]. by do 3 eexists.
Qed.

Lemma run_accounts ms t a :
  Forall clean ms.*2 → accounts t a → ∃ a', agg_run a ms = Some a' ∧ accounts (foldl attribute1 t ms.*2) a'.
Proof.
  revert t a. induction ms as [|[[now clock] m] ms IH]; intros t a Hc Ha; [by eexists|].
  apply Forall_cons in Hc as [Hm Hc]. destruct (receive_accounts now clock t a m Hm Ha) as (a' & out & reply & Heq & Ha').
  simpl. rewrite Heq. by apply IH.
Qed.
Lemma new_accounts now r : accounts (mk_attribution [] None) (MetricsAggregatorActor_new now r).
Proof. split; simpl; first [done|lia|by constructor]. Qed.

(** C33: The aggregator counts every result once, in the phase that was open
    when it came: whatever messages it handles, its handlers do not panic as
    long as latencies are numbers, its phases are those that were started since
    the run was registered, each with the counts, token totals and values of
    just the results that came while it was open; all but the open one have
    ended, and the log has at most fifty lines. *)
Theorem results_are_attributed (t0 : Z) (renderer : bool) (ms : list Handled) :
  Forall clean ms.*2 →
  ∃ a, agg_run (MetricsAggregatorActor_new t0 renderer) ms = Some a ∧
    Forall2 summarises (closed (attribute ms.*2)) (completed_phases a) ∧
    option_Forall2 summarises (opened (attribute ms.*2)) (current_phase a) ∧
    Forall (λ s, is_Some (ps_end_time s)) (completed_phases a) ∧
    (length (agg_messages a) <= 50)%nat.
Proof.
  intros Hc. destruct (run_accounts ms _ _ Hc (new_accounts t0 renderer)) as (a & Hrun & [H1 H2 H3 _ H5 _]).
  exists a. by split_and!.
Qed.

(** ** Percentiles *)
Definition at_most (v : float) (l : list float) : list float := filter (λ x, SFleb x v = true) l.
Definition at_least (v : float) (l : list float) : list float := filter (λ x, SFleb v x = true) l.

Lemma percentile_index_range n p : 0 < n → 0 <= percentile_index n p < n.
Proof.
  intros Hn. unfold percentile_index. enough (0 <= f_to_u64 (f64_round (f64_div (f64_mul p (f64_of_Z (n - 1))) hundred))) by lia.
  unfold f_to_u64. destruct (f64_round _) as [|[]| |[] m e]; try lia; try done. unfold magnitude. case_match; try done.
  - apply Z.min_glb; [|done]. apply Z.mul_nonneg_nonneg; [lia|]. apply Z.pow_nonneg. lia.
  - apply Z.min_glb; [|done]. apply Z.div_pos; [lia|]. apply Z.pow_pos_nonneg; lia.
Qed.

Lemma ascending_below l k v :
  numbers l → ascending l → l !! k = Some v → Forall (λ x, SFleb x v = true) (take (S k) l) ∧ Forall (λ x, SFleb v x = true) (drop k l).
Proof.
  revert k. induction l as [|y l IH]; intros k Hn Hs Hk; [done|]. apply Forall_cons in Hn as [Hy Hn].
  apply StronglySorted_inv in Hs as [Hs Hyl]. destruct k as [|k]; simpl in *.
  - injection Hk as ->. split; [constructor; [by apply SFleb_refl|constructor]|]. constructor; [by apply SFleb_refl|done].
  - destruct (IH k Hn Hs Hk) as [H1 H2]. split; [|done]. constructor; [|done].
    rewrite Forall_forall in Hyl. apply Hyl. by apply list_elem_of_lookup_2 in Hk.
Qed.
Lemma filter_length_ge {A} (P : A → Prop) `{∀ x, Decision (P x)} (l1 l2 : list A) :
  Forall P l1 → (length l1 <= length (filter P (l1 ++ l2)))%nat.
Proof.
  intros H1. rewrite filter_app, length_app. enough (filter P l1 = l1) as -> by lia.
  induction H1 as [|x l Hx _ IH]; [done|]. rewrite filter_cons_True by done. by rewrite IH.
Qed.

(** A percentile is an order statistic: of values that are numbers, it is
    one of them, it is no smaller than [rank + 1] of the [n] values and no
    larger than [n - rank] of them, where the rank is the rounded share of
    [n - 1], which is always below [n]. *)
Theorem percentile_is_rank (values : list float) (p : float) :
  numbers values → values ≠ [] →
  let n := Z.of_nat (length values) in
  let rank := percentile_index n p in
  0 <= rank < n ∧
  ∃ v, percentile values p = Some (Some v) ∧ v ∈ values ∧
    rank + 1 <= Z.of_nat (length (at_most v values)) ∧ n - rank <= Z.of_nat (length (at_least v values)).
Proof.
  intros Hn Hne n rank. assert (0 < n) by (destruct values; simpl in *; [done|lia]).
  assert (Hr : 0 <= rank < n) by by apply percentile_index_range. split; [done|].
  destruct (f_sort_numbers values Hn) as [Hsort Hasc]. set (l := foldr f_insert [] values) in *.
  assert (Hp : l ≡ₚ values) by apply sorted_perm. assert (Hlen : length l = length values) by by rewrite Hp.
  destruct (lookup_lt_is_Some_2 l (Z.to_nat rank)) as [v Hv]; [lia|].
  destruct (ascending_below l (Z.to_nat rank) v) as [Hlo Hhi]; [by rewrite Hp|done|done|].
  exists v. split_and!.
  - unfold percentile. destruct values; [done|]. rewrite Hsort. simpl. fold l. rewrite Hlen. by f_equal.
  - rewrite <- Hp. by apply list_elem_of_lookup_2 in Hv.
  - unfold at_most. rewrite <- Hp, <- (take_drop (S (Z.to_nat rank)) l).
    pose proof (filter_length_ge _ _ (drop (S (Z.to_nat rank)) l) Hlo) as Hk. rewrite length_take in Hk. lia.
  - unfold at_least. rewrite <- Hp, <- (take_drop (Z.to_nat rank) l), Permutation_app_comm.
    pose proof (filter_length_ge _ _ (take (Z.to_nat rank) l) Hhi) as Hk. rewrite length_drop in Hk. lia.
Qed.


(** ** Witnesses *)
Definition sample_result (ok : bool) (latency : Z) : RequestCompleted :=
  mk_completed (lit "req-0") ok None None (f64_of_Z latency) 50 10 None [].
Definition sample_phase : StartPhase := mk_start_phase (lit "r") (lit "p") (lit "P") ConstantVUs None.
Definition sample_messages : list Handled :=
  [(0, [], MRegisterRun (mk_register (lit "r") BenchmarkConfig_default)); (1, [], MStartPhase sample_phase);
   (2, [], MRequestCompleted (sample_result true 500)); (3, [], MRequestCompleted (sample_result false 7));
   (4, [], MRequestCompleted (sample_result true 300)); (5, [], MGetMetrics);
   (6, [], MEndPhase (mk_end_phase (lit "r") (lit "p"))); (7, [], MRequestCompleted (sample_result true 1))].

Lemma results_are_attributed_witness :
  attribute sample_messages.*2 = mk_attribution [(sample_phase, [sample_result true 500; sample_result false 7; sample_result true 300])] None ∧
  ∃ a, agg_run (MetricsAggregatorActor_new 0 true) sample_messages = Some a ∧
    Forall2 summarises (closed (attribute sample_messages.*2)) (completed_phases a).
Proof.
  split; [reflexivity|].
  destruct (results_are_attributed 0 true sample_messages) as (a & Hrun & Hs & _).
  - repeat constructor; intros _; reflexivity.
  - exists a. split; [exact Hrun|exact Hs].
Defined.

Definition sample_values : list float := f64_of_Z <$> [3; 1; 2; 4; 7; 10; 5; 6; 8; 9].
Lemma percentile_is_rank_witness :
  percentile_index 10 (f64_of_Z 50) = 5 ∧ percentile sample_values (f64_of_Z 90) = Some (Some (f64_of_Z 9)) ∧
  ∃ v, percentile sample_values (f64_of_Z 50) = Some (Some v) ∧ 6 <= Z.of_nat (length (at_most v sample_values)).
Proof.
  split; [reflexivity|]. split; [reflexivity|].
  destruct (percentile_is_rank sample_values (f64_of_Z 50)) as (_ & v & Hv & _ & Hlo & _).
  - repeat constructor.
  - discriminate.
  - exists v. split; [exact Hv|]. exact Hlo.
Defined.

(** Two latencies, one of which is no number, and the metrics panic. *)
Lemma no_number_panics : percentile [f64_of_Z 1; S754_nan] (f64_of_Z 50) = None.
Proof. reflexivity. Qed.
