(* ===== verification/Scheduler.v ===== *)
(** * The benchmark's scheduler

    [scheduler.rs] and the estimating token counter of [tokenizer.rs]. A run of
    the scheduler is its own task and the tasks it spawns, which share atomic
    counters; each turn of a task is one access to them or one wait, and turns
    interleave freely. A run belongs to one handler call: no other message is
    handled until it has returned. *)
From S2P Require Import Prelude Text Float Bench.

(** ** What is asked *)
(** src: crates/pulsing-bench/src/actors/messages.rs 54-65 RequestTemplate *)
Record RequestTemplate := mk_template {
  rt_id : str; rt_prompt : str; rt_num_prompt_tokens : Z; rt_num_decode_tokens : option Z }.
(** src: crates/pulsing-bench/src/actors/messages.rs 161-169 SendRequest *)
Record SendRequest := mk_send {
  sr_request_id : str; sr_template : RequestTemplate; sr_target_url : str; sr_api_key : str; sr_model_name : str }.
(** src: crates/pulsing-bench/src/actors/scheduler.rs 33-41 SimpleRequestGenerator::default_prompts *)
Definition default_prompts : list str :=
  [lit "What is the meaning of life?"; lit "Explain quantum computing in simple terms.";
   lit "Write a short poem about the ocean."; lit "What are the benefits of exercise?"; lit "How does photosynthesis work?"].
(** Request number [idx]; [None] is the panic of a generator without prompts.
    src: crates/pulsing-bench/src/actors/scheduler.rs 45-54 SimpleRequestGenerator::generate *)
Definition simple_generate (prompts : list str) (idx : Z) : option RequestTemplate :=
  match prompts with
  | [] => None
  | _ => prompt ← prompts !! Z.to_nat (idx mod Z.of_nat (length prompts));
         Some (mk_template (lit "req-" ++ display_u128 idx) prompt (utf8_len prompt / 4) (Some 100))
  end.
(** src: crates/pulsing-bench/src/tokenizer.rs 87-98 EstimateTokenizer::count_tokens *)
Definition estimate_tokens (text : str) : Z :=
  let spaces := Z.of_nat (length (filter (λ c, is_whitespace c = true) text)) in
  let words := spaces + 1 in
  let estimate := f_to_u64 (f64_ceil (f64_mul (f64_of_Z words) (f64_lit 13 1))) in
  Z.max estimate 1.
(** With the counter [count_tokens], real or estimating.
    src: crates/pulsing-bench/src/actors/scheduler.rs 89-102 TokenizedRequestGenerator::generate *)
Definition tokenized_generate (count_tokens : str → Z) (prompts : list str) (idx : Z) : option RequestTemplate :=
  match prompts with
  | [] => None
  | _ => prompt ← prompts !! Z.to_nat (idx mod Z.of_nat (length prompts));
         Some (mk_template (lit "req-" ++ display_u128 idx) prompt (count_tokens prompt) (Some 100))
  end.

(** ** The scheduler's state *)
(** src: crates/pulsing-bench/src/actors/scheduler.rs 105-112 SchedulerConfig *)
Record SchedulerConfig := mk_sconfig {
  scheduler_type : SchedulerType; max_vus : Z; sc_duration : Z; rate : option float }.
(** src: crates/pulsing-bench/src/actors/scheduler.rs 115-122 SchedulerConfig::default *)
Definition SchedulerConfig_default : SchedulerConfig := mk_sconfig ConstantVUs 10 (secs 60) None.
(** Workers are known by their place in the list; [index] is the generator's
    counter, which outlives a run.
    src: crates/pulsing-bench/src/actors/scheduler.rs 125-153 SchedulerActor *)
Record Scheduler := mk_sched {
  s_config : SchedulerConfig; workers : nat; is_active : bool; s_phase_id : str;
  sent_requests : Z; active_vus : Z; s_start_time : option Z; index : Z }.
(** src: crates/pulsing-bench/src/actors/scheduler.rs 156-172 SchedulerActor::new *)
Definition SchedulerActor_new (n : nat) (index : Z) : Scheduler :=
  mk_sched SchedulerConfig_default n false [] 0 0 None index.
(** src: crates/pulsing-bench/src/actors/messages.rs 115-122 ConfigureScheduler *)
Record ConfigureScheduler := mk_configure {
  cs_scheduler_type : SchedulerType; cs_max_vus : Z; cs_duration_secs : Z; cs_rate : option float }.
(** src: crates/pulsing-bench/src/actors/scheduler.rs 206-214 SchedulerActor::configure *)
Definition configure (s : Scheduler) (c : ConfigureScheduler) : Scheduler :=
  mk_sched (mk_sconfig (cs_scheduler_type c) (cs_max_vus c) (secs (cs_duration_secs c)) (cs_rate c))
    (workers s) (is_active s) (s_phase_id s) (sent_requests s) (active_vus s) (s_start_time s) (index s).
Definition set_active (b : bool) (s : Scheduler) : Scheduler :=
  mk_sched (s_config s) (workers s) b (s_phase_id s) (sent_requests s) (active_vus s) (s_start_time s) (index s).
(** The atomic operations on the counters. *)
Definition count_sent (s : Scheduler) : Scheduler :=
  mk_sched (s_config s) (workers s) (is_active s) (s_phase_id s) (sent_requests s +w 1) (active_vus s) (s_start_time s) (index s).
Definition enter (s : Scheduler) : Scheduler :=
  mk_sched (s_config s) (workers s) (is_active s) (s_phase_id s) (sent_requests s) (active_vus s +w 1) (s_start_time s) (index s).
Definition leave (s : Scheduler) : Scheduler :=
  mk_sched (s_config s) (workers s) (is_active s) (s_phase_id s) (sent_requests s) (u64 (active_vus s - 1)) (s_start_time s) (index s).
Definition next_index (s : Scheduler) : Scheduler :=
  mk_sched (s_config s) (workers s) (is_active s) (s_phase_id s) (sent_requests s) (active_vus s) (s_start_time s) (index s +w 1).
(** src: crates/pulsing-bench/src/actors/scheduler.rs 424-442 SchedulerActor::get_progress *)
Definition get_progress (now : Z) (s : Scheduler) : float * float :=
  let elapsed := match s_start_time s with Some t => as_secs_f64 (saturating_sub now t) | None => f_zero end in
  let d := as_secs_f64 (sc_duration (s_config s)) in
  (elapsed, if f_positive d then f_min (f64_mul (f64_div elapsed d) hundred) hundred else f_zero).

(** ** A run *)
(** A task that asks for requests, by what it does next. A request is known
    by its number.
    src: crates/pulsing-bench/src/actors/scheduler.rs 287-312 SchedulerActor::run_constant_vus (spawned task) *)
Inductive Task :=
  | TAsk (worker : nat) (rq : Z)      (** [worker.ask(request)] *)
  | TAsking                            (** waits for the answer *)
  | TAnswered                          (** [active_vus.fetch_sub] *)
  | TLoop                              (** the condition of the loop *)
  | TPick                              (** reads [sent_requests] *)
  | TGenerate (worker : nat)           (** [request_gen.generate()] *)
  | TCount (worker : nat) (rq : Z)    (** [sent_requests.fetch_add] *)
  | TEnter (worker : nat) (rq : Z)    (** [active_vus.fetch_add] *)
  | TDone.
(** What the scheduler's own task does after a spawn: the next virtual user,
    or the queue of the current tick. *)
Inductive Next := NextVu (i : Z) | NextTick (spawn_queue : float).
Inductive Main :=
  | VSpawn (i : Z)
  | VWait
  | RCheck (spawn_queue : float)
  | RTick (spawn_queue : float)
  | RDrain (spawn_queue : float)
  | MGenerate (worker : nat) (next : Next)
  | MCount (worker : nat) (rq : Z) (next : Next)
  | MEnter (worker : nat) (rq : Z) (next : Next)
  | MLaunch (worker : nat) (rq : Z) (next : Next)
  | MStop
  | Join (k : nat)
  | Settle
  | Returned.
(** [asked] records, for the statements, who was asked for what. *)
Record Run := mk_run {
  sched : Scheduler; main : Main; tasks : list Task; asked : list (nat * Z); clock : Z; started : Z }.

Definition worker_of (s : Scheduler) (i : Z) : nat := Z.to_nat (i mod Z.of_nat (workers s)).
Definition elapsed (r : Run) : Z := saturating_sub (clock r) (started r).
Definition requests_per_tick (rt : float) : float := f64_div (f64_mul rt (f64_of_Z 10)) (f64_of_Z 1000).
Definition with_main (r : Run) (s : Scheduler) (m : Main) : Run := mk_run s m (tasks r) (asked r) (clock r) (started r).
Definition after (next : Next) : Main :=
  match next with NextVu i => VSpawn (i + 1) | NextTick q => RDrain (f64_sub q (f64_of_Z 1)) end.

(** One turn of the scheduler's own task; [None] when it waits.
    src: crates/pulsing-bench/src/actors/scheduler.rs 244-344 SchedulerActor::run_constant_vus *)
Definition vus_turn (r : Run) : option Run :=
  let s := sched r in
  match main r with
  | VSpawn i =>
      if negb (i <? max_vus (s_config s)) then Some (with_main r s VWait)
      else if negb (is_active s) then Some (with_main r s VWait)
      else Some (with_main r s (MGenerate (worker_of s i) (NextVu i)))
  | VWait =>
      if negb (is_active s) || (sc_duration (s_config s) <=? elapsed r) then Some (with_main r s MStop) else None
  | Join k =>
      match tasks r !! k with
      | Some TDone => Some (with_main r s (Join (S k)))
      | Some _ => None
      | None => Some (with_main r s Returned)
      end
  | _ => None
  end.
(** src: crates/pulsing-bench/src/actors/scheduler.rs 346-422 SchedulerActor::run_constant_rate *)
Definition rate_turn (r : Run) : option Run :=
  let s := sched r in
  match main r with
  | RCheck q =>
      if (elapsed r <? sc_duration (s_config s)) && is_active s then Some (with_main r s (RTick q))
      else Some (with_main r s MStop)
  | RTick q =>
      match rate (s_config s) with
      | Some rt => Some (with_main r s (RDrain (f64_add q (requests_per_tick rt))))
      | None => None
      end
  | RDrain q =>
      if SFleb (f64_of_Z 1) q then
        if max_vus (s_config s) <=? active_vus s then Some (with_main r s (RDrain (f64_sub q (f64_of_Z 1))))
        else Some (with_main r s (MGenerate (worker_of s (sent_requests s)) (NextTick q)))
      else Some (with_main r s (RCheck q))
  | Settle => if 0 <? active_vus s then None else Some (with_main r s Returned)
  | _ => None
  end.
(** What both kinds of run do for a request, and at their end.
    src: crates/pulsing-bench/src/actors/scheduler.rs 263-279 SchedulerActor::run_constant_vus (one request) *)
Definition launch_turn (r : Run) : option Run :=
  let s := sched r in
  match main r with
  | MGenerate w next => Some (with_main r (next_index s) (MCount w (index s) next))
  | MCount w rq next => Some (with_main r (count_sent s) (MEnter w rq next))
  | MEnter w rq next => Some (with_main r (enter s) (MLaunch w rq next))
  | MLaunch w rq next => Some (mk_run s (after next) (tasks r ++ [TAsk w rq]) (asked r) (clock r) (started r))
  | MStop =>
      Some (with_main r (set_active false s)
        match scheduler_type (s_config s) with ConstantVUs => Join 0 | ConstantArrivalRate => Settle end)
  | _ => None
  end.
Definition main_turn (r : Run) : option Run :=
  match main r with
  | VSpawn _ | VWait | Join _ => vus_turn r
  | RCheck _ | RTick _ | RDrain _ | Settle => rate_turn r
  | _ => launch_turn r
  end.

(** One turn of task [k]. An answer may come at any time; an error counts as
    one, and so does a worker that is gone. A task of a run at a constant rate
    asks once.
    src: crates/pulsing-bench/src/actors/scheduler.rs 287-312 SchedulerActor::run_constant_vus (spawned task) *)
Definition task_turn (k : nat) (r : Run) : option Run :=
  let s := sched r in
  let go (s : Scheduler) (t : Task) := Some (mk_run s (main r) (<[k := t]> (tasks r)) (asked r) (clock r) (started r)) in
  match tasks r !! k with
  | Some (TAsk w rq) =>
      Some (mk_run s (main r) (<[k := TAsking]> (tasks r)) (asked r ++ [(w, rq)]) (clock r) (started r))
  | Some TAsking => go s TAnswered
  | Some TAnswered =>
      go (leave s) match scheduler_type (s_config s) with ConstantVUs => TLoop | ConstantArrivalRate => TDone end
  | Some TLoop => if is_active s && (elapsed r <? sc_duration (s_config s)) then go s TPick else go s TDone
  | Some TPick => go s (TGenerate (worker_of s (sent_requests s)))
  | Some (TGenerate w) => go (next_index s) (TCount w (index s))
  | Some (TCount w rq) => go (count_sent s) (TEnter w rq)
  | Some (TEnter w rq) => go (enter s) (TAsk w rq)
  | Some TDone | None => None
  end.

Definition turn (r r' : Run) : Prop := main_turn r = Some r' ∨ ∃ k, task_turn k r = Some r'.
Inductive step : Run → Run → Prop :=
  | step_turn r r' : turn r r' → step r r'
  | step_time r t : clock r <= t → step r (mk_run (sched r) (main r) (tasks r) (asked r) t (started r)).

(** How a run begins: an error for the caller, or the first turn. A run at a
    constant rate for which no rate is set is refused when the flag is up.
    src: crates/pulsing-bench/src/actors/scheduler.rs 216-242 SchedulerActor::start_scheduling *)
Definition start_scheduling (now : Z) (phase_id : str) (s : Scheduler) : Scheduler + Run :=
  if (workers s =? 0)%nat then inl s
  else
    let s' := mk_sched (s_config s) (workers s) true phase_id 0 0 (Some now) (index s) in
    match scheduler_type (s_config s), rate (s_config s) with
    | ConstantVUs, _ => inr (mk_run s' (VSpawn 0) [] [] now now)
    | ConstantArrivalRate, Some _ => inr (mk_run s' (RCheck f_zero) [] [] now now)
    | ConstantArrivalRate, None => inl s'
    end.

(** ** Messages, when no run is under way *)
Inductive SchedMessage := Configure (c : ConfigureScheduler) | StartScheduling (phase_id : str) | PauseScheduling | ResumeScheduling | GetProgress.
(** The scheduler after the handler, or the run it has begun.
    src: crates/pulsing-bench/src/actors/scheduler.rs 467-507 SchedulerActor::receive *)
Definition sched_receive (now : Z) (s : Scheduler) (m : SchedMessage) : Scheduler + Run :=
  match m with
  | Configure c => inl (configure s c)
  | StartScheduling phase_id => start_scheduling now phase_id s
  | PauseScheduling => inl (set_active false s)
  | ResumeScheduling => inl (set_active true s)
  | GetProgress => inl s
  end.
