(* ===== verification/SchedulerFacts.v ===== *)
(** * Properties of the benchmark's scheduler *)
From S2P Require Import Prelude Text Float Bench Scheduler.

(** ** Bookkeeping

    What a task holds of the counters: whether it is among the active ones,
    whether its request is counted but not asked yet, and the request it has
    still to ask. *)
Definition holds (t : Task) : Z := match t with TAsk _ _ | TAsking | TAnswered => 1 | _ => 0 end.
Definition counted (t : Task) : Z := match t with TAsk _ _ | TEnter _ _ => 1 | _ => 0 end.
Definition pending (t : Task) : list (nat * Z) := match t with TAsk w q | TCount w q | TEnter w q => [(w, q)] | _ => [] end.
Definition place (t : Task) : list nat := match t with TAsk w _ | TCount w _ | TEnter w _ | TGenerate w => [w] | _ => [] end.
Definition main_slot (m : Main) : Z := match m with MGenerate _ _ | MCount _ _ _ | MEnter _ _ _ => 1 | _ => 0 end.
Definition main_holds (m : Main) : Z := match m with MLaunch _ _ _ => 1 | _ => 0 end.
Definition main_counted (m : Main) : Z := match m with MEnter _ _ _ | MLaunch _ _ _ => 1 | _ => 0 end.
Definition main_pending (m : Main) : list (nat * Z) :=
  match m with MCount w q _ | MEnter w q _ | MLaunch w q _ => [(w, q)] | _ => [] end.
Definition main_place (m : Main) : list nat :=
  match m with MGenerate w _ | MCount w _ _ | MEnter w _ _ | MLaunch w _ _ => [w] | _ => [] end.
Definition sum_of (f : Task → Z) (ts : list Task) : Z := foldr (λ t n, f t + n) 0 ts.
Definition ids (g : Z) (k : nat) : list Z := (λ i, u64 (g + Z.of_nat i)) <$> seq 0 k.

(** The tasks a run at a constant rate has; the virtual users that are there
    when the scheduler's task is about to spawn number [i]. *)
Definition once (t : Task) : bool := match t with TAsk _ _ | TAsking | TAnswered | TDone => true | _ => false end.
Definition spawning (m : Main) : option Z :=
  match m with
  | VSpawn i | MGenerate _ (NextVu i) | MCount _ _ (NextVu i) | MEnter _ _ (NextVu i) | MLaunch _ _ (NextVu i) => Some i
  | _ => None
  end.
Definition over (m : Main) : bool := match m with Join _ | Settle | Returned => true | _ => false end.
(** The phases of the scheduler's task in a run of either kind. *)
Definition fits (t : SchedulerType) (m : Main) : bool :=
  match t, m with
  | ConstantVUs, (VSpawn _ | VWait | MGenerate _ (NextVu _) | MCount _ _ (NextVu _) | MEnter _ _ (NextVu _) | MLaunch _ _ (NextVu _)
                  | MStop | Join _ | Returned) => true
  | ConstantArrivalRate, (RCheck _ | RTick _ | RDrain _ | MGenerate _ (NextTick _) | MCount _ _ (NextTick _)
                  | MEnter _ _ (NextTick _) | MLaunch _ _ (NextTick _) | MStop | Settle | Returned) => true
  | _, _ => false
  end.

Section Invariant.
Context (cfg : SchedulerConfig) (n : nat) (g : Z).
Record inv (r : Run) : Prop := {
  inv_cfg : s_config (sched r) = cfg;
  inv_workers : workers (sched r) = n;
  inv_active : active_vus (sched r) = sum_of holds (tasks r) + main_holds (main r);
  inv_sent : sent_requests (sched r) = u64 (Z.of_nat (length (asked r)) + sum_of counted (tasks r) + main_counted (main r));
  inv_ids : ∃ k, index (sched r) = u64 (g + Z.of_nat k) ∧
              (asked r ++ (tasks r ≫= pending) ++ main_pending (main r)).*2 ≡ₚ ids g k;
  inv_place : Forall (λ w, (w < n)%nat) ((asked r).*1 ++ (tasks r ≫= place) ++ main_place (main r));
  inv_limit : match scheduler_type cfg with ConstantVUs => Z.of_nat (length (tasks r)) | ConstantArrivalRate => sum_of holds (tasks r) end
                + main_slot (main r) + main_holds (main r) <= max_vus cfg;
  inv_spawn : ∀ i, spawning (main r) = Some i → i = Z.of_nat (length (tasks r));
  inv_once : scheduler_type cfg = ConstantArrivalRate → Forall (λ t, once t = true) (tasks r);
  inv_fits : fits (scheduler_type cfg) (main r) = true;
  inv_flag : is_active (sched r) = negb (over (main r));
  inv_join : match main r with
             | Join k => Forall (λ t, t = TDone) (take k (tasks r))
             | Returned => Forall (λ t, t = TDone) (tasks r)
             | _ => True
             end
}.
End Invariant.

Lemma sum_of_insert f ts k t t' : ts !! k = Some t → sum_of f (<[k := t']> ts) = sum_of f ts - f t + f t'.
Proof.
  revert k. induction ts as [|u ts IH]; intros [|k] Hk; simplify_eq/=; [lia|]. rewrite (IH k Hk). lia.
Qed.
Lemma sum_of_app f l l' : sum_of f (l ++ l') = sum_of f l + sum_of f l'.
Proof. induction l as [|t l IH]; simpl; [done|]. rewrite IH. lia. Qed.
Lemma sum_of_bounds f ts : (∀ t, 0 <= f t <= 1) → 0 <= sum_of f ts <= Z.of_nat (length ts).
Proof. intros Hf. induction ts as [|t ts IH]; simpl; [lia|]. specialize (Hf t). lia. Qed.
Lemma sum_of_elem f ts k t : (∀ t, 0 <= f t <= 1) → ts !! k = Some t → f t <= sum_of f ts.
Proof.
  intros Hf. revert k. induction ts as [|u ts IH]; intros [|k] Hk; simplify_eq/=.
  - pose proof (sum_of_bounds f ts Hf). lia.
  - specialize (IH k Hk). specialize (Hf u). lia.
Qed.
Lemma bind_insert {A} (f : Task → list A) ts k t t' :
  ts !! k = Some t → (<[k := t']> ts ≫= f) ++ f t ≡ₚ (ts ≫= f) ++ f t'.
Proof.
  revert k. induction ts as [|u ts IH]; intros [|k] Hk; simplify_eq/=; [solve_Permutation|].
  rewrite <- !(assoc_L (++)), (IH k Hk). done.
Qed.
Lemma holds_range t : 0 <= holds t <= 1. Proof. destruct t; simpl; lia. Qed.
Lemma ids_S g k : ids g (S k) = ids g k ++ [u64 (g + Z.of_nat k)].
Proof. unfold ids. by rewrite seq_S, fmap_app. Qed.

Section Preserved.
Context (cfg : SchedulerConfig) (n : nat) (g : Z).
Hypothesis max_u64 : is_u64 (max_vus cfg).
Hypothesis has_workers : (0 < n)%nat.
Notation inv := (inv cfg n g).

Lemma worker_of_range s i : workers s = n → (worker_of s i < n)%nat.
Proof. intros Hn. unfold worker_of. rewrite Hn. pose proof (Z.mod_pos_bound i (Z.of_nat n)). lia. Qed.

Lemma active_range r : inv r → 0 <= active_vus (sched r) <= max_vus cfg.
Proof.
  intros I. pose proof (inv_active _ _ _ _ I) as Ha. pose proof (inv_limit _ _ _ _ I) as Hl.
  pose proof (sum_of_bounds holds (tasks r) holds_range).
  assert (0 <= main_holds (main r)) by (destruct (main r); simpl; lia).
  assert (0 <= main_slot (main r)) by (destruct (main r); simpl; lia).
  destruct (scheduler_type cfg); lia.
Qed.

Lemma pend_same {A} (a a' p p' t t' m : list A) :
  t' ++ p ≡ₚ t ++ p' → a' ++ p' ≡ₚ a ++ p → a' ++ t' ++ m ≡ₚ a ++ t ++ m.
Proof.
  intros Ht Ha. apply (Permutation_app_inv_r p). transitivity (a' ++ (t' ++ p) ++ m); [solve_Permutation|].
  rewrite Ht. transitivity ((a' ++ p') ++ t ++ m); [solve_Permutation|]. rewrite Ha. solve_Permutation.
Qed.
(** A task changes its phase, and the counters by what the phases differ in. *)
Lemma task_moves r k t t' s' asked' :
  inv r → tasks r !! k = Some t → t ≠ TDone →
  s_config s' = s_config (sched r) → workers s' = workers (sched r) → is_active s' = is_active (sched r) →
  active_vus s' = active_vus (sched r) - holds t + holds t' →
  sent_requests s' = u64 (sent_requests (sched r) + (Z.of_nat (length asked') - Z.of_nat (length (asked r))) + counted t' - counted t) →
  (index s' = index (sched r) ∧ asked' ++ pending t' ≡ₚ asked r ++ pending t
   ∨ index s' = index (sched r) +w 1 ∧ asked' = asked r ∧ pending t = [] ∧ (pending t').*2 = [index (sched r)]) →
  (Forall (λ w, (w < n)%nat) (place t) → Forall (λ w, (w < n)%nat) (asked r).*1 → Forall (λ w, (w < n)%nat) (asked'.*1 ++ place t')) →
  (scheduler_type cfg = ConstantArrivalRate → holds t' <= holds t ∧ once t' = true) →
  inv (mk_run s' (main r) (<[k := t']> (tasks r)) asked' (clock r) (started r)).
Proof.
  intros I Hk Hdone Hc Hw Hf Ha Hs Hi Hp Hrate. destruct I as [J1 J2 J3 J4 (c & J5 & J5') J6 J7 J8 J9 J10 J11 J12].
  pose proof (bind_insert pending _ _ _ t' Hk) as Hpend. pose proof (bind_insert place _ _ _ t' Hk) as Hplace.
  split; simpl; try done.
  - congruence.
  - congruence.
  - rewrite (sum_of_insert _ _ _ _ _ Hk). lia.
  - rewrite (sum_of_insert _ _ _ _ _ Hk), Hs, J4. unfold u64.
    rewrite <- !Z.add_sub_assoc, <- Z.add_assoc, Zplus_mod_idemp_l. f_equal. lia.
  - destruct Hi as [[Hi Hperm]|(Hi & -> & Ht & Ht')].
    + exists c. split; [congruence|]. rewrite <- J5'. by apply fmap_Permutation, pend_same with (pending t) (pending t').
    + exists (S c). split.
      * rewrite Hi, J5. unfold u64_add, u64. rewrite Zplus_mod_idemp_l. f_equal. lia.
      * rewrite Ht, app_nil_r in Hpend. rewrite Hpend, !fmap_app, Ht', ids_S, <- J5', J5, !fmap_app. solve_Permutation.
  - rewrite !Forall_app in J6. destruct J6 as (J6 & J6' & J6''). rewrite Forall_app in Hp.
    destruct Hp as [Hp1 Hp2]; [|done|].
    + rewrite Forall_forall in J6' |- *. intros w Hw'. apply J6', list_elem_of_bind. exists t. split; [done|]. by apply list_elem_of_lookup_2 in Hk.
    + rewrite !Forall_app. split_and!; [done| |done].
      assert (Hall : Forall (λ w, (w < n)%nat) ((<[k:=t']> (tasks r) ≫= place) ++ place t)) by (rewrite Hplace, Forall_app; done).
      by apply Forall_app in Hall as [? _].
  - rewrite length_insert. destruct (scheduler_type cfg) eqn:Hty; [done|]. rewrite (sum_of_insert _ _ _ _ _ Hk).
    destruct (Hrate eq_refl). lia.
  - intros i Hi'. rewrite length_insert. by apply J8.
  - intros Hty. destruct (Hrate Hty). apply Forall_insert; auto.
  - congruence.
  - destruct (main r) as [| | | | | | | | | |j| |]; try done.
    + rewrite take_insert_ge; [done|]. destruct (decide (j <= k)%nat) as [|Hlt]; [done|].
      exfalso. apply Hdone. rewrite Forall_lookup in J12. apply (J12 k). rewrite lookup_take; case_decide; [done|lia].
    + exfalso. apply Hdone. rewrite Forall_lookup in J12. by apply (J12 k).
Qed.
(** A virtual user that holds nothing leaves room for itself. *)
Lemma sum_of_room f ts k t : (∀ t, 0 <= f t <= 1) → ts !! k = Some t → f t = 0 → sum_of f ts + 1 <= Z.of_nat (length ts).
Proof.
  intros Hf. revert k. induction ts as [|u ts IH]; intros [|k] Hk H0; simplify_eq/=.
  - pose proof (sum_of_bounds f ts Hf). lia.
  - specialize (IH k Hk H0). specialize (Hf u). lia.
Qed.
Lemma enter_room r k t : inv r → scheduler_type cfg = ConstantVUs → tasks r !! k = Some t → holds t = 0 → active_vus (sched r) + 1 <= max_vus cfg.
Proof.
  intros I Hvu Hk Ht. pose proof (inv_active _ _ _ _ I). pose proof (inv_limit _ _ _ _ I) as Hl. rewrite Hvu in Hl.
  pose proof (sum_of_room holds _ _ _ holds_range Hk Ht). assert (0 <= main_slot (main r)) by (destruct (main r); simpl; lia). lia.
Qed.

Lemma task_turn_inv k r r' : inv r → task_turn k r = Some r' → inv r'.
Proof.
  intros I. unfold task_turn. destruct (tasks r !! k) as [t|] eqn:Hk; [|done].
  pose proof (sum_of_elem holds _ _ _ holds_range Hk) as Hge. pose proof (active_range r I) as Har.
  pose proof (inv_active _ _ _ _ I) as Hact. assert (0 <= main_holds (main r)) by (destruct (main r); simpl; lia).
  assert (Honce : scheduler_type cfg = ConstantArrivalRate → once t = true).
  { intros Hty. pose proof (inv_once _ _ _ _ I Hty) as Ho. rewrite Forall_lookup in Ho. by apply (Ho k). }
  pose proof (inv_cfg _ _ _ _ I) as Hcfg. unfold is_u64 in *.
  assert (Hsent : ∃ x, sent_requests (sched r) = u64 x) by (eexists; apply (inv_sent _ _ _ _ I)). destruct Hsent as [x Hx].
  assert (Hsent : sent_requests (sched r) = u64 (sent_requests (sched r))) by (rewrite Hx; unfold u64; by rewrite Zmod_mod).
  assert (Hplace : ∀ w, (w < n)%nat → Forall (λ w, (w < n)%nat) [w]) by (intros; by constructor).
  destruct t as [w q| | | | |w|w q|w q|]; try done; simpl in Hge.
  - intros [= <-]. apply (task_moves r k (TAsk w q)); simpl; try done.
    + lia.
    + rewrite length_app. simpl. rewrite Hsent at 1. f_equal. lia.
    + left. split; [done|]. by rewrite app_nil_r.
    + intros Hw Hasked. rewrite fmap_app, app_nil_r. by apply Forall_app.
  - intros [= <-]. apply (task_moves r k TAsking); simpl; try done; [lia|rewrite Hsent at 1; f_equal; lia|by left|].
    intros _ Hasked. by rewrite app_nil_r.
  - rewrite Hcfg. assert (Hleave : u64 (active_vus (sched r) - 1) = active_vus (sched r) - 1) by (apply u64_small; unfold is_u64; lia).
    intros Hr. assert (∃ t', r' = mk_run (leave (sched r)) (main r) (<[k:=t']> (tasks r)) (asked r) (clock r) (started r) ∧
      holds t' = 0 ∧ counted t' = 0 ∧ pending t' = [] ∧ place t' = [] ∧ (scheduler_type cfg = ConstantArrivalRate → once t' = true)) as
      (t' & -> & H1 & H2 & H3 & H4 & H5) by (destruct (scheduler_type cfg); injection Hr as <-; by eexists).
    apply (task_moves r k TAnswered); simpl; rewrite ?H1, ?H2, ?H3, ?H4; try done.
    + rewrite Hleave. lia.
    + rewrite Hsent at 1. f_equal. lia.
    + by left.
    + intros _ Hasked. by rewrite app_nil_r.
    + intros Hty. split; [lia|by apply H5].
  - intros Hr. assert (∃ t', r' = mk_run (sched r) (main r) (<[k:=t']> (tasks r)) (asked r) (clock r) (started r) ∧ (t' = TPick ∨ t' = TDone)) as
      (t' & -> & Ht') by (case_match; injection Hr as <-; eauto).
    apply (task_moves r k TLoop); destruct Ht' as [-> | ->]; simpl; try done;
      try (by left); try lia; try (rewrite Hsent at 1; f_equal; lia); try (by intros; rewrite app_nil_r); by intros Hty%Honce.
  - intros [= <-]. apply (task_moves r k TPick); simpl; try done; try (by left); try lia; try (rewrite Hsent at 1; f_equal; lia).
    + intros _ Hasked. apply Forall_app. split; [done|]. apply Hplace, worker_of_range, (inv_workers _ _ _ _ I).
    + by intros Hty%Honce.
  - intros [= <-]. apply (task_moves r k (TGenerate w)); simpl; try done; try lia; try (rewrite Hsent at 1; f_equal; lia).
    + right. done.
    + intros Hw Hasked. by apply Forall_app.
    + by intros Hty%Honce.
  - intros [= <-]. apply (task_moves r k (TCount w q)); simpl; try done; try (by left); try lia.
    + unfold u64_add. f_equal. lia.
    + intros Hw Hasked. by apply Forall_app.
    + by intros Hty%Honce.
  - intros [= <-]. assert (Hvu : scheduler_type cfg = ConstantVUs) by (destruct (scheduler_type cfg) eqn:Hty; [done|by specialize (Honce eq_refl)]).
    apply (task_moves r k (TEnter w q)); simpl; try done; try (by left); try (rewrite Hsent at 1; f_equal; lia).
    + pose proof (enter_room r k (TEnter w q) I Hvu Hk eq_refl). rewrite u64_add_small; [lia|]. unfold is_u64. lia.
    + intros Hw Hasked. by apply Forall_app.
    + by rewrite Hvu.
Qed.

(** The scheduler's own task moves on, and the counters by what its phases
    differ in. *)
Lemma main_moves r s' m' :
  inv r →
  s_config s' = s_config (sched r) → workers s' = workers (sched r) → is_active s' = negb (over m') →
  active_vus s' = active_vus (sched r) - main_holds (main r) + main_holds m' →
  sent_requests s' = u64 (sent_requests (sched r) + main_counted m' - main_counted (main r)) →
  (index s' = index (sched r) ∧ main_pending m' = main_pending (main r)
   ∨ index s' = index (sched r) +w 1 ∧ main_pending (main r) = [] ∧ (main_pending m').*2 = [index (sched r)]) →
  (Forall (λ w, (w < n)%nat) (main_place (main r)) → Forall (λ w, (w < n)%nat) (main_place m')) →
  (main_slot m' + main_holds m' <= main_slot (main r) + main_holds (main r)
   ∨ match scheduler_type cfg with ConstantVUs => Z.of_nat (length (tasks r)) | ConstantArrivalRate => sum_of holds (tasks r) end
       + main_slot m' + main_holds m' <= max_vus cfg) →
  (∀ i, spawning m' = Some i → spawning (main r) = Some i) →
  fits (scheduler_type cfg) m' = true →
  match m' with
  | Join k => Forall (λ t, t = TDone) (take k (tasks r))
  | Returned => Forall (λ t, t = TDone) (tasks r)
  | _ => True
  end →
  inv (with_main r s' m').
Proof.
  intros I Hc Hw Hf Ha Hs Hi Hp Hl Hsp Hfit Hj. destruct I as [J1 J2 J3 J4 (c & J5 & J5') J6 J7 J8 J9 J10 J11 J12].
  split; simpl; try done.
  - congruence.
  - congruence.
  - lia.
  - rewrite Hs, J4. unfold u64. rewrite <- Z.add_sub_assoc, Zplus_mod_idemp_l. f_equal. lia.
  - destruct Hi as [[Hi Hm]|(Hi & Hm & Hm')].
    + exists c. rewrite Hm. by rewrite Hi.
    + exists (S c). split.
      * rewrite Hi, J5. unfold u64_add, u64. rewrite Zplus_mod_idemp_l. f_equal. lia.
      * rewrite ids_S, <- J5', <- J5, <- Hm', Hm, app_nil_r, (assoc_L (++)), fmap_app. done.
  - rewrite !Forall_app in *. destruct J6 as (? & ? & ?). by auto.
  - destruct Hl; lia.
  - auto.
Qed.

(** The spawned task takes over what the scheduler's task held for it. *)
Lemma launch_inv r w rq next :
  inv r → main r = MLaunch w rq next →
  inv (mk_run (sched r) (after next) (tasks r ++ [TAsk w rq]) (asked r) (clock r) (started r)).
Proof.
  intros [J1 J2 J3 J4 (c & J5 & J5') J6 J7 J8 J9 J10 J11 J12] Hm. rewrite Hm in *. simpl in *.
  assert (main_holds (after next) = 0 ∧ main_slot (after next) = 0 ∧ main_counted (after next) = 0 ∧
          main_pending (after next) = [] ∧ main_place (after next) = []) as (H1 & H2 & H3 & H4 & H5) by by destruct next.
  split; simpl; rewrite ?H1, ?H2, ?H3, ?H4, ?H5, ?sum_of_app; simpl; try done.
  - lia.
  - rewrite J4. f_equal. lia.
  - exists c. split; [done|]. rewrite <- J5', bind_app. simpl. by rewrite !app_nil_r.
  - rewrite bind_app. simpl. by rewrite app_nil_r.
  - rewrite length_app. simpl. destruct (scheduler_type cfg); lia.
  - intros i. rewrite length_app. destruct next; simpl; [|done]. intros [= <-]. rewrite (J8 _ eq_refl). simpl. lia.
  - intros Hty. apply Forall_app. split; [by apply J9|]. by constructor.
  - destruct (scheduler_type cfg), next; done.
  - by destruct next.
  - by destruct next.
Qed.
Lemma settled ts : Forall (λ t, once t = true) ts → sum_of holds ts = 0 → Forall (λ t, t = TDone) ts.
Proof.
  induction 1 as [|t ts Ht _ IH]; [constructor|]. simpl. pose proof (sum_of_bounds holds ts holds_range). intros H0.
  destruct t; try done; simpl in *; try lia. constructor; [done|]. by apply IH.
Qed.

Ltac by_main :=
  apply main_moves;
  repeat match goal with
  | H : main _ = _ |- _ => rewrite H
  | H : is_active _ = _ |- _ => rewrite H
  end; simpl in *; try done; try lia; try (by left); try (left; lia); try (by destruct (scheduler_type cfg));
  try match goal with H : sent_requests (sched ?r) = u64 (sent_requests (sched ?r)) |- _ => solve [rewrite H at 1; f_equal; lia] end.

Lemma main_turn_inv r r' : inv r → main_turn r = Some r' → inv r'.
Proof.
  intros I. pose proof (active_range r I) as Har. pose proof (inv_cfg _ _ _ _ I) as Hcfg. pose proof (inv_fits _ _ _ _ I) as Hfits.
  pose proof (inv_flag _ _ _ _ I) as Hflag. pose proof (inv_limit _ _ _ _ I) as Hlim. pose proof (inv_active _ _ _ _ I) as Hact.
  pose proof (inv_join _ _ _ _ I) as Hjoin. unfold is_u64 in *.
  assert (Hsent : ∃ x, sent_requests (sched r) = u64 x) by (eexists; apply (inv_sent _ _ _ _ I)). destruct Hsent as [x Hx].
  assert (Hsent : sent_requests (sched r) = u64 (sent_requests (sched r))) by (rewrite Hx; unfold u64; by rewrite Zmod_mod).
  assert (Hplace : ∀ i, Forall (λ w, (w < n)%nat) [worker_of (sched r) i])
    by (intros; constructor; [apply worker_of_range, (inv_workers _ _ _ _ I)|constructor]).
  unfold main_turn, vus_turn, rate_turn, launch_turn. rewrite Hcfg. destruct (main r) as [i| |q|q|q|w nx|w rq nx|w rq nx|w rq nx| |k| |] eqn:Hm; simpl in *.
  - intros Hr. assert (r' = with_main r (sched r) VWait ∨ i < max_vus cfg ∧ r' = with_main r (sched r) (MGenerate (worker_of (sched r) i) (NextVu i))) as
      [-> | [Hi ->]] by (destruct (Z.ltb_spec i (max_vus cfg)), (is_active (sched r)); injection Hr as <-; eauto); by_main.
    pose proof (inv_spawn _ _ _ _ I i) as Hs. rewrite Hm in Hs. specialize (Hs eq_refl). right. destruct (scheduler_type cfg); [lia|done].
  - intros Hr. assert (r' = with_main r (sched r) MStop) as -> by (case_match; by simplify_eq).
    by_main.
  - intros Hr. assert (r' = with_main r (sched r) (RTick q) ∨ r' = with_main r (sched r) MStop) as [-> | ->]
      by (case_match; injection Hr as <-; eauto); by_main.
  - destruct (rate cfg); [|done]. intros [= <-]. by_main.
  - intros Hr. assert (r' = with_main r (sched r) (RCheck q) ∨ r' = with_main r (sched r) (RDrain (f64_sub q (f64_of_Z 1))) ∨
      active_vus (sched r) < max_vus cfg ∧ r' = with_main r (sched r) (MGenerate (worker_of (sched r) (sent_requests (sched r))) (NextTick q))) as
      [-> | [-> | [Hi ->]]] by (destruct (SFleb _ _), (Z.leb_spec (max_vus cfg) (active_vus (sched r))); injection Hr as <-; eauto); by_main.
    right. destruct (scheduler_type cfg); [done|lia].
  - intros [= <-]. by_main. by right.
  - intros [= <-]. by_main. unfold u64_add. f_equal. lia.
  - intros [= <-]. by_main. rewrite u64_add_small; [lia|]. unfold is_u64.
    pose proof (sum_of_bounds holds (tasks r) holds_range). destruct (scheduler_type cfg); lia.
  - intros [= <-]. by apply (launch_inv r w rq nx).
  - intros [= <-]. destruct (scheduler_type cfg) eqn:Hty; by_main; by rewrite Hty.
  - intros Hr. destruct (tasks r !! k) as [t|] eqn:Hk.
    + assert (t = TDone ∧ r' = with_main r (sched r) (Join (S k))) as [-> ->] by (destruct t; by simplify_eq). by_main.
      erewrite take_S_r by done. apply Forall_app. split; [done|]. by constructor.
    + injection Hr as <-. by_main. apply lookup_ge_None in Hk. by rewrite take_ge in Hjoin.
  - intros Hr. assert (active_vus (sched r) = 0 ∧ r' = with_main r (sched r) Returned) as [H0 ->]
      by (destruct (Z.ltb_spec 0 (active_vus (sched r))); simplify_eq; split; [lia|done]). by_main.
    assert (Hty : scheduler_type cfg = ConstantArrivalRate) by (by destruct (scheduler_type cfg)).
    apply settled; [by apply (inv_once _ _ _ _ I)|lia].
  - done.
Qed.

Lemma turn_inv r r' : inv r → turn r r' → inv r'.
Proof. intros I [Hm|[k Hk]]; [by apply main_turn_inv in Hm|by apply task_turn_inv in Hk]. Qed.
Lemma sched_step_inv r r' : inv r → step r r' → inv r'.
Proof. intros I Hs. destruct Hs as [r r' Ht|r t _]; [by apply (turn_inv r)|]. destruct I. by split. Qed.
Lemma steps_inv r r' : inv r → rtc step r r' → inv r'.
Proof. intros I. induction 1 as [|r1 r2 r3 Hs _ IH]; [done|]. apply IH. by apply (sched_step_inv r1). Qed.
End Preserved.

Definition well_formed (s : Scheduler) : Prop := is_u64 (max_vus (s_config s)) ∧ is_u64 (index s).

Lemma start_inv now id s r : well_formed s → start_scheduling now id s = inr r → inv (s_config s) (workers s) (index s) r ∧ (0 < workers s)%nat.
Proof.
  intros [Hm Hi]. unfold start_scheduling. destruct (Nat.eqb_spec (workers s) 0) as [|Hw]; [done|].
  assert (Hix : index s = u64 (index s + Z.of_nat 0)) by (rewrite Z.add_0_r; symmetry; by apply u64_small).
  unfold is_u64 in Hm.
  destruct (scheduler_type (s_config s)) eqn:Hty; [|destruct (rate (s_config s)); [|done]]; intros [= <-]; (split; [|lia]);
    split; simpl; rewrite ?Hty; try done; try (by exists 0%nat); try (by intros ? [= <-]); lia.
Qed.
Lemma started_inv now id s r r' :
  well_formed s → start_scheduling now id s = inr r → rtc step r r' → inv (s_config s) (workers s) (index s) r'.
Proof.
  intros Hwf Hs. destruct (start_inv now id s r Hwf Hs) as [I Hw]. destruct Hwf as [Hm _].
  by apply steps_inv.
Qed.

(** What is in the log when every task is done. *)
Lemma done_pending ts : Forall (λ t, t = TDone) ts → ts ≫= pending = [] ∧ sum_of holds ts = 0 ∧ sum_of counted ts = 0.
Proof. induction 1 as [|t ts -> _ (IH1 & IH2 & IH3)]; [done|]. split_and!; [exact IH1|exact IH2|exact IH3]. Qed.

(** C23: However the tasks of a run interleave, and whatever the answers do,
    no more than [max_vus] requests are active, each is asked of a worker that
    is there, and the generator's requests are asked once each: the numbers
    asked for are among the [k] the generator has given out, and when the run
    returns they are all of them, as many as [sent_requests] says, none is
    active, every task has ended and the flag is down; it is up until then. *)
Theorem requests_asked_once (now : Z) (id : str) (s : Scheduler) (r r' : Run) :
  well_formed s → start_scheduling now id s = inr r → rtc step r r' →
  0 <= active_vus (sched r') <= max_vus (s_config s) ∧
  Forall (λ a, (a.1 < workers s)%nat) (asked r') ∧
  is_active (sched r') = negb (over (main r')) ∧
  ∃ k, index (sched r') = u64 (index s + Z.of_nat k) ∧ (asked r').*2 ⊆+ ids (index s) k ∧
    (main r' = Returned →
     (asked r').*2 ≡ₚ ids (index s) k ∧ sent_requests (sched r') = u64 (Z.of_nat k) ∧ active_vus (sched r') = 0 ∧
     Forall (λ t, t = TDone) (tasks r')).
Proof.
  intros Hwf Hs Hsteps. pose proof (started_inv now id s r r' Hwf Hs Hsteps) as I. destruct (start_inv now id s r Hwf Hs) as [_ Hw]. destruct Hwf as [Hm _].
  split; [by eapply active_range|]. split; [|split; [apply (inv_flag _ _ _ _ I)|]].
  - pose proof (inv_place _ _ _ _ I) as Hp. apply Forall_app in Hp as [Hp _]. by rewrite Forall_fmap in Hp.
  - destruct (inv_ids _ _ _ _ I) as (k & Hi & Hk). exists k. split; [done|]. split.
    + rewrite <- Hk, fmap_app. apply submseteq_inserts_r. done.
    + intros Hret. pose proof (inv_join _ _ _ _ I) as Hj. rewrite Hret in Hj. destruct (done_pending _ Hj) as (Hp & Hh & Hc).
      rewrite Hp, Hret, !app_nil_r in Hk. pose proof (inv_active _ _ _ _ I) as Ha. pose proof (inv_sent _ _ _ _ I) as Hsent.
      rewrite Hret, Hh in Ha. rewrite Hret, Hc in Hsent. simpl in *. split_and!; [done| |lia|done].
      rewrite Hsent. f_equal. apply Permutation_length in Hk. unfold ids in Hk. rewrite !length_fmap, length_seq in Hk. lia.
Qed.

(** ** A run of virtual users returns *)
Definition task_cost (t : Task) : Z :=
  match t with
  | TPick => 8 | TGenerate _ => 7 | TCount _ _ => 6 | TEnter _ _ => 5 | TAsk _ _ => 4 | TAsking => 3 | TAnswered => 2 | TLoop => 1 | TDone => 0
  end.
Definition main_cost (m len : Z) (main : Main) : Z :=
  match main with
  | VSpawn i => 10 * (m - i) + 4 + len
  | MGenerate _ (NextVu i) => 10 * (m - i) + 3 + len
  | MCount _ _ (NextVu i) => 10 * (m - i) + 2 + len
  | MEnter _ _ (NextVu i) => 10 * (m - i) + 1 + len
  | MLaunch _ _ (NextVu i) => 10 * (m - i) + len
  | VWait => 3 + len
  | MStop => 2 + len
  | Join k => 1 + Z.max 0 (len - Z.of_nat k)
  | _ => 0
  end.
Definition turns_left (r : Run) : Z :=
  sum_of task_cost (tasks r) + main_cost (max_vus (s_config (sched r))) (Z.of_nat (length (tasks r))) (main r).
Definition time_is_up (r : Run) : Prop := sc_duration (s_config (sched r)) <= elapsed r.

Section Ending.
Context (cfg : SchedulerConfig) (n : nat) (g : Z).
Hypothesis max_u64 : is_u64 (max_vus cfg).
Hypothesis has_workers : (0 < n)%nat.
Hypothesis vus : scheduler_type cfg = ConstantVUs.
Notation inv := (inv cfg n g).

Lemma turns_left_nonneg r : inv r → 0 <= turns_left r.
Proof.
  intros I. unfold turns_left. rewrite (inv_cfg _ _ _ _ I).
  assert (0 <= sum_of task_cost (tasks r)).
  { induction (tasks r) as [|t ts IH]; simpl; [lia|]. destruct t; simpl; lia. }
  pose proof (inv_limit _ _ _ _ I) as Hl. pose proof (inv_spawn _ _ _ _ I) as Hsp. pose proof (inv_join _ _ _ _ I) as Hj.
  pose proof (inv_fits _ _ _ _ I) as Hf. rewrite vus in *.
  destruct (main r) as [i| | | | |w [i|]|w q [i|]|w q [i|]|w q [i|]| |k| |]; try done; simpl in *;
    try (pose proof (Hsp i eq_refl); subst i); try lia.
Qed.

Lemma task_turn_costs k r r' : inv r → time_is_up r → task_turn k r = Some r' → turns_left r' < turns_left r ∧ time_is_up r'.
Proof.
  intros I Hup. unfold time_is_up, turns_left, task_turn, elapsed in *. pose proof (inv_cfg _ _ _ _ I) as Hcfg. rewrite Hcfg in *.
  destruct (tasks r !! k) as [t|] eqn:Hk; [|done].
  destruct t as [w q| | | | |w|w q|w q|]; try done; rewrite ?Hcfg, ?vus;
    try (intros [= <-]; simpl; rewrite ?Hcfg, (sum_of_insert _ _ _ _ _ Hk), length_insert; simpl; split; [lia|done]).
  replace (saturating_sub (clock r) (started r) <? sc_duration cfg) with false by lia. rewrite andb_false_r.
  intros [= <-]. simpl. rewrite ?Hcfg, (sum_of_insert _ _ _ _ _ Hk), length_insert. simpl. split; [lia|done].
Qed.
Lemma main_turn_costs r r' : inv r → time_is_up r → main_turn r = Some r' → turns_left r' < turns_left r ∧ time_is_up r'.
Proof.
  intros I Hup. pose proof (inv_cfg _ _ _ _ I) as Hcfg. pose proof (inv_fits _ _ _ _ I) as Hf. pose proof (inv_limit _ _ _ _ I) as Hl.
  pose proof (inv_spawn _ _ _ _ I) as Hsp. rewrite vus in *.
  unfold time_is_up, turns_left, main_turn, vus_turn, rate_turn, launch_turn, elapsed in *. rewrite Hcfg in *. rewrite ?vus.
  destruct (main r) as [i| | | | |w [i|]|w q [i|]|w q [i|]|w q [i|]| |k| |]; try done; simpl in *;
    try (intros [= <-]; simpl; rewrite ?Hcfg, ?sum_of_app, ?length_app; simpl; split; [lia|done]).
  - specialize (Hsp i eq_refl).
    intros Hr. assert (r' = with_main r (sched r) VWait ∨ r' = with_main r (sched r) (MGenerate (worker_of (sched r) i) (NextVu i))) as
      [-> | ->] by (destruct (i <? _), (is_active (sched r)); injection Hr as <-; eauto); simpl; rewrite Hcfg; split; done || lia.
  - intros Hr. assert (r' = with_main r (sched r) MStop) as -> by (case_match; by simplify_eq). simpl. rewrite Hcfg. split; [lia|done].
  - intros Hr. destruct (tasks r !! k) as [t|] eqn:Hk.
    + assert (t = TDone ∧ r' = with_main r (sched r) (Join (S k))) as [-> ->] by (destruct t; by simplify_eq).
      apply lookup_lt_Some in Hk. simpl. rewrite Hcfg. split; [lia|done].
    + injection Hr as <-. simpl. rewrite Hcfg. split; [lia|done].
Qed.
Lemma turn_costs r r' : inv r → time_is_up r → turn r r' → turns_left r' < turns_left r ∧ time_is_up r'.
Proof. intros I Hup [Hm|[k Hk]]; [by apply main_turn_costs|by apply (task_turn_costs k)]. Qed.

(** Nothing waits for ever: the scheduler's task waits for time, or for a task
    that can go on. *)
Lemma run_goes_on r : inv r → time_is_up r → main r = Returned ∨ ∃ r', turn r r'.
Proof.
  intros I Hup. pose proof (inv_cfg _ _ _ _ I) as Hcfg. pose proof (inv_fits _ _ _ _ I) as Hf. rewrite vus in Hf.
  unfold turn, time_is_up, main_turn, vus_turn, launch_turn in *. rewrite Hcfg in *.
  destruct (main r) as [i| | | | |w nx|w q nx|w q nx|w q nx| |k| |] eqn:Hm; try done; try (right; eexists; by left); try (by left); right.
  - destruct (i <? _), (is_active _); eexists; by left.
  - replace (sc_duration cfg <=? elapsed r) with true by lia. rewrite orb_true_r. eexists. by left.
  - destruct (tasks r !! k) as [t|] eqn:Hk; [|eexists; by left]. assert (Ht : t = TDone ∨ t ≠ TDone) by (destruct t; auto).
    destruct Ht as [-> | Ht]; [eexists; by left|]. enough (∃ r', task_turn k r = Some r') as [r' Hr'] by (eexists; right; by exists k).
    unfold task_turn. rewrite Hk. destruct t; try done; try (by eexists). case_match; by eexists.
Qed.
Lemma turns_bounded r m r' : inv r → time_is_up r → nsteps turn m r r' → Z.of_nat m + turns_left r' <= turns_left r ∧ inv r' ∧ time_is_up r'.
Proof.
  intros I Hup Hn. induction Hn as [r|m r1 r2 r3 Ht _ IH]; [split_and!; [lia|done|done]|].
  destruct (turn_costs r1 r2 I Hup Ht) as [Hc Hup2]. pose proof (turn_inv cfg n g max_u64 has_workers r1 r2 I Ht) as I2.
  destruct (IH I2 Hup2) as (H1 & H2 & H3). split_and!; [lia|done|done].
Qed.
End Ending.

(** C34: Once its time is up, a run of virtual users returns: from any state it
    can be in then, every sequence of turns is at most [turns_left] long, and
    one that cannot be continued has ended with the run's return. *)
Theorem vus_run_returns (now : Z) (id : str) (s : Scheduler) (r r1 : Run) :
  well_formed s → scheduler_type (s_config s) = ConstantVUs →
  start_scheduling now id s = inr r → rtc step r r1 → time_is_up r1 →
  ∀ m r2, nsteps turn m r1 r2 →
    Z.of_nat m <= turns_left r1 ∧ (main r2 = Returned ∨ ∃ r3, turn r2 r3).
Proof.
  intros Hwf Hty Hs Hsteps Hup m r2 Hm. pose proof (started_inv now id s r r1 Hwf Hs Hsteps) as I.
  destruct (start_inv now id s r Hwf Hs) as [_ Hw]. destruct Hwf as [Hmax _].
  destruct (turns_bounded _ _ _ Hmax Hw Hty r1 m r2 I Hup Hm) as (Hle & I2 & Hup2).
  split; [|by eapply run_goes_on]. assert (0 <= turns_left r2) by (by eapply turns_left_nonneg). lia.
Qed.

(** ** A rate without end *)
Definition drains_for_ever (m : Main) : Prop :=
  match m with
  | RDrain q | MGenerate _ (NextTick q) | MCount _ _ (NextTick q) | MEnter _ _ (NextTick q) | MLaunch _ _ (NextTick q) => q = S754_infinity false
  | _ => False
  end.
(** At an infinite rate the queue of the first tick never gets shorter: the
    run does not return, however long it takes. *)
Lemma infinite_rate_never_returns r r' : drains_for_ever (main r) → rtc step r r' → drains_for_ever (main r').
Proof.
  intros Hd. induction 1 as [|r r1 r2 Hs _ IH]; [done|]. apply IH. clear IH. destruct Hs as [r r1 [Hm|[k Hk]]|]; [| |done].
  - unfold main_turn, rate_turn, launch_turn in Hm.
    destruct (main r) as [| | | |q|w [|q]|w rq [|q]|w rq [|q]|w rq [|q]| | | |]; try done; simpl in Hd; subst q; try (injection Hm as <-; done).
    simpl in Hm. case_match; by injection Hm as <-.
  - enough (main r1 = main r) as -> by done. unfold task_turn in Hk. repeat case_match; by simplify_eq/=.
Qed.
Definition flood : Scheduler := configure (SchedulerActor_new 4 0) (mk_configure ConstantArrivalRate 128 120 (Some (S754_infinity false))).
Lemma infinite_rate_reached :
  ∃ r r', start_scheduling 0 (lit "p") flood = inr r ∧ rtc step r r' ∧ drains_for_ever (main r').
Proof.
  eexists _, _. split; [reflexivity|]. split.
  - do 2 (eapply rtc_l; [apply step_turn; left; vm_compute; reflexivity|]). apply rtc_refl.
  - reflexivity.
Qed.

(** A run for which no rate is set is refused, and leaves the flag up. *)
Lemma refused_run_is_active s now id :
  scheduler_type (s_config s) = ConstantArrivalRate → rate (s_config s) = None → (0 < workers s)%nat →
  ∃ s', start_scheduling now id s = inl s' ∧ is_active s' = true.
Proof.
  intros Hty Hr Hw. unfold start_scheduling. destruct (Nat.eqb_spec (workers s) 0); [lia|]. rewrite Hty, Hr. by eexists.
Qed.

(** ** Witnesses *)
Definition two_users : Scheduler := configure (SchedulerActor_new 2 7) (mk_configure ConstantVUs 2 1 None).
(** The schedule in which everybody takes a turn, one after the other. *)
Fixpoint in_turn (fuel : nat) (r : Run) : Run :=
  match fuel with
  | O => r
  | S fuel =>
      let r := default r (main_turn r) in
      let r := default r (task_turn 0 r) in
      in_turn fuel (default r (task_turn 1 r))
  end.
Lemma in_turn_steps fuel r : rtc step r (in_turn fuel r).
Proof.
  assert (Hd : ∀ r o, (∀ r', o = Some r' → turn r r') → rtc step r (default r o)).
  { intros r0 [r1|] H; [|done]. apply rtc_once, step_turn. by apply H. }
  revert r. induction fuel as [|fuel IH]; intros r; simpl; [done|].
  etrans; [apply (Hd r (main_turn r)); intros; by left|]. set (ra := default r (main_turn r)).
  etrans; [apply (Hd ra (task_turn 0 ra)); intros; right; by eexists|]. set (rb := default ra (task_turn 0 ra)).
  etrans; [apply (Hd rb (task_turn 1 rb)); intros; right; by eexists|]. apply IH.
Qed.
Definition first_second (r : Run) : Run := mk_run (sched r) (main r) (tasks r) (asked r) (secs 1) (started r).

Lemma requests_asked_once_witness :
  ∃ r r', start_scheduling 0 (lit "p") two_users = inr r ∧ rtc step r r' ∧ main r' = Returned ∧ (length (asked r') = 8)%nat ∧
    active_vus (sched r') <= 2.
Proof.
  eexists _, (in_turn 30 (first_second (in_turn 30 _))). split; [reflexivity|].
  match goal with |- rtc step ?r _ ∧ _ => assert (Hsteps : rtc step r (in_turn 30 (first_second (in_turn 30 r)))) end.
  { etrans; [apply in_turn_steps|]. etrans; [|apply in_turn_steps]. apply rtc_once, step_time. vm_compute. discriminate. }
  split; [exact Hsteps|]. split; [vm_compute; reflexivity|]. split; [vm_compute; reflexivity|].
  destruct (requests_asked_once 0 (lit "p") two_users _ _ ltac:(by vm_compute) eq_refl Hsteps) as [[_ Hle] _]. exact Hle.
Defined.

Lemma vus_run_returns_witness :
  ∃ r r1, start_scheduling 0 (lit "p") two_users = inr r ∧ rtc step r r1 ∧
    ∀ m r2, nsteps turn m r1 r2 → Z.of_nat m <= turns_left r1 ∧ (main r2 = Returned ∨ ∃ r3, turn r2 r3).
Proof.
  eexists _, (first_second (in_turn 5 _)). split; [reflexivity|].
  match goal with |- rtc step ?r _ ∧ _ => assert (Hsteps : rtc step r (first_second (in_turn 5 r))) end.
  { etrans; [apply in_turn_steps|]. apply rtc_once, step_time. vm_compute. discriminate. }
  split; [exact Hsteps|].
  apply (vus_run_returns 0 (lit "p") two_users _ _ ltac:(by vm_compute) eq_refl eq_refl Hsteps). vm_compute. discriminate.
Defined.
