(* ===== verification/Worker.v ===== *)
(** * The benchmark's workers

    [worker.rs]: one streamed request, as the events of its stream, and the
    counters a worker keeps. The stream, its times and the decoding of its
    data are the environment's. *)
From S2P Require Import Prelude Text Float Json Bench Scheduler.

(** What an event's data is, once trimmed: [parse] is [serde_json]. *)
Inductive SseEvent := Open | Message (data : str) | SseError (why : str).
(** An event and the instant at which it comes. *)
Definition Timed : Type := Z * SseEvent.

(** src: crates/pulsing-bench/src/actors/worker.rs 15-31 WorkerActor *)
Record WorkerActor := mk_worker {
  worker_id : str; has_metrics : bool; active_requests : Z; completed_requests : Z; w_failed_requests : Z; timeout_secs : Z }.
(** src: crates/pulsing-bench/src/actors/worker.rs 34-57 WorkerActor::new, with_metrics, with_timeout *)
Definition WorkerActor_new (id : str) (metrics : bool) : WorkerActor := mk_worker id metrics 0 0 0 300.
(** src: crates/pulsing-bench/src/actors/messages.rs 197-204 WorkerStatus *)
Record WorkerStatus := mk_wstatus { ws_worker_id : str; ws_active : Z; ws_completed : Z; ws_failed : Z }.
Definition u32_add (a b : Z) : Z := u32 (a + b).
Definition set_counts (w : WorkerActor) (a c f : Z) : WorkerActor :=
  mk_worker (worker_id w) (has_metrics w) a c f (timeout_secs w).

Section Request.
Context (parse : str → option Value).

(** Milliseconds from the start of the request. *)
Definition since (start t : Z) : float := f64_mul (as_secs_f64 (saturating_sub t start)) (f64_of_Z 1000).
(** The first choice of the data, if it has any. *)
Definition first_choice (data : str) : option Value :=
  json ← parse data; choices ← get (lit "choices") json ≫= as_array; head choices.
Definition content_of (choice : Value) : option str := get (lit "delta") choice ≫= get_str (lit "content").
Definition finishes (choice : Value) : bool :=
  match get_str (lit "finish_reason") choice with
  | Some r => bool_decide (r = lit "stop") || bool_decide (r = lit "length")
  | None => false
  end.
Record Progress := mk_progress { first_token : option Z; token_times : list float; generated : Z; response : str }.
(** The stream: its end or the data that ends it stop the loop, an error ends
    the request.
    src: crates/pulsing-bench/src/actors/worker.rs 126-177 WorkerActor::execute_streaming_request (loop) *)
Fixpoint read_stream (start : Z) (p : Progress) (events : list Timed) : Result Progress str :=
  match events with
  | [] => Ok p
  | (now, Open) :: events => read_stream start p events
  | (now, SseError e) :: _ => Err (lit "SSE error: " ++ e)
  | (now, Message data) :: events =>
      let data := trim data in
      if bool_decide (data = lit "[DONE]") then Ok p
      else
        match first_choice data with
        | None => read_stream start p events
        | Some choice =>
            let p :=
              match content_of choice with
              | Some content =>
                  mk_progress (Some (default now (first_token p))) (token_times p ++ [since start now]) (generated p +w 1) (response p ++ content)
              | None => p
              end in
            if finishes choice then Ok p else read_stream start p events
        end
  end.
(** [finish] is the instant after the loop.
    src: crates/pulsing-bench/src/actors/worker.rs 90-203 WorkerActor::execute_streaming_request *)
Definition execute_streaming_request (req : SendRequest) (start finish : Z) (opened : Result (list Timed) str) : Result RequestCompleted str :=
  let? events := opened in
  let? p := read_stream start (mk_progress None [] 0 []) events in
  let latency_ms := since start finish in
  let ttft_ms := since start <$> first_token p in
  let tpot_ms :=
    if 1 <? Z.of_nat (length (token_times p)) then
      let decode_time := f64_sub latency_ms (default f_zero ttft_ms) in
      Some (f64_div decode_time (f_max (f64_sub (f64_of_Z (generated p)) (f64_of_Z 1)) (f64_of_Z 1)))
    else None in
  Ok (mk_completed (sr_request_id req) true None ttft_ms latency_ms (generated p) (rt_num_prompt_tokens (sr_template req)) tpot_ms (token_times p)).
(** src: crates/pulsing-bench/src/actors/worker.rs 59-88 WorkerActor::send_request *)
Definition send_request (w : WorkerActor) (req : SendRequest) (start finish : Z) (opened : Result (list Timed) str) : WorkerActor * RequestCompleted :=
  let w := set_counts w (u32_add (active_requests w) 1) (completed_requests w) (w_failed_requests w) in
  let result := execute_streaming_request req start finish opened in
  let w := set_counts w (u32 (active_requests w - 1)) (completed_requests w) (w_failed_requests w) in
  match result with
  | Ok completed => (set_counts w (active_requests w) (completed_requests w +w 1) (w_failed_requests w), completed)
  | Err e =>
      (set_counts w (active_requests w) (completed_requests w) (w_failed_requests w +w 1),
       mk_completed (sr_request_id req) false (Some e) None (since start finish) 0 (rt_num_prompt_tokens (sr_template req)) None [])
  end.
(** The reply, and what the aggregator is told first.
    src: crates/pulsing-bench/src/actors/worker.rs 227-265 WorkerActor::receive *)
Definition worker_receive (w : WorkerActor) (req : SendRequest) (start finish : Z) (opened : Result (list Timed) str)
    : WorkerActor * list AggMessage * RequestCompleted :=
  let '(w, result) := send_request w req start finish opened in
  (w, if has_metrics w then [MRequestCompleted result] else [], result).
Definition worker_status (w : WorkerActor) : WorkerStatus :=
  mk_wstatus (worker_id w) (active_requests w) (completed_requests w) (w_failed_requests w).

(** ** Lemmas *)
(** The tokens of a stream: what comes with content, until it ends. *)
Fixpoint tokens (events : list Timed) : list (Z * str) :=
  match events with
  | (now, Message data) :: events =>
      if bool_decide (trim data = lit "[DONE]") then []
      else match first_choice (trim data) with
           | None => tokens events
           | Some choice => option_list ((λ c, (now, c)) <$> content_of choice) ++ (if finishes choice then [] else tokens events)
           end
  | (_, Open) :: events => tokens events
  | _ => []
  end.
Lemma read_stream_tokens start p events p' g :
  generated p = u64 g → read_stream start p events = Ok p' →
  token_times p' = token_times p ++ (since start <$> (tokens events).*1) ∧
  generated p' = u64 (g + Z.of_nat (length (tokens events))) ∧
  first_token p' = match first_token p with Some t => Some t | None => head (tokens events).*1 end ∧
  response p' = response p ++ concat (tokens events).*2.
Proof.
  revert p g. induction events as [|[now [|data|e]] events IH]; intros p g Hg H; simpl in *; [|by apply IH| |done].
  - injection H as <-. rewrite !app_nil_r, Z.add_0_r. by destruct (first_token p).
  - case_bool_decide; [injection H as <-; simpl; rewrite !app_nil_r, Z.add_0_r; by destruct (first_token p)|].
    destruct (first_choice (trim data)) as [choice|]; [|by apply IH].
    destruct (content_of choice) as [content|]; simpl.
    + destruct (finishes choice); simpl in *.
      * injection H as <-. simpl. rewrite !app_nil_r, Hg. split_and!; [done| |by destruct (first_token p)|done].
        unfold u64_add, u64. by rewrite Zplus_mod_idemp_l.
      * apply (IH _ (g + 1)) in H as (-> & -> & -> & ->); simpl.
        -- rewrite <- !(assoc_L (++)). split_and!; [done|f_equal; lia|by destruct (first_token p)|done].
        -- rewrite Hg. unfold u64_add, u64. by rewrite Zplus_mod_idemp_l.
    + destruct (finishes choice); simpl in *; [|by apply IH].
      injection H as <-. rewrite !app_nil_r, Z.add_0_r. by destruct (first_token p).
Qed.

(** A request is measured by its tokens: when its stream ends well, the
    token times are the times of the pieces of content that came before the
    end, their number is counted, the time to the first token is that of the
    first, and there is a time per token just when there are two; either way
    the worker is as idle as before, and exactly one of its counters of
    completed and failed requests has grown, by one. *)
Theorem request_measured (w w' : WorkerActor) (req : SendRequest) (start finish : Z) (opened : Result (list Timed) str) (c : RequestCompleted) :
  is_u32 (active_requests w) → send_request w req start finish opened = (w', c) →
  active_requests w' = active_requests w ∧ rc_request_id c = sr_request_id req ∧
  (if rc_success c then
     completed_requests w' = completed_requests w +w 1 ∧ w_failed_requests w' = w_failed_requests w ∧
     ∃ events, opened = Ok events ∧
       rc_token_times_ms c = since start <$> (tokens events).*1 ∧
       rc_generated_tokens c = u64 (Z.of_nat (length (tokens events))) ∧
       rc_ttft_ms c = since start <$> head (tokens events).*1 ∧
       (is_Some (rc_tpot_ms c) ↔ (2 <= length (tokens events))%nat)
   else
     completed_requests w' = completed_requests w ∧ w_failed_requests w' = w_failed_requests w +w 1 ∧
     rc_token_times_ms c = [] ∧ rc_generated_tokens c = 0).
Proof.
  intros Ha. assert (Hact : u32 (u32_add (active_requests w) 1 - 1) = active_requests w).
  { unfold u32_add, u32. rewrite Zminus_mod_idemp_l. replace (active_requests w + 1 - 1) with (active_requests w) by lia. by apply Z.mod_small. }
  unfold send_request. simpl. rewrite Hact. unfold execute_streaming_request.
  destruct opened as [events|e]; simpl; [|by intros [= <- <-]].
  destruct (read_stream start (mk_progress None [] 0 []) events) as [p|e] eqn:Hp; simpl; [|by intros [= <- <-]].
  intros [= <- <-]. simpl. apply (read_stream_tokens start _ _ _ 0) in Hp as (Ht & Hg & Hf & _); [|done]. simpl in *.
  split_and!; [done|done|done|done|]. exists events. split_and!; [done|done|done|by rewrite Hf|].
  rewrite Ht, !length_fmap. destruct (Z.ltb_spec 1 (Z.of_nat (length (tokens events)))).
  - split; [lia|by eexists].
  - split; [by intros []|lia].
Qed.
End Request.

(** ** Witness *)
(** A decoder that knows one word. *)
Definition sample_parse (s : str) : option Value :=
  if bool_decide (s = lit "hi") then
    Some (Object [(lit "choices", Array [Object [(lit "delta", Object [(lit "content", Text (lit "hi"))])]])])
  else None.
Definition sample_request : SendRequest := mk_send (lit "req-0") (mk_template (lit "req-0") (lit "say hi") 2 None) [] [] [].
Definition sample_events : Result (list Timed) str :=
  Ok [(1, Open); (secs 1, Message (lit "hi")); (secs 2, Message (lit " hi ")); (secs 3, Message (lit "[DONE]")); (secs 4, Message (lit "hi"))].
Lemma request_measured_witness :
  ∃ w' c, send_request sample_parse (WorkerActor_new (lit "w") true) sample_request 0 (secs 3) sample_events = (w', c) ∧
    active_requests w' = 0 ∧ rc_token_times_ms c = [f64_of_Z 1000; f64_of_Z 2000].
Proof.
  eexists _, _. split; [vm_compute; reflexivity|].
  destruct (request_measured sample_parse (WorkerActor_new (lit "w") true) _ sample_request 0 (secs 3) sample_events _
    ltac:(by vm_compute) eq_refl) as (Ha & _ & _).
  split; [exact Ha|vm_compute; reflexivity].
Defined.
