(* ===== verification/Coordinator.v ===== *)
(** * The benchmark's coordinator and its workers

    [coordinator.rs] and [worker.rs]. What the coordinator does to other actors
    is an effect, which succeeds or not as the environment says; a handler
    leaves the coordinator and the list of its effects behind even when an
    error ends it early. *)
From S2P Require Import Prelude Text Float Json Bench Scheduler.

(** ** Phases *)
(** src: crates/pulsing-bench/src/actors/messages.rs 92-100 BenchmarkPhase *)
Inductive BenchmarkPhase := Initializing | Warmup | Running | Cooldown | Completed | Failed (why : str).
(** src: crates/pulsing-bench/src/actors/coordinator.rs 21-27 CoordinatorState *)
Inductive CoordinatorState := Idle | RunningRun (run_id : str) | Stopping.
(** src: crates/pulsing-bench/src/actors/coordinator.rs 29-38 PhaseDefinition *)
Record PhaseDefinition := mk_phase {
  pf_phase_id : str; pf_phase_name : str; pf_scheduler_type : SchedulerType; pf_max_vus : Z; pf_duration_secs : Z; pf_rate : option float }.
Definition level_step (level : Z) : Z := if level <? 10 then 1 else if level <? 50 then 5 else if level <? 100 then 10 else 20.
(** The loop of levels, with fuel; [None] when it runs out.
    src: crates/pulsing-bench/src/actors/coordinator.rs 341-353 CoordinatorActor::generate_concurrency_levels (loop) *)
Fixpoint levels_from (fuel : nat) (level max_vus : Z) : option (list Z) :=
  match fuel with
  | O => None
  | S fuel =>
      if level <=? max_vus then ls ← levels_from fuel (level +w level_step level) max_vus; Some (level :: ls) else Some []
  end.
(** src: crates/pulsing-bench/src/actors/coordinator.rs 338-358 CoordinatorActor::generate_concurrency_levels *)
Definition generate_concurrency_levels (max_vus : Z) : option (list Z) :=
  ls ← levels_from (S (Z.to_nat max_vus)) 2 max_vus;
  let levels := 1 :: ls in
  Some (if bool_decide (max_vus ∈ levels) then levels else levels ++ [max_vus]).
Definition vus_phase (c : BenchmarkConfig) (id name : str) (vus : Z) : PhaseDefinition :=
  mk_phase id name ConstantVUs vus (cfg_duration_secs c) None.
Definition rate_phase (c : BenchmarkConfig) (id name : str) (rate : float) : PhaseDefinition :=
  mk_phase id name ConstantArrivalRate (cfg_max_vus c) (cfg_duration_secs c) (Some rate).
(** src: crates/pulsing-bench/src/actors/coordinator.rs 255-336 CoordinatorActor::generate_phases *)
Definition generate_phases (c : BenchmarkConfig) : option (list PhaseDefinition) :=
  let each {A} (f : A → PhaseDefinition) (l : list A) := f <$> l in
  let kind := cfg_benchmark_kind c in
  if bool_decide (kind = lit "throughput") then Some [vus_phase c (lit "throughput") (lit "Max Throughput") (cfg_max_vus c)]
  else if bool_decide (kind = lit "sweep") then
    Some (vus_phase c (lit "throughput-discovery") (lit "Throughput Discovery") (cfg_max_vus c) ::
      each (λ i : nat,
         let i := Z.of_nat i in
         let rate_ratio := f64_div (f64_of_Z i) (f64_of_Z (cfg_num_rates c)) in
         rate_phase c (lit "rate-" ++ display_u128 i)
           (lit "Rate Sweep " ++ display_u128 i ++ lit "/" ++ display_u128 (cfg_num_rates c))
           (f64_mul rate_ratio hundred)) (seq 1 (Z.to_nat (cfg_num_rates c))))
  else if bool_decide (kind = lit "rate") then
    Some (each (λ rate, rate_phase c (lit "rate@" ++ display_fixed 1 rate ++ lit "reqs")
                     (lit "Rate " ++ display_fixed 1 rate ++ lit " req/s") rate) (default [] (cfg_rates c)))
  else if bool_decide (kind = lit "csweep") then
    levels ← generate_concurrency_levels (cfg_max_vus c);
    Some (each (λ vus, vus_phase c (lit "concurrency#" ++ display_u128 vus ++ lit "vus")
                    (lit "Concurrency " ++ display_u128 vus ++ lit " VUs") vus) levels)
  else Some [vus_phase c (lit "unknown") (lit "Unknown") (cfg_max_vus c)].
Definition warmup_phase (c : BenchmarkConfig) : PhaseDefinition :=
  mk_phase (lit "warmup") (lit "Warmup") ConstantVUs 1 (cfg_warmup_secs c) None.

(** ** The coordinator *)
(** Other actors are known by the names they were spawned with.
    src: crates/pulsing-bench/src/actors/coordinator.rs 40-68 CoordinatorActor *)
Record CoordinatorActor := mk_coordinator {
  system : bool; co_state : CoordinatorState; co_phase : option BenchmarkPhase; co_config : option BenchmarkConfig;
  co_workers : list str; scheduler_ref : option str; metrics_ref : option str; co_renderer : option str;
  num_workers : nat; display_enabled : bool; final_report : option BenchmarkReport }.
(** src: crates/pulsing-bench/src/actors/coordinator.rs 71-87 CoordinatorActor::new *)
Definition CoordinatorActor_new (system : bool) (num_workers : nat) (display : bool) : CoordinatorActor :=
  mk_coordinator system Idle None None [] None None None num_workers display None.
(** src: crates/pulsing-bench/src/actors/messages.rs 71-76 StartBenchmark *)
Record StartBenchmark := mk_start { sb_config : BenchmarkConfig; sb_run_id : str }.
(** src: crates/pulsing-bench/src/actors/messages.rs 78-83 StopBenchmark *)
Record StopBenchmark := mk_stop { st_run_id : str; st_reason : str }.
(** src: crates/pulsing-bench/src/actors/messages.rs 292-296 AckMessage *)
Record AckMessage := mk_ack { ack_success : bool; ack_message : str }.
Definition ack_ok : AckMessage := mk_ack true (lit "OK").
Definition ack_error (m : str) : AckMessage := mk_ack false m.

Inductive Effect :=
  | Spawn (name : str)
  | TellScheduler (m : SchedMessage)
  | AskScheduler (m : SchedMessage)
  | TellMetrics (m : AggMessage)
  | AskMetrics (m : AggMessage)
  | StopActor (name : str)
  | Sleep (ms : Z).

(** What the environment answers, given the effects so far. *)
Class Env := {
  succeeds : list Effect → Effect → bool;
  why : list Effect → Effect → str;
  report_of : list Effect → option BenchmarkReport
}.

Section Handlers.
Context {E : Env}.
Record World := mk_world { co : CoordinatorActor; effects : list Effect }.
(** A step of a handler: [Err] is an error that ends it. *)
Definition M (A : Type) : Type := World → World * Result A str.
Definition ret {A} (a : A) : M A := λ w, (w, Ok a).
Definition bind {A B} (m : M A) (k : A → M B) : M B :=
  λ w, match m w with (w', Ok a) => k a w' | (w', Err e) => (w', Err e) end.
Notation "'do' x <- m ; k" := (bind m (λ x, k)) (at level 200, x pattern, m at level 100, k at level 200).
Definition fail {A} (e : str) : M A := λ w, (w, Err e).
Definition modify (f : CoordinatorActor → CoordinatorActor) : M unit := λ w, (mk_world (f (co w)) (effects w), Ok tt).
Definition reads {A} (f : CoordinatorActor → A) : M A := λ w, (w, Ok (f (co w))).
(** An effect that is waited for with [?]. *)
Definition perform (e : Effect) : M unit :=
  λ w, if succeeds (effects w) e then (mk_world (co w) (effects w ++ [e]), Ok tt) else (w, Err (why (effects w) e)).
(** An effect whose failure is ignored. *)
Definition attempt (e : Effect) : M unit :=
  λ w, (if succeeds (effects w) e then mk_world (co w) (effects w ++ [e]) else w, Ok tt).
(** A step whose error is kept for later. *)
Definition catch {A} (m : M A) : M (Result A str) := λ w, let '(w', r) := m w in (w', Ok r).
Fixpoint each {A} (l : list A) (f : A → M unit) : M unit :=
  match l with [] => ret tt | x :: l => do _ <- f x; each l f end.

Definition set_state (s : CoordinatorState) (c : CoordinatorActor) : CoordinatorActor :=
  mk_coordinator (system c) s (co_phase c) (co_config c) (co_workers c) (scheduler_ref c) (metrics_ref c) (co_renderer c)
    (num_workers c) (display_enabled c) (final_report c).
Definition set_phase (p : BenchmarkPhase) (c : CoordinatorActor) : CoordinatorActor :=
  mk_coordinator (system c) (co_state c) (Some p) (co_config c) (co_workers c) (scheduler_ref c) (metrics_ref c) (co_renderer c)
    (num_workers c) (display_enabled c) (final_report c).
Definition set_config (x : BenchmarkConfig) (c : CoordinatorActor) : CoordinatorActor :=
  mk_coordinator (system c) (co_state c) (co_phase c) (Some x) (co_workers c) (scheduler_ref c) (metrics_ref c) (co_renderer c)
    (num_workers c) (display_enabled c) (final_report c).
Definition set_workers (ws : list str) (c : CoordinatorActor) : CoordinatorActor :=
  mk_coordinator (system c) (co_state c) (co_phase c) (co_config c) ws (scheduler_ref c) (metrics_ref c) (co_renderer c)
    (num_workers c) (display_enabled c) (final_report c).
Definition set_scheduler (x : str) (c : CoordinatorActor) : CoordinatorActor :=
  mk_coordinator (system c) (co_state c) (co_phase c) (co_config c) (co_workers c) (Some x) (metrics_ref c) (co_renderer c)
    (num_workers c) (display_enabled c) (final_report c).
Definition set_metrics (x : str) (c : CoordinatorActor) : CoordinatorActor :=
  mk_coordinator (system c) (co_state c) (co_phase c) (co_config c) (co_workers c) (scheduler_ref c) (Some x) (co_renderer c)
    (num_workers c) (display_enabled c) (final_report c).
Definition set_renderer (x : str) (c : CoordinatorActor) : CoordinatorActor :=
  mk_coordinator (system c) (co_state c) (co_phase c) (co_config c) (co_workers c) (scheduler_ref c) (metrics_ref c) (Some x)
    (num_workers c) (display_enabled c) (final_report c).
Definition set_report (x : BenchmarkReport) (c : CoordinatorActor) : CoordinatorActor :=
  mk_coordinator (system c) (co_state c) (co_phase c) (co_config c) (co_workers c) (scheduler_ref c) (metrics_ref c) (co_renderer c)
    (num_workers c) (display_enabled c) (Some x).
Definition forget_actors (c : CoordinatorActor) : CoordinatorActor :=
  mk_coordinator (system c) Idle (co_phase c) (co_config c) [] None None None (num_workers c) (display_enabled c) (final_report c).

Definition worker_name (run_id : str) (i : nat) : str := lit "worker-" ++ run_id ++ lit "-" ++ display_u128 (Z.of_nat i).
Definition start_message (run_id : str) (p : PhaseDefinition) : StartPhase :=
  mk_start_phase run_id (pf_phase_id p) (pf_phase_name p) (pf_scheduler_type p) (pf_rate p).
(** The acknowledgement of a start is not looked at.
    src: crates/pulsing-bench/src/actors/coordinator.rs 360-407 CoordinatorActor::run_phase *)
Definition run_phase (run_id : str) (p : PhaseDefinition) : M unit :=
  do sched <- reads scheduler_ref;
  do metrics <- reads metrics_ref;
  match sched, metrics with
  | None, _ => fail (lit "Scheduler not initialized")
  | _, None => fail (lit "Metrics not initialized")
  | Some _, Some _ =>
      do _ <- perform (TellScheduler (Configure (mk_configure (pf_scheduler_type p) (pf_max_vus p) (pf_duration_secs p) (pf_rate p))));
      do _ <- perform (TellMetrics (MStartPhase (start_message run_id p)));
      do _ <- perform (AskScheduler (StartScheduling (pf_phase_id p)));
      perform (TellMetrics (MEndPhase (mk_end_phase run_id (pf_phase_id p))))
  end.
(** src: crates/pulsing-bench/src/actors/coordinator.rs 221-253 CoordinatorActor::run_benchmark_phases *)
Definition run_benchmark_phases (run_id : str) (config : BenchmarkConfig) (phases : list PhaseDefinition) : M unit :=
  do _ <- modify (set_phase Warmup);
  do _ <- run_phase run_id (warmup_phase config);
  do _ <- modify (set_phase Running);
  do _ <- each phases (run_phase run_id);
  do _ <- modify (set_phase Cooldown);
  attempt (Sleep 2000).
(** src: crates/pulsing-bench/src/actors/coordinator.rs 409-444 CoordinatorActor::cleanup *)
Definition cleanup (run_id : str) : M unit :=
  do has_system <- reads system;
  if negb has_system then ret tt
  else
    do c <- reads id;
    do _ <- (if scheduler_ref c then attempt (StopActor (lit "scheduler-" ++ run_id)) else ret tt);
    do _ <- each (seq 0 (num_workers c)) (λ i, attempt (StopActor (worker_name run_id i)));
    do _ <- (if metrics_ref c then attempt (StopActor (lit "metrics-" ++ run_id)) else ret tt);
    do _ <- (if co_renderer c then
               do _ <- attempt (Sleep 100); attempt (StopActor (lit "renderer-" ++ run_id))
             else ret tt);
    modify forget_actors.
(** Everything up to the scheduler's start; any error in it ends the handler.
    src: crates/pulsing-bench/src/actors/coordinator.rs 125-186 CoordinatorActor::start_benchmark (set-up) *)
Definition set_up (start : StartBenchmark) : M unit :=
  let run_id := sb_run_id start in
  do _ <- modify (λ c, set_phase Initializing (set_state (RunningRun run_id) (set_config (sb_config start) c)));
  do c <- reads id;
  do _ <- (if display_enabled c then
             do _ <- perform (Spawn (lit "renderer-" ++ run_id)); modify (set_renderer (lit "renderer-" ++ run_id))
           else ret tt);
  do _ <- perform (Spawn (lit "metrics-" ++ run_id));
  do _ <- modify (set_metrics (lit "metrics-" ++ run_id));
  do _ <- perform (TellMetrics (MRegisterRun (mk_register run_id (sb_config start))));
  do _ <- modify (set_workers []);
  do _ <- each (seq 0 (num_workers c)) (λ i,
            do _ <- perform (Spawn (worker_name run_id i));
            modify (λ c, set_workers (co_workers c ++ [worker_name run_id i]) c));
  do _ <- perform (Spawn (lit "scheduler-" ++ run_id));
  modify (set_scheduler (lit "scheduler-" ++ run_id)).
(** [phases] are those the configuration asks for.
    src: crates/pulsing-bench/src/actors/coordinator.rs 114-219 CoordinatorActor::start_benchmark *)
Definition start_benchmark (start : StartBenchmark) (phases : list PhaseDefinition) : M AckMessage :=
  do c <- reads id;
  match co_state c with
  | Idle =>
      if negb (system c) then fail (lit "ActorSystem not configured")
      else
        do _ <- set_up start;
        do result <- catch (run_benchmark_phases (sb_run_id start) (sb_config start) phases);
        do metrics <- reads metrics_ref;
        do _ <- (if metrics then λ w,
                   if succeeds (effects w) (AskMetrics MGetReport) then
                     let w' := mk_world (co w) (effects w ++ [AskMetrics MGetReport]) in
                     match report_of (effects w) with Some r => modify (set_report r) w' | None => (w', Ok tt) end
                   else (w, Ok tt)
                 else ret tt);
        do _ <- cleanup (sb_run_id start);
        match result with
        | Ok _ => do _ <- modify (set_phase Completed); ret ack_ok
        | Err e => do _ <- modify (set_phase (Failed e)); ret (ack_error e)
        end
  | _ => ret (ack_error (lit "Benchmark already running"))
  end.
(** src: crates/pulsing-bench/src/actors/coordinator.rs 446-465 CoordinatorActor::stop_benchmark *)
Definition stop_benchmark (stop : StopBenchmark) : M AckMessage :=
  do c <- reads id;
  match co_state c with
  | RunningRun run_id =>
      if negb (bool_decide (run_id = st_run_id stop)) then ret (ack_error (lit "Run ID mismatch"))
      else
        do _ <- modify (set_state Stopping);
        do _ <- (if scheduler_ref c then attempt (TellScheduler PauseScheduling) else ret tt);
        do _ <- cleanup (st_run_id stop);
        ret ack_ok
  | _ => ret (ack_error (lit "No benchmark running"))
  end.
(** src: crates/pulsing-bench/src/actors/messages.rs 102-109 CoordinatorStatus *)
Record CoordinatorStatus := mk_status { cst_run_id : option str; cst_phase : option BenchmarkPhase; cst_workers : Z; cst_active : Z }.
(** src: crates/pulsing-bench/src/actors/coordinator.rs 467-479 CoordinatorActor::get_status *)
Definition get_status (c : CoordinatorActor) : CoordinatorStatus :=
  let '(run_id, phase) := match co_state c with RunningRun id => (Some id, co_phase c) | _ => (None, None) end in
  mk_status run_id phase (u32 (Z.of_nat (length (co_workers c)))) 0.

Inductive CoMessage := StartB (s : StartBenchmark) (phases : list PhaseDefinition) | StopB (s : StopBenchmark) | GetStatus | GetReportB.
Inductive CoReply := Ack (a : AckMessage) | Status (s : CoordinatorStatus) | CoReport (r : BenchmarkReport).
(** A start comes with the phases its configuration asks for.
    src: crates/pulsing-bench/src/actors/coordinator.rs 500-545 CoordinatorActor::receive *)
Definition co_receive (m : CoMessage) : M CoReply :=
  match m with
  | StartB s phases => do a <- start_benchmark s phases; ret (Ack a)
  | StopB s => do a <- stop_benchmark s; ret (Ack a)
  | GetStatus => do c <- reads id; ret (Status (get_status c))
  | GetReportB =>
      do c <- reads id;
      match metrics_ref c with
      | Some _ => λ w, match report_of (effects w) with
                       | Some r => (mk_world (co w) (effects w ++ [AskMetrics MGetReport]), Ok (CoReport r))
                       | None => (w, Err (why (effects w) (AskMetrics MGetReport)))
                       end
      | None => match final_report c with Some r => ret (CoReport r) | None => fail (lit "No report available") end
      end
  end.
End Handlers.
#[global] Arguments World : clear implicits.
#[global] Arguments M : clear implicits.
