(* ===== verification/CoordinatorFacts.v ===== *)
(** * Properties of the benchmark's coordinator *)
From S2P Require Import Prelude Text Float Json Bench Scheduler Coordinator.

(** ** Concurrency levels *)
Lemma list_last_cons (a d : Z) ls : List.last (a :: ls) d = List.last ls a.
Proof. revert a d. induction ls as [|x ls IH]; intros a d; [done|]. change (List.last (x :: ls) d = List.last (x :: ls) a). by rewrite !IH. Qed.
Lemma last_list_last (a : Z) ls : last (a :: ls) = Some (List.last ls a).
Proof. revert a. induction ls as [|x ls IH]; intros a; [done|]. by rewrite last_cons_cons, IH, list_last_cons. Qed.
Lemma level_step_range x : 1 <= level_step x <= 20.
Proof. unfold level_step. simp_match; lia. Qed.

(** Neighbours are at most a step apart. *)
Definition close_steps (ls : list Z) : Prop := ∀ i x y, ls !! i = Some x → ls !! S i = Some y → y - x <= level_step x.
Lemma close_steps_cons x y ls : close_steps (y :: ls) → y - x <= level_step x → close_steps (x :: y :: ls).
Proof. intros H Hxy [|i] a b Ha Hb; simplify_eq/=; [done|]. by apply (H i). Qed.

Lemma close_steps_snoc ls x y : close_steps ls → last ls = Some x → y - x <= level_step x → close_steps (ls ++ [y]).
Proof.
  intros H Hl Hxy i a b Ha Hb. destruct (decide (S i < length ls)%nat) as [Hlt|Hge].
  - rewrite !lookup_app_l in * by lia. by apply (H i).
  - rewrite lookup_app_r in Hb by lia. destruct (S i - length ls)%nat as [|j] eqn:Hj; [|by destruct j]. injection Hb as <-.
    rewrite lookup_app_l in Ha by lia.
    rewrite last_lookup in Hl. replace (pred (length ls)) with i in Hl by lia. by simplify_eq.
Qed.
Lemma sorted_snoc (ls : list Z) y : StronglySorted Z.lt ls → Forall (λ x, x < y) ls → StronglySorted Z.lt (ls ++ [y]).
Proof.
  induction 1 as [|x ls Hs IH Hx]; intros Hy; simpl; [repeat constructor|]. apply Forall_cons in Hy as [Hxy Hy].
  constructor; [by apply IH|]. apply Forall_app. split; [done|]. by constructor.
Qed.
Lemma sorted_last (ls : list Z) x m : StronglySorted Z.lt ls → last ls = Some x → m ∈ ls → Forall (λ y, y <= m) ls → x = m.
Proof.
  intros Hs Hl Hin Hle. assert (Hx : x <= m) by (rewrite Forall_forall in Hle; apply Hle; by apply last_Some_elem_of).
  enough (m <= x) by lia. clear Hx Hle. induction Hs as [|a ls Hs IH Ha]; [done|]. destruct ls as [|b ls].
  - injection Hl as <-. apply list_elem_of_singleton in Hin. lia.
  - apply elem_of_cons in Hin as [-> | Hin]; [|by apply IH]. rewrite Forall_forall in Ha.
    assert (Hx : x ∈ b :: ls) by by apply last_Some_elem_of. specialize (Ha x Hx). lia.
Qed.

Lemma levels_from_spec fuel level max_vus prev :
  1 <= prev < level → level - prev <= level_step prev → max_vus < two64 - 20 →
  Z.max 0 (max_vus + 1 - level) < Z.of_nat fuel →
  ∃ ls, levels_from fuel level max_vus = Some ls ∧ StronglySorted Z.lt (prev :: ls) ∧ Forall (λ x, level <= x <= max_vus) ls ∧
    close_steps (prev :: ls) ∧ max_vus - List.last ls prev <= level_step (List.last ls prev).
Proof.
  revert level prev. induction fuel as [|fuel IH]; intros level prev Hp Hstep Hmax Hf; [lia|]. simpl.
  destruct (Z.leb_spec level max_vus) as [Hle|Hgt].
  - pose proof (level_step_range level) as Hr.
    assert (level +w level_step level = level + level_step level) as -> by (apply u64_add_small; unfold is_u64; lia).
    destruct (IH (level + level_step level) level) as (ls & -> & Hs & Hb & Hc & Hlast); [lia..|].
    exists (level :: ls). split; [done|].
    assert (Hb' : Forall (λ x, level <= x <= max_vus) (level :: ls))
      by (constructor; [lia|]; eapply Forall_impl; [exact Hb|]; simpl; lia).
    split_and!; [|done|by apply close_steps_cons|by rewrite list_last_cons].
    constructor; [done|]. eapply Forall_impl; [exact Hb'|]. simpl. lia.
  - exists []. split_and!; [done|repeat constructor|constructor| |simpl; lia]. intros [|i] x y; simpl; done.
Qed.

(** The levels of a concurrency sweep cover the range: for a limit of at
    least one (and short of the top of [u64]) the loop ends, the levels rise
    strictly from one to the limit, and from each to the next is at most the
    step that is due at it. *)
Theorem levels_cover_range (max_vus : Z) :
  1 <= max_vus < two64 - 20 →
  ∃ ls, generate_concurrency_levels max_vus = Some ls ∧ StronglySorted Z.lt ls ∧
    head ls = Some 1 ∧ last ls = Some max_vus ∧ close_steps ls.
Proof.
  intros Hm. unfold generate_concurrency_levels.
  destruct (levels_from_spec (S (Z.to_nat max_vus)) 2 max_vus 1) as (ls & -> & Hs & Hb & Hc & Hlast); [lia|done|lia|lia|].
  cbn [mbind option_bind]. eexists. split; [reflexivity|]. assert (Hle : Forall (λ x, x <= max_vus) (1 :: ls)).
  { constructor; [lia|]. eapply Forall_impl; [exact Hb|]. simpl. lia. }
  pose proof (last_list_last 1 ls) as Hl.
  case_bool_decide as Hin.
  - split_and!; [done|done| |done]. rewrite Hl. f_equal.
    by apply (sorted_last (1 :: ls)).
  - split_and!; [|done|by rewrite last_snoc|].
    + apply sorted_snoc; [done|]. rewrite Forall_forall in Hle |- *. intros x Hx. specialize (Hle x Hx).
      assert (x ≠ max_vus) by (by intros ->). lia.
    + by apply close_steps_snoc with (List.last ls 1).
Qed.

(** ** What handlers do

    [triple P m Q X]: from a state in [P], [m] ends in [Q] with its result, or
    by an error in [X]. *)
Section Triples.
Context {E : Env}.
Definition triple {A} (P : World → Prop) (m : M A) (Q : A → World → Prop) (X : World → Prop) : Prop :=
  ∀ w, P w → match m w with (w', Ok a) => Q a w' | (w', Err _) => X w' end.

Lemma triple_ret {A} (a : A) (Q : A → World → Prop) X : triple (Q a) (ret a) Q X.
Proof. by intros w Hw. Qed.
Lemma triple_fail {A} e (Q : A → World → Prop) (X : World → Prop) : triple X (fail e) Q X.
Proof. by intros w Hw. Qed.
Lemma triple_bind {A B} P R (Q : B → World → Prop) X (m : M A) k :
  triple P m R X → (∀ a, triple (R a) (k a) Q X) → triple P (bind m k) Q X.
Proof.
  intros Hm Hk w Hw. specialize (Hm w Hw). unfold bind. destruct (m w) as [w' [a|e]]; [by apply Hk|done].
Qed.
Lemma triple_weaken {A} (P P' : World → Prop) (Q Q' : A → World → Prop) (X X' : World → Prop) m :
  triple P m Q X → (∀ w, P' w → P w) → (∀ a w, Q a w → Q' a w) → (∀ w, X w → X' w) → triple P' m Q' X'.
Proof. intros Hm HP HQ HX w Hw. specialize (Hm w (HP w Hw)). destruct (m w) as [w' [a|e]]; auto. Qed.
Lemma triple_modify f (Q : unit → World → Prop) X : triple (λ w, Q tt (mk_world (f (co w)) (effects w))) (modify f) Q X.
Proof. by intros w Hw. Qed.
Lemma triple_reads {A} (f : CoordinatorActor → A) (Q : A → World → Prop) X : triple (λ w, Q (f (co w)) w) (reads f) Q X.
Proof. by intros w Hw. Qed.
Lemma triple_perform e (Q : unit → World → Prop) (X : World → Prop) :
  triple (λ w, Q tt (mk_world (co w) (effects w ++ [e])) ∧ X w) (perform e) Q X.
Proof. intros w [H1 H2]. unfold perform. by destruct (succeeds _ _). Qed.
Lemma triple_attempt e (Q : unit → World → Prop) X :
  triple (λ w, Q tt (mk_world (co w) (effects w ++ [e])) ∧ Q tt w) (attempt e) Q X.
Proof. intros w [H1 H2]. unfold attempt. by destruct (succeeds _ _). Qed.
Lemma triple_each {A} (P : World → Prop) (X : World → Prop) (l : list A) f :
  (∀ x, triple P (f x) (λ _, P) X) → triple P (each l f) (λ _, P) X.
Proof.
  intros Hf. induction l as [|x l IH]; [apply (triple_ret tt (λ _, P))|]. simpl. by eapply triple_bind.
Qed.
Lemma triple_catch {A} P (Q : Result A str → World → Prop) (m : M A) X :
  triple P m (λ a, Q (Ok a)) (Q (Err [])) → (∀ e w, Q (Err []) w → Q (Err e) w) → triple P (catch m) Q X.
Proof.
  intros Hm HE w Hw. specialize (Hm w Hw). unfold catch. destruct (m w) as [w' [a|e]]; [done|by apply HE].
Qed.
End Triples.

(** ** Between messages *)
Definition pauses (es : list Effect) : Prop := TellScheduler PauseScheduling ∈ es.
Record rests (w : World) : Prop := {
  rest_scheduler : scheduler_ref (co w) = None;
  rest_state : co_state (co w) ≠ Stopping;
  rest_system : system (co w) = false → co_state (co w) = Idle;
  rest_idle : co_state (co w) = Idle → metrics_ref (co w) = None ∧ co_renderer (co w) = None ∧ co_workers (co w) = [];
  rest_effects : ¬ pauses (effects w)
}.
Definition busy (w : World) : Prop := system (co w) = true ∧ ¬ pauses (effects w).
Definition setting_up (run_id : str) (w : World) : Prop :=
  busy w ∧ scheduler_ref (co w) = None ∧ co_state (co w) = RunningRun run_id.

Section Coordinator.
Context {E : Env}.

(** What holds of the coordinator is not changed by an effect. *)
Definition stable (P : World → Prop) : Prop :=
  ∀ w e, P w → e ≠ TellScheduler PauseScheduling → P (mk_world (co w) (effects w ++ [e])).
Lemma not_pauses es e : ¬ pauses es → e ≠ TellScheduler PauseScheduling → ¬ pauses (es ++ [e]).
Proof. unfold pauses. set_solver. Qed.
Lemma busy_stable : stable busy.
Proof. intros w e [H1 H2] He. split; [done|by apply not_pauses]. Qed.
Lemma setting_up_stable id : stable (setting_up id).
Proof. intros w e (H1 & H2 & H3) He. split_and!; [by apply busy_stable|done|done]. Qed.

Lemma perform_keeps P e : stable P → e ≠ TellScheduler PauseScheduling → triple P (perform e) (λ _, P) P.
Proof. intros HP He. eapply triple_weaken; [apply (triple_perform e (λ _, P) P)| |done|done]. intros w Hw. split; [by apply HP|done]. Qed.
Lemma attempt_keeps P X e : stable P → e ≠ TellScheduler PauseScheduling → triple P (attempt e) (λ _, P) X.
Proof. intros HP He. eapply triple_weaken; [apply (triple_attempt e (λ _, P) X)| |done|done]. intros w Hw. split; [by apply HP|done]. Qed.
Lemma modify_keeps P X f : (∀ w, P w → P (mk_world (f (co w)) (effects w))) → triple P (modify f) (λ _, P) X.
Proof. intros HP. eapply triple_weaken; [apply (triple_modify f (λ _, P) X)|done|done|done]. Qed.
Lemma ret_keeps {A} P X (a : A) : triple P (ret a) (λ _, P) X.
Proof. apply (triple_ret a (λ _, P)). Qed.
Lemma reads_keeps {A} P X (f : CoordinatorActor → A) : triple P (reads f) (λ a w, P w ∧ a = f (co w)) X.
Proof. by intros w Hw. Qed.
Lemma bind_keeps {A B} P (Q : B → World → Prop) X (m : M A) k :
  triple P m (λ _, P) X → (∀ a, triple P (k a) Q X) → triple P (bind m k) Q X.
Proof. intros. by eapply triple_bind. Qed.
Lemma reads_then {A B} P (Q : B → World → Prop) X (f : CoordinatorActor → A) k :
  (∀ a, triple P (k a) Q X) → triple P (bind (reads f) k) Q X.
Proof. intros Hk. eapply bind_keeps; [|exact Hk]. eapply triple_weaken; [apply reads_keeps|done|by intros ?? []|done]. Qed.

Hint Resolve busy_stable setting_up_stable : core.
Ltac keeps :=
  first [ apply ret_keeps | apply attempt_keeps; [auto|discriminate] | apply perform_keeps; [auto|discriminate]
        | apply triple_each; intros ? ].

Lemma cleanup_rests run_id X : triple busy (cleanup run_id) (λ _, rests) X.
Proof.
  unfold cleanup. eapply triple_bind; [apply reads_keeps|]. intros has_system. simpl.
  destruct has_system; simpl; [|by intros w [[Hs _] ?]; congruence].
  apply (triple_weaken busy _ (λ _, rests) _ X); [|by intros w []|done|done].
  apply reads_then. intros c.
  apply bind_keeps; [by destruct (scheduler_ref c); keeps|intros _].
  apply bind_keeps; [by repeat keeps|intros _].
  apply bind_keeps; [by destruct (metrics_ref c); keeps|intros _].
  apply bind_keeps; [destruct (co_renderer c); [apply bind_keeps; [|intros _]|]; keeps|intros _].
  eapply triple_weaken; [apply (triple_modify forget_actors (λ _, rests) X)| |done|done].
  intros w [Hs Hp]. by split.
Qed.
Lemma cleanup_idle run_id w : system (co w) = true → co_state (co (cleanup run_id w).1) = Idle.
Proof.
  intros Hs. assert (H : triple (λ w, system (co w) = true) (cleanup run_id) (λ _ w, co_state (co w) = Idle) (λ w, co_state (co w) = Idle)).
  { unfold cleanup. eapply triple_bind; [apply reads_keeps|]. intros b. cbv beta. destruct b; simpl; [|by intros w' [? ?]; congruence].
    apply (triple_weaken (λ w, system (co w) = true) _ (λ _ w, co_state (co w) = Idle) _ (λ w, co_state (co w) = Idle)); [|by intros w' []|done|done].
    assert (Hst : stable (λ w, system (co w) = true)) by by intros w' e Hw.
    apply reads_then. intros c. apply bind_keeps; [by destruct (scheduler_ref c); keeps|intros _].
    apply bind_keeps; [by repeat keeps|intros _]. apply bind_keeps; [by destruct (metrics_ref c); keeps|intros _].
    apply bind_keeps; [destruct (co_renderer c); [apply bind_keeps; [|intros _]|]; keeps|intros _].
    by intros w' _. }
  specialize (H w Hs). by destruct (cleanup run_id w) as [w' [a|e]].
Qed.
Lemma run_phase_busy run_id p : triple busy (run_phase run_id p) (λ _, busy) busy.
Proof.
  unfold run_phase. apply reads_then. intros sched. apply reads_then. intros metrics.
  destruct sched, metrics; try (by intros w Hw). repeat (apply bind_keeps; [keeps|intros _]). keeps.
Qed.
Lemma set_phase_busy p X : triple busy (modify (set_phase p)) (λ _, busy) X.
Proof. apply modify_keeps. by intros w []. Qed.
Lemma phases_busy run_id config phases : triple busy (run_benchmark_phases run_id config phases) (λ _, busy) busy.
Proof.
  unfold run_benchmark_phases. apply bind_keeps; [apply set_phase_busy|intros _]. apply bind_keeps; [apply run_phase_busy|intros _].
  apply bind_keeps; [apply set_phase_busy|intros _]. apply bind_keeps; [apply triple_each; intros p; apply run_phase_busy|intros _].
  apply bind_keeps; [apply set_phase_busy|intros _]. keeps.
Qed.

(** Setting up fails with the coordinator running, and without a scheduler. *)
Lemma set_up_rests start :
  triple (λ w, rests w ∧ system (co w) = true) (set_up start) (λ _, busy) (setting_up (sb_run_id start)).
Proof.
  unfold set_up. set (id := sb_run_id start). eapply triple_bind.
  - eapply triple_weaken; [apply (triple_modify _ (λ _, setting_up id) (setting_up id))| |done|done].
    intros w [[H1 H2 H3 H4 H5] Hs]. by split_and!.
  - intros u. cbv beta. clear u. apply reads_then. intros c.
    assert (Hmod : ∀ f, (∀ c, system (f c) = system c ∧ scheduler_ref (f c) = scheduler_ref c ∧ co_state (f c) = co_state c) →
      triple (setting_up id) (modify f) (λ _, setting_up id) (setting_up id)).
    { intros f Hf. apply modify_keeps. intros w ((H1 & H2) & H3 & H4). destruct (Hf (co w)) as (E1 & E2 & E3).
      split_and!; [split; [simpl; by rewrite E1|done]|simpl; by rewrite E2|simpl; by rewrite E3]. }
    apply bind_keeps; [destruct (display_enabled c); [apply bind_keeps; [keeps|intros _; by apply Hmod]|keeps]|intros _].
    apply bind_keeps; [keeps|intros _]. apply bind_keeps; [by apply Hmod|intros _]. apply bind_keeps; [keeps|intros _].
    apply bind_keeps; [by apply Hmod|intros _].
    apply bind_keeps; [apply triple_each; intros i; apply bind_keeps; [keeps|intros _; by apply Hmod]|intros _].
    apply bind_keeps; [keeps|intros _]. eapply triple_weaken; [apply (triple_modify _ (λ _, busy) (setting_up id))| |done|done].
    by intros w [[] _].
Qed.
Lemma ask_report_busy metrics X :
  triple busy (if metrics : option str then λ w,
                   if succeeds (effects w) (AskMetrics MGetReport) then
                     let w' := mk_world (co w) (effects w ++ [AskMetrics MGetReport]) in
                     match report_of (effects w) with Some r => modify (set_report r) w' | None => (w', Ok tt) end
                   else (w, Ok tt)
                 else ret tt) (λ _, busy) X.
Proof.
  destruct metrics; [|keeps]. intros w Hw. destruct (succeeds _ _); [|done].
  assert (busy (mk_world (co w) (effects w ++ [AskMetrics MGetReport]))) as [] by (by apply busy_stable).
  by destruct (report_of _).
Qed.
Lemma rests_phase p w : rests w → rests (mk_world (set_phase p (co w)) (effects w)).
Proof. by intros []. Qed.
Lemma start_rests start phases : triple rests (start_benchmark start phases) (λ _, rests) rests.
Proof.
  unfold start_benchmark. eapply triple_bind; [apply reads_keeps|]. intros c. cbv beta.
  destruct (co_state c) eqn:Hst; [|by intros w []..]. destruct (system c) eqn:Hsys; simpl; [|by intros w []].
  eapply triple_bind; [eapply triple_weaken; [apply (set_up_rests start)| |done|]|].
  - intros w [Hw ->]. done.
  - intros w ((Hs & Hp) & Hnone & Hrun). split; rewrite ?Hrun; try done. by rewrite Hs.
  - intros u. cbv beta. clear u. eapply triple_bind; [apply (triple_catch busy (λ _, busy)); [apply phases_busy|done]|]. intros result. cbv beta.
    apply reads_then. intros metrics. apply bind_keeps; [apply ask_report_busy|intros _].
    eapply triple_bind; [apply cleanup_rests|]. intros u. cbv beta. clear u.
    destruct result; (apply bind_keeps; [apply modify_keeps; intros w; apply rests_phase|intros _; keeps]).
Qed.
Lemma stop_rests stop : triple rests (stop_benchmark stop) (λ _, rests) rests.
Proof.
  unfold stop_benchmark. eapply triple_bind; [apply reads_keeps|]. intros c. cbv beta.
  destruct (co_state c) as [|run_id|] eqn:Hst; try (by intros w []). case_bool_decide; simpl; [|by intros w []].
  eapply triple_bind.
  - eapply triple_weaken; [apply (triple_modify (set_state Stopping) (λ _ w, busy w ∧ scheduler_ref c = None) rests)| |done|done].
    intros w [[H1 H2 H3 H4 H5] ->]. split; [split; [simpl|done]|done]. destruct (system (co w)); [done|]. by rewrite H3 in Hst.
  - intros u. cbv beta. clear u. intros w [Hw Hnone]. revert w Hw. rewrite Hnone. fold (triple (A := AckMessage)).
    change (triple busy (bind (ret tt) (λ _, bind (cleanup (st_run_id stop)) (λ _, ret ack_ok))) (λ _, rests) rests).
    apply bind_keeps; [keeps|intros _]. eapply triple_bind; [apply cleanup_rests|]. intros u. cbv beta. keeps.
Qed.
Lemma receive_rests m : triple rests (co_receive m) (λ _, rests) rests.
Proof.
  destruct m as [start phases|stop| |]; simpl.
  - eapply triple_bind; [apply start_rests|]. intros a. cbv beta. keeps.
  - eapply triple_bind; [apply stop_rests|]. intros a. cbv beta. keeps.
  - apply reads_then. intros c. keeps.
  - apply reads_then. intros c. destruct (metrics_ref c).
    + intros w Hw. destruct (report_of _); [|done]. destruct Hw as [H1 H2 H3 H4 H5]. split; try done. simpl. by apply not_pauses.
    + destruct (final_report c); [keeps|by intros w].
Qed.
Definition co_run (c : CoordinatorActor) (ms : list CoMessage) : World :=
  foldl (λ w m, (co_receive m w).1) (mk_world c []) ms.
Lemma run_rests c ms : rests (mk_world c []) → rests (co_run c ms).
Proof.
  intros Hw. unfold co_run. apply foldl_invariant; [done|]. intros w m _ Hr. pose proof (receive_rests m w Hr).
  by destruct (co_receive m w) as [w' [a|e]].
Qed.
End Coordinator.

(** A run is never interrupted: whatever messages the coordinator
    handles, and whatever the actors it calls do, it has no scheduler between
    two of them. So it never tells a scheduler to pause, and a stop that it
    acknowledges has found only a run whose set-up had failed; between
    messages it is idle, with no actor of a run left, or in such a run. *)
Theorem stop_finds_no_run {E : Env} (has_system display : bool) (n : nat) (ms : list CoMessage) :
  let w := co_run (CoordinatorActor_new has_system n display) ms in
  TellScheduler PauseScheduling ∉ effects w ∧ scheduler_ref (co w) = None ∧ co_state (co w) ≠ Stopping ∧
  (co_state (co w) = Idle → metrics_ref (co w) = None ∧ co_renderer (co w) = None ∧ co_workers (co w) = []) ∧
  (∀ stop w', stop_benchmark stop w = (w', Ok ack_ok) → co_state (co w) = RunningRun (st_run_id stop) ∧ co_state (co w') = Idle).
Proof.
  intros w. assert (Hr : rests w) by (apply run_rests; split; try done; intros H; by apply elem_of_nil in H).
  split_and!; [apply Hr..|]. intros stop w' Hstop.
  assert (Hst : co_state (co w) = RunningRun (st_run_id stop)).
  { revert Hstop. unfold stop_benchmark, bind at 1, reads at 1. simpl. destruct (co_state (co w)) as [|run_id|]; try done.
    case_bool_decide; simpl; [by subst|done]. }
  split; [done|]. revert Hstop. unfold stop_benchmark, bind at 1, reads at 1. simpl. rewrite Hst, bool_decide_true by done. simpl.
  destruct Hr as [H1 H2 H3 _ H5]. rewrite H1.
  pose proof (cleanup_idle (st_run_id stop) (mk_world (set_state Stopping (co w)) (effects w))) as Hc.
  unfold bind, modify, ret. simpl. destruct (cleanup _ _) as [w2 [[]|e]]; [|done]. intros [= <-]. apply Hc. simpl.
  destruct (system (co w)); [done|]. by rewrite H3 in Hst.
Qed.


(** ** What the aggregator is told *)
Definition metrics_of (e : Effect) : option AggMessage := match e with TellMetrics m | AskMetrics m => Some m | _ => None end.
Definition told (w : World) : list AggMessage := omap metrics_of (effects w).
Definition bracket (run_id : str) (p : PhaseDefinition) : list AggMessage :=
  [MStartPhase (start_message run_id p); MEndPhase (mk_end_phase run_id (pf_phase_id p))].
Notation logged l := (λ w : World, told w = l).

Section Told.
Context {E : Env}.
Lemma perform_told l e : triple (logged l) (perform e) (λ _, logged (l ++ option_list (metrics_of e))) (λ _, True).
Proof.
  eapply triple_weaken; [apply (triple_perform e (λ _, logged (l ++ option_list (metrics_of e))) (λ _, True))| |done|done].
  intros w Hw. split; [|done]. unfold told. simpl. rewrite omap_app, <- Hw. simpl. by destruct (metrics_of e).
Qed.
Lemma perform_untold l e : metrics_of e = None → triple (logged l) (perform e) (λ _, logged l) (λ _, True).
Proof. intros He. pose proof (perform_told l e) as H. by rewrite He, app_nil_r in H. Qed.
Lemma attempt_untold l e X : metrics_of e = None → triple (logged l) (attempt e) (λ _, logged l) X.
Proof.
  intros He w Hw. unfold attempt. destruct (succeeds _ _); [|done]. unfold told. simpl. rewrite omap_app. simpl. rewrite He.
  by rewrite app_nil_r.
Qed.
Lemma modify_untold l f X : triple (logged l) (modify f) (λ _, logged l) X.
Proof. by intros w Hw. Qed.
Lemma ret_untold {A} l (a : A) X : triple (logged l) (ret a) (λ _, logged l) X.
Proof. by intros w Hw. Qed.
Ltac untold := first [apply perform_untold; reflexivity | apply attempt_untold; reflexivity | apply modify_untold | apply ret_untold].

Lemma run_phase_told run_id p l :
  triple (logged l) (run_phase run_id p) (λ _, logged (l ++ bracket run_id p)) (λ _, True).
Proof.
  unfold run_phase. apply reads_then. intros sched. apply reads_then. intros metrics.
  destruct sched, metrics; try (by intros w Hw). apply bind_keeps; [untold|intros _].
  eapply triple_bind; [apply perform_told|]. intros u. cbv beta. clear u. apply bind_keeps; [untold|intros _].
  eapply triple_weaken; [apply perform_told|exact (λ _ H, H)| |done]. intros [] w Hw. rewrite Hw. by rewrite <- (assoc_L (++)).
Qed.
Lemma each_told {A} (l : list AggMessage) (xs : list A) f (g : A → list AggMessage) :
  (∀ x l, triple (logged l) (f x) (λ _, logged (l ++ g x)) (λ _, True)) →
  triple (logged l) (each xs f) (λ _, logged (l ++ (xs ≫= g))) (λ _, True).
Proof.
  intros Hf. revert l. induction xs as [|x xs IH]; intros l; simpl.
  - rewrite app_nil_r. apply ret_untold.
  - eapply triple_bind; [apply Hf|]. intros u. cbv beta. rewrite (assoc_L (++)). apply IH.
Qed.
Lemma phases_told run_id config phases l :
  triple (logged l) (run_benchmark_phases run_id config phases)
    (λ _, logged (l ++ ((warmup_phase config :: phases) ≫= bracket run_id))) (λ _, True).
Proof.
  unfold run_benchmark_phases. apply bind_keeps; [untold|intros _]. eapply triple_bind; [apply run_phase_told|].
  intros u. cbv beta. clear u. apply bind_keeps; [untold|intros _].
  eapply triple_bind; [apply each_told; intros; apply run_phase_told|]. intros u. cbv beta. clear u.
  apply bind_keeps; [untold|intros _]. rewrite <- (assoc_L (++)). untold.
Qed.
Lemma set_up_told start l :
  triple (logged l) (set_up start) (λ _, logged (l ++ [MRegisterRun (mk_register (sb_run_id start) (sb_config start))])) (λ _, True).
Proof.
  unfold set_up. apply bind_keeps; [untold|intros _]. apply reads_then. intros c.
  apply bind_keeps; [destruct (display_enabled c); [apply bind_keeps; [untold|intros _]|]; untold|intros _].
  do 2 (apply bind_keeps; [untold|intros _]). eapply triple_bind; [apply perform_told|]. intros u. cbv beta. clear u.
  apply bind_keeps; [untold|intros _].
  apply bind_keeps; [apply triple_each; intros i; apply bind_keeps; [untold|intros _]; untold|intros _].
  apply bind_keeps; [untold|intros _]. untold.
Qed.
Lemma cleanup_told run_id l X : triple (logged l) (cleanup run_id) (λ _, logged l) X.
Proof.
  unfold cleanup. apply reads_then. intros b. destruct b; simpl; [|untold]. apply reads_then. intros c.
  apply bind_keeps; [destruct (scheduler_ref c); untold|intros _]. apply bind_keeps; [apply triple_each; intros i; untold|intros _].
  apply bind_keeps; [destruct (metrics_ref c); untold|intros _].
  apply bind_keeps; [destruct (co_renderer c); [apply bind_keeps; [|intros _]|]; untold|intros _]. untold.
Qed.

(** What a completed run has told the aggregator: the run, every phase in
    turn, and perhaps the request of the report. *)
Definition run_messages (start : StartBenchmark) (phases : list PhaseDefinition) : list AggMessage :=
  MRegisterRun (mk_register (sb_run_id start) (sb_config start)) ::
  ((warmup_phase (sb_config start) :: phases) ≫= bracket (sb_run_id start)).
Lemma start_told start phases l :
  triple (λ w, told w = l ∧ co_state (co w) = Idle) (start_benchmark start phases)
    (λ a w, a = ack_ok → told w = l ++ run_messages start phases ∨ told w = l ++ run_messages start phases ++ [MGetReport]) (λ _, True).
Proof.
  unfold start_benchmark. eapply triple_bind; [apply reads_keeps|]. intros c. cbv beta.
  destruct (co_state c) eqn:Hst; try (intros w [[_ Hi] ->]; simpl in Hst; congruence). destruct (system c); simpl; [|done].
  eapply triple_weaken with (P := logged l) (X := λ _, True); [|by intros w [[? ?] ?]|exact (λ _ _ H, H)|done].
  eapply triple_bind; [apply set_up_told|]. intros u. cbv beta. clear u.
  eapply triple_bind with (R := λ r w, match r with Ok _ => told w = l ++ run_messages start phases | Err _ => True end).
  { intros w Hw. pose proof (phases_told (sb_run_id start) (sb_config start) phases _ w Hw) as Hp. unfold catch.
    destruct (run_benchmark_phases _ _ _ w) as [w' [[]|e]]; [|done]. rewrite Hp. unfold run_messages. by rewrite <- (assoc_L (++)). }
  intros [[]|e]; cbv beta.
  - apply reads_then. intros metrics. set (L := l ++ run_messages start phases).
    eapply triple_bind with (R := λ _ w, told w = L ∨ told w = L ++ [MGetReport]).
    + destruct metrics; [|intros w Hw; by left]. intros w Hw. destruct (succeeds _ _); [|by left].
      assert (told (mk_world (co w) (effects w ++ [AskMetrics MGetReport])) = L ++ [MGetReport])
        by (unfold told; simpl; by rewrite omap_app, <- Hw).
      destruct (report_of _); by right.
    + intros u. cbv beta. clear u. intros w Hw. unfold bind, modify, ret.
      assert (Hc : ∀ k, triple (logged k) (cleanup (sb_run_id start)) (λ _, logged k) (λ _, True)) by (intros; apply cleanup_told).
      destruct Hw as [Hw|Hw]; [specialize (Hc _ w Hw)|specialize (Hc _ w Hw)]; destruct (cleanup _ w) as [w' [[]|e]]; try done;
        intros _; unfold told in *; simpl; [by left|right]. rewrite Hc. unfold L. by rewrite <- (assoc_L (++)).
  - intros w _. unfold bind at 1, reads at 1. cbv beta iota.
    match goal with |- match ?m with _ => _ end => destruct m as [w' [a|e']] eqn:Hm end; [|done]. intros ->. exfalso.
    revert Hm. unfold bind at 1. match goal with |- context [match ?m with _ => _ end] => destruct m as [w1 [?|?]] end; [|done].
    unfold bind at 1. destruct (cleanup _ w1) as [w2 [?|?]]; [|done]. unfold bind, modify, ret. done.
Qed.
End Told.

(** ** From the coordinator to the report *)
(** The coordinator's messages; results and questions come in between. *)
Definition control (m : AggMessage) : bool := match m with MRegisterRun _ | MStartPhase _ | MEndPhase _ => true | _ => false end.
Notation controls ms := (filter (λ m, control m = true) ms).
Definition phases_of (t : Attribution) : list StartPhase * option StartPhase := ((closed t).*1, fst <$> opened t).
Lemma close_phases_of t : (close t).*1 = (phases_of t).1 ++ option_list (phases_of t).2.
Proof. unfold close, phases_of. rewrite fmap_app. by destruct (opened t). Qed.
Lemma attribute1_phases t t' m : phases_of t = phases_of t' → phases_of (attribute1 t m) = phases_of (attribute1 t' m).
Proof.
  intros H. destruct m as [r|p|e|r| |]; try done.
  - change (((close t).*1, Some p) = ((close t').*1, Some p)). by rewrite !close_phases_of, H.
  - change (((close t).*1, @None StartPhase) = ((close t').*1, None)). by rewrite !close_phases_of, H.
  - unfold phases_of in *. simpl. injection H as -> H. f_equal. by destruct (opened t), (opened t').
Qed.
Lemma attribute1_no_control t m : control m = false → phases_of (attribute1 t m) = phases_of t.
Proof. destruct m; try done. intros _. unfold phases_of. simpl. by destruct (opened t). Qed.
Lemma attribute_controls ms t t' :
  phases_of t = phases_of t' → phases_of (foldl attribute1 t ms) = phases_of (foldl attribute1 t' (controls ms)).
Proof.
  revert t t'. induction ms as [|m ms IH]; intros t t' H; [done|]. rewrite filter_cons. simpl. case_decide as Hc.
  - simpl. apply IH. by apply attribute1_phases.
  - apply IH. apply not_true_is_false in Hc. by rewrite attribute1_no_control.
Qed.
Lemma bracket_phases run_id p t :
  phases_of (foldl attribute1 t (bracket run_id p)) = ((phases_of t).1 ++ option_list (phases_of t).2 ++ [start_message run_id p], None).
Proof.
  change (((close t ++ [(start_message run_id p, [])]).*1, @None StartPhase) = ((phases_of t).1 ++ option_list (phases_of t).2 ++ [start_message run_id p], None)).
  by rewrite fmap_app, close_phases_of, <- (assoc_L (++)).
Qed.
Lemma brackets_phases run_id ps t :
  phases_of (foldl attribute1 t (ps ≫= bracket run_id)) =
    ((phases_of t).1 ++ match ps with [] => [] | _ => option_list (phases_of t).2 end ++ (start_message run_id <$> ps),
     match ps with [] => (phases_of t).2 | _ => None end).
Proof.
  revert t. induction ps as [|p ps IH]; intros t; [by rewrite !app_nil_r, <- surjective_pairing|].
  change ((p :: ps) ≫= bracket run_id) with (bracket run_id p ++ (ps ≫= bracket run_id)). rewrite foldl_app, IH, bracket_phases. simpl.
  destruct ps; simpl; by rewrite ?app_nil_r, <- ?(assoc_L (++)).
Qed.
Lemma controls_brackets run_id ps : controls (ps ≫= bracket run_id) = ps ≫= bracket run_id.
Proof. induction ps as [|p ps IH]; [done|]. change ((p :: ps) ≫= bracket run_id) with (bracket run_id p ++ (ps ≫= bracket run_id)). by rewrite filter_app, IH. Qed.

(** The report of a run that succeeds lists every phase: the coordinator
    tells the aggregator of the run, and of the warm-up and each phase in
    turn, when it starts and when it ends; so whenever the aggregator has
    handled those messages, with results and questions between them in any
    way, it has no open phase, and its completed phases, which make up the
    report, are the warm-up and the phases of the run, in order. *)
Theorem report_lists_every_phase {E : Env} (start : StartBenchmark) (phases : list PhaseDefinition) (w w' : World) :
  co_state (co w) = Idle → start_benchmark start phases w = (w', Ok ack_ok) →
  ∃ new, told w' = told w ++ new ∧
  ∀ (t0 : Z) (renderer : bool) (ms : list Handled), Forall clean ms.*2 → controls ms.*2 = controls new →
    ∃ a, agg_run (MetricsAggregatorActor_new t0 renderer) ms = Some a ∧ current_phase a = None ∧
      ps_phase_id <$> completed_phases a = pf_phase_id <$> warmup_phase (sb_config start) :: phases ∧
      ps_phase_name <$> completed_phases a = pf_phase_name <$> warmup_phase (sb_config start) :: phases.
Proof.
  intros Hidle Hstart. pose proof (start_told start phases (told w) w (conj eq_refl Hidle)) as Ht. rewrite Hstart in Ht.
  set (rm := run_messages start phases) in *. assert (Hrm : controls rm = rm).
  { unfold rm, run_messages. rewrite filter_cons_True by done. by rewrite controls_brackets. }
  assert (∃ new, told w' = told w ++ new ∧ controls new = rm) as (new & Hnew & Hc).
  { destruct (Ht eq_refl) as [H|H]; (eexists; split; [exact H|]); [done|]. by rewrite filter_app, Hrm, filter_cons_False, app_nil_r by done. }
  exists new. split; [done|]. intros t0 renderer ms Hclean Hms. rewrite Hc in Hms.
  destruct (run_accounts ms _ _ Hclean (new_accounts t0 renderer)) as (a & Hrun & [H1 H2 _ _ _ _]). exists a. split; [done|].
  pose proof (attribute_controls ms.*2 (mk_attribution [] None) (mk_attribution [] None) eq_refl) as Hp. rewrite Hms in Hp.
  unfold rm, run_messages in Hp. cbn [foldl attribute1] in Hp. rewrite brackets_phases in Hp. cbn [phases_of closed opened fst snd fmap list_fmap option_list app] in Hp.
  set (t := foldl attribute1 (mk_attribution [] None) ms.*2) in *. unfold phases_of in Hp. injection Hp as Hp1 Hp2.
  destruct (opened t); [done|]. inversion H2. split; [done|].
  assert (Hn : ps_phase_id <$> completed_phases a = (sp_phase_id ∘ fst) <$> closed t ∧ ps_phase_name <$> completed_phases a = (sp_phase_name ∘ fst) <$> closed t).
  { clear -H1. induction H1 as [|q s qs ss Hq _ [IH1 IH2]]; [done|]. rewrite !fmap_cons, IH1, IH2. simpl. by destruct Hq as [-> -> _ _ _ _ _ _ _]. }
  destruct Hn as [-> ->]. rewrite !list_fmap_compose, Hp1. split; simpl; f_equal; by rewrite <- list_fmap_compose.
Qed.

(** ** Witnesses *)
Lemma levels_cover_range_witness :
  ∃ ls, generate_concurrency_levels 128 = Some ls ∧ head ls = Some 1 ∧ last ls = Some 128 ∧ (length ls = 25)%nat.
Proof.
  destruct (levels_cover_range 128) as (ls & Hls & _ & Hh & Hl & _); [split; [discriminate|reflexivity]|].
  exists ls. split; [exact Hls|]. split; [exact Hh|]. split; [exact Hl|]. revert Hls. vm_compute. by intros [= <-].
Defined.
(** With no virtual users allowed, the sweep still starts with one. *)
Example no_users_levels : generate_concurrency_levels 0 = Some [1; 0].
Proof. reflexivity. Qed.

Definition friendly : Env := {| succeeds _ _ := true; why _ _ := []; report_of _ := None |}.
(** An environment in which no worker can be spawned. *)
Definition no_worker : Env := {|
  succeeds _ e := match e with Spawn n => negb (starts_with (lit "worker") n) | _ => true end; why _ _ := lit "name taken"; report_of _ := None |}.
Definition sample_start : StartBenchmark := mk_start BenchmarkConfig_default (lit "r").
Definition sample_phases : list PhaseDefinition := default [] (generate_phases BenchmarkConfig_default).

Lemma report_lists_every_phase_witness :
  ∃ w', start_benchmark (E := friendly) sample_start sample_phases (mk_world (CoordinatorActor_new true 1 true) []) = (w', Ok ack_ok) ∧
    ∃ new, told w' = new ∧ ∃ a, agg_run (MetricsAggregatorActor_new 0 true) ((λ m, (0, [], m)) <$> new) = Some a ∧
      ps_phase_name <$> completed_phases a = [lit "Warmup"; lit "Max Throughput"].
Proof.
  eexists. split; [vm_compute; reflexivity|].
  edestruct (report_lists_every_phase (E := friendly) sample_start sample_phases (mk_world (CoordinatorActor_new true 1 true) [])) as (new & Hnew & Ha);
    [reflexivity|vm_compute; reflexivity|].
  exists new. split; [exact Hnew|]. destruct (Ha 0 true ((λ m, (0, [], m)) <$> new)) as (a & Hrun & _ & _ & Hn).
  - vm_compute in Hnew. subst new. repeat constructor.
  - by rewrite <- list_fmap_compose, list_fmap_id.
  - exists a. split; [exact Hrun|exact Hn].
Defined.

(** A run whose set-up fails leaves the coordinator running: it refuses every
    later run until it is told to stop. *)
Lemma failed_set_up_blocks :
  let w := co_run (E := no_worker) (CoordinatorActor_new true 1 true) [StartB sample_start sample_phases] in
  co_state (co w) = RunningRun (lit "r") ∧
  (co_receive (E := no_worker) (StartB sample_start sample_phases) w).2 = Ok (Ack (ack_error (lit "Benchmark already running"))).
Proof. split; vm_compute; reflexivity. Qed.
(** No workers: the scheduler refuses to start, and the run has succeeded. *)
Lemma nothing_measured_succeeds :
  (start_benchmark (E := friendly) sample_start sample_phases (mk_world (CoordinatorActor_new true 0 true) [])).2 = Ok ack_ok ∧
  start_scheduling 0 (lit "throughput") (SchedulerActor_new 0 0) = inl (SchedulerActor_new 0 0).
Proof. split; vm_compute; reflexivity. Qed.
