(* ===== verification/Registry.v ===== *)
(** * Tools and their registry

    Models [registry.rs], [executor.rs], [result.rs] and the table of built-in
    tools of [handlers/mod.rs] in crates/pulsing-forge/src. A tool is an
    executor: its name, the specification that the model is shown, and a
    handler over a world of the caller's. *)
From stdpp Require Import sorting.
From S2P Require Import Prelude Text Json Approval.

(** ** Names and specifications *)
(** src: crates/pulsing-forge/src/registry.rs 16-21 ToolName *)
Record ToolName := mk_tool_name { namespace : option str; name : str }.
(** src: crates/pulsing-forge/src/registry.rs 24-29 ToolName::plain *)
Definition plain (n : str) : ToolName := mk_tool_name None n.
(** src: crates/pulsing-forge/src/registry.rs 31-36 ToolName::namespaced *)
Definition namespaced (ns n : str) : ToolName := mk_tool_name (Some ns) n.
(** src: crates/pulsing-forge/src/registry.rs 38-44 ToolName::model_name *)
Definition model_name (t : ToolName) : str :=
  match namespace t with Some ns => ns ++ name t | None => name t end.

(** src: crates/pulsing-forge/src/registry.rs 65-73 ToolSpec *)
Record ToolSpec := mk_spec {
  ts_name : ToolName; ts_description : str; ts_input_schema : Value; ts_output_schema : option Value }.
(** src: crates/pulsing-forge/src/registry.rs 100-107 normalize_object_schema *)
Definition normalize_object_schema (schema : Value) : Value :=
  match schema with
  | Object m => Object (or_insert (lit "properties") (Object []) (or_insert (lit "type") (text "object") m))
  | _ => schema
  end.
(** src: crates/pulsing-forge/src/registry.rs 76-87 ToolSpec::function *)
Definition function (n : ToolName) (description : str) (input_schema : Value) : ToolSpec :=
  mk_spec n description (normalize_object_schema input_schema) None.
(** src: crates/pulsing-forge/src/registry.rs 89-97 ToolSpec::model_definition *)
Definition model_definition (s : ToolSpec) : Value :=
  json [("name", Text (model_name (ts_name s))); ("description", Text (ts_description s)); ("input_schema", ts_input_schema s)]%string.

(** src: crates/pulsing-forge/src/executor.rs 15-21 ToolExposure *)
Inductive ToolExposure := Direct | Deferred | DirectModelOnly | Hidden.
(** src: crates/pulsing-forge/src/executor.rs 24-26 ToolExposure::is_direct *)
Definition is_direct (e : ToolExposure) : bool := match e with Direct | DirectModelOnly => true | _ => false end.

(** src: crates/pulsing-forge/src/result.rs 3-10 ToolResult *)
Record ToolResult := mk_result { content : str; is_error : bool; structured : option Value }.
(** src: crates/pulsing-forge/src/result.rs 13-19 ToolResult::ok *)
Definition result_ok (c : str) : ToolResult := mk_result c false None.
(** src: crates/pulsing-forge/src/result.rs 21-27 ToolResult::err *)
Definition result_err (c : str) : ToolResult := mk_result c true None.
(** src: crates/pulsing-forge/src/result.rs 29-32 ToolResult::with_structured *)
Definition with_structured (v : Value) (r : ToolResult) : ToolResult := mk_result (content r) (is_error r) (Some v).
(** The text of an error.
    src: crates/pulsing-forge/src/error.rs 7-13 ToolError *)
Definition error_text (e : ToolError) : str :=
  match e with RespondToModel m => m | Fatal m => lit "Fatal error: " ++ m end.

(** src: crates/pulsing-forge/src/registry.rs 109-121 ToolRegistryError *)
Inductive ToolRegistryError :=
  | EmptyName | NameMismatch (executor spec : str) | Duplicate (n : str) | Unknown (n : str) | NotDirect (n : str).

(** ** The registry *)
(** Executors work on a world [W] in a context [C]; a handler's effects are a
    change of the world. *)
Section Registry.
Context {C W : Type}.

(** src: crates/pulsing-forge/src/executor.rs 29-49 ToolExecutor *)
Record ToolExecutor := mk_executor {
  tool_name : str; spec : ToolSpec; exposure : ToolExposure; supports_parallel : bool;
  handle : C → Value → W → W * Result ToolResult ToolError }.

(** src: crates/pulsing-forge/src/registry.rs 123-125 ToolRegistry *)
Record ToolRegistry := mk_tools { tools : gmap str ToolExecutor }.

(** src: crates/pulsing-forge/src/registry.rs 140-157 ToolRegistry::register *)
Definition register (r : ToolRegistry) (executor : ToolExecutor) : Result ToolRegistry ToolRegistryError :=
  let executor_name := trim (tool_name executor) in
  if bool_decide (executor_name = []) then Err EmptyName
  else
    let spec_name := model_name (ts_name (spec executor)) in
    if bool_decide (executor_name ≠ spec_name) then Err (NameMismatch executor_name spec_name)
    else if bool_decide (is_Some (tools r !! executor_name)) then Err (Duplicate executor_name)
    else Ok (mk_tools (<[executor_name := executor]> (tools r))).
Fixpoint register_all (r : ToolRegistry) (executors : list ToolExecutor) : Result ToolRegistry ToolRegistryError :=
  match executors with
  | [] => Ok r
  | e :: es => let? r' := register r e in register_all r' es
  end.
(** src: crates/pulsing-forge/src/registry.rs 128-138 ToolRegistry::from_executors *)
Definition from_executors (executors : list ToolExecutor) : Result ToolRegistry ToolRegistryError :=
  register_all (mk_tools ∅) executors.
(** src: crates/pulsing-forge/src/registry.rs 159-161 ToolRegistry::get *)
Definition get_tool (r : ToolRegistry) (n : str) : option ToolExecutor := tools r !! n.

(** src: crates/pulsing-forge/src/registry.rs 163-167 ToolRegistry::names *)
Definition names {O : Oracle} (r : ToolRegistry) : list str := merge_sort str_le (hm_iter (tools r)).*1.
(** src: crates/pulsing-forge/src/registry.rs 169-183 ToolRegistry::definitions_for *)
Fixpoint definitions_for (r : ToolRegistry) (ns : list str) : Result (list Value) ToolRegistryError :=
  match ns with
  | [] => Ok []
  | n :: ns =>
      match tools r !! n with
      | None => Err (Unknown n)
      | Some tool =>
          if negb (is_direct (exposure tool)) then Err (NotDirect n)
          else let? rest := definitions_for r ns in Ok (model_definition (spec tool) :: rest)
      end
  end.
(** [a["name"].as_str()], whose [None] comes first. *)
Definition name_le (a b : Value) : Prop :=
  match get_str (lit "name") a, get_str (lit "name") b with
  | None, _ => True
  | Some _, None => False
  | Some x, Some y => str_le x y
  end.
#[global] Instance name_le_dec a b : Decision (name_le a b).
Proof. unfold name_le. destruct (get_str (lit "name") a), (get_str (lit "name") b); apply _. Defined.
(** [sort_by] keeps the order of equals, as the merge sort does.
    src: crates/pulsing-forge/src/registry.rs 185-194 ToolRegistry::direct_definitions *)
Definition direct_definitions {O : Oracle} (r : ToolRegistry) : list Value :=
  merge_sort name_le
    ((λ t, model_definition (spec t)) <$> filter (λ t, is_direct (exposure t) = true) (hm_values (tools r))).
End Registry.
Arguments ToolExecutor : clear implicits.
Arguments ToolRegistry : clear implicits.

(** ** The built-in tools *)
Definition ty (t : string) : Value := json [("type", text t)]%string.
(** src: crates/pulsing-forge/src/handlers/mod.rs 54-61 builtin_spec (object) *)
Definition schema (properties : list (string * Value)) (required : list string) : Value :=
  json [("type", text "object"); ("properties", json properties); ("required", Array (text <$> required));
        ("additionalProperties", Boolean false)]%string.
(** src: crates/pulsing-forge/src/handlers/mod.rs 63-110 builtin_spec (shell_command, exec_command, write_stdin) *)
Definition shell_specs : list (string * (string * Value)) := [
  ("shell_command", ("Run a shell command in the workspace.",
     schema [
       ("command", ty "string");
       ("cmd", ty "string");
       ("workdir", ty "string");
       ("timeout_ms", ty "integer");
       ("login", ty "boolean");
       ("sandbox_permissions", ty "string");
       ("justification", ty "string")] []));
  ("exec_command", ("Start a command, optionally keeping an interactive PTY session.",
     schema [
       ("cmd", ty "string");
       ("command", ty "string");
       ("workdir", ty "string");
       ("yield_time_ms", ty "integer");
       ("max_output_tokens", ty "integer");
       ("tty", ty "boolean");
       ("login", ty "boolean");
       ("sandbox_permissions", ty "string");
       ("justification", ty "string");
       ("prefix_rule", json [("type", text "array"); ("items", ty "string")])] []));
  ("write_stdin", ("Write input to or poll a running exec_command session.",
     schema [
       ("session_id", ty "integer");
       ("chars", ty "string");
       ("yield_time_ms", ty "integer");
       ("max_output_tokens", ty "integer")] ["session_id"]))]%string.
(** src: crates/pulsing-forge/src/handlers/mod.rs 111-126 builtin_spec (apply_patch, view_image) *)
Definition file_specs : list (string * (string * Value)) := [
  ("apply_patch", ("Apply a structured patch to files in the workspace.",
     schema [
       ("patch", ty "string")] ["patch"]));
  ("view_image", ("Load a local image for visual inspection.",
     schema [
       ("path", ty "string");
       ("detail", json [("type", text "string"); ("enum", Array [text "high"; text "original"])])] ["path"]))]%string.
(** src: crates/pulsing-forge/src/handlers/mod.rs 127-161 builtin_spec (update_plan, new_context, get_context_remaining) *)
Definition plan_specs : list (string * (string * Value)) := [
  ("update_plan", ("Update the multi-step plan visible to the user.",
     schema [
       ("plan", json [("type", text "array"); ("items", json [("type", text "object"); ("properties", json [("step", ty "string"); ("status", json [("type", text "string"); ("enum", Array [text "pending"; text "in_progress"; text "completed"])])]); ("required", Array [text "step"; text "status"]); ("additionalProperties", Boolean false)])]);
       ("explanation", ty "string")] ["plan"]));
  ("new_context", ("Request a fresh context window for the current Forge session.",
     schema [] []));
  ("get_context_remaining", ("Return the estimated tokens remaining in the current context.",
     schema [] []))]%string.
(** src: crates/pulsing-forge/src/handlers/mod.rs 162-216 builtin_spec (request_user_input, request_permissions) *)
Definition input_specs : list (string * (string * Value)) := [
  ("request_user_input", ("Ask the user one or more short structured questions.",
     schema [
       ("questions", json [("type", text "array"); ("minItems", Number (lit "1")); ("items", json [("type", text "object"); ("properties", json [("id", ty "string"); ("header", ty "string"); ("question", ty "string"); ("isOther", ty "boolean"); ("isSecret", ty "boolean"); ("options", json [("type", text "array"); ("items", json [("type", text "object"); ("properties", json [("label", ty "string"); ("description", ty "string")]); ("required", Array [text "label"; text "description"]); ("additionalProperties", Boolean false)])])]); ("required", Array [text "id"; text "header"; text "question"]); ("additionalProperties", Boolean false)])]);
       ("autoResolutionMs", json [("type", text "integer"); ("minimum", Number (lit "60000")); ("maximum", Number (lit "240000"))])] ["questions"]));
  ("request_permissions", ("Request scoped network or filesystem permissions from the host.",
     schema [
       ("permissions", json [("type", text "object"); ("properties", json [("network", ty "object"); ("file_system", ty "object")])]);
       ("reason", ty "string")] ["permissions"]))]%string.
(** src: crates/pulsing-forge/src/handlers/mod.rs 217-245 builtin_spec (tool_search, list_available_plugins_to_install, request_plugin_install) *)
Definition plugin_specs : list (string * (string * Value)) := [
  ("tool_search", ("Search deferred tools and integrations available to this session.",
     schema [
       ("query", ty "string");
       ("limit", json [("type", text "integer"); ("minimum", Number (lit "1"))])] ["query"]));
  ("list_available_plugins_to_install", ("List Forge plugins that are available but not installed.",
     schema [] []));
  ("request_plugin_install", ("Request installation of a specific Forge plugin.",
     schema [
       ("tool_id", ty "string");
       ("tool_type", json [("type", text "string"); ("enum", Array [text "plugin"; text "connector"])]);
       ("action_type", json [("type", text "string"); ("enum", Array [text "install"; text "enable"])]);
       ("suggest_reason", ty "string")] ["tool_id"; "suggest_reason"]))]%string.
(** src: crates/pulsing-forge/src/handlers/mod.rs 246-278 builtin_spec (list_mcp_resources, list_mcp_resource_templates, read_mcp_resource) *)
Definition resource_specs : list (string * (string * Value)) := [
  ("list_mcp_resources", ("List resources exposed by connected MCP servers.",
     schema [
       ("server", ty "string");
       ("cursor", ty "string")] []));
  ("list_mcp_resource_templates", ("List resource templates exposed by one MCP server.",
     schema [
       ("server", ty "string");
       ("cursor", ty "string")] ["server"]));
  ("read_mcp_resource", ("Read a resource from a connected MCP server.",
     schema [
       ("server", ty "string");
       ("uri", ty "string")] ["server"; "uri"]))]%string.
(** src: crates/pulsing-forge/src/handlers/mod.rs 279-348 builtin_spec (Read, Glob, Grep, Edit, Write, Bash) *)
Definition helper_specs : list (string * (string * Value)) := [
  ("Read", ("Read a UTF-8 file from the workspace.",
     schema [
       ("file_path", ty "string");
       ("offset", json [("type", text "integer"); ("minimum", Number (lit "1"))]);
       ("limit", json [("type", text "integer"); ("minimum", Number (lit "1"))])] ["file_path"]));
  ("Glob", ("Find files by glob pattern.",
     schema [
       ("pattern", ty "string");
       ("path", ty "string")] ["pattern"]));
  ("Grep", ("Search workspace file contents with a regular expression.",
     schema [
       ("pattern", ty "string");
       ("path", ty "string");
       ("glob", ty "string")] ["pattern"]));
  ("Edit", ("Replace one unique string occurrence in a workspace file.",
     schema [
       ("file_path", ty "string");
       ("old_string", ty "string");
       ("new_string", ty "string")] ["file_path"; "old_string"; "new_string"]));
  ("Write", ("Create or overwrite a file inside the workspace.",
     schema [
       ("file_path", ty "string");
       ("content", ty "string")] ["file_path"; "content"]));
  ("Bash", ("Legacy alias for running a shell command in the workspace.",
     schema [
       ("command", ty "string");
       ("workdir", ty "string");
       ("timeout_ms", ty "integer")] ["command"]))]%string.

Definition builtin_specs : list (string * (string * Value)) :=
  shell_specs ++ file_specs ++ plan_specs ++ input_specs ++ plugin_specs ++ resource_specs ++ helper_specs.
Fixpoint spec_entry (n : str) (l : list (string * (string * Value))) : option (string * Value) :=
  match l with
  | [] => None
  | (k, e) :: l => if bool_decide (lit k = n) then Some e else spec_entry n l
  end.
(** [None] is the panic of the last arm.
    src: crates/pulsing-forge/src/handlers/mod.rs 48-62 builtin_spec *)
Definition builtin_spec (n : str) : option ToolSpec :=
  (λ e, function (plain n) (lit e.1) e.2) <$> spec_entry n builtin_specs.

(** The executors' names in the order of the list, with whether they may run
    in parallel.
    src: crates/pulsing-forge/src/handlers/mod.rs 353-382 builtin_handlers *)
Definition builtin_names : list (string * bool) := [
  ("shell_command", false); ("exec_command", false); ("write_stdin", false); ("apply_patch", false); ("view_image", false);
  ("update_plan", false); ("new_context", false); ("get_context_remaining", false); ("request_user_input", false);
  ("request_permissions", false); ("tool_search", false); ("list_available_plugins_to_install", false);
  ("request_plugin_install", false);
  ("list_mcp_resources", true); ("list_mcp_resource_templates", true); ("read_mcp_resource", true);
  ("Read", false); ("Glob", false); ("Grep", false); ("Edit", false); ("Write", false); ("Bash", false)]%string.

Section Builtin.
Context {C W : Type} (handler : str → C → Value → W → W * Result ToolResult ToolError).
(** src: crates/pulsing-forge/src/handlers/mod.rs 353-382 builtin_handlers *)
Definition builtin_handlers : option (list (ToolExecutor C W)) :=
  mapM (λ e, let n := lit e.1 in (λ s, mk_executor n s Direct e.2 (handler n)) <$> builtin_spec n) builtin_names.
End Builtin.

(** ** The tool registry: proofs

    What is registered is found under its own name whatever the order of
    registration; what the model is shown does not depend on the order of the
    hash map; and the built-in tools form a registry. *)
Section Registry.
Context {C W : Type}.
Notation executor := (ToolExecutor C W).

(** ** What registration accepts *)
Definition key (e : executor) : str := trim (tool_name e).
Definition valid (e : executor) : Prop := key e ≠ [] ∧ key e = model_name (ts_name (spec e)).
Definition keyed (es : list executor) : list (str * executor) := (λ e, (key e, e)) <$> es.

Lemma keyed_keys es : (keyed es).*1 = key <$> es.
Proof. unfold keyed. by rewrite <- list_fmap_compose. Qed.

Lemma register_spec (r : ToolRegistry C W) e r' :
  register r e = Ok r' ↔ valid e ∧ tools r !! key e = None ∧ r' = mk_tools (<[key e := e]> (tools r)).
Proof.
  unfold register, valid. fold (key e). split.
  - case_bool_decide as H1; [done|]. case_bool_decide as H2; [done|]. case_bool_decide as H3; [done|]. intros [= <-].
    split_and!; [done|done|by apply eq_None_not_Some|done].
  - intros ((H1 & H2) & H3 & ->). rewrite !bool_decide_false; [done|rewrite H3; by intros [? ?]|tauto|done].
Qed.

Lemma register_all_spec (es : list executor) (r r' : ToolRegistry C W) :
  register_all r es = Ok r' ↔
  Forall valid es ∧ NoDup (key <$> es) ∧ Forall (λ e, tools r !! key e = None) es ∧
  r' = mk_tools (list_to_map (keyed es) ∪ tools r).
Proof.
  revert r. induction es as [|e es IH]; intros r; simpl.
  { split; [intros [= <-]; split_and!; try constructor; by rewrite map_empty_union; destruct r|].
    intros (_ & _ & _ & ->). rewrite map_empty_union. by destruct r. }
  transitivity (∃ r1, register r e = Ok r1 ∧ register_all r1 es = Ok r').
  { destruct (register r e); simpl; split; [eauto|intros (? & [= <-] & ?); done|done|by intros (? & ? & _)]. }
  split.
  - intros (r1 & H1 & H2). apply register_spec in H1 as (Hv & Hn & ->). apply IH in H2 as (Hv' & Hd & Hf & ->). cbn [tools] in *.
    assert (Hk : key e ∉ key <$> es).
    { rewrite list_elem_of_fmap. intros (e' & He & Hin). rewrite Forall_forall in Hf. specialize (Hf e' Hin). rewrite <- He, lookup_insert in Hf.
      by rewrite decide_True in Hf. }
    split_and!; [by constructor|by constructor| |].
    + constructor; [done|]. eapply Forall_impl; [exact Hf|]. intros e' He'. cbv beta in *. by apply lookup_insert_None in He' as [? _].
    + f_equal. rewrite <- insert_union_l, insert_union_r; [done|]. apply not_elem_of_list_to_map_1. by rewrite keyed_keys.
  - intros (Hv & Hd & Hf & ->). apply Forall_cons in Hv as [Hv Hvs]. apply NoDup_cons in Hd as [Hk Hd]. apply Forall_cons in Hf as [Hn Hf].
    eexists. split; [by apply register_spec|]. apply IH. split_and!; [done|done| |].
    + rewrite Forall_forall in Hf |- *. intros e' Hin. cbn [tools]. rewrite lookup_insert_ne; [by apply Hf|]. intros He. apply Hk. rewrite He. by apply list_elem_of_fmap_2.
    + f_equal. cbn [tools]. rewrite <- insert_union_l, insert_union_r; [done|]. apply not_elem_of_list_to_map_1. by rewrite keyed_keys.
Qed.

Lemma from_executors_spec (es : list executor) r :
  from_executors es = Ok r ↔ Forall valid es ∧ NoDup (key <$> es) ∧ r = mk_tools (list_to_map (keyed es)).
Proof.
  unfold from_executors. rewrite register_all_spec. cbn [tools]. rewrite map_union_empty. split; [tauto|].
  intros (H1 & H2 & ->). split_and!; [done|done| |done]. apply Forall_forall. intros e _. apply lookup_empty.
Qed.

(** What is found under a name carries it. *)
Lemma registered_tool (es : list executor) r n e :
  from_executors es = Ok r → get_tool r n = Some e → e ∈ es ∧ valid e ∧ n = key e.
Proof.
  intros (Hv & _ & ->)%from_executors_spec. unfold get_tool. cbn [tools]. intros Hl%elem_of_list_to_map_2.
  apply list_elem_of_fmap in Hl as (e' & [= -> ->] & Hin). rewrite Forall_forall in Hv. split_and!; [done|by apply Hv|done].
Qed.
Lemma tool_registered (es : list executor) r e : from_executors es = Ok r → e ∈ es → get_tool r (key e) = Some e.
Proof.
  intros (_ & Hd & ->)%from_executors_spec Hin. unfold get_tool. cbn [tools]. apply elem_of_list_to_map_1; [by rewrite keyed_keys|].
  apply list_elem_of_fmap. eauto.
Qed.

(** The order of registration does not matter: the same executors in any
    other order form the same registry, in which each is found under its
    trimmed name and nothing else is found. *)
Theorem registration_order_irrelevant (es es' : list executor) (r : ToolRegistry C W) :
  from_executors es = Ok r → es' ≡ₚ es →
  from_executors es' = Ok r ∧ (∀ n e, get_tool r n = Some e ↔ e ∈ es' ∧ trim (tool_name e) = n).
Proof.
  intros H Hp. assert (H' : from_executors es' = Ok r).
  { revert H. rewrite !from_executors_spec. intros (Hv & Hd & ->). split_and!; [by rewrite Hp|by rewrite Hp|].
    f_equal. apply list_to_map_proper; [by rewrite keyed_keys|]. unfold keyed. by rewrite Hp. }
  split; [done|]. intros n e. split.
  - intros Hg. destruct (registered_tool es' r n e H' Hg) as (Hin & _ & ->). done.
  - intros [Hin <-]. by apply (tool_registered es').
Qed.

(** ** What the model is shown *)
Lemma definition_name s : get_str (lit "name") (model_definition s) = Some (model_name (ts_name s)).
Proof. reflexivity. Qed.

Definition shows (r : ToolRegistry C W) (n : str) (d : Value) : Prop :=
  ∃ e, get_tool r n = Some e ∧ is_direct (exposure e) = true ∧ d = model_definition (spec e).

Lemma definitions_for_spec (r : ToolRegistry C W) ns ds : definitions_for r ns = Ok ds ↔ Forall2 (shows r) ns ds.
Proof.
  revert ds. induction ns as [|n ns IH]; intros ds; simpl.
  { split; [by intros [= <-]|]. intros H. by inversion H. }
  unfold shows at 1, get_tool. destruct (tools r !! n) as [e|] eqn:He.
  2:{ split; [done|]. intros H. inversion H as [|? ? ? ? (e' & He' & _)]. unfold get_tool in He'. congruence. }
  destruct (is_direct (exposure e)) eqn:Hd; simpl.
  2:{ split; [done|]. intros H. inversion H as [|? ? ? ? (e' & He' & Hd' & _)]. unfold get_tool in He'. congruence. }
  split.
  - intros H. apply and_then_Ok in H as (rest & Hr & [= <-]). constructor; [by exists e|]. by apply IH.
  - intros H. inversion H as [|? ? ? ? (e' & He' & _ & ->) Hrest]; subst. unfold get_tool in He'. rewrite He in He'. injection He' as <-.
    apply IH in Hrest. rewrite Hrest. done.
Qed.

(** The name in a definition is the one it is found under. *)
Lemma shown_name (es : list executor) r n d : from_executors es = Ok r → shows r n d → get_str (lit "name") d = Some n.
Proof.
  intros Hr (e & He & _ & ->). rewrite definition_name. destruct (registered_tool es r n e Hr He) as (_ & [_ <-] & ->). done.
Qed.
Lemma shows_inj (r : ToolRegistry C W) n d d' : shows r n d → shows r n d' → d = d'.
Proof. intros (e & He & _ & ->) (e' & He' & _ & ->). congruence. Qed.
End Registry.

#[global] Instance name_le_trans : Transitive name_le.
Proof.
  intros a b c. unfold name_le. destruct (get_str (lit "name") a), (get_str (lit "name") b), (get_str (lit "name") c); try done. apply transitivity.
Qed.
#[global] Instance name_le_total : Total name_le.
Proof.
  intros a b. unfold name_le. destruct (get_str (lit "name") a), (get_str (lit "name") b); try (by left); try (by right). apply total. apply _.
Qed.

(** The names of the tools that are shown without being asked for. *)
Definition direct {C W} (r : ToolRegistry C W) (n : str) : bool :=
  match get_tool r n with Some e => is_direct (exposure e) | None => false end.
Definition direct_names {C W} {O : Oracle} (r : ToolRegistry C W) : list str := filter (λ n, direct r n = true) (names r).
Definition definition_of {C W} (r : ToolRegistry C W) (n : str) : Value :=
  match get_tool r n with Some e => model_definition (spec e) | None => Null end.

Lemma names_perm {C W} {O : Oracle} (r : ToolRegistry C W) : names r ≡ₚ (map_to_list (tools r)).*1.
Proof. unfold names. rewrite merge_sort_Permutation. by rewrite hm_iter_perm. Qed.
Lemma names_NoDup {C W} {O : Oracle} (r : ToolRegistry C W) : NoDup (names r).
Proof. rewrite names_perm. apply NoDup_fst_map_to_list. Qed.
Lemma names_sorted {C W} {O : Oracle} (r : ToolRegistry C W) : StronglySorted str_le (names r).
Proof. apply StronglySorted_merge_sort; apply _. Qed.

Lemma direct_shows {C W} (r : ToolRegistry C W) n : direct r n = true → shows r n (definition_of r n).
Proof. unfold direct, definition_of, shows. destruct (get_tool r n) as [e|]; [|done]. eauto. Qed.

Lemma filter_direct {C W} (r : ToolRegistry C W) (l : list (str * ToolExecutor C W)) :
  Forall (λ kv, tools r !! kv.1 = Some kv.2) l →
  definition_of r <$> filter (λ n, direct r n = true) l.*1 =
  (λ t, model_definition (spec t)) <$> filter (λ t, is_direct (exposure t) = true) l.*2.
Proof.
  induction 1 as [|[k e] l He _ IH]; [done|]. rewrite !fmap_cons. cbn [fst snd] in *.
  assert (Hd : direct r k = is_direct (exposure e)) by (unfold direct, get_tool; by rewrite He).
  destruct (is_direct (exposure e)) eqn:Hx.
  - rewrite !filter_cons_True, !fmap_cons by congruence. f_equal; [|done]. unfold definition_of, get_tool. by rewrite He.
  - rewrite !filter_cons_False by congruence. done.
Qed.

Lemma sorted_names_defs {C W} (es : list (ToolExecutor C W)) r ns :
  from_executors es = Ok r → StronglySorted str_le ns → Forall (λ n, direct r n = true) ns →
  StronglySorted name_le (definition_of r <$> ns).
Proof.
  intros Hr. induction 1 as [|n ns _ IH Hn]; intros Hd; [constructor|]. apply Forall_cons in Hd as [Hd Hds]. rewrite fmap_cons.
  constructor; [by apply IH|]. rewrite Forall_fmap, Forall_forall. intros m Hm. simpl.
  rewrite Forall_forall in Hn, Hds. unfold name_le.
  rewrite (shown_name es r n), (shown_name es r m); [by apply Hn|done|apply direct_shows, Hds, Hm|done|by apply direct_shows].
Qed.
Lemma filter_sorted {A} (R : A → A → Prop) (P : A → Prop) `{∀ x, Decision (P x)} (l : list A) : StronglySorted R l → StronglySorted R (filter P l).
Proof.
  induction 1 as [|x l _ IH Hx]; [constructor|]. destruct (decide (P x)); [rewrite filter_cons_True|rewrite filter_cons_False]; try done.
  constructor; [done|]. rewrite Forall_forall in Hx |- *. intros y [_ Hy]%list_elem_of_filter. by apply Hx.
Qed.

(** The definitions that are shown do not depend on the order in which
    the hash map is walked: they are, for every two such orders, those that
    are obtained by asking for the names of the visible tools in order. *)
Theorem direct_definitions_sorted {C W} (es : list (ToolExecutor C W)) (r : ToolRegistry C W) (O O' : Oracle) :
  from_executors es = Ok r → definitions_for r (@direct_names C W O r) = Ok (@direct_definitions C W O' r).
Proof.
  intros Hr. apply definitions_for_spec.
  assert (Hd : Forall (λ n, direct r n = true) (@direct_names C W O r)).
  { unfold direct_names. apply Forall_forall. by intros n [? _]%list_elem_of_filter. }
  assert (Hall : Forall2 (shows r) (@direct_names C W O r) (definition_of r <$> @direct_names C W O r)).
  { apply Forall2_fmap_r, Forall_Forall2_diag. eapply Forall_impl; [exact Hd|]. intros n. apply direct_shows. }
  enough (@direct_definitions C W O' r = definition_of r <$> @direct_names C W O r) as -> by done.
  assert (Hp : @direct_definitions C W O' r ≡ₚ definition_of r <$> @direct_names C W O r).
  { unfold direct_definitions, direct_names, hm_values. rewrite merge_sort_Permutation, names_perm, hm_iter_perm.
    rewrite filter_direct; [done|]. apply Forall_forall. intros [k e] Hin%elem_of_map_to_list. done. }
  apply (StronglySorted_unique_strong name_le); [| |by eapply sorted_names_defs; [exact Hr|apply filter_sorted, names_sorted|]|done].
  - intros x y Hx Hy. rewrite Hp in Hx. apply list_elem_of_fmap in Hx as (n & -> & Hn). apply list_elem_of_fmap in Hy as (m & -> & Hm).
    rewrite Forall_forall in Hd. unfold name_le.
    rewrite (shown_name es r n), (shown_name es r m) by (done || by apply direct_shows, Hd). intros ? ?. by rewrite (str_le_anti n m).
  - apply StronglySorted_merge_sort; apply _.
Qed.

(** ** The built-in tools *)
Definition builtin_executor {C W} (handler : str → C → Value → W → W * Result ToolResult ToolError) (e : string * bool) : ToolExecutor C W :=
  mk_executor (lit e.1) (default (function (plain []) [] Null) (builtin_spec (lit e.1))) Direct e.2 (handler (lit e.1)).
Lemma builtin_handlers_all {C W} (handler : str → C → Value → W → W * Result ToolResult ToolError) :
  builtin_handlers handler = Some (builtin_executor handler <$> builtin_names).
Proof. reflexivity. Qed.
(** Every built-in tool has a schema of an object with properties. *)
Definition object_schema (v : Value) : bool :=
  bool_decide (get_str (lit "type") v = Some (lit "object")) && bool_decide (is_Some (get (lit "properties") v ≫= as_object)).
Lemma builtin_schemas :
  forallb (λ e, match builtin_spec (lit e.1) with Some s => object_schema (ts_input_schema s) && negb (bool_decide (ts_description s = [])) | None => false end)
    builtin_names = true.
Proof. vm_compute. reflexivity. Qed.
Lemma builtin_registry {C W} (handler : str → C → Value → W → W * Result ToolResult ToolError) :
  ∃ r, from_executors (builtin_executor handler <$> builtin_names) = Ok r.
Proof.
  eexists. apply from_executors_spec. split_and!; [| |reflexivity].
  - rewrite Forall_fmap. repeat (constructor; [split; [discriminate|reflexivity]|]). constructor.
  - rewrite <- list_fmap_compose. apply (bool_decide_unpack _). vm_compute. exact I.
Qed.

(** ** Witnesses *)
Definition sample_executors : list (ToolExecutor unit unit) :=
  builtin_executor (λ n _ _ w, (w, Ok (result_ok n))) <$> [("Read", false); ("Bash", false); ("Glob", false)]%string.
Lemma sample_registered : ∃ r, from_executors sample_executors = Ok r.
Proof. eexists. vm_compute. reflexivity. Qed.
Lemma registration_order_irrelevant_witness :
  ∃ r, from_executors sample_executors = Ok r ∧ from_executors (reverse sample_executors) = Ok r.
Proof.
  destruct sample_registered as [r Hr]. exists r. split; [exact Hr|].
  apply (registration_order_irrelevant sample_executors (reverse sample_executors) r Hr). apply reverse_Permutation.
Defined.
(** Another order of the map: the reverse. *)
Program Definition reverse_oracle : Oracle := {| hm_iter _ _ _ _ m := reverse (map_to_list m); shuffle _ l := l; choose _ l := head l |}.
Next Obligation. intros. simpl. by rewrite reverse_Permutation. Qed.
Next Obligation. done. Qed.
Next Obligation. intros A [|a l] x [= <-]. apply list_elem_of_here. Qed.
Next Obligation. by intros A [|a l]. Qed.
Lemma direct_definitions_sorted_witness :
  ∃ r, from_executors sample_executors = Ok r ∧ definitions_for r (@direct_names _ _ first_oracle r) = Ok (@direct_definitions _ _ reverse_oracle r).
Proof.
  destruct sample_registered as [r Hr]. exists r. split; [exact Hr|]. exact (direct_definitions_sorted sample_executors r first_oracle reverse_oracle Hr).
Defined.
