(* ===== verification/Mcp.v ===== *)
(** * Tools of MCP servers

    Models [mcp/tools.rs], [mcp/resources.rs], [mcp/connection_manager.rs],
    what [mcp/client.rs] makes of a server's tools, and [handlers/mcp.rs] in
    crates/pulsing-forge/src: which tools the model sees, under which names,
    and where a call by such a name goes. The servers themselves (the rmcp
    client), SHA-1, the URL parser and the JSON printer are parameters. *)
From stdpp Require Import sorting.
From S2P Require Import Prelude Text Json Approval Registry.

(** ** Tools *)
(** What the program reads of rmcp's [Tool]. *)
Record Tool := mk_tool {
  raw_name : str; t_description : option str; t_input_schema : list (str * Value); t_meta : option (list (str * Value)) }.
(** src: crates/pulsing-forge/src/mcp/tools.rs 20-38 ToolInfo *)
Record ToolInfo := mk_info {
  server_name : str; supports_parallel_tool_calls : bool; server_origin : option str;
  callable_name : str; callable_namespace : str; namespace_description : option str; tool : Tool;
  connector_id : option str; connector_name : option str; plugin_display_names : list str }.
(** src: crates/pulsing-forge/src/mcp/tools.rs 41-50 ToolInfo::model_tool_name *)
Definition model_tool_name (prefix_mcp_tool_names : bool) (t : ToolInfo) : str :=
  if prefix_mcp_tool_names then callable_namespace t ++ lit "__" ++ callable_name t
  else callable_namespace t ++ lit "/" ++ callable_name t.
Definition visibility (t : Tool) : option (list Value) :=
  meta ← t_meta t; ui ← member (lit "ui") meta; m ← as_object ui; v ← member (lit "visibility") m; as_array v.
(** src: crates/pulsing-forge/src/mcp/tools.rs 53-68 tool_is_model_visible *)
Definition tool_is_model_visible (t : ToolInfo) : bool :=
  match visibility (tool t) with
  | None => true
  | Some vs => existsb (λ v, bool_decide (as_str v = Some (lit "model"))) vs
  end.

(** src: crates/pulsing-forge/src/mcp/tools.rs 70-74 ToolFilter *)
Record ToolFilter := mk_filter { enabled : option (gset str); disabled : gset str }.
(** The configuration's lists of tools.
    src: crates/pulsing-forge/src/mcp/tools.rs 77-89 ToolFilter::from_config *)
Definition from_config (enabled_tools disabled_tools : option (list str)) : ToolFilter :=
  mk_filter (list_to_set <$> enabled_tools) (default ∅ (list_to_set <$> disabled_tools)).
(** src: crates/pulsing-forge/src/mcp/tools.rs 91-98 ToolFilter::allows *)
Definition allows (f : ToolFilter) (tool_name : str) : bool :=
  match enabled f with
  | Some e => if negb (bool_decide (tool_name ∈ e)) then false else negb (bool_decide (tool_name ∈ disabled f))
  | None => negb (bool_decide (tool_name ∈ disabled f))
  end.
(** src: crates/pulsing-forge/src/mcp/tools.rs 101-106 filter_tools *)
Definition filter_tools (ts : list ToolInfo) (f : ToolFilter) : list ToolInfo :=
  filter (λ t, allows f (raw_name (tool t)) = true) ts.

Definition underscore : Z := 95.
Definition name_char (c : Z) : bool := is_ascii_alphanumeric c || (c =? underscore) || (c =? 45).
(** src: crates/pulsing-forge/src/mcp/tools.rs 108-118 sanitize_responses_api_tool_name *)
Definition sanitize_responses_api_tool_name (n : str) : str :=
  match (λ c, if name_char c then c else underscore) <$> n with [] => lit "tool" | out => out end.
(** The longest prefix of at most [n] bytes: a slice up to
    [floor_char_boundary]. *)
Fixpoint floor_prefix (n : Z) (s : str) : str :=
  match s with
  | [] => []
  | c :: s => if utf8_width c <=? n then c :: floor_prefix (n - utf8_width c) s else []
  end.

Definition max_tool_name_bytes : Z := 64.
Definition legacy_mcp_tool_name_prefix : str := lit "mcp__".

Section Names.
(** [sha1_hex]: the digest of a string's bytes, printed with [{:x}]. *)
Context (sha1_hex : str → str).
(** src: crates/pulsing-forge/src/mcp/tools.rs 164-176 truncate_to_bytes *)
Definition truncate_to_bytes (s : str) (max : Z) : str :=
  if utf8_len s <=? max then s
  else
    let suffix := take 8 (sha1_hex s) in
    let keep := saturating_sub max (utf8_len suffix + 1) in
    floor_prefix (Z.min keep (utf8_len s)) s ++ lit "_" ++ suffix.

(** A tool's identity: the two names with a zero between them. *)
Definition identity (t : ToolInfo) : str := server_name t ++ 0 :: raw_name (tool t).
(** The names a tool is given; the rest is kept.
    src: crates/pulsing-forge/src/mcp/tools.rs 137-148 normalize_tools_for_model (one tool) *)
Definition rename_tool (prefix_mcp_tool_names : bool) (t : ToolInfo) : ToolInfo :=
  let ns := if prefix_mcp_tool_names then legacy_mcp_tool_name_prefix ++ sanitize_responses_api_tool_name (server_name t)
            else sanitize_responses_api_tool_name (server_name t) in
  let cn := sanitize_responses_api_tool_name (raw_name (tool t)) in
  mk_info (server_name t) (supports_parallel_tool_calls t) (server_origin t)
    (truncate_to_bytes cn max_tool_name_bytes) (truncate_to_bytes ns max_tool_name_bytes)
    (namespace_description t) (tool t) (connector_id t) (connector_name t) (plugin_display_names t).
(** The tools are taken in order; a tool whose identity or whose new name was
    seen is left out.
    src: crates/pulsing-forge/src/mcp/tools.rs 120-162 normalize_tools_for_model *)
Fixpoint normalize_from (prefix : bool) (seen_identity seen_model_names : gset str) (ts : list ToolInfo) : list ToolInfo :=
  match ts with
  | [] => []
  | t :: ts =>
      if bool_decide (identity t ∈ seen_identity) then normalize_from prefix seen_identity seen_model_names ts
      else
        let t' := rename_tool prefix t in
        let n := model_tool_name prefix t' in
        if bool_decide (n ∈ seen_model_names) then normalize_from prefix ({[identity t]} ∪ seen_identity) seen_model_names ts
        else t' :: normalize_from prefix ({[identity t]} ∪ seen_identity) ({[n]} ∪ seen_model_names) ts
  end.
Definition normalize_tools_for_model (ts : list ToolInfo) (prefix : bool) : list ToolInfo := normalize_from prefix ∅ ∅ ts.
End Names.

(** src: crates/pulsing-forge/src/mcp/tools.rs 193-204 tool_input_schema_json *)
Definition tool_input_schema_json (t : Tool) : Value :=
  let m := match t_input_schema t with [] => [(lit "type", text "object")] | m => m end in
  Object match member (lit "properties") m with
         | None | Some Null => member_insert (lit "properties") (Object []) m
         | Some _ => m
         end.
(** src: crates/pulsing-forge/src/mcp/tools.rs 178-191 tool_spec_for_model *)
Definition tool_spec_for_model (prefix : bool) (t : ToolInfo) : Value :=
  json [("name", Text (model_tool_name prefix t)); ("description", Text (default [] (t_description (tool t))));
        ("input_schema", tool_input_schema_json (tool t)); ("server_name", Text (server_name t));
        ("tool_name", Text (raw_name (tool t)))]%string.

(** ** Resources *)
(** src: crates/pulsing-forge/src/mcp/resources.rs 6-8 MAX_MCP_RESOURCE_BYTES *)
Definition max_mcp_resource_bytes : Z := 2 * 1024 * 1024.
Definition max_mcp_resource_uri_bytes : Z := 8 * 1024.
(** [parse_url] gives the scheme.
    src: crates/pulsing-forge/src/mcp/resources.rs 10-26 validate_mcp_resource_uri *)
Definition validate_mcp_resource_uri (parse_url : str → Result str str) (uri : str) : Result unit str :=
  let trimmed := trim uri in
  if bool_decide (trimmed = []) then Err (lit "uri must be a non-empty string")
  else if max_mcp_resource_uri_bytes <? utf8_len trimmed then
    Err (lit "uri too long: " ++ display_u128 (utf8_len trimmed) ++ lit " bytes (max 8192)")
  else
    match parse_url trimmed with
    | Err e => Err (lit "invalid uri: " ++ e)
    | Ok [] => Err (lit "uri must include a scheme (e.g. file://, https://)")
    | Ok _ => Ok tt
    end.
(** Text or a blob in base 64: both are strings. *)
Inductive ResourceContents := TextContents (t : str) | BlobContents (b : str).
(** src: crates/pulsing-forge/src/mcp/resources.rs 28-33 resource_content_bytes *)
Definition resource_content_bytes (c : ResourceContents) : Z :=
  match c with TextContents t => utf8_len t | BlobContents b => utf8_len b end.
(** src: crates/pulsing-forge/src/mcp/resources.rs 35-37 total_resource_bytes *)
Definition total_resource_bytes (contents : list ResourceContents) : Z := foldr (λ c n, resource_content_bytes c + n) 0 contents.
(** src: crates/pulsing-forge/src/mcp/resources.rs 39-49 enforce_resource_size_limit *)
Definition enforce_resource_size_limit (contents : list ResourceContents) : Result (list ResourceContents) str :=
  let total := total_resource_bytes contents in
  if max_mcp_resource_bytes <? total then
    Err (lit "MCP resource content too large: " ++ display_u128 total ++ lit " bytes (max 2097152)")
  else Ok contents.

(** ** Connections *)
(** The program's own error; the first two carry the library's text.
    src: crates/pulsing-forge/src/mcp/client.rs 22-32 McpClientError *)
Inductive McpClientError := Initialize (e : str) | Service (e : str) | StartupTimeout (shown : str) | Startup (server message : str).
Definition client_error_text (e : McpClientError) : str :=
  match e with
  | Initialize e => lit "MCP initialize error: " ++ e
  | Service e => lit "MCP service error: " ++ e
  | StartupTimeout d => lit "startup timed out after " ++ d
  | Startup server message => lit "server " ++ server ++ lit ": " ++ message
  end.
(** What a client keeps of a server; the connection is the world's.
    src: crates/pulsing-forge/src/mcp/client.rs 34-40 McpManagedClient *)
Record McpManagedClient := mk_client { client_server : str; client_tools : list ToolInfo; tool_filter : ToolFilter }.
(** The tools a server has listed.
    src: crates/pulsing-forge/src/mcp/client.rs 108-137 McpManagedClient::connect_with_transport (tools) *)
Definition managed_client (server : str) (parallel : bool) (f : ToolFilter) (listed : list Tool) : McpManagedClient :=
  mk_client server
    (filter_tools ((λ t, mk_info server parallel (Some (lit "plugin")) (raw_name t) server (t_description t) t None None []) <$> listed) f) f.

(** src: crates/pulsing-forge/src/mcp/connection_manager.rs 25-29 McpStartupFailure *)
Record McpStartupFailure := mk_failure { failed_server : str; failure_message : str }.
(** src: crates/pulsing-forge/src/mcp/connection_manager.rs 31-36 McpConnectionManager *)
Record McpConnectionManager := mk_manager {
  clients : gmap str McpManagedClient; all_tools : list ToolInfo; prefix_mcp_tool_names : bool; failures : list McpStartupFailure }.

(** The enabled servers are connected at once; [joined] are their outcomes in
    the order in which they come in.
    src: crates/pulsing-forge/src/mcp/connection_manager.rs 63-80 McpConnectionManager::start (joining) *)
Fixpoint join_clients (joined : list (str * Result McpManagedClient McpClientError))
    (cs : gmap str McpManagedClient) (fs : list McpStartupFailure) : gmap str McpManagedClient * list McpStartupFailure :=
  match joined with
  | [] => (cs, fs)
  | (n, Ok c) :: rest => join_clients rest (<[n := c]> cs) fs
  | (n, Err e) :: rest => join_clients rest cs (fs ++ [mk_failure n (client_error_text e)])
  end.
(** src: crates/pulsing-forge/src/mcp/connection_manager.rs 39-99 McpConnectionManager::start *)
Definition start {O : Oracle} (sha1_hex : str → str) (joined : list (str * Result McpManagedClient McpClientError)) (prefix : bool) : McpConnectionManager :=
  let '(cs, fs) := join_clients joined ∅ [] in
  let visible := hm_values cs ≫= λ c, filter (λ t, tool_is_model_visible t = true) (client_tools c) in
  mk_manager cs (normalize_tools_for_model sha1_hex visible prefix) prefix fs.
(** src: crates/pulsing-forge/src/mcp/connection_manager.rs 109-113 McpConnectionManager::find_tool *)
Definition find_tool (m : McpConnectionManager) (model_name : str) : option ToolInfo :=
  head (filter (λ t, model_tool_name (prefix_mcp_tool_names m) t = model_name) (all_tools m)).
(** src: crates/pulsing-forge/src/mcp/connection_manager.rs 236-240 McpConnectionManager::server_names *)
Definition server_names {O : Oracle} (m : McpConnectionManager) : list str := merge_sort str_le (hm_iter (clients m)).*1.

(** What rmcp answers to a call of a tool, as far as the program reads it. *)
Record CallToolResult := mk_call { call_is_error : option bool; call_body : Value }.

(** The servers. *)
Class Servers (W : Type) := {
  service_call : str → str → list (str * Value) → W → W * Result CallToolResult McpClientError;
  service_resources : str → option str → W → W * Result Value McpClientError;
  service_templates : str → option str → W → W * Result Value McpClientError;
  service_read : str → str → W → W * Result (list ResourceContents) McpClientError;
  to_string : Value → str;
  resource_text : list ResourceContents → str;
  parse_url : str → Result str str
}.

Section Calls.
Context {W : Type} {S : Servers W} {O : Oracle}.

(** Arguments that are no object become an empty one.
    src: crates/pulsing-forge/src/mcp/client.rs 139-159 McpManagedClient::call_tool *)
Definition client_call (c : McpManagedClient) (tool_name : str) (arguments : Value) (w : W) : W * Result CallToolResult McpClientError :=
  service_call (client_server c) tool_name (default [] (as_object arguments)) w.

(** The text of an unknown name's error.
    src: crates/pulsing-forge/src/mcp/connection_manager.rs 121-135 McpConnectionManager::call_tool_by_model_name (hint) *)
Definition unknown_hint (m : McpConnectionManager) : str :=
  match all_tools m with
  | [] => lit "no MCP tools are registered (check server startup failures)"
  | t :: ts =>
      lit "available tools: " ++
      foldl (λ acc t, acc ++ lit ", " ++ model_tool_name (prefix_mcp_tool_names m) t) (model_tool_name (prefix_mcp_tool_names m) t) ts
  end.
(** [quoted]: the debug form of a string.
    src: crates/pulsing-forge/src/mcp/connection_manager.rs 115-150 McpConnectionManager::call_tool_by_model_name *)
Definition call_tool_by_model_name (quoted : str → str) (m : McpConnectionManager) (model_name : str) (arguments : Value) (w : W)
    : W * Result CallToolResult McpClientError :=
  match find_tool m model_name with
  | None => (w, Err (Startup model_name (lit "unknown MCP tool; " ++ unknown_hint m)))
  | Some t =>
      match clients m !! server_name t with
      | None => (w, Err (Startup (server_name t) (lit "MCP server not connected for tool " ++ quoted (raw_name (tool t)))))
      | Some c => client_call c (raw_name (tool t)) arguments w
      end
  end.
(** src: crates/pulsing-forge/src/mcp/connection_manager.rs 152-166 McpConnectionManager::call_tool_raw *)
Definition call_tool_raw (m : McpConnectionManager) (server tool_name : str) (arguments : Value) (w : W)
    : W * Result CallToolResult McpClientError :=
  match clients m !! server with
  | None => (w, Err (Startup server (lit "MCP server not connected")))
  | Some c => client_call c tool_name arguments w
  end.
(** The three calls that ask a server for resources differ in the question.
    src: crates/pulsing-forge/src/mcp/connection_manager.rs 168-181 McpConnectionManager::list_resources *)
Definition on_server {A} (m : McpConnectionManager) (server : str) (ask : str → W → W * Result A McpClientError) (w : W)
    : W * Result A McpClientError :=
  match clients m !! server with
  | None => (w, Err (Startup server (lit "MCP server not connected")))
  | Some c => ask (client_server c) w
  end.
(** The servers that answer, by name.
    src: crates/pulsing-forge/src/mcp/connection_manager.rs 183-191 McpConnectionManager::list_all_resources *)
Definition list_all_resources (m : McpConnectionManager) (w : W) : W * gmap str Value :=
  foldl (λ acc nc, let '(w, found) := acc in
         match service_resources (client_server nc.2) None w with
         | (w', Ok v) => (w', <[nc.1 := v]> found)
         | (w', Err _) => (w', found)
         end) (w, ∅) (hm_iter (clients m)).

(** ** The tools that ask servers *)
(** src: crates/pulsing-forge/src/handlers/mcp.rs 17-31 optional_server_name *)
Definition optional_server_name (arguments : Value) : Result (option str) ToolError :=
  match get (lit "server") arguments with
  | None => Ok None
  | Some v =>
      match as_str v with
      | None => Err (RespondToModel (lit "server must be a string"))
      | Some raw =>
          if bool_decide (trim raw = []) then Err (RespondToModel (lit "server must be a non-empty string")) else Ok (Some (trim raw))
      end
  end.
(** src: crates/pulsing-forge/src/handlers/mcp.rs 33-45 require_non_empty_str *)
Definition require_non_empty_str (arguments : Value) (field : str) : Result str ToolError :=
  match get_str field arguments with
  | None => Err (RespondToModel (field ++ lit " is required"))
  | Some raw =>
      if bool_decide (trim raw = []) then Err (RespondToModel (field ++ lit " must be a non-empty string")) else Ok (trim raw)
  end.
Definition respond_with {A} (f : McpClientError → str) (r : W * Result A McpClientError) : W * Result A ToolError :=
  (r.1, match r.2 with Ok a => Ok a | Err e => Err (RespondToModel (f e)) end).
(** src: crates/pulsing-forge/src/handlers/mcp.rs 197-199 format_mcp_dynamic_tool_error *)
Definition format_mcp_dynamic_tool_error (server t : str) (e : McpClientError) : str :=
  lit "MCP tool " ++ server ++ lit "/" ++ t ++ lit " failed: " ++ client_error_text e.
(** src: crates/pulsing-forge/src/handlers/mcp.rs 201-203 format_mcp_read_resource_error *)
Definition format_mcp_read_resource_error (server uri : str) (e : McpClientError) : str :=
  lit "MCP resource " ++ server ++ lit "/" ++ uri ++ lit " failed: " ++ client_error_text e.
(** src: crates/pulsing-forge/src/handlers/mcp.rs 275-279 format_call_tool_result *)
Definition format_call_tool_result (r : CallToolResult) : ToolResult :=
  mk_result (to_string (call_body r)) (default false (call_is_error r)) None.

(** src: crates/pulsing-forge/src/handlers/mcp.rs 211-238 dispatch_mcp_host_tool (list_mcp_resources) *)
Definition list_resources_tool (m : McpConnectionManager) (arguments : Value) (w : W) : W * Result ToolResult ToolError :=
  match optional_server_name arguments with
  | Err e => (w, Err e)
  | Ok (Some server) =>
      let '(w', r) := respond_with client_error_text
        (on_server m server (λ s, service_resources s (get_str (lit "cursor") arguments)) w) in
      (w', let? v := r in Ok (result_ok (to_string v)))
  | Ok None =>
      match get_str (lit "cursor") arguments with
      | Some _ => (w, Err (RespondToModel (lit "cursor can only be used when a server is specified")))
      | None => let '(w', all) := list_all_resources m w in (w', Ok (result_ok (to_string (Object (hm_iter all)))))
      end
  end.
(** src: crates/pulsing-forge/src/handlers/mcp.rs 239-254 dispatch_mcp_host_tool (list_mcp_resource_templates) *)
Definition list_templates_tool (m : McpConnectionManager) (arguments : Value) (w : W) : W * Result ToolResult ToolError :=
  match require_non_empty_str arguments (lit "server") with
  | Err e => (w, Err e)
  | Ok server =>
      let '(w', r) := respond_with client_error_text
        (on_server m server (λ s, service_templates s (get_str (lit "cursor") arguments)) w) in
      (w', let? v := r in Ok (result_ok (to_string v)))
  end.
(** src: crates/pulsing-forge/src/handlers/mcp.rs 255-270 dispatch_mcp_host_tool (read_mcp_resource) *)
Definition read_resource_tool (m : McpConnectionManager) (arguments : Value) (w : W) : W * Result ToolResult ToolError :=
  match (let? server := require_non_empty_str arguments (lit "server") in
         let? uri := require_non_empty_str arguments (lit "uri") in
         match validate_mcp_resource_uri parse_url uri with Ok _ => Ok (server, uri) | Err e => Err (RespondToModel e) end) with
  | Err e => (w, Err e)
  | Ok (server, uri) =>
      let '(w', r) := respond_with (format_mcp_read_resource_error server uri) (on_server m server (λ s, service_read s uri) w) in
      (w', let? contents := r in
           match enforce_resource_size_limit contents with
           | Ok c => Ok (result_ok (resource_text c))
           | Err e => Err (RespondToModel (lit "MCP resource " ++ server ++ lit "/" ++ uri ++ lit ": " ++ e))
           end)
  end.
(** [shared]: the runtime of the context, if it has one, and the connections
    in it, if they are started.
    src: crates/pulsing-forge/src/handlers/mcp.rs 69-79 mcp_handler (handle) *)
Definition with_mcp (shared : option (option McpConnectionManager))
    (k : McpConnectionManager → W → W * Result ToolResult ToolError) (w : W) : W * Result ToolResult ToolError :=
  match shared with
  | None => (w, Err (RespondToModel (lit "MCP runtime is not initialized")))
  | Some None => (w, Err (RespondToModel (lit "MCP runtime is not started")))
  | Some (Some m) => k m w
  end.
(** src: crates/pulsing-forge/src/handlers/mcp.rs 205-273 dispatch_mcp_host_tool *)
Definition dispatch_mcp_host_tool (n : str) (m : McpConnectionManager) (arguments : Value) (w : W) : W * Result ToolResult ToolError :=
  if bool_decide (n = lit "list_mcp_resources") then list_resources_tool m arguments w
  else if bool_decide (n = lit "list_mcp_resource_templates") then list_templates_tool m arguments w
  else if bool_decide (n = lit "read_mcp_resource") then read_resource_tool m arguments w
  else (w, Err (RespondToModel (lit "unknown MCP host tool: " ++ n))).

(** ** Calls of a server's tool *)
(** src: crates/pulsing-forge/src/handlers/mcp.rs 161-179 dispatch_mcp_dynamic_tool *)
Definition dispatch_mcp_dynamic_tool (quoted : str → str) (m : McpConnectionManager) (model_name : str) (arguments : Value) (w : W)
    : W * Result ToolResult ToolError :=
  match find_tool m model_name with
  | None =>
      (w, Err (RespondToModel (lit "unknown MCP tool " ++ quoted model_name ++ lit "; refresh MCP or list names via mcp_tool_names()")))
  | Some t =>
      let '(w', r) := respond_with (format_mcp_dynamic_tool_error (server_name t) (raw_name (tool t)))
        (call_tool_by_model_name quoted m model_name arguments w) in
      (w', let? c := r in Ok (format_call_tool_result c))
  end.
(** src: crates/pulsing-forge/src/handlers/mcp.rs 181-195 try_call_mcp_dynamic_tool *)
Definition try_call_mcp_dynamic_tool (quoted : str → str) (shared : option (option McpConnectionManager)) (n : str) (arguments : Value) (w : W)
    : option (W * Result ToolResult ToolError) :=
  match shared with
  | Some (Some m) =>
      if starts_with legacy_mcp_tool_name_prefix n || bool_decide (is_Some (find_tool m n)) then
        Some (dispatch_mcp_dynamic_tool quoted m n arguments w)
      else None
  | _ => None
  end.
End Calls.

(** ** A server's tool as an executor *)
(** src: crates/pulsing-forge/src/handlers/mcp.rs 92-97 McpDynamicToolHandler *)
Record McpDynamicToolHandler := mk_dynamic { mh_model_name : str; mh_parallel : bool; mh_description : str; mh_input_schema : Value }.
(** src: crates/pulsing-forge/src/handlers/mcp.rs 100-107 McpDynamicToolHandler::new *)
Definition McpDynamicToolHandler_new (n : str) : McpDynamicToolHandler :=
  mk_dynamic n false (lit "Call a dynamically registered MCP tool.") (json [("type", text "object"); ("properties", json [])]%string).
(** src: crates/pulsing-forge/src/handlers/mcp.rs 109-121 McpDynamicToolHandler::from_tool_info *)
Definition from_tool_info (t : ToolInfo) (prefix : bool) : McpDynamicToolHandler :=
  mk_dynamic (model_tool_name prefix t) (supports_parallel_tool_calls t)
    (default (lit "Call a dynamically registered MCP tool.") (t_description (tool t))) (tool_input_schema_json (tool t)).
(** The context's runtime is read with [shared].
    src: crates/pulsing-forge/src/handlers/mcp.rs 124-158 ToolExecutor for McpDynamicToolHandler *)
Definition dynamic_executor {C W} {S : Servers W} (quoted : str → str) (shared : C → W → option (option McpConnectionManager)) (h : McpDynamicToolHandler)
    : ToolExecutor C W :=
  mk_executor (mh_model_name h) (function (plain (mh_model_name h)) (mh_description h) (mh_input_schema h)) Deferred (mh_parallel h)
    (λ ctx arguments w, with_mcp (shared ctx w) (λ m, dispatch_mcp_dynamic_tool quoted m (mh_model_name h) arguments) w).

(** ** Tools of MCP servers: proofs

    The names the model sees are distinct, short and made of permitted
    characters, and a call by such a name reaches the server that listed the
    tool, under the name it was listed by. *)
(** ** Names *)
Lemma floor_prefix_len n s : 0 <= n → utf8_len (floor_prefix n s) <= n.
Proof.
  revert n. induction s as [|c s IH]; intros n Hn; simpl; [done|]. destruct (Z.leb_spec (utf8_width c) n); [|done].
  rewrite utf8_len_cons. specialize (IH (n - utf8_width c)). lia.
Qed.
Lemma floor_prefix_forall P n s : Forall P s → Forall P (floor_prefix n s).
Proof.
  intros Hs. revert n. induction Hs as [|c s Hc _ IH]; intros n; simpl; [constructor|]. destruct (_ <=? _); [|constructor]. by constructor.
Qed.
Lemma floor_prefix_app n a s : utf8_len a <= n → floor_prefix n (a ++ s) = a ++ floor_prefix (n - utf8_len a) s.
Proof.
  revert n. induction a as [|c a IH]; intros n Hn; [by rewrite Z.sub_0_r|]. rewrite utf8_len_cons in Hn. pose proof (utf8_len_nonneg a).
  simpl. rewrite (proj2 (Z.leb_le _ _)) by lia. f_equal. rewrite IH by lia. do 2 f_equal. rewrite utf8_len_cons. lia.
Qed.
Lemma utf8_len_ascii s : Forall (λ c, name_char c = true) s → utf8_len s = Z.of_nat (length s).
Proof.
  induction 1 as [|c s Hc _ IH]; [done|]. rewrite utf8_len_cons, IH. unfold utf8_width.
  unfold name_char, is_ascii_alphanumeric, is_digit, underscore in Hc. rewrite (proj2 (Z.ltb_lt c 128)) by lia. simpl. lia.
Qed.
Lemma sanitize_chars n : Forall (λ c, name_char c = true) (sanitize_responses_api_tool_name n).
Proof.
  unfold sanitize_responses_api_tool_name.
  assert (Forall (λ c, name_char c = true) ((λ c, if name_char c then c else underscore) <$> n)) as H.
  { rewrite Forall_fmap. apply Forall_forall. intros c _. simpl. by destruct (name_char c) eqn:Hc. }
  destruct (_ <$> n); [|done]. by repeat constructor.
Qed.
Lemma sanitize_not_nil n : sanitize_responses_api_tool_name n ≠ [].
Proof. unfold sanitize_responses_api_tool_name. by destruct (_ <$> n). Qed.

Section Names.
Context (sha1_hex : str → str) (hex : ∀ s, Forall (λ c, is_hex c = true) (sha1_hex s)).

Lemma hex_name_char c : is_hex c = true → name_char c = true.
Proof using. unfold is_hex, name_char, is_ascii_alphanumeric, is_digit. lia. Qed.
Lemma suffix_chars s : Forall (λ c, name_char c = true) (take 8 (sha1_hex s)).
Proof using hex. apply Forall_take. eapply Forall_impl; [apply hex|]. apply hex_name_char. Qed.
Lemma suffix_len s : utf8_len (take 8 (sha1_hex s)) <= 8.
Proof using hex. rewrite utf8_len_ascii by apply suffix_chars. rewrite length_take. lia. Qed.

Lemma truncate_chars s max : Forall (λ c, name_char c = true) s → Forall (λ c, name_char c = true) (truncate_to_bytes sha1_hex s max).
Proof using hex.
  intros Hs. unfold truncate_to_bytes. destruct (_ <=? _); [done|]. repeat (apply Forall_app; split).
  - by apply floor_prefix_forall.
  - by repeat constructor.
  - apply suffix_chars.
Qed.
Lemma truncate_len s max : 9 <= max → utf8_len (truncate_to_bytes sha1_hex s max) <= max.
Proof using hex.
  intros Hmax. unfold truncate_to_bytes. destruct (Z.leb_spec (utf8_len s) max); [done|]. rewrite !utf8_len_app.
  pose proof (suffix_len s). pose proof (utf8_len_nonneg (take 8 (sha1_hex s))). pose proof (utf8_len_nonneg s).
  pose proof (floor_prefix_len (Z.min (saturating_sub max (utf8_len (take 8 (sha1_hex s)) + 1)) (utf8_len s)) s) as Hf.
  change (utf8_len (lit "_")) with 1. unfold saturating_sub in *. lia.
Qed.
Lemma truncate_prefix p s max : utf8_len p + 9 <= max → ∃ t, truncate_to_bytes sha1_hex (p ++ s) max = p ++ t.
Proof using hex.
  intros Hmax. unfold truncate_to_bytes. destruct (Z.leb_spec (utf8_len (p ++ s)) max); [by eexists|].
  pose proof (suffix_len (p ++ s)). pose proof (utf8_len_nonneg p). rewrite utf8_len_app in *. pose proof (utf8_len_nonneg s).
  rewrite floor_prefix_app by (unfold saturating_sub; lia). rewrite <- app_assoc. by eexists.
Qed.
Lemma truncate_not_nil s max : s ≠ [] → truncate_to_bytes sha1_hex s max ≠ [].
Proof using.
  intros Hs. unfold truncate_to_bytes. destruct (_ <=? _); [done|]. intros Hn%(f_equal length). rewrite !length_app in Hn. simpl in Hn. lia.
Qed.

(** ** What is kept *)
Notation normalize := (normalize_from sha1_hex).
Lemma rename_identity prefix t : identity (rename_tool sha1_hex prefix t) = identity t.
Proof using. done. Qed.

Lemma normalized_from prefix ids ns ts t :
  t ∈ normalize prefix ids ns ts → ∃ t0, t0 ∈ ts ∧ t = rename_tool sha1_hex prefix t0 ∧ identity t ∉ ids ∧ model_tool_name prefix t ∉ ns.
Proof using.
  clear hex.
  revert ids ns. induction ts as [|t0 ts IH]; intros ids ns; simpl; [by intros ?%elem_of_nil|].
  case_bool_decide as H1.
  { intros (t1 & H & ?)%IH. exists t1. split; [by right|done]. }
  case_bool_decide as H2.
  { intros (t1 & H & -> & Hi & Hn)%IH. exists t1. split_and!; [by right|done|set_solver|done]. }
  intros [->|Hin]%elem_of_cons.
  { exists t0. split_and!; [by left|done|by rewrite rename_identity|done]. }
  apply IH in Hin as (t1 & H & -> & Hi & Hn). exists t1. split_and!; [by right|done|set_solver|set_solver].
Qed.
Lemma normalized_unique prefix ids ns ts :
  NoDup (model_tool_name prefix <$> normalize prefix ids ns ts) ∧ NoDup (identity <$> normalize prefix ids ns ts).
Proof using.
  clear hex.
  revert ids ns. induction ts as [|t0 ts IH]; intros ids ns; simpl; [split; constructor|].
  case_bool_decide as H1; [apply IH|]. case_bool_decide as H2; [apply IH|]. rewrite !fmap_cons.
  destruct (IH ({[identity t0]} ∪ ids) ({[model_tool_name prefix (rename_tool sha1_hex prefix t0)]} ∪ ns)) as [IH1 IH2].
  split; constructor; try done; intros (t & Ht & Hin)%list_elem_of_fmap; apply normalized_from in Hin as (t1 & _ & _ & Hi & Hn);
    rewrite ?rename_identity in Ht; rewrite <- Ht in *; set_solver.
Qed.

(** The names under which tools of MCP servers are shown are all
    different, one for each pair of a server and a tool's own name; both
    parts of a name are made of the characters the model's interface permits
    and have at most 64 bytes, which leaves at most 130 for the name. *)
Theorem mcp_names_are_usable (ts : list ToolInfo) (t : ToolInfo) :
  t ∈ normalize_tools_for_model sha1_hex ts true →
  NoDup (model_tool_name true <$> normalize_tools_for_model sha1_hex ts true) ∧
  NoDup (identity <$> normalize_tools_for_model sha1_hex ts true) ∧
  Forall (λ c, name_char c = true) (model_tool_name true t) ∧
  starts_with legacy_mcp_tool_name_prefix (model_tool_name true t) = true ∧
  0 < utf8_len (callable_name t) <= 64 ∧ utf8_len (callable_namespace t) <= 64 ∧ utf8_len (model_tool_name true t) <= 130.
Proof using hex.
  intros Hin. destruct (normalized_unique true ∅ ∅ ts) as [Hn Hi]. split; [done|]. split; [done|].
  apply normalized_from in Hin as (t0 & _ & -> & _). unfold model_tool_name, rename_tool. cbn [callable_name callable_namespace].
  set (cn := truncate_to_bytes sha1_hex (sanitize_responses_api_tool_name (raw_name (tool t0))) max_tool_name_bytes).
  set (ns := truncate_to_bytes sha1_hex (legacy_mcp_tool_name_prefix ++ _) max_tool_name_bytes).
  assert (Hc : utf8_len cn <= 64) by (apply truncate_len; done). assert (Hs : utf8_len ns <= 64) by (apply truncate_len; done).
  assert (Hcc : Forall (λ c, name_char c = true) cn) by apply truncate_chars, sanitize_chars.
  split_and!; [|destruct (truncate_prefix legacy_mcp_tool_name_prefix (sanitize_responses_api_tool_name (server_name t0)) max_tool_name_bytes) as [s Hs'];
    [done|]; unfold ns; rewrite Hs', <- app_assoc; unfold starts_with; by rewrite strip_prefix_app| |done|done|].
  - repeat (apply Forall_app; split); [|by repeat constructor|done]. apply truncate_chars. apply Forall_app. split; [by repeat constructor|apply sanitize_chars].
  - assert (cn ≠ []) by apply truncate_not_nil, sanitize_not_nil. rewrite utf8_len_ascii by done. destruct cn; simpl; [done|lia].
  - rewrite !utf8_len_app. change (utf8_len (lit "__")) with 2. lia.
Qed.
End Names.

(** Each part is cut to the limit, so the name is not. *)
Example long_names_exceed_limit :
  let t := mk_info (replicate 59 97) false None [] [] None (mk_tool (replicate 64 98) None [] None) None None [] in
  utf8_len (model_tool_name true (rename_tool (λ _, []) true t)) = 130.
Proof. reflexivity. Qed.

(** ** Calls *)
(** A server's outcome is that of its own connection. *)
Definition honest (joined : list (str * Result McpManagedClient McpClientError)) : Prop :=
  Forall (λ nr, ∀ c, nr.2 = Ok c → ∃ parallel f listed, c = managed_client nr.1 parallel f listed) joined.

Lemma join_clients_keys joined cs fs n c :
  (join_clients joined cs fs).1 !! n = Some c → cs !! n = Some c ∨ (n, Ok c) ∈ joined.
Proof.
  revert cs fs. induction joined as [|[k [c'|e]] joined IH]; intros cs fs; simpl; [by left| |].
  - intros [H|H]%IH; [|by right; right]. destruct (decide (k = n)) as [->|Hk].
    + rewrite lookup_insert, decide_True in H by done. injection H as ->. right. by left.
    + rewrite lookup_insert_ne in H by done. by left.
  - intros [H|H]%IH; [by left|by right; right].
Qed.

Section Calls.
Context {W : Type} {S : Servers W} {O : Oracle} (sha1_hex : str → str).

Lemma find_shown (m : McpConnectionManager) t :
  NoDup (model_tool_name (prefix_mcp_tool_names m) <$> all_tools m) → t ∈ all_tools m →
  find_tool m (model_tool_name (prefix_mcp_tool_names m) t) = Some t.
Proof.
  unfold find_tool. generalize (all_tools m) (prefix_mcp_tool_names m). intros ts p. induction ts as [|t' ts IH]; [by intros _ ?%elem_of_nil|].
  rewrite fmap_cons. intros [Hn Hd]%NoDup_cons [->|Hin]%elem_of_cons.
  - by rewrite filter_cons_True.
  - rewrite filter_cons_False; [by apply IH|]. intros He. apply Hn. rewrite He. by apply list_elem_of_fmap_2.
Qed.

(** Where a tool comes from. *)
Definition listed_by (joined : list (str * Result McpManagedClient McpClientError)) (t : ToolInfo) : Prop :=
  ∃ parallel f listed, (server_name t, Ok (managed_client (server_name t) parallel f listed)) ∈ joined ∧
    tool t ∈ listed ∧ allows f (raw_name (tool t)) = true ∧ visibility (tool t) ≠ Some [].

Lemma started_tool joined prefix t :
  honest joined → t ∈ all_tools (start sha1_hex joined prefix) →
  listed_by joined t ∧ ∃ c, clients (start sha1_hex joined prefix) !! server_name t = Some c ∧ client_server c = server_name t.
Proof.
  intros Hh. unfold start. destruct (join_clients joined ∅ []) as [cs fs] eqn:Hj. cbn [all_tools clients].
  unfold normalize_tools_for_model. intros Ht. apply (normalized_from sha1_hex) in Ht as (t0 & Ht0 & -> & _). apply list_elem_of_bind in Ht0 as (c & Ht0 & Hc).
  apply list_elem_of_filter in Ht0 as [Hv Ht0]. apply elem_of_hm_values in Hc as (n & Hn).
  assert (Hin : (n, Ok c) ∈ joined).
  { destruct (join_clients_keys joined ∅ [] n c) as [H|H]; [by rewrite Hj|by rewrite lookup_empty in H|done]. }
  unfold honest in Hh. rewrite Forall_forall in Hh. pose proof (Hh _ Hin c eq_refl) as (p & f & listed & Hc). cbn [fst] in *. subst c.
  cbn [client_tools managed_client] in Ht0. unfold filter_tools in Ht0. apply list_elem_of_filter in Ht0 as [Ha Ht0].
  apply list_elem_of_fmap in Ht0 as (t1 & -> & Ht1). split; [|by eexists].
  exists p, f, listed. split_and!; [done|done|done|]. intros Hv'. revert Hv. unfold tool_is_model_visible. cbn [tool rename_tool] in *. rewrite Hv'. discriminate.
Qed.

Lemma find_started joined prefix t :
  t ∈ all_tools (start sha1_hex joined prefix) → find_tool (start sha1_hex joined prefix) (model_tool_name prefix t) = Some t.
Proof.
  intros Hin. assert (Hp : prefix_mcp_tool_names (start sha1_hex joined prefix) = prefix) by (unfold start; by destruct (join_clients joined ∅ [])).
  rewrite <- Hp at 2. apply find_shown; [|done]. rewrite Hp. unfold start. destruct (join_clients joined ∅ []). cbn [all_tools].
  apply (normalized_unique sha1_hex).
Qed.

(** A tool of an MCP server that is shown is called where it came from:
    whatever the order in which the servers answer and in which they are
    walked, a shown tool was listed by its server, is allowed by the server's
    filter and is not hidden from the model; it is the one that is found
    under its name; and a call by that name asks this server, which is
    connected, for the tool by the name the server gave it. *)
Theorem mcp_call_reaches_owner (joined : list (str * Result McpManagedClient McpClientError)) (prefix : bool) (t : ToolInfo) (q : str → str) (arguments : Value) (w : W) :
  honest joined → t ∈ all_tools (start sha1_hex joined prefix) →
  listed_by joined t ∧
  find_tool (start sha1_hex joined prefix) (model_tool_name prefix t) = Some t ∧
  call_tool_by_model_name q (start sha1_hex joined prefix) (model_tool_name prefix t) arguments w =
  service_call (server_name t) (raw_name (tool t)) (default [] (as_object arguments)) w.
Proof.
  intros Hh Hin. destruct (started_tool joined prefix t Hh Hin) as (Hl & c & Hc & Hs).
  pose proof (find_started joined prefix t Hin) as Hf.
  split; [done|]. split; [done|]. unfold call_tool_by_model_name. rewrite Hf, Hc. unfold client_call. by rewrite Hs.
Qed.
End Calls.

(** ** Witnesses *)
(** A world that remembers what the servers were asked. *)
Definition Asked : Type := list (str * str).
#[export] Instance sample_servers : Servers Asked := {
  service_call s n _ w := (w ++ [(s, n)], Ok (mk_call None (Text n)));
  service_resources _ _ w := (w, Ok Null);
  service_templates _ _ w := (w, Ok Null);
  service_read _ _ w := (w, Ok []);
  to_string v := default [] (as_str v);
  resource_text _ := [];
  parse_url u := Ok (lit "file")
}.
Definition sample_sha (_ : str) : str := lit "da39a3ee5e6b4b0d3255bfef95601890afd80709".
Definition sample_tool (n : string) : Tool := mk_tool (lit n) None [] None.
(** Two servers whose names look the same to the model. *)
Definition sample_joined : list (str * Result McpManagedClient McpClientError) :=
  [(lit "my.server", Ok (managed_client (lit "my.server") false (from_config None None) [sample_tool "search"; sample_tool "get issue"]));
   (lit "gone", Err (StartupTimeout (lit "30s")));
   (lit "my_server", Ok (managed_client (lit "my_server") false (from_config None (Some [lit "drop"])) [sample_tool "search"; sample_tool "drop"]))].
Definition sample_started : McpConnectionManager := start sample_sha sample_joined true.
Lemma sample_honest : honest sample_joined.
Proof. repeat (constructor; [intros c; first [by intros [= <-]; repeat eexists | discriminate]|]). constructor. Qed.
Lemma sample_hex s : Forall (λ c, is_hex c = true) (sample_sha s).
Proof. apply (bool_decide_unpack _). vm_compute. exact I. Qed.
Example sample_names :
  model_tool_name true <$> all_tools sample_started = [lit "mcp__my_server__search"; lit "mcp__my_server__get_issue"] ∧
  failures sample_started = [mk_failure (lit "gone") (lit "startup timed out after 30s")].
Proof. vm_compute. done. Qed.

Definition sample_listed : list ToolInfo :=
  client_tools (managed_client (lit "my_server") false (from_config None None) [sample_tool "search"])
  ++ client_tools (managed_client (lit "my.server") false (from_config None None) [sample_tool "search"; sample_tool "get issue"]).
Definition sample_issue : ToolInfo :=
  rename_tool sample_sha true (mk_info (lit "my.server") false (Some (lit "plugin")) (lit "get issue") (lit "my.server") None (sample_tool "get issue") None None []).
Lemma mcp_names_are_usable_witness :
  normalize_tools_for_model sample_sha sample_listed true !! 1%nat = Some sample_issue ∧
  model_tool_name true sample_issue = lit "mcp__my_server__get_issue" ∧ 0 < utf8_len (callable_name sample_issue) <= 64.
Proof.
  assert (H : normalize_tools_for_model sample_sha sample_listed true !! 1%nat = Some sample_issue) by (vm_compute; reflexivity).
  split; [exact H|]. split; [vm_compute; reflexivity|].
  pose proof (mcp_names_are_usable sample_sha sample_hex sample_listed sample_issue (list_elem_of_lookup_2 _ _ _ H)) as (_ & _ & _ & _ & Hc & _).
  exact Hc.
Defined.
Lemma mcp_call_reaches_owner_witness :
  all_tools sample_started !! 1%nat = Some sample_issue ∧
  call_tool_by_model_name id sample_started (lit "mcp__my_server__get_issue") Null [] = service_call (lit "my.server") (lit "get issue") [] [].
Proof.
  assert (H : all_tools sample_started !! 1%nat = Some sample_issue) by (vm_compute; reflexivity). split; [exact H|].
  pose proof (mcp_call_reaches_owner sample_sha sample_joined true sample_issue id Null [] sample_honest (list_elem_of_lookup_2 _ _ _ H)) as (_ & _ & Hc).
  exact Hc.
Defined.
