(* ===== verification/Telemetry.v ===== *)
(** * Trace contexts and recorded spans

    [tracing/mod.rs]: the trace context of a message, read from and written to
    the W3C header; [span_store.rs], [actor_store.rs] and [metrics_store.rs]: the
    rows that spans, actors and measurements become in the tables other tools
    read. The tables and the OpenTelemetry types belong to other packages: a row
    is the list of its values, and a span is what the exporter reads of it. *)
From S2P Require Import Prelude Text Json.
From S2P Require Mcp.

(** ** The trace context *)
(** src: crates/pulsing-actor/src/tracing/mod.rs 161-171 TraceContext *)
Record TraceContext := mk_trace { trace_id : str; span_id : str; trace_flags : Z; trace_state : option str }.
Definition dash : Z := 45.
(** [u8::from_str_radix(s, 16)]: a plus sign is allowed in front of digits. *)
Definition u8_of_hex (s : str) : option Z :=
  match strip_plus s with
  | [] => None
  | d => if forallb is_hex d && (hex_value d <? 256) then Some (hex_value d) else None
  end.
(** src: crates/pulsing-actor/src/tracing/mod.rs 196-223 TraceContext::from_traceparent *)
Definition from_traceparent (header : str) : option TraceContext :=
  match split dash header with
  | [_; trace; span; flags] =>
      if negb (utf8_len trace =? 32) || negb (utf8_len span =? 16) || negb (utf8_len flags =? 2) then None
      else fl ← u8_of_hex flags; Some (mk_trace trace span fl None)
  | _ => None
  end.
(** src: crates/pulsing-actor/src/tracing/mod.rs 239-245 TraceContext::to_traceparent *)
Definition to_traceparent (t : TraceContext) : str :=
  lit "00-" ++ trace_id t ++ dash :: span_id t ++ dash :: hex_digits 2 (trace_flags t).
Section State.
(** Whether [TraceState::from_str] accepts a text. *)
Context (state_ok : str → bool).
(** src: crates/pulsing-actor/src/tracing/mod.rs 225-237 TraceContext::from_w3c_headers *)
Definition from_w3c_headers (traceparent : str) (tracestate : option str) : option TraceContext :=
  tc ← from_traceparent traceparent;
  match tracestate with
  | Some raw =>
      let t := trim raw in
      Some (if negb (bool_decide (t = [])) && state_ok t then mk_trace (trace_id tc) (span_id tc) (trace_flags tc) (Some t) else tc)
  | None => Some tc
  end.
(** The parent of the span of a received message: [None] is the current one.
    src: crates/pulsing-actor/src/tracing/mod.rs 426-439 actor_receive_span (parent) *)
Definition receive_parent (traceparent tracestate : option str) : option TraceContext :=
  tp ← traceparent;
  t ← from_traceparent tp;
  Some match tracestate with
       | Some ts => if negb (bool_decide (ts = [])) && state_ok ts then mk_trace (trace_id t) (span_id t) (trace_flags t) (Some ts) else t
       | None => t
       end.
End State.
(** The id is drawn.
    src: crates/pulsing-actor/src/tracing/mod.rs 279-287 TraceContext::child *)
Definition child (drawn : Z) (t : TraceContext) : TraceContext := mk_trace (trace_id t) (hex_digits 16 drawn) (trace_flags t) (trace_state t).
(** src: crates/pulsing-actor/src/tracing/mod.rs 291-303 TraceContext::default *)
Definition TraceContext_default (drawn_trace drawn_span : Z) : TraceContext := mk_trace (hex_digits 32 drawn_trace) (hex_digits 16 drawn_span) 1 None.

(** ** Spans as rows *)
(** A column's value. *)
Inductive Cell := CellStr (s : str) | CellI64 (n : Z).
Definition as_i64 (n : Z) : Z := (n + 9223372036854775808) mod two64 - 9223372036854775808.
Definition ellipsis : Z := 8230.
(** src: crates/pulsing-actor/src/span_store.rs 160-169 truncate_bytes *)
Definition truncate_bytes (s : str) (max : Z) : str :=
  if utf8_len s <=? max then s else Mcp.floor_prefix (saturating_sub max 1) s ++ [ellipsis].
Section Spans.
Context (to_string : Value → str) (from_str : str → option Value).
(** src: crates/pulsing-actor/src/span_store.rs 171-179 kv_slice_to_json_map *)
Definition kv_slice_to_json_map (attrs : list (str * str)) (max_entries : nat) (max_val_bytes : Z) : str :=
  to_string (Object (foldl (λ m kv, member_insert kv.1 (Text (truncate_bytes kv.2 max_val_bytes)) m) [] (take max_entries attrs))).
(** What the exporter reads of an event, of a span's status and of a span; an
    invalid parent is [None], times are in nanoseconds after the epoch. *)
Record EventData := mk_event { ev_name : str; ev_nanos : Z; ev_attributes : list (str * str) }.
Inductive SpanStatus := StatusUnset | StatusOk | StatusError (description : str).
Record SpanData := mk_span {
  sd_trace_id : str; sd_span_id : str; sd_parent : option str; sd_sampled : bool; sd_name : str; sd_kind : str; sd_start : Z; sd_end : Z;
  sd_status : SpanStatus; sd_scope : str; sd_version : option str; sd_attributes : list (str * str); sd_events : list EventData;
  sd_links : list (str * str); sd_dropped : Z * Z * Z }.
(** src: crates/pulsing-actor/src/span_store.rs 128-150 SpanRecord *)
Record SpanRecord := mk_record {
  r_trace_id : str; r_span_id : str; r_parent_span_id : str; r_sampled : bool; r_name : str; r_kind : str;
  start_unix_nanos : Z; end_unix_nanos : Z; duration_nanos : Z; status_code : str; status_message : str; instrumentation_scope : str;
  instrumentation_version : str; dropped_counts : Z * Z * Z; attributes_json : str; events_json : str; links_json : str }.
(** src: crates/pulsing-actor/src/span_store.rs 16-20 MAX_ATTR_ENTRIES *)
Definition max_attr_entries : nat := 128.
Definition max_attr_value_bytes : Z := 1024.
Definition max_events : nat := 32.
Definition max_event_attr_entries : nat := 16.
Definition max_links : nat := 32.
(** src: crates/pulsing-actor/src/span_store.rs 217-228 span_data_to_record (one event) *)
Definition event_json (e : EventData) : Value :=
  json [("name"%string, Text (ev_name e)); ("timestamp_unix_nanos"%string, Text (display_u128 (Z.max 0 (ev_nanos e))));
        ("attributes"%string, default Null (from_str (kv_slice_to_json_map (ev_attributes e) max_event_attr_entries max_attr_value_bytes)))].
(** src: crates/pulsing-actor/src/span_store.rs 181-270 span_data_to_record *)
Definition span_data_to_record (d : SpanData) : SpanRecord :=
  let '(code, message) := match sd_status d with
                          | StatusUnset => (lit "unset", [])
                          | StatusOk => (lit "ok", [])
                          | StatusError e => (lit "error", truncate_bytes e 4096)
                          end in
  mk_record (sd_trace_id d) (sd_span_id d) (default [] (sd_parent d)) (sd_sampled d) (sd_name d) (sd_kind d)
    (Z.max 0 (sd_start d)) (Z.max 0 (sd_end d)) (if sd_start d <=? sd_end d then Z.min (sd_end d - sd_start d) (two64 - 1) else 0)
    code message (sd_scope d) (default [] (sd_version d)) (sd_dropped d)
    (kv_slice_to_json_map (sd_attributes d) max_attr_entries max_attr_value_bytes)
    (to_string (Array (event_json <$> take max_events (sd_events d))))
    (to_string (Array ((λ l, json [("trace_id"%string, Text l.1); ("span_id"%string, Text l.2)]) <$> take max_links (sd_links d)))).
(** src: crates/pulsing-actor/src/span_store.rs 22-32 SPAN_ATTR_KEYS *)
Definition span_attr_keys : list str :=
  lit <$> ["actor.name"; "message.type"; "target.addr"; "target.path"; "pulsing.op"; "http.method"; "http.route"; "http.url"; "http.peer"]%string.
(** src: crates/pulsing-actor/src/span_store.rs 73-108 write_span_to_memtable *)
Definition span_row (r : SpanRecord) : list Cell :=
  let attrs := match from_str (attributes_json r) with Some (Object m) => m | _ => [] end in
  (CellStr <$> [r_trace_id r; r_span_id r; r_parent_span_id r; r_name r; r_kind r]) ++
  [CellI64 (as_i64 (start_unix_nanos r / 1000)); CellI64 (as_i64 (end_unix_nanos r / 1000)); CellI64 (as_i64 (duration_nanos r) ÷ 1000)] ++
  (CellStr <$> [status_code r; instrumentation_scope r]) ++
  (CellStr <$> ((λ k, default [] (member k attrs ≫= as_str)) <$> span_attr_keys)) ++
  (CellStr <$> [events_json r; links_json r]).
(** src: crates/pulsing-actor/src/span_store.rs 116-121 InMemorySpanExporter::export *)
Definition export (batch : list SpanData) : list (list Cell) := (λ d, span_row (span_data_to_record d)) <$> batch.
End Spans.

(** ** Properties *)
(** *** The header *)
Lemma utf8_len_of_ascii s : forallb is_ascii s = true → utf8_len s = Z.of_nat (length s).
Proof.
  induction s as [|c s IH]; [done|]. cbn [forallb length]. intros [Hc Hs]%andb_true_iff. rewrite utf8_len_cons, IH by done.
  unfold utf8_width. unfold is_ascii in Hc. rewrite Hc. lia.
Qed.
Lemma hex_is_ascii c : is_hex c = true → is_ascii c = true ∧ c ≠ dash ∧ c ≠ 43.
Proof. unfold is_hex, is_digit, is_ascii, dash. lia. Qed.
Lemma hex_ascii s : forallb is_hex s = true → forallb is_ascii s = true ∧ dash ∉ s ∧ strip_plus s = s.
Proof.
  intros Hs. assert (Hall : Forall (λ c, is_ascii c = true ∧ c ≠ dash ∧ c ≠ 43) s).
  { apply Forall_forall. intros c Hc. apply hex_is_ascii. rewrite forallb_forall in Hs. by apply Hs, list_elem_of_In. }
  split_and!.
  - apply forallb_forall. intros c Hc%list_elem_of_In. by destruct (proj1 (Forall_forall _ _) Hall c Hc).
  - intros Hd. by destruct (proj1 (Forall_forall _ _) Hall _ Hd) as (_ & Hn & _).
  - destruct s as [|c [|c' s]]; [done|done|]. cbn. apply Forall_cons in Hall as [(_ & _ & Hc) _]. by replace (c =? 43) with false by lia.
Qed.
Lemma flags_read n : 0 <= n < 256 → u8_of_hex (hex_digits 2 n) = Some n ∧ dash ∉ hex_digits 2 n ∧ utf8_len (hex_digits 2 n) = 2.
Proof.
  intros Hn. destruct (hex_digits_ok 2 n) as (Hl & Hh & Hv); [lia|]. destruct (hex_ascii _ Hh) as (Ha & Hd & Hp). split_and!; [|done|by rewrite utf8_len_of_ascii, Hl].
  unfold u8_of_hex. rewrite Hp. destruct (hex_digits 2 n) as [|c l] eqn:E; [done|]. rewrite <- E in *. rewrite Hh, Hv. cbn [andb].
  rewrite Z.mod_small by (cbn; lia). by replace (n <? 256) with true by lia.
Qed.
(** A context whose ids have their lengths and no dash. *)
Definition context_ok (t : TraceContext) : Prop :=
  utf8_len (trace_id t) = 32 ∧ dash ∉ trace_id t ∧ utf8_len (span_id t) = 16 ∧ dash ∉ span_id t ∧ 0 <= trace_flags t < 256.
Lemma written_is_read t : context_ok t → from_traceparent (to_traceparent t) = Some (mk_trace (trace_id t) (span_id t) (trace_flags t) None).
Proof.
  intros (Ht & Htd & Hs & Hsd & Hf). destruct (flags_read _ Hf) as (Hr & Hfd & Hfl). unfold from_traceparent, to_traceparent.
  change (lit "00-" ++ ?x) with (lit "00" ++ dash :: x). rewrite (split_app dash (lit "00")) by (by apply (bool_decide_unpack _); vm_compute). rewrite !split_app, split_no_sep by done.
  rewrite Ht, Hs, Hfl. cbn [Z.eqb Pos.eqb negb orb]. by rewrite Hr.
Qed.
Lemma split_parts sep s : Forall (λ p, sep ∉ p) (split sep s).
Proof.
  induction s as [|c s IH]; cbn [split]; [by repeat constructor; apply not_elem_of_nil|]. destruct (c =? sep) eqn:Hc; [constructor; [apply not_elem_of_nil|done]|].
  destruct (split sep s) as [|p ps]; [by constructor; [apply not_elem_of_cons; split; [lia|apply not_elem_of_nil]|]|].
  apply Forall_cons in IH as [Hp IH]. constructor; [apply not_elem_of_cons; split; [lia|done]|done].
Qed.
Lemma read_is_ok header t : from_traceparent header = Some t → context_ok t ∧ trace_state t = None.
Proof.
  unfold from_traceparent. pose proof (split_parts dash header) as Hp. destruct (split dash header) as [|v [|tr [|sp [|fl [|]]]]]; try done.
  destruct (negb _ || _ || _) eqn:Hl; [done|]. intros (f & Hf & [= <-])%bind_Some. rewrite !Forall_cons in Hp. destruct Hp as (_ & H1 & H2 & _).
  apply orb_false_iff in Hl as [[Hl1 Hl2]%orb_false_iff Hl3]. rewrite negb_false_iff, Z.eqb_eq in Hl1, Hl2. split; [|done]. repeat split; try done.
  - unfold u8_of_hex in Hf. destruct (strip_plus fl) as [|c l]; [done|]. destruct (forallb is_hex (c :: l)) eqn:Hh; [|done]. cbn [andb] in Hf.
    destruct (hex_value (c :: l) <? 256) eqn:Hv; [|done]. injection Hf as <-. unfold hex_value.
    enough (Hg : ∀ l acc, 0 <= acc → forallb is_hex l = true → 0 <= foldl (λ a x, 16 * a + hex_digit x) acc l) by (apply Hg; [lia|done]).
    clear. intros l. induction l as [|c l IH]; [done|]. cbn. intros acc Ha [Hc Hl]%andb_true_iff. apply IH; [|done].
    assert (0 <= hex_digit c) by (unfold is_hex, hex_digit, is_digit in *; repeat case_match; lia). lia.
  - unfold u8_of_hex in Hf. destruct (strip_plus fl) as [|c l]; [done|]. destruct (_ && _) eqn:Hb; [|done]. injection Hf as <-. apply andb_true_iff in Hb as [_ Hb]. cbn [trace_flags]. lia.
Qed.
(** A context that is written as a header is read back without its state, and
    whatever header is read is one that was so written, up to the version, the
    case and the sign of the flags. *)
Theorem traceparent_roundtrip t header :
  (context_ok t → from_traceparent (to_traceparent t) = Some (mk_trace (trace_id t) (span_id t) (trace_flags t) None)) ∧
  (from_traceparent header = Some t → from_traceparent (to_traceparent t) = Some t).
Proof.
  split; [apply written_is_read|]. intros Hr. apply read_is_ok in Hr as [Hok Hs]. rewrite (written_is_read _ Hok). by destruct t; cbn in *; subst.
Qed.
(** Neither the version nor the digits of the ids are looked at, and the flags
    may have a sign. *)
Example odd_headers :
  (trace_flags <$> from_traceparent (lit "zz-................................-****************-+1")) = Some 1 ∧
  from_traceparent (lit "00-0af7651916cd43dd8448eb211c80319c-b7ad6b7169203331-01-") = None.
Proof. vm_compute. done. Qed.

(** *** Truncation *)
Lemma floor_prefix_spec n s : Mcp.floor_prefix n s `prefix_of` s ∧ (0 <= n → utf8_len (Mcp.floor_prefix n s) <= n) ∧
  ∀ p, p `prefix_of` s → utf8_len p <= n → p `prefix_of` Mcp.floor_prefix n s.
Proof.
  revert n. induction s as [|c s IH]; intros n; cbn [Mcp.floor_prefix]; [split_and!; [done|done|intros p Hp _; done]|].
  pose proof (utf8_width_pos c) as Hw. destruct (Z.leb_spec (utf8_width c) n) as [Hle|Hgt]; destruct (IH (n - utf8_width c)) as (H1 & H2 & H3).
  - split_and!; [by apply prefix_cons|intros _; rewrite utf8_len_cons; lia|]. intros [|d p] Hp Hl; [apply prefix_nil|].
    pose proof (prefix_cons_inv_1 _ _ _ _ Hp) as ->. apply prefix_cons, H3; [by apply prefix_cons_inv_2 in Hp|]. rewrite utf8_len_cons in Hl. lia.
  - split_and!; [apply prefix_nil|done|]. intros [|d p] Hp Hl; [done|]. pose proof (prefix_cons_inv_1 _ _ _ _ Hp) as ->.
    rewrite utf8_len_cons in Hl. pose proof (utf8_len_nonneg p). lia.
Qed.
(** A text that is too long is cut between characters, as late as the limit
    allows, and marked; with the mark it may be two bytes over the limit. *)
Theorem truncate_bytes_spec s max : 0 < max →
  if utf8_len s <=? max then truncate_bytes s max = s
  else ∃ p, truncate_bytes s max = p ++ [ellipsis] ∧ p `prefix_of` s ∧ utf8_len p < max ∧ utf8_len (truncate_bytes s max) <= max + 2 ∧
    ∀ q, q `prefix_of` s → utf8_len q < max → q `prefix_of` p.
Proof.
  intros Hm. unfold truncate_bytes. destruct (utf8_len s <=? max); [done|]. destruct (floor_prefix_spec (saturating_sub max 1) s) as (H1 & H2 & H3).
  assert (Hs : saturating_sub max 1 = max - 1) by (unfold saturating_sub; lia). rewrite Hs in *. specialize (H2 ltac:(lia)).
  eexists. split_and!; [done|done|lia| |intros q Hq Hl; apply H3; [done|lia]]. rewrite utf8_len_app. change (utf8_len [ellipsis]) with 3. lia.
Qed.

(** *** Rows *)
Section Rows.
Context (to_string : Value → str) (from_str : str → option Value).
(** What [serde_json] documents: a value that is written is read back. *)
Hypothesis from_to_string : ∀ v, from_str (to_string v) = Some v.
(** The last value of an attribute: an exporter may be given several. *)
Definition last_value (k : str) (attrs : list (str * str)) : option str := last (snd <$> filter (λ kv, kv.1 = k) attrs).
Lemma member_attributes k (f : str → Value) attrs : member k (foldl (λ m kv, member_insert kv.1 (f kv.2) m) [] attrs) = f <$> last_value k attrs.
Proof.
  unfold last_value. induction attrs as [|[k' v] attrs IH] using rev_ind; [done|]. rewrite foldl_snoc, filter_app, filter_cons. cbn [fst snd].
  destruct (decide (k' = k)) as [->|Hk].
  - rewrite member_insert_eq, filter_nil, fmap_app. cbn. by rewrite last_snoc.
  - by rewrite member_insert_ne, filter_nil, app_nil_r by done.
Qed.
(** A row has a column for each of the known attributes: the span's value, cut
    to a kilobyte, when it is among the attributes kept, and no text otherwise. *)
Theorem row_shows_attribute d i k : span_attr_keys !! i = Some k →
  span_row from_str (span_data_to_record to_string from_str d) !! (10 + i)%nat =
    Some (CellStr (default [] ((λ v, truncate_bytes v max_attr_value_bytes) <$> last_value k (take max_attr_entries (sd_attributes d))))).
Proof.
  intros Hi. unfold span_row. set (r := span_data_to_record to_string from_str d).
  assert (Ha : attributes_json r = kv_slice_to_json_map to_string (sd_attributes d) max_attr_entries max_attr_value_bytes)
    by (unfold r, span_data_to_record; by destruct (sd_status d)).
  rewrite Ha. unfold kv_slice_to_json_map. rewrite from_to_string. rewrite !(assoc_L (++)), lookup_app_l.
  - rewrite lookup_app_r by exact (Nat.le_add_r 10 i). match goal with |- context [(10 + i - ?n)%nat] => change n with 10%nat end. replace (10 + i - 10)%nat with i by lia. rewrite !list_lookup_fmap, Hi. cbn.
    rewrite (member_attributes k (λ v, Text (truncate_bytes v max_attr_value_bytes))). by destruct (last_value _ _).
  - apply lookup_lt_Some in Hi. rewrite length_app, !length_fmap. change (10 + i < 10 + length span_attr_keys)%nat. lia.
Qed.
(** Every span has one row, of as many columns as the table. *)
Theorem rows_fit_the_table batch : length (export to_string from_str batch) = length batch ∧
  Forall (λ row, length row = 21%nat) (export to_string from_str batch).
Proof. unfold export. rewrite length_fmap. split; [done|]. apply Forall_fmap, Forall_forall. intros d _. done. Qed.
End Rows.

(** ** Actors and measurements as rows *)
(** The value of an actor's entry: [actor_id] and [node_id] are printed.
    src: crates/pulsing-actor/src/actor_store.rs 31-49 write_actor_spawned *)
Definition actor_entry_value (actor_id node_id : str) (metadata : gmap str str) : str :=
  let actor_type := default [] (match metadata !! lit "class" with Some c => Some c | None => metadata !! lit "type" end) in
  actor_id ++ lit "|" ++ node_id ++ lit "|" ++ actor_type ++ lit "|" ++ default [] (metadata !! lit "module").
(** src: crates/pulsing-actor/src/metrics_store.rs 37-64 write_metrics_snapshot *)
Definition metrics_row (ts_unix_micros : Z) (node_id : str) (actors_count messages_total actors_created actors_stopped uptime_secs : Z) : list Cell :=
  [CellI64 (as_i64 ts_unix_micros); CellStr node_id; CellI64 (as_i64 actors_count); CellI64 (as_i64 messages_total);
   CellI64 (as_i64 actors_created); CellI64 (as_i64 actors_stopped); CellI64 (as_i64 uptime_secs)].
(** An entry has the columns it is read with, when no part has a bar. *)
Theorem actor_entry_columns (actor_id node_id : str) (metadata : gmap str str) : 124 ∉ actor_id → 124 ∉ node_id → map_Forall (λ _ v, 124 ∉ v) metadata →
  ∃ ty md, split 124 (actor_entry_value actor_id node_id metadata) = [actor_id; node_id; ty; md].
Proof.
  intros Ha Hn Hm. unfold actor_entry_value. cbv zeta. set (md := default [] (metadata !! lit "module")).
  set (ty := default [] (match metadata !! lit "class" with Some c => Some c | None => metadata !! lit "type" end)). exists ty, md.
  assert (Hf : ∀ k, 124 ∉ default [] (metadata !! k)) by (intros k; destruct (metadata !! k) eqn:Hk; [exact (Hm _ _ Hk)|apply not_elem_of_nil]).
  assert (Ht : 124 ∉ ty). { unfold ty. pose proof (Hf (lit "class")). pose proof (Hf (lit "type")). by destruct (metadata !! lit "class"). }
  change (lit "|" ++ md) with (124 :: md). change (lit "|" ++ ty ++ 124 :: md) with (124 :: ty ++ 124 :: md).
  change (lit "|" ++ node_id ++ ?x) with (124 :: node_id ++ x). rewrite !split_app by done. rewrite split_no_sep; [done|apply Hf].
Qed.

(** ** Concrete spans *)
Lemma traceparent_roundtrip_example :
  let t := mk_trace (lit "0af7651916cd43dd8448eb211c80319c") (lit "b7ad6b7169203331") 1 None in
  from_traceparent (lit "00-0af7651916cd43dd8448eb211c80319c-b7ad6b7169203331-01") = Some t ∧
  to_traceparent t = lit "00-0af7651916cd43dd8448eb211c80319c-b7ad6b7169203331-01".
Proof. vm_compute. done. Qed.
Lemma truncate_bytes_spec_witness : truncate_bytes (lit "abcdef") 4 = lit "abc" ++ [ellipsis] ∧ utf8_len (truncate_bytes (lit "abcdef") 4) <= 4 + 2.
Proof.
  split; [vm_compute; reflexivity|]. pose proof (truncate_bytes_spec (lit "abcdef") 4 ltac:(lia)) as Ht.
  change (utf8_len (lit "abcdef") <=? 4) with false in Ht. by destruct Ht as (p & _ & _ & _ & Hl & _).
Defined.
Definition a_span : SpanData :=
  mk_span (lit "t") (lit "s") None true (lit "receive") (lit "Internal") 1000000000 2000000000 StatusOk (lit "scope") None
    [(lit "actor.name", lit "counter")] [] [] (0, 0, 0).
Definition read_back_text (s : str) : option Value := match Written.read_written s with Ok v => Some v | Err _ => None end.
Lemma row_shows_attribute_witness :
  span_row read_back_text (span_data_to_record Written.written read_back_text a_span) !! (10 + 0)%nat = Some (CellStr (lit "counter")).
Proof.
  rewrite (row_shows_attribute Written.written read_back_text ltac:(intros v; unfold read_back_text; by rewrite Written.written_reads_back) a_span 0 (lit "actor.name") eq_refl).
  vm_compute. reflexivity.
Defined.
Lemma actor_entry_columns_witness :
  ∃ ty md, split 124 (actor_entry_value (lit "5") (lit "1") {[lit "class" := lit "Counter"]}) = [lit "5"; lit "1"; ty; md].
Proof.
  apply actor_entry_columns; [by apply (bool_decide_unpack _); vm_compute..|]. apply map_Forall_singleton. by apply (bool_decide_unpack _); vm_compute.
Defined.
