(* ===== verification/Forge.v ===== *)
(** * The tool runtime

    Models [runtime.rs] in crates/pulsing-forge/src: a call by name goes to
    the registered executor, else to a tool of an MCP server, else it is
    answered with an error. Shows that what the model is shown is what is
    called, for the registered tools and for those of MCP servers. *)
From stdpp Require Import sorting.
From S2P Require Import Prelude Text Json Approval Registry Mcp.

(** What the handlers are given and what the runtime needs of it. *)
Class Host (C T W : Type) := {
  shared : C → W → option (option McpConnectionManager);
  with_turn : T → C → C;
  quoted : str → str
}.

(** src: crates/pulsing-forge/src/runtime.rs 47-50 ToolRuntime *)
Record ToolRuntime (C W : Type) := mk_tool_runtime { registry : ToolRegistry C W; context : C }.
Arguments mk_tool_runtime {C W}.
Arguments registry {C W}.
Arguments context {C W}.

Section Runtime.
Context {C T W : Type} {H : Host C T W} {S : Servers W} {O : Oracle}.

(** A handler's error is an answer like any other.
    src: crates/pulsing-forge/src/runtime.rs 124-127 ToolRuntime::call_tool_with_context (result) *)
Definition answer (r : W * Result ToolResult ToolError) : W * ToolResult :=
  (r.1, match r.2 with Ok r => r | Err e => result_err (error_text e) end).
(** src: crates/pulsing-forge/src/runtime.rs 117-136 ToolRuntime::call_tool_with_context *)
Definition call_tool_with_context (rt : ToolRuntime C W) (ctx : C) (n : str) (arguments : Value) (w : W) : W * ToolResult :=
  match get_tool (registry rt) n with
  | Some h => answer (handle h ctx arguments w)
  | None =>
      match try_call_mcp_dynamic_tool quoted (shared ctx w) n arguments w with
      | Some r => answer r
      | None => (w, result_err (lit "Unknown tool: " ++ n))
      end
  end.
(** src: crates/pulsing-forge/src/runtime.rs 102-105 ToolRuntime::call_tool *)
Definition call_tool (rt : ToolRuntime C W) (n : str) (arguments : Value) (w : W) : W * ToolResult :=
  call_tool_with_context rt (context rt) n arguments w.
(** src: crates/pulsing-forge/src/runtime.rs 107-115 ToolRuntime::call_tool_in_turn *)
Definition call_tool_in_turn (rt : ToolRuntime C W) (turn : T) (n : str) (arguments : Value) (w : W) : W * ToolResult :=
  call_tool_with_context rt (with_turn turn (context rt)) n arguments w.
(** [None] is the panic of a registry that is not valid.
    src: crates/pulsing-forge/src/runtime.rs 53-72 ToolRuntime::new *)
Definition ToolRuntime_new (handler : str → C → Value → W → W * Result ToolResult ToolError) (ctx : C) : option (ToolRuntime C W) :=
  es ← builtin_handlers handler;
  match from_executors es with Ok r => Some (mk_tool_runtime r ctx) | Err _ => None end.
(** src: crates/pulsing-forge/src/runtime.rs 87-89 ToolRuntime::tool_names *)
Definition tool_names (rt : ToolRuntime C W) : list str := names (registry rt).
(** src: crates/pulsing-forge/src/runtime.rs 91-96 ToolRuntime::tool_definitions *)
Definition tool_definitions (rt : ToolRuntime C W) (ns : list str) : Result (list Value) ToolRegistryError :=
  definitions_for (registry rt) ns.

(** ** What is shown is called *)
(** C25: A tool that the model is shown can be called: a definition given for
    a list of names is the specification of a registered executor; the name
    in it is the name that was asked for; and a call by that name, with any
    arguments, in the turn or outside, runs that executor's handler and
    nothing else, its error being an answer. *)
Theorem shown_tool_is_called (es : list (ToolExecutor C W)) (rt : ToolRuntime C W) (ns : list str) (ds : list Value) (d : Value) :
  from_executors es = Ok (registry rt) → tool_definitions rt ns = Ok ds → d ∈ ds →
  ∃ e n, e ∈ es ∧ n ∈ ns ∧ d = model_definition (spec e) ∧ get_str (lit "name") d = Some n ∧
    (∀ arguments w, call_tool rt n arguments w = answer (handle e (context rt) arguments w)) ∧
    (∀ turn arguments w, call_tool_in_turn rt turn n arguments w = answer (handle e (with_turn turn (context rt)) arguments w)).
Proof.
  intros Hr Hds Hin. apply definitions_for_spec in Hds. apply list_elem_of_lookup in Hin as [i Hi].
  destruct (Forall2_lookup_r _ _ _ _ _ Hds Hi) as (n & Hn & Hs). pose proof (shown_name es _ n d Hr Hs) as Hname.
  destruct Hs as (e & He & _ & ->). destruct (registered_tool es _ n e Hr He) as (Hes & _ & _).
  assert (Hcall : ∀ ctx arguments w, call_tool_with_context rt ctx n arguments w = answer (handle e ctx arguments w)).
  { intros ctx arguments w. unfold call_tool_with_context. by rewrite He. }
  exists e, n. split_and!; [done|by eapply list_elem_of_lookup_2|done|done|intros; apply Hcall|intros; apply Hcall].
Qed.

(** The runtime is always made, with every built-in tool. *)
Lemma runtime_made (handler : str → C → Value → W → W * Result ToolResult ToolError) (ctx : C) :
  ∃ rt, ToolRuntime_new handler ctx = Some rt ∧ context rt = ctx ∧
    from_executors (builtin_executor handler <$> builtin_names) = Ok (registry rt).
Proof.
  destruct (builtin_registry handler) as [r Hr]. exists (mk_tool_runtime r ctx). split_and!; [|done|done].
  unfold ToolRuntime_new. rewrite builtin_handlers_all. cbn [mbind option_bind]. by rewrite Hr.
Qed.
Lemma made_registry handler (ctx : C) rt :
  ToolRuntime_new handler ctx = Some rt → context rt = ctx ∧ from_executors (builtin_executor handler <$> builtin_names) = Ok (registry rt).
Proof. destruct (runtime_made handler ctx) as (rt' & -> & H1 & H2). intros [= ->]. exact (conj H1 H2). Qed.

(** A name of an MCP tool is no built-in name. *)
Lemma builtin_not_mcp handler (ctx : C) rt n :
  ToolRuntime_new handler ctx = Some rt → starts_with legacy_mcp_tool_name_prefix n = true → get_tool (registry rt) n = None.
Proof.
  intros [_ Hr]%made_registry Hn. destruct (get_tool (registry rt) n) as [e|] eqn:He; [exfalso|done].
  destruct (registered_tool _ _ n e Hr He) as (Hin & _ & Hk). apply list_elem_of_fmap in Hin as (b & -> & Hb). subst n.
  assert (Hall : forallb (λ b, negb (starts_with legacy_mcp_tool_name_prefix (trim (lit b.1)))) builtin_names = true) by (vm_compute; reflexivity).
  rewrite forallb_forall in Hall. apply list_elem_of_In in Hb. specialize (Hall b Hb).
  change (key (builtin_executor handler b)) with (trim (lit b.1)) in Hn. by rewrite Hn in Hall.
Qed.

(** What the runtime answers when a server has answered. *)
Definition mcp_answer (t : ToolInfo) (r : W * Result CallToolResult McpClientError) : W * ToolResult :=
  (r.1, match r.2 with
        | Ok c => format_call_tool_result c
        | Err e => result_err (format_mcp_dynamic_tool_error (server_name t) (raw_name (tool t)) e)
        end).

(** C26: A tool of an MCP server that the model is shown is called: no
    built-in tool stands before it, and the call by the name in its
    specification asks the server that listed it for the tool by the server's
    own name, once, and answers what the server answers. *)
Theorem mcp_tool_is_called (handler : str → C → Value → W → W * Result ToolResult ToolError) (ctx : C) (rt : ToolRuntime C W)
    (sha1_hex : str → str) (joined : list (str * Result McpManagedClient McpClientError)) (t : ToolInfo) (arguments : Value) (w : W) :
  ToolRuntime_new handler ctx = Some rt → (∀ s, Forall (λ c, is_hex c = true) (sha1_hex s)) → honest joined →
  shared ctx w = Some (Some (start sha1_hex joined true)) → t ∈ all_tools (start sha1_hex joined true) →
  ∃ n, get_str (lit "name") (tool_spec_for_model true t) = Some n ∧ listed_by joined t ∧
    call_tool rt n arguments w =
    mcp_answer t (service_call (server_name t) (raw_name (tool t)) (default [] (as_object arguments)) w).
Proof.
  intros Hrt Hhex Hh Hsh Hin. exists (model_tool_name true t). split; [reflexivity|].
  destruct (started_tool sha1_hex joined true t Hh Hin) as (Hl & c & Hc & Hs). split; [done|].
  assert (Hp : starts_with legacy_mcp_tool_name_prefix (model_tool_name true t) = true).
  { revert Hin. unfold start. destruct (join_clients joined ∅ []). cbn [all_tools]. unfold normalize_tools_for_model. intros Hin.
    apply (normalized_from sha1_hex) in Hin as (t0 & _ & -> & _). unfold model_tool_name, rename_tool. cbn [callable_name callable_namespace].
    destruct (truncate_prefix sha1_hex Hhex legacy_mcp_tool_name_prefix (sanitize_responses_api_tool_name (server_name t0)) max_tool_name_bytes) as [s ->]; [done|].
    rewrite <- app_assoc. unfold starts_with. by rewrite strip_prefix_app. }
  pose proof (builtin_not_mcp handler ctx rt _ Hrt Hp) as Hn. apply made_registry in Hrt as [Hctx _].
  pose proof (find_started sha1_hex joined true t Hin) as Hf.
  unfold call_tool, call_tool_with_context. rewrite Hn, Hctx, Hsh. unfold try_call_mcp_dynamic_tool. rewrite Hp. cbn [orb].
  unfold dispatch_mcp_dynamic_tool, call_tool_by_model_name, respond_with. rewrite Hf, Hc. unfold client_call. rewrite Hs.
  unfold answer, mcp_answer. by destruct (service_call _ _ _ w) as [w' [r|e]].
Qed.
End Runtime.

(** ** Witnesses *)
#[export] Instance sample_host : Host unit unit Asked := { shared _ _ := Some (Some sample_started); with_turn _ c := c; quoted s := s }.
Definition sample_handler (n : str) (_ : unit) (_ : Value) (w : Asked) : Asked * Result ToolResult ToolError := (w ++ [([], n)], Ok (result_ok n)).

Lemma shown_tool_is_called_witness :
  ∃ rt ds d, ToolRuntime_new sample_handler tt = Some rt ∧ tool_definitions rt [lit "Read"; lit "Glob"] = Ok ds ∧ ds !! 1%nat = Some d ∧
    ∃ e n, d = model_definition (spec e) ∧ get_str (lit "name") d = Some n ∧ ∀ a, call_tool rt n a [] = answer (handle e tt a []).
Proof.
  destruct (runtime_made sample_handler tt) as (rt & Hrt & Hctx & Hr).
  assert (Hd : ∃ ds, tool_definitions rt [lit "Read"; lit "Glob"] = Ok ds ∧ (length ds = 2)%nat).
  { apply from_executors_spec in Hr as (_ & _ & Hr). unfold tool_definitions. rewrite Hr. eexists. split; [vm_compute; reflexivity|reflexivity]. }
  destruct Hd as (ds & Hds & Hlen). destruct ds as [|d0 [|d [|]]]; [discriminate Hlen|discriminate Hlen| |discriminate Hlen]. exists rt, [d0; d], d. split_and!; [done|done|done|].
  destruct (shown_tool_is_called _ rt _ _ d Hr Hds) as (e & n & _ & _ & Hd & Hn & Hcall & _); [right; left|].
  exists e, n. rewrite Hctx in Hcall. split_and!; [exact Hd|exact Hn|]. intros a. apply Hcall.
Defined.
Lemma mcp_tool_is_called_witness :
  ∃ rt, ToolRuntime_new sample_handler tt = Some rt ∧ all_tools sample_started !! 1%nat = Some sample_issue ∧
    ∃ n, get_str (lit "name") (tool_spec_for_model true sample_issue) = Some n ∧
      call_tool rt n Null [] = ([(lit "my.server", lit "get issue")], result_ok (lit "get issue")).
Proof.
  destruct (runtime_made sample_handler tt) as (rt & Hrt & _). exists rt. split; [exact Hrt|].
  assert (H : all_tools sample_started !! 1%nat = Some sample_issue) by (vm_compute; reflexivity). split; [exact H|].
  destruct (mcp_tool_is_called (H := sample_host) sample_handler tt rt sample_sha sample_joined sample_issue Null [] Hrt sample_hex sample_honest eq_refl
    (list_elem_of_lookup_2 _ _ _ H)) as (n & Hn & _ & Hcall).
  exists n. split; [exact Hn|exact Hcall].
Defined.
