(* ===== verification/Llm.v ===== *)
(** * Messages of a language model

    Models [llm/message.rs], [llm/openai.rs] and [llm/anthropic.rs] in
    crates/pulsing-forge/src: requests in the form of the two interfaces, and
    the answer that is put together from a stream of events. The HTTP client
    and its event source, and the JSON reader and printer, are parameters. *)
From stdpp Require Import sorting.
From S2P Require Import Prelude Text Json.

(** ** Messages *)
(** src: crates/pulsing-forge/src/llm/types.rs 31-35 LlmUsage *)
Record LlmUsage := mk_usage { input_tokens : Z; output_tokens : Z }.
(** src: crates/pulsing-forge/src/llm/types.rs 37-44 LlmMessage *)
Record LlmMessage := mk_message { m_content : list Value; usage : option LlmUsage; stop_reason : option str }.
(** src: crates/pulsing-forge/src/llm/types.rs 46-53 StreamRequest *)
Record StreamRequest := mk_request {
  rq_model : str; rq_max_tokens : Z; rq_messages : list Value; rq_system : option str; rq_tools : list Value }.

Definition is_type (t : string) (block : Value) : bool := bool_decide (get_str (lit "type") block = Some (lit t)).
(** [v.get(k).and_then(as_str).unwrap_or("")]. *)
Definition str_or_empty (k : string) (v : Value) : str := default [] (get_str (lit k) v).
Definition object_or_empty (k : string) (v : Value) : Value := default (json []) (get (lit k) v).
Definition role_message (role : string) (c : Value) : Value := json [("role", text role); ("content", c)]%string.
Definition text_block (t : str) : Value := json [("type", text "text"); ("text", Text t)]%string.
Definition number (n : Z) : Value := Number (display_u128 n).

(** ** Requests for OpenAI *)
Section Requests.
(** [serde_json::to_string], which does not fail on a [Value]. *)
Context (show : Value → str).

(** src: crates/pulsing-forge/src/llm/message.rs 3-12 tool_schema_to_openai *)
Definition tool_schema_to_openai (tool : Value) : Value :=
  json [("type", text "function");
        ("function", json [("name", Text (str_or_empty "name" tool)); ("description", Text (str_or_empty "description" tool));
                           ("parameters", object_or_empty "input_schema" tool)])]%string.
(** src: crates/pulsing-forge/src/llm/message.rs 14-22 tool_result_to_text *)
Definition tool_result_to_text (content : Value) : str :=
  match content with Text s => s | Null => [] | v => show v end.
(** src: crates/pulsing-forge/src/llm/message.rs 24-29 is_tool_result_user_message *)
Definition is_tool_result_user_message (content : list Value) : bool :=
  match content with [] => false | _ => forallb (is_type "tool_result") content end.
(** src: crates/pulsing-forge/src/llm/message.rs 31-61 user_content_blocks_to_openai *)
Definition user_content_blocks_to_openai (content : list Value) : list Value :=
  let parts := content ≫= λ block,
    if is_type "text" block then [text_block (str_or_empty "text" block)]
    else if is_type "image" block then
      let source := object_or_empty "source" block in
      let url := lit "data:" ++ default (lit "image/png") (get_str (lit "media_type") source) ++ lit ";base64," ++ str_or_empty "data" source in
      [json [("type", text "image_url"); ("image_url", json [("url", Text url)])]%string]
    else [] in
  match parts with [] => [text_block []] | _ => parts end.

(** A block of results becomes a message of its own.
    src: crates/pulsing-forge/src/llm/message.rs 80-86 to_openai_messages (tool result) *)
Definition tool_message (block : Value) : Value :=
  json [("role", text "tool"); ("tool_call_id", Text (str_or_empty "tool_use_id" block));
        ("content", Text (tool_result_to_text (default Null (get (lit "content") block))))]%string.
(** src: crates/pulsing-forge/src/llm/message.rs 113-123 to_openai_messages (tool call) *)
Definition tool_call (block : Value) : Value :=
  json [("id", Text (str_or_empty "id" block)); ("type", text "function");
        ("function", json [("name", Text (str_or_empty "name" block)); ("arguments", Text (show (object_or_empty "input" block)))])]%string.
(** src: crates/pulsing-forge/src/llm/message.rs 96-140 to_openai_messages (assistant) *)
Definition assistant_message (content : list Value) : Value :=
  let t : str := content ≫= λ b, if is_type "text" b then str_or_empty "text" b else [] in
  let calls := tool_call <$> filter (λ b, is_type "tool_use" b = true) content in
  json ([("role", text "assistant"); ("content", if bool_decide (t = []) then Null else Text t)]%string
        ++ match calls with [] => [] | _ => [("tool_calls"%string, Array calls)] end).
(** src: crates/pulsing-forge/src/llm/message.rs 69-143 to_openai_messages (one message) *)
Definition to_openai_message (m : Value) : list Value :=
  let role := default (lit "user") (get_str (lit "role") m) in
  let content := default Null (get (lit "content") m) in
  match content with
  | Array arr =>
      if bool_decide (role = lit "user") then
        if is_tool_result_user_message arr then tool_message <$> arr
        else [role_message "user" (Array (user_content_blocks_to_openai arr))]
      else if bool_decide (role = lit "assistant") then [assistant_message arr]
      else [json [("role", Text role); ("content", content)]%string]
  | _ => [json [("role", Text role); ("content", content)]%string]
  end.
(** src: crates/pulsing-forge/src/llm/message.rs 63-146 to_openai_messages *)
Definition to_openai_messages (system : option str) (ms : list Value) : list Value :=
  match system with
  | Some ((_ :: _) as sys) => [role_message "system" (Text sys)]
  | _ => []
  end ++ (ms ≫= to_openai_message).
(** src: crates/pulsing-forge/src/llm/message.rs 148-162 build_openai_request *)
Definition build_openai_request (req : StreamRequest) (stream : bool) : Value :=
  json ([("model", Text (rq_model req)); ("messages", Array (to_openai_messages (rq_system req) (rq_messages req)));
         ("max_tokens", number (rq_max_tokens req)); ("stream", Boolean stream)]%string
        ++ match rq_tools req with [] => [] | ts => [("tools"%string, Array (tool_schema_to_openai <$> ts))] end).
End Requests.

(** ** Requests for Anthropic *)
(** src: crates/pulsing-forge/src/llm/message.rs 173-191 build_anthropic_request *)
Definition build_anthropic_request (req : StreamRequest) (stream : bool) : Value :=
  json ([("model", Text (rq_model req)); ("max_tokens", number (rq_max_tokens req));
         ("messages", Array (rq_messages req)); ("stream", Boolean stream)]%string
        ++ match rq_system req with Some ((_ :: _) as sys) => [("system"%string, Text sys)] | _ => [] end
        ++ match rq_tools req with [] => [] | ts => [("tools"%string, Array ts)] end).

(** src: crates/pulsing-forge/src/llm/message.rs 164-171 normalize_openai_stop_reason *)
Definition normalize_openai_stop_reason (reason : str) : str :=
  if bool_decide (reason = lit "stop") then lit "end_turn"
  else if bool_decide (reason = lit "length") then lit "max_tokens"
  else if bool_decide (reason = lit "tool_calls") then lit "tool_use"
  else reason.

(** ** Answers *)
(** What the event source gives; the data of an event is text. *)
Inductive Event := Opened | Data (d : str) | Broken (e : str).
(** A tool that is being named: its id, its name and its arguments so far. *)
Definition Draft : Type := str * str * str.
(** What has been read of an answer. The map of drafts is a [BTreeMap]. *)
Record Reading := mk_reading {
  text_parts : str; text_chunks : list str; drafts : gmap Z Draft; read_usage : option LlmUsage; read_reason : option str }.
Definition nothing_read : Reading := mk_reading [] [] ∅ None None.
Definition add_text (t : str) (r : Reading) : Reading :=
  mk_reading (text_parts r ++ t) (text_chunks r ++ [t]) (drafts r) (read_usage r) (read_reason r).
Definition set_drafts (ds : gmap Z Draft) (r : Reading) : Reading := mk_reading (text_parts r) (text_chunks r) ds (read_usage r) (read_reason r).
Definition set_usage (u : option LlmUsage) (r : Reading) : Reading := mk_reading (text_parts r) (text_chunks r) (drafts r) u (read_reason r).
Definition set_reason (x : option str) (r : Reading) : Reading := mk_reading (text_parts r) (text_chunks r) (drafts r) (read_usage r) x.
Definition u64_or_zero (k : string) (v : Value) : Z := default 0 (get (lit k) v ≫= as_u64).
Definition usage_of (input output : string) (u : Value) : LlmUsage := mk_usage (u64_or_zero input u) (u64_or_zero output u).

(** One piece of a tool call: what it sets is replaced, its arguments are
    appended.
    src: crates/pulsing-forge/src/llm/openai.rs 77-97 OpenAiStream::start (tool call) *)
Definition openai_piece (call : Value) (ds : gmap Z Draft) : gmap Z Draft :=
  let index := u64_or_zero "index" call in
  let '(id, name, args) := default ([], [], [] : str) (ds !! index : option Draft) in
  let id := default id (get_str (lit "id") call) in
  let f := default Null (get (lit "function") call) in
  let name := default name (get_str (lit "name") f) in
  <[index := (id, name, args ++ str_or_empty "arguments" f)]> ds.
(** src: crates/pulsing-forge/src/llm/openai.rs 67-100 OpenAiStream::start (choice) *)
Definition openai_choice (r : Reading) (choice : Value) : Reading :=
  let r := match get_str (lit "finish_reason") choice with Some x => set_reason (Some x) r | None => r end in
  let delta := object_or_empty "delta" choice in
  let r := match get_str (lit "content") delta with Some t => add_text t r | None => r end in
  match get (lit "tool_calls") delta ≫= as_array with
  | Some calls => set_drafts (foldl (λ ds call, openai_piece call ds) (drafts r) calls) r
  | None => r
  end.
(** src: crates/pulsing-forge/src/llm/openai.rs 49-101 OpenAiStream::start (event) *)
Definition openai_event (r : Reading) (data : Value) : Reading :=
  let r := match get (lit "usage") data with Some u => set_usage (Some (usage_of "prompt_tokens" "completion_tokens" u)) r | None => r end in
  foldl openai_choice r (default [] (get (lit "choices") data ≫= as_array)).

Section Answers.
(** [serde_json::from_str]. *)
Context (from_str : str → Result Value str).

(** Arguments that are no JSON object are taken for an empty one.
    src: crates/pulsing-forge/src/llm/openai.rs 110-123 OpenAiStream::start (tool use) *)
Definition draft_block (d : Draft) : Value :=
  let '(id, name, args) := d in
  let input := match from_str (trim args) with Ok (Object m) => Object m | _ => json [] end in
  json [("type", text "tool_use"); ("id", Text id); ("name", Text name); ("input", input)]%string.
Definition key_le (a b : Z * Draft) : Prop := a.1 <= b.1.
#[global] Instance key_le_dec a b : Decision (key_le a b).
Proof. unfold key_le. apply _. Defined.
(** The text comes first, then the tools by index.
    src: crates/pulsing-forge/src/llm/openai.rs 106-133 OpenAiStream::start (answer) *)
Definition finished (r : Reading) : LlmMessage :=
  mk_message
    (match text_parts r with [] => [] | t => [text_block t] end
     ++ (draft_block <$> (merge_sort key_le (map_to_list (drafts r))).*2))
    (read_usage r) (read_reason r).

(** The events, until the end of the stream or its mark.
    src: crates/pulsing-forge/src/llm/openai.rs 41-104 OpenAiStream::start (loop) *)
Fixpoint openai_read (r : Reading) (events : list Event) : Result Reading str :=
  match events with
  | [] => Ok r
  | Opened :: es => openai_read r es
  | Broken e :: _ => Err e
  | Data d :: es =>
      if bool_decide (trim d = lit "[DONE]") then Ok r
      else let? data := from_str (trim d) in openai_read (openai_event r data) es
  end.
(** The chunks that are shown and the answer.
    src: crates/pulsing-forge/src/llm/openai.rs 18-133 OpenAiStream::start *)
Definition openai_start (events : list Event) : Result (list str * LlmMessage) str :=
  let? r := openai_read nothing_read events in
  Ok (text_chunks r, let m := finished r in mk_message (m_content m) (usage m) (normalize_openai_stop_reason <$> stop_reason m)).

(** src: crates/pulsing-forge/src/llm/anthropic.rs 49-69 AnthropicStream::start (content_block_start) *)
Definition block_start (data : Value) (r : Reading) : Reading :=
  let block := object_or_empty "content_block" data in
  if is_type "tool_use" block then
    set_drafts (<[u64_or_zero "index" data := (str_or_empty "id" block, str_or_empty "name" block, [])]> (drafts r)) r
  else r.
(** src: crates/pulsing-forge/src/llm/anthropic.rs 70-93 AnthropicStream::start (content_block_delta) *)
Definition block_delta (data : Value) (r : Reading) : Reading :=
  let delta := object_or_empty "delta" data in
  if is_type "text_delta" delta then
    match get_str (lit "text") delta with Some t => add_text t r | None => r end
  else if is_type "input_json_delta" delta then
    match drafts r !! u64_or_zero "index" data, get_str (lit "partial_json") delta with
    | Some (id, name, args), Some partial => set_drafts (<[u64_or_zero "index" data := (id, name, args ++ partial)]> (drafts r)) r
    | _, _ => r
    end
  else r.
(** src: crates/pulsing-forge/src/llm/anthropic.rs 94-119 AnthropicStream::start (message_delta) *)
Definition message_delta (data : Value) (r : Reading) : Reading :=
  match get (lit "delta") data with
  | None => r
  | Some delta =>
      let r := match get_str (lit "stop_reason") delta with Some x => set_reason (Some x) r | None => r end in
      match get (lit "usage") delta with
      | None => r
      | Some u =>
          let before := default 0 (input_tokens <$> read_usage r) in
          set_usage (Some (mk_usage (Z.max before (u64_or_zero "input_tokens" u)) (u64_or_zero "output_tokens" u))) r
      end
  end.
(** src: crates/pulsing-forge/src/llm/anthropic.rs 46-136 AnthropicStream::start (event) *)
Definition anthropic_event (r : Reading) (data : Value) : Reading :=
  let event_type := str_or_empty "type" data in
  if bool_decide (event_type = lit "content_block_start") then block_start data r
  else if bool_decide (event_type = lit "content_block_delta") then block_delta data r
  else if bool_decide (event_type = lit "message_delta") then message_delta data r
  else if bool_decide (event_type = lit "message_start") then
    match get (lit "message") data with
    | Some m => match get (lit "usage") m with Some u => set_usage (Some (usage_of "input_tokens" "output_tokens" u)) r | None => r end
    | None => r
    end
  else r.
(** There is no mark of the end here: only the end of the stream ends the loop.
    src: crates/pulsing-forge/src/llm/anthropic.rs 42-140 AnthropicStream::start (loop) *)
Fixpoint anthropic_read (r : Reading) (events : list Event) : Result Reading str :=
  match events with
  | [] => Ok r
  | Opened :: es => anthropic_read r es
  | Broken e :: _ => Err e
  | Data d :: es => let? data := from_str (trim d) in anthropic_read (anthropic_event r data) es
  end.
(** src: crates/pulsing-forge/src/llm/anthropic.rs 18-168 AnthropicStream::start *)
Definition anthropic_start (events : list Event) : Result (list str * LlmMessage) str :=
  let? r := anthropic_read nothing_read events in Ok (text_chunks r, finished r).
End Answers.

(** ** Messages of a language model: proofs

    The answer that is put together from a stream depends, for each tool, on
    the pieces of that tool alone: text is what was shown, and the tools
    follow by index, however their pieces were interleaved. *)
(** ** The parts of a stream *)
(** What an event's data says, in order: the pieces of text and of tools. *)
Definition deltas (data : Value) : list Value :=
  (λ c, object_or_empty "delta" c) <$> default [] (get (lit "choices") data ≫= as_array).
Definition delta_text (d : Value) : list str := option_list (get_str (lit "content") d).
Definition delta_calls (d : Value) : list Value := default [] (get (lit "tool_calls") d ≫= as_array).
Definition shown_text (ds : list Value) : list str := ds ≫= λ d, deltas d ≫= delta_text.
Definition tool_pieces (ds : list Value) : list Value := ds ≫= λ d, deltas d ≫= delta_calls.
(** The data of a stream, up to its mark; [None] when it breaks. *)
Fixpoint datas (from_str : str → Result Value str) (events : list Event) : option (list Value) :=
  match events with
  | [] => Some []
  | Opened :: es => datas from_str es
  | Broken _ :: _ => None
  | Data d :: es =>
      if bool_decide (trim d = lit "[DONE]") then Some []
      else match from_str (trim d) with Ok v => cons v <$> datas from_str es | Err _ => None end
  end.

(** ** One tool *)
Definition index_of (call : Value) : Z := u64_or_zero "index" call.
Definition function_of (call : Value) : Value := default Null (get (lit "function") call).
(** A tool's draft from its own pieces: the last id and name that were given,
    and the arguments one after the other. *)
Definition assembled (calls : list Value) : Draft :=
  (default [] (last (omap (get_str (lit "id")) calls)),
   default [] (last (omap (λ c, get_str (lit "name") (function_of c)) calls)),
   calls ≫= λ c, str_or_empty "arguments" (function_of c)).
Definition pieces (i : Z) (calls : list Value) : list Value := filter (λ c, index_of c = i) calls.
Definition draft_of (calls : list Value) : option Draft := match calls with [] => None | _ => Some (assembled calls) end.

Lemma last_omap_snoc {A B} (f : A → option B) l x d :
  default d (last (omap f (l ++ [x]))) = default (default d (last (omap f l))) (f x).
Proof. rewrite omap_app. simpl. destruct (f x); simpl; [by rewrite last_snoc|by rewrite app_nil_r]. Qed.
Lemma assembled_snoc calls c :
  assembled (calls ++ [c]) =
  (default (assembled calls).1.1 (get_str (lit "id") c), default (assembled calls).1.2 (get_str (lit "name") (function_of c)),
   (assembled calls).2 ++ str_or_empty "arguments" (function_of c)).
Proof. unfold assembled. rewrite !last_omap_snoc, bind_app. simpl. by rewrite app_nil_r. Qed.

Lemma openai_piece_eq c ds :
  openai_piece c ds =
  let d := default ([], [], []) (ds !! index_of c : option Draft) in
  <[index_of c := (default d.1.1 (get_str (lit "id") c), default d.1.2 (get_str (lit "name") (function_of c)),
                   d.2 ++ str_or_empty "arguments" (function_of c))]> ds.
Proof. unfold openai_piece. fold (index_of c) (function_of c). by destruct (default _ (ds !! index_of c)) as [[??]?]. Qed.
Lemma drafts_of_pieces calls i : foldl (λ ds c, openai_piece c ds) ∅ calls !! i = draft_of (pieces i calls).
Proof.
  revert i. induction calls as [|c calls IH] using rev_ind; intros i; [done|]. rewrite foldl_snoc, openai_piece_eq.
  rewrite (IH (index_of c)).
  cbv zeta. unfold pieces at 4. rewrite filter_app. fold (pieces i calls). destruct (decide (index_of c = i)) as [<-|Hi].
  - rewrite lookup_insert, decide_True by done. rewrite (filter_cons_True _ c []) by done. rewrite filter_nil.
    assert (Hne : ∀ l : list Value, draft_of (l ++ [c]) = Some (assembled (l ++ [c]))) by (by intros [|]). rewrite Hne, assembled_snoc.
    by destruct (pieces (index_of c) calls).
  - rewrite lookup_insert_ne by done. rewrite (filter_cons_False _ c []) by done. rewrite filter_nil, app_nil_r. apply IH.
Qed.

(** ** The whole stream *)
Lemma openai_choice_reads r c :
  text_chunks (openai_choice r c) = text_chunks r ++ delta_text (object_or_empty "delta" c) ∧
  text_parts (openai_choice r c) = text_parts r ++ concat (delta_text (object_or_empty "delta" c)) ∧
  drafts (openai_choice r c) = foldl (λ ds call, openai_piece call ds) (drafts r) (delta_calls (object_or_empty "delta" c)).
Proof.
  unfold openai_choice, delta_text, delta_calls. destruct (get_str (lit "finish_reason") c), (get_str (lit "content") (object_or_empty "delta" c)),
    (get (lit "tool_calls") (object_or_empty "delta" c) ≫= as_array); simpl; rewrite ?app_nil_r; done.
Qed.
Lemma openai_choices_read r cs :
  let ds := (λ c, object_or_empty "delta" c) <$> cs in
  text_chunks (foldl openai_choice r cs) = text_chunks r ++ (ds ≫= delta_text) ∧
  text_parts (foldl openai_choice r cs) = text_parts r ++ concat (ds ≫= delta_text) ∧
  drafts (foldl openai_choice r cs) = foldl (λ ds call, openai_piece call ds) (drafts r) (ds ≫= delta_calls).
Proof.
  simpl. revert r. induction cs as [|c cs IH]; intros r; simpl; [by rewrite !app_nil_r|].
  destruct (IH (openai_choice r c)) as (-> & -> & ->). destruct (openai_choice_reads r c) as (-> & -> & ->).
  rewrite concat_app, foldl_app, !app_assoc. done.
Qed.
Lemma openai_events_read r ds :
  text_chunks (foldl openai_event r ds) = text_chunks r ++ shown_text ds ∧
  text_parts (foldl openai_event r ds) = text_parts r ++ concat (shown_text ds) ∧
  drafts (foldl openai_event r ds) = foldl (λ ds call, openai_piece call ds) (drafts r) (tool_pieces ds).
Proof.
  revert r. induction ds as [|d ds IH]; intros r; [simpl; by rewrite !app_nil_r|]. unfold shown_text, tool_pieces. rewrite !bind_cons, concat_app, foldl_app.
  fold (shown_text ds) (tool_pieces ds). simpl foldl. destruct (IH (openai_event r d)) as (-> & -> & ->). unfold openai_event.
  set (r1 := match get (lit "usage") d with Some u => _ | None => r end).
  assert (text_chunks r1 = text_chunks r ∧ text_parts r1 = text_parts r ∧ drafts r1 = drafts r) as (<- & <- & <-).
  { unfold r1. by destruct (get (lit "usage") d). }
  destruct (openai_choices_read r1 (default [] (get (lit "choices") d ≫= as_array))) as (-> & -> & ->). by rewrite !app_assoc.
Qed.
Lemma openai_read_datas from_str r events r' :
  openai_read from_str r events = Ok r' → ∃ ds, datas from_str events = Some ds ∧ r' = foldl openai_event r ds.
Proof.
  revert r. induction events as [|[|d|e] es IH]; intros r; simpl; [intros [= <-]; by exists []|apply IH| |done].
  case_bool_decide; [intros [= <-]; by exists []|]. intros H1%and_then_Ok. destruct H1 as (v & -> & H1). apply IH in H1 as (ds & -> & ->).
  by exists (v :: ds).
Qed.

Definition text_of (t : str) : list Value := match t with [] => [] | _ => [text_block t] end.

#[global] Instance key_le_trans : Transitive key_le.
Proof. intros ???. unfold key_le. lia. Qed.
#[global] Instance key_le_total : Total key_le.
Proof. intros ??. unfold key_le. lia. Qed.
Lemma strict_keys (l : list (Z * Draft)) : NoDup l.*1 → StronglySorted key_le l → StronglySorted Z.lt l.*1.
Proof.
  intros Hn Hs. revert Hn. induction Hs as [|x l _ IH Hx]; [constructor|]. rewrite fmap_cons. intros [Hnin Hn]%NoDup_cons.
  constructor; [by apply IH|]. rewrite Forall_fmap, Forall_forall in *. intros y Hy. specialize (Hx y Hy). unfold key_le in Hx. simpl.
  assert (x.1 ≠ y.1); [|lia]. intros He. apply Hnin. rewrite He. by apply list_elem_of_fmap_2.
Qed.
(** The order in which a map is read. *)
Lemma sorted_keys (m : gmap Z Draft) :
  StronglySorted Z.lt (merge_sort key_le (map_to_list m)).*1 ∧ (∀ i, i ∈ (merge_sort key_le (map_to_list m)).*1 ↔ is_Some (m !! i)) ∧
  Forall (λ kd, m !! kd.1 = Some kd.2) (merge_sort key_le (map_to_list m)).
Proof.
  pose proof (merge_sort_Permutation key_le (map_to_list m)) as Hp. split_and!.
  - assert (Hn : NoDup (merge_sort key_le (map_to_list m)).*1) by (rewrite Hp; apply NoDup_fst_map_to_list).
    apply strict_keys; [done|apply StronglySorted_merge_sort; apply _].
  - intros i. rewrite Hp, list_elem_of_fmap. split.
    + intros ([k d] & -> & Hin%elem_of_map_to_list). by exists d.
    + intros [d Hd]. exists (i, d). split; [done|]. by apply elem_of_map_to_list.
  - rewrite Hp. apply Forall_forall. intros [k d] Hin%elem_of_map_to_list. done.
Qed.

(** C31: An answer is put together from its pieces however these were
    interleaved: what is shown is the pieces of text in order; the message
    begins with all the text, if there is any, and goes on with the tools by
    ascending index, each index once, and each tool is made of the pieces
    with its index alone: the last id and name given, and the arguments in
    the order in which they came. *)
Theorem answer_is_assembled (from_str : str → Result Value str) (events : list Event) (chunks : list str) (m : LlmMessage) :
  openai_start from_str events = Ok (chunks, m) →
  ∃ ds order, datas from_str events = Some ds ∧
    let calls := tool_pieces ds in
    chunks = shown_text ds ∧
    StronglySorted Z.lt order ∧ (∀ i, i ∈ order ↔ pieces i calls ≠ []) ∧
    m_content m = text_of (concat chunks) ++ ((λ i, draft_block from_str (assembled (pieces i calls))) <$> order).
Proof.
  unfold openai_start. intros (r & (ds & Hds & ->)%openai_read_datas & [= <- <-])%and_then_Ok.
  destruct (openai_events_read nothing_read ds) as (Hc & Ht & Hd). simpl in Hc, Ht, Hd.
  set (calls := tool_pieces ds) in *. set (dm := drafts (foldl openai_event nothing_read ds)) in *.
  assert (Hl : ∀ i, dm !! i = draft_of (pieces i calls)) by (intros i; rewrite Hd; apply drafts_of_pieces).
  destruct (sorted_keys dm) as (Hs & Hin & Hf). exists ds, (merge_sort key_le (map_to_list dm)).*1. split; [done|]. cbv zeta. fold calls.
  split; [done|]. split; [done|]. split.
  - intros i. rewrite Hin, Hl. destruct (pieces i calls); simpl; [split; [by intros [? ?]|done]|split; [done|eauto]].
  - cbn [m_content finished]. apply (f_equal2 app); [unfold text_of; rewrite Ht, Hc; by destruct (concat (shown_text ds))|]. fold dm. rewrite <- list_fmap_compose, <- list_fmap_compose.
    apply list_fmap_ext. intros j [k d] Hk%list_elem_of_lookup_2. unfold compose. cbn [fst snd]. rewrite Forall_forall in Hf. specialize (Hf _ Hk). cbn [fst snd] in Hf.
    rewrite Hl in Hf. destruct (pieces k calls); [done|]. by injection Hf as <-.
Qed.

(** ** The end of a stream *)
Definition readable (from_str : str → Result Value str) (e : Event) : Prop :=
  match e with Opened => True | Data d => ∃ v, from_str (trim d) = Ok v | Broken _ => False end.
(** The one reader stops at the mark of the end and never sees what follows;
    the other goes on until the source ends, so a source that reports its end
    as an error loses the answer. *)
Lemma end_of_stream (from_str : str → Result Value str) (es : list Event) (e : str) :
  Forall (readable from_str) es →
  (∃ m, openai_start from_str (es ++ [Data (lit "[DONE]"); Broken e]) = Ok m) ∧ anthropic_start from_str (es ++ [Broken e]) = Err e.
Proof.
  intros He. unfold openai_start, anthropic_start. generalize nothing_read at 2. generalize nothing_read.
  induction He as [|x es Hx _ IH]; intros r r'; [split; [by eexists|done]|]. destruct x as [|d|e']; [apply IH| |done].
  destruct Hx as [v Hv]. destruct (IH (openai_event r v) (anthropic_event r' v)) as [IH1 IH2]. split.
  - simpl. case_bool_decide; [by eexists|]. rewrite Hv. exact IH1.
  - simpl. rewrite Hv. exact IH2.
Qed.

(** ** Witnesses *)
Definition piece (i : string) (fields : list (string * Value)) : Value := json (("index"%string, Number (lit i)) :: fields).
Definition chunk (fields : list (string * Value)) : Value :=
  json [("choices", Array [json [("delta", json fields)]%string])]%string.
(** Two tools whose pieces come by turns. *)
Definition sample_from_str (s : str) : Result Value str :=
  if bool_decide (s = lit "1") then
    Ok (chunk [("content", text "I "); ("tool_calls", Array [piece "1" [("id", text "b"); ("function", json [("name", text "Glob"); ("arguments", text "{")])]])]%string)
  else if bool_decide (s = lit "2") then
    Ok (chunk [("content", text "look"); ("tool_calls", Array [piece "0" [("id", text "a"); ("function", json [("name", text "Read"); ("arguments", text "[")])]])]%string)
  else if bool_decide (s = lit "3") then
    Ok (chunk [("tool_calls", Array [piece "1" [("function", json [("arguments", text "}")])]; piece "0" [("function", json [("arguments", text "]")])]])]%string)
  else if bool_decide (s = lit "{}") then Ok (json [("x", Null)]%string)
  else if bool_decide (s = lit "[]") then Ok (Array [])
  else Err (lit "no json").
Definition sample_stream : list Event := [Opened; Data (lit "1"); Data (lit "2"); Data (lit "3"); Data (lit "[DONE]"); Broken (lit "ended")].
Lemma answer_is_assembled_witness :
  ∃ chunks m, openai_start sample_from_str sample_stream = Ok (chunks, m) ∧ chunks = [lit "I "; lit "look"] ∧
    (length (m_content m) = 3)%nat ∧ ∃ ds, datas sample_from_str sample_stream = Some ds ∧ shown_text ds = chunks.
Proof.
  destruct (openai_start sample_from_str sample_stream) as [[chunks m]|e] eqn:Hs; [|exfalso; revert Hs; vm_compute; discriminate].
  exists chunks, m. split; [reflexivity|]. destruct (answer_is_assembled sample_from_str sample_stream chunks m Hs) as (ds & order & Hds & Hc & _).
  split; [revert Hs; vm_compute; by intros [= <- _]|]. split; [revert Hs; vm_compute; by intros [= _ <-]|].
  exists ds. split; [exact Hds|]. by rewrite Hc.
Defined.
