(* ===== verification/Agent.v ===== *)
(** * The agent loop

    Models [agent/loop.rs] and [llm/message.rs] in crates/pulsing-forge/src: a
    turn asks the model, runs the tools it asks for, and asks again; the
    history that is kept between turns, the events that are sent, and the
    history in the form of OpenAI's interface. The model client, the tools'
    world and the moment of a cancellation are the environment's; a tool is
    run by the runtime of Forge.v. *)
From S2P Require Import Prelude Text Json Approval Registry Mcp Forge Llm.
From S2P Require Session.

(** ** Configuration and messages *)
(** src: crates/pulsing-forge/src/agent/loop.rs 29-40 AgentConfig *)
Record AgentConfig := mk_agent_config {
  ac_model : str; ac_max_tokens : Z; max_turns : nat; ac_tool_names : list str; system_prompt : option str }.

(** src: crates/pulsing-forge/src/agent/loop.rs 306-316 text_from_content *)
Definition text_from_content (content : list Value) : str :=
  content ≫= λ block, if is_type "text" block then str_or_empty "text" block else [].
(** A use of a tool: its id, the tool's name and the input.
    src: crates/pulsing-forge/src/agent/loop.rs 318-340 extract_tool_uses *)
Definition extract_tool_uses (content : list Value) : list (str * str * Value) :=
  content ≫= λ block,
    if is_type "tool_use" block then
      let name := str_or_empty "name" block in
      if bool_decide (name = []) then []
      else [(str_or_empty "id" block, name, default (json []) (get (lit "input") block))]
    else [].
(** src: crates/pulsing-forge/src/agent/loop.rs 342-349 tool_result_block *)
Definition tool_result_block (id : str) (r : ToolResult) : Value :=
  json [("type", text "tool_result"); ("tool_use_id", Text id); ("content", Text (content r)); ("is_error", Boolean (is_error r))]%string.
(** src: crates/pulsing-forge/src/agent/events.rs 5-24 AgentEvent *)
Inductive AgentEvent :=
  | TextDelta (chunk : str) | ToolStart (n : str) | ToolEnd (n : str) (ok : bool) (summary : str) | ToolCancelled (n : str)
  | ErrorEvent (e : str) | Cancelled | Done (t : str).

(** How a request to the model ends: the cancellation comes after some chunks
    were shown, the request fails, or there is an answer. *)
Inductive Streamed := Interrupted (chunks : list str) | Refused (e : str) | Answered (chunks : list str) (m : LlmMessage).
(** What happens to the registry of the turn while a tool runs: a handler may
    register a resource ([exec_command] does, and keeps the guard as long as its
    command runs; [shell_command] until it returns), and guards are dropped, also
    of resources that earlier calls registered. *)
Inductive ResourceAction := Registered (kind : str) | Released (id : Z).
Definition act_on (r : Session.TurnResourceRegistry) (x : ResourceAction) : Session.TurnResourceRegistry :=
  match x with Registered kind => (Session.register_resource kind r).1 | Released id => Session.release id r end.
Class Model (W : Type) := {
  cancelled_before : W → bool;
  stream_messages : StreamRequest → W → W * Streamed;
  (** Whether the cancellation comes while the tool runs, and what the tool
      has done by then. *)
  tool_interrupted : str → Value → W → option W;
  (** What a call does to the resources of its turn. *)
  tool_resources : str → Value → W → list ResourceAction
}.
(** src: crates/pulsing-forge/src/agent/loop.rs 42-44 AgentCancelled *)
Inductive AgentError := AgentCancelled | BadTools (e : ToolRegistryError) | ModelFailed (e : str).

Section Agent.
Context {C T W : Type} `{Host C T W} `{Servers W} `{Oracle} `{Model W}.
Context (rt : ToolRuntime C W) (config : AgentConfig) (turn : T).

(** The agent during a turn: its history, the events it has sent, and the
    resources of the turn.
    src: crates/pulsing-forge/src/agent/loop.rs 109-116 ForgeAgent *)
Record Running := mk_running {
  world : W; messages : list Value; sent : list AgentEvent; resources : Session.TurnResourceRegistry }.
Definition in_world (w : W) (a : Running) : Running := mk_running w (messages a) (sent a) (resources a).
Definition push (m : Value) (a : Running) : Running := mk_running (world a) (messages a ++ [m]) (sent a) (resources a).
(** src: crates/pulsing-forge/src/agent/loop.rs 287-292 ForgeAgent::emit_event *)
Definition emit (es : list AgentEvent) (a : Running) : Running := mk_running (world a) (messages a) (sent a ++ es) (resources a).
(** A resource is registered for the length of [k]: its guard is dropped on
    every way out. *)
Definition holding {A} (kind : str) (k : Running → Running * A) (a : Running) : Running * A :=
  let '(r, id) := Session.register_resource kind (resources a) in
  let '(a', x) := k (mk_running (world a) (messages a) (sent a) r) in
  (mk_running (world a') (messages a') (sent a') (Session.release id (resources a')), x).

Definition in_registry (acts : list ResourceAction) (a : Running) : Running :=
  mk_running (world a) (messages a) (sent a) (foldl act_on (resources a) acts).

Definition default_system : str :=
  lit "You are a capable coding agent with filesystem and shell tools." ++ [10] ++
  lit "Use tools to inspect the workspace before answering." ++ [10] ++
  lit "When multi-step work is needed, call update_plan first." ++ [10] ++ lit "Be concise in final replies.".
(** src: crates/pulsing-forge/src/agent/loop.rs 251-267 ForgeAgent::stream_one_turn *)
Definition stream_one_turn (tools : list Value) (a : Running) : Running * Result LlmMessage AgentError :=
  let req := mk_request (ac_model config) (ac_max_tokens config) (messages a) (Some (default default_system (system_prompt config))) tools in
  match stream_messages req (world a) with
  | (w, Interrupted chunks) => (emit ((TextDelta <$> chunks) ++ [Cancelled]) (in_world w a), Err AgentCancelled)
  | (w, Refused e) => (in_world w a, Err (ModelFailed e))
  | (w, Answered chunks m) => (emit (TextDelta <$> chunks) (in_world w a), Ok m)
  end.

(** One tool: its result, unless the turn is cancelled while it runs.
    src: crates/pulsing-forge/src/agent/loop.rs 210-231 ForgeAgent::run_in_turn (one tool) *)
Definition run_tool (use : str * str * Value) (a : Running) : Running * Result Value AgentError :=
  let '(id, name, input) := use in
  let '(a, r) :=
    holding (lit "tool:" ++ name) (λ a,
      let a := in_registry (tool_resources name input (world a)) a in
      match tool_interrupted name input (world a) with
      | Some w => (emit [ToolCancelled name; Cancelled] (in_world w a), Err AgentCancelled)
      | None => let '(w, result) := call_tool_in_turn rt turn name input (world a) in (in_world w a, Ok result)
      end) (emit [ToolStart name] a) in
  match r with
  | Err e => (a, Err e)
  | Ok result =>
      (emit [ToolEnd name (negb (is_error result)) (take 200 (content result))] a, Ok (tool_result_block id result))
  end.
Fixpoint run_tools (uses : list (str * str * Value)) (a : Running) : Running * Result (list Value) AgentError :=
  match uses with
  | [] => (a, Ok [])
  | use :: uses =>
      match run_tool use a with
      | (a, Err e) => (a, Err e)
      | (a, Ok block) => let '(a, r) := run_tools uses a in (a, let? blocks := r in Ok (block :: blocks))
      end
  end.

(** The loop, with the rounds that are left and the last answer.
    src: crates/pulsing-forge/src/agent/loop.rs 184-249 ForgeAgent::run_in_turn (loop) *)
Fixpoint rounds (n : nat) (tools : list Value) (final : option LlmMessage) (a : Running) : Running * Result str AgentError :=
  match n with
  | O =>
      let t := match final with Some m => text_from_content (m_content m) | None => [] end in
      let t := if bool_decide (t = []) then lit "(max turns reached)" else t in
      (emit [Done t] a, Ok t)
  | S n =>
      match holding (lit "model_request") (stream_one_turn tools) a with
      | (a, Err e) => (a, Err e)
      | (a, Ok m) =>
          let a := push (role_message "assistant" (Array (m_content m))) a in
          match extract_tool_uses (m_content m) with
          | [] => let t := text_from_content (m_content m) in (emit [Done t] a, Ok t)
          | uses =>
              match run_tools uses a with
              | (a, Err e) => (a, Err e)
              | (a, Ok blocks) => rounds n tools (Some m) (push (role_message "user" (Array blocks)) a)
              end
          end
      end
  end.
(** src: crates/pulsing-forge/src/agent/loop.rs 169-183 ForgeAgent::run_in_turn *)
Definition run_in_turn (prompt : str) (a : Running) : Running * Result str AgentError :=
  if cancelled_before (world a) then (emit [Cancelled] a, Err AgentCancelled)
  else
    let a := push (role_message "user" (Text prompt)) a in
    match tool_definitions rt (ac_tool_names config) with
    | Err e => (a, Err (BadTools e))
    | Ok tools => rounds (max_turns config) tools None a
    end.
End Agent.
Arguments mk_running {W}.
Arguments world {W}.
Arguments messages {W}.
Arguments sent {W}.
Arguments resources {W}.

(** ** The agent loop: proofs

    Every use of a tool in the history is answered by the next message, or
    the turn was cancelled in that tool; the events of a turn are bracketed
    and end as the turn ends; the loop leaves no resource of its own behind; and
    the form for OpenAI keeps uses and answers together. *)
(** ** Histories *)
(** The uses of tools that a message asks for, and the blocks of a message. *)
Definition blocks_of (m : Value) : list Value := default [] (get (lit "content") m ≫= as_array).
(** A block that asks for a tool and names it, and what it asks for. A block
    without a name names no tool that could be called. *)
Definition asks_for_tool (block : Value) : Prop :=
  get_str (lit "type") block = Some (lit "tool_use") ∧ str_or_empty "name" block ≠ [].
#[export] Instance asks_for_tool_dec block : Decision (asks_for_tool block).
Proof. unfold asks_for_tool. apply _. Defined.
Definition asked (block : Value) : str * str * Value :=
  (str_or_empty "id" block, str_or_empty "name" block, default (json []) (get (lit "input") block)).
Definition uses_of (m : Value) : list (str * str * Value) :=
  if bool_decide (get_str (lit "role") m = Some (lit "assistant")) then asked <$> filter asks_for_tool (blocks_of m) else [].
(** The loop takes exactly these for uses. *)
Lemma extract_asked c : extract_tool_uses c = asked <$> filter asks_for_tool c.
Proof.
  unfold extract_tool_uses. induction c as [|b c IH]; [done|]. rewrite bind_cons, IH, filter_cons. unfold is_type.
  destruct (decide (asks_for_tool b)) as [[Ht Hn]|Hno].
  - rewrite bool_decide_true, bool_decide_false by done. done.
  - case_bool_decide as Ht; [|done]. case_bool_decide as Hn; [done|]. by destruct Hno.
Qed.

Section Histories.
Context {C T W : Type} {HH : Host C T W} {HS : Servers W} (rt : ToolRuntime C W).
(** A block answers a use: it carries its id and what the runtime answered
    when it was called, in some turn, by that name with that input. *)
Definition replies (use : str * str * Value) (block : Value) : Prop :=
  ∃ (turn : T) (w : W), block = tool_result_block use.1.1 (call_tool_in_turn rt turn use.1.2 use.2 w).2.
(** Uses are answered by the message that follows. *)
Fixpoint answered (ms : list Value) : Prop :=
  match ms with
  | [] => True
  | m :: ms => (uses_of m ≠ [] → ∃ m', head ms = Some m' ∧ get_str (lit "role") m' = Some (lit "user") ∧ Forall2 replies (uses_of m) (blocks_of m')) ∧ answered ms
  end.
Lemma answered_app ms ms' : answered ms → answered ms' → answered (ms ++ ms').
Proof.
  induction ms as [|m ms IH]; [done|]. intros [Hm Hms] Hms'. split; [|by apply IH]. intros Hu. destruct (Hm Hu) as (m' & Hh & Ha).
  exists m'. split; [|done]. by destruct ms.
Qed.
Lemma answered_one m : uses_of m = [] → answered [m].
Proof. intros H. split; [|done]. by rewrite H. Qed.
End Histories.

Lemma uses_of_user c : uses_of (role_message "user" c) = [].
Proof. reflexivity. Qed.
Lemma uses_of_assistant c : uses_of (role_message "assistant" (Array c)) = extract_tool_uses c.
Proof. by rewrite extract_asked. Qed.

(** ** Events *)
(** A tool that has started ends before anything else happens. *)
Definition event_step (running : option str) (e : AgentEvent) : option (option str) :=
  match running, e with
  | None, TextDelta _ => Some None
  | None, ToolStart n => Some (Some n)
  | Some n, ToolEnd m _ _ => if bool_decide (m = n) then Some None else None
  | _, _ => None
  end.
Fixpoint events (running : option str) (es : list AgentEvent) : option (option str) :=
  match es with
  | [] => Some running
  | e :: es => running' ← event_step running e; events running' es
  end.
Definition quiet (es : list AgentEvent) : Prop := events None es = Some None.
Lemma events_app s es es' s' : events s es = Some s' → events s (es ++ es') = events s' es'.
Proof.
  revert s. induction es as [|e es IH]; intros s; simpl; [by intros [= ->]|]. destruct (event_step s e); simpl; [apply IH|done].
Qed.
Lemma quiet_app es es' : quiet es → quiet es' → quiet (es ++ es').
Proof. unfold quiet. intros H1 H2. by rewrite (events_app _ _ _ None). Qed.
Lemma quiet_chunks chunks : quiet (TextDelta <$> chunks).
Proof. by induction chunks. Qed.
(** How a turn's events end: as the turn does. *)
Definition closes (es : list AgentEvent) (r : Result str AgentError) : Prop :=
  match r with
  | Ok t => ∃ body, es = body ++ [Done t] ∧ quiet body
  | Err AgentCancelled =>
      (∃ body, es = body ++ [Cancelled] ∧ quiet body) ∨
      (∃ body n, es = body ++ [ToolCancelled n; Cancelled] ∧ events None body = Some (Some n))
  | Err _ => quiet es
  end.
Lemma closes_app es es' r : quiet es → closes es' r → closes (es ++ es') r.
Proof.
  intros Hq. destruct r as [t|[|e|e]]; simpl.
  - intros (body & -> & H). exists (es ++ body). rewrite <- app_assoc. split; [done|]. by apply quiet_app.
  - intros [(body & -> & H)|(body & n & -> & H)]; [left; exists (es ++ body)|right; exists (es ++ body), n]; rewrite <- app_assoc; (split; [done|]).
    + by apply quiet_app.
    + by rewrite (events_app _ _ _ None).
  - by apply quiet_app.
  - by apply quiet_app.
Qed.

Section Agent.
Context {C T W : Type} {HH : Host C T W} {HS : Servers W} {HO : Oracle} {HM : Model W}.
Context (rt : ToolRuntime C W) (config : AgentConfig) (turn : T).
Implicit Types a : Running (W := W).
Notation answered := (answered (T := T) rt).
(** What a turn leaves of the history. *)
Definition leaves (ms : list Value) (es : list AgentEvent) (r : Result str AgentError) : Prop :=
  answered ms ∨
  (r = Err AgentCancelled ∧ ∃ front m body n, ms = front ++ [m] ∧ answered front ∧ uses_of m ≠ [] ∧ es = body ++ [ToolCancelled n; Cancelled]).
Lemma leaves_app ms ms' es es' r : answered ms → leaves ms' es' r → leaves (ms ++ ms') (es ++ es') r.
Proof.
  intros H [H'|(-> & front & m & body & n & -> & Hf & Hm & ->)]; [left; by apply answered_app|right].
  split; [done|]. exists (ms ++ front), m, (es ++ body), n. rewrite <- !app_assoc. split_and!; [done|by apply answered_app|done|done].
Qed.

Notation open a := (Session.entries (resources (W := W) a)).

(** A resource that a tool started in these events registered. *)
Definition left_by (es : list AgentEvent) (kind : str) : Prop :=
  ∃ n input w, ToolStart n ∈ es ∧ Registered kind ∈ tool_resources n input w.
(** What is open was open, or a tool registered it. *)
Definition opened (es : list AgentEvent) (a a' : Running) : Prop :=
  ∀ id kind, open a' !! id = Some kind → open a !! id = Some kind ∨ left_by es kind.
Lemma left_by_mono es es' kind : es ⊆ es' → left_by es kind → left_by es' kind.
Proof. intros Hs (n & input & w & Hn & Hk). exists n, input, w. split; [by apply Hs|done]. Qed.
Lemma opened_mono es es' a a' : es ⊆ es' → opened es a a' → opened es' a a'.
Proof. intros Hs Ho id kind Hk. destruct (Ho _ _ Hk); [by left|right]. by eapply left_by_mono. Qed.
Lemma opened_trans es a b c : opened es a b → opened es b c → opened es a c.
Proof. intros H1 H2 id kind Hk. destruct (H2 _ _ Hk) as [Hb|]; [by apply H1|by right]. Qed.

(** The step from [a] to [a']: what was sent and what was added. *)
Record steps (a : Running) (es : list AgentEvent) (ms : list Value) (a' : Running) : Prop := mk_steps {
  s_sent : sent a' = sent a ++ es;
  s_messages : messages a' = messages a ++ ms;
  s_open : opened es a a' }.
Lemma steps_same a es ms a' : sent a' = sent a ++ es → messages a' = messages a ++ ms → resources a' = resources a → steps a es ms a'.
Proof. intros H1 H2 H3. split; [done|done|]. intros id kind. rewrite H3. by left. Qed.
Lemma steps_refl a : steps a [] [] a.
Proof. by apply steps_same; rewrite ?app_nil_r. Qed.
Lemma steps_trans a b c es es' ms ms' : steps a es ms b → steps b es' ms' c → steps a (es ++ es') (ms ++ ms') c.
Proof.
  intros [H1 H2 H3] [H4 H5 H6]. split; [by rewrite H4, H1, app_assoc|by rewrite H5, H2, app_assoc|].
  apply (opened_trans _ _ b); eapply opened_mono; try eassumption; set_solver.
Qed.
Lemma steps_emit a es : steps a es [] (emit es a).
Proof. by apply steps_same; rewrite ?app_nil_r. Qed.
Lemma steps_push a m : steps a [] [m] (push m a).
Proof. by apply steps_same; rewrite ?app_nil_r. Qed.
Lemma steps_world a w es : steps a es [] (emit es (in_world w a)).
Proof. by apply steps_same; rewrite ?app_nil_r. Qed.

(** The guard of a resource goes with what it was taken for. *)
Lemma holding_steps {A} kind (k : Running → Running * A) a a' x :
  holding kind k a = (a', x) →
  ∃ b b', k b = (b', x) ∧ sent b = sent a ∧ messages b = messages a ∧ sent a' = sent b' ∧ messages a' = messages b' ∧
    ∀ es, opened es b b' → opened es a a'.
Proof.
  unfold holding, Session.register_resource, Session.release. intros Hh. destruct (k _) as [b' y] eqn:Hb.
  injection Hh as <- <-. eexists _, b'. split_and!; [exact Hb|done..|]. intros es Ho id' kind'. simpl.
  rewrite lookup_delete_Some. intros [Hne Hk]. destruct (Ho _ _ Hk) as [Hk'|]; [left|by right].
  simpl in Hk'. by rewrite lookup_insert_ne in Hk'.
Qed.

Lemma acts_opened acts r id kind :
  Session.entries (foldl act_on r acts) !! id = Some kind → Session.entries r !! id = Some kind ∨ Registered kind ∈ acts.
Proof.
  revert r. induction acts as [|x acts IH]; intros r Hk; [by left|]. simpl in Hk. destruct (IH _ Hk) as [Hx|]; [|right; by constructor].
  destruct x as [kind'|id']; simpl in Hx.
  - apply lookup_insert_Some in Hx as [[_ ->]|[_ ?]]; [right; constructor|by left].
  - apply lookup_delete_Some in Hx as [_ ?]. by left.
Qed.

Lemma stream_steps tools a a' r :
  stream_one_turn config tools a = (a', r) →
  ∃ es, steps a es [] a' ∧ match r with Ok _ => quiet es | Err e => closes es (Err e) ∧ leaves [] es (Err e) end.
Proof.
  unfold stream_one_turn. destruct (stream_messages _ _) as [w [chunks|e|chunks m]]; intros [= <- <-].
  - exists ((TextDelta <$> chunks) ++ [Cancelled]). split; [apply steps_world|]. split; [|by left]. left. eexists. split; [done|]. apply quiet_chunks.
  - exists []. split; [|split; [done|by left]]. by apply steps_same; rewrite ?app_nil_r.
  - eexists. split; [apply steps_world|]. apply quiet_chunks.
Qed.

(** One tool: it ends, and its block answers the use; or it is cancelled. *)
Lemma tool_steps use a a' r :
  run_tool rt turn use a = (a', r) →
  ∃ es, steps a es [] a' ∧
    match r with
    | Ok b => quiet es ∧ replies (T := T) rt use b
    | Err e => e = AgentCancelled ∧ ∃ n, es = [ToolStart n; ToolCancelled n; Cancelled]
    end.
Proof.
  destruct use as [[id n] input]. unfold run_tool. destruct (holding _ _ _) as [a1 r1] eqn:Hh.
  apply holding_steps in Hh as (b & b' & Hk & Hs & Hm & Hs' & Hm' & Hop).
  assert (Hin : ∀ es, ToolStart n ∈ es → opened es b (in_registry (tool_resources n input (world b)) b)).
  { intros es Hes i kind Hi. destruct (acts_opened _ _ _ _ Hi); [by left|right]. by exists n, input, (world b). }
  destruct (tool_interrupted n input _) as [w|].
  - injection Hk as <- <-. intros [= <- <-]. exists [ToolStart n; ToolCancelled n; Cancelled]. split; [|split; [done|by exists n]].
    split; [simpl; rewrite Hs'; simpl; rewrite Hs; simpl; by rewrite <- app_assoc|simpl; rewrite Hm'; simpl; by rewrite Hm, app_nil_r|]. apply Hop, Hin. constructor.
  - destruct (call_tool_in_turn rt turn n input _) as [w result] eqn:Hcall. injection Hk as <- <-. intros [= <- <-].
    eexists [ToolStart n; ToolEnd n _ _]. split.
    + split; [simpl; rewrite Hs'; simpl; rewrite Hs; simpl; by rewrite <- app_assoc|simpl; rewrite Hm'; simpl; by rewrite Hm, app_nil_r|]. apply Hop, Hin. constructor.
    + split; [|eexists turn, _; cbn [fst snd]; by rewrite Hcall]. unfold quiet. simpl. by rewrite bool_decide_true.
Qed.
Lemma tools_steps uses a a' r :
  run_tools rt turn uses a = (a', r) →
  ∃ es, steps a es [] a' ∧
    match r with
    | Ok blocks => quiet es ∧ Forall2 (replies (T := T) rt) uses blocks
    | Err e => e = AgentCancelled ∧ ∃ body n, es = body ++ [ToolCancelled n; Cancelled] ∧ events None body = Some (Some n)
    end.
Proof.
  revert a r. induction uses as [|use uses IH]; intros a r; simpl.
  { intros [= <- <-]. exists []. split; [apply steps_refl|]. by split. }
  destruct (run_tool rt turn use a) as [a1 [b|e]] eqn:Ht; apply tool_steps in Ht as (es & Hst & Hes).
  - destruct Hes as [Hq Hb]. destruct (run_tools rt turn uses a1) as [a2 r2] eqn:Hr. intros [= <- <-].
    apply IH in Hr as (es' & Hst' & Hes'). exists (es ++ es'). split; [by eapply (steps_trans _ _ _ _ _ [] [])|].
    destruct r2 as [blocks|e]; simpl.
    + destruct Hes' as [Hq' Hf]. split; [by apply quiet_app|by constructor].
    + destruct Hes' as (-> & body & n & -> & Hn). split; [done|]. exists (es ++ body), n. rewrite <- app_assoc. split; [done|].
      by rewrite (events_app _ _ _ None).
  - intros [= <- <-]. exists es. split; [done|]. destruct Hes as (-> & n & ->). split; [done|]. by exists [ToolStart n], n.
Qed.

Lemma rounds_steps n tools final a a' r :
  rounds rt config turn n tools final a = (a', r) →
  ∃ es ms, steps a es ms a' ∧ (length ms <= 2 * n)%nat ∧ closes es r ∧ leaves ms es r.
Proof.
  revert final a. induction n as [|n IH]; intros final a; cbn [rounds].
  { intros [= <- <-]. eexists _, []. split; [apply steps_emit|]. split; [done|]. split; [by exists []|by left]. }
  destruct (holding _ _ a) as [a1 [m|e]] eqn:Hh; apply holding_steps in Hh as (b & b' & Hk & Hs & Hm & Hs' & Hm' & Hop);
    apply stream_steps in Hk as (es & [H1 H2 H3] & Hq); rewrite <- Hs', Hs in H1; rewrite <- Hm', Hm in H2;
    pose proof (mk_steps a es [] a1 H1 H2 (Hop _ H3)) as Hst.
  2:{ intros [= <- <-]. exists es, []. split; [done|]. split; [simpl; lia|done]. }
  set (am := role_message "assistant" (Array (m_content m))).
  assert (Hst1 : steps a es [am] (push am a1)).
  { replace es with (es ++ []) by apply app_nil_r. eapply (steps_trans _ _ _ _ _ []); [exact Hst|apply steps_push]. }
  destruct (extract_tool_uses (m_content m)) as [|u uses] eqn:Hu.
  { intros [= <- <-]. eexists (es ++ [Done _]), ([am] ++ []). split; [eapply steps_trans; [exact Hst1|apply steps_emit]|].
    split; [simpl; lia|]. split; [by exists es|]. left. rewrite app_nil_r. apply answered_one. unfold am. by rewrite uses_of_assistant, Hu. }
  assert (Ham : uses_of am = u :: uses) by (unfold am; by rewrite uses_of_assistant, Hu).
  destruct (run_tools rt turn (u :: uses) (push am a1)) as [a2 [blocks|e]] eqn:Ht; apply tools_steps in Ht as (es2 & Hst2 & Hes2).
  - destruct Hes2 as [Hq2 Hb]. set (um := role_message "user" (Array blocks)). intros Hr. apply IH in Hr as (es3 & ms3 & Hst3 & Hlen & Hc & Hl).
    assert (Hst4 : steps a (es ++ es2) [am; um] (push um a2)).
    { replace (es ++ es2) with ((es ++ es2) ++ []) by apply app_nil_r. change [am; um] with (([am] ++ []) ++ [um]).
      eapply steps_trans; [by eapply steps_trans|apply steps_push]. }
    exists ((es ++ es2) ++ es3), ([am; um] ++ ms3). split; [by eapply steps_trans|]. split; [simpl; lia|].
    split; [apply closes_app; [by apply quiet_app|done]|]. apply leaves_app; [|done]. split; [|by apply answered_one].
    intros _. exists um. split; [done|]. split; [done|]. by rewrite Ham.
  - destruct Hes2 as (-> & body & k & -> & Hk). intros [= <- <-].
    exists (es ++ body ++ [ToolCancelled k; Cancelled]), ([am] ++ []). split; [by eapply steps_trans|]. split; [simpl; lia|]. split.
    + right. exists (es ++ body), k. rewrite <- app_assoc. split; [done|]. by rewrite (events_app _ _ _ None).
    + right. split; [done|]. exists [], am, (es ++ body), k. rewrite <- app_assoc. split_and!; [done|done| |done]. by rewrite Ham.
Qed.

Lemma run_steps prompt a a' r :
  run_in_turn rt config turn prompt a = (a', r) →
  ∃ es ms, steps a es ms a' ∧ (length ms <= 2 * max_turns config + 1)%nat ∧ closes es r ∧ leaves ms es r.
Proof.
  unfold run_in_turn. destruct (cancelled_before (world a)).
  { intros [= <- <-]. eexists _, []. split; [apply steps_emit|]. split; [simpl; lia|]. split; [left; by exists []|by left]. }
  set (um := role_message "user" (Text prompt)). assert (Hum : answered [um]) by (by apply answered_one).
  destruct (tool_definitions rt (ac_tool_names config)) as [tools|e].
  - intros (es & ms & Hst & Hlen & Hc & Hl)%rounds_steps. exists ([] ++ es), ([um] ++ ms).
    split; [eapply steps_trans; [apply steps_push|exact Hst]|]. split; [simpl in *; lia|]. split; [done|]. by apply leaves_app.
  - intros [= <- <-]. exists [], [um]. split; [apply steps_push|]. split; [simpl; lia|]. split; [done|by left].
Qed.

(** C24: Uses of tools are answered. A use is a block of the assistant's message
    of type tool_use that names its tool (one without a name is not carried out, and
    nothing is said of it). When every use in the history is answered by the user's
    message after it, one block for each use in order, with its id and what the
    runtime answered to the call by that name with that input, this holds after the
    turn too, however it ends and whatever the model and the tools do; except that a
    turn cancelled while a tool runs leaves the last message, which asks for it,
    without an answer. A turn adds at most two messages a round and the prompt, and
    nothing is taken from the history. *)
Theorem uses_are_answered (prompt : str) (a a' : Running) (r : Result str AgentError) :
  answered (messages a) → run_in_turn rt config turn prompt a = (a', r) →
  ∃ ms, messages a' = messages a ++ ms ∧ (length ms <= 2 * max_turns config + 1)%nat ∧
  (answered (messages a') ∨
   (r = Err AgentCancelled ∧ (∃ n body, sent a' = body ++ [ToolCancelled n; Cancelled]) ∧
    ∃ front m, messages a' = front ++ [m] ∧ answered front ∧ uses_of m ≠ [])).
Proof.
  intros Ha (es & ms & [Hs Hm _] & Hlen & _ & Hl)%run_steps. exists ms. split; [done|]. split; [done|].
  rewrite Hm, Hs. destruct Hl as [Hl|(-> & front & m & body & n & -> & Hf & Hu & ->)]; [left; by apply answered_app|right].
  split; [done|]. split; [exists n, (sent a ++ body); by rewrite app_assoc|]. exists (messages a ++ front), m.
  rewrite app_assoc. split_and!; [done|by apply answered_app|done].
Qed.

(** C29: The events of a turn end as the turn does: a turn that returns a text
    ends with the one event that carries it, a cancelled one with
    [Cancelled], and one that fails with neither; before that, pieces of text
    come between tools, and a tool that was started ends, or is cancelled,
    under its name before anything else is sent. The resources that the loop
    registers, for a request to the model and for a tool, are closed however the turn
    ends: what is open after the turn was open before it, or was registered by the
    handler of a tool started in it, as a command that goes on running is. *)
Theorem turn_events_bracketed (prompt : str) (a a' : Running) (r : Result str AgentError) :
  run_in_turn rt config turn prompt a = (a', r) →
  ∃ es, sent a' = sent a ++ es ∧ closes es r ∧
    ∀ id kind, Session.entries (resources a') !! id = Some kind →
      Session.entries (resources a) !! id = Some kind ∨
      ∃ n input w, ToolStart n ∈ es ∧ Registered kind ∈ tool_resources n input w.
Proof. intros (es & ms & [Hs _ Ho] & _ & Hc & _)%run_steps. by exists es. Qed.
End Agent.

(** ** The form for OpenAI *)
(** The ids of the tools a message calls, and the one that a message of the
    tool's role answers. *)
Definition call_ids (m : Value) : list str :=
  str_or_empty "id" <$> default [] (get (lit "tool_calls") m ≫= as_array).
Definition answers_id (m : Value) : option str :=
  if bool_decide (get_str (lit "role") m = Some (lit "tool")) then get_str (lit "tool_call_id") m else None.
(** Calls are answered, in order, by the messages that follow at once. *)
Fixpoint calls_answered (ms : list Value) : Prop :=
  match ms with [] => True | m :: ms => (Some <$> call_ids m) `prefix_of` (answers_id <$> ms) ∧ calls_answered ms end.
Lemma calls_answered_quiet ms ms' : Forall (λ m, call_ids m = []) ms → calls_answered ms' → calls_answered (ms ++ ms').
Proof. induction 1 as [|m ms Hm _ IH]; [done|]. intros H. split; [rewrite Hm; apply prefix_nil|by apply IH]. Qed.

(** Every tool that a message asks for is named. *)
Definition named (m : Value) : Prop := Forall (λ b, is_type "tool_use" b = true → str_or_empty "name" b ≠ []) (blocks_of m).

Lemma uses_named arr :
  Forall (λ b, is_type "tool_use" b = true → str_or_empty "name" b ≠ []) arr →
  (λ u, u.1.1) <$> extract_tool_uses arr = str_or_empty "id" <$> filter (λ b, is_type "tool_use" b = true) arr.
Proof.
  unfold extract_tool_uses. induction 1 as [|b arr Hb _ IH]; [done|]. rewrite bind_cons, fmap_app, IH. destruct (is_type "tool_use" b) eqn:Ht.
  - rewrite filter_cons_True by done. rewrite bool_decide_false by auto. done.
  - rewrite filter_cons_False by congruence. done.
Qed.

Section OpenAi.
Context {C T W : Type} {HH : Host C T W} {HS : Servers W} (rt : ToolRuntime C W) (show : Value → str).
Notation answered := (answered (T := T) rt).
Notation to_openai m := (to_openai_message show m).

Lemma call_ids_assistant arr : call_ids (assistant_message show arr) = str_or_empty "id" <$> filter (λ b, is_type "tool_use" b = true) arr.
Proof.
  unfold assistant_message. destruct (filter _ arr) as [|b bs]; [reflexivity|]. unfold call_ids. rewrite fmap_cons.
  change (str_or_empty "id" <$> tool_call show b :: (tool_call show <$> bs) = str_or_empty "id" <$> b :: bs).
  rewrite <- fmap_cons, <- list_fmap_compose. apply list_fmap_ext. reflexivity.
Qed.
(** A message with blocks, by its role. *)
Lemma converted_user m arr :
  get (lit "content") m = Some (Array arr) → default (lit "user") (get_str (lit "role") m) = lit "user" →
  to_openai m = if is_tool_result_user_message arr then tool_message show <$> arr else [role_message "user" (Array (user_content_blocks_to_openai arr))].
Proof. intros Hc Hr. unfold to_openai_message. rewrite Hc, Hr. reflexivity. Qed.
Lemma converted_assistant m arr :
  get (lit "content") m = Some (Array arr) → get_str (lit "role") m = Some (lit "assistant") → to_openai m = [assistant_message show arr].
Proof. intros Hc Hr. unfold to_openai_message. rewrite Hc, Hr. reflexivity. Qed.
Lemma converted_other m c role :
  get (lit "content") m = Some c → default (lit "user") (get_str (lit "role") m) = role →
  as_array c = None ∨ (role ≠ lit "user" ∧ role ≠ lit "assistant") → to_openai m = [json [("role", Text role); ("content", c)]%string].
Proof.
  intros Hc Hr Ho. unfold to_openai_message. rewrite Hc, Hr. destruct c; try reflexivity. destruct Ho as [|[H1 H2]]; [done|].
  by rewrite !bool_decide_false.
Qed.

Lemma converted_quiet m : uses_of m = [] → named m → Forall (λ x, call_ids x = []) (to_openai m).
Proof.
  intros Hu Hn. destruct (get (lit "content") m) as [c|] eqn:Hc.
  2:{ unfold to_openai_message. rewrite Hc. by constructor; [reflexivity|constructor]. }
  destruct (as_array c) as [arr|] eqn:Harr.
  2:{ erewrite converted_other by eauto. by constructor; [reflexivity|constructor]. }
  assert (c = Array arr) as -> by (destruct c; try discriminate Harr; by injection Harr as ->).
  assert (Hb : blocks_of m = arr) by (unfold blocks_of; by rewrite Hc).
  destruct (decide (default (lit "user") (get_str (lit "role") m) = lit "user")) as [Hr|Hr].
  { rewrite (converted_user m arr) by done. destruct (is_tool_result_user_message arr).
    - rewrite Forall_fmap. apply Forall_forall. reflexivity.
    - by constructor; [reflexivity|constructor]. }
  destruct (get_str (lit "role") m) as [role|] eqn:Hrole; [|done]. cbn [default] in Hr.
  destruct (decide (role = lit "assistant")) as [->|Ha].
  - rewrite (converted_assistant m arr) by done. constructor; [|constructor]. rewrite call_ids_assistant, <- uses_named, extract_asked by (by rewrite <- Hb).
    unfold uses_of in Hu. rewrite Hrole, bool_decide_true, Hb in Hu by done. by rewrite Hu.
  - rewrite (converted_other m (Array arr) role); [by constructor; [reflexivity|constructor]|done|by rewrite Hrole|by right].
Qed.
Lemma converted_replies m uses :
  uses ≠ [] → get_str (lit "role") m = Some (lit "user") → Forall2 (replies (T := T) rt) uses (blocks_of m) →
  (Some <$> ((λ u, u.1.1) <$> uses)) = answers_id <$> to_openai m.
Proof.
  intros Hne Hr Hf. unfold blocks_of in Hf.
  destruct (get (lit "content") m ≫= as_array) as [arr|] eqn:Hc; [|by inversion Hf; subst]. change (Forall2 (replies (T := T) rt) uses arr) in Hf.
  assert (Hc' : get (lit "content") m = Some (Array arr)) by (destruct (get (lit "content") m) as [[]|]; try discriminate Hc; by injection Hc as ->).
  rewrite (converted_user m arr) by (try done; by rewrite Hr).
  assert (Ht : is_tool_result_user_message arr = true).
  { unfold is_tool_result_user_message. destruct arr as [|b arr]; [by inversion Hf; subst|]. apply forallb_forall. intros x Hx%list_elem_of_In.
    apply list_elem_of_lookup in Hx as [i Hi]. destruct (Forall2_lookup_r _ _ _ _ _ Hf Hi) as (u & _ & tn & w & ->). reflexivity. }
  rewrite Ht, <- !list_fmap_compose. clear Hne Ht Hc Hc'. induction Hf as [|u b us bs (tn & w & ->) _ IH]; [done|]. rewrite !fmap_cons, IH. reflexivity.
Qed.

(** C30: The form for OpenAI keeps uses and answers together: when every use
    of a tool in the history is answered by the next message and every tool
    that is asked for is named, each message of the converted history that
    calls tools is followed at once by one message of the tool's role for
    each call, with its id, in order. *)
Theorem openai_calls_answered (system : option str) (ms : list Value) :
  answered ms → Forall named ms → calls_answered (to_openai_messages show system ms).
Proof.
  intros Ha Hn. unfold to_openai_messages. apply calls_answered_quiet; [destruct system as [[|]|]; by repeat constructor|].
  induction Hn as [|m ms Hm _ IH]; [done|]. destruct Ha as [Hu Ha]. specialize (IH Ha). rewrite bind_cons.
  destruct (decide (uses_of m = [])) as [He|He]; [apply calls_answered_quiet; [by apply converted_quiet|done]|].
  destruct (Hu He) as (m' & Hh & Hr & Hf). destruct ms as [|? ms]; [done|]. injection Hh as ->.
  pose proof (converted_replies m' _ He Hr Hf) as Hids. unfold uses_of in He, Hids. case_bool_decide as Hra; [|done].
  unfold named, blocks_of in Hm. unfold blocks_of in He, Hids. destruct (get (lit "content") m ≫= as_array) as [arr|] eqn:Hc; [|done]. cbn [default] in *. change (id arr) with arr in *.
  assert (Hc' : get (lit "content") m = Some (Array arr)) by (destruct (get (lit "content") m) as [[]|]; try discriminate Hc; by injection Hc as ->).
  rewrite (converted_assistant m arr) by done. split; [|exact IH].
  rewrite app_nil_l, call_ids_assistant, <- uses_named, extract_asked, bind_cons, fmap_app by done. rewrite Hids.
  by apply prefix_app_r.
Qed.
End OpenAi.

(** ** What the loop does not answer *)
(** A use left by a cancelled turn stays without an answer: the next turn
    puts its prompt behind it. *)
Lemma cancelled_use_stays {C T W} {HH : Host C T W} {HS : Servers W} {HO : Oracle} {HM : Model W}
    (rt : ToolRuntime C W) config (turn : T) prompt (a a' : Running (W := W)) r front m :
  messages a = front ++ [m] → uses_of m ≠ [] → cancelled_before (world a) = false →
  run_in_turn rt config turn prompt a = (a', r) → ¬ answered (T := T) rt (messages a').
Proof.
  intros Hm Hu Hc Hr. assert (∃ rest, messages a' = front ++ m :: role_message "user" (Text prompt) :: rest) as [rest ->].
  { revert Hr. unfold run_in_turn. rewrite Hc. destruct (tool_definitions rt (ac_tool_names config)) as [tools|e].
    - intros (es & ms & [_ Hs _] & _)%(rounds_steps rt config turn). exists ms. rewrite Hs. simpl. by rewrite Hm, <- !app_assoc.
    - intros [= <- <-]. exists []. simpl. by rewrite Hm, <- !app_assoc. }
  clear Hm. induction front as [|x front IH]; [|intros [_ H]; by apply IH in H]. intros [H _]. destruct (H Hu) as (m' & [= <-] & _ & Hf).
  change (blocks_of (role_message "user" (Text prompt))) with ([] : list Value) in Hf. apply Forall2_nil_inv_r in Hf. by destruct Hu.
Qed.
(** A use without a name is taken for none: the turn ends with it in the
    history, and the form for OpenAI calls it. *)
Definition nameless : Value := json [("type", text "tool_use"); ("id", text "t"); ("name", text ""); ("input", json [])]%string.
Example nameless_use_is_called :
  extract_tool_uses [nameless] = [] ∧ call_ids (assistant_message (λ _, lit "{}") [nameless]) = [lit "t"].
Proof. by vm_compute. Qed.
(** Results that come with a text are dropped by the form for OpenAI. *)
Example mixed_results_are_dropped :
  to_openai_message (λ _, []) (role_message "user" (Array [tool_result_block (lit "t") (result_ok (lit "done")); text_block (lit "and")])) =
  [role_message "user" (Array [text_block (lit "and")])].
Proof. by vm_compute. Qed.

(** ** Witnesses *)
(** A model that asks for a tool once and then answers. *)
Definition sample_use : Value := json [("type", text "tool_use"); ("id", text "t1"); ("name", text "Read"); ("input", json [])]%string.
#[export] Instance sample_model : Model Asked := {
  cancelled_before _ := false;
  stream_messages req w :=
    (w, match w with
        | [] => Answered [lit "let me "; lit "look"] (mk_message [text_block (lit "let me look"); sample_use] None None)
        | _ => Answered [lit "done"] (mk_message [text_block (lit "done")] None None)
        end);
  tool_interrupted _ _ _ := None;
  tool_resources n _ _ := if bool_decide (n = lit "Read") then [Registered (lit "exec:1"); Registered (lit "shell_command"); Released 4] else []
}.
Definition sample_config : AgentConfig := mk_agent_config (lit "m") 100 5 [lit "Read"] None.
Definition sample_idle : Running (W := Asked) := mk_running [] [] [] Session.TurnResourceRegistry_default.
Definition sample_registry : ToolRegistry unit Asked :=
  match from_executors (builtin_executor sample_handler <$> builtin_names) with Ok r => r | Err _ => mk_tools ∅ end.
Definition sample_runtime : ToolRuntime unit Asked := mk_tool_runtime sample_registry tt.
Definition sample_end : Running (W := Asked) * Result str AgentError := run_in_turn sample_runtime sample_config tt (lit "hi") sample_idle.
Example sample_turn :
  sent sample_end.1 = [TextDelta (lit "let me "); TextDelta (lit "look"); ToolStart (lit "Read"); ToolEnd (lit "Read") true (lit "Read");
                       TextDelta (lit "done"); Done (lit "done")] ∧ sample_end.2 = Ok (lit "done").
Proof. by vm_compute. Qed.

Lemma sample_ends : run_in_turn sample_runtime sample_config tt (lit "hi") sample_idle = (sample_end.1, sample_end.2).
Proof. fold sample_end. by destruct sample_end. Qed.
Lemma sample_history : answered (T := unit) sample_runtime (messages sample_end.1).
Proof.
  destruct (run_steps sample_runtime sample_config tt (lit "hi") sample_idle _ _ sample_ends) as (es & ms & [_ Hm _] & _ & _ & [Hl|(H & _)]).
  - rewrite Hm. exact Hl.
  - exfalso. revert H. vm_compute. discriminate.
Qed.

Lemma uses_are_answered_witness :
  (length (messages sample_end.1) = 4)%nat ∧ answered (T := unit) sample_runtime (messages sample_end.1).
Proof.
  split; [vm_compute; reflexivity|].
  destruct (uses_are_answered sample_runtime sample_config tt (lit "hi") sample_idle sample_end.1 sample_end.2 I sample_ends) as (ms & _ & _ & [H|(H & _)]); [exact H|].
  exfalso. revert H. vm_compute. discriminate.
Defined.
(** Requests to the model and the tool have the ids 1, 2 and 5: what stays is the
    command that goes on. *)
Lemma turn_events_bracketed_witness :
  ∃ es, sent sample_end.1 = es ∧ closes es (Ok (lit "done")) ∧ Session.entries (resources sample_end.1) = {[3 := lit "exec:1"]} ∧
    ∃ n input w, ToolStart n ∈ es ∧ Registered (lit "exec:1") ∈ tool_resources n input (w : Asked).
Proof.
  destruct (turn_events_bracketed sample_runtime sample_config tt (lit "hi") sample_idle sample_end.1 sample_end.2 sample_ends) as (es & Hs & Hc & Ho).
  exists es. split; [exact Hs|]. destruct sample_turn as [_ Hr]. rewrite Hr in Hc. split; [exact Hc|].
  assert (Hopen : Session.entries (resources sample_end.1) = {[3 := lit "exec:1"]}) by (apply (bool_decide_unpack _); vm_compute; exact I).
  split; [exact Hopen|]. rewrite Hopen in Ho. destruct (Ho 3 (lit "exec:1") eq_refl) as [Hbad|H]; [discriminate Hbad|exact H].
Defined.
Lemma openai_calls_answered_witness :
  calls_answered (to_openai_messages (λ _, lit "{}") (Some (lit "be brief")) (messages sample_end.1)) ∧
  call_ids (assistant_message (λ _, lit "{}") [text_block (lit "let me look"); sample_use]) = [lit "t1"].
Proof.
  split; [|vm_compute; reflexivity].
  apply (openai_calls_answered (T := unit) sample_runtime); [exact sample_history|].
  vm_compute. repeat (constructor; [repeat (constructor; [by intros|]); constructor|]). constructor.
Defined.
