(* ===== verification/McpConfig.v ===== *)
(** * Configuration of MCP servers

    Models [mcp/config.rs], [mcp/plugin_config.rs] and [mcp/catalog.rs] in
    crates/pulsing-forge/src: what a server's configuration may be, the files
    of plugins, and the catalog in which configured servers come before those
    of plugins. The reading of JSON into a record (serde) is a parameter. *)
From stdpp Require Import sorting.
From S2P Require Import Prelude Text Float Files Json Registry Mcp.

(** ** Configuration *)
(** src: crates/pulsing-forge/src/mcp/config.rs 12-19 AppToolApproval *)
Inductive AppToolApproval := Auto | Prompt | Approve.
(** src: crates/pulsing-forge/src/mcp/config.rs 21-30 McpServerEnvVar *)
Inductive McpServerEnvVar := EnvName (n : str) | EnvConfig (n : str) (source : option str).
(** src: crates/pulsing-forge/src/mcp/config.rs 33-38 McpServerEnvVar::name *)
Definition env_name (v : McpServerEnvVar) : str := match v with EnvName n | EnvConfig n _ => n end.
(** src: crates/pulsing-forge/src/mcp/config.rs 40-50 McpServerEnvVar::validate_source *)
Definition validate_source (v : McpServerEnvVar) : Result unit str :=
  match v with
  | EnvName _ | EnvConfig _ None => Ok tt
  | EnvConfig _ (Some s) =>
      if bool_decide (s = lit "local" ∨ s = lit "remote") then Ok tt
      else Err (lit "unsupported env_vars source `" ++ s ++ lit "`; expected `local` or `remote`")
  end.
(** src: crates/pulsing-forge/src/mcp/config.rs 59-82 McpServerTransportConfig *)
Inductive McpServerTransportConfig :=
  | Stdio (command : str) (args : list str) (env : option (gmap str str)) (env_vars : list McpServerEnvVar) (cwd : option str)
  | StreamableHttp (url : str) (bearer_token_env_var : option str) (http_headers env_http_headers : option (gmap str str)).
(** src: crates/pulsing-forge/src/mcp/config.rs 90-133 McpServerConfig *)
Record McpServerConfig := mk_server {
  transport : McpServerTransportConfig; environment_id : str; is_enabled : bool; required : bool; parallel_calls : bool;
  startup_timeout_sec : option Z; tool_timeout_sec : option Z; default_tools_approval_mode : option AppToolApproval;
  enabled_tools : option (list str); disabled_tools : option (list str); scopes : option (list str);
  oauth : option (option str); oauth_resource : option str; tool_configs : gmap str (option AppToolApproval) }.
(** src: crates/pulsing-forge/src/mcp/config.rs 136-138 McpServerConfig::startup_timeout *)
Definition startup_timeout (c : McpServerConfig) : Z := default 30 (startup_timeout_sec c).
(** src: crates/pulsing-forge/src/mcp/config.rs 140-142 McpServerConfig::tool_timeout *)
Definition tool_timeout (c : McpServerConfig) : Z := default 120 (tool_timeout_sec c).
(** src: crates/pulsing-forge/src/mcp/config.rs 144-146 McpServerConfig::oauth_client_id *)
Definition oauth_client_id (c : McpServerConfig) : option str := oauth c ≫= id.
(** The filter of a server's tools. *)
Definition filter_of (c : McpServerConfig) : ToolFilter := from_config (enabled_tools c) (disabled_tools c).

(** src: crates/pulsing-forge/src/mcp/config.rs 157-203 RawMcpServerConfig *)
Record RawMcpServerConfig := mk_raw {
  r_command : option str; r_args : option (list str); r_env : option (gmap str str); r_env_vars : option (list McpServerEnvVar);
  r_cwd : option str; r_url : option str; r_bearer : option str; r_http_headers : option (gmap str str);
  r_env_http_headers : option (gmap str str); r_environment_id : option str; r_startup_timeout_sec : option float;
  r_startup_timeout_ms : option Z; r_tool_timeout_sec : option float; r_enabled : option bool; r_required : option bool;
  r_parallel : option bool; r_approval_mode : option AppToolApproval; r_enabled_tools : option (list str);
  r_disabled_tools : option (list str); r_scopes : option (list str); r_oauth : option (option str);
  r_oauth_resource : option str; r_tools : option (gmap str (option AppToolApproval)) }.

Definition not_negative (x : float) : bool := SFleb (S754_zero false) x.
Definition whole_seconds (x : float) : Z := f_to_u64 (f64_round x).
(** A negative number of seconds, or none that is a number, hides the
    milliseconds too.
    src: crates/pulsing-forge/src/mcp/config.rs 209-213 McpServerConfig::try_from (startup_timeout_sec) *)
Definition startup_seconds (sec : option float) (ms : option Z) : option Z :=
  match sec, ms with
  | Some s, _ => if not_negative s then Some (whole_seconds s) else None
  | None, Some ms => Some (ms / 1000)
  | None, None => None
  end.
Fixpoint validate_sources (vs : list McpServerEnvVar) : Result unit str :=
  match vs with [] => Ok tt | v :: vs => let? _ := validate_source v in validate_sources vs end.
(** src: crates/pulsing-forge/src/mcp/config.rs 219-240 McpServerConfig::try_from (transport) *)
Definition raw_transport (raw : RawMcpServerConfig) : Result McpServerTransportConfig str :=
  match r_command raw, r_url raw with
  | Some command, _ =>
      let vs := default [] (r_env_vars raw) in
      let? _ := validate_sources vs in Ok (Stdio command (default [] (r_args raw)) (r_env raw) vs (r_cwd raw))
  | None, Some url => Ok (StreamableHttp url (r_bearer raw) (r_http_headers raw) (r_env_http_headers raw))
  | None, None => Err (lit "invalid transport: need command (stdio) or url (streamable_http)")
  end.
(** src: crates/pulsing-forge/src/mcp/config.rs 208-258 McpServerConfig::try_from *)
Definition try_from (raw : RawMcpServerConfig) : Result McpServerConfig str :=
  let? t := raw_transport raw in
  Ok (mk_server t (default (lit "local") (r_environment_id raw)) (default true (r_enabled raw)) (default false (r_required raw))
        (default false (r_parallel raw)) (startup_seconds (r_startup_timeout_sec raw) (r_startup_timeout_ms raw))
        (s ← r_tool_timeout_sec raw; if not_negative s then Some (whole_seconds s) else None)
        (r_approval_mode raw) (r_enabled_tools raw) (r_disabled_tools raw) (r_scopes raw) (r_oauth raw) (r_oauth_resource raw)
        (default ∅ (r_tools raw))).

(** ** The files of plugins *)
(** src: crates/pulsing-forge/src/mcp/plugin_config.rs 12-16 PluginMcpServerPlacement *)
Inductive PluginMcpServerPlacement := Declared | Environment (id : str).
(** [Path::join], on text. *)
Definition join_text (root p : str) : str :=
  if starts_with [slash] p then p else if bool_decide (root = []) || ends_with [slash] root then root ++ p else root ++ slash :: p.
(** src: crates/pulsing-forge/src/mcp/plugin_config.rs 199-215 executor_plugin_cwd *)
Definition executor_plugin_cwd (root cwd : str) : Result str str :=
  if is_absolute (components cwd) then Ok cwd
  else if existsb (λ c, match c with ParentDir | RootDir => true | _ => false end) (components cwd) then
    Err (lit "plugin MCP cwd must stay within plugin root: " ++ cwd)
  else Ok (join_text root cwd).

Definition remove_key (k : str) (m : list (str * Value)) : list (str * Value) := filter (λ kv, kv.1 ≠ k) m.
(** What is kept of the section on oauth.
    src: crates/pulsing-forge/src/mcp/plugin_config.rs 171-183 normalize_plugin_mcp_server_value (oauth) *)
Definition normal_oauth (m : list (str * Value)) : list (str * Value) :=
  let m := remove_key (lit "callbackPort") m in
  match member (lit "clientId") m with
  | Some v => or_insert (lit "client_id") v (remove_key (lit "clientId") m)
  | None => m
  end.
(** src: crates/pulsing-forge/src/mcp/plugin_config.rs 148-197 normalize_plugin_mcp_server_value *)
Definition normalize_plugin_mcp_server_value (root : str) (value : Value) (placement : PluginMcpServerPlacement) : list (str * Value) :=
  match value with
  | Object o =>
      let o := remove_key (lit "type") o in
      let oauth := member (lit "oauth") o in
      let o := remove_key (lit "oauth") o in
      let o := match oauth with
               | Some (Object a) => match normal_oauth a with [] => o | a => member_insert (lit "oauth") (Object a) o end
               | _ => o
               end in
      match placement, member (lit "cwd") o with
      | Declared, Some (Text cwd) =>
          if is_absolute (components cwd) then o else member_insert (lit "cwd") (Text (join_text root cwd)) o
      | _, _ => o
      end
  | _ => []
  end.

(** One variable, in an environment that is local or not.
    src: crates/pulsing-forge/src/mcp/plugin_config.rs 119-143 bind_environment_env_vars (one) *)
Definition bind_env_var (is_local : bool) (v : McpServerEnvVar) : Result McpServerEnvVar str :=
  match v with
  | EnvConfig n None => Ok (if is_local then v else EnvConfig n (Some (lit "remote")))
  | EnvConfig n (Some s) =>
      if is_local && bool_decide (s = lit "remote") then
        Err (lit "env_vars entry `" ++ n ++ lit "` cannot use source `remote` in a local environment")
      else if negb is_local && bool_decide (s = lit "local") then
        Err (lit "env_vars entry `" ++ n ++ lit "` cannot use source `local` in an executor-owned plugin")
      else Ok v
  | EnvName _ => Ok v
  end.
Fixpoint bind_env_vars (is_local : bool) (vs : list McpServerEnvVar) : Result (list McpServerEnvVar) str :=
  match vs with
  | [] => Ok []
  | v :: vs => let? v := bind_env_var is_local v in let? vs := bind_env_vars is_local vs in Ok (v :: vs)
  end.
Definition with_transport (t : McpServerTransportConfig) (c : McpServerConfig) : McpServerConfig :=
  mk_server t (environment_id c) (is_enabled c) (required c) (parallel_calls c) (startup_timeout_sec c) (tool_timeout_sec c)
    (default_tools_approval_mode c) (enabled_tools c) (disabled_tools c) (scopes c) (oauth c) (oauth_resource c) (tool_configs c).
(** src: crates/pulsing-forge/src/mcp/plugin_config.rs 112-146 bind_environment_env_vars *)
Definition bind_environment_env_vars (c : McpServerConfig) : Result McpServerConfig str :=
  match transport c with
  | Stdio command args env vs cwd =>
      let? vs := bind_env_vars (bool_decide (environment_id c = lit "local")) vs in Ok (with_transport (Stdio command args env vs cwd) c)
  | _ => Ok c
  end.

Section Plugins.
(** serde's reading of an object into the raw record, and of a file. *)
Context (decode : list (str * Value) → Result RawMcpServerConfig str).
(** The directory of a server that is placed in an environment.
    src: crates/pulsing-forge/src/mcp/plugin_config.rs 80-101 normalize_plugin_mcp_server (environment) *)
Definition place (root id : str) (o : list (str * Value)) : Result (list (str * Value)) str :=
  let o := member_insert (lit "environment_id") (Text id) o in
  match member (lit "command") o with
  | None => Ok o
  | Some _ =>
      match member (lit "cwd") o with
      | Some (Text cwd) => let? p := executor_plugin_cwd root cwd in Ok (member_insert (lit "cwd") (Text p) o)
      | Some Null | None => Ok (member_insert (lit "cwd") (Text root) o)
      | Some _ => Ok o
      end
  end.
(** src: crates/pulsing-forge/src/mcp/plugin_config.rs 74-110 normalize_plugin_mcp_server *)
Definition normalize_plugin_mcp_server (root : str) (value : Value) (placement : PluginMcpServerPlacement) : Result McpServerConfig str :=
  let o := normalize_plugin_mcp_server_value root value placement in
  match placement with
  | Declared => let? raw := decode o in try_from raw
  | Environment id =>
      let? o := place root id o in let? raw := decode o in let? c := try_from raw in bind_environment_env_vars c
  end.
(** A file is an object of servers, or one with such an object inside; each
    server is good or bad by itself.
    src: crates/pulsing-forge/src/mcp/plugin_config.rs 30-50 PluginMcpFile::into_mcp_servers *)
Definition into_mcp_servers (file : Value) : Result (list (str * Value)) str :=
  match get (lit "mcpServers") file with
  | Some (Object m) => Ok m
  | _ => match file with
         | Object m => Ok m
         | _ => Err (lit "data did not match any variant of untagged enum PluginMcpFile")
         end
  end.
(** src: crates/pulsing-forge/src/mcp/plugin_config.rs 52-72 parse_plugin_mcp_config *)
Definition parse_plugin_mcp_config (root : str) (file : Value) (placement : PluginMcpServerPlacement)
    : Result (list (str * McpServerConfig) * list (str * str)) str :=
  let? servers := into_mcp_servers file in
  Ok (foldl (λ acc kv, match normalize_plugin_mcp_server root kv.2 placement with
                       | Ok c => (acc.1 ++ [(kv.1, c)], acc.2)
                       | Err e => (acc.1, acc.2 ++ [(kv.1, e)])
                       end) ([], []) servers).
End Plugins.

(** ** The catalog *)
(** src: crates/pulsing-forge/src/mcp/catalog.rs 8-14 McpServerSource *)
Inductive McpServerSource := SPlugin (plugin_id : str) | SConfig | SCompatibility (id : str) | SExtension (id : str).
(** A plugin's order is reversed.
    src: crates/pulsing-forge/src/mcp/catalog.rs 16-22 RegistrationPrecedence *)
Inductive RegistrationPrecedence := PPlugin (order : Z) | PConfig | PCompatibility | PExtension (order : Z).
(** src: crates/pulsing-forge/src/mcp/catalog.rs 25-32 RegistrationPrecedence::tier *)
Definition tier (p : RegistrationPrecedence) : Z := match p with PPlugin _ => 0 | PConfig => 1 | PCompatibility => 2 | PExtension _ => 3 end.
(** Within a tier, by the order. *)
Definition rank (p : RegistrationPrecedence) : Z := match p with PPlugin n => - n | PExtension n => n | _ => 0 end.
Definition prec_le (p q : RegistrationPrecedence) : Prop := tier p < tier q ∨ (tier p = tier q ∧ rank p <= rank q).
(** src: crates/pulsing-forge/src/mcp/catalog.rs 35-41 McpServerRegistration *)
Record McpServerRegistration := mk_registration {
  reg_name : str; reg_source : McpServerSource; reg_config : McpServerConfig; reg_precedence : RegistrationPrecedence }.
(** src: crates/pulsing-forge/src/mcp/catalog.rs 44-51 McpServerRegistration::from_config *)
Definition reg_from_config (n : str) (c : McpServerConfig) : McpServerRegistration := mk_registration n SConfig c PConfig.
(** src: crates/pulsing-forge/src/mcp/catalog.rs 53-65 McpServerRegistration::from_plugin *)
Definition reg_from_plugin (n plugin_id : str) (order : Z) (c : McpServerConfig) : McpServerRegistration :=
  mk_registration n (SPlugin plugin_id) c (PPlugin order).
(** src: crates/pulsing-forge/src/mcp/catalog.rs 82-86 McpServerConflictAction *)
Inductive McpServerConflictAction := CRegister (s : McpServerSource) | CRemove (s : McpServerSource).
(** src: crates/pulsing-forge/src/mcp/catalog.rs 88-93 McpServerConflict *)
Record McpServerConflict := mk_conflict { c_name : str; c_outcome : McpServerConflictAction; c_contenders : list McpServerConflictAction }.
(** src: crates/pulsing-forge/src/mcp/catalog.rs 95-99 ResolvedMcpServer *)
Record ResolvedMcpServer := mk_resolved { source : McpServerSource; config : McpServerConfig }.
(** src: crates/pulsing-forge/src/mcp/catalog.rs 101-105 ResolvedMcpCatalog *)
Record ResolvedMcpCatalog := mk_catalog { servers : gmap str ResolvedMcpServer; conflicts : list McpServerConflict }.
(** src: crates/pulsing-forge/src/mcp/catalog.rs 107-115 CatalogAction *)
Inductive CatalogAction := Register (r : McpServerRegistration) | Remove (n : str) (s : McpServerSource) (p : RegistrationPrecedence).
(** src: crates/pulsing-forge/src/mcp/catalog.rs 118-123 CatalogAction::name *)
Definition action_name (a : CatalogAction) : str := match a with Register r => reg_name r | Remove n _ _ => n end.
(** src: crates/pulsing-forge/src/mcp/catalog.rs 125-130 CatalogAction::precedence *)
Definition precedence (a : CatalogAction) : RegistrationPrecedence := match a with Register r => reg_precedence r | Remove _ _ p => p end.
(** src: crates/pulsing-forge/src/mcp/catalog.rs 132-137 CatalogAction::conflict_action *)
Definition conflict_action (a : CatalogAction) : McpServerConflictAction :=
  match a with Register r => CRegister (reg_source r) | Remove _ s _ => CRemove s end.
(** src: crates/pulsing-forge/src/mcp/catalog.rs 140-144 McpCatalogBuilder *)
Record McpCatalogBuilder := mk_builder { actions : list CatalogAction; disabled_server_names : gset str }.
(** src: crates/pulsing-forge/src/mcp/catalog.rs 147-150 McpCatalogBuilder::register *)
Definition reg (r : McpServerRegistration) (b : McpCatalogBuilder) : McpCatalogBuilder :=
  mk_builder (actions b ++ [Register r]) (disabled_server_names b).
(** src: crates/pulsing-forge/src/mcp/catalog.rs 152-154 McpCatalogBuilder::disable *)
Definition disable (n : str) (b : McpCatalogBuilder) : McpCatalogBuilder := mk_builder (actions b) ({[n]} ∪ disabled_server_names b).

Definition action_le (a b : CatalogAction) : Prop := prec_le (precedence a) (precedence b).
#[global] Instance action_le_dec a b : Decision (action_le a b).
Proof. unfold action_le, prec_le. apply _. Defined.
(** [sort_by_key], which keeps the order of equals. *)
Definition sorted_actions (b : McpCatalogBuilder) : list CatalogAction := merge_sort action_le (actions b).
(** The last action on a name wins. *)
Definition winners (l : list CatalogAction) : gmap str CatalogAction := foldl (λ m a, <[action_name a := a]> m) ∅ l.
(** The keys of the groups, in the order of the map: by name and tier. *)
Definition group_le (a b : str * Z) : Prop := str_ltb b.1 a.1 = false ∧ (a.1 = b.1 → a.2 <= b.2).
#[global] Instance group_le_dec a b : Decision (group_le a b).
Proof. unfold group_le. apply _. Defined.
Definition group_of (a : CatalogAction) : str * Z := (action_name a, tier (precedence a)).
(** src: crates/pulsing-forge/src/mcp/catalog.rs 159-185 McpCatalogBuilder::build (conflicts) *)
Definition find_conflicts (l : list CatalogAction) : list McpServerConflict :=
  merge_sort group_le (remove_dups (group_of <$> l)) ≫= λ g,
    let group := filter (λ a, group_of a = g) l in
    if (length group <? 2)%nat then []
    else match winners l !! g.1 with
         | Some w => [mk_conflict g.1 (conflict_action w) (conflict_action <$> group)]
         | None => []
         end.
Definition switch_off (c : McpServerConfig) : McpServerConfig :=
  mk_server (transport c) (environment_id c) false (required c) (parallel_calls c) (startup_timeout_sec c) (tool_timeout_sec c)
    (default_tools_approval_mode c) (enabled_tools c) (disabled_tools c) (scopes c) (oauth c) (oauth_resource c) (tool_configs c).
(** A winner that registers becomes a server; a name that was disabled is
    switched off. The names a winner adds to the disabled ones are its own.
    src: crates/pulsing-forge/src/mcp/catalog.rs 187-207 McpCatalogBuilder::build (servers) *)
Definition resolve (disabled : gset str) (n : str) (a : CatalogAction) : option ResolvedMcpServer :=
  match a with
  | Register r =>
      Some (mk_resolved (reg_source r)
        (if negb (is_enabled (reg_config r)) || bool_decide (n ∈ disabled) then switch_off (reg_config r) else reg_config r))
  | Remove _ _ _ => None
  end.
(** src: crates/pulsing-forge/src/mcp/catalog.rs 156-210 McpCatalogBuilder::build *)
Definition build (b : McpCatalogBuilder) : ResolvedMcpCatalog :=
  let l := sorted_actions b in
  mk_catalog (map_imap (resolve (disabled_server_names b)) (winners l)) (find_conflicts l).
(** The configured servers come in the order of a hash map.
    src: crates/pulsing-forge/src/mcp/catalog.rs 213-227 build_default_catalog *)
Definition build_default_catalog {O : Oracle} (plugin_servers : list (str * str * Z * McpServerConfig)) (config_servers : gmap str McpServerConfig)
    : ResolvedMcpCatalog :=
  let b := foldl (λ b p, reg (reg_from_plugin p.1.1.1 p.1.1.2 p.1.2 p.2) b) (mk_builder [] ∅) plugin_servers in
  build (foldl (λ b nc, reg (reg_from_config nc.1 nc.2) b) b (hm_iter config_servers)).

(** ** Configuration of MCP servers: proofs

    The catalog does not depend on the order of registration: a configured
    server is taken as it is configured, and else the plugin that comes first;
    and a plugin's server does not leave the plugin's directory. *)
(** ** Winners *)
#[global] Instance action_le_trans : Transitive action_le.
Proof. intros a b c. unfold action_le, prec_le. lia. Qed.
#[global] Instance action_le_total : Total action_le.
Proof. intros a b. unfold action_le, prec_le. lia. Qed.

Lemma winners_last l n : winners l !! n = last (filter (λ a, action_name a = n) l).
Proof.
  unfold winners. induction l as [|a l IH] using rev_ind; [done|]. rewrite foldl_snoc, filter_app. destruct (decide (action_name a = n)) as [<-|Hn].
  - by rewrite lookup_insert, decide_True, filter_cons_True, filter_nil, last_snoc by done.
  - rewrite lookup_insert_ne, IH by done. by rewrite filter_cons_False, filter_nil, app_nil_r by done.
Qed.
Lemma sorted_max {A} (R : A → A → Prop) `{!Reflexive R} (l : list A) w : StronglySorted R l → last l = Some w → Forall (λ a, R a w) l.
Proof.
  intros Hs. revert w. induction Hs as [|x l Hs IH Hx]; intros w; [done|]. destruct l as [|y l]; [intros [= <-]; by repeat constructor|].
  rewrite last_cons_cons. intros Hl. constructor; [|by apply IH]. rewrite Forall_forall in Hx. apply Hx. by apply last_Some_elem_of.
Qed.
#[global] Instance action_le_refl : Reflexive action_le.
Proof. intros a. unfold action_le, prec_le. lia. Qed.

(** The action that is above every other on its name wins. *)
Lemma winner_is b a :
  a ∈ actions b → (∀ a', a' ∈ actions b → action_name a' = action_name a → action_le a a' → a' = a) →
  winners (sorted_actions b) !! action_name a = Some a.
Proof.
  intros Ha Hmax. pose proof (merge_sort_Permutation action_le (actions b)) as Hp. fold (sorted_actions b) in Hp.
  rewrite winners_last. set (l := filter (λ a', action_name a' = action_name a) (sorted_actions b)).
  assert (Hin : a ∈ l) by (apply list_elem_of_filter; by rewrite Hp).
  destruct (last l) as [w|] eqn:Hw; [|apply last_None in Hw; rewrite Hw in Hin; by apply elem_of_nil in Hin].
  assert (Hs : StronglySorted action_le l).
  { subst l. pose proof (StronglySorted_merge_sort action_le (actions b)) as H. fold (sorted_actions b) in H. clear -H.
    induction H as [|x l' _ IH Hx]; [constructor|]. destruct (decide (action_name x = action_name a)); [rewrite filter_cons_True|rewrite filter_cons_False]; try done.
    constructor; [done|]. rewrite Forall_forall in Hx |- *. intros y [_ Hy]%list_elem_of_filter. by apply Hx. }
  pose proof (sorted_max _ _ _ Hs Hw) as Hf. rewrite Forall_forall in Hf. pose proof (last_Some_elem_of _ _ Hw) as Hwl.
  apply list_elem_of_filter in Hwl as [Hn Hwl]. rewrite Hp in Hwl. f_equal. apply Hmax; [done|done|by apply Hf].
Qed.
Lemma no_winner b n : (∀ a, a ∈ actions b → action_name a ≠ n) → winners (sorted_actions b) !! n = None.
Proof.
  intros Hno. rewrite winners_last. apply last_None.
  destruct (filter (λ a, action_name a = n) (sorted_actions b)) as [|a l] eqn:Hf; [done|exfalso].
  assert (Hin : a ∈ filter (λ a, action_name a = n) (sorted_actions b)) by (rewrite Hf; left).
  apply list_elem_of_filter in Hin as [Hn Hin]. unfold sorted_actions in Hin. rewrite merge_sort_Permutation in Hin. by apply (Hno a).
Qed.

(** ** The default catalog *)
Section Default.
Context {O : Oracle} (plugins : list (str * str * Z * McpServerConfig)) (configured : gmap str McpServerConfig).
Definition plugin_action (p : str * str * Z * McpServerConfig) : CatalogAction := Register (reg_from_plugin p.1.1.1 p.1.1.2 p.1.2 p.2).
Definition config_action (nc : str * McpServerConfig) : CatalogAction := Register (reg_from_config nc.1 nc.2).
Definition default_builder : McpCatalogBuilder :=
  mk_builder ((plugin_action <$> plugins) ++ (config_action <$> hm_iter configured)) ∅.

Lemma default_build : build_default_catalog plugins configured = build default_builder.
Proof.
  unfold build_default_catalog, default_builder. f_equal.
  assert (H : ∀ A (f : A → McpServerRegistration) l b, foldl (λ b x, reg (f x) b) b l = mk_builder (actions b ++ (Register ∘ f <$> l)) (disabled_server_names b)).
  { intros A f l. induction l as [|x l IH]; intros b; simpl; [rewrite app_nil_r; by destruct b|]. rewrite IH. cbn [actions reg disabled_server_names]. by rewrite <- app_assoc. }
  rewrite (H _ (λ p : str * str * Z * McpServerConfig, reg_from_plugin p.1.1.1 p.1.1.2 p.1.2 p.2)).
  rewrite (H _ (λ nc : str * McpServerConfig, reg_from_config nc.1 nc.2)). done.
Qed.
Lemma default_action a :
  a ∈ actions default_builder ↔ (∃ p, p ∈ plugins ∧ a = plugin_action p) ∨ (∃ n c, configured !! n = Some c ∧ a = config_action (n, c)).
Proof.
  unfold default_builder. cbn [actions]. rewrite elem_of_app, !list_elem_of_fmap. split.
  - intros [(p & -> & Hp)|([n c] & -> & Hn%elem_of_hm_iter)]; [left; eauto|right; eauto].
  - intros [(p & Hp & ->)|(n & c & Hn & ->)]; [left; eauto|right]. exists (n, c). split; [done|]. by apply elem_of_hm_iter.
Qed.
Lemma resolved r n : resolve ∅ n (Register r) = Some (mk_resolved (reg_source r) (reg_config r)).
Proof.
  unfold resolve. rewrite (bool_decide_false (n ∈ ∅)) by set_solver. rewrite orb_false_r. destruct (is_enabled (reg_config r)) eqn:He; [done|].
  do 2 f_equal. destruct (reg_config r). simpl in *. unfold switch_off. simpl. by rewrite He.
Qed.
Lemma default_lookup n : servers (build_default_catalog plugins configured) !! n = winners (sorted_actions default_builder) !! n ≫= resolve ∅ n.
Proof. rewrite default_build. unfold build. cbn [servers]. by rewrite map_lookup_imap. Qed.

(** Configured servers come before those of plugins, and plugins in their
    order, whatever the order in which the map of configured servers is
    walked and in which the plugins are listed: a configured server is in the
    catalog just as it is configured, switched off or not; a server that is
    not configured is the one of the plugin with the least number among those
    that offer the name; and the catalog has no other servers. *)
Theorem catalog_precedence (n : str) :
  NoDup ((λ p, p.1.2) <$> plugins) →
  (∀ c, configured !! n = Some c → servers (build_default_catalog plugins configured) !! n = Some (mk_resolved SConfig c)) ∧
  (configured !! n = None →
   (∀ id order c, (n, id, order, c) ∈ plugins → (∀ id' order' c', (n, id', order', c') ∈ plugins → order <= order') →
      servers (build_default_catalog plugins configured) !! n = Some (mk_resolved (SPlugin id) c)) ∧
   ((∀ id order c, (n, id, order, c) ∉ plugins) → servers (build_default_catalog plugins configured) !! n = None)).
Proof.
  intros Hd. split; [|intros Hnone; split].
  - intros c Hc. rewrite default_lookup. pose proof (winner_is default_builder (config_action (n, c))) as Hw. change (action_name _) with n in Hw at 2 3.
    rewrite Hw; [apply resolved|apply default_action; eauto|]. clear Hw.
    intros a' [(p & Hp & ->)|(n' & c' & Hc' & ->)]%default_action; unfold action_le, prec_le; simpl; [lia|]. intros -> _. by simplify_eq.
  - intros id order c Hin Hmin. rewrite default_lookup. pose proof (winner_is default_builder (plugin_action (n, id, order, c))) as Hw. change (action_name _) with n in Hw at 2 3.
    rewrite Hw; [apply resolved|apply default_action; eauto|]. clear Hw.
    intros a' [([[[n' id'] order'] c'] & Hp & ->)|(n' & c' & Hc' & ->)]%default_action; unfold action_le, prec_le; simpl; [|intros ->; by rewrite Hnone in Hc'].
    intros -> Hle. assert (order' = order) as -> by (specialize (Hmin _ _ _ Hp); lia).
    apply list_elem_of_lookup in Hp as [i Hi]. apply list_elem_of_lookup in Hin as [j Hj].
    assert (i = j) as ->; [|by simplify_eq]. eapply NoDup_lookup; [exact Hd|by rewrite list_lookup_fmap, Hi|by rewrite list_lookup_fmap, Hj].
  - intros Hno. rewrite default_lookup, no_winner; [done|]. intros a [([[[n' id'] order'] c'] & Hp & ->)|(n' & c' & Hc' & ->)]%default_action; simpl; intros ->.
    + by apply Hno in Hp.
    + by rewrite Hnone in Hc'.
Qed.
End Default.

(** A timeout of less than a second is none at all. *)
Example half_a_second_is_nothing : startup_seconds None (Some 500) = Some 0.
Proof. reflexivity. Qed.

(** ** Witness *)
Definition sample_raw (command : string) (on : bool) : RawMcpServerConfig :=
  mk_raw (Some (lit command)) None None None None None None None None None None None None (Some on) None None None None None None None None None.
Definition sample_server (command : string) (on : bool) : McpServerConfig :=
  match try_from (sample_raw command on) with Ok c => c | Err _ => mk_server (Stdio [] [] None [] None) [] false false false None None None None None None None None ∅ end.
Definition sample_plugins : list (str * str * Z * McpServerConfig) :=
  [(lit "demo", lit "p@m", 0, sample_server "a" false); (lit "git", lit "q@m", 2, sample_server "b" true); (lit "git", lit "r@m", 1, sample_server "c" true)].
Definition sample_configured : gmap str McpServerConfig := {[lit "demo" := sample_server "d" true]}.
Lemma catalog_precedence_witness :
  servers (build_default_catalog sample_plugins sample_configured) !! lit "demo" = Some (mk_resolved SConfig (sample_server "d" true)) ∧
  servers (build_default_catalog sample_plugins sample_configured) !! lit "git" = Some (mk_resolved (SPlugin (lit "r@m")) (sample_server "c" true)).
Proof.
  assert (Hd : NoDup ((λ p, p.1.2) <$> sample_plugins)) by (apply (bool_decide_unpack _); vm_compute; exact I).
  split.
  - apply (catalog_precedence sample_plugins sample_configured (lit "demo") Hd). vm_compute. reflexivity.
  - destruct (catalog_precedence sample_plugins sample_configured (lit "git") Hd) as [_ H].
    destruct (H ltac:(vm_compute; reflexivity)) as [H' _]. apply (H' (lit "r@m") 1); [right; right; left|].
    intros id' order' c' Hin. repeat (apply elem_of_cons in Hin as [Hin|Hin]; [injection Hin; intros; subst; first [discriminate | lia]|]).
    by apply elem_of_nil in Hin.
Defined.
