(* ===== verification/Bm25.v ===== *)
(** * The ranking of tools by a query

    Models [discovery/bm25.rs] in crates/pulsing-forge/src. Scores are 64-bit
    floats; the natural logarithm is the platform's and a parameter. *)
From stdpp Require Import sorting.
From S2P Require Import Prelude Text Float.
From S2P Require Address.

Section Bm25.
Context `{Address.Unicode} `{Lowercase}.
(** [f64::ln]. *)
Context (ln : float → float).

(** [str::split] at every character that satisfies [f]. *)
Fixpoint split_when (f : Z → bool) (s : str) : list str :=
  match s with
  | [] => [[]]
  | c :: s =>
      if f c then [] :: split_when f s
      else match split_when f s with [] => [[c]] | w :: ws => (c :: w) :: ws end
  end.
(** src: crates/pulsing-forge/src/discovery/bm25.rs 3-9 tokenize *)
Definition tokenize (t : str) : list str :=
  filter (λ w, w ≠ []) (split_when (λ c, negb (Address.is_alphanumeric c) && negb (c =? 95)) (to_lowercase t)).

(** One document's words, each counted once.
    src: crates/pulsing-forge/src/discovery/bm25.rs 22-29 bm25_scores (one document) *)
Definition count_word (p : gset str * gmap str Z) (t : str) : gset str * gmap str Z :=
  let '(seen, df) := p in
  if bool_decide (t ∈ seen) then (seen, df) else ({[t]} ∪ seen, <[t := default 0 (df !! t) + 1]> df).
Definition count_document (df : gmap str Z) (terms : list str) : gmap str Z := (foldl count_word (∅, df) terms).2.
(** src: crates/pulsing-forge/src/discovery/bm25.rs 20-29 bm25_scores (document frequency) *)
Definition document_frequency (docs : list (list str)) : gmap str Z := foldl count_document ∅ docs.

Definition count (w : str) (terms : list str) : Z := Z.of_nat (length (filter (w =.) terms)).
(** What a word of the query adds to the score of a document.
    src: crates/pulsing-forge/src/discovery/bm25.rs 36-47 bm25_scores (one word) *)
Definition add_word (n avgdl : float) (df : gmap str Z) (terms : list str) (score : float) (w : str) : float :=
  let k1 := f64_lit 15 1 in let b := f64_lit 75 2 in let one := f64_of_Z 1 in let half := f64_lit 5 1 in
  let dl := f64_of_Z (Z.of_nat (length terms)) in
  let tf := f64_of_Z (count w terms) in
  if SFeqb tf (S754_zero false) then score
  else
    let df_q := f64_of_Z (default 0 (df !! w)) in
    let idf := ln (f64_add (f64_div (f64_add (f64_sub n df_q) half) (f64_add df_q half)) one) in
    f64_add score
      (f64_div (f64_mul idf (f64_mul tf (f64_add k1 one)))
         (f64_add tf (f64_mul k1 (f64_add (f64_sub one b) (f64_div (f64_mul b dl) (f_max avgdl one)))))).
(** src: crates/pulsing-forge/src/discovery/bm25.rs 11-51 bm25_scores *)
Definition bm25_scores (query : str) (documents : list str) : list float :=
  let q_terms := tokenize query in
  if bool_decide (q_terms = []) || bool_decide (documents = []) then replicate (length documents) (S754_zero false)
  else
    let doc_terms := tokenize <$> documents in
    let n := f64_of_Z (Z.of_nat (length documents)) in
    let avgdl := f64_div (f64_sum ((λ t, f64_of_Z (Z.of_nat (length t))) <$> doc_terms)) (f_max n (f64_of_Z 1)) in
    let df := document_frequency doc_terms in
    (λ terms, foldl (add_word n avgdl df terms) (S754_zero false) q_terms) <$> doc_terms.

(** ** What scores tell *)
Local Ltac same_decision :=
  match goal with |- context [if bool_decide ?P then _ else _] =>
    match goal with |- _ = (if bool_decide ?Q then _ else _) => rewrite (bool_decide_ext P Q) by set_solver; reflexivity end
  end.
(** The document frequency of a word is the number of documents with it. *)
Lemma count_document_spec df terms w :
  default 0 (count_document df terms !! w) = default 0 (df !! w) + (if bool_decide (w ∈ terms) then 1 else 0).
Proof.
  unfold count_document.
  cut (∀ seen df, default 0 ((foldl count_word (seen, df) terms).2 !! w) =
         default 0 (df !! w) + (if bool_decide (w ∈ terms ∧ w ∉ seen) then 1 else 0)).
  { intros Hc. etransitivity; [apply (Hc ∅ df)|]. f_equal. same_decision. }
  clear df. induction terms as [|t ts IH]; intros seen df; cbn [foldl].
  - rewrite bool_decide_false; [cbn; lia|]. intros [?%elem_of_nil _]. done.
  - unfold count_word at 2. destruct (bool_decide_reflect (t ∈ seen)) as [Hin|Hin]; rewrite IH.
    + f_equal. same_decision.
    + destruct (decide (t = w)) as [->|Hne].
      * rewrite lookup_insert, decide_True by done. rewrite bool_decide_false by set_solver. rewrite bool_decide_true by set_solver. cbn. lia.
      * rewrite lookup_insert_ne by done. f_equal. same_decision.
Qed.
Lemma document_frequency_spec (docs : list (list str)) w :
  default 0 (document_frequency docs !! w) = Z.of_nat (length (filter (λ d, w ∈ d) docs)).
Proof.
  unfold document_frequency. cut (∀ df, default 0 (foldl count_document df docs !! w) = default 0 (df !! w) + Z.of_nat (length (filter (λ d, w ∈ d) docs))).
  { intros ->. rewrite lookup_empty. cbn. lia. }
  induction docs as [|d docs IH]; intros df; cbn [foldl]; [cbn; lia|]. rewrite IH, count_document_spec, filter_cons.
  case_bool_decide; case_decide; try done; cbn [length]; lia.
Qed.

Lemma count_zero w terms : w ∉ terms → count w terms = 0.
Proof.
  unfold count. induction terms as [|t ts IH]; [done|]. intros [Hw Hts]%not_elem_of_cons. rewrite filter_cons, decide_False by done. by apply IH.
Qed.
Lemma unshared_words n avgdl df terms qs x :
  (∀ w, w ∈ qs → w ∉ terms) → foldl (add_word n avgdl df terms) x qs = x.
Proof.
  intros Hw. induction qs as [|q qs IH]; [done|]. cbn [foldl]. replace (add_word n avgdl df terms x q) with x.
  { apply IH. intros w Hq. apply Hw. by right. }
  unfold add_word. by rewrite count_zero by (apply Hw; by left).
Qed.
(** A document that shares no word with the query scores nothing. *)
Lemma unshared_scores_zero query documents i d s :
  documents !! i = Some d → bm25_scores query documents !! i = Some s →
  (∀ w, w ∈ tokenize query → w ∉ tokenize d) → s = S754_zero false.
Proof.
  intros Hd Hs Hw. unfold bm25_scores in Hs. case_match.
  - apply lookup_replicate in Hs as [-> _]. done.
  - rewrite !list_lookup_fmap, Hd in Hs. cbn in Hs. injection Hs as <-. by apply unshared_words.
Qed.
Lemma scores_length query documents : length (bm25_scores query documents) = length documents.
Proof. unfold bm25_scores. case_match; [apply length_replicate|by rewrite !length_fmap]. Qed.
End Bm25.
