(* ===== verification/Discovery.v ===== *)
(** * Deferred tools and plugins

    Models [discovery/catalog.rs], [plugins.rs], [codex_manifest.rs],
    [codex_paths.rs], [marketplace.rs] and [handlers/discovery.rs] in
    crates/pulsing-forge/src: which plugins can be installed, which tools the
    installed ones bring, and the tools that search, list and install. Files
    are those of Files.v; what a directory lists, the process's variables,
    serde and the texts of system errors are the environment's. *)
From stdpp Require Import sorting.
From S2P Require Import Prelude Text Json Files Float Approval Registry Bm25.
From S2P Require Address.

#[export] Instance Component_countable : Countable Component.
Proof.
  refine (inj_countable' (A := option (option (option (list Z))))
    (λ c, match c with RootDir => None | CurDir => Some None | ParentDir => Some (Some None) | Normal n => Some (Some (Some n)) end)
    (λ c, match c with None => RootDir | Some None => CurDir | Some (Some None) => ParentDir | Some (Some (Some n)) => Normal n end) _).
  by intros [].
Defined.

(** ** Data *)
(** src: crates/pulsing-forge/src/discovery/catalog.rs 14-28 DeferredToolEntry *)
Record DeferredToolEntry := mk_deferred {
  d_name : str; d_namespace : option str; d_description : str; d_parameters : Value; search_text : str;
  defer_loading : bool; d_plugin_id : option str; d_source : option str }.
(** src: crates/pulsing-forge/src/discovery/catalog.rs 31-43 DeferredToolEntry::from_function *)
Definition from_function (n description : str) (parameters : Value) : DeferredToolEntry :=
  let spaced := (λ c, if c =? 95 then 32 else c) <$> n in
  mk_deferred n None description parameters (n ++ [32] ++ spaced ++ [32] ++ description) true None None.
(** src: crates/pulsing-forge/src/discovery/plugins.rs 10-21 PluginToolDef *)
Record PluginToolDef := mk_tool_def { td_name : str; td_description : str; td_parameters : Value; td_defer_loading : bool }.
(** src: crates/pulsing-forge/src/discovery/plugins.rs 23-39 PluginManifest *)
Record PluginManifest := mk_manifest {
  pm_id : str; pm_name : str; pm_description : option str; pm_remote_plugin_id : option str; pm_has_skills : bool;
  pm_mcp_server_names : list str; pm_app_connector_ids : list str; pm_tools : list PluginToolDef }.
(** src: crates/pulsing-forge/src/discovery/plugins.rs 41-52 DiscoverablePlugin *)
Record DiscoverablePlugin := mk_discoverable {
  dp_id : str; dp_name : str; dp_description : option str; dp_remote_plugin_id : option str; dp_has_skills : bool;
  dp_mcp_server_names : list str; dp_app_connector_ids : list str; dp_manifest_path : list Component; dp_installed : bool }.
(** src: crates/pulsing-forge/src/discovery/plugins.rs 110-122 PluginManifest::to_discoverable *)
Definition to_discoverable (manifest_path : list Component) (installed : bool) (m : PluginManifest) : DiscoverablePlugin :=
  mk_discoverable (pm_id m) (pm_name m) (pm_description m) (pm_remote_plugin_id m) (pm_has_skills m)
    (pm_mcp_server_names m) (pm_app_connector_ids m) manifest_path installed.
(** src: crates/pulsing-forge/src/discovery/plugins.rs 124-136 PluginManifest::deferred_tools *)
Definition deferred_tools (m : PluginManifest) : list DeferredToolEntry :=
  (λ t, let e := from_function (td_name t) (td_description t) (td_parameters t) in
        mk_deferred (d_name e) (d_namespace e) (d_description e) (d_parameters e) (search_text e)
          (td_defer_loading t) (Some (pm_id m)) (Some (lit "codex_plugin"))) <$> pm_tools m.
(** src: crates/pulsing-forge/src/discovery/codex_manifest.rs 9-19 CodexPluginManifest *)
Record CodexPluginManifest := mk_codex {
  cm_name : str; cm_version : option str; cm_description : option str; cm_display_name : option str; cm_has_skills : bool;
  cm_mcp_server_names : list str; cm_app_connector_ids : list str; cm_manifest_path : list Component }.
(** src: crates/pulsing-forge/src/discovery/marketplace.rs 9-14 InstallPolicy *)
Inductive InstallPolicy := NotAvailable | Available | InstalledByDefault.
(** src: crates/pulsing-forge/src/discovery/marketplace.rs 16-20 MarketplacePluginSource *)
Record MarketplacePluginSource := mk_source { kind : str; local_path : option (list Component) }.
(** src: crates/pulsing-forge/src/discovery/marketplace.rs 22-29 MarketplacePluginEntry *)
Record MarketplacePluginEntry := mk_entry {
  me_name : str; me_source : MarketplacePluginSource; installation : InstallPolicy;
  me_marketplace_name : str; me_marketplace_root : list Component }.
(** src: crates/pulsing-forge/src/discovery/marketplace.rs 32-34 MarketplacePluginEntry::plugin_id *)
Definition plugin_id (e : MarketplacePluginEntry) : str := me_name e ++ at_sign :: me_marketplace_name e.
(** src: crates/pulsing-forge/src/discovery/marketplace.rs 37-43 Marketplace *)
Record Marketplace := mk_marketplace {
  mp_name : str; mp_root : list Component; mp_manifest_path : list Component; mp_plugins : list MarketplacePluginEntry }.

(** What the program is given. [variable] is a variable that is set and is
    text; [read_dir] gives the names in a directory, in the order of the
    system, or an error. *)
Class Surroundings : Type := {
  variable : str → option str;
  read_dir : FileSystem → list str → Result (list str) str;
  read_dir_spec fs d ns : read_dir fs d = Ok ns → NoDup ns ∧ ∀ n, n ∈ ns ↔ is_Some (fs !! (d ++ [n]));
  io_error : list Component → str;
  path_text : list Component → str;
  path_debug : list Component → str;
  from_str : str → Result Value str;
  manifest_from_str : str → Result PluginManifest str;
  to_string_pretty : Value → str;
  debug_text : str → str
}.

(** [Path::file_name], [Path::extension]. *)
Definition file_name (p : list Component) : option str := match last p with Some (Normal n) => Some n | _ => None end.
Definition extension (n : str) : option str :=
  match rsplit_once 46 n with Some (stem, e) => if bool_decide (stem = []) then None else Some e | None => None end.
Definition or_else {A} (x y : option A) : option A := match x with Some _ => x | None => y end.
Definition str_member (k : string) (m : list (str * Value)) : option str := member (lit k) m ≫= as_str.
Definition or_error {A E} (e : E) (x : option A) : Result A E := match x with Some a => Ok a | None => Err e end.
Definition relative (s : string) : list Component := components (lit s).

Section Discovery.
Context `{Process} `{Surroundings}.

(** ** Places *)
(** src: crates/pulsing-forge/src/discovery/codex_paths.rs 7-10 MARKETPLACE_MANIFEST_RELATIVE_PATHS *)
Definition marketplace_manifest_relative_paths : list (list Component) :=
  [relative ".agents/plugins/marketplace.json"; relative ".claude-plugin/marketplace.json"].
(** src: crates/pulsing-forge/src/discovery/codex_paths.rs 12-13 PLUGIN_MANIFEST_RELATIVE_PATHS *)
Definition plugin_manifest_relative_paths : list (list Component) :=
  [relative ".codex-plugin/plugin.json"; relative ".claude-plugin/plugin.json"].
(** src: crates/pulsing-forge/src/discovery/codex_paths.rs 67-71 dirs_home *)
Definition dirs_home : list Component :=
  match variable (lit "HOME") with Some h => components h | None => relative "." end.
(** src: crates/pulsing-forge/src/discovery/codex_paths.rs 49-57 codex_home *)
Definition codex_home : list Component :=
  match variable (lit "CODEX_HOME") with
  | Some raw => if bool_decide (trim raw = []) then path_join dirs_home (relative ".codex") else components (trim raw)
  | None => path_join dirs_home (relative ".codex")
  end.
(** src: crates/pulsing-forge/src/discovery/codex_paths.rs 59-61 plugins_cache_root *)
Definition plugins_cache_root : list Component := path_join codex_home (relative "plugins/cache").
(** src: crates/pulsing-forge/src/discovery/codex_paths.rs 63-65 forge_plugin_state_path *)
Definition forge_plugin_state_path : list Component := path_join (path_join codex_home (relative "forge")) (relative "plugin_state.json").
(** src: crates/pulsing-forge/src/discovery/codex_paths.rs 95-99 discover_marketplace_roots (FORGE_PLUGIN_DIRS) *)
Definition forge_plugin_dirs : list (list Component) :=
  match variable (lit "FORGE_PLUGIN_DIRS") with
  | Some env => components <$> filter (λ s, s ≠ []) (split 58 env)
  | None => []
  end.
(** The directories of the manifests that a directory has.
    src: crates/pulsing-forge/src/discovery/codex_paths.rs 80-94 discover_marketplace_roots (manifests) *)
Definition manifest_dirs (fs : FileSystem) (base : list Component) : list (list Component) :=
  marketplace_manifest_relative_paths ≫= λ rel,
    let candidate := path_join base rel in
    if is_file fs candidate then [default base (path_parent candidate)] else [].
(** Each resolved place once, the first time.
    src: crates/pulsing-forge/src/discovery/codex_paths.rs 102-111 discover_marketplace_roots (once) *)
Fixpoint resolve_once (fs : FileSystem) (seen : gset (list Component)) (roots : list (list Component)) : list (list Component) :=
  match roots with
  | [] => []
  | root :: roots =>
      let resolved := match canonicalize fs root with Some l => abs l | None => root end in
      if bool_decide (resolved ∈ seen) then resolve_once fs seen roots
      else resolved :: resolve_once fs ({[resolved]} ∪ seen) roots
  end.
(** src: crates/pulsing-forge/src/discovery/codex_paths.rs 73-111 discover_marketplace_roots *)
Definition discover_marketplace_roots (fs : FileSystem) (extra_roots : list (list Component)) : list (list Component) :=
  let bases := [dirs_home; codex_home] ≫= λ base,
    let agents := path_join (path_join base (relative ".agents")) (relative "plugins") in
    (if is_dir fs agents then [agents] else []) ++ manifest_dirs fs base in
  resolve_once fs ∅ (bases ++ manifest_dirs fs (abs working_directory) ++ forge_plugin_dirs ++ extra_roots).
Definition first_file (fs : FileSystem) (candidates : list (list Component)) : option (list Component) :=
  head (filter (λ p, is_file fs p = true) candidates).
(** src: crates/pulsing-forge/src/discovery/codex_paths.rs 113-125 find_marketplace_manifest *)
Definition find_marketplace_manifest (fs : FileSystem) (root : list Component) : option (list Component) :=
  first_file fs ((path_join root <$> marketplace_manifest_relative_paths) ++ [path_join root (relative "marketplace.json")]).
(** src: crates/pulsing-forge/src/discovery/codex_paths.rs 127-135 find_plugin_manifest_path *)
Definition find_plugin_manifest_path (fs : FileSystem) (plugin_root : list Component) : option (list Component) :=
  first_file fs (path_join plugin_root <$> plugin_manifest_relative_paths).
(** src: crates/pulsing-forge/src/discovery/codex_paths.rs 137-145 discover_all_plugins_enabled *)
Definition discover_all_plugins_enabled : bool :=
  let v := to_ascii_lowercase (default [] (variable (lit "FORGE_PLUGIN_DISCOVER_ALL"))) in
  bool_decide (v = lit "1" ∨ v = lit "true" ∨ v = lit "yes").

(** A file's text, and a file's JSON. *)
Definition read_text (fs : FileSystem) (p : list Component) : Result str str := or_error (io_error p) (read_to_string fs p).
Definition read_json (fs : FileSystem) (p : list Component) : option Value :=
  match read_to_string fs p with
  | Some t => match from_str t with Ok v => Some v | Err _ => None end
  | None => None
  end.

(** ** Manifests of plugins *)
(** src: crates/pulsing-forge/src/discovery/codex_manifest.rs 86-90 resolve_relative *)
Definition resolve_relative (fs : FileSystem) (plugin_root : list Component) (reference : option str) : option (list Component) :=
  reference ← reference;
  let p := path_join plugin_root (components reference) in
  if exists_path fs p then Some p else None.
(** src: crates/pulsing-forge/src/discovery/codex_manifest.rs 92-113 extract_mcp_server_names *)
Definition extract_mcp_server_names (fs : FileSystem) (plugin_root : list Component) (mcp_ref : option str) : list str :=
  match resolve_relative fs plugin_root mcp_ref ≫= read_json fs with
  | Some raw =>
      match as_object (default raw (get (lit "mcpServers") raw)) with
      | Some obj => merge_sort str_le (filter (λ k, trim k ≠ []) obj.*1)
      | None => []
      end
  | None => []
  end.
(** src: crates/pulsing-forge/src/discovery/codex_manifest.rs 115-149 extract_app_connector_ids *)
Definition extract_app_connector_ids (fs : FileSystem) (plugin_root : list Component) (apps_ref : option str) : list str :=
  match resolve_relative fs plugin_root apps_ref ≫= read_json fs with
  | Some (Object obj) =>
      match default (Object obj) (or_else (member (lit "connectors") obj) (member (lit "apps") obj)) with
      | Array l => omap (λ c, o ← as_object c; str_member "id" o) l
      | Object m => merge_sort str_le m.*1
      | _ => []
      end
  | _ => []
  end.
(** src: crates/pulsing-forge/src/discovery/codex_manifest.rs 36-84 parse_codex_manifest *)
Definition parse_codex_manifest (fs : FileSystem) (raw : list (str * Value)) (plugin_root manifest_path : list Component) : CodexPluginManifest :=
  let interface := default [] (member (lit "interface") raw ≫= as_object) in
  mk_codex
    (match str_member "name" raw with Some n => n | None => default (lit "plugin") (file_name plugin_root) end)
    (str_member "version" raw)
    (or_else (or_else (member (lit "description") raw) (member (lit "shortDescription") interface))
       (member (lit "short_description") interface) ≫= as_str)
    (or_else (member (lit "displayName") interface) (member (lit "display_name") interface) ≫= as_str)
    (bool_decide (is_Some (str_member "skills" raw)))
    (extract_mcp_server_names fs plugin_root (or_else (member (lit "mcpServers") raw) (member (lit "mcp_servers") raw) ≫= as_str))
    (extract_app_connector_ids fs plugin_root (str_member "apps" raw))
    manifest_path.
(** src: crates/pulsing-forge/src/discovery/codex_manifest.rs 21-34 load_codex_manifest *)
Definition load_codex_manifest (fs : FileSystem) (plugin_root : list Component) : Result CodexPluginManifest str :=
  let? manifest_path := or_error (lit "missing plugin manifest under " ++ path_text plugin_root) (find_plugin_manifest_path fs plugin_root) in
  let? raw := read_text fs manifest_path in
  let? value := (match from_str raw with Ok v => Ok v | Err e => Err (path_text manifest_path ++ lit ": " ++ e) end) in
  let? obj := or_error (path_text manifest_path ++ lit ": manifest must be a JSON object") (as_object value) in
  Ok (parse_codex_manifest fs obj plugin_root manifest_path).

(** ** Marketplaces *)
(** src: crates/pulsing-forge/src/discovery/marketplace.rs 152-179 parse_source *)
Definition parse_source (raw : option (list (str * Value))) (marketplace_root : list Component) : MarketplacePluginSource :=
  match raw with
  | None => mk_source (lit "local") (Some marketplace_root)
  | Some raw =>
      if bool_decide (to_ascii_lowercase (default (lit "local") (str_member "source" raw)) = lit "git") then mk_source (lit "git") None
      else mk_source (lit "local") (Some (path_join marketplace_root (components (default (lit ".") (str_member "path" raw)))))
  end.
(** The path without the components at its end, when it ends with them.
    src: crates/pulsing-forge/src/discovery/marketplace.rs 132-144 marketplace_root_from_manifest (one path) *)
Fixpoint strip_components (current : list Component) (parts : list Component) : option (list Component) :=
  match parts with
  | [] => Some current
  | Normal n :: parts =>
      if bool_decide (file_name current = Some n) then strip_components (default current (path_parent current)) parts else None
  | _ :: _ => None
  end.
(** src: crates/pulsing-forge/src/discovery/marketplace.rs 130-150 marketplace_root_from_manifest *)
Definition marketplace_root_from_manifest (manifest_path : list Component) : list Component :=
  match omap (λ rel, strip_components manifest_path (reverse rel)) marketplace_manifest_relative_paths with
  | current :: _ => current
  | [] => default manifest_path (path_parent manifest_path)
  end.
(** One plugin of a marketplace.
    src: crates/pulsing-forge/src/discovery/marketplace.rs 86-120 load_marketplace (one plugin) *)
Definition marketplace_entry (n : str) (marketplace_root : list Component) (item : Value) : option MarketplacePluginEntry :=
  obj ← as_object item;
  let plugin_name := trim (default [] (str_member "name" obj)) in
  if bool_decide (plugin_name = []) then None
  else
    let policy_raw := default (lit "AVAILABLE") ((member (lit "policy") obj ≫= as_object) ≫= str_member "installation") in
    let installation :=
      if bool_decide (policy_raw = lit "NOT_AVAILABLE") then NotAvailable
      else if bool_decide (policy_raw = lit "INSTALLED_BY_DEFAULT") then InstalledByDefault else Available in
    Some (mk_entry plugin_name (parse_source (member (lit "source") obj ≫= as_object) marketplace_root) installation n marketplace_root).
(** src: crates/pulsing-forge/src/discovery/marketplace.rs 58-128 load_marketplace *)
Definition load_marketplace (fs : FileSystem) (manifest_path : list Component) : Result Marketplace str :=
  let? raw := read_text fs manifest_path in
  let? value := from_str raw in
  let? obj := or_error (path_text manifest_path ++ lit ": marketplace must be a JSON object") (as_object value) in
  let n := match str_member "name" obj with
           | Some n => n
           | None => default (lit "marketplace") (path_parent manifest_path ≫= file_name)
           end in
  let root := if bool_decide (file_name manifest_path = Some (lit "marketplace.json")) then default manifest_path (path_parent manifest_path)
              else marketplace_root_from_manifest manifest_path in
  Ok (mk_marketplace n root manifest_path
        (omap (marketplace_entry n root) (default [] (member (lit "plugins") obj ≫= as_array)))).
(** src: crates/pulsing-forge/src/discovery/marketplace.rs 45-56 list_marketplaces *)
Definition list_marketplaces (fs : FileSystem) (extra_roots : list (list Component)) : list Marketplace :=
  omap (λ root, m ← find_marketplace_manifest fs root; match load_marketplace fs m with Ok m => Some m | Err _ => None end)
    (discover_marketplace_roots fs extra_roots).
End Discovery.
