(* ===== verification/Catalog.v ===== *)
(** * The catalog of deferred tools

    Models [discovery/catalog.rs], the scanning half of [plugins.rs] and
    [handlers/discovery.rs] in crates/pulsing-forge/src: the catalog, its
    search, its renewal from the installed plugins, and the tools that
    search, list and install. *)
From stdpp Require Import sorting.
From S2P Require Import Prelude Text Json Files Float Approval Registry Bm25 Discovery.
From S2P Require Address.

(** ** The catalog *)
(** src: crates/pulsing-forge/src/discovery/catalog.rs 57-62 ToolCatalog *)
Record ToolCatalog := mk_catalog {
  deferred : list DeferredToolEntry; discoverable : list DiscoverablePlugin; installed_plugin_ids : gset str }.
(** src: crates/pulsing-forge/src/discovery/mod.rs 20-22 new_tool_catalog *)
Definition new_tool_catalog : ToolCatalog := mk_catalog [] [] ∅.
(** A tool of the same name is replaced, at the end.
    src: crates/pulsing-forge/src/discovery/catalog.rs 70-75 ToolCatalog::register_deferred *)
Definition register_deferred (entry : DeferredToolEntry) (c : ToolCatalog) : ToolCatalog :=
  let kept := if existsb (λ e, bool_decide (d_name e = d_name entry)) (deferred c)
              then filter (λ e, d_name e ≠ d_name entry) (deferred c) else deferred c in
  mk_catalog (kept ++ [entry]) (discoverable c) (installed_plugin_ids c).
(** src: crates/pulsing-forge/src/discovery/catalog.rs 77-79 ToolCatalog::mark_plugin_installed *)
Definition mark_plugin_installed (id : str) (c : ToolCatalog) : ToolCatalog :=
  mk_catalog (deferred c) (discoverable c) ({[id]} ∪ installed_plugin_ids c).
(** src: crates/pulsing-forge/src/discovery/catalog.rs 138-144 ToolCatalog::list_installable *)
Definition list_installable (c : ToolCatalog) : list DiscoverablePlugin := filter (λ p, dp_installed p = false) (discoverable c).
(** src: crates/pulsing-forge/src/discovery/catalog.rs 146-151 ToolCatalog::find_plugin *)
Definition find_plugin (id : str) (c : ToolCatalog) : option DiscoverablePlugin := head (filter (λ p, dp_id p = id) (discoverable c)).

(** Higher scores first; a score that is no number is equal to all. *)
Definition rank_le (a b : nat * float) : Prop := SFltb a.2 b.2 = false.
#[global] Instance rank_le_dec a b : Decision (rank_le a b).
Proof. unfold rank_le. apply _. Defined.
Section Search.
Context `{Address.Unicode} `{Lowercase}.
Context (ln : float → float).
(** The sort is stable, as the merge sort is.
    src: crates/pulsing-forge/src/discovery/catalog.rs 86-93 ToolCatalog::search (ranking) *)
Definition ranked (query : str) (c : ToolCatalog) : list (nat * float) :=
  merge_sort rank_le (imap pair (bm25_scores ln query (search_text <$> deferred c))).
(** src: crates/pulsing-forge/src/discovery/catalog.rs 85-100 ToolCatalog::search *)
Definition search (query : str) (limit : nat) (c : ToolCatalog) : list DeferredToolEntry :=
  omap (λ p, deferred c !! p.1) (take limit (filter (λ p, SFltb (S754_zero false) p.2 = true) (ranked query c))).
End Search.

(** ** Renewal *)
Section Renewal.
Context `{Process} `{Surroundings}.

(** src: crates/pulsing-forge/src/discovery/catalog.rs 181-198 load_configured_plugin_ids *)
Definition load_configured_plugin_ids (fs : FileSystem) : gset str :=
  match read_json fs forge_plugin_state_path with
  | Some raw =>
      match get (lit "enabled_plugins") raw ≫= as_array with
      | Some items => list_to_set (omap as_str items)
      | None => ∅
      end
  | None => ∅
  end.
(** [std::fs::read_dir] of a path, and whether an entry is itself a directory. *)
Definition read_dir_at (fs : FileSystem) (p : list Component) : Result (list str) str :=
  match canonicalize fs p with Some d => read_dir fs d | None => Err (io_error p) end.
Definition entry_is_dir (fs : FileSystem) (p : list Component) (n : str) : bool :=
  match canonicalize fs p with Some d => bool_decide (fs !! (d ++ [n]) = Some Dir) | None => false end.
Definition in_dir (p : list Component) (n : str) : list Component := path_join p [Normal n].
Definition cached (marketplace_name plugin_name : str) : list Component :=
  path_join (path_join plugins_cache_root (components marketplace_name)) (components plugin_name).
(** src: crates/pulsing-forge/src/discovery/catalog.rs 227-249 is_plugin_installed *)
Definition is_plugin_installed (fs : FileSystem) (id : str) : bool :=
  match rsplit_once at_sign id with
  | None => false
  | Some (plugin_name, marketplace_name) =>
      let base := cached marketplace_name plugin_name in
      if is_dir fs base then
        match read_dir_at fs base with
        | Ok entries =>
            existsb (λ n, is_dir fs (in_dir base n) && bool_decide (is_Some (find_plugin_manifest_path fs (in_dir base n)))) entries
        | Err _ => false
        end
      else false
  end.
(** The plugins of one marketplace in the cache.
    src: crates/pulsing-forge/src/discovery/catalog.rs 207-222 list_installed_plugin_ids (one marketplace) *)
Definition installed_of (fs : FileSystem) (cache : list Component) (marketplace_name : str) : Result (list str) str :=
  if negb (entry_is_dir fs cache marketplace_name) then Ok []
  else
    let? plugins := read_dir_at fs (in_dir cache marketplace_name) in
    Ok (filter (λ id, is_plugin_installed fs id = true)
          ((λ n, n ++ at_sign :: marketplace_name) <$> filter (λ n, entry_is_dir fs (in_dir cache marketplace_name) n = true) plugins)).
Fixpoint collect_results {A E} (rs : list (Result (list A) E)) : Result (list A) E :=
  match rs with
  | [] => Ok []
  | r :: rs => let? x := r in let? xs := collect_results rs in Ok (x ++ xs)
  end.
(** src: crates/pulsing-forge/src/discovery/catalog.rs 200-225 list_installed_plugin_ids *)
Definition list_installed_plugin_ids (fs : FileSystem) : Result (list str) str :=
  if negb (is_dir fs plugins_cache_root) then Ok []
  else
    let? marketplaces := read_dir_at fs plugins_cache_root in
    collect_results (installed_of fs plugins_cache_root <$> marketplaces).

(** src: crates/pulsing-forge/src/discovery/codex_paths.rs 15-47 TOOL_SUGGEST_PLUGIN_ALLOWLIST *)
Definition tool_suggest_plugin_allowlist : list str :=
  lit <$> (["github@openai-curated"; "notion@openai-curated"; "slack@openai-curated"; "gmail@openai-curated";
    "google-calendar@openai-curated"; "google-drive@openai-curated"; "openai-developers@openai-curated"; "canva@openai-curated";
    "teams@openai-curated"; "sharepoint@openai-curated"; "outlook-email@openai-curated"; "outlook-calendar@openai-curated";
    "linear@openai-curated"; "figma@openai-curated"; "github@openai-curated-remote"; "notion@openai-curated-remote";
    "slack@openai-curated-remote"; "gmail@openai-curated-remote"; "google-calendar@openai-curated-remote";
    "google-drive@openai-curated-remote"; "openai-developers@openai-curated-remote"; "canva@openai-curated-remote";
    "teams@openai-curated-remote"; "sharepoint@openai-curated-remote"; "outlook-email@openai-curated-remote";
    "outlook-calendar@openai-curated-remote"; "linear@openai-curated-remote"; "figma@openai-curated-remote";
    "chrome@openai-bundled"; "computer-use@openai-bundled"])%string.
(** src: crates/pulsing-forge/src/discovery/catalog.rs 323-329 remote_plugin_id *)
Definition remote_plugin_id (marketplace_name plugin_name : str) : option str :=
  if ends_with (lit "-remote") marketplace_name then Some (lit "plugins~Plugin_" ++ plugin_name) else None.
(** src: crates/pulsing-forge/src/discovery/catalog.rs 275-307 collect_discoverable_plugins (one plugin) *)
Definition offered (fs : FileSystem) (e : MarketplacePluginEntry) : DiscoverablePlugin :=
  let manifest :=
    p ← local_path (me_source e);
    if is_dir fs p then match load_codex_manifest fs p with Ok m => Some m | Err _ => None end else None in
  mk_discoverable (plugin_id e)
    (default (me_name e) (or_else (manifest ≫= cm_display_name) (cm_name <$> manifest)))
    (manifest ≫= cm_description)
    (remote_plugin_id (me_marketplace_name e) (me_name e))
    (match manifest with Some m => cm_has_skills m | None => false end)
    (match manifest with Some m => cm_mcp_server_names m | None => [] end)
    (match manifest with Some m => cm_app_connector_ids m | None => [] end)
    (match manifest with Some m => cm_manifest_path m | None => me_marketplace_root e end)
    false.
(** Whether a plugin of a marketplace is offered.
    src: crates/pulsing-forge/src/discovery/catalog.rs 263-274 collect_discoverable_plugins (filter) *)
Definition is_offered (installed : list str) (configured : gset str) (e : MarketplacePluginEntry) : bool :=
  negb (bool_decide (plugin_id e ∈ installed))
  && match installation e with NotAvailable => false | _ => true end
  && (discover_all_plugins_enabled || bool_decide (plugin_id e ∈ tool_suggest_plugin_allowlist) || bool_decide (plugin_id e ∈ configured)).
(** src: crates/pulsing-forge/src/discovery/plugins.rs 54-68 scan_codex_plugin_dirs *)
Definition scan_codex_plugin_dirs (extra_dirs : list (list Component)) : list (list Component) :=
  match variable (lit "HOME") with
  | Some home => [path_join (path_join (components home) (relative ".codex")) (relative "plugins")]
  | None => []
  end ++ extra_dirs ++ forge_plugin_dirs.
(** src: crates/pulsing-forge/src/discovery/plugins.rs 104-107 read_manifest *)
Definition read_manifest (fs : FileSystem) (p : list Component) : option PluginManifest :=
  match read_to_string fs p with
  | Some raw => match manifest_from_str raw with Ok m => Some m | Err _ => None end
  | None => None
  end.
Definition with_path (fs : FileSystem) (p : list Component) : list (PluginManifest * list Component) :=
  match read_manifest fs p with Some m => [(m, p)] | None => [] end.
(** What an entry of a directory gives.
    src: crates/pulsing-forge/src/discovery/plugins.rs 83-97 load_plugin_manifests (one entry) *)
Definition entry_manifests (fs : FileSystem) (p : list Component) (n : str) : list (PluginManifest * list Component) :=
  if is_dir fs p then
    ["plugin.json"; "manifest.json"; "codex-plugin.json"]%string ≫= λ name,
      let mf := path_join p (relative name) in if is_file fs mf then with_path fs mf else []
  else if bool_decide (extension n = Some (lit "json")) then with_path fs p else [].
(** src: crates/pulsing-forge/src/discovery/plugins.rs 74-102 load_plugin_manifests *)
Definition load_plugin_manifests (fs : FileSystem) (dirs : list (list Component)) : list (PluginManifest * list Component) :=
  dirs ≫= λ root,
    if is_dir fs root then
      match read_dir_at fs root with Ok ns => ns ≫= λ n, entry_manifests fs (in_dir root n) n | Err _ => [] end
    else [].
(** A manifest in a plain directory takes the place of what has its id.
    src: crates/pulsing-forge/src/discovery/catalog.rs 313-319 collect_discoverable_plugins (one manifest) *)
Definition add_manifest (installed : list str) (out : list DiscoverablePlugin) (mp : PluginManifest * list Component) : list DiscoverablePlugin :=
  let '(m, p) := mp in
  if bool_decide (pm_id m ∈ installed) then out else filter (λ q, dp_id q ≠ pm_id m) out ++ [to_discoverable p false m].
(** src: crates/pulsing-forge/src/discovery/catalog.rs 251-321 collect_discoverable_plugins *)
Definition collect_discoverable_plugins (fs : FileSystem) (installed : list str) (configured : gset str) (extra_dirs : list (list Component))
    : list DiscoverablePlugin :=
  let of_marketplaces :=
    list_marketplaces fs extra_dirs ≫= λ m, offered fs <$> filter (λ e, is_offered installed configured e = true) (mp_plugins m) in
  foldl (add_manifest installed) of_marketplaces (load_plugin_manifests fs (scan_codex_plugin_dirs extra_dirs)).

(** A directory named [local], else the one whose name comes last.
    src: crates/pulsing-forge/src/discovery/catalog.rs 363-390 active_plugin_root *)
Definition active_plugin_root (fs : FileSystem) (base : list Component) : option (list Component) :=
  if negb (is_dir fs base) then None
  else
    match read_dir_at fs base with
    | Err _ => None
    | Ok entries =>
        let versions := filter (λ n, is_dir fs (in_dir base n) = true) entries in
        if bool_decide (lit "local" ∈ versions) then Some (in_dir base (lit "local"))
        else in_dir base <$> last (merge_sort str_le versions)
    end.
(** src: crates/pulsing-forge/src/discovery/catalog.rs 343-359 deferred_tools_for_installed_plugin (one server) *)
Definition server_entry (id : str) (m : CodexPluginManifest) (server : str) : DeferredToolEntry :=
  let ns := lit "mcp__" ++ server in
  let e := from_function ns (lit "MCP server " ++ server ++ lit " from plugin " ++ default (cm_name m) (cm_display_name m))
             (json [("type", text "object"); ("properties", json [])]%string) in
  mk_deferred (d_name e) (Some ns) (d_description e) (d_parameters e) (search_text e) true (Some id) (Some (lit "codex_mcp_server")).
(** src: crates/pulsing-forge/src/discovery/catalog.rs 331-361 deferred_tools_for_installed_plugin *)
Definition deferred_tools_for_installed_plugin (fs : FileSystem) (id : str) : Result (list DeferredToolEntry) str :=
  match rsplit_once at_sign id with
  | None => Ok []
  | Some (plugin_name, marketplace_name) =>
      let? root := or_error (lit "plugin not installed: " ++ id) (active_plugin_root fs (cached marketplace_name plugin_name)) in
      let? manifest := load_codex_manifest fs root in
      Ok (server_entry id manifest <$> cm_mcp_server_names manifest)
  end.
(** src: crates/pulsing-forge/src/discovery/catalog.rs 126-130 ToolCatalog::refresh_from_codex (one tool) *)
Definition add_unseen (p : gset str * ToolCatalog) (e : DeferredToolEntry) : gset str * ToolCatalog :=
  let '(seen, c) := p in
  if bool_decide (d_name e ∈ seen) then (seen, c) else ({[d_name e]} ∪ seen, register_deferred e c).
(** src: crates/pulsing-forge/src/discovery/catalog.rs 112-136 ToolCatalog::refresh_from_codex *)
Definition refresh_from_codex (fs : FileSystem) (extra_dirs : list (list Component)) (c : ToolCatalog) : ToolCatalog * Result unit str :=
  let configured := load_configured_plugin_ids fs in
  match list_installed_plugin_ids fs with
  | Err e => (c, Err (lit "failed to refresh plugin catalog: " ++ e))
  | Ok installed_ids =>
      let c := mk_catalog [] (collect_discoverable_plugins fs installed_ids configured extra_dirs) (list_to_set installed_ids) in
      let entries := installed_ids ≫= λ id,
        match deferred_tools_for_installed_plugin fs id with Ok es => es | Err _ => [] end in
      ((foldl add_unseen (∅, c) entries).2, Ok tt)
  end.
(** src: crates/pulsing-forge/src/discovery/catalog.rs 157-178 ToolCatalog::install_plugin *)
Definition install_plugin (fs : FileSystem) (id : str) (c : ToolCatalog) : ToolCatalog * Result (list DeferredToolEntry) str :=
  match dp_manifest_path <$> find_plugin id c with
  | None => (c, Err (lit "unknown plugin " ++ id))
  | Some p =>
      match read_text fs p with
      | Err e => (c, Err e)
      | Ok raw =>
          match manifest_from_str raw with
          | Err e => (c, Err (path_debug p ++ lit ": " ++ e))
          | Ok manifest =>
              let set_installed q := if bool_decide (dp_id q = id)
                then mk_discoverable (dp_id q) (dp_name q) (dp_description q) (dp_remote_plugin_id q) (dp_has_skills q)
                       (dp_mcp_server_names q) (dp_app_connector_ids q) (dp_manifest_path q) true
                else q in
              let c := mk_catalog (deferred c) (set_installed <$> discoverable c) ({[id]} ∪ installed_plugin_ids c) in
              let entries := deferred_tools manifest in
              (foldl (λ c e, register_deferred e c) c entries, Ok entries)
          end
      end
  end.
End Renewal.

(** ** The tools *)
(** src: crates/pulsing-forge/src/handlers/discovery.rs 12-17 DiscoverableToolType *)
Inductive DiscoverableToolType := Connector | Plugin.
(** src: crates/pulsing-forge/src/handlers/discovery.rs 19-24 DiscoverableToolAction *)
Inductive DiscoverableToolAction := Install | Enable.
(** src: crates/pulsing-forge/src/handlers/discovery.rs 26-36 RequestPluginInstallArgs *)
Record RequestPluginInstallArgs := mk_install_args {
  ia_tool_id : str; ia_tool_type : option DiscoverableToolType; ia_action_type : option DiscoverableToolAction; ia_suggest_reason : option str }.
(** src: crates/pulsing-forge/src/handlers/discovery.rs 38-48 RequestPluginInstallResult *)
Record RequestPluginInstallResult := mk_install_result {
  ir_completed : bool; ir_user_confirmed : bool; ir_tool_type : DiscoverableToolType; ir_action_type : DiscoverableToolAction;
  ir_tool_id : str; ir_tool_name : str; ir_suggest_reason : str; ir_tools_registered : Z }.
Definition opt_text (o : option str) : Value := match o with Some t => Text t | None => Null end.
(** src: crates/pulsing-forge/src/handlers/discovery.rs 50-61 loadable_tool_json *)
Definition loadable_tool_json (e : DeferredToolEntry) : Value :=
  json [("type", text "function"); ("name", Text (d_name e)); ("description", Text (d_description e)); ("parameters", d_parameters e);
        ("defer_loading", Boolean (defer_loading e)); ("namespace", opt_text (d_namespace e)); ("plugin_id", opt_text (d_plugin_id e));
        ("source", opt_text (d_source e))]%string.
Definition description_max_len : nat := 240.
(** src: crates/pulsing-forge/src/handlers/discovery.rs 65-75 truncate_description *)
Definition truncate_description (desc : option str) : option str :=
  (λ s : str, if (length s <=? description_max_len)%nat then s else take (description_max_len - 1) s ++ [8230]) <$> desc.
(** src: crates/pulsing-forge/src/handlers/discovery.rs 77-87 discoverable_entry_json *)
Definition discoverable_entry_json (p : DiscoverablePlugin) : Value :=
  json [("id", Text (dp_id p)); ("name", Text (dp_name p)); ("description", opt_text (truncate_description (dp_description p)));
        ("tool_type", text "plugin"); ("has_skills", Boolean (dp_has_skills p));
        ("mcp_server_names", Array (Text <$> dp_mcp_server_names p)); ("app_connector_ids", Array (Text <$> dp_app_connector_ids p))]%string.
(** src: crates/pulsing-forge/src/discovery/catalog.rs 8-12 TOOL_SEARCH_MAX_LIMIT *)
Definition tool_search_default_limit : Z := 8.
Definition tool_search_max_limit : Z := 100.
(** src: crates/pulsing-forge/src/handlers/discovery.rs 105-108 TOOL_SEARCH_MAX_QUERY_CHARS *)
Definition tool_search_max_query_chars : nat := 2000.
(** src: crates/pulsing-forge/src/handlers/discovery.rs 121-130 tool_search_impl (limit) *)
Definition search_limit (arguments : Value) : Z :=
  let given := n ← get (lit "limit") arguments ≫= as_u64; if 0 <? n then Some n else None in
  Z.min (default tool_search_default_limit given) tool_search_max_limit.
(** src: crates/pulsing-forge/src/handlers/discovery.rs 114-120 tool_search_impl (query) *)
Definition search_query (arguments : Value) : option str :=
  q ← get_str (lit "query") arguments;
  if bool_decide (trim q = []) then None else Some (take tool_search_max_query_chars (trim q)).

Section Handlers.
Context `{Process} `{Surroundings} `{Address.Unicode} `{Lowercase}.
Context (ln : float → float).
(** [serde_json::from_value] of the arguments, [to_string_pretty] of the
    result. *)
Context (install_args : Value → Result RequestPluginInstallArgs str) (install_text : RequestPluginInstallResult → str).

(** src: crates/pulsing-forge/src/handlers/discovery.rs 110-136 tool_search_impl *)
Definition tool_search_impl (c : ToolCatalog) (arguments : Value) : Result ToolResult ToolError :=
  match search_query arguments with
  | None => Err (RespondToModel (lit "tool_search requires non-empty query"))
  | Some query =>
      let hits := search ln query (Z.to_nat (search_limit arguments)) c in
      Ok (result_ok (to_string_pretty (json [("tools", Array (loadable_tool_json <$> hits))]%string)))
  end.
(** src: crates/pulsing-forge/src/handlers/discovery.rs 259-271 list_plugins_impl *)
Definition list_plugins_impl (fs : FileSystem) (c : ToolCatalog) : ToolCatalog * Result ToolResult ToolError :=
  match refresh_from_codex fs [] c with
  | (c, Err e) => (c, Err (RespondToModel e))
  | (c, Ok _) => (c, Ok (result_ok (to_string_pretty (json [("tools", Array (discoverable_entry_json <$> list_installable c))]%string))))
  end.

(** What a request is about, when its arguments are accepted: the plugin's
    id, the type, and the reason.
    src: crates/pulsing-forge/src/handlers/discovery.rs 293-317 request_plugin_install_impl (arguments) *)
Definition install_request (arguments : Value) : Result (str * DiscoverableToolType * str) ToolError :=
  match install_args arguments with
  | Err e => Err (RespondToModel (lit "invalid request_plugin_install arguments: " ++ e))
  | Ok args =>
      let tool_id := trim (ia_tool_id args) in
      if bool_decide (tool_id = []) then Err (RespondToModel (lit "request_plugin_install requires tool_id"))
      else
        match default Install (ia_action_type args) with
        | Enable => Err (RespondToModel (lit "plugin install requests currently support only action_type=" ++ [34] ++ lit "install" ++ [34]))
        | Install =>
            match trim <$> ia_suggest_reason args with
            | Some ((_ :: _) as reason) => Ok (tool_id, default Plugin (ia_tool_type args), reason)
            | _ => Err (RespondToModel (lit "request_plugin_install requires non-empty suggest_reason"))
            end
        end
  end.
(** The catalog is locked to look the plugin up and to install it, and not
    while the user is asked: [ask] may find another world after it.
    src: crates/pulsing-forge/src/handlers/discovery.rs 289-354 request_plugin_install_impl *)
Definition request_plugin_install_impl {W} (catalog : W → ToolCatalog) (set_catalog : ToolCatalog → W → W) (files : W → FileSystem)
    (ask : str → str → str → W → W * Result bool ToolError) (arguments : Value) (w : W) : W * Result ToolResult ToolError :=
  match install_request arguments with
  | Err e => (w, Err e)
  | Ok (tool_id, tool_type, reason) =>
      match find_plugin tool_id (catalog w) with
      | None => (w, Err (RespondToModel (lit "unknown plugin " ++ debug_text tool_id)))
      | Some plugin =>
          let answered (confirmed : bool) (n : Z) :=
            Ok (result_ok (install_text (mk_install_result true confirmed tool_type Install tool_id (dp_name plugin) reason n))) in
          match ask tool_id (dp_name plugin) reason w with
          | (w, Err e) => (w, Err e)
          | (w, Ok false) => (w, answered false 0)
          | (w, Ok true) =>
              let '(c, r) := install_plugin (files w) tool_id (catalog w) in
              match r with
              | Err e => (set_catalog c w, Err (RespondToModel e))
              | Ok entries => (set_catalog c w, answered true (Z.of_nat (length entries)))
              end
          end
      end
  end.
End Handlers.

(** ** The order of scores *)
Lemma SFltb_total x y : SFltb x y = false ∨ SFltb y x = false.
Proof.
  unfold SFltb, SFcompare. destruct x as [[]|[]| |[] m e]; destruct y as [[]|[]| |[] n f]; simpl; auto;
    change (Pos.compare_cont Eq m n) with (Pos.compare m n); change (Pos.compare_cont Eq n m) with (Pos.compare n m);
    destruct (Z.compare_spec e f), (Z.compare_spec f e), (Pos.compare_spec m n), (Pos.compare_spec n m); simpl; auto; lia.
Qed.
Lemma SFltb_leb x y : is_nan x = false → is_nan y = false → SFltb x y = false ↔ SFleb y x = true.
Proof.
  intros Hx Hy. unfold SFltb, SFleb, SFcompare. destruct x as [[]|[]| |[] m e]; destruct y as [[]|[]| |[] n f]; try done; simpl;
    change (Pos.compare_cont Eq m n) with (Pos.compare m n); change (Pos.compare_cont Eq n m) with (Pos.compare n m);
    destruct (Z.compare_spec e f), (Z.compare_spec f e), (Pos.compare_spec m n), (Pos.compare_spec n m); simpl; try done; try lia.
Qed.
#[local] Instance rank_le_total : Total rank_le.
Proof. intros a b. apply SFltb_total. Qed.
Lemma Sorted_Strongly {A} (R : relation A) (P : A → Prop) (l : list A) :
  (∀ x y z, P x → P y → P z → R x y → R y z → R x z) → Forall P l → Sorted R l → StronglySorted R l.
Proof.
  intros Ht HP Hs. induction Hs as [|x l Hs IH Hd]; [constructor|]. apply Forall_cons in HP as [Hx HP]. specialize (IH HP).
  constructor; [done|]. destruct Hd as [|y l Hxy]; [constructor|]. apply Forall_cons in HP as [Hy HP].
  apply StronglySorted_inv in IH as [_ Hyl]. constructor; [done|]. rewrite Forall_forall in Hyl, HP |- *. intros z Hz. eapply (Ht x y z); auto.
Qed.
Lemma StronglySorted_filter {A} (R : relation A) (P : A → Prop) `{∀ x, Decision (P x)} (l : list A) :
  StronglySorted R l → StronglySorted R (filter P l).
Proof.
  induction 1 as [|x l Hs IH Hx]; [constructor|]. rewrite filter_cons. case_decide; [|done]. constructor; [done|].
  rewrite Forall_forall in Hx |- *. intros y [_ Hy]%list_elem_of_filter. auto.
Qed.
Lemma StronglySorted_omap {A B} (R : relation A) (S : relation B) (f : A → option B) (l : list A) :
  (∀ x y a b, R x y → f x = Some a → f y = Some b → S a b) → StronglySorted R l → StronglySorted S (omap f l).
Proof.
  intros Hf. induction 1 as [|x l Hs IH Hx]; [constructor|]. cbn. destruct (f x) as [a|] eqn:Ha; [|done]. constructor; [done|].
  rewrite Forall_forall in Hx. apply Forall_forall. intros b (y & Hy & Hb)%list_elem_of_omap. eauto.
Qed.

Section Search.
Context `{Address.Unicode} `{Lowercase}.
Context (ln : float → float) (query : str) (c : ToolCatalog).
Definition scores : list float := bm25_scores ln query (search_text <$> deferred c).
(** The tools with their scores. *)
Definition scored : list (DeferredToolEntry * float) := zip (deferred c) scores.
Definition positive (p : DeferredToolEntry * float) : Prop := SFltb (S754_zero false) p.2 = true.
Definition no_better (a b : DeferredToolEntry * float) : Prop := SFltb a.2 b.2 = false.
Local Definition entry_of (p : nat * float) : option (DeferredToolEntry * float) := (λ e, (e, p.2)) <$> deferred c !! p.1.

Lemma omap_entry_of (k : nat) (l : list float) :
  omap entry_of (imap (λ i x, ((k + i)%nat, x)) l) = zip (drop k (deferred c)) l.
Proof.
  revert k. induction l as [|x l IH]; intros k; [by destruct (drop k (deferred c))|].
  assert (Hi : imap (λ i x, ((k + i)%nat, x)) (x :: l) = (k, x) :: imap (λ i x, ((S k + i)%nat, x)) l).
  { cbn. rewrite Nat.add_0_r. f_equal. apply imap_ext. intros i y _. unfold compose. f_equal. lia. }
  rewrite Hi. transitivity (match entry_of (k, x) with Some q => q :: zip (drop (S k) (deferred c)) l | None => zip (drop (S k) (deferred c)) l end).
  { rewrite <- IH. reflexivity. }
  unfold entry_of. cbn [fst snd]. destruct (deferred c !! k) as [e|] eqn:He; cbn.
  - by rewrite (drop_S _ _ _ He).
  - apply lookup_ge_None in He. rewrite !drop_ge by lia. done.
Qed.
Lemma omap_filter_entry (l : list (nat * float)) :
  omap entry_of (filter (λ p, SFltb (S754_zero false) p.2 = true) l) = filter positive (omap entry_of l).
Proof.
  induction l as [|p l IH]; [done|]. rewrite filter_cons. cbn. destruct (entry_of p) as [q|] eqn:Hq.
  - rewrite filter_cons. unfold positive at 1. unfold entry_of in Hq. apply fmap_Some in Hq as (e & He & ->). cbn [snd].
    case_decide; cbn; [unfold entry_of at 1; by rewrite He, <- IH|done].
  - case_decide; cbn; [by rewrite Hq|done].
Qed.
Lemma entries_of (l : list (nat * float)) : omap (λ p, deferred c !! p.1) l = (omap entry_of l).*1.
Proof.
  induction l as [|p l IH]; [done|]. cbn. unfold entry_of at 1. destruct (deferred c !! p.1); cbn; [by rewrite IH|done].
Qed.
End Search.

Section Found.
Context `{Address.Unicode} `{Lowercase}.

Lemma ranked_scored ln query c :
  omap (entry_of c) (ranked ln query c) ≡ₚ scored ln query c.
Proof.
  unfold ranked. rewrite merge_sort_Permutation. pose proof (omap_entry_of c 0 (scores ln query c)) as Hz.
  rewrite drop_0 in Hz. unfold scored. rewrite <- Hz. done.
Qed.
Lemma ranked_sorted ln query c :
  numbers (scores ln query c) → StronglySorted rank_le (ranked ln query c).
Proof.
  intros Hn. apply (Sorted_Strongly _ (λ p, is_nan p.2 = false)).
  - unfold rank_le. intros x y z Hx Hy Hz. rewrite !SFltb_leb by done. intros H1 H2. by apply (SFleb_trans _ y.2).
  - unfold ranked. rewrite merge_sort_Permutation. apply Forall_forall. intros p Hp. apply elem_of_lookup_imap in Hp as (i & s & -> & Hs).
    rewrite Forall_forall in Hn. apply Hn. by eapply list_elem_of_lookup_2.
  - unfold ranked. apply Sorted_merge_sort, _.
Qed.

(** C32: A search finds the best: what it gives are the tools with a positive
    score in the order of their scores, best first, as many as the limit
    permits, and what it leaves out scores no better; and every tool it
    gives has a word of the query in its search text. *)
Theorem search_finds_best (ln : float → float) (query : str) (limit : nat) (c : ToolCatalog) :
  numbers (scores ln query c) →
  ∃ hits rest,
    search ln query limit c = hits.*1 ∧ hits ++ rest ≡ₚ filter positive (scored ln query c) ∧
    (length hits <= limit)%nat ∧ (rest ≠ [] → length hits = limit) ∧
    StronglySorted no_better (hits ++ rest) ∧
    Forall (λ p, ∃ w, w ∈ tokenize query ∧ w ∈ tokenize (search_text p.1)) hits.
Proof.
  intros Hn. set (l := filter (λ p : nat * float, SFltb (S754_zero false) p.2 = true) (ranked ln query c)).
  assert (Hl : ∀ p, p ∈ l → ∃ e, entry_of c p = Some (e, p.2) ∧ deferred c !! p.1 = Some e).
  { intros p [_ Hp]%list_elem_of_filter. unfold ranked in Hp. rewrite merge_sort_Permutation in Hp.
    apply elem_of_lookup_imap in Hp as (i & s & -> & Hs). apply lookup_lt_Some in Hs. unfold scores in Hs. rewrite scores_length, length_fmap in Hs.
    destruct (lookup_lt_is_Some_2 _ _ Hs) as [e He]. exists e. unfold entry_of. cbn [fst snd]. by rewrite He. }
  assert (Hlen : ∀ l', l' ⊆ l → length (omap (entry_of c) l') = length l').
  { intros l'. induction l' as [|p l' IH]; [done|]. intros Hs. destruct (Hl p) as (e & He & _); [apply Hs; by left|]. cbn. rewrite He. cbn.
    rewrite IH; [done|]. intros q Hq. apply Hs. by right. }
  assert (Hall : omap (entry_of c) (take limit l) ++ omap (entry_of c) (drop limit l) = omap (entry_of c) l) by (by rewrite <- omap_app, take_drop).
  exists (omap (entry_of c) (take limit l)), (omap (entry_of c) (drop limit l)).
  assert (Hsub : take limit l ⊆ l) by (intros p Hp; rewrite <- (take_drop limit l); set_solver).
  assert (Hsub' : drop limit l ⊆ l) by (intros p Hp; rewrite <- (take_drop limit l); set_solver).
  split_and!.
  - unfold search. apply entries_of.
  - rewrite Hall. unfold l. rewrite omap_filter_entry. by rewrite ranked_scored.
  - rewrite Hlen by done. rewrite length_take. lia.
  - intros Hr. rewrite Hlen by done. rewrite length_take. enough (limit < length l)%nat by lia.
    destruct (decide (limit < length l)%nat); [done|]. exfalso. apply Hr. by rewrite drop_ge by lia.
  - rewrite Hall. apply (StronglySorted_omap rank_le).
    + unfold entry_of. intros [i s] [j s'] a b Hr (?&_&->)%fmap_Some (?&_&->)%fmap_Some. exact Hr.
    + by apply StronglySorted_filter, ranked_sorted.
  - apply Forall_forall. intros q (p & Hp%Hsub & Hq)%list_elem_of_omap. destruct (Hl p Hp) as (e & He & Hd). rewrite He in Hq. injection Hq as <-.
    apply list_elem_of_filter in Hp as [Hpos Hp]. unfold ranked in Hp. rewrite merge_sort_Permutation in Hp.
    apply elem_of_lookup_imap in Hp as (i & s & -> & Hs). cbn [fst snd] in *.
    destruct (decide (Exists (λ w, w ∈ tokenize (search_text e)) (tokenize query))) as [(w & Hw & Hw')%Exists_exists|Hno]; [by exists w|exfalso].
    rewrite (unshared_scores_zero ln query (search_text <$> deferred c) i (search_text e) s) in Hpos; [done| |exact Hs|].
    + by rewrite list_lookup_fmap, Hd.
    + intros w Hw Hw'. apply Hno, Exists_exists. eauto.
Qed.
End Found.

(** ** What the catalog holds *)
Definition distinct (c : ToolCatalog) : Prop := NoDup (d_name <$> deferred c).
Definition tool_named (n : str) (c : ToolCatalog) : option DeferredToolEntry := head (filter (λ e, d_name e = n) (deferred c)).

Lemma register_deferred_spec e c :
  register_deferred e c = mk_catalog (filter (λ x, d_name x ≠ d_name e) (deferred c) ++ [e]) (discoverable c) (installed_plugin_ids c).
Proof.
  unfold register_deferred. f_equal. f_equal. destruct (existsb _ _) eqn:He; [done|]. symmetry.
  induction (deferred c) as [|x l IH]; [done|]. cbn in He. apply orb_false_iff in He as [Hx He]. apply bool_decide_eq_false in Hx.
  rewrite filter_cons, decide_True by done. by rewrite IH.
Qed.
Lemma register_deferred_distinct e c : distinct c → distinct (register_deferred e c).
Proof.
  unfold distinct. rewrite register_deferred_spec. cbn [deferred]. intros Hd. rewrite fmap_app. apply NoDup_app. split_and!.
  - induction (deferred c) as [|x l IH]; [constructor|]. cbn in Hd. apply NoDup_cons in Hd as [Hx Hd]. rewrite filter_cons. case_decide; [|auto].
    cbn. constructor; [|auto]. intros (y & Hy & Hin)%list_elem_of_fmap. apply list_elem_of_filter in Hin as [_ Hin]. apply Hx. rewrite Hy. by apply list_elem_of_fmap_2.
  - intros n (x & -> & Hin)%list_elem_of_fmap Hn. apply list_elem_of_filter in Hin as [Hne _]. by apply list_elem_of_singleton in Hn.
  - cbn. apply NoDup_singleton.
Qed.
Lemma tool_named_register n e c :
  tool_named n (register_deferred e c) = if decide (d_name e = n) then Some e else tool_named n c.
Proof.
  rewrite register_deferred_spec. unfold tool_named. cbn [deferred]. rewrite filter_app, list_filter_filter, filter_cons, filter_nil.
  destruct (decide (d_name e = n)) as [<-|Hne].
  - replace (filter _ (deferred c)) with (@nil DeferredToolEntry); [done|].
    induction (deferred c) as [|x l IH]; [done|]. rewrite filter_cons, decide_False by tauto. done.
  - rewrite app_nil_r. f_equal. apply list_filter_iff. intros x. split; [tauto|]. intros Hx. by rewrite Hx.
Qed.
Lemma register_all_distinct es c : distinct c → distinct (foldl (λ c e, register_deferred e c) c es).
Proof. revert c. induction es as [|e es IH]; intros c Hc; [done|]. by apply IH, register_deferred_distinct. Qed.
Lemma register_all_rest es c :
  discoverable (foldl (λ c e, register_deferred e c) c es) = discoverable c ∧
  installed_plugin_ids (foldl (λ c e, register_deferred e c) c es) = installed_plugin_ids c.
Proof. revert c. induction es as [|e es IH]; intros c; [done|]. cbn. destruct (IH (register_deferred e c)) as [-> ->]. by rewrite register_deferred_spec. Qed.
Lemma tool_named_register_all n es c :
  tool_named n (foldl (λ c e, register_deferred e c) c es) =
  match last (filter (λ e, d_name e = n) es) with Some e => Some e | None => tool_named n c end.
Proof.
  revert c. induction es as [|e es IH]; intros c; [done|]. cbn [foldl]. rewrite IH, tool_named_register, filter_cons.
  destruct (decide (d_name e = n)); [|done]. rewrite last_cons. by destruct (last (filter _ es)).
Qed.
Lemma add_unseen_rest es p :
  discoverable (foldl add_unseen p es).2 = discoverable p.2 ∧ installed_plugin_ids (foldl add_unseen p es).2 = installed_plugin_ids p.2 ∧
  (distinct p.2 → distinct (foldl add_unseen p es).2).
Proof.
  revert p. induction es as [|e es IH]; intros [seen c]; [done|]. cbn [foldl]. destruct (IH (add_unseen (seen, c) e)) as (-> & -> & Hd). clear IH.
  assert (Hs : (add_unseen (seen, c) e).2 = c ∨ (add_unseen (seen, c) e).2 = register_deferred e c) by (unfold add_unseen; case_bool_decide; auto).
  cbn [snd]. destruct Hs as [Hs|Hs]; rewrite Hs in *; [done|]. split_and!; [by rewrite register_deferred_spec..|].
  intros Hc. by apply Hd, register_deferred_distinct.
Qed.

Section Renewed.
Context `{Process} `{Surroundings}.

(** What a catalog may become. *)
Inductive catalog_step : ToolCatalog → ToolCatalog → Prop :=
  | step_register e c : catalog_step c (register_deferred e c)
  | step_mark id c : catalog_step c (mark_plugin_installed id c)
  | step_refresh fs extra c : catalog_step c (refresh_from_codex fs extra c).1
  | step_install fs id c : catalog_step c (install_plugin fs id c).1.
Definition well_formed (c : ToolCatalog) : Prop :=
  distinct c ∧ ∀ p, p ∈ discoverable c → dp_installed p = true → dp_id p ∈ installed_plugin_ids c.

Lemma added_not_installed installed out ms :
  Forall (λ p, dp_installed p = false ∧ dp_id p ∉ installed) out →
  Forall (λ p, dp_installed p = false ∧ dp_id p ∉ installed) (foldl (add_manifest installed) out ms).
Proof.
  revert out. induction ms as [|[m p] ms IH]; intros out Ho; [done|]. cbn [foldl]. apply IH. unfold add_manifest. case_bool_decide; [done|].
  apply Forall_app. split; [|by repeat constructor]. rewrite Forall_forall in Ho |- *. intros q [_ Hq]%list_elem_of_filter. auto.
Qed.
Lemma discoverable_not_installed fs installed configured extra :
  Forall (λ p, dp_installed p = false ∧ dp_id p ∉ installed) (collect_discoverable_plugins fs installed configured extra).
Proof.
  unfold collect_discoverable_plugins. apply added_not_installed. apply Forall_forall.
  intros p (m & Hm & _)%list_elem_of_bind. apply list_elem_of_fmap in Hm as (e & -> & [He _]%list_elem_of_filter). split; [done|].
  unfold is_offered in He. rewrite !andb_true_iff in He. destruct He as [[He _] _]. by apply negb_true_iff, bool_decide_eq_false in He.
Qed.
Lemma refresh_spec fs extra c c' :
  refresh_from_codex fs extra c = (c', Ok tt) →
  ∃ ids, list_installed_plugin_ids fs = Ok ids ∧ discoverable c' = collect_discoverable_plugins fs ids (load_configured_plugin_ids fs) extra ∧
    installed_plugin_ids c' = list_to_set ids ∧ distinct c'.
Proof.
  unfold refresh_from_codex. destruct (list_installed_plugin_ids fs) as [ids|e]; [|done]. intros [= <-]. exists ids.
  match goal with |- context [foldl add_unseen ?p ?es] => destruct (add_unseen_rest es p) as (-> & -> & Hd) end. split_and!; try done. apply Hd. constructor.
Qed.

(** The catalog stays well formed whatever is registered, installed or
    renewed: no two of its tools have one name, and a plugin it shows as
    installed is among the installed ones. *)
Theorem catalog_well_formed (c : ToolCatalog) : rtc catalog_step new_tool_catalog c → well_formed c.
Proof.
  intros Hr. remember new_tool_catalog as c0 eqn:Hc0. assert (Hwf : well_formed c0).
  { subst. split; [constructor|]. by intros p ?%elem_of_nil. }
  clear Hc0. induction Hr as [c|c c1 c2 Hs _ IH]; [done|]. apply IH. clear IH c2. destruct Hwf as [Hd Hi]. destruct Hs.
  - split; [by apply register_deferred_distinct|]. by rewrite register_deferred_spec.
  - split; [done|]. cbn. set_solver.
  - destruct (refresh_from_codex fs extra c) as [c' [[]|e]] eqn:Hr; cbn [fst].
    + apply refresh_spec in Hr as (ids & _ & Hp & _ & Hd'). split; [done|]. rewrite Hp. intros p Hin Hb.
      pose proof (discoverable_not_installed fs ids (load_configured_plugin_ids fs) extra) as Hf. rewrite Forall_forall in Hf.
      destruct (Hf p Hin) as [? _]. congruence.
    + unfold refresh_from_codex in Hr. destruct (list_installed_plugin_ids fs); [done|]. by injection Hr as <- _.
  - unfold install_plugin. destruct (find_plugin id c) as [q|]; cbn [fmap option_fmap option_map]; [|done].
    destruct (read_text fs _); [|done]. destruct (manifest_from_str _) as [m|]; [|done]. cbn [fst]. split.
    + by apply register_all_distinct.
    + destruct (register_all_rest (deferred_tools m) (mk_catalog (deferred c)
        ((λ q, if bool_decide (dp_id q = id)
                then mk_discoverable (dp_id q) (dp_name q) (dp_description q) (dp_remote_plugin_id q) (dp_has_skills q)
                       (dp_mcp_server_names q) (dp_app_connector_ids q) (dp_manifest_path q) true
                else q) <$> discoverable c) ({[id]} ∪ installed_plugin_ids c))) as [-> ->].
      cbn. intros p (x & -> & Hx)%list_elem_of_fmap. case_bool_decide; cbn; [set_solver|]. intros Hb. specialize (Hi x Hx Hb). set_solver.
Qed.
End Renewed.

Section Asked.
Context `{Process} `{Surroundings}.

(** A plugin that is installed: its tools are in the catalog under their
    names, the last one of a name; the other tools are as before; and it is
    no longer offered. *)
Lemma installed_tools fs id c c' entries :
  install_plugin fs id c = (c', Ok entries) →
  (∀ n, tool_named n c' = match last (filter (λ e, d_name e = n) entries) with Some e => Some e | None => tool_named n c end) ∧
  id ∈ installed_plugin_ids c' ∧ (∀ p, p ∈ list_installable c' → dp_id p ≠ id) ∧
  ∃ p raw m, find_plugin id c = Some p ∧ read_to_string fs (dp_manifest_path p) = Some raw ∧ manifest_from_str raw = Ok m ∧ entries = deferred_tools m.
Proof.
  unfold install_plugin. destruct (find_plugin id c) as [q|]; cbn [fmap option_fmap option_map]; [|done].
  unfold read_text. destruct (read_to_string fs _) as [raw|] eqn:Hraw; cbn [or_error]; [|done]. destruct (manifest_from_str raw) as [m|] eqn:Hm; [|done].
  intros [= <- <-]. match goal with |- context [foldl _ ?c1 _] => set (c1' := c1) end.
  destruct (register_all_rest (deferred_tools m) c1') as [Hd Hi]. split_and!.
  - intros n. by rewrite tool_named_register_all.
  - rewrite Hi. cbn. set_solver.
  - unfold list_installable. rewrite Hd. cbn. intros p [Hb (x & -> & Hx)%list_elem_of_fmap]%list_elem_of_filter. revert Hb. by case_bool_decide.
  - by exists q, raw, m.
Qed.
Lemma install_error_keeps fs id c c' e : install_plugin fs id c = (c', Err e) → c' = c.
Proof.
  unfold install_plugin. destruct (dp_manifest_path <$> find_plugin id c); [|by intros [= <- _]]. destruct (read_text fs _); [|by intros [= <- _]].
  destruct (manifest_from_str _); [done|by intros [= <- _]].
Qed.

Context {W : Type} (install_args : Value → Result RequestPluginInstallArgs str) (install_text : RequestPluginInstallResult → str).
Context (catalog : W → ToolCatalog) (set_catalog : ToolCatalog → W → W) (files : W → FileSystem).
Context (ask : str → str → str → W → W * Result bool ToolError).
Hypothesis catalog_set : ∀ c w, catalog (set_catalog c w) = c.

(** A plugin comes with the user's consent: a request leaves the catalog
    as the user's answer found it, unless the user was asked about that very
    plugin, by its id and name and with a reason, and said yes; then the
    plugin is installed, or there was an error and the catalog is unchanged
    too. *)
Theorem install_needs_consent (arguments : Value) (w w' : W) (r : Result ToolResult ToolError) :
  request_plugin_install_impl install_args install_text catalog set_catalog files ask arguments w = (w', r) →
  (w' = w ∧ ∃ m, r = Err m) ∨
  ∃ id reason plugin w1 a,
    find_plugin id (catalog w) = Some plugin ∧ dp_id plugin = id ∧ id ≠ [] ∧ reason ≠ [] ∧ ask id (dp_name plugin) reason w = (w1, a) ∧
    (a ≠ Ok true → w' = w1) ∧
    (a = Ok true →
      (catalog w' = catalog w1 ∧ ∃ m, r = Err m) ∨
      (∃ entries, install_plugin (files w1) id (catalog w1) = (catalog w', Ok entries) ∧ (∃ t, r = Ok (result_ok t)) ∧
        id ∈ installed_plugin_ids (catalog w') ∧
        ∀ e, e ∈ entries → ∃ e', e' ∈ entries ∧ d_name e' = d_name e ∧ tool_named (d_name e) (catalog w') = Some e')).
Proof.
  unfold request_plugin_install_impl. destruct (install_request install_args arguments) as [[[id ty] reason]|e] eqn:Hq; [|intros [= <- <-]; left; eauto].
  destruct (find_plugin id (catalog w)) as [plugin|] eqn:Hf; [|intros [= <- <-]; left; eauto].
  assert (Hid : id ≠ [] ∧ reason ≠ []).
  { unfold install_request in Hq. destruct (install_args arguments) as [args|]; [|done]. case_bool_decide as Hne; [done|].
    destruct (default Install (ia_action_type args)); [|done]. destruct (trim <$> ia_suggest_reason args) as [[|z l]|]; try done. by injection Hq as <- _ <-. }
  assert (Hpid : dp_id plugin = id).
  { unfold find_plugin in Hf. apply head_Some_elem_of in Hf. by apply list_elem_of_filter in Hf as [? _]. }
  intros Hr. right. exists id, reason, plugin. destruct (ask id (dp_name plugin) reason w) as [w1 a] eqn:Ha. exists w1, a.
  destruct Hid as [Hid Hre]. split_and!; [done|done|done|done|done| |].
  - intros Hno. destruct a as [[|]|]; [done|by injection Hr as <- _|by injection Hr as <- _].
  - intros ->. destruct (install_plugin (files w1) id (catalog w1)) as [c r1] eqn:Hi. destruct r1 as [entries|e]; injection Hr as <- <-; rewrite catalog_set.
    + right. exists entries. split_and!; [done|by eexists|by destruct (installed_tools _ _ _ _ _ Hi) as (_ & ? & _)|].
      intros e He. destruct (installed_tools _ _ _ _ _ Hi) as (Ht & _). rewrite Ht.
      destruct (last (filter (λ x, d_name x = d_name e) entries)) as [e'|] eqn:Hl.
      * apply last_Some_elem_of, list_elem_of_filter in Hl as [Hn Hin]. by exists e'.
      * apply last_None in Hl. exfalso. assert (Hin : e ∈ filter (λ x, d_name x = d_name e) entries) by (by apply list_elem_of_filter).
        rewrite Hl in Hin. by apply elem_of_nil in Hin.
    + left. split; [by eapply install_error_keeps|by eexists].
Qed.

(** A listing forgets what was installed: the new catalog is made of the
    files alone, which an installation does not change. *)
Lemma refresh_forgets fs extra c c' : list_installed_plugin_ids fs = Ok [] →
  refresh_from_codex fs extra c = refresh_from_codex fs extra c' ∧ deferred (refresh_from_codex fs extra c).1 = [].
Proof. intros Hl. unfold refresh_from_codex. by rewrite Hl. Qed.
End Asked.

(** An offer that has no manifest of its own points at its marketplace's
    directory, which cannot be read: it fails after the user has agreed. *)
Lemma offer_without_manifest_fails `{Process} `{Surroundings} fs e c :
  local_path (me_source e) = None → is_dir fs (me_marketplace_root e) = true → find_plugin (plugin_id e) c = Some (offered fs e) →
  ∃ m, install_plugin fs (plugin_id e) c = (c, Err m).
Proof.
  intros Hl Hd Hf. unfold install_plugin. rewrite Hf. unfold offered. rewrite Hl. cbn. unfold read_text, read_to_string.
  unfold is_dir in Hd. apply bool_decide_eq_true in Hd. rewrite Hd. cbn. by eexists.
Qed.

(** ** Concrete runs *)
Module Run.
#[local] Existing Instance Address.ascii_unicode.
Definition child (d l : list str) : option str :=
  match last l with Some n => if bool_decide (l = d ++ [n]) then Some n else None | None => None end.
Lemma child_spec d l n : child d l = Some n ↔ l = d ++ [n].
Proof.
  unfold child. split.
  - destruct (last l) as [m|]; [|done]. case_bool_decide; [|done]. by intros [= <-].
  - intros ->. rewrite last_snoc. by rewrite bool_decide_true.
Qed.
Definition names_in (fs : FileSystem) (d : list str) : list str := elements (list_to_set (omap (child d) (map_to_list fs).*1) : gset str).
Lemma names_in_spec fs d : NoDup (names_in fs d) ∧ ∀ n, n ∈ names_in fs d ↔ is_Some (fs !! (d ++ [n])).
Proof.
  split; [apply NoDup_elements|]. intros n. unfold names_in. rewrite elem_of_elements, elem_of_list_to_set, list_elem_of_omap. split.
  - intros (l & ([l' x] & Hl' & Hl)%list_elem_of_fmap & Hc%child_spec). cbn in Hl'. subst l l'. apply elem_of_map_to_list in Hl. by eexists.
  - intros [x Hx]. exists (d ++ [n]). split; [|by apply child_spec]. apply list_elem_of_fmap. exists (d ++ [n], x). split; [done|]. by apply elem_of_map_to_list.
Qed.
#[export] Program Instance process : Process := {| working_directory := []; max_links := 8 |}.
#[export] Program Instance surroundings : Surroundings := {|
  variable v := if bool_decide (v = lit "HOME") then Some (lit "/home") else None;
  read_dir fs d := Ok (names_in fs d); io_error _ := lit "io"; path_text _ := []; path_debug _ := []; from_str _ := Err [];
  manifest_from_str raw := if bool_decide (raw = lit "demo")
    then Ok (mk_manifest (lit "demo@dev") (lit "Demo") None None false [] [] [mk_tool_def (lit "demo_tool") (lit "says hello") Null true]) else Err [];
  to_string_pretty _ := []; debug_text t := t |}.
Next Obligation. intros fs d ns [= <-]. apply names_in_spec. Qed.
(** A plugin in a plain directory. *)
Definition files : FileSystem :=
  list_to_map [([lit "home"], Dir); ([lit "home"; lit ".codex"], Dir); ([lit "home"; lit ".codex"; lit "plugins"], Dir);
    ([lit "home"; lit ".codex"; lit "plugins"; lit "demo"], Dir);
    ([lit "home"; lit ".codex"; lit "plugins"; lit "demo"; lit "plugin.json"], File (lit "demo"))].
Definition listed : ToolCatalog := (refresh_from_codex files [] new_tool_catalog).1.
Definition installed : ToolCatalog := (install_plugin files (lit "demo@dev") listed).1.
Definition args (_ : Value) : Result RequestPluginInstallArgs str :=
  Ok (mk_install_args (lit "demo@dev") None None (Some (lit "to say hello"))).
Definition ln (x : float) : float := f64_sub x (f64_of_Z 1).
Notation request := (request_plugin_install_impl args (λ _, []) id (λ c _, c) (λ _, files) (λ _ _ _ w, (w, Ok true)) Null listed).

(** The plugin is offered; once installed its tool is found; after the next
    listing it is not, and the plugin is offered again. *)
Example installed_then_forgotten :
  dp_id <$> list_installable listed = [lit "demo@dev"] ∧
  d_name <$> search ln (lit "hello") 8 installed = [lit "demo_tool"] ∧ list_installable installed = [] ∧
  search ln (lit "hello") 8 (refresh_from_codex files [] installed).1 = [] ∧
  dp_id <$> list_installable (refresh_from_codex files [] installed).1 = [lit "demo@dev"].
Proof. vm_compute. done. Qed.
End Run.

#[local] Existing Instances Address.ascii_unicode Run.process Run.surroundings.
Lemma search_finds_best_witness :
  (length (search Run.ln (lit "hello") 8 Run.installed) <= 8)%nat ∧ search Run.ln (lit "hello") 8 Run.installed ≠ [].
Proof.
  split; [|vm_compute; done].
  destruct (search_finds_best Run.ln (lit "hello") 8 Run.installed) as (hits & rest & -> & _ & Hl & _); [vm_compute; by repeat constructor|].
  by rewrite length_fmap.
Defined.
Lemma catalog_well_formed_witness : well_formed Run.installed.
Proof.
  apply (catalog_well_formed Run.installed).
  eapply rtc_l; [apply (step_refresh Run.files [] new_tool_catalog)|]. eapply rtc_l; [apply (step_install Run.files (lit "demo@dev"))|]. apply rtc_refl.
Defined.
Lemma install_needs_consent_witness :
  ∃ t, request_plugin_install_impl Run.args (λ _, []) id (λ c _, c) (λ _, Run.files) (λ _ _ _ w, (w, Ok true)) Null Run.listed =
         (Run.installed, Ok (result_ok t)) ∧ lit "demo@dev" ∈ installed_plugin_ids Run.installed.
Proof.
  exists []. destruct (install_needs_consent Run.args (λ _, []) id (λ c _, c) (λ _, Run.files) (λ _ _ _ w, (w, Ok true)) (λ _ _, eq_refl) Null
    Run.listed Run.installed (Ok (result_ok []))) as [[Hw [m Hm]]|(id & reason & plugin & w1 & a & Hf & Hid & _ & _ & Ha & _ & Hy)];
    [vm_compute; reflexivity|done|].
  split; [vm_compute; reflexivity|]. injection Ha as <- <-. destruct (Hy eq_refl) as [[_ [m Hm]]|(es & Hi & _ & _)]; [done|].
  vm_compute in Hi. vm_compute. done.
Defined.
