(* ===== verification/HostTools.v ===== *)
(** * The session's tools

    Models [session_input.rs], [handlers/plan.rs], [handlers/session.rs] and
    the sessions of [context.rs] in crates/pulsing-forge/src: what a host
    offers to the tools, the session that is kept in memory, and the tools
    that keep a plan, ask the user and look at the context. *)
From S2P Require Import Prelude Text Json Approval Registry Output.

(** ** Plans *)
(** src: crates/pulsing-forge/src/context.rs 20-27 StepStatus *)
Inductive StepStatus := Pending | InProgress | Completed.
#[export] Instance StepStatus_eq_dec : EqDecision StepStatus.
Proof. solve_decision. Defined.
(** src: crates/pulsing-forge/src/context.rs 29-36 PlanItem *)
Record PlanItem := mk_item { step : str; status : StepStatus }.
(** src: crates/pulsing-forge/src/context.rs 38-46 UpdatePlanArgs *)
Record UpdatePlanArgs := mk_plan_args { explanation : option str; plan : list PlanItem }.

(** ** What a host offers *)
(** src: crates/pulsing-forge/src/context.rs 48-103 ToolSession *)
Class ToolSession (S : Type) := {
  update_plan : UpdatePlanArgs → S → S * Result unit ToolError;
  request_new_context : S → S * Result unit ToolError;
  tokens_remaining : S → option Z;
  request_user_input : Value → S → S * Result Value ToolError;
  on_exec_output_delta : ExecOutputDelta → S → S * Result unit ToolError;
  session_approval_policy : S → ApprovalPolicy;
  ask_exec_approval : ExecApprovalRequest → S → S * Result ReviewDecision ToolError;
  ask_permissions : RequestPermissionProfile → S → S * Result RequestPermissionsResponse ToolError;
  ask_plugin_install : str → str → str → S → S * Result bool ToolError
}.
Definition not_configured {A} (what : string) : Result A ToolError :=
  Err (RespondToModel (lit what ++ lit " is not configured on this ToolSession")).
Definition or_not_configured {A B S} (what : string) (f : option (A → Result B ToolError)) (a : A) (s : S) : S * Result B ToolError :=
  (s, match f with Some f => f a | None => not_configured what end).

(** src: crates/pulsing-forge/src/context.rs 160-181 LocalToolSession *)
Record LocalToolSession := mk_local {
  ls_plan : list PlanItem; ls_new_context_requested : bool; ls_tokens_remaining : option Z;
  ls_user_input : option (Value → Result Value ToolError); ls_exec_deltas : list ExecOutputDelta;
  ls_exec_approval : option (ExecApprovalRequest → Result ReviewDecision ToolError);
  ls_permissions : option (RequestPermissionProfile → Result RequestPermissionsResponse ToolError);
  ls_plugin_install : option (str * str * str → Result bool ToolError); ls_approval_policy : ApprovalPolicy }.
(** src: crates/pulsing-forge/src/context.rs 184-196 LocalToolSession::default *)
Definition local_default : LocalToolSession := mk_local [] false None None [] None None None OnRequest.
(** src: crates/pulsing-forge/src/context.rs 200-205 LocalToolSession::new *)
Definition LocalToolSession_new (tokens : option Z) : LocalToolSession := mk_local [] false tokens None [] None None None OnRequest.
(** src: crates/pulsing-forge/src/context.rs 207-213 LocalToolSession::with_user_input *)
Definition with_user_input (f : Value → Result Value ToolError) (s : LocalToolSession) : LocalToolSession :=
  mk_local (ls_plan s) (ls_new_context_requested s) (ls_tokens_remaining s) (Some f) (ls_exec_deltas s) (ls_exec_approval s)
    (ls_permissions s) (ls_plugin_install s) (ls_approval_policy s).
(** src: crates/pulsing-forge/src/context.rs 215-221 LocalToolSession::with_exec_approval *)
Definition with_exec_approval (f : ExecApprovalRequest → Result ReviewDecision ToolError) (s : LocalToolSession) : LocalToolSession :=
  mk_local (ls_plan s) (ls_new_context_requested s) (ls_tokens_remaining s) (ls_user_input s) (ls_exec_deltas s) (Some f)
    (ls_permissions s) (ls_plugin_install s) (ls_approval_policy s).
(** src: crates/pulsing-forge/src/context.rs 223-232 LocalToolSession::with_request_permissions *)
Definition with_request_permissions (f : RequestPermissionProfile → Result RequestPermissionsResponse ToolError) (s : LocalToolSession) : LocalToolSession :=
  mk_local (ls_plan s) (ls_new_context_requested s) (ls_tokens_remaining s) (ls_user_input s) (ls_exec_deltas s) (ls_exec_approval s)
    (Some f) (ls_plugin_install s) (ls_approval_policy s).
(** src: crates/pulsing-forge/src/context.rs 234-240 LocalToolSession::with_plugin_install *)
Definition with_plugin_install (f : str * str * str → Result bool ToolError) (s : LocalToolSession) : LocalToolSession :=
  mk_local (ls_plan s) (ls_new_context_requested s) (ls_tokens_remaining s) (ls_user_input s) (ls_exec_deltas s) (ls_exec_approval s)
    (ls_permissions s) (Some f) (ls_approval_policy s).
(** src: crates/pulsing-forge/src/context.rs 242-245 LocalToolSession::with_approval_policy *)
Definition with_approval_policy (p : ApprovalPolicy) (s : LocalToolSession) : LocalToolSession :=
  mk_local (ls_plan s) (ls_new_context_requested s) (ls_tokens_remaining s) (ls_user_input s) (ls_exec_deltas s) (ls_exec_approval s)
    (ls_permissions s) (ls_plugin_install s) p.
(** src: crates/pulsing-forge/src/context.rs 261-264 LocalToolSession::update_plan *)
Definition local_update_plan (args : UpdatePlanArgs) (s : LocalToolSession) : LocalToolSession * Result unit ToolError :=
  (mk_local (plan args) (ls_new_context_requested s) (ls_tokens_remaining s) (ls_user_input s) (ls_exec_deltas s) (ls_exec_approval s)
     (ls_permissions s) (ls_plugin_install s) (ls_approval_policy s), Ok tt).
(** src: crates/pulsing-forge/src/context.rs 266-269 LocalToolSession::request_new_context *)
Definition local_request_new_context (s : LocalToolSession) : LocalToolSession * Result unit ToolError :=
  (mk_local (ls_plan s) true (ls_tokens_remaining s) (ls_user_input s) (ls_exec_deltas s) (ls_exec_approval s)
     (ls_permissions s) (ls_plugin_install s) (ls_approval_policy s), Ok tt).
(** src: crates/pulsing-forge/src/context.rs 287-290 LocalToolSession::on_exec_output_delta *)
Definition local_on_exec_output_delta (d : ExecOutputDelta) (s : LocalToolSession) : LocalToolSession * Result unit ToolError :=
  (mk_local (ls_plan s) (ls_new_context_requested s) (ls_tokens_remaining s) (ls_user_input s) (ls_exec_deltas s ++ [d]) (ls_exec_approval s)
     (ls_permissions s) (ls_plugin_install s) (ls_approval_policy s), Ok tt).
(** src: crates/pulsing-forge/src/context.rs 260-333 LocalToolSession (ToolSession) *)
Definition local_session : ToolSession LocalToolSession := {|
  update_plan := local_update_plan;
  request_new_context := local_request_new_context;
  tokens_remaining := ls_tokens_remaining;
  request_user_input v s := or_not_configured "request_user_input" (ls_user_input s) v s;
  on_exec_output_delta := local_on_exec_output_delta;
  session_approval_policy := ls_approval_policy;
  ask_exec_approval r s := or_not_configured "exec approval" (ls_exec_approval s) r s;
  ask_permissions p s := or_not_configured "request_permissions" (ls_permissions s) p s;
  ask_plugin_install id n reason s := or_not_configured "request_plugin_install" (ls_plugin_install s) (id, n, reason) s
|}.
#[export] Existing Instance local_session.
(** A session of a host that does not care, with the defaults of the trait.
    src: crates/pulsing-forge/src/context.rs 335-359 NullToolSession (ToolSession) *)
Inductive NullToolSession := null_session.
#[export] Instance null_tool_session : ToolSession NullToolSession := {|
  update_plan _ s := (s, Ok tt);
  request_new_context s := (s, Ok tt);
  tokens_remaining _ := None;
  request_user_input _ s := (s, Err (RespondToModel (lit "request_user_input is not available in this runtime")));
  on_exec_output_delta _ s := (s, Ok tt);
  session_approval_policy _ := OnRequest;
  ask_exec_approval _ s := (s, not_configured "exec approval");
  ask_permissions _ s := (s, not_configured "request_permissions");
  ask_plugin_install _ _ _ s := (s, not_configured "request_plugin_install")
|}.

(** ** Questions to the user *)
(** src: crates/pulsing-forge/src/session_input.rs 7-8 MIN_AUTO_RESOLUTION_MS *)
Definition min_auto_resolution_ms : Z := 60000.
Definition max_auto_resolution_ms : Z := 240000.
(** src: crates/pulsing-forge/src/session_input.rs 10-14 RequestUserInputQuestionOption *)
Record RequestUserInputQuestionOption := mk_option { o_label : str; o_description : str }.
(** src: crates/pulsing-forge/src/session_input.rs 16-27 RequestUserInputQuestion *)
Record RequestUserInputQuestion := mk_question {
  q_id : str; q_header : str; q_question : str; q_is_other : bool; q_is_secret : bool; q_options : option (list RequestUserInputQuestionOption) }.
(** src: crates/pulsing-forge/src/session_input.rs 29-38 RequestUserInputArgs *)
Record RequestUserInputArgs := mk_input { questions : list RequestUserInputQuestion; auto_resolution_ms : option Z }.

(** src: crates/pulsing-forge/src/session_input.rs 147-149 normalize_auto_resolution_ms *)
Definition normalize_auto_resolution_ms (ms : Z) : Z := Z.min (Z.max ms min_auto_resolution_ms) max_auto_resolution_ms.
(** src: crates/pulsing-forge/src/session_input.rs 151-156 normalize_request_user_input *)
Definition normalize_request_user_input (a : RequestUserInputArgs) : RequestUserInputArgs :=
  mk_input (questions a) (normalize_auto_resolution_ms <$> auto_resolution_ms a).
(** src: crates/pulsing-forge/src/session_input.rs 115-125 normalize_request_user_input_strings *)
Definition normalize_question (q : RequestUserInputQuestion) : RequestUserInputQuestion :=
  mk_question (trim (q_id q)) (q_header q) (trim (q_question q)) (q_is_other q) (q_is_secret q)
    (option_map (map (λ o, mk_option (trim (o_label o)) (o_description o))) (q_options q)).

Section Input.
(** [serde_json::from_value], and the debug forms of texts and values. *)
Context (input_from_value : Value → Result RequestUserInputArgs str) (debug_text : str → str) (debug_value : Value → str).

(** src: crates/pulsing-forge/src/session_input.rs 127-145 parse_auto_resolution_ms *)
Definition parse_auto_resolution_ms (value : Value) : Result (option Z) ToolError :=
  let raw := match get (lit "autoResolutionMs") value with Some r => Some r | None => get (lit "auto_resolution_ms") value end in
  match raw with
  | None => Ok None
  | Some raw =>
      match as_u64 raw with
      | Some ms => Ok (Some (normalize_auto_resolution_ms ms))
      | None => Err (RespondToModel (lit "autoResolutionMs must be an integer, got " ++ debug_value raw))
      end
  end.
Definition no_questions : str := lit "request_user_input requires at least one question".
(** src: crates/pulsing-forge/src/session_input.rs 43-64 validate_request_user_input (shape) *)
Definition check_shape (value : Value) : Result unit ToolError :=
  match get (lit "questions") value with
  | None => Err (RespondToModel no_questions)
  | Some (Array []) => Err (RespondToModel no_questions)
  | Some (Array items) =>
      if forallb (λ i, bool_decide (is_Some (as_object i))) items then Ok tt else Err (RespondToModel (lit "each question must be an object"))
  | Some _ => Err (RespondToModel (lit "field 'questions' must be a list"))
  end.
(** src: crates/pulsing-forge/src/session_input.rs 68-72 validate_request_user_input (cleaned) *)
Definition cleaned (value : Value) : Value :=
  match value with
  | Object m => Object (filter (λ kv, kv.1 ≠ lit "autoResolutionMs" ∧ kv.1 ≠ lit "auto_resolution_ms") m)
  | v => v
  end.
Definition question_error (q : RequestUserInputQuestion) (what : string) : ToolError :=
  RespondToModel (lit "question " ++ debug_text (q_id q) ++ lit what).
(** src: crates/pulsing-forge/src/session_input.rs 79-110 validate_request_user_input (one question) *)
Definition check_question (seen : gset str) (q : RequestUserInputQuestion) : Result unit ToolError :=
  if bool_decide (q_id q = []) then Err (RespondToModel (lit "each question requires a non-empty id"))
  else if bool_decide (q_question q = []) then Err (question_error q " requires non-empty question text")
  else if bool_decide (q_id q ∈ seen) then Err (RespondToModel (lit "duplicate question id " ++ debug_text (q_id q)))
  else
    match q_options q with
    | Some [] => Err (question_error q " has empty options array")
    | Some opts => if existsb (λ o, bool_decide (o_label o = [])) opts then Err (question_error q " has option with empty label") else Ok tt
    | None => Ok tt
    end.
Fixpoint check_questions (seen : gset str) (qs : list RequestUserInputQuestion) : Result unit ToolError :=
  match qs with
  | [] => Ok tt
  | q :: qs => let? _ := check_question seen q in check_questions ({[q_id q]} ∪ seen) qs
  end.
(** src: crates/pulsing-forge/src/session_input.rs 40-113 validate_request_user_input *)
Definition validate_request_user_input (value : Value) : Result RequestUserInputArgs ToolError :=
  let? _ := check_shape value in
  let? ms := parse_auto_resolution_ms value in
  match input_from_value (cleaned value) with
  | Err e => Err (RespondToModel (lit "invalid request_user_input arguments: " ++ e))
  | Ok args =>
      let args := mk_input (normalize_question <$> questions args) ms in
      let? _ := check_questions ∅ (questions args) in
      Ok args
  end.

(** The derived serializer, with the names and the omissions of the
    attributes.
    src: crates/pulsing-forge/src/session_input.rs 16-38 RequestUserInputQuestion (Serialize) *)
Definition question_value (q : RequestUserInputQuestion) : Value :=
  json ([("id", Text (q_id q)); ("header", Text (q_header q)); ("question", Text (q_question q));
         ("isOther", Boolean (q_is_other q)); ("isSecret", Boolean (q_is_secret q))]%string
        ++ match q_options q with
           | Some os => [("options"%string, Array ((λ o, json [("label", Text (o_label o)); ("description", Text (o_description o))]%string) <$> os))]
           | None => []
           end).
(** src: crates/pulsing-forge/src/session_input.rs 158-160 args_to_value *)
Definition args_to_value (a : RequestUserInputArgs) : Value :=
  json ([("questions"%string, Array (question_value <$> questions a))]
        ++ match auto_resolution_ms a with Some ms => [("autoResolutionMs"%string, Number (display_u128 ms))] | None => [] end).
(** src: crates/pulsing-forge/src/session_input.rs 165-170 default_auto_answers (one question) *)
Definition default_answer (q : RequestUserInputQuestion) : str := default [] (o_label <$> (q_options q ≫= head)).
(** src: crates/pulsing-forge/src/session_input.rs 162-177 default_auto_answers *)
Definition default_auto_answers (a : RequestUserInputArgs) : Value :=
  let answers := foldl (λ m q, member_insert (q_id q) (json [("answers", Array [Text (default_answer q)])]%string) m) [] (questions a) in
  json [("answers", Object answers)]%string.

(** ** The tools *)
Context {S : Type} `{ToolSession S}.
Context (plan_from_value : Value → Result UpdatePlanArgs str) (to_string_pretty : Value → str).

(** src: crates/pulsing-forge/src/handlers/session.rs 89-98 request_user_input_impl *)
Definition request_user_input_impl (arguments : Value) (s : S) : S * Result ToolResult ToolError :=
  match validate_request_user_input arguments with
  | Err e => (s, Err e)
  | Ok validated =>
      match request_user_input (args_to_value validated) s with
      | (s, Err e) => (s, Err e)
      | (s, Ok response) => (s, Ok (result_ok (to_string_pretty response)))
      end
  end.
(** src: crates/pulsing-forge/src/handlers/session.rs 10-14 NEW_CONTEXT_MESSAGE *)
Definition new_context_message : str := lit "A new context window will start without summarizing conversation history.".
(** The grants of the turn are forgotten before the host is asked.
    src: crates/pulsing-forge/src/handlers/session.rs 32-36 new_context_impl *)
Definition new_context_tool (g : Gate) (s : S) : Gate * S * Result ToolResult ToolError :=
  let g := new_context_impl g in
  match request_new_context s with
  | (s, Err e) => (g, s, Err e)
  | (s, Ok _) => (g, s, Ok (result_ok new_context_message))
  end.
Definition number_text (n : Z) : str := if n <? 0 then 45 :: display_u128 (- n) else display_u128 n.
(** src: crates/pulsing-forge/src/handlers/session.rs 54-71 get_context_remaining_impl *)
Definition get_context_remaining_impl (s : S) : ToolResult :=
  result_ok (to_string_pretty
    match tokens_remaining s with
    | Some n => json [("tokens_remaining", Number (number_text n)); ("status", text "ok")]%string
    | None => json [("tokens_remaining", Null); ("status", text "unknown")]%string
    end).

(** The steps of a plan that are under way. *)
Definition active_steps (p : list PlanItem) : nat := length (filter (λ i, status i = InProgress) p).
(** src: crates/pulsing-forge/src/handlers/plan.rs 29-45 validate_update_plan *)
Definition validate_update_plan (value : Value) : Result UpdatePlanArgs ToolError :=
  match plan_from_value value with
  | Err e => Err (RespondToModel (lit "failed to parse update_plan arguments: " ++ e))
  | Ok args =>
      if (1 <? active_steps (plan args))%nat
      then Err (RespondToModel (lit "update_plan allows at most one step with status " ++ [34] ++ lit "in_progress" ++ [34]))
      else Ok args
  end.
(** src: crates/pulsing-forge/src/handlers/plan.rs 47-54 update_plan_impl *)
Definition update_plan_impl (arguments : Value) (s : S) : S * Result ToolResult ToolError :=
  match validate_update_plan arguments with
  | Err e => (s, Err e)
  | Ok args =>
      match update_plan args s with
      | (s, Err e) => (s, Err e)
      | (s, Ok _) => (s, Ok (result_ok (lit "Plan updated")))
      end
  end.
End Input.

(** ** What the tools guarantee *)
Definition well_asked (q : RequestUserInputQuestion) : Prop :=
  q_id q ≠ [] ∧ q_question q ≠ [] ∧ normalize_question q = q ∧
  match q_options q with Some os => os ≠ [] ∧ Forall (λ o, o_label o ≠ []) os | None => True end.
Lemma drop_while_split f s : ∃ p, s = p ++ drop_while f s.
Proof. induction s as [|c s [p IH]]; [by exists []|]. simpl. destruct (f c); [exists (c :: p); by rewrite IH at 1|by exists []]. Qed.
Lemma drop_while_stops f s c : head (drop_while f s) = Some c → f c = false.
Proof. induction s as [|d s IH]; [done|]. simpl. destruct (f d) eqn:Hd; [done|]. by intros [= <-]. Qed.
Lemma trim_idemp s : trim (trim s) = trim s.
Proof.
  unfold trim at 2 3. unfold trim_matches. set (u := drop_while is_whitespace s). set (t := drop_while is_whitespace (reverse u)).
  destruct (head (reverse t)) as [c|] eqn:Hc; [|by destruct (reverse t)].
  destruct (last (reverse t)) as [d|] eqn:Hd; [|apply last_None in Hd; by rewrite Hd in Hc].
  assert (Hwd : is_whitespace d = false).
  { rewrite last_reverse in Hd. by apply drop_while_stops in Hd. }
  assert (Hwc : is_whitespace c = false).
  { destruct (drop_while_split is_whitespace (reverse u)) as [p Hp]. fold t in Hp.
    assert (Hu : u = reverse t ++ reverse p) by (rewrite <- (reverse_involutive u), Hp; by rewrite reverse_app).
    apply (drop_while_stops is_whitespace s). fold u. rewrite Hu. by destruct (reverse t). }
  exact (trim_matches_id is_whitespace (reverse t) c d Hc Hd Hwc Hwd).
Qed.
Lemma normalize_question_idemp q : normalize_question (normalize_question q) = normalize_question q.
Proof.
  unfold normalize_question. cbn [q_id q_header q_question q_is_other q_is_secret q_options]. rewrite !trim_idemp. f_equal.
  destruct (q_options q) as [os|]; [|done]. cbn [option_map]. f_equal. rewrite map_map. apply map_ext. intros o. cbn [o_label o_description]. by rewrite trim_idemp.
Qed.
Lemma normalize_ms_bounds ms : min_auto_resolution_ms <= normalize_auto_resolution_ms ms <= max_auto_resolution_ms.
Proof. unfold normalize_auto_resolution_ms, min_auto_resolution_ms, max_auto_resolution_ms. lia. Qed.
Lemma member_filter (P : str * Value → Prop) `{∀ x, Decision (P x)} k m :
  (∀ v, P (k, v)) → member k (filter P m) = member k m.
Proof.
  intros HP. induction m as [|[l v] m IH]; [done|]. rewrite filter_cons. cbn [member]. case_bool_decide as Hk.
  - subst l. rewrite decide_True by done. cbn. by rewrite bool_decide_true.
  - case_decide; [|done]. cbn. by rewrite bool_decide_false.
Qed.

Section Asked.
Context (input_from_value : Value → Result RequestUserInputArgs str) (debug_text : str → str) (debug_value : Value → str).
Notation validate := (validate_request_user_input input_from_value debug_text debug_value).
Notation check := (check_questions debug_text).

Lemma check_question_spec seen q :
  normalize_question q = q → check_question debug_text seen q = Ok tt ↔ well_asked q ∧ q_id q ∉ seen.
Proof.
  intros Hn. unfold check_question, well_asked. split.
  - case_bool_decide; [done|]. case_bool_decide; [done|]. case_bool_decide; [done|]. intros Ho. split_and!; try done.
    destruct (q_options q) as [[|o os]|]; [done| |done]. split; [done|]. destruct (existsb _ _) eqn:He; [done|].
    apply Forall_forall. intros o' Hin Hl. apply not_true_iff_false in He. apply He. apply existsb_exists. exists o'. split; [by apply list_elem_of_In|by apply bool_decide_eq_true].
  - intros ((H1 & H2 & _ & H4) & H3). rewrite !bool_decide_false by done. destruct (q_options q) as [[|o os]|]; [by destruct H4| |done].
    destruct (existsb _ _) eqn:He; [|done]. apply existsb_exists in He as (o' & Hin & Hl). apply bool_decide_eq_true in Hl. destruct H4 as [_ H4].
    rewrite Forall_forall in H4. exfalso. by apply (H4 o'); [apply list_elem_of_In|].
Qed.
Lemma check_questions_spec seen qs :
  Forall (λ q, normalize_question q = q) qs →
  check seen qs = Ok tt ↔ Forall well_asked qs ∧ NoDup (q_id <$> qs) ∧ Forall (λ q, q_id q ∉ seen) qs.
Proof.
  intros Hn. revert seen. induction Hn as [|q qs Hq _ IH]; intros seen; cbn [check_questions].
  { split; [|done]. intros _. split_and!; constructor. }
  pose proof (check_question_spec seen q Hq) as Hc. destruct (check_question debug_text seen q) as [[]|e] eqn:Ho; cbn [and_then].
  - destruct Hc as [Hc _]. destruct (Hc eq_refl) as [Hw Hs]. rewrite IH. cbn. rewrite NoDup_cons, !Forall_cons. split.
    + intros (H1 & H2 & H3). split_and!; [done|done| |done|done|].
      * intros (x & Hx & Hin)%list_elem_of_fmap. rewrite Forall_forall in H3. apply (H3 x Hin). set_solver.
      * eapply Forall_impl; [exact H3|]. set_solver.
    + intros ([_ H1] & [H2 H2'] & [_ H3]). split_and!; [done|done|]. rewrite Forall_forall in H3 |- *. intros x Hin. specialize (H3 x Hin).
      rewrite not_elem_of_union, not_elem_of_singleton. split; [|done]. intros Hx. apply H2. rewrite <- Hx. by apply list_elem_of_fmap_2.
  - split; [done|]. rewrite !Forall_cons. intros ([H1 _] & _ & [H3 _]). exfalso. destruct Hc as [_ Hc]. by discriminate Hc.
Qed.
(** Questions that may be put to the user. *)
Definition well_formed_input (a : RequestUserInputArgs) : Prop :=
  questions a ≠ [] ∧ Forall well_asked (questions a) ∧ NoDup (q_id <$> questions a) ∧
  match auto_resolution_ms a with Some ms => min_auto_resolution_ms <= ms <= max_auto_resolution_ms | None => True end.

(** What serde does: it reads one question for each element of the list, and
    reads back what it writes. *)
Hypothesis one_each : ∀ v items a, get (lit "questions") v = Some (Array items) → input_from_value v = Ok a → length (questions a) = length items.
Hypothesis reads_back : ∀ a, auto_resolution_ms a = None → input_from_value (args_to_value a) = Ok a.

Lemma normalized_questions qs : Forall (λ q, normalize_question q = q) (normalize_question <$> qs).
Proof. apply Forall_fmap, Forall_forall. intros q _. apply normalize_question_idemp. Qed.
Lemma and_then_ok {A B E} (r : Result A E) (k : A → Result B E) b : and_then r k = Ok b → ∃ a, r = Ok a ∧ k a = Ok b.
Proof. destruct r; [by eexists|done]. Qed.
Lemma validated v a : validate v = Ok a → well_formed_input a.
Proof.
  intros Hv. unfold validate_request_user_input in Hv. apply and_then_ok in Hv as ([] & Hs & Hv). apply and_then_ok in Hv as (ms & Hms & Hv).
  destruct (input_from_value (cleaned v)) as [a0|] eqn:Hf; [|done]. apply and_then_ok in Hv as ([] & Hc & Hv). injection Hv as <-. cbn [questions] in Hc.
  apply check_questions_spec in Hc as (Hw & Hd & _); [|apply normalized_questions]. unfold well_formed_input. cbn [questions auto_resolution_ms]. split_and!; [|done|done|].
  - unfold check_shape in Hs. destruct (get (lit "questions") v) as [[| | | |items|]|] eqn:Hg; try done.
    intros Hn%fmap_nil_inv. enough (length (questions a0) = length items) as Hl; [by rewrite Hn in Hl; destruct items|].
    apply (one_each (cleaned v)); [|done]. destruct v as [| | | | |m]; try done. cbn in Hg |- *. rewrite member_filter; [done|]. done.
  - unfold parse_auto_resolution_ms in Hms. destruct (match get (lit "autoResolutionMs") v with Some r => Some r | None => get (lit "auto_resolution_ms") v end); [|by injection Hms as <-].
    destruct (as_u64 v0); [|done]. injection Hms as <-. apply normalize_ms_bounds.
Qed.
Lemma value_questions a : get (lit "questions") (args_to_value a) = Some (Array (question_value <$> questions a)).
Proof. unfold args_to_value. destruct (auto_resolution_ms a); reflexivity. Qed.
Lemma value_cleaned a : cleaned (args_to_value a) = args_to_value (mk_input (questions a) None).
Proof. unfold args_to_value. destruct (auto_resolution_ms a); reflexivity. Qed.

(** What is put to the user is well formed: there is a question, every
    question has an id of its own and a text, its options, when it has any,
    have labels, and the time after which it is answered without the user is
    between one minute and four. And it is stable: the arguments that are
    sent to the host are accepted again, and mean the same. *)
Theorem input_revalidates (v : Value) (a : RequestUserInputArgs) :
  validate v = Ok a → well_formed_input a ∧ validate (args_to_value a) = Ok a.
Proof.
  intros Hv. pose proof (validated v a Hv) as Hw. split; [done|]. destruct Hw as (Hq & Hw & Hd & Hms).
  assert (Hn : Forall (λ q, normalize_question q = q) (questions a)) by (eapply Forall_impl; [exact Hw|]; by intros q (_ & _ & ? & _)).
  assert (Hm : normalize_question <$> questions a = questions a).
  { clear -Hn. induction Hn as [|q qs H _ IH]; [done|]. by rewrite fmap_cons, H, IH. }
  unfold validate_request_user_input. unfold check_shape. rewrite value_questions. destruct (questions a) as [|q qs] eqn:Hqs; [done|].
  rewrite fmap_cons. rewrite <- fmap_cons, (proj2 (forallb_forall _ _)).
  2:{ intros x (q' & -> & _)%list_elem_of_In%list_elem_of_fmap. by apply bool_decide_eq_true. }
  cbn [and_then]. assert (Hp : parse_auto_resolution_ms debug_value (args_to_value a) = Ok (auto_resolution_ms a)).
  { unfold parse_auto_resolution_ms, args_to_value. destruct (auto_resolution_ms a) as [ms|]; [|reflexivity].
    change (match as_u64 (Number (display_u128 ms)) with Some ms0 => Ok (Some (normalize_auto_resolution_ms ms0)) | None => Err (RespondToModel (lit "autoResolutionMs must be an integer, got " ++ debug_value (Number (display_u128 ms)))) end = Ok (Some ms)).
    unfold min_auto_resolution_ms, max_auto_resolution_ms in Hms. cbn [as_u64]. rewrite parse_display_u64 by (unfold two64; lia).
    unfold normalize_auto_resolution_ms, min_auto_resolution_ms, max_auto_resolution_ms. repeat f_equal. lia. }
  rewrite Hp. cbn [and_then]. rewrite value_cleaned, reads_back by done. cbn [questions]. rewrite Hqs, Hm.
  rewrite (proj2 (check_questions_spec ∅ (q :: qs) Hn)); [|split_and!; [done|done|apply Forall_forall; intros; apply not_elem_of_empty]].
  cbn. rewrite <- Hqs. by destruct a.
Qed.
End Asked.

Module Reader.
Definition read_str (k : string) (v : Value) : str := default [] (get_str (lit k) v).
Definition read_bool (k : string) (v : Value) : bool := default false (get (lit k) v ≫= as_bool).
Definition read_option (v : Value) : RequestUserInputQuestionOption := mk_option (read_str "label" v) (read_str "description" v).
Definition read_question (v : Value) : RequestUserInputQuestion :=
  mk_question (read_str "id" v) (read_str "header" v) (read_str "question" v) (read_bool "isOther" v) (read_bool "isSecret" v)
    (option_map (map read_option) (get (lit "options") v ≫= as_array)).
Definition read_input (v : Value) : Result RequestUserInputArgs str :=
  Ok (mk_input (map read_question (default [] (get (lit "questions") v ≫= as_array))) None).
Lemma one_each v items a : get (lit "questions") v = Some (Array items) → read_input v = Ok a → length (questions a) = length items.
Proof. intros Hg. unfold read_input. rewrite Hg. intros [= <-]. apply length_map. Qed.
Lemma read_question_back q : read_question (question_value q) = q.
Proof.
  destruct q as [i h t o s [os|]]; [|reflexivity].
  transitivity (mk_question i h t o s (Some (map read_option ((λ o, json [("label", Text (o_label o)); ("description", Text (o_description o))]%string) <$> os)))); [reflexivity|].
  do 2 f_equal. induction os as [|[l d] os IH]; [done|]. rewrite fmap_cons. cbn [map]. by rewrite IH.
Qed.
Lemma reads_back a : auto_resolution_ms a = None → read_input (args_to_value a) = Ok a.
Proof.
  intros Ha. unfold read_input. rewrite value_questions. cbn [mbind option_bind as_array default]. destruct a as [qs ms]. cbn in Ha |- *. subst ms. do 2 f_equal.
  induction qs as [|q qs IH]; [done|]. rewrite fmap_cons. cbn [map]. by rewrite read_question_back, IH.
Qed.
End Reader.
Lemma input_revalidates_witness :
  let q := mk_question (lit "q") (lit "h") (lit "Which?") false false (Some [mk_option (lit "A") (lit "first")]) in
  let v := json [("questions", Array [question_value (mk_question (lit " q ") (lit "h") (lit " Which? ") false false (Some [mk_option (lit "A ") (lit "first")]))]);
                 ("auto_resolution_ms", Number (lit "5000"))]%string in
  validate_request_user_input Reader.read_input id (λ _, []) v = Ok (mk_input [q] (Some 60000)) ∧
  well_formed_input (mk_input [q] (Some 60000)) ∧
  default_auto_answers (mk_input [q] (Some 60000)) = json [("answers", json [("q", json [("answers", Array [text "A"])])])]%string.
Proof.
  intros q v. assert (Hv : validate_request_user_input Reader.read_input id (λ _, []) v = Ok (mk_input [q] (Some 60000))) by (vm_compute; reflexivity).
  split; [exact Hv|]. split; [|vm_compute; reflexivity].
  exact (proj1 (input_revalidates Reader.read_input id (λ _, []) Reader.one_each Reader.reads_back v _ Hv)).
Defined.

(** Plans: the plan of a session in memory never has two steps under way,
    whatever the model sends, one call after another; and a call that is
    refused leaves the plan as it was. *)
Theorem plan_has_one_active_step (plan_from_value : Value → Result UpdatePlanArgs str) (calls : list Value) (s : LocalToolSession) :
  (active_steps (ls_plan s) <= 1)%nat →
  (active_steps (ls_plan (foldl (λ s v, (update_plan_impl plan_from_value v s).1) s calls)) <= 1)%nat ∧
  ∀ v e, (update_plan_impl plan_from_value v s).2 = Err e → (update_plan_impl plan_from_value v s).1 = s.
Proof.
  intros Hs. split.
  - revert s Hs. induction calls as [|v calls IH]; intros s Hs; [done|]. cbn [foldl]. apply IH. unfold update_plan_impl, validate_update_plan.
    destruct (plan_from_value v) as [args|]; [|done]. destruct (Nat.ltb_spec 1 (active_steps (plan args))); [done|]. done.
  - intros v e. unfold update_plan_impl. destruct (validate_update_plan plan_from_value v); done.
Qed.
Lemma plan_has_one_active_step_witness :
  (active_steps (ls_plan (foldl (λ s v, (update_plan_impl (λ v, match v with Null => Ok (mk_plan_args None [mk_item [] InProgress]) | _ => Ok (mk_plan_args None [mk_item [] InProgress; mk_item [] InProgress]) end) v s).1)
     local_default [Null; Boolean true])) <= 1)%nat.
Proof. apply plan_has_one_active_step. vm_compute. lia. Defined.
