(* ===== verification/Shm.v ===== *)
(** * Shared-memory regions

    Models [system_actor/shm.rs] in crates/pulsing-actor/src: regions of
    bytes that are offered to one recipient or published under a name, the
    leases through which they are mapped, and their end. Every call is one
    critical section. Times are nanoseconds of the monotonic clock, whose
    range is a parameter. *)
From S2P Require Import Prelude Text Errors.

(** src: crates/pulsing-actor/src/system_actor/shm.rs 18-27 ShmBackend *)
Inductive ShmBackend := InProcess.
(** src: crates/pulsing-actor/src/system_actor/shm.rs 30-34 ShmBackend::as_str *)
Definition backend_as_str (b : ShmBackend) : str := match b with InProcess => lit "in_process" end.
(** src: crates/pulsing-actor/src/system_actor/shm.rs 37-48 ShmRegionDescriptor *)
Record ShmRegionDescriptor := mk_descriptor { region_id : Z; d_generation : Z; offset : Z; len : Z; lease_id : Z }.
(** src: crates/pulsing-actor/src/system_actor/shm.rs 50-57 ShmStats *)
Record ShmStats := mk_stats { st_regions : Z; st_published_regions : Z; st_active_leases : Z; st_bytes : Z }.
(** A lease ends at a time, or never.
    src: crates/pulsing-actor/src/system_actor/shm.rs 77-84 Region *)
Record Region := mk_region { generation : Z; bytes : list Z; published_name : option str; leases : gmap Z (option Z) }.
(** src: crates/pulsing-actor/src/system_actor/shm.rs 69-75 ShmState *)
Record ShmState := mk_shm { next_region_id : Z; next_lease_id : Z; regions : gmap Z Region; published_names : gmap str Z }.
(** src: crates/pulsing-actor/src/system_actor/shm.rs 87-89 ShmManager::new *)
Definition ShmManager_new : ShmState := mk_shm 0 0 ∅ ∅.
(** src: crates/pulsing-actor/src/system_actor/shm.rs 333-338 shm_error *)
Definition shm_error (m : str) : PulsingError := Runtime (Other (lit "Shared-memory error: " ++ m)).

(** [None]: the panic of an exhausted counter.
    src: crates/pulsing-actor/src/system_actor/shm.rs 300-305 next_id *)
Definition next_id (counter : Z) : option Z := if counter + 1 <? two64 then Some (counter + 1) else None.
Definition alive (now : Z) (expires_at : option Z) : bool := match expires_at with Some t => now <? t | None => true end.
Definition with_leases (ls : gmap Z (option Z)) (r : Region) : Region := mk_region (generation r) (bytes r) (published_name r) ls.
(** Neither leased nor published. *)
Definition idle (r : Region) : bool := bool_decide (leases r = ∅) && bool_decide (published_name r = None).
Definition reclaim_region (now : Z) (r : Region) : Region := with_leases (filter (λ kv, alive now kv.2 = true) (leases r)) r.
(** src: crates/pulsing-actor/src/system_actor/shm.rs 311-331 reclaim_expired_locked *)
Definition reclaim_expired_locked (now : Z) (s : ShmState) : ShmState * Z :=
  let kept := reclaim_region now <$> regions s in
  (mk_shm (next_region_id s) (next_lease_id s) (filter (λ kv, idle kv.2 = false) kept) (published_names s),
   map_fold (λ _ r n, Z.of_nat (size (leases r)) - Z.of_nat (size (leases (reclaim_region now r))) + n) 0 (regions s)).
Definition reclaimed (now : Z) (s : ShmState) : ShmState := (reclaim_expired_locked now s).1.

Section Shm.
(** The end of the clock's range. *)
Context (instant_max : Z).

(** src: crates/pulsing-actor/src/system_actor/shm.rs 307-309 deadline *)
Definition deadline (now ttl : Z) : option Z := if now + ttl <=? instant_max then Some (now + ttl) else None.
(** The clock is read twice: for the expired leases, and for the new one.
    src: crates/pulsing-actor/src/system_actor/shm.rs 95-123 ShmManager::offer *)
Definition offer (now later : Z) (b : list Z) (lease_ttl : Z) (s : ShmState) : option (ShmState * ShmRegionDescriptor) :=
  let s := reclaimed now s in
  rid ← next_id (next_region_id s);
  lid ← next_id (next_lease_id s);
  let d := mk_descriptor rid 1 0 (Z.of_nat (length b)) lid in
  Some (mk_shm rid lid (<[rid := mk_region 1 b None {[lid := deadline later lease_ttl]}]> (regions s)) (published_names s), d).
(** src: crates/pulsing-actor/src/system_actor/shm.rs 125-155 ShmManager::publish *)
Definition publish (now : Z) (name : str) (b : list Z) (s : ShmState) : option (ShmState * Result unit PulsingError) :=
  if bool_decide (name = []) then Some (s, Err (shm_error (lit "published region name must not be empty")))
  else
    let s := reclaimed now s in
    match published_names s !! name with
    | Some _ => Some (s, Err (shm_error (lit "shared-memory region '" ++ name ++ lit "' already exists")))
    | None =>
        rid ← next_id (next_region_id s);
        Some (mk_shm rid (next_lease_id s) (<[rid := mk_region 1 b (Some name) ∅]> (regions s)) (<[name := rid]> (published_names s)), Ok tt)
    end.
Definition not_found (name : str) : PulsingError := shm_error (lit "shared-memory region '" ++ name ++ lit "' was not found").
(** [None] is also the panic of a published region that is missing.
    src: crates/pulsing-actor/src/system_actor/shm.rs 157-178 ShmManager::open *)
Definition open (now later : Z) (name : str) (lease_ttl : Z) (s : ShmState) : option (ShmState * Result ShmRegionDescriptor PulsingError) :=
  let s := reclaimed now s in
  match published_names s !! name with
  | None => Some (s, Err (not_found name))
  | Some rid =>
      lid ← next_id (next_lease_id s);
      r ← regions s !! rid;
      let r' := with_leases (<[lid := deadline later lease_ttl]> (leases r)) r in
      Some (mk_shm (next_region_id s) lid (<[rid := r']> (regions s)) (published_names s),
            Ok (mk_descriptor rid (generation r) 0 (Z.of_nat (length (bytes r))) lid))
  end.
Definition set_regions (rs : gmap Z Region) (s : ShmState) : ShmState := mk_shm (next_region_id s) (next_lease_id s) rs (published_names s).
(** A region without a lease, and what becomes of it.
    src: crates/pulsing-actor/src/system_actor/shm.rs 228-235 ShmManager::release (lease) *)
Definition drop_lease (rid lid : Z) (r : Region) (s : ShmState) : ShmState :=
  let r' := with_leases (delete lid (leases r)) r in
  set_regions (if idle r' then delete rid (regions s) else <[rid := r']> (regions s)) s.
(** src: crates/pulsing-actor/src/system_actor/shm.rs 180-218 ShmManager::map *)
Definition map_region (now : Z) (d : ShmRegionDescriptor) (s : ShmState) : ShmState * Result (list Z) PulsingError :=
  match regions s !! region_id d with
  | None => (s, Err (shm_error (lit "shared-memory region is no longer available")))
  | Some r =>
      if bool_decide (generation r ≠ d_generation d) then (s, Err (shm_error (lit "stale shared-memory region descriptor")))
      else
        match leases r !! lease_id d with
        | None => (s, Err (shm_error (lit "shared-memory lease is no longer active")))
        | Some expires_at =>
            if alive now expires_at then
              let stop := offset d + len d in
              if two64 <=? stop then (s, Err (shm_error (lit "shared-memory descriptor range overflow")))
              else if Z.of_nat (length (bytes r)) <? stop then (s, Err (shm_error (lit "shared-memory descriptor range is invalid")))
              else (s, Ok (take (Z.to_nat (len d)) (drop (Z.to_nat (offset d)) (bytes r))))
            else (drop_lease (region_id d) (lease_id d) r s, Err (shm_error (lit "shared-memory lease has expired")))
        end
  end.
(** src: crates/pulsing-actor/src/system_actor/shm.rs 220-236 ShmManager::release *)
Definition release (d : ShmRegionDescriptor) (s : ShmState) : ShmState :=
  match regions s !! region_id d with
  | None => s
  | Some r => if bool_decide (generation r ≠ d_generation d) then s else drop_lease (region_id d) (lease_id d) r s
  end.
(** src: crates/pulsing-actor/src/system_actor/shm.rs 238-256 ShmManager::unpublish *)
Definition unpublish (name : str) (s : ShmState) : ShmState * Result unit PulsingError :=
  match published_names s !! name with
  | None => (s, Err (not_found name))
  | Some rid =>
      let names := delete name (published_names s) in
      match regions s !! rid with
      | None => (mk_shm (next_region_id s) (next_lease_id s) (regions s) names, Ok tt)
      | Some r =>
          let r' := mk_region (generation r) (bytes r) None (leases r) in
          let rs := if bool_decide (leases r = ∅) then delete rid (regions s) else <[rid := r']> (regions s) in
          (mk_shm (next_region_id s) (next_lease_id s) rs names, Ok tt)
      end
  end.
(** src: crates/pulsing-actor/src/system_actor/shm.rs 258-262 ShmManager::reclaim_expired *)
Definition reclaim_expired (now : Z) (s : ShmState) : ShmState * Z := reclaim_expired_locked now s.
(** src: crates/pulsing-actor/src/system_actor/shm.rs 264-281 ShmManager::stats *)
Definition stats (now : Z) (s : ShmState) : ShmState * ShmStats :=
  let s := reclaimed now s in
  (s, mk_stats (Z.of_nat (size (regions s))) (Z.of_nat (size (published_names s)))
        (map_fold (λ _ r n, Z.of_nat (size (leases r)) + n) 0 (regions s))
        (map_fold (λ _ r n, Z.of_nat (length (bytes r)) + n) 0 (regions s))).
(** src: crates/pulsing-actor/src/system_actor/shm.rs 283-291 ShmManager::clear *)
Definition clear (s : ShmState) : ShmState := mk_shm (next_region_id s) (next_lease_id s) ∅ ∅.

(** ** Runs *)
(** The calls, each with the time at which it comes. *)
Inductive Op :=
  | OpOffer (later : Z) (b : list Z) (ttl : Z) | OpPublish (name : str) (b : list Z) | OpOpen (later : Z) (name : str) (ttl : Z)
  | OpMap (d : ShmRegionDescriptor) | OpRelease (d : ShmRegionDescriptor) | OpUnpublish (name : str)
  | OpReclaim | OpStats | OpClear.
Definition step (now : Z) (op : Op) (s : ShmState) : option ShmState :=
  match op with
  | OpOffer later b ttl => fst <$> offer now later b ttl s
  | OpPublish name b => fst <$> publish now name b s
  | OpOpen later name ttl => fst <$> open now later name ttl s
  | OpMap d => Some (map_region now d s).1
  | OpRelease d => Some (release d s)
  | OpUnpublish name => Some (unpublish name s).1
  | OpReclaim => Some (reclaim_expired now s).1
  | OpStats => Some (stats now s).1
  | OpClear => Some (clear s)
  end.
Fixpoint run (ops : list (Z * Op)) (s : ShmState) : option ShmState :=
  match ops with
  | [] => Some s
  | (now, op) :: ops => s' ← step now op s; run ops s'
  end.

(** ** The state is well formed *)
Record shm_ok (s : ShmState) : Prop := {
  ok_named : ∀ n rid, published_names s !! n = Some rid ↔ ∃ r, regions s !! rid = Some r ∧ published_name r = Some n;
  ok_kept : ∀ rid r, regions s !! rid = Some r → generation r = 1 ∧ rid <= next_region_id s ∧ (published_name r = None → leases r ≠ ∅) ∧
              ∀ lid e, leases r !! lid = Some e → lid <= next_lease_id s
}.
Lemma idle_false r : idle r = false ↔ (published_name r = None → leases r ≠ ∅).
Proof. unfold idle. do 2 case_bool_decide; cbn; naive_solver. Qed.
Lemma reclaimed_lookup now s rid r' :
  regions (reclaimed now s) !! rid = Some r' ↔ ∃ r, regions s !! rid = Some r ∧ r' = reclaim_region now r ∧ idle r' = false.
Proof.
  unfold reclaimed, reclaim_expired_locked. cbn. rewrite map_lookup_filter_Some, lookup_fmap_Some. cbn. naive_solver.
Qed.
Lemma reclaimed_ok now s : shm_ok s → shm_ok (reclaimed now s).
Proof.
  intros [Hn Hk]. split.
  - intros n rid. cbn [published_names reclaimed reclaim_expired_locked fst]. rewrite Hn. split.
    + intros (r & Hr & Hp). exists (reclaim_region now r). split; [|done]. apply reclaimed_lookup. exists r. split_and!; [done|done|].
      apply idle_false. cbn. congruence.
    + intros (r' & (r & Hr & -> & _)%reclaimed_lookup & Hp). by exists r.
  - intros rid r' (r & Hr & -> & Hi)%reclaimed_lookup. destruct (Hk _ _ Hr) as (H1 & H2 & _ & H4). split_and!; [done|done|by apply idle_false|].
    intros lid e [He _]%map_lookup_filter_Some. by eapply H4.
Qed.
Lemma next_id_Some c n : next_id c = Some n → n = c + 1.
Proof. unfold next_id. case_match; [by intros [= <-]|done]. Qed.
Lemma drop_lease_ok rid lid r s : shm_ok s → regions s !! rid = Some r → shm_ok (drop_lease rid lid r s).
Proof.
  intros [Hn Hk] Hr. destruct (Hk _ _ Hr) as (H1 & H2 & _ & H4). unfold drop_lease. set (r' := with_leases _ r).
  destruct (idle r') eqn:Hi.
  - unfold idle in Hi. apply andb_true_iff in Hi as [_ Hp%bool_decide_eq_true]. split; cbn.
    + intros n x. rewrite Hn. split.
      * intros (q & Hq & Hqn). exists q. split; [|done]. rewrite lookup_delete_ne; [done|]. intros <-. cbn in Hp. congruence.
      * intros (q & [_ Hq]%lookup_delete_Some & Hqn). eauto.
    + intros x q [_ Hq]%lookup_delete_Some. eauto.
  - split; cbn.
    + intros n x. rewrite Hn. destruct (decide (x = rid)) as [->|Hne].
      * rewrite lookup_insert, decide_True by done. split; intros (q & Hq & Hqn).
        -- exists r'. split; [done|]. rewrite Hr in Hq. by injection Hq as <-.
        -- exists r. split; [done|]. by injection Hq as <-.
      * by rewrite lookup_insert_ne.
    + intros x q [[<- <-]|[Hne Hq]]%lookup_insert_Some; [|eauto]. split_and!; [done|done|by apply idle_false|].
      intros l e He. apply (lookup_delete_Some (leases r)) in He as [_ He]. eauto.
Qed.

Lemma insert_fresh_ok rid lid n r s :
  shm_ok s → rid = next_region_id s + 1 → next_lease_id s <= lid → generation r = 1 → (published_name r = None → leases r ≠ ∅) →
  (∀ l e, leases r !! l = Some e → l <= lid) → published_name r = n → (∀ m, n = Some m → published_names s !! m = None) →
  shm_ok (mk_shm rid lid (<[rid := r]> (regions s)) (match n with Some m => <[m := rid]> (published_names s) | None => published_names s end)).
Proof.
  intros [Hn Hk] -> Hl Hg Hp Hle Hpn Hfree. split; cbn.
  - intros m x. assert (Hx : ∀ q, regions s !! x = Some q → x ≠ next_region_id s + 1) by (intros q Hq; destruct (Hk _ _ Hq) as (_ & ? & _); lia).
    destruct (decide (x = next_region_id s + 1)) as [->|Hne].
    + rewrite lookup_insert, decide_True by done. split.
      * intros Hm. exists r. split; [done|]. destruct n as [n|].
        -- apply lookup_insert_Some in Hm as [[<- _]|[_ Hm]]; [done|]. apply Hn in Hm as (q & Hq & _). by apply Hx in Hq.
        -- apply Hn in Hm as (q & Hq & _). by apply Hx in Hq.
      * intros (q & [= <-] & Hq). rewrite Hpn in Hq. rewrite Hq. by rewrite lookup_insert, decide_True.
    + rewrite lookup_insert_ne by done. rewrite <- Hn. destruct n as [n|]; [|done]. destruct (decide (m = n)) as [->|Hmn].
      * rewrite lookup_insert, decide_True by done. rewrite (Hfree n eq_refl). split; [by intros [= <-]|done].
      * by rewrite lookup_insert_ne.
  - intros x q [[<- <-]|[Hne Hq]]%lookup_insert_Some; [split_and!; try done; lia|].
    destruct (Hk _ _ Hq) as (H1 & H2 & H3 & H4). split_and!; [done|lia|done|]. intros l e He. specialize (H4 _ _ He). lia.
Qed.
Lemma replace_ok rid lid r r' s :
  shm_ok s → regions s !! rid = Some r → next_lease_id s <= lid → generation r' = 1 → published_name r' = published_name r →
  (published_name r' = None → leases r' ≠ ∅) → (∀ l e, leases r' !! l = Some e → l <= lid) →
  shm_ok (mk_shm (next_region_id s) lid (<[rid := r']> (regions s)) (published_names s)).
Proof.
  intros [Hn Hk] Hr Hl Hg Hp Hpl Hle. destruct (Hk _ _ Hr) as (_ & H2 & _). split; cbn.
  - intros n x. rewrite Hn. destruct (decide (x = rid)) as [->|Hne]; [|by rewrite lookup_insert_ne].
    rewrite lookup_insert, decide_True by done. split; intros (q & Hq & Hqn).
    + exists r'. split; [done|]. rewrite Hr in Hq. injection Hq as <-. congruence.
    + exists r. split; [done|]. injection Hq as <-. congruence.
  - intros x q [[<- <-]|[Hne Hq]]%lookup_insert_Some; [done|]. destruct (Hk _ _ Hq) as (H1 & H2' & H3 & H4). split_and!; [done|done|done|].
    intros l e He. specialize (H4 _ _ He). lia.
Qed.
Lemma clear_ok s : shm_ok (clear s).
Proof. split; cbn; [|by intros ?? ?%lookup_empty_Some]. intros n rid. rewrite lookup_empty. split; [done|]. by intros (r & ?%lookup_empty_Some & _). Qed.
Lemma unpublish_ok n s : shm_ok s → shm_ok (unpublish n s).1.
Proof.
  intros Hok. pose proof Hok as [Hn Hk]. unfold unpublish. destruct (published_names s !! n) as [rid|] eqn:Hp; [|done].
  destruct (proj1 (Hn n rid) Hp) as (r & Hr & Hrn). rewrite Hr. cbn. destruct (Hk _ _ Hr) as (H1 & H2 & _ & H4). split; cbn.
  - intros m x. rewrite lookup_delete_Some, Hn. destruct (decide (x = rid)) as [->|Hne].
    + split.
      * intros (Hmn & q & Hq & Hqm). rewrite Hr in Hq. injection Hq as <-. congruence.
      * intros (q & Hq & Hqm). exfalso. case_bool_decide; [by rewrite lookup_delete, decide_True in Hq|].
        rewrite lookup_insert, decide_True in Hq by done. by injection Hq as <-.
    + assert (Hl : (if bool_decide (leases r = ∅) then delete rid (regions s)
                    else <[rid := mk_region (generation r) (bytes r) None (leases r)]> (regions s)) !! x = regions s !! x)
        by (case_bool_decide; [by rewrite lookup_delete_ne|by rewrite lookup_insert_ne]). rewrite Hl. split; [naive_solver|].
      intros (q & Hq & Hqm). split; [|by exists q]. intros <-. assert (Hx : published_names s !! n = Some x) by (apply Hn; eauto). congruence.
  - intros x q Hq. case_bool_decide as He; [apply lookup_delete_Some in Hq as [_ Hq]; eauto|].
    apply lookup_insert_Some in Hq as [[<- <-]|[_ Hq]]; [|eauto]. by split_and!.
Qed.
Lemma map_region_state now d s : (map_region now d s).1 = s ∨
  ∃ r e, regions s !! region_id d = Some r ∧ generation r = d_generation d ∧ leases r !! lease_id d = Some e ∧ alive now e = false ∧
    (map_region now d s).1 = drop_lease (region_id d) (lease_id d) r s.
Proof.
  unfold map_region. destruct (regions s !! region_id d) as [r|]; [|by left]. case_bool_decide as Hg; [by left|].
  destruct (leases r !! lease_id d) as [e|] eqn:He; [|by left]. destruct (alive now e) eqn:Ha.
  - left. do 2 (case_match; [done|]). done.
  - right. exists r, e. split_and!; try done.
Qed.
Lemma op_keeps now op s s' : shm_ok s → step now op s = Some s' → shm_ok s'.
Proof.
  intros Hok. pose proof (reclaimed_ok now s Hok) as Hr. destruct op as [later b ttl|n b|later n ttl|d|d|n| | |]; cbn [step].
  - intros ((s1 & d) & Ho & ->)%fmap_Some. unfold offer in Ho. apply bind_Some in Ho as (rid & Hrid%next_id_Some & Ho). apply bind_Some in Ho as (lid & Hlid%next_id_Some & Ho).
    injection Ho as <- <-. apply (insert_fresh_ok rid lid None _ (reclaimed now s)); try done; [lia|].
    intros l e Hl. cbn in Hl. apply lookup_singleton_Some in Hl as [<- _]. done.
  - intros ((s1 & d) & Ho & ->)%fmap_Some. unfold publish in Ho. case_bool_decide; [by injection Ho as <- <-|].
    destruct (published_names (reclaimed now s) !! n) eqn:Hp; [by injection Ho as <- <-|]. apply bind_Some in Ho as (rid & Hrid%next_id_Some & Ho). injection Ho as <- <-.
    apply (insert_fresh_ok rid _ (Some n) _ (reclaimed now s)); try done. by intros m [= <-].
  - intros ((s1 & d) & Ho & ->)%fmap_Some. unfold open in Ho. destruct (published_names (reclaimed now s) !! n) as [rid|] eqn:Hp; [|by injection Ho as <- <-].
    apply bind_Some in Ho as (lid & Hlid%next_id_Some & Ho). apply bind_Some in Ho as (r & Hrr & Ho). injection Ho as <- <-.
    destruct (ok_kept _ Hr _ _ Hrr) as (H1 & _ & H3 & H4). apply (replace_ok rid lid r _ (reclaimed now s)); try done; [lia|intros _; apply insert_non_empty|].
    intros l e Hl. cbn in Hl. apply lookup_insert_Some in Hl as [[<- _]|[_ He]]; [done|]. specialize (H4 _ _ He). lia.
  - intros [= <-]. destruct (map_region_state now d s) as [->|(r & e & Hrr & _ & _ & _ & ->)]; [done|by apply drop_lease_ok].
  - intros [= <-]. unfold release. destruct (regions s !! region_id d) as [r|] eqn:Hrr; [|done]. case_bool_decide; [done|by apply drop_lease_ok].
  - intros [= <-]. by apply unpublish_ok.
  - by intros [= <-].
  - by intros [= <-].
  - intros [= <-]. apply clear_ok.
Qed.

(** ** The life of a lease *)
(** The lease of [d] is there, on the bytes [b], until [e]. *)
Definition holds (d : ShmRegionDescriptor) (b : list Z) (e : option Z) (s : ShmState) : Prop :=
  ∃ r, regions s !! region_id d = Some r ∧ bytes r = b ∧ leases r !! lease_id d = Some e.
(** It is not there, and its number is not given again. *)
Definition gone (d : ShmRegionDescriptor) (s : ShmState) : Prop :=
  lease_id d <= next_lease_id s ∧ ∀ r, regions s !! region_id d = Some r → leases r !! lease_id d = None.
Definition whole (d : ShmRegionDescriptor) (b : list Z) : Prop := d_generation d = 1 ∧ offset d = 0 ∧ len d = Z.of_nat (length b).
(** What ends a lease: its release, by whatever descriptor names it, and the
    end of everything. *)
Definition ends (d : ShmRegionDescriptor) (op : Op) : bool :=
  match op with
  | OpRelease d' => bool_decide (region_id d' = region_id d ∧ lease_id d' = lease_id d ∧ d_generation d' = 1)
  | OpClear => true
  | _ => false
  end.

Lemma holds_reclaimed now d b e s : holds d b e s → alive now e = true → holds d b e (reclaimed now s).
Proof.
  intros (r & Hr & Hb & He) Ha. assert (Hl : leases (reclaim_region now r) !! lease_id d = Some e) by (by apply map_lookup_filter_Some).
  exists (reclaim_region now r). split_and!; [|done|done]. apply reclaimed_lookup. exists r. split_and!; [done|done|].
  apply idle_false. intros _ Hn. by rewrite Hn in Hl.
Qed.
Lemma gone_reclaimed now d s : gone d s → gone d (reclaimed now s).
Proof.
  intros [Hl Hg]. split; [done|]. intros r' (r & Hr & -> & _)%reclaimed_lookup. apply map_lookup_filter_None. left. auto.
Qed.
Lemma reclaimed_status now d b e s : holds d b e s → holds d b e (reclaimed now s) ∨ ∀ r, regions (reclaimed now s) !! region_id d = Some r → leases r !! lease_id d = None.
Proof.
  intros Hh. destruct (alive now e) eqn:Ha; [left; by apply holds_reclaimed|right]. destruct Hh as (r & Hr & _ & He).
  intros r' (r1 & Hr1 & -> & _)%reclaimed_lookup. rewrite Hr in Hr1. injection Hr1 as <-. apply map_lookup_filter_None. right. intros x Hx. rewrite He in Hx. injection Hx as <-. cbn. by rewrite Ha.
Qed.
Lemma holds_other rid r r' d b e s n l names :
  holds d b e s → (rid = region_id d → regions s !! rid = Some r → bytes r' = bytes r ∧ leases r' !! lease_id d = leases r !! lease_id d) →
  (rid = region_id d → regions s !! rid = Some r) → holds d b e (mk_shm n l (<[rid := r']> (regions s)) names).
Proof.
  intros (q & Hq & Hb & He) Hs Hr. destruct (decide (rid = region_id d)) as [->|Hne].
  - specialize (Hr eq_refl). destruct (Hs eq_refl Hr) as [H1 H2]. exists r'. cbn. rewrite lookup_insert, decide_True by done.
    rewrite Hq in Hr. injection Hr as <-. split_and!; [done|congruence|congruence].
  - exists q. cbn. by rewrite lookup_insert_ne.
Qed.
Lemma holds_drop d b e rid lid r s :
  regions s !! rid = Some r → ¬ (rid = region_id d ∧ lid = lease_id d) → holds d b e s → holds d b e (drop_lease rid lid r s).
Proof.
  intros Hr Hne Hh. unfold drop_lease. destruct (idle _) eqn:Hi.
  - destruct Hh as (q & Hq & Hb & He). assert (Hx : rid ≠ region_id d).
    { intros ->. rewrite Hq in Hr. injection Hr as <-. unfold idle in Hi. apply andb_true_iff in Hi as [Hi%bool_decide_eq_true _]. cbn in Hi.
      assert (Hl : delete lid (leases q) !! lease_id d = Some e) by (rewrite lookup_delete_ne; [done|naive_solver]). by rewrite Hi in Hl. }
    exists q. cbn. rewrite lookup_delete_ne by done. done.
  - apply (holds_other rid r); [done| |done]. intros -> _. split; [done|]. cbn. rewrite lookup_delete_ne; [done|naive_solver].
Qed.
Lemma gone_drop d rid lid r s : regions s !! rid = Some r → gone d s → gone d (drop_lease rid lid r s).
Proof.
  intros Hr [Hl Hg]. split; [done|]. intros q Hq. unfold drop_lease in Hq. cbn in Hq.
  destruct (idle _); [apply lookup_delete_Some in Hq as [_ Hq]; auto|]. apply lookup_insert_Some in Hq as [[-> <-]|[_ Hq]]; [|auto].
  cbn. apply lookup_delete_None. right. auto.
Qed.
Lemma gone_dropped d r s : regions s !! region_id d = Some r → lease_id d <= next_lease_id s → gone d (drop_lease (region_id d) (lease_id d) r s).
Proof.
  intros Hr Hl. split; [done|]. intros q Hq. unfold drop_lease in Hq. cbn in Hq. destruct (idle _); [by rewrite lookup_delete, decide_True in Hq|].
  rewrite lookup_insert, decide_True in Hq by done. injection Hq as <-. cbn. by rewrite lookup_delete, decide_True.
Qed.
Lemma holds_bounds d b e s : shm_ok s → holds d b e s → region_id d <= next_region_id s ∧ lease_id d <= next_lease_id s.
Proof. intros [_ Hk] (r & Hr & _ & He). destruct (Hk _ _ Hr) as (_ & ? & _ & H4). split; [done|eauto]. Qed.
Lemma fresh_holds d b e s r l names :
  shm_ok s → holds d b e s → holds d b e (mk_shm (next_region_id s + 1) l (<[next_region_id s + 1 := r]> (regions s)) names).
Proof. intros Hok Hh. destruct (holds_bounds _ _ _ _ Hok Hh) as [Hb _]. by apply (holds_other _ r); [|lia|lia]. Qed.
Lemma set_gone d s n l rid r names :
  gone d s → next_lease_id s <= l → leases r !! lease_id d = None → gone d (mk_shm n l (<[rid := r]> (regions s)) names).
Proof. intros [Hl Hg] Hle Hn. split; [cbn; lia|]. cbn. intros q [[_ <-]|[_ Hq]]%lookup_insert_Some; auto. Qed.

Definition tracked (d : ShmRegionDescriptor) (b : list Z) (e : option Z) (s : ShmState) : Prop := holds d b e s ∨ gone d s.
Lemma tracked_reclaimed now d b e s : shm_ok s → tracked d b e s → tracked d b e (reclaimed now s) ∧ (holds d b e s → alive now e = true → holds d b e (reclaimed now s)).
Proof.
  intros Hok [Hh|Hg]; [|split; [right; by apply gone_reclaimed|intros; by apply holds_reclaimed]]. split; [|intros; by apply holds_reclaimed].
  destruct (reclaimed_status now d b e s Hh) as [|Hn]; [by left|right]. split; [|done]. exact (proj2 (holds_bounds _ _ _ _ Hok Hh)).
Qed.
(** What one call does to a lease. *)
Lemma tracked_step now op d b e s s' :
  shm_ok s → tracked d b e s → step now op s = Some s' →
  tracked d b e s' ∧ (gone d s → gone d s') ∧ (ends d op = true → d_generation d = 1 → gone d s') ∧
  (holds d b e s → alive now e = true → ends d op = false → holds d b e s').
Proof.
  intros Hok Ht Hs. pose proof (reclaimed_ok now s Hok) as Hok'. destruct (tracked_reclaimed now d b e s Hok Ht) as [Ht' Hh'].
  pose proof (gone_reclaimed now d s) as Hg'.
  assert (Hlast : lease_id d <= next_lease_id s) by (destruct Ht as [Hh|[? _]]; [exact (proj2 (holds_bounds _ _ _ _ Hok Hh))|done]).
  assert (Hreduce : ∀ s1 : ShmState, (holds d b e (reclaimed now s) → holds d b e s1) → (gone d (reclaimed now s) → gone d s1) → ends d op = false →
    tracked d b e s1 ∧ (gone d s → gone d s1) ∧ (ends d op = true → d_generation d = 1 → gone d s1) ∧ (holds d b e s → alive now e = true → ends d op = false → holds d b e s1)).
  { intros s1 H1 H2 He. split_and!; [destruct Ht' as [?|?]; [left|right]; auto|auto|congruence|auto]. }
  destruct op as [later b' ttl|n b'|later n ttl|d'|d'|n| | |]; cbn [step] in Hs.
  - apply fmap_Some in Hs as ((s1 & d1) & Ho & ->). unfold offer in Ho. apply bind_Some in Ho as (rid & ->%next_id_Some & Ho).
    apply bind_Some in Ho as (lid & ->%next_id_Some & Ho). injection Ho as <- <-. apply Hreduce; [intros; by apply (fresh_holds d b e (reclaimed now s))| |done].
    intros Hg. apply (set_gone d (reclaimed now s)); [done|cbn; lia|]. cbn. apply lookup_singleton_None. cbn. lia.
  - apply fmap_Some in Hs as ((s1 & r1) & Ho & ->). unfold publish in Ho. case_bool_decide.
    { injection Ho as <- <-. cbn [fst]. split_and!; [done|done|done|done]. }
    destruct (published_names (reclaimed now s) !! n); [injection Ho as <- <-; by apply Hreduce|].
    apply bind_Some in Ho as (rid & ->%next_id_Some & Ho). injection Ho as <- <-. apply Hreduce; [intros; by apply (fresh_holds d b e (reclaimed now s))| |done].
    intros Hg. apply (set_gone d (reclaimed now s)); [done|done|]. apply lookup_empty.
  - apply fmap_Some in Hs as ((s1 & r1) & Ho & ->). unfold open in Ho.
    destruct (published_names (reclaimed now s) !! n) as [rid|]; [|injection Ho as <- <-; by apply Hreduce].
    apply bind_Some in Ho as (lid & ->%next_id_Some & Ho). apply bind_Some in Ho as (r & Hr & Ho). injection Ho as <- <-.
    assert (Hne : next_lease_id (reclaimed now s) + 1 ≠ lease_id d) by (cbn; lia). apply Hreduce; [| |done].
    + intros Hh. apply (holds_other rid r _ d b e (reclaimed now s)); [done| |done]. intros _ _. split; [done|]. cbn. by rewrite lookup_insert_ne.
    + intros Hg. split; [cbn; lia|]. cbn. intros q [[-> <-]|[_ Hq]]%lookup_insert_Some; [|by apply Hg]. cbn. rewrite lookup_insert_ne by done. by apply Hg.
  - injection Hs as <-. split_and!; [| |done|].
    + destruct (map_region_state now d' s) as [->|(r & e' & Hr & _ & _ & _ & ->)]; [done|]. destruct Ht as [Hh|Hg]; [|right; by apply gone_drop].
      destruct (decide (region_id d' = region_id d ∧ lease_id d' = lease_id d)) as [[Hr1 Hl1]|Hne]; [right|left; by apply holds_drop].
      rewrite Hr1, Hl1 in *. by apply gone_dropped.
    + intros Hg. destruct (map_region_state now d' s) as [->|(r & e' & Hr & _ & _ & _ & ->)]; [done|by apply gone_drop].
    + intros Hh Ha _. destruct (map_region_state now d' s) as [->|(r & e' & Hr & _ & He' & Ha' & ->)]; [done|]. apply holds_drop; [done| |done].
      intros [Hr1 Hl1]. destruct Hh as (q & Hq & _ & He). rewrite Hr1 in Hr. rewrite Hr in Hq. injection Hq as <-. rewrite Hl1, He in He'. injection He' as <-. congruence.
  - injection Hs as <-. unfold release. destruct (regions s !! region_id d') as [r|] eqn:Hr.
    2:{ split_and!; [done|done| |done]. cbn. intros (Hr1 & Hl1 & _)%bool_decide_eq_true _. rewrite Hr1 in Hr. destruct Ht as [(q & Hq & _)|Hg]; [congruence|done]. }
    destruct (ok_kept _ Hok _ _ Hr) as (Hg1 & _). case_bool_decide as Hgen.
    { split_and!; [done|done| |done]. cbn. intros (_ & _ & Hd)%bool_decide_eq_true _. congruence. }
    assert (Hd1 : d_generation d' = 1) by congruence. cbn [ends].
    destruct (decide (region_id d' = region_id d ∧ lease_id d' = lease_id d)) as [[Hr1 Hl1]|Hne].
    + rewrite Hr1, Hl1 in *. pose proof (gone_dropped d r s Hr Hlast) as Hgd. split_and!; [by right|done|done|]. intros _ _. by rewrite bool_decide_true.
    + rewrite bool_decide_false by tauto. split_and!; [|intros; by apply gone_drop|done|intros; by apply holds_drop].
      destruct Ht as [Hh|Hg]; [left; by apply holds_drop|right; by apply gone_drop].
  - injection Hs as <-.
    assert (Hh1 : holds d b e s → holds d b e (unpublish n s).1).
    { intros Hh. unfold unpublish. destruct (published_names s !! n) as [rid|]; [|done]. destruct (regions s !! rid) as [r|] eqn:Hr; [|done]. cbn [fst].
      case_bool_decide as He; [|by apply (holds_other rid r)].
      destruct Hh as (q & Hq & Hb & Hl). exists q. cbn. rewrite lookup_delete_ne; [done|]. intros ->. rewrite Hr in Hq. injection Hq as <-. by rewrite He in Hl. }
    assert (Hg1 : gone d s → gone d (unpublish n s).1).
    { intros [Hl Hg]. unfold unpublish. destruct (published_names s !! n) as [rid|]; [|by split]. destruct (regions s !! rid) as [r|] eqn:Hr; [|by split]. cbn [fst].
      split; [done|]. cbn. intros q Hq. case_bool_decide; [apply lookup_delete_Some in Hq as [_ Hq]; auto|].
      apply lookup_insert_Some in Hq as [[-> <-]|[_ Hq]]; [|auto]. cbn. auto. }
    split_and!; [destruct Ht; [left|right]; auto|done|done|auto].
  - injection Hs as <-. by apply Hreduce.
  - injection Hs as <-. by apply Hreduce.
  - injection Hs as <-. assert (Hg : gone d (clear s)) by (split; [done|]; cbn; by intros ? ?%lookup_empty_Some). split_and!; [by right|done|done|done].
Qed.

Lemma holds_maps now d b e s :
  shm_ok s → whole d b → Z.of_nat (length b) < two64 → holds d b e s → alive now e = true → (map_region now d s).2 = Ok b.
Proof.
  intros Hok (Hd & Ho & Hlen) Hsmall (r & Hr & Hb & He) Ha. destruct (ok_kept _ Hok _ _ Hr) as (Hg & _). unfold map_region.
  rewrite Hr, bool_decide_false by (rewrite Hg, Hd; tauto). rewrite He, Ha, Ho, Hlen, Hb. cbv zeta.
  replace (two64 <=? 0 + Z.of_nat (length b)) with false by lia. replace (Z.of_nat (length b) <? 0 + Z.of_nat (length b)) with false by lia.
  cbn [snd]. change (Z.to_nat 0) with 0%nat. by rewrite drop_0, Nat2Z.id, take_ge.
Qed.
Lemma gone_fails now d s : gone d s → ∃ m, (map_region now d s).2 = Err m.
Proof.
  intros [_ Hg]. unfold map_region. destruct (regions s !! region_id d) as [r|] eqn:Hr; [|by eexists]. case_bool_decide; [by eexists|].
  rewrite (Hg r eq_refl). by eexists.
Qed.
Lemma expired_fails now d b e s : holds d b e s → alive now e = false → ∃ m, (map_region now d s).2 = Err m.
Proof.
  intros (r & Hr & _ & He) Ha. unfold map_region. rewrite Hr. case_bool_decide; [by eexists|]. rewrite He, Ha. by eexists.
Qed.
(** A lease that is new: of an offer, or of an opened region. *)
Definition granted (d : ShmRegionDescriptor) (b : list Z) (e : option Z) (s : ShmState) : Prop :=
  shm_ok s ∧ whole d b ∧ holds d b e s ∧ Z.of_nat (length b) < two64.
Lemma offer_grants now later b ttl s s' d :
  shm_ok s → Z.of_nat (length b) < two64 → offer now later b ttl s = Some (s', d) → granted d b (deadline later ttl) s'.
Proof.
  intros Hok Hlen Ho. split_and!; [|..|done].
  - apply (op_keeps now (OpOffer later b ttl) s); [done|]. cbn. by rewrite Ho.
  - unfold offer in Ho. apply bind_Some in Ho as (rid & _ & Ho). apply bind_Some in Ho as (lid & _ & Ho). by injection Ho as _ <-.
  - unfold offer in Ho. apply bind_Some in Ho as (rid & _ & Ho). apply bind_Some in Ho as (lid & _ & Ho). injection Ho as <- <-.
    eexists. cbn. rewrite lookup_insert, decide_True by done. split_and!; [done|done|]. cbn. by rewrite lookup_singleton, decide_True.
Qed.
(** What is published under a name. *)
Definition published (n : str) (b : list Z) (s : ShmState) : Prop := ∃ rid r, published_names s !! n = Some rid ∧ regions s !! rid = Some r ∧ bytes r = b.
Lemma open_grants now later n ttl b s s' d :
  shm_ok s → Z.of_nat (length b) < two64 → published n b s → open now later n ttl s = Some (s', Ok d) → granted d b (deadline later ttl) s'.
Proof.
  intros Hok Hlen (rid & r & Hn & Hr & Hb) Ho. assert (Hok' := reclaimed_ok now s Hok).
  assert (Hst : step now (OpOpen later n ttl) s = Some s') by (cbn; by rewrite Ho).
  unfold open in Ho. change (published_names (reclaimed now s)) with (published_names s) in Ho. rewrite Hn in Ho.
  apply bind_Some in Ho as (lid & _ & Ho). apply bind_Some in Ho as (r1 & Hr1 & Ho). injection Ho as <- <-.
  apply reclaimed_lookup in Hr1 as Hr2. destruct Hr2 as (r2 & Hr2 & -> & _). rewrite Hr in Hr2. injection Hr2 as <-.
  destruct (ok_kept _ Hok _ _ Hr) as (Hg & _). split_and!; [exact (op_keeps _ _ _ _ Hok Hst)|..|done].
  - unfold whole. cbn. by rewrite Hg, Hb.
  - eexists. cbn. rewrite lookup_insert, decide_True by done. split_and!; [done|done|]. cbn. by rewrite lookup_insert, decide_True.
Qed.
(** A name that is published can be opened: the panic for a published region
    that is missing never comes. *)
Lemma open_published now later n ttl s rid :
  shm_ok s → published_names s !! n = Some rid → next_lease_id s + 1 < two64 → ∃ s' d, open now later n ttl s = Some (s', Ok d).
Proof.
  intros Hok Hn Hl. assert (Hok' := reclaimed_ok now s Hok). destruct (proj1 (ok_named _ Hok' n rid) Hn) as (r & Hr & _).
  unfold open. change (published_names (reclaimed now s)) with (published_names s). rewrite Hn. unfold next_id.
  change (next_lease_id (reclaimed now s)) with (next_lease_id s). replace (next_lease_id s + 1 <? two64) with true by lia. cbn [mbind option_bind]. rewrite Hr. cbn [mbind option_bind]. eauto.
Qed.

(** C27: Whatever calls come after a lease was granted, in whatever order, at
    times that do not lie after [now]: at [now] the lease maps to its bytes,
    all of them and unchanged, exactly when nothing ended it and its time is
    not up; otherwise the mapping is an error. No other consumer, no end of
    the publication and no reclaiming ends it, and a lease that has ended
    does not come back. *)
Theorem lease_lifetime (d : ShmRegionDescriptor) (b : list Z) (e : option Z) (s s' : ShmState) (ops : list (Z * Op)) (now : Z) :
  granted d b e s → run ops s = Some s' → Forall (λ o, o.1 <= now) ops →
  if forallb (λ o, negb (ends d o.2)) ops && alive now e then (map_region now d s').2 = Ok b
  else ∃ m, (map_region now d s').2 = Err m.
Proof.
  intros (Hok & Hw & Hh & Hlen) Hr Ht. assert (Htr : tracked d b e s) by (by left).
  cut (shm_ok s' ∧ tracked d b e s' ∧ (forallb (λ o, negb (ends d o.2)) ops = true → alive now e = true → holds d b e s → holds d b e s') ∧
       (forallb (λ o, negb (ends d o.2)) ops = false → gone d s') ∧ (gone d s → gone d s')).
  { intros (Hok' & Htr' & Hl & Hg & _). destruct (forallb _ ops); cbn.
    - destruct (alive now e) eqn:Ha; [apply (holds_maps now d b e); auto|]. destruct Htr' as [Hh'|Hg']; [by eapply expired_fails|by apply gone_fails].
    - apply gone_fails. auto. }
  clear Hh. revert s Hok Hr Htr. induction Ht as [|[t op] ops Hle _ IH]; intros s Hok Hr Htr; cbn [run forallb] in *; [by injection Hr as <-|].
  apply bind_Some in Hr as (s1 & Hs & Hr). destruct (tracked_step t op d b e s s1 Hok Htr Hs) as (H1 & H2 & H3 & H4).
  destruct (IH s1 (op_keeps _ _ _ _ Hok Hs) Hr H1) as (I1 & I2 & I3 & I4 & I5). cbn [fst snd] in *. split_and!; [done|done| | |auto].
  - intros [Hn Hf]%andb_true_iff Ha Hh. apply negb_true_iff in Hn. apply I3; [done|done|]. apply H4; [done| |done].
    destruct e as [e|]; [|done]. cbn in *. lia.
  - intros [Hn|Hf]%andb_false_iff; [|auto]. apply negb_false_iff in Hn. apply I5, H3; [done|]. by destruct Hw.
Qed.

(** The state stays well formed, from the beginning on: the names and the
    regions that say they are published belong together, no region is kept
    that is neither leased nor published, and no region or lease has a number
    that its counter has not reached. *)
Theorem regions_accounted (ops : list (Z * Op)) (s : ShmState) : run ops ShmManager_new = Some s → shm_ok s.
Proof.
  assert (Hok : shm_ok ShmManager_new) by (apply (clear_ok ShmManager_new)). revert Hok. generalize ShmManager_new.
  induction ops as [|[t op] ops IH]; intros s0 Hok Hr; cbn [run] in Hr; [by injection Hr as <-|]. apply bind_Some in Hr as (s1 & Hs & Hr).
  eapply IH; [by eapply op_keeps|done].
Qed.
End Shm.

(** Two consumers of a published region: one releases its lease, the name
    goes, and the other still maps the bytes, until its time is up. *)
Example one_of_two :
  let b := lit "weights" in
  match run 10000 [(0, OpPublish (lit "w") b); (1, OpOpen 1 (lit "w") 100)] ShmManager_new with
  | Some s =>
      match open 10000 2 2 (lit "w") 100 s with
      | Some (s, Ok d) =>
          match run 10000 [(3, OpRelease (mk_descriptor 1 1 0 7 1)); (4, OpUnpublish (lit "w"))] s with
          | Some s => ((map_region 50 d s).2, (map_region 102 d s).2, size (regions (reclaimed 102 s)))
          | None => (Ok [], Ok [], 0%nat)
          end
      | _ => (Ok [], Ok [], 0%nat)
      end
  | None => (Ok [], Ok [], 0%nat)
  end = (Ok b, Err (shm_error (lit "shared-memory lease has expired")), 0%nat).
Proof. vm_compute. reflexivity. Qed.

Definition offered_state : option (ShmState * ShmRegionDescriptor) := offer 10000 0 0 (lit "tokens") 100 ShmManager_new.
Lemma lease_lifetime_witness :
  match offered_state with
  | Some (s, d) =>
      ∃ s', run 10000 [(10, OpPublish (lit "n") (lit "x")); (20, OpReclaim)] s = Some s' ∧ (map_region 99 d s').2 = Ok (lit "tokens") ∧
        ∃ m, (map_region 100 d s').2 = Err m
  | None => False
  end.
Proof.
  destruct offered_state as [[s d]|] eqn:Ho; [|vm_compute in Ho; done].
  assert (Hg : granted d (lit "tokens") (Some 100) s).
  { apply (offer_grants 10000 0 0 (lit "tokens") 100 ShmManager_new); [apply (clear_ok ShmManager_new)|vm_compute; reflexivity|exact Ho]. }
  destruct (run 10000 [(10, OpPublish (lit "n") (lit "x")); (20, OpReclaim)] s) as [s'|] eqn:Hr; [|vm_compute in Ho; injection Ho as <- <-; vm_compute in Hr; done].
  exists s'. split; [done|]. split.
  - apply (lease_lifetime 10000 d (lit "tokens") (Some 100) s s' _ 99 Hg Hr). repeat constructor; vm_compute; done.
  - apply (lease_lifetime 10000 d (lit "tokens") (Some 100) s s' _ 100 Hg Hr). repeat constructor; vm_compute; done.
Defined.
Lemma regions_accounted_witness :
  match run 10000 [(0, OpPublish (lit "w") [1]); (5, OpOpen 5 (lit "w") 100)] ShmManager_new with Some s => shm_ok s | None => False end.
Proof.
  destruct (run 10000 _ ShmManager_new) as [s|] eqn:Hr; [by apply (regions_accounted 10000 _ s Hr)|vm_compute in Hr; done].
Defined.
