(* ===== verification/SystemActor.v ===== *)
(** * The system actor

    Models [system_actor/mod.rs], [messages.rs], [service.rs], [builtin.rs],
    [host.rs] and [factory.rs] in crates/pulsing-actor/src, and
    [performance_store.rs]: the registry of system services with its
    lifecycle and its routing, the built-in services, what they are allowed of
    their host, and the actor in front of them. Components and handlers work
    on a world; calls come one after another, as in an actor. *)
From S2P Require Import Prelude Text Json Errors Shm.
From S2P Require Message Runtime.
Notation NodeState := Runtime.NodeState (only parsing).

(** ** Messages *)
(** src: crates/pulsing-actor/src/system_actor/messages.rs 25-83 SystemMessage *)
Inductive SystemMessage :=
  | MsgCreateActor (actor_type name : str) (params : Value) (public : bool) | MsgStopActor (name : str)
  | MsgListActors | MsgGetActor (name : str) | MsgGetMetrics | MsgGetNodeInfo | MsgGetShmStats | MsgHealthCheck | MsgPing
  | MsgExtension (handler : str) (payload : Value).
(** src: crates/pulsing-actor/src/system_actor/messages.rs 182-197 ActorInfo *)
Record ActorInfo := mk_actor_info { ai_name : str; ai_actor_id : Z; ai_actor_type : str; ai_uptime_secs : Z; ai_metadata : gmap str str }.
(** src: crates/pulsing-actor/src/system_actor/messages.rs 89-180 SystemResponse *)
Inductive SystemResponse :=
  | RespOk | RespError (message : str) | RespActorCreated (actor_id : Z) (name : str) (node_id : Z) (methods : list str)
  | RespActorList (actors : list ActorInfo) | RespActorInfo (i : ActorInfo)
  | RespMetrics (actors_count messages_total actors_created actors_stopped uptime_secs : Z)
  | RespNodeInfo (node_id : Z) (addr : str) (uptime_secs : Z)
  | RespShmStats (backend : str) (regions published_regions active_leases nbytes : Z)
  | RespHealth (status : str) (actors_count uptime_secs : Z) | RespPong (node_id timestamp : Z).

(** ** Services *)
(** src: crates/pulsing-actor/src/system_actor/service.rs 14-19 SystemServiceId *)
Record SystemServiceId := mk_id { namespace : str; major : Z }.
#[export] Instance SystemServiceId_eq_dec : EqDecision SystemServiceId.
Proof. solve_decision. Defined.
(** src: crates/pulsing-actor/src/system_actor/service.rs 21-27 SystemServiceKind *)
Inductive SystemServiceKind := Core | ExtensionKind.
(** src: crates/pulsing-actor/src/system_actor/service.rs 29-35 SystemServiceExposure *)
Inductive SystemServiceExposure := LocalOnly | AuthenticatedRemote.
(** src: crates/pulsing-actor/src/system_actor/service.rs 37-43 OperationAccess *)
Inductive OperationAccess := Read | Operate | Admin.
(** src: crates/pulsing-actor/src/system_actor/service.rs 45-51 OperationManifest *)
Record OperationManifest := operation { op_name : str; access : OperationAccess; allowed_while_draining : bool }.
(** src: crates/pulsing-actor/src/system_actor/service.rs 53-60 SystemServiceManifest *)
Record SystemServiceManifest := mk_service_manifest {
  sm_id : SystemServiceId; sm_kind : SystemServiceKind; exposure : SystemServiceExposure; operations : list OperationManifest }.
(** src: crates/pulsing-actor/src/system_actor/service.rs 62-71 SystemServiceState *)
Inductive SystemServiceState := Registered | Starting | Ready | Failed | Stopping | Stopped.
#[export] Instance SystemServiceState_eq_dec : EqDecision SystemServiceState.
Proof. solve_decision. Defined.
Definition state_text (s : SystemServiceState) : str :=
  lit match s with Registered => "Registered" | Starting => "Starting" | Ready => "Ready" | Failed => "Failed" | Stopping => "Stopping" | Stopped => "Stopped" end%string.

(** src: crates/pulsing-actor/src/system_actor/service.rs 83-88 RuntimeCommand *)
Inductive RuntimeCommand := NodeInfo | Health | Ping.
(** src: crates/pulsing-actor/src/system_actor/service.rs 90-109 ActorsCommand *)
Inductive ActorsCommand :=
  | ListAll | GetOne (name : str) | Create (actor_type name : str) (params : Value) (public : bool) | Stop (name : str)
  | Extension (handler : str) (payload : Value).
(** src: crates/pulsing-actor/src/system_actor/service.rs 73-81 SystemCommand *)
Inductive SystemCommand := CmdRuntime (c : RuntimeCommand) | CmdActors (c : ActorsCommand) | CmdMetrics | CmdShm.
(** src: crates/pulsing-actor/src/system_actor/service.rs 122-147 SystemCommand::from_legacy *)
Definition from_legacy (m : SystemMessage) : SystemCommand :=
  match m with
  | MsgPing => CmdRuntime Ping
  | MsgGetNodeInfo => CmdRuntime NodeInfo
  | MsgHealthCheck => CmdRuntime Health
  | MsgListActors => CmdActors ListAll
  | MsgGetActor n => CmdActors (GetOne n)
  | MsgCreateActor t n p b => CmdActors (Create t n p b)
  | MsgStopActor n => CmdActors (Stop n)
  | MsgExtension h p => CmdActors (Extension h p)
  | MsgGetMetrics => CmdMetrics
  | MsgGetShmStats => CmdShm
  end.
(** src: crates/pulsing-actor/src/system_actor/service.rs 174-177 RUNTIME_SERVICE *)
Definition runtime_service : SystemServiceId := mk_id (lit "runtime") 1.
(** src: crates/pulsing-actor/src/system_actor/service.rs 178-181 ACTORS_SERVICE *)
Definition actors_service : SystemServiceId := mk_id (lit "actors") 1.
(** src: crates/pulsing-actor/src/system_actor/service.rs 182-185 METRICS_SERVICE *)
Definition metrics_service : SystemServiceId := mk_id (lit "metrics") 1.
(** src: crates/pulsing-actor/src/system_actor/service.rs 186-189 SHM_SERVICE *)
Definition shm_service : SystemServiceId := mk_id (lit "shm") 1.
(** src: crates/pulsing-actor/src/system_actor/service.rs 149-156 SystemCommand::target *)
Definition target (c : SystemCommand) : SystemServiceId :=
  match c with CmdRuntime _ => runtime_service | CmdActors _ => actors_service | CmdMetrics => metrics_service | CmdShm => shm_service end.
(** src: crates/pulsing-actor/src/system_actor/service.rs 158-171 SystemCommand::operation *)
Definition operation_of (c : SystemCommand) : str :=
  lit match c with
      | CmdRuntime NodeInfo => "node_info" | CmdRuntime Health => "health" | CmdRuntime Ping => "ping"
      | CmdActors ListAll => "list" | CmdActors (GetOne _) => "get" | CmdActors (Create _ _ _ _) => "create"
      | CmdActors (Stop _) => "stop" | CmdActors (Extension _ _) => "extension"
      | CmdMetrics => "snapshot" | CmdShm => "stats"
      end%string.
(** src: crates/pulsing-actor/src/system_actor/service.rs 461-466 service_error *)
Definition service_error (m : str) : PulsingError := Runtime (Other (lit "System service error: " ++ m)).
Definition id_text (i : SystemServiceId) : str := namespace i ++ at_sign :: display_u128 (major i).

(** The operations in front of one, looked through for its name.
    src: crates/pulsing-actor/src/system_actor/service.rs 444-458 validate_manifest (operations) *)
Fixpoint validate_operations (seen : list OperationManifest) (ops : list OperationManifest) : Result unit PulsingError :=
  match ops with
  | [] => Ok tt
  | o :: ops =>
      if bool_decide (op_name o = []) then Err (service_error (lit "operation name must not be empty"))
      else if existsb (λ e, bool_decide (op_name e = op_name o)) seen
      then Err (service_error (lit "operation " ++ op_name o ++ lit " is declared more than once"))
      else validate_operations (seen ++ [o]) ops
  end.
(** src: crates/pulsing-actor/src/system_actor/service.rs 437-459 validate_manifest *)
Definition validate_manifest (m : SystemServiceManifest) : Result unit PulsingError :=
  if bool_decide (namespace (sm_id m) = []) then Err (service_error (lit "service namespace must not be empty"))
  else if bool_decide (major (sm_id m) = 0) then Err (service_error (lit "service major version must be non-zero"))
  else validate_operations [] (operations m).

Definition is_draining (s : NodeState) : bool := match s with Runtime.Draining => true | _ => false end.

Section Registry.
Context {W : Type}.
(** src: crates/pulsing-actor/src/system_actor/service.rs 214-219 SystemServiceRegistration *)
Record SystemServiceRegistration := mk_service {
  manifest : SystemServiceManifest; component_start : W → W * Result unit PulsingError; component_stop : W → W * Result unit PulsingError;
  service_handle : SystemCommand → W → W * Result SystemResponse PulsingError }.
(** src: crates/pulsing-actor/src/system_actor/service.rs 221-224 RegisteredSystemService *)
Record RegisteredSystemService := mk_registered { registration : SystemServiceRegistration; state : SystemServiceState }.
Definition service_id (r : SystemServiceRegistration) : SystemServiceId := sm_id (manifest r).
Definition entry_id (e : RegisteredSystemService) : SystemServiceId := service_id (registration e).
Notation Services := (list RegisteredSystemService).

(** src: crates/pulsing-actor/src/system_actor/service.rs 241-262 SystemServiceRegistry::register *)
Definition register (r : SystemServiceRegistration) (es : Services) : Result Services PulsingError :=
  if existsb (λ e, bool_decide (entry_id e = service_id r)) es
  then Err (service_error (lit "service " ++ id_text (service_id r) ++ lit " is already registered"))
  else let? _ := validate_manifest (manifest r) in Ok (es ++ [mk_registered r Registered]).
(** src: crates/pulsing-actor/src/system_actor/service.rs 264-271 SystemServiceRegistry::statuses *)
Definition statuses (es : Services) : list (SystemServiceManifest * SystemServiceState) := (λ e, (manifest (registration e), state e)) <$> es.
Definition disappeared : PulsingError := service_error (lit "registered service disappeared").
Definition set_entry (s : SystemServiceState) (e : RegisteredSystemService) : RegisteredSystemService := mk_registered (registration e) s.
(** The first entry with the id, and its state changed by [f].
    src: crates/pulsing-actor/src/system_actor/service.rs 383-394 SystemServiceRegistry::set_state *)
Fixpoint set_state (i : SystemServiceId) (s : SystemServiceState) (es : Services) : Result Services PulsingError :=
  match es with
  | [] => Err disappeared
  | e :: es => if bool_decide (entry_id e = i) then Ok (set_entry s e :: es) else let? es' := set_state i s es in Ok (e :: es')
  end.
(** src: crates/pulsing-actor/src/system_actor/service.rs 359-381 SystemServiceRegistry::transition_service *)
Fixpoint transition_service (i : SystemServiceId) (expected next : SystemServiceState) (es : Services) : Result Services PulsingError :=
  match es with
  | [] => Err disappeared
  | e :: es =>
      if bool_decide (entry_id e = i) then
        if bool_decide (state e ≠ expected)
        then Err (service_error (lit "invalid service transition for " ++ id_text i ++ lit ": " ++ state_text (state e) ++ lit " -> " ++ state_text next))
        else Ok (set_entry next e :: es)
      else let? es' := transition_service i expected next es in Ok (e :: es')
  end.
(** One service after another is stopped; what fails is noted. An error of a
    transition ends the loop.
    src: crates/pulsing-actor/src/system_actor/service.rs 411-425 SystemServiceRegistry::stop_ready (loop) *)
Fixpoint stop_loop (todo : list SystemServiceRegistration) (failures : list str) (es : Services) (w : W)
    : Services * W * Result (list str) PulsingError :=
  match todo with
  | [] => (es, w, Ok failures)
  | r :: todo =>
      match transition_service (service_id r) Ready Stopping es with
      | Err e => (es, w, Err e)
      | Ok es =>
          match component_stop r w with
          | (w, Ok _) =>
              match transition_service (service_id r) Stopping Stopped es with
              | Err e => (es, w, Err e)
              | Ok es => stop_loop todo failures es w
              end
          | (w, Err error) =>
              match set_state (service_id r) Failed es with
              | Err e => (es, w, Err e)
              | Ok es => stop_loop todo (failures ++ [id_text (service_id r) ++ lit ": " ++ display error]) es w
              end
          end
      end
  end.
Fixpoint join_texts (sep : str) (l : list str) : str :=
  match l with [] => [] | [t] => t | t :: l => t ++ sep ++ join_texts sep l end.
Definition ready (es : Services) : list SystemServiceRegistration := registration <$> filter (λ e, state e = Ready) es.
(** src: crates/pulsing-actor/src/system_actor/service.rs 396-434 SystemServiceRegistry::stop_ready *)
Definition stop_ready (es : Services) (w : W) : Services * W * Result unit PulsingError :=
  match stop_loop (reverse (ready es)) [] es w with
  | (es, w, Err e) => (es, w, Err e)
  | (es, w, Ok []) => (es, w, Ok tt)
  | (es, w, Ok failures) => (es, w, Err (service_error (lit "failed to stop system services: " ++ join_texts (lit "; ") failures)))
  end.
(** src: crates/pulsing-actor/src/system_actor/service.rs 303-305 SystemServiceRegistry::stop_all *)
Definition stop_all := stop_ready.
(** src: crates/pulsing-actor/src/system_actor/service.rs 287-300 SystemServiceRegistry::start_all (loop) *)
Fixpoint start_loop (todo : list SystemServiceRegistration) (es : Services) (w : W) : Services * W * Result unit PulsingError :=
  match todo with
  | [] => (es, w, Ok tt)
  | r :: todo =>
      match transition_service (service_id r) Registered Starting es with
      | Err e => (es, w, Err e)
      | Ok es =>
          match component_start r w with
          | (w, Err error) =>
              let es := match set_state (service_id r) Failed es with Ok es' => es' | Err _ => es end in
              let '(es, w, _) := stop_ready es w in
              (es, w, Err error)
          | (w, Ok _) =>
              match transition_service (service_id r) Starting Ready es with
              | Err e => (es, w, Err e)
              | Ok es => start_loop todo es w
              end
          end
      end
  end.
(** src: crates/pulsing-actor/src/system_actor/service.rs 273-301 SystemServiceRegistry::start_all *)
Definition start_all (es : Services) (w : W) : Services * W * Result unit PulsingError := start_loop (registration <$> es) es w.
(** src: crates/pulsing-actor/src/system_actor/service.rs 307-357 SystemServiceRegistry::dispatch *)
Definition dispatch (es : Services) (c : SystemCommand) (node_state : NodeState) (w : W) : W * Result SystemResponse PulsingError :=
  match head (filter (λ e, entry_id e = target c) es) with
  | None => (w, Err (service_error (lit "service " ++ id_text (target c) ++ lit " is not registered")))
  | Some e =>
      if bool_decide (state e ≠ Ready)
      then (w, Err (service_error (lit "service " ++ id_text (target c) ++ lit " is not ready (" ++ state_text (state e) ++ lit ")")))
      else
        match head (filter (λ o, op_name o = operation_of c) (operations (manifest (registration e)))) with
        | None => (w, Err (service_error (lit "operation " ++ operation_of c ++ lit " is not declared by " ++ id_text (target c))))
        | Some o =>
            if is_draining node_state && negb (allowed_while_draining o)
            then (w, Err (service_error (lit "operation " ++ op_name o ++ lit " is unavailable while the node is draining")))
            else service_handle (registration e) c w
        end
  end.
End Registry.
Arguments SystemServiceRegistration : clear implicits.
Arguments RegisteredSystemService : clear implicits.

(** ** What services may do on their host *)
(** src: crates/pulsing-actor/src/system_actor/host.rs 13-21 ActorControl *)
Record ActorControl (W : Type) := mk_control {
  ac_list : W → list ActorInfo; ac_get : str → W → option ActorInfo; ac_count : W → Z; ac_total_messages : W → Z;
  ac_stop : str → W → W * Result bool PulsingError }.
Arguments mk_control {W}.
Arguments ac_list {W}.
Arguments ac_get {W}.
Arguments ac_count {W}.
Arguments ac_total_messages {W}.
Arguments ac_stop {W}.
(** src: crates/pulsing-actor/src/system_actor/mod.rs 47-47 SYSTEM_ACTOR_PATH *)
Definition system_actor_path : str := lit "system/core".
(** src: crates/pulsing-actor/src/system_actor/host.rs 292-297 host_error *)
Definition host_error (m : str) : PulsingError := Runtime (Other (lit "System host capability error: " ++ m)).

(** What the control plane reads of a local actor and of the registry. *)
Record LocalHandle := mk_local_handle { lh_actor_id : Z; lh_metadata : gmap str str; lh_uptime_secs : Z; lh_message_count : Z }.
Record HostRegistry := mk_host_registry { actor_names : gmap str Z; handles : gmap Z LocalHandle }.
(** src: crates/pulsing-actor/src/system_actor/host.rs 256-275 actor_info *)
Definition actor_info (r : HostRegistry) (name : str) : option ActorInfo :=
  if bool_decide (name = system_actor_path) then None
  else
    id ← actor_names r !! name;
    h ← handles r !! id;
    let actor_type := match lh_metadata h !! lit "class" with
                      | Some c => c
                      | None => default (lit "Actor") (lh_metadata h !! lit "type")
                      end in
    Some (mk_actor_info name (lh_actor_id h) actor_type (lh_uptime_secs h) (lh_metadata h)).
(** src: crates/pulsing-actor/src/system_actor/host.rs 248-254 actor_infos *)
Definition actor_infos {O : Oracle} (r : HostRegistry) : list ActorInfo := omap (actor_info r) (hm_iter (actor_names r)).*1.
(** src: crates/pulsing-actor/src/system_actor/host.rs 277-283 actor_count *)
Definition actor_count (r : HostRegistry) : Z := Z.of_nat (size (filter (λ kv, kv.1 ≠ system_actor_path) (actor_names r))).
(** The sum of an iterator of [u64]s: an overflow wraps in a release build.
    src: crates/pulsing-actor/src/system_actor/host.rs 285-290 total_messages *)
Definition total_messages (r : HostRegistry) : Z := map_fold (λ _ h n, u64 (lh_message_count h + n)) 0 (handles r).

(** src: crates/pulsing-actor/src/system_actor/host.rs 166-189 RegistryActorControl *)
Definition registry_control {O : Oracle} {W} (reg : W → HostRegistry) : ActorControl W :=
  mk_control (λ w, actor_infos (reg w)) (λ n w, actor_info (reg w) n) (λ w, actor_count (reg w)) (λ w, total_messages (reg w))
    (λ _ w, (w, Err (host_error (lit "actor stop requires an ActorSystem-owned lifecycle capability")))).
(** The name that a request to stop is about, when it may be stopped.
    src: crates/pulsing-actor/src/system_actor/host.rs 232-242 HostedActorControl::stop (name) *)
Definition resolve_stop (r : HostRegistry) (name : str) : option str :=
  let has n := bool_decide (is_Some (actor_names r !! n)) in
  if has name then Some name
  else if negb (bool_decide (slash ∈ name)) then
    let prefixed := lit "actors/" ++ name in if has prefixed then Some prefixed else None
  else None.
(** The system is a weak reference; [stop_system] is its [stop].
    src: crates/pulsing-actor/src/system_actor/host.rs 224-245 HostedActorControl::stop *)
Definition hosted_stop {W} (system : W → option HostRegistry) (stop_system : str → W → W * Result unit PulsingError) (name : str) (w : W)
    : W * Result bool PulsingError :=
  if bool_decide (name = system_actor_path) then (w, Ok false)
  else
    match system w with
    | None => (w, Err (host_error (lit "ActorSystem is no longer available")))
    | Some r =>
        match resolve_stop r name with
        | None => (w, Ok false)
        | Some n => match stop_system n w with (w, Ok _) => (w, Ok true) | (w, Err e) => (w, Err e) end
        end
    end.
(** src: crates/pulsing-actor/src/system_actor/host.rs 195-246 HostedActorControl *)
Definition hosted_control {O : Oracle} {W} (system : W → option HostRegistry) (stop_system : str → W → W * Result unit PulsingError) : ActorControl W :=
  mk_control (λ w, match system w with Some r => actor_infos r | None => [] end) (λ n w, r ← system w; actor_info r n)
    (λ w, match system w with Some r => actor_count r | None => 0 end) (λ w, match system w with Some r => total_messages r | None => 0 end)
    (hosted_stop system stop_system).

(** ** The registry kept for older interfaces *)
(** src: crates/pulsing-actor/src/system_actor/mod.rs 90-97 ActorEntry *)
Record ActorEntry := mk_actor_entry { ae_actor_id : Z; ae_actor_type : str; ae_created_at : Z; ae_metadata : gmap str str }.
Notation LegacyRegistry := (gmap (list Z) ActorEntry) (only parsing).
(** src: crates/pulsing-actor/src/system_actor/mod.rs 116-132 ActorRegistry::register_with_metadata *)
Definition register_with_metadata (now : Z) (name : str) (id : Z) (ty : str) (md : gmap str str) (r : LegacyRegistry) : LegacyRegistry :=
  <[name := mk_actor_entry id ty now md]> r.
(** src: crates/pulsing-actor/src/system_actor/mod.rs 112-114 ActorRegistry::register *)
Definition register_legacy (now : Z) (name : str) (id : Z) (ty : str) (r : LegacyRegistry) : LegacyRegistry := register_with_metadata now name id ty ∅ r.
(** src: crates/pulsing-actor/src/system_actor/mod.rs 134-136 ActorRegistry::unregister *)
Definition unregister (name : str) (r : LegacyRegistry) : LegacyRegistry * option Z := (delete name r, ae_actor_id <$> r !! name).
(** src: crates/pulsing-actor/src/system_actor/mod.rs 163-171 ActorRegistry::get_info *)
Definition get_info (now : Z) (name : str) (r : LegacyRegistry) : option ActorInfo :=
  e ← r !! name; Some (mk_actor_info name (ae_actor_id e) (ae_actor_type e) ((now - ae_created_at e) / 1000000000) (ae_metadata e)).
(** src: crates/pulsing-actor/src/system_actor/mod.rs 150-161 ActorRegistry::list_all *)
Definition list_all {O : Oracle} (now : Z) (r : LegacyRegistry) : list ActorInfo := omap (λ kv, get_info now kv.1 r) (hm_iter r).
(** src: crates/pulsing-actor/src/system_actor/host.rs 133-154 LegacyActorControl *)
Definition legacy_control {O : Oracle} {W} (now : W → Z) (reg : W → LegacyRegistry) (set_reg : LegacyRegistry → W → W) (messages : W → Z) : ActorControl W :=
  mk_control (λ w, list_all (now w) (reg w)) (λ n w, get_info (now w) n (reg w)) (λ w, Z.of_nat (size (reg w))) messages
    (λ n w, let '(r, id) := unregister n (reg w) in (set_reg r w, Ok (bool_decide (is_Some id)))).

(** ** Recent measurements *)
(** src: crates/pulsing-actor/src/performance_store.rs 12-23 PerformanceSnapshot *)
Record PerformanceSnapshot := mk_snapshot {
  ts_unix_micros : Z; ps_node_id : str; ps_actors_count : Z; ps_messages_total : Z; ps_actors_created : Z; ps_actors_stopped : Z; ps_uptime_secs : Z }.
(** src: crates/pulsing-actor/src/performance_store.rs 25-29 PerformanceStore *)
Record PerformanceStore := mk_store { capacity : nat; snapshots : list PerformanceSnapshot }.
(** src: crates/pulsing-actor/src/performance_store.rs 32-38 PerformanceStore::new *)
Definition PerformanceStore_new (c : nat) : PerformanceStore := mk_store (Nat.max c 1) [].
(** src: crates/pulsing-actor/src/performance_store.rs 52-59 PerformanceStore::record *)
Definition record_snapshot (x : PerformanceSnapshot) (s : PerformanceStore) : PerformanceStore :=
  mk_store (capacity s) ((if (capacity s <=? length (snapshots s))%nat then tail (snapshots s) else snapshots s) ++ [x]).
(** src: crates/pulsing-actor/src/performance_store.rs 61-68 PerformanceStore::recent *)
Definition recent (limit : nat) (s : PerformanceStore) : list PerformanceSnapshot :=
  take (Nat.min limit (length (snapshots s))) (reverse (snapshots s)).

(** ** The built-in services *)
(** The world of a system actor: its counters and stores, the clock, and what
    is outside. [write_metrics] appends to the file of measurements. *)
Class SystemHost (W : Type) := {
  host_node_id : Z;
  host_addr : str;
  uptime_secs : W → Z;
  now_millis : W → Z;
  now_micros : W → Z;
  shm_now : W → Z;
  actors : ActorControl W;
  node_state : W → NodeState;
  set_node_state : NodeState → W → W;
  messages_total : W → Z;
  actors_created : W → Z;
  actors_stopped : W → Z;
  set_messages_total : Z → W → W;
  store : W → PerformanceStore;
  set_store : PerformanceStore → W → W;
  write_metrics : PerformanceSnapshot → W → W;
  shm : W → ShmState;
  set_shm : ShmState → W → W;
  handle_extension : str → Value → W → W * SystemResponse;
  node_id_text : Z → str
}.
(** src: crates/pulsing-actor/src/system_actor/builtin.rs 19-23 RUNTIME_OPERATIONS *)
Definition runtime_operations : list OperationManifest :=
  [operation (lit "node_info") Read true; operation (lit "health") Read true; operation (lit "ping") Read true].
(** src: crates/pulsing-actor/src/system_actor/builtin.rs 24-30 ACTOR_OPERATIONS *)
Definition actor_operations : list OperationManifest :=
  [operation (lit "list") Read true; operation (lit "get") Read true; operation (lit "create") Admin false;
   operation (lit "stop") Operate false; operation (lit "extension") Admin false].
(** src: crates/pulsing-actor/src/system_actor/builtin.rs 31-32 METRICS_OPERATIONS *)
Definition metrics_operations : list OperationManifest := [operation (lit "snapshot") Read true].
(** src: crates/pulsing-actor/src/system_actor/builtin.rs 33-33 SHM_OPERATIONS *)
Definition shm_operations : list OperationManifest := [operation (lit "stats") Read true].
(** src: crates/pulsing-actor/src/system_actor/builtin.rs 110-121 core_manifest *)
Definition core_manifest (i : SystemServiceId) (e : SystemServiceExposure) (ops : list OperationManifest) : SystemServiceManifest :=
  mk_service_manifest i Core e ops.
(** src: crates/pulsing-actor/src/system_actor/lifecycle.rs 19-28 NodeState::as_str *)
Definition node_state_text (s : NodeState) : str :=
  lit match s with
      | Runtime.Booting => "booting" | Runtime.Starting => "starting" | Runtime.Ready => "ready" | Runtime.Draining => "draining"
      | Runtime.NodeFailed => "failed" | Runtime.NodeStopped => "stopped"
      end%string.

Definition debug_node_state (s : NodeState) : str :=
  lit match s with
      | Runtime.Booting => "Booting" | Runtime.Starting => "Starting" | Runtime.Ready => "Ready" | Runtime.Draining => "Draining"
      | Runtime.NodeFailed => "Failed" | Runtime.NodeStopped => "Stopped"
      end%string.
(** src: crates/pulsing-actor/src/system_actor/lifecycle.rs 110-115 lifecycle_error *)
Definition lifecycle_error (m : str) : PulsingError := Runtime (Other (lit "System lifecycle error: " ++ m)).
#[local] Existing Instance Runtime.NodeState_eq_dec.

Section Builtin.
Context {W : Type} `{SystemHost W}.
Definition answers (r : SystemResponse) (w : W) : W * Result SystemResponse PulsingError := (w, Ok r).
(** src: crates/pulsing-actor/src/system_actor/builtin.rs 133-161 RuntimeService::handle *)
Definition runtime_handle (c : SystemCommand) (w : W) : W * Result SystemResponse PulsingError :=
  match c with
  | CmdRuntime NodeInfo => answers (RespNodeInfo host_node_id host_addr (uptime_secs w)) w
  | CmdRuntime Health =>
      let status := match node_state w with Runtime.Ready => lit "healthy" | s => node_state_text s end in
      answers (RespHealth status (ac_count actors w) (uptime_secs w)) w
  | CmdRuntime Ping => answers (RespPong host_node_id (now_millis w)) w
  | _ => (w, Err (service_error (lit "runtime service received an invalid command")))
  end.
(** src: crates/pulsing-actor/src/system_actor/builtin.rs 171-210 ActorsService::handle *)
Definition actors_handle (c : SystemCommand) (w : W) : W * Result SystemResponse PulsingError :=
  match c with
  | CmdActors ListAll => answers (RespActorList (ac_list actors w)) w
  | CmdActors (GetOne name) =>
      answers match ac_get actors name w with Some i => RespActorInfo i | None => RespError (lit "Actor not found: " ++ name) end w
  | CmdActors (Create _ _ _ _) => answers (RespError (lit "CreateActor not supported in pure Rust mode. Use Python extension.")) w
  | CmdActors (Stop name) =>
      match ac_stop actors name w with
      | (w, Err e) => (w, Err e)
      | (w, Ok true) => answers RespOk w
      | (w, Ok false) => answers (RespError (lit "Actor not found: " ++ name)) w
      end
  | CmdActors (Extension h p) => let '(w, r) := handle_extension h p w in answers r w
  | _ => (w, Err (service_error (lit "actors service received an invalid command")))
  end.
(** src: crates/pulsing-actor/src/system_actor/builtin.rs 223-266 MetricsService::handle *)
Definition metrics_handle (c : SystemCommand) (w : W) : W * Result SystemResponse PulsingError :=
  match c with
  | CmdMetrics =>
      let count := ac_count actors w in
      let total := ac_total_messages actors w in
      let x := mk_snapshot (now_micros w) (node_id_text host_node_id) count total (actors_created w) (actors_stopped w) (uptime_secs w) in
      let r := RespMetrics count total (actors_created w) (actors_stopped w) (uptime_secs w) in
      answers r (write_metrics x (set_store (record_snapshot x (store w)) w))
  | _ => (w, Err (service_error (lit "metrics service received an invalid command")))
  end.
(** src: crates/pulsing-actor/src/system_actor/builtin.rs 283-297 ShmService::handle *)
Definition shm_handle (c : SystemCommand) (w : W) : W * Result SystemResponse PulsingError :=
  match c with
  | CmdShm =>
      let '(s, st) := stats (shm_now w) (shm w) in
      answers (RespShmStats (backend_as_str InProcess) (st_regions st) (st_published_regions st) (st_active_leases st) (st_bytes st)) (set_shm s w)
  | _ => (w, Err (service_error (lit "shm service received an invalid command")))
  end.
(** src: crates/pulsing-actor/src/system_actor/service.rs 191-201 SystemComponent *)
Definition stateless (w : W) : W * Result unit PulsingError := (w, Ok tt).
(** src: crates/pulsing-actor/src/system_actor/builtin.rs 275-278 ShmService::stop *)
Definition shm_stop (w : W) : W * Result unit PulsingError := (set_shm (clear (shm w)) w, Ok tt).
(** src: crates/pulsing-actor/src/system_actor/builtin.rs 47-108 registrations *)
Definition registrations : list (SystemServiceRegistration W) :=
  [mk_service (core_manifest runtime_service AuthenticatedRemote runtime_operations) stateless stateless runtime_handle;
   mk_service (core_manifest actors_service AuthenticatedRemote actor_operations) stateless stateless actors_handle;
   mk_service (core_manifest metrics_service AuthenticatedRemote metrics_operations) stateless stateless metrics_handle;
   mk_service (core_manifest shm_service LocalOnly shm_operations) stateless shm_stop shm_handle].
(** [None] is the panic of a manifest that is not valid.
    src: crates/pulsing-actor/src/system_actor/mod.rs 317-328 SystemActor::build_services *)
Definition build_services : option (list (RegisteredSystemService W)) :=
  foldl (λ acc r, es ← acc; match register r es with Ok es => Some es | Err _ => None end) (Some []) registrations.

(** ** The actor *)
(** The lifecycle's transition, alone.
    src: crates/pulsing-actor/src/system_actor/lifecycle.rs 68-92 NodeLifecycle::transition *)
Definition transition_node (next : NodeState) (w : W) : W * Result unit PulsingError :=
  let current := node_state w in
  if bool_decide (current = next) then (w, Ok tt)
  else if Runtime.can_transition_to current next then (set_node_state next w, Ok tt)
  else (w, Err (lifecycle_error (lit "invalid node lifecycle transition: " ++ debug_node_state current ++ lit " -> " ++ debug_node_state next))).
(** src: crates/pulsing-actor/src/system_actor/lifecycle.rs 94-101 NodeLifecycle::begin_draining *)
Definition begin_draining (w : W) : W * Result unit PulsingError :=
  match node_state w with
  | Runtime.Draining | Runtime.NodeStopped => (w, Ok tt)
  | _ => transition_node Runtime.Draining w
  end.
Notation Services := (list (RegisteredSystemService W)).
(** src: crates/pulsing-actor/src/system_actor/mod.rs 425-439 SystemActor::on_start *)
Definition on_start (es : Services) (w : W) : Services * W * Result unit PulsingError :=
  match transition_node Runtime.Starting w with
  | (w, Err e) => (es, w, Err e)
  | (w, Ok _) =>
      match start_all es w with
      | (es, w, Err e) => (es, (transition_node Runtime.NodeFailed w).1, Err e)
      | (es, w, Ok _) => let '(w, r) := transition_node Runtime.Ready w in (es, w, r)
      end
  end.
(** src: crates/pulsing-actor/src/system_actor/mod.rs 441-454 SystemActor::on_stop *)
Definition on_stop (es : Services) (w : W) : Services * W * Result unit PulsingError :=
  match begin_draining w with
  | (w, Err e) => (es, w, Err e)
  | (w, Ok _) =>
      match stop_all es w with
      | (es, w, Err e) => (es, (transition_node Runtime.NodeFailed w).1, Err e)
      | (es, w, Ok _) => (es, w, Ok tt)
      end
  end.
End Builtin.

Section Receive.
Context {W S : Type} `{SystemHost W}.
(** [Message::parse] and [serde_json::to_vec]. *)
Context (parse : Message.Message S → Result SystemMessage str) (to_vec : SystemResponse → Result (list Z) str).
Definition answer_bytes (r : SystemResponse) : Result (Message.Message S) PulsingError :=
  match to_vec r with Ok data => Ok (Message.Single (lit "SystemResponse") data) | Err e => Err (Runtime (Serialization e)) end.
(** src: crates/pulsing-actor/src/system_actor/mod.rs 456-499 SystemActor::receive *)
Definition receive (es : list (RegisteredSystemService W)) (msg : Message.Message S) (w : W) : W * Result (Message.Message S) PulsingError :=
  let w := set_messages_total (u64 (messages_total w + 1)) w in
  match msg with
  | Message.Stream _ _ => (w, answer_bytes (RespError (lit "Stream messages not supported by SystemActor")))
  | Message.Tensor _ => (w, answer_bytes (RespError (lit "Tensor messages not supported by SystemActor")))
  | Message.Single _ _ =>
      match parse msg with
      | Err e => (w, answer_bytes (RespError (lit "Invalid message format: " ++ e)))
      | Ok m =>
          match dispatch es (from_legacy m) (node_state w) w with
          | (w, Ok response) => (w, answer_bytes response)
          | (w, Err e) => (w, answer_bytes (RespError (display e)))
          end
      end
  end.
End Receive.

(** ** Starting and stopping *)
Section Lifecycle.
Context {W : Type}.
Notation Services := (list (RegisteredSystemService W)).
Implicit Types (es : Services) (r : SystemServiceRegistration W).
(** The state of a service is set, by its id. *)
Definition put (i : SystemServiceId) (s : SystemServiceState) es : Services :=
  (λ e, if decide (entry_id e = i) then set_entry s e else e) <$> es.
Definition start_one (w : W) r : W := (component_start r w).1.
Definition stop_one (w : W) r : W := (component_stop r w).1.

Lemma put_cons i s e es : put i s (e :: es) = (if decide (entry_id e = i) then set_entry s e else e) :: put i s es.
Proof. done. Qed.
Lemma put_ids i s es : registration <$> put i s es = registration <$> es.
Proof. unfold put. rewrite <- list_fmap_compose. apply list_fmap_ext. intros _ e _. cbn. by destruct (decide _). Qed.
Lemma put_absent i s es : i ∉ entry_id <$> es → put i s es = es.
Proof.
  intros Hi. transitivity (id <$> es); [|apply list_fmap_id]. apply list_fmap_ext. intros k e He. cbn. rewrite decide_False; [done|]. intros <-. apply Hi.
  by eapply list_elem_of_fmap_2, list_elem_of_lookup_2.
Qed.
Lemma set_state_put i s es : NoDup (entry_id <$> es) → i ∈ entry_id <$> es → set_state i s es = Ok (put i s es).
Proof.
  induction es as [|e es IH]; intros Hd Hi; [by apply elem_of_nil in Hi|]. cbn in Hd. apply NoDup_cons in Hd as [Hn Hd]. cbn [set_state].
  case_bool_decide as He.
  - rewrite put_cons, decide_True by done. rewrite put_absent; [done|by rewrite <- He].
  - cbn in Hi. apply elem_of_cons in Hi as [->|Hi]; [done|]. rewrite IH by done. by rewrite put_cons, decide_False by done.
Qed.
Lemma transition_put i s s' es e :
  NoDup (entry_id <$> es) → e ∈ es → entry_id e = i → state e = s → transition_service i s s' es = Ok (put i s' es).
Proof.
  intros Hd. induction es as [|x es IH]; intros Hin He Hs; [by apply elem_of_nil in Hin|]. cbn in Hd. apply NoDup_cons in Hd as [Hn Hd]. cbn [transition_service].
  apply elem_of_cons in Hin as [<-|Hin].
  - rewrite bool_decide_true, bool_decide_false by tauto. rewrite put_cons, decide_True by done.
    rewrite put_absent; [done|by rewrite <- He].
  - assert (Hx : entry_id x ≠ i) by (intros Hx; apply Hn; rewrite Hx, <- He; by apply list_elem_of_fmap_2).
    rewrite bool_decide_false, IH by done. by rewrite put_cons, decide_False by done.
Qed.
Lemma put_in i s es e : e ∈ es → (if decide (entry_id e = i) then set_entry s e else e) ∈ put i s es.
Proof. intros Hin. apply list_elem_of_fmap. by exists e. Qed.
Lemma ids_registrations es : entry_id <$> es = service_id <$> (registration <$> es).
Proof. by rewrite <- list_fmap_compose. Qed.
Lemma put_put i s s' es : put i s' (put i s es) = put i s' es.
Proof. unfold put. rewrite <- list_fmap_compose. apply list_fmap_ext. intros _ e _. unfold compose. destruct (decide (entry_id e = i)) as [He|He]; [|by rewrite decide_False]. by rewrite decide_True. Qed.


(** One service after another stopped, with its end noted. *)
Definition end_of (res : Result unit PulsingError) : SystemServiceState := match res with Ok _ => Stopped | Err _ => Failed end.
Definition failure_of r (res : Result unit PulsingError) : list str :=
  match res with Ok _ => [] | Err e => [id_text (service_id r) ++ lit ": " ++ display e] end.
Fixpoint stop_each (todo : list (SystemServiceRegistration W)) fs es (w : W) : Services * W * list str :=
  match todo with
  | [] => (es, w, fs)
  | r :: todo => let '(w, res) := component_stop r w in stop_each todo (fs ++ failure_of r res) (put (service_id r) (end_of res) es) w
  end.
Lemma put_keeps i s es e : e ∈ es → entry_id e ≠ i → e ∈ put i s es.
Proof. intros Hin He. pose proof (put_in i s es e Hin) as Hp. by rewrite decide_False in Hp. Qed.
Lemma put_entry_ids i s es : entry_id <$> put i s es = entry_id <$> es.
Proof. by rewrite !ids_registrations, put_ids. Qed.
Lemma stop_loop_each todo : ∀ fs es w,
  NoDup (entry_id <$> es) → NoDup (service_id <$> todo) → Forall (λ r, mk_registered r Ready ∈ es) todo →
  stop_loop todo fs es w = let '(es', w', fs') := stop_each todo fs es w in (es', w', Ok fs').
Proof.
  induction todo as [|r todo IH]; intros fs es w Hd Hn Hin; [done|]. cbn in Hn. apply NoDup_cons in Hn as [Hr Hn]. apply Forall_cons in Hin as [Hin Hrest].
  cbn [stop_loop stop_each]. rewrite (transition_put _ _ _ _ _ Hd Hin) by done.
  assert (Hd' : NoDup (entry_id <$> put (service_id r) Stopping es)) by by rewrite put_entry_ids.
  pose proof (put_in (service_id r) Stopping es _ Hin) as Hp. rewrite decide_True in Hp by done.
  assert (Hrest' : ∀ s, Forall (λ r', mk_registered r' Ready ∈ put (service_id r) s es) todo).
  { intros s. apply Forall_forall. intros r' Hr'. apply put_keeps; [by eapply Forall_forall in Hrest; [|exact Hr']|].
    intros He. apply Hr. change (service_id r' = service_id r) in He. rewrite <- He. by apply list_elem_of_fmap_2. }
  destruct (component_stop r w) as [w1 [[]|error]]; cbn [end_of failure_of].
  - rewrite (transition_put _ _ _ _ _ Hd' Hp) by done. rewrite put_put, IH by (done || by rewrite put_entry_ids). by rewrite app_nil_r.
  - rewrite set_state_put; [|done|]; [|apply (list_elem_of_fmap_2 entry_id _ _ Hp)]. rewrite put_put. by apply IH; [rewrite put_entry_ids| |].
Qed.
Lemma stop_each_spec todo : ∀ fs es w es' w' fs',
  stop_each todo fs es w = (es', w', fs') →
  w' = foldl stop_one w todo ∧ (∃ more, fs' = fs ++ more) ∧
  Forall2 (λ e e', registration e' = registration e ∧
    if decide (entry_id e ∈ service_id <$> todo) then state e' = Stopped ∨ state e' = Failed ∧ fs' ≠ fs else state e' = state e) es es'.
Proof.
  induction todo as [|r todo IH]; intros fs es w es' w' fs' Hs; cbn [stop_each] in Hs.
  - injection Hs as -> -> ->. split_and!; [done|by exists []; rewrite app_nil_r|]. apply Forall2_same_length_lookup_2; [done|].
    intros i e e' He He'. simplify_eq. split; [done|]. by rewrite decide_False by apply not_elem_of_nil.
  - destruct (component_stop r w) as [w1 res] eqn:Er. apply IH in Hs as (Hw & [more Hm] & HF). split_and!.
    + cbn [foldl]. unfold stop_one at 2. by rewrite Er.
    + exists (failure_of r res ++ more). by rewrite Hm, (assoc_L (++)).
    + assert (Hfs : fs' = fs → failure_of r res = [] ∧ fs' = fs ++ failure_of r res).
      { intros Hf. rewrite Hm, <- (assoc_L (++)) in Hf. rewrite <- (app_nil_r fs) in Hf at 2. apply app_inv_head in Hf.
        apply app_nil in Hf as [Hf ->]. by rewrite Hm, app_nil_r. }
      unfold put in HF. apply Forall2_fmap_l in HF. eapply Forall2_impl; [exact HF|]. clear HF. cbn beta. intros e e'. rewrite fmap_cons.
      intros (Hr & Hst). destruct (decide (entry_id e = service_id r)) as [He|He] in Hr, Hst; (split; [exact Hr|]).
      * rewrite decide_True by (rewrite He; by left). change (entry_id (set_entry (end_of res) e)) with (entry_id e) in Hst.
        destruct (decide (entry_id e ∈ service_id <$> todo)); [destruct Hst as [?|[? Hst]]; [by left|right; split; [done|naive_solver]]|].
        rewrite Hst. destruct res as [[]|]; [by left|right]. split; [done|]. intros Hf. by apply Hfs in Hf as [??].
      * destruct (decide (entry_id e ∈ service_id <$> todo)) as [Hin|Hin].
        -- rewrite decide_True by by right. destruct Hst as [?|[? Hst]]; [by left|right; split; [done|naive_solver]].
        -- rewrite decide_False; [done|]. intros [Hx|Hx]%elem_of_cons; done.
Qed.

Lemma ready_in es r : r ∈ ready es → mk_registered r Ready ∈ es.
Proof. unfold ready. intros ([r' s] & -> & [Hs Hin]%list_elem_of_filter)%list_elem_of_fmap. cbn in *. by subst s. Qed.
Lemma ready_ids es : NoDup (entry_id <$> es) → NoDup (service_id <$> ready es).
Proof.
  intros Hd. unfold ready. rewrite <- list_fmap_compose. induction es as [|e es IH]; [constructor|]. cbn in Hd. apply NoDup_cons in Hd as [Hn Hd].
  rewrite filter_cons. case_decide; [|by apply IH]. cbn. apply NoDup_cons. split; [|by apply IH].
  intros ([? ?] & He & [_ Hin]%list_elem_of_filter)%list_elem_of_fmap. apply Hn. apply list_elem_of_fmap. eexists. by split.
Qed.
Lemma ready_iff es e : NoDup (entry_id <$> es) → e ∈ es → entry_id e ∈ service_id <$> ready es ↔ state e = Ready.
Proof.
  intros Hd Hin. split.
  - intros (r & He & Hr)%list_elem_of_fmap. apply ready_in in Hr. enough (e = mk_registered r Ready) as -> by done.
    apply list_elem_of_lookup in Hin as [i Hi], Hr as [j Hj].
    assert (i = j) as <-; [|by simplify_eq]. apply (NoDup_lookup _ i j (entry_id e) Hd); rewrite list_lookup_fmap; [by rewrite Hi|rewrite Hj; cbn; by rewrite He].
  - intros Hs. apply list_elem_of_fmap. exists (registration e). split; [done|]. apply list_elem_of_fmap. exists e. split; [done|]. by apply list_elem_of_filter.
Qed.
Lemma stop_all_parts es (w : W) es' w' res :
  NoDup (entry_id <$> es) → stop_all es w = (es', w', res) →
  w' = foldl stop_one w (reverse (ready es)) ∧
  Forall2 (λ e e', registration e' = registration e ∧
    if decide (state e = Ready) then state e' = Stopped ∨ state e' = Failed ∧ res ≠ Ok tt else state e' = state e) es es'.
Proof.
  intros Hd Hs. unfold stop_all, stop_ready in Hs. rewrite stop_loop_each in Hs; [|done| |].
  2: { rewrite fmap_reverse, reverse_Permutation. by apply ready_ids. }
  2: { apply Forall_forall. intros r Hr. rewrite elem_of_reverse in Hr. by apply ready_in. }
  destruct (stop_each _ _ _ _) as [[es1 w1] fs] eqn:He. apply stop_each_spec in He as (Hw & _ & HF).
  assert (es1 = es' ∧ w1 = w' ∧ (fs ≠ [] → res ≠ Ok tt)) as (-> & -> & Hres) by (destruct fs; simplify_eq; auto). split; [done|].
  apply Forall2_same_length_lookup in HF as [Hl HF]. apply Forall2_same_length_lookup. split; [done|]. intros i e e' Hi Hi'.
  destruct (HF i e e' Hi Hi') as [Hr Hst]. split; [done|]. rewrite fmap_reverse in Hst.
  assert (Hiff : entry_id e ∈ reverse (service_id <$> ready es) ↔ state e = Ready).
  { rewrite elem_of_reverse. apply ready_iff; [done|]. by eapply list_elem_of_lookup_2. }
  destruct (decide (entry_id e ∈ _)) as [Hx|Hx] in Hst.
  - rewrite decide_True by by apply Hiff. naive_solver.
  - rewrite decide_False by naive_solver. done.
Qed.

Lemma put_middle d (e : RegisteredSystemService W) t s : NoDup (entry_id <$> (d ++ e :: t)) → put (entry_id e) s (d ++ e :: t) = d ++ set_entry s e :: t.
Proof.
  intros Hd. unfold put. rewrite fmap_app. fold (put (entry_id e) s d). fold (put (entry_id e) s (e :: t)). rewrite put_cons, decide_True by done.
  rewrite fmap_app, fmap_cons in Hd. apply NoDup_app in Hd as (_ & Hn & [Ht _]%NoDup_cons). rewrite !put_absent; [done|done|].
  intros Hi. apply (Hn _ Hi). by left.
Qed.
Lemma set_entry_ids s d (e : RegisteredSystemService W) t : entry_id <$> (d ++ set_entry s e :: t) = entry_id <$> (d ++ e :: t).
Proof. by rewrite !fmap_app, !fmap_cons. Qed.
Lemma ready_all es : Forall (λ e, state e = Ready) es → ready es = registration <$> es.
Proof. unfold ready. induction 1 as [|e es He _ IH]; [done|]. by rewrite filter_cons, decide_True, !fmap_cons, IH. Qed.
Lemma ready_none es : Forall (λ e, state e = Registered) es → ready es = [].
Proof. unfold ready. induction 1 as [|e es He _ IH]; [done|]. rewrite filter_cons, decide_False by (rewrite He; done). done. Qed.
Lemma ready_app es1 es2 : ready (es1 ++ es2) = ready es1 ++ ready es2.
Proof. unfold ready. by rewrite filter_app, fmap_app. Qed.

Notation set_ready := (fmap (M := list) (set_entry (W := W) Ready)).
Definition rolled_back (rs : list (SystemServiceRegistration W)) (back : Services) : Prop :=
  Forall2 (λ r x, registration x = r ∧ (state x = Stopped ∨ state x = Failed)) rs back.
(** What starting [todo] makes of it, with [d] started before. *)
Definition started d todo (w : W) es' w' (res : Result unit PulsingError) : Prop :=
  (res = Ok tt ∧ es' = d ++ set_ready todo ∧ w' = foldl start_one w (registration <$> todo)) ∨
  ∃ before e after error w1 back,
    todo = before ++ e :: after ∧ component_start (registration e) (foldl start_one w (registration <$> before)) = (w1, Err error) ∧
    res = Err error ∧ w' = foldl stop_one w1 (reverse (registration <$> d ++ before)) ∧
    es' = back ++ set_entry Failed e :: after ∧
    rolled_back (registration <$> d ++ before) back.
Lemma same_entry (e e' : RegisteredSystemService W) : registration e' = registration e → state e' = state e → e' = e.
Proof. destruct e, e'. cbn. by intros -> ->. Qed.
Lemma rollback d e t (w : W) es' w' res :
  NoDup (entry_id <$> (d ++ e :: t)) → Forall (λ x, state x = Ready) d → Forall (λ x, state x = Registered) t → state e = Failed →
  stop_ready (d ++ e :: t) w = (es', w', res) →
  w' = foldl stop_one w (reverse (registration <$> d)) ∧
  ∃ back, es' = back ++ e :: t ∧ rolled_back (registration <$> d) back.
Proof.
  intros Hd Hdr Ht He Hs. apply stop_all_parts in Hs as [Hw HF]; [|done].
  rewrite ready_app, (ready_all d Hdr) in Hw. unfold ready in Hw at 1. rewrite filter_cons, decide_False in Hw by (by rewrite He).
  fold (ready t) in Hw. rewrite (ready_none t Ht), app_nil_r in Hw. split; [done|].
  apply Forall2_app_inv_l in HF as (back & rest & HF & Hrest & ->). exists back. split.
  - f_equal. apply Forall2_cons_inv_l in Hrest as (e' & t' & [Hr Hst] & Ht' & ->). rewrite decide_False in Hst by (by rewrite He).
    f_equal; [by apply same_entry|]. clear -Ht Ht'. induction Ht' as [|x x' t t' [Hr Hst] _ IH]; [done|]. apply Forall_cons in Ht as [Hx Ht].
    rewrite decide_False in Hst by (by rewrite Hx). f_equal; [by apply same_entry|auto].
  - unfold rolled_back. apply Forall2_fmap_l. clear -HF Hdr. induction HF as [|x x' l l' [Hr Hst] _ IH]; [constructor|]. apply Forall_cons in Hdr as [Hx Hdr]. constructor; [|auto].
    split; [done|]. rewrite decide_True in Hst by done. naive_solver.
Qed.
Lemma start_loop_spec todo : ∀ d (w : W) es' w' res,
  NoDup (entry_id <$> (d ++ todo)) → Forall (λ x, state x = Ready) d → Forall (λ x, state x = Registered) todo →
  start_loop (registration <$> todo) (d ++ todo) w = (es', w', res) → started d todo w es' w' res.
Proof.
  induction todo as [|e todo IH]; intros d w es' w' res Hd Hdr Ht Hs.
  { injection Hs as <- <- <-. by left. }
  apply Forall_cons in Ht as [He Ht]. rewrite fmap_cons in Hs. cbn [start_loop] in Hs. change (service_id (registration e)) with (entry_id e) in Hs.
  assert (Hin : ∀ s, set_entry s e ∈ d ++ set_entry s e :: todo) by (intros; apply elem_of_app; right; by left).
  rewrite (transition_put _ Registered Starting _ e Hd) in Hs; [|apply elem_of_app; right; by left|done|done]. rewrite put_middle in Hs by done.
  assert (Hd' : ∀ s, NoDup (entry_id <$> (d ++ set_entry s e :: todo))) by (intros; by rewrite set_entry_ids).
  destruct (component_start (registration e) w) as [w1 [[]|error]] eqn:Ec.
  - rewrite (transition_put _ Starting Ready _ (set_entry Starting e) (Hd' _) (Hin _)) in Hs by done.
    change (entry_id e) with (entry_id (set_entry Starting e)) in Hs. rewrite (put_middle d (set_entry Starting e)) in Hs by done.
    change (set_entry Ready (set_entry Starting e)) with (set_entry Ready e) in Hs. rewrite cons_middle, (assoc_L (++)) in Hs.
    apply IH in Hs; [|rewrite <- (assoc_L (++)); apply Hd'|apply Forall_app; split; [done|by constructor]|done].
    assert (Hw1 : w1 = start_one w (registration e)) by (unfold start_one; by rewrite Ec).
    destruct Hs as [(-> & -> & ->)|(before & x & after & error & w2 & back & -> & Hc & -> & -> & -> & HF)].
    + left. by rewrite fmap_cons, <- (assoc_L (++)), Hw1.
    + right. assert (Hreg : registration <$> (d ++ [set_entry Ready e]) ++ before = registration <$> d ++ e :: before).
      { by rewrite <- (assoc_L (++)), !fmap_app. }
      exists (e :: before), x, after, error, w2, back. rewrite <- Hreg. split_and!; [done| |done..]. by rewrite fmap_cons, Hw1 in *.
  - change (entry_id e) with (entry_id (set_entry Starting e)) in Hs. rewrite set_state_put in Hs by (first [done|by apply list_elem_of_fmap_2]).
    rewrite (put_middle d (set_entry Starting e)) in Hs by done. change (set_entry Failed (set_entry Starting e)) with (set_entry Failed e) in Hs.
    destruct (stop_ready (d ++ set_entry Failed e :: todo) w1) as [[es1 w2] res1] eqn:Hst. injection Hs as <- <- <-.
    apply rollback in Hst as (-> & back & -> & Hb); [|done..]. right. exists [], e, todo, error, w1, back. by rewrite app_nil_r.
Qed.

(** ** Stopping and starting everything *)
(** Stopping stops every service that was ready, each once, the last one
    first, even after failures; it answers well only when none of them failed. *)
Theorem stop_all_spec es (w : W) es' w' res :
  NoDup (entry_id <$> es) → stop_all es w = (es', w', res) →
  w' = foldl stop_one w (reverse (ready es)) ∧
  Forall2 (λ e e', registration e' = registration e ∧
    if decide (state e = Ready) then state e' = Stopped ∨ state e' = Failed ∧ res ≠ Ok tt else state e' = state e) es es'.
Proof. apply stop_all_parts. Qed.
(** Starting registered services in their order either makes all of them
    ready, or ends at the first that does not start: that one has failed, those
    behind it were not touched, and those in front of it have been stopped
    again, in reverse; what failed is what is answered. *)
Theorem start_all_spec es (w : W) es' w' res :
  NoDup (entry_id <$> es) → Forall (λ e, state e = Registered) es → start_all es w = (es', w', res) → started [] es w es' w' res.
Proof. intros Hd Hr Hs. by apply (start_loop_spec es []). Qed.
End Lifecycle.

(** ** The actor's life *)
(** What is set is what is read, and nothing else of the node's state. *)
Class SystemHostLaws (W : Type) `{SystemHost W} := {
  state_set : ∀ s (w : W), node_state (set_node_state s w) = s;
  state_shm : ∀ s (w : W), node_state (set_shm s w) = node_state w;
  shm_set : ∀ s (w : W), shm (set_shm s w) = s
}.
Section Life.
Context {W : Type} `{SystemHostLaws W}.
Implicit Types (w : W).
(** The service of a command, without registry and states. *)
Definition serve (c : SystemCommand) : W → W * Result SystemResponse PulsingError :=
  match c with CmdRuntime _ => runtime_handle c | CmdActors _ => actors_handle c | CmdMetrics => metrics_handle c | CmdShm => shm_handle c end.
Definition changes_actors (c : SystemCommand) : bool :=
  match c with CmdActors (Create _ _ _ _ | Stop _ | Extension _ _) => true | _ => false end.
Definition all_in (s : SystemServiceState) : list (RegisteredSystemService W) := (λ r, mk_registered r s) <$> registrations.
Definition served (es : list (RegisteredSystemService W)) : Prop := ∀ c w,
  dispatch es c (node_state w) w =
    if is_draining (node_state w) && changes_actors c
    then (w, Err (service_error (lit "operation " ++ operation_of c ++ lit " is unavailable while the node is draining")))
    else serve c w.
Definition refused (es : list (RegisteredSystemService W)) : Prop := ∀ c w,
  dispatch es c (node_state w) w = (w, Err (service_error (lit "service " ++ id_text (target c) ++ lit " is not ready (Stopped)"))).

Lemma started_serves : served (all_in Ready).
Proof.
  intros c w. destruct c as [[]|[]| |]; unfold dispatch; cbn; by destruct (is_draining (node_state w)).
Qed.
Lemma stopped_refuses : refused (all_in Stopped).
Proof. intros c w. by destruct c as [[]|[]| |]. Qed.
Lemma builtin_start w : start_all (all_in Registered) w = (all_in Ready, w, Ok tt).
Proof. done. Qed.
Lemma builtin_stop w : stop_all (all_in Ready) w = (all_in Stopped, set_shm (clear (shm w)) w, Ok tt).
Proof. done. Qed.
Lemma moves s s' w : node_state w = s → Runtime.can_transition_to s s' = true → s ≠ s' → transition_node s' w = (set_node_state s' w, Ok tt).
Proof. intros Hs Hc Hn. unfold transition_node. by rewrite Hs, bool_decide_false, Hc. Qed.
Lemma draining_begins w : ∃ w', begin_draining w = (w', Ok tt) ∧ is_draining (node_state w') || bool_decide (node_state w' = Runtime.NodeStopped) = true.
Proof.
  unfold begin_draining, transition_node. destruct (node_state w) eqn:Hs; cbn; try rewrite bool_decide_false by done; cbn;
    eexists; split; try done; cbn; rewrite ?Hs, ?state_set; done.
Qed.

(** C21: The actor of the built-in services: it is built without a panic; a booting
    node becomes ready when it starts; a command then goes to its own service,
    and while the node drains those that change actors are refused; when it
    stops, the node drains, every service has been stopped and refuses, and no
    descriptor of shared memory maps any more. *)
Theorem system_actor_lifecycle w :
  node_state w = Runtime.Booting →
  ∃ es es1 w1, build_services = Some es ∧ on_start es w = (es1, w1, Ok tt) ∧ node_state w1 = Runtime.Ready ∧ served es1 ∧
    ∀ w2, ∃ es3 w3, on_stop es1 w2 = (es3, w3, Ok tt) ∧
      (node_state w3 = Runtime.Draining ∨ node_state w3 = Runtime.NodeStopped) ∧ refused es3 ∧
      ∀ now d, ∃ m, (map_region now d (shm w3)).2 = Err m.
Proof.
  intros Hb. exists (all_in Registered), (all_in Ready), (set_node_state Runtime.Ready (set_node_state Runtime.Starting w)). split_and!; [done| | |exact started_serves|].
  - unfold on_start. rewrite (moves Runtime.Booting) by done. rewrite builtin_start.
    rewrite (moves Runtime.Starting Runtime.Ready (set_node_state Runtime.Starting w)); [done|apply state_set|done..].
  - apply state_set.
  - intros w2. destruct (draining_begins w2) as (w' & Hw' & Hs). exists (all_in Stopped), (set_shm (clear (shm w')) w'). split_and!.
    + unfold on_stop. by rewrite Hw', builtin_stop.
    + rewrite state_shm. destruct (node_state w'); cbn in Hs; try done; auto.
    + exact stopped_refuses.
    + intros now d. rewrite shm_set. eexists. unfold map_region. cbn. by rewrite lookup_empty.
Qed.
End Life.

(** ** Recent measurements *)
Lemma tail_reverse_take {A} (k : nat) (l : list A) : (S k <= length l)%nat → tail (reverse (take (S k) l)) = reverse (take k l).
Proof. intros Hk. destruct (lookup_lt_is_Some_2 l k ltac:(lia)) as [x Hx]. rewrite (take_S_r _ _ _ Hx), reverse_snoc. done. Qed.
(** The store keeps the last [capacity] measurements, and [recent] reads them
    the newest first. *)
Theorem recent_are_the_last (c limit : nat) (xs : list PerformanceSnapshot) :
  recent limit (foldl (λ s x, record_snapshot x s) (PerformanceStore_new c) xs) = take (Nat.min limit (Nat.max c 1)) (reverse xs).
Proof.
  assert (Hk : foldl (λ s x, record_snapshot x s) (PerformanceStore_new c) xs =
               mk_store (Nat.max c 1) (reverse (take (Nat.max c 1) (reverse xs)))).
  { induction xs as [|x xs IH] using rev_ind; [change (reverse (@nil PerformanceSnapshot)) with (@nil PerformanceSnapshot); by rewrite take_nil|]. rewrite foldl_snoc, IH. unfold record_snapshot. cbn [capacity snapshots]. f_equal.
    rewrite (reverse_snoc xs x). rewrite length_reverse, length_take. pose proof (length_reverse xs) as Hlr. destruct (Nat.max c 1) as [|k] eqn:Hk; [lia|]. cbn [take]. rewrite reverse_cons. f_equal.
    case_match eqn:Hl.
    - apply Nat.leb_le in Hl. apply tail_reverse_take. lia.
    - apply Nat.leb_gt in Hl. rewrite (take_ge (reverse xs) (S k)), (take_ge (reverse xs) k) by lia. done. }
  rewrite Hk. unfold recent. cbn [snapshots]. rewrite reverse_involutive, length_reverse, take_take, length_take, length_reverse.
  destruct (decide (Nat.min limit (Nat.max c 1) ≤ length xs)%nat); [by f_equal; lia|]. rewrite !take_ge; [done|rewrite length_reverse; lia..].
Qed.

(** ** Concrete runs *)
(** Three services write their starts and stops into a list; the third does
    not start. *)
Definition noting (fails : bool) (n : Z) : SystemServiceRegistration (list Z) :=
  mk_service (mk_service_manifest (mk_id (lit "s") n) ExtensionKind LocalOnly [operation (lit "ping") Read true])
    (λ w, (w ++ [n], if fails then Err (service_error (lit "no")) else Ok tt)) (λ w, (w ++ [-n], Ok tt)) (λ _ w, (w, Ok RespOk)).
Definition three : list (RegisteredSystemService (list Z)) := (λ r, mk_registered r Registered) <$> [noting false 1; noting false 2; noting true 3].
Example third_fails :
  let '(es, w, r) := start_all three [] in
  (state <$> es, w, r) = ([Stopped; Stopped; Failed], [1; 2; 3; -2; -1], Err (service_error (lit "no"))).
Proof. vm_compute. reflexivity. Qed.
Lemma start_all_spec_witness : ∃ es' w' res, start_all three [] = (es', w', res) ∧ started [] three [] es' w' res.
Proof.
  destruct (start_all three []) as [[es' w'] res] eqn:Hs. exists es', w', res. split; [done|]. apply start_all_spec; [|repeat constructor|exact Hs].
  apply (bool_decide_unpack _). vm_compute. exact I.
Defined.
Definition two_ready : list (RegisteredSystemService (list Z)) := [mk_registered (noting false 1) Ready; mk_registered (noting false 2) Ready].
Lemma stop_all_spec_witness : ∃ es' w' res, stop_all two_ready [] = (es', w', res) ∧ w' = [-2; -1].
Proof.
  destruct (stop_all two_ready []) as [[es' w'] res] eqn:Hs. exists es', w', res. split; [done|].
  destruct (stop_all_spec two_ready [] es' w' res) as [-> _]; [|exact Hs|reflexivity]. apply (bool_decide_unpack _). vm_compute. exact I.
Defined.

(** A host: the node's state, its counter of messages and its shared memory. *)
Record Host := mk_host { h_state : NodeState; h_messages : Z; h_shm : ShmState; h_store : PerformanceStore }.
#[export] Instance quiet_host : SystemHost Host := {
  host_node_id := 7; host_addr := lit "127.0.0.1:8000"; uptime_secs _ := 0; now_millis _ := 0; now_micros _ := 0; shm_now _ := 0;
  actors := mk_control (λ _, []) (λ _ _, None) (λ _, 0) (λ _, 0) (λ _ w, (w, Ok false));
  node_state := h_state; set_node_state s w := mk_host s (h_messages w) (h_shm w) (h_store w);
  messages_total := h_messages; actors_created _ := 0; actors_stopped _ := 0;
  set_messages_total n w := mk_host (h_state w) n (h_shm w) (h_store w);
  store := h_store; set_store s w := mk_host (h_state w) (h_messages w) (h_shm w) s; write_metrics _ w := w;
  shm := h_shm; set_shm s w := mk_host (h_state w) (h_messages w) s (h_store w);
  handle_extension _ _ w := (w, RespError (lit "no extension")); node_id_text := display_u128 }.
#[export] Instance quiet_host_laws : SystemHostLaws Host.
Proof. by constructor. Qed.
Definition booting_host : Host := mk_host Runtime.Booting 0 ShmManager_new (PerformanceStore_new 8).
Lemma system_actor_lifecycle_witness :
  ∃ es es1 w1, build_services = Some es ∧ on_start es booting_host = (es1, w1, Ok tt) ∧ node_state w1 = Runtime.Ready ∧ served es1.
Proof.
  destruct (system_actor_lifecycle (W := Host) booting_host) as (es & es1 & w1 & Hb & Hs & Hr & Hv & _); [reflexivity|]. by exists es, es1, w1.
Defined.
(** A plain name stands for the actor below [actors/], and the control plane
    does not stop itself. *)
Definition one_named : HostRegistry := mk_host_registry {[lit "actors/counter" := 5]} ∅.
Example short_name_is_stopped :
  (resolve_stop one_named (lit "counter"), resolve_stop one_named (lit "a/counter"),
   hosted_stop (λ _ : unit, Some one_named) (λ _ w, (w, Ok tt)) system_actor_path tt) =
  (Some (lit "actors/counter"), None, (tt, Ok false)).
Proof. vm_compute. reflexivity. Qed.
